(* ===== verification/_CoqProject ===== *)
-Q . S2P
Prelude.v
Device.v
MemRange.v
Mtrr.v
MtrrCover.v
MtrrFixed.v
TimerQueue.v
Region.v
Bytes.v
Mapped.v
Cbfs.v
Fmap.v
CbfsLoad.v
Memory.v
Lz4.v
Lz4Format.v
Lz4Copy.v
Lz4Correct.v
Lz4Roundtrip.v
Lz4Safe.v
Imd.v
Cbmem.v
Rmodule.v
StageLoad.v
Bootmem.v
SelfBoot.v
BootState.v
Allocator.v
AllocatorOrder.v
AllocatorPlace.v
AllocatorFit.v
AllocatorAvoid.v
DevTree.v
PciResource.v
PciScan.v
PciTopology.v
Ddr3.v
RegionFile.v
Rtc.v
Cmos.v
CmosCorrect.v
CmosOptions.v
CmosBoot.v
IpChecksum.v
Base64.v
Elog.v
ElogMirror.v
ElogLog.v
ElogCorrect.v
ElogSample.v
ElogUsers.v
BootCount.v
