(* ===== verification/Prelude.v ===== *)
(** * Verification of the coreboot firmware core

    A Rocq library beside the coreboot tree of this repository
    ([src/coreboot], board Supermicro X9SPU-F, Sandy Bridge).  The firmware
    boots in stages; the library models the data structures and algorithms
    ramstage runs on: the device tree and its resources, the memory map and
    the MTRRs computed from it, timers, access to storage through region
    devices, the in-memory database that carries data between stages, and the
    loaders that go from flash to ramstage and to the payload.
    File names below are relative to [src/coreboot/src].

    ** Files

    - [Prelude]: machine integers ([u8 .. u64], [s32]: values are [Z], reduced
      where the C type wraps), [ALIGN_UP], [ALIGN_DOWN], [IS_POWER_OF_2]
      ([commonlib/include/commonlib/helpers.h]), the tactics [bool_to_prop],
      [case_bool] and [zbool], the hint database [cb], list lemmas.
    - [Device]: [include/device/{device,path,resource}.h],
      [device/device_util.c] and the allocation of [device/device.c].
      Structures live in a store [dstate]; pointers are [nat]; C chains are
      lists of pointers in chain order.
    - [MemRange]: [lib/memrange.c].  A [memranges] is the entry chain and the
      cache of free nodes.  Theorems: insertion, holes, tag updates and filling
      act pointwise on the function from addresses to tags ([tag_at]); runs of
      insertions, holes, tag updates, teardowns and fills whose gaps begin below the
      limit ([ops_ok]) keep the chain sorted and disjoint; nodes are never lost.
    - [Mtrr]: [cpu/x86/mtrr/mtrr.c] on top of [MemRange]; MSRs are a function
      and every write and cache switch is also kept in a trace.
    - [MtrrCover]: the variable MTRRs.  The specification is the processor's
      matching and precedence rule ([effective]); the theorem for
      [x86_setup_var_mtrrs] says the programmed registers give every address
      its range's type.
    - [MtrrFixed]: the same for the fixed MTRRs below 1 MiB.
    - [TimerQueue]: [lib/timer_queue.c], a binary heap of callback pointers.
      Theorems: heap invariant over reachable queues, scheduling, and that
      runs call the due callbacks in order.
    - [Region]: [commonlib/region.c] and [commonlib/mem_pool.c].  The
      specification of an access is the place ([backing]) it resolves to.
      Theorems: bounds, read after write, chaining, mapping, pools.
    - [Bytes]: words and strings in byte lists.  [Mapped]: the class [MappedRoot]
      of devices whose content is an image in memory, what the flash parsers
      need of [Region].
    - [Cbfs]: [commonlib/cbfs.c].  The specification is the list of files an
      image holds; theorems for lookup, termination on any content, hashing
      (the digest is the class [Digest]).
    - [Fmap]: [lib/fmap.c] and [lib/boot_device.c].
    - [CbfsLoad]: [lib/cbfs.c], [arch/x86/mmap_boot.c] and [prog_locate]: a stage
      is found, read, unpacked and placed; decompressors are the class
      [Decompressor].
    - [Imd]: [lib/imd.c] over a byte memory.  The specification is an abstract
      directory [aroot] (a list of allocations) with the relation [rep]
      between it and memory; every operation refines its abstract step, and a
      directory used in any order is recovered with the same contents, where no client
      adds under the id of the small region and allocations stay above address 0.
    - [Memory]: memory as bytes, [arch/x86/memcpy.c].
    - [Lz4]: [commonlib/lz4_wrapper.c] and [lz4.c.inc].  [Lz4Format] is the format: an
      encoder and a reference decoder on lists.  [Lz4Copy]: what the copies in steps of
      eight bytes do.  Theorems: the code is the reference decoder, in place and apart,
      an instance of [Decompressor] ([Lz4Correct]); what is packed is unpacked
      ([Lz4Roundtrip]); any input at all stays in its buffer ([Lz4Safe]).
    - [Cbmem]: [lib/imd_cbmem.c], the two-tier directory at the top of RAM as its
      clients see it.  The specification ([ghost]) is the map of regions;
      [reach] is what any sequence of stages and clients makes.
    - [Rmodule]: [lib/rmodule.c].  The specification of loading is the [image] of
      a linked program.  [StageLoad]: [rmodule_stage_load],
      [lib/romstage_handoff.c], [lib/cbmem_stage_cache.c] and [run_ramstage] of
      [lib/prog_loaders.c]: boot and resume of ramstage.
    - [Bootmem]: [lib/bootmem.c], the memory map for payloads.  [SelfBoot]:
      [lib/selfboot.c], the loader of payloads with its bounce buffer.
    - [BootState]: [lib/hardwaremain.c], the boot state machine.  States, the
      callback chains and the blockers are explicit; the work of a state and
      the callbacks are arguments.  Theorems: the order of states, every
      callback once and in its phase, termination, bounds of the samples.
    - [Allocator]: the resource allocator of [device/device.c], from the pick
      of the next resource to [dev_configure].  [AllocatorOrder]: the pick is a
      stable sort by alignment and size.  [AllocatorPlace]: what one bus gets
      is aligned, disjoint and in its limits.  [AllocatorFit]: the size
      computed bottom-up is enough for the placement top-down.
      [AllocatorAvoid]: the window of a domain avoids the fixed resources; memory is
      moved to the highest aligned place, which is in the window exactly when one is.
    - [DevTree]: the other passes of [device/device.c] (scan, enable, init,
      final).  Device operations are functions on the tree; the calls made are
      recorded in order.  Its theorem is about operations that leave the tree alone;
      [initialize_cpus], which adds the processors it finds, is none of these.
    - [PciResource]: sizing and storing of resources in [device/pci_device.c].
      Configuration registers are known by the class [ConfigRegs]; a register
      file is an instance.  Theorems: sizing a device finds each register's
      resource and restores the hardware; a stored address is the one decoded;
      a bridge forwards exactly its window.
    - [PciScan]: the bus scan of [device/pci_device.c] and interrupt routing.
      [PciTopology]: a model of PCI hardware that forwards configuration cycles
      by the bridges' bus numbers, and the tree that a scan of it builds.
    - [Ddr3]: [device/dram/ddr3.c].  The specification of the CRC is
      polynomial division, that of decoding the bit fields of the SPD, that of
      the mode registers the layout of the standard.
    - [RegionFile]: [lib/region_file.c] on top of [Region].  What it needs of
      the storage is the class [NorFlash]; a flash in memory is an instance.
    - [Rtc]: [lib/rtc.c], dates and seconds.
    - [Cmos]: [drivers/pc80/rtc/mc146818rtc.c], [mc146818rtc_early.c], their header
      and the post codes of [console/post.c].  [CmosCorrect]: the class [CmosHardware]
      of parts behind index and data ports, plain memory as an instance, and every
      operation as one on the cells alone.  [CmosOptions]: an option set is read back
      and the others stay.  [CmosBoot]: the clock, initialisation, the choice of the
      image as a refinement of a counter of attempts, the codes left for the next boot.
    - [IpChecksum]: [lib/compute_ip_checksum.c].  [Base64]: [lib/b64_decode.c].
    - [Elog]: [drivers/elog/elog.c], the event log in the flash and its mirror in
      memory.  [ElogLog] is the specification: what a region means as a list of events
      ([decode]) and what adding one does to the list ([log_add], or [log_try] where the
      region may be too full).  [ElogMirror]: the
      mirror and the flash as lists of bytes.  [ElogCorrect]: adding, setting up and
      clearing refine the specification, whatever the region holds at first, and events
      outlive a reset.  [ElogSample]: a
      machine with a log, for the witnesses.  [ElogUsers]: [drivers/elog/gsmi.c] against
      the interface [EventLog], and the SMBIOS entry.  [BootCount]:
      [drivers/elog/boot_count.c].

    ** How the parts interact

    [memranges_add_resources] ([MemRange]) walks the resources of [Device];
    [get_physical_address_space] ([Mtrr]) builds the tagged map the MTRR
    calculation uses.  [Allocator] and [DevTree] work on the store of [Device];
    the allocator's walk over a bus is [search_bus_resources] there.
    [RegionFile] reads and writes through the region devices of [Region], whose
    driver it knows only by the laws of [NorFlash].  [Cbfs], [Fmap] and [CbfsLoad]
    read the boot device through [Region] too, by the laws of [MappedRoot];
    [CbfsLoad] calls [Cbfs].  [PciResource] makes the resources [Allocator] places
    and stores what it placed; [PciTopology] gives [PciScan] its hardware, and the class
    [Platform] what drivers may do.  [Imd] has its own memory, [Cbmem] is built on
    it; [StageLoad] uses [CbfsLoad] to unpack, [Cbmem] for the place and [Rmodule] to
    relocate.  [Bootmem] builds its map with [MemRange] and adds the CBMEM tables;
    [SelfBoot] takes segments from a file of [CbfsLoad] and places from [Bootmem].
    [Lz4Correct] gives the loaders their LZ4 decompressor.
    [Cmos] finds the table of the options with [CbfsLoad].  [Elog] finds its region with
    [Fmap], reads and writes it by the laws of [NorFlash], and takes the clock, the count of
    boots and the codes as functions of the drivers' state, as [Cmos] and [BootCount] have
    them; the SMBIOS entry copies the log into [Cbmem].  Timers stand on the callback
    store.  Code of the platform (drivers behind a region device,
    callbacks, CPUID, the resource of a VGA controller) is a parameter of the
    definitions that use it.

    ** Machine model

    The board builds ramstage as 32-bit x86: [size_t], [uintptr_t], [long] and
    pointers have 32 bits, [resource_t] has 64.  Signed overflow is modelled as
    two's complement.  Pointers into memory are addresses, NULL is 0 or [None].

    ** Fuel

    Loops whose end is not structural take fuel, always shown to be enough.
    [calc_var_mtrr_range] uses 64 steps: a 32-bit size has at most 62 blocks
    ([MtrrCover.no_hole_count_bound], [calc_var_mtrr_range_exact]).  The heap
    loops of [TimerQueue] use the number of entries, which bounds the depth.
    The merge loops of [MemRange] are structural.  [search_bus_resources]
    takes the depth of nested subtractive bridges as an argument, the walks of
    [Allocator] and [DevTree] the depth of the device tree; their theorems
    assume it is enough through [subtree] or [order_links], which give [None]
    when it is not.  A bus is placed in as many rounds as it has resources
    ([AllocatorOrder.schedule_length]).  Rescans take as many rounds as the
    measure of [scan_bus_settles].  A region file update takes at most four
    turns ([region_file_update_correct]).  A CBFS scan takes a round for each 64
    bytes of its region ([cbfs_locate_terminates]).  [PciResource.lowest_bit] takes
    64 rounds, the width of its argument; capability lists 48, as the code.  A PCI bus
    is probed in 256 rounds, its functions; a scan takes the depth of the topology
    and the rounds of its buses ([PciTopology.pci_domain_scan_correct]); the walk for an
    interrupt pin the number of bridges above.  [SelfBoot.load_loop] takes four rounds
    for each segment and one more, as the bounce buffer splits a segment in three;
    [ulz4fn] takes one round for each byte of its input and one more, for its blocks,
    sequences and lengths ([Lz4Safe.ulz4fn_in_bounds]);
    the walk over the option table one round more than its records, the checksum of
    [do_normal_boot] 257, one more than there are cells;
    the walks over the event log 4097, one more than the bytes of its region, and an event
    added within another needs two levels of calls, for the entry of a shortened log
    ([ElogCorrect.elog_add_event_correct]);
    the records of CBMEM 317, one more than the entries of both tiers.  The year loop of [Rtc] takes 100
    rounds, the years a 31-bit time spans are 69.

    ** Not modelled

    Console output and register dumps; [x86_mtrr_check]; the AMD RWDRAM bits;
    the VGA bridge bits of [dev_configure]; PnP and I2C access and all chip
    drivers, because they are sequences of register accesses; loading and
    running option ROMs ([pci_dev_init]); [run_romstage], [payload_run] and the stage
    cache in SMM memory of other boards, which jump or are not built here; memory
    training; ACPI, SMBIOS (but for the entry of the event log) and coreboot tables, which copy configuration into
    packed formats; the LZMA decompressor, vendored code behind the class
    [Decompressor]; threads,
    which switch stacks in assembly; vendor reference code, payloads and host
    utilities. *)

From Stdlib Require Export ZArith Lia Bool.
From stdpp Require Export base numbers list option gmap.

#[global] Open Scope Z_scope.

(** ** Machine integers

    coreboot's ramstage runs as 32-bit x86 code: [size_t], [uintptr_t],
    [unsigned long] and [long] are 32 bits wide, [resource_t] is 64 bits
    ([src/include/device/resource.h]).  Unsigned values are kept as [Z] and
    reduced after each operation that can wrap. *)

Definition wrap (w x : Z) : Z := x mod 2 ^ w.
Definition u8 (x : Z) : Z := wrap 8 x.
Definition u16 (x : Z) : Z := wrap 16 x.
Definition u32 (x : Z) : Z := wrap 32 x.
Definition u64 (x : Z) : Z := wrap 64 x.

(** Two's-complement reinterpretation of a [w]-bit value. *)
Definition swrap (w x : Z) : Z :=
  let y := wrap w x in if y <? 2 ^ (w - 1) then y else y - 2 ^ w.
Definition s8 (x : Z) : Z := swrap 8 x.
Definition s32 (x : Z) : Z := swrap 32 x.

Definition fits (w x : Z) : Prop := 0 <= x < 2 ^ w.

Definition is_byte (b : Z) : Prop := 0 <= b < 2 ^ 8.

(** [ALIGN_UP], [ALIGN_DOWN] and [IS_POWER_OF_2] of
    [src/commonlib/include/commonlib/helpers.h], at width [w]. *)
Definition bnot (w x : Z) : Z := wrap w (Z.lnot x).
Definition ALIGN_UP (w x a : Z) : Z :=
  Z.land (wrap w (x + wrap w (a - 1))) (bnot w (wrap w (a - 1))).
Definition ALIGN_DOWN (w x a : Z) : Z := Z.land x (bnot w (wrap w (a - 1))).
Definition IS_POWER_OF_2 (w x : Z) : bool := Z.land x (wrap w (x - 1)) =? 0.

(** ** Automation *)

Create HintDb cb.
Create Rewrite HintDb cb.

(** Boolean tests of the code as facts about [Z]. *)
Ltac bool_to_prop :=
  repeat match goal with
  | H : _ && _ = true |- _ => apply andb_true_iff in H; destruct H
  | H : _ || _ = false |- _ => apply orb_false_iff in H; destruct H
  | H : negb _ = true |- _ => apply negb_true_iff in H
  | H : negb _ = false |- _ => apply negb_false_iff in H
  | H : (_ <=? _) = true |- _ => apply Z.leb_le in H
  | H : (_ <=? _) = false |- _ => apply Z.leb_gt in H
  | H : (_ <? _) = true |- _ => apply Z.ltb_lt in H
  | H : (_ <? _) = false |- _ => apply Z.ltb_ge in H
  | H : (_ =? _) = true |- _ => apply Z.eqb_eq in H
  | H : (_ =? _) = false |- _ => apply Z.eqb_neq in H
  end.

(** Split on the first boolean comparison of the goal. *)
Ltac case_bool :=
  match goal with
  | |- context [if ?b then _ else _] =>
      let E := fresh "E" in destruct b eqn:E
  end.

Ltac zbool := repeat case_bool; bool_to_prop; try done; try lia.

(** ** Lemmas on machine integers *)

Lemma wrap_small w x : 0 <= x < 2 ^ w -> wrap w x = x.
Proof. intros. unfold wrap. by apply Z.mod_small. Qed.

Lemma wrap_range w x : 0 <= w -> 0 <= wrap w x < 2 ^ w.
Proof. intros. unfold wrap. apply Z.mod_pos_bound. lia. Qed.

Lemma u32_small x : 0 <= x < 2 ^ 32 -> u32 x = x.
Proof. apply wrap_small. Qed.

Lemma u64_small x : 0 <= x < 2 ^ 64 -> u64 x = x.
Proof. apply wrap_small. Qed.

Lemma u32_range x : 0 <= u32 x < 2 ^ 32.
Proof. by apply wrap_range. Qed.

Lemma u64_range x : 0 <= u64 x < 2 ^ 64.
Proof. by apply wrap_range. Qed.

Lemma s32_u32_range x : - 2 ^ 31 <= s32 x < 2 ^ 31.
Proof.
  unfold s32, swrap. pose proof (wrap_range 32 x ltac:(lia)). zbool.
Qed.

Lemma s32_small x : - 2 ^ 31 <= x < 2 ^ 31 -> s32 x = x.
Proof.
  intros H. unfold s32, swrap, wrap. destruct (Z.ltb_spec (x mod 2 ^ 32) (2 ^ (32 - 1)));
  destruct (Z.le_gt_cases 0 x) as [Hx|Hx];
  [rewrite Z.mod_small in * by lia; lia| | rewrite Z.mod_small in * by lia; lia|].
  all: rewrite <- (Z.mod_add x 1) in * by lia; rewrite Z.mod_small in * by lia; lia.
Qed.

Lemma land_wrap w x y :
  0 <= w -> 0 <= x < 2 ^ w -> Z.land x (wrap w y) = Z.land x y.
Proof.
  intros Hw Hx. unfold wrap. rewrite <- Z.land_ones by lia.
  rewrite (Z.land_comm y), Z.land_assoc, (Z.land_ones x) by lia.
  by rewrite Z.mod_small.
Qed.

Lemma land_lnot_pow2 x k :
  0 <= k -> Z.land x (Z.lnot (2 ^ k - 1)) = x - x mod 2 ^ k.
Proof.
  intros Hk. rewrite <- Z.ldiff_land.
  replace (2 ^ k - 1) with (Z.ones k) by (rewrite Z.ones_equiv; lia).
  rewrite Z.ldiff_ones_r by lia.
  rewrite Z.shiftl_mul_pow2, Z.shiftr_div_pow2 by lia.
  pose proof (Z.div_mod x (2 ^ k) ltac:(lia)). lia.
Qed.

Lemma pow2_le_pow2 k w : 0 <= k <= w -> 1 <= 2 ^ k <= 2 ^ w.
Proof.
  intros. split; [pose proof (Z.pow_pos_nonneg 2 k); lia|].
  apply Z.pow_le_mono_r; lia.
Qed.

Lemma align_down_pow2 w k x :
  0 <= k <= w -> 0 <= x < 2 ^ w -> ALIGN_DOWN w x (2 ^ k) = x - x mod 2 ^ k.
Proof.
  intros Hk Hx. unfold ALIGN_DOWN, bnot.
  pose proof (pow2_le_pow2 k w Hk).
  rewrite (wrap_small w (2 ^ k - 1)) by lia.
  rewrite land_wrap by lia. apply land_lnot_pow2. lia.
Qed.

Lemma align_up_pow2 w k x :
  0 <= k <= w -> 0 <= x -> x + 2 ^ k - 1 < 2 ^ w ->
  ALIGN_UP w x (2 ^ k) = (x + 2 ^ k - 1) - (x + 2 ^ k - 1) mod 2 ^ k.
Proof.
  intros Hk Hx Hb. unfold ALIGN_UP, bnot.
  pose proof (pow2_le_pow2 k w Hk).
  rewrite (wrap_small w (2 ^ k - 1)) by lia.
  rewrite (wrap_small w (x + _)) by lia.
  rewrite land_wrap by lia. rewrite Z.add_sub_assoc. apply land_lnot_pow2. lia.
Qed.

Lemma align_up_wrap w k x :
  0 <= k <= w ->
  ALIGN_UP w x (2 ^ k) = wrap w (x + (2 ^ k - 1)) - wrap w (x + (2 ^ k - 1)) mod 2 ^ k.
Proof.
  intros Hk. unfold ALIGN_UP, bnot.
  pose proof (pow2_le_pow2 k w Hk).
  rewrite (wrap_small w (2 ^ k - 1)) by lia.
  rewrite land_wrap by (try apply wrap_range; lia). apply land_lnot_pow2. lia.
Qed.

(** [ALIGN_UP] rounds to the least multiple not below its argument. *)
Lemma align_up_bounds w k x :
  0 <= k <= w -> 0 <= x -> x + 2 ^ k - 1 < 2 ^ w ->
  x <= ALIGN_UP w x (2 ^ k) < x + 2 ^ k /\ (2 ^ k | ALIGN_UP w x (2 ^ k)).
Proof.
  intros Hk Hx Hb. rewrite align_up_pow2 by lia.
  pose proof (pow2_le_pow2 k w Hk).
  pose proof (Z.mod_pos_bound (x + 2 ^ k - 1) (2 ^ k) ltac:(lia)).
  split; [lia|]. exists ((x + 2 ^ k - 1) / 2 ^ k).
  pose proof (Z.div_mod (x + 2 ^ k - 1) (2 ^ k) ltac:(lia)). lia.
Qed.

Lemma align_down_bounds w k x :
  0 <= k <= w -> 0 <= x < 2 ^ w ->
  x - 2 ^ k < ALIGN_DOWN w x (2 ^ k) <= x /\ (2 ^ k | ALIGN_DOWN w x (2 ^ k)).
Proof.
  intros Hk Hx. rewrite align_down_pow2 by lia.
  pose proof (pow2_le_pow2 k w Hk).
  pose proof (Z.mod_pos_bound x (2 ^ k) ltac:(lia)).
  split; [lia|]. exists (x / 2 ^ k).
  pose proof (Z.div_mod x (2 ^ k) ltac:(lia)). lia.
Qed.

(** Disjoint bits: [lor] is addition. *)
Lemma lor_add x y k : 0 <= k -> 0 <= y < 2 ^ k -> (2 ^ k | x) -> Z.lor x y = x + y.
Proof.
  intros Hk Hy [q ->].
  assert (Z.land (q * 2 ^ k) y = 0) as H.
  { rewrite <- Z.shiftl_mul_pow2 by lia. apply Z.bits_inj'. intros n Hn.
    rewrite Z.land_spec, Z.bits_0. destruct (Z.lt_ge_cases n k).
    - rewrite Z.shiftl_spec_low by lia. done.
    - rewrite <- (Z.mod_small y (2 ^ k)) by lia.
      rewrite Z.mod_pow2_bits_high by lia. apply andb_false_r. }
  rewrite Z.add_nocarry_lxor by done. by rewrite Z.lxor_lor.
Qed.

Lemma land_low_mask x k : 0 <= k -> Z.land x (2 ^ k - 1) = x mod 2 ^ k.
Proof.
  intros. replace (2 ^ k - 1) with (Z.ones k) by (rewrite Z.ones_equiv; lia).
  by apply Z.land_ones.
Qed.

Lemma wrap_wrap w w' x : 0 <= w <= w' -> wrap w (wrap w' x) = wrap w x.
Proof.
  intros H. unfold wrap. rewrite <- !Z.land_ones by lia.
  rewrite <- Z.land_assoc. f_equal. apply Z.bits_inj'. intros n Hn.
  rewrite Z.land_spec, !Z.testbit_ones_nonneg by lia. lia.
Qed.

#[export] Hint Resolve u32_range u64_range : cb.
#[export] Hint Rewrite u32_small u64_small using lia : cb.

(** ** Lemmas on lists *)

(** A decidable fact on small numbers, checked on all of them. *)
Fixpoint all_from (n : nat) (x : Z) (P : Z -> bool) : bool :=
  match n with O => true | S n' => P x && all_from n' (x + 1) P end.
Definition all_below (n : nat) (P : Z -> bool) : bool := all_from n 0 P.

Lemma all_from_spec n P : forall x y, all_from n x P = true -> x <= y < x + Z.of_nat n -> P y = true.
Proof.
  induction n as [|n IH]; intros x y H Hy; [lia|]. simpl in H. apply andb_true_iff in H as [Hx H].
  destruct (Z.eq_dec y x) as [->|]; [done|]. apply (IH (x + 1)); [done|lia].
Qed.

Lemma all_below_spec n P x : all_below n P = true -> 0 <= x < Z.of_nat n -> P x = true.
Proof. intros H Hx. by apply (all_from_spec n P 0). Qed.

Lemma fold_left_rel {A B C} (R : A -> B -> Prop) (f : A -> C -> A) (g : B -> C -> B) l :
  (forall a b x, R a b -> R (f a x) (g b x)) ->
  forall a b, R a b -> R (fold_left f l a) (fold_left g l b).
Proof. intros H. induction l as [|x l IH]; intros a b HR; [done|]. simpl. auto. Qed.

Lemma elem_of_map {A B} (f : A -> B) l y : y ∈ map f l <-> exists x, y = f x /\ x ∈ l.
Proof.
  rewrite list_elem_of_In, in_map_iff. setoid_rewrite list_elem_of_In.
  split; intros (x & ? & ?); exists x; by split.
Qed.

Lemma elem_of_filter_bool {A} (f : A -> bool) l x : x ∈ List.filter f l <-> x ∈ l /\ f x = true.
Proof. by rewrite list_elem_of_In, filter_In, list_elem_of_In. Qed.
