(* ===== verification/Device.v ===== *)
(** * Device tree data and its helpers
    ([src/include/device/{device,path,resource}.h], [src/device/device_util.c],
    the device allocation of [src/device/device.c])

    Structures live in a store and are referred to by pointers ([nat]); the
    intrusive linked lists ([sibling], [next]) are lists of pointers in the
    order of the C chain. *)

From S2P Require Import Prelude.

(** ** Constants of [resource.h] *)

Definition IORESOURCE_IO : Z := 0x100.
Definition IORESOURCE_MEM : Z := 0x200.
Definition IORESOURCE_IRQ : Z := 0x400.
Definition IORESOURCE_DRQ : Z := 0x800.
Definition IORESOURCE_TYPE_MASK : Z :=
  Z.lor IORESOURCE_IO (Z.lor IORESOURCE_MEM (Z.lor IORESOURCE_IRQ IORESOURCE_DRQ)).
Definition IORESOURCE_PREFETCH : Z := 0x1000.
Definition IORESOURCE_CACHEABLE : Z := 0x4000.
Definition IORESOURCE_SUBTRACTIVE : Z := 0x40000.
Definition IORESOURCE_BRIDGE : Z := 0x80000.
Definition IORESOURCE_RESERVE : Z := 0x10000000.
Definition IORESOURCE_STORED : Z := 0x20000000.
Definition IORESOURCE_ASSIGNED : Z := 0x40000000.
Definition IORESOURCE_FIXED : Z := 0x80000000.
Definition IOINDEX_SUBTRACTIVE_LINK (idx : Z) : Z := Z.land idx 0xff.
Definition IOINDEX_LINK (idx : Z) : Z := Z.shiftr (Z.land idx 0xf0000) 16.

(** [flags & bits] as a truth value. *)
Definition has (flags bits : Z) : bool := negb (Z.land flags bits =? 0).

(** ** Data *)

Record resource := mk_resource
  { res_base : Z; res_size : Z; res_limit : Z;   (* [resource_t] *)
    res_flags : Z; res_index : Z;                (* [unsigned long] *)
    res_align : Z; res_gran : Z }.               (* [unsigned char], log2 *)

Inductive device_path :=
  | DEVICE_PATH_NONE
  | DEVICE_PATH_ROOT
  | DEVICE_PATH_PCI (devfn : Z)
  | DEVICE_PATH_PNP (port device : Z)
  | DEVICE_PATH_I2C (device mode_10bit : Z)
  | DEVICE_PATH_APIC (apic_id package_id node_id core_id thread_id : Z)
  | DEVICE_PATH_DOMAIN (domain : Z)
  | DEVICE_PATH_CPU_CLUSTER (cluster : Z)
  | DEVICE_PATH_CPU (id : Z)
  | DEVICE_PATH_CPU_BUS (id : Z)
  | DEVICE_PATH_IOAPIC (ioapic_id : Z)
  | DEVICE_PATH_GENERIC (id subid : Z).

Definition path_type (p : device_path) : Z :=
  match p with
  | DEVICE_PATH_NONE => 0 | DEVICE_PATH_ROOT => 1 | DEVICE_PATH_PCI _ => 2
  | DEVICE_PATH_PNP _ _ => 3 | DEVICE_PATH_I2C _ _ => 4
  | DEVICE_PATH_APIC _ _ _ _ _ => 5 | DEVICE_PATH_DOMAIN _ => 6
  | DEVICE_PATH_CPU_CLUSTER _ => 7 | DEVICE_PATH_CPU _ => 8
  | DEVICE_PATH_CPU_BUS _ => 9 | DEVICE_PATH_IOAPIC _ => 10
  | DEVICE_PATH_GENERIC _ _ => 11
  end.

(** The fields of [struct device] and [struct bus] the modelled code reads. *)
Record device := mk_device
  { d_bus : nat; d_path : device_path; d_vendor : Z; d_device : Z; d_class : Z;
    d_enabled : bool; d_resource_list : list nat; d_link_list : list nat }.

Record bus := mk_bus
  { b_dev : nat; b_children : list nat; b_link_num : Z; b_secondary : Z }.

Record dstate := mk_dstate
  { st_dev : gmap nat device; st_bus : gmap nat bus; st_res : gmap nat resource;
    all_devices : list nat; free_resources : list nat;
    heap_next : nat  (* every pointer from here on is unused *) }.

Definition res0 : resource := mk_resource 0 0 0 0 0 0 0.
Definition dev0 : device := mk_device 0 DEVICE_PATH_NONE 0 0 0 false [] [].
Definition bus0 : bus := mk_bus 0 [] 0 0.

Definition dstate_empty : dstate := mk_dstate ∅ ∅ ∅ [] [] 0.

Definition get_res (st : dstate) (p : nat) : resource := default res0 (st_res st !! p).
Definition get_dev (st : dstate) (p : nat) : device := default dev0 (st_dev st !! p).
Definition get_bus (st : dstate) (p : nat) : bus := default bus0 (st_bus st !! p).

Definition set_res (st : dstate) (p : nat) (r : resource) : dstate :=
  mk_dstate (st_dev st) (st_bus st) (<[p:=r]> (st_res st))
    (all_devices st) (free_resources st) (heap_next st).
Definition set_dev (st : dstate) (p : nat) (d : device) : dstate :=
  mk_dstate (<[p:=d]> (st_dev st)) (st_bus st) (st_res st)
    (all_devices st) (free_resources st) (heap_next st).
Definition set_bus (st : dstate) (p : nat) (b : bus) : dstate :=
  mk_dstate (st_dev st) (<[p:=b]> (st_bus st)) (st_res st)
    (all_devices st) (free_resources st) (heap_next st).
Definition set_free (st : dstate) (fl : list nat) (next : nat) : dstate :=
  mk_dstate (st_dev st) (st_bus st) (st_res st) (all_devices st) fl next.

Definition with_base (b : Z) (r : resource) : resource :=
  mk_resource b (res_size r) (res_limit r) (res_flags r) (res_index r) (res_align r) (res_gran r).
Definition with_size (s : Z) (r : resource) : resource :=
  mk_resource (res_base r) s (res_limit r) (res_flags r) (res_index r) (res_align r) (res_gran r).
Definition with_limit (l : Z) (r : resource) : resource :=
  mk_resource (res_base r) (res_size r) l (res_flags r) (res_index r) (res_align r) (res_gran r).
Definition with_flags (f : Z) (r : resource) : resource :=
  mk_resource (res_base r) (res_size r) (res_limit r) f (res_index r) (res_align r) (res_gran r).
Definition with_align (a : Z) (r : resource) : resource :=
  mk_resource (res_base r) (res_size r) (res_limit r) (res_flags r) (res_index r) a (res_gran r).
Definition with_resources (l : list nat) (d : device) : device :=
  mk_device (d_bus d) (d_path d) (d_vendor d) (d_device d) (d_class d) (d_enabled d) l
    (d_link_list d).

(** ** Paths and lookups *)

Definition path_eq (p1 p2 : device_path) : bool :=
  match p1, p2 with
  | DEVICE_PATH_ROOT, DEVICE_PATH_ROOT => true
  | DEVICE_PATH_PCI f1, DEVICE_PATH_PCI f2 => f1 =? f2
  | DEVICE_PATH_PNP o1 d1, DEVICE_PATH_PNP o2 d2 => (o1 =? o2) && (d1 =? d2)
  | DEVICE_PATH_I2C d1 m1, DEVICE_PATH_I2C d2 m2 => (d1 =? d2) && (m1 =? m2)
  | DEVICE_PATH_APIC a1 _ _ _ _, DEVICE_PATH_APIC a2 _ _ _ _ => a1 =? a2
  | DEVICE_PATH_DOMAIN d1, DEVICE_PATH_DOMAIN d2 => d1 =? d2
  | DEVICE_PATH_CPU_CLUSTER c1, DEVICE_PATH_CPU_CLUSTER c2 => c1 =? c2
  | DEVICE_PATH_CPU i1, DEVICE_PATH_CPU i2 => i1 =? i2
  | DEVICE_PATH_CPU_BUS i1, DEVICE_PATH_CPU_BUS i2 => i1 =? i2
  | DEVICE_PATH_GENERIC i1 s1, DEVICE_PATH_GENERIC i2 s2 => (i1 =? i2) && (s1 =? s2)
  | _, _ => false   (* NONE; IOAPIC falls into the default case *)
  end.

Definition find_first {A} (f : A -> bool) (l : list A) : option A := List.find f l.

Definition find_dev_path (st : dstate) (parent : nat) (path : device_path) : option nat :=
  find_first (fun c => path_eq path (d_path (get_dev st c))) (b_children (get_bus st parent)).

Definition dev_find_slot (st : dstate) (bus devfn : Z) : option nat :=
  find_first (fun p => let d := get_dev st p in
    match d_path d with
    | DEVICE_PATH_PCI f => (b_secondary (get_bus st (d_bus d)) =? bus) && (f =? devfn)
    | _ => false end) (all_devices st).

Definition dev_find_slot_on_smbus (st : dstate) (bus addr : Z) : option nat :=
  find_first (fun p => let d := get_dev st p in
    match d_path d with
    | DEVICE_PATH_I2C a _ => (b_secondary (get_bus st (d_bus d)) =? bus) && (a =? addr)
    | _ => false end) (all_devices st).

Definition dev_find_slot_pnp (st : dstate) (port dev : Z) : option nat :=
  find_first (fun p => match d_path (get_dev st p) with
    | DEVICE_PATH_PNP o d => (o =? port) && (d =? dev)
    | _ => false end) (all_devices st).

Definition dev_find_lapic (st : dstate) (apic_id : Z) : option nat :=
  find_first (fun p => match d_path (get_dev st p) with
    | DEVICE_PATH_APIC a _ _ _ _ => a =? apic_id
    | _ => false end) (all_devices st).

(** The chain from [from->next] on, or the whole list for NULL. *)
Fixpoint after (p : nat) (l : list nat) : list nat :=
  match l with
  | [] => []
  | q :: l' => if decide (q = p) then l' else after p l'
  end.

Definition chain_from (st : dstate) (from : option nat) : list nat :=
  match from with None => all_devices st | Some p => after p (all_devices st) end.

Definition dev_find_path (st : dstate) (prev_match : option nat) (type : Z) : option nat :=
  find_first (fun p => path_type (d_path (get_dev st p)) =? type) (chain_from st prev_match).

Definition dev_find_device (st : dstate) (vendor dev : Z) (from : option nat) : option nat :=
  find_first (fun p => let d := get_dev st p in
    negb (negb (d_vendor d =? vendor) || negb (d_device d =? dev))) (chain_from st from).

Definition dev_find_class (st : dstate) (class : Z) (from : option nat) : option nat :=
  find_first (fun p => Z.land (d_class (get_dev st p)) 0xffffff00 =? class) (chain_from st from).

Definition dev_path_encode (st : dstate) (dev : option nat) : Z :=
  match dev with
  | None => 0
  | Some p =>
      let d := get_dev st p in
      let ret := Z.shiftl (path_type (d_path d)) 16 in
      u32 (match d_path d with
      | DEVICE_PATH_PCI devfn =>
          Z.lor ret (Z.lor (Z.shiftl (b_secondary (get_bus st (d_bus d))) 8) devfn)
      | DEVICE_PATH_PNP port dv => Z.lor ret (Z.lor (Z.shiftl port 8) dv)
      | DEVICE_PATH_I2C dv mode => Z.lor ret (Z.lor (Z.shiftl mode 8) dv)
      | DEVICE_PATH_APIC a _ _ _ _ => Z.lor ret a
      | DEVICE_PATH_DOMAIN n | DEVICE_PATH_CPU_CLUSTER n | DEVICE_PATH_CPU n
      | DEVICE_PATH_CPU_BUS n | DEVICE_PATH_IOAPIC n => Z.lor ret n
      | DEVICE_PATH_GENERIC i s => Z.lor ret (Z.lor (Z.shiftl s 8) i)
      | DEVICE_PATH_ROOT | DEVICE_PATH_NONE => ret
      end)
  end.

(** [__alloc_dev]: append to the bus' children and to the global list.
    [malloc] failing ends in [die]. *)
Definition alloc_dev (st : dstate) (parent : nat) (path : device_path) : nat * dstate :=
  let p := heap_next st in
  let b := get_bus st parent in
  (p, mk_dstate (<[p := mk_device parent path 0 0 0 true [] []]> (st_dev st))
        (<[parent := mk_bus (b_dev b) (b_children b ++ [p]) (b_link_num b) (b_secondary b)]>
           (st_bus st))
        (st_res st) (all_devices st ++ [p]) (free_resources st) (S p)).

Definition alloc_find_dev (st : dstate) (parent : nat) (path : device_path) : nat * dstate :=
  match find_dev_path st parent path with
  | Some c => (c, st)
  | None => alloc_dev st parent path
  end.

(** ** Resource lists of a device *)

(** The loop of [compact_resources] with [free_resource]: entries without
    flags move, one by one, to the front of the free list. *)
Fixpoint compact_loop (st : dstate) (l fl : list nat) : list nat * list nat :=
  match l with
  | [] => ([], fl)
  | p :: l' =>
      if res_flags (get_res st p) =? 0 then compact_loop st l' (p :: fl)
      else let '(l1, fl1) := compact_loop st l' fl in (p :: l1, fl1)
  end.

Definition compact_resources (st : dstate) (dev : nat) : dstate :=
  let d := get_dev st dev in
  let '(l, fl) := compact_loop st (d_resource_list d) (free_resources st) in
  set_free (set_dev st dev (with_resources l d)) fl (heap_next st).

Definition probe_resource (st : dstate) (dev : nat) (index : Z) : option nat :=
  find_first (fun p => res_index (get_res st p) =? index) (d_resource_list (get_dev st dev)).

(** [allocate_more_resources]: 64 zeroed structures chained in order; the
    caller only calls it with an empty free list. *)
Definition allocate_more_resources (st : dstate) : dstate :=
  let new := seq (heap_next st) 64 in
  mk_dstate (st_dev st) (st_bus st)
    (foldr (fun p m => <[p:=res0]> m) (st_res st) new)
    (all_devices st) new (heap_next st + 64).

(** [NULL] from [malloc] makes [new_resource] die; ramstage's allocator dies
    first, so the allocation always succeeds. *)
Definition init_resource (index : Z) (r : resource) : resource :=
  let fixed := has (res_flags r) IORESOURCE_FIXED in
  mk_resource (if fixed then res_base r else 0) 0 0
    (if fixed then res_flags r else 0) index 0 0.

Definition new_resource (st : dstate) (dev : nat) (index : Z) : nat * dstate :=
  let st := compact_resources st dev in
  match probe_resource st dev index with
  | Some p => (p, set_res st p (init_resource index (get_res st p)))
  | None =>
      let st := match free_resources st with [] => allocate_more_resources st | _ => st end in
      match free_resources st with
      | [] => (0%nat, st)   (* not reached: the free list was just filled *)
      | p :: fl =>
          let st := set_free st fl (heap_next st) in
          let st := set_res st p res0 in
          let d := get_dev st dev in
          let st := set_dev st dev (with_resources (d_resource_list d ++ [p]) d) in
          (p, set_res st p (init_resource index (get_res st p)))
      end
  end.

(** [find_resource]: [None] is the [die] of the C code. *)
Definition find_resource (st : dstate) (dev : nat) (index : Z) : option nat :=
  probe_resource st dev index.

(** ** Resource arithmetic *)

(** [1ULL << gran] is only defined below 64; x86 masks the count, and the
    callers keep [gran] below 64. *)
Definition align_up (val gran : Z) : Z :=
  let mask := u64 (u64 (Z.shiftl 1 gran) - 1) in
  Z.land (u64 (val + mask)) (bnot 64 mask).
Definition align_down (val gran : Z) : Z :=
  let mask := u64 (u64 (Z.shiftl 1 gran) - 1) in
  Z.land val (bnot 64 mask).
Definition resource_end (r : resource) : Z :=
  u64 (u64 (res_base r + align_up (res_size r) (res_gran r)) - 1).
Definition resource_max (r : resource) : Z :=
  align_down (u64 (u64 (res_limit r - res_size r) + 1)) (res_align r).

Definition fixed_mem_resource (st : dstate) (dev : nat) (index basek sizek type : Z) : dstate :=
  if sizek =? 0 then st
  else
    let '(p, st) := new_resource st dev index in
    let r := get_res st p in
    let r := with_base (u64 (Z.shiftl basek 10)) r in
    let r := with_size (u64 (Z.shiftl sizek 10)) r in
    let flags := Z.lor IORESOURCE_MEM (Z.lor IORESOURCE_FIXED
                   (Z.lor IORESOURCE_STORED IORESOURCE_ASSIGNED)) in
    set_res st p (with_flags (Z.lor flags type) r).

(** [buses * MiB] is a 32-bit [int] product, sign-extended to [resource_t]. *)
Definition mmconf_resource_init (r : resource) (base buses : Z) : resource :=
  with_flags (Z.lor IORESOURCE_MEM (Z.lor IORESOURCE_RESERVE (Z.lor IORESOURCE_FIXED
                (Z.lor IORESOURCE_STORED IORESOURCE_ASSIGNED))))
    (with_size (u64 (s32 (buses * 0x100000))) (with_base base r)).

Section MMConf.
Context (CONFIG_MMCONF_BASE_ADDRESS CONFIG_MMCONF_BUS_NUMBER : Z).
Definition mmconf_resource (st : dstate) (dev : nat) (index : Z) : dstate :=
  let '(p, st) := new_resource st dev index in
  set_res st p (mmconf_resource_init (get_res st p)
                  CONFIG_MMCONF_BASE_ADDRESS CONFIG_MMCONF_BUS_NUMBER).
End MMConf.

(** ** Walking resources

    The callbacks of the source only read the tree and update their own
    context, here an accumulator of type [A]. *)

Section Search.
Context {A : Type} (st : dstate) (type_mask type : Z) (search : A -> nat -> nat -> A).

Definition wrong_kind (r : resource) : bool :=
  negb (Z.land (res_flags r) type_mask =? type).

(** The inner loop of [search_global_resources]. *)
Definition global_device (acc : A) (dev : nat) : A :=
  let d := get_dev st dev in
  if negb (d_enabled d) then acc
  else fold_left (fun acc p =>
         let r := get_res st p in
         if wrong_kind r then acc
         else if has (res_flags r) IORESOURCE_SUBTRACTIVE then acc
         else search acc dev p) (d_resource_list d) acc.

Definition search_global_resources (acc : A) : A :=
  fold_left global_device (all_devices st) acc.

(** The inner loop of [search_bus_resources]: a subtractive resource whose
    link is missing ends the walk over this device ([break]). *)
Fixpoint bus_device_resources (recurse : nat -> A -> A) (dev : nat) (links l : list nat)
    (acc : A) : A :=
  match l with
  | [] => acc
  | p :: l' =>
      let r := get_res st p in
      if wrong_kind r then bus_device_resources recurse dev links l' acc
      else if has (res_flags r) IORESOURCE_SUBTRACTIVE then
        match find_first (fun b => b_link_num (get_bus st b)
                                   =? IOINDEX_SUBTRACTIVE_LINK (res_index r)) links with
        | None => acc
        | Some subbus => bus_device_resources recurse dev links l' (recurse subbus acc)
        end
      else bus_device_resources recurse dev links l' (search acc dev p)
  end.

(** [fuel] bounds the depth of subtractive bridges below [bus]. *)
Fixpoint search_bus_resources (fuel : nat) (bus : nat) (acc : A) : A :=
  match fuel with
  | O => acc
  | S fuel' =>
      fold_left (fun acc dev =>
        let d := get_dev st dev in
        if negb (d_enabled d) then acc
        else bus_device_resources (search_bus_resources fuel') dev
               (d_link_list d) (d_resource_list d) acc)
        (b_children (get_bus st bus)) acc
  end.
End Search.

(** [tolm_test] keeps the first resource of lowest base. *)
Definition tolm_test (st : dstate) (best : option nat) (dev new : nat) : option nat :=
  match best with
  | None => Some new
  | Some b => if res_base (get_res st new) <? res_base (get_res st b) then Some new else best
  end.

Definition find_pci_tolm (st : dstate) (fuel : nat) (bus : nat) : Z :=
  let min := search_bus_resources st IORESOURCE_MEM IORESOURCE_MEM (tolm_test st) fuel bus None in
  let tolm := 0xffffffff in
  match min with
  | Some m => if res_base (get_res st m) <? tolm then u32 (res_base (get_res st m)) else tolm
  | None => tolm
  end.

Definition dev_count_cpu (st : dstate) : Z :=
  fold_left (fun count p =>
    let d := get_dev st p in
    if negb (path_type (d_path d) =? 5)
       || negb (path_type (d_path (get_dev st (b_dev (get_bus st (d_bus d))))) =? 7)
    then count
    else if negb (d_enabled d) then count else count + 1) (all_devices st) 0.
