(* ===== verification/MemRange.v ===== *)
(** * Memory range lists ([src/lib/memrange.c], [src/include/memrange.h])

    A [memranges] is a linked list of tagged, inclusive address ranges kept
    sorted and disjoint, with a cache of free list nodes.  The [entries] list
    is the C list from its head; [free_list] holds the cached nodes (with the
    stale contents they keep).  The MTRR code ([Mtrr.v]) is the client. *)

From S2P Require Import Prelude Device.

Record range_entry := mk_range
  { r_begin : Z;   (* inclusive, [resource_t] *)
    r_end : Z;     (* inclusive, [resource_t] *)
    r_tag : Z }.   (* [unsigned long] *)

Record memranges := mk_memranges
  { entries : list range_entry; free_list : list range_entry }.

(** ** Accessors of [memrange.h] *)

Definition range_entry_init (incl_begin excl_end tag : Z) : range_entry :=
  mk_range incl_begin (u64 (excl_end - 1)) tag.
Definition range_entry_base (r : range_entry) : Z := r_begin r.
Definition range_entry_end (r : range_entry) : Z := u64 (r_end r + 1).
Definition range_entry_size (r : range_entry) : Z := u64 (r_end r - r_begin r + 1).
Definition range_entry_tag (r : range_entry) : Z := r_tag r.
Definition range_entry_update_tag (r : range_entry) (new_tag : Z) : range_entry :=
  mk_range (r_begin r) (r_end r) new_tag.
Definition with_begin (b : Z) (r : range_entry) : range_entry :=
  mk_range b (r_end r) (r_tag r).
Definition with_end (e : Z) (r : range_entry) : range_entry :=
  mk_range (r_begin r) e (r_tag r).

Section MemRange.

(** [ENV_RAMSTAGE]: only ramstage has a heap to take a new node from.  There
    [malloc] ([src/lib/malloc.c]) either succeeds or stops the machine. *)
Variable ENV_RAMSTAGE : bool.

(** A node fresh from [malloc]; every field is overwritten by its user. *)
Definition fresh_node : range_entry := mk_range 0 0 0.

Definition alloc_range (fl : list range_entry) : option (range_entry * list range_entry) :=
  match fl with
  | r :: fl' => Some (r, fl')
  | [] => if ENV_RAMSTAGE then Some (fresh_node, []) else None
  end.

(** [range_list_add(ranges, prev_ptr, ...)]: [es] is the list [*prev_ptr];
    when no node is left the list stays as it is. *)
Definition range_list_add (begin end_ tag : Z) (es fl : list range_entry)
    : list range_entry * list range_entry :=
  match alloc_range fl with
  | None => (es, fl)
  | Some (_, fl') => (mk_range begin end_ tag :: es, fl')
  end.

(** The loop of [merge_neighbor_entries] once [prev] is set. *)
Fixpoint merge_loop (prev : range_entry) (es fl : list range_entry)
    : list range_entry * list range_entry :=
  match es with
  | [] => ([prev], fl)
  | cur :: rest =>
      if (r_begin cur <=? u64 (r_end prev + 1)) && (r_tag prev =? r_tag cur)
      then merge_loop (with_end (r_end cur) prev) rest (cur :: fl)
      else let '(es', fl') := merge_loop cur rest fl in (prev :: es', fl')
  end.

Definition merge_neighbor_entries (m : memranges) : memranges :=
  match entries m with
  | [] => m
  | first :: rest =>
      let '(es, fl) := merge_loop first rest (free_list m) in mk_memranges es fl
  end.

(** The loop of [remove_memranges]; [es] is the list from [cur] on. *)
Fixpoint remove_loop (begin end_ : Z) (es fl : list range_entry)
    : list range_entry * list range_entry :=
  match es with
  | [] => ([], fl)
  | cur :: rest =>
      if end_ <? r_begin cur then (es, fl)
      else if r_end cur <? begin then
        let '(es', fl') := remove_loop begin end_ rest fl in (cur :: es', fl')
      else if (begin <=? r_begin cur) && (r_end cur <=? end_) then
        remove_loop (u64 (r_end cur + 1)) end_ rest (cur :: fl)
      else
        let begin := if begin <=? r_begin cur then r_begin cur else begin in
        let tmp_end := if r_end cur <? end_ then r_end cur else end_ in
        if (r_begin cur <? begin) && (tmp_end <? r_end cur) then
          let '(es', fl') :=
            range_list_add (u64 (end_ + 1)) (r_end cur) (r_tag cur) rest fl in
          (with_end (u64 (begin - 1)) cur :: es', fl')
        else
          let cur1 := if begin =? r_begin cur
                      then with_begin (u64 (tmp_end + 1)) cur else cur in
          let cur2 := if tmp_end =? r_end cur1
                      then with_end (u64 (begin - 1)) cur1 else cur1 in
          let '(es', fl') := remove_loop begin end_ rest fl in (cur2 :: es', fl')
  end.

Definition remove_memranges (m : memranges) (begin end_ unused : Z) : memranges :=
  let '(es, fl) := remove_loop begin end_ (entries m) (free_list m) in
  mk_memranges es fl.

(** Insertion before the first entry that starts after [end_]. *)
Fixpoint add_loop (begin end_ tag : Z) (es fl : list range_entry)
    : list range_entry * list range_entry :=
  match es with
  | [] => range_list_add begin end_ tag [] fl
  | cur :: rest =>
      if end_ <? r_begin cur then range_list_add begin end_ tag es fl
      else let '(es', fl') := add_loop begin end_ tag rest fl in (cur :: es', fl')
  end.

Definition merge_add_memranges (m : memranges) (begin end_ tag : Z) : memranges :=
  let m1 := remove_memranges m begin end_ (u32 (-1)) in
  let '(es, fl) := add_loop begin end_ tag (entries m1) (free_list m1) in
  merge_neighbor_entries (mk_memranges es fl).

Definition memranges_update_tag (m : memranges) (old_tag new_tag : Z) : memranges :=
  merge_neighbor_entries
    (mk_memranges
       (map (fun r => if range_entry_tag r =? old_tag
                      then range_entry_update_tag r new_tag else r) (entries m))
       (free_list m)).

Definition do_action (m : memranges) (base size tag : Z)
    (action : memranges -> Z -> Z -> Z -> memranges) : memranges :=
  if size =? 0 then m
  else
    let begin := ALIGN_DOWN 64 base 4096 in
    let end_ := u64 (begin + size + (base - begin)) in
    let end_ := u64 (ALIGN_UP 64 end_ 4096 - 1) in
    action m begin end_ tag.

Definition memranges_create_hole (m : memranges) (base size : Z) : memranges :=
  do_action m base size (u32 (-1)) remove_memranges.

Definition memranges_insert (m : memranges) (base size tag : Z) : memranges :=
  do_action m base size tag merge_add_memranges.

(** [collect_ranges] on the devices' resources; [filter] is NULL or the
    caller's predicate. *)
Definition collect_ranges (st : dstate) (filter : option (nat -> nat -> bool)) (tag : Z)
    (m : memranges) (dev res : nat) : memranges :=
  let r := get_res st res in
  if res_size r =? 0 then m
  else if match filter with None => true | Some f => f dev res end
       then memranges_insert m (res_base r) (res_size r) tag else m.

Definition memranges_add_resources_filter (st : dstate) (m : memranges)
    (mask match_ tag : Z) (filter : option (nat -> nat -> bool)) : memranges :=
  search_global_resources st (Z.lor mask IORESOURCE_MEM) (Z.lor match_ IORESOURCE_MEM)
    (collect_ranges st filter tag) m.

Definition memranges_add_resources (st : dstate) (m : memranges) (mask match_ tag : Z) :=
  memranges_add_resources_filter st m mask match_ tag None.

Definition memranges_init (st : dstate) (mask match_ tag : Z) : memranges :=
  memranges_add_resources st (mk_memranges [] []) mask match_ tag.

(** [to_free] is the caller's array; each node is pushed in front. *)
Definition memranges_init_empty (to_free : list range_entry) : memranges :=
  mk_memranges [] (rev to_free).

Definition memranges_teardown (m : memranges) : memranges :=
  mk_memranges [] (rev (entries m) ++ free_list m).

(** The loop of [memranges_fill_holes_up_to] once [prev] is set, and the
    insertion after the loop; the result is the list from [prev] on. *)
Definition fill_tail (limit tag : Z) (prev : range_entry) (rest fl : list range_entry)
    : list range_entry * list range_entry :=
  if range_entry_end prev <? limit
  then let '(es, fl') := range_list_add (range_entry_end prev) (u64 (limit - 1)) tag rest fl
       in (prev :: es, fl')
  else (prev :: rest, fl).

(** The entry put between [prev] and [cur] when they do not touch. *)
Definition fill_gap (limit tag : Z) (prev cur : range_entry) (fl : list range_entry)
    : list range_entry * list range_entry :=
  if negb (range_entry_end prev =? r_begin cur) then
    let end_ := u64 (r_begin cur - 1) in
    let end_ := if limit <=? end_ then u64 (limit - 1) else end_ in
    range_list_add (range_entry_end prev) end_ tag [] fl
  else ([], fl).

Fixpoint fill_loop (limit tag : Z) (prev : range_entry) (es fl : list range_entry)
    : list range_entry * list range_entry :=
  match es with
  | [] => fill_tail limit tag prev [] fl
  | cur :: rest =>
      let '(mid, fl1) := fill_gap limit tag prev cur fl in
      let '(es', fl2) :=
        if limit <=? r_begin cur then fill_tail limit tag cur rest fl1
        else fill_loop limit tag cur rest fl1 in
      (prev :: mid ++ es', fl2)
  end.

Definition memranges_fill_holes_up_to (m : memranges) (limit tag : Z) : memranges :=
  match entries m with
  | [] => merge_neighbor_entries m
  | first :: rest =>
      let '(es, fl) := fill_loop limit tag first rest (free_list m) in
      merge_neighbor_entries (mk_memranges es fl)
  end.

(** ** The abstract view: a partial map from addresses to tags *)

Definition in_range (r : range_entry) (a : Z) : bool :=
  (r_begin r <=? a) && (a <=? r_end r).

Fixpoint tag_at (es : list range_entry) (a : Z) : option Z :=
  match es with
  | [] => None
  | r :: es' => if in_range r a then Some (r_tag r) else tag_at es' a
  end.

(** Well-formed from [lo] on: sorted, disjoint, no entry empty, 64-bit. *)
Fixpoint wf_from (lo : Z) (es : list range_entry) : Prop :=
  match es with
  | [] => True
  | r :: es' => lo <= r_begin r <= r_end r /\ r_end r < 2 ^ 64 /\ wf_from (r_end r + 1) es'
  end.

(** No two neighbours that [merge_neighbor_entries] would join. *)
Fixpoint coalesced (es : list range_entry) : Prop :=
  match es with
  | r1 :: ((r2 :: _) as es') =>
      (r_end r1 + 1 < r_begin r2 \/ r_tag r1 <> r_tag r2) /\ coalesced es'
  | _ => True
  end.

Definition wf (m : memranges) : Prop := wf_from 0 (entries m).

(** At least [n] nodes can be allocated. *)
Definition avail (n : nat) (fl : list range_entry) : Prop :=
  ENV_RAMSTAGE = true \/ (n <= length fl)%nat.

(** ** Lemmas *)

Lemma wf_from_mono lo lo' es : lo' <= lo -> wf_from lo es -> wf_from lo' es.
Proof. destruct es as [|r es]; simpl; [done|]. intros ? (?&?&?). repeat split; auto; lia. Qed.

Lemma tag_at_below lo es a : wf_from lo es -> a < lo -> tag_at es a = None.
Proof.
  revert lo. induction es as [|r es IH]; simpl; intros lo Hwf Ha; [done|].
  destruct Hwf as ((?&?)&?&?). unfold in_range. zbool. eapply IH; [done|lia].
Qed.

Lemma tag_at_app es1 es2 a :
  tag_at (es1 ++ es2) a = match tag_at es1 a with Some t => Some t | None => tag_at es2 a end.
Proof. induction es1 as [|r es1 IH]; simpl; [done|]. by destruct (in_range r a). Qed.

Lemma avail_mono n n' fl : (n' <= n)%nat -> avail n fl -> avail n' fl.
Proof. unfold avail. intros ? [?|?]; [by left|right; lia]. Qed.

Lemma avail_cons n r fl : avail n fl -> avail n (r :: fl).
Proof. unfold avail. intros [?|?]; [by left|right; simpl; lia]. Qed.

Lemma range_list_add_avail n b e t es fl :
  avail (S n) fl ->
  exists fl', range_list_add b e t es fl = (mk_range b e t :: es, fl') /\ avail n fl'.
Proof.
  unfold range_list_add, alloc_range, avail. intros H. destruct fl as [|r fl]; simpl in *.
  - destruct H as [->|?]; [|lia]. eexists. split; [done|by left].
  - eexists. split; [done|]. destruct H; [by left|right; lia].
Qed.

Lemma range_list_add_cases b e t es fl es' fl' :
  range_list_add b e t es fl = (es', fl') -> es' = es \/ es' = mk_range b e t :: es.
Proof.
  unfold range_list_add. destruct (alloc_range fl) as [[??]|]; intros [= <- <-]; auto.
Qed.

(** *** [merge_neighbor_entries] *)

Lemma merge_loop_spec es : forall prev fl lo,
  wf_from lo (prev :: es) -> 0 <= lo ->
  let es' := fst (merge_loop prev es fl) in
  wf_from lo es' /\ coalesced es' /\
  (exists r es'', es' = r :: es'' /\ r_begin r = r_begin prev /\ r_tag r = r_tag prev) /\
  (forall a, tag_at es' a = tag_at (prev :: es) a) /\
  (length fl <= length (snd (merge_loop prev es fl)))%nat.
Proof.
  induction es as [|cur rest IH]; intros prev fl lo Hwf Hlo; simpl.
  { simpl in Hwf. repeat split; try tauto; eauto. }
  destruct Hwf as (Hp & Hp64 & Hc & Hc64 & Hr). simpl in Hc.
  rewrite u64_small by lia.
  destruct (_ && _) eqn:E; bool_to_prop.
  - destruct (IH (with_end (r_end cur) prev) (cur :: fl) lo) as (W & C & X & T & L).
    { simpl. repeat split; try lia; auto. }
    { done. }
    split; [done|]. split; [done|]. split; [done|]. split; [|simpl in L; lia].
    intros a. rewrite T. simpl. unfold in_range; simpl.
    replace (r_tag prev) with (r_tag cur) by done.
    destruct (Z.leb_spec (r_begin prev) a), (Z.leb_spec a (r_end prev)),
      (Z.leb_spec (r_begin cur) a), (Z.leb_spec a (r_end cur)); simpl; try done; lia.
  - destruct (merge_loop cur rest fl) as [es' fl'] eqn:M.
    destruct (IH cur fl (r_end prev + 1)) as (W & C & (r & es'' & X & Hb & Ht) & T & L).
    { simpl. repeat split; try lia; auto. }
    { lia. }
    rewrite M in *; simpl in *; subst es'.
    split; [split; [lia|]; split; [lia|]; exact W|]. split; [|split; [eauto|split; [|lia]]].
    + split; [|done].
      apply andb_false_iff in E as [E|E]; bool_to_prop; [left; lia|right; congruence].
    + intros a. destruct (in_range prev a); [done|]. by rewrite T.
Qed.

Lemma merge_neighbor_entries_spec m :
  wf m ->
  let m' := merge_neighbor_entries m in
  wf m' /\ coalesced (entries m') /\
  (forall a, tag_at (entries m') a = tag_at (entries m) a).
Proof.
  unfold wf, merge_neighbor_entries. destruct m as [[|r es] fl]; simpl; [done|].
  intros Hwf. pose proof (merge_loop_spec es r fl 0 Hwf ltac:(lia)) as H.
  destruct (merge_loop r es fl) as [es' fl']. simpl in *. tauto.
Qed.

(** *** [remove_memranges] *)

Lemma remove_loop_break begin end_ es fl :
  wf_from (end_ + 1) es -> remove_loop begin end_ es fl = (es, fl).
Proof. destruct es as [|r es]; simpl; [done|]. intros (?&?&?). zbool; done. Qed.

(** What removal of [begin..end_] makes of one address: nothing inside the
    hole, outside it the old tag; when a node for a split-off fragment is
    missing, that fragment's addresses may be dropped. *)
Definition hole_safe (begin end_ : Z) (es es' : list range_entry) : Prop :=
  forall a, tag_at es' a = None \/
    (~ (begin <= a <= end_) /\ tag_at es' a = tag_at es a).

Definition hole_exact (begin end_ : Z) (es es' : list range_entry) : Prop :=
  forall a, ~ (begin <= a <= end_) -> tag_at es' a = tag_at es a.

Definition remove_ok (begin end_ lo : Z) (es fl : list range_entry)
    (res : list range_entry * list range_entry) : Prop :=
  wf_from lo (fst res) /\ hole_safe begin end_ es (fst res) /\
  forall n, avail (S n) fl -> avail n (snd res) /\ hole_exact begin end_ es (fst res).

Ltac in_range_cases :=
  unfold in_range; simpl;
  repeat match goal with
  | |- context [?a <=? ?b] => destruct (Z.leb_spec a b); simpl
  end; try done; try lia.

Lemma remove_ok_break begin end_ lo es fl :
  wf_from lo es -> wf_from (end_ + 1) es -> remove_ok begin end_ lo es fl (es, fl).
Proof.
  intros W1 W2. split; [done|]. split.
  - intros a. destruct (decide (begin <= a <= end_)); [left|by right].
    apply (tag_at_below (end_ + 1)); [done|lia].
  - intros n Hn. split; [by apply (avail_mono (S n)); auto|done].
Qed.

Lemma remove_ok_before begin end_ lo cur rest fl res :
  lo <= r_begin cur <= r_end cur -> r_end cur < 2 ^ 64 -> r_end cur < begin ->
  remove_ok begin end_ (r_end cur + 1) rest fl res ->
  remove_ok begin end_ lo (cur :: rest) fl (cur :: fst res, snd res).
Proof.
  intros H1 H2 H3 (W & T & A). split; [simpl; auto|]. split.
  - intros a. specialize (T a). simpl. in_range_cases. right. split; [lia|done].
  - intros n Hn. destruct (A n Hn) as [A1 A2]. split; [done|]. intros a Ha.
    specialize (A2 a Ha). simpl. by destruct (in_range cur a).
Qed.

Lemma remove_ok_full begin end_ lo cur rest fl res :
  lo <= r_begin cur <= r_end cur -> begin <= r_begin cur -> r_end cur <= end_ ->
  remove_ok (r_end cur + 1) end_ (r_end cur + 1) rest (cur :: fl) res ->
  remove_ok begin end_ lo (cur :: rest) fl res.
Proof.
  intros H1 H2 H3 (W & T & A). split; [eapply wf_from_mono; [|done]; lia|]. split.
  - intros a. specialize (T a). pose proof (tag_at_below _ _ a W) as B. simpl.
    in_range_cases.
    + left. apply B. lia.
    + destruct T as [?|[??]]; [by left|right]. split; [lia|done].
    + left. apply B. lia.
  - intros n Hn. destruct (A n (avail_cons _ _ _ Hn)) as [A1 A2]. split; [done|].
    intros a Ha. simpl. specialize (A2 a). in_range_cases; apply A2; lia.
Qed.

Lemma remove_ok_split begin end_ lo cur rest fl :
  lo <= r_begin cur -> r_begin cur < begin <= end_ -> end_ < r_end cur < 2 ^ 64 ->
  wf_from (r_end cur + 1) rest ->
  remove_ok begin end_ lo (cur :: rest) fl
    (let '(es', fl') := range_list_add (end_ + 1) (r_end cur) (r_tag cur) rest fl in
     (with_end (begin - 1) cur :: es', fl')).
Proof.
  intros H1 H2 H3 W.
  destruct (range_list_add _ _ _ _ _) as [es' fl'] eqn:E. split; [|split].
  - apply range_list_add_cases in E as [->| ->]; simpl; repeat split; try lia; auto.
    apply (wf_from_mono (r_end cur + 1)); [lia|done].
  - intros a. pose proof (tag_at_below _ _ a W) as B.
    apply range_list_add_cases in E as [->| ->]; simpl; in_range_cases;
      try (right; split; [lia|done]); try (left; apply B; lia).
    all: destruct (decide (r_end cur < a)); [right; split; [lia|done]|left; apply B; lia].
  - intros n Hn. apply (range_list_add_avail _ (end_ + 1) (r_end cur) (r_tag cur) rest) in Hn
      as (fl'' & E' & Hn). rewrite E in E'. injection E' as -> ->. split; [done|].
    intros a Ha. simpl. in_range_cases.
Qed.

(** Clipping [cur] to what lies outside [begin..end_] at one of its ends. *)
Lemma remove_ok_clip begin0 begin end_ lo cur cur' rest fl res :
  lo <= r_begin cur -> r_end cur < 2 ^ 64 -> r_tag cur' = r_tag cur ->
  begin = Z.max begin0 (r_begin cur) ->
  (r_begin cur' = end_ + 1 /\ r_end cur' = r_end cur /\ begin = r_begin cur
     /\ r_begin cur <= end_ < r_end cur) \/
  (r_begin cur' = r_begin cur /\ r_end cur' = begin - 1 /\ r_end cur <= end_
     /\ r_begin cur < begin <= r_end cur) ->
  remove_ok begin end_ (r_end cur + 1) rest fl res ->
  remove_ok begin0 end_ lo (cur :: rest) fl (cur' :: fst res, snd res).
Proof.
  intros H1 H2 Ht Hb Hc (W & T & A). split; [|split].
  - simpl. repeat split; try lia. apply (wf_from_mono (r_end cur + 1)); [lia|done].
  - intros a. specialize (T a). pose proof (tag_at_below _ _ a W) as B. simpl. rewrite Ht.
    in_range_cases; try (right; split; [lia|done]); try (left; apply B; lia).
    all: destruct T as [?|[??]]; [by left|right; split; [lia|done]].
  - intros n Hn. destruct (A n Hn) as [A1 A2]. split; [done|]. intros a Ha.
    specialize (A2 a). simpl. rewrite Ht.
    in_range_cases; apply A2; lia.
Qed.

Lemma remove_loop_ok end_ es : forall begin lo fl,
  wf_from lo es -> 0 <= lo -> 0 <= begin <= end_ -> end_ < 2 ^ 64 ->
  remove_ok begin end_ lo es fl (remove_loop begin end_ es fl).
Proof.
  induction es as [|cur rest IH]; intros begin lo fl Hwf Hlo Hb He.
  { by apply remove_ok_break. }
  pose proof Hwf as Hwf0. destruct Hwf as (Hc & Hc64 & Hr). simpl remove_loop.
  destruct (end_ <? r_begin cur) eqn:E1; bool_to_prop.
  { apply remove_ok_break; [done|]. simpl. repeat split; auto; lia. }
  destruct (r_end cur <? begin) eqn:E2; bool_to_prop.
  { rewrite (surjective_pairing (remove_loop _ _ _ _)).
    apply remove_ok_before; auto. apply IH; auto; lia. }
  destruct (_ && _) eqn:E3; bool_to_prop.
  { apply remove_ok_full; try lia.
    destruct (Z.le_gt_cases (r_end cur + 1) end_) as [Hle|Hgt].
    - rewrite u64_small by lia. apply IH; auto; lia.
    - rewrite remove_loop_break by (apply (wf_from_mono (r_end cur + 1)); [lia|done]).
      apply remove_ok_break; [done|]. apply (wf_from_mono (r_end cur + 1)); [lia|done]. }
  apply andb_false_iff in E3.
  set (b1 := if begin <=? r_begin cur then r_begin cur else begin).
  assert (Hb1 : b1 = Z.max begin (r_begin cur)) by (unfold b1; zbool).
  set (te := if r_end cur <? end_ then r_end cur else end_).
  assert (Hte : te = Z.min end_ (r_end cur)) by (unfold te; zbool).
  destruct (_ && _) eqn:E4; bool_to_prop.
  { replace b1 with begin by lia. rewrite !u64_small by lia.
    apply remove_ok_split; auto; lia. }
  apply andb_false_iff in E4. rewrite (surjective_pairing (remove_loop _ _ _ _)).
  apply (remove_ok_clip _ b1); try lia.
  - repeat case_bool; done.
  - destruct (Z.eqb_spec b1 (r_begin cur)); simpl.
    + left. assert (end_ < r_end cur) by (destruct E3; bool_to_prop; lia).
      rewrite (proj2 (Z.eqb_neq te (r_end cur))) by lia. simpl.
      rewrite u64_small by lia. repeat split; lia.
    + right. assert (r_end cur <= end_) by (destruct E4; bool_to_prop; lia).
      rewrite (proj2 (Z.eqb_eq te (r_end cur))) by lia. simpl.
      rewrite u64_small by lia. repeat split; lia.
  - apply IH; auto; lia.
Qed.

(** *** [merge_add_memranges] *)

Lemma add_loop_spec begin end_ tag es : forall lo fl,
  wf_from lo es -> lo <= begin <= end_ -> end_ < 2 ^ 64 ->
  (forall a, begin <= a <= end_ -> tag_at es a = None) ->
  let '(es', fl') := add_loop begin end_ tag es fl in
  wf_from lo es' /\
  (forall a, tag_at es' a = tag_at es a \/
             (begin <= a <= end_ /\ tag_at es' a = Some tag)) /\
  (forall n, avail (S n) fl -> avail n fl' /\
     forall a, begin <= a <= end_ -> tag_at es' a = Some tag).
Proof.
  induction es as [|cur rest IH]; intros lo fl Hwf Hb He Hn; simpl add_loop.
  - destruct (range_list_add begin end_ tag [] fl) as [es' fl'] eqn:E. split; [|split].
    + apply range_list_add_cases in E as [->| ->]; simpl; repeat split; auto; lia.
    + intros a. apply range_list_add_cases in E as [->| ->]; [by left|].
      simpl. in_range_cases; solve [by left | right; split; [lia|done]].
    + intros n Hv. apply (range_list_add_avail _ begin end_ tag []) in Hv as (fl'' & E' & Hv).
      rewrite E in E'. injection E' as -> ->. split; [done|]. intros a Ha. simpl. in_range_cases.
  - destruct Hwf as (Hc & Hc64 & Hr). destruct (Z.ltb_spec end_ (r_begin cur)).
    + destruct (range_list_add begin end_ tag (cur :: rest) fl) as [es' fl'] eqn:E.
      split; [|split].
      * apply range_list_add_cases in E as [->| ->]; simpl; repeat split; auto; lia.
      * intros a. apply range_list_add_cases in E as [->| ->]; [by left|].
        simpl. destruct (in_range (mk_range begin end_ tag) a) eqn:Er; [right|by left].
        unfold in_range in Er. simpl in Er. bool_to_prop. done.
      * intros n Hv. apply (range_list_add_avail _ begin end_ tag (cur :: rest)) in Hv
          as (fl'' & E' & Hv).
        rewrite E in E'. injection E' as -> ->. split; [done|]. intros a Ha. simpl. in_range_cases.
    + assert (r_end cur < begin).
      { destruct (Z.lt_ge_cases (r_end cur) begin); [done|].
        specialize (Hn (Z.max (r_begin cur) begin) ltac:(lia)). simpl in Hn.
        unfold in_range in Hn. rewrite !(proj2 (Z.leb_le _ _)) in Hn by lia. done. }
      specialize (IH (r_end cur + 1) fl Hr ltac:(lia) He).
      destruct (add_loop begin end_ tag rest fl) as [es' fl']. destruct IH as (W & T & A).
      { intros a Ha. specialize (Hn a Ha). simpl in Hn. destruct (in_range cur a); done. }
      split; [simpl; auto|split].
      * intros a. simpl. destruct (in_range cur a) eqn:E'; [by left|apply T].
      * intros n Hv. destruct (A n Hv) as [A1 A2]. split; [done|]. intros a Ha. simpl.
        rewrite A2 by done. in_range_cases.
Qed.

(** What the abstract map should be after [begin..end_] is set to [tag]. *)
Definition set_range (begin end_ : Z) (v : option Z) (f : Z -> option Z) (a : Z) : option Z :=
  if (begin <=? a) && (a <=? end_) then v else f a.

Lemma set_range_in begin end_ v f a :
  begin <= a <= end_ -> set_range begin end_ v f a = v.
Proof. intros. unfold set_range. by rewrite !(proj2 (Z.leb_le _ _)) by lia. Qed.

Lemma set_range_out begin end_ v f a :
  ~ (begin <= a <= end_) -> set_range begin end_ v f a = f a.
Proof. intros. unfold set_range. zbool. Qed.

Lemma merge_add_memranges_spec m begin end_ tag :
  wf m -> 0 <= begin <= end_ -> end_ < 2 ^ 64 ->
  let m' := merge_add_memranges m begin end_ tag in
  let f := set_range begin end_ (Some tag) (tag_at (entries m)) in
  wf m' /\ coalesced (entries m') /\
  (forall a, tag_at (entries m') a = None \/ tag_at (entries m') a = f a) /\
  (avail 2 (free_list m) -> forall a, tag_at (entries m') a = f a).
Proof.
  intros Hwf Hb He. unfold merge_add_memranges, remove_memranges.
  destruct (remove_loop_ok end_ (entries m) begin 0 (free_list m) Hwf ltac:(lia) Hb He)
    as (W1 & S1 & A1).
  destruct (remove_loop _ _ _ _) as [es1 fl1]. simpl in *.
  pose proof (add_loop_spec begin end_ tag es1 0 fl1 W1 ltac:(lia) He) as H.
  destruct (add_loop _ _ _ _ _) as [es2 fl2]. destruct H as (W2 & S2 & A2).
  { intros a Ha. destruct (S1 a) as [?|[??]]; [done|lia]. }
  destruct (merge_neighbor_entries_spec (mk_memranges es2 fl2) W2) as (W3 & C3 & T3).
  split; [done|]. split; [done|]. split.
  - intros a. rewrite T3. simpl. destruct (S2 a) as [->|[? ->]].
    + destruct (S1 a) as [?|[? ->]]; [by left|right]. by rewrite set_range_out.
    + right. by rewrite set_range_in.
  - intros Hv a. rewrite T3. simpl. destruct (A1 1%nat Hv) as [Hv1 X1].
    destruct (A2 0%nat Hv1) as [_ X2].
    destruct (decide (begin <= a <= end_)); [rewrite set_range_in by done; auto|].
    rewrite set_range_out by done. destruct (S2 a) as [->|[??]]; [auto|done].
Qed.

(** *** Page rounding in [do_action] *)

Definition page_floor (x : Z) : Z := x - x mod 4096.

Lemma do_action_pages m base size tag action :
  0 <= base -> 0 < size -> base + size <= 2 ^ 64 ->
  do_action m base size tag action =
  action m (page_floor base) (page_floor (base + size - 1) + 4095) tag.
Proof.
  intros Hb Hs He. unfold do_action.
  rewrite (proj2 (Z.eqb_neq size 0)) by lia.
  change 4096 with (2 ^ 12).
  rewrite align_down_pow2 by lia. change (2 ^ 12) with 4096.
  replace (base - base mod 4096 + size + (base - (base - base mod 4096))) with (base + size) by lia.
  f_equal.
  change 4096 with (2 ^ 12) at 1. rewrite align_up_wrap by lia.
  change (2 ^ 12) with 4096. unfold page_floor, u64, wrap. change (4096 - 1) with 4095.
  Z.to_euclidean_division_equations. lia.
Qed.

Lemma page_floor_bounds x : 0 <= x < 2 ^ 64 -> 0 <= page_floor x <= x /\ x <= page_floor x + 4095 < 2 ^ 64.
Proof. unfold page_floor. intros. Z.to_euclidean_division_equations. lia. Qed.

Lemma page_floor_mono x y : x <= y -> page_floor x <= page_floor y.
Proof. unfold page_floor. intros. Z.to_euclidean_division_equations. lia. Qed.

(** *** [memranges_fill_holes_up_to] *)

(** The inputs the loop handles: every gap it looks at starts below [limit],
    and no entry reaches the top of the address space. *)
Fixpoint fill_ok (limit : Z) (prev : range_entry) (es : list range_entry) : Prop :=
  r_end prev + 1 < 2 ^ 64 /\
  match es with
  | [] => True
  | cur :: rest =>
      (r_end prev + 1 = r_begin cur \/ r_end prev + 1 < limit) /\
      (if limit <=? r_begin cur then r_end cur + 1 < 2 ^ 64 else fill_ok limit cur rest)
  end.

Definition fill_value (limit tag lo : Z) (f : Z -> option Z) (a : Z) : option Z :=
  match f a with
  | Some t => Some t
  | None => if (lo <=? a) && (a <? limit) then Some tag else None
  end.

Lemma fill_tail_spec limit tag prev rest fl lo :
  0 <= lo -> wf_from lo (prev :: rest) -> 0 < limit < 2 ^ 64 -> r_end prev + 1 < 2 ^ 64 ->
  (rest = [] \/ limit <= r_begin prev) -> avail 1 fl ->
  let '(es', fl') := fill_tail limit tag prev rest fl in
  wf_from lo es' /\
  (forall a, tag_at es' a = fill_value limit tag (r_begin prev) (tag_at (prev :: rest)) a) /\
  (exists es'', es' = prev :: es'').
Proof.
  intros Hlo (Hp & Hp64 & Hr) Hl H64 Hrest Hv. unfold fill_tail, range_entry_end.
  rewrite !u64_small by lia.
  destruct (Z.ltb_spec (r_end prev + 1) limit).
  - destruct Hrest as [->|?]; [|lia].
    destruct (range_list_add_avail 0 (r_end prev + 1) (limit - 1) tag [] fl Hv) as (fl' & -> & _).
    split; [simpl; repeat split; lia|]. split; [|eauto].
    intros a. unfold fill_value. simpl. destruct (in_range prev a) eqn:E; [done|].
    unfold in_range in *. simpl. apply andb_false_iff in E.
    assert (a < r_begin prev \/ r_end prev < a) by (destruct E; bool_to_prop; lia).
    zbool; destruct_or!; bool_to_prop; lia.
  - split; [simpl; auto|]. split; [|eauto].
    intros a. unfold fill_value. destruct (tag_at (prev :: rest) a) eqn:E; [done|].
    zbool. simpl in E. destruct (in_range prev a) eqn:E'; [done|].
    unfold in_range in E'. apply andb_false_iff in E' as [?|?]; bool_to_prop; lia.
Qed.

Lemma fill_gap_spec limit tag prev cur fl n :
  0 <= r_begin prev <= r_end prev -> r_end prev + 1 <= r_begin cur < 2 ^ 64 ->
  0 < limit < 2 ^ 64 -> r_end prev + 1 = r_begin cur \/ r_end prev + 1 < limit ->
  avail (S n) fl ->
  let '(ms, fl') := fill_gap limit tag prev cur fl in
  avail n fl' /\
  (forall es, wf_from (r_begin cur) es -> wf_from (r_end prev + 1) (ms ++ es)) /\
  (forall a, tag_at ms a = if (r_end prev <? a) && (a <? Z.min limit (r_begin cur))
                           then Some tag else None).
Proof.
  intros Hp Hc Hl Hok Hv. unfold fill_gap, range_entry_end.
  rewrite !u64_small by lia.
  destruct (Z.eqb_spec (r_end prev + 1) (r_begin cur)); simpl negb; cbn iota.
  - split; [by apply (avail_mono (S n)); [lia|]|]. split.
    + intros es W. eapply wf_from_mono; [|exact W]. lia.
    + intros a. simpl. zbool.
  - set (e := if limit <=? _ then _ else _).
    assert (He : e = Z.min (limit - 1) (r_begin cur - 1)) by (unfold e; zbool).
    destruct (range_list_add_avail n (r_end prev + 1) e tag [] fl Hv) as (fl' & -> & Hv').
    split; [done|]. split.
    + intros es W. simpl. repeat split; try lia. eapply wf_from_mono; [|exact W]. lia.
    + intros a. simpl. unfold in_range; simpl.
      destruct (Z.leb_spec (r_end prev + 1) a), (Z.leb_spec a e),
        (Z.ltb_spec (r_end prev) a), (Z.ltb_spec a (Z.min limit (r_begin cur)));
        simpl; try done; lia.
Qed.

Lemma wf_from_self lo r es : wf_from lo (r :: es) -> wf_from (r_begin r) (r :: es).
Proof. simpl. intros (?&?&?). repeat split; auto; lia. Qed.

(** One step of the loop: the gap's entry, then what the rest became. *)
Lemma fill_value_cons limit tag prev cur rest ms es' a :
  r_begin prev <= r_end prev < r_begin cur -> r_begin prev < limit ->
  wf_from (r_end prev + 1) (cur :: rest) ->
  tag_at ms a = (if (r_end prev <? a) && (a <? Z.min limit (r_begin cur))
                 then Some tag else None) ->
  tag_at es' a = fill_value limit tag (r_begin cur) (tag_at (cur :: rest)) a ->
  tag_at (prev :: ms ++ es') a =
  fill_value limit tag (r_begin prev) (tag_at (prev :: cur :: rest)) a.
Proof.
  intros Hp Hl W Hm He.
  change (tag_at (prev :: ms ++ es') a)
    with (if in_range prev a then Some (r_tag prev) else tag_at (ms ++ es') a).
  rewrite tag_at_app, Hm, He. unfold fill_value.
  pose proof (tag_at_below _ _ a (wf_from_self _ _ _ W)) as B.
  change (tag_at (prev :: cur :: rest) a)
    with (if in_range prev a then Some (r_tag prev) else tag_at (cur :: rest) a).
  destruct (in_range prev a) eqn:E; [done|].
  unfold in_range in E. apply andb_false_iff in E.
  assert (Ha : a < r_begin prev \/ r_end prev < a) by (destruct E; bool_to_prop; lia).
  revert B. generalize (tag_at (cur :: rest) a). intros t B.
  destruct (Z.ltb_spec (r_end prev) a), (Z.ltb_spec a (Z.min limit (r_begin cur))),
    (Z.leb_spec (r_begin prev) a), (Z.ltb_spec a limit), (Z.leb_spec (r_begin cur) a);
    simpl; try lia; try done; try (by destruct t);
    rewrite B by lia; done.
Qed.

Lemma fill_loop_spec limit tag es : forall prev fl lo,
  0 <= lo -> wf_from lo (prev :: es) -> 0 < limit < 2 ^ 64 ->
  r_begin prev < limit -> fill_ok limit prev es -> avail (S (length es)) fl ->
  let '(es', fl') := fill_loop limit tag prev es fl in
  wf_from lo es' /\
  (forall a, tag_at es' a = fill_value limit tag (r_begin prev) (tag_at (prev :: es)) a) /\
  (exists es'', es' = prev :: es'').
Proof.
  induction es as [|cur rest IH]; intros prev fl lo Hlo Hwf Hl Hpl Hok Hv.
  { simpl fill_loop. apply fill_tail_spec; auto. simpl in Hok. tauto. }
  pose proof Hwf as (Hp & Hp64 & Hwc). pose proof Hwc as (Hc & Hc64 & Hr).
  destruct Hok as (Hok1 & Hok2 & Hok3).
  pose proof (fill_gap_spec limit tag prev cur fl (S (length rest))
    ltac:(lia) ltac:(lia) Hl Hok2 Hv) as Hgap.
  simpl fill_loop. destruct (fill_gap _ _ _ _ _) as [ms fl1].
  destruct Hgap as (Hv1 & Wms & Tms).
  assert (Hrec : let '(es', fl') :=
      if limit <=? r_begin cur then fill_tail limit tag cur rest fl1
      else fill_loop limit tag cur rest fl1 in
    wf_from (r_begin cur) es' /\
    (forall a, tag_at es' a = fill_value limit tag (r_begin cur) (tag_at (cur :: rest)) a) /\
    (exists es'', es' = cur :: es'')).
  { pose proof (wf_from_self _ _ _ Hwc). destruct (Z.leb_spec limit (r_begin cur)).
    - apply fill_tail_spec; auto; try lia. by apply (avail_mono (S (length rest))); [lia|].
    - apply IH; auto; lia. }
  destruct (if limit <=? r_begin cur then _ else _) as [es' fl'].
  destruct Hrec as (W & T & _). split; [|split; [|eauto]].
  - simpl. split; [lia|]. split; [lia|]. by apply Wms.
  - intros a. apply (fill_value_cons _ _ _ cur); auto; lia.
Qed.

(** *** No node is lost *)

Definition nodes (m : memranges) : nat := (length (entries m) + length (free_list m))%nat.

Lemma range_list_add_nodes b e t es fl es' fl' :
  ENV_RAMSTAGE = false -> range_list_add b e t es fl = (es', fl') ->
  (length es' + length fl' = length es + length fl)%nat.
Proof.
  unfold range_list_add, alloc_range. intros ->. destruct fl; intros [= <- <-]; simpl; lia.
Qed.

Lemma merge_loop_nodes es : forall prev fl es' fl',
  merge_loop prev es fl = (es', fl') ->
  (length es' + length fl' = S (length es) + length fl)%nat.
Proof.
  induction es as [|cur rest IH]; intros prev fl es' fl'; simpl; [by intros [= <- <-]|].
  case_bool.
  - intros H. apply IH in H. simpl in H. lia.
  - destruct (merge_loop cur rest fl) as [es1 fl1] eqn:M. intros [= <- <-].
    apply IH in M. simpl. lia.
Qed.

Lemma merge_neighbor_entries_nodes m : nodes (merge_neighbor_entries m) = nodes m.
Proof.
  unfold merge_neighbor_entries, nodes. destruct m as [[|r es] fl]; simpl; [done|].
  destruct (merge_loop r es fl) as [es' fl'] eqn:M. apply merge_loop_nodes in M. done.
Qed.

Lemma remove_loop_nodes end_ es : forall begin fl es' fl',
  ENV_RAMSTAGE = false -> remove_loop begin end_ es fl = (es', fl') ->
  (length es' + length fl' = length es + length fl)%nat.
Proof.
  induction es as [|cur rest IH]; intros begin fl es' fl' Hr; simpl; [by intros [= <- <-]|].
  case_bool; [by intros [= <- <-]|]. case_bool.
  { destruct (remove_loop begin end_ rest fl) as [es1 fl1] eqn:M. intros [= <- <-].
    apply IH in M; [|done]. simpl. lia. }
  case_bool; [intros H; apply IH in H; [|done]; simpl in H; lia|].
  match goal with |- (if ?b then _ else _) = _ -> _ => destruct b end.
  - destruct (range_list_add _ _ _ _ _) as [es1 fl1] eqn:M. intros [= <- <-].
    apply range_list_add_nodes in M; [|done]. simpl. lia.
  - destruct (remove_loop _ end_ rest fl) as [es1 fl1] eqn:M. intros [= <- <-].
    apply IH in M; [|done]. simpl. lia.
Qed.

Lemma add_loop_nodes begin end_ tag es : forall fl es' fl',
  ENV_RAMSTAGE = false -> add_loop begin end_ tag es fl = (es', fl') ->
  (length es' + length fl' = length es + length fl)%nat.
Proof.
  induction es as [|cur rest IH]; intros fl es' fl' Hr; simpl.
  { intros H. by apply range_list_add_nodes in H. }
  case_bool; [intros H; by apply range_list_add_nodes in H|].
  destruct (add_loop begin end_ tag rest fl) as [es1 fl1] eqn:M. intros [= <- <-].
  apply IH in M; [|done]. simpl. lia.
Qed.

Lemma fill_tail_nodes limit tag prev rest fl es' fl' :
  ENV_RAMSTAGE = false -> fill_tail limit tag prev rest fl = (es', fl') ->
  (length es' + length fl' = S (length rest) + length fl)%nat.
Proof.
  intros Hr. unfold fill_tail. case_bool; [|by intros [= <- <-]].
  destruct (range_list_add _ _ _ _ _) as [es1 fl1] eqn:M. intros [= <- <-].
  apply range_list_add_nodes in M; [|done]. simpl. lia.
Qed.

Lemma fill_loop_nodes limit tag es : forall prev fl es' fl',
  ENV_RAMSTAGE = false -> fill_loop limit tag prev es fl = (es', fl') ->
  (length es' + length fl' = S (length es) + length fl)%nat.
Proof.
  induction es as [|cur rest IH]; intros prev fl es' fl' Hr; simpl.
  { intros H. by apply fill_tail_nodes in H. }
  destruct (fill_gap limit tag prev cur fl) as [ms fl1] eqn:G.
  assert (length ms + length fl1 = length fl)%nat.
  { unfold fill_gap in G. revert G. case_bool; [|by intros [= <- <-]].
    intros G. by apply range_list_add_nodes in G. }
  destruct (if limit <=? r_begin cur then _ else _) as [es1 fl2] eqn:M.
  intros [= <- <-]. simpl. rewrite length_app.
  assert (length es1 + length fl2 = S (length rest) + length fl1)%nat; [|lia].
  revert M. case_bool; intros M; [by apply fill_tail_nodes in M|by apply IH in M].
Qed.

(** *** Operations as data, for statements about whole runs *)

Inductive memop :=
  | OpInsert (base size tag : Z)
  | OpHole (base size : Z)
  | OpUpdateTag (old_tag new_tag : Z)
  | OpFill (limit tag : Z)
  | OpTeardown.

Definition run_op (m : memranges) (o : memop) : memranges :=
  match o with
  | OpInsert base size tag => memranges_insert m base size tag
  | OpHole base size => memranges_create_hole m base size
  | OpUpdateTag o n => memranges_update_tag m o n
  | OpFill limit tag => memranges_fill_holes_up_to m limit tag
  | OpTeardown => memranges_teardown m
  end.

(** The C types of the arguments, and no wrap past the top of memory; where holes are filled,
    each gap the loop meets begins below the limit. *)
Definition op_ok (m : memranges) (o : memop) : Prop :=
  match o with
  | OpInsert base size _ | OpHole base size => 0 <= base /\ 0 <= size /\ base + size <= 2 ^ 64
  | OpUpdateTag _ _ | OpTeardown => True
  | OpFill limit _ => 0 < limit < 2 ^ 64 /\
      match entries m with [] => True | first :: rest => fill_ok limit first rest end
  end.

(** Each operation of a run, on what the ones before it made. *)
Fixpoint ops_ok (m : memranges) (ops : list memop) : Prop :=
  match ops with [] => True | o :: ops => op_ok m o /\ ops_ok (run_op m o) ops end.

(** Filling keeps the order, with nodes or without. *)
Lemma fill_tail_wf limit tag prev rest fl lo :
  0 <= lo -> wf_from lo (prev :: rest) -> 0 < limit < 2 ^ 64 -> r_end prev + 1 < 2 ^ 64 ->
  rest = [] \/ limit <= r_begin prev -> wf_from lo (fst (fill_tail limit tag prev rest fl)).
Proof.
  intros Hlo (Hp & Hp64 & Hr) Hl H64 Hrest. unfold fill_tail, range_entry_end. rewrite !u64_small by lia.
  destruct (Z.ltb_spec (r_end prev + 1) limit); [|done]. destruct Hrest as [-> |?]; [|lia].
  destruct (range_list_add _ _ _ _ _) as [es' fl'] eqn:M. apply range_list_add_cases in M as [-> | ->]; simpl; repeat split; lia.
Qed.

Lemma fill_gap_wf limit tag prev cur fl es :
  0 <= r_begin prev <= r_end prev -> r_end prev + 1 <= r_begin cur < 2 ^ 64 -> 0 < limit < 2 ^ 64 ->
  r_end prev + 1 = r_begin cur \/ r_end prev + 1 < limit -> wf_from (r_begin cur) es ->
  wf_from (r_end prev + 1) (fst (fill_gap limit tag prev cur fl) ++ es).
Proof.
  intros Hp Hc Hl Hok W. unfold fill_gap, range_entry_end. rewrite !u64_small by lia.
  assert (W' : wf_from (r_end prev + 1) es) by (eapply wf_from_mono; [|exact W]; lia).
  destruct (Z.eqb_spec (r_end prev + 1) (r_begin cur)); [done|]. cbn [negb]. set (e := if limit <=? _ then _ else _).
  assert (He : e = Z.min (limit - 1) (r_begin cur - 1)) by (unfold e; zbool).
  destruct (range_list_add _ _ _ _ _) as [ms fl'] eqn:M. apply range_list_add_cases in M as [-> | ->]; [done|].
  simpl. repeat split; try lia. eapply wf_from_mono; [|exact W]. lia.
Qed.

Lemma fill_loop_wf limit tag es : forall prev fl lo,
  0 <= lo -> wf_from lo (prev :: es) -> 0 < limit < 2 ^ 64 -> fill_ok limit prev es ->
  wf_from lo (fst (fill_loop limit tag prev es fl)).
Proof.
  induction es as [|cur rest IH]; intros prev fl lo Hlo Hwf Hl Hok.
  { simpl fill_loop. apply fill_tail_wf; auto. simpl in Hok. tauto. }
  pose proof Hwf as (Hp & Hp64 & Hwc). pose proof Hwc as (Hc & Hc64 & Hr). destruct Hok as (Hok1 & Hok2 & Hok3).
  pose proof (fun es => fill_gap_wf limit tag prev cur fl es ltac:(lia) ltac:(lia) Hl Hok2) as Hgap.
  simpl fill_loop. destruct (fill_gap _ _ _ _ _) as [ms fl1].
  pose proof (wf_from_self _ _ _ Hwc) as Hself.
  assert (Hrec : wf_from (r_begin cur) (fst (if limit <=? r_begin cur then fill_tail limit tag cur rest fl1
      else fill_loop limit tag cur rest fl1))).
  { destruct (Z.leb_spec limit (r_begin cur)); [apply fill_tail_wf|apply IH]; auto; lia. }
  destruct (if limit <=? r_begin cur then _ else _) as [es' fl']. cbn [fst] in *.
  simpl. split; [lia|]. split; [lia|]. by apply Hgap.
Qed.

Lemma wf_update_tags lo es o n :
  wf_from lo es ->
  wf_from lo (map (fun r => if range_entry_tag r =? o
                            then range_entry_update_tag r n else r) es).
Proof.
  revert lo. induction es as [|r es IH]; simpl; intros lo W; [done|].
  destruct W as (?&?&W). apply IH in W. case_bool; simpl; auto.
Qed.

Lemma tag_at_update_tags es o n a :
  tag_at (map (fun r => if range_entry_tag r =? o
                        then range_entry_update_tag r n else r) es) a =
  (fun t => if t =? o then n else t) <$> tag_at es a.
Proof.
  induction es as [|r es IH]; simpl; [done|]. unfold range_entry_tag.
  destruct (r_tag r =? o) eqn:E; unfold in_range in *; simpl;
    (destruct (_ && _); simpl; [by rewrite E|done]).
Qed.

Lemma do_action_nodes m base size tag action :
  (forall m b e t, nodes (action m b e t) = nodes m) ->
  nodes (do_action m base size tag action) = nodes m.
Proof. intros H. unfold do_action. case_bool; [done|apply H]. Qed.

Lemma remove_memranges_nodes m b e t :
  ENV_RAMSTAGE = false -> nodes (remove_memranges m b e t) = nodes m.
Proof.
  intros Hr. unfold remove_memranges, nodes.
  destruct (remove_loop _ _ _ _) as [es fl] eqn:M. by apply remove_loop_nodes in M.
Qed.

Lemma merge_add_memranges_nodes m b e t :
  ENV_RAMSTAGE = false -> nodes (merge_add_memranges m b e t) = nodes m.
Proof.
  intros Hr. unfold merge_add_memranges.
  rewrite <- (remove_memranges_nodes m b e (u32 (-1)) Hr).
  destruct (add_loop _ _ _ _ _) as [es fl] eqn:M. rewrite merge_neighbor_entries_nodes.
  by apply add_loop_nodes in M.
Qed.

Lemma run_op_nodes m o : ENV_RAMSTAGE = false -> nodes (run_op m o) = nodes m.
Proof.
  intros Hr. destruct o; simpl.
  - apply do_action_nodes. intros. by apply merge_add_memranges_nodes.
  - apply do_action_nodes. intros. by apply remove_memranges_nodes.
  - unfold memranges_update_tag. rewrite merge_neighbor_entries_nodes. unfold nodes. simpl.
    by rewrite length_map.
  - unfold memranges_fill_holes_up_to. destruct (entries m) as [|r es] eqn:E;
      [apply merge_neighbor_entries_nodes|].
    destruct (fill_loop _ _ _ _ _) as [es' fl'] eqn:M. rewrite merge_neighbor_entries_nodes.
    apply fill_loop_nodes in M; [|done]. unfold nodes. rewrite E. done.
  - unfold nodes. simpl. rewrite length_app, length_rev. lia.
Qed.

Lemma run_op_wf m o : op_ok m o -> wf m -> wf (run_op m o).
Proof.
  intros Ho W. destruct o as [base size tag|base size|o n|limit tag|]; simpl in *.
  - destruct (decide (size = 0)) as [->|]; [done|].
    unfold memranges_insert. rewrite do_action_pages by lia.
    pose proof (page_floor_bounds base ltac:(lia)).
    pose proof (page_floor_bounds (base + size - 1) ltac:(lia)).
    pose proof (page_floor_mono base (base + size - 1) ltac:(lia)).
    apply merge_add_memranges_spec; auto; lia.
  - destruct (decide (size = 0)) as [->|]; [done|].
    unfold memranges_create_hole. rewrite do_action_pages by lia.
    pose proof (page_floor_bounds base ltac:(lia)).
    pose proof (page_floor_bounds (base + size - 1) ltac:(lia)).
    pose proof (page_floor_mono base (base + size - 1) ltac:(lia)).
    unfold wf, remove_memranges.
    pose proof (remove_loop_ok (page_floor (base + size - 1) + 4095) (entries m)
      (page_floor base) 0 (free_list m) W ltac:(lia) ltac:(lia) ltac:(lia)) as (W' & _).
    by destruct (remove_loop _ _ _ _) as [es fl].
  - unfold memranges_update_tag. apply merge_neighbor_entries_spec. by apply wf_update_tags.
  - destruct Ho as [Hl Ho]. unfold memranges_fill_holes_up_to. destruct (entries m) as [|first rest] eqn:E.
    + by apply merge_neighbor_entries_spec.
    + unfold wf in W. rewrite E in W. pose proof (fill_loop_wf limit tag rest first (free_list m) 0 ltac:(lia) W Hl Ho) as H.
      destruct (fill_loop _ _ _ _ _) as [es fl]. by apply merge_neighbor_entries_spec.
  - done.
Qed.

(** ** Properties *)

(** C5.  [memranges_insert] on a well-formed list, for a range that does
    not run past 2^64, keeps the list sorted and disjoint, leaves no two
    mergeable neighbours, and sets exactly the pages of the range to [tag]
    when two nodes are available; without nodes an address is never given a
    wrong tag, it can only lose its entry. *)
Theorem memranges_insert_correct m base size tag :
  wf m -> 0 <= base -> 0 < size -> base + size <= 2 ^ 64 ->
  let m' := memranges_insert m base size tag in
  let f := set_range (page_floor base) (page_floor (base + size - 1) + 4095)
             (Some tag) (tag_at (entries m)) in
  wf m' /\ coalesced (entries m') /\
  (forall a, tag_at (entries m') a = None \/ tag_at (entries m') a = f a) /\
  (avail 2 (free_list m) -> forall a, tag_at (entries m') a = f a).
Proof.
  intros W Hb Hs He. unfold memranges_insert. rewrite do_action_pages by lia.
  pose proof (page_floor_bounds base ltac:(lia)).
  pose proof (page_floor_bounds (base + size - 1) ltac:(lia)).
  pose proof (page_floor_mono base (base + size - 1) ltac:(lia)).
  apply merge_add_memranges_spec; auto; lia.
Qed.

(** [memranges_create_hole] removes exactly the pages of the range
    and keeps every other address as it was (one node may be needed for a
    split; without it addresses can only be lost). *)
Theorem memranges_create_hole_correct m base size :
  wf m -> 0 <= base -> 0 < size -> base + size <= 2 ^ 64 ->
  let m' := memranges_create_hole m base size in
  let f := set_range (page_floor base) (page_floor (base + size - 1) + 4095)
             None (tag_at (entries m)) in
  wf m' /\
  (forall a, tag_at (entries m') a = None \/ tag_at (entries m') a = f a) /\
  (avail 1 (free_list m) -> forall a, tag_at (entries m') a = f a).
Proof.
  intros W Hb Hs He. unfold memranges_create_hole. rewrite do_action_pages by lia.
  pose proof (page_floor_bounds base ltac:(lia)).
  pose proof (page_floor_bounds (base + size - 1) ltac:(lia)).
  pose proof (page_floor_mono base (base + size - 1) ltac:(lia)).
  set (b := page_floor base) in *. set (e := page_floor (base + size - 1) + 4095) in *.
  destruct (remove_loop_ok e (entries m) b 0 (free_list m) W ltac:(lia) ltac:(lia) ltac:(lia))
    as (W' & T & A).
  unfold remove_memranges. destruct (remove_loop _ _ _ _) as [es fl]. simpl in *.
  split; [done|]. split.
  - intros a. destruct (T a) as [?|[? ->]]; [by left|right]. by rewrite set_range_out.
  - intros Hv a. destruct (A 0%nat Hv) as [_ X]. destruct (decide (b <= a <= e)).
    + rewrite set_range_in by done. destruct (T a) as [?|[??]]; [done|lia].
    + by rewrite set_range_out by done; apply X.
Qed.

(** [memranges_update_tag] replaces [old_tag] by [new_tag] at every
    address and nowhere else, and re-merges neighbours that became equal. *)
Theorem memranges_update_tag_correct m old_tag new_tag :
  wf m ->
  let m' := memranges_update_tag m old_tag new_tag in
  wf m' /\ coalesced (entries m') /\
  forall a, tag_at (entries m') a =
    (fun t => if t =? old_tag then new_tag else t) <$> tag_at (entries m) a.
Proof.
  intros W. unfold memranges_update_tag.
  destruct (merge_neighbor_entries_spec (mk_memranges _ (free_list m))
    (wf_update_tags 0 (entries m) old_tag new_tag W)) as (W' & C & T).
  split; [done|]. split; [done|]. intros a. rewrite T. apply tag_at_update_tags.
Qed.

(** When every gap the loop meets starts below [limit],
    [memranges_fill_holes_up_to] gives [tag] to exactly the uncovered
    addresses from the first entry up to [limit] and keeps all other tags. *)
Theorem memranges_fill_holes_correct m limit tag first rest :
  wf m -> entries m = first :: rest -> 0 < limit < 2 ^ 64 ->
  r_begin first < limit -> fill_ok limit first rest ->
  avail (S (length rest)) (free_list m) ->
  let m' := memranges_fill_holes_up_to m limit tag in
  wf m' /\ coalesced (entries m') /\
  forall a, tag_at (entries m') a = fill_value limit tag (r_begin first) (tag_at (entries m)) a.
Proof.
  intros W E Hl Hf Hok Hv. unfold memranges_fill_holes_up_to. unfold wf in W. rewrite E in *.
  pose proof (fill_loop_spec limit tag rest first (free_list m) 0 ltac:(lia) W Hl Hf Hok Hv) as H.
  destruct (fill_loop _ _ _ _ _) as [es fl]. destruct H as (W1 & T1 & _).
  destruct (merge_neighbor_entries_spec (mk_memranges es fl) W1) as (W2 & C2 & T2).
  split; [done|]. split; [done|]. intros a. rewrite T2. apply T1.
Qed.

(** Outside ramstage, where nodes cannot be allocated, no sequence
    of operations loses or invents a node: entries plus cached nodes stay
    constant, whatever the arguments. *)
Theorem memranges_no_node_leak m ops :
  ENV_RAMSTAGE = false -> nodes (fold_left run_op ops m) = nodes m.
Proof.
  intros Hr. revert m. induction ops as [|o ops IH]; intros m; simpl; [done|].
  rewrite IH. by apply run_op_nodes.
Qed.

(** C40.  From an empty [memranges] every run of insertions, holes, tag updates, fills and
    teardowns keeps the list sorted and disjoint, even when nodes run out: the ranges are below
    2^64, and where holes are filled, each gap the loop meets begins below the limit, without
    which a fill breaks the order ([fill_holes_limit_inside_entry]). *)
Theorem memranges_wf_reachable to_free ops :
  ops_ok (memranges_init_empty to_free) ops -> wf (fold_left run_op ops (memranges_init_empty to_free)).
Proof.
  assert (W : wf (memranges_init_empty to_free)) by done. revert W.
  generalize (memranges_init_empty to_free). induction ops as [|o ops IH]; intros m W; simpl; [done|].
  intros [Ho H]. by apply IH; [apply run_op_wf|].
Qed.

End MemRange.

(** *** Witnesses and concrete behaviour *)

Definition sample : memranges :=
  mk_memranges [mk_range 0 0x9ffff 6; mk_range 0x100000 0x7fffffff 6] [].

Lemma sample_wf : wf sample.
Proof. unfold wf, sample; simpl; lia. Qed.

Lemma memranges_insert_witness :
  entries (memranges_insert true sample 0x1000000 0x1800 0) =
    [mk_range 0 0x9ffff 6; mk_range 0x100000 0xffffff 6; mk_range 0x1000000 0x1001fff 0;
     mk_range 0x1002000 0x7fffffff 6] /\
  wf (memranges_insert true sample 0x1000000 0x1800 0).
Proof.
  split; [reflexivity|].
  destruct (memranges_insert_correct true sample 0x1000000 0x1800 0) as (W & _);
    [exact sample_wf|lia..|exact W].
Defined.

Lemma memranges_create_hole_witness :
  entries (memranges_create_hole true sample 0x1000000 0x1000) =
    [mk_range 0 0x9ffff 6; mk_range 0x100000 0xffffff 6; mk_range 0x1001000 0x7fffffff 6] /\
  wf (memranges_create_hole true sample 0x1000000 0x1000).
Proof.
  split; [reflexivity|].
  destruct (memranges_create_hole_correct true sample 0x1000000 0x1000) as (W & _);
    [exact sample_wf|lia..|exact W].
Defined.

Lemma memranges_update_tag_witness : wf (memranges_update_tag sample 6 0).
Proof. destruct (memranges_update_tag_correct sample 6 0) as (W & _); [exact sample_wf|exact W]. Defined.

Lemma memranges_fill_holes_witness :
  entries (memranges_fill_holes_up_to true sample 0x100000000 0) =
    [mk_range 0 0x9ffff 6; mk_range 0xa0000 0xfffff 0; mk_range 0x100000 0x7fffffff 6;
     mk_range 0x80000000 0xffffffff 0] /\
  wf (memranges_fill_holes_up_to true sample 0x100000000 0).
Proof.
  split; [reflexivity|].
  destruct (memranges_fill_holes_correct true sample 0x100000000 0
    (mk_range 0 0x9ffff 6) [mk_range 0x100000 0x7fffffff 6]) as (W & _);
    [exact sample_wf|reflexivity|lia|simpl; lia|simpl; lia|by left|exact W].
Defined.

Lemma memranges_no_node_leak_witness :
  nodes (fold_left (run_op false) [OpInsert 0 0x1000 6; OpHole 0x1000 1]
           (memranges_init_empty [mk_range 0 0 0; mk_range 0 0 0])) = 2%nat.
Proof. rewrite (memranges_no_node_leak false); reflexivity. Defined.

Lemma memranges_wf_reachable_witness :
  let ops := [OpInsert 0 0x2000 6; OpHole 0x1000 1; OpInsert 0x5000 0x1000 6; OpUpdateTag 6 0; OpFill 0x8000 3] in
  wf (fold_left (run_op true) ops (memranges_init_empty [])) /\
  entries (fold_left (run_op true) ops (memranges_init_empty [])) =
    [mk_range 0 0xfff 0; mk_range 0x1000 0x4fff 3; mk_range 0x5000 0x5fff 0; mk_range 0x6000 0x7fff 3].
Proof.
  intros ops. split; [|reflexivity]. apply (memranges_wf_reachable true). vm_compute. repeat split; try done. by right.
Defined.

(** [memranges_fill_holes_up_to] with a [limit] inside an entry
    that is followed by a gap adds an entry that ends before it begins, so
    the list is no longer well-formed: the gap's end is clipped to [limit]
    but its start is not compared with it. *)
Theorem fill_holes_limit_inside_entry :
  let m := mk_memranges [mk_range 0 0x1fff 6; mk_range 0x3000 0x3fff 6] [] in
  wf m /\
  entries (memranges_fill_holes_up_to true m 0x1000 0) =
    [mk_range 0 0x1fff 6; mk_range 0x2000 0xfff 0; mk_range 0x3000 0x3fff 6] /\
  ~ wf (memranges_fill_holes_up_to true m 0x1000 0).
Proof.
  intros m. split; [unfold wf; simpl; lia|].
  assert (E : entries (memranges_fill_holes_up_to true m 0x1000 0) =
    [mk_range 0 0x1fff 6; mk_range 0x2000 0xfff 0; mk_range 0x3000 0x3fff 6]) by reflexivity.
  split; [done|]. unfold wf. rewrite E. simpl. lia.
Qed.

(** Addresses below the first entry stay uncovered although the
    header promises to fill all of them up to [limit]; an empty list stays
    empty. *)
Theorem fill_holes_leaves_bottom :
  entries (memranges_fill_holes_up_to true (mk_memranges [] []) 0x100000000 0) = [] /\
  tag_at (entries (memranges_fill_holes_up_to true
    (mk_memranges [mk_range 0x1000 0x1fff 6] []) 0x100000000 0)) 0 = None.
Proof. split; reflexivity. Qed.
