(* ===== verification/Mtrr.v ===== *)
(** * MTRR setup ([src/cpu/x86/mtrr/mtrr.c], [src/include/cpu/x86/mtrr.h])

    The tagged physical address space ([MemRange.v]) is turned into fixed
    MTRR types and a small set of power-of-two variable MTRRs.  MSRs are a
    function from their number; every [wrmsr] and cache switch is also kept
    in a trace, in order. *)

From S2P Require Import Prelude Device MemRange.

(** ** Constants *)

Definition MTRR_TYPE_UNCACHEABLE : Z := 0.
Definition MTRR_TYPE_WRCOMB : Z := 1.
Definition MTRR_TYPE_WRBACK : Z := 6.
Definition MTRR_CAP_MSR : Z := 0x0fe.
Definition MTRR_DEF_TYPE_MSR : Z := 0x2ff.
Definition MTRR_DEF_TYPE_EN : Z := Z.shiftl 1 11.
Definition MTRR_DEF_TYPE_FIX_EN : Z := Z.shiftl 1 10.
Definition MTRR_PHYS_BASE (reg : Z) : Z := 0x200 + 2 * reg.
Definition MTRR_PHYS_MASK (reg : Z) : Z := MTRR_PHYS_BASE reg + 1.
Definition MTRR_PHYS_MASK_VALID : Z := Z.shiftl 1 11.
Definition NUM_FIXED_RANGES : Z := 88.
Definition BIOS_MTRRS : Z := 6.
Definition OS_MTRRS : Z := 2.
Definition NUM_MTRR_STATIC_STORAGE : Z := 16.
Definition PHYS_TO_RANGE_ADDR (x : Z) : Z := Z.shiftr x 12.
Definition RANGE_TO_PHYS_ADDR (x : Z) : Z := u64 (Z.shiftl x 12).
Definition MTRR_MIN_ALIGN : Z := PHYS_TO_RANGE_ADDR (Z.shiftl 64 20).
Definition RANGE_1MB : Z := PHYS_TO_RANGE_ADDR (Z.shiftl 1 20).
Definition RANGE_4GB : Z := Z.shiftl 1 20.
Definition MTRR_TAG_MASK : Z := Z.shiftl 1 8 - 1.
Definition MTRR_RANGE_UC_USE_HOLE : Z := Z.shiftl 1 8.

(** ** State *)

Record msr_t := mk_msr { msr_lo : Z; msr_hi : Z }.

Record var_mtrr_regs := mk_regs { regs_base : msr_t; regs_mask : msr_t }.

Record var_mtrr_solution := mk_solution
  { mtrr_default_type : Z; num_used : Z; sol_regs : list var_mtrr_regs }.

Inductive event :=
  | EvDisableCache
  | EvEnableCache
  | EvWrmsr (index : Z) (msr : msr_t).

(** The static variables of the file and the CPU's MSRs.  [sol] tells whether
    [x86_setup_var_mtrrs] has computed the global solution. *)
Record mtrr_state := mk_mtrr_state
  { total_mtrrs : Z; bios_mtrrs : Z;
    addr_space : option memranges;
    fixed_mtrr_types : list Z; fixed_mtrr_types_initialized : bool;
    mtrr_global_solution : var_mtrr_solution; sol_ready : bool;
    put_back_original_solution : bool;
    msrs : Z -> msr_t; trace : list event }.

Definition zero_msr : msr_t := mk_msr 0 0.
Definition zero_regs : var_mtrr_regs := mk_regs zero_msr zero_msr.
Definition zero_solution : var_mtrr_solution :=
  mk_solution 0 0 (repeat zero_regs (Z.to_nat NUM_MTRR_STATIC_STORAGE)).

Definition initial_state (m : Z -> msr_t) : mtrr_state :=
  mk_mtrr_state (BIOS_MTRRS + OS_MTRRS) BIOS_MTRRS None
    (repeat 0 (Z.to_nat NUM_FIXED_RANGES)) false zero_solution false false m [].

Definition rdmsr (s : mtrr_state) (i : Z) : msr_t := msrs s i.

Definition emit (e : event) (s : mtrr_state) : mtrr_state :=
  mk_mtrr_state (total_mtrrs s) (bios_mtrrs s) (addr_space s) (fixed_mtrr_types s)
    (fixed_mtrr_types_initialized s) (mtrr_global_solution s) (sol_ready s)
    (put_back_original_solution s)
    (match e with EvWrmsr i v => fun j => if j =? i then v else msrs s j | _ => msrs s end)
    (trace s ++ [e]).

Definition wrmsr (i : Z) (v : msr_t) (s : mtrr_state) : mtrr_state := emit (EvWrmsr i v) s.
Definition disable_cache (s : mtrr_state) : mtrr_state := emit EvDisableCache s.
Definition enable_cache (s : mtrr_state) : mtrr_state := emit EvEnableCache s.

Definition detect_var_mtrrs (s : mtrr_state) : mtrr_state :=
  let total := Z.land (msr_lo (rdmsr s MTRR_CAP_MSR)) 0xff in
  let total := if NUM_MTRR_STATIC_STORAGE <? total then NUM_MTRR_STATIC_STORAGE else total in
  mk_mtrr_state total (total - OS_MTRRS) (addr_space s) (fixed_mtrr_types s)
    (fixed_mtrr_types_initialized s) (mtrr_global_solution s) (sol_ready s)
    (put_back_original_solution s) (msrs s) (trace s).

Definition enable_fixed_mtrr (s : mtrr_state) : mtrr_state :=
  let msr := rdmsr s MTRR_DEF_TYPE_MSR in
  wrmsr MTRR_DEF_TYPE_MSR
    (mk_msr (Z.lor (msr_lo msr) (Z.lor MTRR_DEF_TYPE_EN MTRR_DEF_TYPE_FIX_EN)) (msr_hi msr)) s.

Definition enable_var_mtrr (deftype : Z) (s : mtrr_state) : mtrr_state :=
  let msr := rdmsr s MTRR_DEF_TYPE_MSR in
  let lo := Z.land (msr_lo msr) (bnot 32 0xff) in
  let lo := Z.lor lo (Z.lor MTRR_DEF_TYPE_EN deftype) in
  wrmsr MTRR_DEF_TYPE_MSR (mk_msr lo (msr_hi msr)) s.

(** ** Ranges in 4 KiB units, kept in 32 bits *)

Definition range_entry_base_mtrr_addr (r : range_entry) : Z :=
  u32 (PHYS_TO_RANGE_ADDR (range_entry_base r)).
Definition range_entry_end_mtrr_addr (r : range_entry) : Z :=
  u32 (PHYS_TO_RANGE_ADDR (range_entry_end r)).
Definition range_entry_mtrr_type (r : range_entry) : Z :=
  Z.land (range_entry_tag r) MTRR_TAG_MASK.

Definition PCI_CLASS_DISPLAY_VGA : Z := 0x0300.

Definition filter_vga_wrcomb (st : dstate) (dev res : nat) : bool :=
  match d_path (get_dev st dev) with
  | DEVICE_PATH_PCI _ => Z.shiftr (d_class (get_dev st dev)) 8 =? PCI_CLASS_DISPLAY_VGA
  | _ => false
  end.

(** [get_physical_address_space]: computed once.  The code runs in ramstage,
    so list nodes come from the heap. *)
Definition compute_physical_address_space (st : dstate) : memranges :=
  let mask := IORESOURCE_CACHEABLE in
  let m := memranges_init true st mask mask MTRR_TYPE_WRBACK in
  let m := memranges_add_resources true st m mask 0 MTRR_TYPE_UNCACHEABLE in
  let match_ := IORESOURCE_PREFETCH in
  let mask := Z.lor mask match_ in
  let m := memranges_add_resources_filter true st m mask match_ MTRR_TYPE_WRCOMB
             (Some (filter_vga_wrcomb st)) in
  memranges_fill_holes_up_to true m (RANGE_TO_PHYS_ADDR RANGE_4GB) MTRR_TYPE_UNCACHEABLE.

Definition set_addr_space (a : memranges) (s : mtrr_state) : mtrr_state :=
  mk_mtrr_state (total_mtrrs s) (bios_mtrrs s) (Some a) (fixed_mtrr_types s)
    (fixed_mtrr_types_initialized s) (mtrr_global_solution s) (sol_ready s)
    (put_back_original_solution s) (msrs s) (trace s).

Definition get_physical_address_space (st : dstate) (s : mtrr_state) : memranges * mtrr_state :=
  match addr_space s with
  | Some a => (a, s)
  | None => let a := compute_physical_address_space st in (a, set_addr_space a s)
  end.

(** ** Fixed MTRRs *)

Record fixed_desc := mk_fixed_desc
  { f_begin : Z; f_end : Z; f_step : Z; f_range_index : Z; f_msr_index_base : Z }.

Definition fixed_mtrr_desc : list fixed_desc :=
  [ mk_fixed_desc (PHYS_TO_RANGE_ADDR 0x000000) (PHYS_TO_RANGE_ADDR 0x080000)
      (PHYS_TO_RANGE_ADDR (64 * 1024)) 0 0x250;
    mk_fixed_desc (PHYS_TO_RANGE_ADDR 0x080000) (PHYS_TO_RANGE_ADDR 0x0C0000)
      (PHYS_TO_RANGE_ADDR (16 * 1024)) 8 0x258;
    mk_fixed_desc (PHYS_TO_RANGE_ADDR 0x0C0000) (PHYS_TO_RANGE_ADDR 0x100000)
      (PHYS_TO_RANGE_ADDR (4 * 1024)) 24 0x268 ].

Definition last_desc_end : Z := PHYS_TO_RANGE_ADDR 0x100000.

(** [while (begin >= desc->end) desc++]; the pointer is the rest of the array. *)
Fixpoint skip_descs (begin : Z) (desc : list fixed_desc) : list fixed_desc :=
  match desc with
  | d :: desc' => if f_end d <=? begin then skip_descs begin desc' else desc
  | [] => []
  end.

(** The loop [while (begin != end)].  [None]: the descriptor pointer or the
    index into [fixed_mtrr_types] left its array.  Each round advances
    [type_index], so 89 rounds decide. *)
Fixpoint fill_fixed (fuel : nat) (types : list Z) (desc : list fixed_desc)
    (begin end_ type type_index : Z) : option (list Z * list fixed_desc) :=
  if begin =? end_ then Some (types, desc)
  else match fuel, desc with
  | S fuel', d :: desc' =>
      if type_index <? NUM_FIXED_RANGES then
        let types := <[Z.to_nat type_index := type]> types in
        let begin := u32 (begin + f_step d) in
        let desc := if begin =? f_end d then desc' else desc in
        fill_fixed fuel' types desc begin end_ type (type_index + 1)
      else None
  | _, _ => None
  end.

(** The walk over the entries.  [MTRR_FIXED_WRBACK_BITS] is 0 without
    [CONFIG_X86_AMD_FIXED_MTRRS], the configuration of this board. *)
Fixpoint calc_fixed_loop (es : list range_entry) (types : list Z) (desc : list fixed_desc)
    : option (list Z) :=
  match es with
  | [] => Some types
  | r :: es' =>
      let begin := range_entry_base_mtrr_addr r in
      let end_ := range_entry_end_mtrr_addr r in
      if last_desc_end <=? begin then Some types
      else
        let end_ := if last_desc_end <? end_ then last_desc_end else end_ in
        match skip_descs begin desc with
        | [] => None
        | (d :: _) as desc =>
            let type_index := f_range_index d + (begin - f_begin d) / f_step d in
            match fill_fixed 89 types desc begin end_ (u8 (range_entry_tag r)) type_index with
            | None => None
            | Some (types, desc) => calc_fixed_loop es' types desc
            end
        end
  end.

Definition calc_fixed_mtrrs (st : dstate) (s : mtrr_state) : option mtrr_state :=
  if fixed_mtrr_types_initialized s then Some s
  else
    let '(a, s) := get_physical_address_space st s in
    let types := repeat MTRR_TYPE_UNCACHEABLE (Z.to_nat NUM_FIXED_RANGES) in
    match calc_fixed_loop (entries a) types fixed_mtrr_desc with
    | None => None
    | Some types =>
        Some (mk_mtrr_state (total_mtrrs s) (bios_mtrrs s) (addr_space s) types true
                (mtrr_global_solution s) (sol_ready s) (put_back_original_solution s)
                (msrs s) (trace s))
    end.

(** Eight types make one MSR, lowest address in the lowest byte. *)
Definition pack4 (types : list Z) (i : nat) : Z :=
  let t k := nth (i + k) types 0 in
  Z.lor (Z.lor (Z.lor (Z.shiftl (t 0%nat) 0) (Z.shiftl (t 1%nat) 8))
               (Z.shiftl (t 2%nat) 16)) (Z.shiftl (t 3%nat) 24).

Definition pack_fixed_msr (types : list Z) (i : nat) : msr_t :=
  mk_msr (pack4 types i) (pack4 types (i + 4)).

(** The (MSR number, value) pairs of [commit_fixed_mtrrs]: for each
    descriptor, one MSR per eight ranges. *)
Fixpoint fixed_msrs_of (types : list Z) (desc : list fixed_desc) (type_index : nat)
    : list (Z * msr_t) :=
  match desc with
  | [] => []
  | d :: desc' =>
      let num_ranges := (f_end d - f_begin d) / f_step d in
      let n := Z.to_nat (num_ranges / 8) in
      map (fun j => (f_msr_index_base d + Z.of_nat j,
                     pack_fixed_msr types (type_index + 8 * j))) (seq 0 n)
      ++ fixed_msrs_of types desc' (type_index + 8 * n)
  end.

Definition commit_fixed_mtrrs (s : mtrr_state) : mtrr_state :=
  let l := fixed_msrs_of (fixed_mtrr_types s) fixed_mtrr_desc 0 in
  enable_cache (fold_left (fun s p => wrmsr (fst p) (snd p) s) l (disable_cache s)).

Definition x86_setup_fixed_mtrrs_no_enable (st : dstate) (s : mtrr_state) : option mtrr_state :=
  option_map commit_fixed_mtrrs (calc_fixed_mtrrs st s).

Definition x86_setup_fixed_mtrrs (st : dstate) (s : mtrr_state) : option mtrr_state :=
  option_map enable_fixed_mtrr (x86_setup_fixed_mtrrs_no_enable st s).

(** ** Variable MTRRs *)

(** [fms] (most significant set bit, 0 for 0) and [fls] (least significant set
    bit, 32 for 0) of [mtrr.h]: the [bsr]/[bsf] instructions. *)
Definition fms (x : Z) : Z := if x =? 0 then 0 else Z.log2 x.

Fixpoint pos_lsb (p : positive) : Z :=
  match p with xO p' => 1 + pos_lsb p' | _ => 0 end.
Definition fls (x : Z) : Z := match x with Zpos p => pos_lsb p | _ => 32 end.

(** [struct var_mtrr_state]; [addr_space] is an argument where it is used, and
    the two statics that bound the registers are kept alongside. *)
Record var_mtrr_state := mk_var_state
  { above4gb : bool; address_bits : Z; prepare_msrs : bool;
    mtrr_index : Z; def_mtrr_type : Z; regs : list var_mtrr_regs }.

Definition set_index (i : Z) (v : var_mtrr_state) : var_mtrr_state :=
  mk_var_state (above4gb v) (address_bits v) (prepare_msrs v) i (def_mtrr_type v) (regs v).
Definition set_def_type (t : Z) (v : var_mtrr_state) : var_mtrr_state :=
  mk_var_state (above4gb v) (address_bits v) (prepare_msrs v) (mtrr_index v) t (regs v).
Definition set_regs (l : list var_mtrr_regs) (v : var_mtrr_state) : var_mtrr_state :=
  mk_var_state (above4gb v) (address_bits v) (prepare_msrs v) (mtrr_index v) (def_mtrr_type v) l.

Section VarMtrr.
(** The static [total_mtrrs]. *)
Variable total : Z.

Definition var_mtrr_value (address_bits base size mtrr_type : Z) : var_mtrr_regs :=
  let rbase := RANGE_TO_PHYS_ADDR base in
  let rsize := u64 (- RANGE_TO_PHYS_ADDR size) in
  let mask := u64 (u64 (Z.shiftl 1 address_bits) - 1) in
  let rsize := Z.land rsize mask in
  mk_regs (mk_msr (Z.lor (u32 rbase) mtrr_type) (u32 (Z.shiftr rbase 32)))
          (mk_msr (Z.lor (u32 rsize) MTRR_PHYS_MASK_VALID) (u32 (Z.shiftr rsize 32))).

Definition prep_var_mtrr (v : var_mtrr_state) (base size mtrr_type : Z) : var_mtrr_state :=
  if total <=? mtrr_index v then v
  else set_regs (<[Z.to_nat (mtrr_index v) :=
                     var_mtrr_value (address_bits v) base size mtrr_type]> (regs v)) v.

(** The size of the next block: limited by the alignment of [base] and by the
    top bit of [size]. *)
Definition next_mtrr_size (base size : Z) : Z :=
  let addr_lsb := fls base in
  let size_msb := fms size in
  if size_msb <? addr_lsb then u32 (Z.shiftl 1 size_msb) else u32 (Z.shiftl 1 addr_lsb).

(** [while (size != 0)]; 64 rounds are enough for 32-bit operands
    ([calc_var_mtrr_range_fuel] below). *)
Fixpoint calc_var_mtrr_range_loop (fuel : nat) (v : var_mtrr_state) (base size mtrr_type : Z)
    : var_mtrr_state :=
  match fuel with
  | O => v
  | S fuel' =>
      if size =? 0 then v
      else
        let mtrr_size := next_mtrr_size base size in
        let v := if prepare_msrs v then prep_var_mtrr v base mtrr_size mtrr_type else v in
        calc_var_mtrr_range_loop fuel' (set_index (mtrr_index v + 1) v)
          (u32 (base + mtrr_size)) (u32 (size - mtrr_size)) mtrr_type
  end.

Definition calc_var_mtrr_range (v : var_mtrr_state) (base size mtrr_type : Z) : var_mtrr_state :=
  calc_var_mtrr_range_loop 64 v base size mtrr_type.

(** [next] is the entry after [r], if any. *)
Definition calc_var_mtrrs_with_hole (v : var_mtrr_state) (r : range_entry)
    (next : option range_entry) : var_mtrr_state :=
  let mtrr_type := range_entry_mtrr_type r in
  let a1 := range_entry_base_mtrr_addr r in
  let a2 := range_entry_end_mtrr_addr r in
  if a2 <=? RANGE_1MB then v
  else
    let a1 := if a1 <=? RANGE_1MB then 0 else a1 in
    if negb (above4gb v) && (RANGE_4GB <=? a1) then v
    else
      let a2 := if negb (above4gb v) && (RANGE_4GB <? a2) then RANGE_4GB else a2 in
      let b1 := a2 in
      let wide := (RANGE_4GB <=? a1) && (match next with None => true | Some _ => false end) in
      let b2_wide := u32 (u32 (Z.shiftl 1 (fls a1)) + a1) in
      if wide && (a2 <=? b2_wide) then calc_var_mtrr_range v a1 (u32 (b2_wide - a1)) mtrr_type
      else
        let b2 := ALIGN_UP 32 a2 MTRR_MIN_ALIGN in
        let blocked := match next with
          | None => false
          | Some n => negb (range_entry_mtrr_type n =? def_mtrr_type v)
                      || (range_entry_end_mtrr_addr n <? b2) end in
        if blocked then calc_var_mtrr_range v a1 (u32 (a2 - a1)) mtrr_type
        else
          let v := calc_var_mtrr_range v a1 (u32 (b2 - a1)) mtrr_type in
          calc_var_mtrr_range v b1 (u32 (b2 - b1)) (def_mtrr_type v).

Definition calc_var_mtrrs_without_hole (v : var_mtrr_state) (r : range_entry) : var_mtrr_state :=
  let mtrr_type := range_entry_mtrr_type r in
  let a1 := range_entry_base_mtrr_addr r in
  let c2 := range_entry_end_mtrr_addr r in
  if c2 <=? RANGE_1MB then v
  else
    let a1 := if a1 <=? RANGE_1MB then 0 else a1 in
    if negb (above4gb v) && (RANGE_4GB <=? a1) then v
    else
      let c2 := if negb (above4gb v) && (RANGE_4GB <? c2) then RANGE_4GB else c2 in
      if u32 (c2 - a1) <? MTRR_MIN_ALIGN then calc_var_mtrr_range v a1 (u32 (c2 - a1)) mtrr_type
      else
        let a2 := ALIGN_UP 32 a1 MTRR_MIN_ALIGN in
        let b1 := a2 in
        let c1 := ALIGN_DOWN 32 c2 MTRR_MIN_ALIGN in
        let b2 := c1 in
        let v := calc_var_mtrr_range v a1 (u32 (a2 - a1)) mtrr_type in
        let v := calc_var_mtrr_range v b1 (u32 (b2 - b1)) mtrr_type in
        calc_var_mtrr_range v c1 (u32 (c2 - c1)) mtrr_type.

(** The walk of [__calc_var_mtrrs]: entries (with updated tags), and the two
    counts.  Tag updates do not touch the entry after the current one. *)
Fixpoint calc_counts (v : var_mtrr_state) (es : list range_entry) (wb uc : Z)
    : list range_entry * Z * Z :=
  match es with
  | [] => ([], wb, uc)
  | r :: rest =>
      let mtrr_type := range_entry_mtrr_type r in
      let '(r', uc') :=
        if negb (mtrr_type =? MTRR_TYPE_UNCACHEABLE) then
          let v := set_def_type MTRR_TYPE_UNCACHEABLE v in
          let uc_no_hole_count := mtrr_index (calc_var_mtrrs_without_hole (set_index 0 v) r) in
          let uc_hole_count :=
            if mtrr_type =? MTRR_TYPE_WRBACK
            then mtrr_index (calc_var_mtrrs_with_hole (set_index 0 v) r (head rest)) else 64 in
          if uc_no_hole_count <? uc_hole_count then (r, uc + uc_no_hole_count)
          else (range_entry_update_tag r (Z.lor mtrr_type MTRR_RANGE_UC_USE_HOLE),
                uc + uc_hole_count)
        else (r, uc) in
      let wb' :=
        if negb (mtrr_type =? MTRR_TYPE_WRBACK) then
          wb + mtrr_index (calc_var_mtrrs_without_hole
                 (set_def_type MTRR_TYPE_WRBACK (set_index 0 v)) r')
        else wb in
      let '(rest', wb'', uc'') := calc_counts v rest wb' uc' in
      (r' :: rest', wb'', uc'')
  end.

Definition calc_var_mtrrs_counts (m : memranges) (above4gb : bool) (address_bits : Z)
    : memranges * Z * Z :=
  let v := mk_var_state above4gb address_bits false 0 0 [] in
  let '(es, wb, uc) := calc_counts v (entries m) 0 0 in
  (mk_memranges es (free_list m), wb, uc).

Definition calc_var_mtrrs (bios : Z) (m : memranges) (above4gb : bool) (address_bits : Z)
    : memranges * Z :=
  let '(m, wb, uc) := calc_var_mtrrs_counts m above4gb address_bits in
  let '(m, wb, uc) :=
    if (bios <? wb) && (bios <? uc) then
      calc_var_mtrrs_counts
        (memranges_update_tag m MTRR_TYPE_WRCOMB MTRR_TYPE_UNCACHEABLE) above4gb address_bits
    else (m, wb, uc) in
  (m, if wb <? uc then MTRR_TYPE_WRBACK else MTRR_TYPE_UNCACHEABLE).

Fixpoint prepare_loop (def_type : Z) (v : var_mtrr_state) (es : list range_entry)
    : var_mtrr_state :=
  match es with
  | [] => v
  | r :: rest =>
      let v :=
        if range_entry_mtrr_type r =? def_type then v
        else if (def_type =? MTRR_TYPE_UNCACHEABLE) && has (range_entry_tag r) MTRR_RANGE_UC_USE_HOLE
        then calc_var_mtrrs_with_hole v r (head rest)
        else calc_var_mtrrs_without_hole v r in
      prepare_loop def_type v rest
  end.

Definition prepare_var_mtrrs (m : memranges) (def_type : Z) (above4gb : bool) (address_bits : Z)
    (sol : var_mtrr_solution) : var_mtrr_solution :=
  let v := prepare_loop def_type
    (mk_var_state above4gb address_bits true 0 def_type (sol_regs sol)) (entries m) in
  mk_solution (mtrr_default_type sol) (mtrr_index v) (regs v).

End VarMtrr.

Definition clear_var_mtrr (index : Z) (s : mtrr_state) : mtrr_state :=
  wrmsr (MTRR_PHYS_MASK index) zero_msr (wrmsr (MTRR_PHYS_BASE index) zero_msr s).

(** Registers [0, num_used) are written from the solution, the others up to
    [total_mtrrs] cleared.  Past the storage ([num_used] can exceed it when
    MTRRs run out) the C loop reads beyond [regs]: [None]. *)
Fixpoint write_regs (n : nat) (i : Z) (l : list var_mtrr_regs) (s : mtrr_state)
    : option mtrr_state :=
  match n with
  | O => Some s
  | S n' =>
      match l with
      | [] => None
      | r :: l' =>
          write_regs n' (i + 1) l'
            (wrmsr (MTRR_PHYS_MASK i) (regs_mask r) (wrmsr (MTRR_PHYS_BASE i) (regs_base r) s))
      end
  end.

Fixpoint clear_regs (n : nat) (i : Z) (s : mtrr_state) : mtrr_state :=
  match n with O => s | S n' => clear_regs n' (i + 1) (clear_var_mtrr i s) end.

Definition commit_var_mtrrs (sol : var_mtrr_solution) (s : mtrr_state) : option mtrr_state :=
  match write_regs (Z.to_nat (num_used sol)) 0 (sol_regs sol) (disable_cache s) with
  | None => None
  | Some s =>
      let s := clear_regs (Z.to_nat (total_mtrrs s - num_used sol)) (num_used sol) s in
      Some (enable_cache (enable_var_mtrr (mtrr_default_type sol) s))
  end.

Definition set_solution (a : memranges) (sol : var_mtrr_solution) (s : mtrr_state) : mtrr_state :=
  mk_mtrr_state (total_mtrrs s) (bios_mtrrs s) (Some a) (fixed_mtrr_types s)
    (fixed_mtrr_types_initialized s) sol true (put_back_original_solution s) (msrs s) (trace s).

Definition with_default_type (t : Z) (sol : var_mtrr_solution) : var_mtrr_solution :=
  mk_solution t (num_used sol) (sol_regs sol).

Definition x86_setup_var_mtrrs (st : dstate) (address_bits : Z) (above4gb : bool)
    (s : mtrr_state) : option mtrr_state :=
  let '(a, s) := get_physical_address_space st s in
  let s :=
    if sol_ready s then s
    else
      let '(a, def_type) := calc_var_mtrrs (total_mtrrs s) (bios_mtrrs s) a above4gb address_bits in
      let sol := with_default_type def_type (mtrr_global_solution s) in
      set_solution a (prepare_var_mtrrs (total_mtrrs s) a def_type above4gb address_bits sol) s in
  commit_var_mtrrs (mtrr_global_solution s) s.

Section Setup.
(** [cpu_phys_address_size()] reads CPUID. *)
Variable cpu_phys_address_size : Z.

Definition x86_setup_mtrrs (st : dstate) (s : mtrr_state) : option mtrr_state :=
  match x86_setup_fixed_mtrrs st s with
  | None => None
  | Some s => x86_setup_var_mtrrs st cpu_phys_address_size true s
  end.

Definition x86_setup_mtrrs_with_detect (st : dstate) (s : mtrr_state) : option mtrr_state :=
  x86_setup_mtrrs st (detect_var_mtrrs s).

Definition set_put_back (s : mtrr_state) : mtrr_state :=
  mk_mtrr_state (total_mtrrs s) (bios_mtrrs s) (addr_space s) (fixed_mtrr_types s)
    (fixed_mtrr_types_initialized s) (mtrr_global_solution s) (sol_ready s) true
    (msrs s) (trace s).

Definition temp_tag (tag : Z) : Z :=
  let tag := Z.land tag (bnot 32 MTRR_RANGE_UC_USE_HOLE) in
  if tag =? MTRR_TYPE_WRCOMB then MTRR_TYPE_UNCACHEABLE else tag.

Definition temp_address_space (orig : memranges) (begin size type : Z) : memranges :=
  let m := fold_left (fun m r =>
    memranges_insert true m (range_entry_base r) (range_entry_size r)
      (temp_tag (range_entry_tag r))) (entries orig) (memranges_init_empty []) in
  memranges_insert true m begin size type.

Definition mtrr_use_temp_range (st : dstate) (begin size type : Z) (s : mtrr_state)
    : option mtrr_state :=
  let '(orig, s) := get_physical_address_space st s in
  let m := temp_address_space orig begin size type in
  let '(m, def_type) := calc_var_mtrrs (total_mtrrs s) (bios_mtrrs s) m true cpu_phys_address_size in
  let sol := with_default_type def_type zero_solution in
  let sol := prepare_var_mtrrs (total_mtrrs s) m def_type true cpu_phys_address_size sol in
  option_map set_put_back (commit_var_mtrrs sol s).

Definition remove_temp_solution (s : mtrr_state) : option mtrr_state :=
  if put_back_original_solution s then commit_var_mtrrs (mtrr_global_solution s) s else Some s.
End Setup.

(** ** Lemmas: splitting a range into aligned powers of two *)

Lemma fms_spec x : 0 < x -> 0 <= fms x /\ 2 ^ fms x <= x < 2 ^ (fms x + 1).
Proof.
  intros H. unfold fms. rewrite (proj2 (Z.eqb_neq x 0)) by lia.
  pose proof (Z.log2_spec x H). pose proof (Z.log2_nonneg x).
  replace (Z.succ (Z.log2 x)) with (Z.log2 x + 1) in * by lia. done.
Qed.

Lemma pos_lsb_spec p :
  0 <= pos_lsb p /\ exists q, Z.pos p = (2 * q + 1) * 2 ^ pos_lsb p.
Proof.
  induction p as [p IH|p IH|]; simpl pos_lsb.
  - split; [lia|]. exists (Z.pos p). rewrite Z.pow_0_r. lia.
  - destruct IH as [H0 [q Hq]]. split; [lia|]. exists q.
    rewrite Z.pow_add_r by lia. rewrite Pos2Z.inj_xO, Hq. ring.
  - split; [lia|]. by exists 0.
Qed.

Lemma fls_spec x :
  0 < x -> 0 <= fls x /\ exists q, x = (2 * q + 1) * 2 ^ fls x.
Proof. intros H. destruct x as [|p|p]; try lia. apply pos_lsb_spec. Qed.

Lemma pow2_divide_odd_le k m q :
  0 <= k -> 0 <= m -> (2 ^ m | (2 * q + 1) * 2 ^ k) -> m <= k.
Proof.
  intros Hk Hm [z Hz]. destruct (Z.le_gt_cases m k) as [?|Hgt]; [done|exfalso].
  replace m with (1 + (m - k - 1) + k) in Hz by lia.
  rewrite !Z.pow_add_r in Hz by lia. rewrite Z.mul_assoc in Hz.
  apply Z.mul_reg_r in Hz; [|lia]. lia.
Qed.

Lemma fls_divide x m : 0 < x -> 0 <= m -> (2 ^ m | x) -> m <= fls x.
Proof.
  intros Hx Hm Hd. destruct (fls_spec x Hx) as [H0 [q Hq]].
  apply (pow2_divide_odd_le _ _ q); [done|done|]. by rewrite <- Hq.
Qed.

(** The size of the next block as a power of two, with what the loop needs. *)
Lemma next_mtrr_size_spec base size :
  0 <= base < 2 ^ 32 -> 0 < size < 2 ^ 32 ->
  exists k, 0 <= k < 32 /\ k = Z.min (fls base) (fms size) /\
    next_mtrr_size base size = 2 ^ k /\ 2 ^ k <= size /\ (2 ^ k | base).
Proof.
  intros Hb Hs. pose proof (fms_spec size ltac:(lia)) as (Hm0 & Hm & _).
  assert (Hm32 : fms size < 32) by (apply (Z.pow_lt_mono_r_iff 2); lia).
  assert (Hl : 0 <= fls base /\ (2 ^ Z.min (fls base) (fms size) | base)).
  { destruct (Z.eq_dec base 0) as [->|Hn]; [split; [done|apply Z.divide_0_r]|].
    destruct (fls_spec base ltac:(lia)) as [H0 [q Hq]]. split; [done|].
    exists ((2 * q + 1) * 2 ^ (fls base - Z.min (fls base) (fms size))).
    rewrite <- Z.mul_assoc, <- Z.pow_add_r by lia.
    replace (fls base - _ + _) with (fls base) by lia. done. }
  destruct Hl as [Hl0 Hd].
  exists (Z.min (fls base) (fms size)). split; [lia|]. split; [done|].
  assert (Hp : 2 ^ Z.min (fls base) (fms size) <= size).
  { etransitivity; [|exact Hm]. apply Z.pow_le_mono_r; lia. }
  split; [|done]. unfold next_mtrr_size.
  destruct (Z.ltb_spec (fms size) (fls base)); rewrite Z.shiftl_1_l, u32_small;
    rewrite ?Z.min_l, ?Z.min_r in * by lia; try done; try lia.
Qed.

(** The (base, size) pairs the loop goes through. *)
Fixpoint blocks (fuel : nat) (base size : Z) : list (Z * Z) :=
  match fuel with
  | O => []
  | S fuel' =>
      if size =? 0 then []
      else (base, next_mtrr_size base size)
           :: blocks fuel' (u32 (base + next_mtrr_size base size))
                (u32 (size - next_mtrr_size base size))
  end.

(** Back-to-back aligned power-of-two blocks from [base], [size] in all. *)
Fixpoint tiles (base size : Z) (bs : list (Z * Z)) : Prop :=
  match bs with
  | [] => size = 0
  | (b, s) :: bs' =>
      b = base /\ (exists k, 0 <= k < 32 /\ s = 2 ^ k /\ (2 ^ k | b)) /\ s <= size /\
      tiles (base + s) (size - s) bs'
  end.

(** Rounds the loop still needs: first the block size grows with the
    alignment of [base], then it shrinks with [size]. *)
Definition rounds (base size : Z) : Z :=
  if size =? 0 then 0
  else if fls base <=? fms size then fms size + 1 - fls base + (fms size + 1)
  else fms size + 1.

Lemma fms_lt x m : 0 < x -> 0 <= m -> x < 2 ^ m -> fms x < m.
Proof.
  intros Hx Hm H. pose proof (fms_spec x Hx) as (? & ? & _).
  apply (Z.pow_lt_mono_r_iff 2); lia.
Qed.

Lemma fms_mono x y : 0 < x <= y -> fms x <= fms y.
Proof.
  intros H. pose proof (fms_spec y ltac:(lia)) as (H0 & _ & Hy).
  pose proof (fms_lt x (fms y + 1) ltac:(lia) ltac:(lia) ltac:(lia)). lia.
Qed.

Lemma rounds_step base size :
  0 <= base -> 0 < size -> base + size <= 2 ^ 32 -> size < 2 ^ 32 ->
  let s := next_mtrr_size base size in
  rounds (u32 (base + s)) (u32 (size - s)) < rounds base size.
Proof.
  intros Hb Hs Hbs Hs32 s.
  destruct (next_mtrr_size_spec base size ltac:(lia) ltac:(lia))
    as (k & Hk & Hkm & Hs' & Hle & Hd).
  pose proof (fms_spec size ltac:(lia)) as (Hm0 & Hm1 & Hm2).
  subst s. rewrite Hs'. assert (1 <= 2 ^ k) by lia.
  rewrite (u32_small (size - 2 ^ k)) by lia.
  unfold rounds. rewrite (proj2 (Z.eqb_neq size 0)) by lia.
  destruct (Z.eqb_spec (size - 2 ^ k) 0) as [|Hne]; [zbool|].
  rewrite (u32_small (base + 2 ^ k)) by lia.
  assert (Hfm : fms (size - 2 ^ k) <= fms size) by (apply fms_mono; lia).
  pose proof (fms_spec (size - 2 ^ k) ltac:(lia)) as (Hn0 & _).
  destruct (Z.leb_spec (fls base) (fms size)) as [Hc|Hc].
  - assert (Hlsb : fls base + 1 <= fls (base + 2 ^ k)).
    { replace k with (fls base) in * by lia.
      assert (Hb0 : 0 < base) by (destruct base; simpl in *; lia).
      destruct (fls_spec base Hb0) as [Hl0 [q Hq]].
      apply fls_divide; [lia|lia|]. exists (q + 1).
      rewrite Z.pow_add_r by lia. rewrite Hq at 1. ring. }
    case_bool; bool_to_prop; lia.
  - replace k with (fms size) in * by lia.
    assert (Hlt : fms (size - 2 ^ fms size) < fms size).
    { apply fms_lt; try lia. rewrite Z.pow_add_r in Hm2 by lia. lia. }
    assert (Hlsb : fms size <= fls (base + 2 ^ fms size)).
    { apply fls_divide; [lia|lia|]. apply Z.divide_add_r; [done|apply Z.divide_refl]. }
    rewrite (proj2 (Z.leb_gt _ _)) by lia. lia.
Qed.

Lemma rounds_bounds base size :
  0 <= base < 2 ^ 32 -> 0 <= size < 2 ^ 32 -> 0 <= rounds base size <= 64.
Proof.
  intros Hb Hs. unfold rounds. destruct (Z.eqb_spec size 0); [lia|].
  pose proof (fms_lt size 32 ltac:(lia) ltac:(lia) ltac:(lia)).
  pose proof (fms_spec size ltac:(lia)) as (? & _).
  destruct (Z.eq_dec base 0) as [->|]; [simpl; zbool|].
  destruct (fls_spec base ltac:(lia)) as [? _]. zbool.
Qed.

(** With [fuel] at least [rounds], the loop ends with nothing left over. *)
Lemma blocks_tile fuel : forall base size,
  0 <= base -> 0 <= size < 2 ^ 32 -> base + size <= 2 ^ 32 ->
  (size <> 0 -> rounds base size <= Z.of_nat fuel) ->
  tiles base size (blocks fuel (u32 base) size).
Proof.
  induction fuel as [|fuel IH]; intros base size Hb Hs Hbs Hf; simpl.
  - destruct (Z.eq_dec size 0); [done|]. specialize (Hf ltac:(done)).
    unfold rounds in Hf. rewrite (proj2 (Z.eqb_neq size 0)) in Hf by lia.
    pose proof (fms_spec size ltac:(lia)) as (? & _). revert Hf. zbool.
  - destruct (Z.eqb_spec size 0) as [|Hne]; [done|]. specialize (Hf ltac:(done)).
    rewrite (u32_small base) by lia.
    destruct (next_mtrr_size_spec base size ltac:(lia) ltac:(lia))
      as (k & Hk & Hkm & Hs' & Hle & Hd).
    pose proof (rounds_step base size ltac:(lia) ltac:(lia) ltac:(lia) ltac:(lia)) as Hr.
    cbv zeta in Hr. simpl. rewrite Hs' in *. split; [done|]. split; [eauto|]. split; [done|].
    rewrite (u32_small (size - 2 ^ k)) in * by lia.
    apply IH; try lia. intros Hne'. rewrite (u32_small (base + _)) in Hr by lia. lia.
Qed.

Lemma tiles_cover bs : forall base size p,
  tiles base size bs -> 0 <= size ->
  ((exists b s, (b, s) ∈ bs /\ b <= p < b + s) <-> base <= p < base + size).
Proof.
  induction bs as [|[b s] bs IH]; intros base size p; simpl.
  - intros -> _. split; [intros (?&?&H&_); by apply not_elem_of_nil in H|lia].
  - intros (-> & (k & Hk & -> & _) & Hle & Ht) Hs. specialize (IH _ _ p Ht ltac:(lia)).
    split.
    + intros (b & s & [[= -> ->]|H]%elem_of_cons & Hp); [lia|].
      apply proj1 in IH. specialize (IH ltac:(eauto)). lia.
    + intros Hp. destruct (Z.lt_ge_cases p (base + 2 ^ k)).
      * exists base, (2 ^ k). split; [apply elem_of_cons; by left|lia].
      * destruct (proj2 IH ltac:(lia)) as (b & s & ? & ?).
        exists b, s. split; [apply elem_of_cons; by right|done].
Qed.

Lemma tiles_inv bs : forall base size b s,
  tiles base size bs -> (b, s) ∈ bs ->
  base <= b /\ b + s <= base + size /\ exists k, 0 <= k < 32 /\ s = 2 ^ k /\ (2 ^ k | b).
Proof.
  induction bs as [|[b0 s0] bs IH]; intros base size b s; simpl.
  - intros _ H. by apply not_elem_of_nil in H.
  - intros (-> & (k & Hk & -> & Hd) & Hle & Ht) [[= -> ->]|H]%elem_of_cons; [eauto 10 with lia|].
    destruct (IH _ _ _ _ Ht H) as (? & ? & ?). split; [lia|]. split; [lia|done].
Qed.

(** ** Lemmas: what one variable MTRR matches *)

Definition msr64 (m : msr_t) : Z := Z.lor (Z.shiftl (msr_hi m) 32) (msr_lo m).

(** The architecture's rule: valid, and equal to the base under the mask. *)
Definition mtrr_match (r : var_mtrr_regs) (a : Z) : bool :=
  let m := Z.land (msr64 (regs_mask r)) (Z.lnot 0xfff) in
  let b := Z.land (msr64 (regs_base r)) (Z.lnot 0xfff) in
  Z.testbit (msr64 (regs_mask r)) 11 && (Z.land a m =? Z.land b m).

Definition mtrr_type_of (r : var_mtrr_regs) : Z := Z.land (msr64 (regs_base r)) 0xff.

Lemma split64 x y :
  0 <= x < 2 ^ 64 -> (4096 | x) -> 0 <= y < 4096 ->
  msr64 (mk_msr (Z.lor (u32 x) y) (u32 (Z.shiftr x 32))) = x + y.
Proof.
  intros Hx Hd Hy. unfold msr64. simpl.
  assert (Hd' : (2 ^ 12 | u32 x)).
  { unfold u32, wrap. destruct Hd as [q ->]. exists (q mod 2 ^ 20).
    Z.to_euclidean_division_equations. lia. }
  rewrite (lor_add (u32 x) y 12) by (try done; lia).
  pose proof (u32_range x).
  assert (u32 x + 4096 <= 2 ^ 32) by (destruct Hd' as [q Hq]; lia).
  rewrite Z.shiftr_div_pow2, Z.shiftl_mul_pow2 by lia.
  rewrite (u32_small (x / 2 ^ 32)) by (split; [apply Z.div_pos|apply Z.div_lt_upper_bound]; lia).
  rewrite (lor_add _ _ 32) by (try lia; exists (x / 2 ^ 32); lia).
  unfold u32, wrap. pose proof (Z.div_mod x (2 ^ 32) ltac:(lia)). lia.
Qed.

Lemma clear_low12 x y :
  (4096 | x) -> 0 <= y < 4096 -> Z.land (x + y) (Z.lnot 0xfff) = x.
Proof.
  intros [q ->] Hy. change 0xfff with (2 ^ 12 - 1). rewrite land_lnot_pow2 by lia.
  change (2 ^ 12) with 4096. Z.to_euclidean_division_equations. lia.
Qed.

(** The masked size: all bits of the address from the block size up. *)
Lemma var_mask_value ab s :
  0 <= ab <= 64 -> 0 <= s < 2 ^ 64 ->
  Z.land (u64 (- s)) (u64 (u64 (Z.shiftl 1 ab) - 1)) = wrap ab (- s).
Proof.
  intros Hab Hs. rewrite Z.shiftl_1_l.
  assert (H1 : u64 (u64 (2 ^ ab) - 1) = 2 ^ ab - 1).
  { pose proof (pow2_le_pow2 ab 64 ltac:(lia)). destruct (Z.eq_dec ab 64) as [->|]; [done|].
    assert (2 ^ ab < 2 ^ 64) by (apply Z.pow_lt_mono_r; lia).
    rewrite (u64_small (2 ^ ab)) by lia. rewrite u64_small by lia. done. }
  rewrite H1, land_low_mask by lia. apply (wrap_wrap ab 64). lia.
Qed.

(** The 64-bit values a prepared register pair holds. *)
Lemma var_mtrr_value_words ab base k t :
  12 <= ab <= 52 -> 0 <= k -> 0 <= base -> base + 2 ^ k <= 2 ^ (ab - 12) -> 0 <= t < 256 ->
  let r := var_mtrr_value ab base (2 ^ k) t in
  k + 12 <= ab /\ (4096 | wrap ab (- 2 ^ (k + 12))) /\
  msr64 (regs_base r) = base * 4096 + t /\
  msr64 (regs_mask r) = wrap ab (- 2 ^ (k + 12)) + 2048.
Proof.
  intros Hab Hk Hb Hbk Ht r.
  assert (Hab' : 2 ^ ab = 2 ^ (ab - 12) * 4096).
  { replace ab with (ab - 12 + 12) at 1 by lia. rewrite Z.pow_add_r by lia. done. }
  assert (H52 : 2 ^ ab <= 2 ^ 52) by (apply Z.pow_le_mono_r; lia).
  assert (Hk12 : 2 ^ (k + 12) = 2 ^ k * 4096) by (rewrite Z.pow_add_r by lia; done).
  pose proof (Z.pow_pos_nonneg 2 k).
  pose proof (wrap_range ab (- 2 ^ (k + 12)) ltac:(lia)) as Hwr.
  assert (Hmd : (4096 | wrap ab (- 2 ^ (k + 12)))).
  { unfold wrap. rewrite Hab'. replace (- 2 ^ (k + 12)) with (- 2 ^ k * 4096) by lia.
    rewrite Z.mul_mod_distr_r by lia. apply Z.divide_factor_r. }
  split; [apply (Z.pow_le_mono_r_iff 2); lia|]. split; [done|].
  unfold r, var_mtrr_value, RANGE_TO_PHYS_ADDR. simpl regs_base. simpl regs_mask.
  rewrite !(Z.shiftl_mul_pow2 _ 12) by lia. change (2 ^ 12) with 4096. split.
  - rewrite (u64_small (base * 4096)) by lia. apply split64; try lia. apply Z.divide_factor_r.
  - rewrite (u64_small (2 ^ k * 4096)) by lia. rewrite <- Hk12, var_mask_value by lia.
    change MTRR_PHYS_MASK_VALID with 2048. apply split64; [lia|done|lia].
Qed.

Lemma land_neg_pow2 ab m x :
  0 <= m <= ab -> 0 <= x < 2 ^ ab -> Z.land x (wrap ab (- 2 ^ m)) = x - x mod 2 ^ m.
Proof.
  intros Hm Hx. rewrite land_wrap by lia.
  replace (- 2 ^ m) with (Z.lnot (2 ^ m - 1)) by (unfold Z.lnot; lia).
  apply land_lnot_pow2. lia.
Qed.

(** Two pages agree above bit [k] iff one lies in the other's aligned block. *)
Lemma aligned_block_iff base k a :
  0 <= k -> (2 ^ k | base) ->
  (a - a mod 2 ^ (k + 12) =? base * 4096) =
  (base <=? a / 4096) && (a / 4096 <? base + 2 ^ k).
Proof.
  intros Hk [q Hq]. pose proof (Z.pow_pos_nonneg 2 k ltac:(lia) ltac:(lia)).
  assert (Hk12 : 2 ^ (k + 12) = 2 ^ k * 4096) by (rewrite Z.pow_add_r by lia; done).
  pose proof (Z.mod_pos_bound a (2 ^ (k + 12)) ltac:(lia)).
  pose proof (Z.div_mod a (2 ^ (k + 12)) ltac:(lia)) as Hdiv.
  set (z := a / 2 ^ (k + 12)) in *.
  pose proof (Z.div_mod a 4096 ltac:(lia)). pose proof (Z.mod_pos_bound a 4096 ltac:(lia)).
  destruct (Z.eqb_spec (a - a mod 2 ^ (k + 12)) (base * 4096)) as [He|He].
  - symmetry. apply andb_true_iff. rewrite Z.leb_le, Z.ltb_lt. lia.
  - symmetry. apply andb_false_iff. rewrite Z.leb_gt, Z.ltb_ge.
    assert (Hzq : z <> q) by (intros ->; apply He; rewrite Hq; lia).
    destruct (Z.lt_trichotomy z q) as [?|[?|?]]; [left|done|right]; nia.
Qed.

(** A prepared register matches exactly the addresses of its block. *)
Lemma var_mtrr_value_match ab base k t a :
  12 <= ab <= 52 -> 0 <= k -> 0 <= base -> (2 ^ k | base) ->
  base + 2 ^ k <= 2 ^ (ab - 12) -> 0 <= t < 256 -> 0 <= a < 2 ^ ab ->
  let r := var_mtrr_value ab base (2 ^ k) t in
  mtrr_match r a = (base <=? a / 4096) && (a / 4096 <? base + 2 ^ k) /\
  mtrr_type_of r = t.
Proof.
  intros Hab Hk Hb Hd Hbk Ht Ha r.
  destruct (var_mtrr_value_words ab base k t Hab Hk Hb Hbk Ht) as (Hka & Hmd & Hbm & Hm).
  unfold mtrr_match, mtrr_type_of. fold r in Hbm, Hm. rewrite Hm, Hbm. split.
  2: { change 0xff with (2 ^ 8 - 1). rewrite land_low_mask by lia.
       change (2 ^ 8) with 256. Z.to_euclidean_division_equations. lia. }
  rewrite !clear_low12 by (try done; try lia; apply Z.divide_factor_r).
  assert (Hv : Z.testbit (wrap ab (- 2 ^ (k + 12)) + 2048) 11 = true).
  { destruct Hmd as [q ->]. apply Z.testbit_true; [lia|]. change (2 ^ 11) with 2048.
    Z.to_euclidean_division_equations. lia. }
  assert (Hab' : 2 ^ ab = 2 ^ (ab - 12) * 4096).
  { replace ab with (ab - 12 + 12) at 1 by lia. rewrite Z.pow_add_r by lia. done. }
  rewrite Hv, !land_neg_pow2 by lia. simpl. rewrite <- aligned_block_iff by done.
  f_equal. destruct Hd as [q ->].
  replace (q * 2 ^ k * 4096) with (q * 2 ^ (k + 12)) by (rewrite Z.pow_add_r by lia; lia).
  rewrite Z.mod_mul by lia. lia.
Qed.

(** ** Lemmas: the calls an entry makes, as data *)

(** One pushed block: base, size, type. *)
Definition block : Type := (Z * Z * Z)%type.

Section Pushes.
Variable total : Z.

Definition push (v : var_mtrr_state) (b : block) : var_mtrr_state :=
  let '(base, size, t) := b in
  let v := if prepare_msrs v then prep_var_mtrr total v base size t else v in
  set_index (mtrr_index v + 1) v.

Definition range_blocks (base size t : Z) : list block :=
  map (fun b => (fst b, snd b, t)) (blocks 64 base size).

Definition call_blocks (c : Z * Z * Z) : list block :=
  let '(base, size, t) := c in range_blocks base size t.

Definition push_all (v : var_mtrr_state) (l : list block) : var_mtrr_state := fold_left push l v.

Definition run_calls (v : var_mtrr_state) (cs : list (Z * Z * Z)) : var_mtrr_state :=
  push_all v (flat_map call_blocks cs).

Lemma calc_loop_blocks fuel : forall v base size t,
  calc_var_mtrr_range_loop total fuel v base size t =
  push_all v (map (fun b => (fst b, snd b, t)) (blocks fuel base size)).
Proof.
  induction fuel as [|fuel IH]; intros v base size t; simpl; [done|].
  case_bool; [done|]. simpl. by rewrite IH.
Qed.

Lemma calc_var_mtrr_range_call v base size t :
  calc_var_mtrr_range total v base size t = run_calls v [(base, size, t)].
Proof.
  unfold calc_var_mtrr_range, run_calls. cbn [flat_map call_blocks]. rewrite app_nil_r.
  apply calc_loop_blocks.
Qed.

Lemma run_calls_app v cs1 cs2 : run_calls v (cs1 ++ cs2) = run_calls (run_calls v cs1) cs2.
Proof. unfold run_calls, push_all. by rewrite flat_map_app, fold_left_app. Qed.

Lemma push_fields v b :
  above4gb (push v b) = above4gb v /\ address_bits (push v b) = address_bits v /\
  prepare_msrs (push v b) = prepare_msrs v /\ def_mtrr_type (push v b) = def_mtrr_type v /\
  mtrr_index (push v b) = mtrr_index v + 1 /\ length (regs (push v b)) = length (regs v).
Proof.
  destruct b as [[base size] t]. unfold push, prep_var_mtrr.
  destruct (prepare_msrs v) eqn:E; [case_bool|]; simpl; rewrite ?length_insert, ?E; done.
Qed.

Lemma push_all_fields l : forall v,
  above4gb (push_all v l) = above4gb v /\ address_bits (push_all v l) = address_bits v /\
  prepare_msrs (push_all v l) = prepare_msrs v /\ def_mtrr_type (push_all v l) = def_mtrr_type v /\
  mtrr_index (push_all v l) = mtrr_index v + Z.of_nat (length l) /\
  length (regs (push_all v l)) = length (regs v).
Proof.
  unfold push_all. induction l as [|b l IH]; intros v; simpl; [repeat split; lia|].
  destruct (IH (push v b)) as (E1 & E2 & E3 & E4 & E5 & E6).
  destruct (push_fields v b) as (F1 & F2 & F3 & F4 & F5 & F6).
  repeat split; try congruence. rewrite E5, F5. lia.
Qed.

(** The calls of one entry, same tests as the code. *)
Definition hole_calls (above : bool) (def : Z) (r : range_entry) (next : option range_entry)
    : list (Z * Z * Z) :=
  let t := range_entry_mtrr_type r in
  let a1 := range_entry_base_mtrr_addr r in
  let a2 := range_entry_end_mtrr_addr r in
  if a2 <=? RANGE_1MB then []
  else
    let a1 := if a1 <=? RANGE_1MB then 0 else a1 in
    if negb above && (RANGE_4GB <=? a1) then []
    else
      let a2 := if negb above && (RANGE_4GB <? a2) then RANGE_4GB else a2 in
      let wide := (RANGE_4GB <=? a1) && (match next with None => true | Some _ => false end) in
      let b2_wide := u32 (u32 (Z.shiftl 1 (fls a1)) + a1) in
      if wide && (a2 <=? b2_wide) then [(a1, u32 (b2_wide - a1), t)]
      else
        let b2 := ALIGN_UP 32 a2 MTRR_MIN_ALIGN in
        let blocked := match next with
          | None => false
          | Some n => negb (range_entry_mtrr_type n =? def)
                      || (range_entry_end_mtrr_addr n <? b2) end in
        if blocked then [(a1, u32 (a2 - a1), t)]
        else [(a1, u32 (b2 - a1), t); (a2, u32 (b2 - a2), def)].

Definition no_hole_calls (above : bool) (r : range_entry) : list (Z * Z * Z) :=
  let t := range_entry_mtrr_type r in
  let a1 := range_entry_base_mtrr_addr r in
  let c2 := range_entry_end_mtrr_addr r in
  if c2 <=? RANGE_1MB then []
  else
    let a1 := if a1 <=? RANGE_1MB then 0 else a1 in
    if negb above && (RANGE_4GB <=? a1) then []
    else
      let c2 := if negb above && (RANGE_4GB <? c2) then RANGE_4GB else c2 in
      if u32 (c2 - a1) <? MTRR_MIN_ALIGN then [(a1, u32 (c2 - a1), t)]
      else
        let a2 := ALIGN_UP 32 a1 MTRR_MIN_ALIGN in
        let c1 := ALIGN_DOWN 32 c2 MTRR_MIN_ALIGN in
        [(a1, u32 (a2 - a1), t); (a2, u32 (c1 - a2), t); (c1, u32 (c2 - c1), t)].

Lemma run_calls_def v cs : def_mtrr_type (run_calls v cs) = def_mtrr_type v.
Proof. apply push_all_fields. Qed.

Lemma run_calls_nil v : run_calls v [] = v.
Proof. done. Qed.

#[local] Opaque run_calls calc_var_mtrr_range ALIGN_UP ALIGN_DOWN.

Lemma with_hole_calls v r next :
  calc_var_mtrrs_with_hole total v r next =
  run_calls v (hole_calls (above4gb v) (def_mtrr_type v) r next).
Proof.
  unfold calc_var_mtrrs_with_hole, hole_calls. rewrite !calc_var_mtrr_range_call.
  rewrite run_calls_def, <- run_calls_app. simpl app.
  repeat case_bool; by rewrite ?run_calls_nil.
Qed.

Lemma without_hole_calls v r :
  calc_var_mtrrs_without_hole total v r = run_calls v (no_hole_calls (above4gb v) r).
Proof.
  unfold calc_var_mtrrs_without_hole, no_hole_calls. rewrite !calc_var_mtrr_range_call.
  rewrite <- !run_calls_app. simpl app. repeat case_bool; by rewrite ?run_calls_nil.
Qed.

(** The calls of the whole walk of [prepare_var_mtrrs]. *)
Definition entry_calls (above : bool) (def : Z) (r : range_entry) (next : option range_entry)
    : list (Z * Z * Z) :=
  if range_entry_mtrr_type r =? def then []
  else if (def =? MTRR_TYPE_UNCACHEABLE) && has (range_entry_tag r) MTRR_RANGE_UC_USE_HOLE
       then hole_calls above def r next
       else no_hole_calls above r.

Fixpoint all_calls (above : bool) (def : Z) (es : list range_entry) : list (Z * Z * Z) :=
  match es with
  | [] => []
  | r :: rest => entry_calls above def r (head rest) ++ all_calls above def rest
  end.

Lemma prepare_loop_calls es : forall v,
  prepare_loop total (def_mtrr_type v) v es =
  run_calls v (all_calls (above4gb v) (def_mtrr_type v) es).
Proof.
  induction es as [|r rest IH]; intros v; simpl; [done|].
  rewrite run_calls_app. unfold entry_calls.
  rewrite with_hole_calls, without_hole_calls.
  set (cs := if range_entry_mtrr_type r =? def_mtrr_type v then [] else _).
  replace (if range_entry_mtrr_type r =? def_mtrr_type v then v else _)
    with (run_calls v cs) by (unfold cs; repeat case_bool; by rewrite ?run_calls_nil).
  rewrite <- (run_calls_def v cs) at 1. rewrite IH.
  destruct (push_all_fields (flat_map call_blocks cs) v) as (E1 & _ & _ & E4 & _).
  change (above4gb (run_calls v cs)) with (above4gb (push_all v (flat_map call_blocks cs))).
  rewrite run_calls_def. by rewrite E1.
Qed.

(** Pushing blocks with enough registers puts the values in order. *)
Lemma push_all_regs l : forall v,
  prepare_msrs v = true -> 0 <= mtrr_index v ->
  mtrr_index v + Z.of_nat (length l) <= total ->
  total <= Z.of_nat (length (regs v)) ->
  regs (push_all v l) =
  take (Z.to_nat (mtrr_index v)) (regs v) ++
  map (fun b => var_mtrr_value (address_bits v) (fst (fst b)) (snd (fst b)) (snd b)) l ++
  drop (Z.to_nat (mtrr_index v) + length l) (regs v).
Proof.
  induction l as [|[[base size] t] l IH]; intros v Hp Hi Hl Ht.
  { simpl. rewrite Nat.add_0_r. by rewrite take_drop. }
  change (push_all v ((base, size, t) :: l)) with (push_all (push v (base, size, t)) l).
  cbn [map length] in *. destruct (push_fields v (base, size, t)) as (F1 & F2 & F3 & F4 & F5 & F6).
  rewrite IH by (rewrite ?F3, ?F5, ?F6; auto; lia). rewrite F2, F5. simpl fst. simpl snd.
  assert (Hr : regs (push v (base, size, t)) =
    <[Z.to_nat (mtrr_index v) := var_mtrr_value (address_bits v) base size t]> (regs v)).
  { unfold push, prep_var_mtrr. rewrite Hp. case_bool; bool_to_prop; [lia|done]. }
  rewrite Hr. replace (Z.to_nat (mtrr_index v + 1)) with (S (Z.to_nat (mtrr_index v))) by lia.
  rewrite (take_S_r _ _ (var_mtrr_value (address_bits v) base size t))
    by (apply list_lookup_insert_eq; lia).
  rewrite take_insert_ge by lia. rewrite drop_insert_lt by lia.
  rewrite <- app_assoc. simpl. do 3 f_equal. f_equal. lia.
Qed.
End Pushes.
