(* ===== verification/MtrrCover.v ===== *)
(** * Correctness of the variable MTRR solution

    The register values [Mtrr.prepare_var_mtrrs] computes, read back with the
    architecture's matching and precedence rules, give every address from
    1 MiB up the cache type its address-space entry is tagged with. *)

From S2P Require Import Prelude Device MemRange Mtrr.

(** ** Lemmas: which pages the calls cover *)

Definition covered (cs : list (Z * Z * Z)) (p t : Z) : Prop :=
  exists base size, (base, size, t) ∈ cs /\ base <= p < base + size.

Definition valid_call (m : Z) (c : Z * Z * Z) : Prop :=
  0 <= fst (fst c) /\ 0 <= snd (fst c) /\ fst (fst c) + snd (fst c) <= m /\ 0 <= snd c < 256.

Lemma covered_app cs1 cs2 p t :
  covered (cs1 ++ cs2) p t <-> covered cs1 p t \/ covered cs2 p t.
Proof.
  unfold covered. setoid_rewrite elem_of_app. split.
  - intros (b & s & [H|H] & Hp); [left|right]; eauto.
  - intros [(b & s & H & Hp)|(b & s & H & Hp)]; eauto 10.
Qed.

Lemma covered_cons b s t0 cs p t :
  covered ((b, s, t0) :: cs) p t <-> (t = t0 /\ b <= p < b + s) \/ covered cs p t.
Proof.
  unfold covered. setoid_rewrite elem_of_cons. split.
  - intros (base & size & [[= -> -> ->]|H] & Hp); [by left|right; eauto].
  - intros [[-> Hp]|(base & size & H & Hp)]; eauto 10.
Qed.

Lemma covered_nil p t : covered [] p t <-> False.
Proof. split; [intros (?&?&H&_); by apply not_elem_of_nil in H|done]. Qed.

(** Page numbers of an entry. *)
Definition first_page (r : range_entry) : Z := r_begin r / 4096.
Definition end_page (r : range_entry) : Z := (r_end r + 1) / 4096.

(** What the address space hands to the calculation: whole pages below
    [2^ab]. *)
Definition page_entry (ab : Z) (r : range_entry) : Prop :=
  (4096 | r_begin r) /\ (4096 | r_end r + 1) /\ 0 <= r_begin r <= r_end r /\
  r_end r < 2 ^ ab.

Lemma page_entry_addrs ab r :
  32 <= ab <= 43 -> page_entry ab r ->
  range_entry_base_mtrr_addr r = first_page r /\
  range_entry_end_mtrr_addr r = end_page r /\
  0 <= first_page r < end_page r /\ end_page r <= 2 ^ (ab - 12) /\ 2 ^ (ab - 12) <= 2 ^ 31 /\
  (forall p, in_range r (p * 4096) = (first_page r <=? p) && (p <? end_page r)).
Proof.
  intros Hab ([q Hq] & [q' Hq'] & Hb & He).
  assert (H43 : 2 ^ ab <= 2 ^ 43) by (apply Z.pow_le_mono_r; lia).
  assert (H12 : 2 ^ ab = 2 ^ (ab - 12) * 4096).
  { replace ab with (ab - 12 + 12) at 1 by lia. rewrite Z.pow_add_r by lia. done. }
  unfold range_entry_base_mtrr_addr, range_entry_end_mtrr_addr, PHYS_TO_RANGE_ADDR,
    range_entry_base, range_entry_end, first_page, end_page.
  rewrite !Z.shiftr_div_pow2 by lia. change (2 ^ 12) with 4096.
  rewrite (u64_small (r_end r + 1)) by lia. rewrite Hq, Hq', !Z.div_mul by lia.
  rewrite !u32_small by lia. repeat split; try lia.
  intros p. unfold in_range.
  destruct (Z.leb_spec (r_begin r) (p * 4096)), (Z.leb_spec (p * 4096) (r_end r)),
    (Z.leb_spec q p), (Z.ltb_spec p q'); simpl; try done; lia.
Qed.

Lemma align_up_min m x :
  20 <= m <= 31 -> 0 <= x <= 2 ^ m ->
  x <= ALIGN_UP 32 x MTRR_MIN_ALIGN < x + 0x4000 /\
  ALIGN_UP 32 x MTRR_MIN_ALIGN <= 2 ^ m /\ (2 ^ 14 | ALIGN_UP 32 x MTRR_MIN_ALIGN).
Proof.
  intros Hm Hx. change MTRR_MIN_ALIGN with (2 ^ 14).
  assert (2 ^ m <= 2 ^ 31) by (apply Z.pow_le_mono_r; lia).
  destruct (align_up_bounds 32 14 x ltac:(lia) ltac:(lia) ltac:(lia)) as [H1 H2].
  split; [exact H1|]. split; [|exact H2]. destruct H2 as [q Hq].
  assert (Hd : 2 ^ m = 2 ^ (m - 14) * 2 ^ 14) by (rewrite <- Z.pow_add_r by lia; f_equal; lia).
  rewrite Hq in *. nia.
Qed.

Lemma align_down_min x :
  0 <= x < 2 ^ 32 ->
  0 <= ALIGN_DOWN 32 x MTRR_MIN_ALIGN <= x /\ x < ALIGN_DOWN 32 x MTRR_MIN_ALIGN + 0x4000 /\
  (2 ^ 14 | ALIGN_DOWN 32 x MTRR_MIN_ALIGN).
Proof.
  intros Hx. change MTRR_MIN_ALIGN with (2 ^ 14).
  destruct (align_down_bounds 32 14 x ltac:(lia) ltac:(lia)) as [H1 H2].
  split; [|split; [lia|done]]. destruct H2 as [q Hq]. rewrite Hq in *. lia.
Qed.

Lemma wide_bound m x :
  0 <= m <= 31 -> 0 < x < 2 ^ m ->
  u32 (u32 (Z.shiftl 1 (fls x)) + x) = 2 ^ fls x + x /\ x < 2 ^ fls x + x <= 2 ^ m.
Proof.
  intros Hm Hx. destruct (fls_spec x ltac:(lia)) as [H0 [q Hq]].
  assert (2 ^ m <= 2 ^ 31) by (apply Z.pow_le_mono_r; lia).
  pose proof (Z.pow_pos_nonneg 2 (fls x) ltac:(lia) ltac:(lia)).
  set (P := 2 ^ fls x) in *.
  assert (0 <= q) by (destruct (Z.le_gt_cases 0 q); [done|]; nia).
  assert (P <= x) by nia.
  assert (Hlm : fls x < m) by (apply (Z.pow_lt_mono_r_iff 2); lia).
  assert (Hd : 2 ^ m = 2 ^ (m - fls x) * P)
    by (unfold P; rewrite <- Z.pow_add_r by lia; f_equal; lia).
  assert (P + x <= 2 ^ m).
  { assert (2 * q + 1 < 2 ^ (m - fls x)) by (apply (Z.mul_lt_mono_pos_r P); lia).
    pose proof (Z.mul_le_mono_nonneg_r (2 * q + 2) (2 ^ (m - fls x)) P ltac:(lia)). lia. }
  rewrite Z.shiftl_1_l. fold P. rewrite (u32_small P) by lia. rewrite u32_small by lia. lia.
Qed.

(** What the calls of one entry cover, from 1 MiB up: its own pages with its
    own type, and possibly a round-up into the gap or the next entry, which
    then has the default type and gets the default type written over it. *)
Definition entry_ok (m def : Z) (r : range_entry) (next : option range_entry)
    (cs : list (Z * Z * Z)) : Prop :=
  let t0 := range_entry_mtrr_type r in
  Forall (valid_call m) cs /\
  exists b2, end_page r <= b2 /\
    (b2 = end_page r \/ (def = MTRR_TYPE_UNCACHEABLE /\
       match next with
       | None => True
       | Some n => range_entry_mtrr_type n = def /\ b2 <= end_page n /\
                   forall p, end_page r <= p < b2 -> covered cs p def
       end)) /\
    (forall p t, RANGE_1MB <= p -> covered cs p t ->
       (first_page r <= p < end_page r /\ t = t0) \/
       (end_page r <= p < b2 /\ (t = t0 \/ t = def))) /\
    (forall p, RANGE_1MB <= p -> first_page r <= p < end_page r -> covered cs p t0).

Lemma mtrr_type_range r : 0 <= range_entry_mtrr_type r < 256.
Proof.
  unfold range_entry_mtrr_type. change MTRR_TAG_MASK with (2 ^ 8 - 1).
  rewrite land_low_mask by lia. change 256 with (2 ^ 8). apply Z.mod_pos_bound. lia.
Qed.

(** Clearing the start at or below 1 MiB does not matter from 1 MiB up. *)
Definition low_start (a1 : Z) : Z := if a1 <=? RANGE_1MB then 0 else a1.

Lemma low_start_spec a1 : 0 <= a1 -> 0 <= low_start a1 <= a1 /\
  forall p, RANGE_1MB <= p -> (low_start a1 <= p <-> a1 <= p).
Proof.
  unfold low_start. change RANGE_1MB with 256. intros H.
  case_bool; bool_to_prop; (split; [lia|intros; lia]).
Qed.

Ltac solve_valid := repeat (apply Forall_cons; split); try apply Forall_nil_2; try done;
  unfold valid_call, MTRR_TYPE_UNCACHEABLE; simpl; repeat split; try lia.

Lemma no_hole_ok ab def r next :
  32 <= ab <= 43 -> page_entry ab r -> entry_ok (2 ^ (ab - 12)) def r next (no_hole_calls true r).
Proof.
  intros Hab Hr. destruct (page_entry_addrs ab r Hab Hr) as (E1 & E2 & H1 & H2 & H3 & _).
  pose proof (mtrr_type_range r) as Ht.
  unfold entry_ok, no_hole_calls. rewrite E1, E2. cbn [negb andb].
  destruct (Z.leb_spec (end_page r) RANGE_1MB) as [Hlow|Hhigh].
  { split; [constructor|]. exists (end_page r). split; [lia|]. split; [by left|]. split.
    - intros p t _ H. by apply covered_nil in H.
    - intros p ? ?. lia. }
  fold (low_start (first_page r)).
  destruct (low_start_spec (first_page r) ltac:(lia)) as [L1 L2].
  set (a1 := low_start (first_page r)) in *. set (c2 := end_page r) in *.
  assert (Ha1c2 : a1 <= c2) by lia.
  destruct (Z.ltb_spec (u32 (c2 - a1)) MTRR_MIN_ALIGN) as [Hs|Hs].
  - rewrite (u32_small (c2 - a1)) by lia. split; [solve_valid|].
    exists c2. split; [lia|]. split; [by left|]. split.
    + intros p t Hp [[-> Hc]|Hc]%covered_cons; [|by apply covered_nil in Hc].
      left. specialize (L2 p Hp). split; [lia|done].
    + intros p Hp Hc. apply covered_cons. left. specialize (L2 p Hp). split; [done|lia].
  - change MTRR_MIN_ALIGN with 0x4000 in Hs. rewrite (u32_small (c2 - a1)) in Hs by lia.
    destruct (align_up_min (ab - 12) a1 ltac:(lia) ltac:(lia)) as (U1 & U2 & U3).
    destruct (align_down_min c2 ltac:(lia)) as (D1 & D2 & D3).
    set (a2 := ALIGN_UP 32 a1 MTRR_MIN_ALIGN) in *. set (c1 := ALIGN_DOWN 32 c2 MTRR_MIN_ALIGN) in *.
    assert (a2 <= c1) by (destruct U3 as [? ->], D3 as [? ->]; lia).
    rewrite !u32_small by lia. split; [solve_valid|].
    exists c2. split; [lia|]. split; [by left|]. split.
    + intros p t Hp Hc. specialize (L2 p Hp). rewrite !covered_cons, covered_nil in Hc.
      left. destruct_or!; try done; destruct Hc as [-> ?]; (split; [lia|done]).
    + intros p Hp Hc. specialize (L2 p Hp). rewrite !covered_cons, covered_nil.
      destruct (Z.lt_ge_cases p a2); [left; split; [done|lia]|].
      destruct (Z.lt_ge_cases p c1); [right; left; split; [done|lia]|].
      right; right; left. split; [done|lia].
Qed.

Lemma hole_ok ab r next :
  32 <= ab <= 43 -> page_entry ab r ->
  (forall n, next = Some n -> page_entry ab n /\ end_page r <= first_page n) ->
  entry_ok (2 ^ (ab - 12)) MTRR_TYPE_UNCACHEABLE r next
    (hole_calls true MTRR_TYPE_UNCACHEABLE r next).
Proof.
  intros Hab Hr Hn. destruct (page_entry_addrs ab r Hab Hr) as (E1 & E2 & H1 & H2 & H3 & _).
  pose proof (mtrr_type_range r) as Ht.
  unfold entry_ok, hole_calls. rewrite E1, E2. cbn [negb andb].
  destruct (Z.leb_spec (end_page r) RANGE_1MB) as [Hlow|Hhigh].
  { split; [constructor|]. exists (end_page r). split; [lia|]. split; [by left|]. split.
    - intros p t _ H. by apply covered_nil in H.
    - intros p ? ?. lia. }
  fold (low_start (first_page r)).
  destruct (low_start_spec (first_page r) ltac:(lia)) as [L1 L2].
  set (a1 := low_start (first_page r)) in *. set (a2 := end_page r) in *.
  destruct (align_up_min (ab - 12) a2 ltac:(lia) ltac:(lia)) as (U1 & U2 & U3).
  set (b2 := ALIGN_UP 32 a2 MTRR_MIN_ALIGN) in *.
  match goal with |- context [if ?w then [_] else if ?b then _ else _] =>
    destruct w eqn:?; [|destruct b eqn:?] end.
  - (* the last entry, above 4 GiB *)
    bool_to_prop. change RANGE_4GB with (2 ^ 20) in *. destruct next; [done|].
    destruct (wide_bound (ab - 12) a1 ltac:(lia) ltac:(lia)) as [W1 W2].
    rewrite W1 in *. set (bw := 2 ^ fls a1 + a1) in *. rewrite (u32_small (bw - a1)) by lia.
    split; [solve_valid|]. exists bw. split; [lia|]. split; [by right|]. split.
    + intros p t Hp [[-> Hc]|Hc]%covered_cons; [|by apply covered_nil in Hc].
      specialize (L2 p Hp). destruct (Z.lt_ge_cases p a2); [left|right]; (split; [lia|tauto]).
    + intros p Hp Hc. apply covered_cons. left. specialize (L2 p Hp). split; [done|lia].
  - rewrite (u32_small (a2 - a1)) by lia. split; [solve_valid|].
    exists a2. split; [lia|]. split; [by left|]. split.
    + intros p t Hp [[-> Hc]|Hc]%covered_cons; [|by apply covered_nil in Hc].
      left. specialize (L2 p Hp). split; [lia|done].
    + intros p Hp Hc. apply covered_cons. left. specialize (L2 p Hp). split; [done|lia].
  - rewrite !u32_small by lia. split; [solve_valid|].
    exists b2. split; [lia|]. split; [|split].
    + right. split; [done|]. destruct next as [n|]; [|done]. destruct (Hn n eq_refl) as [Hpn _].
      destruct (page_entry_addrs ab n Hab Hpn) as (_ & E2' & _). rewrite E2' in *.
      bool_to_prop. split; [done|]. split; [lia|]. intros p Hp. apply covered_cons. right.
      apply covered_cons. left. split; [done|lia].
    + intros p t Hp Hc. specialize (L2 p Hp). rewrite !covered_cons, covered_nil in Hc.
      destruct_or!; try done; destruct Hc as [-> ?]; destruct (Z.lt_ge_cases p a2);
        ((left; split; [lia|done]) || (right; split; [lia|tauto]) || lia).
    + intros p Hp Hc. apply covered_cons. left. specialize (L2 p Hp). split; [done|lia].
Qed.

(** ** Lemmas: the calls of the whole address space *)

Definition page_type (es : list range_entry) (p : Z) : option Z :=
  option_map (fun tag => Z.land tag MTRR_TAG_MASK) (tag_at es (p * 4096)).

Lemma entry_calls_ok ab def r next :
  32 <= ab <= 43 -> page_entry ab r ->
  (forall n, next = Some n -> page_entry ab n /\ end_page r <= first_page n) ->
  range_entry_mtrr_type r <> def ->
  entry_ok (2 ^ (ab - 12)) def r next (entry_calls true def r next).
Proof.
  intros Hab Hr Hn Hd. unfold entry_calls. rewrite (proj2 (Z.eqb_neq _ _)) by done.
  destruct (Z.eqb_spec def MTRR_TYPE_UNCACHEABLE) as [->|]; simpl; [|by apply no_hole_ok].
  case_bool; [by apply hole_ok|by apply no_hole_ok].
Qed.

Lemma next_ok ab r rest :
  page_entry ab r -> Forall (page_entry ab) rest -> wf_from (r_end r + 1) rest ->
  forall n, head rest = Some n -> page_entry ab n /\ end_page r <= first_page n.
Proof.
  intros (_ & [q Hq] & _) Hf Hwf n Hn. destruct rest as [|n' rest]; [done|].
  injection Hn as ->. apply Forall_cons in Hf as [Hpn _]. split; [done|].
  destruct Hwf as [Hle _], Hpn as ([q' Hq'] & _). unfold end_page, first_page.
  rewrite Hq, Hq', !Z.div_mul by lia. lia.
Qed.

(** No call of a list reaches below its first entry. *)
Lemma all_calls_above ab def es : forall lo p t,
  32 <= ab <= 43 -> Forall (page_entry ab) es -> wf_from lo es -> RANGE_1MB <= p ->
  covered (all_calls true def es) p t -> lo <= p * 4096.
Proof.
  induction es as [|r rest IH]; intros lo p t Hab Hf Hwf Hp Hc; simpl in *.
  { by apply covered_nil in Hc. }
  apply Forall_cons in Hf as [Hr Hf]. destruct Hwf as (Hlo & H64 & Hwf).
  destruct (page_entry_addrs ab r Hab Hr) as (_ & _ & H1 & _).
  destruct (proj1 Hr) as [q Hq]. assert (Hb : r_begin r <= r_end r) by apply Hr.
  apply covered_app in Hc as [Hc|Hc].
  - assert (Hd : range_entry_mtrr_type r <> def).
    { intros He. unfold entry_calls in Hc. rewrite (proj2 (Z.eqb_eq _ _) He) in Hc.
      by apply covered_nil in Hc. }
    pose proof (entry_calls_ok ab def r (head rest) Hab Hr (next_ok ab r rest Hr Hf Hwf) Hd) as Hok.
    destruct Hok as (_ & b2 & Hb2 & _ & Hcov & _). apply (Hcov p t Hp) in Hc.
    unfold first_page in *. rewrite Hq, Z.div_mul in * by lia. lia.
  - pose proof (IH _ _ _ Hab Hf Hwf Hp Hc). lia.
Qed.

(** The pages of a list of calls, against the types of the entries. *)
Definition calls_match (es : list range_entry) (def : Z) (cs : list (Z * Z * Z)) : Prop :=
  forall p T, RANGE_1MB <= p -> page_type es p = Some T ->
  (T <> def -> covered cs p T /\ forall t, covered cs p t -> t = T) /\
  (T = def -> forall t, covered cs p t -> def = MTRR_TYPE_UNCACHEABLE /\ covered cs p def).

Lemma page_type_cons ab r rest p :
  32 <= ab <= 43 -> page_entry ab r ->
  page_type (r :: rest) p =
  if (first_page r <=? p) && (p <? end_page r) then Some (range_entry_mtrr_type r)
  else page_type rest p.
Proof.
  intros Hab Hr. destruct (page_entry_addrs ab r Hab Hr) as (_ & _ & _ & _ & _ & Hin).
  unfold page_type. simpl tag_at. rewrite Hin. by case_bool.
Qed.

Lemma page_type_below ab es lo p :
  32 <= ab <= 43 -> wf_from lo es -> p * 4096 < lo -> page_type es p = None.
Proof. intros Hab Hwf Hp. unfold page_type. by rewrite (tag_at_below lo). Qed.

(** Calls of an entry on pages of the later entries. *)
Lemma entry_calls_later ab def r rest p t :
  32 <= ab <= 43 -> page_entry ab r -> Forall (page_entry ab) rest ->
  wf_from (r_end r + 1) rest -> RANGE_1MB <= p -> end_page r <= p ->
  covered (entry_calls true def r (head rest)) p t ->
  def = MTRR_TYPE_UNCACHEABLE /\ (rest <> [] -> covered (entry_calls true def r (head rest)) p def) /\
  forall T, page_type rest p = Some T -> T = def.
Proof.
  intros Hab Hr Hf Hwf Hp Hpe Hc.
  assert (Hd : range_entry_mtrr_type r <> def).
  { intros He. unfold entry_calls in Hc. rewrite (proj2 (Z.eqb_eq _ _) He) in Hc.
    by apply covered_nil in Hc. }
  destruct (entry_calls_ok ab def r (head rest) Hab Hr (next_ok ab r rest Hr Hf Hwf) Hd)
    as (_ & b2 & Hb2 & Hext & Hcov & _).
  destruct (Hcov p t Hp Hc) as [[? _]|[Hpb _]]; [lia|].
  destruct Hext as [?|(Hdef & Hnext)]; [lia|]. split; [done|].
  destruct rest as [|n rest]; simpl in Hnext; [split; [done|intros T HT; discriminate]|].
  destruct Hnext as (Hnt & Hbn & Hcd). split; [intros _; apply Hcd; lia|].
  intros T HT. apply Forall_cons in Hf as [Hn Hf].
  rewrite (page_type_cons ab) in HT by done. destruct Hwf as (Hlo & _ & Hwf).
  destruct ((first_page n <=? p) && (p <? end_page n)); [by injection HT as <-|].
  destruct (proj1 (proj2 Hn)) as [q Hq]. unfold end_page in Hbn. rewrite Hq, Z.div_mul in Hbn by lia.
  rewrite (page_type_below ab rest (r_end n + 1)) in HT by (done || lia). done.
Qed.

Lemma all_calls_match ab def es : forall lo,
  32 <= ab <= 43 -> Forall (page_entry ab) es -> wf_from lo es ->
  Forall (valid_call (2 ^ (ab - 12))) (all_calls true def es) /\
  calls_match es def (all_calls true def es).
Proof.
  induction es as [|r rest IH]; intros lo Hab Hf Hwf; simpl; [split; [constructor|done]|].
  apply Forall_cons in Hf as [Hr Hf]. destruct Hwf as (Hlo & H64 & Hwf).
  destruct (IH _ Hab Hf Hwf) as [Hv Hm]. clear IH.
  assert (Hself : range_entry_mtrr_type r <> def ->
    entry_ok (2 ^ (ab - 12)) def r (head rest) (entry_calls true def r (head rest))).
  { intros Hd. apply entry_calls_ok; try done. by apply next_ok. }
  split.
  { apply Forall_app. split; [|done]. destruct (Z.eq_dec (range_entry_mtrr_type r) def) as [He|Hd].
    - unfold entry_calls. rewrite (proj2 (Z.eqb_eq _ _) He). constructor.
    - by destruct (Hself Hd). }
  intros p T Hp HT. rewrite (page_type_cons ab) in HT by done.
  assert (Habove : forall t, covered (all_calls true def rest) p t -> end_page r <= p).
  { intros t Hc. pose proof (all_calls_above ab def rest _ p t Hab Hf Hwf Hp Hc).
    destruct (proj1 (proj2 Hr)) as [q Hq]. unfold end_page. rewrite Hq, Z.div_mul by lia. lia. }
  destruct (page_entry_addrs ab r Hab Hr) as (_ & _ & H1 & _).
  destruct ((first_page r <=? p) && (p <? end_page r)) eqn:Hin.
  - injection HT as <-. bool_to_prop. setoid_rewrite covered_app. split.
    + intros Hd. destruct (Hself Hd) as (_ & b2 & Hb2 & _ & Hcov & Hown). split; [left; auto|].
      intros t [Hc|Hc]; [|apply Habove in Hc; lia].
      destruct (Hcov p t Hp Hc) as [[_ ?]|[? _]]; [done|lia].
    + intros Hd t [Hc|Hc]; [|apply Habove in Hc; lia].
      unfold entry_calls in Hc. rewrite (proj2 (Z.eqb_eq _ _) Hd) in Hc. by apply covered_nil in Hc.
  - assert (Hge : end_page r <= p).
    { destruct (Z.le_gt_cases (end_page r) p) as [|Hlt]; [done|]. exfalso.
      destruct (proj1 (proj2 Hr)) as [q Hq]. unfold end_page in Hlt. rewrite Hq, Z.div_mul in Hlt by lia.
      rewrite (page_type_below ab rest (r_end r + 1)) in HT by (done || lia). done. }
    destruct (Hm p T Hp HT) as [M1 M2]. setoid_rewrite covered_app. split.
    + intros Hd. destruct (M1 Hd) as [M1a M1b]. split; [by right|].
      intros t [Hc|Hc]; [|by apply M1b]. exfalso. apply Hd.
      by apply (entry_calls_later ab def r rest p t).
    + intros Hd t [Hc|Hc]; [|destruct (M2 Hd t Hc); split; [done|by right]].
      destruct (entry_calls_later ab def r rest p t) as (E1 & E2 & _); try done.
      split; [done|left]. apply E2. by intros ->.
Qed.

(** ** Lemmas: the pushed blocks, and what the registers give *)

Lemma range_blocks_tile base size :
  0 <= base -> 0 <= size < 2 ^ 32 -> base + size <= 2 ^ 32 -> base < 2 ^ 32 ->
  tiles base size (blocks 64 base size).
Proof.
  intros Hb Hs Hbs Hb'. rewrite <- (u32_small base) at 2 by lia. apply blocks_tile; try lia.
  intros _. pose proof (rounds_bounds base size ltac:(lia) ltac:(lia)). lia.
Qed.

Lemma call_blocks_cover m c p t :
  m <= 2 ^ 31 -> valid_call m c ->
  ((exists b s, (b, s, t) ∈ call_blocks c /\ b <= p < b + s) <-> covered [c] p t).
Proof.
  destruct c as [[base size] t0]. intros Hm (Hb & Hs & Hbs & Ht). cbn [fst snd call_blocks] in *.
  rewrite covered_cons, covered_nil.
  pose proof (range_blocks_tile base size ltac:(lia) ltac:(lia) ltac:(lia) ltac:(lia)) as Htile.
  pose proof (tiles_cover _ _ _ p Htile Hs) as Hcov. unfold range_blocks. split.
  - intros (b & s & Hin & Hp). apply elem_of_map in Hin as ([b' s'] & [= -> -> ->] & Hin).
    left. split; [done|]. apply Hcov. eauto.
  - intros [[-> Hp]|[]]. apply Hcov in Hp as (b & s & Hin & Hp).
    exists b, s. split; [|done]. apply elem_of_map. by exists (b, s).
Qed.

Lemma blocks_cover m cs p t :
  m <= 2 ^ 31 -> Forall (valid_call m) cs ->
  ((exists b s, (b, s, t) ∈ flat_map call_blocks cs /\ b <= p < b + s) <-> covered cs p t).
Proof.
  intros Hm. induction 1 as [|c cs Hc _ IH]; cbn [flat_map].
  - rewrite covered_nil. split; [intros (?&?&H&_); by apply not_elem_of_nil in H|done].
  - change (c :: cs) with ([c] ++ cs). rewrite covered_app, <- IH, <- (call_blocks_cover m) by done.
    setoid_rewrite elem_of_app. split.
    + intros (b & s & [H|H] & Hp); [left|right]; eauto.
    + intros [(b & s & H & Hp)|(b & s & H & Hp)]; eauto 10.
Qed.

Definition good_block (m : Z) (c : block) : Prop :=
  let '(b, s, t) := c in
  0 <= b /\ b + s <= m /\ 0 <= t < 256 /\ exists k, 0 <= k /\ s = 2 ^ k /\ (2 ^ k | b).

Lemma blocks_good m cs :
  m <= 2 ^ 31 -> Forall (valid_call m) cs -> Forall (good_block m) (flat_map call_blocks cs).
Proof.
  intros Hm. induction 1 as [|[[base size] t0] cs (Hb & Hs & Hbs & Ht) _ IH]; [constructor|].
  cbn [flat_map call_blocks fst snd] in *. unfold range_blocks.
  apply Forall_app. split; [|done]. apply Forall_forall. intros [[b s] t] Hin.
  apply elem_of_map in Hin as ([b' s'] & [= -> -> ->] & Hin).
  pose proof (range_blocks_tile base size ltac:(lia) ltac:(lia) ltac:(lia) ltac:(lia)) as Htile.
  destruct (tiles_inv _ _ _ _ _ Htile Hin) as (? & ? & k & Hk & ? & ?).
  unfold good_block. split; [lia|]. split; [lia|]. split; [lia|]. exists k. repeat split; try done; lia.
Qed.

(** The architecture's precedence between the variable MTRRs that match: UC
    wins, equal types agree, write-through wins over write-back; anything
    else is undefined.  No match: the default type. *)
Definition matching_types (l : list var_mtrr_regs) (a : Z) : list Z :=
  map mtrr_type_of (List.filter (fun r => mtrr_match r a) l).

Definition combine_types (def : Z) (ts : list Z) : option Z :=
  match ts with
  | [] => Some def
  | t :: ts' =>
      if existsb (Z.eqb MTRR_TYPE_UNCACHEABLE) ts then Some MTRR_TYPE_UNCACHEABLE
      else if forallb (Z.eqb t) ts' then Some t
      else if forallb (fun x => (x =? 4) || (x =? MTRR_TYPE_WRBACK)) ts then Some 4
      else None
  end.

Definition effective (def : Z) (l : list var_mtrr_regs) (a : Z) : option Z :=
  combine_types def (matching_types l a).

Lemma combine_types_all def ts T :
  ts <> [] -> Forall (fun t => t = T) ts -> combine_types def ts = Some T.
Proof.
  intros Hne Hf. destruct ts as [|t ts]; [done|]. apply Forall_cons in Hf as [-> Hf].
  unfold combine_types. case_bool.
  - apply existsb_exists in E as (x & Hx & Hxe). bool_to_prop. subst x.
    apply list_elem_of_In in Hx. apply elem_of_cons in Hx as [->|Hx]; [done|].
    by rewrite <- (proj1 (Forall_forall _ _) Hf _ Hx).
  - replace (forallb (Z.eqb T) ts) with true; [done|]. symmetry. apply forallb_forall.
    intros x Hx. apply Z.eqb_eq. symmetry.
    apply (proj1 (Forall_forall _ _) Hf). by apply list_elem_of_In.
Qed.

Lemma combine_types_uc def ts :
  MTRR_TYPE_UNCACHEABLE ∈ ts -> combine_types def ts = Some MTRR_TYPE_UNCACHEABLE.
Proof.
  intros Hin. destruct ts as [|t ts]; [by apply not_elem_of_nil in Hin|].
  unfold combine_types. replace (existsb _ (t :: ts)) with true; [done|].
  symmetry. apply existsb_exists. exists MTRR_TYPE_UNCACHEABLE.
  split; [by apply list_elem_of_In|by rewrite Z.eqb_refl].
Qed.

(** Entries are whole pages: the tag of an address is its page's. *)
Lemma tag_at_page ab es a :
  32 <= ab <= 43 -> Forall (page_entry ab) es -> tag_at es a = tag_at es (a / 4096 * 4096).
Proof.
  intros Hab. induction 1 as [|r es Hr _ IH]; simpl; [done|]. rewrite IH.
  destruct Hr as ([q Hq] & [q' Hq'] & _). unfold in_range.
  replace ((r_begin r <=? a) && (a <=? r_end r)) with
    ((r_begin r <=? a / 4096 * 4096) && (a / 4096 * 4096 <=? r_end r)); [done|].
  apply eq_true_iff_eq. rewrite !andb_true_iff, !Z.leb_le.
  Z.to_euclidean_division_equations. lia.
Qed.

Definition block_value (ab : Z) (b : block) : var_mtrr_regs :=
  var_mtrr_value ab (fst (fst b)) (snd (fst b)) (snd b).

(** The solution's registers are the values of the blocks, in order. *)
Lemma prepare_regs total m def ab sol :
  let l := flat_map call_blocks (all_calls true def (entries m)) in
  let sol' := prepare_var_mtrrs total m def true ab sol in
  num_used sol' = Z.of_nat (length l) /\
  length (sol_regs sol') = length (sol_regs sol) /\
  (num_used sol' <= total <= Z.of_nat (length (sol_regs sol)) ->
   take (Z.to_nat (num_used sol')) (sol_regs sol') =
     map (block_value ab) l).
Proof.
  intros l sol'. unfold sol', prepare_var_mtrrs. cbv zeta. simpl num_used. simpl sol_regs.
  set (v0 := mk_var_state true ab true 0 def (sol_regs sol)).
  replace (prepare_loop total def v0 (entries m)) with (push_all total v0 l)
    by (symmetry; apply (prepare_loop_calls total (entries m) v0)).
  destruct (push_all_fields total l v0) as (_ & _ & _ & _ & E5 & E6).
  rewrite E5, E6. change (mtrr_index v0) with 0. split; [lia|]. split; [done|].
  intros [H1 H2]. rewrite (push_all_regs total l v0) by (simpl; auto; lia).
  change (mtrr_index v0) with 0. rewrite Z.add_0_l, Nat2Z.id. cbn [Z.to_nat take app].
  change (take (Z.to_nat 0) (regs v0)) with (@nil var_mtrr_regs). cbn [app].
  apply take_app_length'. by rewrite length_map.
Qed.

(** Registers built from good blocks: the types that match an address are
    those of the blocks over its page. *)
Lemma matching_types_blocks ab l a t :
  32 <= ab <= 43 -> Forall (good_block (2 ^ (ab - 12))) l -> 0 <= a < 2 ^ ab ->
  (t ∈ matching_types
    (map (block_value ab) l) a <->
   exists b s, (b, s, t) ∈ l /\ b <= a / 4096 < b + s).
Proof.
  intros Hab Hf Ha. rewrite Forall_forall in Hf. unfold matching_types.
  assert (Hval : forall b s t, (b, s, t) ∈ l ->
    mtrr_match (var_mtrr_value ab b s t) a = (b <=? a / 4096) && (a / 4096 <? b + s) /\
    mtrr_type_of (var_mtrr_value ab b s t) = t).
  { intros b s t' Hin. destruct (Hf _ Hin) as (? & ? & ? & k & ? & -> & ?).
    apply var_mtrr_value_match; try done; lia. }
  rewrite elem_of_map. setoid_rewrite elem_of_filter_bool. setoid_rewrite elem_of_map. split.
  - intros (r & -> & ([[b s] t'] & -> & Hin) & Hm). unfold block_value in *. cbn [fst snd] in *.
    destruct (Hval b s t' Hin) as [Hv Ht]. rewrite Hv in Hm. rewrite Ht.
    bool_to_prop. eauto.
  - intros (b & s & Hin & Hp). destruct (Hval b s t Hin) as [Hv Ht].
    exists (block_value ab (b, s, t)). unfold block_value. cbn [fst snd]. split; [by rewrite Ht|].
    split; [by exists (b, s, t)|].
    rewrite Hv. apply andb_true_iff. rewrite Z.leb_le, Z.ltb_lt. lia.
Qed.

(** What a caller of the variable-MTRR code may assume of the address space:
    [get_physical_address_space] yields whole pages. *)
Definition mtrr_space (ab : Z) (m : memranges) : Prop :=
  wf m /\ Forall (page_entry ab) (entries m).

(** When the solution fits the registers, the register values
    [prepare_var_mtrrs] computes give every address from 1 MiB up that lies in
    an entry exactly the entry's cache type, under the processor's matching
    and precedence rules (overlaps are only ever UC over another type). *)
Lemma prepare_effective total m def ab sol a tag :
  32 <= ab <= 43 -> mtrr_space ab m ->
  let sol' := prepare_var_mtrrs total m def true ab sol in
  num_used sol' <= total <= Z.of_nat (length (sol_regs sol)) ->
  0x100000 <= a < 2 ^ ab -> tag_at (entries m) a = Some tag ->
  effective def (take (Z.to_nat (num_used sol')) (sol_regs sol')) a =
    Some (Z.land tag MTRR_TAG_MASK).
Proof.
  intros Hab [Hwf Hf] sol' Hfit Ha Htag.
  destruct (prepare_regs total m def ab sol) as (_ & _ & Hregs). fold sol' in Hregs.
  rewrite Hregs by done. clear Hregs Hfit sol'.
  destruct (all_calls_match ab def (entries m) 0 Hab Hf Hwf) as [Hv Hm].
  assert (H31 : 2 ^ (ab - 12) <= 2 ^ 31) by (apply Z.pow_le_mono_r; lia).
  set (cs := all_calls true def (entries m)) in *. set (l := flat_map call_blocks cs).
  pose proof (blocks_good _ cs H31 Hv) as Hgood. fold l in Hgood.
  assert (Hmt : forall t, t ∈ matching_types (map (block_value ab) l) a <-> covered cs (a / 4096) t).
  { intros t. rewrite (matching_types_blocks ab) by (done || lia). by apply (blocks_cover _ _ _ _ H31). }
  assert (Hpt : page_type (entries m) (a / 4096) = Some (Z.land tag MTRR_TAG_MASK)).
  { unfold page_type. by rewrite <- (tag_at_page ab), Htag. }
  assert (H1m : RANGE_1MB <= a / 4096)
    by (change RANGE_1MB with 256; apply Z.div_le_lower_bound; lia).
  destruct (Hm _ _ H1m Hpt) as [M1 M2].
  set (T := Z.land tag MTRR_TAG_MASK) in *. unfold effective.
  destruct (Z.eq_dec T def) as [He|Hne].
  - destruct (matching_types (map (block_value ab) l) a) as [|t ts] eqn:E; [by rewrite He|]. rewrite <- E in *.
    destruct (M2 He t) as [Hdef Hc]; [apply Hmt; rewrite E; apply elem_of_cons; by left|].
    rewrite He, Hdef. apply combine_types_uc. rewrite <- Hdef. by apply Hmt.
  - destruct (M1 Hne) as [Hc Hall]. apply combine_types_all.
    + intros E. apply Hmt in Hc. rewrite E in Hc. by apply not_elem_of_nil in Hc.
    + apply Forall_forall. intros t Ht. apply Hall. by apply Hmt.
Qed.

(** ** The commit: what the MSRs hold afterwards, and when they are written *)

Definition hw_reg (s : mtrr_state) (i : Z) : var_mtrr_regs :=
  mk_regs (rdmsr s (MTRR_PHYS_BASE i)) (rdmsr s (MTRR_PHYS_MASK i)).

Definition hw_regs (s : mtrr_state) : list var_mtrr_regs :=
  map (fun i => hw_reg s (Z.of_nat i)) (seq 0 (Z.to_nat (total_mtrrs s))).

Definition is_wrmsr (e : event) : Prop := match e with EvWrmsr _ _ => True | _ => False end.

(** [s'] differs from [s] by MSR writes to the registers [i .. i+n-1] only. *)
Definition only_writes (i n : Z) (s s' : mtrr_state) : Prop :=
  (forall j, j < MTRR_PHYS_BASE i \/ MTRR_PHYS_BASE (i + n) <= j -> msrs s' j = msrs s j) /\
  (exists ws, trace s' = trace s ++ ws /\ Forall is_wrmsr ws) /\
  total_mtrrs s' = total_mtrrs s.

Lemma only_writes_pair i b m s :
  only_writes i 1 s (wrmsr (MTRR_PHYS_MASK i) m (wrmsr (MTRR_PHYS_BASE i) b s)) /\
  hw_reg (wrmsr (MTRR_PHYS_MASK i) m (wrmsr (MTRR_PHYS_BASE i) b s)) i = mk_regs b m.
Proof.
  unfold only_writes, hw_reg, rdmsr, wrmsr, emit, MTRR_PHYS_MASK, MTRR_PHYS_BASE. simpl.
  split; [split; [|split]|].
  - intros j Hj. rewrite !(proj2 (Z.eqb_neq _ _)) by lia. done.
  - eexists. rewrite <- app_assoc. split; [done|]. simpl. repeat constructor.
  - done.
  - rewrite !Z.eqb_refl, (proj2 (Z.eqb_neq _ _)) by lia. done.
Qed.

Lemma only_writes_trans i n k s1 s2 s3 :
  0 <= n -> 0 <= k ->
  only_writes i n s1 s2 -> only_writes (i + n) k s2 s3 -> only_writes i (n + k) s1 s3.
Proof.
  intros Hn Hk (A1 & (w1 & T1 & F1) & N1) (A2 & (w2 & T2 & F2) & N2).
  unfold only_writes, MTRR_PHYS_BASE in *. split; [|split].
  - intros j Hj. rewrite A2 by lia. apply A1. lia.
  - exists (w1 ++ w2). rewrite T2, T1, app_assoc. split; [done|]. by apply Forall_app.
  - congruence.
Qed.

Lemma only_writes_below i n s s' k :
  only_writes i n s s' -> k < i -> hw_reg s' k = hw_reg s k.
Proof.
  intros (A & _) Hk. unfold hw_reg, rdmsr, MTRR_PHYS_MASK, MTRR_PHYS_BASE in *.
  by rewrite !A by lia.
Qed.

Lemma write_regs_spec n : forall i l s,
  (n <= length l)%nat ->
  exists s', write_regs n i l s = Some s' /\ only_writes i (Z.of_nat n) s s' /\
    map (fun k => hw_reg s' (i + Z.of_nat k)) (seq 0 n) = take n l.
Proof.
  induction n as [|n IH]; intros i l s Hl; simpl.
  { exists s. repeat split. exists []. by rewrite app_nil_r. }
  destruct l as [|[b m] l]; simpl in *; [lia|].
  set (s1 := wrmsr _ m _). destruct (only_writes_pair i b m s) as [P1 P2]. fold s1 in P1, P2.
  destruct (IH (i + 1) l s1 ltac:(lia)) as (s' & -> & W & Hm). exists s'. split; [done|]. split.
  - replace (Z.of_nat (S n)) with (1 + Z.of_nat n) by lia.
    apply (only_writes_trans _ _ _ _ s1); try done; lia.
  - rewrite Z.add_0_r, (only_writes_below _ _ _ _ _ W) by lia. f_equal; [done|].
    rewrite <- Hm, <- seq_shift, map_map. apply map_ext. intros k. f_equal. lia.
Qed.

Lemma clear_regs_spec n : forall i s,
  only_writes i (Z.of_nat n) s (clear_regs n i s) /\
  map (fun k => hw_reg (clear_regs n i s) (i + Z.of_nat k)) (seq 0 n) = repeat zero_regs n.
Proof.
  induction n as [|n IH]; intros i s; simpl.
  { split; [|done]. repeat split. exists []. by rewrite app_nil_r. }
  destruct (only_writes_pair i zero_msr zero_msr s) as [P1 P2].
  fold (clear_var_mtrr i s) in P1, P2. destruct (IH (i + 1) (clear_var_mtrr i s)) as [W Hm]. split.
  - replace (Z.of_nat (S n)) with (1 + Z.of_nat n) by lia.
    apply (only_writes_trans _ _ _ _ (clear_var_mtrr i s)); try done; lia.
  - rewrite Z.add_0_r, (only_writes_below _ _ _ _ _ W) by lia. f_equal; [done|].
    rewrite <- Hm, <- seq_shift, map_map. apply map_ext. intros k. f_equal. lia.
Qed.

Lemma hw_regs_split n k s s1 s2 l :
  only_writes 0 (Z.of_nat n) s s1 -> only_writes (Z.of_nat n) (Z.of_nat k) s1 s2 ->
  map (fun j => hw_reg s1 (0 + Z.of_nat j)) (seq 0 n) = l ->
  map (fun j => hw_reg s2 (Z.of_nat n + Z.of_nat j)) (seq 0 k) = repeat zero_regs k ->
  map (fun j => hw_reg s2 (Z.of_nat j)) (seq 0 (n + k)) = l ++ repeat zero_regs k.
Proof.
  intros W1 W2 M1 M2. rewrite seq_app, map_app. f_equal.
  - rewrite <- M1. apply map_ext_in. intros j Hj%in_seq.
    by rewrite (only_writes_below _ _ _ _ _ W2) by lia.
  - rewrite <- M2. replace (seq (0 + n) k) with (map (Nat.add n) (seq 0 k)).
    + rewrite map_map. apply map_ext. intros j. f_equal. lia.
    + change (map (Nat.add n) (seq 0 k)) with (Nat.add n <$> seq 0 k).
      rewrite fmap_add_seq. f_equal. lia.
Qed.

Lemma commit_spec sol s :
  0 <= num_used sol <= total_mtrrs s -> total_mtrrs s <= NUM_MTRR_STATIC_STORAGE ->
  num_used sol <= Z.of_nat (length (sol_regs sol)) ->
  exists s', commit_var_mtrrs sol s = Some s' /\
    hw_regs s' = take (Z.to_nat (num_used sol)) (sol_regs sol) ++
                 repeat zero_regs (Z.to_nat (total_mtrrs s - num_used sol)) /\
    msr_lo (rdmsr s' MTRR_DEF_TYPE_MSR) =
      Z.lor (Z.land (msr_lo (rdmsr s MTRR_DEF_TYPE_MSR)) (bnot 32 0xff))
            (Z.lor MTRR_DEF_TYPE_EN (mtrr_default_type sol)) /\
    (forall j, j <> MTRR_DEF_TYPE_MSR -> j < MTRR_PHYS_BASE 0 \/ MTRR_PHYS_BASE (total_mtrrs s) <= j ->
       rdmsr s' j = rdmsr s j) /\
    exists ws, trace s' = trace s ++ [EvDisableCache] ++ ws ++ [EvEnableCache] /\
      Forall is_wrmsr ws.
Proof.
  intros Hn Ht Hl. unfold commit_var_mtrrs. change NUM_MTRR_STATIC_STORAGE with 16 in Ht.
  set (n := Z.to_nat (num_used sol)).
  destruct (write_regs_spec n 0 (sol_regs sol) (disable_cache s) ltac:(lia)) as (s1 & -> & W1 & M1).
  replace (total_mtrrs s1) with (total_mtrrs s) by (symmetry; apply W1).
  assert (Hnn : num_used sol = Z.of_nat n) by (unfold n; lia). rewrite Hnn in Hn |- *.
  set (k := Z.to_nat (total_mtrrs s - Z.of_nat n)).
  assert (Hnk : Z.of_nat n + Z.of_nat k = total_mtrrs s) by (unfold k; lia).
  destruct (clear_regs_spec k (Z.of_nat n) s1) as [W2 M2].
  set (s2 := clear_regs k (Z.of_nat n) s1) in *. eexists. split; [done|].
  pose proof (only_writes_trans 0 (Z.of_nat n) (Z.of_nat k) _ _ _ ltac:(lia) ltac:(lia) W1 W2) as W.
  destruct W as (Wm & (ws & Wt & Wf) & Wn). unfold MTRR_PHYS_BASE in Wm. cbn in Wn.
  split; [|split; [|split]].
  - rewrite <- (hw_regs_split n k _ _ _ _ W1 W2 M1 M2). unfold hw_regs. cbn [total_mtrrs emit enable_cache enable_var_mtrr wrmsr].
    rewrite Wn. replace (Z.to_nat (total_mtrrs s)) with (n + k)%nat by lia.
    apply map_ext_in. intros j Hj%in_seq. unfold hw_reg, rdmsr, MTRR_PHYS_MASK, MTRR_PHYS_BASE.
    cbn. unfold MTRR_DEF_TYPE_MSR. rewrite !(proj2 (Z.eqb_neq _ _)) by lia. done.
  - assert (Hdef : msrs s2 MTRR_DEF_TYPE_MSR = msrs s MTRR_DEF_TYPE_MSR).
    { apply Wm. unfold MTRR_DEF_TYPE_MSR. lia. }
    unfold rdmsr. cbn -[MTRR_DEF_TYPE_MSR Z.land Z.lor]. rewrite Z.eqb_refl. unfold rdmsr. cbn. by rewrite Hdef.
  - intros j Hj Hr. unfold rdmsr. cbn. rewrite (proj2 (Z.eqb_neq _ _)) by done.
    rewrite Wm by (unfold MTRR_PHYS_BASE in *; lia). done.
  - cbn. rewrite Wt. cbn. eexists (ws ++ [_]). rewrite <- !app_assoc. split; [done|].
    apply Forall_app. split; [done|by repeat constructor].
Qed.

(** ** The whole of [x86_setup_var_mtrrs] *)

(** [calc_var_mtrrs] rewrites tags: it may add the hole flag, and fall back
    from WC to UC when both solutions are too large. *)
Definition type_kept (T T' : Z) : Prop :=
  T' = T \/ (T = MTRR_TYPE_WRCOMB /\ T' = MTRR_TYPE_UNCACHEABLE).

Definition types_kept (es es' : list range_entry) : Prop :=
  forall a tag, tag_at es a = Some tag ->
  exists tag', tag_at es' a = Some tag' /\
    type_kept (Z.land tag MTRR_TAG_MASK) (Z.land tag' MTRR_TAG_MASK).

Definition same_shape (r r' : range_entry) : Prop :=
  r_begin r' = r_begin r /\ r_end r' = r_end r /\ range_entry_mtrr_type r' = range_entry_mtrr_type r.

Lemma use_hole_type r : range_entry_mtrr_type
  (range_entry_update_tag r (Z.lor (range_entry_mtrr_type r) MTRR_RANGE_UC_USE_HOLE)) =
  range_entry_mtrr_type r.
Proof.
  unfold range_entry_update_tag, range_entry_mtrr_type, range_entry_tag. simpl r_tag.
  rewrite Z.land_lor_distr_l, <- Z.land_assoc, Z.land_diag.
  change (Z.land MTRR_RANGE_UC_USE_HOLE MTRR_TAG_MASK) with 0. apply Z.lor_0_r.
Qed.

Lemma calc_counts_shape total v es : forall wb uc,
  Forall2 same_shape es (fst (fst (calc_counts total v es wb uc))).
Proof.
  induction es as [|r rest IH]; intros wb uc; simpl; [constructor|].
  match goal with |- context [let '(_, _) := ?c in _] => destruct c as [r' uc'] eqn:E end.
  match goal with |- context [calc_counts total v rest ?wb' ?uc'] =>
    specialize (IH wb' uc'); destruct (calc_counts total v rest wb' uc') as [[rest' w] u] end.
  constructor; [|exact IH]. revert E.
  destruct (negb _); [|intros [= <- _]; by repeat split].
  destruct (_ <? _); intros [= <- _]; [by repeat split|].
  split; [done|]. split; [done|]. apply use_hole_type.
Qed.

Lemma same_shape_space ab es es' lo :
  Forall2 same_shape es es' -> wf_from lo es -> Forall (page_entry ab) es ->
  wf_from lo es' /\ Forall (page_entry ab) es' /\
  forall a tag, tag_at es a = Some tag ->
    exists tag', tag_at es' a = Some tag' /\ Z.land tag' MTRR_TAG_MASK = Z.land tag MTRR_TAG_MASK.
Proof.
  intros H. revert lo. induction H as [|r r' es es' (Hb & He & Ht) _ IH]; intros lo Hwf Hf; simpl.
  { repeat split; try constructor. done. }
  apply Forall_cons in Hf as [Hr Hf]. destruct Hwf as (Hlo & H64 & Hwf).
  destruct (IH _ Hwf Hf) as (W & F & T). rewrite Hb, He. split; [done|]. split.
  - apply Forall_cons. split; [|done]. unfold page_entry in *. by rewrite Hb, He.
  - intros a tag. unfold in_range. rewrite Hb, He. case_bool; [|apply T].
    intros [= <-]. exists (r_tag r'). split; [done|exact Ht].
Qed.

Lemma merge_loop_pages ab es : forall prev fl,
  Forall (page_entry ab) (prev :: es) -> wf_from (r_begin prev) (prev :: es) ->
  Forall (page_entry ab) (fst (merge_loop prev es fl)).
Proof.
  induction es as [|cur rest IH]; intros prev fl Hf Hwf; simpl; [done|].
  apply Forall_cons in Hf as [Hp Hf]. pose proof Hf as Hf'.
  apply Forall_cons in Hf as [Hc Hf]. destruct Hwf as (Hp1 & _ & Hc1 & Hc2 & Hwf).
  case_bool.
  - apply IH; [apply Forall_cons; split; [|done]|simpl; repeat split; try done; lia].
    destruct Hp as (P1 & _ & P2 & _), Hc as (_ & C1 & C2 & C3).
    split; [exact P1|]. split; [exact C1|]. simpl. lia.
  - destruct (merge_loop cur rest (fl)) as [es' fl'] eqn:M. simpl. apply Forall_cons. split; [done|].
    specialize (IH cur fl Hf'). rewrite M in IH. apply IH. simpl. repeat split; try done; lia.
Qed.

Lemma update_tag_space ab m t t' :
  mtrr_space ab m -> mtrr_space ab (memranges_update_tag m t t').
Proof.
  intros [Hwf Hf]. unfold memranges_update_tag.
  pose proof (wf_update_tags 0 (entries m) t t' Hwf) as W0.
  set (es := map _ (entries m)) in *.
  assert (Hf' : Forall (page_entry ab) es).
  { apply Forall_forall. intros r (r0 & -> & Hr0)%elem_of_map.
    pose proof (proj1 (Forall_forall _ _) Hf r0 Hr0). by case_bool. }
  destruct (merge_neighbor_entries_spec (mk_memranges es (free_list m)) W0) as (W & _ & _).
  split; [done|]. unfold merge_neighbor_entries in *. simpl in *.
  destruct es as [|first rest]; [done|].
  pose proof (merge_loop_pages ab rest first (free_list m) Hf') as Hp.
  destruct (merge_loop first rest (free_list m)) as [es' fl']. apply Hp.
  simpl in W0 |- *. repeat split; try lia; apply W0.
Qed.

Lemma update_tag_types m :
  wf m -> types_kept (entries m)
    (entries (memranges_update_tag m MTRR_TYPE_WRCOMB MTRR_TYPE_UNCACHEABLE)).
Proof.
  intros Hwf a tag Ht. unfold memranges_update_tag.
  destruct (merge_neighbor_entries_spec (mk_memranges _ (free_list m))
    (wf_update_tags 0 (entries m) MTRR_TYPE_WRCOMB MTRR_TYPE_UNCACHEABLE Hwf)) as (_ & _ & T).
  rewrite T. simpl. rewrite tag_at_update_tags, Ht. eexists. split; [done|].
  unfold type_kept. case_bool; bool_to_prop; [right; by subst|by left].
Qed.

Lemma types_kept_trans es1 es2 es3 :
  (forall a tag, tag_at es1 a = Some tag ->
     exists tag', tag_at es2 a = Some tag' /\ Z.land tag' MTRR_TAG_MASK = Z.land tag MTRR_TAG_MASK) ->
  types_kept es2 es3 -> types_kept es1 es3.
Proof.
  intros H1 H2 a tag Ht. destruct (H1 a tag Ht) as (tag' & Ht' & He).
  destruct (H2 a tag' Ht') as (tag'' & Ht'' & Hk). exists tag''. by rewrite <- He.
Qed.

Lemma types_kept_mask es1 es2 es3 :
  types_kept es1 es2 ->
  (forall a tag, tag_at es2 a = Some tag ->
     exists tag', tag_at es3 a = Some tag' /\ Z.land tag' MTRR_TAG_MASK = Z.land tag MTRR_TAG_MASK) ->
  types_kept es1 es3.
Proof.
  intros H1 H2 a tag Ht. destruct (H1 a tag Ht) as (tag' & Ht' & Hk).
  destruct (H2 a tag' Ht') as (tag'' & Ht'' & He). exists tag''. by rewrite He.
Qed.

Lemma types_kept_refl es : types_kept es es.
Proof. intros a tag Ht. exists tag. split; [done|by left]. Qed.

Lemma calc_counts_space total ab m above :
  mtrr_space ab m ->
  let m' := fst (fst (calc_var_mtrrs_counts total m above ab)) in
  mtrr_space ab m' /\
  forall a tag, tag_at (entries m) a = Some tag ->
    exists tag', tag_at (entries m') a = Some tag' /\
      Z.land tag' MTRR_TAG_MASK = Z.land tag MTRR_TAG_MASK.
Proof.
  intros [Hwf Hf]. unfold calc_var_mtrrs_counts.
  match goal with |- context [calc_counts total ?v ?es ?w ?u] =>
    pose proof (calc_counts_shape total v es w u) as Hs;
    destruct (calc_counts total v es w u) as [[es' w'] u'] end.
  destruct (same_shape_space ab _ _ 0 Hs Hwf Hf) as (W & F & T). done.
Qed.

(** [calc_var_mtrrs] keeps the address space and chooses UC or WB. *)
Lemma calc_var_mtrrs_space total bios ab m above :
  mtrr_space ab m ->
  let p := calc_var_mtrrs total bios m above ab in
  mtrr_space ab (fst p) /\ types_kept (entries m) (entries (fst p)) /\
  (snd p = MTRR_TYPE_WRBACK \/ snd p = MTRR_TYPE_UNCACHEABLE).
Proof.
  intros Hm. unfold calc_var_mtrrs.
  destruct (calc_counts_space total ab m above Hm) as [S1 T1].
  destruct (calc_var_mtrrs_counts total m above ab) as [[m1 wb] uc]. cbn [fst] in *.
  destruct ((bios <? wb) && (bios <? uc)).
  - pose proof (update_tag_space ab m1 MTRR_TYPE_WRCOMB MTRR_TYPE_UNCACHEABLE S1) as S2.
    pose proof (update_tag_types m1 (proj1 S1)) as T2.
    destruct (calc_counts_space total ab _ above S2) as [S3 T3].
    destruct (calc_var_mtrrs_counts total _ above ab) as [[m3 wb3] uc3]. cbn [fst snd] in *.
    split; [done|]. split; [|by case_bool; auto].
    apply (types_kept_trans _ (entries m1)); [done|]. by eapply types_kept_mask.
  - cbn [fst snd]. split; [done|]. split; [|by case_bool; auto].
    apply (types_kept_trans _ (entries m1)); [done|]. apply types_kept_refl.
Qed.

Lemma effective_app_zero def l n a : effective def (l ++ repeat zero_regs n) a = effective def l a.
Proof.
  unfold effective, matching_types. f_equal. f_equal. rewrite List.filter_app.
  replace (List.filter (fun r => mtrr_match r a) (repeat zero_regs n)) with (@nil var_mtrr_regs);
    [by rewrite app_nil_r|]. induction n; simpl; done.
Qed.

(** The solution the first call of [x86_setup_var_mtrrs] computes. *)
Definition planned_solution (s : mtrr_state) (a : memranges) (ab : Z) : memranges * var_mtrr_solution :=
  let '(m, def) := calc_var_mtrrs (total_mtrrs s) (bios_mtrrs s) a true ab in
  (m, prepare_var_mtrrs (total_mtrrs s) m def true ab
        (with_default_type def (mtrr_global_solution s))).

Lemma effective_planned s sp ab a tag :
  32 <= ab <= 43 -> mtrr_space ab sp ->
  total_mtrrs s <= Z.of_nat (length (sol_regs (mtrr_global_solution s))) ->
  let sol := snd (planned_solution s sp ab) in
  num_used sol <= total_mtrrs s ->
  0x100000 <= a < 2 ^ ab -> tag_at (entries sp) a = Some tag ->
  exists T, type_kept (Z.land tag MTRR_TAG_MASK) T /\
    effective (mtrr_default_type sol) (take (Z.to_nat (num_used sol)) (sol_regs sol)) a = Some T.
Proof.
  intros Hab Hsp Hl. unfold planned_solution.
  destruct (calc_var_mtrrs_space (total_mtrrs s) (bios_mtrrs s) ab sp true Hsp) as (S & T & _).
  destruct (calc_var_mtrrs _ _ sp true ab) as [m def]. cbn [fst snd] in *. intros Hn Ha Ht.
  destruct (T a tag Ht) as (tag' & Ht' & Hk). eexists. split; [exact Hk|].
  apply (prepare_effective (total_mtrrs s) m def ab _ a tag'); done.
Qed.

Lemma planned_facts s sp ab :
  mtrr_space ab sp ->
  let sol := snd (planned_solution s sp ab) in
  0 <= num_used sol /\
  length (sol_regs sol) = length (sol_regs (mtrr_global_solution s)) /\
  (mtrr_default_type sol = MTRR_TYPE_WRBACK \/ mtrr_default_type sol = MTRR_TYPE_UNCACHEABLE).
Proof.
  intros Hsp. unfold planned_solution.
  destruct (calc_var_mtrrs_space (total_mtrrs s) (bios_mtrrs s) ab sp true Hsp) as (_ & _ & D).
  destruct (calc_var_mtrrs _ _ sp true ab) as [m def]. cbn [fst snd] in *.
  destruct (prepare_regs (total_mtrrs s) m def ab (with_default_type def (mtrr_global_solution s)))
    as (N & L & _). rewrite N, L. split; [lia|]. by split.
Qed.

(** A solution that fits is committed with the cache disabled:
    between the disable and the enable there are only MSR writes; afterwards
    the variable MTRRs are the solution's registers followed by cleared ones,
    the default-type MSR holds the solution's type with the enable bit set,
    and every MSR outside these is unchanged. *)
Theorem commit_var_mtrrs_correct sol s :
  0 <= num_used sol <= total_mtrrs s -> total_mtrrs s <= NUM_MTRR_STATIC_STORAGE ->
  num_used sol <= Z.of_nat (length (sol_regs sol)) ->
  exists s', commit_var_mtrrs sol s = Some s' /\
    hw_regs s' = take (Z.to_nat (num_used sol)) (sol_regs sol) ++
                 repeat zero_regs (Z.to_nat (total_mtrrs s - num_used sol)) /\
    msr_lo (rdmsr s' MTRR_DEF_TYPE_MSR) =
      Z.lor (Z.land (msr_lo (rdmsr s MTRR_DEF_TYPE_MSR)) (bnot 32 0xff))
            (Z.lor MTRR_DEF_TYPE_EN (mtrr_default_type sol)) /\
    (forall j, j <> MTRR_DEF_TYPE_MSR -> j < MTRR_PHYS_BASE 0 \/ MTRR_PHYS_BASE (total_mtrrs s) <= j ->
       rdmsr s' j = rdmsr s j) /\
    exists ws, trace s' = trace s ++ [EvDisableCache] ++ ws ++ [EvEnableCache] /\
      Forall is_wrmsr ws.
Proof. apply commit_spec. Qed.

Lemma def_type_byte lo d :
  d = MTRR_TYPE_WRBACK \/ d = MTRR_TYPE_UNCACHEABLE ->
  Z.land (Z.lor (Z.land lo (bnot 32 0xff)) (Z.lor MTRR_DEF_TYPE_EN d)) 0xff = d.
Proof.
  intros Hd. rewrite Z.land_lor_distr_l, <- Z.land_assoc.
  change (Z.land (bnot 32 0xff) 0xff) with 0. rewrite Z.land_0_r, Z.lor_0_l.
  by destruct Hd as [-> | ->].
Qed.

(** C1.  End to end: the first [x86_setup_var_mtrrs] whose solution
    fits the processor's registers leaves MSRs under which every address from
    1 MiB up to the physical limit has the cache type its address-space entry
    asks for, or UC where the entry asks for WC and the code gave WC up. *)
Theorem x86_setup_var_mtrrs_correct st s sp ab :
  32 <= ab <= 43 -> addr_space s = Some sp -> mtrr_space ab sp -> sol_ready s = false ->
  total_mtrrs s <= NUM_MTRR_STATIC_STORAGE <= Z.of_nat (length (sol_regs (mtrr_global_solution s))) ->
  num_used (snd (planned_solution s sp ab)) <= total_mtrrs s ->
  exists s', x86_setup_var_mtrrs st ab true s = Some s' /\
    forall a tag, 0x100000 <= a < 2 ^ ab -> tag_at (entries sp) a = Some tag ->
    exists T, type_kept (Z.land tag MTRR_TAG_MASK) T /\
      effective (Z.land (msr_lo (rdmsr s' MTRR_DEF_TYPE_MSR)) 0xff) (hw_regs s') a = Some T.
Proof.
  intros Hab Hsome Hsp Hready [Ht Hl] Hfit.
  destruct (planned_facts s sp ab Hsp) as (N & L & D).
  pose proof (fun a tag => effective_planned s sp ab a tag Hab Hsp ltac:(lia)) as Heff.
  cbv zeta in Heff. unfold x86_setup_var_mtrrs, get_physical_address_space. rewrite Hsome, Hready.
  unfold planned_solution in *.
  destruct (calc_var_mtrrs (total_mtrrs s) (bios_mtrrs s) sp true ab) as [m def]. cbn [snd] in *.
  set (sol := prepare_var_mtrrs _ m def _ _ _) in *. cbn [mtrr_global_solution set_solution].
  destruct (commit_spec sol (set_solution m sol s)) as (s' & Hc & Hr & Hd & _);
    [done|done|rewrite L; lia|].
  exists s'. split; [exact Hc|]. intros a tag Ha Htag. rewrite Hr, Hd, def_type_byte by done.
  rewrite effective_app_zero. by apply Heff.
Qed.

(** ** The counts that choose the default type *)

Definition n_blocks (cs : list (Z * Z * Z)) : Z := Z.of_nat (length (flat_map call_blocks cs)).

Lemma n_blocks_app cs1 cs2 : n_blocks (cs1 ++ cs2) = n_blocks cs1 + n_blocks cs2.
Proof. unfold n_blocks. rewrite flat_map_app, length_app. lia. Qed.

Lemma count_without_hole total v r :
  mtrr_index (calc_var_mtrrs_without_hole total (set_index 0 v) r) =
  n_blocks (no_hole_calls (above4gb v) r).
Proof.
  rewrite without_hole_calls. unfold run_calls, n_blocks.
  destruct (push_all_fields total (flat_map call_blocks (no_hole_calls (above4gb (set_index 0 v)) r))
    (set_index 0 v)) as (_ & _ & _ & _ & E & _). rewrite E. done.
Qed.

Lemma count_with_hole total v r next :
  mtrr_index (calc_var_mtrrs_with_hole total (set_index 0 v) r next) =
  n_blocks (hole_calls (above4gb v) (def_mtrr_type v) r next).
Proof.
  rewrite with_hole_calls. unfold run_calls, n_blocks.
  destruct (push_all_fields total (flat_map call_blocks (hole_calls (above4gb (set_index 0 v))
    (def_mtrr_type (set_index 0 v)) r next)) (set_index 0 v)) as (_ & _ & _ & _ & E & _).
  rewrite E. done.
Qed.

Lemma same_shape_calls r r' above def next next' :
  same_shape r r' -> option_Forall2 same_shape next next' ->
  no_hole_calls above r' = no_hole_calls above r /\
  hole_calls above def r' next' = hole_calls above def r next.
Proof.
  intros (Hb & He & Ht) Hn.
  assert (H1 : range_entry_base_mtrr_addr r' = range_entry_base_mtrr_addr r)
    by (unfold range_entry_base_mtrr_addr, range_entry_base; by rewrite Hb).
  assert (H2 : range_entry_end_mtrr_addr r' = range_entry_end_mtrr_addr r)
    by (unfold range_entry_end_mtrr_addr, range_entry_end; by rewrite He).
  unfold no_hole_calls, hole_calls. rewrite Ht, H1, H2. split; [done|].
  destruct Hn as [n n' (_ & He' & Ht')|]; [|done].
  assert (H3 : range_entry_end_mtrr_addr n' = range_entry_end_mtrr_addr n)
    by (unfold range_entry_end_mtrr_addr, range_entry_end; by rewrite He').
  by rewrite Ht', H3.
Qed.

Lemma has_use_hole r :
  has (range_entry_tag (range_entry_update_tag r
    (Z.lor (range_entry_mtrr_type r) MTRR_RANGE_UC_USE_HOLE))) MTRR_RANGE_UC_USE_HOLE = true.
Proof.
  unfold has, range_entry_update_tag, range_entry_mtrr_type, range_entry_tag. simpl r_tag.
  rewrite Z.land_lor_distr_l, <- Z.land_assoc.
  change (Z.land MTRR_TAG_MASK MTRR_RANGE_UC_USE_HOLE) with 0. by rewrite Z.land_0_r.
Qed.

(** One step of [calc_counts], the counts as numbers of blocks. *)
Lemma calc_counts_step total v r rest wb uc :
  calc_counts total v (r :: rest) wb uc =
  let cn := n_blocks (no_hole_calls (above4gb v) r) in
  let ch := if range_entry_mtrr_type r =? MTRR_TYPE_WRBACK
            then n_blocks (hole_calls (above4gb v) MTRR_TYPE_UNCACHEABLE r (head rest)) else 64 in
  let '(r', uc') :=
    if negb (range_entry_mtrr_type r =? MTRR_TYPE_UNCACHEABLE) then
      if cn <? ch then (r, uc + cn)
      else (range_entry_update_tag r (Z.lor (range_entry_mtrr_type r) MTRR_RANGE_UC_USE_HOLE), uc + ch)
    else (r, uc) in
  let wb' := if negb (range_entry_mtrr_type r =? MTRR_TYPE_WRBACK)
             then wb + n_blocks (no_hole_calls (above4gb v) r') else wb in
  let '(rest', wb'', uc'') := calc_counts total v rest wb' uc' in
  (r' :: rest', wb'', uc'').
Proof.
  cbn [calc_counts].
  change (fun r' => mtrr_index (calc_var_mtrrs_without_hole total
    (set_def_type MTRR_TYPE_WRBACK (set_index 0 v)) r')) with
    (fun r' => mtrr_index (calc_var_mtrrs_without_hole total
      (set_index 0 (set_def_type MTRR_TYPE_WRBACK v)) r')).
  rewrite count_without_hole, count_with_hole.
  change (above4gb (set_def_type MTRR_TYPE_UNCACHEABLE v)) with (above4gb v).
  change (def_mtrr_type (set_def_type MTRR_TYPE_UNCACHEABLE v)) with MTRR_TYPE_UNCACHEABLE.
  match goal with |- (let '(_, _) := ?c in _) = _ => destruct c as [r' uc'] end.
  change (set_def_type MTRR_TYPE_WRBACK (set_index 0 v)) with
    (set_index 0 (set_def_type MTRR_TYPE_WRBACK v)).
  rewrite count_without_hole. done.
Qed.

(** *** How many blocks a range takes *)

Lemma pow2_divide_le j x : 0 <= j -> 0 < x -> (2 ^ j | x) -> 2 ^ j <= x.
Proof. intros Hj Hx Hd. by apply Z.divide_pos_le. Qed.

Lemma fms_ge j x : 0 <= j -> 0 < x -> (2 ^ j | x) -> j <= fms x.
Proof.
  intros Hj Hx Hd. pose proof (pow2_divide_le j x Hj Hx Hd).
  destruct (fms_spec x Hx) as (? & _ & ?).
  assert (j < fms x + 1) by (apply (Z.pow_lt_mono_r_iff 2); lia). lia.
Qed.

Lemma fls_pow_divide x : 0 < x -> (2 ^ fls x | x).
Proof. intros Hx. destruct (fls_spec x Hx) as [_ [q Hq]]. by exists (2 * q + 1). Qed.

Lemma pow2_divide_mono j k x : 0 <= j <= k -> (2 ^ k | x) -> (2 ^ j | x).
Proof.
  intros Hjk. apply Z.divide_trans. exists (2 ^ (k - j)).
  rewrite <- Z.pow_add_r by lia. f_equal. lia.
Qed.

Lemma blocks_length fuel : forall base size j,
  0 <= base < 2 ^ 32 -> 0 < size < 2 ^ 32 -> base + size <= 2 ^ 32 ->
  0 <= j -> (2 ^ j | base) -> (2 ^ j | size) ->
  Z.of_nat (length (blocks fuel base size)) <= rounds base size - j.
Proof.
  induction fuel as [|fuel IH]; intros base size j Hb Hs Hbs Hj Db Ds.
  all: pose proof (fms_ge j size Hj ltac:(lia) Ds) as Hfm.
  all: assert (Hr1 : fms size + 1 <= rounds base size)
    by (unfold rounds; destruct (fms_spec size); [lia|]; zbool).
  { cbn [blocks length]. lia. }
  cbn [blocks]. rewrite (proj2 (Z.eqb_neq size 0)) by lia. cbn [length].
  destruct (next_mtrr_size_spec base size ltac:(lia) ltac:(lia)) as (k & Hk & Hkm & Hs' & Hle & Hd).
  pose proof (rounds_step base size ltac:(lia) ltac:(lia) ltac:(lia) ltac:(lia)) as Hr. cbv zeta in Hr.
  rewrite Hs' in *. rewrite (u32_small (size - 2 ^ k)) in * by lia.
  destruct (Z.eq_dec (size - 2 ^ k) 0) as [He|Hne].
  { rewrite He. replace (length (blocks fuel _ 0)) with 0%nat by (destruct fuel; done). lia. }
  rewrite (u32_small (base + 2 ^ k)) in * by lia.
  assert (Hjk : (2 ^ j | 2 ^ k)).
  { assert (j <= k); [|exists (2 ^ (k - j)); rewrite <- Z.pow_add_r by lia; f_equal; lia].
    destruct (Z.eq_dec base 0) as [->|]; [simpl in Hkm; lia|].
    pose proof (fls_divide base j ltac:(lia) Hj Db). lia. }
  specialize (IH (base + 2 ^ k) (size - 2 ^ k) j ltac:(lia) ltac:(lia) ltac:(lia) Hj
    (Z.divide_add_r _ _ _ Db Hjk) (Z.divide_sub_r _ _ _ Ds Hjk)). lia.
Qed.

(** Up to an alignment boundary the blocks only grow. *)
Lemma blocks_length_up fuel : forall base size J,
  0 < base < 2 ^ 32 -> 0 < size < 2 ^ J -> base + size <= 2 ^ 32 ->
  0 <= J < 32 -> (2 ^ J | base + size) -> fls base < J /\
  Z.of_nat (length (blocks fuel base size)) <= J - fls base.
Proof.
  induction fuel as [|fuel IH]; intros base size J Hb Hs Hbs HJ Hd.
  all: assert (H32 : 2 ^ J < 2 ^ 32) by (apply Z.pow_lt_mono_r; lia).
  all: destruct (fls_spec base ltac:(lia)) as [Hl0 _].
  all: pose proof (fls_pow_divide base ltac:(lia)) as Hdl.
  all: assert (Hl : fls base < J)
    by (destruct (Z.lt_ge_cases (fls base) J) as [|Hge]; [done|exfalso];
        pose proof (pow2_divide_mono J (fls base) base ltac:(lia) Hdl) as HdJ;
        pose proof (Z.divide_add_cancel_r _ _ _ HdJ Hd) as HsJ;
        apply pow2_divide_le in HsJ; lia).
  all: split; [done|].
  { simpl. lia. }
  cbn [blocks]. rewrite (proj2 (Z.eqb_neq size 0)) by lia. cbn [length].
  destruct (next_mtrr_size_spec base size ltac:(lia) ltac:(lia)) as (k & Hk & Hkm & Hs' & Hle & _).
  assert (Hsl : (2 ^ fls base | size)).
  { apply (Z.divide_add_cancel_r _ base); [done|]. by apply (pow2_divide_mono _ J); [lia|]. }
  pose proof (fms_ge (fls base) size Hl0 ltac:(lia) Hsl). replace k with (fls base) in * by lia.
  rewrite Hs' in *. rewrite (u32_small (size - _)) by lia.
  destruct (Z.eq_dec (size - 2 ^ fls base) 0) as [He|Hne].
  { rewrite He. replace (length (blocks fuel _ 0)) with 0%nat by (destruct fuel; done). lia. }
  rewrite (u32_small (base + _)) by lia.
  destruct (IH (base + 2 ^ fls base) (size - 2 ^ fls base) J) as [_ IHl]; try lia.
  { by replace (base + 2 ^ fls base + (size - 2 ^ fls base)) with (base + size) by lia. }
  assert (fls base + 1 <= fls (base + 2 ^ fls base)); [|lia].
  apply fls_divide; [lia|lia|]. destruct (fls_spec base ltac:(lia)) as [_ [q Hq]].
  exists (q + 1). rewrite Z.pow_add_r by lia. rewrite Hq at 1. ring.
Qed.

(** More fuel than the rounds needed changes nothing. *)
Lemma blocks_fuel_gen fuel : forall fuel' base size,
  0 <= base < 2 ^ 32 -> 0 <= size < 2 ^ 32 -> base + size <= 2 ^ 32 ->
  (size <> 0 -> rounds base size <= Z.of_nat fuel) -> (fuel <= fuel')%nat ->
  blocks fuel' base size = blocks fuel base size.
Proof.
  induction fuel as [|fuel IH]; intros fuel' base size Hb Hs Hbs Hr Hf.
  - destruct (Z.eq_dec size 0) as [->|Hne]; [by destruct fuel'|]. specialize (Hr Hne).
    unfold rounds in Hr. rewrite (proj2 (Z.eqb_neq size 0)) in Hr by lia.
    pose proof (fms_spec size ltac:(lia)) as (? & _). revert Hr. zbool.
  - destruct fuel' as [|fuel']; [lia|]. cbn [blocks].
    destruct (Z.eqb_spec size 0) as [|Hne]; [done|]. specialize (Hr Hne).
    destruct (next_mtrr_size_spec base size ltac:(lia) ltac:(lia)) as (k & Hk & Hkm & Hs' & Hle & Hd).
    pose proof (rounds_step base size ltac:(lia) ltac:(lia) ltac:(lia) ltac:(lia)) as Hrs.
    cbv zeta in Hrs. rewrite Hs' in *. f_equal. rewrite (u32_small (size - 2 ^ k)) in * by lia.
    destruct (Z.eq_dec (size - 2 ^ k) 0) as [->|]; [by destruct fuel, fuel'|].
    rewrite (u32_small (base + 2 ^ k)) in * by lia. apply IH; lia.
Qed.

Lemma blocks_fuel fuel base size :
  0 <= base < 2 ^ 32 -> 0 <= size < 2 ^ 32 -> base + size <= 2 ^ 32 -> (64 <= fuel)%nat ->
  blocks fuel base size = blocks 64 base size.
Proof.
  intros Hb Hs Hbs Hf. apply blocks_fuel_gen; try done.
  intros _. pose proof (rounds_bounds base size Hb Hs). lia.
Qed.

Lemma range_blocks_length base size t :
  length (range_blocks base size t) = length (blocks 64 base size).
Proof. apply length_map. Qed.

Lemma n_blocks_cons base size t cs :
  n_blocks ((base, size, t) :: cs) = Z.of_nat (length (blocks 64 base size)) + n_blocks cs.
Proof.
  unfold n_blocks. cbn [flat_map call_blocks]. rewrite length_app, range_blocks_length. lia.
Qed.

Lemma blocks_zero base : length (blocks 64 base 0) = 0%nat.
Proof. done. Qed.

(** A range below [2^J] pages between multiples of [2^j]. *)
Lemma blocks_length_le base size j M :
  0 <= base -> 0 <= size -> base + size <= 2 ^ M -> 0 <= j <= M -> M <= 31 ->
  (2 ^ j | base) -> (2 ^ j | size) ->
  Z.of_nat (length (blocks 64 base size)) <= Z.max (2 * (M - j)) (M + 1 - j).
Proof.
  intros Hb Hs Hbs Hj HM Db Ds. pose proof (pow2_le_pow2 M 31 ltac:(lia)).
  destruct (Z.eq_dec size 0) as [->|Hne]; [rewrite blocks_zero; lia|].
  pose proof (blocks_length 64 base size j ltac:(lia) ltac:(lia) ltac:(lia) ltac:(lia) Db Ds) as Hl.
  pose proof (fms_ge j size ltac:(lia) ltac:(lia) Ds).
  assert (Hfm : fms size < M \/ (fms size = M /\ base = 0)).
  { destruct (fms_spec size ltac:(lia)) as (? & ? & ?).
    assert (fms size < M + 1) by (apply fms_lt; rewrite ?Z.pow_add_r; lia).
    destruct (Z.eq_dec (fms size) M) as [He|]; [|lia]. right. rewrite He in *. lia. }
  revert Hl. unfold rounds. rewrite (proj2 (Z.eqb_neq size 0)) by lia.
  destruct Hfm as [Hfm|[Hfm ->]].
  - destruct (Z.eq_dec base 0) as [->|Hb0]; [simpl fls; case_bool; bool_to_prop; lia|].
    pose proof (fls_divide base j ltac:(lia) ltac:(lia) Db). case_bool; bool_to_prop; lia.
  - simpl fls. case_bool; bool_to_prop; lia.
Qed.

(** The "unachievable" 64 of [__calc_var_mtrrs]: without holes an entry takes
    at most 62 registers. *)
Lemma no_hole_count_bound ab r :
  32 <= ab <= 43 -> page_entry ab r -> n_blocks (no_hole_calls true r) <= 62.
Proof.
  intros Hab Hr. destruct (page_entry_addrs ab r Hab Hr) as (E1 & E2 & H1 & H2 & H3 & _).
  unfold no_hole_calls. rewrite E1, E2. cbn [negb andb].
  destruct (Z.leb_spec (end_page r) RANGE_1MB); [unfold n_blocks; simpl; lia|].
  fold (low_start (first_page r)).
  destruct (low_start_spec (first_page r) ltac:(lia)) as [L1 _].
  set (a1 := low_start (first_page r)) in *. set (c2 := end_page r) in *.
  change MTRR_MIN_ALIGN with (2 ^ 14) in *.
  destruct (Z.ltb_spec (u32 (c2 - a1)) (2 ^ 14)) as [Hs|Hs]; rewrite (u32_small (c2 - a1)) in * by lia.
  { rewrite n_blocks_cons. destruct (Z.eq_dec (c2 - a1) 0) as [He|]; [rewrite He, blocks_zero; cbn; lia|].
    pose proof (blocks_length 64 a1 (c2 - a1) 0 ltac:(lia) ltac:(lia) ltac:(lia) ltac:(lia)
      (Z.divide_1_l _) (Z.divide_1_l _)) as Hl.
    pose proof (fms_lt (c2 - a1) 14 ltac:(lia) ltac:(lia) ltac:(lia)).
    assert (0 <= fls a1) by (destruct a1 as [|p|p]; simpl; try lia; apply pos_lsb_spec).
    revert Hl. unfold rounds. rewrite (proj2 (Z.eqb_neq (c2 - a1) 0)) by lia.
    change (n_blocks []) with 0. case_bool; bool_to_prop; lia. }
  pose proof (align_up_min (ab - 12) a1 ltac:(lia) ltac:(lia)) as (U1 & U2 & U3).
  pose proof (align_down_min c2 ltac:(lia)) as (D1 & D2 & D3).
  change MTRR_MIN_ALIGN with (2 ^ 14) in *.
  set (a2 := ALIGN_UP 32 a1 (2 ^ 14)) in *. set (c1 := ALIGN_DOWN 32 c2 (2 ^ 14)) in *.
  assert (a2 <= c1) by (destruct U3 as [? ->], D3 as [? ->]; lia).
  rewrite !u32_small by lia. rewrite !n_blocks_cons. change (n_blocks []) with 0.
  assert (B1 : Z.of_nat (length (blocks 64 a1 (a2 - a1))) <= 14).
  { destruct (Z.eq_dec (a2 - a1) 0) as [He|]; [rewrite He, blocks_zero; lia|].
    destruct (Z.eq_dec a1 0) as [Ha0|].
    { rewrite Ha0 in *. destruct U3 as [q Hq]. lia. }
    destruct (blocks_length_up 64 a1 (a2 - a1) 14) as [_ Hl]; try lia.
    { by replace (a1 + (a2 - a1)) with a2 by lia. }
    pose proof (fls_spec a1 ltac:(lia)). lia. }
  assert (B2 : Z.of_nat (length (blocks 64 a2 (c1 - a2))) <= 34).
  { pose proof (blocks_length_le a2 (c1 - a2) 14 31 ltac:(lia) ltac:(lia) ltac:(lia) ltac:(lia)
      ltac:(lia) U3 (Z.divide_sub_r _ _ _ D3 U3)). lia. }
  assert (B3 : Z.of_nat (length (blocks 64 c1 (c2 - c1))) <= 14).
  { destruct (Z.eq_dec (c2 - c1) 0) as [He|]; [rewrite He, blocks_zero; lia|].
    pose proof (blocks_length 64 c1 (c2 - c1) 0 ltac:(lia) ltac:(lia) ltac:(lia) ltac:(lia)
      (Z.divide_1_l _) (Z.divide_1_l _)) as Hl.
    pose proof (fms_lt (c2 - c1) 14 ltac:(lia) ltac:(lia) ltac:(lia)).
    pose proof (fls_divide c1 14 ltac:(lia) ltac:(lia) D3).
    revert Hl. unfold rounds. rewrite (proj2 (Z.eqb_neq (c2 - c1) 0)) by lia.
    case_bool; bool_to_prop; lia. }
  lia.
Qed.

Lemma calc_counts_calls total ab v es : forall wb uc,
  above4gb v = true -> 32 <= ab <= 43 -> Forall (page_entry ab) es ->
  Forall (fun r => has (range_entry_tag r) MTRR_RANGE_UC_USE_HOLE = false) es ->
  let p := calc_counts total v es wb uc in
  snd (fst p) = wb + n_blocks (all_calls (above4gb v) MTRR_TYPE_WRBACK (fst (fst p))) /\
  snd p = uc + n_blocks (all_calls (above4gb v) MTRR_TYPE_UNCACHEABLE (fst (fst p))).
Proof.
  induction es as [|r rest IH]; intros wb uc Ha Hab Hpg Hf p.
  { subst p. unfold n_blocks. simpl. lia. }
  subst p. apply Forall_cons in Hf as [Hr Hf]. apply Forall_cons in Hpg as [Hpr Hpg].
  pose proof (no_hole_count_bound ab r Hab Hpr) as Hbound.
  specialize (fun wb uc => IH wb uc Ha Hab Hpg Hf). rewrite Ha in *. rewrite calc_counts_step, Ha. cbv zeta.
  match goal with |- context [let '(_, _) := ?c in _] => destruct c as [r' uc'] eqn:E end.
  match goal with |- context [calc_counts total v rest ?wb' ?uc'] =>
    specialize (IH wb' uc'); pose proof (calc_counts_shape total v rest wb' uc') as Hs;
    destruct (calc_counts total v rest wb' uc') as [[rest' w] u] end.
  cbn [fst snd] in *. destruct IH as [-> ->]. cbn [all_calls]. rewrite !n_blocks_app.
  assert (Hn : option_Forall2 same_shape (head rest) (head rest'))
    by (destruct Hs; by constructor).
  assert (Hrr : same_shape r r').
  { revert E. destruct (negb _); [|intros [= <- _]; by repeat split].
    destruct (_ <? _); intros [= <- _]; repeat split. apply use_hole_type. }
  destruct (same_shape_calls r r' true MTRR_TYPE_UNCACHEABLE _ _ Hrr Hn) as [N H].
  unfold entry_calls. destruct Hrr as (_ & _ & Ht). rewrite Ht, N, H.
  change (MTRR_TYPE_WRBACK =? MTRR_TYPE_UNCACHEABLE) with false. cbn [andb].
  change (MTRR_TYPE_UNCACHEABLE =? MTRR_TYPE_UNCACHEABLE) with true. cbn [andb].
  split; [destruct (_ =? MTRR_TYPE_WRBACK); simpl; [unfold n_blocks; simpl|]; lia|].
  revert E. destruct (range_entry_mtrr_type r =? MTRR_TYPE_UNCACHEABLE); simpl.
  { intros [= <- <-]. unfold n_blocks. simpl. lia. }
  destruct (_ <? _) eqn:L; intros [= <- <-]; [rewrite Hr; lia|].
  rewrite has_use_hole. bool_to_prop. clear -L Hbound. revert L.
  destruct (range_entry_mtrr_type r =? MTRR_TYPE_WRBACK); lia.
Qed.

(** [calc_var_mtrr_range] splits any range that ends by 2^32
    pages into back-to-back blocks, each a power of two aligned to its own
    size, that together are exactly the range; the loop ends within 64 rounds
    (more fuel changes nothing) and pushes one register per block. *)
Theorem calc_var_mtrr_range_exact total v base size t :
  0 <= base < 2 ^ 32 -> 0 <= size < 2 ^ 32 -> base + size <= 2 ^ 32 ->
  exists bs, tiles base size bs /\ (length bs <= 64)%nat /\
    mtrr_index (calc_var_mtrr_range total v base size t) = mtrr_index v + Z.of_nat (length bs) /\
    forall fuel, (64 <= fuel)%nat ->
      calc_var_mtrr_range_loop total fuel v base size t =
      push_all total v (map (fun b => (fst b, snd b, t)) bs).
Proof.
  intros Hb Hs Hbs. exists (blocks 64 base size).
  assert (Hr : size <> 0 -> rounds base size <= 64)
    by (intros _; by apply rounds_bounds).
  split; [apply range_blocks_tile; lia|]. split; [|split].
  - destruct (Z.eq_dec size 0) as [->|]; [rewrite blocks_zero; lia|].
    pose proof (blocks_length 64 base size 0 Hb ltac:(lia) Hbs ltac:(lia) (Z.divide_1_l _)
      (Z.divide_1_l _)). specialize (Hr ltac:(done)). lia.
  - rewrite calc_var_mtrr_range_call. unfold run_calls. rewrite (proj1 (proj2 (proj2 (proj2 (proj2
      (push_all_fields total _ v)))))). cbn [flat_map call_blocks]. by rewrite app_nil_r, range_blocks_length.
  - intros fuel Hf. rewrite calc_loop_blocks. do 2 f_equal. by apply blocks_fuel.
Qed.

(** The counts [__calc_var_mtrrs] compares are the numbers of
    registers the two solutions really take, provided no entry already carries
    the hole flag. *)
Theorem calc_var_mtrrs_counts_exact total m ab sol :
  32 <= ab <= 43 -> mtrr_space ab m ->
  Forall (fun r => has (range_entry_tag r) MTRR_RANGE_UC_USE_HOLE = false) (entries m) ->
  let '(m', wb, uc) := calc_var_mtrrs_counts total m true ab in
  num_used (prepare_var_mtrrs total m' MTRR_TYPE_WRBACK true ab sol) = wb /\
  num_used (prepare_var_mtrrs total m' MTRR_TYPE_UNCACHEABLE true ab sol) = uc.
Proof.
  intros Hab [_ Hf] Hflag. unfold calc_var_mtrrs_counts.
  set (v := mk_var_state true ab false 0 0 []).
  destruct (calc_counts_calls total ab v (entries m) 0 0 eq_refl Hab Hf Hflag) as [Hwb Huc].
  destruct (calc_counts total v (entries m) 0 0) as [[es' wb] uc]. cbn [fst snd] in *.
  pose proof (proj1 (prepare_regs total (mk_memranges es' (free_list m)) MTRR_TYPE_WRBACK ab sol)) as N1.
  pose proof (proj1 (prepare_regs total (mk_memranges es' (free_list m)) MTRR_TYPE_UNCACHEABLE ab sol)) as N2.
  rewrite N1, N2, Hwb, Huc. done.
Qed.

(** *** Witnesses and concrete behaviour *)

Definition board_space : memranges :=
  mk_memranges [mk_range 0 0x9ffff 6; mk_range 0xa0000 0xfffff 0;
                mk_range 0x100000 0x7fffffff 6; mk_range 0x80000000 0xffffffff 0;
                mk_range 0x100000000 0x27fffffff 6] [].

Definition board_state : mtrr_state :=
  set_addr_space board_space (initial_state (fun _ => zero_msr)).

Ltac solve_divide := match goal with |- (?a | ?b) =>
  exists (b / a); vm_compute; reflexivity end.

Lemma board_space_ok : mtrr_space 36 board_space.
Proof.
  split; [unfold wf; simpl; lia|]. unfold board_space. simpl.
  repeat (apply Forall_cons; split); try apply Forall_nil_2;
    (split; [solve_divide|split; [solve_divide|simpl; lia]]).
Qed.

Lemma x86_setup_var_mtrrs_witness : exists s',
  x86_setup_var_mtrrs dstate_empty 36 true board_state = Some s' /\
  effective (Z.land (msr_lo (rdmsr s' MTRR_DEF_TYPE_MSR)) 0xff) (hw_regs s') 0x200000 = Some 6.
Proof.
  destruct (x86_setup_var_mtrrs_correct dstate_empty board_state board_space 36)
    as (s' & Hs & He);
    [lia|reflexivity|exact board_space_ok|reflexivity|split; vm_compute; discriminate
    |vm_compute; discriminate|].
  exists s'. split; [exact Hs|].
  destruct (He 0x200000 6) as (T & [Hk|[Hk _]] & HT); [lia|reflexivity| |discriminate Hk].
  rewrite HT, Hk. reflexivity.
Defined.

Lemma commit_var_mtrrs_witness : exists s',
  commit_var_mtrrs (mk_solution 6 1 [var_mtrr_value 36 0x80000 0x80000 0]) board_state = Some s' /\
  length (hw_regs s') = 8%nat.
Proof.
  destruct (commit_var_mtrrs_correct (mk_solution 6 1 [var_mtrr_value 36 0x80000 0x80000 0]) board_state)
    as (s' & Hs & Hr & _); [split; vm_compute; discriminate|vm_compute; discriminate|vm_compute; discriminate|].
  exists s'. split; [exact Hs|]. rewrite Hr. reflexivity.
Defined.

Lemma calc_var_mtrr_range_witness : exists bs, tiles 0x100 0x7ff00 bs /\ (length bs <= 64)%nat.
Proof.
  destruct (calc_var_mtrr_range_exact 8 (mk_var_state true 36 false 0 0 []) 0x100 0x7ff00 6)
    as (bs & Ht & Hl & _); [lia|lia|lia|]. exists bs. split; [exact Ht|exact Hl].
Defined.

Lemma calc_var_mtrrs_counts_witness :
  num_used (prepare_var_mtrrs 8 (fst (fst (calc_var_mtrrs_counts 8 board_space true 36)))
    MTRR_TYPE_UNCACHEABLE true 36 zero_solution) = 3.
Proof.
  pose proof (calc_var_mtrrs_counts_exact 8 board_space 36 zero_solution ltac:(lia) board_space_ok
    ltac:(repeat (apply Forall_cons; split; [reflexivity|]); apply Forall_nil_2)) as H.
  destruct (calc_var_mtrrs_counts 8 board_space true 36) as [[m' wb] uc] eqn:E.
  simpl fst. rewrite (proj2 H). vm_compute in E. injection E as _ _ <-. reflexivity.
Defined.

(** A layout on which the WC fallback leaves stale hole flags. *)
Definition stale_space : memranges :=
  mk_memranges [mk_range 0 0x4000fff 6; mk_range 0x4001000 0xfffffff 1;
                mk_range 0x10000000 0xffffffff 0; mk_range 0x100000000 0x17f00ffff 6] [].

(** After the WC fallback the second count of [calc_var_mtrrs]
    does not clear the hole flags the first one set: on this layout the count
    for UC is 3, but the solution takes 16 registers, and with 8 in the
    processor the commit writes MSRs beyond them. *)
Theorem calc_var_mtrrs_stale_flags :
  let '(m1, _, _) := calc_var_mtrrs_counts 8 stale_space true 36 in
  let m2 := memranges_update_tag m1 MTRR_TYPE_WRCOMB MTRR_TYPE_UNCACHEABLE in
  let '(_, _, uc) := calc_var_mtrrs_counts 8 m2 true 36 in
  let '(m, def) := calc_var_mtrrs 8 6 stale_space true 36 in
  let sol := prepare_var_mtrrs 8 m def true 36 zero_solution in
  uc = 3 /\ def = MTRR_TYPE_UNCACHEABLE /\ num_used sol = 16 /\
  match commit_var_mtrrs sol board_state with
  | Some s' => existsb (fun e => match e with
                 | EvWrmsr i _ => i =? MTRR_PHYS_BASE (total_mtrrs board_state) | _ => false end)
                 (trace s') = true
  | None => False
  end.
Proof. vm_compute. repeat split. Qed.
