(* ===== verification/MtrrFixed.v ===== *)
(** * Correctness of the fixed MTRRs

    [Mtrr.calc_fixed_mtrrs] and [Mtrr.commit_fixed_mtrrs] give every page of
    the first MiB the cache type of its address-space entry. *)

From S2P Require Import Prelude Device MemRange Mtrr MtrrCover.

(** ** The architecture's layout *)

(** Which of the 88 type fields rules page [p] below 1 MiB; 88 for the end. *)
Definition fixed_index (p : Z) : Z :=
  if p <? 0x80 then p / 16 else if p <? 0xC0 then 8 + (p - 0x80) / 4 else 24 + (p - 0xC0).

(** The pages one field covers at [p]. *)
Definition fixed_step (p : Z) : Z := if p <? 0x80 then 16 else if p <? 0xC0 then 4 else 1.

(** The MSR of a field: 64 KiB, 16 KiB and 4 KiB groups. *)
Definition fixed_msr (idx : Z) : Z :=
  if idx <? 8 then 0x250 else if idx <? 24 then 0x258 + (idx - 8) / 8 else 0x268 + (idx - 24) / 8.

Definition msr_byte (m : msr_t) (k : Z) : Z :=
  Z.land (if k <? 4 then Z.shiftr (msr_lo m) (8 * k) else Z.shiftr (msr_hi m) (8 * (k - 4))) 0xff.

(** The type the processor uses for page [p] below 1 MiB. *)
Definition fixed_type (s : mtrr_state) (p : Z) : Z :=
  msr_byte (rdmsr s (fixed_msr (fixed_index p))) (fixed_index p mod 8).

(** An entry's ends below 1 MiB fall on field boundaries. *)
Definition fixed_aligned (r : range_entry) : Prop :=
  (first_page r < 0x100 -> (fixed_step (first_page r) | first_page r)) /\
  (end_page r < 0x100 -> (fixed_step (end_page r) | end_page r)).

(** ** Lemmas: the layout, checked page by page *)

Definition aligned_at (p : Z) : bool := p mod fixed_step p =? 0.

Lemma aligned_at_spec p : aligned_at p = true <-> (fixed_step p | p).
Proof.
  unfold aligned_at. rewrite Z.eqb_eq. apply Z.mod_divide. unfold fixed_step. by repeat case_bool.
Qed.

Definition pages (n : nat) : list Z := map Z.of_nat (seq 0 n).

Lemma pages_spec n p : 0 <= p < Z.of_nat n -> p ∈ pages n.
Proof.
  intros Hp. apply elem_of_map. exists (Z.to_nat p). split; [lia|]. apply elem_of_seq. lia.
Qed.

Lemma forallb_pages n (f : Z -> bool) p :
  forallb f (pages n) = true -> 0 <= p < Z.of_nat n -> f p = true.
Proof.
  intros H Hp. apply (proj1 (forallb_forall _ _) H). apply list_elem_of_In. by apply pages_spec.
Qed.

Definition descs_at (p : Z) : list fixed_desc := skip_descs p fixed_mtrr_desc.

Definition step_ok (p : Z) : bool :=
  negb (aligned_at p) ||
  match descs_at p with
  | [] => false
  | d :: rest =>
      (f_step d =? fixed_step p) && (p + fixed_step p <=? f_end d) &&
      (fixed_index (p + fixed_step p) =? fixed_index p + 1) &&
      (f_range_index d + (p - f_begin d) / f_step d =? fixed_index p) &&
      (Z.of_nat (length (if p + fixed_step p =? f_end d then rest else d :: rest)) =?
       Z.of_nat (length (descs_at (p + fixed_step p)))) &&
      aligned_at (p + fixed_step p) && (fixed_index p <? 88) && (0 <=? fixed_index p)
  end.

Lemma step_ok_all : forallb step_ok (pages 256) = true.
Proof. vm_compute. reflexivity. Qed.

Lemma skip_descs_suffix b l : exists l', l = l' ++ skip_descs b l.
Proof.
  induction l as [|d l [l' IH]]; simpl; [by exists []|]. case_bool; [|by exists []].
  exists (d :: l'). simpl. by f_equal.
Qed.

Lemma skip_descs_skip b b' l : b <= b' -> skip_descs b' (skip_descs b l) = skip_descs b' l.
Proof.
  intros Hb. induction l as [|d l IH]; simpl; [done|].
  destruct (Z.leb_spec (f_end d) b); [|done]. rewrite IH. by rewrite (proj2 (Z.leb_le _ _)) by lia.
Qed.

Lemma suffix_eq {A} (l a b a' b' : list A) :
  l = a' ++ a -> l = b' ++ b -> length a = length b -> a = b.
Proof.
  intros -> H Hl. assert (length a' = length b') by (apply (f_equal length) in H;
    rewrite !length_app in H; lia). by apply app_inj_1 in H as [_ ->].
Qed.

(** One round of the fill loop stays in step with the layout. *)
Lemma fixed_step_at p :
  0 <= p < 256 -> (fixed_step p | p) ->
  exists d rest, descs_at p = d :: rest /\ f_step d = fixed_step p /\
    fixed_index (p + fixed_step p) = fixed_index p + 1 /\
    f_range_index d + (p - f_begin d) / f_step d = fixed_index p /\
    (if p + fixed_step p =? f_end d then rest else d :: rest) = descs_at (p + fixed_step p) /\
    (fixed_step (p + fixed_step p) | p + fixed_step p) /\ 0 <= fixed_index p < 88.
Proof.
  intros Hp Hd. pose proof (forallb_pages 256 step_ok p step_ok_all ltac:(lia)) as H.
  unfold step_ok in H. rewrite (proj2 (aligned_at_spec p) Hd) in H. cbn [negb orb] in H.
  destruct (descs_at p) as [|d rest] eqn:E; [done|]. bool_to_prop.
  exists d, rest. rewrite <- aligned_at_spec. repeat split; try done; try lia.
  destruct (skip_descs_suffix p fixed_mtrr_desc) as [l1 Hs1].
  destruct (skip_descs_suffix (p + fixed_step p) fixed_mtrr_desc) as [l2 Hs2].
  unfold descs_at in *. rewrite E in Hs1. case_bool.
  - apply (suffix_eq fixed_mtrr_desc _ _ (l1 ++ [d]) l2); [|done|lia]. by rewrite <- app_assoc.
  - apply (suffix_eq fixed_mtrr_desc _ _ l1 l2); [done|done|lia].
Qed.

Definition index_ok (p : Z) : bool :=
  (fixed_index p <? 88) && (0 <=? fixed_index p) &&
  forallb (fun q => negb (p + fixed_step p <=? q) || negb (aligned_at p)
                    || (fixed_index p <? fixed_index q)) (pages 256) &&
  forallb (fun q => negb (p <=? q) || negb (q <? p + fixed_step p) || negb (aligned_at p)
                    || (fixed_index q =? fixed_index p)) (pages 256) &&
  forallb (fun q => negb (p <? q) || negb (aligned_at p) || negb (aligned_at q)
                    || (p + fixed_step p <=? q)) (pages 257) &&
  forallb (fun q => negb (q <? p) || negb (aligned_at p)
                    || (fixed_index q <? fixed_index p)) (pages 256).

Lemma index_ok_all : forallb index_ok (pages 256) = true.
Proof. vm_compute. reflexivity. Qed.

Lemma fixed_index_facts p :
  0 <= p < 256 ->
  0 <= fixed_index p < 88 /\
  ((fixed_step p | p) ->
   (forall q, p + fixed_step p <= q < 256 -> fixed_index p < fixed_index q) /\
   (forall q, p <= q < p + fixed_step p -> q < 256 -> fixed_index q = fixed_index p) /\
   (forall q, p < q <= 256 -> (fixed_step q | q) -> p + fixed_step p <= q) /\
   (forall q, 0 <= q < p -> fixed_index q < fixed_index p)).
Proof.
  intros Hp. pose proof (forallb_pages 256 index_ok p index_ok_all ltac:(lia)) as H.
  unfold index_ok in H. rewrite !andb_true_iff in H. destruct H as (((((Hi & Hi0) & H1) & H2) & H3) & H4).
  bool_to_prop. assert (Hst : 0 < fixed_step p) by (unfold fixed_step; repeat case_bool; lia).
  split; [done|]. intros Ha%aligned_at_spec. split; [|split; [|split]].
  - intros q Hq. pose proof (forallb_pages 256 _ q H1 ltac:(lia)) as Hx. cbv beta in Hx.
    rewrite Ha in Hx. rewrite !orb_true_iff, !negb_true_iff in Hx. destruct Hx as [[?|?]|?]; bool_to_prop; done || lia.
  - intros q Hq Hq'. pose proof (forallb_pages 256 _ q H2 ltac:(lia)) as Hx. cbv beta in Hx.
    rewrite Ha in Hx. rewrite !orb_true_iff, !negb_true_iff in Hx. destruct Hx as [[[?|?]|?]|?]; bool_to_prop; done || lia.
  - intros q Hq Hqa%aligned_at_spec. pose proof (forallb_pages 257 _ q H3 ltac:(lia)) as Hx. cbv beta in Hx.
    rewrite Ha, Hqa in Hx. rewrite !orb_true_iff, !negb_true_iff in Hx. destruct Hx as [[[?|?]|?]|?]; bool_to_prop; done || lia.
  - intros q Hq. pose proof (forallb_pages 256 _ q H4 ltac:(lia)) as Hx. cbv beta in Hx.
    rewrite Ha in Hx. rewrite !orb_true_iff, !negb_true_iff in Hx. destruct Hx as [[?|?]|?]; bool_to_prop; done || lia.
Qed.

(** ** Lemmas: the fill loop and the walk *)

(** What a fill does to the type fields. *)
Definition filled (types types' : list Z) (begin end_ type : Z) : Prop :=
  length types' = length types /\
  forall p, 0 <= p < 256 ->
    nth (Z.to_nat (fixed_index p)) types' 0 =
    if (begin <=? p) && (p <? end_) then type else nth (Z.to_nat (fixed_index p)) types 0.

Lemma nth_insert (l : list Z) i j x :
  (i < length l)%nat -> nth j (<[i := x]> l) 0 = if (i =? j)%nat then x else nth j l 0.
Proof.
  intros Hi. rewrite !nth_lookup. destruct (Nat.eqb_spec i j) as [->|Hne].
  - by rewrite list_lookup_insert_eq.
  - by rewrite list_lookup_insert_ne.
Qed.

Lemma fill_fixed_spec fuel : forall types begin end_ type,
  length types = 88%nat -> 0 <= begin <= end_ -> end_ <= 256 ->
  (begin < 256 -> (fixed_step begin | begin)) -> (end_ < 256 -> (fixed_step end_ | end_)) ->
  (end_ <= begin \/ 88 - fixed_index begin <= Z.of_nat fuel) ->
  exists types', fill_fixed fuel types (descs_at begin) begin end_ type (fixed_index begin) =
      Some (types', descs_at end_) /\ filled types types' begin end_ type.
Proof.
  induction fuel as [|fuel IH]; intros types begin end_ type Hlen Hbe He Hba Hea Hf.
  all: assert (Hstop : begin = end_ -> filled types types begin end_ type)
    by (intros ->; split; [done|]; intros p Hp; case_bool; bool_to_prop; [lia|done]).
  all: cbn [fill_fixed]; destruct (Z.eqb_spec begin end_) as [->|Hne]; [eauto|].
  { pose proof (fixed_index_facts begin ltac:(lia)) as [? _]. lia. }
  specialize (Hba ltac:(lia)).
  destruct (fixed_step_at begin ltac:(lia) Hba) as (d & rest & Ed & Hs & Hi & _ & Hnext & Hal & Hidx).
  destruct (fixed_index_facts begin ltac:(lia)) as [_ Hfacts].
  destruct (Hfacts Hba) as (Hlater & Hsame & Halign & Hbefore).
  assert (Hst : 0 < fixed_step begin <= 16) by (unfold fixed_step; repeat case_bool; lia).
  assert (Hle : begin + fixed_step begin <= end_).
  { apply Halign; [lia|]. destruct (Z.eq_dec end_ 256) as [->|]; [by exists 256|apply Hea; lia]. }
  rewrite Ed. rewrite (proj2 (Z.ltb_lt _ _)) by (change NUM_FIXED_RANGES with 88; lia). cbv zeta.
  rewrite Hs, u32_small by lia. rewrite Hnext, <- Hi.
  destruct (IH (<[Z.to_nat (fixed_index begin) := type]> types) (begin + fixed_step begin) end_ type)
    as (types' & -> & Hl' & Hft); try done; try lia.
  { by rewrite length_insert. }
  exists types'. split; [done|]. rewrite length_insert in Hl'. split; [lia|].
  intros p Hp. rewrite Hft by done. rewrite nth_insert by lia.
  destruct (Z.leb_spec begin p), (Z.leb_spec (begin + fixed_step begin) p), (Z.ltb_spec p end_);
    cbn [andb]; try done; try lia.
  - specialize (Hlater p ltac:(lia)). rewrite (proj2 (Nat.eqb_neq _ _)) by lia. done.
  - rewrite (Hsame p) by lia. by rewrite Nat.eqb_refl.
  - specialize (Hbefore p ltac:(lia)). pose proof (proj1 (fixed_index_facts p Hp)).
    rewrite (proj2 (Nat.eqb_neq _ _)) by lia. done.
Qed.

(** The walk: every field gets the type of the entry over its pages. *)
Lemma calc_fixed_loop_spec ab es : forall types lo b,
  32 <= ab <= 43 -> length types = 88%nat -> Forall (page_entry ab) es -> wf_from lo es ->
  Forall fixed_aligned es -> 0 <= b -> b * 4096 <= lo ->
  exists types', calc_fixed_loop es types (descs_at b) = Some types' /\
    length types' = 88%nat /\
    forall p, 0 <= p < 256 ->
      nth (Z.to_nat (fixed_index p)) types' 0 =
      match tag_at es (p * 4096) with
      | Some t => u8 t
      | None => nth (Z.to_nat (fixed_index p)) types 0
      end.
Proof.
  induction es as [|r rest IH]; intros types lo b Hab Hlen Hpg Hwf Hal Hb0 Hb; [simpl; eauto|].
  apply Forall_cons in Hpg as [Hr Hpg]. apply Forall_cons in Hal as [[Ha1 Ha2] Hal].
  destruct Hwf as (Hlo & H64 & Hwf). cbn [calc_fixed_loop].
  destruct (page_entry_addrs ab r Hab Hr) as (E1 & E2 & H1 & H2 & H3 & Hin). rewrite E1, E2.
  assert (Hfp : first_page r * 4096 = r_begin r).
  { destruct (proj1 Hr) as [q Hq]. unfold first_page. rewrite Hq, Z.div_mul by lia. lia. }
  assert (Hep : end_page r * 4096 = r_end r + 1).
  { destruct (proj1 (proj2 Hr)) as [q Hq]. unfold end_page. rewrite Hq, Z.div_mul by lia. lia. }
  change last_desc_end with 256. destruct (Z.leb_spec 256 (first_page r)) as [Hout|Hlow].
  { exists types. split; [done|]. split; [done|]. intros p Hp.
    rewrite (tag_at_below (r_begin r)) by (simpl; repeat split; try done; lia). done. }
  cbv zeta. set (e := if 256 <? end_page r then 256 else end_page r).
  assert (He : first_page r < e <= 256 /\ e <= end_page r /\ (e < 256 -> e = end_page r))
    by (unfold e; case_bool; bool_to_prop; lia).
  unfold descs_at at 1. rewrite skip_descs_skip by lia. fold (descs_at (first_page r)).
  destruct (fixed_step_at (first_page r) ltac:(lia) (Ha1 Hlow)) as (d & ds & Ed & _ & _ & Hti & _).
  rewrite Ed. cbv beta iota. rewrite Hti. rewrite <- Ed.
  destruct (fill_fixed_spec 89 types (first_page r) e (u8 (range_entry_tag r)) Hlen) as
    (types1 & -> & Hl1 & Hf1); try lia.
  { intros _. by apply Ha1. }
  { intros Hlt. destruct He as (_ & _ & He). rewrite He by done. apply Ha2. lia. }
  { right. pose proof (proj1 (fixed_index_facts (first_page r) ltac:(lia))). lia. }
  destruct (IH types1 (r_end r + 1) e Hab ltac:(lia) Hpg Hwf Hal ltac:(lia) ltac:(lia))
    as (types' & -> & Hl' & Hf'). exists types'. split; [done|]. split; [done|].
  intros p Hp. rewrite Hf', Hf1 by done. cbn [tag_at]. rewrite Hin.
  replace (p <? e) with (p <? end_page r)
    by (destruct (Z.ltb_spec p e), (Z.ltb_spec p (end_page r)); try done; lia).
  destruct (Z.leb_spec (first_page r) p), (Z.ltb_spec p (end_page r)); cbn [andb]; try done.
  by rewrite (tag_at_below (r_end r + 1)) by (done || lia).
Qed.

(** ** Lemmas: packing the types into the MSRs *)

Lemma byte_at hi t lo n :
  0 <= n -> 0 <= t < 256 -> 0 <= lo < 2 ^ n ->
  ((hi * 256 + t) * 2 ^ n + lo) / 2 ^ n mod 256 = t.
Proof.
  intros Hn Ht Hlo. rewrite Z.div_add_l, (Z.div_small lo), Z.add_0_r by lia.
  rewrite Z.add_comm, Z.mod_add by lia. by apply Z.mod_small.
Qed.

Lemma pack4_byte types i k :
  Forall (fun t => 0 <= t < 256) types -> (k < 4)%nat ->
  Z.land (Z.shiftr (pack4 types i) (8 * Z.of_nat k)) 0xff = nth (i + k) types 0.
Proof.
  intros Hf Hk.
  assert (Ht : forall j, 0 <= nth j types 0 < 256).
  { intros j. destruct (nth_in_or_default j types 0) as [Hin| ->]; [|lia].
    apply (proj1 (Forall_forall _ _) Hf). by apply list_elem_of_In. }
  unfold pack4. rewrite Z.shiftl_0_r.
  pose proof (Ht (i + 0)%nat) as H0. pose proof (Ht (i + 1)%nat) as H1.
  pose proof (Ht (i + 2)%nat) as H2. pose proof (Ht (i + 3)%nat) as H3.
  set (t0 := nth (i + 0) types 0) in *. set (t1 := nth (i + 1) types 0) in *.
  set (t2 := nth (i + 2) types 0) in *. set (t3 := nth (i + 3) types 0) in *.
  rewrite !Z.shiftl_mul_pow2 by lia.
  rewrite (Z.lor_comm t0), (lor_add (t1 * 2 ^ 8) t0 8) by (try lia; exists t1; lia).
  rewrite (Z.lor_comm _ (t2 * _)), (lor_add (t2 * 2 ^ 16) _ 16) by (try lia; exists t2; lia).
  rewrite (Z.lor_comm _ (t3 * _)), (lor_add (t3 * 2 ^ 24) _ 24) by (try lia; exists t3; lia).
  change 0xff with (2 ^ 8 - 1). rewrite land_low_mask, Z.shiftr_div_pow2 by lia.
  change (2 ^ 8) with 256. destruct k as [|[|[|[|k]]]]; [| | | |lia].
  - etransitivity; [|apply (byte_at (t3 * 2 ^ 16 + t2 * 2 ^ 8 + t1) t0 0 0); lia]. do 2 f_equal. lia.
  - etransitivity; [|apply (byte_at (t3 * 2 ^ 8 + t2) t1 t0 8); lia]. do 2 f_equal. lia.
  - etransitivity; [|apply (byte_at t3 t2 (t1 * 2 ^ 8 + t0) 16); lia]. do 2 f_equal. lia.
  - etransitivity; [|apply (byte_at 0 t3 (t2 * 2 ^ 16 + t1 * 2 ^ 8 + t0) 24); lia]. do 2 f_equal. lia.
Qed.

Lemma pack_fixed_msr_byte types i k :
  Forall (fun t => 0 <= t < 256) types -> (k < 8)%nat ->
  msr_byte (pack_fixed_msr types i) (Z.of_nat k) = nth (i + k) types 0.
Proof.
  intros Hf Hk. unfold msr_byte, pack_fixed_msr. cbn [msr_lo msr_hi].
  destruct (Z.ltb_spec (Z.of_nat k) 4).
  - apply pack4_byte; [done|lia].
  - replace (8 * (Z.of_nat k - 4)) with (8 * Z.of_nat (k - 4)) by lia.
    rewrite pack4_byte by (done || lia). f_equal. lia.
Qed.

Lemma fixed_msrs_list types :
  fixed_msrs_of types fixed_mtrr_desc 0 =
  map (fun j => (fixed_msr (8 * Z.of_nat j), pack_fixed_msr types (8 * j))) (seq 0 11).
Proof. reflexivity. Qed.

(** Writing a list of distinct MSRs. *)
Lemma wrmsr_list_in (l : list (Z * msr_t)) : forall s i v,
  NoDup (map fst l) -> (i, v) ∈ l ->
  rdmsr (fold_left (fun s p => wrmsr (fst p) (snd p) s) l s) i = v.
Proof.
  assert (Hout : forall l s i, i ∉ map fst l ->
    rdmsr (fold_left (fun s (p : Z * msr_t) => wrmsr (fst p) (snd p) s) l s) i = rdmsr s i).
  { clear. induction l as [|[j w] l IH]; intros s i Hn; simpl; [done|].
    simpl in Hn. apply not_elem_of_cons in Hn as [Hne Hn]. rewrite IH by done.
    unfold rdmsr, wrmsr, emit. simpl. by rewrite (proj2 (Z.eqb_neq _ _)). }
  induction l as [|[j w] l IH]; intros s i v Hnd Hin; [by apply not_elem_of_nil in Hin|].
  simpl in *. apply NoDup_cons in Hnd as [Hj Hnd].
  apply elem_of_cons in Hin as [[= -> ->]|Hin]; [|by apply IH].
  rewrite Hout by done. unfold rdmsr, wrmsr, emit. simpl. by rewrite Z.eqb_refl.
Qed.

Lemma fixed_index_split i :
  0 <= i < 88 ->
  exists q k, (q < 11)%nat /\ (k < 8)%nat /\ Z.to_nat i = (8 * q + k)%nat /\
    i mod 8 = Z.of_nat k /\ fixed_msr i = fixed_msr (8 * Z.of_nat q).
Proof.
  intros Hi. pose proof (Z.div_mod i 8 ltac:(lia)). pose proof (Z.mod_pos_bound i 8 ltac:(lia)).
  exists (Z.to_nat (i / 8)), (Z.to_nat (i mod 8)).
  split; [lia|]. split; [lia|]. split; [lia|]. split; [lia|].
  rewrite Z2Nat.id by lia. set (q := i / 8) in *. set (k := i mod 8) in *.
  replace i with (k + q * 8) by lia. unfold fixed_msr.
  replace (k + q * 8 - 8) with (k + (q - 1) * 8) by lia.
  replace (k + q * 8 - 24) with (k + (q - 3) * 8) by lia.
  replace (8 * q - 8) with ((q - 1) * 8) by lia. replace (8 * q - 24) with ((q - 3) * 8) by lia.
  rewrite !Z.div_add, !Z.div_mul, (Z.div_small k) by lia. repeat case_bool; bool_to_prop; lia.
Qed.

Lemma fixed_msr_distinct : NoDup (map (fun j => fixed_msr (8 * Z.of_nat j)) (seq 0 11)).
Proof. apply (bool_decide_unpack _). vm_compute. exact I. Qed.

Lemma rdmsr_enable_cache s i : rdmsr (enable_cache s) i = rdmsr s i.
Proof. done. Qed.

Lemma fixed_type_commit s p :
  0 <= p < 256 -> Forall (fun t => 0 <= t < 256) (fixed_mtrr_types s) ->
  fixed_type (commit_fixed_mtrrs s) p = nth (Z.to_nat (fixed_index p)) (fixed_mtrr_types s) 0.
Proof.
  intros Hp Hf. destruct (fixed_index_facts p Hp) as [Hi _].
  unfold fixed_type, commit_fixed_mtrrs. cbv zeta. rewrite fixed_msrs_list.
  destruct (fixed_index_split _ Hi) as (q & k & Hq & Hk & Hqk & Hmod & Hmsr).
  rewrite Hqk, Hmod, Hmsr. rewrite rdmsr_enable_cache.
  rewrite (wrmsr_list_in _ _ _ (pack_fixed_msr (fixed_mtrr_types s) (8 * q))).
  - by rewrite pack_fixed_msr_byte.
  - rewrite map_map. apply fixed_msr_distinct.
  - apply elem_of_map. exists q. split; [done|]. apply elem_of_seq. lia.
Qed.

Lemma fixed_type_enable s p :
  0 <= p < 256 -> fixed_type (enable_fixed_mtrr s) p = fixed_type s p.
Proof.
  intros Hp. pose proof (proj1 (fixed_index_facts p Hp)) as Hi.
  unfold enable_fixed_mtrr, fixed_type, wrmsr, rdmsr, emit. cbn [msrs].
  destruct (fixed_index_split _ Hi) as (q & k & Hq & _ & _ & _ & ->).
  rewrite (proj2 (Z.eqb_neq _ _)); [done|]. unfold MTRR_DEF_TYPE_MSR.
  do 11 (destruct q as [|q]; [done|]). lia.
Qed.

Lemma u8_range x : 0 <= u8 x < 256.
Proof. by apply (wrap_range 8). Qed.

Lemma fixed_types_range es : forall types desc types',
  Forall (fun t => 0 <= t < 256) types -> calc_fixed_loop es types desc = Some types' ->
  Forall (fun t => 0 <= t < 256) types'.
Proof.
  assert (Hfill : forall fuel types desc b e t i types' desc',
    Forall (fun t => 0 <= t < 256) types -> 0 <= t < 256 ->
    fill_fixed fuel types desc b e t i = Some (types', desc') ->
    Forall (fun t => 0 <= t < 256) types').
  { induction fuel as [|fuel IH]; intros types desc b e t i types' desc' Hf Ht; cbn [fill_fixed];
      (destruct (b =? e); [by intros [= <- <-]|]); [done|].
    destruct desc as [|d ds]; [done|]. destruct (_ <? _); [|done]. apply IH; [|done].
    apply Forall_insert; done. }
  induction es as [|r es IH]; intros types desc types' Hf; cbn [calc_fixed_loop]; [by intros [= <-]|].
  destruct (_ <=? _); [by intros [= <-]|]. cbv zeta.
  destruct (skip_descs _ desc) as [|d ds]; [done|].
  destruct (fill_fixed _ _ _ _ _ _ _) as [[types1 desc1]|] eqn:E; [|done].
  apply IH. eapply Hfill; [exact Hf|apply u8_range|exact E].
Qed.

(** C39.  When the entries below 1 MiB end on the boundaries of the
    fixed ranges, [x86_setup_fixed_mtrrs] terminates inside its tables, gives
    each of the 256 pages below 1 MiB the type of the entry over it (UC where
    there is none), and sets both enable bits. *)
Theorem x86_setup_fixed_mtrrs_correct st s sp ab :
  32 <= ab <= 43 -> addr_space s = Some sp -> mtrr_space ab sp ->
  Forall fixed_aligned (entries sp) -> fixed_mtrr_types_initialized s = false ->
  exists s', x86_setup_fixed_mtrrs st s = Some s' /\
    (forall p, 0 <= p < 256 -> fixed_type s' p =
       match tag_at (entries sp) (p * 4096) with Some t => u8 t | None => MTRR_TYPE_UNCACHEABLE end) /\
    msr_lo (rdmsr s' MTRR_DEF_TYPE_MSR) =
      Z.lor (msr_lo (rdmsr s MTRR_DEF_TYPE_MSR)) (Z.lor MTRR_DEF_TYPE_EN MTRR_DEF_TYPE_FIX_EN) /\
    fixed_mtrr_types_initialized s' = true.
Proof.
  intros Hab Hsome [Hwf Hpg] Hal Hinit.
  unfold x86_setup_fixed_mtrrs, x86_setup_fixed_mtrrs_no_enable, calc_fixed_mtrrs,
    get_physical_address_space. rewrite Hinit, Hsome.
  set (t0 := repeat MTRR_TYPE_UNCACHEABLE _).
  assert (Ht0 : Forall (fun t => 0 <= t < 256) t0) by (apply Forall_forall; intros x Hx;
    apply list_elem_of_In, repeat_spec in Hx; subst x; done).
  destruct (calc_fixed_loop_spec ab (entries sp) t0 0 0 Hab eq_refl Hpg Hwf Hal ltac:(lia) ltac:(lia))
    as (types & Hc & Hl & Ht). change (descs_at 0) with fixed_mtrr_desc in Hc. rewrite Hc. cbn [option_map].
  eexists. split; [done|]. split; [|split].
  - intros p Hp. rewrite fixed_type_enable by done.
    rewrite (fixed_type_commit _ p Hp); [|by apply (fixed_types_range _ _ _ _ Ht0 Hc)].
    cbn [fixed_mtrr_types]. rewrite Ht by done. destruct (tag_at _ _); [done|].
    unfold t0. by rewrite nth_repeat.
  - reflexivity.
  - reflexivity.
Qed.

(** *** Witness and concrete behaviour *)

Lemma board_space_fixed_aligned : Forall fixed_aligned (entries board_space).
Proof.
  unfold board_space. simpl. repeat (apply Forall_cons; split); try apply Forall_nil_2;
    (split; [intros _|intros H]; try (vm_compute in H; discriminate H); solve_divide).
Qed.

Lemma x86_setup_fixed_mtrrs_witness : exists s',
  x86_setup_fixed_mtrrs dstate_empty board_state = Some s' /\
  fixed_type s' 0x9f = 6 /\ fixed_type s' 0xa0 = 0.
Proof.
  destruct (x86_setup_fixed_mtrrs_correct dstate_empty board_state board_space 36)
    as (s' & Hs & Ht & _);
    [lia|reflexivity|exact board_space_ok|exact board_space_fixed_aligned|reflexivity|].
  exists s'. split; [exact Hs|]. split; (rewrite Ht by lia; reflexivity).
Defined.

(** An entry that ends off a fixed-range boundary (here
    conventional memory ending at 0x9f000, inside a 16 KiB range) makes the
    loop [while (begin != end)] step over its end and run out of
    [fixed_mtrr_types]. *)
Theorem calc_fixed_mtrrs_overrun :
  calc_fixed_mtrrs dstate_empty
    (set_addr_space (mk_memranges [mk_range 0 0x9efff 6; mk_range 0x9f000 0xffffffff 0] [])
       (initial_state (fun _ => zero_msr))) = None.
Proof. reflexivity. Qed.
