(* ===== verification/TimerQueue.v ===== *)
(** * The timer queue ([src/lib/timer_queue.c], [src/include/timer.h])

    A binary min-heap of callback pointers in a fixed array.  Expirations live
    in the callback structures, so the heap order is relative to a store.
    [long] is 32 bits. *)

From Stdlib Require Import ZifyNat Sorted.
From S2P Require Import Prelude.

(** ** Time *)

Definition mono_time := Z.
Definition mono_time_add_usecs (mt : mono_time) (us : Z) : mono_time := s32 (mt + us).
Definition mono_time_add_msecs (mt : mono_time) (ms : Z) : mono_time :=
  mono_time_add_usecs mt (s32 (ms * 1000)).
Definition mono_time_cmp (t1 t2 : mono_time) : Z :=
  if t1 =? t2 then 0 else if t1 <? t2 then -1 else 1.
Definition mono_time_after (t1 t2 : mono_time) : bool := 0 <? mono_time_cmp t1 t2.
Definition mono_time_before (t1 t2 : mono_time) : bool := mono_time_cmp t1 t2 <? 0.
Definition mono_time_diff_microseconds (t1 t2 : mono_time) : Z := s32 (t2 - t1).

(** ** The queue *)

Definition MAX_TIMER_QUEUE_ENTRIES : nat := 64.

(** [queue] is the whole array; slots from [num_entries] on are stale. *)
Record timer_queue := mk_queue { num_entries : nat; max_entries : nat; queue : list nat }.

Definition empty_queue : timer_queue :=
  mk_queue 0 MAX_TIMER_QUEUE_ENTRIES (repeat 0%nat MAX_TIMER_QUEUE_ENTRIES).

Definition timer_queue_empty (tq : timer_queue) : bool := (num_entries tq =? 0)%nat.
Definition timer_queue_full (tq : timer_queue) : bool := (num_entries tq =? max_entries tq)%nat.
Definition timer_queue_head (tq : timer_queue) : option nat :=
  if timer_queue_empty tq then None else Some (queue tq !!! 0%nat).

Section Queue.
(** The [expiration] field of every callback structure. *)
Variable expiration : nat -> mono_time.

(** [while (index != 0)] of the insertion; the parent's index is smaller, so
    [index] rounds are enough. *)
Fixpoint bubble_up (fuel : nat) (q : list nat) (tocb index : nat) : list nat :=
  match fuel with
  | O => q
  | S fuel' =>
      if (index =? 0)%nat then q
      else
        let parent_index := ((index - 1) / 2)%nat in
        let parent := q !!! parent_index in
        if mono_time_cmp (expiration parent) (expiration tocb) <=? 0 then q
        else
          let q := <[parent_index := tocb]> q in
          let q := <[index := parent]> q in
          bubble_up fuel' q tocb parent_index
  end.

Definition timer_queue_insert (tq : timer_queue) (tocb : nat) : Z * timer_queue :=
  if timer_queue_full tq then (-1, tq)
  else
    let index := num_entries tq in
    let q := <[index := tocb]> (queue tq) in
    (0, mk_queue (index + 1) (max_entries tq) (bubble_up index q tocb index)).

(** [-1] is [None]. *)
Definition timer_queue_min_child_index (num : nat) (q : list nat) (index : nat) : option nat :=
  let left_child_index := (2 * index + 1)%nat in
  if (num <=? left_child_index)%nat then None
  else
    let right_child_index := (left_child_index + 1)%nat in
    if (num <=? right_child_index)%nat then Some left_child_index
    else if mono_time_cmp (expiration (q !!! left_child_index))
                          (expiration (q !!! right_child_index)) <? 0
    then Some left_child_index
    else Some right_child_index.

(** [while (1)] of the removal; the index grows, so [num] rounds are enough. *)
Fixpoint bubble_down (fuel num : nat) (q : list nat) (tocb index : nat) : list nat :=
  match fuel with
  | O => q
  | S fuel' =>
      match timer_queue_min_child_index num q index with
      | None => q
      | Some min_child_index =>
          let child := q !!! min_child_index in
          if mono_time_cmp (expiration tocb) (expiration child) <=? 0 then q
          else
            let q := <[min_child_index := tocb]> q in
            let q := <[index := child]> q in
            bubble_down fuel' num q tocb min_child_index
      end
  end.

Definition timer_queue_remove_head (tq : timer_queue) : timer_queue :=
  let num := (num_entries tq - 1)%nat in
  let tocb := queue tq !!! num in
  let q := <[0%nat := tocb]> (queue tq) in
  mk_queue num (max_entries tq) (bubble_down (num + 1) num q tocb 0).

Definition timer_queue_expired (tq : timer_queue) (current_time : mono_time)
    : option nat * timer_queue :=
  match timer_queue_head tq with
  | None => (None, tq)
  | Some tocb =>
      if mono_time_before current_time (expiration tocb) then (None, tq)
      else (Some tocb, timer_queue_remove_head tq)
  end.
End Queue.

(** ** The global queue and its interface *)

Record timers := mk_timers { tq : timer_queue; expirations : nat -> mono_time }.

Definition set_expiration (e : nat -> mono_time) (p : nat) (t : mono_time) : nat -> mono_time :=
  fun x => if (x =? p)%nat then t else e x.

(** [now] is what [timer_monotonic_get] reports. *)
Definition timer_sched_callback (s : timers) (now : mono_time) (tocb : nat) (us : Z) : Z * timers :=
  if s32 us <? 0 then (-1, s)
  else
    let e := set_expiration (expirations s) tocb (mono_time_add_usecs now us) in
    let s := mk_timers (tq s) e in
    if negb (us =? 0) && negb (mono_time_before now (e tocb)) then (-1, s)
    else
      let '(ret, q) := timer_queue_insert e (tq s) tocb in (ret, mk_timers q e).

(** The callback to call, if any, and whether the queue is not empty after
    that call; [run_callback] is what the called code does to the timers. *)
Definition timers_run (run_callback : nat -> timers -> timers) (s : timers) (now : mono_time)
    : option nat * bool * timers :=
  let '(tocb, q) := timer_queue_expired (expirations s) (tq s) now in
  let s := mk_timers q (expirations s) in
  let s := match tocb with Some t => run_callback t s | None => s end in
  (tocb, negb (timer_queue_empty (tq s)), s).

(** ** Specification *)

(** The queued callbacks. *)
Definition queued (tq : timer_queue) : list nat := take (num_entries tq) (queue tq).

Definition parent (i : nat) : nat := ((i - 1) / 2)%nat.

Definition heap (e : nat -> mono_time) (q : list nat) (n : nat) : Prop :=
  forall i, (0 < i < n)%nat -> e (q !!! parent i) <= e (q !!! i).

Definition tq_ok (e : nat -> mono_time) (tq : timer_queue) : Prop :=
  (num_entries tq <= max_entries tq)%nat /\ length (queue tq) = max_entries tq /\
  heap e (queue tq) (num_entries tq).

(** ** Lemmas *)

Local Ltac Zify.zify_post_hook ::= Z.to_euclidean_division_equations.

Lemma mono_time_cmp_le a b : (mono_time_cmp a b <=? 0) = (a <=? b).
Proof. unfold mono_time_cmp. zbool. Qed.

Lemma mono_time_cmp_lt a b : (mono_time_cmp a b <? 0) = (a <? b).
Proof. unfold mono_time_cmp. zbool. Qed.

Lemma parent_lt i : (0 < i)%nat -> (parent i < i)%nat.
Proof. unfold parent. lia. Qed.

Lemma parent_children i j : (0 < j)%nat -> parent j = i <-> (j = 2 * i + 1 \/ j = 2 * i + 2)%nat.
Proof. unfold parent. lia. Qed.

(** Swapping two slots. *)
Definition swap (q : list nat) (i j : nat) : list nat := <[j := q !!! i]> (<[i := q !!! j]> q).

Lemma swap_lookup q i j k :
  (i < length q)%nat -> (j < length q)%nat ->
  swap q i j !!! k = if (k =? j)%nat then q !!! i else if (k =? i)%nat then q !!! j else q !!! k.
Proof.
  intros Hi Hj. unfold swap. destruct (Nat.eqb_spec k j) as [->|Hkj].
  - by rewrite list_lookup_total_insert_eq by (rewrite length_insert; lia).
  - rewrite list_lookup_total_insert_ne by done. destruct (Nat.eqb_spec k i) as [->|Hki].
    + by rewrite list_lookup_total_insert_eq.
    + by rewrite list_lookup_total_insert_ne.
Qed.

Lemma swap_length q i j : length (swap q i j) = length q.
Proof. unfold swap. by rewrite !length_insert. Qed.

Lemma swap_perm q i j : (i < length q)%nat -> (j < length q)%nat -> swap q i j ≡ₚ q.
Proof.
  intros Hi Hj. unfold swap. apply list_lookup_lookup_total_lt in Hi, Hj.
  by apply Permutation_insert_swap.
Qed.

(** Writing [tocb] into the parent slot and the parent into [index], where
    [index] held [tocb], is a swap. *)
Lemma swap_step q i j tocb :
  q !!! j = tocb -> (i < length q)%nat -> (j < length q)%nat ->
  <[j := q !!! i]> (<[i := tocb]> q) = swap q i j.
Proof. intros <- _ _. done. Qed.

(** Heap order everywhere, but for the slot [i], which may be too small for
    its place. *)
Definition up_inv (e : nat -> mono_time) (q : list nat) (n i : nat) : Prop :=
  (forall j, (0 < j < n)%nat -> j <> i -> e (q !!! parent j) <= e (q !!! j)) /\
  (forall j, (0 < i)%nat -> (0 < j < n)%nat -> parent j = i -> e (q !!! parent i) <= e (q !!! j)).

Lemma bubble_up_spec e tocb fuel : forall q n i,
  (i <= fuel)%nat -> (i < n)%nat -> (n <= length q)%nat -> q !!! i = tocb -> up_inv e q n i ->
  let q' := bubble_up e fuel q tocb i in
  heap e q' n /\ q' ≡ₚ q /\ length q' = length q /\ drop n q' = drop n q.
Proof.
  induction fuel as [|fuel IH]; intros q n i Hf Hi Hn Ht [H1 H2];
    cbn [bubble_up]; cbv zeta.
  { replace i with 0%nat in * by lia. split; [intros j Hj; apply H1; lia|done]. }
  destruct (Nat.eqb_spec i 0) as [->|Hi0].
  { split; [intros j Hj; apply H1; lia|done]. }
  fold (parent i). pose proof (parent_lt i ltac:(lia)) as Hp.
  rewrite mono_time_cmp_le. destruct (Z.leb_spec (e (q !!! parent i)) (e tocb)) as [Hle|Hgt].
  { split; [|done]. intros j Hj. destruct (Nat.eq_dec j i) as [->|]; [by rewrite Ht|by apply H1]. }
  rewrite (swap_step q (parent i) i) by (done || lia).
  set (q1 := swap q (parent i) i).
  assert (Hlk : forall k, q1 !!! k = if (k =? i)%nat then q !!! parent i
    else if (k =? parent i)%nat then tocb else q !!! k)
    by (intros k; unfold q1; rewrite swap_lookup by lia; by rewrite Ht).
  assert (Hlen : length q1 = length q) by apply swap_length.
  destruct (IH q1 n (parent i)) as (Hh & Hperm & Hl & Hd); try lia.
  - rewrite Hlk, (proj2 (Nat.eqb_neq _ _)) by lia. by rewrite Nat.eqb_refl.
  - split.
    + intros j Hj Hne. rewrite !Hlk. pose proof (parent_lt j ltac:(lia)).
      destruct (Nat.eqb_spec j i) as [->|Hji].
      * rewrite (proj2 (Nat.eqb_neq _ _)) by lia. rewrite Nat.eqb_refl. lia.
      * rewrite (proj2 (Nat.eqb_neq j (parent i))) by done.
        destruct (Nat.eqb_spec (parent j) i) as [Hpj|_]; [by apply H2; lia|].
        destruct (Nat.eqb_spec (parent j) (parent i)) as [Hpp|_]; [|by apply H1; lia].
        rewrite <- Hpp in Hgt. specialize (H1 j Hj Hji). lia.
    + intros j Hp0 Hj Hpj. rewrite !Hlk. pose proof (parent_lt (parent i) Hp0).
      rewrite !(proj2 (Nat.eqb_neq (parent (parent i)) _)) by lia.
      pose proof (parent_lt j ltac:(lia)). rewrite (proj2 (Nat.eqb_neq j (parent i))) by lia.
      assert (Hpi : e (q !!! parent (parent i)) <= e (q !!! parent i)) by (apply H1; lia).
      destruct (Nat.eqb_spec j i) as [->|Hji]; [done|].
      specialize (H1 j Hj Hji). rewrite Hpj in H1. lia.
  - split; [done|]. split; [rewrite Hperm; apply swap_perm; lia|]. split; [lia|]. rewrite Hd.
    unfold q1, swap. rewrite !drop_insert_lt by lia. done.
Qed.

Lemma min_child_spec e n q i :
  match timer_queue_min_child_index e n q i with
  | None => forall j, (0 < j < n)%nat -> parent j <> i
  | Some c => (0 < c < n)%nat /\ parent c = i /\
      forall j, (0 < j < n)%nat -> parent j = i -> e (q !!! c) <= e (q !!! j)
  end.
Proof.
  unfold timer_queue_min_child_index.
  destruct (Nat.leb_spec n (2 * i + 1)) as [Hl|Hl].
  { intros j Hj Hp. apply parent_children in Hp; lia. }
  destruct (Nat.leb_spec n (2 * i + 1 + 1)) as [Hr|Hr].
  { split; [lia|]. split; [apply parent_children; lia|].
    intros j Hj Hp. apply parent_children in Hp as [->| ->]; lia. }
  rewrite mono_time_cmp_lt. replace (2 * i + 1 + 1)%nat with (2 * i + 2)%nat in * by lia.
  destruct (Z.ltb_spec (e (q !!! (2 * i + 1)%nat)) (e (q !!! (2 * i + 2)%nat)));
    (split; [lia|]; split; [apply parent_children; lia|]);
    intros j Hj Hp; apply parent_children in Hp as [->| ->]; lia.
Qed.

(** Heap order everywhere, but for the slot [i], which may be too large for
    its place. *)
Definition down_inv (e : nat -> mono_time) (q : list nat) (n i : nat) : Prop :=
  (forall j, (0 < j < n)%nat -> parent j <> i -> e (q !!! parent j) <= e (q !!! j)) /\
  (forall j, (0 < i)%nat -> (0 < j < n)%nat -> parent j = i -> e (q !!! parent i) <= e (q !!! j)).

Lemma bubble_down_spec e tocb fuel : forall q n i,
  (n <= i + fuel)%nat -> (i < length q)%nat -> (n <= length q)%nat -> q !!! i = tocb ->
  (i < n \/ n = 0)%nat -> down_inv e q n i ->
  let q' := bubble_down e fuel n q tocb i in
  heap e q' n /\ q' ≡ₚ q /\ length q' = length q /\ drop n q' = drop n q.
Proof.
  induction fuel as [|fuel IH]; intros q n i Hf Hi Hn Ht Hin [H1 H2];
    cbn [bubble_down]; cbv zeta.
  { split; [|done]. intros j Hj. lia. }
  pose proof (min_child_spec e n q i) as Hc.
  destruct (timer_queue_min_child_index e n q i) as [c|].
  2:{ split; [|done]. intros j Hj. apply H1; [done|by apply Hc]. }
  destruct Hc as (Hcn & Hcp & Hmin). pose proof (parent_lt c ltac:(lia)) as Hlt.
  rewrite mono_time_cmp_le. destruct (Z.leb_spec (e tocb) (e (q !!! c))) as [Hle|Hgt].
  { split; [|done]. intros j Hj. destruct (Nat.eq_dec (parent j) i) as [Hp|Hp]; [|by apply H1].
    rewrite Hp, Ht. specialize (Hmin j Hj Hp). lia. }
  rewrite (swap_step q c i) by (done || lia).
  set (q1 := swap q c i).
  assert (Hlk : forall k, q1 !!! k = if (k =? i)%nat then q !!! c
    else if (k =? c)%nat then tocb else q !!! k)
    by (intros k; unfold q1; rewrite swap_lookup by lia; by rewrite Ht).
  assert (Hlen : length q1 = length q) by apply swap_length.
  destruct (IH q1 n c) as (Hh & Hperm & Hl & Hd); try lia.
  - rewrite Hlk, (proj2 (Nat.eqb_neq _ _)) by lia. by rewrite Nat.eqb_refl.
  - split.
    + intros j Hj Hne. rewrite !Hlk. pose proof (parent_lt j ltac:(lia)).
      rewrite (proj2 (Nat.eqb_neq (parent j) c)) by done.
      destruct (Nat.eqb_spec (parent j) i) as [Hpj|Hpj].
      * rewrite (proj2 (Nat.eqb_neq j i)) by lia.
        destruct (Nat.eqb_spec j c); [lia|]. by apply Hmin.
      * destruct (Nat.eqb_spec j i) as [->|Hji].
        { apply H2; done || lia. }
        destruct (Nat.eqb_spec j c) as [->|Hjc]; [done|]. by apply H1.
    + intros j Hc0 Hj Hpj. rewrite !Hlk. rewrite Hcp, Nat.eqb_refl.
      pose proof (parent_lt j ltac:(lia)).
      rewrite (proj2 (Nat.eqb_neq j i)), (proj2 (Nat.eqb_neq j c)) by lia.
      rewrite <- Hpj. apply H1; lia.
  - split; [done|]. split; [rewrite Hperm; apply swap_perm; lia|]. split; [lia|]. rewrite Hd.
    unfold q1, swap. rewrite !drop_insert_lt by lia. done.
Qed.

(** The root of a heap is least. *)
Lemma heap_min e q n i : heap e q n -> (i < n)%nat -> e (q !!! 0%nat) <= e (q !!! i).
Proof.
  intros Hh. induction i as [i IH] using lt_wf_ind. intros Hi.
  destruct (Nat.eq_dec i 0%nat) as [->|Hne]; [lia|].
  pose proof (parent_lt i ltac:(lia)) as Hp. specialize (IH (parent i) Hp ltac:(lia)).
  specialize (Hh i ltac:(lia)). lia.
Qed.

Lemma take_perm (q q' : list nat) n : q' ≡ₚ q -> drop n q' = drop n q -> take n q' ≡ₚ take n q.
Proof.
  intros Hp Hd. apply (Permutation_app_inv_r (drop n q)).
  rewrite <- Hd at 1. by rewrite !take_drop.
Qed.

Lemma insert_ok e tq p :
  tq_ok e tq -> timer_queue_full tq = false ->
  let '(ret, tq') := timer_queue_insert e tq p in
  ret = 0 /\ tq_ok e tq' /\ queued tq' ≡ₚ p :: queued tq /\ max_entries tq' = max_entries tq.
Proof.
  intros (Hn & Hl & Hh) Hfull. unfold timer_queue_insert. rewrite Hfull.
  unfold timer_queue_full in Hfull. apply Nat.eqb_neq in Hfull.
  set (n := num_entries tq) in *. set (q := <[n := p]> (queue tq)).
  assert (Hlq : length q = max_entries tq) by (unfold q; by rewrite length_insert).
  assert (Hq : forall i, q !!! i = if (i =? n)%nat then p else queue tq !!! i).
  { intros i. unfold q. destruct (Nat.eqb_spec i n) as [->|].
    - rewrite list_lookup_total_insert_eq by lia. done.
    - by rewrite list_lookup_total_insert_ne. }
  destruct (bubble_up_spec e p n q (n + 1) n) as (Hh' & Hp & Hl' & Hd); try lia.
  { rewrite Hq. by rewrite Nat.eqb_refl. }
  { split.
    - intros j Hj Hne. rewrite !Hq. pose proof (parent_lt j ltac:(lia)).
      rewrite !(proj2 (Nat.eqb_neq _ n)) by lia. apply Hh. lia.
    - intros j Hn0 Hj Hpj. pose proof (parent_lt j ltac:(lia)). lia. }
  split; [done|]. split; [split; [simpl; lia|split; [simpl; lia|done]]|]. split; [|done].
  unfold queued. cbn [num_entries queue].
  rewrite (take_perm q _ (n + 1) Hp Hd). unfold q. fold n.
  replace (n + 1)%nat with (S n) by lia.
  rewrite (take_S_r _ _ p) by (apply list_lookup_insert_eq; lia).
  rewrite take_insert_ge by lia. by rewrite Permutation_app_comm.
Qed.

Lemma remove_head_ok e tq :
  tq_ok e tq -> num_entries tq <> 0%nat ->
  tq_ok e (timer_queue_remove_head e tq) /\
  queued tq ≡ₚ queue tq !!! 0%nat :: queued (timer_queue_remove_head e tq) /\
  max_entries (timer_queue_remove_head e tq) = max_entries tq.
Proof.
  intros (Hn & Hl & Hh) Hne. unfold timer_queue_remove_head.
  set (n := (num_entries tq - 1)%nat). set (p := queue tq !!! n). set (q := <[0%nat := p]> (queue tq)).
  assert (Hlq : length q = max_entries tq) by (unfold q; by rewrite length_insert).
  assert (Hq : forall i, q !!! i = if (i =? 0)%nat then p else queue tq !!! i).
  { intros i. unfold q. destruct (Nat.eqb_spec i 0) as [->|].
    - rewrite list_lookup_total_insert_eq by lia. done.
    - by rewrite list_lookup_total_insert_ne. }
  destruct (bubble_down_spec e p (n + 1) q n 0) as (Hh' & Hp & Hl' & Hd); try lia.
  { by rewrite Hq. }
  { split.
    - intros j Hj Hne'. rewrite !Hq. rewrite (proj2 (Nat.eqb_neq j 0)) by lia.
      rewrite (proj2 (Nat.eqb_neq (parent j) 0)) by done. apply Hh. lia.
    - intros j H0. lia. }
  split; [split; [simpl; lia|split; [simpl; lia|done]]|]. split; [|done].
  unfold queued. cbn [num_entries queue]. rewrite (take_perm q _ n Hp Hd). unfold q.
  replace (num_entries tq) with (S n) by lia.
  rewrite (take_S_r _ _ p) by (apply list_lookup_lookup_total_lt; lia).
  destruct (queue tq) as [|h rest] eqn:Eq; [simpl in *; lia|]. destruct n as [|n'] eqn:En.
  - subst p. simpl. done.
  - simpl. rewrite (Permutation_app_comm (take n' rest)). simpl. done.
Qed.

(** [timers_run] until nothing is due at [now]; [fuel] calls. *)
Fixpoint drain (e : nat -> mono_time) (fuel : nat) (tq : timer_queue) (now : mono_time)
    : list nat * timer_queue :=
  match fuel with
  | O => ([], tq)
  | S fuel' =>
      match timer_queue_expired e tq now with
      | (None, tq) => ([], tq)
      | (Some p, tq) => let '(l, tq) := drain e fuel' tq now in (p :: l, tq)
      end
  end.

Lemma expired_ok e tq now :
  tq_ok e tq ->
  match timer_queue_expired e tq now with
  | (Some p, tq') => e p <= now /\ Forall (fun c => e p <= e c) (queued tq) /\
      queued tq ≡ₚ p :: queued tq' /\ tq_ok e tq' /\ num_entries tq = S (num_entries tq')
  | (None, tq') => tq' = tq /\ Forall (fun c => now < e c) (queued tq)
  end.
Proof.
  intros Hok. unfold timer_queue_expired, timer_queue_head, timer_queue_empty, mono_time_before.
  destruct (Nat.eqb_spec (num_entries tq) 0) as [H0|H0].
  { split; [done|]. unfold queued. rewrite H0. constructor. }
  pose proof Hok as (Hn & Hl & Hh).
  assert (Hmin : Forall (fun c => e (queue tq !!! 0%nat) <= e c) (queued tq)).
  { apply Forall_forall. intros c Hc. unfold queued in Hc.
    apply list_elem_of_lookup in Hc as [i Hi]. pose proof (lookup_lt_Some _ _ _ Hi) as Hlt.
    rewrite length_take in Hlt. rewrite lookup_take_lt in Hi by lia.
    rewrite <- (list_lookup_total_correct _ _ _ Hi). apply (heap_min e _ (num_entries tq)); [done|lia]. }
  rewrite mono_time_cmp_lt. case_bool; bool_to_prop.
  - split; [done|]. eapply Forall_impl; [exact Hmin|]. simpl. lia.
  - destruct (remove_head_ok e tq Hok H0) as (Hok' & Hp & _).
    split; [done|]. split; [done|]. split; [done|]. split; [done|]. simpl. lia.
Qed.

Lemma drain_ok e now fuel : forall tq,
  tq_ok e tq -> (num_entries tq <= fuel)%nat ->
  let '(fired, tq') := drain e fuel tq now in
  tq_ok e tq' /\ queued tq ≡ₚ fired ++ queued tq' /\
  StronglySorted (fun p c => e p <= e c) fired /\
  Forall (fun p => e p <= now) fired /\ Forall (fun p => now < e p) (queued tq').
Proof.
  induction fuel as [|fuel IH]; intros tq Hok Hf; cbn [drain].
  { split; [done|]. split; [done|]. split; [constructor|]. split; [constructor|].
    unfold queued. replace (num_entries tq) with 0%nat by lia. constructor. }
  pose proof (expired_ok e tq now Hok) as H.
  destruct (timer_queue_expired e tq now) as [[p|] tq'].
  - destruct H as (Hp & Hmin & Hperm & Hok' & Hn). specialize (IH tq' Hok' ltac:(lia)).
    destruct (drain e fuel tq' now) as [fired tq'']. destruct IH as (I1 & I2 & I3 & I4 & I5).
    split; [done|]. split; [by rewrite Hperm, I2|]. split; [|split; [by constructor|done]].
    constructor; [done|]. rewrite Hperm in Hmin. apply Forall_cons in Hmin as [_ Hmin].
    rewrite I2 in Hmin. by apply Forall_app in Hmin as [Hmin _].
  - destruct H as [-> Hall]. split; [done|]. split; [done|]. split; [constructor|]. split; [constructor|done].
Qed.

(** ** Reachable states *)

(** From boot: schedule a callback that is not queued, or run the due one.
    What a called callback does in turn is further steps. *)
Inductive reach : timers -> Prop :=
  | reach_init e : reach (mk_timers empty_queue e)
  | reach_sched s now p us :
      reach s -> p ∉ queued (tq s) -> reach (snd (timer_sched_callback s now p us))
  | reach_run s now :
      reach s -> reach (snd (timers_run (fun _ s => s) s now)).

Definition timers_ok (s : timers) : Prop :=
  tq_ok (expirations s) (tq s) /\ NoDup (queued (tq s)) /\
  max_entries (tq s) = MAX_TIMER_QUEUE_ENTRIES.

Lemma tq_ok_ext e e' tq :
  (forall p, p ∈ queued tq -> e' p = e p) -> tq_ok e tq -> tq_ok e' tq.
Proof.
  intros He (Hn & Hl & Hh). split; [done|]. split; [done|]. intros i Hi.
  pose proof (parent_lt i ltac:(lia)).
  assert (Hin : forall j, (j < num_entries tq)%nat -> queue tq !!! j ∈ queued tq).
  { intros j Hj. apply list_elem_of_lookup. exists j. unfold queued. rewrite lookup_take_lt by done.
    apply list_lookup_lookup_total_lt. lia. }
  rewrite !He by (apply Hin; lia). by apply Hh.
Qed.

Lemma set_expiration_same e p t : set_expiration e p t p = t.
Proof. unfold set_expiration. by rewrite Nat.eqb_refl. Qed.

Lemma set_expiration_other e p t q : q <> p -> set_expiration e p t q = e q.
Proof. intros H. unfold set_expiration. by rewrite (proj2 (Nat.eqb_neq _ _)). Qed.

Lemma sched_ok s now p us :
  timers_ok s -> p ∉ queued (tq s) ->
  let '(ret, s') := timer_sched_callback s now p us in
  timers_ok s' /\
  (ret = 0 /\ queued (tq s') ≡ₚ p :: queued (tq s) /\ timer_queue_full (tq s) = false \/
   ret = -1 /\ tq s' = tq s) /\
  (forall q, q <> p -> expirations s' q = expirations s q).
Proof.
  intros (Hok & Hnd & Hmax) Hp. unfold timer_sched_callback.
  destruct (s32 us <? 0); [split; [exact (conj Hok (conj Hnd Hmax))|split; [by right|done]]|]. cbv zeta. cbn [expirations tq].
  set (e := set_expiration _ _ _).
  assert (Hok' : tq_ok e (tq s)).
  { apply (tq_ok_ext (expirations s)); [|done]. intros q Hq. apply set_expiration_other. by intros ->. }
  assert (Hoth : forall q, q <> p -> e q = expirations s q) by apply set_expiration_other.
  assert (Hok2 : timers_ok (mk_timers (tq s) e)) by exact (conj Hok' (conj Hnd Hmax)).
  case_bool; [split; [exact Hok2|split; [by right|done]]|].
  destruct (timer_queue_full (tq s)) eqn:Hf.
  - unfold timer_queue_insert. rewrite Hf. split; [done|]. split; [by right|done].
  - pose proof (insert_ok e (tq s) p Hok' Hf) as H.
    destruct (timer_queue_insert e (tq s) p) as [ret q']. destruct H as (-> & H1 & H2 & H3).
    split; [|split; [by left|done]]. split; [done|]. split; [|by rewrite <- Hmax].
    cbn [tq]. rewrite H2. by constructor.
Qed.

Lemma run_ok s now :
  timers_ok s ->
  let '(p, more, s') := timers_run (fun _ s => s) s now in
  timers_ok s' /\ expirations s' = expirations s /\ more = negb (timer_queue_empty (tq s')) /\
  match p with
  | Some p => expirations s p <= now /\ Forall (fun c => expirations s p <= expirations s c) (queued (tq s)) /\
              queued (tq s) ≡ₚ p :: queued (tq s')
  | None => tq s' = tq s /\ Forall (fun c => now < expirations s c) (queued (tq s))
  end.
Proof.
  intros (Hok & Hnd & Hmax). unfold timers_run. pose proof (expired_ok _ (tq s) now Hok) as H.
  destruct (timer_queue_expired (expirations s) (tq s) now) as [[p|] tq'] eqn:E; cbn [tq expirations].
  - destruct H as (H1 & H2 & H3 & H4 & H5). split; [|by split; [|split; [|split]]].
    split; [done|]. split; [rewrite H3 in Hnd; by apply NoDup_cons in Hnd as [_ ?]|].
    revert E. unfold timer_queue_expired. destruct (timer_queue_head (tq s)); [|done].
    case_bool; [done|]. intros [= _ <-]. done.
  - destruct H as [-> H]. split; [exact (conj Hok (conj Hnd Hmax))|]. by split_and!.
Qed.

Lemma reach_ok s : reach s -> timers_ok s.
Proof.
  induction 1 as [e|s now p us _ IH Hp|s now _ IH].
  - split; [split; [simpl; lia|split; [done|intros i Hi; simpl in Hi; lia]]|]. split; [constructor|done].
  - pose proof (sched_ok s now p us IH Hp) as H. destruct (timer_sched_callback s now p us) as [? ?]. apply H.
  - pose proof (run_ok s now IH) as H. destruct (timers_run _ s now) as [[? ?] ?]. apply H.
Qed.

(** ** Theorems *)

(** C29.  In every reachable state the queue is a min-heap of distinct
    callbacks within its 64 slots, as long as no queued callback is scheduled
    again. *)
Theorem timer_queue_invariant s :
  reach s ->
  heap (expirations s) (queue (tq s)) (num_entries (tq s)) /\ NoDup (queued (tq s)) /\
  (num_entries (tq s) <= MAX_TIMER_QUEUE_ENTRIES)%nat /\
  length (queue (tq s)) = MAX_TIMER_QUEUE_ENTRIES.
Proof.
  intros H. apply reach_ok in H as ((Hn & Hl & Hh) & Hnd & Hmax). by rewrite <- Hmax.
Qed.

(** [timer_sched_callback] of a callback that is not queued
    succeeds exactly when the delay is a non-negative [long], the expiration
    does not overflow and a slot is free; then it is queued, once, to expire at
    [now + us].  Otherwise it returns -1 and the queue is as before. *)
Theorem timer_sched_callback_correct s now p us :
  reach s -> p ∉ queued (tq s) -> 0 <= us < 2 ^ 32 -> 0 <= now < 2 ^ 31 ->
  let '(ret, s') := timer_sched_callback s now p us in
  (ret = 0 <-> us < 2 ^ 31 /\ now + us < 2 ^ 31 /\
               (num_entries (tq s) < MAX_TIMER_QUEUE_ENTRIES)%nat) /\
  (ret = 0 -> queued (tq s') ≡ₚ p :: queued (tq s) /\ expirations s' p = now + us) /\
  (ret <> 0 -> ret = -1 /\ tq s' = tq s) /\
  (forall q, q <> p -> expirations s' q = expirations s q).
Proof.
  intros Hr Hp Hus Hnow. apply reach_ok in Hr. pose proof (sched_ok s now p us Hr Hp) as H.
  destruct Hr as ((Hn & _) & _ & Hmax). unfold timer_sched_callback in *.
  assert (Hs : s32 us = if us <? 2 ^ 31 then us else us - 2 ^ 32)
    by (unfold s32, swrap; rewrite wrap_small by lia; done).
  destruct (Z.ltb_spec (s32 us) 0) as [Hneg|Hpos].
  { revert Hs. case_bool; bool_to_prop; intros Hs; [lia|].
    split; [split; [done|lia]|]. split; [done|]. by split. }
  assert (Hlt : us < 2 ^ 31) by (revert Hs; case_bool; bool_to_prop; lia).
  cbv zeta in *. rewrite set_expiration_same in *.
  assert (Hadd : mono_time_add_usecs now us = if now + us <? 2 ^ 31 then now + us else now + us - 2 ^ 32)
    by (unfold mono_time_add_usecs, s32, swrap; rewrite wrap_small by lia; done).
  unfold mono_time_before in *. rewrite mono_time_cmp_lt in *. cbn [tq expirations] in *.
  destruct (negb (us =? 0) && negb (now <? mono_time_add_usecs now us)) eqn:Eo.
  { bool_to_prop. destruct H as (_ & _ & Hoth). rewrite Hadd in *.
    split; [split; [done|]|split; [done|by split]]. revert H1. case_bool; bool_to_prop; lia. }
  assert (Hov : now + us < 2 ^ 31).
  { apply andb_false_iff in Eo as [Eo|Eo]; bool_to_prop; [lia|]. rewrite Hadd in Eo.
    revert Eo. case_bool; bool_to_prop; lia. }
  destruct (timer_queue_insert _ (tq s) p) as [ret q'] eqn:Ei. cbn [tq expirations] in *.
  destruct H as (_ & [(-> & Hq & Hf)|[-> Hq]] & Hoth); unfold timer_queue_full in *.
  - apply Nat.eqb_neq in Hf. split; [split; [intros _; lia|done]|]. split; [|by split].
    intros _. split; [done|]. rewrite set_expiration_same, Hadd. by rewrite (proj2 (Z.ltb_lt _ _)).
  - split; [|split; [done|by split]]. split; [done|]. intros (_ & _ & Hlt').
    unfold timer_queue_insert, timer_queue_full in Ei. rewrite (proj2 (Nat.eqb_neq _ _)) in Ei by lia.
    done.
Qed.

(** [timers_run] calls the callback with the earliest expiration
    when that is due and takes exactly it off the queue; it calls nothing when
    none is due; its result tells whether callbacks are left. *)
Theorem timers_run_correct s now :
  reach s ->
  let '(p, more, s') := timers_run (fun _ s => s) s now in
  (more = true <-> queued (tq s') <> []) /\
  match p with
  | Some p => expirations s p <= now /\ Forall (fun c => expirations s p <= expirations s c) (queued (tq s)) /\
              queued (tq s) ≡ₚ p :: queued (tq s')
  | None => tq s' = tq s /\ Forall (fun c => now < expirations s c) (queued (tq s))
  end.
Proof.
  intros Hr. apply reach_ok in Hr. pose proof (run_ok s now Hr) as H.
  destruct (timers_run _ s now) as [[p more] s']. destruct H as (((Hn & Hl & _) & _) & _ & -> & H).
  split; [|done]. unfold timer_queue_empty, queued.
  destruct (Nat.eqb_spec (num_entries (tq s')) 0) as [->|Hne]; [done|]. split; [|done].
  intros _ He. apply (f_equal length) in He. rewrite length_take in He. simpl in He. lia.
Qed.

(** Repeated runs at one time call exactly the callbacks that
    are due, each once, in order of expiration. *)
Theorem timers_drain_sorted s now :
  reach s ->
  let '(fired, q) := drain (expirations s) (num_entries (tq s)) (tq s) now in
  queued (tq s) ≡ₚ fired ++ queued q /\
  StronglySorted (fun p c => expirations s p <= expirations s c) fired /\
  Forall (fun p => expirations s p <= now) fired /\
  Forall (fun p => now < expirations s p) (queued q).
Proof.
  intros Hr. apply reach_ok in Hr as (Hok & _).
  pose proof (drain_ok (expirations s) now (num_entries (tq s)) (tq s) Hok ltac:(done)) as H.
  destruct (drain _ _ (tq s) now) as [fired q]. tauto.
Qed.

(** *** Witnesses *)

Definition demo_timers : timers :=
  snd (timer_sched_callback
    (snd (timer_sched_callback
      (snd (timer_sched_callback (mk_timers empty_queue (fun _ => 0)) 10 1 30)) 11 2 5)) 12 3 50).

Lemma demo_reach : reach demo_timers.
Proof.
  unfold demo_timers.
  apply reach_sched; [apply reach_sched; [apply reach_sched; [constructor|]|]|];
    apply (bool_decide_unpack _); vm_compute; exact I.
Qed.

Lemma timer_queue_invariant_witness : heap (expirations demo_timers) (queue (tq demo_timers)) 3.
Proof. exact (proj1 (timer_queue_invariant demo_timers demo_reach)). Defined.

Lemma timer_sched_callback_witness :
  expirations (snd (timer_sched_callback demo_timers 20 4 7)) 4%nat = 27.
Proof.
  pose proof (timer_sched_callback_correct demo_timers 20 4 7 demo_reach
    ltac:(apply (bool_decide_unpack _); vm_compute; exact I) ltac:(lia) ltac:(lia)) as H.
  destruct (timer_sched_callback demo_timers 20 4 7) as [ret s'] eqn:E.
  destruct H as (_ & H & _). apply H. apply (f_equal fst) in E. vm_compute in E. by symmetry.
Defined.

Lemma timers_run_witness :
  fst (fst (timers_run (fun _ s => s) demo_timers 16)) = Some 2%nat /\
  Forall (fun c => 16 <= expirations demo_timers c) (queued (tq demo_timers)).
Proof.
  pose proof (timers_run_correct demo_timers 16 demo_reach) as H.
  destruct (timers_run (fun _ s => s) demo_timers 16) as [[p more] s'] eqn:E.
  assert (Hp : p = Some 2%nat) by (apply (f_equal (fun x => fst (fst x))) in E; vm_compute in E; by symmetry).
  subst p. destruct H as (_ & _ & H & _). split; [reflexivity|exact H].
Defined.

Lemma timers_drain_witness :
  fst (drain (expirations demo_timers) 3 (tq demo_timers) 50) = [2; 1]%nat /\
  Forall (fun p => expirations demo_timers p <= 50) [2; 1]%nat.
Proof.
  pose proof (timers_drain_sorted demo_timers 50 demo_reach) as H.
  change (num_entries (tq demo_timers)) with 3%nat in H.
  destruct (drain (expirations demo_timers) 3 (tq demo_timers) 50) as [fired q] eqn:E.
  assert (Hf : fired = [2; 1]%nat) by (apply (f_equal fst) in E; vm_compute in E; by symmetry).
  subst fired. destruct H as (_ & _ & H & _). split; [reflexivity|exact H].
Defined.
