(* ===== verification/Region.v ===== *)
(** * Region devices and memory pools
    ([src/commonlib/region.c], [src/commonlib/mem_pool.c] and their headers)

    A region device is a window onto a root device.  Roots are memory, a
    translation to another device, a pair of devices for reads and writes, or
    a driver supplied by the platform.  Sizes and offsets are 32 bits. *)

From S2P Require Import Prelude.

(** ** Regions *)

Record region := mk_region { offset : Z; size : Z }.

Definition region_offset (r : region) : Z := offset r.
Definition region_sz (r : region) : Z := size r.
Definition region_end (r : region) : Z := u32 (region_sz r + region_offset r).

Definition is_subregion (p c : region) : bool :=
  if region_offset c <? region_offset p then false
  else if region_sz p <? region_sz c then false
  else if region_end p <? region_end c then false
  else true.

(** The request in root coordinates, and whether it is accepted. *)
Definition normalize_and_ok (outer inner : region) : region * bool :=
  let inner := mk_region (u32 (offset inner + region_offset outer)) (size inner) in
  (inner, is_subregion outer inner).

(** ** Memory pools *)

Record mem_pool := mk_pool
  { pool_buf : Z; pool_size : Z; last_alloc : option Z; free_offset : Z }.

Definition mem_pool_reset (mp : mem_pool) : mem_pool :=
  mk_pool (pool_buf mp) (pool_size mp) None 0.

Definition mem_pool_init (buf sz : Z) : mem_pool :=
  mem_pool_reset (mk_pool buf sz None 0).

Definition mem_pool_alloc (mp : mem_pool) (sz : Z) : option Z * mem_pool :=
  let sz := ALIGN_UP 32 sz 8 in
  if u32 (pool_size mp - free_offset mp) <? sz then (None, mp)
  else
    let p := u32 (pool_buf mp + free_offset mp) in
    (Some p, mk_pool (pool_buf mp) (pool_size mp) (Some p) (u32 (free_offset mp + sz))).

(** [p] is [None] for NULL. *)
Definition mem_pool_free (mp : mem_pool) (p : option Z) : mem_pool :=
  match p, last_alloc mp with
  | Some p, Some l =>
      if l =? p then mk_pool (pool_buf mp) (pool_size mp) None (u32 (l - pool_buf mp)) else mp
  | _, _ => mp
  end.

(** ** Devices *)

(** Root devices: what [rdev_root] returns.  The [nat] stands for the object's
    address, which [rdev_relative_offset] compares.  [dev_region] is the
    root's own [region] field. *)
Inductive root_dev :=
  | mem_region_device (id : nat) (rw : bool) (base : Z) (dev_region : region)
  | xlate_region_device (id : nat) (rw : bool) (access_root : root_dev) (access_region : region)
      (sub_region : region) (dev_region : region)
  | incoherent_rdev (id : nat) (read_root : root_dev) (read_region : region)
      (write_root : root_dev) (write_region : region) (dev_region : region)
  | driver_device (id : nat) (dev_region : region).

Definition root_id (r : root_dev) : nat :=
  match r with
  | mem_region_device id _ _ _ | xlate_region_device id _ _ _ _ _
  | incoherent_rdev id _ _ _ _ _ | driver_device id _ => id
  end.

Definition root_region (r : root_dev) : region :=
  match r with
  | mem_region_device _ _ _ r | xlate_region_device _ _ _ _ _ r
  | incoherent_rdev _ _ _ _ _ r | driver_device _ r => r
  end.

(** [rdev_of r] is the root itself seen as a [struct region_device]
    ([root == NULL]); a chained child keeps the root and its own region. *)
Record region_device := mk_rdev { rdev_root : root_dev; rdev_region : region }.
Definition rdev_of (r : root_dev) : region_device := mk_rdev r (root_region r).

Definition region_device_sz (rd : region_device) : Z := region_sz (rdev_region rd).
Definition region_device_offset (rd : region_device) : Z := region_offset (rdev_region rd).

Definition mem_region_device_init (id : nat) (rw : bool) (base sz : Z) : root_dev :=
  mem_region_device id rw base (mk_region 0 sz).
Definition mem_region_device_ro_init (id : nat) (base sz : Z) : root_dev :=
  mem_region_device_init id false base sz.
Definition mem_region_device_rw_init (id : nat) (base sz : Z) : root_dev :=
  mem_region_device_init id true base sz.

Definition xlate_region_device_init (id : nat) (rw : bool) (access_dev : region_device)
    (sub_offset sub_size parent_size : Z) : root_dev :=
  xlate_region_device id rw (rdev_root access_dev) (rdev_region access_dev)
    (mk_region sub_offset sub_size) (mk_region 0 parent_size).
Definition xlate_region_device_ro_init (id : nat) := xlate_region_device_init id false.
Definition xlate_region_device_rw_init (id : nat) := xlate_region_device_init id true.

Definition incoherent_rdev_init (id : nat) (r : region) (read write : region_device)
    : option region_device :=
  let sz := region_sz r in
  if negb (sz =? region_device_sz read) || negb (sz =? region_device_sz write) then None
  else Some (rdev_of (incoherent_rdev id (rdev_root read) (rdev_region read)
                        (rdev_root write) (rdev_region write) (mk_region 0 sz))).

Definition rdev_chain (parent : region_device) (off sz : Z) : option region_device :=
  let '(req, ok) := normalize_and_ok (rdev_region parent) (mk_region off sz) in
  if ok then Some (mk_rdev (rdev_root parent) req) else None.

Definition rdev_relative_offset (p c : region_device) : Z :=
  if negb (root_id (rdev_root p) =? root_id (rdev_root c))%nat then -1
  else if negb (is_subregion (rdev_region p) (rdev_region c)) then -1
  else s32 (region_device_offset c - region_device_offset p).

(** ** Access

    Memory is a function from 32-bit addresses to bytes.  A driver is platform
    code: its functions are parameters, a missing one is [None]. *)

Definition load (m : Z -> Z) (a n : Z) : list Z :=
  map (fun i => m (u32 (a + Z.of_nat i))) (seq 0 (Z.to_nat n)).

Definition store (m : Z -> Z) (a : Z) (l : list Z) : Z -> Z :=
  fun x => let i := u32 (x - a) in if i <? Z.of_nat (length l) then nth (Z.to_nat i) l 0 else m x.

Section Access.
Context {D : Type}.
Variable drv_readat : D -> nat -> Z -> Z -> Z * list Z.
Variable drv_writeat : option (D -> nat -> Z -> list Z -> Z * D).
Variable drv_eraseat : option (D -> nat -> Z -> Z -> Z * D).

Record rstate := mk_rstate { mem : Z -> Z; pools : gmap nat mem_pool; drv : D }.

Definition set_mem (m : Z -> Z) (s : rstate) : rstate := mk_rstate m (pools s) (drv s).
Definition set_drv (d : D) (s : rstate) : rstate := mk_rstate (mem s) (pools s) d.
Definition set_pool (id : nat) (p : mem_pool) (s : rstate) : rstate :=
  mk_rstate (mem s) (<[id := p]> (pools s)) (drv s).
Definition get_pool (s : rstate) (id : nat) : mem_pool := default (mem_pool_init 0 0) (pools s !! id).

(** The request check every [rdev_*] function starts with. *)
Definition checked {A} (outer : region) (off sz : Z) (err : A) (op : Z -> Z -> A) : A :=
  let '(req, ok) := normalize_and_ok outer (mk_region off sz) in
  if ok then op (offset req) (size req) else err.

(** The translation of an [xlate] device: inside the window, relative to it. *)
Definition xlated {A} (sub : region) (off sz : Z) (err : A) (op : Z -> A) : A :=
  if is_subregion sub (mk_region off sz) then op (u32 (off - region_offset sub)) else err.

(** The handlers of the device kinds.  [access] is the handler of the device
    an [xlate] or incoherent device is built on; [areg], [rreg] and [wreg] are
    the regions of those devices, which [rdev_*] checks. *)
Definition mdev_readat (s : rstate) (base off sz : Z) : Z * list Z :=
  (s32 sz, load (mem s) (u32 (base + off)) sz).

Definition xlate_readat (access : Z -> Z -> Z * list Z) (areg sub : region) (off sz : Z)
    : Z * list Z :=
  xlated sub off sz (-1, []) (fun off => checked areg off sz (-1, []) access).

Definition incoherent_readat (access : Z -> Z -> Z * list Z) (rreg : region) (off sz : Z)
    : Z * list Z :=
  checked rreg off sz (-1, []) access.

(** [rdev->ops->readat]. *)
Fixpoint root_readat (s : rstate) (r : root_dev) (off sz : Z) : Z * list Z :=
  match r with
  | mem_region_device _ _ base _ => mdev_readat s base off sz
  | xlate_region_device _ _ ar areg sub _ => xlate_readat (root_readat s ar) areg sub off sz
  | incoherent_rdev _ rr rreg _ _ _ => incoherent_readat (root_readat s rr) rreg off sz
  | driver_device id _ => drv_readat (drv s) id off sz
  end.

Definition rdev_readat (s : rstate) (rd : region_device) (off sz : Z) : Z * list Z :=
  checked (rdev_region rd) off sz (-1, []) (root_readat s (rdev_root rd)).

Definition mdev_writeat (s : rstate) (base : Z) (b : list Z) (off sz : Z) : Z * rstate :=
  (s32 sz, set_mem (store (mem s) (u32 (base + off)) b) s).

Definition xlate_writeat (s : rstate) (access : Z -> Z -> Z * rstate) (areg sub : region)
    (off sz : Z) : Z * rstate :=
  xlated sub off sz (-1, s) (fun off => checked areg off sz (-1, s) access).

Definition incoherent_writeat (s : rstate) (access : Z -> Z -> Z * rstate) (wreg : region)
    (off sz : Z) : Z * rstate :=
  checked wreg off sz (-1, s) access.

(** [rdev->ops->writeat]; the read-only operation tables have none. *)
Fixpoint root_writeat (s : rstate) (r : root_dev) (b : list Z) (off sz : Z) : Z * rstate :=
  match r with
  | mem_region_device _ rw base _ =>
      if rw then mdev_writeat s base b off sz else (-1, s)
  | xlate_region_device _ rw ar areg sub _ =>
      if rw then xlate_writeat s (root_writeat s ar b) areg sub off sz else (-1, s)
  | incoherent_rdev _ _ _ wr wreg _ => incoherent_writeat s (root_writeat s wr b) wreg off sz
  | driver_device id _ =>
      match drv_writeat with
      | None => (-1, s)
      | Some f => let '(ret, d) := f (drv s) id off b in (ret, set_drv d s)
      end
  end.

(** [b] holds the [size] bytes to write. *)
Definition rdev_writeat (s : rstate) (rd : region_device) (b : list Z) (off : Z) : Z * rstate :=
  let sz := Z.of_nat (length b) in
  checked (rdev_region rd) off sz (-1, s) (root_writeat s (rdev_root rd) b).

Definition mdev_eraseat (s : rstate) (base off sz : Z) : Z * rstate :=
  (s32 sz, set_mem (store (mem s) (u32 (base + off)) (repeat 0 (Z.to_nat sz))) s).

Definition xlate_eraseat (s : rstate) (access : Z -> Z -> Z * rstate) (areg sub : region)
    (off sz : Z) : Z * rstate :=
  xlated sub off sz (-1, s) (fun off => checked areg off sz (-1, s) access).

Definition incoherent_eraseat (s : rstate) (access : Z -> Z -> Z * rstate) (wreg : region)
    (off sz : Z) : Z * rstate :=
  checked wreg off sz (-1, s) access.

(** A root without an erase function reports success. *)
Fixpoint root_eraseat (s : rstate) (r : root_dev) (off sz : Z) : Z * rstate :=
  match r with
  | mem_region_device _ rw base _ =>
      if rw then mdev_eraseat s base off sz else (s32 sz, s)
  | xlate_region_device _ rw ar areg sub _ =>
      if rw then xlate_eraseat s (root_eraseat s ar) areg sub off sz else (s32 sz, s)
  | incoherent_rdev _ _ _ wr wreg _ => incoherent_eraseat s (root_eraseat s wr) wreg off sz
  | driver_device id _ =>
      match drv_eraseat with
      | None => (s32 sz, s)
      | Some f => let '(ret, d) := f (drv s) id off sz in (ret, set_drv d s)
      end
  end.

Definition rdev_eraseat (s : rstate) (rd : region_device) (off sz : Z) : Z * rstate :=
  checked (rdev_region rd) off sz (-1, s) (root_eraseat s (rdev_root rd)).

(** Drivers without a memory mapping copy the data into a pool. *)
Definition mmap_helper_rdev_mmap (s : rstate) (id : nat) (off sz : Z) : option Z * rstate :=
  match mem_pool_alloc (get_pool s id) sz with
  | (None, _) => (None, s)
  | (Some mapping, mp) =>
      let '(ret, data) := drv_readat (drv s) id off sz in
      let s := set_pool id mp (set_mem (store (mem s) mapping data) s) in
      if negb (u32 ret =? sz) then (None, set_pool id (mem_pool_free mp (Some mapping)) s)
      else (Some mapping, s)
  end.

Definition mmap_helper_rdev_munmap (s : rstate) (id : nat) (mapping : option Z) : Z * rstate :=
  (0, set_pool id (mem_pool_free (get_pool s id) mapping) s).

Definition mmap_helper_device_init (s : rstate) (id : nat) (cache cache_size : Z) : rstate :=
  set_pool id (mem_pool_init cache cache_size) s.

Definition mdev_mmap (s : rstate) (base off : Z) : option Z * rstate :=
  (Some (u32 (base + off)), s).

Definition xlate_mmap (s : rstate) (access : Z -> Z -> option Z * rstate) (areg sub : region)
    (off sz : Z) : option Z * rstate :=
  xlated sub off sz (None, s) (fun off => checked areg off sz (None, s) access).

Definition incoherent_mmap (s : rstate) (access : Z -> Z -> option Z * rstate) (rreg : region)
    (off sz : Z) : option Z * rstate :=
  checked rreg off sz (None, s) access.

(** [rdev->ops->mmap]. *)
Fixpoint root_mmap (s : rstate) (r : root_dev) (off sz : Z) : option Z * rstate :=
  match r with
  | mem_region_device _ _ base _ => mdev_mmap s base off
  | xlate_region_device _ _ ar areg sub _ => xlate_mmap s (root_mmap s ar) areg sub off sz
  | incoherent_rdev _ rr rreg _ _ _ => incoherent_mmap s (root_mmap s rr) rreg off sz
  | driver_device id _ => mmap_helper_rdev_mmap s id off sz
  end.

Definition rdev_mmap (s : rstate) (rd : region_device) (off sz : Z) : option Z * rstate :=
  checked (rdev_region rd) off sz (None, s) (root_mmap s (rdev_root rd)).

Definition rdev_mmap_full (s : rstate) (rd : region_device) : option Z * rstate :=
  rdev_mmap s rd 0 (region_device_sz rd).

Definition mdev_munmap (s : rstate) : Z * rstate := (0, s).
Definition xlate_munmap (access : option Z -> Z * rstate) (mapping : option Z) : Z * rstate :=
  access mapping.
Definition incoherent_munmap (access : option Z -> Z * rstate) (mapping : option Z)
    : Z * rstate :=
  access mapping.

(** [rdev->ops->munmap]. *)
Fixpoint root_munmap (s : rstate) (r : root_dev) (mapping : option Z) : Z * rstate :=
  match r with
  | mem_region_device _ _ _ _ => mdev_munmap s
  | xlate_region_device _ _ ar _ _ _ => xlate_munmap (root_munmap s ar) mapping
  | incoherent_rdev _ rr _ _ _ _ => incoherent_munmap (root_munmap s rr) mapping
  | driver_device id _ => mmap_helper_rdev_munmap s id mapping
  end.

Definition rdev_munmap (s : rstate) (rd : region_device) (mapping : option Z) : Z * rstate :=
  root_munmap s (rdev_root rd) mapping.
End Access.

Arguments mdev_readat {D} s base off sz /.
Arguments xlate_readat access areg sub off sz /.
Arguments incoherent_readat access rreg off sz /.
Arguments mdev_writeat {D} s base b off sz /.
Arguments xlate_writeat {D} s access areg sub off sz /.
Arguments incoherent_writeat {D} s access wreg off sz /.
Arguments mdev_eraseat {D} s base off sz /.
Arguments xlate_eraseat {D} s access areg sub off sz /.
Arguments incoherent_eraseat {D} s access wreg off sz /.
Arguments mdev_mmap {D} s base off /.
Arguments xlate_mmap {D} s access areg sub off sz /.
Arguments incoherent_mmap {D} s access rreg off sz /.
Arguments mdev_munmap {D} s /.
Arguments xlate_munmap {D} access mapping /.
Arguments incoherent_munmap {D} access mapping /.

(** ** Specification: where an access ends up *)

Definition region_ok (r : region) : Prop :=
  0 <= offset r /\ 0 <= size r /\ offset r + size r < 2 ^ 32.

Definition within (outer inner : region) : Prop :=
  offset outer <= offset inner /\ offset inner + size inner <= offset outer + size outer.

Inductive backing :=
  | BMem (addr : Z)
  | BDriver (id : nat) (off : Z).

Fixpoint read_backing (r : root_dev) (off sz : Z) : option backing :=
  match r with
  | mem_region_device _ _ base _ => Some (BMem (u32 (base + off)))
  | xlate_region_device _ _ ar areg sub _ =>
      xlated sub off sz None (fun off => checked areg off sz None (read_backing ar))
  | incoherent_rdev _ rr rreg _ _ _ => checked rreg off sz None (read_backing rr)
  | driver_device id _ => Some (BDriver id off)
  end.

Fixpoint write_backing (r : root_dev) (off sz : Z) : option backing :=
  match r with
  | mem_region_device _ rw base _ => if rw then Some (BMem (u32 (base + off))) else None
  | xlate_region_device _ rw ar areg sub _ =>
      if rw then xlated sub off sz None (fun off => checked areg off sz None (write_backing ar))
      else None
  | incoherent_rdev _ _ _ wr wreg _ => checked wreg off sz None (write_backing wr)
  | driver_device id _ => Some (BDriver id off)
  end.

(** The memory buffers a device can reach. *)
Fixpoint buffers (r : root_dev) : list (Z * Z) :=
  match r with
  | mem_region_device _ _ base reg => [(base, size reg)]
  | xlate_region_device _ _ ar _ _ _ => buffers ar
  | incoherent_rdev _ rr _ wr _ _ => buffers rr ++ buffers wr
  | driver_device _ _ => []
  end.

(** A device as the initialisers build it: memory buffers below 4 GiB, each
    handle inside its root. *)
Fixpoint dev_ok (r : root_dev) : Prop :=
  match r with
  | mem_region_device _ _ base reg =>
      0 <= base /\ offset reg = 0 /\ 0 <= size reg /\ base + size reg <= 2 ^ 32 - 1
  | xlate_region_device _ _ ar areg sub reg =>
      dev_ok ar /\ region_ok areg /\ within (root_region ar) areg /\ region_ok sub /\
      offset areg + size sub < 2 ^ 32 /\ region_ok reg
  | incoherent_rdev _ rr rreg wr wreg reg =>
      dev_ok rr /\ region_ok rreg /\ within (root_region rr) rreg /\
      dev_ok wr /\ region_ok wreg /\ within (root_region wr) wreg /\
      region_ok reg /\ offset rreg + size reg < 2 ^ 32 /\ offset wreg + size reg < 2 ^ 32 /\
      offset reg = 0
  | driver_device _ reg => region_ok reg
  end.

Definition rdev_ok (rd : region_device) : Prop :=
  dev_ok (rdev_root rd) /\ region_ok (rdev_region rd) /\
  within (root_region (rdev_root rd)) (rdev_region rd).

(** ** Lemmas *)

Lemma is_subregion_spec p c :
  region_ok p -> region_ok c -> (is_subregion p c = true <-> within p c).
Proof.
  unfold region_ok, is_subregion, within, region_end, region_offset, region_sz.
  intros Hp Hc. rewrite !u32_small by lia. repeat case_bool; bool_to_prop; split; try done; lia.
Qed.

Lemma normalize_spec outer off sz :
  region_ok outer -> 0 <= off -> 0 <= sz -> offset outer + off + sz < 2 ^ 32 ->
  normalize_and_ok outer (mk_region off sz) =
  (mk_region (offset outer + off) sz, off + sz <=? size outer).
Proof.
  intros Ho Hf Hs Hb. unfold normalize_and_ok, region_offset. cbn [offset size].
  pose proof Ho as (? & ? & ?). rewrite u32_small by lia. f_equal.
  - f_equal. lia.
  - apply eq_true_iff_eq. rewrite is_subregion_spec, Z.leb_le by (done || (unfold region_ok; simpl; lia)).
    unfold within. simpl. lia.
Qed.

Lemma checked_spec {A} outer off sz (err : A) op :
  region_ok outer -> 0 <= off -> 0 <= sz -> offset outer + off + sz < 2 ^ 32 ->
  checked outer off sz err op = if off + sz <=? size outer then op (offset outer + off) sz else err.
Proof. intros. unfold checked. by rewrite normalize_spec. Qed.

Lemma xlated_spec {A} sub off sz (err : A) op :
  region_ok sub -> 0 <= off -> 0 <= sz -> off + sz < 2 ^ 32 ->
  xlated sub off sz err op =
  if (offset sub <=? off) && (off + sz <=? offset sub + size sub) then op (off - offset sub) else err.
Proof.
  intros Hs Hf Hz Hb. unfold xlated, region_offset.
  assert (E : is_subregion sub (mk_region off sz) =
    (offset sub <=? off) && (off + sz <=? offset sub + size sub)).
  { apply eq_true_iff_eq. rewrite is_subregion_spec by (done || (unfold region_ok; simpl; lia)).
    unfold within. simpl. by rewrite andb_true_iff, !Z.leb_le. }
  rewrite E. case_bool; [|done]. bool_to_prop. destruct Hs as (? & ? & ?). by rewrite u32_small by lia.
Qed.

(** Any result of a check is the operation's or the error. *)
Lemma checked_cases {A} outer off sz (err : A) op :
  checked outer off sz err op = err \/
  exists o, checked outer off sz err op = op o sz.
Proof. unfold checked, normalize_and_ok. cbn. case_bool; [right|left]; eauto. Qed.

Section AccessLemmas.
Context {D : Type}.
Variable drv_readat : D -> nat -> Z -> Z -> Z * list Z.
Variable drv_writeat : option (D -> nat -> Z -> list Z -> Z * D).
Variable drv_eraseat : option (D -> nat -> Z -> Z -> Z * D).

Lemma checked_ext {A B} outer off sz (e : A) (e' : B) op op' (f : A -> B) :
  f e = e' -> (forall o, f (op o sz) = op' o sz) ->
  f (checked outer off sz e op) = checked outer off sz e' op'.
Proof. intros He Ho. unfold checked, normalize_and_ok. cbn. by case_bool. Qed.

Lemma xlated_ext {A B} sub off sz (e : A) (e' : B) op op' (f : A -> B) :
  f e = e' -> (forall o, f (op o) = op' o) -> f (xlated sub off sz e op) = xlated sub off sz e' op'.
Proof. intros He Ho. unfold xlated. by case_bool. Qed.

(** What a read of [sz] bytes at a resolved place gives. *)
Definition read_at (s : rstate (D:=D)) (sz : Z) (b : option backing) : Z * list Z :=
  match b with
  | Some (BMem a) => (s32 sz, load (mem s) a sz)
  | Some (BDriver id o) => drv_readat (drv s) id o sz
  | None => (-1, [])
  end.

Definition write_at (s : rstate (D:=D)) (b : list Z) (sz : Z) (k : option backing) : Z * rstate :=
  match k with
  | Some (BMem a) => (s32 sz, set_mem (store (mem s) a b) s)
  | Some (BDriver id o) =>
      match drv_writeat with
      | None => (-1, s)
      | Some f => let '(ret, d) := f (drv s) id o b in (ret, set_drv d s)
      end
  | None => (-1, s)
  end.

Lemma root_readat_backing s r : forall off sz,
  root_readat drv_readat s r off sz = read_at s sz (read_backing r off sz).
Proof.
  induction r as [id rw base reg|id rw ar IH areg sub reg|id rr IHr rreg wr IHw wreg reg|id reg];
    intros off sz; simpl; try done; symmetry.
  - apply (xlated_ext _ _ _ _ _ _ _ (read_at s sz)); [done|]. intros o.
    apply (checked_ext _ _ _ _ _ _ _ (read_at s sz)); [done|]. intros o'. by rewrite IH.
  - apply (checked_ext _ _ _ _ _ _ _ (read_at s sz)); [done|]. intros o'. by rewrite IHr.
Qed.

Lemma root_writeat_backing s r b : forall off sz,
  root_writeat drv_writeat s r b off sz = write_at s b sz (write_backing r off sz).
Proof.
  induction r as [id rw base reg|id rw ar IH areg sub reg|id rr IHr rreg wr IHw wreg reg|id reg];
    intros off sz; simpl; try done.
  - by destruct rw.
  - destruct rw; [|done]. symmetry.
    apply (xlated_ext _ _ _ _ _ _ _ (write_at s b sz)); [done|]. intros o.
    apply (checked_ext _ _ _ _ _ _ _ (write_at s b sz)); [done|]. intros o'. by rewrite IH.
  - symmetry. apply (checked_ext _ _ _ _ _ _ _ (write_at s b sz)); [done|]. intros o'. by rewrite IHw.
Qed.

(** The places an [rdev_*] call resolves to. *)
Definition rdev_read_backing (rd : region_device) (off sz : Z) : option backing :=
  checked (rdev_region rd) off sz None (read_backing (rdev_root rd)).
Definition rdev_write_backing (rd : region_device) (off sz : Z) : option backing :=
  checked (rdev_region rd) off sz None (write_backing (rdev_root rd)).

Lemma rdev_readat_backing s rd off sz :
  rdev_readat drv_readat s rd off sz = read_at s sz (rdev_read_backing rd off sz).
Proof.
  symmetry. apply (checked_ext _ _ _ _ _ _ _ (read_at s sz)); [done|].
  intros o. by rewrite root_readat_backing.
Qed.

Lemma rdev_writeat_backing s rd b off :
  rdev_writeat drv_writeat s rd b off =
  write_at s b (Z.of_nat (length b)) (rdev_write_backing rd off (Z.of_nat (length b))).
Proof.
  symmetry. apply (checked_ext _ _ _ _ _ _ _ (write_at s b _)); [done|].
  intros o. by rewrite root_writeat_backing.
Qed.

(** Writes only ever go where reads of the same request would, when the tree
    has no split device. *)
Lemma load_store m a b :
  Z.of_nat (length b) <= 2 ^ 32 -> 0 <= a < 2 ^ 32 ->
  load (store m a b) a (Z.of_nat (length b)) = b.
Proof.
  intros Hl Ha. unfold load. rewrite Nat2Z.id. apply (nth_ext _ _ 0 0); rewrite length_map, length_seq; [done|].
  intros n Hn. rewrite (nth_indep _ 0 (store m a b (u32 (a + Z.of_nat 0)))) by (by rewrite length_map, length_seq).
  rewrite (map_nth (fun i => store m a b (u32 (a + Z.of_nat i)))), seq_nth by done. simpl.
  unfold store. replace (u32 (u32 (a + Z.of_nat n) - a)) with (Z.of_nat n).
  - rewrite (proj2 (Z.ltb_lt _ _)) by lia. by rewrite Nat2Z.id.
  - unfold u32, wrap. rewrite Zminus_mod_idemp_l, Z.add_simpl_l, Z.mod_small; lia.
Qed.

Lemma store_frame m a b x :
  0 <= a -> a + Z.of_nat (length b) <= 2 ^ 32 -> 0 <= x < 2 ^ 32 ->
  ~ (a <= x < a + Z.of_nat (length b)) -> store m a b x = m x.
Proof.
  intros Ha Hab Hx Hout. unfold store. case_bool; [|done]. bool_to_prop. exfalso. apply Hout.
  unfold u32, wrap in E. destruct (Z.le_gt_cases a x).
  - rewrite Z.mod_small in E by lia. lia.
  - rewrite <- (Z.mod_add _ 1), Z.mod_small in E by lia. lia.
Qed.

(** Accesses that resolve to memory stay in a buffer of the tree. *)
Lemma read_backing_in_buffer r : forall off sz a,
  dev_ok r -> offset (root_region r) <= off -> 0 <= sz ->
  off + sz <= offset (root_region r) + size (root_region r) ->
  read_backing r off sz = Some (BMem a) ->
  exists base n, (base, n) ∈ buffers r /\ base <= a /\ a + sz <= base + n /\ base + n < 2 ^ 32.
Proof.
  induction r as [id rw base reg|id rw ar IH areg sub reg|id rr IHr rreg wr IHw wreg reg|id reg];
    intros off sz a Hok Hoff Hsz Hend; simpl in *.
  - intros [= <-]. destruct Hok as (? & ? & ? & ?). rewrite u32_small by lia.
    exists base, (size reg). split; [apply elem_of_cons; by left|lia].
  - destruct Hok as (Hok & (A1 & A2 & A3) & [W1 W2] & (S1 & S2 & S3) & Hsum & (R1 & R2 & R3)).
    rewrite xlated_spec by (unfold region_ok; lia). case_bool; [|done]. bool_to_prop.
    rewrite checked_spec by (unfold region_ok; lia). case_bool; [|done]. bool_to_prop.
    apply IH; try done; lia.
  - destruct Hok as (Hok & (A1 & A2 & A3) & [W1 W2] & _ & _ & _ & (R1 & R2 & R3) & Hsum & _ & Hz).
    rewrite checked_spec by (unfold region_ok; lia). case_bool; [|done]. bool_to_prop.
    intros H. destruct (IHr (offset rreg + off) sz a Hok ltac:(lia) Hsz ltac:(lia) H) as (base & n & Hin & Hb).
    exists base, n. split; [|done]. apply elem_of_app. by left.
  - done.
Qed.

Lemma write_backing_in_buffer r : forall off sz a,
  dev_ok r -> offset (root_region r) <= off -> 0 <= sz ->
  off + sz <= offset (root_region r) + size (root_region r) ->
  write_backing r off sz = Some (BMem a) ->
  exists base n, (base, n) ∈ buffers r /\ base <= a /\ a + sz <= base + n /\ base + n < 2 ^ 32.
Proof.
  induction r as [id rw base reg|id rw ar IH areg sub reg|id rr IHr rreg wr IHw wreg reg|id reg];
    intros off sz a Hok Hoff Hsz Hend; simpl in *.
  - destruct rw; [|done]. intros [= <-]. destruct Hok as (? & ? & ? & ?). rewrite u32_small by lia.
    exists base, (size reg). split; [apply elem_of_cons; by left|lia].
  - destruct rw; [|done].
    destruct Hok as (Hok & (A1 & A2 & A3) & [W1 W2] & (S1 & S2 & S3) & Hsum & (R1 & R2 & R3)).
    rewrite xlated_spec by (unfold region_ok; lia). case_bool; [|done]. bool_to_prop.
    rewrite checked_spec by (unfold region_ok; lia). case_bool; [|done]. bool_to_prop.
    apply IH; try done; lia.
  - destruct Hok as (_ & _ & _ & Hok & (A1 & A2 & A3) & [W1 W2] & (R1 & R2 & R3) & _ & Hsum & Hz).
    rewrite checked_spec by (unfold region_ok; lia). case_bool; [|done]. bool_to_prop.
    intros H. destruct (IHw (offset wreg + off) sz a Hok ltac:(lia) Hsz ltac:(lia) H) as (base & n & Hin & Hb).
    exists base, n. split; [|done]. apply elem_of_app. by right.
  - done.
Qed.
End AccessLemmas.

Lemma buffers_nonneg r base n : dev_ok r -> (base, n) ∈ buffers r -> 0 <= base.
Proof.
  induction r as [id rw base' reg|id rw ar IH areg sub reg|id rr IHr rreg wr IHw wreg reg|id reg];
    simpl; intros Hd Hin.
  - apply list_elem_of_singleton in Hin as [= -> ->]. lia.
  - apply IH; tauto.
  - apply elem_of_app in Hin as [Hin|Hin]; [apply IHr|apply IHw]; tauto.
  - by apply not_elem_of_nil in Hin.
Qed.

(** ** Theorems: access *)

(** C31.  On devices as the initialisers build them, a request whose
    end does not wrap is refused when it leaves the device's region, and
    otherwise reads and writes exactly [sz] bytes at one place: inside a memory
    buffer of the device tree, or through a driver. *)
Theorem rdev_access_in_bounds {D} drv_readat drv_writeat (s : rstate (D:=D)) rd off b :
  let sz := Z.of_nat (length b) in
  rdev_ok rd -> 0 <= off -> offset (rdev_region rd) + off + sz < 2 ^ 32 ->
  rdev_readat drv_readat s rd off sz = read_at drv_readat s sz (rdev_read_backing rd off sz) /\
  rdev_writeat drv_writeat s rd b off = write_at drv_writeat s b sz (rdev_write_backing rd off sz) /\
  (region_device_sz rd < off + sz ->
     rdev_read_backing rd off sz = None /\ rdev_write_backing rd off sz = None) /\
  (forall a, rdev_read_backing rd off sz = Some (BMem a) \/ rdev_write_backing rd off sz = Some (BMem a) ->
     exists base n, (base, n) ∈ buffers (rdev_root rd) /\ base <= a /\ a + sz <= base + n).
Proof.
  intros sz (Hd & Hr & [W1 W2]) Hoff Hb. assert (Hsz : 0 <= sz) by lia.
  split; [apply rdev_readat_backing|]. split; [apply rdev_writeat_backing|].
  unfold rdev_read_backing, rdev_write_backing, region_device_sz, region_sz.
  rewrite !checked_spec by (done || lia). split.
  - intros Hout. by rewrite (proj2 (Z.leb_gt _ _)).
  - pose proof Hr as (? & ? & ?). case_bool; bool_to_prop; [|intros a [?|?]; done].
    intros a [HB|HB].
    + destruct (read_backing_in_buffer (rdev_root rd) (offset (rdev_region rd) + off) sz a
        Hd ltac:(lia) Hsz ltac:(lia) HB) as (base & n & ? & ? & ? & _). eauto 10.
    + destruct (write_backing_in_buffer (rdev_root rd) (offset (rdev_region rd) + off) sz a
        Hd ltac:(lia) Hsz ltac:(lia) HB) as (base & n & ? & ? & ? & _). eauto 10.
Qed.

(** When reads and writes of a request resolve to the same
    memory, what is written is read back through the device, the call reports
    the number of bytes, and memory outside the written range, the pools and
    the driver state are untouched. *)
Theorem rdev_write_read {D} drv_readat drv_writeat (s : rstate (D:=D)) rd off b a :
  let sz := Z.of_nat (length b) in
  rdev_ok rd -> 0 <= off -> offset (rdev_region rd) + off + sz < 2 ^ 31 ->
  rdev_write_backing rd off sz = Some (BMem a) -> rdev_read_backing rd off sz = Some (BMem a) ->
  let '(ret, s') := rdev_writeat drv_writeat s rd b off in
  ret = sz /\ rdev_readat drv_readat s' rd off sz = (sz, b) /\
  (forall x, 0 <= x < 2 ^ 32 -> ~ (a <= x < a + sz) -> mem s' x = mem s x) /\
  pools s' = pools s /\ drv s' = drv s.
Proof.
  intros sz (Hd & Hr & [W1 W2]) Hoff Hb Hw Hrd.
  rewrite rdev_writeat_backing. fold sz. rewrite Hw. cbn [write_at].
  rewrite rdev_readat_backing, Hrd. cbn [read_at set_mem mem pools drv].
  assert (Hbuf : 0 <= a /\ a + sz < 2 ^ 32).
  { unfold rdev_write_backing in Hw. rewrite checked_spec in Hw by (done || lia).
    destruct (_ <=? _) eqn:E; [|done]. bool_to_prop. destruct Hr as (? & ? & ?).
    destruct (write_backing_in_buffer (rdev_root rd) (offset (rdev_region rd) + off) sz a
      Hd ltac:(lia) ltac:(lia) ltac:(lia) Hw) as (base & n & Hin & ? & ? & ?).
    pose proof (buffers_nonneg _ _ _ Hd Hin). lia. }
  assert (Hs : s32 sz = sz) by (apply s32_small; destruct Hr as (? & ? & ?); lia). rewrite Hs.
  split; [done|]. split; [f_equal; apply load_store; lia|]. split; [|done].
  intros x Hx Hout. apply store_frame; lia.
Qed.

(** A chained child lies inside its parent on the same root, and
    an access to it is the parent's access at the shifted offset, for reads,
    writes, erases and mappings; its relative offset is the chaining offset. *)
Theorem rdev_chain_correct {D} drv_readat drv_writeat drv_eraseat (s : rstate (D:=D)) parent o n child :
  region_ok (rdev_region parent) -> 0 <= o -> 0 <= n -> offset (rdev_region parent) + o + n < 2 ^ 32 ->
  rdev_chain parent o n = Some child ->
  region_ok (rdev_region child) /\ within (rdev_region parent) (rdev_region child) /\
  region_device_sz child = n /\
  (o < 2 ^ 31 -> rdev_relative_offset parent child = o) /\
  (forall off b, 0 <= off -> off + Z.of_nat (length b) <= n ->
     let sz := Z.of_nat (length b) in
     rdev_readat drv_readat s child off sz = rdev_readat drv_readat s parent (o + off) sz /\
     rdev_writeat drv_writeat s child b off = rdev_writeat drv_writeat s parent b (o + off) /\
     rdev_eraseat drv_eraseat s child off sz = rdev_eraseat drv_eraseat s parent (o + off) sz /\
     rdev_mmap drv_readat s child off sz = rdev_mmap drv_readat s parent (o + off) sz).
Proof.
  intros Hp Ho Hn Hb Hc. unfold rdev_chain in Hc. rewrite normalize_spec in Hc by done.
  destruct (_ <=? _) eqn:E in Hc; [|done]. injection Hc as <-. bool_to_prop.
  pose proof Hp as (? & ? & ?).
  assert (Hok : region_ok (mk_region (offset (rdev_region parent) + o) n)) by (unfold region_ok; simpl; lia).
  assert (Hw : within (rdev_region parent) (mk_region (offset (rdev_region parent) + o) n))
    by (unfold within; simpl; lia).
  split; [done|]. split; [done|]. split; [done|]. split.
  - intros Hlt. unfold rdev_relative_offset. cbn [rdev_root rdev_region]. rewrite Nat.eqb_refl. cbn [negb].
    rewrite (proj2 (is_subregion_spec _ _ Hp Hok) Hw). cbn [negb].
    unfold region_device_offset, region_offset. cbn [rdev_region offset]. rewrite s32_small; lia.
  - intros off b Hoff Hlen sz. cbn [rdev_root rdev_region].
    unfold rdev_readat, rdev_writeat, rdev_eraseat, rdev_mmap. cbn [rdev_root rdev_region]. fold sz.
    rewrite !checked_spec by (done || (simpl; lia)). cbn [offset size].
    rewrite !(proj2 (Z.leb_le _ _)) by lia. by rewrite !Z.add_assoc.
Qed.

(** ** Memory pools: reachable states *)

Inductive pool_op := PoolAlloc (sz : Z) | PoolFree (p : option Z).

(** A pool with the blocks handed out and not given back, newest first. *)
Definition pool_step (st : mem_pool * list (Z * Z)) (o : pool_op) : mem_pool * list (Z * Z) :=
  let '(mp, live) := st in
  match o with
  | PoolAlloc sz =>
      match mem_pool_alloc mp sz with
      | (Some p, mp) => (mp, (p, ALIGN_UP 32 sz 8) :: live)
      | (None, mp) => (mp, live)
      end
  | PoolFree p =>
      (mem_pool_free mp p,
       match p, last_alloc mp with
       | Some p, Some l => if l =? p then tl live else live
       | _, _ => live
       end)
  end.

Definition pool_run (buf sz : Z) (ops : list pool_op) : mem_pool * list (Z * Z) :=
  fold_left pool_step ops (mem_pool_init buf sz, []).

(** Blocks stacked from [lo] to [hi], newest (highest) first. *)
Fixpoint stacked (lo hi : Z) (live : list (Z * Z)) : Prop :=
  match live with
  | [] => lo <= hi
  | (p, n) :: rest => 0 <= n /\ p + n <= hi /\ (8 | p) /\ stacked lo p rest
  end.

Definition pool_inv (buf sz : Z) (st : mem_pool * list (Z * Z)) : Prop :=
  let '(mp, live) := st in
  pool_buf mp = buf /\ pool_size mp = sz /\ 0 <= free_offset mp <= sz /\ (8 | free_offset mp) /\
  stacked buf (buf + free_offset mp) live /\
  match last_alloc mp with
  | Some l => exists n rest, live = (l, n) :: rest
  | None => True
  end.

Definition op_small (o : pool_op) : Prop :=
  match o with PoolAlloc sz => 0 <= sz <= 2 ^ 32 - 8 | PoolFree _ => True end.

Lemma stacked_mono lo hi hi' live : hi <= hi' -> stacked lo hi live -> stacked lo hi' live.
Proof. destruct live as [|[p n] live]; simpl; [lia|]. intuition lia. Qed.

Lemma stacked_bounds lo live : forall hi, stacked lo hi live ->
  lo <= hi /\ Forall (fun b => lo <= fst b /\ fst b + snd b <= hi /\ 0 <= snd b /\ (8 | fst b)) live /\
  ForallOrdPairs (fun b c => fst c + snd c <= fst b) live.
Proof.
  induction live as [|[p n] live IH]; simpl; intros hi; [repeat constructor; done|].
  intros (Hn & Hp & Hd & Hs). destruct (IH p Hs) as (Hlo & Hf & Ho). split; [lia|]. split.
  - apply Forall_cons. split; [simpl; repeat split; done || lia|].
    eapply Forall_impl; [exact Hf|]. intros b. simpl. intuition lia.
  - constructor; [|done]. eapply List.Forall_impl; [|exact Hf]. intros b. simpl. lia.
Qed.

Lemma align8 sz : 0 <= sz <= 2 ^ 32 - 8 ->
  sz <= ALIGN_UP 32 sz 8 < sz + 8 /\ (8 | ALIGN_UP 32 sz 8).
Proof. intros H. change 8 with (2 ^ 3). apply align_up_bounds; lia. Qed.

Lemma pool_step_inv buf sz st o :
  0 <= buf -> (8 | buf) -> 0 <= sz -> buf + sz < 2 ^ 32 -> op_small o ->
  pool_inv buf sz st -> pool_inv buf sz (pool_step st o).
Proof.
  intros Hb Hb8 Hs Hbs Ho. destruct st as [mp live]. intros Hkeep.
  pose proof Hkeep as (E1 & E2 & Hf & Hf8 & Hst & Hl).
  destruct o as [n|p]; cbn [pool_step].
  - simpl in Ho. destruct (align8 n Ho) as [Ha Ha8]. set (k := ALIGN_UP 32 n 8) in *.
    unfold mem_pool_alloc. fold k. rewrite E1, E2, (u32_small (sz - _)) by lia.
    case_bool; bool_to_prop; [exact Hkeep|]. rewrite !u32_small by lia. simpl.
    split; [done|]. split; [done|]. split; [lia|]. split; [by apply Z.divide_add_r|].
    split; [|eauto]. split; [lia|]. split; [lia|]. split; [by apply Z.divide_add_r|].
    exact Hst.
  - destruct p as [p|]; [|exact Hkeep]. unfold mem_pool_free.
    destruct (last_alloc mp) as [l|]; [|exact Hkeep].
    case_bool; bool_to_prop; [|exact Hkeep]. destruct Hl as (n & rest & ->).
    destruct Hst as (Hn & Hp & Hd & Hst). destruct (stacked_bounds _ _ _ Hst) as [Hlo _].
    simpl. rewrite E1, u32_small by lia. split; [done|]. split; [done|]. split; [lia|].
    split; [by apply Z.divide_sub_r|]. split; [|done].
    by replace (buf + (l - buf)) with l by lia.
Qed.

(** Whatever the order of allocations and frees, the blocks a pool
    has handed out and not taken back are 8-byte aligned, lie inside its buffer
    and are pairwise disjoint, and each is at least as large as asked for; a
    free that is not of the newest block changes nothing. *)
Theorem mem_pool_blocks_disjoint buf sz ops :
  0 <= buf -> (8 | buf) -> 0 <= sz -> buf + sz < 2 ^ 32 -> Forall op_small ops ->
  let '(mp, live) := pool_run buf sz ops in
  Forall (fun b => buf <= fst b /\ fst b + snd b <= buf + sz /\ 0 <= snd b /\ (8 | fst b)) live /\
  ForallOrdPairs (fun b c => fst c + snd c <= fst b) live /\
  (forall n, 0 <= n <= 2 ^ 32 - 8 ->
     match mem_pool_alloc mp n with
     | (Some p, mp') => pool_step (mp, live) (PoolAlloc n) = (mp', (p, ALIGN_UP 32 n 8) :: live) /\
                        n <= ALIGN_UP 32 n 8
     | (None, mp') => mp' = mp /\ sz - free_offset mp < n + 8
     end) /\
  (forall p, last_alloc mp <> Some p -> mem_pool_free mp (Some p) = mp).
Proof.
  intros Hb Hb8 Hs Hbs Hops. unfold pool_run.
  assert (Hinv : pool_inv buf sz (fold_left pool_step ops (mem_pool_init buf sz, []))).
  { assert (H0 : pool_inv buf sz (mem_pool_init buf sz, [])).
    { unfold pool_inv. simpl. split; [done|]. split; [done|]. split; [lia|].
      split; [apply Z.divide_0_r|]. split; [lia|done]. }
    revert H0. generalize (mem_pool_init buf sz, @nil (Z * Z)).
    induction Hops as [|o ops Ho _ IH]; intros st H0; simpl; [done|].
    apply IH. by apply pool_step_inv. }
  destruct (fold_left _ _ _) as [mp live]. destruct Hinv as (E1 & E2 & Hf & Hf8 & Hst & Hl).
  destruct (stacked_bounds _ _ _ Hst) as (_ & Hfa & Hord). split; [|split; [done|split]].
  - eapply Forall_impl; [exact Hfa|]. intros b. simpl. intuition lia.
  - intros n Hn. simpl. destruct (align8 n Hn) as [Ha _]. unfold mem_pool_alloc.
    rewrite E2, (u32_small (sz - _)) by lia. case_bool; bool_to_prop; [split; [done|lia]|]. split; [done|lia].
  - intros p Hp. unfold mem_pool_free. destruct (last_alloc mp) as [l|]; [|done].
    case_bool; bool_to_prop; [congruence|done].
Qed.

Lemma get_pool_set {D} (s : rstate (D:=D)) id p : get_pool (set_pool id p s) id = p.
Proof. unfold get_pool, set_pool. simpl. by rewrite lookup_insert_eq. Qed.

Lemma mem_pool_free_last buf n l fo :
  mem_pool_free (mk_pool buf n (Some l) fo) (Some l) = mk_pool buf n None (u32 (l - buf)).
Proof. unfold mem_pool_free. cbn [last_alloc]. by rewrite Z.eqb_refl. Qed.

(** Mapping through the helper succeeds exactly when the pool
    has room and the driver delivers all bytes; then the bytes are at the
    mapping, memory outside it is untouched and the block is the newest of the
    pool.  Otherwise the pool keeps its free space, and unmapping the newest
    mapping gives its block back. *)
Theorem mmap_helper_correct {D} drv_readat (s : rstate (D:=D)) id off sz :
  let mp := get_pool s id in
  0 <= pool_buf mp -> 0 <= free_offset mp <= pool_size mp -> pool_buf mp + pool_size mp < 2 ^ 32 ->
  0 <= sz <= 2 ^ 32 - 8 -> Z.of_nat (length (snd (drv_readat (drv s) id off sz))) = sz ->
  let '(mapping, s') := mmap_helper_rdev_mmap drv_readat s id off sz in
  let p := pool_buf mp + free_offset mp in
  match mapping with
  | Some q => q = p /\ ALIGN_UP 32 sz 8 <= pool_size mp - free_offset mp /\
      u32 (fst (drv_readat (drv s) id off sz)) = sz /\
      load (mem s') q sz = snd (drv_readat (drv s) id off sz) /\
      free_offset (get_pool s' id) = free_offset mp + ALIGN_UP 32 sz 8 /\
      free_offset (get_pool (snd (mmap_helper_rdev_munmap s' id mapping)) id) = free_offset mp
  | None => (pool_size mp - free_offset mp < ALIGN_UP 32 sz 8 \/
             u32 (fst (drv_readat (drv s) id off sz)) <> sz) /\
      free_offset (get_pool s' id) = free_offset mp
  end /\
  forall x, 0 <= x < 2 ^ 32 -> ~ (p <= x < p + sz) -> mem s' x = mem s x.
Proof.
  intros mp Hb Hf Hbs Hsz Hlen. destruct (align8 sz Hsz) as [Ha _].
  unfold mmap_helper_rdev_mmap, mem_pool_alloc. fold mp. cbv zeta.
  rewrite (u32_small (pool_size mp - _)) by lia.
  destruct (Z.ltb_spec (pool_size mp - free_offset mp) (ALIGN_UP 32 sz 8)) as [Hlt|Hge].
  { cbv iota beta. split; [|done]. split; [by left|done]. }
  rewrite !u32_small by lia. destruct (drv_readat (drv s) id off sz) as [ret data] eqn:Er.
  cbn [fst snd] in *.
  destruct (Z.eqb_spec (u32 ret) sz) as [He|Hne]; cbn [negb].
  - unfold mmap_helper_rdev_munmap. cbn [snd]. rewrite !get_pool_set, mem_pool_free_last.
    cbn [free_offset mem set_pool set_mem]. rewrite (u32_small (_ + _ - _)) by lia.
    split; [split; [done|]; split; [lia|]; split; [done|]; split; [|split; [done|lia]]|].
    + rewrite <- Hlen. apply load_store; lia.
    + intros x Hx Hout. apply store_frame; lia.
  - rewrite get_pool_set, mem_pool_free_last. cbn [free_offset mem set_pool set_mem].
    rewrite (u32_small (_ + _ - _)) by lia. split; [split; [by right|lia]|].
    intros x Hx Hout. apply store_frame; lia.
Qed.

(** Offset plus size is compared after wrapping to 32 bits: a
    request that starts 16 bytes before a 4 KiB buffer is accepted and reads
    outside it. *)
Theorem rdev_readat_wraps {D} drv_readat (s : rstate (D:=D)) :
  let rd := rdev_of (mem_region_device_rw_init 0 0x100000 0x1000) in
  rdev_ok rd /\ rdev_readat drv_readat s rd 0x1000 0x10 = (-1, []) /\
  rdev_relative_offset rd (mk_rdev (rdev_root rd) (mk_region 0xfffffff0 0x20)) = -0x10 /\
  rdev_readat drv_readat s rd 0xfffffff0 0x20 = (0x20, load (mem s) (0x100000 - 0x10) 0x20).
Proof.
  split; [|split; [reflexivity|split; reflexivity]].
  unfold rdev_ok, dev_ok, region_ok, within. simpl. lia.
Qed.

(** *** Witnesses *)

(** A driver that reads zeros. *)
Definition zeros (_ : unit) (_ : nat) (_ n : Z) : Z * list Z := (n, repeat 0 (Z.to_nat n)).
Definition st0 : rstate (D:=unit) :=
  mk_rstate (fun x => x mod 256) {[ 7%nat := mem_pool_init 0x8000 0x100 ]} tt.
(** Two views of the same flash window: through a translation, and directly. *)
Definition flash : root_dev := mem_region_device_rw_init 1 0xff000000 0x10000.
Definition view : region_device :=
  rdev_of (xlate_region_device_rw_init 2 (rdev_of flash) 0x8000 0x10000 0x20000).

Lemma rdev_access_in_bounds_witness :
  rdev_readat zeros st0 view 0x8010 0x4 = read_at zeros st0 4 (Some (BMem 0xff000010)).
Proof.
  destruct (rdev_access_in_bounds zeros None st0 view 0x8010 [1; 2; 3; 4]) as (H & _).
  - unfold rdev_ok, region_ok, within. simpl. unfold region_ok, within. simpl. lia.
  - lia.
  - simpl. lia.
  - exact H.
Defined.

Lemma rdev_write_read_witness :
  snd (rdev_readat zeros (snd (rdev_writeat None st0 view [1; 2; 3; 4] 0x8010)) view 0x8010 4) =
  [1; 2; 3; 4].
Proof.
  pose proof (rdev_write_read zeros None st0 view 0x8010 [1; 2; 3; 4] 0xff000010) as H.
  cbv zeta in H. destruct (rdev_writeat None st0 view [1; 2; 3; 4] 0x8010) as [ret s'] eqn:E.
  destruct H as (_ & H & _).
  - unfold rdev_ok, region_ok, within. simpl. unfold region_ok, within. simpl. lia.
  - lia.
  - simpl. lia.
  - reflexivity.
  - reflexivity.
  - change (snd (rdev_readat zeros s' view 0x8010 4) = [1; 2; 3; 4]).
    change (Z.of_nat (length [1; 2; 3; 4])) with 4 in H. rewrite H. reflexivity.
Defined.

Lemma rdev_chain_witness : exists child,
  rdev_chain view 0x9000 0x100 = Some child /\ rdev_relative_offset view child = 0x9000.
Proof.
  exists (mk_rdev (rdev_root view) (mk_region 0x9000 0x100)). split; [reflexivity|].
  destruct (rdev_chain_correct zeros None None st0 view 0x9000 0x100
    (mk_rdev (rdev_root view) (mk_region 0x9000 0x100))) as (_ & _ & _ & H & _);
    [| | | |reflexivity|apply H; lia].
  - unfold region_ok. simpl. lia.
  - lia.
  - lia.
  - simpl. lia.
Defined.

Lemma mem_pool_witness :
  Forall (fun b => 0x8000 <= fst b /\ fst b + snd b <= 0x8000 + 0x40 /\ 0 <= snd b /\ (8 | fst b))
    (snd (pool_run 0x8000 0x40 [PoolAlloc 5; PoolAlloc 9; PoolFree (Some 0x8008); PoolAlloc 0x100])).
Proof.
  pose proof (mem_pool_blocks_disjoint 0x8000 0x40
    [PoolAlloc 5; PoolAlloc 9; PoolFree (Some 0x8008); PoolAlloc 0x100]
    ltac:(lia) ltac:(by exists 0x1000) ltac:(lia) ltac:(lia)
    ltac:(repeat (apply Forall_cons; split; [simpl; try done; lia|]); apply Forall_nil_2)) as H.
  destruct (pool_run 0x8000 0x40 _) as [mp live]. exact (proj1 H).
Defined.

Lemma mmap_helper_witness :
  fst (mmap_helper_rdev_mmap zeros st0 7 0 0x20) = Some 0x8000 /\
  load (mem (snd (mmap_helper_rdev_mmap zeros st0 7 0 0x20))) 0x8000 0x20 = repeat 0 32.
Proof.
  pose proof (mmap_helper_correct zeros st0 7 0 0x20) as H. cbv zeta in H.
  specialize (H ltac:(vm_compute; discriminate) ltac:(split; vm_compute; discriminate)
    ltac:(reflexivity) ltac:(lia) ltac:(reflexivity)).
  destruct (mmap_helper_rdev_mmap zeros st0 7 0 0x20) as [q s'] eqn:E.
  assert (Hq : q = Some 0x8000) by (apply (f_equal fst) in E; vm_compute in E; by symmetry).
  subst q. destruct H as [(_ & _ & _ & H & _) _]. split; [reflexivity|]. exact H.
Defined.
