(* ===== verification/Bytes.v ===== *)
(** * Bytes

    Pieces of a byte-addressed content, big- and little-endian words
    ([src/commonlib/include/commonlib/endian.h]) and C strings, shared by the
    components that parse stored data. *)

From S2P Require Import Prelude.

(** ** Slices *)

(** [n] values of a function from [o] on. *)
Definition slice (f : Z -> Z) (o n : Z) : list Z :=
  map (fun i => f (o + Z.of_nat i)) (seq 0 (Z.to_nat n)).

Lemma slice_length f o n : length (slice f o n) = Z.to_nat n.
Proof. unfold slice. by rewrite length_map, length_seq. Qed.

Lemma slice_nth f o n i : (i < Z.to_nat n)%nat -> nth i (slice f o n) 0 = f (o + Z.of_nat i).
Proof.
  intros Hi. unfold slice.
  rewrite (nth_indep _ 0 (f (o + Z.of_nat 0))) by (by rewrite length_map, length_seq).
  by rewrite (map_nth (fun i => f (o + Z.of_nat i))), seq_nth.
Qed.

Lemma slice_ext f g o o' n :
  (forall i, 0 <= i < n -> f (o + i) = g (o' + i)) -> slice f o n = slice g o' n.
Proof. intros H. unfold slice. apply map_ext_in. intros i Hi%in_seq. apply H. lia. Qed.

Lemma slice_app f o a b : 0 <= a -> 0 <= b -> slice f o (a + b) = slice f o a ++ slice f (o + a) b.
Proof.
  intros Ha Hb. apply (nth_ext _ _ 0 0).
  { rewrite length_app, !slice_length. lia. }
  rewrite slice_length. intros n Hn. rewrite slice_nth by done.
  destruct (Nat.lt_ge_cases n (Z.to_nat a)).
  - by rewrite app_nth1, slice_nth by (rewrite ?slice_length; lia).
  - rewrite app_nth2, slice_length, slice_nth by (rewrite ?slice_length; lia). f_equal. lia.
Qed.

Lemma slice_bytes f o n : (forall x, is_byte (f x)) -> Forall is_byte (slice f o n).
Proof. intros H. unfold slice. apply List.Forall_map, List.Forall_forall. auto. Qed.

Lemma take_slice f o a n : 0 <= a <= n -> take (Z.to_nat a) (slice f o n) = slice f o a.
Proof.
  intros H. replace n with (a + (n - a)) by lia. rewrite slice_app by lia.
  by rewrite take_app_length' by (by rewrite slice_length).
Qed.

(** ** Words *)

Definition byte_at (l : list Z) (i : nat) : Z := nth i l 0.

(** [read_be32] *)
Definition read_be32 (l : list Z) (i : nat) : Z :=
  Z.lor (Z.lor (Z.lor (Z.shiftl (byte_at l i) 24) (Z.shiftl (byte_at l (i + 1)) 16))
           (Z.shiftl (byte_at l (i + 2)) 8)) (byte_at l (i + 3)).

(** [write_be32] *)
Definition write_be32 (v : Z) : list Z :=
  [u8 (Z.shiftr v 24); u8 (Z.shiftr v 16); u8 (Z.shiftr v 8); u8 v].

(** [read_be64], [write_be64] *)
Definition read_be64 (l : list Z) (i : nat) : Z := Z.lor (Z.shiftl (read_be32 l i) 32) (read_be32 l (i + 4)).
Definition write_be64 (v : Z) : list Z := write_be32 (Z.shiftr v 32) ++ write_be32 v.

(** A word of this little-endian machine. *)
Definition le16 (l : list Z) (i : nat) : Z :=
  Z.lor (byte_at l i) (Z.shiftl (byte_at l (i + 1)) 8).
Definition le32 (l : list Z) (i : nat) : Z :=
  Z.lor (le16 l i) (Z.shiftl (le16 l (i + 2)) 16).
Definition le64 (l : list Z) (i : nat) : Z :=
  Z.lor (le32 l i) (Z.shiftl (le32 l (i + 4)) 32).

Lemma byte_at_byte l i : Forall is_byte l -> is_byte (byte_at l i).
Proof.
  intros H. unfold byte_at. destruct (Nat.lt_ge_cases i (length l)).
  - rewrite List.Forall_forall in H. apply H. by apply nth_In.
  - rewrite nth_overflow by done. unfold is_byte. lia.
Qed.

Lemma lor_shiftl_add a b k : 0 <= k -> 0 <= a -> 0 <= b < 2 ^ k ->
  Z.lor (Z.shiftl a k) b = a * 2 ^ k + b.
Proof. intros. rewrite Z.shiftl_mul_pow2 by lia. apply (lor_add _ _ k); [lia|done|by eexists]. Qed.

Lemma read_be32_spec l i : Forall is_byte l ->
  read_be32 l i = ((byte_at l i * 2 ^ 8 + byte_at l (i + 1)) * 2 ^ 8 + byte_at l (i + 2)) * 2 ^ 8
                  + byte_at l (i + 3).
Proof.
  intros H. unfold read_be32.
  pose proof (byte_at_byte l i H) as A. pose proof (byte_at_byte l (i + 1) H) as B.
  pose proof (byte_at_byte l (i + 2) H) as C. pose proof (byte_at_byte l (i + 3) H) as E.
  unfold is_byte in *.
  rewrite !Z.shiftl_mul_pow2 by lia.
  set (a := byte_at l i) in *. set (b := byte_at l (i + 1)) in *.
  set (c := byte_at l (i + 2)) in *. set (d := byte_at l (i + 3)) in *.
  rewrite (lor_add (a * 2 ^ 24) (b * 2 ^ 16) 24); [|lia|lia|by exists a].
  rewrite (lor_add _ (c * 2 ^ 8) 16); [|lia|lia|exists (a * 2 ^ 8 + b); lia].
  rewrite (lor_add _ d 8); [lia|lia|lia|].
  exists (a * 2 ^ 16 + b * 2 ^ 8 + c). lia.
Qed.

Lemma read_be32_range l i : Forall is_byte l -> 0 <= read_be32 l i < 2 ^ 32.
Proof.
  intros H. rewrite read_be32_spec by done.
  pose proof (byte_at_byte l i H) as A. pose proof (byte_at_byte l (i + 1) H) as B.
  pose proof (byte_at_byte l (i + 2) H) as C. pose proof (byte_at_byte l (i + 3) H) as E.
  unfold is_byte in *. lia.
Qed.

Lemma be32_bytes v : Forall is_byte (write_be32 v).
Proof. unfold write_be32, is_byte, u8. repeat constructor; apply wrap_range; lia. Qed.

Lemma be32_value v : ((u8 (Z.shiftr v 24) * 2 ^ 8 + u8 (Z.shiftr v 16)) * 2 ^ 8 + u8 (Z.shiftr v 8)) * 2 ^ 8 + u8 v = u32 v.
Proof.
  rewrite !Z.shiftr_div_pow2 by lia. unfold u8, u32, wrap.
  replace (v / 2 ^ 24) with (v / 2 ^ 8 / 2 ^ 8 / 2 ^ 8) by (rewrite !Z.div_div by lia; done).
  replace (v / 2 ^ 16) with (v / 2 ^ 8 / 2 ^ 8) by (rewrite !Z.div_div by lia; done).
  change (2 ^ 8) with 256. change (2 ^ 32) with 4294967296.
  rewrite (Z.mod_eq v 256), (Z.mod_eq (v / 256) 256), (Z.mod_eq (v / 256 / 256) 256),
    (Z.mod_eq (v / 256 / 256 / 256) 256), (Z.mod_eq v 4294967296) by lia.
  replace (v / 4294967296) with (v / 256 / 256 / 256 / 256) by (rewrite !Z.div_div by lia; done). lia.
Qed.

Lemma read_write_be32 v rest : read_be32 (write_be32 v ++ rest) 0 = u32 v.
Proof.
  change (read_be32 (write_be32 v ++ rest) 0) with (read_be32 (write_be32 v) 0).
  rewrite read_be32_spec by apply be32_bytes. unfold write_be32, byte_at. cbn [nth].
  apply be32_value.
Qed.

Lemma read_be32_skip l rest i : read_be32 (l ++ rest) (length l + i) = read_be32 rest i.
Proof.
  unfold read_be32, byte_at. rewrite <- !Nat.add_assoc. rewrite !app_nth2_plus. done.
Qed.

Lemma le16_spec l i : Forall is_byte l -> le16 l i = byte_at l (i + 1) * 2 ^ 8 + byte_at l i.
Proof.
  intros H. unfold le16. rewrite Z.lor_comm.
  pose proof (byte_at_byte l i H) as A. pose proof (byte_at_byte l (i + 1) H) as B.
  unfold is_byte in *. rewrite lor_shiftl_add; lia.
Qed.

Lemma le16_range l i : Forall is_byte l -> 0 <= le16 l i < 2 ^ 16.
Proof.
  intros H. rewrite le16_spec by done.
  pose proof (byte_at_byte l i H) as A. pose proof (byte_at_byte l (i + 1) H) as B.
  unfold is_byte in *. lia.
Qed.

Lemma le32_range l i : Forall is_byte l -> 0 <= le32 l i < 2 ^ 32.
Proof.
  intros H. unfold le32. rewrite Z.lor_comm.
  pose proof (le16_range l i H). pose proof (le16_range l (i + 2) H). rewrite lor_shiftl_add; lia.
Qed.

(** ** C strings in memory *)

(** Whether [strcmp] of the string at [p] with the string [name] is 0;
    [name] is without its terminating zero. *)
Fixpoint strcmp_equal (m : Z -> Z) (p : Z) (name : list Z) : bool :=
  match name with
  | [] => m (u32 p) =? 0
  | c :: name => (m (u32 p) =? c) && strcmp_equal m (p + 1) name
  end.

(** The string at [o] of a content. *)
Definition string_at (f : Z -> Z) (o : Z) (name : list Z) : Prop :=
  slice f o (Z.of_nat (length name) + 1) = name ++ [0].

Lemma string_at_cons f o c name :
  string_at f o (c :: name) <-> f o = c /\ string_at f (o + 1) name.
Proof.
  unfold string_at. cbn [length]. replace (Z.of_nat (S (length name)) + 1) with (1 + (Z.of_nat (length name) + 1)) by lia.
  rewrite slice_app by lia. change (slice f o 1) with [f (o + 0)]. rewrite Z.add_0_r.
  cbn [app]. split; [intros [= -> ->]; done|intros [-> ->]; done].
Qed.

Lemma string_at_nil f o : string_at f o [] <-> f o = 0.
Proof.
  unfold string_at. change (slice f o (Z.of_nat (length (@nil Z)) + 1)) with [f (o + 0)].
  rewrite Z.add_0_r. cbn [app]. split; [by intros [= ->]|by intros ->].
Qed.

#[export] Instance string_at_dec f o name : Decision (string_at f o name).
Proof. unfold string_at. solve_decision. Defined.

(** [strcmp] only looks at the memory up to the end of the string stored
    there: where that holds the content [f], it decides [string_at]. *)
Lemma strcmp_equal_spec m f name : forall p o,
  Forall (fun c => c <> 0) name ->
  (exists k, 0 <= k /\ f (o + k) = 0 /\ forall i, 0 <= i <= k -> m (u32 (p + i)) = f (o + i)) ->
  strcmp_equal m p name = bool_decide (string_at f o name).
Proof.
  induction name as [|c name IH]; intros p o Hn (k & Hk & H0 & Hm).
  - cbn [strcmp_equal]. specialize (Hm 0 ltac:(lia)). rewrite !Z.add_0_r in Hm. rewrite Hm.
    apply eq_true_iff_eq. by rewrite Z.eqb_eq, bool_decide_eq_true, string_at_nil.
  - apply Forall_cons in Hn as [Hc Hn]. cbn [strcmp_equal].
    pose proof (Hm 0 ltac:(lia)) as Hm0. rewrite !Z.add_0_r in Hm0. rewrite Hm0.
    apply eq_true_iff_eq. rewrite andb_true_iff, Z.eqb_eq, bool_decide_eq_true, string_at_cons.
    destruct (Z.eq_dec (f o) c) as [E|E]; [|by split; intros [? _]].
    rewrite (IH (p + 1) (o + 1) Hn); [by rewrite bool_decide_eq_true|].
    exists (k - 1). destruct (Z.eq_dec k 0) as [->|]; [rewrite Z.add_0_r in H0; congruence|].
    split; [lia|]. split; [by replace (o + 1 + (k - 1)) with (o + k) by lia|].
    intros i Hi. replace (p + 1 + i) with (p + (i + 1)) by lia.
    replace (o + 1 + i) with (o + (i + 1)) by lia. apply Hm. lia.
Qed.
