(* ===== verification/Mapped.v ===== *)
(** * Memory-mapped storage

    What the code that parses flash relies on: a root device whose reads and
    mappings show one fixed content.  Memory devices have this property, and
    translating devices built on such a device keep it; helper-mapped drivers,
    which copy into a pool, are not of this kind. *)

From S2P Require Import Prelude Region Bytes.

Section Mapped.
Context {D : Type} (drv_readat : D -> nat -> Z -> Z -> Z * list Z).

(** In state [s] the root device [r] shows [content], byte by byte. *)
Class MappedRoot (s : rstate (D := D)) (r : root_dev) (content : Z -> Z) : Prop := {
  mr_region : region_ok (root_region r) /\ offset (root_region r) = 0 /\ size (root_region r) < 2 ^ 31;
  mr_byte : forall x, is_byte (content x);
  mr_read : forall off n, 0 <= off -> 0 <= n -> off + n <= size (root_region r) ->
    root_readat drv_readat s r off n = (n, slice content off n);
  mr_mmap : forall off n, 0 <= off -> 0 <= n -> off + n <= size (root_region r) ->
    exists p, root_mmap drv_readat s r off n = (Some p, s) /\
      forall i, 0 <= i < n -> mem s (u32 (p + i)) = content (off + i);
  mr_munmap : forall p, root_munmap s r p = (0, s)
}.

#[export] Instance mem_mapped s id rw base sz :
  0 <= sz < 2 ^ 31 -> (forall x, is_byte (mem s x)) ->
  MappedRoot s (mem_region_device id rw base (mk_region 0 sz)) (fun x => mem s (u32 (base + x))).
Proof.
  intros Hsz Hb. split; cbn [root_region offset size].
  - unfold region_ok. cbn [offset size]. lia.
  - intros x. apply Hb.
  - intros off n Ho Hn Hle. cbn [root_readat]. unfold mdev_readat. f_equal; [apply s32_small; lia|].
    unfold load. apply (slice_ext (fun x => mem s (u32 x)) _ (u32 (base + off)) off n).
    intros i Hi. f_equal. unfold u32, wrap. rewrite Zplus_mod_idemp_l. f_equal. lia.
  - intros off n Ho Hn Hle. exists (u32 (base + off)). split; [done|]. intros i Hi. f_equal.
    unfold u32, wrap. rewrite Zplus_mod_idemp_l. f_equal. lia.
  - done.
Qed.

(** A window of a mapped device, shifted. *)
#[export] Instance xlate_mapped s id rw ar areg sub sz content :
  MappedRoot s ar content -> region_ok areg -> within (root_region ar) areg ->
  region_ok sub -> offset sub = 0 -> size sub = size areg -> 0 <= sz <= size sub ->
  MappedRoot s (xlate_region_device id rw ar areg sub (mk_region 0 sz))
    (fun x => content (offset areg + x)).
Proof.
  intros Hm Ha [W1 W2] Hs Hs0 Hss Hsz.
  destruct (mr_region (MappedRoot := Hm)) as ((R1 & R2 & R3) & R4 & R5). pose proof Ha as (A1 & A2 & A3).
  pose proof Hs as (S1 & S2 & S3).
  assert (X : forall A off n (err : A) (op : Z -> Z -> A), 0 <= off -> 0 <= n -> off + n <= sz ->
    xlated sub off n err (fun o => checked areg o n err op) = op (offset areg + off) n).
  { intros A off n err op Ho Hn Hle. rewrite xlated_spec by (done || lia).
    destruct (_ && _) eqn:E; [|apply andb_false_iff in E as [E|E]; bool_to_prop; lia].
    rewrite Hs0, Z.sub_0_r, checked_spec by (done || lia).
    by destruct (off + n <=? size areg) eqn:E'; bool_to_prop; [|lia]. }
  split; cbn [root_region offset size].
  - unfold region_ok. cbn [offset size]. lia.
  - intros x. apply (mr_byte (MappedRoot := Hm)).
  - intros off n Ho Hn Hle. cbn [root_readat]. unfold xlate_readat. rewrite X by lia.
    rewrite (mr_read (MappedRoot := Hm)) by lia. f_equal. apply slice_ext. intros i Hi. f_equal. lia.
  - intros off n Ho Hn Hle. cbn [root_mmap]. unfold xlate_mmap. rewrite X by lia.
    destruct (mr_mmap (MappedRoot := Hm) (offset areg + off) n) as (p & -> & Hp); [lia..|].
    exists p. split; [done|]. intros i Hi. rewrite Hp by done. f_equal. lia.
  - intros p. cbn [root_munmap]. unfold xlate_munmap. apply (mr_munmap (MappedRoot := Hm)).
Qed.

(** ** Windows of a mapped device *)

Section Windows.
Context (s : rstate (D := D)) (r : root_dev) (content : Z -> Z) `{Hm : !MappedRoot s r content}.

(** The window of [n] bytes from [o] on, as [rdev_chain] builds it. *)
Definition win (o n : Z) : region_device := mk_rdev r (mk_region o n).
Definition win_ok (o n : Z) : Prop := 0 <= o /\ 0 <= n /\ o + n <= size (root_region r).

Lemma root_size : 0 <= size (root_region r) < 2 ^ 31.
Proof using Hm. destruct (mr_region (MappedRoot := Hm)) as ((? & ? & ?) & ? & ?). lia. Qed.

Lemma win_region_ok o n : win_ok o n -> region_ok (mk_region o n).
Proof using Hm. intros (? & ? & ?). pose proof root_size. unfold region_ok. cbn [offset size]. lia. Qed.

(** Any request within 32 bits: what does not fit is refused, and no request
    that is accepted wraps. *)
Lemma win_checked {A} o n off k (err : A) op : win_ok o n -> 0 <= off <= 2 ^ 31 -> 0 <= k < 2 ^ 32 ->
  checked (mk_region o n) off k err op = if off + k <=? n then op (o + off) k else err.
Proof using Hm.
  intros Hw Ho Hk. pose proof root_size. pose proof Hw as (? & ? & ?).
  destruct (Z.le_gt_cases (o + off + k) (2 ^ 32 - 1)).
  - rewrite checked_spec; [done|by apply win_region_ok|lia|lia|cbn [offset]; lia].
  - unfold checked, normalize_and_ok, is_subregion, region_offset, region_sz. cbn [offset size].
    destruct (off + k <=? n) eqn:E; bool_to_prop; [lia|].
    destruct (n <? k) eqn:E2; bool_to_prop; [by destruct (_ <? _)|]. lia.
Qed.

Lemma win_chain o n off k : win_ok o n -> 0 <= off <= 2 ^ 31 -> 0 <= k < 2 ^ 32 ->
  rdev_chain (win o n) off k = if off + k <=? n then Some (win (o + off) k) else None.
Proof using Hm.
  intros Hw Ho Hk.
  assert (E : rdev_chain (win o n) off k =
    checked (mk_region o n) off k None (fun o k => Some (win o k))).
  { unfold rdev_chain, checked. cbn [rdev_region rdev_root win]. destruct (normalize_and_ok _ _) as [req b] eqn:E.
    destruct req as [ro rs]. by destruct b. }
  by rewrite E, win_checked.
Qed.

Lemma win_read o n off k : win_ok o n -> 0 <= off <= 2 ^ 31 -> 0 <= k < 2 ^ 32 ->
  rdev_readat drv_readat s (win o n) off k =
  if off + k <=? n then (k, slice content (o + off) k) else (-1, []).
Proof using Hm.
  intros Hw Ho Hk. unfold rdev_readat. cbn [win rdev_region rdev_root]. rewrite win_checked by done.
  pose proof Hw as (? & ? & ?). case_bool; bool_to_prop; [|done].
  by rewrite (mr_read (MappedRoot := Hm)) by lia.
Qed.

Lemma win_mmap o n off k : win_ok o n -> 0 <= off <= 2 ^ 31 -> 0 <= k < 2 ^ 32 ->
  if off + k <=? n
  then exists p, rdev_mmap drv_readat s (win o n) off k = (Some p, s) /\
         forall i, 0 <= i < k -> mem s (u32 (p + i)) = content (o + off + i)
  else rdev_mmap drv_readat s (win o n) off k = (None, s).
Proof using Hm.
  intros Hw Ho Hk. unfold rdev_mmap. cbn [win rdev_region rdev_root]. rewrite win_checked by done.
  pose proof Hw as (? & ? & ?). case_bool; bool_to_prop; [|done].
  by apply (mr_mmap (MappedRoot := Hm)); lia.
Qed.

Lemma win_munmap o n p : rdev_munmap s (win o n) p = (0, s).
Proof using Hm. unfold rdev_munmap. apply (mr_munmap (MappedRoot := Hm)). Qed.

Lemma win_relative o n o' n' : win_ok o n -> win_ok o' n' -> o <= o' -> o' + n' <= o + n ->
  rdev_relative_offset (win o n) (win o' n') = o' - o.
Proof using Hm.
  intros Hw Hw' H1 H2. unfold rdev_relative_offset. cbn [win rdev_root rdev_region].
  rewrite Nat.eqb_refl. cbn [negb]. pose proof root_size. pose proof Hw as (? & ? & ?). pose proof Hw' as (? & ? & ?).
  rewrite (proj2 (is_subregion_spec _ _ (win_region_ok _ _ Hw) (win_region_ok _ _ Hw'))).
  - cbn [negb]. unfold region_device_offset, region_offset. cbn [rdev_region offset]. apply s32_small. lia.
  - unfold within. cbn [offset size]. lia.
Qed.

Lemma content_bytes o n : Forall is_byte (slice content o n).
Proof using Hm. apply slice_bytes, (mr_byte (MappedRoot := Hm)). Qed.
End Windows.
End Mapped.

Arguments win_ok r o n /.

(** ** An image in memory

    The bytes [l] mapped at 0x1000. *)

Definition image_memory (l : list Z) (x : Z) : Z := nth (Z.to_nat (x - 0x1000)) l 0.
Definition no_driver (d : unit) (id : nat) (off n : Z) : Z * list Z := (-1, []).
Definition image_state (l : list Z) : rstate (D := unit) := mk_rstate (image_memory l) ∅ tt.
Definition image_root (n : Z) : root_dev := mem_region_device 1 false 0x1000 (mk_region 0 n).
Definition image_content (l : list Z) (x : Z) : Z := image_memory l (u32 (0x1000 + x)).

Lemma image_mapped l n : Forall is_byte l -> 0 <= n < 2 ^ 31 ->
  MappedRoot no_driver (image_state l) (image_root n) (image_content l).
Proof.
  intros Hl Hn. apply mem_mapped; [done|]. intros x. apply byte_at_byte. exact Hl.
Qed.

Lemma bytes_check l : forallb (fun b => (0 <=? b) && (b <? 256)) l = true -> Forall is_byte l.
Proof.
  intros H. apply List.Forall_forall. intros b Hb. rewrite forallb_forall in H. specialize (H b Hb).
  unfold is_byte. bool_to_prop. lia.
Qed.
