(* ===== verification/Cbfs.v ===== *)
(** * The flash file system ([src/commonlib/cbfs.c])

    Files lie one after another in a region, each at a multiple of 64: a header
    with a magic number, the name and attributes up to the offset given in
    the header, then the data.  The code finds files by scanning for the magic.
    The hash functions are those of the verified-boot submodule: parameters. *)

From S2P Require Import Prelude Region Bytes Mapped.

Definition CBFS_ALIGNMENT : Z := 64.
(** "LARCHIVE" *)
Definition CBFS_FILE_MAGIC : list Z := [76; 65; 82; 67; 72; 73; 86; 69].
Definition CBFS_TYPE_DELETED : Z := 0.
Definition CBFS_TYPE_DELETED2 : Z := 0xffffffff.
Definition CBFS_COMPRESS_NONE : Z := 0.
Definition CBFS_FILE_ATTR_TAG_COMPRESSION : Z := 0x42435a4c.

(** [struct cbfs_file]: its size and the offsets of its fields; the magic is
    at 0. *)
Definition sizeof_cbfs_file : Z := 24.
Definition file_len (hdr : list Z) : Z := read_be32 hdr 8.
Definition file_type_offset : Z := 12.
Definition file_attributes_offset : Z := 16.
Definition file_offset (hdr : list Z) : Z := read_be32 hdr 20.

(** [struct cbfs_file_attribute] and [struct cbfs_file_attr_compression]. *)
Definition sizeof_attribute : Z := 8.

Record cbfsf := mk_cbfsf { metadata : region_device; data : region_device }.

Definition cbfs_next_offset (cbfs : region_device) (f : option cbfsf) : Z :=
  match f with
  | None => 0
  | Some f =>
      let off := u32 (rdev_relative_offset cbfs (data f)) in
      let off := u32 (off + region_device_sz (data f)) in
      ALIGN_UP 32 off CBFS_ALIGNMENT
  end.

Definition cbfs_end (cbfs : region_device) (off : Z) : bool := region_device_sz cbfs <=? off.

Section Cbfs.
Context {D : Type}.
Variable drv_readat : D -> nat -> Z -> Z -> Z * list Z.
Notation state := (rstate (D := D)).

(** The scan from an offset.  The result is what the function returns and the
    handle it filled in, as far as it got. *)
Fixpoint scan_loop (fuel : nat) (s : state) (cbfs : region_device) (off : Z) (fh : cbfsf)
    : option (Z * cbfsf) :=
  match fuel with
  | O => None
  | S fuel' =>
      if cbfs_end cbfs off then Some (1, fh)
      else
        let '(ret, file) := rdev_readat drv_readat s cbfs off sizeof_cbfs_file in
        if negb (u32 ret =? sizeof_cbfs_file) then Some (-1, fh)
        else if negb (bool_decide (take 8 file = CBFS_FILE_MAGIC)) then
          scan_loop fuel' s cbfs (ALIGN_UP 32 (u32 (off + 1)) CBFS_ALIGNMENT) fh
        else
          match rdev_chain cbfs off (file_offset file) with
          | None => Some (-1, fh)
          | Some md =>
              let fh := mk_cbfsf md (data fh) in
              match rdev_chain cbfs (u32 (off + file_offset file)) (file_len file) with
              | None => Some (-1, fh)
              | Some d => Some (0, mk_cbfsf md d)
              end
          end
  end.

Definition cbfs_for_each_file (fuel : nat) (s : state) (cbfs : region_device)
    (prev : option cbfsf) (fh : cbfsf) : option (Z * cbfsf) :=
  scan_loop fuel s cbfs (cbfs_next_offset cbfs prev) fh.

(** A word of the mapping at [p]. *)
Definition mapped_be32 (s : state) (p : Z) : Z := read_be32 (load (mem s) p 4) 0.

Definition cbfs_for_each_attr (s : state) (md metadata_size last_offset : Z) : Z :=
  if last_offset =? 0 then
    let start_offset := mapped_be32 s (md + file_attributes_offset) in
    if (start_offset <=? sizeof_cbfs_file)
       || (metadata_size <? u32 (start_offset + sizeof_attribute)) then 0
    else start_offset
  else
    let next_offset := u32 (last_offset + mapped_be32 s (md + last_offset + 4)) in
    if metadata_size <? u32 (next_offset + sizeof_attribute) then 0 else next_offset.

(** The search for the compression attribute: the offset where it stops, 0
    when there is none. *)
Fixpoint attr_loop (fuel : nat) (s : state) (md metadata_size offs : Z) : option Z :=
  match fuel with
  | O => None
  | S fuel' =>
      let offs := cbfs_for_each_attr s md metadata_size offs in
      if offs =? 0 then Some 0
      else if negb (mapped_be32 s (md + offs) =? CBFS_FILE_ATTR_TAG_COMPRESSION) then
        attr_loop fuel' s md metadata_size offs
      else Some offs
  end.

(** What it returns, the algorithm and the size. *)
Definition cbfsf_decompression_info (fuel : nat) (s : state) (fh : cbfsf)
    : option (option (Z * Z) * state) :=
  let metadata_size := region_device_sz (metadata fh) in
  match rdev_mmap_full drv_readat s (metadata fh) with
  | (None, s) => Some (None, s)
  | (Some md, s) =>
      match attr_loop fuel s md metadata_size 0 with
      | None => None
      | Some offs =>
          let r := if offs =? 0 then (CBFS_COMPRESS_NONE, region_device_sz (data fh))
                   else (mapped_be32 s (md + offs + 8), mapped_be32 s (md + offs + 12)) in
          Some (Some r, snd (rdev_munmap s (metadata fh) (Some md)))
      end
  end.

Definition cbfsf_file_type (s : state) (fh : cbfsf) : option Z :=
  let '(ret, b) := rdev_readat drv_readat s (metadata fh) file_type_offset 4 in
  if negb (u32 ret =? 4) then None else Some (read_be32 b 0).

(** [ty] is [*type] where the caller asks for one. *)
Fixpoint locate_loop (fuel scan : nat) (s : state) (cbfs : region_device) (prev : option cbfsf)
    (fh : cbfsf) (name : list Z) (ty : option Z) : option (Z * cbfsf * state) :=
  match fuel with
  | O => None
  | S fuel' =>
      match cbfs_for_each_file scan s cbfs prev fh with
      | None => None
      | Some (ret, fh) =>
          if negb (ret =? 0) then Some (-1, fh, s)
          else
            match rdev_mmap drv_readat s (metadata fh) sizeof_cbfs_file
                    (u32 (region_device_sz (metadata fh) - sizeof_cbfs_file)) with
            | (None, s) => Some (-1, fh, s)
            | (Some fname, s) =>
                let name_match := strcmp_equal (mem s) fname name in
                let s := snd (rdev_munmap s (metadata fh) (Some fname)) in
                if negb name_match then locate_loop fuel' scan s cbfs (Some fh) fh name ty
                else
                  match ty with
                  | None => Some (0, fh, s)
                  | Some t =>
                      match cbfsf_file_type s fh with
                      | None => Some (-1, fh, s)
                      | Some ftype =>
                          if negb (t =? ftype) then locate_loop fuel' scan s cbfs (Some fh) fh name ty
                          else Some (0, fh, s)
                      end
                  end
            end
      end
  end.

Definition cbfs_locate (fuel : nat) (s : state) (fh : cbfsf) (cbfs : region_device)
    (name : list Z) (ty : option Z) : option (Z * cbfsf * state) :=
  locate_loop fuel fuel s cbfs None fh name ty.

(** ** Hashing *)

Definition VB2_SUCCESS : Z := 0.
Variable VB2_ERROR_UNKNOWN : Z.

Section Hash.
Context {C : Type}.
Variable vb2_digest_init : Z -> Z * C.
Variable vb2_digest_extend : C -> list Z -> Z * C.
Variable vb2_digest_finalize : C -> Z -> Z * list Z.

Fixpoint extend_loop (fuel : nat) (s : state) (ctx : C) (rdev : region_device) (sz_left off : Z)
    : option (Z * C) :=
  match fuel with
  | O => None
  | S fuel' =>
      if sz_left =? 0 then Some (VB2_SUCCESS, ctx)
      else
        let block_sz := Z.min sz_left 1024 in
        let '(ret, buffer) := rdev_readat drv_readat s rdev off block_sz in
        if negb (u32 ret =? block_sz) then Some (VB2_ERROR_UNKNOWN, ctx)
        else
          let '(rv, ctx) := vb2_digest_extend ctx buffer in
          if negb (rv =? 0) then Some (rv, ctx)
          else extend_loop fuel' s ctx rdev (sz_left - block_sz) (u32 (off + block_sz))
  end.

Definition cbfs_extend_hash (fuel : nat) (s : state) (ctx : C) (rdev : region_device)
    : option (Z * C) :=
  extend_loop fuel s ctx rdev (region_device_sz rdev) 0.

Definition cbfs_extend_hash_with_offset (fuel : nat) (s : state) (ctx : C) (p c : region_device)
    : option (Z * C) :=
  let soffset := rdev_relative_offset p c in
  if soffset <? 0 then Some (VB2_ERROR_UNKNOWN, ctx)
  else
    let '(rv, ctx) := vb2_digest_extend ctx (write_be32 soffset) in
    if negb (rv =? 0) then Some (rv, ctx) else cbfs_extend_hash fuel s ctx c.

Definition sizeof_cbfs_header : Z := 32.

Definition cbfs_extend_hash_master_header (fuel : nat) (s : state) (ctx : C) (cbfs : region_device)
    : option (Z * C) :=
  match rdev_chain cbfs 0 sizeof_cbfs_header with
  | None => Some (VB2_ERROR_UNKNOWN, ctx)
  | Some rdev =>
      match cbfs_extend_hash_with_offset fuel s ctx cbfs rdev with
      | None => None
      | Some (rv, ctx) =>
          if negb (rv =? 0) then Some (rv, ctx)
          else
            match rdev_chain cbfs (u32 (region_device_sz cbfs - 4)) 4 with
            | None => Some (VB2_ERROR_UNKNOWN, ctx)
            | Some rdev => cbfs_extend_hash_with_offset fuel s ctx cbfs rdev
            end
      end
  end.

(** The walk over the files; it ends with 0 where the digest is due. *)
Fixpoint hash_loop (rounds fuel : nat) (s : state) (ctx : C) (cbfs : region_device)
    (prev : option cbfsf) (fh : cbfsf) : option (Z * C) :=
  match rounds with
  | O => None
  | S rounds' =>
      match cbfs_for_each_file fuel s cbfs prev fh with
      | None => None
      | Some (rv, fh) =>
          if rv <? 0 then Some (VB2_ERROR_UNKNOWN, ctx)
          else if 0 <? rv then Some (0, ctx)
          else
            match cbfs_extend_hash_with_offset fuel s ctx cbfs (metadata fh) with
            | None => None
            | Some (rv, ctx) =>
                if negb (rv =? 0) then Some (rv, ctx)
                else
                  match cbfsf_file_type s fh with
                  | None => Some (VB2_ERROR_UNKNOWN, ctx)
                  | Some ftype =>
                      if (ftype =? CBFS_TYPE_DELETED) || (ftype =? CBFS_TYPE_DELETED2) then
                        hash_loop rounds' fuel s ctx cbfs (Some fh) fh
                      else
                        match cbfs_extend_hash_with_offset fuel s ctx cbfs (data fh) with
                        | None => None
                        | Some (rv, ctx) =>
                            if negb (rv =? 0) then Some (rv, ctx)
                            else hash_loop rounds' fuel s ctx cbfs (Some fh) fh
                        end
                  end
            end
      end
  end.

(** What is returned and the digest; [fh0] is the uninitialised local. *)
Definition cbfs_vb2_hash_contents (fuel : nat) (s : state) (cbfs : region_device) (hash_alg : Z)
    (digest_sz : Z) (fh0 : cbfsf) : option (Z * list Z) :=
  let '(rv, ctx) := vb2_digest_init hash_alg in
  if negb (rv =? 0) then Some (rv, [])
  else
    match cbfs_extend_hash_master_header fuel s ctx cbfs with
    | None => None
    | Some (rv, ctx) =>
        if negb (rv =? 0) then Some (rv, [])
        else
          match hash_loop fuel fuel s ctx cbfs None fh0 with
          | None => None
          | Some (rv, ctx) =>
              if negb (rv =? 0) then Some (rv, []) else Some (vb2_digest_finalize ctx digest_sz)
          end
    end.
End Hash.
End Cbfs.

(** ** What lies in the region

    [content] is what the root device shows, the region is [SZ] bytes from [B]
    on; offsets below are relative to it. *)

Definition up (x : Z) : Z := (x + 63) / 64 * 64.

Section Layout.
Context {D : Type} (drv_readat : D -> nat -> Z -> Z -> Z * list Z).
Context (s : rstate (D := D)) (r : root_dev) (content : Z -> Z).
Context `{Hm : !MappedRoot drv_readat s r content}.
Variables B SZ : Z.
Hypothesis Hwin : win_ok r B SZ.
Set Default Proof Using "Type".

Definition cb : region_device := win r B SZ.
Definition header (x : Z) : list Z := slice content (B + x) sizeof_cbfs_file.
Definition is_file (x : Z) : Prop := take 8 (header x) = CBFS_FILE_MAGIC.
Definition meta_size (x : Z) : Z := file_offset (header x).
Definition data_size (x : Z) : Z := file_len (header x).
Definition type_of (x : Z) : Z := read_be32 (slice content (B + x + file_type_offset) 4) 0.
Definition end_of (x : Z) : Z := x + meta_size x + data_size x.
Definition fits (x : Z) : Prop := end_of x <= SZ.
Definition entry (x : Z) : cbfsf :=
  mk_cbfsf (win r (B + x) (meta_size x)) (win r (B + x + meta_size x) (data_size x)).

(** Nothing at the multiples of 64 from [o] up to [x]. *)
Definition no_file (o x : Z) : Prop :=
  forall y, o <= y < x -> y + sizeof_cbfs_file <= SZ -> (64 | y) -> ~ is_file y.
Definition first_file (o x : Z) : Prop :=
  o <= x /\ x + sizeof_cbfs_file <= SZ /\ (64 | x) /\ is_file x /\ no_file o x.

(** The files of the region from [o] on, by their offsets: each inside the
    region and with a name that ends inside its metadata. *)
Inductive layout : Z -> list Z -> Prop :=
  | layout_end o : no_file o SZ -> layout o []
  | layout_file o x xs :
      first_file o x -> fits x ->
      (exists k, sizeof_cbfs_file <= k < meta_size x /\ content (B + x + k) = 0) ->
      layout (up (end_of x)) xs -> layout o (x :: xs).

Lemma sizes x : 0 <= meta_size x < 2 ^ 32 /\ 0 <= data_size x < 2 ^ 32.
Proof using Hm.
  unfold meta_size, data_size, header, file_offset, file_len.
  split; apply read_be32_range; eapply content_bytes; eauto.
Qed.

Lemma region_bounds : 0 <= B /\ 0 <= SZ /\ B + SZ < 2 ^ 31.
Proof using Hm Hwin. pose proof (root_size drv_readat s r content). destruct Hwin as (? & ? & ?). lia. Qed.

Lemma up_spec x : x <= up x < x + 64 /\ (64 | up x).
Proof. unfold up. split; [Z.to_euclidean_division_equations; lia|by eexists]. Qed.

Lemma align_up_64 x : 0 <= x < 2 ^ 31 + 1 -> ALIGN_UP 32 x CBFS_ALIGNMENT = up x.
Proof.
  intros Hx. unfold CBFS_ALIGNMENT, up. change 64 with (2 ^ 6). rewrite align_up_pow2 by lia.
  change (2 ^ 6) with 64. pose proof (Z.div_mod (x + 64 - 1) 64 ltac:(lia)).
  replace (x + 63) with (x + 64 - 1) by lia. lia.
Qed.

Lemma up_step o : (64 | o) -> up (o + 1) = o + 64.
Proof. intros [q ->]. unfold up. Z.to_euclidean_division_equations. lia. Qed.

Lemma no_file_step o x : (64 | o) -> ~ is_file o -> no_file (o + 64) x -> no_file o x.
Proof.
  intros [q Hq] Ho Hn y Hy Hy' [q' Hq']. destruct (Z.eq_dec y o) as [->|]; [done|].
  apply Hn; [lia|done|by exists q'].
Qed.

Lemma first_file_step o x : (64 | o) -> ~ is_file o -> first_file (o + 64) x -> first_file o x.
Proof.
  intros Ho Hf (H1 & H2 & H3 & H4 & H5). split; [lia|]. split; [done|]. split; [done|].
  split; [done|]. by apply no_file_step.
Qed.

(** What a scan finds. *)
Lemma scan_loop_spec fuel : forall o fh, 0 <= o < SZ + 64 -> (64 | o) -> SZ + 64 - o <= 64 * Z.of_nat fuel ->
  (exists x, first_file o x /\
     ((fits x /\ scan_loop drv_readat fuel s cb o fh = Some (0, entry x)) \/
      (~ fits x /\ exists fh', scan_loop drv_readat fuel s cb o fh = Some (-1, fh')))) \/
  (no_file o SZ /\ exists ret, (ret = 1 \/ (ret = -1 /\ ~ (64 | SZ))) /\
     scan_loop drv_readat fuel s cb o fh = Some (ret, fh)).
Proof using Hm Hwin.
  pose proof region_bounds as (HB & HSZ & Hsum).
  induction fuel as [|fuel IH]; intros o fh Ho Ha Hf; [lia|]. cbn [scan_loop].
  unfold cbfs_end, region_device_sz, region_sz, cb. cbn [win rdev_region size].
  destruct (SZ <=? o) eqn:E; bool_to_prop.
  { right. split; [intros y Hy; unfold sizeof_cbfs_file; lia|]. exists 1. auto. }
  fold (win r B SZ).
  rewrite (win_read drv_readat s r content) by (done || (unfold sizeof_cbfs_file; lia)).
  destruct (o + sizeof_cbfs_file <=? SZ) eqn:E2; bool_to_prop.
  2: { right. split.
       - intros y Hy Hy'. unfold sizeof_cbfs_file in *. lia.
       - exists (-1). split; [|done]. right. split; [done|]. intros [q Hq]. destruct Ha as [q' Hq'].
         unfold sizeof_cbfs_file in *. lia. }
  change (u32 sizeof_cbfs_file =? sizeof_cbfs_file) with true. cbn [negb]. fold (header o).
  destruct (bool_decide (take 8 (header o) = CBFS_FILE_MAGIC)) eqn:Eb; cbn [negb].
  - apply bool_decide_eq_true in Eb. left. exists o. split.
    { split; [lia|]. split; [done|]. split; [done|]. split; [done|]. intros y Hy. lia. }
    destruct (sizes o) as [Hms Hds]. fold (meta_size o) (data_size o).
    rewrite (win_chain drv_readat s r content) by (done || lia).
    unfold fits, end_of. destruct (o + meta_size o <=? SZ) eqn:E3; bool_to_prop.
    2: { right. split; [lia|]. by eexists. }
    rewrite u32_small by lia. rewrite (win_chain drv_readat s r content) by (done || lia).
    destruct (o + meta_size o + data_size o <=? SZ) eqn:E4; bool_to_prop.
    2: { right. split; [lia|]. by eexists. }
    left. split; [lia|]. unfold entry. by rewrite Z.add_assoc.
  - apply bool_decide_eq_false in Eb. rewrite u32_small, align_up_64, up_step by (done || lia).
    destruct (IH (o + 64) fh) as [(x & Hx & H)|(Hn & H)]; [lia|by apply Z.divide_add_r; [|exists 1]|lia| |].
    + left. exists x. split; [by apply first_file_step|done].
    + right. split; [by apply no_file_step|done].
Qed.

(** The offset after a file. *)
Lemma next_offset x : 0 <= x -> fits x -> cbfs_next_offset cb (Some (entry x)) = up (end_of x).
Proof using Hm Hwin.
  intros Hx Hf. pose proof region_bounds as (HB & HSZ & Hsum). destruct (sizes x) as [Hms Hds].
  unfold fits, end_of in *. unfold cbfs_next_offset, entry, cb. cbn [data].
  destruct Hwin as (W1 & W2 & W3).
  rewrite (win_relative drv_readat s r content) by (cbn; lia).
  unfold region_device_sz, region_sz. cbn [win rdev_region size].
  rewrite (u32_small (_ - _)), u32_small by lia. rewrite align_up_64 by lia. f_equal. lia.
Qed.

Lemma first_file_unique o x y : first_file o x -> first_file o y -> x = y.
Proof.
  intros (A1 & A2 & A3 & A4 & A5) (B1 & B2 & B3 & B4 & B5).
  destruct (Z.lt_trichotomy x y) as [H|[H|H]]; [|done|].
  - by destruct (B5 x ltac:(lia) A2 A3).
  - by destruct (A5 y ltac:(lia) B2 B3).
Qed.

(** A file's windows. *)
Lemma entry_ok x : 0 <= x -> fits x ->
  win_ok r (B + x) (meta_size x) /\ win_ok r (B + x + meta_size x) (data_size x).
Proof using Hm Hwin.
  intros Hx Hf. destruct (sizes x) as [Hms Hds]. destruct Hwin as (W1 & W2 & W3).
  unfold fits, end_of in Hf. cbn. lia.
Qed.

Lemma entry_name x : 0 <= x -> fits x ->
  let m := rdev_mmap drv_readat s (metadata (entry x)) sizeof_cbfs_file
             (u32 (region_device_sz (metadata (entry x)) - sizeof_cbfs_file)) in
  if sizeof_cbfs_file <=? meta_size x
  then exists p, m = (Some p, s) /\ forall i, 0 <= i < meta_size x - sizeof_cbfs_file ->
         mem s (u32 (p + i)) = content (B + x + sizeof_cbfs_file + i)
  else m = (None, s).
Proof using Hm Hwin.
  intros Hx Hf. cbv zeta. destruct (entry_ok x Hx Hf) as [H1 H2]. destruct (sizes x) as [Hms Hds].
  pose proof region_bounds as (HB & HSZ & Hsum). unfold fits, end_of in Hf.
  unfold entry, region_device_sz, region_sz. cbn [metadata win rdev_region size].
  fold (win r (B + x) (meta_size x)).
  pose proof (win_mmap drv_readat s r content (B + x) (meta_size x) sizeof_cbfs_file
    (u32 (meta_size x - sizeof_cbfs_file)) H1 ltac:(unfold sizeof_cbfs_file; lia)
    (u32_range _)) as H.
  destruct (sizeof_cbfs_file <=? meta_size x) eqn:E; bool_to_prop; unfold sizeof_cbfs_file in *.
  - rewrite u32_small in * by lia. destruct (24 + (meta_size x - 24) <=? meta_size x) eqn:E2; bool_to_prop; [|lia].
    exact H.
  - assert (Ew : u32 (meta_size x - 24) = meta_size x - 24 + 2 ^ 32).
    { unfold u32, wrap. rewrite <- (Z.mod_add _ 1), Z.mod_small; lia. }
    rewrite Ew in *. destruct (_ <=? meta_size x) eqn:E2 in H; bool_to_prop; [lia|exact H].
Qed.

Lemma entry_type x : 0 <= x -> fits x -> sizeof_cbfs_file <= meta_size x ->
  cbfsf_file_type drv_readat s (entry x) = Some (type_of x).
Proof using Hm Hwin.
  intros Hx Hf Hm24. destruct (entry_ok x Hx Hf) as [H1 H2]. destruct (sizes x) as [Hms Hds].
  unfold cbfsf_file_type, entry, sizeof_cbfs_file in *. cbn [metadata].
  rewrite (win_read drv_readat s r content) by (done || (unfold file_type_offset; lia)).
  unfold file_type_offset. destruct (12 + 4 <=? meta_size x) eqn:E; bool_to_prop; [|lia]. done.
Qed.

Definition type_matches (ty : option Z) (x : Z) : bool :=
  match ty with None => true | Some t => t =? type_of x end.

(** One round of the search at a file. *)
Lemma locate_step fuel scan prev fh name ty o x :
  cbfs_next_offset cb prev = o -> 0 <= o < SZ + 64 -> (64 | o) -> SZ + 64 - o <= 64 * Z.of_nat scan ->
  first_file o x -> fits x ->
  exists b, locate_loop drv_readat (S fuel) scan s cb prev fh name ty =
    (if meta_size x <? sizeof_cbfs_file then Some (-1, entry x, s)
     else if b && type_matches ty x then Some (0, entry x, s)
     else locate_loop drv_readat fuel scan s cb (Some (entry x)) (entry x) name ty) /\
    (Forall (fun c => c <> 0) name ->
     (exists k, sizeof_cbfs_file <= k < meta_size x /\ content (B + x + k) = 0) ->
     b = bool_decide (string_at content (B + x + sizeof_cbfs_file) name)).
Proof using Hm Hwin.
  intros Hn Ho Ha Hs Hff Hf. pose proof Hff as (Hox & _). assert (Hx0 : 0 <= x) by lia.
  cbn [locate_loop]. unfold cbfs_for_each_file. rewrite Hn.
  destruct (scan_loop_spec scan o fh Ho Ha Hs) as [(y & Hy & Hd)|(Hno & _)].
  2: { destruct Hff as (A1 & A2 & A3 & A4 & A5). destruct (Hno x); [unfold sizeof_cbfs_file in *; lia|done..]. }
  rewrite (first_file_unique o y x Hy Hff) in Hd. destruct Hd as [(_ & ->)|(? & _)]; [|done].
  change (negb (0 =? 0)) with false. cbn iota.
  pose proof (entry_name x Hx0 Hf) as Hmap. cbv zeta in Hmap.
  destruct (sizeof_cbfs_file <=? meta_size x) eqn:E; bool_to_prop.
  2: { rewrite Hmap. exists false. destruct (meta_size x <? sizeof_cbfs_file) eqn:E2; bool_to_prop; [|lia].
       split; [done|]. intros _ (k & Hk & _). lia. }
  destruct Hmap as (p & -> & Hp). exists (strcmp_equal (mem s) p name).
  destruct (meta_size x <? sizeof_cbfs_file) eqn:E2; bool_to_prop; [lia|].
  change (metadata (entry x)) with (win r (B + x) (meta_size x)).
  rewrite (win_munmap drv_readat s r content). cbn [snd]. split.
  - destruct (strcmp_equal (mem s) p name); cbn [negb andb]; [|done].
    unfold type_matches. destruct ty as [t|]; [|done]. rewrite entry_type by done.
    by destruct (t =? type_of x).
  - intros Hz (k & Hk & H0). apply strcmp_equal_spec; [done|].
    exists (k - sizeof_cbfs_file). split; [lia|].
    split; [by replace (B + x + sizeof_cbfs_file + (k - sizeof_cbfs_file)) with (B + x + k) by lia|].
    intros i Hi. apply Hp. lia.
Qed.

(** The search ends on any content. *)
Lemma locate_loop_ends fuel : forall scan prev fh name ty o,
  cbfs_next_offset cb prev = o -> 0 <= o < SZ + 64 -> (64 | o) ->
  SZ + 64 - o <= 64 * Z.of_nat fuel -> SZ + 64 - o <= 64 * Z.of_nat scan ->
  exists ret fh', locate_loop drv_readat fuel scan s cb prev fh name ty = Some (ret, fh', s) /\
    (ret = -1 \/ (ret = 0 /\ exists x, 0 <= x /\ (64 | x) /\ is_file x /\ fits x /\
       sizeof_cbfs_file <= meta_size x /\ type_matches ty x = true /\ fh' = entry x)).
Proof using Hm Hwin.
  induction fuel as [|fuel IH]; intros scan prev fh name ty o Hn Ho Ha Hf Hs; [lia|].
  destruct (scan_loop_spec scan o fh Ho Ha Hs) as [(x & Hx & [[Hfit E]|(Hfit & fh' & E)])|(Hno & ret & Hr & E)].
  - destruct (locate_step fuel scan prev fh name ty o x) as (b & -> & _); [done..|].
    pose proof Hx as (X1 & X2 & X3 & X4 & _).
    destruct (meta_size x <? sizeof_cbfs_file) eqn:E1; bool_to_prop; [eauto 10|].
    destruct (b && type_matches ty x) eqn:E2.
    + apply andb_true_iff in E2 as [_ E2]. exists 0, (entry x). split; [done|]. right. split; [done|].
      exists x. repeat split; try done; lia.
    + destruct (up_spec (end_of x)) as [U1 U2]. destruct (sizes x). unfold fits, end_of, sizeof_cbfs_file in *.
      apply (IH scan (Some (entry x)) (entry x) name ty (up (end_of x))); unfold end_of;
        [apply next_offset; unfold fits, end_of; lia|lia|done| |];
        destruct U2 as [q Hq]; destruct Ha as [q' Hq']; lia.
  - cbn [locate_loop]. unfold cbfs_for_each_file. rewrite Hn, E. cbn. eauto.
  - cbn [locate_loop]. unfold cbfs_for_each_file. rewrite Hn, E.
    destruct Hr as [->|[-> _]]; cbn; eauto.
Qed.

(** In a region laid out as files it finds the first match. *)
Lemma locate_loop_layout xs : forall fuel scan prev fh name ty o,
  Forall (fun c => c <> 0) name -> layout o xs ->
  cbfs_next_offset cb prev = o -> 0 <= o < SZ + 64 -> (64 | o) ->
  SZ + 64 - o <= 64 * Z.of_nat fuel -> SZ + 64 - o <= 64 * Z.of_nat scan ->
  match List.find (fun x => bool_decide (string_at content (B + x + sizeof_cbfs_file) name)
                            && type_matches ty x) xs with
  | Some x => locate_loop drv_readat fuel scan s cb prev fh name ty = Some (0, entry x, s)
  | None => exists fh', locate_loop drv_readat fuel scan s cb prev fh name ty = Some (-1, fh', s)
  end.
Proof using Hm Hwin.
  induction xs as [|x xs IH]; intros fuel scan prev fh name ty o Hz Hl Hn Ho Ha Hf Hs;
    (destruct fuel as [|fuel]; [lia|]).
  - cbn [List.find]. inversion Hl as [? Hno|]; subst. cbn [locate_loop]. unfold cbfs_for_each_file.
    destruct (scan_loop_spec scan _ fh Ho Ha Hs) as [(x & (A1 & A2 & A3 & A4 & _) & _)|(_ & ret & Hr & ->)].
    { destruct (Hno x); [unfold sizeof_cbfs_file in *; lia|done..]. }
    destruct Hr as [->|[-> _]]; cbn; eauto.
  - inversion Hl as [|? ? ? Hx Hfit Hname Hl']; subst. cbn [List.find].
    destruct (locate_step fuel scan prev fh name ty _ x eq_refl Ho Ha Hs Hx Hfit) as (b & -> & Hb).
    rewrite <- (Hb Hz Hname). destruct Hname as (k & Hk & _).
    destruct (meta_size x <? sizeof_cbfs_file) eqn:E1; bool_to_prop; [lia|].
    destruct (b && type_matches ty x); [done|].
    pose proof Hx as (X1 & X2 & X3 & X4 & _). destruct (up_spec (end_of x)) as [U1 U2].
    destruct (sizes x). apply (IH fuel scan (Some (entry x)) (entry x) name ty (up (end_of x)));
      try done; [apply next_offset; [lia|done]|..]; unfold fits, end_of, sizeof_cbfs_file in *;
      [lia|..]; destruct U2 as [q Hq]; destruct Ha as [q' Hq']; lia.
Qed.

Lemma layout_entry o xs x : layout o xs -> 0 <= o -> In x xs -> 0 <= x /\ fits x.
Proof using Hm.
  induction 1 as [|o y ys (Y1 & _) Y2 Y3 Y4 IH]; intros Ho Hi; [done|].
  destruct Hi as [->|Hi]; [by split; [lia|]|]. apply IH; [|done].
  destruct (up_spec (end_of y)). destruct (sizes y). unfold end_of in *. lia.
Qed.

(** C28.  In a region whose content is laid out as files, [cbfs_locate] finds the
    first file with the name and, where one is asked for, the type; its
    handles are the windows of its metadata and data, and reading the data
    handle gives the file's bytes.  Without such a file it returns -1. *)
Theorem cbfs_locate_correct xs name ty fh fuel :
  layout 0 xs -> Forall (fun c => c <> 0) name -> SZ + 64 <= 64 * Z.of_nat fuel ->
  match List.find (fun x => bool_decide (string_at content (B + x + sizeof_cbfs_file) name)
                            && type_matches ty x) xs with
  | Some x =>
      cbfs_locate drv_readat fuel s fh cb name ty = Some (0, entry x, s) /\
      region_device_sz (data (entry x)) = data_size x /\
      rdev_readat drv_readat s (data (entry x)) 0 (data_size x) =
        (data_size x, slice content (B + x + meta_size x) (data_size x))
  | None => exists fh', cbfs_locate drv_readat fuel s fh cb name ty = Some (-1, fh', s)
  end.
Proof using Hm Hwin.
  intros Hl Hz Hf. pose proof region_bounds as (? & ? & ?).
  pose proof (locate_loop_layout xs fuel fuel None fh name ty 0 Hz Hl eq_refl ltac:(lia)
    ltac:(by exists 0) ltac:(lia) ltac:(lia)) as H2.
  destruct (List.find _ xs) as [x|] eqn:E; [|exact H2]. split; [exact H2|]. split; [done|].
  apply List.find_some in E as [Hin _].
  pose proof (layout_entry 0 xs x Hl ltac:(lia) Hin) as Hx.
  destruct (entry_ok x) as [_ Hw]; [tauto|tauto|]. destruct (sizes x) as [_ Hd]. cbn [data entry].
  rewrite (win_read drv_readat s r content) by (done || lia).
  by rewrite Z.add_0_l, Z.leb_refl, Z.add_0_r.
Qed.

(** C34.  Whatever the region contains, [cbfs_locate] ends, in at most one
    round for every 64 bytes of the region, and when it reports success the
    handles are windows inside the region that follow a magic number at a
    multiple of 64, of the type asked for.  Nothing is modified. *)
Theorem cbfs_locate_terminates name ty fh fuel : SZ + 64 <= 64 * Z.of_nat fuel ->
  exists ret fh', cbfs_locate drv_readat fuel s fh cb name ty = Some (ret, fh', s) /\
    (ret = -1 \/ (ret = 0 /\ exists x, 0 <= x /\ (64 | x) /\ is_file x /\ fits x /\
       sizeof_cbfs_file <= meta_size x /\ type_matches ty x = true /\ fh' = entry x)).
Proof using Hm Hwin.
  intros Hf. pose proof region_bounds as (? & ? & ?).
  apply (locate_loop_ends fuel fuel None fh name ty 0); [done|lia|by exists 0|lia|lia].
Qed.

(** ** Attributes *)

Section Attributes.
Variable x : Z.
Hypothesis Hx : 0 <= x.
Hypothesis Hfit : fits x.

(** A word of the metadata. *)
Definition word_at (a : Z) : Z := read_be32 (slice content (B + x + a) 4) 0.

(** The attributes from offset [a] on. *)
Inductive attributes : Z -> list Z -> Prop :=
  | attributes_end a : 0 <= a < 2 ^ 32 - sizeof_attribute -> meta_size x < a + sizeof_attribute ->
      attributes a []
  | attributes_cons a l : 0 <= a -> a + sizeof_attribute <= meta_size x -> 0 < word_at (a + 4) ->
      attributes (a + word_at (a + 4)) l -> attributes a (a :: l).

Lemma word_range a : 0 <= word_at a < 2 ^ 32.
Proof using Hm. unfold word_at. apply read_be32_range. by apply (content_bytes drv_readat s r content). Qed.

Lemma mapped_word p a : 0 <= a -> a + 4 <= meta_size x ->
  (forall i, 0 <= i < meta_size x -> mem s (u32 (p + i)) = content (B + x + i)) ->
  mapped_be32 s (p + a) = word_at a.
Proof.
  intros Ha Hle Hp. unfold mapped_be32, word_at. f_equal. unfold load.
  apply (slice_ext (fun x => mem s (u32 x)) content (p + a) (B + x + a) 4). intros i Hi.
  rewrite <- Z.add_assoc, Hp by lia. f_equal. lia.
Qed.

Lemma attr_loop_spec l : forall fuel p prev a,
  (forall i, 0 <= i < meta_size x -> mem s (u32 (p + i)) = content (B + x + i)) ->
  attributes a l -> 0 < a -> (length l < fuel)%nat ->
  cbfs_for_each_attr s p (meta_size x) prev = (if meta_size x <? a + sizeof_attribute then 0 else a) ->
  attr_loop fuel s p (meta_size x) prev =
  Some (default 0 (List.find (fun a => word_at a =? CBFS_FILE_ATTR_TAG_COMPRESSION) l)).
Proof using Hm Hx.
  destruct (sizes x) as [Hms _].
  induction l as [|b l IH]; intros fuel p prev a Hp Hat Hpos Hf Hn; (destruct fuel as [|fuel]; [simpl in Hf; lia|]);
    cbn [attr_loop]; rewrite Hn; inversion Hat as [? Ha1 Ha2|? ? A1 A2 A3 A4]; subst.
  - by rewrite (proj2 (Z.ltb_lt _ _)).
  - rewrite (proj2 (Z.ltb_ge _ _)) by done. rewrite (proj2 (Z.eqb_neq b 0)) by lia.
    unfold sizeof_attribute in *. rewrite mapped_word by (done || lia). cbn [List.find].
    destruct (word_at b =? CBFS_FILE_ATTR_TAG_COMPRESSION); cbn [negb]; [done|].
    pose proof (word_range (b + 4)) as Hw.
    assert (Hnext : 0 <= b + word_at (b + 4) < 2 ^ 32 - 8).
    { inversion A4; subst; [unfold sizeof_attribute in *; lia|unfold sizeof_attribute in *; lia]. }
    apply (IH fuel p b (b + word_at (b + 4))); [done|done|lia|simpl in Hf; lia|].
    unfold cbfs_for_each_attr, sizeof_attribute. rewrite (proj2 (Z.eqb_neq b 0)) by lia.
    replace (p + b + 4) with (p + (b + 4)) by lia. rewrite mapped_word by (done || lia).
    rewrite (u32_small (b + _)) by lia. by rewrite u32_small by lia.
Qed.

Lemma metadata_mmap : exists p, rdev_mmap_full drv_readat s (metadata (entry x)) = (Some p, s) /\
  forall i, 0 <= i < meta_size x -> mem s (u32 (p + i)) = content (B + x + i).
Proof using Hm Hwin Hx Hfit.
  destruct (entry_ok x Hx Hfit) as [Hw _]. destruct (sizes x) as [Hms _]. unfold rdev_mmap_full, entry.
  cbn [metadata]. unfold region_device_sz, region_sz. cbn [win rdev_region size].
  pose proof (win_mmap drv_readat s r content (B + x) (meta_size x) 0 (meta_size x) Hw ltac:(lia) Hms) as H.
  rewrite Z.add_0_l, Z.leb_refl in H. destruct H as (p & E & Hp). exists p. split; [exact E|].
  intros i Hi. rewrite Hp by done. f_equal. lia.
Qed.

(** For a file whose attributes have positive lengths,
    [cbfsf_decompression_info] reports the algorithm and size of its first
    compression attribute; without one, or without attributes, it reports no
    compression and the size of the data. *)
Theorem cbfsf_decompression_info_correct l fuel :
  sizeof_cbfs_file <= meta_size x ->
  let start := word_at file_attributes_offset in
  (if start <=? sizeof_cbfs_file then l = [] else attributes start l) ->
  (forall a, a ∈ l -> word_at a = CBFS_FILE_ATTR_TAG_COMPRESSION -> a + 16 <= meta_size x) ->
  (length l < fuel)%nat ->
  cbfsf_decompression_info drv_readat fuel s (entry x) =
  Some (Some (match List.find (fun a => word_at a =? CBFS_FILE_ATTR_TAG_COMPRESSION) l with
              | Some a => (word_at (a + 8), word_at (a + 12))
              | None => (CBFS_COMPRESS_NONE, data_size x)
              end), s).
Proof using Hm Hwin Hx Hfit.
  intros Hm24 start Hl Hlast Hf. destruct metadata_mmap as (p & Hmap & Hp).
  destruct (sizes x) as [Hms Hds]. unfold cbfsf_decompression_info. rewrite Hmap.
  change (region_device_sz (metadata (entry x))) with (meta_size x).
  change (region_device_sz (data (entry x))) with (data_size x).
  change (metadata (entry x)) with (win r (B + x) (meta_size x)).
  rewrite (win_munmap drv_readat s r content). cbn [snd].
  pose proof (word_range file_attributes_offset) as Hr. fold start in Hr.
  assert (Hstart : cbfs_for_each_attr s p (meta_size x) 0 =
    if (start <=? sizeof_cbfs_file) || (meta_size x <? u32 (start + sizeof_attribute)) then 0 else start).
  { unfold cbfs_for_each_attr. cbn [Z.eqb]. unfold sizeof_cbfs_file in Hm24.
    rewrite mapped_word by (done || (unfold file_attributes_offset; lia)). done. }
  assert (Hloop : attr_loop fuel s p (meta_size x) 0 =
    Some (default 0 (List.find (fun a => word_at a =? CBFS_FILE_ATTR_TAG_COMPRESSION) l))).
  { destruct (start <=? sizeof_cbfs_file) eqn:E.
    - subst l. destruct fuel as [|fuel]; [simpl in Hf; lia|]. cbn [attr_loop]. by rewrite Hstart.
    - bool_to_prop. apply (attr_loop_spec l fuel p 0 start Hp Hl); [unfold sizeof_cbfs_file in E; lia|done|].
      rewrite Hstart. cbn [orb]. unfold sizeof_attribute in *.
      inversion Hl; subst; unfold sizeof_attribute in *; by rewrite u32_small by lia. }
  rewrite Hloop. destruct (List.find _ l) as [a|] eqn:Ef; [change (default 0 (Some a)) with a|done].
  apply List.find_some in Ef as [Hin Htag]. bool_to_prop. rewrite <- list_elem_of_In in Hin.
  specialize (Hlast a Hin Htag).
  assert (Ha : 0 < a).
  { destruct (start <=? sizeof_cbfs_file) eqn:E; [subst l; by apply not_elem_of_nil in Hin|]. bool_to_prop.
    assert (G : forall o m, attributes o m -> 0 < o -> a ∈ m -> 0 < a).
    { induction 1 as [|o m O1 O2 O3 O4 IH]; intros Ho Hi; [by apply not_elem_of_nil in Hi|].
      apply elem_of_cons in Hi as [->|Hi]; [done|]. apply IH; [lia|done]. }
    apply (G start l Hl); [unfold sizeof_cbfs_file in E; lia|done]. }
  rewrite (proj2 (Z.eqb_neq a 0)) by lia.
  replace (p + a + 8) with (p + (a + 8)) by lia. replace (p + a + 12) with (p + (a + 12)) by lia.
  by rewrite !mapped_word by (done || lia).
Qed.

(** An attribute of length 0 that is not the one looked for: the search stays
    there for ever. *)
Theorem decompression_info_diverges fuel :
  let a := word_at file_attributes_offset in
  sizeof_cbfs_file < a -> a + sizeof_attribute <= meta_size x -> word_at (a + 4) = 0 ->
  word_at a <> CBFS_FILE_ATTR_TAG_COMPRESSION ->
  cbfsf_decompression_info drv_readat fuel s (entry x) = None.
Proof using Hm Hwin Hx Hfit.
  intros a Ha Hle Hlen Htag. destruct metadata_mmap as (p & Hmap & Hp).
  destruct (sizes x) as [Hms _]. unfold sizeof_attribute, sizeof_cbfs_file in *.
  unfold cbfsf_decompression_info. rewrite Hmap. change (region_device_sz (metadata (entry x))) with (meta_size x).
  assert (G : forall n o, o = 0 \/ o = a -> attr_loop n s p (meta_size x) o = None).
  { induction n as [|n IH]; intros o Ho; [done|]. cbn [attr_loop].
    assert (E : cbfs_for_each_attr s p (meta_size x) o = a).
    { unfold cbfs_for_each_attr, sizeof_attribute, sizeof_cbfs_file. destruct Ho as [-> | ->].
      - cbn [Z.eqb]. rewrite mapped_word by (done || (unfold file_attributes_offset; lia)). fold a.
        rewrite u32_small by lia. destruct (a <=? 24) eqn:E1; bool_to_prop; [lia|].
        destruct (meta_size x <? a + 8) eqn:E2; bool_to_prop; [lia|done].
      - rewrite (proj2 (Z.eqb_neq a 0)) by lia. replace (p + a + 4) with (p + (a + 4)) by lia.
        rewrite mapped_word, Hlen, Z.add_0_r by (done || lia).
        rewrite (u32_small a), u32_small by lia. by destruct (meta_size x <? a + 8) eqn:E2; bool_to_prop; [lia|]. }
    rewrite E. rewrite (proj2 (Z.eqb_neq a 0)) by lia. rewrite mapped_word by (done || lia).
    rewrite (proj2 (Z.eqb_neq _ _)) by done. cbn [negb]. apply IH. by right. }
  by rewrite G by (by left).
Qed.
End Attributes.

(** ** The hash of a region

    The interface to the hash functions: after [vb2_digest_init] the context is
    that of the empty stream, and extending it appends to the stream, in
    pieces of any size. *)
Class Digest {C : Type} (vb2_digest_init : Z -> Z * C)
    (vb2_digest_extend : C -> list Z -> Z * C) (alg : Z) (after : list Z -> C) : Prop := {
  dg_init : vb2_digest_init alg = (0, after []);
  dg_extend : forall stream b, vb2_digest_extend (after stream) b = (0, after (stream ++ b))
}.

Section Hashing.
Context {C : Type} (vb2_digest_init : Z -> Z * C) (vb2_digest_extend : C -> list Z -> Z * C).
Context (vb2_digest_finalize : C -> Z -> Z * list Z) (VB2_ERROR_UNKNOWN alg : Z).
Context (after : list Z -> C) `{Hd : !Digest vb2_digest_init vb2_digest_extend alg after}.

Definition deleted (x : Z) : bool :=
  (type_of x =? CBFS_TYPE_DELETED) || (type_of x =? CBFS_TYPE_DELETED2).

(** A piece goes in with its offset before it. *)
Definition piece (o n : Z) : list Z := write_be32 o ++ slice content (B + o) n.
Definition file_stream (x : Z) : list Z :=
  piece x (meta_size x) ++ (if deleted x then [] else piece (x + meta_size x) (data_size x)).

Notation extend_loop := (extend_loop drv_readat VB2_ERROR_UNKNOWN vb2_digest_extend).
Notation with_offset := (cbfs_extend_hash_with_offset drv_readat VB2_ERROR_UNKNOWN vb2_digest_extend).

Lemma extend_loop_spec fuel : forall st o n off left, win_ok r o n -> 0 <= off -> off + left = n ->
  0 <= left -> left + 1024 <= 1024 * Z.of_nat fuel ->
  extend_loop fuel s (after st) (win r o n) left off = Some (0, after (st ++ slice content (o + off) left)).
Proof using Hm Hd.
  pose proof (root_size drv_readat s r content) as Hr.
  induction fuel as [|fuel IH]; intros st o n off left Hw Ho Hn Hl Hf; [lia|].
  pose proof Hw as (W1 & W2 & W3). cbn [Cbfs.extend_loop]. case_bool; bool_to_prop.
  { rewrite E. change (slice content (o + off) 0) with (@nil Z). by rewrite app_nil_r. }
  rewrite (win_read drv_readat s r content) by (done || lia).
  destruct (off + Z.min left 1024 <=? n) eqn:E2; bool_to_prop; [|lia].
  rewrite u32_small, Z.eqb_refl by lia. cbn [negb].
  rewrite (dg_extend (Digest := Hd)). change (negb (0 =? 0)) with false. cbn iota.
  rewrite u32_small by lia. rewrite IH by (done || lia). rewrite <- app_assoc. do 3 f_equal.
  rewrite Z.add_assoc, <- slice_app by lia. do 2 f_equal. lia.
Qed.

(** One piece of the region. *)
Lemma with_offset_spec fuel st o n : 0 <= o -> 0 <= n -> o + n <= SZ -> SZ + 64 <= 64 * Z.of_nat fuel ->
  with_offset fuel s (after st) cb (win r (B + o) n) = Some (0, after (st ++ piece o n)).
Proof using Hm Hd Hwin.
  intros Ho Hn Hle Hf. pose proof region_bounds as (? & ? & ?). destruct Hwin as (W1 & W2 & W3).
  unfold cbfs_extend_hash_with_offset, cb. rewrite (win_relative drv_readat s r content) by (cbn; lia).
  replace (B + o - B) with o by lia. destruct (o <? 0) eqn:E; bool_to_prop; [lia|].
  rewrite (dg_extend (Digest := Hd)). change (negb (0 =? 0)) with false. cbn iota.
  unfold cbfs_extend_hash. change (region_device_sz (win r (B + o) n)) with n.
  rewrite extend_loop_spec by (cbn; lia). unfold piece. by rewrite Z.add_0_r, app_assoc.
Qed.

Lemma hash_loop_spec xs : forall rounds fuel st prev fh o,
  layout o xs -> (64 | SZ) -> cbfs_next_offset cb prev = o -> 0 <= o < SZ + 64 -> (64 | o) ->
  SZ + 64 - o <= 64 * Z.of_nat rounds -> SZ + 64 <= 64 * Z.of_nat fuel ->
  hash_loop drv_readat VB2_ERROR_UNKNOWN vb2_digest_extend rounds fuel s (after st) cb prev fh =
  Some (0, after (st ++ concat (map file_stream xs))).
Proof using Hm Hd Hwin.
  induction xs as [|x xs IH]; intros rounds fuel st prev fh o Hl Hdiv Hn Ho Ha Hr Hf;
    (destruct rounds as [|rounds]; [lia|]); cbn [hash_loop]; unfold cbfs_for_each_file; rewrite Hn.
  - inversion Hl as [? Hno|]; subst.
    destruct (scan_loop_spec fuel _ fh Ho Ha ltac:(lia)) as [(x & (A1 & A2 & A3 & A4 & _) & _)|(_ & ret & Hret & ->)].
    { destruct (Hno x); [unfold sizeof_cbfs_file in *; lia|done..]. }
    destruct Hret as [->|[_ ?]]; [|done]. cbn. by rewrite app_nil_r.
  - inversion Hl as [|? ? ? Hx Hfit Hname Hl']; subst.
    destruct (scan_loop_spec fuel _ fh Ho Ha ltac:(lia)) as [(y & Hy & H)|(Hno & _)].
    2: { destruct Hx as (A1 & A2 & A3 & A4 & A5). destruct (Hno x); [unfold sizeof_cbfs_file in *; lia|done..]. }
    rewrite (first_file_unique _ y x Hy Hx) in H. destruct H as [(_ & ->)|(? & _)]; [|done].
    pose proof Hx as (X1 & X2 & X3 & X4 & _). assert (X0 : 0 <= x) by lia. destruct (sizes x) as [Hms Hds].
    destruct Hname as (k & Hk & _). pose proof Hfit as Hfit'. unfold fits, end_of in Hfit'.
    change (0 <? 0) with false. cbn iota. cbn [metadata data entry].
    rewrite with_offset_spec by lia. change (negb (0 =? 0)) with false. cbn iota.
    fold (entry x). rewrite entry_type by (done || lia). fold (deleted x).
    destruct (up_spec (end_of x)) as [U1 U2].
    assert (Hnext : forall st', hash_loop drv_readat VB2_ERROR_UNKNOWN vb2_digest_extend rounds fuel s
      (after st') cb (Some (entry x)) (entry x) = Some (0, after (st' ++ concat (map file_stream xs)))).
    { intros st'. apply (IH rounds fuel st' (Some (entry x)) (entry x) (up (end_of x)));
        try done; [by apply next_offset|..]; unfold end_of, sizeof_cbfs_file in *;
        [lia|]; destruct U2 as [q Hq]; destruct Ha as [q' Hq']; lia. }
    cbn [map concat]. unfold file_stream at 1. destruct (deleted x).
    + rewrite Hnext. by rewrite app_nil_r, <- app_assoc.
    + rewrite <- Z.add_assoc, with_offset_spec by lia. change (negb (0 =? 0)) with false. cbn iota.
      rewrite Hnext. by rewrite <- !app_assoc.
Qed.

(** [cbfs_vb2_hash_contents] is the digest of one stream: the master header
    with its offset, the word at the end of the region with its offset, and for
    every file in order its metadata and, unless the file is deleted, its data, each
    with its offset.  So the digest depends on all of that and on nothing else
    of the region. *)
Theorem cbfs_hash_correct xs fuel digest_sz fh :
  layout 0 xs -> (64 | SZ) -> 0 < SZ -> SZ + 64 <= 64 * Z.of_nat fuel ->
  cbfs_vb2_hash_contents drv_readat VB2_ERROR_UNKNOWN vb2_digest_init vb2_digest_extend
    vb2_digest_finalize fuel s cb alg digest_sz fh =
  Some (vb2_digest_finalize
    (after (piece 0 sizeof_cbfs_header ++ piece (SZ - 4) 4 ++ concat (map file_stream xs))) digest_sz).
Proof using Hm Hd Hwin.
  intros Hl Hdiv Hpos Hf. pose proof region_bounds as (? & ? & ?).
  assert (H64 : 64 <= SZ) by (destruct Hdiv; lia).
  unfold cbfs_vb2_hash_contents. rewrite (dg_init (Digest := Hd)). change (negb (0 =? 0)) with false. cbn iota.
  unfold cbfs_extend_hash_master_header, sizeof_cbfs_header, cb.
  rewrite (win_chain drv_readat s r content) by (done || lia).
  destruct (0 + 32 <=? SZ) eqn:E; bool_to_prop; [|lia]. fold cb. rewrite with_offset_spec by lia.
  change (negb (0 =? 0)) with false. cbn iota. change (region_device_sz cb) with SZ.
  rewrite u32_small by lia. unfold cb at 1. rewrite (win_chain drv_readat s r content) by (done || lia).
  destruct (SZ - 4 + 4 <=? SZ) eqn:E2; bool_to_prop; [|lia]. rewrite with_offset_spec by lia.
  change (negb (0 =? 0)) with false. cbn iota.
  rewrite (hash_loop_spec xs fuel fuel _ None fh 0) by (done || lia || by exists 0).
  change (negb (0 =? 0)) with false. cbn iota. by rewrite <- app_assoc.
Qed.
End Hashing.
End Layout.

(** ** A small image

    Two files in 256 bytes mapped at 0x1000: "a", 3 bytes, and "b", 4 bytes
    with a compression attribute. *)

Definition sample_file (name attrs : list Z) (ty attr_off off : Z) (d : list Z) (total : nat) : list Z :=
  let l := CBFS_FILE_MAGIC ++ write_be32 (Z.of_nat (length d)) ++ write_be32 ty
             ++ write_be32 attr_off ++ write_be32 off ++ name ++ attrs ++ d in
  l ++ repeat 0xff (total - length l).

Definition sample_image : list Z :=
  sample_file [97; 0; 0; 0] [] 0x50 0 28 [1; 2; 3] 64
  ++ sample_file [98; 0; 0; 0; 0; 0; 0; 0]
       (write_be32 CBFS_FILE_ATTR_TAG_COMPRESSION ++ write_be32 16 ++ write_be32 2 ++ write_be32 100)
       0x50 32 48 [4; 5; 6; 7] 192.

(** The tests of [no_file] at the multiples of 64. *)
Definition no_file_check (content : Z -> Z) (B SZ : Z) (n : nat) (o x : Z) : bool :=
  all_below n (fun q => negb ((o <=? 64 * q) && (64 * q <? x))
                        || negb (bool_decide (take 8 (slice content (B + 64 * q) 24) = CBFS_FILE_MAGIC))).

Lemma no_file_checked content B SZ n o x : 0 <= o -> x <= 64 * Z.of_nat n ->
  no_file_check content B SZ n o x = true -> no_file content B SZ o x.
Proof.
  intros Ho Hn H y Hy _ [q ->] Hf. apply (all_below_spec _ _ q) in H; [|lia]. cbv beta in H.
  rewrite (Z.mul_comm 64) in H. rewrite (bool_decide_eq_true_2 _ Hf) in H.
  rewrite (proj2 (Z.leb_le _ _)), (proj2 (Z.ltb_lt _ _)) in H by lia. done.
Qed.

Lemma sample_layout : layout (image_content sample_image) 0 256 0 [0; 64].
Proof.
  assert (E0 : end_of (image_content sample_image) 0 0 = 31) by (by vm_compute).
  assert (E1 : end_of (image_content sample_image) 0 64 = 116) by (by vm_compute).
  apply layout_file.
  - split; [lia|]. split; [by vm_compute|]. split; [by exists 0|]. split; [by vm_compute|].
    apply (no_file_checked _ _ _ 4); [lia|lia|by vm_compute].
  - unfold fits. lia.
  - exists 25. by vm_compute.
  - rewrite E0. apply layout_file.
    + split; [by vm_compute|]. split; [by vm_compute|]. split; [by exists 1|]. split; [by vm_compute|].
      apply (no_file_checked _ _ _ 4); [by vm_compute|lia|by vm_compute].
    + unfold fits. lia.
    + exists 25. by vm_compute.
    + rewrite E1. apply layout_end. apply (no_file_checked _ _ _ 4); [by vm_compute|lia|by vm_compute].
Qed.

Lemma sample_mapped : MappedRoot no_driver (image_state sample_image) (image_root 256) (image_content sample_image).
Proof. apply image_mapped; [by apply bytes_check; vm_compute|lia]. Qed.

Definition no_fh : cbfsf := mk_cbfsf (rdev_of (image_root 0)) (rdev_of (image_root 0)).

Lemma cbfs_locate_witness :
  cbfs_locate no_driver 5 (image_state sample_image) no_fh (rdev_of (image_root 256)) [98] (Some 0x50) =
    Some (0, mk_cbfsf (win (image_root 256) 64 48) (win (image_root 256) 112 4), image_state sample_image) /\
  rdev_readat no_driver (image_state sample_image) (win (image_root 256) 112 4) 0 4 = (4, [4; 5; 6; 7]).
Proof.
  pose proof (cbfs_locate_correct no_driver _ _ _ (Hm := sample_mapped) 0 256 ltac:(cbn; lia)
    [0; 64] [98] (Some 0x50) no_fh 5 sample_layout ltac:(by repeat constructor) ltac:(lia)) as H.
  replace (List.find _ [0; 64]) with (Some 64) in H by (by vm_compute).
  destruct H as (H1 & H2 & H3). split; [exact H1|]. exact H3.
Defined.

Lemma cbfs_locate_terminates_witness :
  exists ret fh', cbfs_locate no_driver 5 (image_state sample_image) no_fh (cb (image_root 256) 0 256) [99] None =
    Some (ret, fh', image_state sample_image) /\ (ret = -1 \/ ret = 0).
Proof.
  destruct (cbfs_locate_terminates no_driver _ _ _ (Hm := sample_mapped) 0 256 ltac:(cbn; lia)
    [99] None no_fh 5 ltac:(lia)) as (ret & fh' & E & H).
  exists ret, fh'. split; [exact E|]. destruct H as [H|[H _]]; [by left|by right].
Defined.

Lemma cbfsf_decompression_info_witness :
  cbfsf_decompression_info no_driver 3 (image_state sample_image)
    (entry (image_root 256) (image_content sample_image) 0 64) = Some (Some (2, 100), image_state sample_image).
Proof.
  pose proof (cbfsf_decompression_info_correct no_driver _ _ _ (Hm := sample_mapped) 0 256 ltac:(cbn; lia)
    64 ltac:(lia) ltac:(by vm_compute) [32] 3 ltac:(by vm_compute)) as H.
  rewrite H; [by vm_compute| | |simpl; lia].
  - apply attributes_cons; [lia|by vm_compute|by vm_compute|].
    replace (32 + word_at _ 0 64 (32 + 4)) with 48 by (by vm_compute).
    apply attributes_end; [unfold sizeof_attribute; lia|by vm_compute].
  - intros a Ha%list_elem_of_singleton _. subst a. by vm_compute.
Defined.

(** A digest that keeps the stream itself. *)
Definition copy_init (alg : Z) : Z * list Z := (0, []).
Definition copy_extend (c b : list Z) : Z * list Z := (0, c ++ b).
Definition copy_finalize (c : list Z) (n : Z) : Z * list Z := (0, take (Z.to_nat n) c).

#[export] Instance copy_digest alg : Digest copy_init copy_extend alg id.
Proof. done. Qed.

Lemma cbfs_hash_witness :
  exists h, cbfs_vb2_hash_contents no_driver 1 copy_init copy_extend copy_finalize 5 (image_state sample_image)
    (cb (image_root 256) 0 256) 0 1000 no_fh = Some (0, h) /\ length h = 143%nat /\
  take 12 h = [0; 0; 0; 0] ++ CBFS_FILE_MAGIC.
Proof.
  eexists. rewrite (cbfs_hash_correct no_driver _ _ _ (Hm := sample_mapped) 0 256 ltac:(cbn; lia)
    copy_init copy_extend copy_finalize 1 0 id [0; 64] 5 1000 no_fh sample_layout
    ltac:(by exists 4) ltac:(lia) ltac:(lia)).
  split; [reflexivity|]. by vm_compute.
Defined.

(** The header's attribute offset is added to before it is compared: 0xfffffffc
    counts as inside the metadata. *)
Example attribute_offset_wraps :
  let l := sample_file [97; 0; 0; 0] [] 0x50 0xfffffffc 28 [1; 2; 3] 64 in
  cbfs_for_each_attr (image_state l) 0x1000 28 0 = 0xfffffffc.
Proof. by vm_compute. Qed.
