(* ===== verification/Fmap.v ===== *)
(** * The flash map ([src/lib/fmap.c], [src/lib/boot_device.c])

    A table of named areas in the boot device.  Where the table is
    ([FMAP_OFFSET]) and what the boot devices are is decided by the board: both
    are parameters.  Found messages are printed only. *)

From S2P Require Import Prelude Region Bytes Mapped.

(** "__FMAP__" *)
Definition FMAP_SIGNATURE : list Z := [95; 95; 70; 77; 65; 80; 95; 95].
Definition FMAP_STRLEN : Z := 32.

(** [struct fmap] and [struct fmap_area]: sizes and offsets of fields; integers
    are in the order of the machine. *)
Definition sizeof_fmap : Z := 56.
Definition fmap_nareas_offset : Z := 54.
Definition sizeof_fmap_area : Z := 42.
Definition area_name_offset : Z := 8.

Section Fmap.
Context {D : Type}.
Variable drv_readat : D -> nat -> Z -> Z -> Z * list Z.
Notation state := (rstate (D := D)).
Variable FMAP_OFFSET : Z.
Variables boot_device_ro boot_device_rw : option region_device.

Definition boot_device_subregion (sub : region) (parent : option region_device)
    : option region_device :=
  match parent with
  | None => None
  | Some parent => rdev_chain parent (region_offset sub) (region_sz sub)
  end.
Definition boot_device_ro_subregion (sub : region) := boot_device_subregion sub boot_device_ro.
Definition boot_device_rw_subregion (sub : region) := boot_device_subregion sub boot_device_rw.

Definition find_fmap_directory (s : state) : option region_device * state :=
  match boot_device_ro with
  | None => (None, s)
  | Some boot =>
      match rdev_mmap drv_readat s boot FMAP_OFFSET sizeof_fmap with
      | (None, s) => (None, s)
      | (Some fmap, s) =>
          if negb (bool_decide (load (mem s) fmap 8 = FMAP_SIGNATURE)) then
            (None, snd (rdev_munmap s boot (Some fmap)))
          else
            let nareas := le16 (load (mem s) (fmap + fmap_nareas_offset) 2) 0 in
            let fmap_size := u32 (sizeof_fmap + nareas * sizeof_fmap_area) in
            let s := snd (rdev_munmap s boot (Some fmap)) in
            (rdev_chain boot FMAP_OFFSET fmap_size, s)
      end
  end.

(** The walk over the areas, up to the first that passes a test on its
    mapping; [get] is what is taken from it. *)
Fixpoint area_loop {A} (fuel : nat) (s : state) (fmrd : region_device)
    (test : state -> Z -> bool) (get : state -> Z -> A) (off : Z) : option (option A * state) :=
  match fuel with
  | O => None
  | S fuel' =>
      match rdev_mmap drv_readat s fmrd off sizeof_fmap_area with
      | (None, s) => Some (None, s)
      | (Some area, s) =>
          if negb (test s area) then
            area_loop fuel' (snd (rdev_munmap s fmrd (Some area))) fmrd test get
              (u32 (off + sizeof_fmap_area))
          else
            let a := get s area in
            Some (Some a, snd (rdev_munmap s fmrd (Some area)))
      end
  end.

Definition find_area {A} (fuel : nat) (s : state) (test : state -> Z -> bool) (get : state -> Z -> A)
    : option (option A * state) :=
  match find_fmap_directory s with
  | (None, s) => Some (None, s)
  | (Some fmrd, s) => area_loop fuel s fmrd test get sizeof_fmap
  end.

(** [area->offset] and [area->size]. *)
Definition area_region (s : state) (area : Z) : region :=
  mk_region (le32 (load (mem s) area 4) 0) (le32 (load (mem s) (area + 4) 4) 0).

(** [None] is the return value -1. *)
Definition fmap_locate_area (fuel : nat) (s : state) (name : list Z) : option (option region * state) :=
  find_area fuel s (fun s area => strcmp_equal (mem s) (area + area_name_offset) name) area_region.

Definition fmap_find_region_name (fuel : nat) (s : state) (ar : region)
    : option (option (list Z) * state) :=
  find_area fuel s
    (fun s area => (offset ar =? offset (area_region s area)) && (size ar =? size (area_region s area)))
    (fun s area => load (mem s) (area + area_name_offset) FMAP_STRLEN).

Definition fmap_locate_area_as_rdev (fuel : nat) (s : state) (name : list Z)
    : option (option region_device * state) :=
  match fmap_locate_area fuel s name with
  | None => None
  | Some (None, s) => Some (None, s)
  | Some (Some ar, s) => Some (boot_device_ro_subregion ar, s)
  end.

Definition fmap_locate_area_as_rdev_rw (fuel : nat) (s : state) (name : list Z)
    : option (option region_device * state) :=
  match fmap_locate_area fuel s name with
  | None => None
  | Some (None, s) => Some (None, s)
  | Some (Some ar, s) => Some (boot_device_rw_subregion ar, s)
  end.

(** ** The table as it is stored *)

Section Table.
Context (s : state) (r : root_dev) (content : Z -> Z) `{Hm : !MappedRoot drv_readat s r content}.
Variables B SZ : Z.
Hypothesis Hwin : win_ok r B SZ.
Hypothesis Hboot : boot_device_ro = Some (win r B SZ).
Hypothesis Hoff : 0 <= FMAP_OFFSET < 2 ^ 31.
Set Default Proof Using "Type".

Definition fm (x : Z) : Z := B + FMAP_OFFSET + x.
Definition nareas : Z := le16 (slice content (fm fmap_nareas_offset) 2) 0.
Definition table_size : Z := sizeof_fmap + nareas * sizeof_fmap_area.
Definition has_fmap : Prop :=
  FMAP_OFFSET + table_size <= SZ /\ slice content (fm 0) 8 = FMAP_SIGNATURE.
#[global] Instance has_fmap_dec : Decision has_fmap.
Proof. unfold has_fmap. solve_decision. Defined.
Definition area (i : nat) : Z := fm (sizeof_fmap + Z.of_nat i * sizeof_fmap_area).
Definition area_window (i : nat) : region :=
  mk_region (le32 (slice content (area i) 4) 0) (le32 (slice content (area i + 4) 4) 0).
(** The name, or what follows it in the area, has a zero. *)
Definition named_area (i : nat) : Prop :=
  exists k, area_name_offset <= k < sizeof_fmap_area /\ content (area i + k) = 0.

Lemma nareas_range : 0 <= nareas < 2 ^ 16.
Proof using Hm. unfold nareas. apply le16_range. by apply (content_bytes drv_readat s r content). Qed.

Lemma mapped_load p a n k f : 0 <= a -> a + n <= k ->
  (forall i, 0 <= i < k -> mem s (u32 (p + i)) = content (f + i)) ->
  load (mem s) (p + a) n = slice content (f + a) n.
Proof.
  intros Ha Hle Hp. apply (slice_ext (fun x => mem s (u32 x)) content (p + a) (f + a) n).
  intros i Hi. rewrite <- !Z.add_assoc, Hp by lia. done.
Qed.

Lemma directory_found : has_fmap -> find_fmap_directory s = (Some (win r (fm 0) table_size), s).
Proof using Hm Hwin Hboot Hoff.
  intros [Hfit Hsig]. pose proof (root_size drv_readat s r content). pose proof nareas_range.
  pose proof Hwin as (W1 & W2 & W3). unfold table_size, sizeof_fmap, sizeof_fmap_area in *.
  unfold find_fmap_directory, sizeof_fmap, sizeof_fmap_area. rewrite Hboot.
  pose proof (win_mmap drv_readat s r content B SZ FMAP_OFFSET 56 Hwin ltac:(lia) ltac:(lia)) as H'.
  destruct (FMAP_OFFSET + 56 <=? SZ) eqn:E; bool_to_prop; [|lia]. destruct H' as (p & -> & Hp).
  assert (L : forall a n, 0 <= a -> a + n <= 56 -> load (mem s) (p + a) n = slice content (fm a) n).
  { intros a n Ha Hn. by apply (mapped_load p a n 56 (B + FMAP_OFFSET)). }
  assert (Hsig' : load (mem s) p 8 = FMAP_SIGNATURE) by (rewrite <- (Z.add_0_r p), L by lia; exact Hsig).
  rewrite (bool_decide_eq_true_2 _ Hsig'). cbn [negb].
  rewrite L by (unfold fmap_nareas_offset; lia). fold nareas.
  rewrite (win_munmap drv_readat s r content). cbn [snd]. rewrite u32_small by lia.
  rewrite (win_chain drv_readat s r content) by (done || lia).
  destruct (_ <=? SZ) eqn:E2; bool_to_prop; [|lia]. unfold fm. by rewrite Z.add_0_r.
Qed.

(** Any content: a table is found only inside the device. *)
Lemma directory_cases :
  find_fmap_directory s = (None, s) \/ (has_fmap /\ find_fmap_directory s = (Some (win r (fm 0) table_size), s)).
Proof using Hm Hwin Hboot Hoff.
  destruct (decide (slice content (fm 0) 8 = FMAP_SIGNATURE)) as [Hsig|Hsig];
    [destruct (Z.le_gt_cases (FMAP_OFFSET + table_size) SZ)|].
  - right. assert (Hf : has_fmap) by done. split; [done|]. by apply directory_found.
  - left. pose proof (root_size drv_readat s r content). pose proof nareas_range.
    pose proof Hwin as (W1 & W2 & W3). unfold table_size, sizeof_fmap, sizeof_fmap_area in *.
    unfold find_fmap_directory, sizeof_fmap, sizeof_fmap_area. rewrite Hboot.
    pose proof (win_mmap drv_readat s r content B SZ FMAP_OFFSET 56 Hwin ltac:(lia) ltac:(lia)) as H'.
    destruct (FMAP_OFFSET + 56 <=? SZ) eqn:E; bool_to_prop; [|by rewrite H'].
    destruct H' as (p & -> & Hp).
    assert (L : forall a n, 0 <= a -> a + n <= 56 -> load (mem s) (p + a) n = slice content (fm a) n).
    { intros a n Ha Hn. by apply (mapped_load p a n 56 (B + FMAP_OFFSET)). }
    rewrite (win_munmap drv_readat s r content). cbn [snd]. destruct (negb _); [done|].
    rewrite L by (unfold fmap_nareas_offset; lia). fold nareas. rewrite u32_small by lia.
    rewrite (win_chain drv_readat s r content) by (done || lia).
    by destruct (_ <=? SZ) eqn:E2; bool_to_prop; [lia|].
  - left. pose proof (root_size drv_readat s r content). unfold find_fmap_directory, sizeof_fmap. rewrite Hboot.
    pose proof (win_mmap drv_readat s r content B SZ FMAP_OFFSET 56 Hwin ltac:(lia) ltac:(lia)) as H'.
    destruct (FMAP_OFFSET + 56 <=? SZ) eqn:E; bool_to_prop; [|by rewrite H'].
    destruct H' as (p & -> & Hp). rewrite (win_munmap drv_readat s r content). cbn [snd].
    rewrite bool_decide_eq_false_2; [done|]. intros Hsig'. apply Hsig. rewrite <- Hsig'.
    rewrite <- (Z.add_0_r p). symmetry. by apply (mapped_load p 0 8 56 (B + FMAP_OFFSET)); [lia|lia|].
Qed.

(** The walk, for a test that depends on the content of the area only. *)
Lemma area_loop_spec {A} n : forall fuel (test : state -> Z -> bool) (get : state -> Z -> A)
    (pass : nat -> bool) (out : nat -> A) i,
  has_fmap -> Z.of_nat (i + n) = nareas -> (n < fuel)%nat ->
  (forall j p, (j < Z.to_nat nareas)%nat ->
     (forall k, 0 <= k < sizeof_fmap_area -> mem s (u32 (p + k)) = content (area j + k)) ->
     test s p = pass j /\ get s p = out j) ->
  area_loop fuel s (win r (fm 0) table_size) test get (sizeof_fmap + Z.of_nat i * sizeof_fmap_area) =
  Some (option_map out (List.find pass (seq i n)), s).
Proof using Hm Hwin Hoff.
  pose proof (root_size drv_readat s r content). pose proof nareas_range.
  pose proof Hwin as (W1 & W2 & W3).
  induction n as [|n IH]; intros fuel test get pass out i Hf Hn Hfu Ht; (destruct fuel as [|fuel]; [lia|]);
    pose proof Hf as [Hfit _]; cbn [area_loop]; unfold table_size, sizeof_fmap, sizeof_fmap_area in Hfit |- *;
    assert (Hw : win_ok r (fm 0) (56 + nareas * 42)) by (unfold fm; cbn; lia);
    pose proof (win_mmap drv_readat s r content (fm 0) (56 + nareas * 42) (56 + Z.of_nat i * 42) 42
      Hw ltac:(lia) ltac:(lia)) as Hmap; cbn [seq List.find].
  - destruct (_ <=? _) eqn:E in Hmap; bool_to_prop; [lia|]. by rewrite Hmap.
  - destruct (_ <=? _) eqn:E in Hmap; bool_to_prop; [|lia]. destruct Hmap as (p & -> & Hp).
    destruct (Ht i p) as [Ht1 Ht2]; [lia| |].
    { intros k Hk. unfold sizeof_fmap_area in Hk. rewrite Hp by lia. f_equal. unfold area, fm, sizeof_fmap, sizeof_fmap_area. lia. }
    rewrite Ht1, Ht2. rewrite (win_munmap drv_readat s r content). cbn [snd].
    destruct (pass i); cbn [negb]; [done|]. rewrite u32_small by lia.
    replace (56 + Z.of_nat i * 42 + 42) with (sizeof_fmap + Z.of_nat (S i) * sizeof_fmap_area)
      by (unfold sizeof_fmap, sizeof_fmap_area; lia).
    apply IH; [done|lia|lia|done].
Qed.

Lemma find_area_spec {A} fuel (test : state -> Z -> bool) (get : state -> Z -> A) pass out :
  nareas < Z.of_nat fuel ->
  (forall j p, (j < Z.to_nat nareas)%nat ->
     (forall k, 0 <= k < sizeof_fmap_area -> mem s (u32 (p + k)) = content (area j + k)) ->
     test s p = pass j /\ get s p = out j) ->
  has_fmap -> find_area fuel s test get =
    Some (option_map out (List.find pass (seq 0 (Z.to_nat nareas))), s).
Proof using Hm Hwin Hboot Hoff.
  intros Hfu Ht Hf. pose proof nareas_range. unfold find_area. rewrite (directory_found Hf).
  rewrite <- (Z.add_0_r sizeof_fmap).
  by apply (area_loop_spec (Z.to_nat nareas) fuel test get pass out 0); [done|lia|lia|].
Qed.

Lemma area_region_spec j p :
  (forall k, 0 <= k < sizeof_fmap_area -> mem s (u32 (p + k)) = content (area j + k)) ->
  area_region s p = area_window j.
Proof.
  intros Hp. unfold area_region, area_window. rewrite <- (Z.add_0_r p) at 1.
  rewrite !(mapped_load p _ _ sizeof_fmap_area (area j)) by (done || (unfold sizeof_fmap_area; lia)).
  by rewrite Z.add_0_r.
Qed.

(** [fmap_locate_area] finds the first area of the table with the given name
    and gives its offset and size; as a device it is that window of the boot
    device, if it fits.  [fmap_find_region_name] finds the first area with
    the given window and gives its name field.  Without a table, or without such
    an area, both fail. *)
Theorem fmap_locate_correct fuel name ar :
  nareas < Z.of_nat fuel -> Forall (fun c => c <> 0) name ->
  (forall i, (i < Z.to_nat nareas)%nat -> named_area i /\ offset (area_window i) <= 2 ^ 31) ->
  let areas := if decide has_fmap then seq 0 (Z.to_nat nareas) else [] in
  let located := List.find (fun i => bool_decide (string_at content (area i + area_name_offset) name)) areas in
  fmap_locate_area fuel s name = Some (option_map area_window located, s) /\
  fmap_locate_area_as_rdev fuel s name =
    Some (match option_map area_window located with
          | Some a => if offset a + size a <=? SZ then Some (win r (B + offset a) (size a)) else None
          | None => None
          end, s) /\
  fmap_find_region_name fuel s ar =
    Some (option_map (fun i => slice content (area i + area_name_offset) FMAP_STRLEN)
            (List.find (fun i => (offset ar =? offset (area_window i)) && (size ar =? size (area_window i)))
               areas), s).
Proof using Hm Hwin Hboot Hoff.
  intros Hfu Hz Hn areas located.
  assert (Hloc : fmap_locate_area fuel s name = Some (option_map area_window located, s)).
  { subst located areas. unfold fmap_locate_area. destruct (decide has_fmap) as [Hf|Hf].
    - apply find_area_spec; [done| |done]. intros j p Hj Hp. split; [|by apply area_region_spec].
      destruct (Hn j Hj) as [(k & Hk & H0) _]. unfold area_name_offset, sizeof_fmap_area in *.
      apply strcmp_equal_spec; [done|]. exists (k - 8). split; [lia|].
      split; [by replace (area j + 8 + (k - 8)) with (area j + k) by lia|].
      intros i Hi. rewrite <- Z.add_assoc, Hp by lia. f_equal. lia.
    - unfold find_area. destruct directory_cases as [->|[? _]]; done. }
  split; [exact Hloc|]. split.
  - unfold fmap_locate_area_as_rdev. rewrite Hloc. destruct located as [i|] eqn:E; cbn [option_map]; [|done].
    unfold boot_device_ro_subregion, boot_device_subregion, region_offset, region_sz. rewrite Hboot.
    assert (Hi : (i < Z.to_nat nareas)%nat).
    { apply List.find_some in E as [Hin _]. subst areas. destruct (decide has_fmap); [|done].
      apply in_seq in Hin. lia. }
    destruct (Hn i Hi) as [_ Ho].
    assert (R : 0 <= offset (area_window i) /\ 0 <= size (area_window i) < 2 ^ 32).
    { cbn [area_window offset size]. split; apply le32_range; by apply (content_bytes drv_readat s r content). }
    by rewrite (win_chain drv_readat s r content) by (done || lia).
  - subst areas. unfold fmap_find_region_name. destruct (decide has_fmap) as [Hf|Hf].
    + apply find_area_spec; [done| |done]. intros j p Hj Hp. rewrite (area_region_spec j p Hp).
      split; [done|]. apply (mapped_load p _ _ sizeof_fmap_area (area j));
        [unfold area_name_offset; lia|unfold area_name_offset, FMAP_STRLEN, sizeof_fmap_area; lia|done].
    + unfold find_area. destruct directory_cases as [->|[? _]]; done.
Qed.
End Table.
End Fmap.

(** ** A small image

    A map at 64 with the areas "RO" and "RW" of 512 bytes. *)

Definition pad (n : nat) (l : list Z) : list Z := l ++ repeat 0 (n - length l).
Definition bytes32 (v : Z) : list Z := [u8 v; u8 (Z.shiftr v 8); u8 (Z.shiftr v 16); u8 (Z.shiftr v 24)].
Definition sample_area (off sz : Z) (name : list Z) : list Z :=
  bytes32 off ++ bytes32 sz ++ pad 34 name.
Definition sample_map : list Z :=
  repeat 0xff 64 ++ FMAP_SIGNATURE ++ [1; 1] ++ repeat 0 8 ++ bytes32 512 ++ pad 32 [70] ++ [2; 0]
  ++ sample_area 0 256 [82; 79] ++ sample_area 256 256 [82; 87].

Lemma map_mapped : MappedRoot no_driver (image_state sample_map) (image_root 512) (image_content sample_map).
Proof. apply image_mapped; [by apply bytes_check; vm_compute|lia]. Qed.

Lemma fmap_locate_witness :
  let boot := Some (win (image_root 512) 0 512) in
  fmap_locate_area no_driver 64 boot 3 (image_state sample_map) [82; 87] =
    Some (Some (mk_region 256 256), image_state sample_map) /\
  fmap_locate_area_as_rdev no_driver 64 boot 3 (image_state sample_map) [82; 87] =
    Some (Some (win (image_root 512) 256 256), image_state sample_map) /\
  fmap_find_region_name no_driver 64 boot 3 (image_state sample_map) (mk_region 0 256) =
    Some (Some (pad 32 [82; 79]), image_state sample_map).
Proof.
  intros boot. assert (Hn : nareas 64 (image_content sample_map) 0 = 2) by (by vm_compute).
  assert (Hf : has_fmap 64 (image_content sample_map) 0 512) by (by vm_compute).
  pose proof (fmap_locate_correct no_driver 64 boot _ _ _ (Hm := map_mapped) 0 512 ltac:(cbn; lia) eq_refl
    ltac:(lia) 3 [82; 87] (mk_region 0 256) ltac:(lia) ltac:(by repeat constructor)) as H.
  destruct (decide _) as [?|?] in H; [|done]. rewrite Hn in H.
  destruct H as (H1 & H2 & H3).
  - intros i Hi. change (Z.to_nat 2) with 2%nat in Hi.
    destruct i as [|[|i]]; [| |lia]; (split; [exists 10; by vm_compute|by vm_compute]).
  - split; [exact H1|]. split; [exact H2|]. exact H3.
Defined.
