(* ===== verification/CbfsLoad.v ===== *)
(** * Loading from the boot flash
    ([src/lib/cbfs.c], [src/arch/x86/mmap_boot.c], [src/include/program_loading.h])

    The flash is mapped below 4 GiB; a header it points to from its last word
    says where the file system lies.  The decompressors are parameters:
    functions on memory that return the size they produced. *)

From S2P Require Import Prelude Region Bytes Mapped Cbfs Fmap.

Definition CBFS_COMPRESS_LZMA : Z := 1.
Definition CBFS_COMPRESS_LZ4 : Z := 2.
Definition CBFS_TYPE_STAGE : Z := 0x10.
Definition CBFS_TYPE_OPTIONROM : Z := 0x30.
Definition CBFS_TYPE_STRUCT : Z := 0x70.
Definition CBFS_HEADER_MAGIC : Z := 0x4F524243.

(** [struct cbfs_header], big-endian, and [struct cbfs_stage]: the offsets of
    the fields used. *)
Definition header_magic (h : list Z) : Z := read_be32 h 0.
Definition header_romsize (h : list Z) : Z := read_be32 h 8.
Definition header_bootblocksize (h : list Z) : Z := read_be32 h 12.
Definition header_offset (h : list Z) : Z := read_be32 h 20.

Definition sizeof_cbfs_stage : Z := 28.
Definition stage_compression (h : list Z) : Z := le32 h 0.
Definition stage_entry (h : list Z) : Z := le64 h 4.
Definition stage_load (h : list Z) : Z := le64 h 12.
Definition stage_len (h : list Z) : Z := le32 h 20.
Definition stage_memlen (h : list Z) : Z := le32 h 24.

Record cbfs_props := mk_props { props_offset : Z; props_size : Z }.

(** [memset] ([src/arch/x86/memset.c]): its string instructions fill [n] bytes. *)
Definition memset (m : Z -> Z) (a v n : Z) : Z -> Z := fun x => if u32 (x - a) <? n then v else m x.

(** [struct prog] after [PROG_INIT], less its type and name. *)
Record prog := mk_prog { prog_rdev : region_device; entry_point : Z; entry_arg : Z }.

(** ** Names of option ROMs *)

Definition tohex4 (c : Z) : Z := if c <=? 9 then c + 48 else c - 10 + 97.
Definition tohex16 (val : Z) : list Z :=
  [tohex4 (Z.shiftr val 12); tohex4 (Z.land (Z.shiftr val 8) 0xf);
   tohex4 (Z.land (Z.shiftr val 4) 0xf); tohex4 (Z.land val 0xf)].
(** "pciXXXX,XXXX.rom" *)
Definition optionrom_name (vendor device : Z) : list Z :=
  [112; 99; 105] ++ tohex16 vendor ++ [44] ++ tohex16 device ++ [46; 114; 111; 109].

Section Load.
Context {D : Type}.
Variable drv_readat : D -> nat -> Z -> Z -> Z * list Z.
Notation state := (rstate (D := D)).
Variable FMAP_OFFSET : Z.
Variable CONFIG_ROM_SIZE : Z.
(** The end of the region "COREBOOT" of the flash map. *)
Variable fmap_top : Z.
Variables ulz4fn ulzman : (Z -> Z) -> Z -> Z -> Z -> Z -> Z * (Z -> Z).
(** What the uninitialised local variables hold. *)
Variables stack_word stack_header : list Z.

(** The ROM is mapped just below 4 GiB. *)
Definition rom_base : Z := 0x100000000 - CONFIG_ROM_SIZE.
Definition boot_dev : root_dev := mem_region_device_ro_init 1 rom_base CONFIG_ROM_SIZE.
Definition boot_device_ro : option region_device := Some (rdev_of boot_dev).

(** All of memory ([src/lib/prog_loaders.c]). *)
Definition addrspace_32bit : root_dev := mem_region_device_ro_init 2 0 0xffffffff.

(** A read into a buffer that keeps what it held when nothing is read. *)
Definition read_into (s : state) (rd : region_device) (buf : list Z) (off n : Z) : Z * list Z :=
  let '(ret, b) := rdev_readat drv_readat s rd off n in
  (ret, if ret <? 0 then buf else b).

(** [arch/x86/mmap_boot.c]: the locator of this board. *)
Definition mmap_master_header_props (s : state) : option cbfs_props :=
  match boot_device_ro with
  | None => None
  | Some bdev =>
      let off := le32 (snd (read_into s bdev stack_word (u32 (CONFIG_ROM_SIZE - 4)) 4)) 0 in
      let off := u32 (off + CONFIG_ROM_SIZE) in
      let header := snd (read_into s bdev stack_header off 32) in
      if negb (header_magic header =? CBFS_HEADER_MAGIC) then None
      else
        let sz := if negb (CONFIG_ROM_SIZE =? header_romsize header) then CONFIG_ROM_SIZE
                  else header_romsize header in
        let sz := u32 (sz - header_offset header) in
        let sz := u32 (sz - header_bootblocksize header) in
        Some (mk_props (header_offset header) (ALIGN_DOWN 32 sz 64))
  end.

(** [lib/cbfs.c]: the default locator. *)
Definition cbfs_master_header_props (s : state) : option cbfs_props :=
  match boot_device_ro with
  | None => None
  | Some bdev =>
      let '(ret, word) := read_into s bdev stack_word (u32 (fmap_top - 4)) 4 in
      if ret <? 0 then None
      else
        let '(ret, header) := read_into s bdev stack_header (u32 (fmap_top + le32 word 0)) 32 in
        if ret <? 0 then None
        else if negb (header_magic header =? CBFS_HEADER_MAGIC) then None
        else Some (mk_props (header_offset header) (u32 (header_romsize header - header_offset header)))
  end.

(** The first locator that succeeds; [None] in the list is a NULL function. *)
Fixpoint first_located (locators : list (option (state -> option cbfs_props))) (s : state)
    : option cbfs_props :=
  match locators with
  | [] => None
  | None :: ls => first_located ls s
  | Some locate :: ls =>
      match locate s with Some props => Some props | None => first_located ls s end
  end.

(** This board has the one of [arch/x86/mmap_boot.c]. *)
Definition locators : list (option (state -> option cbfs_props)) := [Some mmap_master_header_props].
Definition cbfs_boot_region_properties (s : state) : option cbfs_props := first_located locators s.

Definition cbfs_boot_locate (fuel : nat) (s : state) (fh : cbfsf) (name : list Z) (ty : option Z)
    : option (Z * cbfsf * state) :=
  match cbfs_boot_region_properties s with
  | None => Some (-1, fh, s)
  | Some props =>
      match boot_device_ro with
      | None => Some (-1, fh, s)
      | Some boot_dev =>
          match rdev_chain boot_dev (props_offset props) (props_size props) with
          | None => Some (-1, fh, s)
          | Some rdev => cbfs_locate drv_readat fuel s fh rdev name ty
          end
      end
  end.

(** The mapping and the size of the file; [fh] is the local handle. *)
Definition cbfs_boot_map_with_leak (fuel : nat) (s : state) (fh : cbfsf) (name : list Z) (type : Z)
    : option (option Z * Z * state) :=
  match cbfs_boot_locate fuel s fh name (Some type) with
  | None => None
  | Some (ret, fh, s) =>
      if negb (ret =? 0) then Some (None, 0, s)
      else
        let fsize := region_device_sz (data fh) in
        let '(p, s) := rdev_mmap drv_readat s (data fh) 0 fsize in
        Some (p, fsize, s)
  end.

Definition cbfs_boot_map_optionrom (fuel : nat) (s : state) (fh : cbfsf) (vendor device : Z)
    : option (option Z * Z * state) :=
  cbfs_boot_map_with_leak fuel s fh (optionrom_name vendor device) CBFS_TYPE_OPTIONROM.

Definition cbfs_locate_file_in_region (fuel : nat) (s : state) (fh : cbfsf)
    (region_name name : list Z) (ty : option Z) : option (Z * cbfsf * state) :=
  match fmap_locate_area_as_rdev drv_readat FMAP_OFFSET boot_device_ro fuel s region_name with
  | None => None
  | Some (None, s) => Some (-1, fh, s)
  | Some (Some rdev, s) => cbfs_locate drv_readat fuel s fh rdev name ty
  end.

Definition cbfs_load_and_decompress (s : state) (rdev : region_device) (off in_size buffer buffer_size
    compression : Z) : Z * state :=
  if compression =? CBFS_COMPRESS_NONE then
    if buffer_size <? in_size then (0, s)
    else
      let '(ret, b) := rdev_readat drv_readat s rdev off in_size in
      let s := set_mem (store (mem s) buffer b) s in
      if negb (u32 ret =? in_size) then (0, s) else (in_size, s)
  else if compression =? CBFS_COMPRESS_LZ4 then
    let compr_start := u32 (u32 (buffer + buffer_size) - in_size) in
    let '(ret, b) := rdev_readat drv_readat s rdev off in_size in
    let s := set_mem (store (mem s) compr_start b) s in
    if negb (u32 ret =? in_size) then (0, s)
    else
      let '(out_size, m) := ulz4fn (mem s) compr_start in_size buffer buffer_size in
      (out_size, set_mem m s)
  else if compression =? CBFS_COMPRESS_LZMA then
    match rdev_mmap drv_readat s rdev off in_size with
    | (None, s) => (0, s)
    | (Some map, s) =>
        let '(out_size, m) := ulzman (mem s) map in_size buffer buffer_size in
        (out_size, snd (rdev_munmap (set_mem m s) rdev (Some map)))
    end
  else (0, s).

(** [prog_set_area] and [prog_set_entry]; a failing [rdev_chain] leaves the
    device as it was. *)
Definition prog_set_area (p : prog) (start sz : Z) : prog :=
  match rdev_chain (rdev_of addrspace_32bit) start sz with
  | Some rd => mk_prog rd (entry_point p) (entry_arg p)
  | None => p
  end.
Definition prog_set_entry (p : prog) (e arg : Z) : prog := mk_prog (prog_rdev p) e arg.

Definition cbfs_prog_stage_section (s : state) (pstage : prog) : Z * option Z :=
  let '(ret, stage) := rdev_readat drv_readat s (prog_rdev pstage) 0 sizeof_cbfs_stage in
  if negb (u32 ret =? sizeof_cbfs_stage) then (0, None)
  else (stage_memlen stage, Some (u32 (stage_load stage))).

Definition cbfs_prog_stage_load (s : state) (pstage : prog) : Z * prog * state :=
  let fh := prog_rdev pstage in
  let '(ret, stage) := rdev_readat drv_readat s fh 0 sizeof_cbfs_stage in
  if negb (u32 ret =? sizeof_cbfs_stage) then (-1, pstage, s)
  else
    let fsize := u32 (region_device_sz fh - sizeof_cbfs_stage) in
    let foffset := sizeof_cbfs_stage in
    let ld := u32 (stage_load stage) in
    let entry := u32 (stage_entry stage) in
    let memlen := stage_memlen stage in
    let '(fsize, s) :=
      cbfs_load_and_decompress s fh foffset fsize ld memlen (stage_compression stage) in
    if fsize =? 0 then (-1, pstage, s)
    else
      let s := set_mem (memset (mem s) (u32 (ld + fsize)) 0 (u32 (memlen - fsize))) s in
      (0, prog_set_entry (prog_set_area pstage ld memlen) entry 0, s).

(** [cbfs_file_data] *)
Definition cbfs_file_data (old : region_device) (file : cbfsf) : region_device :=
  match rdev_chain (data file) 0 (region_device_sz (data file)) with
  | Some rd => rd
  | None => old
  end.

(** The entry point, [None] for NULL.  [stage] is the program as initialised. *)
Definition cbfs_boot_load_stage_by_name (fuel : nat) (s : state) (fh : cbfsf) (stage : prog)
    (name : list Z) : option (option Z * state) :=
  match cbfs_boot_locate fuel s fh name (Some CBFS_TYPE_STAGE) with
  | None => None
  | Some (ret, fh, s) =>
      if negb (ret =? 0) then Some (None, s)
      else
        let stage := mk_prog (cbfs_file_data (prog_rdev stage) fh) (entry_point stage) (entry_arg stage) in
        let '(ret, stage, s) := cbfs_prog_stage_load s stage in
        if negb (ret =? 0) then Some (None, s) else Some (Some (entry_point stage), s)
  end.

(** [prog_locate] ([src/lib/prog_loaders.c]); preparing the locators does
    nothing here, this board's has no such function. *)
Definition prog_locate (fuel : nat) (s : state) (file : cbfsf) (p : prog) (name : list Z)
    : option (Z * prog * state) :=
  match cbfs_boot_locate fuel s file name None with
  | None => None
  | Some (ret, file, s) =>
      if negb (ret =? 0) then Some (-1, p, s)
      else Some (0, mk_prog (cbfs_file_data (prog_rdev p) file) (entry_point p) (entry_arg p), s)
  end.

Definition cbfs_boot_load_struct (fuel : nat) (s : state) (fh : cbfsf) (name : list Z) (buf buf_size : Z)
    : option (Z * state) :=
  match cbfs_boot_locate fuel s fh name (Some CBFS_TYPE_STRUCT) with
  | None => None
  | Some (ret, fh, s) =>
      if ret <? 0 then Some (0, s)
      else
        match cbfsf_decompression_info drv_readat fuel s fh with
        | None => None
        | Some (None, s) => Some (0, s)
        | Some (Some (compression_algo, decompressed_size), s) =>
            if buf_size <? decompressed_size then Some (0, s)
            else Some (cbfs_load_and_decompress s (data fh) 0 (region_device_sz (data fh))
                         buf buf_size compression_algo)
        end
  end.
End Load.

(** ** Decompressors

    The interface to them.  [decode] gives the plain bytes of a packed list
    that unpacks in a buffer of a given size; the packed bytes lie outside the
    buffer or at its end. *)
Class Decompressor (f : (Z -> Z) -> Z -> Z -> Z -> Z -> Z * (Z -> Z))
    (decode : list Z -> Z -> option (list Z)) : Prop := {
  dc_size : forall raw cap out, decode raw cap = Some out -> Z.of_nat (length out) <= cap;
  dc_run : forall m src n dst cap out,
    0 <= src -> 0 <= n -> src + n <= 2 ^ 32 -> 0 <= dst -> dst + cap < 2 ^ 32 ->
    decode (load m src n) cap = Some out ->
    src + n = dst + cap \/ src + n <= dst \/ dst + cap <= src ->
    exists m', f m src n dst cap = (Z.of_nat (length out), m') /\
      (forall i, 0 <= i < Z.of_nat (length out) -> m' (dst + i) = nth (Z.to_nat i) out 0) /\
      forall a, 0 <= a < 2 ^ 32 -> ~ (dst <= a < dst + cap) -> m' a = m a
}.

Lemma memset_spec m a v n x : 0 <= a -> 0 <= n -> a + n <= 2 ^ 32 -> 0 <= x < 2 ^ 32 ->
  memset m a v n x = if (a <=? x) && (x <? a + n) then v else m x.
Proof.
  intros Ha Hn Hle Hx. unfold memset.
  assert (E : (u32 (x - a) <? n) = (a <=? x) && (x <? a + n)); [|by rewrite E].
  apply eq_true_iff_eq. rewrite andb_true_iff, Z.leb_le, !Z.ltb_lt. destruct (Z.le_gt_cases a x).
  - rewrite u32_small by lia. lia.
  - unfold u32, wrap. rewrite <- (Z.mod_add _ 1), Z.mod_small by lia. lia.
Qed.

Lemma store_spec m a b x : 0 <= a -> a + Z.of_nat (length b) <= 2 ^ 32 -> 0 <= x < 2 ^ 32 ->
  store m a b x = if (a <=? x) && (x <? a + Z.of_nat (length b)) then nth (Z.to_nat (x - a)) b 0 else m x.
Proof.
  intros Ha Hb Hx. destruct ((a <=? x) && (x <? a + Z.of_nat (length b))) eqn:E.
  - bool_to_prop. unfold store. rewrite u32_small by lia. by rewrite (proj2 (Z.ltb_lt _ _)) by lia.
  - apply store_frame; [lia..|]. apply andb_false_iff in E as [E|E]; bool_to_prop; lia.
Qed.

Lemma find_ext {A} (f f' : A -> bool) l : (forall x, f x = f' x) -> List.find f l = List.find f' l.
Proof. intros H. induction l as [|x l IH]; [done|]. cbn [List.find]. by rewrite H, IH. Qed.

Section Boot.
Context {D : Type} (drv_readat : D -> nat -> Z -> Z -> Z * list Z).
Context (s : rstate (D := D)) (CONFIG_ROM_SIZE : Z).
Context (ulz4fn ulzman : (Z -> Z) -> Z -> Z -> Z -> Z -> Z * (Z -> Z)).
Context (lz4_decode lzma_decode : list Z -> Z -> option (list Z)).
Context `{Hlz4 : !Decompressor ulz4fn lz4_decode} `{Hlzma : !Decompressor ulzman lzma_decode}.
Context (stack_word stack_header : list Z).
Hypothesis Hrom : 64 <= CONFIG_ROM_SIZE < 2 ^ 31.
Hypothesis Hbytes : forall x, is_byte (mem s x).
Set Default Proof Using "Type".

Notation ROM := CONFIG_ROM_SIZE.
Notation rom_base := (rom_base ROM).
Notation boot_dev := (boot_dev ROM).

(** What the flash holds. *)
Definition flash (x : Z) : Z := mem s (u32 (rom_base + x)).

#[local] Instance flash_mapped : MappedRoot drv_readat s boot_dev flash.
Proof using Hrom Hbytes. apply mem_mapped; [lia|exact Hbytes]. Qed.

Definition unpack (compression : Z) (raw : list Z) (cap : Z) : option (list Z) :=
  if compression =? CBFS_COMPRESS_NONE then
    if cap <? Z.of_nat (length raw) then None else Some raw
  else if compression =? CBFS_COMPRESS_LZ4 then
    if cap <? Z.of_nat (length raw) then None else lz4_decode raw cap
  else if compression =? CBFS_COMPRESS_LZMA then lzma_decode raw cap
  else None.

Lemma load_slice m a n : 0 <= a -> a + n <= 2 ^ 32 -> load m a n = slice m a n.
Proof.
  intros Ha Hn. apply (slice_ext (fun x => m (u32 x)) m a a n). intros i Hi. by rewrite u32_small by lia.
Qed.

(** Loading below the flash: the bytes wanted, and nothing else. *)
Lemma load_and_decompress_spec o n off k ld memlen c out :
  win_ok boot_dev o n -> 0 <= off -> 0 < k -> off + k <= n ->
  0 <= ld -> 0 <= memlen -> ld + memlen <= rom_base ->
  unpack c (slice flash (o + off) k) memlen = Some out ->
  Z.of_nat (length out) <= memlen /\
  exists m', cbfs_load_and_decompress drv_readat ulz4fn ulzman s (win boot_dev o n) off k ld memlen c =
      (Z.of_nat (length out), set_mem m' s) /\
    (forall i, 0 <= i < Z.of_nat (length out) -> m' (ld + i) = nth (Z.to_nat i) out 0) /\
    forall a, 0 <= a < 2 ^ 32 -> ~ (ld <= a < ld + memlen) -> m' a = mem s a.
Proof using Hrom Hbytes Hlz4 Hlzma.
  intros Hw Ho Hk Hle Hld Hml Hend. pose proof Hw as (W1 & W2 & W3). cbn in W3. unfold CbfsLoad.rom_base in Hend.
  assert (Hsl : Z.of_nat (length (slice flash (o + off) k)) = k) by (rewrite slice_length; lia).
  unfold unpack, cbfs_load_and_decompress. rewrite Hsl.
  assert (Hread : rdev_readat drv_readat s (win boot_dev o n) off k = (k, slice flash (o + off) k)).
  { rewrite (win_read drv_readat s boot_dev flash) by (done || lia). by rewrite (proj2 (Z.leb_le _ _)). }
  destruct (c =? CBFS_COMPRESS_NONE).
  - destruct (memlen <? k) eqn:E; bool_to_prop; [done|]. intros [= <-]. rewrite Hread, u32_small, Z.eqb_refl by lia.
    cbn [negb]. rewrite Hsl. split; [lia|]. eexists. split; [done|]. split; intros a Ha.
    + rewrite store_spec by lia. rewrite Hsl, (proj2 (Z.leb_le _ _)), (proj2 (Z.ltb_lt _ _)) by lia.
      cbn [andb]. f_equal. lia.
    + intros Hout. rewrite store_spec by lia. rewrite Hsl.
      destruct (ld <=? a) eqn:E1; bool_to_prop; [|done]. by rewrite (proj2 (Z.ltb_ge _ _)) by lia.
  - destruct (c =? CBFS_COMPRESS_LZ4).
    + destruct (memlen <? k) eqn:E; bool_to_prop; [done|]. intros Hdec. rewrite Hread, u32_small, Z.eqb_refl by lia.
      cbn [negb]. rewrite (u32_small (ld + memlen)), u32_small by lia. cbn [mem set_mem].
      set (m1 := store (mem s) (ld + memlen - k) (slice flash (o + off) k)).
      assert (Hl : load m1 (ld + memlen - k) k = slice flash (o + off) k).
      { pose proof (load_store (mem s) (ld + memlen - k) (slice flash (o + off) k)) as L.
        rewrite Hsl in L. apply L; lia. }
      destruct (dc_run (Decompressor := Hlz4) m1 (ld + memlen - k) k ld memlen out) as (m' & E1 & E2 & E3);
        [lia..|by rewrite Hl|lia|].
      rewrite E1. split; [by apply (dc_size (Decompressor := Hlz4) _ _ _ Hdec)|]. exists m'.
      split; [done|]. split; [done|]. intros a Ha Hout. rewrite E3 by done. unfold m1.
      rewrite store_spec by lia. rewrite Hsl. destruct (_ <=? a) eqn:E4; bool_to_prop; [|done].
      by rewrite (proj2 (Z.ltb_ge _ _)) by lia.
    + destruct (c =? CBFS_COMPRESS_LZMA); [|done]. intros Hdec.
      assert (Hmap : rdev_mmap drv_readat s (win boot_dev o n) off k = (Some (2 ^ 32 - ROM + (o + off)), s)).
      { unfold rdev_mmap. cbn [win rdev_region rdev_root].
        rewrite (win_checked drv_readat s boot_dev flash) by (done || lia).
        rewrite (proj2 (Z.leb_le _ _)) by lia. cbn. unfold CbfsLoad.rom_base. rewrite u32_small by lia. done. }
      rewrite Hmap.
      destruct (dc_run (Decompressor := Hlzma) (mem s) (2 ^ 32 - ROM + (o + off)) k ld memlen out)
        as (m' & E1 & E2 & E3); [lia..| |lia|].
      { rewrite <- Hdec. f_equal. rewrite load_slice by lia. apply slice_ext. intros i Hi. unfold flash.
        unfold CbfsLoad.rom_base. rewrite u32_small by lia. f_equal. lia. }
      rewrite E1. split; [by apply (dc_size (Decompressor := Hlzma) _ _ _ Hdec)|]. exists m'.
      split; [|done]. by unfold rdev_munmap.
Qed.

(** ** The header in the flash *)

Definition header_at : Z := u32 (le32 (slice flash (ROM - 4) 4) 0 + ROM).
Definition boot_header : list Z := slice flash header_at 32.
Definition cbfs_base : Z := header_offset boot_header.
Definition cbfs_size : Z := (ROM - cbfs_base - header_bootblocksize boot_header) / 64 * 64.
Definition header_valid : Prop :=
  header_at + 32 <= ROM /\ header_magic boot_header = CBFS_HEADER_MAGIC /\
  cbfs_base + header_bootblocksize boot_header <= ROM.

Lemma cbfs_place : header_valid -> win_ok boot_dev cbfs_base cbfs_size.
Proof using Hrom Hbytes.
  intros (H1 & H2 & H3). unfold cbfs_size, cbfs_base, header_offset, header_bootblocksize in *.
  assert (Hb : Forall is_byte boot_header) by (apply slice_bytes; intros ?; apply Hbytes).
  pose proof (read_be32_range boot_header 20 Hb) as A. pose proof (read_be32_range boot_header 12 Hb) as B.
  set (u := read_be32 boot_header 20) in *. set (v := read_be32 boot_header 12) in *. clearbody u v.
  change (0 <= u /\ 0 <= (ROM - u - v) / 64 * 64 /\ u + (ROM - u - v) / 64 * 64 <= ROM).
  pose proof (Z.div_mod (ROM - u - v) 64 ltac:(lia)). pose proof (Z.mod_pos_bound (ROM - u - v) 64 ltac:(lia)).
  lia.
Qed.

Lemma boot_locate fuel fh name ty : header_valid ->
  cbfs_boot_locate drv_readat ROM stack_word stack_header fuel s fh name ty =
  cbfs_locate drv_readat fuel s fh (cb boot_dev cbfs_base cbfs_size) name ty.
Proof using Hrom Hbytes.
  intros Hv. pose proof (cbfs_place Hv) as Hw. pose proof Hv as (H1 & H2 & H3). pose proof Hw as (W1 & W2 & W3). cbn in W3.
  assert (Hb : Forall is_byte boot_header) by (apply slice_bytes; intros ?; apply Hbytes).
  pose proof (read_be32_range boot_header 12 Hb) as Hbb.
  assert (W0 : win_ok boot_dev 0 ROM) by (cbn; lia).
  assert (Hp : cbfs_boot_region_properties drv_readat ROM stack_word stack_header s =
    Some (mk_props cbfs_base cbfs_size)).
  { unfold cbfs_boot_region_properties, locators. cbn [first_located].
    unfold mmap_master_header_props, boot_device_ro. change (rdev_of boot_dev) with (win boot_dev 0 ROM).
    unfold read_into. rewrite (u32_small (ROM - 4)) by lia.
    rewrite (win_read drv_readat s boot_dev flash 0 ROM (ROM - 4) 4) by (done || lia).
    destruct (ROM - 4 + 4 <=? ROM) eqn:E1; bool_to_prop; [|lia]. change (4 <? 0) with false. cbn [snd].
    rewrite Z.add_0_l. fold header_at. assert (Hh : 0 <= header_at) by apply u32_range.
    rewrite (win_read drv_readat s boot_dev flash 0 ROM header_at 32) by (done || lia).
    destruct (header_at + 32 <=? ROM) eqn:E2; bool_to_prop; [|lia].
    change (32 <? 0) with false. cbn [snd]. rewrite Z.add_0_l. fold boot_header. rewrite H2, Z.eqb_refl. cbn [negb].
    fold cbfs_base. do 2 f_equal.
    assert (Es : (if negb (ROM =? header_romsize boot_header) then ROM else header_romsize boot_header) = ROM).
    { by destruct (ROM =? header_romsize boot_header) eqn:E; bool_to_prop. }
    rewrite Es. unfold header_bootblocksize in *. rewrite !u32_small by (rewrite ?u32_small; lia).
    unfold cbfs_size. change 64 with (2 ^ 6). rewrite align_down_pow2 by lia. change (2 ^ 6) with 64.
    unfold header_bootblocksize. set (z := ROM - _ - _). pose proof (Z.div_mod z 64 ltac:(lia)). lia. }
  unfold cbfs_boot_locate. rewrite Hp. cbn [props_offset props_size]. unfold boot_device_ro.
  change (rdev_of boot_dev) with (win boot_dev 0 ROM).
  rewrite (win_chain drv_readat s boot_dev flash) by (done || lia).
  destruct (cbfs_base + cbfs_size <=? ROM) eqn:E; bool_to_prop; [|lia]. by rewrite Z.add_0_l.
Qed.

(** ** Loading a stage *)

(** The file at offset [x] of the file system. *)
Definition data_at (x : Z) : Z := cbfs_base + x + meta_size flash cbfs_base x.
Definition stage_header (x : Z) : list Z := slice flash (data_at x) sizeof_cbfs_stage.
Definition stage_bytes (x : Z) : Z := data_size flash cbfs_base x - sizeof_cbfs_stage.
Definition load_address (x : Z) : Z := u32 (stage_load (stage_header x)).
Definition stage_contents (x : Z) : option (list Z) :=
  unpack (stage_compression (stage_header x))
    (slice flash (data_at x + sizeof_cbfs_stage) (stage_bytes x)) (stage_memlen (stage_header x)).

(** Memory with [out] at [ld], zeros after it up to [n] bytes. *)
Definition loaded (m m' : Z -> Z) (ld n : Z) (out : list Z) : Prop :=
  forall a, 0 <= a < 2 ^ 32 ->
    m' a = if (ld <=? a) && (a <? ld + n) then nth (Z.to_nat (a - ld)) out 0 else m a.

Lemma stage_load_spec p x out :
  win_ok boot_dev (data_at x) (data_size flash cbfs_base x) -> 0 < stage_bytes x ->
  load_address x + stage_memlen (stage_header x) <= rom_base ->
  prog_rdev p = win boot_dev (data_at x) (data_size flash cbfs_base x) ->
  stage_contents x = Some out -> out <> [] ->
  exists m' p', cbfs_prog_stage_load drv_readat ulz4fn ulzman s p = (0, p', set_mem m' s) /\
    entry_point p' = u32 (stage_entry (stage_header x)) /\
    loaded (mem s) m' (load_address x) (stage_memlen (stage_header x)) out.
Proof using Hrom Hbytes Hlz4 Hlzma.
  intros Hw Hpos Hend Hp Hc Hout. pose proof Hw as (W1 & W2 & W3). cbn in W3. unfold stage_bytes, sizeof_cbfs_stage in Hpos.
  assert (Hh : Forall is_byte (stage_header x)) by (apply slice_bytes; intros ?; apply Hbytes).
  pose proof (le32_range _ 24 Hh) as Hml. fold (stage_memlen (stage_header x)) in Hml.
  unfold cbfs_prog_stage_load. rewrite Hp.
  rewrite (win_read drv_readat s boot_dev flash) by (done || (unfold sizeof_cbfs_stage; lia)).
  destruct (0 + sizeof_cbfs_stage <=? data_size flash cbfs_base x) eqn:E; bool_to_prop;
    [|unfold sizeof_cbfs_stage in E; lia].
  change (u32 sizeof_cbfs_stage =? sizeof_cbfs_stage) with true. cbn [negb]. rewrite Z.add_0_r.
  fold (stage_header x). fold (load_address x).
  change (region_device_sz (win boot_dev (data_at x) (data_size flash cbfs_base x)))
    with (data_size flash cbfs_base x).
  rewrite (u32_small (data_size flash cbfs_base x - _)) by (unfold sizeof_cbfs_stage; lia).
  fold (stage_bytes x). pose proof (u32_range (stage_load (stage_header x))) as Hld. fold (load_address x) in Hld.
  destruct (load_and_decompress_spec (data_at x) (data_size flash cbfs_base x) sizeof_cbfs_stage (stage_bytes x)
    (load_address x) (stage_memlen (stage_header x)) (stage_compression (stage_header x)) out)
    as (Hlen & m1 & -> & Hm1 & Hm2); [done|unfold stage_bytes, sizeof_cbfs_stage; lia..|lia|done|done|].
  assert (Hl : 0 < Z.of_nat (length out)) by (destruct out; [done|simpl; lia]).
  destruct (Z.of_nat (length out) =? 0) eqn:E0; bool_to_prop; [lia|].
  unfold CbfsLoad.rom_base in Hend.
  eexists (memset m1 (u32 (load_address x + Z.of_nat (length out))) 0
    (u32 (stage_memlen (stage_header x) - Z.of_nat (length out)))), _.
  split; [reflexivity|]. split; [done|]. intros a Ha. rewrite (u32_small (load_address x + _)), u32_small by lia.
  rewrite memset_spec by lia.
  destruct (load_address x <=? a) eqn:E1; bool_to_prop; cbn [andb].
  2: { destruct (_ <=? a) eqn:E2; bool_to_prop; [lia|]. apply Hm2; lia. }
  destruct (a <? load_address x + stage_memlen (stage_header x)) eqn:E3; bool_to_prop.
  - destruct (load_address x + Z.of_nat (length out) <=? a) eqn:E2; bool_to_prop; cbn [andb].
    + rewrite (proj2 (Z.ltb_lt _ _)) by lia. rewrite nth_overflow by lia. done.
    + replace a with (load_address x + (a - load_address x)) at 1 by lia. apply Hm1. lia.
  - destruct (load_address x + Z.of_nat (length out) <=? a) eqn:E2; bool_to_prop; cbn [andb];
      [rewrite (proj2 (Z.ltb_ge _ _)) by lia|]; apply Hm2; lia.
Qed.

(** A stage that is stored plainly but does not fit, or packed in an unknown
    way. *)
Lemma stage_load_fails p x :
  win_ok boot_dev (data_at x) (data_size flash cbfs_base x) -> 0 < stage_bytes x ->
  prog_rdev p = win boot_dev (data_at x) (data_size flash cbfs_base x) ->
  stage_contents x = None ->
  stage_compression (stage_header x) <> CBFS_COMPRESS_LZ4 ->
  stage_compression (stage_header x) <> CBFS_COMPRESS_LZMA ->
  cbfs_prog_stage_load drv_readat ulz4fn ulzman s p = (-1, p, s).
Proof using Hrom Hbytes.
  intros Hw Hpos Hp Hc H4 Hz. pose proof Hw as (W1 & W2 & W3). cbn in W3. unfold stage_bytes, sizeof_cbfs_stage in Hpos.
  unfold cbfs_prog_stage_load. rewrite Hp.
  rewrite (win_read drv_readat s boot_dev flash) by (done || (unfold sizeof_cbfs_stage; lia)).
  destruct (0 + sizeof_cbfs_stage <=? data_size flash cbfs_base x) eqn:E; bool_to_prop;
    [|unfold sizeof_cbfs_stage in E; lia].
  change (u32 sizeof_cbfs_stage =? sizeof_cbfs_stage) with true. cbn [negb]. rewrite Z.add_0_r.
  fold (stage_header x).
  change (region_device_sz (win boot_dev (data_at x) (data_size flash cbfs_base x)))
    with (data_size flash cbfs_base x).
  rewrite (u32_small (data_size flash cbfs_base x - _)) by (unfold sizeof_cbfs_stage; lia).
  fold (stage_bytes x). unfold stage_contents, unpack in Hc. unfold cbfs_load_and_decompress.
  rewrite (proj2 (Z.eqb_neq _ _) H4), (proj2 (Z.eqb_neq _ _) Hz) in *. rewrite slice_length in Hc.
  rewrite Z2Nat.id in Hc by (unfold stage_bytes, sizeof_cbfs_stage; lia).
  destruct (_ =? CBFS_COMPRESS_NONE); [|done]. destruct (_ <? stage_bytes x); [done|congruence].
Qed.

(** Locating a file of the boot device: its window, or nothing. *)
Lemma boot_located xs fuel fh name ty :
  header_valid -> layout flash cbfs_base cbfs_size 0 xs -> Forall (fun c => c <> 0) name ->
  cbfs_size + 64 <= 64 * Z.of_nat fuel ->
  match List.find (fun x => bool_decide (string_at flash (cbfs_base + x + sizeof_cbfs_file) name)
                            && type_matches flash cbfs_base ty x) xs with
  | None => exists fh', cbfs_boot_locate drv_readat ROM stack_word stack_header fuel s fh name ty = Some (-1, fh', s)
  | Some x => win_ok boot_dev (data_at x) (data_size flash cbfs_base x) /\
      exists fh', cbfs_boot_locate drv_readat ROM stack_word stack_header fuel s fh name ty = Some (0, fh', s) /\
      data fh' = win boot_dev (data_at x) (data_size flash cbfs_base x) /\
      forall old, cbfs_file_data old fh' = win boot_dev (data_at x) (data_size flash cbfs_base x)
  end.
Proof using Hrom Hbytes.
  intros Hv Hl Hz Hf. pose proof (cbfs_place Hv) as Hw. pose proof Hw as (W1 & W2 & W3).
  pose proof (locate_loop_layout drv_readat s boot_dev flash cbfs_base cbfs_size Hw xs fuel fuel None fh name
    ty 0 Hz Hl eq_refl ltac:(lia) ltac:(by exists 0) ltac:(lia) ltac:(lia)) as H.
  rewrite (boot_locate fuel fh name ty Hv). unfold cbfs_locate.
  destruct (List.find _ xs) as [x|] eqn:Ef; [|done]. rewrite H. apply List.find_some in Ef as [Hin _].
  destruct (layout_entry drv_readat s boot_dev flash cbfs_base cbfs_size 0 xs x Hl ltac:(lia) Hin) as [Hx Hfit].
  destruct (entry_ok drv_readat s boot_dev flash cbfs_base cbfs_size Hw x Hx Hfit) as [_ Hwd].
  fold (data_at x) in Hwd. split; [done|]. eexists. split; [reflexivity|]. split; [done|]. intros old.
  unfold cbfs_file_data. cbn [data entry].
  change (region_device_sz _) with (data_size flash cbfs_base x). fold (data_at x).
  pose proof Hwd as (D1 & D2 & D3). cbn in D3.
  rewrite (win_chain drv_readat s boot_dev flash) by (done || lia).
  by rewrite Z.add_0_l, Z.leb_refl, Z.add_0_r.
Qed.

Lemma prog_located xs fuel fh p name :
  header_valid -> layout flash cbfs_base cbfs_size 0 xs -> Forall (fun c => c <> 0) name ->
  cbfs_size + 64 <= 64 * Z.of_nat fuel ->
  match List.find (fun x => bool_decide (string_at flash (cbfs_base + x + sizeof_cbfs_file) name)) xs with
  | None => prog_locate drv_readat ROM stack_word stack_header fuel s fh p name = Some (-1, p, s)
  | Some x => win_ok boot_dev (data_at x) (data_size flash cbfs_base x) /\
      prog_locate drv_readat ROM stack_word stack_header fuel s fh p name =
        Some (0, mk_prog (win boot_dev (data_at x) (data_size flash cbfs_base x)) (entry_point p) (entry_arg p), s)
  end.
Proof using Hrom Hbytes.
  intros Hv Hl Hz Hf. pose proof (boot_located xs fuel fh name None Hv Hl Hz Hf) as H. unfold prog_locate.
  rewrite (find_ext _ (fun x => bool_decide (string_at flash (cbfs_base + x + sizeof_cbfs_file) name)))
    in H by (intros x; cbn; apply andb_true_r).
  destruct (List.find _ xs) as [x|].
  - destruct H as (Hw & fh' & -> & _ & Hd). split; [done|]. change (negb (0 =? 0)) with false. cbv iota. by rewrite Hd.
  - by destruct H as (fh' & ->).
Qed.

(** C3.  Booting a stage from flash, end to end: the header the last word of the
    ROM points to, the file system it describes, the file, its stage header,
    unpacking.  [cbfs_boot_load_stage_by_name] returns the entry point of the
    first stage with the name, with its bytes at the load address, zeros after
    them up to the memory size and no other byte of memory changed.  Without such
    a file, or when the stage does not fit or is packed in an unknown way, it
    returns NULL and changes nothing. *)
Theorem cbfs_boot_load_stage_correct xs fuel fh p name :
  header_valid -> layout flash cbfs_base cbfs_size 0 xs -> Forall (fun c => c <> 0) name ->
  cbfs_size + 64 <= 64 * Z.of_nat fuel ->
  let load := cbfs_boot_load_stage_by_name drv_readat ROM ulz4fn ulzman stack_word stack_header fuel s fh p name in
  match List.find (fun x => bool_decide (string_at flash (cbfs_base + x + sizeof_cbfs_file) name)
                            && type_matches flash cbfs_base (Some CBFS_TYPE_STAGE) x) xs with
  | None => load = Some (None, s)
  | Some x =>
      0 < stage_bytes x -> load_address x + stage_memlen (stage_header x) <= rom_base ->
      match stage_contents x with
      | Some out => out <> [] ->
          exists m', load = Some (Some (u32 (stage_entry (stage_header x))), set_mem m' s) /\
            loaded (mem s) m' (load_address x) (stage_memlen (stage_header x)) out
      | None => stage_compression (stage_header x) <> CBFS_COMPRESS_LZ4 ->
          stage_compression (stage_header x) <> CBFS_COMPRESS_LZMA -> load = Some (None, s)
      end
  end.
Proof using Hrom Hbytes Hlz4 Hlzma.
  intros Hv Hl Hz Hf load. pose proof (boot_located xs fuel fh name (Some CBFS_TYPE_STAGE) Hv Hl Hz Hf) as H.
  subst load. unfold cbfs_boot_load_stage_by_name. destruct (List.find _ xs) as [x|]; [|by destruct H as (fh' & ->)].
  destruct H as (Hwd & fh' & -> & _ & Hd). change (negb (0 =? 0)) with false. cbn iota. intros Hpos Hend.
  set (p1 := mk_prog (cbfs_file_data _ _) _ _).
  assert (Hp : prog_rdev p1 = win boot_dev (data_at x) (data_size flash cbfs_base x)) by apply Hd.
  destruct (stage_contents x) as [out|] eqn:Ec.
  - intros Hout. destruct (stage_load_spec p1 x out Hwd Hpos Hend Hp Ec Hout) as (m' & p' & -> & He & Hm').
    change (negb (0 =? 0)) with false. cbn iota. exists m'. split; [by rewrite He|done].
  - intros H4 Hzm. rewrite (stage_load_fails p1 x Hwd Hpos Hp Ec H4 Hzm). done.
Qed.
End Boot.

(** ** A small ROM

    512 bytes: the header at its start, a file system from 64 on with the stage
    "r", packed by a decompressor that copies, and the pointer to the header. *)

Definition copy_decode (raw : list Z) (cap : Z) : option (list Z) :=
  if cap <? Z.of_nat (length raw) then None else Some raw.
Definition copy_fn (m : Z -> Z) (src n dst cap : Z) : Z * (Z -> Z) :=
  if cap <? n then (0, m) else (n, store m dst (load m src n)).

#[export] Instance copy_decompressor : Decompressor copy_fn copy_decode.
Proof.
  split.
  - unfold copy_decode. intros raw cap out H. destruct (_ <? _) eqn:E in H; bool_to_prop; [done|].
    injection H as <-. lia.
  - unfold copy_decode, copy_fn. intros m src n dst cap out Hs Hn Hsn Hd Hc H _.
    assert (Hl : length (load m src n) = Z.to_nat n) by (unfold load; by rewrite length_map, length_seq).
    rewrite Hl in H. destruct (cap <? _) eqn:E in H; bool_to_prop; [done|]. injection H as <-.
    destruct (cap <? n) eqn:E2; bool_to_prop; [lia|]. rewrite Hl. eexists.
    split; [by rewrite Z2Nat.id by lia|]. split.
    + intros i Hi. rewrite store_spec by lia. rewrite Hl.
      rewrite (proj2 (Z.leb_le _ _)), (proj2 (Z.ltb_lt _ _)) by lia. cbn [andb]. f_equal. lia.
    + intros a Ha Hout. rewrite store_spec by lia. rewrite Hl.
      destruct (dst <=? a) eqn:E1; bool_to_prop; [|done]. by rewrite (proj2 (Z.ltb_ge _ _)) by lia.
Qed.

Definition le_bytes (n : nat) (v : Z) : list Z :=
  map (fun i => u8 (Z.shiftr v (8 * Z.of_nat i))) (seq 0 n).
Definition sample_stage (compression memlen : Z) (body : list Z) : list Z :=
  le_bytes 4 compression ++ le_bytes 8 0x2004 ++ le_bytes 8 0x2000 ++ le_bytes 4 (Z.of_nat (length body))
  ++ le_bytes 4 memlen ++ body.
Definition sample_rom (compression memlen : Z) : list Z :=
  write_be32 CBFS_HEADER_MAGIC ++ write_be32 0x31313132 ++ write_be32 512 ++ write_be32 64 ++ write_be32 64
  ++ write_be32 64 ++ write_be32 1 ++ write_be32 0 ++ repeat 0xff 32
  ++ sample_file [114; 0; 0; 0] [] CBFS_TYPE_STAGE 0 28 (sample_stage compression memlen [1; 2; 3; 4]) 384
  ++ repeat 0xff 60 ++ le_bytes 4 0xfffffe00.

Definition rom_state (l : list Z) : rstate (D := unit) :=
  mk_rstate (fun x => nth (Z.to_nat (x - 0xfffffe00)) l 0) ∅ tt.

Lemma rom_layout c n : c = 1 \/ c = 7 -> n = 8 ->
  layout (flash (rom_state (sample_rom c n)) 512) 64 384 0 [0].
Proof.
  intros Hc ->. apply layout_file.
  - split; [lia|]. split; [by vm_compute|]. split; [by exists 0|]. split; [by destruct Hc as [-> | ->]; vm_compute|].
    apply (no_file_checked _ _ _ 6); [lia|lia|by destruct Hc as [-> | ->]; vm_compute].
  - unfold fits. destruct Hc as [-> | ->]; by vm_compute.
  - exists 25. split; [destruct Hc as [-> | ->]; by vm_compute|destruct Hc as [-> | ->]; by vm_compute].
  - apply layout_end. apply (no_file_checked _ _ _ 6); destruct Hc as [-> | ->]; by vm_compute.
Qed.

Definition probes : list Z := [0x1fff; 0x2000; 0x2001; 0x2002; 0x2003; 0x2004; 0x2007].
Lemma probe_range a : In a probes -> 0 <= a < 2 ^ 32.
Proof. unfold probes. simpl. lia. Qed.

Lemma cbfs_boot_load_stage_witness :
  exists m', cbfs_boot_load_stage_by_name no_driver 512 copy_fn copy_fn [] [] 8 (rom_state (sample_rom 1 8)) no_fh
      (mk_prog (rdev_of (image_root 0)) 0 0) [114] =
    Some (Some 0x2004, set_mem m' (rom_state (sample_rom 1 8))) /\
  map m' probes = [79; 1; 2; 3; 4; 0; 0].
Proof.
  assert (Hb : forall x, is_byte (mem (rom_state (sample_rom 1 8)) x)).
  { intros x. apply byte_at_byte. apply bytes_check. by vm_compute. }
  pose proof (cbfs_boot_load_stage_correct no_driver (rom_state (sample_rom 1 8)) 512 copy_fn copy_fn
    copy_decode copy_decode [] [] ltac:(lia) Hb [0] 8 no_fh (mk_prog (rdev_of (image_root 0)) 0 0) [114]) as H.
  change (cbfs_base _ _) with 64 in H. change (cbfs_size _ _) with 384 in H.
  cbv zeta in H. replace (List.find _ [0]) with (Some 0) in H by (by vm_compute).
  replace (stage_contents _ _ _ _ _) with (Some [1; 2; 3; 4]) in H by (by vm_compute).
  destruct H as (m' & E & Hm'); [by vm_compute|by apply rom_layout; [left|]|by repeat constructor|lia
    |by vm_compute|by vm_compute|done|].
  exists m'. split; [exact E|].
  replace (load_address _ _ 0) with 0x2000 in Hm' by (by vm_compute).
  replace (stage_memlen _) with 8 in Hm' by (by vm_compute).
  assert (Hp : forall a, In a probes -> m' a =
    if (0x2000 <=? a) && (a <? 0x2008) then nth (Z.to_nat (a - 0x2000)) [1; 2; 3; 4] 0
    else nth (Z.to_nat (a - 0xfffffe00)) (sample_rom 1 8) 0).
  { intros a Ha. exact (Hm' a (probe_range a Ha)). }
  rewrite (map_ext_in _ _ probes Hp). by vm_compute.
Defined.

(** A packed structure larger than the buffer for its plain form: the packed
    bytes are put at the end of the buffer and begin before it. *)
Definition struct_rom : list Z :=
  write_be32 CBFS_HEADER_MAGIC ++ write_be32 0x31313132 ++ write_be32 512 ++ write_be32 64 ++ write_be32 64
  ++ write_be32 64 ++ write_be32 1 ++ write_be32 0 ++ repeat 0xff 32
  ++ sample_file [114; 0; 0; 0]
       (write_be32 CBFS_FILE_ATTR_TAG_COMPRESSION ++ write_be32 16 ++ write_be32 2 ++ write_be32 2)
       CBFS_TYPE_STRUCT 28 44 (repeat 7 40) 384
  ++ repeat 0xff 60 ++ le_bytes 4 0xfffffe00.

Example load_struct_below_buffer :
  match cbfs_boot_load_struct no_driver 512 copy_fn copy_fn [] [] 8 (rom_state struct_rom) no_fh [114] 0x5000 2 with
  | Some (_, s) => mem s (0x5000 + 2 - 40) = 7 /\ mem (rom_state struct_rom) (0x5000 + 2 - 40) <> 7
  | None => False
  end.
Proof. by vm_compute. Qed.
