(* ===== verification/Memory.v ===== *)
(** * Copying in memory

    [memcpy] beside the [memset] of [CbfsLoad], and the areas they change. *)

From S2P Require Import Prelude Region CbfsLoad.

(** [memcpy] of areas that do not overlap. *)
Definition memcpy (m : Z -> Z) (dest src n : Z) : Z -> Z := store m dest (load m src n).

(** ** Memory areas *)

(** [b] exactly when [lo <= a < hi]. *)
Definition within (lo hi a : Z) : bool := (lo <=? a) && (a <? hi).

Lemma within_in lo hi a : lo <= a < hi -> within lo hi a = true.
Proof. intros. unfold within. rewrite (proj2 (Z.leb_le _ _)), (proj2 (Z.ltb_lt _ _)); lia. Qed.
Lemma within_out lo hi a : ~ (lo <= a < hi) -> within lo hi a = false.
Proof. intros. unfold within. apply andb_false_iff. rewrite Z.leb_gt, Z.ltb_ge. lia. Qed.

Ltac case_within :=
  match goal with
  | |- context [within ?l ?h ?a] =>
      let E := fresh "E" in
      destruct (Z.le_gt_cases l a); [destruct (Z.lt_ge_cases a h)|];
      [rewrite (within_in l h a) by lia|rewrite (within_out l h a) by lia|rewrite (within_out l h a) by lia]
  end.

Lemma load_length m a n : length (load m a n) = Z.to_nat n.
Proof. unfold load. by rewrite length_map, length_seq. Qed.

Lemma load_nth m a n i : 0 <= i -> 0 <= a -> a + n <= 2 ^ 32 ->
  nth (Z.to_nat i) (load m a n) 0 = if i <? n then m (a + i) else 0.
Proof.
  intros Hi Ha Hn. destruct (i <? n) eqn:E; bool_to_prop.
  - unfold load. rewrite (nth_indep _ 0 (m (u32 (a + Z.of_nat 0)))) by (rewrite length_map, length_seq; lia).
    rewrite (map_nth (fun k => m (u32 (a + Z.of_nat k)))), seq_nth by lia. f_equal. rewrite u32_small; lia.
  - apply nth_overflow. rewrite load_length. lia.
Qed.

Lemma load_ext m m' a n : 0 <= a -> a + n <= 2 ^ 32 -> (forall x, a <= x < a + n -> m x = m' x) ->
  load m a n = load m' a n.
Proof. intros Ha Hn H. unfold load. apply map_ext_in. intros i Hi%in_seq. rewrite u32_small by lia. apply H. lia. Qed.

Lemma memcpy_spec m d s n x : 0 <= d -> d + n <= 2 ^ 32 -> 0 <= s -> s + n <= 2 ^ 32 -> 0 <= n -> 0 <= x < 2 ^ 32 ->
  memcpy m d s n x = if within d (d + n) x then m (s + (x - d)) else m x.
Proof.
  intros. unfold memcpy. rewrite store_spec, load_length, Z2Nat.id by (rewrite ?load_length; lia).
  unfold within. destruct (_ && _) eqn:E; bool_to_prop; [|done].
  rewrite load_nth by lia. by rewrite (proj2 (Z.ltb_lt _ _)) by lia.
Qed.

Lemma memset_within m a v n x : 0 <= a -> 0 <= n -> a + n <= 2 ^ 32 -> 0 <= x < 2 ^ 32 ->
  memset m a v n x = if within a (a + n) x then v else m x.
Proof. apply memset_spec. Qed.

(** [out] at [dst], zeros after it up to [n] bytes. *)
Definition place (dst n : Z) (out : list Z) (m : Z -> Z) (a : Z) : Z :=
  if within dst (dst + n) a then nth (Z.to_nat (a - dst)) out 0 else m a.
