(* ===== verification/Lz4.v ===== *)
(** * LZ4 decompression

    [src/commonlib/lz4_wrapper.c] and [src/commonlib/lz4.c.inc].  Memory is a function
    from 32-bit addresses to bytes, pointers are 32-bit addresses.  [LZ4_decompress_generic]
    is a template that [ulz4fn] instantiates once, with the directives [endOnInputSize],
    [full] and [noDict]: the branches of the other directives are folded away by the
    compiler and left out here.  [memcpy] copies as if through a buffer: so does [memmove],
    and so does the ascending copy of [arch/x86/memcpy.c] when the destination is below the
    source, as it is for a plain block decoded in place.  Fuel that runs out is [None]; [Lz4Safe] shows that the
    number of input bytes is always enough. *)

From S2P Require Import Prelude Region Bytes CbfsLoad Memory.

Notation memory := (Z -> Z).

Definition MINMATCH : Z := 4.
Definition WILDCOPYLENGTH : Z := 8.
Definition LASTLITERALS : Z := 5.
Definition MFLIMIT : Z := WILDCOPYLENGTH + MINMATCH.
Definition ML_BITS : Z := 4.
Definition ML_MASK : Z := Z.shiftl 1 ML_BITS - 1.
Definition RUN_BITS : Z := 8 - ML_BITS.
Definition RUN_MASK : Z := Z.shiftl 1 RUN_BITS - 1.
Definition dec32table : list Z := [4; 1; 2; 1; 4; 4; 4; 4].
Definition dec64table : list Z := [0; 0; 0; -1; 0; 1; 2; 3].

(** ** Access to memory *)

Definition LZ4_readLE16 (m : memory) (src : Z) : Z := le16 (load m src 2) 0.
Definition read_le32 (m : memory) (src : Z) : Z := le32 (load m src 4) 0.
Definition put (m : memory) (a v : Z) : memory := fun x => if x =? a then v else m x.
Definition LZ4_copy8 (m : memory) (dst src : Z) : memory := memcpy m dst src 8.

(** The body runs at least once and writes up to 7 bytes behind the end [e], more where
    [e] is not above the first 8. *)
Fixpoint wild_loop (fuel : nat) (m : memory) (d s e : Z) : memory :=
  let m := LZ4_copy8 m d s in
  let d := u32 (d + 8) in
  let s := u32 (s + 8) in
  match fuel with
  | O => m
  | S n => if d <? e then wild_loop n m d s e else m
  end.
Definition LZ4_wildCopy (m : memory) (dstPtr srcPtr dstEnd : Z) : memory :=
  wild_loop (Z.to_nat ((dstEnd - dstPtr) / 8)) m dstPtr srcPtr dstEnd.

(** [while (op < cpy) *op++ = *match++], for [n] bytes. *)
Fixpoint copy_bytes (n : nat) (m : memory) (op mtch : Z) : memory :=
  match n with
  | O => m
  | S n => copy_bytes n (put m op (m mtch)) (u32 (op + 1)) (u32 (mtch + 1))
  end.

(** ** One sequence *)

(** The bytes after a full literal length: the new [ip] and the length. *)
Fixpoint literal_length (fuel : nat) (m : memory) (ip length iend : Z) : option (Z * Z) :=
  match fuel with
  | O => None
  | S n =>
      let s := m ip in
      let ip := u32 (ip + 1) in
      let length := u32 (length + s) in
      if (ip <? u32 (iend - RUN_MASK)) && (s =? 255) then literal_length n m ip length iend else Some (ip, length)
  end.

(** The same for a match; no length where the input ends too early. *)
Fixpoint match_length (fuel : nat) (m : memory) (ip length iend : Z) : option (Z * option Z) :=
  match fuel with
  | O => None
  | S n =>
      if u32 (iend - LASTLITERALS) <? ip then Some (ip, None)
      else
        let s := m ip in
        let ip := u32 (ip + 1) in
        let length := u32 (length + s) in
        if s =? 255 then match_length n m ip length iend else Some (ip, Some length)
  end.

(** The first eight bytes of a match; from there on source and destination are at least
    eight bytes apart. *)
Definition copy_start (m : memory) (op mtch offset : Z) : memory * Z :=
  if offset <? 8 then
    let dec64 := nth (Z.to_nat offset) dec64table 0 in
    let m := put m op (m mtch) in
    let m := put m (u32 (op + 1)) (m (u32 (mtch + 1))) in
    let m := put m (u32 (op + 2)) (m (u32 (mtch + 2))) in
    let m := put m (u32 (op + 3)) (m (u32 (mtch + 3))) in
    let mtch := u32 (mtch + nth (Z.to_nat offset) dec32table 0) in
    let m := memcpy m (u32 (op + 4)) mtch 4 in
    (m, u32 (mtch - dec64))
  else (LZ4_copy8 m op mtch, u32 (mtch + 8)).

(** The rest of it; [false] for an error. *)
Definition copy_rest (m : memory) (op mtch cpy oend : Z) : bool * memory :=
  if u32 (oend - 12) <? cpy then
    let oCopyLimit := u32 (oend - (WILDCOPYLENGTH - 1)) in
    if u32 (oend - LASTLITERALS) <? cpy then (false, m)
    else
      let '(m, mtch, op) :=
        if op <? oCopyLimit then (LZ4_wildCopy m op mtch oCopyLimit, u32 (mtch + u32 (oCopyLimit - op)), oCopyLimit)
        else (m, mtch, op) in
      (true, copy_bytes (Z.to_nat (cpy - op)) m op mtch)
  else (true, LZ4_wildCopy m op mtch cpy).

Inductive progress := More (m : memory) (ip op : Z) | Finished (m : memory) (ip op : Z) | Failed (m : memory) (ip : Z).

Section Block.
Variables (iend dest oend : Z) (inPlaceDecode : bool).

(** The offset and the match behind the literals. *)
Definition match_step (fuel : nat) (m : memory) (token ip op : Z) : option progress :=
  let offset := LZ4_readLE16 m ip in
  let ip := u32 (ip + 2) in
  let mtch := u32 (op - offset) in
  if mtch <? dest then Some (Failed m ip)
  else
    let copy ip length :=
      let length := u32 (length + MINMATCH) in
      let cpy := u32 (op + length) in
      let '(m, mtch) := copy_start m op mtch offset in
      let '(ok, m) := copy_rest m (u32 (op + 8)) mtch cpy oend in
      if ok then More m ip cpy else Failed m ip in
    let length := Z.land token ML_MASK in
    if length =? ML_MASK then
      match match_length fuel m ip length iend with
      | None => None
      | Some (ip, None) => Some (Failed m ip)
      | Some (ip, Some length) => if u32 (op + length) <? op then Some (Failed m ip) else Some (copy ip length)
      end
    else Some (copy ip length).

(** The literals, then the end of the block or the match. *)
Definition literal_step (fuel : nat) (m : memory) (token ip op length : Z) : option progress :=
  let cpy := u32 (op + length) in
  if (u32 (oend - MFLIMIT) <? cpy) || (u32 (iend - (2 + 1 + LASTLITERALS)) <? u32 (ip + length)) then
    if negb (u32 (ip + length) =? iend) || (oend <? cpy) then Some (Failed m ip)
    else Some (Finished (memcpy m op ip length) (u32 (ip + length)) cpy)
  else match_step fuel (LZ4_wildCopy m op ip cpy) token (u32 (ip + length)) cpy.

Definition sequence_step (fuel : nat) (m : memory) (ip op : Z) : option progress :=
  if inPlaceDecode && (ip <? u32 (op + WILDCOPYLENGTH)) then Some (Failed m ip)
  else
    let token := m ip in
    let ip := u32 (ip + 1) in
    let length := Z.shiftr token ML_BITS in
    if length =? RUN_MASK then
      match literal_length fuel m ip length iend with
      | None => None
      | Some (ip, length) =>
          if u32 (op + length) <? op then Some (Failed m ip)
          else if u32 (ip + length) <? ip then Some (Failed m ip)
          else literal_step fuel m token ip op length
      end
    else literal_step fuel m token ip op length.

Fixpoint sequences (fuel : nat) (m : memory) (ip op : Z) : option progress :=
  match fuel with
  | O => None
  | S n =>
      match sequence_step fuel m ip op with
      | Some (More m ip op) => sequences n m ip op
      | r => r
      end
  end.
End Block.

(** What it returns, and memory. *)
Definition LZ4_decompress_generic (fuel : nat) (m : memory) (source dest inputSize outputSize : Z) : option (Z * memory) :=
  let iend := u32 (source + inputSize) in
  let oend := u32 (dest + outputSize) in
  let inPlaceDecode := (dest <=? source) && (source <? oend) in
  if outputSize =? 0 then Some (if (inputSize =? 1) && (m source =? 0) then 0 else -1, m)
  else
    match sequences iend dest oend inPlaceDecode fuel m source dest with
    | None => None
    | Some (Finished m _ op) => Some (s32 (op - dest), m)
    | Some (Failed m ip) | Some (More m ip _) => Some (s32 (- s32 (ip - source) - 1), m)
    end.

(** ** Frames *)

Definition LZ4F_MAGICNUMBER : Z := 0x184D2204.
Definition sizeof_lz4_frame_header : Z := 6.
Definition sizeof_lz4_block_header : Z := 4.

(** The bit fields of the first header byte, from bit 0 on, and of the second. *)
Definition reserved0 (flags : Z) : Z := Z.land flags 3.
Definition has_content_size (flags : Z) : bool := Z.testbit flags 3.
Definition has_block_checksum (flags : Z) : bool := Z.testbit flags 4.
Definition independent_blocks (flags : Z) : bool := Z.testbit flags 5.
Definition version (flags : Z) : Z := Z.land (Z.shiftr flags 6) 3.
Definition reserved1 (descriptor : Z) : Z := Z.land descriptor 15.
Definition reserved2 (descriptor : Z) : bool := Z.testbit descriptor 7.

(** [raw] of a block header. *)
Definition block_size (raw : Z) : Z := Z.land raw (2 ^ 31 - 1).
Definition not_compressed (raw : Z) : bool := Z.testbit raw 31.

Section Frame.
Variables (src srcn dst dstn : Z) (checksums : bool).

Fixpoint block_loop (fuel : nat) (m : memory) (inp out : Z) : option (Z * memory) :=
  match fuel with
  | O => None
  | S n =>
      let raw := read_le32 m inp in
      let size := block_size raw in
      let inp := u32 (inp + sizeof_lz4_block_header) in
      if srcn <? u32 (u32 (inp - src) + size) then Some (0, m)
      else if size =? 0 then Some (u32 (out - dst), m)
      else
        let next m out :=
          let inp := u32 (inp + size) in
          block_loop n m (if checksums then u32 (inp + 4) else inp) out in
        if not_compressed raw then
          let copied := Z.min size (u32 (u32 (dst + dstn) - out)) in
          let m := memcpy m out inp copied in
          if copied <? size then Some (0, m) else next m (u32 (out + copied))
        else
          match LZ4_decompress_generic fuel m inp out (s32 size) (s32 (u32 (dst + dstn) - out)) with
          | None => None
          | Some (ret, m) => if ret <? 0 then Some (0, m) else next m (u32 (out + ret))
          end
  end.
End Frame.

Definition ulz4fn_run (fuel : nat) (m : memory) (src srcn dst dstn : Z) : option (Z * memory) :=
  let flags := m (u32 (src + 4)) in
  let descriptor := m (u32 (src + 5)) in
  if srcn <? sizeof_lz4_frame_header + 8 + 1 then Some (0, m)
  else if negb (read_le32 m src =? LZ4F_MAGICNUMBER) || negb (version flags =? 1) then Some (0, m)
  else if negb (reserved0 flags =? 0) || negb (reserved1 descriptor =? 0) || reserved2 descriptor then Some (0, m)
  else if negb (independent_blocks flags) then Some (0, m)
  else
    let inp := u32 (src + sizeof_lz4_frame_header) in
    let inp := if has_content_size flags then u32 (inp + 8) else inp in
    block_loop src srcn dst dstn (has_block_checksum flags) fuel m (u32 (inp + 1)) dst.

Definition ulz4fn (m : memory) (src srcn dst dstn : Z) : Z * memory :=
  default (0, m) (ulz4fn_run (S (Z.to_nat srcn)) m src srcn dst dstn).

Definition ulz4f (m : memory) (src dst : Z) : Z * memory := ulz4fn m src (2 ^ 30) dst (2 ^ 30).
