(* ===== verification/Lz4Format.v ===== *)
(** * The LZ4 frame format

    The reference for [Lz4]: what a block of sequences stands for, how it is written, and
    a decoder on byte lists that follows the format and knows nothing of memory, of copies
    in steps of eight bytes or of pointers.  Decoding in place adds one condition: before
    each sequence the room left is by twelve larger than the input left. *)

From S2P Require Import Prelude Bytes Lz4.

Notation len l := (Z.of_nat (length l)).

(** ** Sequences *)

Record sequence := mk_sequence { seq_literals : list Z; seq_offset : Z; seq_match : Z }.

(** [n] bytes repeated from [off] back. *)
Fixpoint copy_back (n : nat) (off : Z) (out : list Z) : list Z :=
  match n with
  | O => out
  | S n => copy_back n off (out ++ [nth (length out - Z.to_nat off) out 0])
  end.

Definition expand_one (out : list Z) (q : sequence) : list Z :=
  copy_back (Z.to_nat (seq_match q)) (seq_offset q) (out ++ seq_literals q).
Definition expand (qs : list sequence) (last : list Z) : list Z := fold_left expand_one qs [] ++ last.

(** Lengths from 15 on go on in bytes, as long as these are 255. *)
Definition nibble (n : Z) : Z := Z.min n 15.
Definition more_bytes (n : Z) : list Z :=
  if n <? 15 then [] else repeat 255 (Z.to_nat ((n - 15) / 255)) ++ [(n - 15) mod 255].

Definition encode_one (q : sequence) : list Z :=
  let n := len (seq_literals q) in
  let k := seq_match q - 4 in
  [16 * nibble n + nibble k] ++ more_bytes n ++ seq_literals q
  ++ [seq_offset q mod 256; seq_offset q / 256] ++ more_bytes k.
Definition encode_block (qs : list sequence) (last : list Z) : list Z :=
  flat_map encode_one qs ++ [16 * nibble (len last)] ++ more_bytes (len last) ++ last.

(** What the format asks of a block that ends with the literals [last]: offsets lie in the
    output, a match has four bytes or more, the last five bytes are literals and the last
    match begins twelve bytes before the end. *)
Fixpoint sequences_ok (last out : list Z) (qs : list sequence) : Prop :=
  match qs with
  | [] => True
  | q :: qs =>
      Forall is_byte (seq_literals q) /\ 4 <= seq_match q /\
      1 <= seq_offset q <= Z.min 65535 (len out + len (seq_literals q)) /\
      match qs with [] => 5 <= len last /\ 12 <= seq_match q + len last | _ => True end /\
      sequences_ok last (expand_one out q) qs
  end.
Definition block_ok (qs : list sequence) (last : list Z) : Prop := Forall is_byte last /\ sequences_ok last [] qs.

(** ** Decoding a block *)

Fixpoint ext_len (acc : Z) (l : list Z) : option (Z * list Z) :=
  match l with
  | [] => None
  | b :: l => if b =? 255 then ext_len (acc + b) l else Some (acc + b, l)
  end.
Definition decode_len (n : Z) (l : list Z) : option (Z * list Z) :=
  if n =? 15 then ext_len n l else Some (n, l).

Section Decode.
(** Decoding in place; the bytes of the frame behind the block; the room for the block. *)
Variables (inplace : bool) (tail room : Z).

(** Output and input after the match of a sequence. *)
Definition decode_match (token : Z) (out l : list Z) : option (list Z * list Z) :=
  match l with
  | lo :: hi :: l =>
      let off := lo + 256 * hi in
      match decode_len (token mod 16) l with
      | None => None
      | Some (k, l) =>
          if (off =? 0) || (len out <? off) || (room - 5 <? len out + k + 4) || (len l <? 6) then None
          else Some (copy_back (Z.to_nat (k + 4)) off out, l)
      end
  | _ => None
  end.

(** Output after one sequence, and the input left unless it was the last. *)
Definition decode_one (out l : list Z) : option (list Z * option (list Z)) :=
  match l with
  | [] => None
  | token :: l =>
      if inplace && (room - len out <? len l + 1 + tail + 12) then None
      else
        match decode_len (token / 16) l with
        | None => None
        | Some (n, l) =>
            if (len l <? n) || (room <? len out + n) then None
            else if len l =? n then if token mod 16 =? 0 then Some (out ++ l, None) else None
            else if (len l <? n + 8) || (room - 12 <? len out + n) then None
            else
              match decode_match token (out ++ take (Z.to_nat n) l) (drop (Z.to_nat n) l) with
              | None => None
              | Some (out, l) => Some (out, Some l)
              end
        end
  end.

Fixpoint decode_sequences (fuel : nat) (out l : list Z) : option (list Z) :=
  match fuel with
  | O => None
  | S n =>
      match decode_one out l with
      | Some (out, Some l) => decode_sequences n out l
      | Some (out, None) => Some out
      | None => None
      end
  end.
Definition decode_block (l : list Z) : option (list Z) := decode_sequences (length l) [] l.
End Decode.

(** ** Decoding a frame *)

Definition header_ok (raw : list Z) : bool :=
  let flags := nth 4 raw 0 in
  let descriptor := nth 5 raw 0 in
  (15 <=? len raw) && (le32 raw 0 =? LZ4F_MAGICNUMBER) && (version flags =? 1) && (reserved0 flags =? 0)
  && (reserved1 descriptor =? 0) && negb (reserved2 descriptor) && independent_blocks flags.
Definition header_size (raw : list Z) : Z := if has_content_size (nth 4 raw 0) then 15 else 7.

(** How frames are written: no checksums, no content size; blocks packed or plain. *)
Inductive frame_block := Packed (qs : list sequence) (last : list Z) | Plain (data : list Z).
Definition contents (b : frame_block) : list Z := match b with Packed qs last => expand qs last | Plain data => data end.
Definition le4 (v : Z) : list Z := map (fun i => u8 (Z.shiftr v (8 * Z.of_nat i))) (seq 0 4).
Definition write_block (b : frame_block) : list Z :=
  match b with
  | Packed qs last => le4 (len (encode_block qs last)) ++ encode_block qs last
  | Plain data => le4 (2 ^ 31 + len data) ++ data
  end.
Definition write_frame (bs : list frame_block) : list Z :=
  le4 LZ4F_MAGICNUMBER ++ [0x60; 0x40; 0] ++ flat_map write_block bs ++ le4 0.
Definition frame_block_ok (b : frame_block) : Prop :=
  match b with
  | Packed qs last => block_ok qs last /\ len (encode_block qs last) < 2 ^ 31
  | Plain data => Forall is_byte data /\ 0 < len data < 2 ^ 31
  end.

Section Blocks.
Variables (inplace checksums : bool) (cap : Z).

Fixpoint decode_blocks (fuel : nat) (out l : list Z) : option (list Z) :=
  match fuel with
  | O => None
  | S n =>
      let raw := le32 l 0 in
      let size := block_size raw in
      let body := drop 4 l in
      let data := take (Z.to_nat size) body in
      let rest := drop (Z.to_nat size) body in
      let next out := decode_blocks n out (if checksums then drop 4 rest else rest) in
      if (len l <? 4) || (len body <? size) then None
      else if size =? 0 then Some out
      else if not_compressed raw then
        if (cap <? len out + size) || (inplace && (cap - len out <? len body)) then None else next (out ++ data)
      else
        match decode_block inplace (len rest) (cap - len out) data with
        | None => None
        | Some b => next (out ++ b)
        end
  end.
End Blocks.

Definition decode_frame (inplace : bool) (raw : list Z) (cap : Z) : option (list Z) :=
  let checksums := has_block_checksum (nth 4 raw 0) in
  if (cap <? 0) || (2 ^ 31 <=? cap) || (2 ^ 31 <=? len raw) || negb (forallb (fun b => (0 <=? b) && (b <? 256)) raw)
     || negb (header_ok raw)
  then None
  else decode_blocks inplace checksums cap (length raw) [] (drop (Z.to_nat (header_size raw)) raw).
