(* ===== verification/Lz4Copy.v ===== *)
(** * The copies of the LZ4 decoder

    What [LZ4_wildCopy] and the copy of a match in [Lz4] do to memory: bytes are written
    eight at a time, beyond the end and from a source that overlaps the destination, and
    still every byte of a match is the byte [offset] before it. *)

From S2P Require Import Prelude Region Bytes CbfsLoad Memory Lz4.

Set Default Proof Using "Type".

(** ** Writes *)

Lemma put_spec m a v x : put m a v x = if x =? a then v else m x.
Proof. done. Qed.

Lemma copy8_spec m d s x : 0 <= d -> d + 8 <= 2 ^ 32 -> 0 <= s -> s + 8 <= 2 ^ 32 -> 0 <= x < 2 ^ 32 ->
  LZ4_copy8 m d s x = if within d (d + 8) x then m (s + (x - d)) else m x.
Proof. intros. unfold LZ4_copy8. apply memcpy_spec; lia. Qed.

(** [m'] is [m] outside of [lo, hi). *)
Definition kept_outside (lo hi : Z) (m m' : memory) : Prop :=
  forall x, 0 <= x < 2 ^ 32 -> ~ (lo <= x < hi) -> m' x = m x.

Lemma kept_outside_trans lo hi m1 m2 m3 : kept_outside lo hi m1 m2 -> kept_outside lo hi m2 m3 -> kept_outside lo hi m1 m3.
Proof. intros H1 H2 x Hx Hn. by rewrite H2, H1. Qed.

Lemma kept_outside_weaken lo hi lo' hi' m m' : kept_outside lo hi m m' -> lo' <= lo -> hi <= hi' -> kept_outside lo' hi' m m'.
Proof. intros H ? ? x Hx Hn. apply H; [done|lia]. Qed.

Lemma kept_outside_refl lo hi m : kept_outside lo hi m m.
Proof. done. Qed.

(** ** Memory that repeats with a period *)

Definition per (m : memory) (lo hi o : Z) : Prop := forall x, lo <= x < hi -> m x = m (x - o).

Lemma per_back m lo hi o (j : nat) : per m lo hi o -> 0 < o -> forall x, x < hi -> (j = O \/ lo <= x - (Z.of_nat j - 1) * o) ->
  m x = m (x - Z.of_nat j * o).
Proof.
  intros Hp Ho. induction j as [|j IH]; intros x Hx Hlo; [f_equal; lia|].
  rewrite (IH x Hx) by nia. rewrite Hp by nia. f_equal. lia.
Qed.

(** Bytes copied from a multiple of the period back go on with it. *)
Lemma per_extend m lo mid hi o (j : nat) : per m lo mid o -> 0 < o -> (0 < j)%nat -> lo - o <= mid - Z.of_nat j * o ->
  (forall x, mid <= x < hi -> m x = m (x - Z.of_nat j * o)) -> per m lo hi o.
Proof.
  intros Hp Ho Hj Hlo Hd. assert (H : forall n : nat, per m lo (Z.min hi (mid + Z.of_nat n)) o).
  { induction n as [|n IH]; [intros x Hx; apply Hp; lia|]. intros x Hx.
    destruct (Z.lt_ge_cases x (Z.min hi (mid + Z.of_nat n))) as [Hl|Hl]; [apply IH; lia|].
    rewrite Hd by lia. destruct j as [|j]; [lia|].
    rewrite (per_back m lo _ o j IH Ho (x - o)) by (destruct j; [lia|nia] || nia). f_equal. lia. }
  intros x Hx. apply (H (Z.to_nat (hi - mid))). lia.
Qed.

(** ** Byte by byte *)

Lemma copy_bytes_spec n : forall m d s, 0 <= s < d -> d + Z.of_nat n < 2 ^ 32 ->
  let m' := copy_bytes n m d s in
  per m' d (d + Z.of_nat n) (d - s) /\ kept_outside d (d + Z.of_nat n) m m'.
Proof.
  induction n as [|n IH]; intros m d s Hs Hd; [split; [intros x Hx; lia|done]|].
  cbn [copy_bytes]. rewrite !u32_small by lia. cbv zeta.
  destruct (IH (put m d (m s)) (d + 1) (s + 1)) as [Hp Ho]; [lia|lia|].
  set (m' := copy_bytes n _ _ _) in *. split.
  - intros x Hx. destruct (Z.eq_dec x d) as [-> |Hne].
    + rewrite !Ho by lia. rewrite !put_spec, Z.eqb_refl, (proj2 (Z.eqb_neq _ _)) by lia. f_equal. lia.
    + rewrite Hp by lia. f_equal. lia.
  - intros x Hx Hn. rewrite Ho by lia. by rewrite put_spec, (proj2 (Z.eqb_neq _ _)) by lia.
Qed.

(** ** Eight bytes at a time *)

(** Up to here it may write. *)
Definition wild_end (d e : Z) : Z := Z.max (d + 8) (e + 7).

Lemma wild_back fuel : forall m d s e, 0 <= s -> s + 8 <= d -> e - d <= 8 * (Z.of_nat fuel + 1) ->
  wild_end d e <= 2 ^ 32 - 1 ->
  let m' := wild_loop fuel m d s e in
  per m' d e (d - s) /\ kept_outside d (wild_end d e) m m'.
Proof.
  unfold wild_end. induction fuel as [|fuel IH]; intros m d s e Hs Hd Hf He; cbn [wild_loop].
  - split; [|intros x Hx Hn; rewrite copy8_spec, within_out by lia; done].
    intros x Hx. rewrite !copy8_spec, within_in, within_out by lia. f_equal. lia.
  - rewrite !u32_small by lia.
    assert (H8 : forall x, 0 <= x < 2 ^ 32 -> LZ4_copy8 m d s x = if within d (d + 8) x then m (s + (x - d)) else m x)
      by (intros x Hx; apply copy8_spec; lia).
    set (m1 := LZ4_copy8 m d s) in *. cbv zeta. destruct (Z.ltb_spec (d + 8) e) as [Hlt|Hge].
    + destruct (IH m1 (d + 8) (s + 8) e) as [Hp Ho]; [lia..|]. set (m' := wild_loop fuel m1 (d + 8) (s + 8) e) in *. split.
      * intros x Hx. destruct (Z.lt_ge_cases x (d + 8)).
        -- rewrite !Ho, !H8, within_in, within_out by lia. f_equal. lia.
        -- rewrite Hp by lia. f_equal. lia.
      * intros x Hx Hn. by rewrite Ho, H8, within_out by lia.
    + split; [|intros x Hx Hn; by rewrite H8, within_out by lia].
      intros x Hx. rewrite !H8, within_in, within_out by lia. f_equal. lia.
Qed.

Lemma wild_ahead fuel : forall m d s e, 0 <= d -> d + 8 <= s -> e - d <= 8 * (Z.of_nat fuel + 1) ->
  wild_end d e + (s - d) <= 2 ^ 32 - 1 ->
  let m' := wild_loop fuel m d s e in
  (forall x, d <= x < e -> m' x = m (s + (x - d))) /\ kept_outside d (wild_end d e) m m'.
Proof.
  unfold wild_end. induction fuel as [|fuel IH]; intros m d s e Hs Hd Hf He; cbn [wild_loop].
  - split; [|intros x Hx Hn; rewrite copy8_spec, within_out by lia; done].
    intros x Hx. by rewrite copy8_spec, within_in by lia.
  - rewrite !u32_small by lia.
    assert (H8 : forall x, 0 <= x < 2 ^ 32 -> LZ4_copy8 m d s x = if within d (d + 8) x then m (s + (x - d)) else m x)
      by (intros x Hx; apply copy8_spec; lia).
    set (m1 := LZ4_copy8 m d s) in *. cbv zeta. destruct (Z.ltb_spec (d + 8) e) as [Hlt|Hge].
    + destruct (IH m1 (d + 8) (s + 8) e) as [Hp Ho]; [lia..|]. set (m' := wild_loop fuel m1 (d + 8) (s + 8) e) in *. split.
      * intros x Hx. destruct (Z.lt_ge_cases x (d + 8)).
        -- by rewrite Ho, H8, within_in by lia.
        -- rewrite Hp, H8, within_out by lia. f_equal. lia.
      * intros x Hx Hn. by rewrite Ho, H8, within_out by lia.
    + split; [|intros x Hx Hn; by rewrite H8, within_out by lia].
      intros x Hx. by rewrite H8, within_in by lia.
Qed.

Lemma wild_fuel d e : e - d <= 8 * (Z.of_nat (Z.to_nat ((e - d) / 8)) + 1).
Proof. pose proof (Z.div_mod (e - d) 8 ltac:(lia)). pose proof (Z.mod_pos_bound (e - d) 8 ltac:(lia)). lia. Qed.

(** A source apart from what is written, on either side. *)
Lemma wildCopy_apart m d s e : 0 <= d -> 0 <= s -> d + 8 <= s \/ s + 8 <= d /\ s + (e - d) <= d ->
  wild_end d e + Z.max 0 (s - d) <= 2 ^ 32 - 1 ->
  let m' := LZ4_wildCopy m d s e in
  (forall x, d <= x < e -> m' x = m (s + (x - d))) /\ kept_outside d (wild_end d e) m m'.
Proof.
  intros Hd Hs Hap He. pose proof (wild_fuel d e). unfold LZ4_wildCopy. destruct Hap as [Hap|[Hap Hap']].
  - apply wild_ahead; lia.
  - destruct (wild_back (Z.to_nat ((e - d) / 8)) m d s e) as [Hp Ho]; [lia..|]. split; [|done].
    intros x Hx. rewrite Hp by done. unfold wild_end in *. rewrite Ho by lia. f_equal. lia.
Qed.

(** ** A match *)

(** The distance after the first eight bytes, in periods. *)
Definition periods (o : Z) : nat :=
  nth (Z.to_nat o) [0; 8; 4; 3; 2; 2; 2; 2]%nat 1%nat.

Lemma small_offset o : 1 <= o < 8 -> o = 1 \/ o = 2 \/ o = 3 \/ o = 4 \/ o = 5 \/ o = 6 \/ o = 7.
Proof. lia. Qed.
Ltac each_offset := match goal with H : 1 <= ?o < 8 |- _ =>
  destruct (small_offset o H) as [-> |[-> |[-> |[-> |[-> |[-> | ->]]]]]] end.

Lemma periods_bounds o : 1 <= o -> (0 < periods o)%nat /\ 8 <= Z.of_nat (periods o) * o /\ Z.of_nat (periods o) * o <= o + 8.
Proof.
  intros Ho. destruct (Z.lt_ge_cases o 8) as [Hs|Hl].
  - assert (H : 1 <= o < 8) by lia. each_offset; repeat split; vm_compute; (done || lia).
  - unfold periods. rewrite nth_overflow by (cbn; lia). lia.
Qed.

(** How far the second four bytes are copied, for a short offset. *)
Definition half_periods (o : Z) : nat := nth (Z.to_nat o) [0; 4; 2; 2; 1; 1; 1; 1]%nat 1%nat.

Lemma dec_tables o : 1 <= o < 8 ->
  let d32 := nth (Z.to_nat o) dec32table 0 in
  let d64 := nth (Z.to_nat o) dec64table 0 in
  4 + o - d32 = Z.of_nat (half_periods o) * o /\ 4 <= Z.of_nat (half_periods o) * o <= o + 4 /\ (0 < half_periods o)%nat /\
  8 + o - d32 + d64 = Z.of_nat (periods o) * o.
Proof. intros H. each_offset; repeat split; vm_compute; (done || lia). Qed.

Lemma four_puts m op s : 0 <= op -> op + 4 <= 2 ^ 32 -> 0 <= s -> s + 4 <= 2 ^ 32 ->
  (let m1 := put m op (m s) in
   let m2 := put m1 (u32 (op + 1)) (m1 (u32 (s + 1))) in
   let m3 := put m2 (u32 (op + 2)) (m2 (u32 (s + 2))) in
   put m3 (u32 (op + 3)) (m3 (u32 (s + 3)))) = copy_bytes 4 m op s.
Proof.
  intros. cbn [copy_bytes]. rewrite (u32_small (op + 1)), (u32_small (s + 1)) by lia.
  rewrite (u32_small (op + 1 + 1)), (u32_small (s + 1 + 1)) by lia.
  rewrite (u32_small (op + 1 + 1 + 1)), (u32_small (s + 1 + 1 + 1)) by lia.
  rewrite (u32_small (op + 2)), (u32_small (s + 2)), (u32_small (op + 3)), (u32_small (s + 3)) by lia.
  by replace (op + 1 + 1 + 1) with (op + 3) by lia; replace (s + 1 + 1 + 1) with (s + 3) by lia;
    replace (op + 1 + 1) with (op + 2) by lia; replace (s + 1 + 1) with (s + 2) by lia.
Qed.

Lemma copy_start_spec m op o : 1 <= o <= op -> op + 12 < 2 ^ 32 ->
  let '(m', mtch) := copy_start m op (op - o) o in
  per m' op (op + 8) o /\ kept_outside op (op + 8) m m' /\ mtch = op + 8 - Z.of_nat (periods o) * o.
Proof.
  intros Ho Hop. pose proof (periods_bounds o ltac:(lia)) as (Hj & Hj8 & Hjo). unfold copy_start.
  destruct (Z.ltb_spec o 8) as [Hs|Hl].
  - destruct (dec_tables o ltac:(lia)) as (D4 & D4' & Hh & D8).
    pose proof (four_puts m op (op - o) ltac:(lia) ltac:(lia) ltac:(lia) ltac:(lia)) as E. cbv zeta in E |- *. rewrite E.
    destruct (copy_bytes_spec 4 m op (op - o)) as [Hp Hout]; [lia|lia|]. cbv zeta in Hp, Hout.
    set (m1 := copy_bytes 4 m op (op - o)) in *. replace (op - (op - o)) with o in Hp by lia. change (Z.of_nat 4) with 4 in *.
    set (d32 := nth _ dec32table 0) in *. set (d64 := nth _ dec64table 0) in *.
    rewrite (u32_small (op - o + d32)), (u32_small (op + 4)), u32_small by lia.
    assert (Hc : forall x, 0 <= x < 2 ^ 32 -> memcpy m1 (op + 4) (op - o + d32) 4 x =
      if within (op + 4) (op + 8) x then m1 (op - o + d32 + (x - (op + 4))) else m1 x).
    { intros x Hx. rewrite memcpy_spec by lia. by replace (op + 4 + 4) with (op + 8) by lia. }
    set (m2 := memcpy m1 _ _ _) in *. split; [|split; [|lia]].
    + apply (per_extend m2 op (op + 4) (op + 8) o (half_periods o)); [|lia|done|lia|].
      * intros x Hx. rewrite !Hc, !within_out by lia. apply Hp. lia.
      * intros x Hx. rewrite !Hc, within_in, within_out by lia. f_equal. lia.
    + intros x Hx Hn. by rewrite Hc, within_out, Hout by lia.
  - assert (Hc : forall x, 0 <= x < 2 ^ 32 -> LZ4_copy8 m op (op - o) x = if within op (op + 8) x then m (op - o + (x - op)) else m x)
      by (intros x Hx; apply copy8_spec; lia).
    set (m1 := LZ4_copy8 m op (op - o)) in *.
    assert (Hp1 : periods o = 1%nat) by (unfold periods; apply nth_overflow; cbn; lia). rewrite Hp1.
    rewrite u32_small by lia. split; [|split; [|lia]].
    + intros x Hx. rewrite !Hc, within_in, within_out by lia. f_equal. lia.
    + intros x Hx Hn. by rewrite Hc, within_out by lia.
Qed.

(** The rest goes on from [d] bytes back. *)
Lemma copy_careful m op d cpy oend : 8 <= d <= op -> op <= oend - 4 -> oend - 12 < cpy -> cpy <= oend - 5 -> oend < 2 ^ 32 ->
  12 <= oend ->
  let '(ok, m') := copy_rest m op (op - d) cpy oend in
  ok = true /\ per m' op cpy d /\ kept_outside op oend m m'.
Proof.
  intros Hd Hop Hfar Hcpy Hend H12. unfold copy_rest, WILDCOPYLENGTH, LASTLITERALS.
  rewrite (u32_small (oend - 12)), (u32_small (oend - (8 - 1))), (u32_small (oend - 5)) by lia. replace (oend - (8 - 1)) with (oend - 7) by lia.
  rewrite (proj2 (Z.ltb_lt (oend - 12) cpy)), (proj2 (Z.ltb_ge (oend - 5) cpy)) by lia.
  assert (Hbytes : forall m1 o1, op <= o1 <= oend -> d <= o1 -> kept_outside op oend m m1 -> per m1 op (Z.min o1 cpy) d ->
    per (copy_bytes (Z.to_nat (cpy - o1)) m1 o1 (o1 - d)) op cpy d /\
    kept_outside op oend m (copy_bytes (Z.to_nat (cpy - o1)) m1 o1 (o1 - d))).
  { intros m1 o1 Ho1 Hd1 Hs Hp. destruct (Z.le_gt_cases cpy o1) as [Hc|Hc].
    - replace (Z.to_nat (cpy - o1)) with 0%nat by lia. split; [intros x Hx; apply Hp; lia|done].
    - destruct (copy_bytes_spec (Z.to_nat (cpy - o1)) m1 o1 (o1 - d)) as [Hp2 Ho2]; [lia|lia|].
      rewrite Z2Nat.id in Hp2, Ho2 by lia. replace (o1 - (o1 - d)) with d in Hp2 by lia. split.
      + intros x Hx. destruct (Z.lt_ge_cases x o1); [rewrite !Ho2 by lia; apply Hp; lia|apply Hp2; lia].
      + intros x Hx Hn. rewrite Ho2, Hs by lia. done. }
  destruct (Z.ltb_spec op (oend - 7)) as [Hw|Hw]; (split; [done|]).
  - rewrite (u32_small (oend - 7 - op)), u32_small by lia. replace (op - d + (oend - 7 - op)) with (oend - 7 - d) by lia.
    destruct (wild_back (Z.to_nat ((oend - 7 - op) / 8)) m op (op - d) (oend - 7)) as [Hp Ho];
      [lia|lia|apply wild_fuel|unfold wild_end; lia|]. replace (op - (op - d)) with d in Hp by lia.
    apply Hbytes; [lia|lia| |intros x Hx; apply Hp; lia].
    eapply kept_outside_weaken; [exact Ho|lia|unfold wild_end; lia].
  - apply Hbytes; [lia|lia|apply kept_outside_refl|intros x Hx; lia].
Qed.

Lemma copy_rest_spec m op d cpy oend : 8 <= d <= op -> op <= oend - 4 -> op - 4 <= cpy <= oend - 5 -> oend < 2 ^ 32 -> 12 <= oend ->
  let '(ok, m') := copy_rest m op (op - d) cpy oend in
  ok = true /\ per m' op cpy d /\ kept_outside op (Z.min oend (cpy + 12)) m m'.
Proof.
  intros Hd Hop Hcpy Hend H12. destruct (Z.lt_ge_cases (oend - 12) cpy) as [Hfar|Hfree].
  - pose proof (copy_careful m op d cpy oend Hd Hop Hfar ltac:(lia) Hend H12) as H.
    destruct (copy_rest m op (op - d) cpy oend) as [ok m']. destruct H as (-> & Hp & Ho). split; [done|]. split; [done|].
    eapply kept_outside_weaken; [exact Ho|lia|lia].
  - unfold copy_rest. rewrite (u32_small (oend - 12)), (proj2 (Z.ltb_ge (oend - 12) cpy)) by lia. split; [done|].
    destruct (wild_back (Z.to_nat ((cpy - op) / 8)) m op (op - d) cpy) as [Hp Ho];
      [lia|lia|apply wild_fuel|unfold wild_end; lia|]. replace (op - (op - d)) with d in Hp by lia. split; [exact Hp|].
    eapply kept_outside_weaken; [exact Ho|lia|unfold wild_end; lia].
Qed.

(** The whole match: every byte is the one [o] before it; at most twelve bytes behind the
    match are written, none behind the output. *)
Lemma match_copied m op o k oend : 1 <= o <= op -> 4 <= k -> op <= oend - 12 -> op + k <= oend - 5 -> oend < 2 ^ 32 ->
  let '(m1, mtch) := copy_start m op (op - o) o in
  let '(ok, m') := copy_rest m1 (op + 8) mtch (op + k) oend in
  ok = true /\ per m' op (op + k) o /\ kept_outside op (Z.min oend (op + k + 12)) m m'.
Proof.
  intros Ho Hk Hop Hcpy Hend. pose proof (periods_bounds o ltac:(lia)) as (Hj & Hj8 & Hjo).
  pose proof (copy_start_spec m op o Ho ltac:(lia)) as Hst. destruct (copy_start m op (op - o) o) as [m1 mtch].
  destruct Hst as (Hp1 & Ho1 & ->). set (d := Z.of_nat (periods o) * o) in *.
  pose proof (copy_rest_spec m1 (op + 8) d (op + k) oend ltac:(lia) ltac:(lia) ltac:(lia) Hend ltac:(lia)) as Hr.
  destruct (copy_rest m1 (op + 8) (op + 8 - d) (op + k) oend) as [ok m2]. destruct Hr as (-> & Hp2 & Ho2). split; [done|].
  assert (Hp8 : per m2 op (op + 8) o) by (intros x Hx; rewrite !Ho2 by lia; by apply Hp1). split.
  - destruct (Z.le_gt_cases (op + k) (op + 8)); [intros x Hx; apply Hp8; lia|].
    apply (per_extend m2 op (op + 8) (op + k) o (periods o)); [done|lia|done|lia|exact Hp2].
  - intros x Hx Hn. rewrite Ho2, Ho1 by lia. done.
Qed.

Lemma block_size_range raw : 0 <= block_size raw < 2 ^ 31.
Proof. unfold block_size. change (2 ^ 31 - 1) with (Z.ones 31). rewrite Z.land_ones by lia. apply Z.mod_pos_bound. lia. Qed.
