(* ===== verification/Lz4Correct.v ===== *)
(** * The LZ4 decoder is the reference decoder

    [ulz4fn] of [Lz4] on a frame in memory, in place or apart from the output, gives what
    [decode_frame] of [Lz4Format] gives, and writes nothing but the output.  So it is a
    [Decompressor] for the loaders of [CbfsLoad], [SelfBoot] and [StageLoad]. *)

From S2P Require Import Prelude Region Bytes CbfsLoad Memory Lz4 Lz4Format Lz4Copy.

Set Default Proof Using "Type".

(** ** Lists in memory *)

Definition at_mem (m : memory) (a : Z) (l : list Z) : Prop :=
  forall i, 0 <= i < len l -> m (a + i) = nth (Z.to_nat i) l 0.

Lemma at_mem_app m a l1 l2 : at_mem m a (l1 ++ l2) <-> at_mem m a l1 /\ at_mem m (a + len l1) l2.
Proof.
  unfold at_mem. rewrite length_app. split.
  - intros H. split; intros i Hi.
    + rewrite H by lia. by rewrite app_nth1 by lia.
    + rewrite <- Z.add_assoc, H, app_nth2 by lia. f_equal. lia.
  - intros [H1 H2] i Hi. destruct (Z.lt_ge_cases i (len l1)).
    + rewrite app_nth1 by lia. apply H1. lia.
    + rewrite app_nth2 by lia. replace (a + i) with (a + len l1 + (i - len l1)) by lia. rewrite H2 by lia. f_equal. lia.
Qed.

Lemma at_mem_cons m a x l : at_mem m a (x :: l) <-> m a = x /\ at_mem m (a + 1) l.
Proof.
  change (x :: l) with ([x] ++ l). rewrite at_mem_app. cbn [length]. split; intros [H1 H2]; (split; [|exact H2]).
  - specialize (H1 0 ltac:(cbn; lia)). by rewrite Z.add_0_r in H1.
  - intros i Hi. cbn in Hi. replace i with 0 by lia. by rewrite Z.add_0_r.
Qed.

Lemma at_mem_ext m m' a l : at_mem m a l -> (forall x, a <= x < a + len l -> m' x = m x) -> at_mem m' a l.
Proof. intros H He i Hi. rewrite He by lia. apply H. lia. Qed.

Lemma at_mem_load m a l n : at_mem m a l -> 0 <= a -> a + len l <= 2 ^ 32 -> 0 <= n <= len l ->
  load m a n = take (Z.to_nat n) l.
Proof.
  intros H Ha Hl Hn. apply (nth_ext _ _ 0 0).
  - rewrite load_length, length_take. lia.
  - intros i Hi. rewrite load_length in Hi. rewrite <- (Nat2Z.id i). rewrite load_nth by lia.
    rewrite (proj2 (Z.ltb_lt _ _)) by lia. rewrite H by lia. rewrite Nat2Z.id. by rewrite !nth_lookup, lookup_take_lt by lia.
Qed.

Lemma load_at_mem m a n : 0 <= a -> 0 <= n -> a + n <= 2 ^ 32 -> at_mem m a (load m a n).
Proof. intros Ha Hn Hl i Hi. rewrite load_length in Hi. rewrite load_nth by lia. by rewrite (proj2 (Z.ltb_lt _ _)) by lia. Qed.

Lemma readLE16_spec m a lo hi l : at_mem m a (lo :: hi :: l) -> is_byte lo -> is_byte hi ->
  0 <= a -> a + 2 <= 2 ^ 32 -> LZ4_readLE16 m a = lo + 256 * hi.
Proof.
  intros H Hlo Hhi Ha Ha2. change (lo :: hi :: l) with ([lo; hi] ++ l) in H. apply at_mem_app in H as [H _].
  unfold LZ4_readLE16. rewrite (at_mem_load m a [lo; hi] 2 H) by (cbn; lia). change (take (Z.to_nat 2) [lo; hi]) with [lo; hi].
  change (le16 [lo; hi] 0) with (Z.lor lo (Z.shiftl hi 8)). unfold is_byte in *.
  rewrite Z.lor_comm, lor_shiftl_add by lia. lia.
Qed.

Lemma read_le32_spec m a l : at_mem m a l -> 4 <= len l -> 0 <= a -> a + len l <= 2 ^ 32 -> read_le32 m a = le32 l 0.
Proof.
  intros H Hl Ha Hal. unfold read_le32. rewrite (at_mem_load m a l 4) by (done || lia).
  destruct l as [|b0 [|b1 [|b2 [|b3 l]]]]; cbn in Hl; try lia. done.
Qed.

(** ** Nibbles *)

Lemma token_high t : is_byte t -> Z.shiftr t ML_BITS = t / 16.
Proof. intros _. unfold ML_BITS. by rewrite Z.shiftr_div_pow2 by lia. Qed.
Lemma token_low t : Z.land t ML_MASK = t mod 16.
Proof. change ML_MASK with (Z.ones 4). by rewrite Z.land_ones by lia. Qed.

Lemma length_mask : RUN_MASK = 15 /\ ML_MASK = 15.
Proof. done. Qed.

(** ** Lengths *)

Lemma ext_len_app l : forall acc n l', ext_len acc l = Some (n, l') -> Forall is_byte l ->
  (exists pre, l = pre ++ l' /\ (0 < length pre)%nat) /\ acc <= n /\ Forall is_byte l'.
Proof.
  induction l as [|b l IH]; intros acc n l' H Hb; [done|]. cbn in H. apply Forall_cons in Hb as [Hb1 Hb2]. unfold is_byte in Hb1.
  destruct (b =? 255).
  - destruct (IH _ _ _ H Hb2) as ((pre & -> & Hp) & Hn & Hl). split; [exists (b :: pre); split; [done|cbn; lia]|]. split; [lia|done].
  - injection H as <- <-. split; [exists [b]; split; [done|cbn; lia]|]. split; [lia|done].
Qed.

Lemma decode_len_app n0 l n l' : decode_len n0 l = Some (n, l') -> Forall is_byte l ->
  (exists pre, l = pre ++ l') /\ n0 <= n /\ Forall is_byte l'.
Proof.
  unfold decode_len. destruct (n0 =? 15).
  - intros H Hb. destruct (ext_len_app _ _ _ _ H Hb) as ((pre & -> & _) & ? & ?). eauto.
  - intros [= <- <-] Hb. split; [by exists []|]. split; [lia|done].
Qed.

Lemma literal_length_spec m iend : 0 <= iend < 2 ^ 32 -> forall l fuel ip acc n l', at_mem m ip l -> Forall is_byte l ->
  0 <= ip -> ip + len l = iend -> 15 <= acc -> ext_len acc l = Some (n, l') -> n <= len l' -> (length l < fuel)%nat ->
  literal_length fuel m ip acc iend = Some (iend - len l', n).
Proof.
  intros Hend. induction l as [|b l IH]; intros fuel ip acc n l' Hm Hb Hip Hl Hacc H Hn Hf; [done|].
  destruct fuel as [|fuel]; [lia|]. cbn [ext_len length] in *. apply at_mem_cons in Hm as [Hmb Hm].
  apply Forall_cons in Hb as [Hb1 Hb2]. unfold is_byte in Hb1. cbn [literal_length]. rewrite Hmb.
  rewrite (u32_small (ip + 1)) by lia. destruct (Z.eqb_spec b 255) as [E|E].
  - destruct (ext_len_app _ _ _ _ H Hb2) as ((pre & El & Hp) & Hn' & _). subst l. rewrite length_app in *.
    change RUN_MASK with 15. rewrite (u32_small (iend - 15)), (u32_small (acc + b)) by lia.
    rewrite (proj2 (Z.ltb_lt _ _)) by lia. cbn [andb]. apply IH; try done; try (rewrite ?length_app; lia).
  - injection H as <- <-. rewrite andb_false_r. rewrite u32_small by lia. do 2 f_equal. lia.
Qed.

Lemma match_length_spec m iend : 0 <= iend < 2 ^ 32 -> forall l fuel ip acc n l', at_mem m ip l -> Forall is_byte l ->
  0 <= ip -> ip + len l = iend -> 0 <= acc -> ext_len acc l = Some (n, l') -> 6 <= len l' -> n < 2 ^ 32 -> (length l < fuel)%nat ->
  match_length fuel m ip acc iend = Some (iend - len l', Some n).
Proof.
  intros Hend. induction l as [|b l IH]; intros fuel ip acc n l' Hm Hb Hip Hl Hacc H Hn Hn32 Hf; [done|].
  destruct fuel as [|fuel]; [lia|]. destruct (ext_len_app _ _ _ _ H Hb) as ((pre & El & Hp) & Hn' & _).
  assert (Hlen : len (b :: l) = len pre + len l') by (rewrite El, length_app; lia).
  cbn [ext_len] in *. apply at_mem_cons in Hm as [Hmb Hm]. cbn [length] in Hl, Hlen, Hf.
  apply Forall_cons in Hb as [Hb1 Hb2]. unfold is_byte in Hb1. cbn [match_length].
  change LASTLITERALS with 5. rewrite (u32_small (iend - 5)), (proj2 (Z.ltb_ge _ _)) by lia. rewrite Hmb.
  rewrite (u32_small (ip + 1)) by lia. destruct (Z.eqb_spec b 255) as [E|E].
  - destruct (ext_len_app _ _ _ _ H Hb2) as (_ & Hn2 & _). rewrite u32_small by lia. apply IH; try done; try lia.
  - injection H as <- <-. rewrite u32_small by lia. do 2 f_equal. lia.
Qed.

(** ** Matches *)

Lemma copy_back_length n off : forall out, length (copy_back n off out) = (length out + n)%nat.
Proof. induction n as [|n IH]; intros out; cbn; [lia|]. rewrite IH, length_app. cbn. lia. Qed.

Lemma copy_back_at m a off n : forall out, at_mem m a out -> 1 <= off <= len out ->
  per m (a + len out) (a + len out + Z.of_nat n) off -> at_mem m a (copy_back n off out).
Proof.
  induction n as [|n IH]; intros out Hm Ho Hp; [done|]. cbn [copy_back].
  set (x := nth _ out 0). apply IH.
  - apply at_mem_app. split; [done|]. apply at_mem_cons. split; [|intros i Hi; cbn in Hi; lia].
    rewrite Hp by lia. subst x. rewrite <- Z.add_sub_assoc, Hm by lia. f_equal. lia.
  - rewrite length_app. cbn. lia.
  - rewrite length_app. cbn [length]. intros y Hy. apply Hp. lia.
Qed.

Lemma copy_back_app n off : forall out, exists r, copy_back n off out = out ++ r.
Proof.
  induction n as [|n IH]; intros out; [exists []; by rewrite app_nil_r|]. cbn [copy_back].
  destruct (IH (out ++ [nth (length out - Z.to_nat off) out 0])) as [r ->]. rewrite <- app_assoc. eauto.
Qed.

(** ** One sequence *)

Section Sequence.
(** The block ends at [iend] with the bytes [tl] of the frame behind it; its output goes
    to [dest], [oend). *)
Context (iend dest oend low : Z) (tl : list Z) (ipd inplace : bool).
Notation room := (oend - dest).
Hypotheses (Hdest : 0 <= dest <= oend) (Hoend : oend < 2 ^ 32) (Hlow : 0 <= low) (Hiend : 8 <= iend < 2 ^ 32)
  (Htl : iend + len tl <= 2 ^ 32) (Hipd : ipd = true -> inplace = true /\ iend + len tl = oend).
(** In place both end together; otherwise input and output are apart. *)
Hypothesis Hplace : (inplace = true /\ iend + len tl = oend) \/ iend + len tl <= dest \/ oend <= low.

(** The input left is not overwritten. *)
Definition clear (out l : list Z) : Prop := inplace = true -> len l + len tl + 12 <= room - len out.

Record inv (m : memory) (ip op : Z) (out l : list Z) : Prop := {
  i_in : clear out l -> at_mem m ip (l ++ tl);
  i_out : at_mem m dest out;
  i_op : op = dest + len out /\ len out <= room;
  i_ip : low <= ip /\ ip + len l = iend;
  i_bytes : Forall is_byte l
}.

Lemma last_literals fuel m token ip op out lits : at_mem m ip (lits ++ tl) -> at_mem m dest out ->
  op = dest + len out -> op + len lits <= oend -> low <= ip -> ip + len lits = iend ->
  (inplace = true -> iend + len tl = oend -> op <= ip) ->
  exists m', literal_step iend dest oend fuel m token ip op (len lits) = Some (Finished m' iend (op + len lits)) /\
    at_mem m' dest (out ++ lits) /\ at_mem m' iend tl /\ kept_outside dest oend m m'.
Proof using Hdest Hoend Hlow Hiend Htl Hplace.
  intros Hm Ho -> Hop Hl Hip Hin. apply at_mem_app in Hm as [Hm1 Hm2]. rewrite Hip in Hm2. eexists. unfold literal_step.
  change (2 + 1 + LASTLITERALS) with 8. rewrite Hip, (u32_small iend), (u32_small (iend - 8)), (u32_small (_ + len lits)) by lia.
  rewrite (proj2 (Z.ltb_lt (iend - 8) iend)), Z.eqb_refl, (proj2 (Z.ltb_ge oend _)), orb_true_r by lia. cbn [negb orb].
  split; [reflexivity|]. set (op := dest + len out) in *.
  assert (Hc : forall x, 0 <= x < 2 ^ 32 -> memcpy m op ip (len lits) x = if within op (op + len lits) x then m (ip + (x - op)) else m x)
    by (intros x Hx; apply memcpy_spec; lia).
  split; [|split].
  - apply at_mem_app. split.
    + eapply at_mem_ext; [exact Ho|]. intros x Hx. rewrite Hc, within_out by lia. done.
    + intros i Hi. fold op. rewrite Hc, within_in by lia. rewrite <- Hm1 by lia. f_equal. lia.
  - eapply at_mem_ext; [exact Hm2|]. intros x Hx. rewrite Hc, within_out by (destruct Hplace as [[Hi He]|[?|?]]; [pose proof (Hin Hi He)|..]; lia). done.
  - intros x Hx Hn. rewrite Hc, within_out by lia. done.
Qed.

(** The literals before a match; what is written behind them is input already read. *)
Lemma literals_copied m ip op out lits rest : at_mem m ip (lits ++ rest ++ tl) -> at_mem m dest out ->
  op = dest + len out -> op + len lits <= oend - 12 -> low <= ip -> ip + len lits + len rest = iend -> 8 <= len rest ->
  (inplace = true -> iend + len tl = oend -> op + 8 <= ip) ->
  let m' := LZ4_wildCopy m op ip (op + len lits) in
  at_mem m' dest (out ++ lits) /\ at_mem m' (ip + len lits) (rest ++ tl) /\ kept_outside dest oend m m'.
Proof using Hdest Hoend Hlow Hiend Htl Hplace.
  intros Hm Ho Eop Hop Hl Hip Hr Hin. apply at_mem_app in Hm as [Hm1 Hm2]. cbv zeta.
  assert (Hap : op + 8 <= ip \/ ip + 8 <= op /\ iend + len tl <= op)
    by (destruct Hplace as [[Hi He]|[?|?]]; [left; by apply Hin|right; lia|left; lia]).
  destruct (wildCopy_apart m op ip (op + len lits)) as [Hc Hs]; [lia|lia|lia|unfold wild_end; lia|].
  set (m' := LZ4_wildCopy _ _ _ _) in *. cbv zeta in Hc, Hs. unfold wild_end in Hs. split; [|split].
  - apply at_mem_app. split.
    + eapply at_mem_ext; [exact Ho|]. intros x Hx. apply Hs; lia.
    + intros i Hi. rewrite <- Eop, Hc by lia. rewrite <- Hm1 by lia. f_equal. lia.
  - eapply at_mem_ext; [exact Hm2|]. rewrite length_app. intros x Hx. apply Hs; lia.
  - eapply kept_outside_weaken; [exact Hs|lia|lia].
Qed.

(** The copy of a match of [k] bytes, with the input [l] left at [ip]. *)
Lemma match_copy m ip op out off k l L : at_mem m ip (l ++ tl) -> at_mem m dest out -> op = dest + len out -> op <= oend - 12 ->
  low <= ip -> ip + len l = iend -> Forall is_byte l -> 1 <= off <= len out -> 4 <= k -> op + k <= oend - 5 -> u32 (L + 4) = k ->
  let out' := copy_back (Z.to_nat k) off out in
  exists m',
    (let length := u32 (L + 4) in
     let cpy := u32 (op + length) in
     let '(m, mtch) := copy_start m op (op - off) off in
     let '(ok, m) := copy_rest m (u32 (op + 8)) mtch cpy oend in
     if ok then More m ip cpy else Failed m ip) = More m' ip (dest + len out') /\
    inv m' ip (dest + len out') out' l /\ kept_outside dest oend m m'.
Proof using Hdest Hoend Hlow Hiend Htl Hplace.
  intros Hm Ho Eop Hop Hlo Hip Hb Hoff Hk Hend ->. cbv zeta. rewrite (u32_small (op + 8)), (u32_small (op + k)) by lia.
  pose proof (match_copied m op off k oend ltac:(lia) Hk Hop Hend Hoend) as Hmc.
  destruct (copy_start m op (op - off) off) as [m1 mtch]. destruct (copy_rest m1 (op + 8) mtch (op + k) oend) as [ok m2].
  destruct Hmc as (-> & Hp & Hs). exists m2. rewrite copy_back_length. split; [f_equal; lia|].
  split; [|eapply kept_outside_weaken; [exact Hs|lia|lia]]. split; [| |split; [rewrite copy_back_length; lia|rewrite copy_back_length; lia]|done|done].
  - intros Hc. eapply at_mem_ext; [exact Hm|]. rewrite length_app. intros x Hx. apply Hs; [lia|]. unfold clear in Hc.
    rewrite copy_back_length in Hc. destruct Hplace as [[Hi He]|[?|?]]; [specialize (Hc Hi); lia|lia|lia].
  - apply copy_back_at; [|done|rewrite <- Eop, Z2Nat.id by lia; exact Hp].
    eapply at_mem_ext; [exact Ho|]. intros x Hx. apply Hs; lia.
Qed.

Lemma match_decoded fuel m token ip op out l out' l' : at_mem m ip (l ++ tl) -> at_mem m dest out -> is_byte token ->
  op = dest + len out -> op <= oend - 12 -> low <= ip -> ip + len l = iend -> Forall is_byte l ->
  decode_match room token out l = Some (out', l') -> (length l < fuel)%nat ->
  exists m', match_step iend dest oend fuel m token ip op = Some (More m' (iend - len l') (dest + len out')) /\
    inv m' (iend - len l') (dest + len out') out' l' /\ kept_outside dest oend m m' /\ (length l' < length l)%nat.
Proof using Hdest Hoend Hlow Hiend Htl Hplace.
  intros Hm Ho Ht Eop Hop Hlo Hip Hb H Hf. unfold decode_match in H. destruct l as [|lo [|hi l]]; [done|done|].
  pose proof Hb as Hb'. apply Forall_cons in Hb' as [Hblo Hb']. apply Forall_cons in Hb' as [Hbhi Hbl]. cbn [length] in Hip, Hf.
  destruct (decode_len (token mod 16) l) as [[k l1]|] eqn:Ek; [|done]. set (off := lo + 256 * hi) in *.
  destruct (decode_len_app _ _ _ _ Ek Hbl) as ((pre & ->) & Hk & Hb1).
  destruct ((off =? 0) || (len out <? off) || (room - 5 <? len out + k + 4) || (len l1 <? 6)) eqn:Eg; [done|].
  injection H as <- <-. bool_to_prop. unfold is_byte in *.
  pose proof (Z.mod_pos_bound token 16 ltac:(lia)). assert (Hoff : 1 <= off <= len out) by lia.
  unfold match_step. rewrite (readLE16_spec m ip lo hi ((pre ++ l1) ++ tl)) by (done || lia). fold off.
  rewrite (u32_small (op - off)), (u32_small (ip + 2)) by lia. rewrite (proj2 (Z.ltb_ge _ _)) by lia.
  change ((lo :: hi :: pre ++ l1) ++ tl) with ([lo; hi] ++ (pre ++ l1) ++ tl) in Hm. apply at_mem_app in Hm as [_ Hm].
  change (len [lo; hi]) with 2 in Hm. rewrite token_low. change ML_MASK with 15. change MINMATCH with 4.
  rewrite length_app in Hip, Hf. assert (Hm1 : at_mem m (iend - len l1) (l1 ++ tl)).
  { rewrite <- app_assoc in Hm. apply at_mem_app in Hm as [_ Hm]. replace (iend - len l1) with (ip + 2 + len pre) by lia. exact Hm. }
  pose proof (fun L => match_copy m (iend - len l1) op out off (k + 4) l1 L Hm1 Ho Eop Hop ltac:(lia) ltac:(lia) Hb1 Hoff ltac:(lia) ltac:(lia))
    as Hlast. cbv zeta in Hlast.
  assert (Hlen : (length l1 < length (lo :: hi :: pre ++ l1))%nat) by (cbn [length]; rewrite length_app; lia).
  unfold decode_len in Ek. destruct (Z.eqb_spec (token mod 16) 15) as [E|E].
  - rewrite (match_length_spec m iend ltac:(lia) (pre ++ l1) fuel (ip + 2) (token mod 16) k l1); try done; try lia.
    2: { by apply at_mem_app in Hm as [Hm _]. } 2: { rewrite length_app. lia. } 2: { rewrite length_app. lia. }
    rewrite (u32_small (op + k)), (proj2 (Z.ltb_ge _ op)) by lia.
    destruct (Hlast k) as (m' & Hcopied & Hinv & Hs); [apply u32_small; lia|].
    exists m'. split; [by f_equal|]. done.
  - injection Ek as <- Epre. assert (Hpre : pre = []) by (apply (f_equal length) in Epre; rewrite length_app in Epre; destruct pre; [done|cbn in Epre; lia]).
    subst pre. cbn [app length] in *. destruct (Hlast (token mod 16)) as (m' & Hcopied & Hinv & Hs); [apply u32_small; lia|].
    exists m'. replace (ip + 2) with (iend - len l1) by lia. split; [by f_equal|]. done.
Qed.

(** The sequence ends the block or leaves a state for the next one. *)
Definition sequence_done (m : memory) (out' : list Z) (r : option (list Z)) (n : nat) (p : option progress) : Prop :=
  match r with
  | None => exists m', p = Some (Finished m' iend (dest + len out')) /\ at_mem m' dest out' /\ at_mem m' iend tl /\ kept_outside dest oend m m' /\ len out' <= room
  | Some l' => exists m', p = Some (More m' (iend - len l') (dest + len out')) /\ inv m' (iend - len l') (dest + len out') out' l' /\ kept_outside dest oend m m' /\ (length l' < n)%nat
  end.

(** After the token: the literals, then the end or the match. *)
Lemma literals_decoded fuel m token ip op out n l out' r : at_mem m ip (l ++ tl) -> at_mem m dest out -> is_byte token ->
  op = dest + len out -> len out <= room -> low <= ip -> ip + len l = iend -> Forall is_byte l -> 0 <= n <= len l -> len out + n <= room ->
  (inplace = true -> iend + len tl = oend -> op + 8 <= ip) ->
  (if len l =? n then if token mod 16 =? 0 then Some (out ++ l, None) else None
   else if (len l <? n + 8) || (room - 12 <? len out + n) then None
   else match decode_match room token (out ++ take (Z.to_nat n) l) (drop (Z.to_nat n) l) with
        | None => None
        | Some (out, l) => Some (out, Some l)
        end) = Some (out', r) -> (length l < fuel)%nat ->
  sequence_done m out' r (S (length l)) (literal_step iend dest oend fuel m token ip op n).
Proof using Hdest Hoend Hlow Hiend Htl Hplace.
  intros Hm Ho Ht Eop Hr Hlo Hip Hb Hn Hroom Hin H Hf. destruct (Z.eqb_spec (len l) n) as [<-|Hne].
  - destruct (token mod 16 =? 0); [|done]. injection H as <- <-.
    destruct (last_literals fuel m token ip op out l) as (m' & E & H1 & H2 & H3); try done; try lia.
    { intros Hi He. specialize (Hin Hi He). lia. }
    exists m'. rewrite length_app. split; [rewrite E; do 2 f_equal; lia|]. split; [done|]. split; [done|]. split; [done|lia].
  - destruct ((len l <? n + 8) || (room - 12 <? len out + n)) eqn:Eg; [done|]. bool_to_prop.
    destruct (decode_match _ _ _ _) as [[out2 l2]|] eqn:Em; [|done]. injection H as <- <-.
    assert (El : l = take (Z.to_nat n) l ++ drop (Z.to_nat n) l) by (by rewrite take_drop).
    assert (Hlit : len (take (Z.to_nat n) l) = n) by (rewrite length_take; lia).
    assert (Hdr : len (drop (Z.to_nat n) l) = len l - n) by (rewrite length_drop; lia).
    assert (Hb' : Forall is_byte (drop (Z.to_nat n) l)) by (rewrite El in Hb; by apply Forall_app in Hb as [_ Hb]).
    assert (Hm' : at_mem m ip (take (Z.to_nat n) l ++ drop (Z.to_nat n) l ++ tl)) by (rewrite app_assoc, take_drop; exact Hm).
    destruct (literals_copied m ip op out _ _ Hm' Ho Eop) as (L1 & L2 & L3); [lia|done|lia|lia|done|].
    rewrite Hlit in L1, L2, L3. set (m1 := LZ4_wildCopy m op ip (op + n)) in *. unfold literal_step.
    change MFLIMIT with 12. change (2 + 1 + LASTLITERALS) with 8.
    rewrite (u32_small (op + n)), (u32_small (oend - 12)), (u32_small (iend - 8)), (u32_small (ip + n)) by lia.
    rewrite (proj2 (Z.ltb_ge (oend - 12) _)), (proj2 (Z.ltb_ge (iend - 8) _)) by lia. cbn [orb]. fold m1.
    destruct (match_decoded fuel m1 token (ip + n) (op + n) (out ++ take (Z.to_nat n) l) (drop (Z.to_nat n) l) out2 l2)
      as (m' & E & Hinv & Hs & Hlen); try done; try lia.
    { rewrite length_app. lia. }
    exists m'. split; [done|]. split; [done|]. split; [by eapply kept_outside_trans|]. lia.
Qed.

Lemma sequence_decoded fuel m ip op out l out' r : inv m ip op out l ->
  decode_one inplace (len tl) room out l = Some (out', r) -> (length l < fuel)%nat ->
  sequence_done m out' r (length l) (sequence_step iend dest oend ipd fuel m ip op).
Proof using Hdest Hoend Hlow Hiend Htl Hplace Hipd.
  intros [Hin Ho [Eop Hr] [Hlo Hip] Hb] H Hf. unfold decode_one in H. destruct l as [|token l]; [done|].
  destruct (inplace && (room - len out <? len l + 1 + len tl + 12)) eqn:Em; [done|].
  assert (Hc : clear out (token :: l)) by (intros Hi; rewrite Hi in Em; bool_to_prop; cbn [length andb] in *; lia).
  specialize (Hin Hc). destruct (decode_len (token / 16) l) as [[n l1]|] eqn:En; [|done].
  apply Forall_cons in Hb as [Ht Hb]. destruct (decode_len_app _ _ _ _ En Hb) as ((pre & ->) & Hn & Hb1).
  destruct ((len l1 <? n) || (room <? len out + n)) eqn:Eg; [done|]. bool_to_prop. cbn [length] in *. rewrite length_app in *.
  change ((token :: pre ++ l1) ++ tl) with (token :: (pre ++ l1) ++ tl) in Hin.
  apply at_mem_cons in Hin as [Htok Hin]. unfold is_byte in Ht. assert (0 <= token / 16 < 16) by (Z.to_euclidean_division_equations; lia).
  unfold clear in Hc. cbn [length] in Hc. rewrite length_app in Hc.
  unfold sequence_step. assert (Eip : ipd && (ip <? u32 (op + WILDCOPYLENGTH)) = false).
  { destruct ipd; [|done]. destruct (Hipd eq_refl) as [Hi He]. specialize (Hc Hi). change WILDCOPYLENGTH with 8. cbn [andb]. apply Z.ltb_ge.
    rewrite u32_small by lia. lia. }
  rewrite Eip, Htok, (u32_small (ip + 1)) by lia. rewrite token_high by done. change RUN_MASK with 15.
  assert (Hin8 : inplace = true -> iend + len tl = oend -> op + 8 <= iend - len l1).
  { intros Hi He. specialize (Hc Hi). lia. }
  assert (Hrest : at_mem m (iend - len l1) (l1 ++ tl)).
  { rewrite <- app_assoc in Hin. apply at_mem_app in Hin as [_ Hin]. by replace (iend - len l1) with (ip + 1 + len pre) by lia. }
  assert (Hgo : sequence_done m out' r (S (length pre + length l1)) (literal_step iend dest oend fuel m token (iend - len l1) op n)).
  { pose proof (literals_decoded fuel m token (iend - len l1) op out n l1 out' r Hrest Ho Ht Eop Hr ltac:(lia) ltac:(lia) Hb1
      ltac:(lia) ltac:(lia) Hin8 H ltac:(lia)) as Hd.
    unfold sequence_done in *. destruct r; [|done]. destruct Hd as (m' & ? & ? & ? & ?). exists m'. split; [done|]. split; [done|]. split; [done|lia]. }
  unfold decode_len in En. destruct (Z.eqb_spec (token / 16) 15) as [E|E].
  - rewrite (literal_length_spec m iend ltac:(lia) (pre ++ l1) fuel (ip + 1) (token / 16) n l1); try done; try lia.
    2: { by apply at_mem_app in Hin as [Hin _]. }
    2: { rewrite length_app. lia. } 2: { rewrite length_app. lia. }
    rewrite (u32_small (op + n)), (u32_small (iend - len l1 + n)), !(proj2 (Z.ltb_ge _ _)) by lia. exact Hgo.
  - injection En as <- Epre. assert (Hpre : pre = []) by (apply (f_equal length) in Epre; rewrite length_app in Epre; destruct pre; [done|cbn in Epre; lia]).
    subst pre. cbn [length app] in *. replace (ip + 1) with (iend - len l1) by lia. exact Hgo.
Qed.

(** A whole block. *)
Lemma sequences_decoded n : forall fuel m ip op out l out', inv m ip op out l ->
  decode_sequences inplace (len tl) room n out l = Some out' -> (length l < fuel)%nat ->
  exists m', sequences iend dest oend ipd fuel m ip op = Some (Finished m' iend (dest + len out')) /\ at_mem m' dest out' /\ at_mem m' iend tl /\ kept_outside dest oend m m' /\ len out' <= room.
Proof using Hdest Hoend Hlow Hiend Htl Hplace Hipd.
  induction n as [|n IH]; intros fuel m ip op out l out' Hinv H Hf; [done|]. cbn [decode_sequences] in H.
  destruct fuel as [|fuel]; [lia|]. cbn [sequences].
  destruct (decode_one inplace (len tl) room out l) as [[out1 r]|] eqn:E; [|done].
  pose proof (sequence_decoded (S fuel) m ip op out l out1 r Hinv E Hf) as Hd. destruct r as [l1|]; cbn [sequence_done] in Hd.
  - destruct Hd as (m1 & E1 & Hinv1 & Hs1 & Hl1).
    destruct (IH fuel m1 (iend - len l1) (dest + len out1) out1 l1 out' Hinv1 H ltac:(lia)) as (m' & E' & H1 & H2 & H3 & H4).
    exists m'. split; [by rewrite E1|]. split; [done|]. split; [done|]. split; [by eapply kept_outside_trans|done].
  - destruct Hd as (m' & E1 & H1 & H2 & H3 & H4). injection H as <-. exists m'. by rewrite E1.
Qed.

(** No room: only the block of the empty output. *)
Lemma empty_block l b : decode_block inplace (len tl) 0 l = Some b -> Forall is_byte l -> b = [] /\ l = [0].
Proof.
  unfold decode_block. destruct l as [|t l]; [done|]. cbn [decode_sequences length decode_one]. intros H Hb.
  apply Forall_cons in Hb as [Ht Hb]. unfold is_byte in Ht.
  destruct (inplace && _); [done|]. destruct (decode_len (t / 16) l) as [[n l1]|] eqn:E; [|done].
  destruct (decode_len_app _ _ _ _ E Hb) as (_ & Hn & _). assert (0 <= t / 16) by (Z.to_euclidean_division_equations; lia).
  destruct ((len l1 <? n) || _) eqn:Eg; [done|]. bool_to_prop. cbn [length] in *.
  assert (Hz : t / 16 = 0) by lia. unfold decode_len in E. rewrite Hz in E. injection E as <- <-.
  destruct (Z.eqb_spec (len l) 0) as [E0|E0].
  - destruct (Z.eqb_spec (t mod 16) 0) as [Em|]; [|done]. destruct l; [|cbn in E0; lia]. injection H as <-.
    split; [done|]. f_equal. Z.to_euclidean_division_equations; lia.
  - by rewrite (proj2 (Z.ltb_lt (0 - 12) _)), orb_true_r in H by (cbn; lia).
Qed.
End Sequence.

(** A block as [ulz4fn] calls the decoder. *)
Lemma block_decoded fuel m src dst oend low tl inplace data b :
  0 <= dst <= oend -> oend < 2 ^ 32 -> oend - dst < 2 ^ 31 -> 0 <= low <= src -> 8 <= src + len data < 2 ^ 32 -> len data < 2 ^ 31 ->
  src + len data + len tl <= 2 ^ 32 -> (0 < length data)%nat ->
  (inplace = true /\ src + len data + len tl = oend) \/ src + len data + len tl <= dst \/ oend <= low ->
  at_mem m src (data ++ tl) -> Forall is_byte data -> decode_block inplace (len tl) (oend - dst) data = Some b ->
  (length data < fuel)%nat ->
  exists m', LZ4_decompress_generic fuel m src dst (len data) (oend - dst) = Some (len b, m') /\
    at_mem m' dst b /\ at_mem m' (src + len data) tl /\ kept_outside dst oend m m' /\ len b <= oend - dst.
Proof.
  intros Hd Ho Ho31 Hlow Hi Hi31 Htl Hpos Hplace Hm Hb H Hf. unfold LZ4_decompress_generic.
  destruct (Z.eqb_spec (oend - dst) 0) as [Ez|Hz].
  - rewrite Ez in H. destruct (empty_block _ _ _ _ H Hb) as [-> ->]. apply at_mem_cons in Hm as [Hm0 Hm].
    change (len [0] =? 1) with true. rewrite Hm0. exists m. split; [done|].
    split; [intros i Hi'; cbn in Hi'; lia|]. split; [exact Hm|]. split; [apply kept_outside_refl|cbn; lia].
  - rewrite (u32_small (src + len data)), (u32_small (dst + (oend - dst))) by lia. replace (dst + (oend - dst)) with oend by lia.
    set (ipd := (dst <=? src) && (src <? oend)). assert (Hipd : ipd = true -> inplace = true /\ src + len data + len tl = oend).
    { unfold ipd. intros Hp. bool_to_prop. destruct Hplace as [?|[?|?]]; [done|lia|lia]. }
    destruct (sequences_decoded (src + len data) dst oend low tl ipd inplace Hd Ho ltac:(lia) ltac:(lia) Htl Hipd Hplace
      (length data) fuel m src dst [] data b) as (m' & E & H1 & H2 & H3 & H4); try done.
    { split; [done|intros i Hi'; cbn in Hi'; lia|cbn; lia|lia|done]. }
    rewrite E. exists m'. split; [|done]. do 2 f_equal. rewrite s32_small by lia. lia.
Qed.

(** ** Frames *)

Lemma decode_blocks_length inplace checksums cap n out l out' : decode_blocks inplace checksums cap n out l = Some out' -> 4 <= len l.
Proof.
  destruct n; [done|]. cbn. destruct (Z.ltb_spec (len l) 4); [done|]. by intros _.
Qed.

Section Frame.
Context (src n dst cap : Z) (inplace checksums : bool).
Hypotheses (Hsrc : 0 <= src) (Hn : 7 <= n < 2 ^ 31) (Hend : src + n <= 2 ^ 32) (Hdst : 0 <= dst) (Hcap : 0 <= cap < 2 ^ 31)
  (Hdend : dst + cap < 2 ^ 32).
Hypothesis Hplace : (inplace = true /\ src + n = dst + cap) \/ src + n <= dst \/ dst + cap <= src.

(** The blocks from [l] on are decoded. *)
Definition blocks_at (k : nat) : Prop := forall fuel m inp out l out', at_mem m inp l -> at_mem m dst out -> len out <= cap ->
  src + 7 <= inp -> inp + len l = src + n -> Forall is_byte l -> (length l < fuel)%nat ->
  decode_blocks inplace checksums cap k out l = Some out' ->
  exists m', block_loop src n dst cap checksums fuel m inp (dst + len out) = Some (len out', m') /\
    at_mem m' dst out' /\ kept_outside dst (dst + cap) m m'.

(** After a block with the output [blk]. *)
Lemma next_block k fuel m m1 inp out blk rest out' : blocks_at k -> at_mem m dst out -> at_mem m1 (dst + len out) blk ->
  at_mem m1 inp rest -> kept_outside (dst + len out) (dst + cap) m m1 -> len out + len blk <= cap ->
  src + 7 <= inp -> inp + len rest = src + n -> Forall is_byte rest -> (length rest < fuel)%nat ->
  decode_blocks inplace checksums cap k (out ++ blk) (if checksums then drop 4 rest else rest) = Some out' ->
  exists m', block_loop src n dst cap checksums fuel m1 (if checksums then u32 (u32 inp + 4) else u32 inp)
      (u32 (dst + len out + len blk)) = Some (len out', m') /\
    at_mem m' dst out' /\ kept_outside dst (dst + cap) m m'.
Proof using Hsrc Hn Hend Hdst Hcap Hdend.
  intros IH Ho M1 M2 Ms Hblk Hinp Hl Hb Hf Hd. pose proof (decode_blocks_length _ _ _ _ _ _ _ Hd) as Hr4.
  set (rest' := if checksums then drop 4 rest else rest) in *.
  assert (Hr' : len rest' = len rest - (if checksums then 4 else 0)) by (unfold rest' in *; destruct checksums; rewrite ?length_drop in *; lia).
  assert (Hin : (if checksums then u32 (u32 inp + 4) else u32 inp) = src + n - len rest')
    by (destruct checksums; rewrite !u32_small by (rewrite ?u32_small by lia; lia); lia).
  rewrite Hin, (u32_small (dst + len out + len blk)) by lia.
  replace (dst + len out + len blk) with (dst + len (out ++ blk)) by (rewrite length_app; lia).
  assert (Hrest : at_mem m1 (src + n - len rest') rest').
  { unfold rest' in *. destruct checksums; [|by replace (src + n - len rest) with inp by lia].
    rewrite <- (take_drop 4 rest) in M2. apply at_mem_app in M2 as [_ M2]. rewrite length_take in M2. rewrite length_drop in *.
    by replace (src + n - Z.of_nat (length rest - 4)) with (inp + Z.of_nat (4 `min` length rest)) by lia. }
  assert (Hout : at_mem m1 dst (out ++ blk)).
  { apply at_mem_app. split; [|done]. eapply at_mem_ext; [exact Ho|]. intros x Hx. apply Ms; lia. }
  destruct (IH fuel m1 (src + n - len rest') (out ++ blk) rest' out' Hrest Hout) as (m' & E & R1 & R2); try done.
  - rewrite length_app. lia.
  - destruct checksums; lia.
  - lia.
  - unfold rest'. destruct checksums; [by apply Forall_drop|done].
  - destruct checksums; lia.
  - exists m'. split; [done|]. split; [done|]. eapply kept_outside_trans; [|exact R2]. eapply kept_outside_weaken; [exact Ms|lia|lia].
Qed.

Lemma blocks_decoded k : blocks_at k.
Proof using Hsrc Hn Hend Hdst Hcap Hdend Hplace.
  induction k as [|k IH]; intros fuel m inp out l out' Hm Ho Hlen Hinp Hl Hb Hf H; [done|].
  pose proof (decode_blocks_length _ _ _ _ _ _ _ H) as H4. cbn [decode_blocks] in H.
  set (raw := le32 l 0) in *. set (size := block_size raw) in *. set (body := drop 4 l) in *.
  set (data := take (Z.to_nat size) body) in *. set (rest := drop (Z.to_nat size) body) in *. cbv zeta in H.
  destruct ((len l <? 4) || (len body <? size)) eqn:Eg; [done|]. bool_to_prop.
  pose proof (block_size_range raw) as Hsize. fold size in Hsize.
  assert (Hbody : len body = len l - 4) by (unfold body; rewrite length_drop; lia).
  assert (El : l = take 4 l ++ data ++ rest) by (unfold data, rest, body; by rewrite !take_drop).
  assert (Hdata : len data = size) by (unfold data; rewrite length_take; lia).
  assert (Hrest : len rest = len body - size) by (unfold rest; rewrite length_drop; lia).
  assert (Hm4 : at_mem m (inp + 4) (data ++ rest)).
  { rewrite El in Hm. apply at_mem_app in Hm as [_ Hm]. rewrite length_take in Hm.
    by replace (inp + Z.of_nat (4 `min` length l)) with (inp + 4) in Hm by lia. }
  pose proof Hm4 as [Hm4' Hm4'']%at_mem_app. rewrite Hdata in Hm4''.
  assert (Hbd : Forall is_byte data /\ Forall is_byte rest).
  { rewrite El in Hb. apply Forall_app in Hb as [_ Hb]. by apply Forall_app in Hb. } destruct Hbd as [Hbd Hbr].
  destruct fuel as [|fuel]; [lia|]. cbn [block_loop]. rewrite (read_le32_spec m inp l) by (done || lia). fold raw size.
  change sizeof_lz4_block_header with 4.
  assert (Hoff : u32 (u32 (inp + 4) - src) = inp + 4 - src) by (unfold u32, wrap; rewrite Zminus_mod_idemp_l; apply Z.mod_small; lia).
  rewrite Hoff, (u32_small (inp + 4 - src + size)) by lia.
  rewrite (proj2 (Z.ltb_ge n _)) by lia. destruct (Z.eqb_spec size 0) as [E0|E0].
  { injection H as <-. exists m. rewrite u32_small by lia. split; [do 2 f_equal; lia|]. split; [done|apply kept_outside_refl]. }
  rewrite (u32_small (inp + 4)) by lia.
  pose proof (fun m1 blk => next_block k fuel m m1 (inp + 4 + size) out blk rest out' IH Ho) as Hgo.
  rewrite (u32_small (dst + cap)), (u32_small (dst + cap - _)) by lia. destruct (not_compressed raw).
  - destruct ((cap <? len out + size) || (inplace && (cap - len out <? len body))) eqn:Ec; [done|]. apply orb_false_iff in Ec as [Ec1 Ec2].
    bool_to_prop. rewrite Z.min_l, Z.ltb_irrefl by lia.
    assert (Hap : forall x, inp + 4 + size <= x < src + n -> ~ (dst + len out <= x < dst + len out + size)).
    { intros x Hx. destruct Hplace as [[Hi He]|[?|?]]; [rewrite Hi in Ec2; bool_to_prop; cbn [andb] in Ec2; bool_to_prop; lia|lia|lia]. }
    pose proof (Hgo (memcpy m (dst + len out) (inp + 4) size) data) as Hg. rewrite Hdata in Hg. apply Hg; try done; try lia.
    + intros i Hi. rewrite memcpy_spec, within_in by lia. rewrite <- (Hm4' i) by lia. f_equal. lia.
    + intros i Hi. rewrite memcpy_spec, within_out by (lia || (apply Hap; lia)). apply Hm4''. lia.
    + intros x Hx Hnx. rewrite memcpy_spec, within_out by lia. done.
  - destruct (decode_block inplace (len rest) (cap - len out) data) as [b|] eqn:Eb; [|done].
    rewrite !s32_small by lia. pose proof (decode_blocks_length _ _ _ _ _ _ _ H) as Hr4.
    assert (Hr4' : 4 <= len rest) by (destruct checksums; rewrite ?length_drop in Hr4; lia).
    replace (cap - len out) with (dst + cap - (dst + len out)) in Eb by lia.
    destruct (block_decoded (S fuel) m (inp + 4) (dst + len out) (dst + cap) inp rest inplace data b)
      as (m1 & E & B1 & B2 & B3 & B4); try done; try lia.
    { destruct Hplace as [[Hi He]|[?|?]]; [left; split; [done|lia]|right; left; lia|right; right; lia]. }
    rewrite Hdata in E, B2. rewrite E. rewrite (proj2 (Z.ltb_ge (len b) 0)) by lia. apply Hgo; try done; lia.
Qed.
End Frame.

Lemma bytes_checked l : forallb (fun b => (0 <=? b) && (b <? 256)) l = true -> Forall is_byte l.
Proof.
  intros H. rewrite forallb_forall in H. apply List.Forall_forall. intros x Hx. specialize (H x Hx). bool_to_prop. unfold is_byte. lia.
Qed.

(** The decoder of the firmware is the reference decoder. *)
Lemma frame_decoded m src n dst cap inplace out : 0 <= src -> 0 <= n -> src + n <= 2 ^ 32 -> 0 <= dst -> dst + cap < 2 ^ 32 ->
  (inplace = true /\ src + n = dst + cap) \/ src + n <= dst \/ dst + cap <= src ->
  decode_frame inplace (load m src n) cap = Some out ->
  exists m', ulz4fn m src n dst cap = (len out, m') /\ at_mem m' dst out /\ kept_outside dst (dst + cap) m m'.
Proof.
  intros Hs Hn Hend Hd Hdend Hplace H. set (raw := load m src n) in *. unfold decode_frame in H.
  assert (Hlen : len raw = n) by (unfold raw; rewrite load_length; lia).
  assert (Hraw : at_mem m src raw) by (by apply load_at_mem).
  destruct ((cap <? 0) || (2 ^ 31 <=? cap) || (2 ^ 31 <=? len raw) || _ || negb (header_ok raw)) eqn:Eg; [done|].
  apply orb_false_iff in Eg as [Eg Eh]. apply orb_false_iff in Eg as [Eg Eb]. bool_to_prop. apply bytes_checked in Eb.
  unfold header_ok in Eh. bool_to_prop. unfold ulz4fn, ulz4fn_run. change (sizeof_lz4_frame_header + 8 + 1) with 15.
  rewrite (read_le32_spec m src raw) by (done || lia).
  assert (Hb : forall i : nat, (i < 15)%nat -> m (u32 (src + Z.of_nat i)) = nth i raw 0).
  { intros i Hi. rewrite u32_small by lia. rewrite Hraw by lia. by rewrite Nat2Z.id. }
  change (src + 4) with (src + Z.of_nat 4). change (src + 5) with (src + Z.of_nat 5). rewrite !Hb by lia.
  set (flags := nth 4 raw 0) in *. set (desc := nth 5 raw 0) in *.
  rewrite (proj2 (Z.ltb_ge n 15)) by lia.
  assert (Hk : le32 raw 0 = LZ4F_MAGICNUMBER /\ version flags = 1 /\ reserved0 flags = 0 /\ reserved1 desc = 0) by (repeat split; lia).
  destruct Hk as (-> & -> & -> & ->). rewrite !Z.eqb_refl. cbn [negb orb].
  assert (Hr2 : reserved2 desc = false) by done. assert (Hib : independent_blocks flags = true) by done.
  rewrite Hr2, Hib. cbn [negb]. change sizeof_lz4_frame_header with 6.
  set (hs := header_size raw) in *. assert (Ehs : hs = if has_content_size flags then 15 else 7) by done.
  assert (Einp : u32 ((if has_content_size flags then u32 (u32 (src + 6) + 8) else u32 (src + 6)) + 1) = src + hs).
  { rewrite Ehs. rewrite (u32_small (src + 6)) by lia. destruct (has_content_size flags); [rewrite (u32_small (src + 6 + 8)) by lia|].
    - destruct (Z.eq_dec n 15) as [En|]; [|rewrite u32_small by lia; lia].
      pose proof (decode_blocks_length _ _ _ _ _ _ _ H) as Hr4. rewrite length_drop in Hr4. lia.
    - rewrite u32_small by lia. lia. }
  rewrite Einp. assert (Hhs : 7 <= hs <= 15) by (rewrite Ehs; destruct (has_content_size flags); lia).
  destruct (blocks_decoded src n dst cap inplace (has_block_checksum flags) Hs ltac:(lia) Hend Hd ltac:(lia) Hdend Hplace
    (length raw) (S (Z.to_nat n)) m (src + hs) [] (drop (Z.to_nat hs) raw) out) as (m' & E & R1 & R2); try done; try lia.
  - rewrite <- (take_drop (Z.to_nat hs) raw) in Hraw. apply at_mem_app in Hraw as [_ Hraw]. rewrite length_take in Hraw.
    by replace (src + Z.of_nat (Z.to_nat hs `min` length raw)) with (src + hs) in Hraw by lia.
  - intros i Hi. cbn in Hi. lia.
  - rewrite length_drop. lia.
  - by apply Forall_drop.
  - rewrite length_drop. lia.
  - cbn [length] in E. rewrite Z.add_0_r in E. rewrite E. by exists m'.
Qed.

(** ** What the reference gives fits the buffer *)

Lemma decode_one_size inplace tail room out l out' r : len out <= room ->
  decode_one inplace tail room out l = Some (out', r) -> len out' <= room.
Proof.
  intros Hlen H. unfold decode_one in H. destruct l as [|t l]; [done|]. destruct (inplace && _); [done|].
  destruct (decode_len _ l) as [[n l1]|]; [|done]. destruct ((len l1 <? n) || _) eqn:Eg; [done|]. bool_to_prop.
  destruct (Z.eqb_spec (len l1) n).
  - destruct (t mod 16 =? 0); [|done]. injection H as <- <-. rewrite length_app. lia.
  - destruct ((len l1 <? n + 8) || _) eqn:En; [done|]. bool_to_prop. unfold decode_match in H.
    destruct (drop (Z.to_nat n) l1) as [|lo [|hi l2]]; [done|done|].
    destruct (decode_len _ l2) as [[k l3]|]; [|done].
    destruct ((lo + 256 * hi =? 0) || _ || (room - 5 <? _) || _) eqn:Ec; [done|]. bool_to_prop. injection H as <- <-.
    rewrite copy_back_length. rewrite length_app, length_take in *. lia.
Qed.

Lemma decode_sequences_size inplace tail room n : forall out l out', len out <= room ->
  decode_sequences inplace tail room n out l = Some out' -> len out' <= room.
Proof.
  induction n as [|n IH]; intros out l out' Hlen H; [done|]. cbn in H.
  destruct (decode_one inplace tail room out l) as [[out1 r]|] eqn:E; [|done].
  pose proof (decode_one_size _ _ _ _ _ _ _ Hlen E). destruct r; [by eapply IH|by injection H as <-].
Qed.

Lemma decode_blocks_size inplace checksums cap n : forall out l out', len out <= cap ->
  decode_blocks inplace checksums cap n out l = Some out' -> len out' <= cap.
Proof.
  induction n as [|n IH]; intros out l out' Hlen H; [done|]. cbn [decode_blocks] in H. cbv zeta in H.
  set (size := block_size (le32 l 0)) in *. destruct ((len l <? 4) || _); [done|]. destruct (size =? 0); [by injection H as <-|].
  destruct (not_compressed _).
  - destruct ((cap <? len out + size) || _) eqn:Ec; [done|]. bool_to_prop. eapply IH; [|exact H].
    pose proof (block_size_range (le32 l 0)) as Hs. fold size in Hs. rewrite length_app, length_take. lia.
  - destruct (decode_block _ _ _ _) as [b|] eqn:Eb; [|done]. eapply IH; [|exact H].
    apply decode_sequences_size in Eb; [|cbn; lia]. rewrite length_app. lia.
Qed.

Lemma decode_frame_size inplace raw cap out : decode_frame inplace raw cap = Some out -> len out <= cap.
Proof.
  unfold decode_frame. destruct ((cap <? 0) || _ || _ || _ || _) eqn:Eg; [done|]. bool_to_prop.
  apply decode_blocks_size. cbn. lia.
Qed.

(** What the loaders need of a decompressor. *)
#[export] Instance lz4_decompressor : Decompressor ulz4fn (decode_frame true).
Proof.
  split; [intros raw cap out; apply decode_frame_size|].
  intros m src n dst cap out Hs Hn Hend Hd Hdend H Hplace.
  destruct (frame_decoded m src n dst cap true out Hs Hn Hend Hd Hdend) as (m' & E & H1 & H2); [intuition|done|].
  exists m'. split; [done|]. split; [exact H1|exact H2].
Qed.

(** C13.  [ulz4fn] decodes a frame as the format says: for every frame the reference
    decoder accepts, placed at the end of the output buffer or apart from it, it returns
    the size of the contents and leaves the contents at [dst], although it writes eight
    bytes at a time and beyond the end of each run; no byte outside the buffer is
    changed. *)
Theorem ulz4fn_correct m src n dst cap inplace out : 0 <= src -> 0 <= n -> src + n <= 2 ^ 32 -> 0 <= dst -> dst + cap < 2 ^ 32 ->
  (inplace = true /\ src + n = dst + cap) \/ src + n <= dst \/ dst + cap <= src ->
  decode_frame inplace (load m src n) cap = Some out ->
  exists m', ulz4fn m src n dst cap = (len out, m') /\
    (forall i, 0 <= i < len out -> m' (dst + i) = nth (Z.to_nat i) out 0) /\
    (forall x, 0 <= x < 2 ^ 32 -> ~ (dst <= x < dst + cap) -> m' x = m x).
Proof. apply frame_decoded. Qed.
