(* ===== verification/Lz4Roundtrip.v ===== *)
(** * What is packed is unpacked

    Frames written from sequences and plain blocks ([write_frame] of [Lz4Format]) are
    read back by the reference decoder and by [ulz4fn]. *)

From S2P Require Import Prelude Region Bytes CbfsLoad Memory Lz4 Lz4Format Lz4Copy Lz4Correct.

Set Default Proof Using "Type".

(** ** Lengths *)

Lemma ext_len_repeat q r acc l : r <> 255 -> ext_len acc (repeat 255 q ++ [r] ++ l) = Some (acc + 255 * Z.of_nat q + r, l).
Proof.
  intros Hr. revert acc. induction q as [|q IH]; intros acc; cbn [repeat app ext_len].
  - rewrite (proj2 (Z.eqb_neq _ _)) by done. do 2 f_equal. lia.
  - rewrite Z.eqb_refl. rewrite IH. do 2 f_equal. lia.
Qed.

Lemma nibble_range n : 0 <= n -> 0 <= nibble n < 16.
Proof. unfold nibble. lia. Qed.

Lemma decode_len_more n l : 0 <= n -> decode_len (nibble n) (more_bytes n ++ l) = Some (n, l).
Proof.
  intros Hn. unfold decode_len, more_bytes, nibble. destruct (Z.ltb_spec n 15).
  - rewrite Z.min_l, (proj2 (Z.eqb_neq _ _)) by lia. done.
  - rewrite Z.min_r, Z.eqb_refl by lia. pose proof (Z.mod_pos_bound (n - 15) 255 ltac:(lia)).
    rewrite <- app_assoc, ext_len_repeat by lia. pose proof (Z.div_mod (n - 15) 255 ltac:(lia)).
    pose proof (Z.div_pos (n - 15) 255 ltac:(lia) ltac:(lia)). rewrite Z2Nat.id by lia. do 2 f_equal. lia.
Qed.

Lemma token_parts a b : 0 <= a < 16 -> 0 <= b < 16 -> (16 * a + b) / 16 = a /\ (16 * a + b) mod 16 = b.
Proof. intros. Z.to_euclidean_division_equations. lia. Qed.

(** ** A block *)

Lemma expand_one_length out q : 0 <= seq_match q ->
  len (expand_one out q) = len out + len (seq_literals q) + seq_match q.
Proof. intros H. unfold expand_one. rewrite copy_back_length, length_app. lia. Qed.

Lemma end_of_block last : forall qs q out, sequences_ok last out (q :: qs) ->
  5 <= len last /\ len (expand_one out q) + 12 <= len (fold_left expand_one (q :: qs) out ++ last) + seq_match q /\
  len (expand_one out q) + 5 <= len (fold_left expand_one (q :: qs) out ++ last).
Proof.
  induction qs as [|q' qs IH]; intros q out (_ & Hk & _ & Hend & Hok).
  - cbn [fold_left]. rewrite length_app. lia.
  - destruct (IH q' (expand_one out q) Hok) as (H5 & _ & Hl). cbn [fold_left] in *. destruct Hok as (_ & Hk' & _).
    rewrite (expand_one_length _ q') in Hl by lia. lia.
Qed.

Section Block.
Context (tail room : Z) (last : list Z).

Lemma decode_last out : Forall is_byte last -> len out + len last <= room ->
  decode_one false tail room out ([16 * nibble (len last)] ++ more_bytes (len last) ++ last) = Some (out ++ last, None).
Proof.
  intros Hb Hr. cbn [app decode_one andb]. rewrite <- (Z.add_0_r (16 * _)).
  destruct (token_parts (nibble (len last)) 0 (nibble_range (len last) ltac:(lia)) ltac:(lia)) as [-> ->].
  rewrite decode_len_more by lia. rewrite (proj2 (Z.ltb_ge (len last) _)), (proj2 (Z.ltb_ge room _)), Z.eqb_refl by lia. done.
Qed.

Lemma decode_sequence q out l : Forall is_byte (seq_literals q) -> 4 <= seq_match q ->
  1 <= seq_offset q <= Z.min 65535 (len out + len (seq_literals q)) -> 6 <= len l ->
  len (expand_one out q) + 5 <= room -> len out + len (seq_literals q) + 12 <= room ->
  decode_one false tail room out (encode_one q ++ l) = Some (expand_one out q, Some l).
Proof.
  intros Hb Hk Ho Hl H5 H12. rewrite expand_one_length in H5 by lia. unfold encode_one.
  set (n := len (seq_literals q)) in *. set (k := seq_match q - 4) in *. rewrite <- !app_assoc. cbn [app decode_one andb].
  destruct (token_parts (nibble n) (nibble k) (nibble_range n ltac:(lia)) (nibble_range k ltac:(lia))) as [-> Et].
  rewrite decode_len_more by lia.
  assert (Hlen : len (seq_literals q ++ seq_offset q mod 256 :: seq_offset q / 256 :: more_bytes k ++ l) = n + 2 + len (more_bytes k) + len l).
  { rewrite length_app. cbn [length]. rewrite length_app. lia. }
  rewrite Hlen. rewrite (proj2 (Z.ltb_ge _ n)), (proj2 (Z.ltb_ge room _)), (proj2 (Z.eqb_neq _ n)) by lia.
  rewrite (proj2 (Z.ltb_ge _ (n + 8))), (proj2 (Z.ltb_ge (room - 12) _)) by lia. cbn [orb].
  rewrite take_app_length', drop_app_length' by lia. unfold decode_match. rewrite Et, decode_len_more by lia.
  pose proof (Z.div_mod (seq_offset q) 256 ltac:(lia)). replace (seq_offset q mod 256 + 256 * (seq_offset q / 256)) with (seq_offset q) by lia.
  rewrite (proj2 (Z.eqb_neq _ 0)) by lia. rewrite length_app. rewrite !(proj2 (Z.ltb_ge _ _)) by lia. cbn [orb].
  replace (k + 4) with (seq_match q) by lia. done.
Qed.

Lemma decode_encoded : Forall is_byte last -> forall qs out fuel, sequences_ok last out qs ->
  len (fold_left expand_one qs out ++ last) <= room -> (length qs < fuel)%nat ->
  decode_sequences false tail room fuel out (encode_block qs last) = Some (fold_left expand_one qs out ++ last).
Proof.
  intros Hb. unfold encode_block. induction qs as [|q qs IH]; intros out fuel Hok Hr Hf; (destruct fuel as [|fuel]; [lia|]).
  - cbn [flat_map app fold_left] in *. rewrite length_app in Hr. cbn [decode_sequences].
    pose proof (decode_last out Hb ltac:(lia)) as E. cbn [app] in E. by rewrite E.
  - destruct (end_of_block last qs q out Hok) as (H5 & H12 & Hend). destruct Hok as (Hl & Hk & Ho & _ & Hok).
    cbn [flat_map decode_sequences]. rewrite <- app_assoc.
    rewrite decode_sequence; try done; try lia.
    + apply IH; [done|done|cbn in Hf; lia].
    + rewrite !length_app. cbn. lia.
    + rewrite expand_one_length in H12 by lia. lia.
Qed.
End Block.

Lemma encode_one_pos q : (0 < length (encode_one q))%nat.
Proof. unfold encode_one. cbn. lia. Qed.

Lemma encode_block_fuel qs last : (length qs < length (encode_block qs last))%nat.
Proof.
  unfold encode_block. rewrite length_app. cbn [length app].
  enough (length qs <= length (flat_map encode_one qs))%nat by lia.
  induction qs as [|q qs IH]; [done|]. cbn [flat_map length]. rewrite length_app. pose proof (encode_one_pos q). lia.
Qed.

Lemma decode_written_block tail room qs last : block_ok qs last -> len (expand qs last) <= room ->
  decode_block false tail room (encode_block qs last) = Some (expand qs last).
Proof. intros [Hb Hok] Hr. apply decode_encoded; [done..|]. apply encode_block_fuel. Qed.

(** ** A frame *)

Lemma le4_length v : length (le4 v) = 4%nat.
Proof. done. Qed.

Lemma le4_value v l : 0 <= v < 2 ^ 32 -> le32 (le4 v ++ l) 0 = v.
Proof.
  intros Hv. unfold le4. cbn [map seq app].
  change (le32 (u8 (Z.shiftr v (8 * Z.of_nat 0)) :: _) 0) with
    (Z.lor (Z.lor (u8 (Z.shiftr v 0)) (Z.shiftl (u8 (Z.shiftr v 8)) 8))
       (Z.shiftl (Z.lor (u8 (Z.shiftr v 16)) (Z.shiftl (u8 (Z.shiftr v 24)) 8)) 16)).
  pose proof (wrap_range 8 v ltac:(lia)). pose proof (wrap_range 8 (v / 2 ^ 8) ltac:(lia)).
  pose proof (wrap_range 8 (v / 2 ^ 16) ltac:(lia)). pose proof (wrap_range 8 (v / 2 ^ 24) ltac:(lia)).
  rewrite !Z.shiftr_div_pow2, Z.div_1_r by lia. unfold u8.
  rewrite (Z.lor_comm (wrap 8 v)), (Z.lor_comm (wrap 8 (v / 2 ^ 16))), !lor_shiftl_add by lia.
  rewrite Z.lor_comm, lor_shiftl_add by lia. unfold wrap. Z.to_euclidean_division_equations. lia.
Qed.

Lemma le4_bytes v : Forall is_byte (le4 v).
Proof. unfold le4. apply List.Forall_forall. intros x (i & <- & _)%in_map_iff. apply (wrap_range 8). lia. Qed.

Lemma block_size_plain n : 0 <= n < 2 ^ 31 -> block_size n = n /\ block_size (2 ^ 31 + n) = n.
Proof.
  intros Hn. unfold block_size. change (2 ^ 31 - 1) with (Z.ones 31). rewrite !Z.land_ones by lia.
  split; Z.to_euclidean_division_equations; lia.
Qed.

Lemma not_compressed_bit n : 0 <= n < 2 ^ 31 -> not_compressed n = false /\ not_compressed (2 ^ 31 + n) = true.
Proof.
  intros Hn. unfold not_compressed. rewrite !Z.testbit_eqb by lia. split.
  - rewrite Z.div_small by lia. done.
  - replace ((2 ^ 31 + n) / 2 ^ 31) with 1 by (Z.to_euclidean_division_equations; lia). done.
Qed.

Section Frame.
Context (cap : Z).

Lemma decode_written bs : forall out fuel, Forall frame_block_ok bs -> len (out ++ flat_map contents bs) <= cap ->
  (length bs < fuel)%nat -> decode_blocks false false cap fuel out (flat_map write_block bs ++ le4 0) = Some (out ++ flat_map contents bs).
Proof.
  induction bs as [|b bs IH]; intros out fuel Hok Hcap Hf; (destruct fuel as [|fuel]; [lia|]).
  - cbn [flat_map app]. rewrite app_nil_r. done.
  - apply Forall_cons in Hok as [Hb Hok]. cbn [flat_map length] in *. rewrite <- app_assoc.
    set (l := flat_map write_block bs ++ le4 0) in *.
    assert (Hstep : forall v data, 0 <= v < 2 ^ 32 -> block_size v = len data -> len data <> 0 ->
      decode_blocks false false cap (S fuel) out ((le4 v ++ data) ++ l) =
        if not_compressed v then if cap <? len out + len data then None else decode_blocks false false cap fuel (out ++ data) l
        else match decode_block false (len l) (cap - len out) data with
             | None => None
             | Some b => decode_blocks false false cap fuel (out ++ b) l
             end).
    { intros v data Hv Hsz Hnz. rewrite <- app_assoc. cbn [decode_blocks]. rewrite le4_value, Hsz by done.
      rewrite (length_app (le4 v)), le4_length, (drop_app_length' (le4 v)) by done. rewrite Nat2Z.id, take_app_length, drop_app_length.
      rewrite (proj2 (Z.ltb_ge _ 4)), length_app, (proj2 (Z.ltb_ge _ (len data))), (proj2 (Z.eqb_neq _ 0)) by lia. cbn [orb andb].
      by rewrite orb_false_r. }
    rewrite !length_app in Hcap.
    destruct b as [qs last|data]; cbn [write_block contents frame_block_ok] in *.
    + destruct Hb as [Hb Hsz]. pose proof (encode_block_fuel qs last) as Hpos.
      rewrite Hstep; [|lia|by apply block_size_plain; lia|lia]. rewrite (proj1 (not_compressed_bit (len (encode_block qs last)) ltac:(lia))).
      rewrite decode_written_block by (done || lia). rewrite IH; [by rewrite app_assoc|done|rewrite !length_app; lia|lia].
    + destruct Hb as [Hb Hsz]. rewrite Hstep; [|lia|by apply block_size_plain; lia|lia].
      rewrite (proj2 (not_compressed_bit (len data) ltac:(lia))), (proj2 (Z.ltb_ge cap _)) by lia.
      rewrite IH; [by rewrite app_assoc|done|rewrite !length_app; lia|lia].
Qed.
End Frame.

Lemma block_bytes last : Forall is_byte last -> forall qs out, sequences_ok last out qs -> Forall is_byte (encode_block qs last).
Proof.
  intros Hl. assert (Hmore : forall n, 0 <= n -> Forall is_byte (more_bytes n)).
  { intros n Hn. unfold more_bytes. destruct (n <? 15); [constructor|]. apply Forall_app. split.
    - apply List.Forall_forall. intros x ->%repeat_spec. unfold is_byte. lia.
    - repeat constructor; Z.to_euclidean_division_equations; lia. }
  unfold encode_block. induction qs as [|q qs IH]; intros out Hok.
  - cbn [flat_map app]. constructor; [pose proof (nibble_range (len last)); unfold is_byte; lia|]. apply Forall_app. split; [apply Hmore; lia|done].
  - destruct Hok as (Hb & Hk & Ho & _ & Hok). cbn [flat_map]. rewrite <- app_assoc. apply Forall_app. split; [|by eapply IH].
    unfold encode_one. constructor; [pose proof (nibble_range (len (seq_literals q))); pose proof (nibble_range (seq_match q - 4)); unfold is_byte; lia|].
    repeat (apply Forall_app; split); try done; try (apply Hmore; lia).
    repeat constructor; unfold is_byte; Z.to_euclidean_division_equations; lia.
Qed.

Lemma frame_bytes bs : Forall frame_block_ok bs -> Forall is_byte (write_frame bs).
Proof.
  intros Hok. unfold write_frame. apply Forall_app. split; [apply le4_bytes|]. apply Forall_app. split; [by repeat constructor|].
  apply Forall_app. split; [|apply le4_bytes]. induction Hok as [|b bs Hb _ IH]; [constructor|]. cbn [flat_map]. apply Forall_app. split; [|done].
  destruct b as [qs last|data]; cbn [write_block frame_block_ok] in *; (apply Forall_app; split; [apply le4_bytes|]); [|apply Hb].
  destruct Hb as [[Hl Hq] _]. by eapply block_bytes.
Qed.

Lemma write_frame_length bs : bs <> [] -> Forall frame_block_ok bs -> 16 <= len (write_frame bs) /\
  (length bs < length (write_frame bs))%nat.
Proof.
  intros Hne Hok. unfold write_frame. rewrite !length_app, !le4_length. cbn [length].
  assert (H : (5 * length bs <= length (flat_map write_block bs))%nat); [|destruct bs; [done|cbn [length] in *; lia]].
  clear Hne. induction Hok as [|b bs Hb _ IH]; [done|]. cbn [flat_map length]. rewrite length_app.
  assert (5 <= length (write_block b))%nat; [|lia]. destruct b as [qs last|data]; cbn [write_block frame_block_ok] in *; rewrite ?length_app, ?le4_length in *.
  - pose proof (encode_block_fuel qs last). lia.
  - lia.
Qed.

Lemma written_frame bs cap : bs <> [] -> Forall frame_block_ok bs -> len (write_frame bs) < 2 ^ 31 ->
  len (flat_map contents bs) <= cap < 2 ^ 31 -> decode_frame false (write_frame bs) cap = Some (flat_map contents bs).
Proof.
  intros Hne Hok Hlen Hcap. destruct (write_frame_length bs Hne Hok) as [Hl Hf]. unfold decode_frame.
  assert (Hb : forallb (fun b => (0 <=? b) && (b <? 256)) (write_frame bs) = true).
  { pose proof (frame_bytes bs Hok) as Hb. rewrite List.Forall_forall in Hb. apply forallb_forall. intros x Hx.
    specialize (Hb x Hx). unfold is_byte in Hb. rewrite (proj2 (Z.leb_le _ _)), (proj2 (Z.ltb_lt _ _)) by lia. done. }
  assert (Hh : header_ok (write_frame bs) = true).
  { unfold header_ok. rewrite (proj2 (Z.leb_le 15 _)) by lia. unfold write_frame. rewrite le4_value by done. done. }
  rewrite Hb, Hh, (proj2 (Z.ltb_ge cap 0)), (proj2 (Z.leb_gt (2 ^ 31) cap)), (proj2 (Z.leb_gt (2 ^ 31) _)) by lia. cbn [negb orb].
  change (nth 4 (write_frame bs) 0) with 0x60. change (has_block_checksum 0x60) with false.
  change (drop (Z.to_nat (header_size (write_frame bs))) (write_frame bs)) with (flat_map write_block bs ++ le4 0).
  apply (decode_written cap bs [] _ Hok); [cbn [app]; lia|done].
Qed.

(** C15.  What was packed is unpacked: [ulz4fn] on a frame written from blocks, each a list of
    sequences within the format's rules or plain bytes, returns the size of the contents
    and leaves them at [dst], when they fit and the frame is apart from the buffer. *)
Theorem ulz4fn_roundtrip m src dst cap bs : bs <> [] -> Forall frame_block_ok bs ->
  let n := len (write_frame bs) in
  let out := flat_map contents bs in
  (forall i, 0 <= i < n -> m (src + i) = nth (Z.to_nat i) (write_frame bs) 0) ->
  0 <= src -> src + n <= 2 ^ 32 -> n < 2 ^ 31 -> 0 <= dst -> dst + cap < 2 ^ 32 -> len out <= cap < 2 ^ 31 ->
  src + n <= dst \/ dst + cap <= src ->
  exists m', ulz4fn m src n dst cap = (len out, m') /\ load m' dst (len out) = out /\
    (forall x, 0 <= x < 2 ^ 32 -> ~ (dst <= x < dst + cap) -> m' x = m x).
Proof.
  intros Hne Hok n out Hm Hs Hend Hn Hd Hdend Hcap Hplace.
  assert (Eraw : load m src n = write_frame bs).
  { rewrite (at_mem_load m src (write_frame bs)) by (done || lia). apply take_ge. unfold n. lia. }
  destruct (frame_decoded m src n dst cap false out) as (m' & E & H1 & H2); try done; try lia.
  { rewrite Eraw. by apply written_frame. }
  exists m'. split; [done|]. split; [|done].
  rewrite (at_mem_load m' dst out) by (done || lia). apply take_ge. lia.
Qed.

(** ** A small frame *)

(** Eight literals, four of them again, a run of thirty, a pattern of three bytes, and
    plain bytes. *)
Definition sample_frame : list frame_block :=
  [Packed [mk_sequence [1; 2; 3; 4; 5; 6; 7; 8] 8 4; mk_sequence [] 1 30; mk_sequence (repeat 9 20 ++ [7]) 3 300]
     [50; 51; 52; 53; 54; 55; 56; 57; 58; 59; 60; 61];
   Plain [1; 2; 3]].

Lemma sample_frame_ok : Forall frame_block_ok sample_frame.
Proof.
  repeat constructor; try (unfold is_byte; lia); try by vm_compute.
Qed.

Definition frame_memory : memory := fun x => nth (Z.to_nat (x - 0x1000)) (write_frame sample_frame) 0.

Lemma ulz4fn_roundtrip_witness :
  exists m', ulz4fn frame_memory 0x1000 (len (write_frame sample_frame)) 0x2000 0x1000 = (378, m') /\
    load m' 0x2000 378 = flat_map contents sample_frame.
Proof.
  destruct (ulz4fn_roundtrip frame_memory 0x1000 0x2000 0x1000 sample_frame) as (m' & E & H & _);
    [done|apply sample_frame_ok| |lia|by vm_compute|by vm_compute|lia|lia|by vm_compute|left; by vm_compute|].
  { intros i Hi. unfold frame_memory. f_equal. lia. }
  replace (len (flat_map contents sample_frame)) with 378 in * by (by vm_compute). exists m'. split; [exact E|exact H].
Defined.

(** In place, at the end of a buffer of 400 bytes. *)
Definition inplace_memory : memory := fun x => nth (Z.to_nat (x - 0x2143)) (write_frame sample_frame) 0.

Lemma ulz4fn_correct_witness :
  exists m', ulz4fn inplace_memory 0x2143 77 0x2000 400 = (378, m') /\
    map (fun i => m' (0x2000 + Z.of_nat i)) (seq 0 378) = flat_map contents sample_frame.
Proof.
  assert (D : decode_frame true (load inplace_memory 0x2143 77) 400 = Some (flat_map contents sample_frame)) by (by vm_compute).
  destruct (ulz4fn_correct inplace_memory 0x2143 77 0x2000 400 true _ ltac:(lia) ltac:(lia) ltac:(lia) ltac:(lia) ltac:(lia)
    ltac:(left; split; [done|lia]) D) as (m' & E & H & _).
  assert (L : len (flat_map contents sample_frame) = 378) by (by vm_compute). rewrite L in E, H.
  exists m'. split; [exact E|].
  rewrite (map_ext_in _ (fun i => nth i (flat_map contents sample_frame) 0)); [by vm_compute|].
  intros i Hi%in_seq. rewrite H by lia. by rewrite Nat2Z.id.
Defined.

(** The decoder tests that the output is eight bytes behind the input, but a match of four
    bytes is copied in sixteen: up to four bytes of the input that is still to be read are
    overwritten.  Here the frame is sound, the test passes, the size is right, and the
    first literals of the last sequence are lost. *)
Definition clobbered_frame : list frame_block :=
  [Packed [mk_sequence [1; 2; 3; 4; 5; 6; 0xc0; 8] 8 4] [50; 51; 52; 53; 54; 55; 56; 57; 58; 59; 60; 61]].
Definition clobbered_memory : memory :=
  fun x => if within 0x2000 0x2027 x then nth (Z.to_nat (x - 0x2000)) (write_frame clobbered_frame) 0 else 0.

Lemma clobbered_frame_ok : Forall frame_block_ok clobbered_frame.
Proof. repeat constructor; try (unfold is_byte; lia); by vm_compute. Qed.

Theorem ulz4fn_clobbers :
  Forall frame_block_ok clobbered_frame /\ load clobbered_memory 0x2000 39 = write_frame clobbered_frame /\
  len (flat_map contents clobbered_frame) = 24 /\ nth 12 (flat_map contents clobbered_frame) 0 = 50 /\
  fst (ulz4fn clobbered_memory 0x2000 39 0x2000 39) = 24 /\
  snd (ulz4fn clobbered_memory 0x2000 39 0x2000 39) (0x2000 + 12) = 8.
Proof. split; [apply clobbered_frame_ok|]. repeat split; by vm_compute. Qed.
