(* ===== verification/Lz4Safe.v ===== *)
(** * The LZ4 decoder on any input

    Whatever bytes it is given, and however source and destination overlap, [ulz4fn] of
    [Lz4] ends, returns no more than the size of the buffer and writes nothing outside of
    it. *)

From S2P Require Import Prelude Region Bytes CbfsLoad Memory Lz4 Lz4Copy.

Set Default Proof Using "Type".
Notation mem_bytes m := (forall x, is_byte (m x)).

(** ** What each copy writes, from any source *)

(** [m'] differs from [m] only in [lo, hi), and still holds bytes. *)
Definition writes (lo hi : Z) (m m' : memory) : Prop := kept_outside lo hi m m' /\ (mem_bytes m -> mem_bytes m').

Lemma writes_refl lo hi m : writes lo hi m m.
Proof. by split. Qed.

Lemma writes_trans lo hi m1 m2 m3 : writes lo hi m1 m2 -> writes lo hi m2 m3 -> writes lo hi m1 m3.
Proof. intros [H1 B1] [H2 B2]. split; [by eapply kept_outside_trans|auto]. Qed.

Lemma writes_weaken lo hi lo' hi' m m' : writes lo hi m m' -> lo' <= lo -> hi <= hi' -> writes lo' hi' m m'.
Proof. intros [H B] ? ?. split; [by eapply kept_outside_weaken|done]. Qed.

Lemma put_writes lo hi m a s : lo <= a < hi -> writes lo hi m (put m a (m s)).
Proof.
  intros Ha. split.
  - intros x Hx Hn. by rewrite put_spec, (proj2 (Z.eqb_neq _ _)) by lia.
  - intros Hb x. rewrite put_spec. destruct (x =? a); apply Hb.
Qed.

Lemma memcpy_writes m d s n : 0 <= d -> 0 <= n -> d + n <= 2 ^ 32 -> writes d (d + n) m (memcpy m d s n).
Proof.
  intros Hd Hn He. unfold memcpy. split.
  - intros x Hx Ho. rewrite store_spec by (rewrite ?load_length; lia). rewrite load_length, Z2Nat.id by lia.
    destruct ((d <=? x) && (x <? d + n)) eqn:E; [bool_to_prop; lia|done].
  - intros Hb x. unfold store. case_bool; [|apply Hb]. unfold load.
    destruct (nth_in_or_default (Z.to_nat (u32 (x - d))) (map (fun i => m (u32 (s + Z.of_nat i))) (seq 0 (Z.to_nat n))) 0) as [Hin| ->];
      [|unfold is_byte; lia]. apply in_map_iff in Hin as (i & <- & _). apply Hb.
Qed.

Lemma copy_bytes_writes n : forall m d s, 0 <= d -> d + Z.of_nat n < 2 ^ 32 -> writes d (d + Z.of_nat n) m (copy_bytes n m d s).
Proof.
  induction n as [|n IH]; intros m d s Hd He; [apply writes_refl|]. cbn [copy_bytes]. rewrite (u32_small (d + 1)) by lia.
  apply (writes_trans _ _ _ (put m d (m s))); [apply put_writes; lia|]. eapply writes_weaken; [apply IH; lia|lia|lia].
Qed.

Lemma wild_writes fuel : forall m d s e, 0 <= d -> wild_end d e < 2 ^ 32 -> writes d (wild_end d e) m (wild_loop fuel m d s e).
Proof.
  unfold wild_end. induction fuel as [|fuel IH]; intros m d s e Hd He; cbn [wild_loop].
  - eapply writes_weaken; [apply memcpy_writes; lia|lia|lia].
  - rewrite (u32_small (d + 8)) by lia. apply (writes_trans _ _ _ (LZ4_copy8 m d s)).
    { eapply writes_weaken; [apply (memcpy_writes m d s 8); lia|lia|lia]. } destruct (Z.ltb_spec (d + 8) e); [|apply writes_refl].
    eapply writes_weaken; [apply IH; lia|lia|lia].
Qed.

Lemma copy_start_writes m op mtch offset : 0 <= op -> op + 8 < 2 ^ 32 -> writes op (op + 8) m (fst (copy_start m op mtch offset)).
Proof.
  intros Hop He. unfold copy_start. destruct (offset <? 8); cbn [fst]; [|apply memcpy_writes; lia].
  rewrite (u32_small (op + 1)), (u32_small (op + 2)), (u32_small (op + 3)), (u32_small (op + 4)) by lia. cbv zeta.
  set (m1 := put m op (m mtch)). set (m2 := put m1 (op + 1) _). set (m3 := put m2 (op + 2) _). set (m4 := put m3 (op + 3) _).
  apply (writes_trans _ _ _ m1); [apply put_writes; lia|]. apply (writes_trans _ _ _ m2); [apply put_writes; lia|].
  apply (writes_trans _ _ _ m3); [apply put_writes; lia|]. apply (writes_trans _ _ _ m4); [apply put_writes; lia|].
  eapply writes_weaken; [apply memcpy_writes; lia|lia|lia].
Qed.

Lemma copy_rest_writes m op mtch cpy oend : 12 <= oend < 2 ^ 32 -> 8 <= op <= oend - 4 -> op - 4 <= cpy < 2 ^ 32 ->
  writes op oend m (snd (copy_rest m op mtch cpy oend)) /\ (fst (copy_rest m op mtch cpy oend) = true -> cpy <= oend - 5).
Proof.
  intros Hoend Hop Hcpy. unfold copy_rest. change WILDCOPYLENGTH with 8. change LASTLITERALS with 5.
  rewrite (u32_small (oend - 12)), (u32_small (oend - (8 - 1))), (u32_small (oend - 5)) by lia.
  destruct (Z.ltb_spec (oend - 12) cpy).
  - destruct (Z.ltb_spec (oend - 5) cpy); [split; [apply writes_refl|done]|].
    destruct (Z.ltb_spec op (oend - (8 - 1))) as [Hw|Hw]; cbn [fst snd]; (split; [|lia]).
    + apply (writes_trans _ _ _ (LZ4_wildCopy m op mtch (oend - (8 - 1)))).
      * eapply writes_weaken; [apply wild_writes; unfold wild_end; lia|lia|unfold wild_end; lia].
      * destruct (Z.le_gt_cases cpy (oend - (8 - 1))).
        -- replace (Z.to_nat (cpy - (oend - (8 - 1)))) with 0%nat by lia. apply writes_refl.
        -- eapply writes_weaken; [apply copy_bytes_writes; lia|lia|lia].
    + destruct (Z.le_gt_cases cpy op); [replace (Z.to_nat (cpy - op)) with 0%nat by lia; apply writes_refl|].
      eapply writes_weaken; [apply copy_bytes_writes; lia|lia|lia].
  - cbn [fst snd]. split; [|lia]. eapply writes_weaken; [apply wild_writes; unfold wild_end; lia|lia|unfold wild_end; lia].
Qed.

(** ** Lengths *)

Lemma literal_length_ends m iend : mem_bytes m -> 16 <= iend -> iend + 16 <= 2 ^ 32 -> forall fuel ip length,
  0 <= ip <= iend -> 0 <= length -> length + 255 * (iend - ip + 1) < 2 ^ 32 -> iend - ip < Z.of_nat fuel ->
  exists ip' length', literal_length fuel m ip length iend = Some (ip', length') /\ ip < ip' <= iend + 1 /\
    0 <= length' <= length + 255 * (ip' - ip).
Proof.
  intros Hb Hi Hi'. induction fuel as [|fuel IH]; intros ip length Hip Hl Hlen Hf; [lia|]. cbn [literal_length].
  pose proof (Hb ip) as Hs. unfold is_byte in Hs. change RUN_MASK with 15.
  rewrite (u32_small (ip + 1)), (u32_small (iend - 15)), (u32_small (length + m ip)) by lia.
  destruct ((ip + 1 <? iend - 15) && (m ip =? 255)) eqn:E.
  - bool_to_prop. destruct (IH (ip + 1) (length + m ip)) as (ip' & l' & -> & B1 & B2); [lia..|]. exists ip', l'. split; [done|lia].
  - eexists _, _. split; [reflexivity|]. lia.
Qed.

Lemma match_length_ends m iend : mem_bytes m -> 16 <= iend -> iend + 16 <= 2 ^ 32 -> forall fuel ip length,
  0 <= ip <= iend -> 0 <= length -> length + 255 * (iend - ip) < 2 ^ 32 -> iend - ip < Z.of_nat fuel ->
  exists ip' r, match_length fuel m ip length iend = Some (ip', r) /\ ip <= ip' <= iend /\
    forall length', r = Some length' -> ip' <= iend - 4 /\ 0 <= length' <= length + 255 * (ip' - ip).
Proof.
  intros Hb Hi Hi'. induction fuel as [|fuel IH]; intros ip length Hip Hl Hlen Hf; [lia|]. cbn [match_length].
  pose proof (Hb ip) as Hs. unfold is_byte in Hs. change LASTLITERALS with 5.
  rewrite (u32_small (iend - 5)) by lia. destruct (Z.ltb_spec (iend - 5) ip).
  - eexists _, _. split; [reflexivity|]. split; [lia|done].
  - rewrite (u32_small (ip + 1)), (u32_small (length + m ip)) by lia. destruct (m ip =? 255).
    + destruct (IH (ip + 1) (length + m ip)) as (ip' & r & -> & B1 & B2); [lia..|]. exists ip', r. split; [done|].
      split; [lia|]. intros l' E. destruct (B2 l' E). lia.
    + eexists _, _. split; [reflexivity|]. split; [lia|]. intros l' [= <-]. lia.
Qed.

(** ** A block *)

Section Block.
Context (source iend dest oend : Z) (ipd : bool).
Hypotheses (Hsrc : 16 <= source <= iend) (Hiend : iend + 16 <= 2 ^ 32) (Hsize : iend - source <= 2 ^ 23)
  (Hdest : 12 <= dest <= oend) (Hoend : oend <= 2 ^ 31).

(** Where the decoder may be after a step that began at [ip]. *)
Definition bounded (m : memory) (ip : Z) (p : progress) : Prop :=
  match p with
  | More m' ip' op' => ip < ip' < iend /\ dest <= op' <= oend /\ writes dest oend m m'
  | Finished m' _ op' => dest <= op' <= oend /\ writes dest oend m m'
  | Failed m' ip' => source <= ip' <= iend + 1 /\ writes dest oend m m'
  end.

Lemma bounded_later m m' ip ip' p : writes dest oend m m' -> ip <= ip' -> bounded m' ip' p -> bounded m ip p.
Proof.
  intros Hw Hip Hp. destruct p; cbn in *.
  - destruct Hp as (? & ? & ?). split; [lia|]. split; [done|by eapply writes_trans].
  - destruct Hp as (? & ?). split; [done|by eapply writes_trans].
  - destruct Hp as (? & ?). split; [done|by eapply writes_trans].
Qed.

Lemma match_bounded fuel m token ip op : mem_bytes m -> source <= ip <= iend - 8 -> dest <= op <= oend - 12 ->
  iend - ip < Z.of_nat fuel -> exists p, match_step iend dest oend fuel m token ip op = Some p /\ bounded m ip p.
Proof using Hsrc Hiend Hsize Hdest Hoend.
  intros Hb Hip Hop Hf. unfold match_step. set (offset := LZ4_readLE16 m ip). rewrite (u32_small (ip + 2)) by lia.
  destruct (u32 (op - offset) <? dest).
  { eexists. split; [reflexivity|]. cbn. split; [lia|apply writes_refl]. }
  assert (Hmask : 0 <= Z.land token ML_MASK <= 15).
  { change ML_MASK with (Z.ones 4). rewrite Z.land_ones by lia. pose proof (Z.mod_pos_bound token (2 ^ 4) ltac:(lia)). lia. }
  assert (Hcopy : forall ip' length, ip < ip' < iend -> 0 <= length <= 2 ^ 32 - 2 ^ 31 - 16 -> bounded m ip
    (let length := u32 (length + MINMATCH) in
     let cpy := u32 (op + length) in
     let '(m, mtch) := copy_start m op (u32 (op - offset)) offset in
     let '(ok, m) := copy_rest m (u32 (op + 8)) mtch cpy oend in
     if ok then More m ip' cpy else Failed m ip')).
  { intros ip' length Hip' Hl. change MINMATCH with 4. cbv zeta.
    rewrite (u32_small (length + 4)), (u32_small (op + 8)), (u32_small (op + (length + 4))) by lia.
    pose proof (copy_start_writes m op (u32 (op - offset)) offset ltac:(lia) ltac:(lia)) as Hw1.
    destruct (copy_start m op (u32 (op - offset)) offset) as [m1 mtch]. cbn [fst] in Hw1.
    destruct (copy_rest_writes m1 (op + 8) mtch (op + (length + 4)) oend) as [Hw2 Hok]; [lia..|].
    destruct (copy_rest m1 (op + 8) mtch (op + (length + 4)) oend) as [ok m2]. cbn [fst snd] in *.
    assert (Hw : writes dest oend m m2).
    { eapply writes_trans; [eapply writes_weaken; [exact Hw1|lia|lia]|eapply writes_weaken; [exact Hw2|lia|lia]]. }
    destruct ok; cbn; [specialize (Hok eq_refl)|]; (split; [lia|]); [split; [lia|done]|done]. }
  destruct (Z.land token ML_MASK =? ML_MASK).
  - destruct (match_length_ends m iend Hb ltac:(lia) Hiend fuel (ip + 2) (Z.land token ML_MASK)) as (ip' & r & -> & B1 & B2); [lia..|].
    destruct r as [length|]; [|eexists; split; [reflexivity|]; cbn; split; [lia|apply writes_refl]].
    destruct (B2 length eq_refl). destruct (u32 (op + length) <? op).
    + eexists. split; [reflexivity|]. cbn. split; [lia|apply writes_refl].
    + eexists. split; [reflexivity|]. apply Hcopy; lia.
  - eexists. split; [reflexivity|]. apply Hcopy; lia.
Qed.

Lemma literal_bounded fuel m token ip op length : mem_bytes m -> source <= ip <= iend + 1 -> dest <= op <= oend ->
  0 <= length < 2 ^ 31 -> ip + length < 2 ^ 32 -> iend - ip < Z.of_nat fuel ->
  exists p, literal_step iend dest oend fuel m token ip op length = Some p /\ bounded m (ip - 1) p.
Proof using Hsrc Hiend Hsize Hdest Hoend.
  intros Hb Hip Hop Hl Hipl Hf. unfold literal_step. change MFLIMIT with 12. change (2 + 1 + LASTLITERALS) with 8.
  rewrite (u32_small (oend - 12)), (u32_small (iend - 8)), (u32_small (op + length)), (u32_small (ip + length)) by lia.
  destruct ((oend - 12 <? op + length) || (iend - 8 <? ip + length)) eqn:E.
  - destruct (negb (ip + length =? iend) || (oend <? op + length)) eqn:E2.
    + eexists. split; [reflexivity|]. cbn. split; [lia|apply writes_refl].
    + bool_to_prop. eexists. split; [reflexivity|]. cbn. split; [lia|].
      eapply writes_weaken; [apply (memcpy_writes m op ip length); lia|lia|lia].
  - bool_to_prop. assert (Hw : writes dest oend m (LZ4_wildCopy m op ip (op + length))).
    { eapply writes_weaken; [apply wild_writes; unfold wild_end; lia|lia|unfold wild_end; lia]. }
    destruct (match_bounded fuel (LZ4_wildCopy m op ip (op + length)) token (ip + length) (op + length)) as (p & -> & Hp);
      [by apply Hw|lia..|]. exists p. split; [done|]. eapply bounded_later; [exact Hw| |exact Hp]. lia.
Qed.

Lemma sequence_bounded fuel m ip op : mem_bytes m -> source <= ip < iend -> dest <= op <= oend -> iend - ip < Z.of_nat fuel ->
  exists p, sequence_step iend dest oend ipd fuel m ip op = Some p /\ bounded m ip p.
Proof using Hsrc Hiend Hsize Hdest Hoend.
  intros Hb Hip Hop Hf. unfold sequence_step. destruct (ipd && _).
  { eexists. split; [reflexivity|]. cbn. split; [lia|apply writes_refl]. }
  pose proof (Hb ip) as Ht. unfold is_byte in Ht. rewrite (u32_small (ip + 1)) by lia.
  unfold ML_BITS. rewrite Z.shiftr_div_pow2 by lia. set (length := m ip / 2 ^ 4).
  assert (0 <= length < 16) by (unfold length; Z.to_euclidean_division_equations; lia).
  destruct (length =? RUN_MASK).
  - destruct (literal_length_ends m iend Hb ltac:(lia) Hiend fuel (ip + 1) length) as (ip' & l' & -> & B1 & B2); [lia..|].
    destruct (u32 (op + l') <? op); [eexists; split; [reflexivity|]; cbn; split; [lia|apply writes_refl]|].
    destruct (Z.ltb_spec (u32 (ip' + l')) ip') as [Hov|Hov]; [eexists; split; [reflexivity|]; cbn; split; [lia|apply writes_refl]|].
    assert (Hnw : ip' + l' < 2 ^ 32).
    { destruct (Z.lt_ge_cases (ip' + l') (2 ^ 32)); [done|]. exfalso. revert Hov. unfold u32, wrap.
      rewrite <- (Z.mod_add _ (-1)), Z.mod_small by lia. lia. }
    destruct (literal_bounded fuel m (m ip) ip' op l' Hb) as (p & -> & Hp); [lia..|]. exists p. split; [done|].
    eapply bounded_later; [apply writes_refl| |exact Hp]. lia.
  - destruct (literal_bounded fuel m (m ip) (ip + 1) op length Hb) as (p & -> & Hp); [lia..|]. exists p. split; [done|].
    by replace (ip + 1 - 1) with ip in Hp by lia.
Qed.

Lemma sequences_bounded fuel : forall m ip op, mem_bytes m -> source <= ip < iend -> dest <= op <= oend -> iend - ip < Z.of_nat fuel ->
  exists m', writes dest oend m m' /\
    ((exists ip' op', sequences iend dest oend ipd fuel m ip op = Some (Finished m' ip' op') /\ dest <= op' <= oend) \/
     (exists ip', sequences iend dest oend ipd fuel m ip op = Some (Failed m' ip') /\ source <= ip' <= iend + 1)).
Proof using Hsrc Hiend Hsize Hdest Hoend.
  induction fuel as [|fuel IH]; intros m ip op Hb Hip Hop Hf; [lia|]. cbn [sequences].
  destruct (sequence_bounded (S fuel) m ip op Hb Hip Hop Hf) as (p & -> & Hp). destruct p as [m1 ip1 op1|m1 ip1 op1|m1 ip1]; cbn in Hp.
  - destruct Hp as (Hip1 & Hop1 & Hw1). destruct (IH m1 ip1 op1) as (m' & Hw & H); [by apply Hw1|lia|done|lia|].
    exists m'. split; [by eapply writes_trans|done].
  - destruct Hp as (Hop1 & Hw1). exists m1. split; [done|]. left. eauto.
  - destruct Hp as (Hip1 & Hw1). exists m1. split; [done|]. right. eauto.
Qed.
End Block.

Lemma generic_bounded fuel m source dest size room : mem_bytes m -> 16 <= source -> 0 < size <= 2 ^ 23 -> source + size + 16 <= 2 ^ 32 ->
  12 <= dest -> 0 <= room -> dest + room <= 2 ^ 31 -> size < Z.of_nat fuel ->
  exists ret m', LZ4_decompress_generic fuel m source dest size room = Some (ret, m') /\ ret <= room /\
    writes dest (dest + room) m m'.
Proof.
  intros Hb Hs Hsz He Hd Hr Hdr Hf. unfold LZ4_decompress_generic. destruct (Z.eqb_spec room 0) as [-> |Hz].
  { eexists _, m. split; [reflexivity|]. split; [case_bool; lia|apply writes_refl]. }
  rewrite (u32_small (source + size)), (u32_small (dest + room)) by lia.
  destruct (sequences_bounded source (source + size) dest (dest + room) ((dest <=? source) && (source <? dest + room))
    ltac:(lia) ltac:(lia) ltac:(lia) ltac:(lia) Hdr fuel m source dest Hb ltac:(lia) ltac:(lia) ltac:(lia))
    as (m' & Hw & [(ip & op & -> & Hop)|(ip & -> & Hip)]); eexists _, m'; (split; [reflexivity|]); (split; [|done]).
  - rewrite s32_small by lia. lia.
  - rewrite (s32_small (ip - source)), s32_small by lia. lia.
Qed.

(** ** A frame *)

Section Frame.
Context (src n dst cap : Z) (checksums : bool).
Hypotheses (Hsrc : 16 <= src) (Hn : 0 <= n <= 2 ^ 23) (Hend : src + n + 16 <= 2 ^ 32) (Hdst : 12 <= dst) (Hcap : 0 <= cap)
  (Hdend : dst + cap <= 2 ^ 31).

Lemma blocks_bounded fuel : forall m inp out, mem_bytes m -> src <= inp <= src + n + 8 -> dst <= out <= dst + cap ->
  (0 < fuel)%nat -> src + n - inp < Z.of_nat fuel ->
  exists r m', block_loop src n dst cap checksums fuel m inp out = Some (r, m') /\ 0 <= r <= cap /\ writes dst (dst + cap) m m'.
Proof using Hsrc Hn Hend Hdst Hcap Hdend.
  induction fuel as [|fuel IH]; intros m inp out Hb Hinp Hout Hf0 Hf; [lia|]. cbn [block_loop].
  set (raw := read_le32 m inp). pose proof (block_size_range raw) as Hs. set (size := block_size raw) in *.
  change sizeof_lz4_block_header with 4. rewrite (u32_small (inp + 4)), (u32_small (inp + 4 - src)), (u32_small (inp + 4 - src + size)) by lia.
  destruct (Z.ltb_spec n (inp + 4 - src + size)); [eexists _, m; split; [reflexivity|]; split; [lia|apply writes_refl]|].
  destruct (Z.eqb_spec size 0) as [E0|E0].
  { eexists _, m. split; [reflexivity|]. rewrite u32_small by lia. split; [lia|apply writes_refl]. }
  rewrite (u32_small (dst + cap)), (u32_small (dst + cap - out)), (u32_small (inp + 4 + size)) by lia.
  assert (Hgo : forall m1 out1, writes dst (dst + cap) m m1 -> dst <= out1 <= dst + cap ->
    exists r m', block_loop src n dst cap checksums fuel m1 (if checksums then u32 (inp + 4 + size + 4) else inp + 4 + size) out1 =
      Some (r, m') /\ 0 <= r <= cap /\ writes dst (dst + cap) m m').
  { intros m1 out1 Hw Ho1. rewrite (u32_small (inp + 4 + size + 4)) by lia.
    destruct (IH m1 (if checksums then inp + 4 + size + 4 else inp + 4 + size) out1) as (r & m' & E & Hr & Hw');
      [by apply Hw|destruct checksums; lia|done|lia|destruct checksums; lia|].
    exists r, m'. split; [done|]. split; [done|]. by eapply writes_trans. }
  destruct (not_compressed raw).
  - assert (Hw : writes dst (dst + cap) m (memcpy m out (inp + 4) (Z.min size (dst + cap - out)))).
    { eapply writes_weaken; [apply memcpy_writes; lia|lia|lia]. }
    case_bool; [eexists _, _; split; [reflexivity|]; split; [lia|done]|]. bool_to_prop.
    rewrite (u32_small (out + _)) by lia. apply Hgo; [done|lia].
  - rewrite !s32_small by lia.
    destruct (generic_bounded (S fuel) m (inp + 4) out size (dst + cap - out) Hb) as (ret & m1 & -> & Hret & Hw); [lia..|].
    assert (Hw' : writes dst (dst + cap) m m1) by (eapply writes_weaken; [exact Hw|lia|lia]).
    destruct (Z.ltb_spec ret 0); [eexists _, m1; split; [reflexivity|]; split; [lia|done]|].
    rewrite (u32_small (out + ret)) by lia. apply Hgo; [done|lia].
Qed.
End Frame.

(** C14.  For any bytes, damaged frames included, and any overlap of source and destination,
    [ulz4fn] ends, its result is at most the size of the buffer, and it changes no byte
    outside the buffer: for inputs of up to 8 MiB, the size of the flash, and buffers
    below 2 GiB. *)
Theorem ulz4fn_in_bounds m src n dst cap : mem_bytes m -> 16 <= src -> 0 <= n <= 2 ^ 23 -> src + n + 16 <= 2 ^ 32 ->
  12 <= dst -> 0 <= cap -> dst + cap <= 2 ^ 31 ->
  exists r m', ulz4fn_run (S (Z.to_nat n)) m src n dst cap = Some (r, m') /\ ulz4fn m src n dst cap = (r, m') /\
    0 <= r <= cap /\ (forall x, 0 <= x < 2 ^ 32 -> ~ (dst <= x < dst + cap) -> m' x = m x) /\ mem_bytes m'.
Proof.
  intros Hb Hs Hn He Hd Hc Hdc. unfold ulz4fn.
  assert (H : exists r m', ulz4fn_run (S (Z.to_nat n)) m src n dst cap = Some (r, m') /\ 0 <= r <= cap /\ writes dst (dst + cap) m m').
  { unfold ulz4fn_run. change sizeof_lz4_frame_header with 6.
    destruct (Z.ltb_spec n (6 + 8 + 1)); [eexists _, m; split; [reflexivity|]; split; [lia|apply writes_refl]|].
    repeat (case_bool; [eexists _, m; split; [reflexivity|]; split; [lia|apply writes_refl]|]).
    rewrite (u32_small (src + 6)), (u32_small (src + 6 + 8)) by lia.
    destruct (has_content_size (m (u32 (src + 4))));
      [rewrite (u32_small (src + 6 + 8 + 1)) by lia|rewrite (u32_small (src + 6 + 1)) by lia]; apply blocks_bounded; (done || lia). }
  destruct H as (r & m' & E & Hr & Hw & Hb'). exists r, m'. rewrite E. split; [done|]. split; [done|]. split; [done|]. split; [exact Hw|auto].
Qed.

(** A frame whose only block asks for 270 literals and more, at the place where it is
    unpacked. *)
Definition damaged_frame : list Z := [0x04; 0x22; 0x4d; 0x18; 0x60; 0x40; 0; 28; 0; 0; 0] ++ repeat 0xff 28.

Lemma ulz4fn_in_bounds_witness :
  let m : memory := fun x => if within 0x2000 0x2027 x then nth (Z.to_nat (x - 0x2000)) damaged_frame 0 else 0xaa in
  exists r m', ulz4fn m 0x2000 39 0x2000 39 = (r, m') /\ 0 <= r <= 39 /\ m' 0x1fff = 0xaa /\ m' 0x2027 = 0xaa.
Proof.
  cbv zeta. set (m := fun x => if within 0x2000 0x2027 x then nth (Z.to_nat (x - 0x2000)) damaged_frame 0 else 0xaa).
  assert (Hd : Forall is_byte damaged_frame) by (repeat constructor; unfold is_byte; lia).
  assert (Hb : mem_bytes m).
  { intros x. unfold m. case_bool; [|unfold is_byte; lia]. rewrite List.Forall_forall in Hd.
    destruct (nth_in_or_default (Z.to_nat (x - 0x2000)) damaged_frame 0) as [Hin| ->]; [by apply Hd|unfold is_byte; lia]. }
  destruct (ulz4fn_in_bounds m 0x2000 39 0x2000 39 Hb ltac:(lia) ltac:(lia) ltac:(lia) ltac:(lia) ltac:(lia) ltac:(lia))
    as (r & m' & _ & E & Hr & Hm & _).
  exists r, m'. split; [exact E|]. split; [exact Hr|]. split; (rewrite Hm by lia); reflexivity.
Defined.
