(* ===== verification/Imd.v ===== *)
(** * The in-memory database ([src/lib/imd.c], [src/include/imd.h])

    A directory of allocations growing down from an upper limit, kept in
    memory itself so that a later stage can recover it.  Memory is a function
    from 32-bit addresses to bytes; pointers are addresses, NULL is 0 (or
    [None] for results). *)

From S2P Require Import Prelude.

(** ** Memory *)

Definition memory := Z -> Z.

Definition ld8 (m : memory) (a : Z) : Z := m (u32 a).
Definition ld32 (m : memory) (a : Z) : Z :=
  ld8 m a + ld8 m (a + 1) * 2 ^ 8 + ld8 m (a + 2) * 2 ^ 16 + ld8 m (a + 3) * 2 ^ 24.
Definition st8 (m : memory) (a v : Z) : memory := fun x => if x =? u32 a then u8 v else m x.
Definition st32 (m : memory) (a v : Z) : memory :=
  st8 (st8 (st8 (st8 m a v) (a + 1) (Z.shiftr (u32 v) 8)) (a + 2) (Z.shiftr (u32 v) 16))
      (a + 3) (Z.shiftr (u32 v) 24).

(** ** In-memory structures *)

Definition IMD_ROOT_PTR_MAGIC : Z := 0xc0389481.
Definition IMD_ENTRY_MAGIC : Z := bnot 32 0xc0389481.
Definition CBMEM_ID_IMD_ROOT : Z := 0xff4017ff.
Definition CBMEM_ID_IMD_SMALL : Z := 0x53a11439.
Definition SMALL_REGION_ID : Z := CBMEM_ID_IMD_SMALL.
Definition LIMIT_ALIGN : Z := 4096.
Definition IMD_FLAG_LOCKED : Z := 1.

Definition sizeof_root_pointer : Z := 8.
Definition sizeof_root : Z := 20.
Definition sizeof_entry : Z := 16.

Record imd_entry := mk_entry
  { e_magic : Z; e_start_offset : Z; e_size : Z; e_id : Z }.

Definition read_entry (m : memory) (a : Z) : imd_entry :=
  mk_entry (ld32 m a) (s32 (ld32 m (a + 4))) (ld32 m (a + 8)) (ld32 m (a + 12)).

(** Fields of [struct imd_root] at [r]. *)
Definition max_entries (m : memory) (r : Z) : Z := ld32 m r.
Definition num_entries (m : memory) (r : Z) : Z := ld32 m (r + 4).
Definition flags (m : memory) (r : Z) : Z := ld32 m (r + 8).
Definition entry_align (m : memory) (r : Z) : Z := ld32 m (r + 12).
Definition max_offset (m : memory) (r : Z) : Z := s32 (ld32 m (r + 16)).
Definition entry_addr (r i : Z) : Z := u32 (r + sizeof_root + i * sizeof_entry).

Record imdr := mk_imdr { limit : Z; root : Z }.
Record imd := mk_imd { lg : imdr; sm : imdr }.

(** ** One region *)

Definition relative_pointer (base offset : Z) : Z := u32 (base + offset).

Definition imdr_get_root_pointer (ir : imdr) : Z :=
  relative_pointer (limit ir) (- sizeof_root_pointer).

Definition imd_root_pointer_valid (m : memory) (rp : Z) : bool := ld32 m rp =? IMD_ROOT_PTR_MAGIC.
Definition root_offset (m : memory) (rp : Z) : Z := s32 (ld32 m (rp + 4)).

Definition imd_link_root (m : memory) (rp r : Z) : memory :=
  st32 (st32 m rp IMD_ROOT_PTR_MAGIC) (rp + 4) (s32 (r - rp)).

Definition root_last_entry (m : memory) (r : Z) : Z := entry_addr r (num_entries m r - 1).

Definition root_num_entries (root_size : Z) : Z :=
  u32 (u32 (root_size - sizeof_root_pointer) - sizeof_root) / sizeof_entry.

Definition imd_root_data_left (m : memory) (r : Z) : Z :=
  if negb (max_offset m r =? 0)
  then u32 (e_start_offset (read_entry m (root_last_entry m r)) - max_offset m r)
  else 2 ^ 32 - 1.

Definition root_is_locked (m : memory) (r : Z) : bool :=
  negb (Z.land (flags m r) IMD_FLAG_LOCKED =? 0).

Definition imd_entry_assign (m : memory) (e id offset size : Z) : memory :=
  st32 (st32 (st32 (st32 m e IMD_ENTRY_MAGIC) (e + 4) offset) (e + 8) size) (e + 12) id.

Definition imdr_init (upper_limit : Z) : imdr := mk_imdr (ALIGN_DOWN 32 upper_limit LIMIT_ALIGN) 0.

(** [memset(r, 0, sizeof( *r))]: five words. *)
Definition clear_root (m : memory) (r : Z) : memory :=
  st32 (st32 (st32 (st32 (st32 m r 0) (r + 4) 0) (r + 8) 0) (r + 12) 0) (r + 16) 0.

(** The return code, the handle and memory.  The two [assert]s only print. *)
Definition imdr_create_empty (m : memory) (ir : imdr) (root_size entry_align : Z)
    : Z * imdr * memory :=
  if limit ir =? 0 then (-1, ir, m)
  else if root_size <? sizeof_root_pointer + sizeof_root then (-1, ir, m)
  else if (LIMIT_ALIGN <? root_size) || (LIMIT_ALIGN <? entry_align) then (-1, ir, m)
  else if root_size <? entry_align then (-1, ir, m)
  else
    let rp := imdr_get_root_pointer ir in
    let r := relative_pointer (limit ir) (- root_size) in
    let m := imd_link_root m rp r in
    let m := clear_root m r in
    let m := st32 m (r + 12) entry_align in
    let m := st32 m r (root_num_entries root_size) in
    let m := st32 m (r + 4) 1 in
    let m := imd_entry_assign m (entry_addr r 0) CBMEM_ID_IMD_ROOT 0 root_size in
    (0, mk_imdr (limit ir) r, m).

(** The loop over the entries: all must be marked and inside the limits. *)
Fixpoint check_entries (m : memory) (r low_limit lim : Z) (n : nat) (i : Z) : bool :=
  match n with
  | O => true
  | S n' =>
      let e := read_entry m (entry_addr r i) in
      let start_addr := relative_pointer r (e_start_offset e) in
      if negb (e_magic e =? IMD_ENTRY_MAGIC) then false
      else if start_addr <? low_limit then false
      else if (lim <=? start_addr) || (lim <? u32 (start_addr + e_size e)) then false
      else check_entries m r low_limit lim n' (i + 1)
  end.

Definition imdr_recover (m : memory) (ir : imdr) : Z * imdr :=
  if limit ir =? 0 then (-1, ir)
  else
    let rp := imdr_get_root_pointer ir in
    if negb (imd_root_pointer_valid m rp) then (-1, ir)
    else
      let r := relative_pointer rp (root_offset m rp) in
      if negb (ALIGN_UP 32 (entry_addr r (max_entries m r)) LIMIT_ALIGN =? limit ir) then (-1, ir)
      else if max_entries m r <? num_entries m r then (-1, ir)
      else if negb (IS_POWER_OF_2 32 (entry_align m r)) then (-1, ir)
      else
        let low_limit := relative_pointer r (max_offset m r) in
        let low_limit := if low_limit =? r then 0 else low_limit in
        if check_entries m r low_limit (limit ir) (Z.to_nat (num_entries m r)) 0
        then (0, mk_imdr (limit ir) r) else (-1, ir).

(** The search for [id] from entry [i] on. *)
Fixpoint find_from (m : memory) (r id : Z) (n : nat) (i : Z) : option Z :=
  match n with
  | O => None
  | S n' =>
      if id =? e_id (read_entry m (entry_addr r i)) then Some (entry_addr r i)
      else find_from m r id n' (i + 1)
  end.

(** Skips the first entry, which covers the root. *)
Definition imdr_entry_find (m : memory) (ir : imdr) (id : Z) : option Z :=
  if root ir =? 0 then None
  else find_from m (root ir) id (Z.to_nat (num_entries m (root ir) - 1)) 1.

Definition imdr_limit_size (m : memory) (ir : imdr) (max_size : Z) : Z * memory :=
  let r := root ir in
  if r =? 0 then (-1, m)
  else
    let root_size := u32 (limit ir - r) in
    if max_size <? root_size then (-1, m)
    else (0, st32 m (r + 16) (s32 (- s32 (max_size - root_size)))).

Definition imdr_entry_size (m : memory) (e : Z) : Z := e_size (read_entry m e).
Definition imdr_entry_at (m : memory) (ir : imdr) (e : Z) : Z :=
  relative_pointer (root ir) (e_start_offset (read_entry m e)).

Definition imd_entry_add_to_root (m : memory) (r id size : Z) : option Z * memory :=
  if num_entries m r =? max_entries m r then (None, m)
  else
    let used_size := ALIGN_UP 32 size (entry_align m r) in
    if imd_root_data_left m r <? used_size then (None, m)
    else
      let last := e_start_offset (read_entry m (root_last_entry m r)) in
      let e_offset := s32 (last - s32 used_size) in
      if last <? e_offset then (None, m)
      else
        let entry := u32 (root_last_entry m r + sizeof_entry) in
        let m := st32 m (r + 4) (num_entries m r + 1) in
        (Some entry, imd_entry_assign m entry id e_offset size).

Definition imdr_entry_add (m : memory) (ir : imdr) (id size : Z) : option Z * memory :=
  if root ir =? 0 then (None, m)
  else if root_is_locked m (root ir) then (None, m)
  else imd_entry_add_to_root m (root ir) id size.

Definition imdr_has_entry (m : memory) (ir : imdr) (e : Z) : bool :=
  if root ir =? 0 then false
  else
    let idx := u32 (s32 (e - entry_addr (root ir) 0) / sizeof_entry) in
    negb (num_entries m (root ir) <=? idx).

(** ** The two-tier handle *)

Definition imd_entry_to_imdr (m : memory) (h : imd) (e : Z) : option imdr :=
  if imdr_has_entry m (lg h) e then Some (lg h)
  else if imdr_has_entry m (sm h) e then Some (sm h)
  else None.

Definition imd_handle_init (upper_limit : Z) : imd := mk_imd (imdr_init upper_limit) (imdr_init 0).

Definition imd_handle_init_partial_recovery (m : memory) (h : imd) : imd :=
  if limit (lg h) =? 0 then h
  else
    let h := imd_handle_init (limit (lg h)) in
    let rp := imdr_get_root_pointer (lg h) in
    let l := mk_imdr (limit (lg h)) (relative_pointer rp (root_offset m rp)) in
    match imdr_entry_find m l SMALL_REGION_ID with
    | None => mk_imd l (sm h)
    | Some e =>
        let s := mk_imdr (u32 (imdr_entry_at m l e + imdr_entry_size m e)) (root (sm h)) in
        let rp := imdr_get_root_pointer s in
        mk_imd l (mk_imdr (limit s) (relative_pointer rp (root_offset m rp)))
    end.

Definition imd_create_empty (m : memory) (h : imd) (root_size entry_align : Z) : Z * imd * memory :=
  let '(ret, l, m) := imdr_create_empty m (lg h) root_size entry_align in
  (ret, mk_imd l (sm h), m).

Definition imd_create_tiered_empty (m : memory) (h : imd)
    (lg_root_size lg_entry_align sm_root_size sm_entry_align : Z) : Z * imd * memory :=
  let '(ret, l, m) := imdr_create_empty m (lg h) lg_root_size lg_entry_align in
  if negb (ret =? 0) then (-1, mk_imd l (sm h), m)
  else
    let sm_region_size := u32 (root_num_entries sm_root_size * sm_entry_align) in
    let sm_region_size := u32 (sm_region_size + sm_root_size) in
    let sm_region_size := ALIGN_UP 32 sm_region_size lg_entry_align in
    match imdr_entry_add m l SMALL_REGION_ID sm_region_size with
    | (None, m) => (-1, imd_handle_init (limit l), m)
    | (Some e, m) =>
        let s := mk_imdr (u32 (imdr_entry_at m l e + sm_region_size)) (root (sm h)) in
        let '(ret, s, m) := imdr_create_empty m s sm_root_size sm_entry_align in
        if negb (ret =? 0) then (-1, imd_handle_init (limit l), m)
        else
          let '(ret, m) := imdr_limit_size m s sm_region_size in
          if negb (ret =? 0) then (-1, imd_handle_init (limit l), m)
          else (0, mk_imd l s, m)
    end.

Definition imd_recover (m : memory) (h : imd) : Z * imd :=
  let '(ret, l) := imdr_recover m (lg h) in
  if negb (ret =? 0) then (-1, mk_imd l (sm h))
  else
    match imdr_entry_find m l SMALL_REGION_ID with
    | None => (0, mk_imd l (sm h))
    | Some e =>
        let small_upper_limit := u32 (imdr_entry_at m l e + imdr_entry_size m e) in
        let '(ret, s) := imdr_recover m (mk_imdr small_upper_limit (root (sm h))) in
        if negb (ret =? 0) then (-1, imd_handle_init (limit l)) else (0, mk_imd l s)
    end.

Definition imd_limit_size (m : memory) (h : imd) (max_size : Z) : Z * memory :=
  imdr_limit_size m (lg h) max_size.

Definition lock_root (m : memory) (r : Z) : memory :=
  st32 m (r + 8) (Z.lor (flags m r) IMD_FLAG_LOCKED).

Definition imd_lockdown (m : memory) (h : imd) : Z * memory :=
  if root (lg h) =? 0 then (-1, m)
  else
    let m := lock_root m (root (lg h)) in
    (0, if negb (root (sm h) =? 0) then lock_root m (root (sm h)) else m).

(** Base and size, or an error. *)
Definition imd_region_used (m : memory) (h : imd) : option (Z * Z) :=
  if limit (lg h) =? 0 then None
  else if root (lg h) =? 0 then None
  else
    let r := root (lg h) in
    let low_addr := relative_pointer r (e_start_offset (read_entry m (root_last_entry m r))) in
    Some (low_addr, u32 (limit (lg h) - low_addr)).

Definition imd_entry_add (m : memory) (h : imd) (id size : Z) : option Z * memory :=
  let r := root (sm h) in
  if r =? 0 then imdr_entry_add m (lg h) id size
  else
    let '(e, m) :=
      if (size <=? entry_align m r) || (size <=? imd_root_data_left m r / 4)
      then imdr_entry_add m (sm h) id size else (None, m) in
    match e with
    | Some _ => (e, m)
    | None => imdr_entry_add m (lg h) id size
    end.

Definition imd_entry_find (m : memory) (h : imd) (id : Z) : option Z :=
  match imdr_entry_find m (sm h) id with
  | Some e => Some e
  | None => imdr_entry_find m (lg h) id
  end.

Definition imd_entry_find_or_add (m : memory) (h : imd) (id size : Z) : option Z * memory :=
  match imd_entry_find m h id with
  | Some e => (Some e, m)
  | None => imd_entry_add m h id size
  end.

Definition imd_entry_size (m : memory) (e : Z) : Z := imdr_entry_size m e.

Definition imd_entry_at (m : memory) (h : imd) (e : Z) : option Z :=
  match imd_entry_to_imdr m h e with
  | None => None
  | Some ir => Some (imdr_entry_at m ir e)
  end.

Definition imd_entry_id (m : memory) (e : Z) : Z := e_id (read_entry m e).

Definition imd_entry_remove (m : memory) (h : imd) (e : Z) : Z * memory :=
  match imd_entry_to_imdr m h e with
  | None => (-1, m)
  | Some ir =>
      let r := root ir in
      if r =? 0 then (-1, m)
      else if root_is_locked m r then (-1, m)
      else if negb (e =? root_last_entry m r) then (-1, m)
      else (0, st32 m (r + 4) (num_entries m r - 1))
  end.

Record imd_cursor := mk_cursor { current_imdr : nat; current_entry : Z; c_imdr : list imdr }.

Definition imd_cursor_init (h : imd) : imd_cursor := mk_cursor 0 0 [lg h; sm h].

(** The recursion moves to the next region, so three levels are enough. *)
Fixpoint cursor_next (fuel : nat) (m : memory) (c : imd_cursor) : option Z * imd_cursor :=
  match c_imdr c !! current_imdr c, fuel with
  | Some ir, S fuel' =>
      if root ir =? 0 then (None, c)
      else if num_entries m (root ir) <=? current_entry c
      then cursor_next fuel' m (mk_cursor (S (current_imdr c)) 0 (c_imdr c))
      else (Some (entry_addr (root ir) (current_entry c)),
            mk_cursor (current_imdr c) (current_entry c + 1) (c_imdr c))
  | _, _ => (None, c)
  end.

Definition imd_cursor_next (m : memory) (c : imd_cursor) : option Z * imd_cursor := cursor_next 3 m c.

(** ** Lemmas: words in memory *)

Definition mem_ok (m : memory) : Prop := forall a, 0 <= m a < 256.

Lemma u32_ne a b : 0 < a - b < 2 ^ 32 -> (u32 a =? u32 b) = false.
Proof.
  intros H. apply Z.eqb_neq. unfold u32, wrap. intros He.
  pose proof (Z.div_mod a (2 ^ 32) ltac:(lia)). pose proof (Z.div_mod b (2 ^ 32) ltac:(lia)). nia.
Qed.

Lemma st8_same m a v : st8 m a v (u32 a) = u8 v.
Proof. unfold st8. by rewrite Z.eqb_refl. Qed.

Lemma st8_other m a v x : u32 a <> x -> st8 m a v x = m x.
Proof. intros H. unfold st8. by rewrite (proj2 (Z.eqb_neq _ _)). Qed.

Lemma ld32_st32_same m a v : ld32 (st32 m a v) a = u32 v.
Proof.
  unfold ld32, st32, ld8, st8.
  assert (N : forall i j, 0 <= i < 4 -> 0 <= j < 4 -> (u32 (a + i) =? u32 (a + j)) = (i =? j)).
  { intros i j Hi Hj. destruct (Z.lt_trichotomy i j) as [?|[->|?]].
    - rewrite (Z.eqb_sym (u32 _)), u32_ne by lia. symmetry. apply Z.eqb_neq. lia.
    - by rewrite !Z.eqb_refl.
    - rewrite u32_ne by lia. symmetry. apply Z.eqb_neq. lia. }
  replace (u32 a) with (u32 (a + 0)) by (f_equal; lia).
  rewrite !N by lia. cbn [Z.eqb Pos.eqb].
  rewrite !Z.shiftr_div_pow2 by lia. unfold u8. replace (wrap 8 v) with (wrap 8 (u32 v)) by (apply (wrap_wrap 8 32); lia).
  pose proof (u32_range v). set (w := u32 v) in *. unfold wrap.
  pose proof (Z.div_mod w (2 ^ 8) ltac:(lia)) as E0.
  pose proof (Z.div_mod (w / 2 ^ 8) (2 ^ 8) ltac:(lia)) as E1.
  pose proof (Z.div_mod (w / 2 ^ 16) (2 ^ 8) ltac:(lia)) as E2.
  rewrite Z.div_div in E1 by lia. change (2 ^ 8 * 2 ^ 8) with (2 ^ 16) in E1.
  rewrite Z.div_div in E2 by lia. change (2 ^ 16 * 2 ^ 8) with (2 ^ 24) in E2.
  rewrite (Z.mod_small (w / 2 ^ 24)) by (split; [apply Z.div_pos|apply Z.div_lt_upper_bound]; lia). lia.
Qed.

Lemma ld32_st32_other m a b v :
  0 <= a -> a + 4 <= 2 ^ 32 -> 0 <= b -> b + 4 <= 2 ^ 32 -> a + 4 <= b \/ b + 4 <= a ->
  ld32 (st32 m a v) b = ld32 m b.
Proof.
  intros Ha Ha4 Hb Hb4 Hd. unfold ld32, st32, ld8.
  by rewrite !st8_other by (rewrite !u32_small by lia; lia).
Qed.

Lemma st32_frame m a v x :
  0 <= a -> a + 4 <= 2 ^ 32 -> ~ (a <= x < a + 4) -> st32 m a v x = m x.
Proof.
  intros Ha Ha4 Hx. unfold st32. by rewrite !st8_other by (rewrite !u32_small by lia; lia).
Qed.

Lemma st32_ok m a v : mem_ok m -> mem_ok (st32 m a v).
Proof.
  intros H. unfold st32.
  assert (H8 : forall m a v, mem_ok m -> mem_ok (st8 m a v)).
  { clear. intros m a v H x. unfold st8. case_bool; [apply (wrap_range 8); lia|apply H]. }
  by do 4 apply H8.
Qed.

Lemma ld32_range m a : mem_ok m -> 0 <= ld32 m a < 2 ^ 32.
Proof.
  intros H. unfold ld32, ld8. pose proof (H (u32 a)). pose proof (H (u32 (a + 1))).
  pose proof (H (u32 (a + 2))). pose proof (H (u32 (a + 3))). lia.
Qed.

Lemma s32_u32 x : - 2 ^ 31 <= x < 2 ^ 31 -> s32 (u32 x) = x.
Proof.
  intros H. unfold s32, swrap. replace (wrap 32 (u32 x)) with (u32 x) by (symmetry; apply (wrap_wrap 32 32); lia).
  destruct (Z.le_gt_cases 0 x).
  - rewrite u32_small by lia. zbool.
  - unfold u32, wrap. rewrite <- (Z.mod_add _ 1), Z.mod_small by lia. zbool.
Qed.

Lemma u32_s32 x : u32 (s32 x) = u32 x.
Proof.
  unfold s32, swrap. change (wrap 32 x) with (u32 x). case_bool.
  - apply (wrap_wrap 32 32). lia.
  - unfold u32, wrap. rewrite <- (Z.mod_add _ 1) by lia. rewrite Z.mul_1_l.
    replace (x mod 2 ^ 32 - 2 ^ 32 + 2 ^ 32) with (x mod 2 ^ 32) by lia. by apply Z.mod_mod.
Qed.

(** ** The abstract directory *)

Record aentry := mk_aentry { ae_off : Z; ae_size : Z; ae_id : Z }.

(** One region: where its root is, its parameters and its allocations, oldest
    first; offsets are relative to the root. *)
Record aroot := mk_aroot
  { a_limit : Z; a_root_size : Z; a_flags : Z; a_align : Z; a_max_offset : Z;
    a_entries : list aentry }.

Definition a_root (A : aroot) : Z := a_limit A - a_root_size A.
Definition a_max (A : aroot) : Z := (a_root_size A - 28) / 16.
Definition a_len (A : aroot) : Z := Z.of_nat (length (a_entries A)).
Definition a_last (A : aroot) : Z := ae_off (List.last (a_entries A) (mk_aentry 0 0 0)).
Definition a_locked (A : aroot) : bool := negb (Z.land (a_flags A) IMD_FLAG_LOCKED =? 0).
Definition a_left (A : aroot) : Z :=
  if a_max_offset A =? 0 then 2 ^ 32 - 1 else a_last A - a_max_offset A.
Definition a_with_entries (l : list aentry) (A : aroot) : aroot :=
  mk_aroot (a_limit A) (a_root_size A) (a_flags A) (a_align A) (a_max_offset A) l.

(** The next allocation goes right below the last, rounded up to the alignment. *)
Definition a_add (A : aroot) (id size : Z) : option aroot :=
  let used := ALIGN_UP 32 size (a_align A) in
  if a_locked A || (a_len A =? a_max A) || (a_left A <? used) || (a_last A - used <? - 2 ^ 31)
  then None
  else Some (a_with_entries (a_entries A ++ [mk_aentry (a_last A - used) size id]) A).

(** Allocations go down without overlap, aligned, above the size limit. *)
Fixpoint descending (align hi lo : Z) (l : list aentry) : Prop :=
  match l with
  | [] => lo <= hi
  | e :: l' => ae_off e + ae_size e <= hi /\ (align | ae_off e) /\ 0 <= ae_size e < 2 ^ 32 /\
               0 <= ae_id e < 2 ^ 32 /\ descending align (ae_off e) lo l'
  end.

Definition a_low (A : aroot) : Z := if a_max_offset A =? 0 then - 2 ^ 31 else a_max_offset A.

Definition root_entry (A : aroot) : aentry := mk_aentry 0 (a_root_size A) CBMEM_ID_IMD_ROOT.

Definition awf (A : aroot) : Prop :=
  (4096 | a_limit A) /\ a_root_size A < a_limit A < 2 ^ 32 /\
  (exists k, 6 <= k <= 12 /\ a_root_size A = 2 ^ k) /\
  (exists j, 0 <= j <= 12 /\ a_align A = 2 ^ j) /\
  0 <= a_flags A < 2 ^ 32 /\ - 2 ^ 31 <= a_max_offset A <= 0 /\
  1 <= a_len A <= a_max A /\
  exists allocs, a_entries A = root_entry A :: allocs /\
    descending (a_align A) 0 (a_low A) allocs.

Definition entry_at (m : memory) (a : Z) (e : aentry) : Prop :=
  ld32 m a = IMD_ENTRY_MAGIC /\ ld32 m (a + 4) = u32 (ae_off e) /\
  ld32 m (a + 8) = ae_size e /\ ld32 m (a + 12) = ae_id e.

(** Memory holds the directory. *)
Definition rep (m : memory) (A : aroot) : Prop :=
  let r := a_root A in
  ld32 m r = a_max A /\ ld32 m (r + 4) = a_len A /\ ld32 m (r + 8) = a_flags A /\
  ld32 m (r + 12) = a_align A /\ ld32 m (r + 16) = u32 (a_max_offset A) /\
  (forall i e, a_entries A !! i = Some e -> entry_at m (r + 20 + 16 * Z.of_nat i) e) /\
  ld32 m (a_limit A - 8) = IMD_ROOT_PTR_MAGIC /\
  ld32 m (a_limit A - 4) = u32 (8 - a_root_size A).

Definition handle (A : aroot) : imdr := mk_imdr (a_limit A) (a_root A).

(** ** Lemmas: reading a represented directory *)

Lemma descending_last al lo l : forall hi d,
  descending al hi lo l -> ae_off d = hi ->
  lo <= ae_off (List.last l d) <= hi.
Proof.
  induction l as [|e l IH]; intros hi d; simpl descending.
  { intros H <-. simpl. lia. }
  intros (H1 & H2 & H3 & H4 & H5) Hd. pose proof (IH _ e H5 eq_refl) as Hl.
  replace (List.last (e :: l) d) with (List.last l e); [lia|].
  destruct l as [|e' l]; [done|]. clear. revert e' d e. induction l as [|x l IH]; intros; [done|].
  simpl in *. apply (IH x).
Qed.

Lemma last_cons_default {A} (l : list A) (x d : A) : List.last (x :: l) d = List.last l x.
Proof.
  revert x d. induction l as [|y l IH]; intros x d; [done|].
  change (List.last (x :: y :: l) d) with (List.last (y :: l) d). by rewrite !IH.
Qed.

Lemma descending_snoc al lo l e : forall hi d,
  descending al hi lo l -> ae_off d = hi ->
  ae_off e + ae_size e <= ae_off (List.last l d) -> (al | ae_off e) -> 0 <= ae_size e < 2 ^ 32 ->
  0 <= ae_id e < 2 ^ 32 -> lo <= ae_off e -> descending al hi lo (l ++ [e]).
Proof.
  induction l as [|x l IH]; intros hi d Hd Hhi He Ha Hs Hi Hlo; simpl app.
  - simpl in *. repeat split; try done; lia.
  - destruct Hd as (D1 & D2 & D3 & D4 & D5). rewrite last_cons_default in He.
    simpl. split; [done|]. split; [done|]. split; [done|]. split; [done|]. by apply (IH _ x).
Qed.

Lemma awf_geometry A :
  awf A ->
  64 <= a_root_size A <= 4096 /\ 0 < a_root A /\ a_root A + a_root_size A = a_limit A /\
  a_limit A < 2 ^ 32 /\ 0 <= a_len A <= a_max A /\ 1 <= a_len A /\
  20 + 16 * a_max A <= a_root_size A - 8 /\ a_root_size A < 28 + 16 * a_max A + 16 /\
  1 <= a_align A <= 4096 /\
  a_low A <= a_last A <= 0 /\ - 2 ^ 31 <= a_low A /\ a_entries A <> [].
Proof.
  intros (Hl & Hr & (k & Hk & Hs) & (j & Hj & Ha) & Hf & Hm & Hn & allocs & He & Hd).
  pose proof (Z.pow_le_mono_r 2 6 k ltac:(lia) ltac:(lia)).
  pose proof (Z.pow_le_mono_r 2 k 12 ltac:(lia) ltac:(lia)).
  pose proof (Z.pow_le_mono_r 2 j 12 ltac:(lia) ltac:(lia)).
  pose proof (Z.pow_pos_nonneg 2 j ltac:(lia) ltac:(lia)).
  assert (Hmax : 20 + 16 * a_max A <= a_root_size A - 8 /\ a_root_size A < 28 + 16 * a_max A + 16).
  { unfold a_max. pose proof (Z.div_mod (a_root_size A - 28) 16 ltac:(lia)).
    pose proof (Z.mod_pos_bound (a_root_size A - 28) 16 ltac:(lia)). lia. }
  assert (Hlast : a_low A <= a_last A <= 0).
  { unfold a_last. rewrite He, last_cons_default. by apply (descending_last (a_align A)). }
  unfold a_root. split; [lia|]. split; [lia|]. split; [lia|]. split; [lia|].
  split; [unfold a_len in *; lia|]. split; [lia|]. split; [lia|]. split; [lia|]. split; [lia|].
  split; [done|]. split; [unfold a_low; case_bool; lia|]. by rewrite He.
Qed.

Lemma entry_addr_eq A i :
  awf A -> 0 <= i <= a_max A -> entry_addr (a_root A) i = a_root A + 20 + 16 * i.
Proof.
  intros Hw Hi. destruct (awf_geometry A Hw) as (? & ? & ? & ? & ? & ? & ? & _).
  unfold entry_addr, sizeof_root, sizeof_entry. rewrite u32_small by lia. lia.
Qed.

Lemma rep_last m A :
  awf A -> rep m A ->
  root_last_entry m (a_root A) = a_root A + 20 + 16 * (a_len A - 1) /\
  e_start_offset (read_entry m (root_last_entry m (a_root A))) = a_last A.
Proof.
  intros Hw (H1 & H2 & H3 & H4 & H5 & H6 & _). pose proof (awf_geometry A Hw) as G.
  destruct G as (? & ? & ? & ? & ? & ? & ? & ? & ? & Hla & ? & Hne).
  assert (E : root_last_entry m (a_root A) = a_root A + 20 + 16 * (a_len A - 1)).
  { unfold root_last_entry, num_entries. rewrite H2. apply entry_addr_eq; [done|lia]. }
  split; [done|]. rewrite E. unfold a_last in *.
  destruct (exists_last Hne) as (l & e & He). rewrite He, last_last in *.
  assert (Hlk : (l ++ [e]) !! (length l) = Some e) by (by apply list_lookup_middle).
  destruct (H6 _ _ Hlk) as (_ & Ho & _). unfold read_entry. cbn [e_start_offset].
  replace (a_root A + 20 + 16 * (a_len A - 1) + 4) with (a_root A + 20 + 16 * Z.of_nat (length l) + 4)
    by (unfold a_len; rewrite He, length_app; simpl; lia).
  rewrite Ho. apply s32_u32. lia.
Qed.

Lemma rep_data_left m A : awf A -> rep m A -> imd_root_data_left m (a_root A) = a_left A.
Proof.
  intros Hw Hr. pose proof (awf_geometry A Hw) as (_ & _ & _ & _ & _ & _ & _ & _ & _ & Hla & Hlo & _).
  destruct (rep_last m A Hw Hr) as [_ Hlast]. unfold imd_root_data_left. rewrite Hlast.
  destruct Hr as (_ & _ & _ & _ & H5 & _). unfold max_offset. rewrite H5.
  destruct Hw as (_ & _ & _ & _ & _ & Hm & _). rewrite s32_u32 by lia.
  unfold a_left, a_low in *. destruct (Z.eqb_spec (a_max_offset A) 0); cbn [negb]; [done|].
  apply u32_small. lia.
Qed.

Lemma new_offset last used :
  - 2 ^ 31 <= last <= 0 -> 0 <= used < 2 ^ 32 ->
  (last <? s32 (last - s32 used)) = (last - used <? - 2 ^ 31) /\
  (- 2 ^ 31 <= last - used -> s32 (last - s32 used) = last - used).
Proof.
  intros Hl Hu.
  assert (E : s32 (last - s32 used) =
    if last - used <? - 2 ^ 31 then last - used + 2 ^ 32 else last - used).
  { rewrite <- (s32_u32 (if _ <? _ then _ else _)) by zbool.
    assert (Hx : u32 (last - s32 used) = u32 (if last - used <? - 2 ^ 31 then last - used + 2 ^ 32
                                              else last - used)).
    { unfold u32, wrap. rewrite Zminus_mod. change (s32 used mod 2 ^ 32) with (u32 (s32 used)).
      rewrite u32_s32. unfold u32, wrap. rewrite <- Zminus_mod. case_bool; [|done].
      rewrite <- (Z.mod_add (last - used) 1) by lia. f_equal. }
    rewrite <- Hx. unfold s32, swrap. by rewrite (wrap_wrap 32 32 _ ltac:(lia)). }
  rewrite E. split; [|intros H; rewrite (proj2 (Z.ltb_ge _ _)) by lia; done].
  destruct (Z.ltb_spec (last - used) (- 2 ^ 31)); [apply Z.ltb_lt; lia|apply Z.ltb_ge; lia].
Qed.

(** Side conditions of memory lemmas. *)
Ltac mem_step := rewrite ld32_st32_other by lia.
Ltac mem := repeat first [rewrite ld32_st32_same | mem_step].

Lemma entry_at_assign m a e :
  0 <= a -> a + 16 <= 2 ^ 32 -> 0 <= ae_size e < 2 ^ 32 -> 0 <= ae_id e < 2 ^ 32 ->
  entry_at (imd_entry_assign m a (ae_id e) (ae_off e) (ae_size e)) a e.
Proof.
  intros Ha Hb Hs Hi. unfold entry_at, imd_entry_assign. mem.
  rewrite (u32_small (ae_size e)), (u32_small (ae_id e)) by lia. by rewrite (u32_small IMD_ENTRY_MAGIC) by done.
Qed.

Lemma ld32_assign_other m a id off size b :
  0 <= a -> a + 16 <= 2 ^ 32 -> 0 <= b -> b + 4 <= 2 ^ 32 -> a + 16 <= b \/ b + 4 <= a ->
  ld32 (imd_entry_assign m a id off size) b = ld32 m b.
Proof. intros. unfold imd_entry_assign. by mem. Qed.

Lemma assign_frame m a id off size x :
  0 <= a -> a + 16 <= 2 ^ 32 -> ~ (a <= x < a + 16) -> imd_entry_assign m a id off size x = m x.
Proof. intros. unfold imd_entry_assign. by rewrite !st32_frame by lia. Qed.

Lemma entry_at_ext m m' a e :
  (forall k, 0 <= k <= 12 -> (4 | k) -> ld32 m' (a + k) = ld32 m (a + k)) -> entry_at m a e -> entry_at m' a e.
Proof.
  intros H. unfold entry_at. rewrite <- (H 4), <- (H 8), <- (H 12)
    by (try lia; solve [by exists 1|by exists 2|by exists 3]).
  replace (ld32 m a) with (ld32 m' a); [done|]. rewrite <- (Z.add_0_r a). apply H; [lia|apply Z.divide_0_r].
Qed.

Lemma rep_add_entry m A e :
  awf A -> rep m A -> a_len A < a_max A -> 0 <= ae_size e < 2 ^ 32 -> 0 <= ae_id e < 2 ^ 32 ->
  let m' := imd_entry_assign (st32 m (a_root A + 4) (a_len A + 1)) (a_root A + 20 + 16 * a_len A)
              (ae_id e) (ae_off e) (ae_size e) in
  rep m' (a_with_entries (a_entries A ++ [e]) A) /\
  forall x, ~ (a_root A <= x < a_limit A) -> m' x = m x.
Proof.
  intros Hw (H1 & H2 & H3 & H4 & H5 & H6 & H7 & H8) Hlt Hs Hi m'.
  destruct (awf_geometry A Hw) as (? & ? & ? & ? & ? & ? & ? & ? & _).
  assert (Hoth : forall b, 0 <= b -> b + 4 <= 2 ^ 32 ->
    a_root A + 20 + 16 * a_len A + 16 <= b \/ b + 4 <= a_root A + 20 + 16 * a_len A ->
    b + 4 <= a_root A + 4 \/ a_root A + 8 <= b -> ld32 m' b = ld32 m b).
  { intros b ? ? ? ?. unfold m'. rewrite ld32_assign_other by lia. apply ld32_st32_other; lia. }
  split.
  - unfold rep. change (a_root (a_with_entries _ A)) with (a_root A).
    change (a_max (a_with_entries _ A)) with (a_max A). cbn [a_flags a_align a_max_offset a_limit a_root_size a_with_entries].
    split; [by rewrite Hoth by lia|]. split.
    { unfold m'. rewrite ld32_assign_other, ld32_st32_same by lia. unfold a_len in *. cbn [a_entries a_with_entries].
      rewrite length_app, u32_small by lia. simpl. lia. }
    split; [by rewrite Hoth by lia|]. split; [by rewrite Hoth by lia|]. split; [by rewrite Hoth by lia|].
    split; [|split; rewrite Hoth by lia; done].
    intros i e' Hie. cbn [a_entries a_with_entries] in Hie. apply lookup_app_Some in Hie as [Hie|[Hge Hie]].
    + pose proof (lookup_lt_Some _ _ _ Hie). unfold a_len in *.
      apply (entry_at_ext m); [|by apply H6]. intros k Hk _. apply Hoth; lia.
    + apply list_lookup_singleton_Some in Hie as [Hi0 <-].
      replace (16 * Z.of_nat i) with (16 * a_len A) by (unfold a_len; lia).
      unfold m'. apply entry_at_assign; lia.
  - intros x Hx. unfold m'. rewrite assign_frame by lia. apply st32_frame; lia.
Qed.

Lemma align_used al size :
  (exists j, 0 <= j <= 12 /\ al = 2 ^ j) -> 0 <= size <= 2 ^ 32 - 4096 ->
  size <= ALIGN_UP 32 size al < 2 ^ 32 /\ (al | ALIGN_UP 32 size al).
Proof.
  intros (j & Hj & ->) Hs. pose proof (Z.pow_le_mono_r 2 j 12 ltac:(lia) ltac:(lia)).
  destruct (align_up_bounds 32 j size ltac:(lia) ltac:(lia) ltac:(lia)) as [H1 H2]. split; [|done].
  split; [lia|]. destruct (Z.lt_ge_cases (ALIGN_UP 32 size (2 ^ j)) (2 ^ 32)) as [|Hge]; [done|].
  assert (Hd : (2 ^ j | 2 ^ 32)) by (exists (2 ^ (32 - j)); rewrite <- Z.pow_add_r by lia; f_equal; lia).
  destruct H2 as [q Hq], Hd as [q' Hq']. rewrite Hq, Hq' in *.
  pose proof (Z.pow_pos_nonneg 2 j ltac:(lia) ltac:(lia)). assert (q' <= q) by nia.
  rewrite align_up_pow2 in Hq by lia.
  assert (size + 2 ^ j - 1 < 2 ^ 32) by lia. pose proof (Z.mod_pos_bound (size + 2 ^ j - 1) (2 ^ j) ltac:(lia)).
  nia.
Qed.

Lemma a_add_wf A id size A' :
  awf A -> 0 <= size <= 2 ^ 32 - 4096 -> 0 <= id < 2 ^ 32 -> a_add A id size = Some A' -> awf A'.
Proof.
  intros Hw Hs Hi. unfold a_add. destruct (_ || _) eqn:E; [done|]. intros [= <-]. bool_to_prop.
  pose proof (awf_geometry A Hw) as (_ & _ & _ & _ & ? & ? & _ & _ & _ & Hla & Hlo & _).
  destruct Hw as (W1 & W2 & W3 & W4 & W5 & W6 & W7 & allocs & He & Hd).
  destruct (align_used (a_align A) size W4 Hs) as [Hu Hdv].
  set (used := ALIGN_UP 32 size (a_align A)) in *.
  unfold awf. cbn [a_limit a_root_size a_align a_flags a_max_offset a_with_entries a_entries].
  change (a_max (a_with_entries _ A)) with (a_max A). change (a_low (a_with_entries _ A)) with (a_low A).
  split; [done|]. split; [done|]. split; [done|]. split; [done|]. split; [done|]. split; [done|].
  split; [unfold a_len in *; cbn [a_entries a_with_entries]; rewrite length_app; simpl; lia|].
  exists (allocs ++ [mk_aentry (a_last A - used) size id]). rewrite He. split; [done|].
  assert (Hlast : a_last A = ae_off (List.last allocs (root_entry A)))
    by (unfold a_last; by rewrite He, last_cons_default).
  apply (descending_snoc _ _ _ _ _ (root_entry A)); try done; cbn [ae_off ae_size ae_id].
  - rewrite <- Hlast. lia.
  - apply Z.divide_sub_r; [|done]. rewrite Hlast. clear -Hd.
    assert (H0 : (a_align A | ae_off (root_entry A))) by apply Z.divide_0_r.
    revert H0 Hd. generalize (root_entry A), 0. induction allocs as [|e l IH]; intros d hi H0; simpl descending; [done|].
    intros (_ & H1 & _ & _ & H2). rewrite last_cons_default. by apply (IH e (ae_off e)).
  - lia.
  - unfold a_low, a_left in *. revert H1. case_bool; bool_to_prop; lia.
Qed.

(** [imdr_entry_add] implements [a_add]. *)
Lemma add_refines m A id size :
  awf A -> rep m A -> 0 <= size <= 2 ^ 32 - 4096 -> 0 <= id < 2 ^ 32 ->
  match a_add A id size with
  | None => imdr_entry_add m (handle A) id size = (None, m)
  | Some A' => exists m', imdr_entry_add m (handle A) id size =
                 (Some (a_root A + 20 + 16 * a_len A), m') /\
      rep m' A' /\ awf A' /\ (forall x, ~ (a_root A <= x < a_limit A) -> m' x = m x)
  end.
Proof.
  intros Hw Hr Hs Hi. pose proof (awf_geometry A Hw) as G.
  destruct G as (? & ? & ? & ? & ? & ? & ? & ? & ? & ? & ? & _).
  destruct (rep_last m A Hw Hr) as [Hla Hlast]. pose proof (rep_data_left m A Hw Hr) as Hleft.
  pose proof Hr as (R1 & R2 & R3 & R4 & _).
  destruct (align_used (a_align A) size ltac:(apply Hw) Hs) as [Hu _].
  unfold imdr_entry_add, handle. cbn [root]. rewrite (proj2 (Z.eqb_neq _ _)) by lia.
  unfold root_is_locked, flags. rewrite R3. fold (a_locked A).
  unfold imd_entry_add_to_root, num_entries, max_entries, entry_align. rewrite R1, R2, R4, Hleft, Hlast, Hla.
  destruct (new_offset (a_last A) (ALIGN_UP 32 size (a_align A)) ltac:(lia) ltac:(lia)) as [Hov Hoff].
  destruct (a_add A id size) as [A'|] eqn:Ea.
  - pose proof (a_add_wf A id size A' Hw Hs Hi Ea) as Hw'. unfold a_add in Ea.
    destruct (_ || _) eqn:E; [done|]. injection Ea as <-.
    apply orb_false_iff in E as [E E4]. apply orb_false_iff in E as [E E3].
    apply orb_false_iff in E as [E1 E2]. rewrite E1, E2, E3, Hov, E4. bool_to_prop. rewrite Hoff by lia.
    unfold sizeof_entry. rewrite u32_small by lia.
    replace (a_root A + 20 + 16 * (a_len A - 1) + 16) with (a_root A + 20 + 16 * a_len A) by lia.
    eexists. split; [reflexivity|].
    destruct (rep_add_entry m A (mk_aentry (a_last A - ALIGN_UP 32 size (a_align A)) size id) Hw Hr
      ltac:(lia) ltac:(simpl; lia) ltac:(simpl; lia)) as [Hrep Hframe]. by split.
  - unfold a_add in Ea. destruct (_ || _) eqn:E in Ea; [|done]. rewrite Hov. clear -E.
    destruct (a_locked A); [done|]. destruct (a_len A =? a_max A); [done|].
    destruct (a_left A <? _); [done|]. simpl in E. by rewrite E.
Qed.

(** ** Lemmas: creation *)

Definition new_root (lim root_size align : Z) : aroot :=
  mk_aroot lim root_size 0 align 0 [mk_aentry 0 root_size CBMEM_ID_IMD_ROOT].

Lemma new_root_wf lim root_size align :
  (4096 | lim) -> root_size < lim < 2 ^ 32 ->
  (exists k, 6 <= k <= 12 /\ root_size = 2 ^ k) -> (exists j, 0 <= j <= 12 /\ align = 2 ^ j) ->
  awf (new_root lim root_size align).
Proof.
  intros Hl Hlim Hk Hj. unfold awf. cbn [a_limit a_root_size a_align a_flags a_max_offset new_root].
  split; [done|]. split; [done|]. split; [done|]. split; [done|]. split; [lia|]. split; [lia|]. split.
  - unfold a_len, a_max. cbn [a_entries a_root_size new_root length]. destruct Hk as (k & Hk & ->).
    pose proof (Z.pow_le_mono_r 2 6 k ltac:(lia) ltac:(lia)).
    pose proof (Z.div_le_lower_bound (2 ^ k - 28) 16 2 ltac:(lia) ltac:(lia)). lia.
  - exists []. split; [done|]. unfold a_low. simpl. lia.
Qed.

Lemma clear_root_other m r b :
  0 <= r -> r + 20 <= 2 ^ 32 -> 0 <= b -> b + 4 <= 2 ^ 32 -> r + 20 <= b \/ b + 4 <= r ->
  ld32 (clear_root m r) b = ld32 m b.
Proof. intros. unfold clear_root. by mem. Qed.

Lemma clear_root_zero m r o :
  0 <= r -> r + 20 <= 2 ^ 32 -> o = 0 \/ o = 4 \/ o = 8 \/ o = 12 \/ o = 16 -> ld32 (clear_root m r) (r + o) = 0.
Proof.
  intros. unfold clear_root. destruct_or!; subst o; rewrite ?Z.add_0_r; mem; done.
Qed.

Lemma create_refines m lim root_size align :
  (4096 | lim) -> root_size < lim < 2 ^ 32 ->
  (exists k, 6 <= k <= 12 /\ root_size = 2 ^ k) -> (exists j, 0 <= j <= 12 /\ align = 2 ^ j) ->
  align <= root_size ->
  let A := new_root lim root_size align in
  exists m', imdr_create_empty m (mk_imdr lim 0) root_size align = (0, handle A, m') /\
    rep m' A /\ forall x, ~ (a_root A <= x < lim) -> m' x = m x.
Proof.
  intros Hl Hlim Hk Hj Hal A. pose proof (new_root_wf lim root_size align Hl Hlim Hk Hj) as Hw.
  fold A in Hw. pose proof (awf_geometry A Hw) as (? & ? & ? & ? & ? & ? & ? & ? & ? & _).
  unfold A in *. cbn [a_root_size a_limit a_align new_root] in *.
  assert (Hroot : a_root (new_root lim root_size align) = lim - root_size) by done.
  set (R := a_root (new_root lim root_size align)) in *.
  unfold imdr_create_empty. cbn [limit].
  rewrite (proj2 (Z.eqb_neq _ _)) by lia.
  rewrite (proj2 (Z.ltb_ge _ (sizeof_root_pointer + sizeof_root))) by (unfold sizeof_root_pointer, sizeof_root; lia).
  rewrite !(proj2 (Z.ltb_ge LIMIT_ALIGN _)) by (unfold LIMIT_ALIGN; lia). cbn [orb].
  rewrite (proj2 (Z.ltb_ge _ _)) by lia.
  assert (Hrp : imdr_get_root_pointer (mk_imdr lim 0) = lim - 8)
    by (unfold imdr_get_root_pointer, relative_pointer, sizeof_root_pointer; cbn [limit]; rewrite u32_small; lia).
  assert (Hr : relative_pointer lim (- root_size) = R)
    by (unfold relative_pointer; rewrite u32_small; lia).
  assert (Hn : root_num_entries root_size = a_max (new_root lim root_size align)).
  { unfold root_num_entries, sizeof_root_pointer, sizeof_root, sizeof_entry.
    rewrite (u32_small (root_size - 8)) by lia. rewrite u32_small by lia.
    unfold a_max. cbn [a_root_size new_root]. f_equal. lia. }
  cbv zeta. rewrite Hrp, Hr, Hn. replace (entry_addr R 0) with (R + 20)
    by (unfold R; rewrite (entry_addr_eq _ 0 Hw) by lia; lia).
  eexists. split; [reflexivity|]. set (mx := a_max _) in *.
  unfold imd_link_root. replace (s32 (R - (lim - 8))) with (8 - root_size) by (rewrite s32_small; lia).
  split.
  - unfold rep. fold R. cbn [a_limit a_root_size a_flags a_align a_max_offset new_root].
    fold (new_root lim root_size align). fold mx. unfold a_len. cbn [a_entries new_root length].
    split; [rewrite ld32_assign_other by lia; mem; by rewrite u32_small by lia|].
    split; [rewrite ld32_assign_other by lia; by mem|].
    split; [rewrite ld32_assign_other by lia; do 3 mem_step; apply clear_root_zero; lia|].
    split; [rewrite ld32_assign_other by lia; mem; by rewrite u32_small by lia|].
    split; [rewrite ld32_assign_other by lia; do 3 mem_step; by rewrite clear_root_zero by lia|].
    split; [|split].
    + intros i e Hi. apply list_lookup_singleton_Some in Hi as [-> <-]. rewrite Z.mul_0_r, Z.add_0_r.
      apply (entry_at_assign _ _ (mk_aentry 0 root_size CBMEM_ID_IMD_ROOT)); unfold CBMEM_ID_IMD_ROOT; simpl; lia.
    + rewrite ld32_assign_other by lia. do 3 mem_step. rewrite clear_root_other by lia.
      rewrite ld32_st32_other by lia. by rewrite ld32_st32_same.
    + rewrite ld32_assign_other by lia. do 3 mem_step. rewrite clear_root_other by lia.
      replace (lim - 4) with (lim - 8 + 4) by lia. by rewrite ld32_st32_same.
  - intros x Hx. rewrite assign_frame by lia. unfold clear_root. by rewrite !st32_frame by lia.
Qed.

(** ** Lemmas: lookup and recovery *)

(** The allocation [imdr_entry_find] must return, with its index. *)
Definition a_find (A : aroot) (id : Z) : option (nat * aentry) :=
  list_find (fun e => ae_id e = id) (tail (a_entries A)).

Lemma find_from_spec m A id : forall n i,
  awf A -> rep m A -> (i + n = length (a_entries A))%nat ->
  find_from m (a_root A) id n (Z.of_nat i) =
  (fun p => a_root A + 20 + 16 * Z.of_nat (i + fst p)) <$> list_find (fun e => ae_id e = id) (drop i (a_entries A)).
Proof.
  induction n as [|n IH]; intros i Hw Hr Hin; simpl.
  { rewrite drop_ge by lia. done. }
  pose proof (awf_geometry A Hw) as (? & ? & ? & ? & ? & ? & ? & ? & _).
  destruct (lookup_lt_is_Some_2 (a_entries A) i ltac:(lia)) as [e He].
  rewrite (drop_S _ _ _ He). cbn [list_find].
  pose proof Hr as (_ & _ & _ & _ & _ & Hent & _). destruct (Hent _ _ He) as (_ & _ & _ & Hid).
  rewrite entry_addr_eq by (unfold a_len in *; try done; lia).
  unfold read_entry. cbn [e_id]. rewrite Hid. destruct (Z.eqb_spec id (ae_id e)) as [->|Hne].
  - rewrite decide_True by done. simpl. f_equal. lia.
  - rewrite decide_False by congruence. replace (Z.of_nat i + 1) with (Z.of_nat (S i)) by lia.
    rewrite IH by (done || lia). destruct (list_find _ (drop (S i) _)) as [[k e']|]; simpl; [|done].
    f_equal. lia.
Qed.

Lemma find_refines m A id :
  awf A -> rep m A ->
  imdr_entry_find m (handle A) id =
  (fun p => a_root A + 20 + 16 * (Z.of_nat (fst p) + 1)) <$> a_find A id.
Proof.
  intros Hw Hr. pose proof (awf_geometry A Hw) as (? & ? & ? & ? & ? & ? & ? & ? & ? & ? & ? & Hne).
  unfold imdr_entry_find, handle. cbn [root]. rewrite (proj2 (Z.eqb_neq _ _)) by lia.
  unfold num_entries. rewrite (proj1 (proj2 Hr)).
  assert (Hpos : (0 < length (a_entries A))%nat) by (unfold a_len in *; lia).
  pose proof (find_from_spec m A id (length (a_entries A) - 1) 1 Hw Hr ltac:(lia)) as H'.
  unfold a_len. replace (Z.to_nat (Z.of_nat (length (a_entries A)) - 1)) with (length (a_entries A) - 1)%nat by lia.
  change (Z.of_nat 1) with 1 in H'. rewrite H'. unfold a_find.
  replace (drop 1 (a_entries A)) with (tail (a_entries A)) by (by destruct (a_entries A)).
  destruct (list_find _ _) as [[k e]|]; simpl; [|done]. f_equal. lia.
Qed.

(** The whole region lies above address 0. *)
Definition above_zero (A : aroot) : Prop :=
  0 <= a_root A + a_last A /\ 0 <= a_root A + a_max_offset A.

Lemma descending_bounds al l : forall hi lo d i e,
  descending al hi lo l -> ae_off d = hi -> l !! i = Some e ->
  lo <= ae_off e /\ ae_off e + ae_size e <= hi /\ 0 <= ae_size e < 2 ^ 32 /\
  0 <= ae_id e < 2 ^ 32 /\ ae_off (List.last l d) <= ae_off e /\ (al | ae_off e).
Proof.
  induction l as [|x l IH]; intros hi lo d i e; simpl descending; [done|].
  intros (D1 & D2 & D3 & D4 & D5) Hd Hi. rewrite last_cons_default.
  pose proof (descending_last _ _ _ _ x D5 eq_refl).
  destruct i as [|i]; [injection Hi as <-; repeat split; try done; lia|].
  destruct (IH _ _ x i e D5 eq_refl Hi) as (? & ? & ? & ? & ? & ?). repeat split; try done; lia.
Qed.

Lemma awf_entry A i e :
  awf A -> a_entries A !! i = Some e ->
  a_low A <= ae_off e <= 0 /\ a_last A <= ae_off e /\
  ae_off e + ae_size e <= a_root_size A /\ 0 <= ae_size e < 2 ^ 32.
Proof.
  intros Hw Hi. pose proof (awf_geometry A Hw) as (? & ? & ? & ? & _ & _ & _ & _ & _ & ? & ? & _).
  destruct Hw as (_ & _ & _ & _ & _ & _ & _ & allocs & He & Hd).
  assert (Hlast : a_last A = ae_off (List.last allocs (root_entry A)))
    by (unfold a_last; by rewrite He, last_cons_default).
  rewrite He in Hi. destruct i as [|i].
  - injection Hi as <-. simpl. lia.
  - destruct (descending_bounds _ _ _ _ (root_entry A) i e Hd eq_refl Hi) as (? & ? & ? & _ & ? & _). lia.
Qed.

Lemma check_entries_ok m A : forall n i,
  awf A -> rep m A -> above_zero A -> (i + n = length (a_entries A))%nat ->
  check_entries m (a_root A) (if a_max_offset A =? 0 then 0 else a_root A + a_max_offset A)
    (a_limit A) n (Z.of_nat i) = true.
Proof.
  induction n as [|n IH]; intros i Hw Hr Hz Hin; [done|]. cbn [check_entries]. cbv zeta.
  pose proof (awf_geometry A Hw) as (? & ? & ? & ? & ? & ? & ? & ? & ? & ? & ? & _).
  destruct (lookup_lt_is_Some_2 (a_entries A) i ltac:(lia)) as [e He].
  pose proof Hr as (_ & _ & _ & _ & _ & Hent & _). destruct (Hent _ _ He) as (E1 & E2 & E3 & _).
  destruct (awf_entry A i e Hw He) as (B1 & B2 & B3 & B4). destruct Hz as [Hz Hz'].
  rewrite entry_addr_eq by (unfold a_len in *; try done; lia).
  unfold read_entry. cbn [e_magic e_start_offset e_size]. rewrite E1, E2, E3, Z.eqb_refl. cbn [negb].
  rewrite s32_u32 by lia. unfold relative_pointer. rewrite (u32_small (a_root A + _)) by lia.
  rewrite u32_small by lia.
  replace (Z.of_nat i + 1) with (Z.of_nat (S i)) by lia. rewrite IH by (done || lia).
  rewrite (proj2 (Z.leb_gt (a_limit A) _)) by lia. rewrite (proj2 (Z.ltb_ge (a_limit A) _)) by lia.
  rewrite (proj2 (Z.ltb_ge _ _)); [done|]. unfold a_low in *. case_bool; bool_to_prop; lia.
Qed.

Lemma pow2_is_power j : 0 <= j <= 12 -> IS_POWER_OF_2 32 (2 ^ j) = true.
Proof.
  intros Hj. unfold IS_POWER_OF_2. pose proof (pow2_le_pow2 j 12 ltac:(lia)).
  rewrite (wrap_small 32) by lia. apply Z.eqb_eq. rewrite land_low_mask by lia.
  by rewrite Z.mod_same by lia.
Qed.

Lemma recover_refines m A r :
  awf A -> rep m A -> above_zero A -> imdr_recover m (mk_imdr (a_limit A) r) = (0, handle A).
Proof.
  intros Hw Hr Hz. pose proof (awf_geometry A Hw) as (? & ? & ? & ? & ? & ? & ? & ? & ? & ? & ? & _).
  pose proof (check_entries_ok m A (length (a_entries A)) 0 Hw Hr Hz ltac:(lia)) as Hck.
  pose proof Hr as (R1 & R2 & _ & R4 & R5 & _ & R7 & R8).
  unfold imdr_recover. cbn [limit]. rewrite (proj2 (Z.eqb_neq _ _)) by lia.
  assert (Hrp : imdr_get_root_pointer (mk_imdr (a_limit A) r) = a_limit A - 8)
    by (unfold imdr_get_root_pointer, relative_pointer, sizeof_root_pointer; cbn [limit]; rewrite u32_small; lia).
  rewrite Hrp. unfold imd_root_pointer_valid. rewrite R7, Z.eqb_refl. cbn [negb].
  unfold root_offset. replace (a_limit A - 8 + 4) with (a_limit A - 4) by lia. rewrite R8, s32_u32 by lia.
  assert (Hroot : relative_pointer (a_limit A - 8) (8 - a_root_size A) = a_root A)
    by (unfold relative_pointer; rewrite u32_small; lia).
  rewrite Hroot. unfold max_entries, num_entries, entry_align, max_offset. rewrite R1, R2, R4, R5.
  assert (Hal : ALIGN_UP 32 (entry_addr (a_root A) (a_max A)) LIMIT_ALIGN = a_limit A).
  { rewrite entry_addr_eq by (done || lia). change LIMIT_ALIGN with (2 ^ 12).
    destruct (proj1 Hw) as [q Hq]. rewrite align_up_pow2 by lia. change (2 ^ 12) with 4096.
    assert (Hx : (a_root A + 20 + 16 * a_max A + 4096 - 1) mod 4096 =
                 a_root A + 20 + 16 * a_max A + 4096 - 1 - a_limit A).
    { symmetry. apply (Z.mod_unique _ _ q); lia. }
    lia. }
  rewrite Hal, Z.eqb_refl. cbn [negb]. rewrite (proj2 (Z.ltb_ge _ _)) by lia.
  destruct Hw as (_ & _ & _ & (j & Hj & Ha) & _ & Hm & _). rewrite Ha, pow2_is_power by done. cbn [negb].
  rewrite s32_u32 by lia. destruct Hz as [_ Hz].
  assert (Hlow : (let low := relative_pointer (a_root A) (a_max_offset A) in if low =? a_root A then 0 else low) =
                 if a_max_offset A =? 0 then 0 else a_root A + a_max_offset A).
  { unfold relative_pointer. cbv zeta. rewrite u32_small by lia.
    destruct (Z.eqb_spec (a_root A + a_max_offset A) (a_root A)), (Z.eqb_spec (a_max_offset A) 0); lia. }
  cbv zeta in *. rewrite Hlow. unfold a_len. rewrite Nat2Z.id. change (Z.of_nat 0) with 0 in Hck. by rewrite Hck.
Qed.

(** ** Lemmas: the other operations *)

(** Replacing the header word at offset [o] of the root. *)
Lemma header_other m A o v :
  awf A -> o = 4 \/ o = 8 \/ o = 16 ->
  (forall b, 0 <= b -> b + 4 <= 2 ^ 32 -> b + 4 <= a_root A + o \/ a_root A + o + 4 <= b ->
     ld32 (st32 m (a_root A + o) v) b = ld32 m b) /\
  (forall i e, a_entries A !! i = Some e -> entry_at m (a_root A + 20 + 16 * Z.of_nat i) e ->
     entry_at (st32 m (a_root A + o) v) (a_root A + 20 + 16 * Z.of_nat i) e) /\
  forall x, ~ (a_root A <= x < a_limit A) -> st32 m (a_root A + o) v x = m x.
Proof.
  intros Hw Ho. pose proof (awf_geometry A Hw) as (? & ? & ? & ? & ? & ? & ? & ? & _).
  assert (Hb : forall b, 0 <= b -> b + 4 <= 2 ^ 32 -> b + 4 <= a_root A + o \/ a_root A + o + 4 <= b ->
     ld32 (st32 m (a_root A + o) v) b = ld32 m b) by (intros; apply ld32_st32_other; lia).
  split; [done|]. split.
  - intros i e Hi He. pose proof (lookup_lt_Some _ _ _ Hi). unfold a_len in *.
    apply (entry_at_ext m); [|done]. intros k Hk _. apply Hb; lia.
  - intros x Hx. apply st32_frame; lia.
Qed.

Definition a_with_flags (f : Z) (A : aroot) : aroot :=
  mk_aroot (a_limit A) (a_root_size A) f (a_align A) (a_max_offset A) (a_entries A).
Definition a_with_max_offset (o : Z) (A : aroot) : aroot :=
  mk_aroot (a_limit A) (a_root_size A) (a_flags A) (a_align A) o (a_entries A).
Definition a_pop (A : aroot) : aroot := a_with_entries (removelast (a_entries A)) A.

Lemma lock_refines m A :
  awf A -> rep m A ->
  let A' := a_with_flags (Z.lor (a_flags A) 1) A in
  rep (lock_root m (a_root A)) A' /\ awf A' /\ a_locked A' = true /\
  forall x, ~ (a_root A <= x < a_limit A) -> lock_root m (a_root A) x = m x.
Proof.
  intros Hw Hr A'. pose proof (awf_geometry A Hw) as (? & ? & ? & ? & ? & ? & ? & ? & _).
  destruct (header_other m A 8 (Z.lor (flags m (a_root A)) IMD_FLAG_LOCKED) Hw ltac:(lia)) as (Hb & He & Hx).
  destruct Hr as (R1 & R2 & R3 & R4 & R5 & R6 & R7 & R8). unfold lock_root. unfold flags in *. rewrite R3 in *.
  assert (Hf : 0 <= Z.lor (a_flags A) 1 < 2 ^ 32).
  { destruct Hw as (_ & _ & _ & _ & Hf & _). split; [apply Z.lor_nonneg; lia|].
    apply Z.log2_lt_cancel. rewrite Z.log2_pow2, Z.log2_lor by lia.
    apply Z.max_lub_lt; [|done]. destruct (Z.eq_dec (a_flags A) 0) as [->|]; [done|].
    apply Z.log2_lt_pow2; lia. }
  split; [|split; [|split; [|done]]].
  - unfold rep. change (a_root A') with (a_root A). change (a_max A') with (a_max A).
    change (a_len A') with (a_len A). cbn [a_flags a_align a_max_offset a_entries a_limit a_root_size A' a_with_flags].
    split; [by rewrite Hb by lia|]. split; [by rewrite Hb by lia|]. split; [by rewrite ld32_st32_same, u32_small by done|].
    split; [by rewrite Hb by lia|]. split; [by rewrite Hb by lia|]. split; [|split; by rewrite Hb by lia].
    intros i e Hi. apply He; [done|by apply R6].
  - destruct Hw as (W1 & W2 & W3 & W4 & _ & W6 & W7 & W8). exact (conj W1 (conj W2 (conj W3 (conj W4 (conj Hf (conj W6 (conj W7 W8))))))).
  - unfold a_locked, A'. cbn [a_flags a_with_flags]. rewrite Z.land_lor_distr_l. apply negb_true_iff, Z.eqb_neq.
    intros Hc. apply Z.lor_eq_0_iff in Hc as [_ Hc]. done.
Qed.

Lemma limit_refines m A n :
  awf A -> rep m A -> 0 <= n < 2 ^ 31 -> a_root_size A - a_last A <= n ->
  let A' := a_with_max_offset (a_root_size A - n) A in
  exists m', imdr_limit_size m (handle A) n = (0, m') /\ rep m' A' /\ awf A' /\
  forall x, ~ (a_root A <= x < a_limit A) -> m' x = m x.
Proof.
  intros Hw Hr Hn Hu A'. pose proof (awf_geometry A Hw) as (? & ? & ? & ? & ? & ? & ? & ? & ? & ? & ? & ?).
  destruct (header_other m A 16 (a_root_size A - n) Hw ltac:(lia)) as (Hb & He & Hx).
  destruct Hr as (R1 & R2 & R3 & R4 & R5 & R6 & R7 & R8).
  unfold imdr_limit_size, handle. cbn [root limit]. rewrite (proj2 (Z.eqb_neq _ _)) by lia.
  replace (u32 (a_limit A - a_root A)) with (a_root_size A) by (rewrite u32_small; lia).
  rewrite (proj2 (Z.ltb_ge _ _)) by lia.
  replace (s32 (- s32 (n - a_root_size A))) with (a_root_size A - n)
    by (rewrite (s32_small (n - _)), s32_small; lia).
  eexists. split; [reflexivity|]. split; [|split; [|done]].
  - unfold rep. change (a_root A') with (a_root A). change (a_max A') with (a_max A).
    change (a_len A') with (a_len A). cbn [a_flags a_align a_max_offset a_entries a_limit a_root_size A' a_with_max_offset].
    split; [by rewrite Hb by lia|]. split; [by rewrite Hb by lia|]. split; [by rewrite Hb by lia|]. split; [by rewrite Hb by lia|].
    split; [by rewrite ld32_st32_same|]. split; [|split; by rewrite Hb by lia].
    intros i e Hi. apply He; [done|by apply R6].
  - destruct Hw as (W1 & W2 & W3 & W4 & W5 & W6 & W7 & allocs & W8 & W9). unfold awf, A'.
    cbn [a_flags a_align a_max_offset a_entries a_limit a_root_size a_with_max_offset]. fold A'.
    split; [done|]. split; [done|]. split; [done|]. split; [done|]. split; [done|]. split; [lia|].
    split; [done|]. exists allocs. split; [done|].
    assert (Hlast : a_last A = ae_off (List.last allocs (root_entry A)))
      by (unfold a_last; by rewrite W8, last_cons_default).
    assert (Hlow : a_low A' <= a_last A)
      by (unfold a_low, A'; cbn [a_max_offset a_with_max_offset]; case_bool; lia).
    rewrite Hlast in Hlow. clear -W9 Hlow. revert W9 Hlow. change 0 with (ae_off (root_entry A)).
    generalize (root_entry A). induction allocs as [|e l IH]; intros d; simpl descending; [simpl; intros; lia|].
    intros (? & ? & ? & ? & D). rewrite last_cons_default. intros Hlow.
    split; [done|]. split; [done|]. split; [done|]. split; [done|]. by apply (IH e).
Qed.

Lemma descending_removelast al l : forall hi lo,
  descending al hi lo l -> descending al hi lo (removelast l).
Proof.
  induction l as [|e l IH]; intros hi lo; [done|]. intros (D1 & D2 & D3 & D4 & D5).
  destruct l as [|e' l]; [simpl in *; lia|]. change (removelast (e :: e' :: l)) with (e :: removelast (e' :: l)).
  simpl descending. exact (conj D1 (conj D2 (conj D3 (conj D4 (IH _ _ D5))))).
Qed.

Lemma pop_refines m A :
  awf A -> rep m A -> 1 < a_len A ->
  rep (st32 m (a_root A + 4) (a_len A - 1)) (a_pop A) /\ awf (a_pop A) /\
  forall x, ~ (a_root A <= x < a_limit A) -> st32 m (a_root A + 4) (a_len A - 1) x = m x.
Proof.
  intros Hw Hr Hlen. pose proof (awf_geometry A Hw) as (? & ? & ? & ? & ? & ? & ? & ? & ? & ? & ? & Hne).
  destruct (header_other m A 4 (a_len A - 1) Hw ltac:(lia)) as (Hb & He & Hx).
  destruct Hr as (R1 & R2 & R3 & R4 & R5 & R6 & R7 & R8).
  destruct (exists_last Hne) as (l & e & Hl).
  assert (Hrl : removelast (a_entries A) = l) by (rewrite Hl; apply removelast_last).
  assert (Hlen' : a_len A = Z.of_nat (length l) + 1) by (unfold a_len; rewrite Hl, length_app; simpl; lia).
  assert (Hpl : a_len (a_pop A) = a_len A - 1)
    by (unfold a_len at 1; cbn [a_entries a_pop a_with_entries]; rewrite Hrl; lia).
  split; [|split; [|done]].
  - unfold rep. change (a_root (a_pop A)) with (a_root A). change (a_max (a_pop A)) with (a_max A).
    rewrite Hpl. cbn [a_flags a_align a_max_offset a_entries a_limit a_root_size a_pop a_with_entries].
    rewrite Hrl. split; [by rewrite Hb by lia|]. split; [rewrite ld32_st32_same, u32_small by lia; lia|].
    split; [by rewrite Hb by lia|]. split; [by rewrite Hb by lia|]. split; [by rewrite Hb by lia|]. split; [|split; by rewrite Hb by lia].
    intros i e' Hi. assert (Hi' : a_entries A !! i = Some e') by (rewrite Hl; by apply lookup_app_l_Some).
    apply He; [done|by apply R6].
  - destruct Hw as (W1 & W2 & W3 & W4 & W5 & W6 & W7 & allocs & W8 & W9). unfold awf.
    change (a_max (a_pop A)) with (a_max A). change (a_low (a_pop A)) with (a_low A).
    cbn [a_flags a_align a_max_offset a_entries a_limit a_root_size a_pop a_with_entries].
    split; [done|]. split; [done|]. split; [done|]. split; [done|]. split; [done|]. split; [done|].
    split; [change (a_with_entries _ A) with (a_pop A); lia|].
    exists (removelast allocs). split; [|by apply descending_removelast].
    rewrite W8. destruct allocs as [|x allocs]; [|done].
    unfold a_len in Hlen. rewrite W8 in Hlen. simpl in Hlen. lia.
Qed.

Definition single (A : aroot) : imd := mk_imd (handle A) (mk_imdr 0 0).

Lemma has_entry_refines m A i :
  awf A -> rep m A -> 0 <= i < a_len A ->
  imdr_has_entry m (handle A) (a_root A + 20 + 16 * i) = true.
Proof.
  intros Hw Hr Hi. pose proof (awf_geometry A Hw) as (? & ? & ? & ? & ? & ? & ? & ? & _).
  unfold imdr_has_entry, handle. cbn [root]. rewrite (proj2 (Z.eqb_neq _ _)) by lia.
  rewrite entry_addr_eq by (done || lia). unfold num_entries. rewrite (proj1 (proj2 Hr)).
  replace (a_root A + 20 + 16 * i - (a_root A + 20 + 16 * 0)) with (i * 16) by lia.
  rewrite s32_small by lia. unfold sizeof_entry. rewrite Z.div_mul, u32_small by lia.
  by rewrite (proj2 (Z.leb_gt _ _)) by lia.
Qed.

Lemma remove_refines m A e :
  awf A -> rep m A -> e <> a_root A + 20 ->
  if a_locked A || negb (e =? a_root A + 20 + 16 * (a_len A - 1))
  then imd_entry_remove m (single A) e = (-1, m)
  else exists m', imd_entry_remove m (single A) e = (0, m') /\ rep m' (a_pop A) /\ awf (a_pop A) /\
    forall x, ~ (a_root A <= x < a_limit A) -> m' x = m x.
Proof.
  intros Hw Hr He0. pose proof (awf_geometry A Hw) as (? & ? & ? & ? & ? & ? & ? & ? & _).
  destruct (rep_last m A Hw Hr) as [Hla _]. unfold imd_entry_remove, imd_entry_to_imdr, single. cbn [lg sm].
  change (imdr_has_entry m (mk_imdr 0 0) e) with false.
  assert (Hlk : root_is_locked m (a_root A) = a_locked A)
    by (unfold root_is_locked, flags, a_locked; by rewrite (proj1 (proj2 (proj2 Hr)))).
  destruct (Z.eqb_spec e (a_root A + 20 + 16 * (a_len A - 1))) as [->|Hne]; cbn [negb].
  - rewrite has_entry_refines by (done || lia). cbn [root handle].
    rewrite (proj2 (Z.eqb_neq _ 0)) by lia. rewrite Hlk, Hla, Z.eqb_refl. cbn [negb].
    destruct (a_locked A); [done|]. cbn [orb]. unfold num_entries. rewrite (proj1 (proj2 Hr)).
    eexists. split; [reflexivity|]. apply pop_refines; [done|done|lia].
  - rewrite orb_true_r. destruct (imdr_has_entry m (handle A) e); [|done]. cbn [root handle].
    rewrite (proj2 (Z.eqb_neq _ 0)) by lia. rewrite Hla, (proj2 (Z.eqb_neq e _)) by done. cbn [negb].
    by destruct (root_is_locked m (a_root A)).
Qed.

(** A directory depends only on the bytes of its root block. *)
Lemma rep_ext m m' A :
  awf A -> (forall x, a_root A <= x < a_limit A -> m' x = m x) -> rep m A -> rep m' A.
Proof.
  intros Hw Hx. pose proof (awf_geometry A Hw) as (? & ? & ? & ? & ? & ? & ? & ? & _).
  assert (Hld : forall b, a_root A <= b -> b + 4 <= a_limit A -> ld32 m' b = ld32 m b).
  { intros b ? ?. unfold ld32, ld8. by rewrite !u32_small, !Hx by lia. }
  intros (R1 & R2 & R3 & R4 & R5 & R6 & R7 & R8). unfold rep. rewrite !Hld by lia.
  split; [done|]. split; [done|]. split; [done|]. split; [done|]. split; [done|]. split; [|by split].
  intros i e Hi. pose proof (lookup_lt_Some _ _ _ Hi). unfold a_len in *.
  apply (entry_at_ext m); [|by apply R6]. intros k Hk _. apply Hld; lia.
Qed.

Lemma a_add_spec A id size :
  a_add A id size =
  if bool_decide (a_locked A = false /\ a_len A <> a_max A /\ ALIGN_UP 32 size (a_align A) <= a_left A /\
                  - 2 ^ 31 <= a_last A - ALIGN_UP 32 size (a_align A))
  then Some (a_with_entries (a_entries A ++ [mk_aentry (a_last A - ALIGN_UP 32 size (a_align A)) size id]) A)
  else None.
Proof.
  unfold a_add. case_bool_decide as H.
  - destruct H as (H1 & H2 & H3 & H4). rewrite H1. rewrite (proj2 (Z.eqb_neq _ _)) by done.
    rewrite !(proj2 (Z.ltb_ge _ _)) by lia. done.
  - destruct (_ || _) eqn:E; [done|]. bool_to_prop. exfalso. apply H. repeat split; done || lia.
Qed.

(** ** Runs: what may happen to a directory between its creation and recovery *)

(** With [fit] every allocation lies above address 0, no size limit reaches below it, and no
    entry has the id of the small region of a tiered directory. *)
Inductive imd_run (fit : bool) (A0 : aroot) : memory -> memory -> Prop :=
  | run_refl m : imd_run fit A0 m m
  | run_add m m1 id size :
      imd_run fit A0 m m1 -> 0 <= size <= 2 ^ 32 - 4096 -> 0 <= id < 2 ^ 32 ->
      (fit = true -> id <> SMALL_REGION_ID /\
         forall base used, imd_region_used m1 (single A0) = Some (base, used) -> ALIGN_UP 32 size (a_align A0) <= base) ->
      imd_run fit A0 m (snd (imd_entry_add m1 (single A0) id size))
  | run_remove m m1 e :
      imd_run fit A0 m m1 -> e <> a_root A0 + 20 -> imd_run fit A0 m (snd (imd_entry_remove m1 (single A0) e))
  | run_lock m m1 :
      imd_run fit A0 m m1 -> imd_run fit A0 m (snd (imd_lockdown m1 (single A0)))
  | run_limit m m1 n base used :
      imd_run fit A0 m m1 -> imd_region_used m1 (single A0) = Some (base, used) ->
      used <= n < 2 ^ 31 -> (fit = true -> n <= a_limit A0) ->
      imd_run fit A0 m (snd (imd_limit_size m1 (single A0) n))
  | run_client m m1 m2 :
      imd_run fit A0 m m1 -> (forall x, a_root A0 <= x < a_limit A0 -> m2 x = m1 x) -> imd_run fit A0 m m2.

Definition same_place (A0 A : aroot) : Prop :=
  a_limit A = a_limit A0 /\ a_root_size A = a_root_size A0.

Lemma same_place_handle A0 A : same_place A0 A -> handle A = handle A0.
Proof. intros [H1 H2]. unfold handle, a_root. by rewrite H1, H2. Qed.

Lemma region_used_refines m A :
  awf A -> rep m A ->
  imd_region_used m (single A) =
    Some (u32 (a_root A + a_last A), u32 (a_root_size A - a_last A)).
Proof.
  intros Hw Hr. pose proof (awf_geometry A Hw) as (? & ? & ? & ? & ? & ? & ? & ? & ? & ? & ? & _).
  destruct (rep_last m A Hw Hr) as [_ Hl]. unfold imd_region_used, single. cbn [lg limit root handle].
  rewrite !(proj2 (Z.eqb_neq _ 0)) by lia. rewrite Hl. unfold relative_pointer. do 2 f_equal.
  unfold u32, wrap. rewrite Zminus_mod_idemp_r. f_equal. lia.
Qed.

(** What recovery asks of a directory. *)
Definition recoverable (A : aroot) : Prop :=
  above_zero A /\ Forall (fun e => ae_id e <> SMALL_REGION_ID) (tail (a_entries A)).

Lemma recoverable_find A : recoverable A -> a_find A SMALL_REGION_ID = None.
Proof. intros [_ H]. unfold a_find. by apply list_find_None. Qed.

Lemma recoverable_add A id size used : awf A -> recoverable A -> id <> SMALL_REGION_ID -> used <= a_root A + a_last A ->
  recoverable (a_with_entries (a_entries A ++ [mk_aentry (a_last A - used) size id]) A).
Proof.
  intros Hw [[H1 H2] Hf] Hid Hu. split.
  - split; [|exact H2]. set (o := a_last A - used) in *.
    assert (E : a_last (a_with_entries (a_entries A ++ [mk_aentry o size id]) A) = o)
      by (unfold a_last; cbn [a_entries a_with_entries]; by rewrite last_last).
    rewrite E. change (a_root (a_with_entries _ A)) with (a_root A). lia.
  - cbn [a_entries a_with_entries]. destruct Hw as (_ & _ & _ & _ & _ & _ & _ & l & E & _). rewrite E in *. cbn [tail app] in *.
    apply Forall_app. split; [exact Hf|]. by constructor.
Qed.

Lemma recoverable_pop A : awf A -> awf (a_pop A) -> recoverable A -> recoverable (a_pop A).
Proof.
  intros Hw Hw' [[H1 H2] Hf]. split.
  - split; [|exact H2]. change (a_root (a_pop A)) with (a_root A).
    assert (Hl : a_last A <= a_last (a_pop A)); [|lia].
    pose proof (awf_geometry (a_pop A) Hw') as (_ & _ & _ & _ & _ & _ & _ & _ & _ & _ & _ & Hne).
    unfold a_last at 2. destruct (exists_last Hne) as (l & e & E). rewrite E, last_last.
    assert (He : e ∈ a_entries A).
    { unfold a_pop in E. cbn [a_entries a_with_entries] in E. destruct (a_entries A) as [|x t] eqn:Ex; [by destruct l|].
      rewrite (app_removelast_last x (l := x :: t)) by done. rewrite E. set_solver. }
    apply list_elem_of_lookup in He as [i Hi]. apply (awf_entry A i e Hw Hi).
  - cbn [a_pop a_entries a_with_entries]. destruct (a_entries A) as [|x t]; [done|]. cbn [tail] in Hf |- *.
    destruct t as [|y t]; [done|]. change (removelast (x :: y :: t)) with (x :: removelast (y :: t)). cbn [tail].
    rewrite (app_removelast_last y (l := y :: t)) in Hf by done. by apply Forall_app in Hf as [Hf _].
Qed.

Lemma run_inv fit A0 m m' :
  awf A0 -> rep m A0 -> (fit = true -> recoverable A0) -> imd_run fit A0 m m' ->
  exists A, same_place A0 A /\ a_align A = a_align A0 /\ awf A /\ rep m' A /\ (fit = true -> recoverable A).
Proof.
  intros Hw0 Hr0 Hf0 Hrun. induction Hrun as [m|m m1 id size _ IH Hs Hi Hfit|m m1 e _ IH He|m m1 _ IH
    |m m1 n base used _ IH Hu Hn Hfit|m m1 m2 _ IH Hx].
  { by exists A0. }
  all: destruct (IH Hr0) as (A & [Hp1 Hp2] & Hal & Hw & Hr & Hz);
    pose proof (same_place_handle A0 A (conj Hp1 Hp2)) as Hh;
    assert (Hsg : single A0 = single A) by (unfold single; by rewrite Hh);
    assert (Hself : forall m', rep m' A -> exists A, same_place A0 A /\ a_align A = a_align A0 /\ awf A /\ rep m' A /\
      (fit = true -> recoverable A)) by (intros m' Hr'; exists A; exact (conj (conj Hp1 Hp2) (conj Hal (conj Hw (conj Hr' Hz))))).
  all: pose proof (awf_geometry A Hw) as (? & ? & ? & ? & ? & ? & ? & ? & ? & ? & ? & _).
  - rewrite Hsg in *. unfold imd_entry_add, single. cbn [sm lg root]. rewrite Z.eqb_refl.
    pose proof (add_refines m1 A id size Hw Hr Hs Hi) as Ha.
    destruct (a_add A id size) as [A'|] eqn:Ea; [|rewrite Ha; by apply Hself].
    destruct Ha as (m' & -> & Hr' & Hw' & _). exists A'.
    rewrite a_add_spec in Ea. case_bool_decide; [|done]. injection Ea as <-.
    split; [done|]. split; [done|]. split; [done|]. split; [done|]. intros Ht. specialize (Hz Ht).
    destruct (Hfit Ht) as [Hid Hb]. apply recoverable_add; [done..|]. rewrite Hal.
    specialize (Hb _ _ (region_used_refines m1 A Hw Hr)). destruct Hz as [[Hz _] _]. by rewrite u32_small in Hb by lia.
  - rewrite Hsg. assert (Hroot : a_root A0 = a_root A) by (unfold a_root; by rewrite Hp1, Hp2).
    rewrite Hroot in He. pose proof (remove_refines m1 A e Hw Hr He) as Hrm.
    destruct (_ || _); [rewrite Hrm; by apply Hself|].
    destruct Hrm as (m' & -> & Hr' & Hw' & _). exists (a_pop A). do 4 (split; [done|]).
    intros Ht. apply recoverable_pop; auto.
  - rewrite Hsg. unfold imd_lockdown, single. cbn [lg sm root handle].
    rewrite (proj2 (Z.eqb_neq _ _)) by lia. cbn [negb snd].
    destruct (lock_refines m1 A Hw Hr) as (Hr' & Hw' & _). eexists. split; [|split; [|split; [exact Hw'|split; [exact Hr'|exact Hz]]]]; done.
  - rewrite Hsg in *. rewrite (region_used_refines m1 A Hw Hr) in Hu. injection Hu as <- <-.
    rewrite u32_small in Hn by lia.
    destruct (limit_refines m1 A n Hw Hr ltac:(lia) ltac:(lia)) as (m' & Hl & Hr' & Hw' & _).
    unfold imd_limit_size, single. cbn [lg]. rewrite Hl.
    exists (a_with_max_offset (a_root_size A - n) A). do 4 (split; [done|]).
    intros Ht. destruct (Hz Ht) as [[Z1 Z2] Z3]. specialize (Hfit Ht). split; [|exact Z3]. split; [exact Z1|].
    cbn [a_max_offset a_with_max_offset]. change (a_root (a_with_max_offset _ A)) with (a_root A). lia.
  - apply Hself. apply (rep_ext m1); [done| |done]. intros x Hx'. apply Hx.
    unfold a_root in *. rewrite <- Hp1, <- Hp2. done.
Qed.

(** ** Theorems *)

(** C2.  Create a directory, then add, remove, limit, lock and write to the allocations in any
    order: memory always holds a well-formed directory at the same place.  A later stage that
    knows only the limit recovers the same handle, and so finds the same entries, after every
    run that keeps its allocations and its size limit above address 0 and adds no entry with
    the id of a small region; in general it does when the directory that is reached is like
    that. *)
Theorem imd_create_run_recover m0 upper root_size align :
  let lim := ALIGN_DOWN 32 upper LIMIT_ALIGN in
  0 <= upper < 2 ^ 32 -> (exists k, 6 <= k <= 12 /\ root_size = 2 ^ k) ->
  (exists j, 0 <= j <= 12 /\ align = 2 ^ j) -> align <= root_size < lim ->
  exists m h, imd_create_empty m0 (imd_handle_init upper) root_size align = (0, h, m) /\
    (forall x, ~ (lim - root_size <= x < lim) -> m x = m0 x) /\
    (forall m', imd_run false (new_root lim root_size align) m m' ->
      exists A, same_place (new_root lim root_size align) A /\ awf A /\ rep m' A /\ h = single A /\
        (above_zero A -> a_find A SMALL_REGION_ID = None ->
         imd_recover m' (imd_handle_init upper) = (0, h))) /\
    (forall m', imd_run true (new_root lim root_size align) m m' ->
      imd_recover m' (imd_handle_init upper) = (0, h)).
Proof.
  intros lim Hup Hk Hj Hal.
  destruct (align_down_bounds 32 12 upper ltac:(lia) ltac:(lia)) as [Hb Hd].
  change (ALIGN_DOWN 32 upper (2 ^ 12)) with lim in *. change (2 ^ 12) with 4096 in *.
  destruct (create_refines m0 lim root_size align Hd ltac:(lia) Hk Hj ltac:(lia)) as (m & Hc & Hr & Hx).
  pose proof (new_root_wf lim root_size align Hd ltac:(lia) Hk Hj) as Hw.
  assert (Hrec : forall fit m', imd_run fit (new_root lim root_size align) m m' ->
      exists A, same_place (new_root lim root_size align) A /\ awf A /\ rep m' A /\
        single (new_root lim root_size align) = single A /\ (fit = true -> recoverable A) /\
        (above_zero A -> a_find A SMALL_REGION_ID = None ->
         imd_recover m' (imd_handle_init upper) = (0, single (new_root lim root_size align)))).
  { intros fit m' Hrun. destruct (run_inv fit _ m m' Hw Hr) as (A & Hp & _ & Hw' & Hr' & Hz); [|exact Hrun|].
    { intros _. split; [|constructor]. unfold above_zero, a_root, a_last. cbn. lia. }
    exists A. split; [done|]. split; [done|]. split; [done|].
    split; [unfold single; by rewrite (same_place_handle _ _ Hp)|]. split; [exact Hz|]. intros Ha Hnf.
    unfold imd_recover, imd_handle_init, imdr_init. cbn [lg sm]. fold lim.
    pose proof (recover_refines m' A 0 Hw' Hr' Ha) as Hrec. rewrite (proj1 Hp) in Hrec.
    cbn [a_limit new_root] in Hrec. rewrite Hrec. cbn [Z.eqb negb].
    rewrite (find_refines m' A _ Hw' Hr'), Hnf. cbn. unfold single. by rewrite (same_place_handle _ _ Hp). }
  exists m, (single (new_root lim root_size align)). split.
  { unfold imd_create_empty, imd_handle_init, imdr_init. cbn [lg sm]. fold lim. by rewrite Hc. }
  split; [exact Hx|]. split; intros m' Hrun.
  - destruct (Hrec false m' Hrun) as (A & ? & ? & ? & ? & _ & ?). by exists A.
  - destruct (Hrec true m' Hrun) as (A & _ & _ & _ & _ & Hz & R). specialize (Hz eq_refl).
    apply R; [apply Hz|by apply recoverable_find].
Qed.

(** [imd_entry_add] succeeds exactly when the directory is not
    locked, has a free entry, and the rounded-up size fits below the last
    allocation within the size limit; then the entry reads back with its size,
    id and address, right below the previous allocation, and nothing outside
    the root block changes.  A refusal changes nothing at all. *)
Theorem imd_entry_add_correct m A id size :
  awf A -> rep m A -> 0 <= size <= 2 ^ 32 - 4096 -> 0 <= id < 2 ^ 32 ->
  let used := ALIGN_UP 32 size (a_align A) in
  let '(e, m') := imd_entry_add m (single A) id size in
  (is_Some e <-> a_locked A = false /\ a_len A <> a_max A /\ used <= a_left A /\ - 2 ^ 31 <= a_last A - used) /\
  match e with
  | None => m' = m
  | Some e =>
      rep m' (a_with_entries (a_entries A ++ [mk_aentry (a_last A - used) size id]) A) /\
      imd_entry_size m' e = size /\ imd_entry_id m' e = id /\
      imd_entry_at m' (single A) e = Some (u32 (a_root A + (a_last A - used))) /\
      forall x, ~ (a_root A <= x < a_limit A) -> m' x = m x
  end.
Proof.
  intros Hw Hr Hs Hi used. pose proof (add_refines m A id size Hw Hr Hs Hi) as Ha.
  unfold imd_entry_add, single. cbn [sm lg root]. rewrite Z.eqb_refl. fold (single A).
  rewrite a_add_spec in Ha. fold used in Ha. case_bool_decide as Hc.
  - destruct Ha as (m' & -> & Hr' & Hw' & Hx). split; [by split|]. split; [done|].
    set (A' := a_with_entries _ A) in *.
    assert (He : entry_at m' (a_root A + 20 + 16 * a_len A) (mk_aentry (a_last A - used) size id)).
    { pose proof Hr' as (_ & _ & _ & _ & _ & He & _). apply (He (length (a_entries A))).
      unfold A'. cbn [a_entries a_with_entries]. by apply list_lookup_middle. }
    destruct He as (E1 & E2 & E3 & E4).
    unfold imd_entry_size, imdr_entry_size, imd_entry_id, imd_entry_at, imd_entry_to_imdr.
    change (single A) with (single A'). unfold single. cbn [lg sm].
    pose proof (awf_geometry A Hw) as (? & ? & ? & ? & ? & ? & ? & ? & ? & ? & ? & _).
    assert (Hhas : imdr_has_entry m' (handle A') (a_root A + 20 + 16 * a_len A) = true).
    { apply (has_entry_refines m' A' (a_len A)); [done|done|]. unfold a_len, A'.
      cbn [a_entries a_with_entries]. rewrite length_app. simpl. lia. }
    rewrite Hhas. unfold imdr_entry_at, read_entry. cbn [e_size e_id e_start_offset].
    rewrite E2, E3, E4. cbn [ae_off ae_size ae_id]. split; [done|]. split; [done|]. split; [|done].
    rewrite s32_u32; [done|]. destruct (align_used (a_align A) size ltac:(apply Hw) Hs). lia.
  - rewrite Ha. split; [|done]. split; [by intros [? ?]|done].
Qed.

(** In every represented directory the allocations, in order
    of creation, lie below one another without overlap, below the root block,
    aligned, and above the size limit; lookup by id finds the oldest one. *)
Theorem imd_allocations_disjoint m A id i j e f :
  awf A -> rep m A ->
  a_entries A !! S i = Some e -> a_entries A !! j = Some f -> (j < S i)%nat ->
  ae_off e + ae_size e <= (if (j =? 0)%nat then 0 else ae_off f) /\
  (a_align A | ae_off e) /\ (a_max_offset A <> 0 -> a_max_offset A <= ae_off e) /\
  imd_entry_find m (single A) id =
    (fun p => a_root A + 20 + 16 * (Z.of_nat (fst p) + 1)) <$>
      list_find (fun x => ae_id x = id) (tail (a_entries A)).
Proof.
  intros Hw Hr He Hf Hj. pose proof Hw as (_ & _ & _ & _ & _ & _ & _ & allocs & Ha & Hd).
  rewrite Ha in He, Hf. simpl in He.
  destruct (descending_bounds _ _ _ _ (root_entry A) i e Hd eq_refl He) as (B1 & B2 & _ & _ & _ & B5).
  split; [|split; [done|split]].
  - destruct j as [|j]; [simpl; lia|]. simpl in Hf |- *. clear -Hd He Hf Hj.
    revert i j Hd He Hf Hj. generalize 0 (a_low A). induction allocs as [|x l IH]; [done|].
    intros hi lo i j (D1 & D2 & D3 & D4 & D5) He Hf Hj. destruct i as [|i]; [lia|]. simpl in He.
    destruct j as [|j]; simpl in Hf; [|apply (IH _ _ i j D5 He Hf); lia].
    injection Hf as <-. by destruct (descending_bounds _ _ _ _ x i e D5 eq_refl He) as (_ & ? & _).
  - intros Hm. unfold a_low in B1. by rewrite (proj2 (Z.eqb_neq _ _)) in B1.
  - unfold imd_entry_find, single. cbn [lg sm]. change (imdr_entry_find m (mk_imdr 0 0) id) with (@None Z).
    cbv iota. by apply find_refines.
Qed.

(** [imd_entry_remove] takes back exactly the newest allocation
    of an unlocked directory, undoing the addition; any other entry, and every
    entry of a locked directory, is refused without a change.  Lockdown also
    refuses additions from then on. *)
Theorem imd_entry_remove_correct m A e :
  awf A -> rep m A -> e <> a_root A + 20 ->
  (if a_locked A || negb (e =? a_root A + 20 + 16 * (a_len A - 1))
   then imd_entry_remove m (single A) e = (-1, m)
   else exists m', imd_entry_remove m (single A) e = (0, m') /\ rep m' (a_pop A) /\
     forall x, ~ (a_root A <= x < a_limit A) -> m' x = m x) /\
  let '(ret, ml) := imd_lockdown m (single A) in
  ret = 0 /\ rep ml (a_with_flags (Z.lor (a_flags A) 1) A) /\
  imd_entry_remove ml (single A) e = (-1, ml) /\
  forall id size, 0 <= size <= 2 ^ 32 - 4096 -> 0 <= id < 2 ^ 32 ->
    imd_entry_add ml (single A) id size = (None, ml).
Proof.
  intros Hw Hr He. split.
  { pose proof (remove_refines m A e Hw Hr He) as H. destruct (_ || _); [done|].
    destruct H as (m' & H1 & H2 & _ & H3). by exists m'. }
  pose proof (awf_geometry A Hw) as (? & ? & _). unfold imd_lockdown, single. cbn [lg sm root handle].
  rewrite (proj2 (Z.eqb_neq _ _)) by lia. cbn [negb]. rewrite Z.eqb_refl. cbn [negb].
  destruct (lock_refines m A Hw Hr) as (Hr' & Hw' & Hl & _). fold (single A).
  set (A' := a_with_flags _ A) in *. set (ml := lock_root m (a_root A)) in *.
  change (single A) with (single A'). split; [done|]. split; [done|]. split.
  - pose proof (remove_refines ml A' e Hw' Hr' He) as H'. by rewrite Hl in H'.
  - intros id size Hs Hi. unfold imd_entry_add, single. cbn [sm lg root]. rewrite Z.eqb_refl.
    pose proof (add_refines ml A' id size Hw' Hr' Hs Hi) as H'. unfold a_add in H'. by rewrite Hl in H'.
Qed.

Lemma align_up_multiple j x :
  0 <= j <= 12 -> 0 <= x <= 2 ^ 32 - 4096 -> (2 ^ j | x) -> ALIGN_UP 32 x (2 ^ j) = x.
Proof.
  intros Hj Hx [q Hq]. pose proof (Z.pow_le_mono_r 2 j 12 ltac:(lia) ltac:(lia)).
  pose proof (Z.pow_pos_nonneg 2 j ltac:(lia) ltac:(lia)).
  destruct (align_up_bounds 32 j x ltac:(lia) ltac:(lia) ltac:(lia)) as [H1 [q' Hq']].
  rewrite Hq' in *. assert (q' = q) by nia. lia.
Qed.

(** The space reserved for the small region. *)
Definition small_region_size (la sr sa : Z) : Z := ALIGN_UP 32 (((sr - 28) / 16) * sa + sr) la.

Lemma small_region_size_spec la sr sa :
  (exists j, 0 <= j <= 12 /\ la = 2 ^ j) -> (exists k, 6 <= k <= 12 /\ sr = 2 ^ k) ->
  (exists j, 0 <= j <= 12 /\ sa = 2 ^ j) ->
  sr <= small_region_size la sr sa < 2 ^ 21 /\ (la | small_region_size la sr sa) /\
  ALIGN_UP 32 (u32 (u32 (root_num_entries sr * sa) + sr)) la = small_region_size la sr sa.
Proof.
  intros (j & Hj & ->) (k & Hk & ->) (j' & Hj' & ->).
  pose proof (Z.pow_le_mono_r 2 j 12 ltac:(lia) ltac:(lia)).
  pose proof (Z.pow_le_mono_r 2 j' 12 ltac:(lia) ltac:(lia)).
  pose proof (Z.pow_le_mono_r 2 k 12 ltac:(lia) ltac:(lia)).
  pose proof (Z.pow_le_mono_r 2 6 k ltac:(lia) ltac:(lia)).
  pose proof (Z.pow_pos_nonneg 2 j' ltac:(lia) ltac:(lia)).
  assert (Hn : 0 <= (2 ^ k - 28) / 16 < 255)
    by (split; [apply Z.div_pos; lia|apply Z.div_lt_upper_bound; lia]).
  set (n := (2 ^ k - 28) / 16) in *.
  assert (Hprod : 0 <= n * 2 ^ j' <= 254 * 4096) by (split; [lia|apply Z.mul_le_mono_nonneg; lia]).
  unfold small_region_size. fold n.
  destruct (align_up_bounds 32 j (n * 2 ^ j' + 2 ^ k) ltac:(lia) ltac:(lia) ltac:(lia)) as [Hup Hdv].
  split; [lia|]. split; [done|].
  assert (Hre : root_num_entries (2 ^ k) = n).
  { unfold root_num_entries, sizeof_root_pointer, sizeof_root, sizeof_entry.
    rewrite (u32_small (2 ^ k - 8)), u32_small by lia. unfold n. f_equal. lia. }
  rewrite Hre, (u32_small (n * _)), u32_small by lia. done.
Qed.

(** What an entry found in a region says. *)
Lemma find_entry m A id k e : awf A -> rep m A -> a_find A id = Some (k, e) ->
  imdr_entry_at m (handle A) (a_root A + 20 + 16 * (Z.of_nat k + 1)) = u32 (a_root A + ae_off e) /\
  imdr_entry_size m (a_root A + 20 + 16 * (Z.of_nat k + 1)) = ae_size e /\
  a_entries A !! S k = Some e /\ ae_id e = id /\ - 2 ^ 31 <= ae_off e <= 0.
Proof.
  intros Hw Hr Hf. apply list_find_Some in Hf as (Hk & Hid & _). rewrite lookup_tail in Hk.
  pose proof Hr as (_ & _ & _ & _ & _ & He & _). destruct (He (S k) e Hk) as (_ & He1 & He2 & _).
  pose proof (awf_geometry A Hw) as (_ & _ & _ & _ & _ & _ & _ & _ & _ & _ & Hlow & _).
  pose proof Hw as (_ & _ & _ & _ & _ & _ & _ & allocs & Ha & Hd). rewrite Ha in Hk. simpl in Hk.
  destruct (descending_bounds _ _ _ _ (root_entry A) k e Hd eq_refl Hk) as (B1 & B2 & B3 & _).
  rewrite Ha. split_and!; try done; try lia.
  - unfold imdr_entry_at, read_entry, relative_pointer. cbn [e_start_offset root handle].
    replace (Z.of_nat k + 1) with (Z.of_nat (S k)) by lia. rewrite He1, s32_u32 by lia. done.
  - unfold imdr_entry_size, read_entry. cbn [e_size]. by replace (Z.of_nat k + 1) with (Z.of_nat (S k)) by lia.
Qed.

(** The small region is found from the large one's entry for it. *)
Lemma recover_tiered m A B upper off size k :
  awf A -> rep m A -> above_zero A -> awf B -> rep m B -> above_zero B ->
  a_limit A = ALIGN_DOWN 32 upper LIMIT_ALIGN ->
  a_find A SMALL_REGION_ID = Some (k, mk_aentry off size SMALL_REGION_ID) -> a_root A + off + size = a_limit B ->
  imd_recover m (imd_handle_init upper) = (0, mk_imd (handle A) (handle B)).
Proof.
  intros HwA HrA HzA HwB HrB HzB HlA Hfind Hlim.
  destruct (find_entry m A SMALL_REGION_ID k _ HwA HrA Hfind) as (Hat & Hsize & _).
  unfold imd_recover, imd_handle_init, imdr_init. cbn [lg sm]. rewrite <- HlA.
  rewrite (recover_refines m A 0) by done. cbn [Z.eqb negb]. rewrite (find_refines m A _ HwA HrA), Hfind.
  cbn [fmap option_fmap option_map fst]. rewrite Hat, Hsize. cbn [ae_off ae_size].
  replace (u32 (u32 (a_root A + off) + size)) with (a_limit B)
    by (rewrite <- Hlim; pose proof (awf_geometry B HwB); rewrite <- (u32_small (a_root A + off + size)) by lia;
        unfold u32, wrap; by rewrite Zplus_mod_idemp_l).
  change (root (mk_imdr (ALIGN_DOWN 32 0 LIMIT_ALIGN) 0)) with 0. cbn [root].
  by rewrite (recover_refines m B 0).
Qed.

(** The two regions of a new two-tier directory. *)
Definition tier_large (lim la S : Z) : aroot :=
  a_with_entries [root_entry (new_root lim 4096 la); mk_aentry (- S) S SMALL_REGION_ID] (new_root lim 4096 la).
Definition tier_small (lim sr sa S : Z) : aroot := a_with_max_offset (sr - S) (new_root (lim - 4096) sr sa).

Lemma create_tiered m0 upper la sr sa :
  let lim := ALIGN_DOWN 32 upper LIMIT_ALIGN in
  let S := small_region_size la sr sa in
  0 <= upper < 2 ^ 32 -> (exists j, 0 <= j <= 12 /\ la = 2 ^ j) ->
  (exists k, 6 <= k <= 12 /\ sr = 2 ^ k) -> (exists j, 0 <= j <= 12 /\ sa = 2 ^ j) ->
  sa <= sr -> 4096 + S < lim ->
  let A := tier_large lim la S in
  let B := tier_small lim sr sa S in
  exists m,
    imd_create_tiered_empty m0 (imd_handle_init upper) 4096 la sr sa = (0, mk_imd (handle A) (handle B), m) /\
    awf A /\ rep m A /\ awf B /\ rep m B /\
    imd_recover m (imd_handle_init upper) = (0, mk_imd (handle A) (handle B)).
Proof.
  intros lim S Hup Hla Hsr Hsa Hle Hlim A B.
  destruct (align_down_bounds 32 12 upper ltac:(lia) ltac:(lia)) as [Hb Hd].
  change (ALIGN_DOWN 32 upper (2 ^ 12)) with lim in *. change (2 ^ 12) with 4096 in *.
  destruct (small_region_size_spec la sr sa Hla Hsr Hsa) as (HS1 & HS2 & HS3). fold S in HS1, HS2, HS3.
  destruct Hla as (j & Hj & Hla). pose proof (Z.pow_le_mono_r 2 j 12 ltac:(lia) ltac:(lia)).
  assert (Hsr64 : 64 <= sr) by (destruct Hsr as (k & Hk & ->);
    pose proof (Z.pow_le_mono_r 2 6 k ltac:(lia) ltac:(lia)); lia).
  (* the large region *)
  destruct (create_refines m0 lim 4096 la Hd ltac:(lia) ltac:(by exists 12) ltac:(by exists j) ltac:(lia))
    as (m1 & Hc1 & Hr1 & _).
  pose proof (new_root_wf lim 4096 la Hd ltac:(lia) ltac:(by exists 12) ltac:(by exists j)) as Hw1.
  set (A0 := new_root lim 4096 la) in *.
  pose proof (add_refines m1 A0 SMALL_REGION_ID S Hw1 Hr1 ltac:(lia) ltac:(done)) as Hadd.
  assert (Hused : ALIGN_UP 32 S la = S) by (rewrite Hla; apply align_up_multiple; [done|lia|by rewrite <- Hla]).
  rewrite a_add_spec in Hadd. cbn [a_align A0 new_root] in Hadd. fold A0 in Hadd. rewrite Hused in Hadd.
  rewrite bool_decide_eq_true_2 in Hadd by (change (a_last A0) with 0; change (a_left A0) with (2 ^ 32 - 1);
    change (a_len A0) with 1; change (a_max A0) with 254; split; [reflexivity|]; lia).
  change (a_last A0 - S) with (0 - S) in Hadd. rewrite Z.sub_0_l in Hadd.
  destruct Hadd as (m2 & Hadd & Hr2 & Hw2 & _).
  change (a_with_entries _ A0) with A in Hr2, Hw2.
  (* the small region *)
  assert (Hroot : a_root A = lim - 4096) by done.
  assert (HdR : (4096 | lim - 4096)) by (apply Z.divide_sub_r; [done|apply Z.divide_refl]).
  destruct (create_refines m2 (lim - 4096) sr sa HdR ltac:(lia) Hsr Hsa Hle) as (m3 & Hc3 & Hr3 & Hx3).
  pose proof (new_root_wf (lim - 4096) sr sa HdR ltac:(lia) Hsr Hsa) as Hw3.
  set (B0 := new_root (lim - 4096) sr sa) in *.
  assert (Hsrb : sr <= 4096) by (destruct Hsr as (k & Hk & ->); apply (Z.pow_le_mono_r 2 k 12); lia).
  destruct (limit_refines m3 B0 S Hw3 Hr3 ltac:(lia) ltac:(change (a_last B0) with 0; simpl; lia))
    as (m4 & Hl4 & Hr4 & Hw4 & Hx4).
  change (a_root_size B0) with sr in *. change (a_with_max_offset (sr - S) B0) with B in Hr4, Hw4.
  assert (HrA : rep m4 A).
  { apply (rep_ext m2); [done| |done]. intros x Hx. rewrite Hroot in Hx. change (a_limit A) with lim in Hx.
    rewrite Hx4 by (change (a_limit B0) with (lim - 4096); lia). apply Hx3. lia. }
  exists m4. split.
  { unfold imd_create_tiered_empty, imd_handle_init, imdr_init. cbn [lg sm]. fold lim. rewrite Hc1.
    cbn [Z.eqb negb]. rewrite HS3, Hadd.
    assert (Hat : u32 (imdr_entry_at m2 (handle A0) (a_root A0 + 20 + 16 * a_len A0) + S) = lim - 4096).
    { pose proof Hr2 as (_ & _ & _ & _ & _ & He & _). destruct (He 1%nat _ eq_refl) as (_ & He1 & _).
      unfold imdr_entry_at, read_entry, relative_pointer. cbn [e_start_offset root handle].
      change (a_len A0) with (Z.of_nat 1). change (a_root A0) with (a_root A). rewrite He1.
      cbn [ae_off]. rewrite s32_u32 by lia. rewrite (u32_small (a_root A + _)), u32_small by lia. lia. }
    rewrite Hat. change (root (mk_imdr (ALIGN_DOWN 32 0 LIMIT_ALIGN) 0)) with 0. cbn [root].
    rewrite Hc3. cbn [Z.eqb negb]. rewrite Hl4. cbn [Z.eqb negb]. done. }
  split; [done|]. split; [done|]. split; [done|]. split; [done|].
  apply (recover_tiered m4 A B upper (- S) S 0%nat); try done.
  - split; [change (a_last A) with (- S)|change (a_max_offset A) with 0]; lia.
  - assert (HrootB : a_root B = lim - 4096 - sr) by done.
    split; [change (a_last B) with 0|change (a_max_offset B) with (sr - S)]; lia.
  - rewrite Hroot. change (a_limit B) with (lim - 4096). lia.
Qed.

(** Creating a two-tier directory (large root of one page) sets
    up both regions in memory; the small one lies exactly inside the large
    one's first allocation and is limited to it, and a later stage recovers
    both handles from the upper limit alone. *)
Theorem imd_create_tiered_correct m0 upper la sr sa :
  let lim := ALIGN_DOWN 32 upper LIMIT_ALIGN in
  let S := small_region_size la sr sa in
  0 <= upper < 2 ^ 32 -> (exists j, 0 <= j <= 12 /\ la = 2 ^ j) ->
  (exists k, 6 <= k <= 12 /\ sr = 2 ^ k) -> (exists j, 0 <= j <= 12 /\ sa = 2 ^ j) ->
  sa <= sr -> 4096 + S < lim ->
  exists m A B,
    imd_create_tiered_empty m0 (imd_handle_init upper) 4096 la sr sa = (0, mk_imd (handle A) (handle B), m) /\
    awf A /\ rep m A /\ awf B /\ rep m B /\ a_limit A = lim /\ a_limit B = a_root A /\
    a_root B + a_max_offset B = a_root A - S /\
    a_entries A = [root_entry A; mk_aentry (- S) S SMALL_REGION_ID] /\
    imd_recover m (imd_handle_init upper) = (0, mk_imd (handle A) (handle B)).
Proof.
  intros lim S Hup Hla Hsr Hsa Hle Hlim.
  destruct (create_tiered m0 upper la sr sa Hup Hla Hsr Hsa Hle Hlim) as (m & E & HA & HrA & HB & HrB & Hrec).
  exists m, (tier_large lim la S), (tier_small lim sr sa S). split_and!; try done.
  unfold tier_small, a_root. cbn. lia.
Qed.

(** *** Concrete behaviour and witnesses *)

Definition zero_mem : memory := fun _ => 0.
Definition demo_imd : Z * imd * memory :=
  imd_create_empty zero_mem (imd_handle_init 0x80000123) 4096 32.

(** [max_offset == 0] stands for "no limit", so limiting a
    directory to exactly its root size (which must leave no room) removes the
    limit; and a limit below what is already used makes the space left wrap. *)
Theorem imd_limit_size_ineffective :
  let '(_, h, m) := demo_imd in
  let '(r1, m1) := imd_limit_size m h 4096 in
  let '(r2, m2) := imd_limit_size (snd (imd_entry_add m h 1 0x2000)) h 0x2000 in
  r1 = 0 /\ is_Some (fst (imd_entry_add m1 h 1 0x10000)) /\
  r2 = 0 /\ is_Some (fst (imd_entry_add m2 h 2 0x10000)) /\
  fst (imd_entry_add (snd (imd_limit_size m h 0x1fff)) h 1 0x10000) = None.
Proof. vm_compute. split_and!; try reflexivity; try discriminate; by eexists. Qed.

(** A root of 32 bytes passes the size check of
    [imdr_create_empty] although it has room for no entry: the entry for the
    root overwrites the root pointer, creation still reports success, further
    entries are handed out, and recovery fails. *)
Theorem imd_create_no_entries :
  let '(ret, h, m) := imd_create_empty zero_mem (imd_handle_init 0x80000000) 32 4 in
  ret = 0 /\ max_entries m (root (lg h)) = 0 /\ num_entries m (root (lg h)) = 1 /\
  is_Some (fst (imd_entry_add m h 1 16)) /\
  fst (imd_recover m (imd_handle_init 0x80000000)) = -1.
Proof. vm_compute. split_and!; try reflexivity; try discriminate; by eexists. Qed.

(** With a large root smaller than a page the small
    region's limit is not page-aligned: creation succeeds, recovery of what was
    created fails. *)
Theorem imd_tiered_small_root_unrecoverable :
  let '(ret, h, m) := imd_create_tiered_empty zero_mem (imd_handle_init 0x80000000) 2048 1024 1024 32 in
  ret = 0 /\ fst (imd_recover m (imd_handle_init 0x80000000)) = -1.
Proof. vm_compute. split_and!; try reflexivity; try discriminate; by eexists. Qed.

(** Size near 2^32: the rounded-up size wraps to 0. *)
Lemma imd_entry_add_wraps :
  let '(_, h, m) := demo_imd in
  is_Some (fst (imd_entry_add (snd (imd_limit_size m h 0x10000)) h 1 0xfffffff0)).
Proof. vm_compute. by eexists. Qed.

(** Adding an id twice: two entries, not NULL as [imd.h] says. *)
Lemma imd_entry_add_duplicate :
  let '(_, h, m) := demo_imd in
  let '(e1, m1) := imd_entry_add m h 1 16 in
  let '(e2, m2) := imd_entry_add m1 h 1 16 in
  is_Some e1 /\ is_Some e2 /\ e1 <> e2.
Proof. vm_compute. split_and!; try reflexivity; try discriminate; by eexists. Qed.

Definition demo_root : aroot := new_root 0x80000000 4096 32.

Lemma demo_root_wf : awf demo_root.
Proof.
  apply new_root_wf; [by exists 0x80000|lia|by exists 12|by exists 5].
Qed.

Definition demo_mem : memory := snd demo_imd.

Lemma demo_rep : rep demo_mem demo_root.
Proof.
  destruct (create_refines zero_mem 0x80000000 4096 32 ltac:(by exists 0x80000) ltac:(lia)
    ltac:(by exists 12) ltac:(by exists 5) ltac:(lia)) as (m & Hc & Hr & _).
  unfold demo_mem, demo_imd, imd_create_empty, imd_handle_init, imdr_init. cbn [lg sm].
  change (ALIGN_DOWN 32 0x80000123 LIMIT_ALIGN) with 0x80000000. rewrite Hc. exact Hr.
Qed.

(** A directory below 2 GiB with an allocation: recovered, with the allocation in it. *)
Lemma imd_create_run_recover_witness : exists m h,
  imd_create_empty zero_mem (imd_handle_init 0x80000123) 4096 32 = (0, h, m) /\
  let m' := snd (imd_entry_add m h 7 100) in
  imd_recover m' (imd_handle_init 0x80000123) = (0, h) /\
  exists A, rep m' A /\ h = single A.
Proof.
  destruct (imd_create_run_recover zero_mem 0x80000123 4096 32 ltac:(lia) ltac:(by exists 12)
    ltac:(by exists 5) ltac:(split; vm_compute; [discriminate|reflexivity])) as (m & h & H1 & _ & H2 & H3).
  exists m, h. split; [exact H1|].
  change (ALIGN_DOWN 32 0x80000123 LIMIT_ALIGN) with 0x80000000 in *.
  destruct (H2 m ltac:(apply run_refl)) as (A0 & Hp & _ & _ & Hh & _).
  assert (E : h = single (new_root 0x80000000 4096 32)) by (rewrite Hh; unfold single; by rewrite (same_place_handle _ _ Hp)).
  assert (Hrun : forall fit, imd_run fit (new_root 0x80000000 4096 32) m (snd (imd_entry_add m h 7 100))).
  { intros fit. rewrite E. apply run_add; [apply run_refl|lia|lia|]. intros _. split; [done|].
    intros base used Hu. assert (Em : m = snd (imd_create_empty zero_mem (imd_handle_init 0x80000123) 4096 32)) by (by rewrite H1).
    rewrite Em in Hu. vm_compute in Hu. injection Hu as <- <-. vm_compute. discriminate. }
  cbv zeta. split; [exact (H3 _ (Hrun true))|].
  destruct (H2 _ (Hrun false)) as (A & _ & _ & Hr & E' & _). exists A. split; [exact Hr|exact E'].
Defined.

Lemma imd_entry_add_witness :
  fst (imd_entry_add demo_mem (single demo_root) 7 100) = Some (a_root demo_root + 20 + 16) /\
  is_Some (fst (imd_entry_add demo_mem (single demo_root) 7 100)).
Proof.
  pose proof (imd_entry_add_correct demo_mem demo_root 7 100 demo_root_wf demo_rep ltac:(lia) ltac:(lia)) as H.
  cbv zeta in H. destruct (imd_entry_add demo_mem (single demo_root) 7 100) as [e m'] eqn:E.
  assert (He : e = Some (a_root demo_root + 20 + 16))
    by (apply (f_equal fst) in E; vm_compute in E; by symmetry).
  split; [exact He|]. apply (proj1 H). split; [reflexivity|]. split; [vm_compute; discriminate|].
  split; vm_compute; discriminate.
Defined.

Lemma imd_entry_remove_witness : exists ml,
  imd_lockdown demo_mem (single demo_root) = (0, ml) /\
  imd_entry_add ml (single demo_root) 7 100 = (None, ml).
Proof.
  pose proof (imd_entry_remove_correct demo_mem demo_root 0 demo_root_wf demo_rep ltac:(vm_compute; discriminate))
    as [_ H].
  destruct (imd_lockdown demo_mem (single demo_root)) as [ret ml]. destruct H as (-> & _ & _ & H).
  exists ml. split; [reflexivity|]. apply H; lia.
Defined.

Definition demo_root2 : aroot :=
  a_with_entries (a_entries demo_root ++ [mk_aentry (-128) 100 7]) demo_root.

Lemma imd_allocations_disjoint_witness : exists m, rep m demo_root2 /\ -128 + 100 <= 0 /\
  imd_entry_find m (single demo_root2) 7 = Some (a_root demo_root + 20 + 16).
Proof.
  pose proof (add_refines demo_mem demo_root 7 100 demo_root_wf demo_rep ltac:(lia) ltac:(lia)) as H.
  change (a_add demo_root 7 100) with (Some demo_root2) in H. destruct H as (m & _ & Hr & Hw & _).
  exists m. split; [exact Hr|].
  destruct (imd_allocations_disjoint m demo_root2 7 0 0 (mk_aentry (-128) 100 7) (root_entry demo_root2)
    Hw Hr eq_refl eq_refl ltac:(lia)) as (H1 & _ & _ & H2).
  split; [exact H1|]. rewrite H2. reflexivity.
Defined.

Lemma imd_create_tiered_witness : exists m A B,
  imd_create_tiered_empty zero_mem (imd_handle_init 0x80000123) 4096 4096 1024 32 =
    (0, mk_imd (handle A) (handle B), m) /\ a_limit B = a_root A.
Proof.
  destruct (imd_create_tiered_correct zero_mem 0x80000123 4096 1024 32 ltac:(lia) ltac:(by exists 12)
    ltac:(by exists 10) ltac:(by exists 5) ltac:(lia) ltac:(vm_compute; reflexivity))
    as (m & A & B & H1 & _ & _ & _ & _ & _ & H2 & _).
  exists m, A, B. split; [exact H1|exact H2].
Defined.
