(* ===== verification/Cbmem.v ===== *)
(** * CBMEM ([src/lib/imd_cbmem.c], [src/lib/cbmem_common.c])

    The two-tier directory below [cbmem_top] that every stage allocates from.
    Ramstage keeps its handle in a global; before that a stage finds the directory
    anew at each access.  The abstract state is a map from ids to regions; the
    theorems follow it from romstage's first call through any number of stages. *)

From S2P Require Import Prelude Imd.

Definition DYN_CBMEM_ALIGN_SIZE : Z := 4096.
Definition CBMEM_ROOT_MIN_SIZE : Z := DYN_CBMEM_ALIGN_SIZE.
Definition CBMEM_LG_ALIGN : Z := CBMEM_ROOT_MIN_SIZE.
Definition CBMEM_SM_ROOT_SIZE : Z := 1024.
Definition CBMEM_SM_ALIGN : Z := 32.

(** The static handle of [cbmem_get_imd], and memory. *)
Record cbmem := mk_cbmem { imd_cbmem : imd; cb_mem : memory }.
Definition set_cb_mem (m : memory) (st : cbmem) : cbmem := mk_cbmem (imd_cbmem st) m.

(** [struct lb_cbmem_entry] without its tag and size. *)
Record lb_cbmem_entry := mk_lb_entry { lb_address : Z; lb_entry_size : Z; lb_id : Z }.

Section Cbmem.
Variable CAN_USE_GLOBALS PRE_RAM : bool.
(** The address [cbmem_top] returns, the same in all stages. *)
Variable cbmem_top : Z.
(** The functions between [_cbmem_init_hooks] and [_ecbmem_init_hooks]. *)
Variable init_hooks : list (Z -> cbmem -> cbmem).

(** What [imd_handle_init] and the calls after it leave in the handle. *)
Definition imd_init_backing (h : imd) (st : cbmem) : cbmem :=
  mk_cbmem (if CAN_USE_GLOBALS then h else imd_cbmem st) (cb_mem st).

Definition imd_init_backing_with_recover (st : cbmem) : imd :=
  if CAN_USE_GLOBALS then imd_cbmem st
  else imd_handle_init_partial_recovery (cb_mem st) (imd_handle_init cbmem_top).

Definition cbmem_run_init_hooks (is_recovery : Z) (st : cbmem) : cbmem :=
  fold_left (fun st hook => hook is_recovery st) init_hooks st.

(** Pointers are addresses, 0 for NULL. *)
Definition cbmem_entry_add (id size64 : Z) (st : cbmem) : Z * cbmem :=
  let h := imd_init_backing_with_recover st in
  let '(e, m) := imd_entry_find_or_add (cb_mem st) h id (u32 size64) in
  (default 0 e, set_cb_mem m st).

Definition cbmem_add (id size : Z) (st : cbmem) : Z * cbmem :=
  let h := imd_init_backing_with_recover st in
  match imd_entry_find_or_add (cb_mem st) h id (u32 size) with
  | (None, m) => (0, set_cb_mem m st)
  | (Some e, m) => (default 0 (imd_entry_at m h e), set_cb_mem m st)
  end.

Definition cbmem_entry_find (id : Z) (st : cbmem) : Z :=
  let h := imd_init_backing_with_recover st in default 0 (imd_entry_find (cb_mem st) h id).

Definition cbmem_find (id : Z) (st : cbmem) : Z :=
  let h := imd_init_backing_with_recover st in
  match imd_entry_find (cb_mem st) h id with
  | None => 0
  | Some e => default 0 (imd_entry_at (cb_mem st) h e)
  end.

Definition cbmem_entry_remove (entry : Z) (st : cbmem) : Z * cbmem :=
  let h := imd_init_backing_with_recover st in
  let '(ret, m) := imd_entry_remove (cb_mem st) h entry in (ret, set_cb_mem m st).

Definition cbmem_entry_size (entry : Z) (st : cbmem) : Z := imd_entry_size (cb_mem st) entry.

Definition cbmem_entry_start (entry : Z) (st : cbmem) : Z :=
  default 0 (imd_entry_at (cb_mem st) (imd_init_backing_with_recover st) entry).

Definition cbmem_initialize_empty_id_size (id size : Z) (st : cbmem) : cbmem :=
  let '(ret, h, m) :=
    imd_create_tiered_empty (cb_mem st) (imd_handle_init cbmem_top)
      CBMEM_ROOT_MIN_SIZE CBMEM_LG_ALIGN CBMEM_SM_ROOT_SIZE CBMEM_SM_ALIGN in
  let st := imd_init_backing h (set_cb_mem m st) in
  if negb (ret =? 0) then st
  else
    let st := if negb (size =? 0) then snd (cbmem_add id size st) else st in
    cbmem_run_init_hooks 0 st.

Definition cbmem_initialize_empty (st : cbmem) : cbmem := cbmem_initialize_empty_id_size 0 0 st.

Definition cbmem_initialize_id_size (id size : Z) (st : cbmem) : Z * cbmem :=
  let '(ret, h) := imd_recover (cb_mem st) (imd_handle_init cbmem_top) in
  let st := imd_init_backing h st in
  if negb (ret =? 0) then (1, st)
  else
    let st := if PRE_RAM then set_cb_mem (snd (imd_lockdown (cb_mem st) h)) st else st in
    let st := if negb (size =? 0) then snd (cbmem_add id size st) else st in
    (0, cbmem_run_init_hooks 1 st).

Definition cbmem_initialize (st : cbmem) : Z * cbmem := cbmem_initialize_id_size 0 0 st.

Definition cbmem_recovery (is_wakeup : bool) (st : cbmem) : Z * cbmem :=
  if negb is_wakeup then (0, cbmem_initialize_empty st) else cbmem_initialize st.

(** The records added to the coreboot table, in order; each round of the loop takes
    one entry of the directory. *)
Fixpoint records_loop (fuel : nat) (m : memory) (h : imd) (c : imd_cursor) : option (list lb_cbmem_entry) :=
  match fuel with
  | O => None
  | S fuel' =>
      match imd_cursor_next m c with
      | (None, _) => Some []
      | (Some e, c) =>
          let id := imd_entry_id m e in
          if (id =? CBMEM_ID_IMD_ROOT) || (id =? CBMEM_ID_IMD_SMALL) then records_loop fuel' m h c
          else
            (fun l => mk_lb_entry (default 0 (imd_entry_at m h e)) (imd_entry_size m e) id :: l)
              <$> records_loop fuel' m h c
      end
  end.

Definition cbmem_add_records_to_cbtable (fuel : nat) (st : cbmem) : option (list lb_cbmem_entry) :=
  if CAN_USE_GLOBALS then records_loop fuel (cb_mem st) (imd_cbmem st) (imd_cursor_init (imd_cbmem st))
  else Some [].
End Cbmem.

(** ** The directory in memory *)

Definition in_use (top : Z) : Z := ALIGN_DOWN 32 top LIMIT_ALIGN.

Definition valid_id (id : Z) : Prop := 0 <= id < 2 ^ 32 /\ id <> CBMEM_ID_IMD_SMALL /\ id <> CBMEM_ID_IMD_ROOT.

(** The large region [A] and the small region [B] inside its first allocation. *)
Record tiered (lim : Z) (m : memory) (A B : aroot) : Prop := {
  t_wfA : awf A; t_repA : rep m A; t_wfB : awf B; t_repB : rep m B;
  t_shapeA : a_limit A = lim /\ a_root_size A = 4096 /\ a_align A = 4096 /\ a_max_offset A = 0;
  t_shapeB : a_limit B = lim - 4096 /\ a_root_size B = 1024 /\ a_align B = 32 /\ a_max_offset B = -3072;
  t_small : take 2 (a_entries A) = [root_entry A; mk_aentry (-4096) 4096 SMALL_REGION_ID];
  t_room : 0 < lim - 4096 + a_last A
}.

Definition handles (A B : aroot) : imd := mk_imd (handle A) (handle B).

Lemma tiered_roots lim m A B : tiered lim m A B -> a_root A = lim - 4096 /\ a_root B = lim - 5120 /\ a_low B = -3072.
Proof.
  intros []. unfold a_root, a_low. destruct t_shapeA0 as (-> & -> & _ & _).
  destruct t_shapeB0 as (-> & -> & _ & ->). split; [lia|]. split; [lia|done].
Qed.

Lemma tiered_entries lim m A B : tiered lim m A B ->
  a_entries A = root_entry A :: mk_aentry (-4096) 4096 SMALL_REGION_ID :: drop 2 (a_entries A).
Proof. intros []. rewrite <- (take_drop 2 (a_entries A)) at 1. by rewrite t_small0. Qed.

Lemma small_found lim m A B : tiered lim m A B ->
  a_find A SMALL_REGION_ID = Some (0%nat, mk_aentry (-4096) 4096 SMALL_REGION_ID).
Proof. intros H. unfold a_find. by rewrite (tiered_entries _ _ _ _ H). Qed.

Lemma tiered_above lim m A B : tiered lim m A B -> 0 < lim - 8192 /\ above_zero A /\ above_zero B.
Proof.
  intros H. destruct (tiered_roots _ _ _ _ H) as (HA & HB & Hlow). destruct (tiered_entries _ _ _ _ H). destruct H.
  pose proof (awf_geometry B t_wfB0) as (_ & _ & _ & _ & _ & _ & _ & _ & _ & ? & _).
  assert (Hlast : a_last A <= -4096).
  { pose proof t_wfA0 as (_ & _ & _ & _ & _ & _ & _ & allocs & He & Hd).
    rewrite He in t_small0. destruct allocs as [|x allocs]; [done|]. simpl in t_small0. injection t_small0 as ->.
    unfold a_last. rewrite He, !last_cons_default. simpl in Hd. destruct Hd as (_ & _ & _ & _ & Hd).
    pose proof (descending_last _ _ _ _ (mk_aentry (-4096) 4096 SMALL_REGION_ID) Hd eq_refl).
    cbn [ae_off] in *. lia. }
  destruct t_shapeA0 as (_ & _ & _ & Hm), t_shapeB0 as (_ & _ & _ & Hm').
  split; [lia|]. unfold above_zero. rewrite HA, HB, Hm, Hm'. split; split; lia.
Qed.

(** Every way of getting the handle gives the same. *)
Lemma tiered_recover lim top m A B : tiered lim m A B -> lim = in_use top ->
  imd_recover m (imd_handle_init top) = (0, handles A B).
Proof.
  intros H ->. destruct (tiered_above _ _ _ _ H) as (_ & HzA & HzB). destruct (tiered_roots _ _ _ _ H) as (HA & HB & _).
  pose proof (small_found _ _ _ _ H). destruct H.
  apply (recover_tiered m A B top (-4096) 4096 0%nat); try done; [apply t_shapeA0|].
  rewrite HA. destruct t_shapeB0 as (-> & _). lia.
Qed.

Lemma root_found m A : awf A -> rep m A ->
  relative_pointer (imdr_get_root_pointer (handle A)) (root_offset m (imdr_get_root_pointer (handle A))) = a_root A.
Proof.
  intros Hw (_ & _ & _ & _ & _ & _ & R7 & R8). pose proof (awf_geometry A Hw) as (? & ? & ? & ? & _).
  unfold imdr_get_root_pointer, relative_pointer, root_offset, sizeof_root_pointer, handle. cbn [limit].
  change (- (8)) with (-8). rewrite (u32_small (a_limit A + -8)) by lia. replace (a_limit A + -8 + 4) with (a_limit A - 4) by lia.
  rewrite R8, s32_u32 by lia. rewrite u32_small by lia. lia.
Qed.

Lemma tiered_partial lim top m A B : tiered lim m A B -> lim = in_use top ->
  imd_handle_init_partial_recovery m (imd_handle_init top) = handles A B.
Proof.
  intros H ->. destruct (tiered_above _ _ _ _ H) as (Hl & _ & _). destruct (tiered_roots _ _ _ _ H) as (HA & HB & _).
  pose proof (small_found _ _ _ _ H) as Hf. destruct H. destruct t_shapeA0 as (HlA & _), t_shapeB0 as (HlB & _).
  pose proof (awf_geometry A t_wfA0) as (_ & _ & _ & HA4 & _).
  assert (Hidem : ALIGN_DOWN 32 (in_use top) LIMIT_ALIGN = in_use top).
  { pose proof (awf_geometry A t_wfA0) as (_ & ? & ? & _). pose proof t_wfA0 as ([q Hq] & _).
    change LIMIT_ALIGN with (2 ^ 12). rewrite align_down_pow2 by lia. rewrite <- HlA, Hq.
    change (2 ^ 12) with 4096. rewrite Z.mod_mul by lia. lia. }
  unfold imd_handle_init_partial_recovery, imd_handle_init, imdr_init. cbn [lg sm limit].
  fold (in_use top). rewrite (proj2 (Z.eqb_neq _ _)) by lia. rewrite Hidem.
  change (imdr_get_root_pointer (mk_imdr (in_use top) 0)) with (imdr_get_root_pointer (mk_imdr (in_use top) (a_root A))).
  rewrite <- HlA. change (mk_imdr (a_limit A) (a_root A)) with (handle A).
  rewrite root_found by done. change (mk_imdr (a_limit A) (a_root A)) with (handle A).
  rewrite (find_refines m A) by done. rewrite Hf. cbn [fmap option_fmap option_map fst].
  destruct (find_entry m A SMALL_REGION_ID 0%nat _ t_wfA0 t_repA0 Hf) as (-> & -> & _). cbn [ae_off ae_size].
  cbn [limit root].
  pose proof (awf_geometry B t_wfB0) as (_ & ? & ? & ? & _).
  replace (u32 (u32 (a_root A + -4096) + 4096)) with (a_limit B) by (rewrite (u32_small (a_root A + -4096)), u32_small by lia; lia).
  change (imdr_get_root_pointer (mk_imdr (a_limit B) 0)) with (imdr_get_root_pointer (handle B)).
  by rewrite root_found.
Qed.

(** ** The abstract state *)

(** Where each id's region is and how long it is, the total of the sizes asked for,
    and whether the directory is locked. *)
Record ghost := mk_ghost { g_map : gmap Z (Z * Z); g_total : Z; g_locked : bool }.

(** How many regions there are. *)
Definition regions (G : ghost) : Z := Z.of_nat (size (g_map G)).

Definition region_at (r : Z) (e : aentry) : Z * (Z * Z) := (ae_id e, (r + ae_off e, ae_size e)).
Definition small_allocs (B : aroot) : list (Z * (Z * Z)) := map (region_at (a_root B)) (tail (a_entries B)).
Definition large_allocs (A : aroot) : list (Z * (Z * Z)) := map (region_at (a_root A)) (drop 2 (a_entries A)).
Definition allocs (A B : aroot) : list (Z * (Z * Z)) := small_allocs B ++ large_allocs A.

Record holds (lim : Z) (m : memory) (G : ghost) (A B : aroot) : Prop := {
  h_tiered : tiered lim m A B;
  h_map : g_map G = list_to_map (allocs A B);
  h_ids : NoDup (allocs A B).*1;
  h_valid : Forall valid_id (allocs A B).*1;
  h_total : - a_last A <= 4096 + g_total G;
  h_bound : g_total G + 8192 < lim;
  h_locked : a_locked A = g_locked G /\ a_locked B = g_locked G
}.

Lemma find_none A id : a_find A id = None <-> id ∉ ae_id <$> tail (a_entries A).
Proof.
  unfold a_find. rewrite list_find_None, list.Forall_forall. setoid_rewrite list_elem_of_fmap. naive_solver.
Qed.

Lemma allocs_ids A B : (allocs A B).*1 = (ae_id <$> tail (a_entries B)) ++ (ae_id <$> drop 2 (a_entries A)).
Proof.
  unfold allocs, small_allocs, large_allocs. rewrite fmap_app. f_equal; rewrite <- list_fmap_compose; by apply list_fmap_ext.
Qed.

(** Lookup in the two regions and in the map. *)
Lemma holds_find lim m G A B id : holds lim m G A B -> valid_id id ->
  match a_find B id, a_find A id with
  | Some (k, e), _ => g_map G !! id = Some (a_root B + ae_off e, ae_size e)
  | None, Some (k, e) => g_map G !! id = Some (a_root A + ae_off e, ae_size e)
  | None, None => g_map G !! id = None
  end.
Proof.
  intros [Ht -> Hids _ _ _ _] (_ & Hne & _). pose proof (tiered_entries _ _ _ _ Ht) as He.
  destruct (a_find B id) as [[k e]|] eqn:EB; [|destruct (a_find A id) as [[k e]|] eqn:EA].
  - apply list_find_Some in EB as (Hk & <- & _). apply elem_of_list_to_map; [done|].
    apply elem_of_app. left. apply list_elem_of_fmap. exists e. split; [done|]. by eapply list_elem_of_lookup_2.
  - apply list_find_Some in EA as (Hk & <- & _). apply elem_of_list_to_map; [done|].
    apply elem_of_app. right. apply list_elem_of_fmap. exists e. split; [done|].
    rewrite He in Hk. destruct k as [|k]; simpl in Hk; [injection Hk as <-; done|].
    by eapply list_elem_of_lookup_2.
  - apply find_none in EA, EB. apply not_elem_of_list_to_map_1. rewrite allocs_ids.
    rewrite He in EA. cbn [tail fmap list_fmap] in EA. set_solver.
Qed.

Lemma descending_in al l : forall hi lo e, descending al hi lo l -> e ∈ l ->
  lo <= ae_off e /\ ae_off e + ae_size e <= hi /\ 0 <= ae_size e < 2 ^ 32 /\ (al | ae_off e).
Proof.
  intros hi lo e Hd [i Hi]%list_elem_of_lookup.
  destruct (descending_bounds al l hi lo (mk_aentry hi 0 0) i e Hd eq_refl Hi) as (? & ? & ? & _ & _ & ?). done.
Qed.

Lemma descending_disjoint al l : forall hi lo e f, descending al hi lo l -> e ∈ l -> f ∈ l -> e <> f ->
  ae_off e + ae_size e <= ae_off f \/ ae_off f + ae_size f <= ae_off e.
Proof.
  induction l as [|x l IH]; intros hi lo e f Hd He Hf Hne; [by apply elem_of_nil in He|].
  destruct Hd as (D1 & D2 & D3 & D4 & D5).
  apply elem_of_cons in He as [-> |He]; apply elem_of_cons in Hf as [-> |Hf]; [done|..|by apply (IH _ _ e f D5)].
  - right. by destruct (descending_in _ _ _ _ f D5 Hf) as (_ & ? & _).
  - left. by destruct (descending_in _ _ _ _ e D5 He) as (_ & ? & _).
Qed.

Lemma descending_raise al lo l : forall hi d,
  descending al hi lo l -> ae_off d = hi -> descending al hi (ae_off (List.last l d)) l.
Proof.
  induction l as [|x l IH]; intros hi d; [simpl; lia|].
  intros (D1 & D2 & D3 & D4 & D5) Hd. rewrite last_cons_default. repeat (split; [done|]). by apply IH.
Qed.

(** The entries after a region's first, in order. *)
Lemma tiered_descending lim m A B : tiered lim m A B ->
  descending 32 0 (-3072) (tail (a_entries B)) /\ descending 4096 (-4096) (a_last A) (drop 2 (a_entries A)).
Proof.
  intros H. destruct (tiered_roots _ _ _ _ H) as (_ & _ & Hlow). pose proof (tiered_entries _ _ _ _ H) as HeA. destruct H.
  destruct t_shapeA0 as (_ & _ & HalA & _), t_shapeB0 as (_ & _ & HalB & _). split.
  - pose proof t_wfB0 as (_ & _ & _ & _ & _ & _ & _ & allocs & He & Hd). rewrite He, <- HalB, <- Hlow. done.
  - pose proof t_wfA0 as (_ & _ & _ & _ & _ & _ & _ & allocs & He & Hd). rewrite HalA in Hd.
    rewrite He in HeA. injection HeA as HeA. unfold a_last. rewrite He. rewrite HeA in Hd |- *.
    destruct Hd as (_ & _ & _ & _ & Hd). cbn [ae_off] in Hd. rewrite !last_cons_default.
    by apply (descending_raise _ _ _ _ (mk_aentry (-4096) 4096 SMALL_REGION_ID)) in Hd.
Qed.

Definition within_small (lim a n : Z) : Prop := lim - 8192 <= a /\ a + n <= lim - 5120.
Definition within_large (lim low a n : Z) : Prop := low <= a /\ a + n <= lim - 8192.

Lemma holds_region lim m G A B id a n : holds lim m G A B -> g_map G !! id = Some (a, n) ->
  valid_id id /\ 0 <= n < 2 ^ 32 /\ (32 | a) /\
  ((within_small lim a n /\ exists e, e ∈ tail (a_entries B) /\ region_at (a_root B) e = (id, (a, n))) \/
   (within_large lim (lim - 4096 + a_last A) a n /\
    exists e, e ∈ drop 2 (a_entries A) /\ region_at (a_root A) e = (id, (a, n)))).
Proof.
  intros [Ht Hmap _ Hv _ _ _] Hl. rewrite Hmap in Hl. apply elem_of_list_to_map_2 in Hl.
  destruct (tiered_roots _ _ _ _ Ht) as (HA & HB & _). destruct (tiered_descending _ _ _ _ Ht) as [DB DA].
  pose proof Ht as [HwA _ HwB _ (HlA & _) (HlB & _) _ _].
  assert (Hdiv : (4096 | lim)) by (destruct HwA as (? & _); by rewrite <- HlA).
  rewrite list.Forall_forall in Hv. split.
  { apply Hv. by apply (list_elem_of_fmap_2 fst _ _ Hl). }
  apply elem_of_app in Hl as [Hl|Hl]; apply list_elem_of_fmap in Hl as (e & [= -> -> ->] & He).
  - destruct (descending_in _ _ _ _ e DB He) as (? & ? & ? & ?). split; [done|]. split.
    { apply Z.divide_add_r; [|done]. rewrite HB. apply Z.divide_sub_r; [|by exists 160].
      apply Z.divide_trans with 4096; [by exists 128|done]. }
    left. rewrite HB. split; [unfold within_small; lia|]. by exists e.
  - destruct (descending_in _ _ _ _ e DA He) as (? & ? & ? & ?). split; [done|]. split.
    { apply Z.divide_trans with 4096; [by exists 128|]. rewrite HA. apply Z.divide_add_r; [|done].
      apply Z.divide_sub_r; [done|by exists 1]. }
    right. rewrite HA. split; [unfold within_large; lia|]. by exists e.
Qed.

Lemma holds_disjoint lim m G A B i1 i2 a1 n1 a2 n2 : holds lim m G A B ->
  g_map G !! i1 = Some (a1, n1) -> g_map G !! i2 = Some (a2, n2) -> i1 <> i2 -> a1 + n1 <= a2 \/ a2 + n2 <= a1.
Proof.
  intros H H1 H2 Hne. destruct (tiered_descending _ _ _ _ (h_tiered _ _ _ _ _ H)) as [DB DA].
  destruct (holds_region _ _ _ _ _ _ _ _ H H1) as (_ & _ & _ & C1).
  destruct (holds_region _ _ _ _ _ _ _ _ H H2) as (_ & _ & _ & C2).
  unfold within_small, within_large in *.
  destruct C1 as [(B1 & e & He & [= <- <- <-])|(B1 & e & He & [= <- <- <-])],
    C2 as [(B2 & f & Hf & [= <- <- <-])|(B2 & f & Hf & [= <- <- <-])]; [|lia..|].
  - destruct (descending_disjoint _ _ _ _ e f DB He Hf); [congruence|lia..].
  - destruct (descending_disjoint _ _ _ _ e f DA He Hf); [congruence|lia..].
Qed.

(** ** The operations on the directory *)

Lemma small_not_in_large lim m A B i : tiered lim m A B -> 0 <= i < a_len B ->
  imdr_has_entry m (handle A) (a_root B + 20 + 16 * i) = false.
Proof.
  intros H Hi. destruct (tiered_roots _ _ _ _ H) as (HA & HB & _). destruct (tiered_above _ _ _ _ H) as (Hl & _). destruct H.
  pose proof (awf_geometry A t_wfA0) as (_ & _ & _ & HA4 & HlenA & _).
  pose proof (awf_geometry B t_wfB0) as (_ & _ & _ & _ & HlenB & _).
  destruct t_shapeA0 as (HlA & HsA & _), t_shapeB0 as (_ & HsB & _).
  assert (HmA : a_max A = 254) by (unfold a_max; by rewrite HsA).
  assert (HmB : a_max B = 62) by (unfold a_max; by rewrite HsB).
  unfold imdr_has_entry, handle. cbn [root]. rewrite (proj2 (Z.eqb_neq _ _)) by lia.
  unfold entry_addr, sizeof_root, sizeof_entry. rewrite HA, HB, (u32_small (lim - 4096 + 20 + 0 * 16)) by lia.
  rewrite s32_small by lia. replace (lim - 5120 + 20 + 16 * i - (lim - 4096 + 20 + 0 * 16)) with ((i - 64) * 16) by lia.
  rewrite Z.div_mul by lia. unfold num_entries. pose proof (proj1 (proj2 t_repA0)) as Hn. rewrite HA in Hn.
  rewrite Hn. apply negb_false_iff, Z.leb_le.
  unfold u32, wrap. rewrite <- (Z.mod_add (i - 64) 1) by lia. rewrite Z.mod_small; lia.
Qed.

Lemma entry_in_large lim m A B i : tiered lim m A B -> 0 <= i < a_len A ->
  imd_entry_to_imdr m (handles A B) (a_root A + 20 + 16 * i) = Some (handle A).
Proof. intros [] Hi. unfold imd_entry_to_imdr, handles. cbn [lg sm]. by rewrite has_entry_refines. Qed.

Lemma entry_in_small lim m A B i : tiered lim m A B -> 0 <= i < a_len B ->
  imd_entry_to_imdr m (handles A B) (a_root B + 20 + 16 * i) = Some (handle B).
Proof.
  intros H Hi. unfold imd_entry_to_imdr, handles. cbn [lg sm]. rewrite (small_not_in_large _ _ _ _ _ H Hi).
  destruct H. by rewrite has_entry_refines.
Qed.

Lemma found_index A id k e : a_find A id = Some (k, e) -> 0 <= Z.of_nat k + 1 < a_len A.
Proof.
  intros (Hk & _)%list_find_Some. rewrite lookup_tail in Hk. apply lookup_lt_Some in Hk. unfold a_len. lia.
Qed.

Lemma tiered_limit lim m A B : tiered lim m A B -> 8192 < lim < 2 ^ 32 /\ a_last A <= 0 /\ 0 < lim - 4096 + a_last A.
Proof.
  intros H. destruct (tiered_above _ _ _ _ H) as (Hl & _). destruct H. destruct t_shapeA0 as (HlA & _).
  pose proof (awf_geometry A t_wfA0) as (_ & _ & _ & ? & _ & _ & _ & _ & _ & ? & _). lia.
Qed.

(** An id is found with its address and size. *)
Lemma find_spec lim m G A B id : holds lim m G A B -> valid_id id ->
  match g_map G !! id with
  | None => imd_entry_find m (handles A B) id = None
  | Some (a, n) => exists e, imd_entry_find m (handles A B) id = Some e /\ e <> 0 /\
      imd_entry_at m (handles A B) e = Some a /\ imd_entry_size m e = n
  end.
Proof.
  intros H Hid. pose proof (holds_find _ _ _ _ _ _ H Hid) as Hf. pose proof (h_tiered _ _ _ _ _ H) as Ht.
  pose proof Ht as [HwA HrA HwB HrB _ _ _ _]. destruct (tiered_roots _ _ _ _ Ht) as (EA & EB & _).
  pose proof (tiered_limit _ _ _ _ Ht) as (Hl & Hla & Hroom).
  unfold imd_entry_find, handles. cbn [lg sm]. rewrite !find_refines by done. fold (handles A B).
  destruct (a_find B id) as [[k e]|] eqn:FB; [|destruct (a_find A id) as [[k e]|] eqn:FA];
    rewrite Hf; cbn [fmap option_fmap option_map fst]; [..|done].
  - destruct (find_entry _ _ _ _ _ HwB HrB FB) as (Hat & Hsz & _). pose proof (found_index _ _ _ _ FB).
    destruct (holds_region _ _ _ _ _ _ _ _ H Hf) as (_ & Hn & _ & Hw). unfold within_small, within_large in Hw.
    eexists. split; [done|]. split; [lia|]. split; [|done].
    unfold imd_entry_at. rewrite (entry_in_small lim) by done. rewrite Hat. f_equal. apply u32_small. lia.
  - destruct (find_entry _ _ _ _ _ HwA HrA FA) as (Hat & Hsz & _). pose proof (found_index _ _ _ _ FA).
    destruct (holds_region _ _ _ _ _ _ _ _ H Hf) as (_ & Hn & _ & Hw). unfold within_small, within_large in Hw.
    eexists. split; [done|]. split; [lia|]. split; [|done].
    unfold imd_entry_at. rewrite (entry_in_large lim) by done. rewrite Hat. f_equal. apply u32_small. lia.
Qed.

Definition pages (size : Z) : Z := ALIGN_UP 32 size 4096.

(** A new region in the abstract state. *)
Definition noted (id a size : Z) (G : ghost) : ghost :=
  mk_ghost (<[id := (a, size)]> (g_map G)) (g_total G + pages size) (g_locked G).

Lemma last_offset A e : a_last (a_with_entries (a_entries A ++ [e]) A) = ae_off e.
Proof. unfold a_last. cbn [a_entries a_with_entries]. by rewrite last_last. Qed.

Lemma tail_snoc {A} (l : list A) x : l <> [] -> tail (l ++ [x]) = tail l ++ [x].
Proof. by destruct l. Qed.

Section Add.
Context (lim : Z) (m m' : memory) (G : ghost) (A B : aroot) (id size off : Z).
Hypotheses (H : holds lim m G A B) (Hid : valid_id id) (Hnew : g_map G !! id = None) (Hsize : 0 <= size <= 2 ^ 32 - 4096)
  (Hbound : g_total G + pages size + 8192 < lim).
Let e : aentry := mk_aentry off size id.

Lemma pages_nonneg : 0 <= pages size.
Proof using Hsize. destruct (align_up_bounds 32 12 size) as [? _]; [lia..|]. unfold pages. change 4096 with (2 ^ 12). lia. Qed.

Lemma new_id : id ∉ (allocs A B).*1.
Proof using H Hnew. apply not_elem_of_list_to_map. rewrite <- (h_map _ _ _ _ _ H). done. Qed.

(** The new region joins the list of all, wherever it is put. *)
Lemma new_alloc A' B' a : allocs A' B' ≡ₚ allocs A B ++ [(id, (a, size))] ->
  <[id := (a, size)]> (g_map G) = list_to_map (allocs A' B') /\ NoDup (allocs A' B').*1 /\
  Forall valid_id (allocs A' B').*1.
Proof using H Hid Hnew.
  intros P. pose proof new_id as Hn. destruct H as [_ Hm Hd Hv _ _ _].
  assert (P1 : (allocs A' B').*1 ≡ₚ (allocs A B).*1 ++ [id]) by (rewrite P; by rewrite fmap_app).
  assert (D : NoDup (allocs A' B').*1).
  { rewrite P1. apply NoDup_app. split; [done|]. split; [|apply NoDup_singleton].
    intros x Hx Hx'. apply list_elem_of_singleton in Hx'. by subst. }
  split; [|split; [done|]].
  - rewrite Hm, <- list_to_map_snoc by done. symmetry. apply list_to_map_proper; done.
  - rewrite P1. apply Forall_app. split; [done|]. by apply Forall_singleton.
Qed.

Lemma add_small_holds : rep m' (a_with_entries (a_entries B ++ [e]) B) -> awf (a_with_entries (a_entries B ++ [e]) B) ->
  (forall x, ~ (a_root B <= x < a_limit B) -> m' x = m x) ->
  holds lim m' (noted id (a_root B + off) size G) A (a_with_entries (a_entries B ++ [e]) B).
Proof using H Hid Hnew Hsize Hbound.
  intros Hr Hw Hx. pose proof (h_tiered _ _ _ _ _ H) as Ht. destruct (tiered_roots _ _ _ _ Ht) as (EA & EB & _).
  pose proof pages_nonneg. destruct (new_alloc A (a_with_entries (a_entries B ++ [e]) B) (a_root B + off)) as (N1 & N2 & N3).
  { unfold allocs, small_allocs. cbn [a_entries a_with_entries]. rewrite tail_snoc.
    - rewrite map_app. change (a_root (a_with_entries _ B)) with (a_root B). rewrite <- !app_assoc.
      apply Permutation_app_head, Permutation_app_comm.
    - destruct Ht. by pose proof (awf_geometry B t_wfB0) as (_ & _ & _ & _ & _ & _ & _ & _ & _ & _ & _ & ?). }
  pose proof H as [_ _ _ _ Htot _ [Hl1 Hl2]]. split; cbn [g_map g_total g_locked noted]; try done; [|lia].
  destruct Ht as [? ? ? ? (HlA & ?) (HlB & ?) ? ?]. split; try done.
  apply (rep_ext m); [done| |done]. intros x Hin. apply Hx. rewrite HlB. lia.
Qed.

Lemma add_large_holds : rep m' (a_with_entries (a_entries A ++ [e]) A) -> awf (a_with_entries (a_entries A ++ [e]) A) ->
  (forall x, ~ (a_root A <= x < a_limit A) -> m' x = m x) -> off = a_last A - pages size ->
  holds lim m' (noted id (a_root A + off) size G) (a_with_entries (a_entries A ++ [e]) A) B.
Proof using H Hid Hnew Hsize Hbound.
  intros Hr Hw Hx Hoff. pose proof (h_tiered _ _ _ _ _ H) as Ht. destruct (tiered_roots _ _ _ _ Ht) as (EA & EB & _).
  pose proof (tiered_entries _ _ _ _ Ht) as He.
  destruct (new_alloc (a_with_entries (a_entries A ++ [e]) A) B (a_root A + off)) as (N1 & N2 & N3).
  { unfold allocs, large_allocs. cbn [a_entries a_with_entries]. rewrite He. cbn [app drop].
    change (a_root (a_with_entries _ A)) with (a_root A). by rewrite drop_0, map_app, app_assoc. }
  pose proof H as [_ _ _ _ Htot _ [Hl1 Hl2]].
  assert (Hla : a_last (a_with_entries (a_entries A ++ [e]) A) = off) by apply last_offset.
  split; cbn [g_map g_total g_locked noted]; try done; [|lia].
  destruct Ht as [? ? ? ? (HlA & ?) (HlB & HsB & ?) ? ?]. split; try done.
  - apply (rep_ext m); [done| |done]. intros x Hin. apply Hx. lia.
  - cbn [a_entries a_with_entries]. rewrite He. done.
  - rewrite Hla. lia.
Qed.
End Add.

(** The outcomes of adding an id that is not there. *)
Definition added (lim : Z) (m : memory) (G : ghost) (A B : aroot) (id size : Z) (r : option Z * memory) : Prop :=
  let '(e, m') := r in
  (forall x, ~ (lim - 5120 <= x < lim) -> m' x = m x) /\
  match e with
  | None => m' = m /\ (g_locked G = true \/ 252 <= regions G \/ 2 ^ 31 < g_total G + pages size + 4096)
  | Some e => g_locked G = false /\ e <> 0 /\ exists A' B' a, imd_entry_at m' (handles A B) e = Some a /\
      holds lim m' (noted id a size G) A' B' /\ handles A' B' = handles A B
  end.

Lemma locked_spec A : a_locked A = negb (Z.land (a_flags A) IMD_FLAG_LOCKED =? 0).
Proof. done. Qed.

(** The address an entry just added gives. *)
Lemma new_entry_at m A e : rep m (a_with_entries (a_entries A ++ [e]) A) -> - 2 ^ 31 <= ae_off e <= 0 -> awf A ->
  imdr_entry_at m (handle A) (a_root A + 20 + 16 * a_len A) = u32 (a_root A + ae_off e).
Proof.
  intros (_ & _ & _ & _ & _ & He & _) Ho Hw. destruct (He (length (a_entries A)) e) as (_ & Hoff & _).
  { cbn [a_entries a_with_entries]. by rewrite lookup_app_r, Nat.sub_diag. }
  unfold imdr_entry_at, read_entry, relative_pointer, a_len. cbn [root handle e_start_offset].
  change (a_root (a_with_entries _ A)) with (a_root A) in Hoff. by rewrite Hoff, s32_u32 by lia.
Qed.

Lemma longer A e : a_len (a_with_entries (a_entries A ++ [e]) A) = a_len A + 1.
Proof. unfold a_len. cbn [a_entries a_with_entries]. rewrite length_app. simpl. lia. Qed.

Lemma add_large lim m G A B id size : holds lim m G A B -> valid_id id -> g_map G !! id = None ->
  0 <= size <= 2 ^ 32 - 4096 -> g_total G + pages size + 8192 < lim ->
  added lim m G A B id size (imdr_entry_add m (handle A) id size).
Proof.
  intros H Hid Hnew Hsize Hbound. pose proof (h_tiered _ _ _ _ _ H) as Ht.
  pose proof (tiered_limit _ _ _ _ Ht) as (Hl & Hla & Hroom). destruct (tiered_roots _ _ _ _ Ht) as (EA & EB & _).
  pose proof H as [_ Hmap Hids _ Htot _ [HlkA _]]. pose proof Ht as [HwA HrA _ _ (HlA & HsA & HalA & HmA) _ _ _].
  pose proof (add_refines m A id size HwA HrA Hsize ltac:(apply Hid)) as Ha. rewrite a_add_spec, HalA in Ha.
  fold (pages size) in Ha. case_bool_decide as Hc.
  - destruct Ha as (m' & -> & Hr' & Hw' & Hx). destruct Hc as (Hlk & _ & _ & Hoff). split.
    { intros x Hn. apply Hx. lia. }
    split; [congruence|]. split; [pose proof (proj1 (awf_geometry A HwA)); unfold a_len; lia|].
    pose proof (pages_nonneg size Hsize).
    pose proof (add_large_holds lim m m' G A B id size (a_last A - pages size) H Hid Hnew Hsize Hbound Hr' Hw' Hx eq_refl) as Hh.
    exists (a_with_entries (a_entries A ++ [mk_aentry (a_last A - pages size) size id]) A), B, (a_root A + (a_last A - pages size)).
    split; [|by split].
    unfold imd_entry_at. change (handles A B) with (handles (a_with_entries (a_entries A ++ [mk_aentry (a_last A - pages size) size id]) A) B).
    pose proof (h_tiered _ _ _ _ _ Hh) as Ht'.
    change (a_root A) with (a_root (a_with_entries (a_entries A ++ [mk_aentry (a_last A - pages size) size id]) A)) at 1.
    rewrite (entry_in_large lim) by (try done; rewrite longer; unfold a_len; lia).
    change (handle (a_with_entries _ A)) with (handle A). change (a_root (a_with_entries _ A)) with (a_root A).
    rewrite (new_entry_at _ _ _ Hr') by (cbn [ae_off]; lia || done). f_equal. cbn [ae_off]. apply u32_small.
    pose proof (t_room _ _ _ _ Ht') as Hroom'. rewrite last_offset in Hroom'. cbn [ae_off] in Hroom'. lia.
  - rewrite Ha. split; [done|]. split; [done|].
    assert (Hlen : a_max A = 254) by (unfold a_max; by rewrite HsA).
    assert (Hleft : pages size <= a_left A).
    { unfold a_left. rewrite HmA. destruct (align_used 4096 size) as [? _]; [by exists 12|done|]. cbn [Z.eqb]. unfold pages. lia. }
    destruct (a_locked A) eqn:Hlk; [left; congruence|]. right.
    destruct (Z.eq_dec (a_len A) (a_max A)) as [Hfull|Hnf]; [left|right; lia].
    unfold regions. rewrite Hmap, map_size_list_to_map by done. unfold allocs, large_allocs. rewrite length_app, length_map, length_drop.
    unfold a_len in Hfull. lia.
Qed.

Lemma add_small lim m G A B id size : holds lim m G A B -> valid_id id -> g_map G !! id = None ->
  0 <= size <= 2 ^ 32 - 4096 -> g_total G + pages size + 8192 < lim ->
  imdr_entry_add m (handle B) id size = (None, m) \/
  is_Some (fst (imdr_entry_add m (handle B) id size)) /\ added lim m G A B id size (imdr_entry_add m (handle B) id size).
Proof.
  intros H Hid Hnew Hsize Hbound. pose proof (h_tiered _ _ _ _ _ H) as Ht.
  pose proof (tiered_limit _ _ _ _ Ht) as (Hl & Hla & Hroom). destruct (tiered_roots _ _ _ _ Ht) as (EA & EB & Hlow).
  pose proof (h_locked _ _ _ _ _ H) as [_ HlkB]. pose proof Ht as [_ _ HwB HrB _ (HlB & _ & HalB & HmB) _ _].
  pose proof (add_refines m B id size HwB HrB Hsize ltac:(apply Hid)) as Ha. rewrite a_add_spec, HalB in Ha.
  case_bool_decide as Hc; [right|by left].
  destruct Ha as (m' & -> & Hr' & Hw' & Hx). destruct Hc as (Hlk & _ & Hleft & Hoff). split; [by eexists|]. split.
  { intros x Hn. apply Hx. lia. }
  set (off := a_last B - ALIGN_UP 32 size 32) in *.
  pose proof (awf_geometry B HwB) as (_ & HB0 & _ & _ & _ & _ & _ & _ & _ & HlaB & _).
  assert (Ho : -3072 <= off <= 0).
  { destruct (align_used 32 size) as [? _]; [by exists 5|done|]. unfold off. unfold a_left in Hleft.
    rewrite HmB in Hleft. change (-3072 =? 0) with false in Hleft. cbv iota in Hleft. lia. }
  split; [congruence|]. split; [unfold a_len; lia|].
  pose proof (add_small_holds lim m m' G A B id size off H Hid Hnew Hsize Hbound Hr' Hw' Hx) as Hh.
  exists A, (a_with_entries (a_entries B ++ [mk_aentry off size id]) B), (a_root B + off).
  split; [|by split].
  unfold imd_entry_at. change (handles A B) with (handles A (a_with_entries (a_entries B ++ [mk_aentry off size id]) B)).
  pose proof (h_tiered _ _ _ _ _ Hh) as Ht'.
  change (a_root B) with (a_root (a_with_entries (a_entries B ++ [mk_aentry off size id]) B)) at 1.
  rewrite (entry_in_small lim) by (try done; rewrite longer; unfold a_len; lia).
  change (handle (a_with_entries _ B)) with (handle B). change (a_root (a_with_entries _ B)) with (a_root B).
  rewrite (new_entry_at _ _ _ Hr') by (cbn [ae_off]; lia || done). f_equal. cbn [ae_off]. apply u32_small. lia.
Qed.

Lemma add_spec lim m G A B id size : holds lim m G A B -> valid_id id -> g_map G !! id = None ->
  0 <= size <= 2 ^ 32 - 4096 -> g_total G + pages size + 8192 < lim ->
  added lim m G A B id size (imd_entry_add m (handles A B) id size).
Proof.
  intros H Hid Hnew Hsize Hbound. pose proof (add_large lim m G A B id size H Hid Hnew Hsize Hbound) as Hlarge.
  destruct (tiered_roots _ _ _ _ (h_tiered _ _ _ _ _ H)) as (_ & EB & _).
  destruct (tiered_limit _ _ _ _ (h_tiered _ _ _ _ _ H)) as (Hl & _).
  unfold imd_entry_add, handles. cbn [lg sm]. change (root (handle B)) with (a_root B).
  rewrite (proj2 (Z.eqb_neq (a_root B) 0)) by lia. case_bool; [|done].
  destruct (add_small lim m G A B id size H Hid Hnew Hsize Hbound) as [-> |[[e He] Hs]]; [done|].
  destruct (imdr_entry_add m (handle B) id size) as [o m']. simpl in He. by subst o.
Qed.

(** The outcomes of asking for an id: its region, new or old, or none. *)
Definition asked (G : ghost) (id size : Z) (a : Z) (G' : ghost) : Prop :=
  match g_map G !! id with
  | Some (b, _) => a = b /\ G' = G
  | None =>
      (a = 0 /\ G' = G /\ (g_locked G = true \/ 252 <= regions G \/ 2 ^ 31 < g_total G + pages size + 4096)) \/
      (a <> 0 /\ g_locked G = false /\ G' = noted id a size G)
  end.

Lemma find_or_add_spec lim m G A B id size : holds lim m G A B -> valid_id id ->
  0 <= size <= 2 ^ 32 - 4096 -> g_total G + pages size + 8192 < lim ->
  let '(e, m') := imd_entry_find_or_add m (handles A B) id size in
  (forall x, ~ (lim - 5120 <= x < lim) -> m' x = m x) /\
  exists A' B' a G', handles A' B' = handles A B /\ holds lim m' G' A' B' /\ asked G id size a G' /\
    match e with None => a = 0 | Some e => e <> 0 /\ imd_entry_at m' (handles A B) e = Some a end.
Proof.
  intros H Hid Hsize Hbound. pose proof (find_spec _ _ _ _ _ _ H Hid) as Hf.
  unfold imd_entry_find_or_add, asked. destruct (g_map G !! id) as [[b n]|] eqn:Eg.
  - destruct Hf as (e & -> & He0 & Hat & _). split; [done|]. by exists A, B, b, G.
  - rewrite Hf. pose proof (add_spec lim m G A B id size H Hid Eg Hsize Hbound) as Ha.
    destruct (imd_entry_add m (handles A B) id size) as [[e|] m']; cbn in Ha; destruct Ha as [Hx Ha]; split; try done.
    + destruct Ha as (Hlk & He0 & A' & B' & a & Hat & Hh & Hh').
      exists A', B', a, (noted id a size G). split; [done|]. split; [done|]. split; [|done]. right. split; [|done].
      pose proof (holds_region _ _ _ _ _ id a size Hh ltac:(cbn; by rewrite lookup_insert_eq)) as (_ & _ & _ & Hw).
      pose proof (tiered_limit _ _ _ _ (h_tiered _ _ _ _ _ Hh)). unfold within_small, within_large in Hw. lia.
    + destruct Ha as [-> Hr]. exists A, B, 0, G. split_and!; try done. by left.
Qed.

Definition forgotten (id : Z) (G : ghost) : ghost := mk_ghost (delete id (g_map G)) (g_total G) (g_locked G).

(** The abstract state without the region of [id]. *)
Lemma forget_alloc lim m G A B A' B' id p : holds lim m G A B -> allocs A B ≡ₚ allocs A' B' ++ [(id, p)] ->
  delete id (g_map G) = list_to_map (allocs A' B') /\ NoDup (allocs A' B').*1 /\ Forall valid_id (allocs A' B').*1.
Proof.
  intros [_ Hm Hd Hv _ _ _] P.
  assert (P1 : (allocs A B).*1 ≡ₚ (allocs A' B').*1 ++ [id]) by (rewrite P; by rewrite fmap_app).
  rewrite P1 in Hd. apply NoDup_app in Hd as (D1 & D2 & _). rewrite P1 in Hv. apply Forall_app in Hv as [V _].
  assert (Hn : id ∉ (allocs A' B').*1) by (intros Hin; apply (D2 id Hin); by apply list_elem_of_singleton).
  split; [|done]. rewrite Hm, (list_to_map_proper _ (allocs A' B' ++ [(id, p)])); [|by rewrite P1; apply NoDup_app; split_and!; [done| |apply NoDup_singleton]; intros x Hx ->%list_elem_of_singleton|done].
  rewrite list_to_map_snoc by done. by rewrite delete_insert_eq, delete_id by by apply not_elem_of_list_to_map.
Qed.

Lemma last_entry A id k e : awf A -> a_find A id = Some (k, e) -> Z.of_nat k + 1 = a_len A - 1 ->
  exists l, a_entries A = l ++ [e] /\ a_pop A = a_with_entries l A /\ l <> [] /\ 1 < a_len A.
Proof.
  intros Hw Hf Hk. pose proof Hf as (Hl & _)%list_find_Some. rewrite lookup_tail in Hl. unfold a_len in Hk.
  destruct (exists_last (l := a_entries A)) as (l & x & He); [intros E; by rewrite E in Hl|].
  unfold a_pop. rewrite He, removelast_last. rewrite He, length_app in Hk. simpl in Hk.
  rewrite He in Hl. rewrite lookup_app_r in Hl by lia. replace (S k - length l)%nat with 0%nat in Hl by lia.
  injection Hl as ->. exists l. split; [done|]. split; [done|]. split; [intros ->; simpl in *; lia|].
  unfold a_len. rewrite He, length_app. simpl. lia.
Qed.

Lemma remove_in lim m G A B R i : holds lim m G A B -> R = A \/ R = B -> 0 <= i < a_len R ->
  imd_entry_remove m (handles A B) (a_root R + 20 + 16 * i) =
  if a_locked R || negb (i =? a_len R - 1) then (-1, m) else (0, st32 m (a_root R + 4) (a_len R - 1)).
Proof.
  intros H HR Hi. pose proof (h_tiered _ _ _ _ _ H) as Ht. destruct (tiered_limit _ _ _ _ Ht) as (Hl & _).
  destruct (tiered_roots _ _ _ _ Ht) as (EA & EB & _).
  assert (Hto : imd_entry_to_imdr m (handles A B) (a_root R + 20 + 16 * i) = Some (handle R)).
  { destruct HR as [-> | ->]; [by apply (entry_in_large lim)|by apply (entry_in_small lim)]. }
  assert (HwR : awf R /\ rep m R) by (destruct HR as [-> | ->], Ht; done). destruct HwR as [Hw Hr].
  unfold imd_entry_remove. rewrite Hto. unfold handle. cbn [root].
  rewrite (proj2 (Z.eqb_neq _ _)) by (destruct HR as [-> | ->]; lia).
  unfold root_is_locked, flags. pose proof Hr as (_ & Hn & Hfl & _). rewrite Hfl. fold (a_locked R).
  destruct (rep_last m R Hw Hr) as [-> _]. destruct (a_locked R); [done|]. cbn [orb].
  destruct (Z.eqb_spec i (a_len R - 1)) as [-> |Hne].
  - rewrite Z.eqb_refl. cbn [negb]. unfold num_entries. by rewrite Hn.
  - rewrite (proj2 (Z.eqb_neq _ _)) by lia. done.
Qed.

Lemma descending_before al lo x l : forall hi d, descending al hi lo (l ++ [x]) -> ae_off d = hi ->
  ae_off x <= ae_off (List.last l d).
Proof.
  induction l as [|y l IH]; intros hi d; [simpl; lia|]. intros (_ & _ & _ & _ & D) Hd.
  rewrite last_cons_default. by apply (IH (ae_off y)).
Qed.

Lemma remove_spec lim m G A B id e : holds lim m G A B -> valid_id id ->
  imd_entry_find m (handles A B) id = Some e ->
  let '(ret, m') := imd_entry_remove m (handles A B) e in
  (ret = -1 /\ m' = m) \/
  (ret = 0 /\ g_locked G = false /\ (forall x, ~ (lim - 5120 <= x < lim) -> m' x = m x) /\
   exists A' B', handles A' B' = handles A B /\ holds lim m' (forgotten id G) A' B').
Proof.
  intros H Hid Hf. pose proof (h_tiered _ _ _ _ _ H) as Ht. destruct (tiered_roots _ _ _ _ Ht) as (EA & EB & _).
  pose proof Ht as [HwA HrA HwB HrB (HlA & HsA) (HlB & HsB) Hsm Hroom].
  pose proof (h_locked _ _ _ _ _ H) as [LA LB]. pose proof (tiered_entries _ _ _ _ Ht) as He.
  unfold imd_entry_find, handles in Hf. cbn [lg sm] in Hf. rewrite !find_refines in Hf by done.
  destruct (a_find B id) as [[k x]|] eqn:FB; [|destruct (a_find A id) as [[k x]|] eqn:FA; [|done]]; injection Hf as <-; cbn [fst].
  - pose proof (found_index _ _ _ _ FB) as Hk. rewrite (remove_in _ _ _ _ _ B _ H) by (by right || done).
    destruct (a_locked B) eqn:EL; [by left|]. destruct (Z.eqb_spec (Z.of_nat k + 1) (a_len B - 1)) as [Hlast|]; [|by left].
    cbn [orb negb]. right. destruct (last_entry B id k x HwB FB Hlast) as (l & Hl & Hp & Hne & H1).
    pose proof FB as (_ & Hidx & _)%list_find_Some. destruct (pop_refines m B HwB HrB H1) as (Hr' & Hw' & Hx).
    rewrite Hp in *. split; [done|]. split; [congruence|]. split; [intros y Hy; apply Hx; lia|].
    exists A, (a_with_entries l B). split; [done|].
    destruct (forget_alloc lim m G A B A (a_with_entries l B) id (a_root B + ae_off x, ae_size x) H) as (F1 & F2 & F3).
    { unfold allocs, small_allocs. cbn [a_entries a_with_entries]. rewrite Hl, (tail_snoc l) by done. rewrite map_app.
      change (a_root (a_with_entries l B)) with (a_root B). rewrite <- !app_assoc. change (map (region_at (a_root B)) [x]) with [(ae_id x, (a_root B + ae_off x, ae_size x))]. rewrite Hidx.
      apply Permutation_app_head, Permutation_app_comm. }
    pose proof H as [_ _ _ _ Htot Hb _]. split; cbn [g_map g_total g_locked forgotten]; try exact (h_locked _ _ _ _ _ H); try done. split; try done.
    apply (rep_ext m); [done| |done]. intros y Hy. apply Hx. lia.
  - pose proof (found_index _ _ _ _ FA) as Hk. rewrite (remove_in _ _ _ _ _ A _ H) by (by left || done).
    destruct (a_locked A) eqn:EL; [by left|]. destruct (Z.eqb_spec (Z.of_nat k + 1) (a_len A - 1)) as [Hlast|]; [|by left].
    cbn [orb negb]. right. destruct (last_entry A id k x HwA FA Hlast) as (l & Hl & Hp & Hne & H1).
    pose proof FA as (_ & Hidx & _)%list_find_Some. destruct (pop_refines m A HwA HrA H1) as (Hr' & Hw' & Hx).
    rewrite Hp in *. split; [done|]. split; [congruence|]. split; [intros y Hy; apply Hx; lia|].
    assert (Hd : exists l', l = root_entry A :: mk_aentry (-4096) 4096 SMALL_REGION_ID :: l' /\ drop 2 (a_entries A) = l' ++ [x]).
    { rewrite Hl in He. destruct l as [|y1 [|y2 l]]; [done|..].
      - simpl in He. injection He as -> ->. destruct Hid as (_ & Hid & _). by subst id.
      - injection He as -> ->. exists l. split; [done|]. by rewrite Hl. }
    destruct Hd as (l' & -> & Hd).
    exists (a_with_entries (root_entry A :: mk_aentry (-4096) 4096 SMALL_REGION_ID :: l') A), B. split; [done|].
    destruct (forget_alloc lim m G A B (a_with_entries (root_entry A :: mk_aentry (-4096) 4096 SMALL_REGION_ID :: l') A) B
      id (a_root A + ae_off x, ae_size x) H) as (F1 & F2 & F3).
    { unfold allocs, large_allocs. cbn [a_entries a_with_entries]. rewrite Hd, map_app, app_assoc.
      change (map (region_at (a_root A)) [x]) with [(ae_id x, (a_root A + ae_off x, ae_size x))]. by rewrite Hidx. }
    assert (Hup : a_last A <= a_last (a_with_entries (root_entry A :: mk_aentry (-4096) 4096 SMALL_REGION_ID :: l') A)).
    { destruct (tiered_descending _ _ _ _ Ht) as [_ D]. rewrite Hd in D.
      assert (Hx' : a_last A = ae_off x) by (unfold a_last; by rewrite Hl, last_last).
      rewrite Hx' in *. unfold a_last. cbn [a_entries a_with_entries]. rewrite !last_cons_default.
      by apply (descending_before _ _ _ _ _ (mk_aentry (-4096) 4096 SMALL_REGION_ID)) in D. }
    pose proof H as [_ _ _ _ Htot Hb _]. split; cbn [g_map g_total g_locked forgotten]; try exact (h_locked _ _ _ _ _ H); try done; [|lia].
    split; try done; [|lia].
    apply (rep_ext m); [done| |done]. intros y Hy. apply Hx. lia.
Qed.

Definition locked (G : ghost) : ghost := mk_ghost (g_map G) (g_total G) true.

Lemma lockdown_spec lim m G A B : holds lim m G A B ->
  let m' := snd (imd_lockdown m (handles A B)) in
  (forall x, ~ (lim - 5120 <= x < lim) -> m' x = m x) /\
  exists A' B', handles A' B' = handles A B /\ holds lim m' (locked G) A' B'.
Proof.
  intros H. pose proof (h_tiered _ _ _ _ _ H) as Ht. destruct (tiered_roots _ _ _ _ Ht) as (EA & EB & _).
  destruct (tiered_limit _ _ _ _ Ht) as (Hl & _). pose proof Ht as [HwA HrA HwB HrB (HlA & HsA) (HlB & HsB) Hsm Hroom].
  destruct (lock_refines m A HwA HrA) as (RA & WA & LA & XA).
  assert (HrB1 : rep (lock_root m (a_root A)) B).
  { apply (rep_ext m); [done| |done]. intros x Hx. apply XA. lia. }
  destruct (lock_refines _ B HwB HrB1) as (RB & WB & LB & XB).
  unfold imd_lockdown, handles. cbn [lg sm]. change (root (handle A)) with (a_root A). change (root (handle B)) with (a_root B).
  rewrite (proj2 (Z.eqb_neq (a_root A) 0)), (proj2 (Z.eqb_neq (a_root B) 0)) by lia. cbn [negb snd].
  split; [intros x Hx; rewrite XB, XA by lia; done|].
  exists (a_with_flags (Z.lor (a_flags A) 1) A), (a_with_flags (Z.lor (a_flags B) 1) B). split; [done|].
  pose proof H as [_ Hm Hi Hv Htot Hb _]. split; try done. split; try done.
  apply (rep_ext (lock_root m (a_root A))); [done| |done]. intros x Hx. apply XB.
  change (a_root (a_with_flags _ A)) with (a_root A) in Hx. change (a_limit (a_with_flags _ A)) with (a_limit A) in Hx. lia.
Qed.

Definition no_regions : ghost := mk_ghost ∅ 0 false.

Lemma create_spec top m0 : 0 <= top < 2 ^ 32 -> 8192 < in_use top ->
  exists m A B, imd_create_tiered_empty m0 (imd_handle_init top) CBMEM_ROOT_MIN_SIZE CBMEM_LG_ALIGN CBMEM_SM_ROOT_SIZE CBMEM_SM_ALIGN
    = (0, handles A B, m) /\ holds (in_use top) m no_regions A B.
Proof.
  intros Ht Hl.
  destruct (create_tiered m0 top 4096 1024 32 Ht) as (m & E & HwA & HrA & HwB & HrB & _);
    [by exists 12|by exists 10|by exists 5|lia|exact Hl|].
  change (small_region_size 4096 1024 32) with 4096 in *. fold (in_use top) in *.
  exists m, (tier_large (in_use top) 4096 4096), (tier_small (in_use top) 1024 32 4096). split; [exact E|].
  split; try done; [|exact NoDup_nil_2]. split; try done.
  change (a_last (tier_large _ _ _)) with (-4096). lia.
Qed.

(** ** The records for the operating system *)

Definition record_at (r : Z) (e : aentry) : lb_cbmem_entry := mk_lb_entry (r + ae_off e) (ae_size e) (ae_id e).
Definition region_of (r : lb_cbmem_entry) : Z * (Z * Z) := (lb_id r, (lb_address r, lb_entry_size r)).

Lemma region_of_record r l : map region_of (map (record_at r) l) = map (region_at r) l.
Proof. rewrite map_map. by apply map_ext. Qed.

Section Records.
Context (m : memory) (h : imd) (rs : list imdr) (k : nat) (R : aroot).
Hypothesis (Hw : awf R) (Hr : rep m R) (Hk : rs !! k = Some (handle R)).
Hypothesis Hto : forall i, 0 <= i < a_len R -> imd_entry_to_imdr m h (a_root R + 20 + 16 * i) = Some (handle R).

Lemma cursor_here i : 0 <= i < a_len R ->
  imd_cursor_next m (mk_cursor k i rs) = (Some (a_root R + 20 + 16 * i), mk_cursor k (i + 1) rs).
Proof using Hw Hr Hk.
  intros Hi. pose proof (awf_geometry R Hw) as (_ & ? & _ & _ & ? & _).
  unfold imd_cursor_next, cursor_next. cbn [c_imdr current_imdr current_entry]. rewrite Hk.
  unfold handle. cbn [root]. rewrite (proj2 (Z.eqb_neq _ _)) by lia. unfold num_entries.
  rewrite (proj1 (proj2 Hr)). rewrite (proj2 (Z.leb_gt _ _)) by lia. by rewrite entry_addr_eq by (done || lia).
Qed.

(** One entry: a record, or none for the directory's own. *)
Lemma record_step i e fuel : a_entries R !! i = Some e -> 0 < a_root R + ae_off e < 2 ^ 32 ->
  records_loop (S fuel) m h (mk_cursor k (Z.of_nat i) rs) =
  if (ae_id e =? CBMEM_ID_IMD_ROOT) || (ae_id e =? CBMEM_ID_IMD_SMALL)
  then records_loop fuel m h (mk_cursor k (Z.of_nat (S i)) rs)
  else (fun l => record_at (a_root R) e :: l) <$> records_loop fuel m h (mk_cursor k (Z.of_nat (S i)) rs).
Proof using Hw Hr Hk Hto.
  intros He Ha. pose proof (lookup_lt_Some _ _ _ He) as Hi. cbn [records_loop].
  rewrite cursor_here by (unfold a_len; lia). replace (Z.of_nat i + 1) with (Z.of_nat (S i)) by lia.
  pose proof Hr as (_ & _ & _ & _ & _ & Hent & _). destruct (Hent i e He) as (_ & H1 & H2 & H3).
  unfold imd_entry_at. rewrite Hto by (unfold a_len; lia).
  unfold imd_entry_id, imd_entry_size, imdr_entry_size, imdr_entry_at, read_entry, relative_pointer.
  cbn [e_id e_size e_start_offset handle root]. rewrite H1, H2, H3.
  assert (Hoff : u32 (a_root R + s32 (u32 (ae_off e))) = a_root R + ae_off e).
  { rewrite <- (u32_small (a_root R + ae_off e)) by lia. pose proof (awf_geometry R Hw) as (_ & ? & ? & ? & _).
    unfold s32, swrap, u32. rewrite !(wrap_wrap 32 32) by lia. case_bool; [|]; unfold wrap.
    - by rewrite Zplus_mod_idemp_r.
    - rewrite <- (Z.mod_add (a_root R + _) 1) by lia. rewrite Z.mul_1_l.
      replace (a_root R + (ae_off e mod 2 ^ 32 - 2 ^ 32) + 2 ^ 32) with (a_root R + ae_off e mod 2 ^ 32) by lia.
      by rewrite Zplus_mod_idemp_r. }
  by rewrite Hoff.
Qed.

Lemma records_run n : forall i fuel, (i + n = length (a_entries R))%nat ->
  Forall (fun e => valid_id (ae_id e) /\ 0 < a_root R + ae_off e < 2 ^ 32) (drop i (a_entries R)) ->
  records_loop (n + fuel) m h (mk_cursor k (Z.of_nat i) rs) =
  app (map (record_at (a_root R)) (drop i (a_entries R))) <$> records_loop fuel m h (mk_cursor k (a_len R) rs).
Proof using Hw Hr Hk Hto.
  induction n as [|n IH]; intros i fuel Hin Hv.
  - rewrite drop_ge by lia. replace (Z.of_nat i) with (a_len R) by (unfold a_len; lia).
    simpl. by destruct (records_loop fuel m h _).
  - destruct (lookup_lt_is_Some_2 (a_entries R) i ltac:(lia)) as [e He]. rewrite (drop_S _ _ _ He) in Hv |- *.
    apply Forall_cons in Hv as [[Hv Ha] Hvs]. cbn [Nat.add]. rewrite (record_step i e) by done.
    destruct Hv as (_ & N1 & N2). rewrite !(proj2 (Z.eqb_neq _ _)) by done. cbn [orb].
    rewrite IH by (done || lia). by destruct (records_loop fuel m h _).
Qed.
End Records.

Lemma records_spec lim m G A B fuel : holds lim m G A B -> (length (a_entries A) + length (a_entries B) < fuel)%nat ->
  exists l, records_loop fuel m (handles A B) (imd_cursor_init (handles A B)) = Some l /\
    map region_of l ≡ₚ allocs A B.
Proof.
  intros H Hfuel. pose proof (h_tiered _ _ _ _ _ H) as Ht. destruct (tiered_roots _ _ _ _ Ht) as (EA & EB & _).
  pose proof (tiered_limit _ _ _ _ Ht) as (Hl & Hla & Hroom). destruct (tiered_descending _ _ _ _ Ht) as [DB DA].
  pose proof (tiered_entries _ _ _ _ Ht) as He. pose proof Ht as [HwA HrA HwB HrB _ (_ & HsB & _) _ _].
  pose proof (h_valid _ _ _ _ _ H) as Hv. rewrite allocs_ids in Hv. apply Forall_app in Hv as [VB VA].
  rewrite Forall_fmap, list.Forall_forall in VA, VB.
  pose proof HwB as (_ & _ & _ & _ & _ & _ & _ & restB & HeB & _).
  set (rs := [handle A; handle B]).
  assert (HtoA : forall i, 0 <= i < a_len A -> imd_entry_to_imdr m (handles A B) (a_root A + 20 + 16 * i) = Some (handle A))
    by (intros; by apply (entry_in_large lim)).
  assert (HtoB : forall i, 0 <= i < a_len B -> imd_entry_to_imdr m (handles A B) (a_root B + 20 + 16 * i) = Some (handle B))
    by (intros; by apply (entry_in_small lim)).
  assert (Hlen : length (a_entries A) = S (S (length (drop 2 (a_entries A))))) by (rewrite He at 1; done).
  assert (HlenB : length (a_entries B) = S (length (tail (a_entries B)))) by (rewrite HeB; done).
  assert (A0 : a_entries A !! 0%nat = Some (root_entry A)) by by rewrite He.
  assert (A1 : a_entries A !! 1%nat = Some (mk_aentry (-4096) 4096 SMALL_REGION_ID)) by by rewrite He.
  assert (B0 : a_entries B !! 0%nat = Some (root_entry B)) by by rewrite HeB.
  assert (P0 : 0 < a_root A + 0 < 2 ^ 32 /\ 0 < a_root A + -4096 < 2 ^ 32 /\ 0 < a_root B + 0 < 2 ^ 32) by lia.
  destruct P0 as (P0 & P1 & P2).
  set (nA := length (drop 2 (a_entries A))) in *. set (nB := length (tail (a_entries B))) in *.
  destruct fuel as [|[|fuel]]; [lia..|].
  change (imd_cursor_init (handles A B)) with (mk_cursor 0 (Z.of_nat 0) rs).
  rewrite (record_step m (handles A B) rs 0 A HwA HrA eq_refl HtoA 0 (root_entry A) _ A0 P0). cbn [ae_id root_entry].
  change (CBMEM_ID_IMD_ROOT =? CBMEM_ID_IMD_ROOT) with true. cbn [orb].
  rewrite (record_step m (handles A B) rs 0 A HwA HrA eq_refl HtoA 1 _ _ A1 P1). cbn [ae_id].
  change ((SMALL_REGION_ID =? CBMEM_ID_IMD_ROOT) || (SMALL_REGION_ID =? CBMEM_ID_IMD_SMALL)) with true. cbv iota.
  replace fuel with (nA + (fuel - nA))%nat by lia.
  rewrite (records_run m (handles A B) rs 0 A HwA HrA eq_refl HtoA nA 2) by
    (lia || (apply list.Forall_forall; intros e Hin; split; [by apply VA|];
             destruct (descending_in _ _ _ _ e DA Hin); lia)).
  destruct (fuel - nA)%nat as [|[|f]] eqn:Ef; [lia..|].
  assert (Hnext : records_loop (S (S f)) m (handles A B) (mk_cursor 0 (a_len A) rs) =
                  records_loop (S (S f)) m (handles A B) (mk_cursor 1 (Z.of_nat 0) rs)).
  { cbn [records_loop]. replace (imd_cursor_next m (mk_cursor 0 (a_len A) rs)) with (imd_cursor_next m (mk_cursor 1 (Z.of_nat 0) rs)); [done|].
    change (Z.of_nat 0) with 0.
    rewrite (cursor_here m rs 1 B HwB HrB eq_refl 0) by (unfold a_len; lia).
    unfold imd_cursor_next, cursor_next. cbn [c_imdr current_imdr current_entry].
    change (rs !! 0%nat) with (Some (handle A)). change (rs !! 1%nat) with (Some (handle B)). change (rs !! 2%nat) with (@None imdr).
    unfold handle. cbn [root]. rewrite (proj2 (Z.eqb_neq (a_root A) 0)), (proj2 (Z.eqb_neq (a_root B) 0)) by lia.
    unfold num_entries. rewrite (proj1 (proj2 HrA)), (proj1 (proj2 HrB)), Z.leb_refl.
    rewrite (proj2 (Z.leb_gt (a_len B) 0)) by (unfold a_len; lia).
    rewrite entry_addr_eq by (done || (pose proof (awf_geometry B HwB); lia)). done. }
  rewrite Hnext.
  rewrite (record_step m (handles A B) rs 1 B HwB HrB eq_refl HtoB 0 _ _ B0 P2). cbn [ae_id root_entry].
  change (CBMEM_ID_IMD_ROOT =? CBMEM_ID_IMD_ROOT) with true. cbn [orb].
  replace (S f) with (nB + (S f - nB))%nat by lia.
  assert (Hdrop : drop 1 (a_entries B) = tail (a_entries B)) by (by rewrite HeB).
  rewrite (records_run m (handles A B) rs 1 B HwB HrB eq_refl HtoB nB 1) by
    (lia || (rewrite Hdrop; apply list.Forall_forall; intros e Hin; split; [by apply VB|];
             destruct (descending_in _ _ _ _ e DB Hin); lia)).
  destruct (S f - nB)%nat as [|f'] eqn:Ef'; [lia|]. cbn [records_loop].
  assert (Hend : imd_cursor_next m (mk_cursor 1 (a_len B) rs) = (None, mk_cursor 2 0 rs)).
  { unfold imd_cursor_next, cursor_next. cbn [c_imdr current_imdr current_entry].
    change (rs !! 0%nat) with (Some (handle A)). change (rs !! 1%nat) with (Some (handle B)). change (rs !! 2%nat) with (@None imdr).
    unfold handle. cbn [root]. rewrite (proj2 (Z.eqb_neq (a_root B) 0)) by lia.
    unfold num_entries. by rewrite (proj1 (proj2 HrB)), Z.leb_refl. }
  rewrite Hend, Hdrop. cbn [fmap option_fmap option_map]. eexists. split; [done|].
  rewrite app_nil_r, map_app, !region_of_record. apply Permutation_app_comm.
Qed.

(** ** Programs that use CBMEM *)

Definition outcome (id size a : Z) (G : ghost) : ghost :=
  match g_map G !! id with
  | Some _ => G
  | None => if a =? 0 then G else noted id a size G
  end.

Section Clients.
Variable top : Z.
Let lim : Z := in_use top.

(** A step of a program in a stage: it asks for a region or gives one back, or writes
    memory but for the directory's own two tables. *)
Inductive client (g : bool) : cbmem * ghost -> cbmem * ghost -> Prop :=
  | client_add st G id size a st' :
      valid_id id -> 0 <= size <= 2 ^ 32 - 4096 -> g_total G + pages size + 8192 < lim ->
      cbmem_add g top id size st = (a, st') -> client g (st, G) (st', outcome id size a G)
  | client_remove st G id ret st' :
      valid_id id -> cbmem_entry_find g top id st <> 0 ->
      cbmem_entry_remove g top (cbmem_entry_find g top id st) st = (ret, st') ->
      client g (st, G) (st', if ret =? 0 then forgotten id G else G)
  | client_write st G m :
      (forall x, lim - 5120 <= x < lim -> m x = cb_mem st x) -> client g (st, G) (set_cb_mem m st, G).

(** A boot: one stage creates the directory, others take it over; the registered hooks
    are clients. *)
Inductive reach : bool -> cbmem -> ghost -> Prop :=
  | reach_create g hooks st G :
      rtc (client g) (cbmem_initialize_empty g top [] st, no_regions) (cbmem_initialize_empty g top hooks st, G) ->
      reach g (cbmem_initialize_empty g top hooks st) G
  | reach_client g st G st' G' : reach g st G -> client g (st, G) (st', G') -> reach g st' G'
  | reach_stage g st G g' pre hooks static G' :
      reach g st G ->
      let st0 := mk_cbmem static (cb_mem st) in
      rtc (client g') (snd (cbmem_initialize g' pre top [] st0), if pre then locked G else G)
                      (snd (cbmem_initialize g' pre top hooks st0), G') ->
      reach g' (snd (cbmem_initialize g' pre top hooks st0)) G'.

(** The invariant: memory holds the abstract state, and a handle in a global is right. *)
Definition cb_holds (g : bool) (st : cbmem) (G : ghost) : Prop :=
  exists A B, holds lim (cb_mem st) G A B /\ (g = true -> imd_cbmem st = handles A B).

Lemma got_handle g st G A B : holds lim (cb_mem st) G A B -> (g = true -> imd_cbmem st = handles A B) ->
  imd_init_backing_with_recover g top st = handles A B.
Proof using Type.
  intros H Hg. unfold imd_init_backing_with_recover. destruct g; [by apply Hg|].
  by apply (tiered_partial lim); [apply h_tiered in H|].
Qed.

Lemma cb_add_spec g st G id size : cb_holds g st G -> valid_id id -> 0 <= size <= 2 ^ 32 - 4096 ->
  g_total G + pages size + 8192 < lim ->
  let '(a, st') := cbmem_add g top id size st in
  cb_holds g st' (outcome id size a G) /\ asked G id size a (outcome id size a G) /\
  forall x, ~ (lim - 5120 <= x < lim) -> cb_mem st' x = cb_mem st x.
Proof using Type.
  intros (A & B & H & Hg) Hid Hsize Hbound. unfold cbmem_add. rewrite (got_handle _ _ _ _ _ H Hg), u32_small by lia.
  pose proof (find_or_add_spec lim _ G A B id size H Hid Hsize Hbound) as Hf.
  destruct (imd_entry_find_or_add _ _ _ _) as [e m']. destruct Hf as (Hx & A' & B' & a & G' & EH & Hh & Ha & He).
  assert (EG : G' = outcome id size a G).
  { unfold asked in Ha. unfold outcome. destruct (g_map G !! id) as [[b n]|]; [by destruct Ha|].
    destruct Ha as [(-> & -> & _)|(Ha & _ & ->)]; [done|]. by rewrite (proj2 (Z.eqb_neq _ _)). }
  subst G'. assert (Hc : cb_holds g (set_cb_mem m' st) (outcome id size a G)).
  { exists A', B'. split; [done|]. intros Ht. rewrite EH. by apply Hg. }
  destruct e as [e|]; [destruct He as [_ ->]|subst a]; done.
Qed.

Lemma cb_find_spec g st G id : cb_holds g st G -> valid_id id ->
  match g_map G !! id with
  | None => cbmem_find g top id st = 0 /\ cbmem_entry_find g top id st = 0
  | Some (a, n) => cbmem_find g top id st = a /\ cbmem_entry_find g top id st <> 0 /\
      cbmem_entry_start g top (cbmem_entry_find g top id st) st = a /\
      cbmem_entry_size (cbmem_entry_find g top id st) st = n
  end.
Proof using Type.
  intros (A & B & H & Hg) Hid. unfold cbmem_find, cbmem_entry_start, cbmem_entry_find, cbmem_entry_size.
  rewrite (got_handle _ _ _ _ _ H Hg). pose proof (find_spec lim _ _ _ _ id H Hid) as Hf.
  destruct (g_map G !! id) as [[a n]|]; [|by rewrite Hf].
  destruct Hf as (e & -> & He & Hat & Hn). simpl. by rewrite Hat.
Qed.

Lemma cb_remove_spec g st G id : cb_holds g st G -> valid_id id -> cbmem_entry_find g top id st <> 0 ->
  let '(ret, st') := cbmem_entry_remove g top (cbmem_entry_find g top id st) st in
  (ret = -1 /\ st' = st \/ ret = 0 /\ g_locked G = false) /\
  cb_holds g st' (if ret =? 0 then forgotten id G else G) /\
  forall x, ~ (lim - 5120 <= x < lim) -> cb_mem st' x = cb_mem st x.
Proof using Type.
  intros (A & B & H & Hg) Hid He. unfold cbmem_entry_remove, cbmem_entry_find in *.
  rewrite (got_handle _ _ _ _ _ H Hg) in *.
  destruct (imd_entry_find (cb_mem st) (handles A B) id) as [e|] eqn:Ef; [|done]. change (default 0 (Some e)) with e in *.
  pose proof (remove_spec lim _ G A B id e H Hid Ef) as Hr.
  destruct (imd_entry_remove (cb_mem st) (handles A B) e) as [ret m'].
  destruct Hr as [[-> ->]|(-> & Hl & Hx & A' & B' & EH & Hh)].
  - replace (set_cb_mem (cb_mem st) st) with st by by destruct st.
    split; [by left|]. split; [|done]. by exists A, B.
  - split; [by right|]. split; [|done]. exists A', B'. split; [done|]. intros Ht. rewrite EH. by apply Hg.
Qed.

Lemma cb_client g s s' : client g s s' -> cb_holds g s.1 s.2 -> cb_holds g s'.1 s'.2.
Proof using Type.
  intros [st G id size a st' Hid Hsize Hb E|st G id ret st' Hid He E|st G m Hm] H; cbn [fst snd] in *.
  - pose proof (cb_add_spec g st G id size H Hid Hsize Hb) as Ha. rewrite E in Ha. apply Ha.
  - pose proof (cb_remove_spec g st G id H Hid He) as Hr. rewrite E in Hr. apply Hr.
  - destruct H as (A & B & [Ht ? ? ? ? ? ?] & Hg). destruct (tiered_roots _ _ _ _ Ht) as (EA & EB & _).
    exists A, B. split; [|done]. split; try done. destruct Ht as [? ? ? ? (HlA & ?) (HlB & ?) ? ?].
    split; try done; (eapply rep_ext; [done| |done]); intros x Hx; apply Hm; lia.
Qed.

Lemma cb_clients g s s' : rtc (client g) s s' -> cb_holds g s.1 s.2 -> cb_holds g s'.1 s'.2.
Proof using Type. induction 1 as [|s s1 s' H1 _ IH]; [done|]. intros H. apply IH. by apply (cb_client g s). Qed.

Lemma allocation_bounds g st G id a n : cb_holds g st G -> g_map G !! id = Some (a, n) ->
  0 < a /\ 0 <= n /\ a + n <= lim - 5120 /\ (32 | a) /\ 8192 < lim < 2 ^ 32.
Proof using Type.
  intros (A & B & H & _) E. destruct (holds_region _ _ _ _ _ _ _ _ H E) as (_ & Hp & Hal & Hw).
  unfold within_small, within_large in Hw. pose proof (tiered_limit _ _ _ _ (h_tiered _ _ _ _ _ H)).
  split; [lia|]. split; [lia|]. split; [lia|]. split; [done|lia].
Qed.

Lemma allocations_disjoint g st G i j a n b k : cb_holds g st G ->
  g_map G !! i = Some (a, n) -> g_map G !! j = Some (b, k) -> i <> j -> a + n <= b \/ b + k <= a.
Proof using Type. intros (A & B & H & _). by apply (holds_disjoint _ _ _ _ _ _ _ _ _ _ _ H). Qed.

(** The region a request gives, with the others. *)
Lemma cb_place g st' G id size a : asked G id size a (outcome id size a G) -> cb_holds g st' (outcome id size a G) -> a <> 0 ->
  exists n, g_map (outcome id size a G) !! id = Some (a, n) /\ (g_map G !! id = None -> n = size) /\
    (32 | a) /\ 0 < a /\ a + n <= lim - 5120 /\
    forall j b k, j <> id -> g_map G !! j = Some (b, k) ->
      g_map (outcome id size a G) !! j = Some (b, k) /\ (a + n <= b \/ b + k <= a).
Proof using Type.
  intros Ha Hc Ha0.
  assert (Hin : exists n, g_map (outcome id size a G) !! id = Some (a, n) /\ (g_map G !! id = None -> n = size)).
  { unfold outcome, asked in *. destruct (g_map G !! id) as [[b n]|] eqn:E.
    - destruct Ha as [-> _]. exists n. by rewrite E.
    - rewrite (proj2 (Z.eqb_neq _ _)) by done. exists size. cbn. by rewrite lookup_insert_eq. }
  assert (Hoth : forall j, j <> id -> g_map (outcome id size a G) !! j = g_map G !! j).
  { intros j Hj. unfold outcome. destruct (g_map G !! id); [done|]. rewrite (proj2 (Z.eqb_neq _ _)) by done. cbn.
    by rewrite lookup_insert_ne by done. }
  destruct Hin as (n & Hin & Hn). exists n. split; [done|]. split; [done|].
  destruct (allocation_bounds g st' _ id a n Hc Hin) as (? & _ & ? & ? & _). split; [done|]. split; [done|]. split; [done|].
  intros j b k Hj E. rewrite (Hoth j Hj). split; [done|].
  apply (allocations_disjoint g st' _ id j a n b k Hc Hin); [by rewrite Hoth|done].
Qed.

(** The handle in the global is not changed by a request. *)
Lemma cbmem_add_static g id size st : imd_cbmem (snd (cbmem_add g top id size st)) = imd_cbmem st.
Proof using Type.
  unfold cbmem_add. by destruct (imd_entry_find_or_add _ _ _ _) as [[e|] m].
Qed.

(** Taking the directory over changes nothing in memory but the lock. *)
Lemma cb_initialize g st G pre g' static : cb_holds g st G ->
  let '(ret, st') := cbmem_initialize g' pre top [] (mk_cbmem static (cb_mem st)) in
  ret = 0 /\ cb_holds g' st' (if pre then locked G else G) /\
  forall x, ~ (lim - 5120 <= x < lim) -> cb_mem st' x = cb_mem st x.
Proof using Type.
  intros (A & B & H & _). unfold cbmem_initialize, cbmem_initialize_id_size, cbmem_run_init_hooks.
  cbn [cb_mem fold_left]. rewrite (tiered_recover lim top _ A B) by (done || by apply h_tiered in H).
  cbn [Z.eqb negb]. unfold imd_init_backing. cbn [cb_mem imd_cbmem]. destruct pre.
  - destruct (lockdown_spec lim _ G A B H) as (Hx & A' & B' & EH & Hh). cbn [set_cb_mem cb_mem imd_cbmem].
    split; [done|]. split; [|done]. exists A', B'. split; [done|]. intros ->. done.
  - split; [done|]. split; [|done]. exists A, B. split; [done|]. by intros ->.
Qed.

Hypothesis (Htop : 0 <= top < 2 ^ 32) (Hlim : 8192 < lim).

Lemma cb_create g st : cb_holds g (cbmem_initialize_empty g top [] st) no_regions.
Proof using Htop Hlim.
  destruct (create_spec top (cb_mem st) Htop Hlim) as (m & A & B & E & H).
  unfold cbmem_initialize_empty, cbmem_initialize_empty_id_size. rewrite E. cbn.
  exists A, B. split; [done|]. unfold imd_init_backing. by intros ->.
Qed.

Lemma reach_holds g st G : reach g st G -> cb_holds g st G.
Proof using Htop Hlim.
  induction 1 as [g hooks st G Hc|g st G st' G' _ IH Hc|g st G g' pre hooks static G' _ IH st0 Hc].
  - apply (cb_clients g _ _ Hc). apply cb_create.
  - by apply (cb_client g _ _ Hc).
  - apply (cb_clients g' _ _ Hc). cbn [fst snd]. pose proof (cb_initialize g st G pre g' static IH) as Hi.
    subst st0. destruct (cbmem_initialize g' pre top [] _) as [ret st']. apply Hi.
Qed.

(** C17.  The regions a boot has made, in any number of stages with or without a global
    handle, are found by their ids with address and size, and no others; they lie below
    the directory's tables, above address 0, aligned and disjoint.  A later stage takes
    the directory over without an error and without a change in any region.  The records
    for the operating system are these regions. *)
Theorem cbmem_regions_correct g st G : reach g st G ->
  (forall id, valid_id id ->
     cbmem_find g top id st = match g_map G !! id with Some (a, _) => a | None => 0 end /\
     forall a n, g_map G !! id = Some (a, n) ->
       cbmem_entry_start g top (cbmem_entry_find g top id st) st = a /\
       cbmem_entry_size (cbmem_entry_find g top id st) st = n /\
       0 < a /\ a + n <= in_use top - 5120 /\ (32 | a)) /\
  (forall i j a n b k, g_map G !! i = Some (a, n) -> g_map G !! j = Some (b, k) -> i <> j ->
     a + n <= b \/ b + k <= a) /\
  (forall g' pre static,
    let '(ret, st') := cbmem_initialize g' pre top [] (mk_cbmem static (cb_mem st)) in
    ret = 0 /\ (forall x, ~ (in_use top - 5120 <= x < in_use top) -> cb_mem st' x = cb_mem st x) /\
    forall id, valid_id id -> cbmem_find g' top id st' = cbmem_find g top id st) /\
  (g = true -> forall fuel, (316 < fuel)%nat ->
     exists l, cbmem_add_records_to_cbtable true fuel st = Some l /\ map region_of l ≡ₚ map_to_list (g_map G)).
Proof using Htop Hlim.
  intros Hr. pose proof (reach_holds _ _ _ Hr) as H. destruct H as (A & B & H & Hg).
  assert (Hc : cb_holds g st G) by by exists A, B.
  assert (Hfind : forall g st G, cb_holds g st G -> forall id, valid_id id ->
    cbmem_find g top id st = match g_map G !! id with Some (a, _) => a | None => 0 end).
  { clear. intros g st G Hc id Hid. pose proof (cb_find_spec g st G id Hc Hid) as Hf.
    destruct (g_map G !! id) as [[a n]|]; apply Hf. }
  split; [|split; [|split]].
  - intros id Hid. split; [by apply Hfind|]. intros a n E. pose proof (cb_find_spec g st G id Hc Hid) as Hf.
    rewrite E in Hf. destruct Hf as (_ & _ & Hs & Hn). split; [done|]. split; [done|].
    destruct (allocation_bounds g st G id a n Hc E) as (? & _ & ? & ? & _). done.
  - intros i j a n b k. by apply (allocations_disjoint g st G).
  - intros g' pre static. pose proof (cb_initialize g st G pre g' static Hc) as Hi.
    destruct (cbmem_initialize g' pre top [] _) as [ret st']. destruct Hi as (-> & Hc' & Hx). split; [done|].
    split; [done|]. intros id Hid. rewrite (Hfind _ _ _ Hc' id Hid), (Hfind _ _ _ Hc id Hid). by destruct pre.
  - intros -> fuel Hfuel. pose proof (h_tiered _ _ _ _ _ H) as [HwA _ HwB _ (_ & HsA & _) (_ & HsB & _) _ _].
    pose proof (awf_geometry A HwA) as (_ & _ & _ & _ & HlA & _). pose proof (awf_geometry B HwB) as (_ & _ & _ & _ & HlB & _).
    assert (HmA : a_max A = 254) by (unfold a_max; by rewrite HsA).
    assert (HmB : a_max B = 62) by (unfold a_max; by rewrite HsB). unfold a_len in *.
    destruct (records_spec _ _ _ _ _ fuel H ltac:(lia)) as (l & El & P). exists l.
    unfold cbmem_add_records_to_cbtable. rewrite (Hg eq_refl). split; [done|].
    rewrite P, (h_map _ _ _ _ _ H), map_to_list_to_map by apply (h_ids _ _ _ _ _ H). done.
Qed.

(** C37.  Asking for an id gives its region when there is one, and otherwise a new one of
    the given size, as long as that size is below 4 GiB and there are addresses for it below
    the regions there are; it fails only in a locked directory, when 252 regions exist, or
    when the directory would span 2 GiB.  What is given, new or not, is aligned, above address 0,
    below the directory's tables and apart from every region of another id, and those stay
    as they are.  Giving a region back is refused or makes its id free.  Neither touches
    memory outside the directory's tables. *)
Theorem cbmem_add_correct g st G id size : reach g st G -> valid_id id ->
  0 <= size <= 2 ^ 32 - 4096 -> g_total G + pages size + 8192 < in_use top ->
  let '(a, st') := cbmem_add g top id size st in
  let G' := outcome id size a G in
  reach g st' G' /\ asked G id size a G' /\
  (forall x, ~ (in_use top - 5120 <= x < in_use top) -> cb_mem st' x = cb_mem st x) /\
  (a <> 0 -> exists n, g_map G' !! id = Some (a, n) /\ (g_map G !! id = None -> n = size) /\
     (32 | a) /\ 0 < a /\ a + n <= in_use top - 5120 /\
     forall j b k, j <> id -> g_map G !! j = Some (b, k) ->
       g_map G' !! j = Some (b, k) /\ (a + n <= b \/ b + k <= a)) /\
  (a <> 0 ->
   let '(ret, st'') := cbmem_entry_remove g top (cbmem_entry_find g top id st') st' in
   (ret = -1 /\ st'' = st' \/ ret = 0 /\ g_locked G = false /\ cbmem_find g top id st'' = 0) /\
   forall x, ~ (in_use top - 5120 <= x < in_use top) -> cb_mem st'' x = cb_mem st' x).
Proof using Htop Hlim.
  intros Hr Hid Hsize Hbound. pose proof (reach_holds _ _ _ Hr) as H.
  pose proof (cb_add_spec g st G id size H Hid Hsize Hbound) as Ha.
  destruct (cbmem_add g top id size st) as [a st'] eqn:E. cbv zeta. destruct Ha as (Hc & Hask & Hx).
  split; [eapply reach_client; [done|]; by eapply client_add|]. split; [done|]. split; [done|].
  split; [intros Ha0; by apply (cb_place g st' G)|]. intros Ha0.
  assert (Hin : is_Some (g_map (outcome id size a G) !! id)).
  { unfold outcome. destruct (g_map G !! id) eqn:Eg; [by rewrite Eg|]. rewrite (proj2 (Z.eqb_neq _ _)) by done.
    cbn. by rewrite lookup_insert_eq. }
  pose proof (cb_find_spec g st' _ id Hc Hid) as Hf. destruct Hin as [[b n] Hin]. rewrite Hin in Hf.
  pose proof (cb_remove_spec g st' _ id Hc Hid ltac:(apply Hf)) as Hrm.
  destruct (cbmem_entry_remove g top _ st') as [ret st'']. destruct Hrm as (Ho & Hc' & Hx'). split; [|done].
  destruct Ho as [Ho|[-> Hl]]; [by left|]. right. split; [done|]. split.
  - revert Hl. unfold outcome. destruct (g_map G !! id); [done|]. by case_bool.
  - pose proof (cb_find_spec g st'' _ id Hc' Hid) as Hf'. cbn [Z.eqb forgotten g_map] in Hf'.
    rewrite lookup_delete_eq in Hf'. apply Hf'.
Qed.
End Clients.

(** ** Bytes stay bytes *)

Lemma add_bytes m ir id size : mem_ok m -> mem_ok (snd (imdr_entry_add m ir id size)).
Proof.
  intros H. unfold imdr_entry_add, imd_entry_add_to_root. repeat case_bool; try done.
  unfold imd_entry_assign. cbn [snd]. by repeat apply st32_ok.
Qed.

Lemma cbmem_add_bytes g top id size st : mem_ok (cb_mem st) -> mem_ok (cb_mem (snd (cbmem_add g top id size st))).
Proof.
  intros H. unfold cbmem_add, imd_entry_find_or_add, imd_entry_add. set (h := imd_init_backing_with_recover g top st).
  destruct (imd_entry_find (cb_mem st) h id); [done|].
  assert (Hl : mem_ok (snd (imdr_entry_add (cb_mem st) (lg h) id (u32 size)))) by by apply add_bytes.
  assert (Hs : mem_ok (snd (imdr_entry_add (cb_mem st) (sm h) id (u32 size)))) by by apply add_bytes.
  destruct (imdr_entry_add (cb_mem st) (lg h) id (u32 size)) as [el ml] eqn:El.
  destruct (imdr_entry_add (cb_mem st) (sm h) id (u32 size)) as [es ms].
  case_bool; [by destruct el|]. case_bool.
  - destruct es; [done|]. pose proof (add_bytes ms (lg h) id (u32 size) Hs) as Hb.
    by destruct (imdr_entry_add ms (lg h) id (u32 size)) as [[e|] m'].
  - rewrite El. by destruct el.
Qed.

(** ** An example: the console in romstage, tables in ramstage *)

Lemma create_bytes m ir n a : mem_ok m -> mem_ok (snd (imdr_create_empty m ir n a)).
Proof.
  intros H. unfold imdr_create_empty. repeat case_bool; try done. unfold imd_entry_assign, imd_link_root, clear_root.
  cbn [snd]. by repeat apply st32_ok.
Qed.

Lemma cbmem_create_bytes g top st : mem_ok (cb_mem st) -> mem_ok (cb_mem (cbmem_initialize_empty g top [] st)).
Proof.
  intros H. unfold cbmem_initialize_empty, cbmem_initialize_empty_id_size, imd_create_tiered_empty.
  pose proof (create_bytes (cb_mem st) (lg (imd_handle_init top)) CBMEM_ROOT_MIN_SIZE CBMEM_LG_ALIGN H) as H1.
  destruct (imdr_create_empty _ _ _ _) as [[ret l] m1]. case_bool; [done|].
  pose proof (add_bytes m1 l SMALL_REGION_ID) as H2. set (sz := ALIGN_UP _ _ _). specialize (H2 sz H1).
  destruct (imdr_entry_add _ _ _ _) as [[e|] m2]; [|done]. set (s := mk_imdr _ _).
  pose proof (create_bytes m2 s CBMEM_SM_ROOT_SIZE CBMEM_SM_ALIGN H2) as H3.
  destruct (imdr_create_empty _ _ _ _) as [[ret' l'] m3]. case_bool; [done|]. unfold imdr_limit_size.
  repeat case_bool; try done; cbn; by apply st32_ok.
Qed.

Definition sample_top : Z := 0x80000000.
Definition CONSOLE_ID : Z := 0x434f4e53.
Definition TABLES_ID : Z := 0x43425442.

Definition romstage_start : cbmem := cbmem_initialize_empty false sample_top [] (mk_cbmem (imd_handle_init 0) (fun _ => 0)).
Definition romstage_console : Z * cbmem := cbmem_add false sample_top CONSOLE_ID 0x20000 romstage_start.
Definition console_map : ghost := outcome CONSOLE_ID 0x20000 (fst romstage_console) no_regions.
Definition ramstage_start : cbmem :=
  snd (cbmem_initialize true false sample_top [] (mk_cbmem (imd_handle_init 0) (cb_mem (snd romstage_console)))).

Lemma sample_ids : valid_id CONSOLE_ID /\ valid_id TABLES_ID.
Proof. unfold valid_id. by vm_compute. Qed.

Lemma romstage_reach : reach sample_top false romstage_start no_regions.
Proof. unfold romstage_start. apply reach_create, rtc_refl. Qed.

Lemma console_reach : reach sample_top false (snd romstage_console) console_map.
Proof.
  apply (reach_client sample_top false romstage_start no_regions); [exact romstage_reach|].
  unfold console_map, romstage_console.
  apply client_add; [apply sample_ids|done|done|].
  exact (surjective_pairing (cbmem_add false sample_top CONSOLE_ID 0x20000 romstage_start)).
Qed.

Lemma sample_reach : reach sample_top true ramstage_start console_map.
Proof.
  unfold ramstage_start. apply (reach_stage sample_top false (snd romstage_console) console_map true false []);
    [exact console_reach|apply rtc_refl].
Qed.

Lemma console_region : g_map console_map !! CONSOLE_ID = Some (0x7ffde000, 0x20000).
Proof. by vm_compute. Qed.
Lemma tables_region : g_map console_map !! TABLES_ID = None.
Proof. by vm_compute. Qed.

Definition ramstage_tables : Z * cbmem := cbmem_add true sample_top TABLES_ID 0x100 ramstage_start.
Lemma tables_address : fst (cbmem_add true sample_top TABLES_ID 0x100 ramstage_start) = 0x7fffeb00.
Proof. vm_compute. reflexivity. Qed.

Lemma cbmem_regions_witness :
  reach sample_top true ramstage_start console_map /\
  cbmem_find true sample_top CONSOLE_ID ramstage_start = 0x7ffde000 /\
  cbmem_find true sample_top TABLES_ID ramstage_start = 0.
Proof.
  split; [exact sample_reach|].
  destruct (cbmem_regions_correct sample_top ltac:(done) ltac:(by vm_compute) true ramstage_start console_map sample_reach)
    as (F & _ & _).
  destruct (F CONSOLE_ID (proj1 sample_ids)) as [E _]. destruct (F TABLES_ID (proj2 sample_ids)) as [E' _].
  rewrite console_region in E. rewrite tables_region in E'. split; [exact E|exact E'].
Defined.

Lemma cbmem_add_witness :
  let a := fst ramstage_tables in
  asked console_map TABLES_ID 0x100 a (outcome TABLES_ID 0x100 a console_map) /\ a = 0x7fffeb00 /\
  (a + 0x100 <= 0x7ffde000 \/ 0x7ffde000 + 0x20000 <= a).
Proof.
  pose proof (cbmem_add_correct sample_top ltac:(done) ltac:(by vm_compute) true ramstage_start console_map TABLES_ID 0x100
    sample_reach (proj2 sample_ids) ltac:(done) ltac:(by vm_compute)) as H.
  pose proof tables_address as T. unfold ramstage_tables. cbv zeta.
  destruct (cbmem_add true sample_top TABLES_ID 0x100 ramstage_start) as [a st].
  split; [exact (proj1 (proj2 H))|]. split; [exact T|]. destruct H as (_ & _ & _ & P & _).
  cbn [fst] in T |- *. destruct P as (n & _ & En & _ & _ & _ & P); [by rewrite T|]. rewrite (En tables_region) in P.
  apply (P CONSOLE_ID 0x7ffde000 0x20000); [by vm_compute|exact console_region].
Defined.

(** Sizes are 64 bits wide in the interface and 32 in the directory: 4 GiB and 16 bytes
    become 16 bytes. *)
Theorem cbmem_add_truncates :
  let '(a, st) := cbmem_add true sample_top TABLES_ID (2 ^ 32 + 16) ramstage_start in
  a <> 0 /\ cbmem_entry_size (cbmem_entry_find true sample_top TABLES_ID st) st = 16.
Proof. by vm_compute. Qed.
