(* ===== verification/Rmodule.v ===== *)
(** * Relocatable modules ([src/lib/rmodule.c])

    A module is a header, the program's bytes and a table of the words to adjust.  It is
    copied to its place (or runs where it was unpacked), its words are moved by the
    distance between where it is and where it was linked, and its bss is cleared. *)

From S2P Require Import Prelude Region CbfsLoad Memory Imd.

Definition RMODULE_MAGIC : Z := 0xf8fe.
Definition RMODULE_VERSION_1 : Z := 1.

(** [struct rmodule_header], packed, at [h] in memory. *)
Definition sizeof_rmodule_header : Z := 64.
Definition ld16 (m : memory) (a : Z) : Z := ld8 m a + 2 ^ 8 * ld8 m (a + 1).
Definition h_magic (m : memory) (h : Z) : Z := ld16 m h.
Definition h_version (m : memory) (h : Z) : Z := ld8 m (h + 2).
Definition payload_begin_offset (m : memory) (h : Z) : Z := ld32 m (h + 4).
Definition payload_end_offset (m : memory) (h : Z) : Z := ld32 m (h + 8).
Definition relocations_begin_offset (m : memory) (h : Z) : Z := ld32 m (h + 12).
Definition relocations_end_offset (m : memory) (h : Z) : Z := ld32 m (h + 16).
Definition module_link_start_address (m : memory) (h : Z) : Z := ld32 m (h + 20).
Definition module_program_size (m : memory) (h : Z) : Z := ld32 m (h + 24).
Definition module_entry_point (m : memory) (h : Z) : Z := ld32 m (h + 28).
Definition parameters_begin (m : memory) (h : Z) : Z := ld32 m (h + 32).
Definition parameters_end (m : memory) (h : Z) : Z := ld32 m (h + 36).
Definition bss_begin (m : memory) (h : Z) : Z := ld32 m (h + 40).
Definition bss_end (m : memory) (h : Z) : Z := ld32 m (h + 44).

(** [struct rmodule]; pointers are addresses, 0 for NULL. *)
Record rmodule := mk_rmodule
  { location : Z; header : Z; rm_payload : Z; payload_size : Z; rm_relocations : Z }.
Definition with_location (base : Z) (r : rmodule) : rmodule :=
  mk_rmodule base (header r) (rm_payload r) (payload_size r) (rm_relocations r).

Definition rmodule_is_loaded (r : rmodule) : bool := negb (location r =? 0).

Definition rmodule_load_addr (m : memory) (r : rmodule) (blob_addr : Z) : Z :=
  u32 (location r + u32 (blob_addr - module_link_start_address m (header r))).

(** [None] is the error -1. *)
Definition rmodule_parse (m : memory) (ptr : Z) : option rmodule :=
  if ptr =? 0 then None
  else if negb (h_magic m ptr =? RMODULE_MAGIC) then None
  else if negb (h_version m ptr =? RMODULE_VERSION_1) then None
  else Some (mk_rmodule 0 ptr (u32 (ptr + payload_begin_offset m ptr))
               (s32 (payload_end_offset m ptr - payload_begin_offset m ptr))
               (u32 (ptr + relocations_begin_offset m ptr))).

Definition rmodule_memory_size (m : memory) (r : rmodule) : Z := s32 (module_program_size m (header r)).

Definition rmodule_parameters (m : memory) (r : rmodule) : Z :=
  if negb (rmodule_is_loaded r) then 0
  else if parameters_begin m (header r) =? parameters_end m (header r) then 0
  else rmodule_load_addr m r (parameters_begin m (header r)).

Definition rmodule_entry_offset (m : memory) (r : rmodule) : Z :=
  s32 (module_entry_point m (header r) - module_link_start_address m (header r)).

Definition rmodule_entry (m : memory) (r : rmodule) : Z :=
  if negb (rmodule_is_loaded r) then 0 else rmodule_load_addr m r (module_entry_point m (header r)).

Definition rmodule_clear_bss (m : memory) (r : rmodule) : memory :=
  let begin := rmodule_load_addr m r (bss_begin m (header r)) in
  let size := s32 (bss_end m (header r) - bss_begin m (header r)) in
  memset m begin 0 (u32 size).

Definition rmodule_number_relocations (m : memory) (r : rmodule) : Z :=
  u32 (relocations_end_offset m (header r) - relocations_begin_offset m (header r)) / 4.

Definition rmodule_copy_payload (m : memory) (r : rmodule) : memory :=
  if location r =? rm_payload r then m
  else memcpy m (location r) (rm_payload r) (u32 (payload_size r)).

Fixpoint relocate_loop (num_relocations : nat) (m : memory) (r : rmodule) (adjustment reloc : Z) : memory :=
  match num_relocations with
  | O => m
  | S n =>
      let adjust_loc := rmodule_load_addr m r (ld32 m reloc) in
      let m := st32 m adjust_loc (u32 (ld32 m adjust_loc + adjustment)) in
      relocate_loop n m r adjustment (u32 (reloc + 4))
  end.

(** It returns 0. *)
Definition rmodule_relocate (m : memory) (r : rmodule) : memory :=
  let adjustment := rmodule_load_addr m r 0 in
  relocate_loop (Z.to_nat (rmodule_number_relocations m r)) m r adjustment (rm_relocations r).

Definition rmodule_load_alignment : Z := 4096.

(** It returns 0; the functions called when a segment was loaded do nothing here. *)
Definition rmodule_load (m : memory) (base : Z) (r : rmodule) : rmodule * memory :=
  let r := with_location base r in
  let m := rmodule_copy_payload m r in
  let m := rmodule_relocate m r in
  (r, rmodule_clear_bss m r).

(** The offset of the module in the region, the region's size and the offset to load at.
    A region alignment that is no power of two is reported and used all the same. *)
Definition rmodule_calc_region (region_alignment rmodule_size : Z) : Z * Z * Z :=
  let region_alignment := if region_alignment <? 4096 then 4096 else region_alignment in
  (s32 (region_alignment - sizeof_rmodule_header),
   ALIGN_UP 32 (u32 (rmodule_size + region_alignment)) 4096,
   s32 region_alignment).

(** ** Words in memory *)

(** Byte [k] of a 32-bit word. *)
Definition byte_of (v k : Z) : Z := u8 (Z.shiftr (u32 v) (8 * k)).

Lemma st32_byte m a v x : 0 <= a -> a + 4 <= 2 ^ 32 -> 0 <= x < 2 ^ 32 ->
  st32 m a v x = if within a (a + 4) x then byte_of v (x - a) else m x.
Proof.
  intros Ha Ha4 Hx. destruct (Z.le_gt_cases a x); [destruct (Z.lt_ge_cases x (a + 4))|].
  - rewrite within_in by lia. unfold st32, st8. rewrite (u32_small a), (u32_small (a + 1)), (u32_small (a + 2)), (u32_small (a + 3)) by lia. unfold byte_of.
    assert (C : x = a \/ x = a + 1 \/ x = a + 2 \/ x = a + 3) by lia.
    destruct C as [-> |[-> |[-> | ->]]];
      repeat match goal with |- context [?p =? ?q] =>
        first [rewrite (proj2 (Z.eqb_eq p q)) by lia|rewrite (proj2 (Z.eqb_neq p q)) by lia] end.
    + rewrite Z.sub_diag, Z.mul_0_r, Z.shiftr_0_r. unfold u8, u32. symmetry. by apply wrap_wrap.
    + by replace (a + 1 - a) with 1 by lia.
    + by replace (a + 2 - a) with 2 by lia.
    + by replace (a + 3 - a) with 3 by lia.
  - rewrite within_out by lia. by apply st32_frame; lia.
  - rewrite within_out by lia. by apply st32_frame; lia.
Qed.

Lemma ld32_ext m m' a : 0 <= a -> a + 4 <= 2 ^ 32 -> (forall x, a <= x < a + 4 -> m x = m' x) -> ld32 m a = ld32 m' a.
Proof. intros Ha Ha4 H. unfold ld32, ld8. by rewrite !u32_small, !H by lia. Qed.

(** ** Relocation *)

(** Words that do not overlap. *)
Definition apart (ws : list Z) : Prop := ForallOrdPairs (fun v w => v + 4 <= w \/ w + 4 <= v) ws.
Definition word_of (ws : list Z) (a : Z) : option Z := List.find (fun w => within w (w + 4) a) ws.

(** Each word moved by [delta]. *)
Definition relocated (m : memory) (ws : list Z) (delta a : Z) : Z :=
  match word_of ws a with
  | Some w => byte_of (ld32 m w + delta) (a - w)
  | None => m a
  end.

Lemma word_of_some ws a w : word_of ws a = Some w -> In w ws /\ w <= a < w + 4.
Proof.
  intros H. apply List.find_some in H as [Hin Hw]. split; [done|]. unfold within in Hw. bool_to_prop. lia.
Qed.

Lemma word_of_none ws a w : word_of ws a = None -> In w ws -> ~ (w <= a < w + 4).
Proof.
  intros H Hin Hc. pose proof (List.find_none _ _ H w Hin) as Hn. cbn in Hn. by rewrite within_in in Hn by lia.
Qed.

Section Relocate.
Context (r : rmodule) (adjustment : Z).

(** The words the table names, read in [m]. *)
Definition table_words (m : memory) (reloc : Z) (n : nat) : list Z :=
  map (fun i => rmodule_load_addr m r (ld32 m (reloc + 4 * Z.of_nat i))) (seq 0 n).

Lemma table_words_S m reloc n : table_words m reloc (S n) =
  rmodule_load_addr m r (ld32 m reloc) :: table_words m (reloc + 4) n.
Proof.
  unfold table_words. cbn [seq map]. rewrite <- seq_shift, map_map. f_equal; [do 2 f_equal; lia|].
  apply map_ext. intros i. do 2 f_equal. lia.
Qed.

Lemma relocate_loop_spec n : forall m reloc,
  0 <= reloc -> reloc + 4 * Z.of_nat n <= 2 ^ 32 -> 0 <= header r -> header r + 64 <= 2 ^ 32 ->
  apart (table_words m reloc n) ->
  Forall (fun w => 0 <= w /\ w + 4 <= 2 ^ 32 /\ (w + 4 <= reloc \/ reloc + 4 * Z.of_nat n <= w) /\
                   (w + 4 <= header r \/ header r + 64 <= w)) (table_words m reloc n) ->
  forall a, 0 <= a < 2 ^ 32 ->
    relocate_loop n m r adjustment reloc a = relocated m (table_words m reloc n) adjustment a.
Proof.
  induction n as [|n IH]; intros m reloc Hr Hre Hh Hh' Hap Hok a Ha; [done|].
  rewrite table_words_S in *. apply Forall_cons in Hok as [(W1 & W2 & W3 & W4) Hok].
  inversion_clear Hap as [|? ? Hap0 Hap1].
  cbn [relocate_loop]. set (w := rmodule_load_addr m r (ld32 m reloc)) in *.
  set (m1 := st32 m w (u32 (ld32 m w + adjustment))).
  assert (Hsame : forall x, 0 <= x < 2 ^ 32 -> ~ (w <= x < w + 4) -> m1 x = m x).
  { intros x Hx Hn. subst m1. rewrite st32_byte, within_out by lia. done. }
  assert (Htab : table_words m1 (reloc + 4) n = table_words m (reloc + 4) n).
  { apply map_ext_in. intros i Hi%in_seq. unfold rmodule_load_addr, module_link_start_address.
    assert (E1 : ld32 m1 (header r + 20) = ld32 m (header r + 20))
      by (apply ld32_ext; [lia|lia|]; intros x Hx; apply Hsame; lia).
    assert (E2 : ld32 m1 (reloc + 4 + 4 * Z.of_nat i) = ld32 m (reloc + 4 + 4 * Z.of_nat i))
      by (apply ld32_ext; [lia|lia|]; intros x Hx; apply Hsame; lia).
    by rewrite E1, E2. }
  destruct (decide (n = 0%nat)) as [-> |Hn].
  { cbn [relocate_loop table_words seq map]. unfold relocated, word_of. cbn [List.find].
    subst m1. rewrite st32_byte by lia. destruct (within w (w + 4) a); [|done].
    unfold byte_of, u32. f_equal. by rewrite (wrap_wrap 32 32) by lia. }
  rewrite (u32_small (reloc + 4)) by lia. rewrite IH; rewrite ?Htab; try done; try lia; try exact Hap1.
  2: { eapply Forall_impl; [exact Hok|]. cbn beta. intros v. lia. }
  unfold relocated, word_of. cbn [List.find].
  destruct (within w (w + 4) a) eqn:Ew.
  - unfold within in Ew. bool_to_prop.
    destruct (List.find _ _) as [v|] eqn:Ef.
    + apply word_of_some in Ef as [Hin Hv]. rewrite List.Forall_forall in Hap0. specialize (Hap0 v Hin). lia.
    + subst m1. rewrite st32_byte, within_in by lia. unfold byte_of, u32. f_equal. by rewrite (wrap_wrap 32 32) by lia.
  - destruct (List.find _ _) as [v|] eqn:Ef.
    + apply word_of_some in Ef as [Hin Hv]. rewrite List.Forall_forall in Hap0, Hok. specialize (Hap0 v Hin).
      specialize (Hok v Hin). rewrite (ld32_ext m1 m v); [done|lia..|]. intros x Hx. apply Hsame; lia.
    + apply Hsame; [done|]. intros Hc. by rewrite within_in in Ew.
Qed.
End Relocate.

(** ** What a module describes *)

Record module := mk_module
  { md_code : list Z; md_words : list Z; md_link : Z; md_size : Z; md_entry : Z;
    md_params : Z * Z; md_bss : Z * Z }.

Definition code_len (M : module) : Z := Z.of_nat (length (md_code M)).
Definition code_mem (M : module) : memory := fun x => nth (Z.to_nat x) (md_code M) 0.

(** Memory holds the module: the header at [h], its bytes at [pay], the table at [rel]. *)
Record module_at (m : memory) (h : Z) (M : module) (pay rel : Z) : Prop := {
  ma_range : 0 <= h /\ h + 64 <= 2 ^ 32 /\ 0 <= pay /\ pay + code_len M <= 2 ^ 32 /\
    0 <= rel /\ rel + 4 * Z.of_nat (length (md_words M)) <= 2 ^ 32;
  ma_magic : h_magic m h = RMODULE_MAGIC /\ h_version m h = RMODULE_VERSION_1;
  ma_payload : u32 (h + payload_begin_offset m h) = pay /\
    payload_end_offset m h - payload_begin_offset m h = code_len M;
  ma_table : u32 (h + relocations_begin_offset m h) = rel /\
    relocations_end_offset m h - relocations_begin_offset m h = 4 * Z.of_nat (length (md_words M));
  ma_fields : module_link_start_address m h = md_link M /\ module_program_size m h = md_size M /\
    module_entry_point m h = md_entry M /\ parameters_begin m h = fst (md_params M) /\
    parameters_end m h = snd (md_params M) /\ bss_begin m h = fst (md_bss M) /\ bss_end m h = snd (md_bss M);
  ma_code : forall i, 0 <= i < code_len M -> m (pay + i) = code_mem M i;
  ma_words : forall i w, md_words M !! i = Some w -> ld32 m (rel + 4 * Z.of_nat i) = w
}.

(** The words lie in the program's bytes and do not overlap; addresses are not below
    the link address. *)
Record module_wf (M : module) : Prop := {
  mw_len : code_len M < 2 ^ 31;
  mw_link : 0 <= md_link M;
  mw_words : Forall (fun w => md_link M <= w /\ w + 4 <= md_link M + code_len M) (md_words M);
  mw_apart : apart (md_words M);
  mw_count : Z.of_nat (length (md_words M)) < 2 ^ 29;
  mw_bss : md_link M <= fst (md_bss M) <= snd (md_bss M) /\ snd (md_bss M) - fst (md_bss M) < 2 ^ 31;
  mw_size : 0 <= md_size M < 2 ^ 31;
  mw_entry : md_link M <= md_entry M
}.

Definition place_of (M : module) (base w : Z) : Z := base + (w - md_link M).
Definition in_bss (M : module) (base a : Z) : bool :=
  within (place_of M base (fst (md_bss M))) (place_of M base (snd (md_bss M))) a.

(** Loaded at [base]: the bytes with the words moved, zeros in the bss. *)
Definition image (M : module) (base a : Z) : Z :=
  if in_bss M base a then 0
  else match List.find (fun w => within (place_of M base w) (place_of M base w + 4) a) (md_words M) with
       | Some w => byte_of (ld32 (code_mem M) (w - md_link M) + (base - md_link M)) (a - place_of M base w)
       | None => code_mem M (a - base)
       end.
Definition in_image (M : module) (base a : Z) : bool := within base (base + code_len M) a || in_bss M base a.

(** The place is free: it leaves the header and the table alone, and either is where the
    bytes already are or apart from them. *)
Record place_ok (M : module) (h pay rel base : Z) : Prop := {
  pl_range : 0 < h /\ 0 < base /\ base + code_len M <= 2 ^ 32 /\ place_of M base (snd (md_bss M)) < 2 ^ 32 /\
    place_of M base (md_entry M) < 2 ^ 32;
  pl_header : h + 64 <= base \/ base + code_len M <= h /\ place_of M base (snd (md_bss M)) <= h;
  pl_table : base + code_len M <= rel \/ rel + 4 * Z.of_nat (length (md_words M)) <= base;
  pl_payload : base = pay \/ base + code_len M <= pay \/ pay + code_len M <= base
}.

Section Load.
Context (m : memory) (h : Z) (M : module) (pay rel base : Z).
Hypotheses (Hat : module_at m h M pay rel) (Hwf : module_wf M) (Hpl : place_ok M h pay rel base).

Let r : rmodule := mk_rmodule base h pay (code_len M) rel.

Lemma parse_module : rmodule_parse m h = Some (mk_rmodule 0 h pay (code_len M) rel).
Proof using Hat Hwf Hpl.
  pose proof (pl_range _ _ _ _ _ Hpl) as [Hh _]. destruct Hat as [Hr [Hm Hv] [Hp Hl] [Ht _] _ _ _]. unfold rmodule_parse.
  rewrite (proj2 (Z.eqb_neq _ _)) by lia. rewrite Hm, Hv, !Z.eqb_refl. cbn [negb]. rewrite Hp, Hl, Ht.
  rewrite s32_small; [done|]. pose proof (mw_len M Hwf). unfold code_len in *. lia.
Qed.

(** The program's bytes are in place. *)
Definition copied (m1 : memory) : Prop :=
  forall a, 0 <= a < 2 ^ 32 -> m1 a = if within base (base + code_len M) a then code_mem M (a - base) else m a.

Lemma copy_module : copied (rmodule_copy_payload m r).
Proof using Hat Hwf Hpl.
  intros a Ha. destruct Hat as [Hr _ _ _ _ Hcode _]. destruct Hpl as [Hb _ _ Hp].
  pose proof (mw_len M Hwf). assert (0 <= code_len M) by (unfold code_len; lia).
  unfold rmodule_copy_payload, r. cbn [location rm_payload payload_size]. destruct (Z.eqb_spec base pay) as [Eb|Nb].
  - destruct (within base (base + code_len M) a) eqn:E; [|done]. unfold within in E. bool_to_prop.
    rewrite <- (Hcode (a - base)) by lia. f_equal. lia.
  - rewrite u32_small, memcpy_spec by lia. destruct (within base (base + code_len M) a) eqn:E; [|done].
    unfold within in E. bool_to_prop. apply Hcode. lia.
Qed.

(** The header reads the same after stores that leave it alone. *)
Definition same_header (m1 : memory) : Prop := forall o, 0 <= o -> o + 4 <= 64 -> ld32 m1 (h + o) = ld32 m (h + o).

Lemma header_same m1 : (forall a, h <= a < h + 64 -> m1 a = m a) -> same_header m1.
Proof using Hat.
  intros H o Ho Ho4. destruct Hat as [Hr _ _ _ _ _ _]. apply ld32_ext; [lia|lia|]. intros x Hx. apply H. lia.
Qed.

Lemma outside_header m1 : (forall a, 0 <= a < 2 ^ 32 -> in_image M base a = false -> m1 a = m a) -> same_header m1.
Proof using Hat Hpl Hwf.
  intros H. apply header_same. intros a Ha. destruct Hat as [Hr _ _ _ _ _ _]. destruct Hpl as [Hb Hh _ _].
  destruct (mw_bss M Hwf) as [Hbss _]. apply H; [lia|]. unfold in_image, in_bss, place_of in *.
  rewrite !within_out by lia. done.
Qed.

Lemma load_addr m1 w : same_header m1 -> md_link M <= w -> place_of M base w < 2 ^ 32 ->
  rmodule_load_addr m1 r w = place_of M base w.
Proof using Hat Hpl Hwf.
  intros Hs Hw Hend. destruct Hat as [_ _ _ _ (Hlink & _) _ _]. destruct Hpl as [Hb _ _ _]. pose proof (mw_link M Hwf).
  unfold rmodule_load_addr, module_link_start_address, r in *. cbn [location header]. rewrite Hs, Hlink by lia.
  unfold place_of in *. rewrite (u32_small (w - _)), u32_small by lia. done.
Qed.

Lemma load_addr_0 m1 : same_header m1 -> rmodule_load_addr m1 r 0 = u32 (base - md_link M).
Proof using Hat.
  intros Hs. destruct Hat as [_ _ _ _ (Hlink & _) _ _].
  unfold rmodule_load_addr, module_link_start_address, r in *. cbn [location header]. rewrite Hs, Hlink by lia.
  unfold u32, wrap. rewrite Zplus_mod_idemp_r. by f_equal.
Qed.

(** The table names the words where they are now. *)
Lemma module_words m1 : copied m1 -> table_words r m1 rel (length (md_words M)) = map (place_of M base) (md_words M).
Proof using Hat Hwf Hpl.
  intros Hc. apply list_eq. intros i. unfold table_words.
  destruct (md_words M !! i) as [w|] eqn:Ew.
  - pose proof (lookup_lt_Some _ _ _ Ew) as Hi. rewrite !list_lookup_fmap, lookup_seq_lt, Ew by done. cbn [fmap option_fmap option_map].
    f_equal. pose proof Hat as [Hr _ _ _ _ _ Hw]. pose proof Hpl as [Hb Hh Ht _].
    assert (E : ld32 m1 (rel + 4 * Z.of_nat i) = w).
    { rewrite <- (Hw i w Ew). apply ld32_ext; [lia|lia|]. intros x Hx. rewrite Hc, within_out by lia. done. }
    rewrite Nat.add_0_l, E. pose proof (mw_words M Hwf) as Hws. rewrite List.Forall_forall in Hws.
    assert (Hin : In w (md_words M)) by (apply list_elem_of_In; by eapply list_elem_of_lookup_2). specialize (Hws w Hin).
    apply load_addr; [|lia|unfold place_of; lia]. apply outside_header. intros a Ha Hout. rewrite Hc by done.
    unfold in_image in Hout. apply orb_false_iff in Hout as [-> _]. done.
  - apply lookup_ge_None in Ew. rewrite !list_lookup_fmap, (proj2 (lookup_ge_None (seq _ _) i)) by (rewrite length_seq; lia).
    by rewrite (proj2 (lookup_ge_None (md_words M) i)) by lia.
Qed.

Lemma words_apart : apart (map (place_of M base) (md_words M)).
Proof using Hwf.
  pose proof (mw_apart M Hwf) as H. induction H as [|w ws Hw _ IH]; [constructor|]. cbn [map]. constructor; [|exact IH].
  rewrite List.Forall_forall in Hw |- *. intros v (u & <- & Hu)%in_map_iff. specialize (Hw u Hu). unfold place_of. lia.
Qed.

Lemma word_of_map a : word_of (map (place_of M base) (md_words M)) a =
  option_map (place_of M base) (List.find (fun w => within (place_of M base w) (place_of M base w + 4) a) (md_words M)).
Proof.
  unfold word_of. induction (md_words M) as [|w ws IH]; [done|]. cbn [map List.find]. by destruct (within _ _ _).
Qed.

Lemma relocate_module m1 : copied m1 -> forall a, 0 <= a < 2 ^ 32 ->
  rmodule_relocate m1 r a = relocated m1 (map (place_of M base) (md_words M)) (u32 (base - md_link M)) a.
Proof using Hat Hwf Hpl.
  intros Hc a Ha. pose proof Hat as [Hr _ _ [_ Hn] _ _ _]. pose proof Hpl as [Hb Hh Ht _].
  assert (Hs : same_header m1).
  { apply outside_header. intros x Hx Hout. rewrite Hc by done. unfold in_image in Hout.
    apply orb_false_iff in Hout as [-> _]. done. }
  unfold rmodule_relocate. rewrite load_addr_0 by done.
  assert (Hnum : rmodule_number_relocations m1 r = Z.of_nat (length (md_words M))).
  { unfold rmodule_number_relocations, relocations_end_offset, relocations_begin_offset, r in *. cbn [header].
    rewrite !Hs, Hn by lia. pose proof (mw_count M Hwf). rewrite u32_small by lia. rewrite Z.mul_comm. by apply Z.div_mul. }
  rewrite Hnum, Nat2Z.id. change (rm_relocations r) with rel.
  rewrite relocate_loop_spec; rewrite ?module_words by done; cbn [header r]; try done; try lia; [apply words_apart|].
  apply List.Forall_forall. intros v (w & <- & Hin)%in_map_iff. pose proof (mw_words M Hwf) as Hws.
  rewrite List.Forall_forall in Hws. specialize (Hws w Hin). unfold place_of, r. cbn [header]. lia.
Qed.

Lemma load_spec :
  exists r, rmodule_parse m h = Some r /\
  let '(r', m') := rmodule_load m base r in
  (forall a, 0 <= a < 2 ^ 32 -> m' a = if in_image M base a then image M base a else m a) /\
  location r' = base /\ rmodule_entry m' r' = place_of M base (md_entry M) /\
  rmodule_memory_size m' r' = md_size M /\
  (md_link M <= fst (md_params M) -> place_of M base (fst (md_params M)) < 2 ^ 32 ->
   rmodule_parameters m' r' =
     if fst (md_params M) =? snd (md_params M) then 0 else place_of M base (fst (md_params M))).
Proof using Hat Hwf Hpl.
  eexists. split; [apply parse_module|]. unfold rmodule_load, with_location. cbn [header rm_payload payload_size rm_relocations].
  fold r. pose proof copy_module as Hc. set (m1 := rmodule_copy_payload m r) in *.
  pose proof (relocate_module m1 Hc) as Hrel. set (m2 := rmodule_relocate m1 r) in *.
  pose proof Hat as [_ _ _ _ (F1 & F2 & F3 & F4 & F5 & F6 & F7) _ _]. pose proof Hpl as [Hb _ _ _].
  destruct (mw_bss M Hwf) as [Hbss Hbss31]. pose proof (mw_words M Hwf) as Hws. rewrite List.Forall_forall in Hws.
  pose proof (mw_link M Hwf). pose proof (mw_size M Hwf). pose proof (mw_entry M Hwf).
  assert (Hm2 : forall a, 0 <= a < 2 ^ 32 -> in_bss M base a = false ->
    m2 a = if in_image M base a then image M base a else m a).
  { intros a Ha Hout. unfold in_image, image. rewrite Hout, orb_false_r, Hrel by done. unfold relocated. rewrite word_of_map.
    destruct (List.find _ _) as [w|] eqn:Ef; cbn [option_map].
    - pose proof (List.find_some _ _ Ef) as [Hin Hw]. unfold within in Hw. bool_to_prop. specialize (Hws w Hin).
      unfold place_of in *. rewrite within_in by lia. unfold byte_of. do 2 f_equal.
      assert (E : ld32 m1 (base + (w - md_link M)) = ld32 (code_mem M) (w - md_link M)).
      { unfold ld32, ld8. rewrite !u32_small by (pose proof (mw_len M Hwf); lia). rewrite !Hc, !within_in by lia.
        set (o := w - md_link M). replace (base + o - base) with o by lia.
        replace (base + o + 1 - base) with (o + 1) by lia. replace (base + o + 2 - base) with (o + 2) by lia.
        by replace (base + o + 3 - base) with (o + 3) by lia. }
      rewrite E. unfold u32, wrap. by rewrite Zplus_mod_idemp_r.
    - rewrite Hc by done. done. }
  assert (Hs2 : same_header m2).
  { apply outside_header. intros a Ha Hout. rewrite Hm2, Hout; [done|done|]. unfold in_image in Hout.
    by apply orb_false_iff in Hout as [_ ->]. }
  assert (Hm3 : forall a, 0 <= a < 2 ^ 32 ->
    rmodule_clear_bss m2 r a = if in_image M base a then image M base a else m a).
  { intros a Ha. unfold rmodule_clear_bss, bss_begin, bss_end. change (header r) with h.
    unfold bss_begin, bss_end in F6, F7. rewrite !Hs2, F6, F7 by lia.
    rewrite load_addr by (done || lia || (unfold place_of in *; lia)). rewrite s32_small, u32_small by lia.
    rewrite memset_within by (unfold place_of in *; lia).
    replace (place_of M base (fst (md_bss M)) + (snd (md_bss M) - fst (md_bss M))) with (place_of M base (snd (md_bss M)))
      by (unfold place_of; lia). fold (in_bss M base a). destruct (in_bss M base a) eqn:Ein.
    - unfold in_image, image. by rewrite Ein, orb_true_r.
    - by apply Hm2. }
  assert (Hs3 : same_header (rmodule_clear_bss m2 r)).
  { apply outside_header. intros a Ha Hout. by rewrite Hm3, Hout. }
  set (m3 := rmodule_clear_bss m2 r) in *. split; [done|]. split; [done|].
  unfold rmodule_entry, rmodule_memory_size, rmodule_parameters, rmodule_is_loaded. change (location r) with base.
  rewrite (proj2 (Z.eqb_neq base 0)) by lia. cbn [negb]. change (header r) with h.
  unfold module_entry_point, module_program_size, parameters_begin, parameters_end in *. rewrite !Hs3, F2, F3, F4, F5 by lia.
  split; [apply load_addr; [done|lia|lia]|]. split; [apply s32_small; lia|].
  intros Hp1 Hp2. case_bool; [done|]. apply load_addr; [done|lia|done].
Qed.
End Load.

(** ** A module in a file *)

Definition bytes_mem (l : list Z) : memory := fun x => nth (Z.to_nat x) l 0.

(** The header, the program behind it, and the table behind that. *)
Definition module_in (out : list Z) (M : module) (rel : Z) : Prop :=
  module_at (bytes_mem out) 0 M sizeof_rmodule_header rel /\
  sizeof_rmodule_header + code_len M <= rel /\ rel + 4 * Z.of_nat (length (md_words M)) <= Z.of_nat (length out).

Lemma module_unpacked m h out M rel : module_in out M rel -> 0 <= h -> h + Z.of_nat (length out) < 2 ^ 32 ->
  (forall i, 0 <= i < Z.of_nat (length out) -> m (h + i) = nth (Z.to_nat i) out 0) ->
  module_at m h M (h + sizeof_rmodule_header) (h + rel).
Proof.
  unfold module_in, sizeof_rmodule_header. intros ([Hr [Hm Hv] [Hp Hl] [Ht Hn] Hf Hc Hw] & Hafter & Hlen) Hh Hend Hb.
  assert (0 <= code_len M) by (unfold code_len; lia).
  assert (B : forall o, 0 <= o < Z.of_nat (length out) -> ld8 m (h + o) = ld8 (bytes_mem out) (0 + o)).
  { intros o Ho. unfold ld8, bytes_mem. rewrite !u32_small by lia. by apply Hb. }
  assert (L : forall o, 0 <= o -> o + 4 <= Z.of_nat (length out) -> ld32 m (h + o) = ld32 (bytes_mem out) (0 + o)).
  { intros o Ho Ho4. unfold ld32. rewrite <- !Z.add_assoc, !B by lia. done. }
  assert (A : forall x y, u32 (0 + x) = y -> h + y < 2 ^ 32 -> 0 <= y -> u32 (h + x) = h + y).
  { intros x y Hx Hy Hy0. rewrite <- (u32_small (h + y)) by lia. rewrite <- Hx. unfold u32, wrap.
    by rewrite Zplus_mod_idemp_r. }
  unfold h_magic, h_version, ld16, payload_begin_offset, payload_end_offset, relocations_begin_offset,
    relocations_end_offset, module_link_start_address, module_program_size, module_entry_point, parameters_begin,
    parameters_end, bss_begin, bss_end in Hm, Hv, Hp, Hl, Ht, Hn, Hf.
  assert (B0 : ld8 m h = ld8 (bytes_mem out) 0) by (rewrite <- (Z.add_0_r h) at 1; apply B; lia).
  split; try done; try lia.
  - unfold h_magic, h_version, ld16. by rewrite B0, !B by lia.
  - unfold payload_begin_offset, payload_end_offset. rewrite !L by lia. split; [|done]. apply A; [done|lia|lia].
  - unfold relocations_begin_offset, relocations_end_offset. rewrite !L by lia. split; [|done].
    apply A; [done|lia|lia].
  - unfold module_link_start_address, module_program_size, module_entry_point, parameters_begin, parameters_end,
      bss_begin, bss_end. by rewrite !L by lia.
  - intros i Hi. rewrite <- Z.add_assoc, Hb by lia. by apply Hc.
  - intros i w Hi. pose proof (lookup_lt_Some _ _ _ Hi). rewrite <- (Hw i w Hi), <- Z.add_assoc, L by lia. done.
Qed.

(** C36.  Loading a module at a free place, be it the place where its bytes already are:
    the header is accepted; afterwards memory holds the program as if it had been linked
    there, every word of the table moved by the distance, zeros in the bss, and nothing
    else is changed.  The entry point, the size and the parameters are those of the
    header, moved the same way. *)
Theorem rmodule_load_correct m h M pay rel base :
  module_at m h M pay rel -> module_wf M -> place_ok M h pay rel base ->
  exists r, rmodule_parse m h = Some r /\
  let '(r', m') := rmodule_load m base r in
  (forall a, 0 <= a < 2 ^ 32 -> m' a = if in_image M base a then image M base a else m a) /\
  location r' = base /\ rmodule_entry m' r' = place_of M base (md_entry M) /\
  rmodule_memory_size m' r' = md_size M /\
  (md_link M <= fst (md_params M) -> place_of M base (fst (md_params M)) < 2 ^ 32 ->
   rmodule_parameters m' r' =
     if fst (md_params M) =? snd (md_params M) then 0 else place_of M base (fst (md_params M))).
Proof. apply load_spec. Qed.

(** ** A small module

    Eight bytes of program, the first four a pointer to the fifth, and four of bss. *)

Definition sample_module : module := mk_module [4; 0; 0; 0; 1; 2; 3; 4] [0] 0 12 4 (0, 0) (8, 12).
Definition sample_module_bytes : list Z :=
  flat_map (le_bytes 2) [RMODULE_MAGIC] ++ [RMODULE_VERSION_1; 2]
  ++ flat_map (le_bytes 4) [64; 72; 72; 76; 0; 12; 4; 0; 0; 8; 12] ++ repeat 0 16
  ++ md_code sample_module ++ flat_map (le_bytes 4) (md_words sample_module).

Lemma sample_module_wf : module_wf sample_module.
Proof. split; try (by vm_compute); by repeat constructor. Qed.

Lemma sample_module_in : module_in sample_module_bytes sample_module 72.
Proof.
  split; [split|]; [vm_compute; intuition congruence|by vm_compute..| | |vm_compute; intuition congruence].
  - change (code_len sample_module) with 8. intros i Hi. apply Z.eqb_eq.
    assert (H : forallb (fun k => bytes_mem sample_module_bytes (64 + Z.of_nat k) =? code_mem sample_module (Z.of_nat k)) (seq 0 8) = true)
      by (by vm_compute).
    rewrite forallb_forall in H. specialize (H (Z.to_nat i)). rewrite Z2Nat.id in H by lia. apply H, in_seq. lia.
  - intros [|[|i]] w Hw; [|done|done]. injection Hw as <-. by vm_compute.
Qed.

Definition sample_memory : memory := fun a => if within 0x1000 0x104c a then nth (Z.to_nat (a - 0x1000)) sample_module_bytes 0 else 0xaa.
Definition module_probes : list Z := map (fun i => 0x1fff + Z.of_nat i) (seq 0 14).

Lemma rmodule_load_witness :
  exists r, rmodule_parse sample_memory 0x1000 = Some r /\
  let '(r', m') := rmodule_load sample_memory 0x2000 r in
  map m' module_probes = [0xaa; 4; 0x20; 0; 0; 1; 2; 3; 4; 0; 0; 0; 0; 0xaa] /\ rmodule_entry m' r' = 0x2004.
Proof.
  assert (Hat : module_at sample_memory 0x1000 sample_module 0x1040 0x1048).
  { apply (module_unpacked _ 0x1000 _ _ 72 sample_module_in); [lia|by vm_compute|]. change (Z.of_nat (length sample_module_bytes)) with 76.
    intros i Hi. unfold sample_memory. rewrite within_in by lia. by replace (0x1000 + i - 0x1000) with i by lia. }
  destruct (rmodule_load_correct sample_memory 0x1000 sample_module 0x1040 0x1048 0x2000 Hat sample_module_wf)
    as (r & Hr & H); [split; vm_compute; intuition congruence|].
  exists r. split; [exact Hr|]. destruct (rmodule_load sample_memory 0x2000 r) as [r' m'].
  destruct H as (Hm & _ & -> & _ & _). split; [|by vm_compute].
  rewrite (map_ext_in m' (fun a => if in_image sample_module 0x2000 a then image sample_module 0x2000 a else sample_memory a));
    [by vm_compute|]. intros a Ha. apply Hm. unfold module_probes in Ha. apply in_map_iff in Ha as (i & <- & Hi%in_seq). lia.
Defined.
