(* ===== verification/StageLoad.v ===== *)
(** * Loading and resuming ramstage

    [rmodule_stage_load] of [src/lib/rmodule.c], [src/lib/romstage_handoff.c],
    [src/lib/cbmem_stage_cache.c] and the ramstage part of [src/lib/prog_loaders.c].
    Romstage unpacks ramstage into a region of CBMEM and relocates it there; what was
    loaded is kept in a second region, from which a resume takes it. *)

From S2P Require Import Prelude Region Bytes Mapped Cbfs CbfsLoad Memory Imd Cbmem Rmodule.

Definition CBMEM_ID_RAMSTAGE : Z := 0x9a357a9e.
Definition CBMEM_ID_ROMSTAGE_INFO : Z := 0x47545352.
Definition CBMEM_ID_STAGEx_META : Z := 0x57a9e000.
Definition CBMEM_ID_STAGEx_CACHE : Z := 0x57a9e100.
Definition STAGE_RAMSTAGE : Z := 0.

(** [struct romstage_handoff] has [s3_resume] first; [struct stage_cache] the load and
    entry addresses, 64 bits each. *)
Definition sizeof_romstage_handoff : Z := 4.
Definition sizeof_stage_cache : Z := 16.
Definition ld64 (m : memory) (a : Z) : Z := ld32 m a + ld32 m (a + 4) * 2 ^ 32.
Definition st64 (m : memory) (a v : Z) : memory := st32 (st32 m a v) (a + 4) (Z.shiftr v 32).

(** What [run_ramstage] ends with. *)
Inductive run_result := Jumped (entry arg : Z) | ResetBoard | Died.

Section StageLoad.
Context {D : Type}.
Variable drv_readat : D -> nat -> Z -> Z -> Z * list Z.
Notation state := (rstate (D := D)).
Variables ulz4fn ulzman : (Z -> Z) -> Z -> Z -> Z -> Z -> Z * (Z -> Z).
Variable CAN_USE_GLOBALS : bool.
Variable cbmem_top : Z.
(** The handle of [cbmem_get_imd], where the stage has one. *)
Variable static : imd.
Variable CONFIG_ROM_SIZE : Z.
Variables stack_word stack_header : list Z.
Variable CONFIG_RESET_ON_INVALID_RAMSTAGE_CACHE : bool.

(** CBMEM as the stage sees it, and the state after it was used. *)
Definition cbmem_of (s : state) : cbmem := mk_cbmem static (mem s).
Definition after_cbmem (s : state) (c : cbmem) : state := set_mem (cb_mem c) s.

(** What it returns, the program, the address of the parameters and the state. *)
Definition rmodule_stage_load (s : state) (cbmem_id : Z) (p : prog) : Z * prog * Z * state :=
  let fh := prog_rdev p in
  let '(ret, stage) := rdev_readat drv_readat s fh 0 sizeof_cbfs_stage in
  if negb (u32 ret =? sizeof_cbfs_stage) then (-1, p, 0, s)
  else
    let '(rmodule_offset, region_size, load_offset) :=
      rmodule_calc_region DYN_CBMEM_ALIGN_SIZE (stage_memlen stage) in
    let '(stage_region, c) := cbmem_add CAN_USE_GLOBALS cbmem_top cbmem_id region_size (cbmem_of s) in
    let s := after_cbmem s c in
    if stage_region =? 0 then (-1, p, 0, s)
    else
      let rmod_loc := u32 (stage_region + rmodule_offset) in
      let '(fsize, s) :=
        cbfs_load_and_decompress drv_readat ulz4fn ulzman s fh sizeof_cbfs_stage (stage_len stage) rmod_loc
          (stage_memlen stage) (stage_compression stage) in
      if fsize =? 0 then (-1, p, 0, s)
      else
        match rmodule_parse (mem s) rmod_loc with
        | None => (-1, p, 0, s)
        | Some r =>
            let '(r, m) := rmodule_load (mem s) (u32 (stage_region + load_offset)) r in
            let p := prog_set_area p (location r) (u32 (rmodule_memory_size m r)) in
            let p := prog_set_entry p (rmodule_entry m r) 0 in
            (0, p, rmodule_parameters m r, set_mem m s)
        end.
(** ** The handoff from romstage *)

(** The structure's address, 0 for NULL. *)
Definition romstage_handoff_find_or_add (s : state) : Z * state :=
  let handoff := cbmem_find CAN_USE_GLOBALS cbmem_top CBMEM_ID_ROMSTAGE_INFO (cbmem_of s) in
  if negb (handoff =? 0) then (handoff, s)
  else
    let '(handoff, c) :=
      cbmem_add CAN_USE_GLOBALS cbmem_top CBMEM_ID_ROMSTAGE_INFO sizeof_romstage_handoff (cbmem_of s) in
    let s := after_cbmem s c in
    (handoff, if negb (handoff =? 0) then set_mem (memset (mem s) handoff 0 sizeof_romstage_handoff) s else s).

Definition romstage_handoff_init (s : state) (is_s3_resume : Z) : Z * state :=
  let '(handoff, s) := romstage_handoff_find_or_add s in
  if handoff =? 0 then (-1, s) else (0, set_mem (st8 (mem s) handoff is_s3_resume) s).

Definition romstage_handoff_is_resume (s : state) : Z :=
  let handoff := cbmem_find CAN_USE_GLOBALS cbmem_top CBMEM_ID_ROMSTAGE_INFO (cbmem_of s) in
  if handoff =? 0 then 0 else ld8 (mem s) handoff.

(** ** The stage cache *)

Definition prog_size (p : prog) : Z := region_device_sz (prog_rdev p).
(** 0 for NULL. *)
Definition prog_start (s : state) (p : prog) : Z * state :=
  let '(start, s) := rdev_mmap_full drv_readat s (prog_rdev p) in (default 0 start, s).

Definition stage_cache_add (s : state) (stage_id : Z) (stage : prog) : state :=
  let '(meta, c) :=
    cbmem_add CAN_USE_GLOBALS cbmem_top (CBMEM_ID_STAGEx_META + stage_id) sizeof_stage_cache (cbmem_of s) in
  let s := after_cbmem s c in
  if meta =? 0 then s
  else
    let '(start, s) := prog_start s stage in
    let s := set_mem (st64 (st64 (mem s) meta start) (meta + 8) (entry_point stage)) s in
    let '(cache, c) :=
      cbmem_add CAN_USE_GLOBALS cbmem_top (CBMEM_ID_STAGEx_CACHE + stage_id) (prog_size stage) (cbmem_of s) in
    let s := after_cbmem s c in
    if cache =? 0 then s
    else
      let '(start, s) := prog_start s stage in
      set_mem (memcpy (mem s) cache start (prog_size stage)) s.

Definition stage_cache_load_stage (s : state) (stage_id : Z) (stage : prog) : prog * state :=
  let stage := prog_set_entry stage 0 0 in
  let meta := cbmem_find CAN_USE_GLOBALS cbmem_top (CBMEM_ID_STAGEx_META + stage_id) (cbmem_of s) in
  if meta =? 0 then (stage, s)
  else
    let e := cbmem_entry_find CAN_USE_GLOBALS cbmem_top (CBMEM_ID_STAGEx_CACHE + stage_id) (cbmem_of s) in
    if e =? 0 then (stage, s)
    else
      let c := cbmem_entry_start CAN_USE_GLOBALS cbmem_top e (cbmem_of s) in
      let size := cbmem_entry_size e (cbmem_of s) in
      let load_addr := u32 (ld64 (mem s) meta) in
      let s := set_mem (memcpy (mem s) load_addr c size) s in
      let stage := prog_set_area stage load_addr size in
      (prog_set_entry stage (u32 (ld64 (mem s) (meta + 8))) 0, s).

(** ** Running ramstage *)

(** Either the resume ended in [inl], or the boot goes on. *)
Definition run_ramstage_from_resume (s : state) (ramstage : prog) : run_result * state + prog * state :=
  if romstage_handoff_is_resume s =? 0 then inr (ramstage, s)
  else
    let '(ramstage, s) := stage_cache_load_stage s STAGE_RAMSTAGE ramstage in
    if negb (entry_point ramstage =? 0) then inl (Jumped (entry_point ramstage) (entry_arg ramstage), s)
    else if CONFIG_RESET_ON_INVALID_RAMSTAGE_CACHE then inl (ResetBoard, s) else inr (ramstage, s).

Definition load_relocatable_ramstage (s : state) (ramstage : prog) : Z * prog * state :=
  let '(ret, p, _, s) := rmodule_stage_load s CBMEM_ID_RAMSTAGE ramstage in (ret, p, s).

(** This board's choices: a stage cache, CBMEM in romstage, a relocatable ramstage and
    no timestamps.  [ramstage] is the program after [PROG_INIT], [name] its file. *)
Definition run_ramstage (fuel : nat) (s : state) (fh : cbfsf) (ramstage : prog) (name : list Z)
    : option (run_result * state) :=
  match run_ramstage_from_resume s ramstage with
  | inl r => Some r
  | inr (ramstage, s) =>
      match prog_locate drv_readat CONFIG_ROM_SIZE stack_word stack_header fuel s fh ramstage name with
      | None => None
      | Some (ret, ramstage, s) =>
          if negb (ret =? 0) then Some (Died, s)
          else
            let '(ret, ramstage, s) := load_relocatable_ramstage s ramstage in
            if negb (ret =? 0) then Some (Died, s)
            else
              let s := stage_cache_add s STAGE_RAMSTAGE ramstage in
              Some (Jumped (entry_point ramstage) (entry_arg ramstage), s)
      end
  end.
End StageLoad.

(** ** The program's area *)

(** The device over loaded memory. *)
Definition loaded_area (start size : Z) : region_device := mk_rdev (rdev_root (rdev_of addrspace_32bit)) (mk_region start size).

Lemma prog_area p start sz : 0 <= start -> 0 <= sz -> start + sz < 2 ^ 32 ->
  prog_set_area p start sz = mk_prog (loaded_area start sz) (entry_point p) (entry_arg p).
Proof.
  intros Hs Hz He. unfold prog_set_area, rdev_chain.
  rewrite normalize_spec by (cbn; unfold region_ok; cbn; lia). cbn [offset rdev_region rdev_of addrspace_32bit].
  rewrite Z.add_0_l. rewrite (proj2 (Z.leb_le _ _)) by (cbn; lia). done.
Qed.

Lemma area_start {D} (drv_readat : D -> nat -> Z -> Z -> Z * list Z) (s : rstate (D := D)) p start sz :
  prog_rdev p = loaded_area start sz -> 0 <= start -> 0 <= sz -> start + sz < 2 ^ 32 ->
  prog_start drv_readat s p = (start, s).
Proof.
  intros Hp Hs Hz He. unfold prog_start, rdev_mmap_full, rdev_mmap. rewrite Hp. unfold loaded_area.
  unfold region_device_sz, region_sz. cbn [rdev_region rdev_root size].
  rewrite checked_spec by (unfold region_ok; cbn; lia). cbn [size offset]. rewrite Z.leb_refl, Z.add_0_r.
  cbn. by rewrite u32_small by lia.
Qed.

(** ** Loading a stage into CBMEM *)

Section Stage.
Context {D : Type} (drv_readat : D -> nat -> Z -> Z -> Z * list Z).
Context (s : rstate (D := D)) (ROM : Z).
Context (ulz4fn ulzman : (Z -> Z) -> Z -> Z -> Z -> Z -> Z * (Z -> Z)).
Context (lz4_decode lzma_decode : list Z -> Z -> option (list Z)).
Context `{Hlz4 : !Decompressor ulz4fn lz4_decode} `{Hlzma : !Decompressor ulzman lzma_decode}.
Context (g : bool) (top : Z) (static : imd) (G : ghost).
Hypotheses (Hrom : 64 <= ROM < 2 ^ 31) (Hbytes : forall x, is_byte (mem s x)).
Hypotheses (Htop : 0 <= top < 2 ^ 32) (Hlim : 8192 < in_use top) (Hbelow : in_use top <= rom_base ROM).
Hypothesis Hreach : reach top g (cbmem_of static s) G.
Set Default Proof Using "Type".

(** The file of a relocatable stage, in the window [o], [n] of the flash: the stage
    header, the packed module [out], and what is in it. *)
Definition stage_header_at (o : Z) : list Z := slice (flash s ROM) o sizeof_cbfs_stage.
Record stage_file (p : prog) (o n : Z) (out : list Z) (M : module) (rel : Z) : Prop := {
  sf_prog : prog_rdev p = win (boot_dev ROM) o n;
  sf_win : win_ok (boot_dev ROM) o n;
  sf_len : 0 < stage_len (stage_header_at o) /\ sizeof_cbfs_stage + stage_len (stage_header_at o) <= n;
  sf_out : unpack lz4_decode lzma_decode (stage_compression (stage_header_at o))
    (slice (flash s ROM) (o + sizeof_cbfs_stage) (stage_len (stage_header_at o))) (stage_memlen (stage_header_at o)) = Some out;
  sf_memlen : stage_memlen (stage_header_at o) <= 2 ^ 32 - 16384;
  sf_module : module_in out M rel;
  sf_wf : module_wf M;
  sf_inside : snd (md_bss M) - md_link M <= stage_memlen (stage_header_at o) /\
    md_entry M - md_link M < stage_memlen (stage_header_at o) /\ md_size M <= stage_memlen (stage_header_at o)
}.

(** The size of the region asked for. *)
Definition stage_region_size (o : Z) : Z := pages (stage_memlen (stage_header_at o) + 4096).

Context (p : prog) (o n : Z) (out : list Z) (M : module) (rel : Z).
Hypothesis Hfile : stage_file p o n out M rel.
Notation memlen := (stage_memlen (stage_header_at o)).

#[local] Instance stage_mapped : MappedRoot drv_readat s (boot_dev ROM) (flash s ROM).
Proof using Hrom Hbytes. by apply flash_mapped. Qed.

Lemma header_bytes : Forall is_byte (stage_header_at o).
Proof using Hbytes. apply slice_bytes. intros x. apply Hbytes. Qed.

Lemma memlen_range : 0 <= memlen.
Proof using Hbytes. apply (le32_range _ 24), header_bytes. Qed.

(** Flash and its mapping are as before where only CBMEM was written. *)
Lemma flash_same (m : memory) o' k : (forall x, ~ (in_use top - 5120 <= x < in_use top) -> m x = mem s x) ->
  win_ok (boot_dev ROM) o' k -> slice (flash (set_mem m s) ROM) o' k = slice (flash s ROM) o' k.
Proof using Hrom Hbelow Hlim.
  intros Hx (W1 & W2 & W3). cbn in W3. apply slice_ext. intros i Hi. unfold flash. cbn [mem set_mem]. apply Hx.
  unfold rom_base in *. rewrite u32_small by lia. lia.
Qed.

Lemma region_size_spec : rmodule_calc_region DYN_CBMEM_ALIGN_SIZE memlen = (4032, stage_region_size o, 4096) /\
  memlen + 4096 <= stage_region_size o <= 2 ^ 32 - 8192 /\ pages (stage_region_size o) = stage_region_size o.
Proof using Hbytes Hfile.
  pose proof memlen_range as Hm. pose proof (sf_memlen _ _ _ _ _ _ Hfile) as Hb.
  destruct (align_up_bounds 32 12 (memlen + 4096) ltac:(lia) ltac:(lia) ltac:(lia)) as [B [q Hq]].
  change (2 ^ 12) with 4096 in *. fold (pages (memlen + 4096)) in B, Hq. fold (stage_region_size o) in B, Hq.
  assert (Hend : stage_region_size o <= 2 ^ 32 - 8192).
  { rewrite Hq in *. assert (q * 4096 < 2 ^ 32 - 16384 + 4096 + 4096) by lia. lia. }
  split; [|split; [lia|]].
  - unfold rmodule_calc_region, DYN_CBMEM_ALIGN_SIZE. change (4096 <? 4096) with false. cbv iota.
    by rewrite (u32_small (memlen + 4096)) by lia.
  - destruct (align_up_bounds 32 12 (stage_region_size o) ltac:(lia) ltac:(lia) ltac:(lia)) as [B' [q' Hq']].
    change (2 ^ 12) with 4096 in *. fold (pages (stage_region_size o)) in B', Hq'. lia.
Qed.

Lemma stage_loaded id : valid_id id -> g_map G !! id = None -> g_total G + stage_region_size o + 8192 < in_use top ->
  let '(a, c) := cbmem_add g top id (stage_region_size o) (cbmem_of static s) in
  let base := a + 4096 in
  exists ret p' params s',
    rmodule_stage_load drv_readat ulz4fn ulzman g top static s id p = (ret, p', params, s') /\
    reach top g (cbmem_of static s') (outcome id (stage_region_size o) a G) /\
    (forall x, 0 <= x < 2 ^ 32 -> ~ (in_use top - 5120 <= x < in_use top) ->
       (a <> 0 -> ~ (a <= x < a + stage_region_size o)) -> mem s' x = mem s x) /\
    (a = 0 -> ret = -1 /\ p' = p) /\
    (a <> 0 -> ret = 0 /\ p' = mk_prog (loaded_area base (md_size M)) (place_of M base (md_entry M)) 0 /\
       (forall x, 0 <= x < 2 ^ 32 -> in_image M base x = true -> mem s' x = image M base x) /\
       (md_link M <= fst (md_params M) -> fst (md_params M) - md_link M < memlen ->
        params = if fst (md_params M) =? snd (md_params M) then 0 else place_of M base (fst (md_params M)))).
Proof using Hrom Hbytes Htop Hlim Hbelow Hreach Hfile Hlz4 Hlzma.
  intros Hid Hnew Hbound. pose proof memlen_range as Hm0. destruct region_size_spec as (Hcalc & Hsz & Hpg).
  pose proof Hfile as [Hp Hw [Hl0 Hl1] Hout Hml Hmod Hwf [Hin1 [Hin2 Hin3]]]. pose proof Hw as (W1 & W2 & W3). cbn in W3.
  pose proof (reach_holds top Htop Hlim _ _ _ Hreach) as Hh.
  pose proof (cb_add_spec top g (cbmem_of static s) G id (stage_region_size o) Hh Hid ltac:(lia) ltac:(lia)) as Hadd.
  pose proof (cbmem_add_bytes g top id (stage_region_size o) (cbmem_of static s) Hbytes) as Hb1.
  pose proof (cbmem_add_static top g id (stage_region_size o) (cbmem_of static s)) as Hst.
  unfold rmodule_stage_load. rewrite Hp, (win_read drv_readat s (boot_dev ROM) (flash s ROM)) by (done || (unfold sizeof_cbfs_stage; lia)).
  unfold sizeof_cbfs_stage in Hl1. rewrite (proj2 (Z.leb_le (0 + sizeof_cbfs_stage) n)) by (unfold sizeof_cbfs_stage; lia).
  change (u32 sizeof_cbfs_stage =? sizeof_cbfs_stage) with true. cbn [negb]. rewrite Z.add_0_r. fold (stage_header_at o).
  rewrite Hcalc.
  destruct (cbmem_add g top id (stage_region_size o) (cbmem_of static s)) as [a c] eqn:Ea.
  destruct Hadd as (Hc & Hask & Hx). cbn [snd cb_mem cbmem_of] in Hb1, Hx. cbn [snd imd_cbmem cbmem_of] in Hst. cbv zeta.
  assert (Hreach1 : reach top g c (outcome id (stage_region_size o) a G)).
  { eapply reach_client; [exact Hreach|]. eapply client_add; [done|lia|lia|exact Ea]. }
  assert (Hcs : c = cbmem_of static (after_cbmem s c)) by (unfold cbmem_of, after_cbmem; cbn; destruct c; cbn in *; by rewrite Hst).
  destruct (Z.eqb_spec a 0) as [-> |Ha0].
  { eexists _, _, _, _. split; [reflexivity|]. rewrite <- Hcs. split; [done|]. split; [|done].
    intros x _ Hn _. cbn [after_cbmem mem set_mem]. by apply Hx. }
  assert (HG : g_map (outcome id (stage_region_size o) a G) !! id = Some (a, stage_region_size o)).
  { unfold outcome. rewrite Hnew, (proj2 (Z.eqb_neq _ _)) by done. apply lookup_insert_eq. }
  destruct (allocation_bounds top g c _ id a (stage_region_size o) Hc HG) as (Ha & _ & Hend & _ & _).
  unfold rom_base in Hbelow. rewrite (u32_small (a + 4032)), (u32_small (a + 4096)) by lia.
  assert (Hflash : slice (flash (after_cbmem s c) ROM) (o + sizeof_cbfs_stage) (stage_len (stage_header_at o)) =
                   slice (flash s ROM) (o + sizeof_cbfs_stage) (stage_len (stage_header_at o))).
  { apply flash_same; [exact Hx|]. unfold sizeof_cbfs_stage. cbn. lia. }
  destruct (load_and_decompress_spec drv_readat (after_cbmem s c) ROM ulz4fn ulzman lz4_decode lzma_decode Hrom Hb1
    o n sizeof_cbfs_stage (stage_len (stage_header_at o)) (a + 4032) memlen (stage_compression (stage_header_at o)) out)
    as (Hlen & m2 & E2 & Hm2 & Hm2'); [done|unfold sizeof_cbfs_stage; lia..|unfold rom_base; lia|by rewrite Hflash|].
  rewrite E2. pose proof Hmod as (_ & Hm64 & Hmlen). unfold sizeof_rmodule_header in Hm64.
  assert (0 <= code_len M) by (unfold code_len; lia).
  rewrite (proj2 (Z.eqb_neq (Z.of_nat (length out)) 0)) by lia. cbn [mem set_mem].
  pose proof (module_unpacked m2 (a + 4032) out M rel Hmod ltac:(lia) ltac:(lia) Hm2) as Hat.
  unfold sizeof_rmodule_header in Hat. replace (a + 4032 + 64) with (a + 4096) in Hat by lia.
  destruct (mw_bss M Hwf) as [Hbss _]. pose proof (mw_entry M Hwf). pose proof (mw_size M Hwf).
  assert (Hpl : place_ok M (a + 4032) (a + 4096) (a + 4032 + rel) (a + 4096)).
  { split; unfold place_of; lia. }
  destruct (load_spec m2 (a + 4032) M (a + 4096) (a + 4032 + rel) (a + 4096) Hat Hwf Hpl) as (r & -> & Hr).
  destruct (rmodule_load m2 (a + 4096) r) as [r' m3]. destruct Hr as (Hm3 & -> & -> & -> & Hpar).
  rewrite (u32_small (md_size M)), prog_area by lia. eexists _, _, _, _. split; [reflexivity|].
  assert (Hout3 : forall x, 0 <= x < 2 ^ 32 -> ~ (a <= x < a + stage_region_size o) -> m3 x = cb_mem c x).
  { intros x Hxr Hn. rewrite Hm3 by done. unfold in_image, in_bss, place_of. rewrite !within_out by lia. cbn [orb].
    rewrite Hm2' by lia. done. }
  split; [|split; [|split; [done|]]].
  - rewrite Hcs in Hreach1. eapply reach_client; [exact Hreach1|].
    apply (client_write top g (cbmem_of static (after_cbmem s c)) _ m3). intros x Hxin. cbn. apply Hout3; lia.
  - intros x Hxr Hn Hn'. cbn [mem set_mem]. rewrite Hout3 by (done || (apply Hn'; done)). by apply Hx.
  - intros _. split; [done|]. split; [done|]. split.
    + intros x Hxr Hin. cbn [mem set_mem]. by rewrite Hm3, Hin.
    + intros Hq1 Hq2. apply Hpar; [done|unfold place_of; lia].
Qed.
End Stage.

(** ** The stage cache *)

Lemma ld64_st64 m a v : 0 <= v < 2 ^ 64 -> 0 <= a -> a + 8 <= 2 ^ 32 -> ld64 (st64 m a v) a = v.
Proof.
  intros Hv Ha Ha8. unfold ld64, st64. rewrite ld32_st32_other by lia. rewrite !ld32_st32_same.
  rewrite Z.shiftr_div_pow2, (u32_small (v / _)) by (try lia; Z.to_euclidean_division_equations; lia).
  unfold u32, wrap. pose proof (Z.div_mod v (2 ^ 32) ltac:(lia)). lia.
Qed.

Lemma ld64_ext m m' a : 0 <= a -> a + 8 <= 2 ^ 32 -> (forall x, a <= x < a + 8 -> m x = m' x) -> ld64 m a = ld64 m' a.
Proof. intros Ha Ha8 H. unfold ld64. rewrite !(ld32_ext m m'); [done|lia|lia| |lia|lia|]; intros; apply H; lia. Qed.

Lemma st64_frame m a v x : 0 <= a -> a + 8 <= 2 ^ 32 -> ~ (a <= x < a + 8) -> st64 m a v x = m x.
Proof. intros Ha Ha8 Hx. unfold st64. by rewrite !st32_frame by lia. Qed.

(** The ids of a stage and its cache. *)
Definition META : Z := CBMEM_ID_STAGEx_META + STAGE_RAMSTAGE.
Definition CACHE : Z := CBMEM_ID_STAGEx_CACHE + STAGE_RAMSTAGE.

Lemma stage_ids : valid_id CBMEM_ID_RAMSTAGE /\ valid_id META /\ valid_id CACHE /\ valid_id CBMEM_ID_ROMSTAGE_INFO.
Proof. unfold valid_id. by vm_compute. Qed.

(** The cache of a program of [size] bytes at [base]: its place, its entry point and a
    copy of its bytes, which [code] gives. *)
Record kept (m : memory) (G : ghost) (base entry size : Z) (code : memory) : Prop := {
  k_meta : exists a, g_map G !! META = Some (a, sizeof_stage_cache) /\ ld64 m a = base /\ ld64 m (a + 8) = entry;
  k_copy : exists a, g_map G !! CACHE = Some (a, size) /\ forall i, 0 <= i < size -> m (a + i) = code (base + i)
}.

(** The program's place lies in ramstage's region, which is not the cache. *)
Definition elsewhere (G : ghost) (base size : Z) : Prop :=
  exists a n, g_map G !! CBMEM_ID_RAMSTAGE = Some (a, n) /\ a <= base /\ base + size <= a + n.

Lemma ids_differ : CBMEM_ID_RAMSTAGE <> META /\ CBMEM_ID_RAMSTAGE <> CACHE.
Proof. by vm_compute. Qed.

Section Cache.
Context {D : Type} (drv_readat : D -> nat -> Z -> Z -> Z * list Z).
Context (top : Z) (Htop : 0 <= top < 2 ^ 32) (Hlim : 8192 < in_use top).
Set Default Proof Using "Type".
Implicit Types s : rstate (D := D).

(** A region whose id is asked for the first time is given when nothing speaks against it. *)
Lemma fresh_region g st G id size : reach top g st G -> valid_id id -> g_map G !! id = None ->
  0 <= size <= 2 ^ 32 - 8192 -> g_total G + pages size + 8192 < in_use top ->
  g_locked G = false -> regions G < 252 -> g_total G + pages size + 4096 <= 2 ^ 31 ->
  exists a c, cbmem_add g top id size st = (a, c) /\ a <> 0 /\ reach top g c (noted id a size G) /\
    imd_cbmem c = imd_cbmem st /\
    (forall x, ~ (in_use top - 5120 <= x < in_use top) -> cb_mem c x = cb_mem st x) /\
    0 < a /\ a + size <= in_use top - 5120 /\ in_use top < 2 ^ 32 /\
    (forall j b k, g_map G !! j = Some (b, k) -> a + size <= b \/ b + k <= a).
Proof using Htop Hlim.
  intros Hr Hid Hnew Hsize Hb Hl Hn Hs. pose proof (reach_holds top Htop Hlim _ _ _ Hr) as Hh.
  pose proof (cb_add_spec top g st G id size Hh Hid ltac:(lia) Hb) as Ha.
  pose proof (cbmem_add_static top g id size st) as Hst.
  destruct (cbmem_add g top id size st) as [a c] eqn:E. destruct Ha as (Hc & Hask & Hx). exists a, c.
  unfold asked in Hask. rewrite Hnew in Hask. destruct Hask as [(-> & _ & [?|[?|?]])|(Ha & _ & EG)]; [congruence|lia|lia|].
  rewrite EG in Hc. assert (HG : g_map (noted id a size G) !! id = Some (a, size)) by apply lookup_insert_eq.
  destruct (allocation_bounds top g c _ id a size Hc HG) as (? & ? & ? & _ & ?).
  split; [done|]. split; [done|]. split.
  { rewrite <- EG. eapply reach_client; [exact Hr|]. by eapply client_add; [|lia|..]. }
  split; [done|]. split; [done|]. split; [lia|]. split; [lia|]. split; [lia|].
  intros j b k Ej. assert (Hne : id <> j) by (intros ->; congruence).
  apply (allocations_disjoint top g c (noted id a size G) id j); try done. cbn. by rewrite lookup_insert_ne.
Qed.

Lemma pages_nonneg' n : 0 <= n <= 2 ^ 32 - 8192 -> n <= pages n.
Proof.
  intros Hn. destruct (align_up_bounds 32 12 n ltac:(lia) ltac:(lia) ltac:(lia)) as [? _]. unfold pages.
  change 4096 with (2 ^ 12). lia.
Qed.

Lemma regions_noted id a size G : g_map G !! id = None -> regions (noted id a size G) = regions G + 1.
Proof. intros H. unfold regions. cbn. rewrite map_size_insert_None by done. lia. Qed.

Lemma cache_added g static s G p base size entry :
  reach top g (cbmem_of static s) G -> g_map G !! META = None -> g_map G !! CACHE = None ->
  g_locked G = false -> regions G < 251 ->
  prog_rdev p = loaded_area base size -> entry_point p = entry -> 0 <= entry < 2 ^ 32 ->
  0 <= base -> 0 <= size <= 2 ^ 32 - 8192 -> base + size < 2 ^ 32 -> base + size <= in_use top - 5120 ->
  g_total G + 4096 + pages size + 8192 < in_use top -> g_total G + 4096 + pages size + 4096 <= 2 ^ 31 ->
  elsewhere G base size ->
  exists G', let s' := stage_cache_add drv_readat g top static s STAGE_RAMSTAGE p in
    reach top g (cbmem_of static s') G' /\ kept (mem s') G' base entry size (mem s') /\
    (forall id, id <> META -> id <> CACHE -> g_map G' !! id = g_map G !! id) /\
    (forall x, base <= x < base + size -> mem s' x = mem s x).
Proof using Htop Hlim.
  intros Hr Hmeta Hcache Hl Hn Hp He He32 Hb Hsz Hend Hbelow Ht1 Ht2 (ra & rn & Hra & Hrb & Hrc).
  destruct ids_differ as [Hr1 Hr2]. destruct stage_ids as (_ & Vm & Vc & _). pose proof (pages_nonneg' size ltac:(lia)).
  destruct (fresh_region g (cbmem_of static s) G META sizeof_stage_cache Hr Vm Hmeta) as
    (ma & c1 & E1 & Hma & Hr1' & Hst1 & Hx1 & Hma0 & Hma1 & Htop32 & Hd1);
    [unfold sizeof_stage_cache; lia|change (pages sizeof_stage_cache) with 4096; lia|done|lia|change (pages sizeof_stage_cache) with 4096; lia|].
  assert (Hps : prog_size p = size) by (unfold prog_size, region_device_sz, region_sz; by rewrite Hp).
  unfold sizeof_stage_cache in Hma1, Hd1. unfold stage_cache_add. rewrite Hps. change (CBMEM_ID_STAGEx_META + STAGE_RAMSTAGE) with META.
  change (CBMEM_ID_STAGEx_CACHE + STAGE_RAMSTAGE) with CACHE.
  rewrite E1, (proj2 (Z.eqb_neq ma 0)) by done.
  rewrite (area_start drv_readat _ p base size Hp) by lia. rewrite He. cbn [mem set_mem after_cbmem].
  set (m1 := st64 (st64 (cb_mem c1) ma base) (ma + 8) entry).
  assert (Hm1 : forall x, ~ (ma <= x < ma + 16) -> m1 x = cb_mem c1 x) by (intros x Hx; subst m1; rewrite !st64_frame by lia; done).
  set (s1 := set_mem m1 (after_cbmem s c1)).
  assert (Hr2' : reach top g (cbmem_of static s1) (noted META ma 16 G)).
  { eapply reach_client; [exact Hr1'|]. replace (cbmem_of static s1) with (set_cb_mem m1 c1)
      by (unfold cbmem_of, set_cb_mem; cbn; by rewrite Hst1).
    apply client_write. intros x Hx. apply Hm1. lia. }
  destruct (fresh_region g (cbmem_of static s1) (noted META ma 16 G) CACHE size Hr2' Vc) as
    (ca & c2 & E2 & Hca & Hr3' & Hst2 & Hx2 & Hca0 & Hca1 & _ & Hd2);
    cbn [g_map g_total g_locked noted]; try done; try lia.
  { rewrite lookup_insert_ne; [done|]. by vm_compute. }
  { rewrite regions_noted by done. lia. }
  rewrite E2, (proj2 (Z.eqb_neq ca 0)) by done. rewrite (area_start drv_readat _ p base size Hp) by lia. cbn [mem set_mem after_cbmem].
  assert (Hdm : ca + size <= ma \/ ma + 16 <= ca) by (apply (Hd2 META ma 16); cbn; apply lookup_insert_eq).
  assert (Hdr : ca + size <= ra \/ ra + rn <= ca) by (apply (Hd2 CBMEM_ID_RAMSTAGE ra rn); cbn; by rewrite lookup_insert_ne).
  assert (Hdr' : ma + 16 <= ra \/ ra + rn <= ma) by by apply (Hd1 CBMEM_ID_RAMSTAGE ra rn).
  set (m2 := memcpy (cb_mem c2) ca base size).
  assert (Hm2 : forall x, 0 <= x < 2 ^ 32 -> m2 x = if within ca (ca + size) x then cb_mem c2 (base + (x - ca)) else cb_mem c2 x)
    by (intros x Hx; apply memcpy_spec; lia).
  exists (noted CACHE ca size (noted META ma 16 G)). split; [|split; [split|split]].
  - eapply reach_client; [exact Hr3'|]. replace (cbmem_of static (set_mem m2 (after_cbmem s1 c2))) with (set_cb_mem m2 c2)
      by (unfold cbmem_of, set_cb_mem; cbn; by rewrite Hst2).
    apply client_write. intros x Hx. rewrite Hm2, within_out by lia. done.
  - exists ma. split; [cbn; rewrite lookup_insert_ne by (by vm_compute); by rewrite lookup_insert_eq|].
    assert (Hsame : forall x, ma <= x < ma + 16 -> m2 x = m1 x).
    { intros x Hx. rewrite Hm2, within_out by lia. rewrite Hx2 by lia. done. }
    cbn [mem set_mem]. split.
    + rewrite (ld64_ext m2 m1) by (lia || (intros x Hx; apply Hsame; lia)). subst m1.
      rewrite (ld64_ext _ (st64 (cb_mem c1) ma base)) by (lia || (intros x Hx; apply st64_frame; lia)).
      apply ld64_st64; lia.
    + rewrite (ld64_ext m2 m1) by (lia || (intros x Hx; apply Hsame; lia)). apply ld64_st64; lia.
  - exists ca. split; [cbn; apply lookup_insert_eq|]. intros i Hi. cbn [mem set_mem].
    rewrite !Hm2, (within_in ca), (within_out ca) by lia. f_equal. lia.
  - intros id N1 N2. cbn. by rewrite !lookup_insert_ne.
  - intros x Hx. cbn [mem set_mem]. rewrite Hm2, within_out by lia. rewrite Hx2 by lia. cbn [cb_mem cbmem_of s1 mem set_mem].
    rewrite Hm1, Hx1 by lia. done.
Qed.
Lemma cache_loaded g static s G p base entry size code :
  reach top g (cbmem_of static s) G -> kept (mem s) G base entry size code -> elsewhere G base size ->
  0 <= entry < 2 ^ 32 -> 0 <= base -> 0 <= size ->
  exists m', stage_cache_load_stage g top static s STAGE_RAMSTAGE p =
      (mk_prog (loaded_area base size) entry 0, set_mem m' s) /\
    forall x, 0 <= x < 2 ^ 32 -> m' x = if within base (base + size) x then code x else mem s x.
Proof using Htop Hlim.
  intros Hr [(ma & Em & Lm & Le) (ca & Ec & Hcopy)] (ra & rn & Er & B1 & B2) He Hb Hs. destruct ids_differ as [N1 N2].
  pose proof (reach_holds top Htop Hlim _ _ _ Hr) as Hh. destruct stage_ids as (_ & Vm & Vc & _).
  pose proof (cb_find_spec top g _ G META Hh Vm) as Fm. rewrite Em in Fm. destruct Fm as (Fm & _).
  pose proof (cb_find_spec top g _ G CACHE Hh Vc) as Fc. rewrite Ec in Fc. destruct Fc as (_ & Fe & Fs & Fn).
  destruct (allocation_bounds top g _ G META ma sizeof_stage_cache Hh Em) as (Hma & _ & Hma' & _ & Htop32).
  destruct (allocation_bounds top g _ G CACHE ca size Hh Ec) as (Hca & _ & Hca' & _ & _).
  destruct (allocation_bounds top g _ G CBMEM_ID_RAMSTAGE ra rn Hh Er) as (Hra & _ & Hra' & _ & _).
  pose proof (allocations_disjoint top g _ G META CBMEM_ID_RAMSTAGE _ _ _ _ Hh Em Er ltac:(done)) as D1.
  pose proof (allocations_disjoint top g _ G CACHE CBMEM_ID_RAMSTAGE _ _ _ _ Hh Ec Er ltac:(done)) as D2.
  unfold sizeof_stage_cache in *. unfold stage_cache_load_stage.
  change (CBMEM_ID_STAGEx_META + STAGE_RAMSTAGE) with META. change (CBMEM_ID_STAGEx_CACHE + STAGE_RAMSTAGE) with CACHE.
  rewrite Fm, (proj2 (Z.eqb_neq ma 0)) by lia. rewrite (proj2 (Z.eqb_neq _ 0)) by done. rewrite Fs, Fn, Lm.
  rewrite (u32_small base) by lia. set (m' := memcpy (mem s) base ca size).
  assert (Hm' : forall x, 0 <= x < 2 ^ 32 -> m' x = if within base (base + size) x then mem s (ca + (x - base)) else mem s x)
    by (intros x Hx; apply memcpy_spec; lia).
  exists m'. cbn [mem set_mem]. rewrite (ld64_ext m' (mem s)), Le, u32_small by
    (lia || (intros x Hx; rewrite Hm', within_out by lia; done)).
  split; [by rewrite prog_area by lia|]. intros x Hx. rewrite Hm' by done. destruct (within base (base + size) x) eqn:E; [|done].
  unfold within in E. bool_to_prop. rewrite Hcopy by lia. f_equal. lia.
Qed.
End Cache.

(** ** The handoff *)

Lemma ld8_small m a : 0 <= a < 2 ^ 32 -> ld8 m a = m a.
Proof. intros H. unfold ld8. by rewrite u32_small. Qed.

Section Handoff.
Context {D : Type} (top : Z) (g : bool) (static : imd).
Hypotheses (Htop : 0 <= top < 2 ^ 32) (Hlim : 8192 < in_use top).
Notation INFO := CBMEM_ID_ROMSTAGE_INFO.
Implicit Types s : rstate (D := D).

(** A store of [r] at the start of the structure is what the later stage reads. *)
Lemma handoff_stored s G a n m r : reach top g (cbmem_of static s) G -> g_map G !! INFO = Some (a, n) ->
  (forall x, 0 <= x < 2 ^ 32 -> ~ (a <= x < a + n) -> m x = mem s x) -> m a = r ->
  reach top g (cbmem_of static (set_mem m s)) G /\ romstage_handoff_is_resume g top static (set_mem m s) = r.
Proof using Htop Hlim.
  intros Hr E Hm Hv. pose proof (reach_holds top Htop Hlim _ _ _ Hr) as Hh. destruct stage_ids as (_ & _ & _ & Vi).
  destruct (allocation_bounds top g _ G _ a n Hh E) as (? & ? & ? & _ & ?).
  assert (Hr2 : reach top g (cbmem_of static (set_mem m s)) G).
  { eapply reach_client; [exact Hr|]. apply (client_write top g (cbmem_of static s) G m). intros x Hx. cbn. apply Hm; lia. }
  split; [done|]. unfold romstage_handoff_is_resume.
  pose proof (cb_find_spec top g _ G _ (reach_holds top Htop Hlim _ _ _ Hr2) Vi) as Hf. rewrite E in Hf.
  destruct Hf as (-> & _). rewrite (proj2 (Z.eqb_neq a 0)) by lia. cbn [mem set_mem]. by rewrite ld8_small by lia.
Qed.

Lemma st8_spec (m : memory) a r : 0 <= a < 2 ^ 32 -> 0 <= r < 256 -> st8 m a r a = r /\ forall x, x <> a -> st8 m a r x = m x.
Proof.
  intros Ha Hr. unfold st8. rewrite u32_small by lia. split; [|intros x Hx; by rewrite (proj2 (Z.eqb_neq x a))].
  rewrite Z.eqb_refl. by apply wrap_small.
Qed.

(** [romstage_handoff_init] makes [romstage_handoff_is_resume] say what it was given;
    it fails only where CBMEM has no room. *)
Lemma handoff_spec s G r : reach top g (cbmem_of static s) G ->
  g_total G + 4096 + 8192 < in_use top -> 0 <= r < 256 -> (forall a n, g_map G !! INFO = Some (a, n) -> 1 <= n) ->
  let '(ret, s') := romstage_handoff_init g top static s r in
  exists G', reach top g (cbmem_of static s') G' /\ (forall id, id <> INFO -> g_map G' !! id = g_map G !! id) /\
    (ret = 0 -> romstage_handoff_is_resume g top static s' = r /\
       exists a n, g_map G' !! INFO = Some (a, n) /\
         (G' = G \/ g_map G !! INFO = None /\ G' = noted INFO a sizeof_romstage_handoff G)) /\
    (ret <> 0 -> ret = -1 /\ G' = G /\
       (g_locked G = true \/ 252 <= regions G \/ 2 ^ 31 < g_total G + 4096 + 4096)).
Proof using Htop Hlim.
  intros Hr Hb Hr8 Hn1. pose proof (reach_holds top Htop Hlim _ _ _ Hr) as Hh. destruct stage_ids as (_ & _ & _ & Vi).
  pose proof (cb_find_spec top g _ G INFO Hh Vi) as Hf. unfold romstage_handoff_init, romstage_handoff_find_or_add.
  destruct (g_map G !! INFO) as [[a n]|] eqn:Eg.
  - destruct Hf as (-> & _). destruct (allocation_bounds top g _ G _ a n Hh Eg) as (Ha & ? & ? & _ & ?).
    rewrite (proj2 (Z.eqb_neq a 0)) by lia. cbn [negb]. rewrite (proj2 (Z.eqb_neq a 0)) by lia.
    destruct (st8_spec (mem s) a r ltac:(lia) Hr8) as [S1 S2]. pose proof (Hn1 a n eq_refl).
    destruct (handoff_stored s G a n (st8 (mem s) a r) r Hr Eg) as [R1 R2]; [intros x Hx Hx'; apply S2; lia|done|].
    exists G. split; [done|]. split; [done|]. split; [intros _; split; [done|]; exists a, n; auto|]. by intros [].
  - destruct Hf as (-> & _). change (0 =? 0) with true. cbn [negb].
    pose proof (cb_add_spec top g _ G INFO sizeof_romstage_handoff Hh Vi) as Ha.
    change (pages sizeof_romstage_handoff) with 4096 in Ha. specialize (Ha ltac:(done) ltac:(lia)).
    pose proof (cbmem_add_static top g INFO sizeof_romstage_handoff (cbmem_of static s)) as Hst.
    destruct (cbmem_add g top INFO sizeof_romstage_handoff (cbmem_of static s)) as [a c] eqn:E.
    destruct Ha as (Hc & Hask & Hx). unfold asked in Hask. rewrite Eg in Hask. cbn [snd imd_cbmem cbmem_of] in Hst.
    assert (Hcs : c = cbmem_of static (after_cbmem s c)) by (unfold cbmem_of, after_cbmem; cbn; destruct c; cbn in *; by rewrite Hst).
    assert (Hr1 : reach top g (cbmem_of static (after_cbmem s c)) (outcome INFO sizeof_romstage_handoff a G)).
    { rewrite <- Hcs. eapply reach_client; [exact Hr|]. eapply client_add; [done|done| |exact E].
      change (pages sizeof_romstage_handoff) with 4096. lia. }
    destruct Hask as [(-> & EG & Hwhy)|(Ha0 & _ & EG)]; rewrite EG in *.
    + cbn [Z.eqb negb]. exists G. split; [done|]. split; [done|]. split; [done|]. intros _. split; [done|]. split; [done|].
      change (pages sizeof_romstage_handoff) with 4096 in Hwhy. done.
    + rewrite (proj2 (Z.eqb_neq a 0)) by done. cbn [negb].
      assert (Eg1 : g_map (noted INFO a sizeof_romstage_handoff G) !! INFO = Some (a, sizeof_romstage_handoff)) by apply lookup_insert_eq.
      destruct (allocation_bounds top g c _ _ a _ Hc Eg1) as (? & ? & ? & _ & ?). unfold sizeof_romstage_handoff in *.
      destruct (st8_spec (memset (mem (after_cbmem s c)) a 0 4) a r ltac:(lia) Hr8) as [S1 S2].
      destruct (handoff_stored (after_cbmem s c) _ a 4 (st8 (memset (mem (after_cbmem s c)) a 0 4) a r) r Hr1 Eg1) as [R1 R2]; [|done|].
      { intros x Hx1 Hx2. rewrite S2, memset_within, within_out by lia. done. }
      eexists. split; [exact R1|]. split; [intros id Hid; cbn; by rewrite lookup_insert_ne|]. split; [intros _; split; [done|]; exists a, 4; auto|]. by intros [].
Qed.

Lemma handoff_bytes s r : (forall x, is_byte (mem s x)) ->
  forall x, is_byte (mem (snd (romstage_handoff_init g top static s r)) x).
Proof.
  intros Hb. assert (H8 : forall m a v, mem_ok m -> mem_ok (st8 m a v)).
  { intros m a v H x. unfold st8. case_bool; [apply (wrap_range 8); lia|apply H]. }
  unfold romstage_handoff_init, romstage_handoff_find_or_add. set (f := cbmem_find _ _ _ _).
  destruct (Z.eqb_spec f 0) as [_|N]; cbn [negb]; [|rewrite (proj2 (Z.eqb_neq f 0) N); by apply H8].
  pose proof (cbmem_add_bytes g top INFO sizeof_romstage_handoff (cbmem_of static s) Hb) as Ha.
  destruct (cbmem_add g top INFO sizeof_romstage_handoff (cbmem_of static s)) as [a c].
  destruct (Z.eqb_spec a 0); cbn [negb]; [exact Ha|]. apply H8. intros x. cbn. unfold memset. case_bool; [lia|apply Ha].
Qed.
End Handoff.

(** ** Booting and resuming *)

(** A resume: the cache is copied back and entered. *)
Lemma run_resume {D} drv_readat ulz4fn ulzman ROM stack_word stack_header reset fuel fh ramstage name
    top g static (s : rstate (D := D)) G base entry size code :
  0 <= top < 2 ^ 32 -> 8192 < in_use top -> reach top g (cbmem_of static s) G ->
  romstage_handoff_is_resume g top static s <> 0 ->
  kept (mem s) G base entry size code -> elsewhere G base size -> 0 < entry < 2 ^ 32 -> 0 <= base -> 0 <= size ->
  exists m', run_ramstage drv_readat ulz4fn ulzman g top static ROM stack_word stack_header reset fuel s fh ramstage name =
      Some (Jumped entry 0, set_mem m' s) /\
    forall x, 0 <= x < 2 ^ 32 -> m' x = if within base (base + size) x then code x else mem s x.
Proof.
  intros Htop Hlim Hr Hh Hk Helse He Hb Hs.
  destruct (cache_loaded top Htop Hlim g static s G ramstage base entry size code Hr Hk Helse ltac:(lia) Hb Hs) as (m' & E & Hm').
  exists m'. split; [|done]. unfold run_ramstage, run_ramstage_from_resume. rewrite (proj2 (Z.eqb_neq _ 0)) by done. rewrite E.
  cbn [entry_point entry_arg]. by rewrite (proj2 (Z.eqb_neq entry 0)) by lia.
Qed.

Section Run.
Context {D : Type} (drv_readat : D -> nat -> Z -> Z -> Z * list Z).
Context (s : rstate (D := D)) (ROM : Z).
Context (ulz4fn ulzman : (Z -> Z) -> Z -> Z -> Z -> Z -> Z * (Z -> Z)).
Context (lz4_decode lzma_decode : list Z -> Z -> option (list Z)).
Context `{Hlz4 : !Decompressor ulz4fn lz4_decode} `{Hlzma : !Decompressor ulzman lzma_decode}.
Context (g : bool) (top : Z) (static : imd) (G : ghost).
Hypotheses (Hrom : 64 <= ROM < 2 ^ 31) (Hbytes : forall x, is_byte (mem s x)).
Hypotheses (Htop : 0 <= top < 2 ^ 32) (Hlim : 8192 < in_use top) (Hbelow : in_use top <= rom_base ROM).
Hypothesis Hreach : reach top g (cbmem_of static s) G.
Set Default Proof Using "Type".

(** The boot device's file system, and ramstage's file in it. *)
Context (stack_word stack_header : list Z) (reset : bool).
Context (xs : list Z) (fuel : nat) (fh : cbfsf) (ramstage : prog) (name : list Z).
Hypotheses (Hv : header_valid s ROM) (Hl : layout (flash s ROM) (cbfs_base s ROM) (cbfs_size s ROM) 0 xs)
  (Hz : Forall (fun c => c <> 0) name) (Hf : cbfs_size s ROM + 64 <= 64 * Z.of_nat fuel).

Notation run s' g' static' :=
  (run_ramstage drv_readat ulz4fn ulzman g' top static' ROM stack_word stack_header reset fuel s' fh ramstage name).
Notation find_ramstage :=
  (List.find (fun x => bool_decide (string_at (flash s ROM) (cbfs_base s ROM + x + sizeof_cbfs_file) name)) xs).

(** CBMEM has no ramstage yet and room for it and its cache. *)
Record room (needed : Z) : Prop := {
  rm_fresh : g_map G !! CBMEM_ID_RAMSTAGE = None /\ g_map G !! META = None /\ g_map G !! CACHE = None;
  rm_open : g_locked G = false /\ regions G < 250;
  rm_total : g_total G + needed + 8192 < in_use top /\ g_total G + needed + 4096 <= 2 ^ 31
}.

Lemma run_missing : romstage_handoff_is_resume g top static s = 0 -> find_ramstage = None ->
  run s g static = Some (Died, s).
Proof using Hrom Hbytes Hv Hl Hz Hf.
  intros Hh Hn. unfold run_ramstage, run_ramstage_from_resume. rewrite Hh. cbn [Z.eqb]. change (0 =? 0) with true. cbv iota.
  pose proof (prog_located drv_readat s ROM stack_word stack_header Hrom Hbytes xs fuel fh ramstage name Hv Hl Hz Hf) as H.
  rewrite Hn in H. rewrite H. done.
Qed.

(** A boot: ramstage runs from its region, and its cache is filled. *)
Lemma run_boot x out M rel : romstage_handoff_is_resume g top static s = 0 -> find_ramstage = Some x ->
  let o := data_at s ROM x in
  let n := data_size (flash s ROM) (cbfs_base s ROM) x in
  stage_file s ROM lz4_decode lzma_decode (mk_prog (win (boot_dev ROM) o n) (entry_point ramstage) (entry_arg ramstage)) o n out M rel ->
  code_len M <= md_size M /\ snd (md_bss M) - md_link M <= md_size M ->
  room (stage_region_size s ROM o + 4096 + pages (md_size M)) ->
  exists base s1 G1, run s g static = Some (Jumped (place_of M base (md_entry M)) 0, s1) /\
    reach top g (cbmem_of static s1) G1 /\ 0 < base /\ 0 < place_of M base (md_entry M) < 2 ^ 32 /\
    (forall a, 0 <= a < 2 ^ 32 -> in_image M base a = true -> mem s1 a = image M base a) /\
    kept (mem s1) G1 base (place_of M base (md_entry M)) (md_size M) (mem s1) /\ elsewhere G1 base (md_size M) /\
    (forall id, ~ In id [CBMEM_ID_RAMSTAGE; META; CACHE] -> g_map G1 !! id = g_map G !! id).
Proof using Hrom Hbytes Htop Hlim Hbelow Hreach Hv Hl Hz Hf Hlz4 Hlzma.
  intros Hh Hx o n Hfile [Hc1 Hc2] [(F1 & F2 & F3) (O1 & O2) (T1 & T2)]. destruct stage_ids as (Vr & Vm & Vc & _).
  pose proof (prog_located drv_readat s ROM stack_word stack_header Hrom Hbytes xs fuel fh ramstage name Hv Hl Hz Hf) as H.
  rewrite Hx in H. destruct H as [_ Hloc]. fold o n in Hloc.
  pose proof Hfile as [_ Hw [Hl0 Hl1] _ Hml _ Hwf [_ [Hin2 Hin3]]]. pose proof (mw_size M Hwf). pose proof (mw_entry M Hwf).
  destruct (region_size_spec s ROM lz4_decode lzma_decode Hbytes _ o n out M rel Hfile) as (_ & Hsz & Hpg).
  pose proof (pages_nonneg' (md_size M) ltac:(lia)).
  pose proof (stage_loaded drv_readat s ROM ulz4fn ulzman lz4_decode lzma_decode g top static G Hrom Hbytes Htop Hlim Hbelow
    Hreach _ o n out M rel Hfile CBMEM_ID_RAMSTAGE Vr F1 ltac:(lia)) as Hload.
  destruct (fresh_region top Htop Hlim g (cbmem_of static s) G CBMEM_ID_RAMSTAGE (stage_region_size s ROM o) Hreach Vr F1)
    as (a & c & Ea & Ha0 & _ & _ & _ & Ha & Hend & Htop32 & _); [lia|lia|done|lia|lia|].
  rewrite Ea in Hload. destruct Hload as (ret & p' & params & s' & El & Hr1 & Hx1 & _ & Hok).
  destruct (Hok Ha0) as (-> & -> & Himg & _). set (base := a + 4096) in *.
  assert (EG : outcome CBMEM_ID_RAMSTAGE (stage_region_size s ROM o) a G = noted CBMEM_ID_RAMSTAGE a (stage_region_size s ROM o) G).
  { unfold outcome. by rewrite F1, (proj2 (Z.eqb_neq a 0)). }
  rewrite EG in Hr1. set (G0 := noted CBMEM_ID_RAMSTAGE a (stage_region_size s ROM o) G) in *.
  assert (Helse : elsewhere G0 base (md_size M)).
  { exists a, (stage_region_size s ROM o). split; [apply lookup_insert_eq|]. lia. }
  assert (He : 0 < place_of M base (md_entry M) < 2 ^ 32) by (unfold place_of; lia).
  destruct (cache_added drv_readat top Htop Hlim g static s' G0 (mk_prog (loaded_area base (md_size M)) (place_of M base (md_entry M)) 0)
    base (md_size M) (place_of M base (md_entry M)) Hr1) as (G1 & Hr2 & Hk & Hother & Hsame); try done; try lia.
  { subst G0. cbn. rewrite lookup_insert_ne; [done|by vm_compute]. }
  { subst G0. cbn. rewrite lookup_insert_ne; [done|by vm_compute]. }
  { subst G0. rewrite regions_noted by done. lia. }
  { subst G0. cbn [g_total noted]. lia. }
  { subst G0. cbn [g_total noted]. lia. }
  cbv zeta in Hr2, Hk, Hsame. eexists base, _, G1. split.
  { unfold run_ramstage, run_ramstage_from_resume. rewrite Hh. change (0 =? 0) with true. cbv iota.
    rewrite Hloc. change (negb (0 =? 0)) with false. cbv iota. unfold load_relocatable_ramstage. rewrite El. reflexivity. }
  split; [exact Hr2|]. split; [lia|]. split; [done|]. split; [|split; [exact Hk|split]].
  - intros b Hb Hin. rewrite Hsame; [by apply Himg|]. unfold in_image, in_bss, place_of in Hin.
    apply orb_true_iff in Hin as [Hin|Hin]; unfold within in Hin; bool_to_prop; destruct (mw_bss M Hwf); lia.
  - destruct Helse as (ra & rn & E & B). destruct ids_differ. exists ra, rn. by rewrite Hother.
  - intros id Hid. rewrite Hother by (intros ->; apply Hid; simpl; auto). subst G0. cbn.
    apply lookup_insert_ne. intros <-. apply Hid. simpl. auto.
Qed.

(** Romstage loads a relocatable stage into a new CBMEM region: the program is as if
    linked one page into the region, its entry point and area are returned, nothing
    outside the region and the directory's tables is changed, and CBMEM goes on to work.
    Without a region it returns -1 and leaves the program as it was. *)
Theorem rmodule_stage_load_correct id p o n out M rel :
  stage_file s ROM lz4_decode lzma_decode p o n out M rel -> valid_id id -> g_map G !! id = None ->
  g_total G + stage_region_size s ROM o + 8192 < in_use top ->
  let '(a, c) := cbmem_add g top id (stage_region_size s ROM o) (cbmem_of static s) in
  let base := a + 4096 in
  exists ret p' params s',
    rmodule_stage_load drv_readat ulz4fn ulzman g top static s id p = (ret, p', params, s') /\
    reach top g (cbmem_of static s') (outcome id (stage_region_size s ROM o) a G) /\
    (forall x, 0 <= x < 2 ^ 32 -> ~ (in_use top - 5120 <= x < in_use top) ->
       (a <> 0 -> ~ (a <= x < a + stage_region_size s ROM o)) -> mem s' x = mem s x) /\
    (a = 0 -> ret = -1 /\ p' = p) /\
    (a <> 0 -> ret = 0 /\ p' = mk_prog (loaded_area base (md_size M)) (place_of M base (md_entry M)) 0 /\
       (forall x, 0 <= x < 2 ^ 32 -> in_image M base x = true -> mem s' x = image M base x) /\
       (md_link M <= fst (md_params M) -> fst (md_params M) - md_link M < stage_memlen (stage_header_at s ROM o) ->
        params = if fst (md_params M) =? snd (md_params M) then 0 else place_of M base (fst (md_params M)))).
Proof using Hrom Hbytes Htop Hlim Hbelow Hreach Hlz4 Hlzma.
  intros Hfile Hid. by apply (stage_loaded drv_readat s ROM ulz4fn ulzman lz4_decode lzma_decode g top static G
    Hrom Hbytes Htop Hlim Hbelow Hreach p o n out M rel Hfile id).
Qed.

(** C16.  A boot and any resume after it.  Without the file the boot dies and nothing is
    changed.  With it [run_ramstage] jumps to the entry point of the relocated program,
    which is in memory, and the other regions of CBMEM stay where they are.  Whatever happens to memory and to CBMEM afterwards, as long as
    the regions of ramstage and its cache stay and the cache is not written, a resume in
    any stage jumps to the same entry point with the same bytes in place, and writes
    nothing else. *)
Theorem ramstage_resume_correct : romstage_handoff_is_resume g top static s = 0 ->
  match find_ramstage with
  | None => run s g static = Some (Died, s)
  | Some x => forall out M rel,
      let o := data_at s ROM x in
      let n := data_size (flash s ROM) (cbfs_base s ROM) x in
      let size := md_size M in
      stage_file s ROM lz4_decode lzma_decode (mk_prog (win (boot_dev ROM) o n) (entry_point ramstage) (entry_arg ramstage))
        o n out M rel ->
      code_len M <= size /\ snd (md_bss M) - md_link M <= size ->
      room (stage_region_size s ROM o + 4096 + pages size) ->
      exists base s1 G1,
        let entry := place_of M base (md_entry M) in
        run s g static = Some (Jumped entry 0, s1) /\
        (forall a, 0 <= a < 2 ^ 32 -> in_image M base a = true -> mem s1 a = image M base a) /\
        reach top g (cbmem_of static s1) G1 /\
        (forall id, ~ In id [CBMEM_ID_RAMSTAGE; META; CACHE] -> g_map G1 !! id = g_map G !! id) /\
        forall g' static' (s2 : rstate (D := D)) G2,
          reach top g' (cbmem_of static' s2) G2 -> romstage_handoff_is_resume g' top static' s2 <> 0 ->
          (forall id, In id [CBMEM_ID_RAMSTAGE; META; CACHE] -> g_map G2 !! id = g_map G1 !! id) ->
          (forall id a k, In id [META; CACHE] -> g_map G1 !! id = Some (a, k) ->
             forall x, a <= x < a + k -> mem s2 x = mem s1 x) ->
          exists m3, run s2 g' static' = Some (Jumped entry 0, set_mem m3 s2) /\
            forall a, 0 <= a < 2 ^ 32 -> m3 a = if within base (base + size) a then mem s1 a else mem s2 a
  end.
Proof using Hrom Hbytes Htop Hlim Hbelow Hreach Hv Hl Hz Hf Hlz4 Hlzma.
  intros Hh. destruct find_ramstage as [x|] eqn:Ex; [|by apply run_missing].
  intros out M rel o n size Hfile Hcov Hroom.
  destruct (run_boot x out M rel Hh Ex Hfile Hcov Hroom) as (base & s1 & G1 & E1 & Hr1 & Hb & He & Himg & Hk & Helse & Hother).
  exists base, s1, G1. cbv zeta. do 4 (split; [assumption|]). intros g' static' s2 G2 Hr2 Hh2 Hids Hmem.
  assert (Hs : 0 <= size) by (destruct Hfile as [_ _ _ _ _ _ Hwf _]; pose proof (mw_size M Hwf); unfold size; lia).
  pose proof (reach_holds top Htop Hlim _ _ _ Hr1) as Hh1. destruct Hk as [(ma & Em & Lm & Le) (ca & Ec & Hcopy)].
  destruct (allocation_bounds top g _ G1 META ma _ Hh1 Em) as (? & _ & ? & _ & ?). unfold sizeof_stage_cache in *.
  apply (run_resume drv_readat ulz4fn ulzman ROM stack_word stack_header reset fuel fh ramstage name top g' static' s2 G2
    base (place_of M base (md_entry M)) size (mem s1)); try done; try lia.
  - split.
    + exists ma. rewrite Hids by (simpl; auto). split; [done|].
      assert (Hm : forall y, ma <= y < ma + 16 -> mem s2 y = mem s1 y) by (intros y Hy; apply (Hmem META ma 16); by auto using in_eq).
      rewrite !(ld64_ext (mem s2) (mem s1)) by (lia || (intros y Hy; apply Hm; lia)). done.
    + exists ca. rewrite Hids by (simpl; auto). split; [done|]. intros i Hi.
      rewrite (Hmem CACHE ca size) by (try done; simpl; auto; lia). by apply Hcopy.
  - destruct Helse as (ra & rn & Er & Hin). exists ra, rn. by rewrite Hids by (simpl; auto).
Qed.
End Run.

(** ** A small flash *)

(** A file system with one file, the packed small module. *)
Definition stage_rom : list Z :=
  write_be32 CBFS_HEADER_MAGIC ++ write_be32 0x31313132 ++ write_be32 512 ++ write_be32 64 ++ write_be32 64
  ++ write_be32 64 ++ write_be32 1 ++ write_be32 0 ++ repeat 0xff 32
  ++ sample_file [114; 0; 0; 0] [] CBFS_TYPE_STAGE 0 28 (sample_stage 0 76 sample_module_bytes) 384
  ++ repeat 0xff 60 ++ le_bytes 4 0xfffffe00.

Definition new_cbmem : cbmem :=
  cbmem_initialize_empty false sample_top [] (mk_cbmem (imd_handle_init 0) (mem (rom_state stage_rom))).
Definition new_static : imd := imd_cbmem new_cbmem.
Definition new_state : rstate (D := unit) := mk_rstate (cb_mem new_cbmem) ∅ tt.

Lemma new_reach : reach sample_top false (cbmem_of new_static new_state) no_regions.
Proof.
  assert (E : cbmem_of new_static new_state = new_cbmem) by (unfold cbmem_of, new_static, new_state; cbn [mem]; by destruct new_cbmem).
  rewrite E. apply reach_create, rtc_refl.
Qed.

Lemma new_bytes x : is_byte (mem new_state x).
Proof.
  unfold new_state, new_cbmem. cbn [mem]. apply cbmem_create_bytes. intros y. apply byte_at_byte, bytes_check. by vm_compute.
Qed.

Definition stage_window : region_device := win (boot_dev 512) 92 (28 + 76).
Lemma sample_stage_file (s : rstate (D := unit)) e a : stage_header_at s 512 92 = take 28 (sample_stage 0 76 sample_module_bytes) ->
  slice (flash s 512) 120 76 = sample_module_bytes -> stage_file s 512 copy_decode copy_decode (mk_prog stage_window e a) 92 104
  sample_module_bytes sample_module 72.
Proof.
  assert (Hw : module_wf sample_module) by apply sample_module_wf.
  assert (Hin : module_in sample_module_bytes sample_module 72) by apply sample_module_in.
  intros Eh Ed.
  assert (L : stage_len (stage_header_at s 512 92) = 76) by (by rewrite Eh; vm_compute).
  assert (N : stage_memlen (stage_header_at s 512 92) = 76) by (by rewrite Eh; vm_compute).
  split; rewrite ?L, ?N; [reflexivity|unfold win_ok; cbn; lia|unfold sizeof_cbfs_stage; lia| |lia|exact Hin|exact Hw|cbn; lia].
  change (92 + sizeof_cbfs_stage) with 120. rewrite Ed, Eh. by vm_compute.
Qed.

(** The module is loaded at the page above its region, [0x7fffc000]. *)
Definition stage_prog : prog := mk_prog stage_window 0 0.
Definition stage_probes : list Z := map (fun i => 0x7fffd000 + Z.of_nat i) (seq 0 12).
Definition stage_loaded_bytes : list Z := [4; 0xd0; 0xff; 0x7f; 1; 2; 3; 4; 0; 0; 0; 0].

Lemma stage_probe_range a : In a stage_probes -> 0 <= a < 2 ^ 32.
Proof. unfold stage_probes. intros (i & <- & Hi%in_seq)%in_map_iff. lia. Qed.

Lemma stage_probe_in a : In a stage_probes -> in_image sample_module 0x7fffd000 a = true.
Proof. revert a. apply forallb_forall. by vm_compute. Qed.

Lemma stage_region_value : fst (cbmem_add false sample_top CBMEM_ID_RAMSTAGE (stage_region_size new_state 512 92)
  (cbmem_of new_static new_state)) = 0x7fffc000.
Proof. vm_compute. reflexivity. Qed.

Lemma stage_room : g_total no_regions + stage_region_size new_state 512 92 + 8192 < in_use sample_top.
Proof. by vm_compute. Qed.

Lemma rmodule_stage_load_witness :
  exists params s',
    rmodule_stage_load no_driver copy_fn copy_fn false sample_top new_static new_state CBMEM_ID_RAMSTAGE stage_prog =
      (0, mk_prog (loaded_area 0x7fffd000 12) 0x7fffd004 0, params, s') /\
    map (mem s') stage_probes = stage_loaded_bytes.
Proof.
  pose proof (rmodule_stage_load_correct no_driver new_state 512 copy_fn copy_fn copy_decode copy_decode
    false sample_top new_static no_regions ltac:(lia) new_bytes ltac:(done) ltac:(by vm_compute) ltac:(by vm_compute) new_reach
    CBMEM_ID_RAMSTAGE stage_prog 92 104 _ _ _ (sample_stage_file new_state 0 0 ltac:(by vm_compute) ltac:(by vm_compute)) (proj1 stage_ids) ltac:(done) stage_room) as H.
  pose proof stage_region_value as V.
  destruct (cbmem_add false sample_top CBMEM_ID_RAMSTAGE (stage_region_size new_state 512 92) (cbmem_of new_static new_state)) as [a c].
  cbn [fst] in V. subst a. cbv zeta in H. destruct H as (ret & p' & params & s' & E & _ & _ & _ & H).
  destruct (H ltac:(done)) as (-> & -> & Hm & _). exists params, s'. split; [exact E|].
  rewrite (map_ext_in (mem s') (image sample_module 0x7fffd000)); [by vm_compute|].
  intros b Hb. apply Hm; [by apply stage_probe_range|by apply stage_probe_in].
Defined.

(** A boot in which romstage says that it is not a resume, and then a resume. *)
Definition boot_state : rstate (D := unit) := snd (romstage_handoff_init false sample_top new_static new_state 0).
Definition boot_run (s : rstate (D := unit)) : option (run_result * rstate (D := unit)) :=
  run_ramstage no_driver copy_fn copy_fn false sample_top new_static 512 [] [] true 8 s no_fh stage_prog [114].

Lemma boot_value : option_map fst (boot_run boot_state) = Some (Jumped 0x7fffd004 0).
Proof. by vm_compute. Qed.

Lemma boot_layout : layout (flash boot_state 512) 64 384 0 [0].
Proof.
  apply layout_file.
  - split; [lia|]. split; [by vm_compute|]. split; [by exists 0|]. split; [by vm_compute|].
    apply (no_file_checked _ _ _ 6); [lia|lia|by vm_compute].
  - unfold fits. by vm_compute.
  - exists 25. split; by vm_compute.
  - apply layout_end. apply (no_file_checked _ _ _ 6); by vm_compute.
Qed.

Lemma boot_bytes x : is_byte (mem boot_state x).
Proof. apply handoff_bytes, new_bytes. Qed.

Lemma boot_ret : fst (romstage_handoff_init false sample_top new_static new_state 0) = 0.
Proof. vm_compute. reflexivity. Qed.

Lemma boot_reach : exists a, reach sample_top false (cbmem_of new_static boot_state) (noted CBMEM_ID_ROMSTAGE_INFO a 4 no_regions) /\
  romstage_handoff_is_resume false sample_top new_static boot_state = 0.
Proof.
  pose proof (handoff_spec sample_top false new_static ltac:(done) ltac:(by vm_compute) new_state no_regions 0 new_reach
    ltac:(by vm_compute) ltac:(lia) ltac:(done)) as H. pose proof boot_ret as R. unfold boot_state.
  destruct (romstage_handoff_init false sample_top new_static new_state 0) as [ret s']. cbn [fst snd] in *. subst ret.
  destruct H as (G' & Hr & _ & H & _). destruct (H eq_refl) as (Hz & a & n & Ha & [-> | [_ ->]]); [done|]. by exists a.
Qed.

Lemma boot_file : stage_file boot_state 512 copy_decode copy_decode (mk_prog stage_window 0 0) 92 104
  sample_module_bytes sample_module 72.
Proof. apply sample_stage_file; by vm_compute. Qed.

Lemma boot_room a : room sample_top (noted CBMEM_ID_ROMSTAGE_INFO a 4 no_regions)
  (stage_region_size boot_state 512 92 + 4096 + pages 12).
Proof.
  assert (E : stage_region_size boot_state 512 92 = 8192) by (by vm_compute).
  assert (U : in_use sample_top = 2 ^ 31) by (by vm_compute). assert (P : pages 12 = 4096) by (by vm_compute).
  split; rewrite ?E, ?P, ?U.
  - cbn [g_map noted no_regions]. repeat split; (rewrite lookup_insert_ne; [apply lookup_empty|discriminate]).
  - rewrite regions_noted by done. split; [done|]. change (regions no_regions) with 0. lia.
  - change (g_total (noted CBMEM_ID_ROMSTAGE_INFO a 4 no_regions)) with 4096. lia.
Qed.

Lemma boot_header_valid : header_valid boot_state 512.
Proof.
  assert (A : header_at boot_state 512 = 0) by (vm_compute; reflexivity).
  assert (B : header_magic (boot_header boot_state 512) = CBFS_HEADER_MAGIC) by (vm_compute; reflexivity).
  assert (C : header_bootblocksize (boot_header boot_state 512) = 64) by (vm_compute; reflexivity).
  unfold header_valid. change (cbfs_base boot_state 512) with 64. rewrite A, B, C. lia.
Qed.

Lemma boot_layout' : layout (flash boot_state 512) (cbfs_base boot_state 512) (cbfs_size boot_state 512) 0 [0].
Proof.
  change (cbfs_base boot_state 512) with 64. change (cbfs_size boot_state 512) with 384. exact boot_layout.
Qed.

Lemma boot_found :
  List.find (fun x => bool_decide (string_at (flash boot_state 512) (cbfs_base boot_state 512 + x + sizeof_cbfs_file) [114])) [0] = Some 0.
Proof. by vm_compute. Qed.

Lemma boot_data_at : data_at boot_state 512 0 = 92.
Proof. by vm_compute. Qed.
Lemma boot_data_size : data_size (flash boot_state 512) (cbfs_base boot_state 512) 0 = 104.
Proof. by vm_compute. Qed.

Lemma boot_cover : code_len sample_module <= md_size sample_module /\
  snd (md_bss sample_module) - md_link sample_module <= md_size sample_module.
Proof. split; by vm_compute. Qed.

Lemma boot_run_eq s : boot_run s =
  run_ramstage no_driver copy_fn copy_fn false sample_top new_static 512 [] [] true 8 s no_fh stage_prog [114].
Proof. reflexivity. Qed.

Lemma boot_base base (s1 : rstate (D := unit)) :
  option_map fst (Some (Jumped (place_of sample_module base (md_entry sample_module)) 0, s1)) = Some (Jumped 0x7fffd004 0) ->
  base = 0x7fffd000.
Proof. unfold place_of. cbn. intros V. injection V. lia. Qed.

Lemma info_apart : ~ In CBMEM_ID_ROMSTAGE_INFO [CBMEM_ID_RAMSTAGE; META; CACHE].
Proof. simpl. intros [H|[H|[H|[]]]]; discriminate. Qed.

Lemma stage_probe_within a : In a stage_probes -> within 0x7fffd000 (0x7fffd000 + md_size sample_module) a = true.
Proof. revert a. apply forallb_forall. by vm_compute. Qed.

(** The first byte of the handoff set after the boot: the caches stay as they were. *)
Lemma later_state (s1 : rstate (D := unit)) G1 h : 0 <= sample_top < 2 ^ 32 -> 8192 < in_use sample_top ->
  reach sample_top false (cbmem_of new_static s1) G1 -> g_map G1 !! CBMEM_ID_ROMSTAGE_INFO = Some (h, 4) ->
  let s2 := set_mem (st8 (mem s1) h 1) s1 in
  reach sample_top false (cbmem_of new_static s2) G1 /\ romstage_handoff_is_resume false sample_top new_static s2 = 1 /\
  forall id a k, In id [META; CACHE] -> g_map G1 !! id = Some (a, k) -> forall x, a <= x < a + k -> mem s2 x = mem s1 x.
Proof.
  intros Ht Hl Hr Eh. pose proof (reach_holds sample_top Ht Hl _ _ _ Hr) as Hh.
  destruct (allocation_bounds sample_top false _ G1 _ h 4 Hh Eh) as (? & ? & ? & _ & ?).
  destruct (st8_spec (mem s1) h 1 ltac:(lia) ltac:(lia)) as [S1 S2]. cbv zeta.
  destruct (handoff_stored sample_top false new_static Ht Hl s1 G1 h 4 (st8 (mem s1) h 1) 1 Hr Eh) as [R1 R2];
    [intros x Hx Hx'; apply S2; lia|exact S1|]. split; [exact R1|]. split; [exact R2|].
  intros id a k Hid Ei x Hx. cbn [mem set_mem]. apply S2.
  assert (Hne : id <> CBMEM_ID_ROMSTAGE_INFO) by (intros ->; apply info_apart; simpl in *; tauto).
  pose proof (allocations_disjoint sample_top false _ G1 _ _ _ _ _ _ Hh Ei Eh Hne). lia.
Qed.

Lemma ramstage_resume_witness :
  exists s1 s2 m3, boot_run boot_state = Some (Jumped 0x7fffd004 0, s1) /\
    map (mem s1) stage_probes = stage_loaded_bytes /\
    romstage_handoff_is_resume false sample_top new_static s2 = 1 /\
    boot_run s2 = Some (Jumped 0x7fffd004 0, set_mem m3 s2) /\ map m3 stage_probes = stage_loaded_bytes.
Proof.
  assert (L0 : 64 <= 512 < 2 ^ 31) by lia.
  assert (Lt : 0 <= sample_top < 2 ^ 32) by (unfold sample_top; lia).
  assert (L1 : 8192 < in_use sample_top) by (by vm_compute).
  assert (L2 : in_use sample_top <= rom_base 512) by (by vm_compute).
  assert (L4 : cbfs_size boot_state 512 + 64 <= 64 * Z.of_nat 8) by (by vm_compute).
  assert (L5 : Forall (fun c => c <> 0) [114]) by (by repeat constructor).
  destruct boot_reach as (h & Hr & Hz).
  pose proof (ramstage_resume_correct no_driver boot_state 512 copy_fn copy_fn copy_decode copy_decode false sample_top new_static
    (noted CBMEM_ID_ROMSTAGE_INFO h 4 no_regions) L0 boot_bytes Lt L1 L2 Hr [] [] true [0] 8%nat no_fh stage_prog [114]
    boot_header_valid boot_layout' L5 L4 Hz) as H.
  rewrite boot_found in H.
  specialize (H sample_module_bytes sample_module 72). cbv zeta in H. rewrite boot_data_at, boot_data_size in H.
  destruct (H boot_file boot_cover (boot_room h)) as (base & s1 & G1 & E1 & Hm1 & Hr1 & Hk & Hres). clear H.
  assert (Hb : base = 0x7fffd000).
  { pose proof boot_value as V. rewrite boot_run_eq, E1 in V. exact (boot_base base s1 V). }
  subst base. destruct (later_state s1 G1 h Lt L1 Hr1) as (Hr2 & Hz2 & Hsame).
  { rewrite Hk by apply info_apart. apply lookup_insert_eq. }
  destruct (Hres false new_static (set_mem (st8 (mem s1) h 1) s1) G1 Hr2) as (m3 & E3 & Hm3);
    [rewrite Hz2; discriminate|done|exact Hsame|].
  exists s1, (set_mem (st8 (mem s1) h 1) s1), m3. rewrite !boot_run_eq. split; [exact E1|].
  assert (Hp : map (mem s1) stage_probes = stage_loaded_bytes).
  { rewrite (map_ext_in (mem s1) (image sample_module 0x7fffd000)); [by vm_compute|].
    intros b Hb. apply Hm1; [by apply stage_probe_range|by apply stage_probe_in]. }
  split; [exact Hp|]. split; [exact Hz2|]. split; [exact E3|]. rewrite <- Hp. apply map_ext_in. intros b Hb.
  rewrite Hm3 by by apply stage_probe_range. by rewrite (stage_probe_within b Hb).
Defined.
