(* ===== verification/Bootmem.v ===== *)
(** * The memory map at boot time ([src/lib/bootmem.c], [src/arch/x86/tables.c])

    The map of memory that is handed to the operating system and from which
    payloads and bounce buffers get their place: a [memranges] filled from the
    device tree, CBMEM and the tables at the bottom of memory. *)

From S2P Require Import Prelude Device MemRange Imd.

Definition LB_MEM_RAM : Z := 1.
Definition LB_MEM_RESERVED : Z := 2.
Definition LB_MEM_UNUSABLE : Z := 5.
Definition LB_MEM_TABLE : Z := 16.

Definition bootmem_add_range (bm : memranges) (start size type : Z) : memranges :=
  memranges_insert true bm start size type.

(** [src/lib/imd_cbmem.c]; the two variables stay 0 when there is no CBMEM. *)
Definition cbmem_region_used (m : memory) (cbmem : imd) : Z * Z :=
  match imd_region_used m cbmem with Some used => used | None => (0, 0) end.
Definition cbmem_add_bootmem (m : memory) (cbmem : imd) (bm : memranges) : memranges :=
  let '(base, size) := cbmem_region_used m cbmem in
  bootmem_add_range bm base size LB_MEM_TABLE.

(** [forwarding_table] is the static variable of [src/arch/x86/tables.c]. *)
Definition bootmem_arch_add_ranges (forwarding_table : Z) (bm : memranges) : memranges :=
  bootmem_add_range bm 0 (u32 (forwarding_table - 0)) LB_MEM_TABLE.

Definition bootmem_init (st : dstate) (m : memory) (cbmem : imd) (forwarding_table : Z) : memranges :=
  let bm := memranges_init true st IORESOURCE_CACHEABLE IORESOURCE_CACHEABLE LB_MEM_RAM in
  let bm := memranges_add_resources true st bm IORESOURCE_RESERVE IORESOURCE_RESERVE LB_MEM_RESERVED in
  bootmem_arch_add_ranges forwarding_table (cbmem_add_bootmem m cbmem bm).

(** [struct lb_uint64] and [struct lb_memory_range]. *)
Record lb_uint64 := mk_lb64 { lo : Z; hi : Z }.
Definition unpack_lb64 (v : lb_uint64) : Z := u64 (u64 (Z.shiftl (hi v) 32) + lo v).
Definition pack_lb64 (v : Z) : lb_uint64 :=
  mk_lb64 (Z.land (Z.shiftr v 0) 0xffffffff) (Z.land (Z.shiftr v 32) 0xffffffff).
Record lb_memory_range := mk_lb_range { lb_start : lb_uint64; lb_size : lb_uint64; lb_type : Z }.
Definition sizeof_lb_memory_range : Z := 20.

(** The entries written and the new size of the record. *)
Definition bootmem_write_memory_table (bm : memranges) (mem_size : Z) : list lb_memory_range * Z :=
  fold_left (fun '(map, size) r =>
    (map ++ [mk_lb_range (pack_lb64 (range_entry_base r)) (pack_lb64 (range_entry_size r)) (u32 (range_entry_tag r))],
     u32 (size + sizeof_lb_memory_range))) (entries bm) ([], mem_size).

Fixpoint usable_loop (start end_ : Z) (es : list range_entry) : bool :=
  match es with
  | [] => false
  | r :: es' =>
      if end_ <=? range_entry_base r then false
      else if (range_entry_base r <=? start) && (end_ <=? range_entry_end r)
              && (range_entry_tag r =? LB_MEM_RAM) then true
      else usable_loop start end_ es'
  end.

Definition bootmem_region_targets_usable_ram (bm : memranges) (start size : Z) : bool :=
  usable_loop start (u64 (start + size)) (entries bm).

(** The end of an entry below 4 GiB. *)
Definition max_addr : Z := 2 ^ 32.
Definition end_below (r : range_entry) : Z :=
  let end_ := range_entry_end r in if max_addr <? end_ then max_addr else end_.

Definition region_fits (size : Z) (r : range_entry) : bool :=
  negb (range_entry_size r <? size) && (range_entry_tag r =? LB_MEM_RAM)
  && negb (max_addr <=? range_entry_base r)
  && negb (u64 (end_below r - range_entry_base r) <? size).

(** The buffer, 0 for NULL, and the map. *)
Definition bootmem_allocate_buffer (bm : memranges) (size : Z) : Z * memranges :=
  let size := ALIGN_UP 32 size 4096 in
  let region := fold_left (fun region r => if region_fits size r then Some r else region) (entries bm) None in
  match region with
  | None => (0, bm)
  | Some r =>
      let begin := u64 (end_below r - size) in
      (u32 begin, bootmem_add_range bm begin size LB_MEM_UNUSABLE)
  end.

(** ** Entries and addresses *)

Lemma wf_entry lo es r : wf_from lo es -> r ∈ es -> lo <= r_begin r <= r_end r /\ r_end r < 2 ^ 64.
Proof.
  revert lo. induction es as [|r0 es IH]; intros lo W Hr; [by apply not_elem_of_nil in Hr|].
  destruct W as (H1 & H2 & W). apply elem_of_cons in Hr as [-> |Hr]; [done|].
  apply (IH (r_end r0 + 1)) in Hr; [lia|done].
Qed.

Lemma tag_at_some es a t : tag_at es a = Some t -> exists r, r ∈ es /\ in_range r a = true /\ r_tag r = t.
Proof.
  induction es as [|r es IH]; cbn; [done|]. destruct (in_range r a) eqn:E.
  - intros [= <-]. exists r. split; [left|done].
  - intros (r' & Hr & H)%IH. exists r'. split; [by right|done].
Qed.

Lemma tag_at_entry lo es r a : wf_from lo es -> r ∈ es -> in_range r a = true -> tag_at es a = Some (r_tag r).
Proof.
  revert lo. induction es as [|r0 es IH]; intros lo W Hr Ha; [by apply not_elem_of_nil in Hr|].
  cbn. destruct W as (H1 & H2 & W). apply elem_of_cons in Hr as [-> |Hr]; [by rewrite Ha|].
  pose proof (wf_entry _ _ _ W Hr) as H. destruct (in_range r0 a) eqn:E; [|by apply (IH (r_end r0 + 1))].
  unfold in_range in *. bool_to_prop. lia.
Qed.

Lemma wf_disjoint lo es r1 r2 : wf_from lo es -> r1 ∈ es -> r2 ∈ es -> r_begin r2 <= r_end r1 + 1 ->
  r_begin r1 < r_begin r2 \/ r_end r1 < r_end r2 -> r_begin r2 = r_end r1 + 1.
Proof.
  revert lo. induction es as [|r0 es IH]; intros lo W Hr1 Hr2 Hb He; [by apply not_elem_of_nil in Hr1|].
  destruct W as (H1 & H2 & W). apply elem_of_cons in Hr1 as [-> |Hr1]; apply elem_of_cons in Hr2 as [-> |Hr2].
  - lia.
  - pose proof (wf_entry _ _ _ W Hr2). lia.
  - pose proof (wf_entry _ _ _ W Hr1). lia.
  - by apply (IH (r_end r0 + 1)).
Qed.

Lemma coalesced_next lo es r1 r2 : wf_from lo es -> coalesced es -> r1 ∈ es -> r2 ∈ es ->
  r_begin r2 = r_end r1 + 1 -> r_tag r1 <> r_tag r2.
Proof.
  revert lo. induction es as [|r0 es IH]; intros lo W C Hr1 Hr2 Hb; [by apply not_elem_of_nil in Hr1|].
  destruct W as (H1 & H2 & W). destruct es as [|r3 es].
  - apply list_elem_of_singleton in Hr1 as ->, Hr2 as ->. lia.
  - destruct C as [C0 C]. apply elem_of_cons in Hr1 as [-> |Hr1]; apply elem_of_cons in Hr2 as [-> |Hr2].
    + lia.
    + apply elem_of_cons in Hr2 as [-> |Hr2]; [destruct C0; [lia|done]|].
      destruct W as (H3 & H4 & W). pose proof (wf_entry _ _ _ W Hr2). lia.
    + pose proof (wf_entry _ _ _ W Hr1). lia.
    + by apply (IH (r_end r0 + 1)).
Qed.

(** Entries reach as far as their tag. *)
Lemma coalesced_ends lo es r : wf_from lo es -> coalesced es -> r ∈ es ->
  tag_at es (r_end r + 1) <> Some (r_tag r) /\ tag_at es (r_begin r - 1) <> Some (r_tag r).
Proof.
  intros W C Hr. pose proof (wf_entry _ _ _ W Hr) as Hw.
  split; intros (r2 & Hr2 & Hin & Ht)%tag_at_some; unfold in_range in Hin; bool_to_prop.
  - apply (coalesced_next lo es r r2); auto. apply (wf_disjoint lo es); auto; lia.
  - apply (coalesced_next lo es r2 r); auto. apply (wf_disjoint lo es); auto; lia.
Qed.

(** A range of one tag lies in one entry. *)
Lemma range_in_entry lo es t a n : wf_from lo es -> coalesced es -> 0 < n ->
  (forall x, a <= x < a + n -> tag_at es x = Some t) ->
  exists r, r ∈ es /\ r_tag r = t /\ r_begin r <= a /\ a + n - 1 <= r_end r.
Proof.
  intros W C Hn H. destruct (tag_at_some es a t) as (r & Hr & Hin & Ht); [apply H; lia|].
  exists r. unfold in_range in Hin. bool_to_prop. split_and!; auto.
  destruct (Z.le_gt_cases (a + n - 1) (r_end r)); [done|].
  destruct (coalesced_ends lo es r W C Hr) as [E _]. destruct E. rewrite Ht. apply H. lia.
Qed.

(** The pages of a range. *)
Definition in_pages (base size a : Z) : bool :=
  (0 <? size) && (page_floor base <=? a) && (a <=? page_floor (base + size - 1) + 4095).

Record bootmem_ok (bm : memranges) : Prop := {
  bo_wf : wf bm;
  bo_coalesced : coalesced (entries bm);
  bo_pages : forall a, tag_at (entries bm) (page_floor a) = tag_at (entries bm) a
}.

Lemma page_floor_le x y : page_floor x <= y <-> page_floor x <= page_floor y.
Proof. unfold page_floor. Z.to_euclidean_division_equations. lia. Qed.
Lemma page_floor_ge x y : y <= page_floor x + 4095 <-> page_floor y <= page_floor x.
Proof. unfold page_floor. Z.to_euclidean_division_equations. lia. Qed.
Lemma page_floor_idem x : page_floor (page_floor x) = page_floor x.
Proof. unfold page_floor. Z.to_euclidean_division_equations. lia. Qed.

Lemma in_pages_floor base size a : in_pages base size (page_floor a) = in_pages base size a.
Proof.
  unfold in_pages. apply eq_true_iff_eq. rewrite !andb_true_iff, !Z.leb_le.
  by rewrite !page_floor_ge, page_floor_idem, <- page_floor_le.
Qed.

Lemma add_range_spec bm base size t : bootmem_ok bm -> 0 <= base -> 0 <= size -> base + size <= 2 ^ 64 ->
  let bm' := bootmem_add_range bm base size t in
  bootmem_ok bm' /\
  forall a, tag_at (entries bm') a = if in_pages base size a then Some t else tag_at (entries bm) a.
Proof.
  intros [W C P] Hb Hs He. unfold bootmem_add_range, memranges_insert. destruct (decide (size = 0)) as [-> |].
  { by unfold do_action, in_pages. }
  rewrite do_action_pages by lia. unfold in_pages. rewrite (proj2 (Z.ltb_lt 0 size)) by lia. cbn [andb].
  pose proof (page_floor_bounds base ltac:(lia)). pose proof (page_floor_bounds (base + size - 1) ltac:(lia)).
  pose proof (page_floor_mono base (base + size - 1) ltac:(lia)).
  destruct (merge_add_memranges_spec true bm (page_floor base) (page_floor (base + size - 1) + 4095) t W ltac:(lia) ltac:(lia))
    as (W' & C' & _ & T).
  assert (T' := T ltac:(by left)). split; [split|]; [done|done| |exact T'].
  intros a. rewrite !T'. unfold set_range. pose proof (in_pages_floor base size a) as E. unfold in_pages in E.
  rewrite (proj2 (Z.ltb_lt 0 size)) in E by lia. cbn [andb] in E. by rewrite E, P.
Qed.

Lemma entry_end lo es r : wf_from lo es -> 0 <= lo -> r ∈ es -> r_end r <> 2 ^ 64 - 1 ->
  range_entry_end r = r_end r + 1.
Proof.
  intros W Hlo Hr Hn. pose proof (wf_entry _ _ _ W Hr). unfold range_entry_end. apply u64_small. lia.
Qed.

Lemma usable_loop_spec start end_ es : forall lo, wf_from lo es -> 0 <= lo ->
  (forall r, r ∈ es -> r_end r <> 2 ^ 64 - 1) ->
  usable_loop start end_ es = true <->
  exists r, r ∈ es /\ r_tag r = LB_MEM_RAM /\ r_begin r <= start /\ end_ <= r_end r + 1 /\ r_begin r < end_.
Proof.
  induction es as [|r es IH]; intros lo W Hlo Hend; cbn [usable_loop].
  { split; [done|]. intros (r & Hr & _). by apply not_elem_of_nil in Hr. }
  rewrite (entry_end lo (r :: es) r); [|done|done|by left|apply Hend; by left].
  destruct W as (H1 & H2 & W). unfold range_entry_base, range_entry_tag.
  assert (IH' := IH (r_end r + 1) W ltac:(lia) ltac:(intros r0 Hr0; apply Hend; by right)). clear IH.
  destruct (end_ <=? r_begin r) eqn:E; bool_to_prop.
  - split; [done|]. intros (r' & Hr & _ & H3 & _ & H5). apply elem_of_cons in Hr as [-> |Hr]; [lia|].
    pose proof (wf_entry _ _ _ W Hr). lia.
  - destruct ((_ <=? _) && _ && _) eqn:E2; bool_to_prop.
    + split; [|done]. intros _. exists r. split_and!; auto. by left.
    + rewrite IH'. split; intros (r' & Hr & H3 & H4 & H5 & H6); exists r'; split_and!; auto; [by right|].
      apply elem_of_cons in Hr as [-> |Hr]; [|done].
      rewrite !(proj2 (Z.leb_le _ _)), (proj2 (Z.eqb_eq _ _)) in E2 by lia. done.
Qed.

Lemma usable_correct bm start size : bootmem_ok bm -> tag_at (entries bm) (2 ^ 64 - 1) = None ->
  0 <= start -> 0 < size -> start + size < 2 ^ 64 ->
  bootmem_region_targets_usable_ram bm start size = true <->
  forall a, start <= a < start + size -> tag_at (entries bm) a = Some LB_MEM_RAM.
Proof.
  intros [W C P] Htop Hs Hn He. unfold bootmem_region_targets_usable_ram. rewrite u64_small by lia.
  rewrite (usable_loop_spec start (start + size) (entries bm) 0); [|done|lia|].
  - split.
    + intros (r & Hr & Ht & Hb & Hr2 & _) a Ha. rewrite <- Ht. apply (tag_at_entry 0); auto.
      unfold in_range. by rewrite !(proj2 (Z.leb_le _ _)) by lia.
    + intros H. destruct (range_in_entry 0 (entries bm) LB_MEM_RAM start size W C Hn H) as (r & Hr & Ht & Hb & Hl).
      exists r. split_and!; auto; lia.
  - intros r Hr Hmax. rewrite (tag_at_entry 0 _ r) in Htop; [done|done|done|].
    pose proof (wf_entry _ _ _ W Hr). unfold in_range. by rewrite !(proj2 (Z.leb_le _ _)) by lia.
Qed.

(** ** Buffers *)

(** [n] bytes of RAM at [b] below 4 GiB. *)
Definition ram_below (bm : memranges) (b n : Z) : Prop :=
  0 <= b /\ b + n <= 2 ^ 32 /\ forall a, b <= a < b + n -> tag_at (entries bm) a = Some LB_MEM_RAM.

Lemma page_multiple x : page_floor x = x <-> (4096 | x).
Proof.
  unfold page_floor. split.
  - intros H. exists (x / 4096). Z.to_euclidean_division_equations. lia.
  - intros [k ->]. rewrite Z.mod_mul by lia. lia.
Qed.

(** Entries are made of whole pages. *)
Lemma bootmem_entry_pages bm r : bootmem_ok bm -> r ∈ entries bm -> (4096 | r_begin r) /\ (4096 | r_end r + 1).
Proof.
  intros [W C P] Hr. pose proof (wf_entry _ _ _ W Hr) as Hw.
  destruct (coalesced_ends 0 _ _ W C Hr) as [He Hb].
  assert (Hin : forall a, r_begin r <= a <= r_end r -> tag_at (entries bm) a = Some (r_tag r)).
  { intros a Ha. apply (tag_at_entry 0); auto. unfold in_range. by rewrite !(proj2 (Z.leb_le _ _)) by lia. }
  split; apply page_multiple.
  - destruct (Z.eq_dec (page_floor (r_begin r)) (r_begin r)) as [|Hne]; [done|]. destruct Hb.
    rewrite <- P. replace (page_floor (r_begin r - 1)) with (page_floor (r_begin r)).
    + rewrite P. apply Hin. lia.
    + unfold page_floor in *. Z.to_euclidean_division_equations. lia.
  - destruct (Z.eq_dec (page_floor (r_end r + 1)) (r_end r + 1)) as [|Hne]; [done|]. destruct He.
    rewrite <- P. replace (page_floor (r_end r + 1)) with (page_floor (r_end r)).
    + rewrite P. apply Hin. lia.
    + unfold page_floor in *. Z.to_euclidean_division_equations. lia.
Qed.

Definition usable_end (r : range_entry) : Z := Z.min (r_end r + 1) (2 ^ 32).

Lemma region_fits_spec bm r size : bootmem_ok bm -> tag_at (entries bm) (2 ^ 64 - 1) = None -> r ∈ entries bm ->
  0 < size < 2 ^ 32 ->
  end_below r = usable_end r /\
  region_fits size r = (r_tag r =? LB_MEM_RAM) && (r_begin r + size <=? usable_end r).
Proof.
  intros [W C P] Htop Hr Hsize. pose proof (wf_entry _ _ _ W Hr) as Hw.
  assert (Hmax : r_end r <> 2 ^ 64 - 1).
  { intros Hmax. rewrite (tag_at_entry 0 _ r) in Htop; try done.
    unfold in_range. by rewrite !(proj2 (Z.leb_le _ _)) by lia. }
  assert (Hend : range_entry_end r = r_end r + 1) by (by apply (entry_end 0 (entries bm))).
  assert (Hbelow : end_below r = usable_end r).
  { unfold end_below, usable_end, max_addr. rewrite Hend. zbool; lia. }
  split; [done|]. unfold region_fits. rewrite Hbelow. unfold max_addr, range_entry_size, range_entry_tag, range_entry_base.
  destruct (r_tag r =? LB_MEM_RAM); [|by rewrite !andb_false_r].
  rewrite andb_true_r. cbn [andb]. unfold usable_end, u64, wrap.
  destruct (2 ^ 32 <=? r_begin r) eqn:E; bool_to_prop; cbn [negb andb].
  - rewrite andb_false_r. symmetry. apply Z.leb_gt. lia.
  - rewrite andb_true_r. apply eq_true_iff_eq. rewrite andb_true_iff, !negb_true_iff, !Z.ltb_ge, Z.leb_le.
    rewrite (Z.mod_small (Z.min _ _ - _)) by lia.
    rewrite Z.mod_small by lia. lia.
Qed.

Lemma last_fit (f : range_entry -> bool) es : forall lo acc, wf_from lo es ->
  match fold_left (fun region r => if f r then Some r else region) es acc with
  | Some r =>
      (r ∈ es /\ f r = true /\ forall r', r' ∈ es -> f r' = true -> r_begin r' <= r_begin r) \/
      (acc = Some r /\ forall r', r' ∈ es -> f r' = false)
  | None => acc = None /\ forall r', r' ∈ es -> f r' = false
  end.
Proof.
  induction es as [|r0 es IH]; intros lo acc W; cbn [fold_left].
  { assert (Hnil : forall r', r' ∈ @nil range_entry -> f r' = false) by (by intros r' ?%not_elem_of_nil).
    destruct acc; auto. }
  destruct W as (H1 & H2 & W). specialize (IH _ (if f r0 then Some r0 else acc) W).
  destruct (fold_left _ es _) as [r|].
  - destruct IH as [(Hr & Hf & Hmax)|[Hacc Hno]].
    + left. split_and!; [by right|done|]. intros r' [-> |Hr']%elem_of_cons Hf'; [|auto].
      pose proof (wf_entry _ _ _ W Hr). lia.
    + destruct (f r0) eqn:E; [injection Hacc as <-; left|right].
      * split_and!; [by left|done|]. intros r' [-> |Hr']%elem_of_cons Hf'; [lia|]. by rewrite Hno in Hf'.
      * split; [done|]. intros r' [-> |Hr']%elem_of_cons; auto.
  - destruct IH as [Hacc Hno]. destruct (f r0) eqn:E; [done|]. split; [done|].
    intros r' [-> |Hr']%elem_of_cons; auto.
Qed.

Lemma round_pages size : 0 < size <= 2 ^ 32 - 4096 ->
  let n := ALIGN_UP 32 size 4096 in size <= n < size + 4096 /\ (4096 | n) /\ n < 2 ^ 32.
Proof.
  intros Hs n. pose proof (align_up_bounds 32 12 size ltac:(lia) ltac:(lia) ltac:(lia)) as [Hb Hd].
  change (2 ^ 12) with 4096 in *. fold n in Hb, Hd. split_and!; [lia..|done|].
  destruct Hd as [k Hk]. lia.
Qed.

(** The highest place for [n] bytes. *)
Definition highest_place (bm : memranges) (b n : Z) : Prop :=
  ram_below bm b n /\ (4096 | b) /\ forall c, ram_below bm c n -> c <= b.

Lemma allocate_buffer_spec bm size : bootmem_ok bm -> tag_at (entries bm) (2 ^ 64 - 1) = None ->
  0 < size <= 2 ^ 32 - 4096 ->
  let n := ALIGN_UP 32 size 4096 in
  let '(b, bm') := bootmem_allocate_buffer bm size in
  bootmem_ok bm' /\
  ((highest_place bm b n /\
    forall a, tag_at (entries bm') a =
      if (b <=? a) && (a <? b + n) then Some LB_MEM_UNUSABLE else tag_at (entries bm) a) \/
   (b = 0 /\ bm' = bm /\ forall c, ~ ram_below bm c n)).
Proof.
  intros Hok Htop Hs n. pose proof (round_pages size Hs) as (Hn & Hd & Hlt). fold n in Hn, Hd, Hlt.
  unfold bootmem_allocate_buffer. fold n. pose proof Hok as [W C P].
  assert (Hfit : forall r, r ∈ entries bm ->
    end_below r = usable_end r /\ region_fits n r = (r_tag r =? LB_MEM_RAM) && (r_begin r + n <=? usable_end r)).
  { intros r Hr. apply (region_fits_spec bm); auto; lia. }
  assert (Hplace : forall c, ram_below bm c n ->
    exists r, r ∈ entries bm /\ region_fits n r = true /\ r_begin r <= c /\ c + n <= usable_end r).
  { intros c (Hc & Hle & Hram). destruct (range_in_entry 0 _ _ c n W C ltac:(lia) Hram) as (r & Hr & Ht & Hb & He).
    exists r. unfold usable_end in *. split_and!; auto; [|lia]. destruct (Hfit r Hr) as [_ ->]. unfold usable_end.
    rewrite (proj2 (Z.eqb_eq _ _)), (proj2 (Z.leb_le _ _)) by lia. done. }
  pose proof (last_fit (region_fits n) (entries bm) 0 None W) as H.
  destruct (fold_left _ _ _) as [r|].
  - destruct H as [(Hr & Hf & Hmax)|[[=] _]]. pose proof (wf_entry _ _ _ W Hr) as Hw.
    destruct (Hfit r Hr) as [-> Hf']. rewrite Hf' in Hf. bool_to_prop.
    destruct (bootmem_entry_pages bm r Hok Hr) as [Hdb Hde].
    assert (Hdu : (4096 | usable_end r - n)).
    { apply Z.divide_sub_r; [|done]. unfold usable_end. destruct (Z.min_spec (r_end r + 1) (2 ^ 32)) as [[_ ->] | [_ ->]]; [done|].
      by exists (2 ^ 20). }
    assert (Hu : usable_end r <= 2 ^ 32 /\ usable_end r <= r_end r + 1) by (unfold usable_end; lia).
    rewrite u64_small, u32_small by lia.
    destruct (add_range_spec bm (usable_end r - n) n LB_MEM_UNUSABLE Hok) as [Hok' T]; [lia..|].
    split; [done|]. left. split; [split_and!|].
    + split_and!; [lia..|]. intros a Ha. replace LB_MEM_RAM with (r_tag r) by lia.
      apply (tag_at_entry 0); auto. unfold in_range. by rewrite !(proj2 (Z.leb_le _ _)) by lia.
    + done.
    + intros c Hc. destruct (Hplace c Hc) as (r' & Hr' & Hf & Hb' & He').
      pose proof (Hmax r' Hr' Hf). pose proof (wf_entry _ _ _ W Hr') as Hw'.
      destruct (Z.le_gt_cases (usable_end r') (usable_end r)); [lia|].
      assert (r_begin r' = r_end r + 1); [|unfold usable_end in *; lia].
      unfold usable_end in *. apply (wf_disjoint 0 (entries bm)); auto; lia.
    + intros a. rewrite T. unfold in_pages. rewrite (proj2 (Z.ltb_lt 0 n)) by lia. cbn [andb].
      rewrite (proj2 (page_multiple _) Hdu).
      replace (page_floor (usable_end r - n + n - 1) + 4095) with (usable_end r - n + n - 1);
        [replace (a <=? usable_end r - n + n - 1) with (a <? usable_end r - n + n) by (zbool; lia); done|].
      apply Z.divide_add_r with (p := n) in Hdu; [|done]. destruct Hdu as [k Hk]. rewrite Hk. unfold page_floor.
      replace ((k * 4096 - 1) mod 4096) with 4095; [lia|].
      apply (Z.mod_unique_pos _ _ (k - 1)); lia.
  - destruct H as [_ Hno]. split; [done|]. right. split_and!; auto.
    intros c Hc. destruct (Hplace c Hc) as (r & Hr & Hf & _). by rewrite Hno in Hf.
Qed.

(** ** The map after [bootmem_init] *)

(** Some enabled device has a memory resource with [flag] on the page of [a]. *)
Definition reports (st : dstate) (flag a : Z) (p : nat) : bool :=
  let r := get_res st p in
  negb (wrong_kind (Z.lor flag IORESOURCE_MEM) (Z.lor flag IORESOURCE_MEM) r)
  && negb (has (res_flags r) IORESOURCE_SUBTRACTIVE) && in_pages (res_base r) (res_size r) a.
Definition reported (st : dstate) (flag a : Z) : bool :=
  existsb (fun dev => d_enabled (get_dev st dev) && existsb (reports st flag a) (d_resource_list (get_dev st dev)))
    (all_devices st).

Definition resources_fit (st : dstate) : Prop :=
  forall p, 0 <= res_base (get_res st p) /\ 0 <= res_size (get_res st p) /\
            res_base (get_res st p) + res_size (get_res st p) <= 2 ^ 64.

(** [f] sets the addresses of [c] to [tag]. *)
Definition marks (tag : Z) (c : Z -> bool) (f : memranges -> memranges) : Prop :=
  forall bm, bootmem_ok bm -> bootmem_ok (f bm) /\
    forall a, tag_at (entries (f bm)) a = if c a then Some tag else tag_at (entries bm) a.

Lemma fold_marks {A} tag (c : Z -> A -> bool) (f : memranges -> A -> memranges) l :
  (forall x, marks tag (fun a => c a x) (fun bm => f bm x)) ->
  marks tag (fun a => existsb (c a) l) (fold_left f l).
Proof.
  intros Hf. induction l as [|x l IH]; intros bm Hok; cbn [fold_left existsb]; [done|].
  destruct (Hf x bm Hok) as [Hok1 T1]. destruct (IH _ Hok1) as [Hok2 T2]. split; [done|].
  intros a. rewrite T2, T1. by destruct (c a x), (existsb (c a) l).
Qed.

Lemma add_resources_marks st flag tag : resources_fit st ->
  marks tag (reported st flag) (fun bm => memranges_add_resources true st bm flag flag tag).
Proof.
  intros Hfit. unfold memranges_add_resources, memranges_add_resources_filter, search_global_resources.
  apply (fold_marks tag (fun a dev => d_enabled (get_dev st dev) &&
    existsb (reports st flag a) (d_resource_list (get_dev st dev)))).
  intros dev. unfold global_device. destruct (d_enabled (get_dev st dev)); cbn [negb andb]; [|by intros bm].
  apply (fold_marks tag (reports st flag)). intros p bm Hok. unfold reports.
  destruct (wrong_kind _ _ _); [done|]. destruct (has _ IORESOURCE_SUBTRACTIVE); [done|].
  unfold collect_ranges. cbn [negb andb]. destruct (Hfit p) as (Hb & Hs & He).
  destruct (res_size (get_res st p) =? 0) eqn:E; bool_to_prop; [by rewrite E|].
  by apply add_range_spec.
Qed.

(** After [bootmem_init] the pages of the tables at the bottom of memory and of CBMEM are
    tables; of the others those of a reserved resource are reserved and those of a
    cacheable resource RAM; no other address is in the map.  The map consists of whole
    pages. *)
Theorem bootmem_init_correct st m cbmem forwarding_table base size :
  resources_fit st -> cbmem_region_used m cbmem = (base, size) ->
  0 <= base -> 0 <= size -> base + size <= 2 ^ 64 -> 0 <= forwarding_table < 2 ^ 32 ->
  let bm := bootmem_init st m cbmem forwarding_table in
  bootmem_ok bm /\
  forall a, tag_at (entries bm) a =
    if in_pages 0 forwarding_table a || in_pages base size a then Some LB_MEM_TABLE
    else if reported st IORESOURCE_RESERVE a then Some LB_MEM_RESERVED
    else if reported st IORESOURCE_CACHEABLE a then Some LB_MEM_RAM else None.
Proof.
  intros Hfit Hused Hb Hs He Hf. unfold bootmem_init, memranges_init, cbmem_add_bootmem, bootmem_arch_add_ranges.
  rewrite Hused, Z.sub_0_r, u32_small by lia.
  destruct (add_resources_marks st IORESOURCE_CACHEABLE LB_MEM_RAM Hfit (mk_memranges [] [])) as [Hok1 T1];
    [by split|].
  destruct (add_resources_marks st IORESOURCE_RESERVE LB_MEM_RESERVED Hfit _ Hok1) as [Hok2 T2].
  destruct (add_range_spec _ base size LB_MEM_TABLE Hok2 Hb Hs He) as [Hok3 T3].
  destruct (add_range_spec _ 0 forwarding_table LB_MEM_TABLE Hok3) as [Hok4 T4]; [lia..|].
  split; [done|]. intros a. rewrite T4, T3, T2, T1. by destruct (in_pages 0 forwarding_table a), (in_pages base size a).
Qed.

(** A range is usable exactly when every address of it is RAM. *)
Theorem bootmem_region_targets_usable_ram_correct bm start size :
  bootmem_ok bm -> tag_at (entries bm) (2 ^ 64 - 1) = None ->
  0 <= start -> 0 < size -> start + size < 2 ^ 64 ->
  bootmem_region_targets_usable_ram bm start size = true <->
  forall a, start <= a < start + size -> tag_at (entries bm) a = Some LB_MEM_RAM.
Proof. apply usable_correct. Qed.

(** [bootmem_allocate_buffer] gives the highest place below 4 GiB where the size,
    rounded up to pages, is all RAM, and marks exactly these pages unusable; it gives
    NULL and leaves the map when there is no such place. *)
Theorem bootmem_allocate_buffer_correct bm size :
  bootmem_ok bm -> tag_at (entries bm) (2 ^ 64 - 1) = None -> 0 < size <= 2 ^ 32 - 4096 ->
  let n := ALIGN_UP 32 size 4096 in
  let '(b, bm') := bootmem_allocate_buffer bm size in
  bootmem_ok bm' /\
  ((highest_place bm b n /\
    forall a, tag_at (entries bm') a =
      if (b <=? a) && (a <? b + n) then Some LB_MEM_UNUSABLE else tag_at (entries bm) a) \/
   (b = 0 /\ bm' = bm /\ forall c, ~ ram_below bm c n)).
Proof. apply allocate_buffer_spec. Qed.

(** ** The record for the operating system *)

Lemma pack_roundtrip v : 0 <= v < 2 ^ 64 -> unpack_lb64 (pack_lb64 v) = v.
Proof.
  intros Hv. unfold unpack_lb64, pack_lb64. cbn [lo hi]. change 0xffffffff with (2 ^ 32 - 1).
  rewrite !land_low_mask, Z.shiftr_0_r, Z.shiftr_div_pow2, Z.shiftl_mul_pow2 by lia.
  unfold u64, wrap. Z.to_euclidean_division_equations. lia.
Qed.

Definition lb_type_at (map : list lb_memory_range) (a : Z) : option Z :=
  match List.find (fun r => (unpack_lb64 (lb_start r) <=? a) &&
                            (a <? unpack_lb64 (lb_start r) + unpack_lb64 (lb_size r))) map with
  | Some r => Some (lb_type r)
  | None => None
  end.

Definition lb_of (r : range_entry) : lb_memory_range :=
  mk_lb_range (pack_lb64 (range_entry_base r)) (pack_lb64 (range_entry_size r)) (u32 (range_entry_tag r)).

Lemma lb_of_range r : 0 <= r_begin r <= r_end r -> r_end r < 2 ^ 64 - 1 ->
  unpack_lb64 (lb_start (lb_of r)) = r_begin r /\ unpack_lb64 (lb_size (lb_of r)) = r_end r - r_begin r + 1.
Proof.
  intros Hb He. cbn. unfold range_entry_base, range_entry_size. rewrite u64_small by lia.
  split; apply pack_roundtrip; lia.
Qed.

Lemma write_table_entries es : forall map size,
  fst (fold_left (fun '(map, size) r => (map ++ [lb_of r], u32 (size + sizeof_lb_memory_range))) es (map, size)) =
  map ++ List.map lb_of es.
Proof.
  induction es as [|r es IH]; intros map size; cbn [fold_left List.map]; [by rewrite app_nil_r|].
  by rewrite IH, <- app_assoc.
Qed.

Lemma table_type_at es a : forall k, wf_from k es -> 0 <= k -> tag_at es (2 ^ 64 - 1) = None ->
  (forall r, r ∈ es -> 0 <= r_tag r < 2 ^ 32) -> lb_type_at (List.map lb_of es) a = tag_at es a.
Proof.
  induction es as [|r es IH]; intros k W Hk Htop Htags; [done|].
  destruct W as (H1 & H2 & W). unfold lb_type_at in *. cbn [List.map List.find].
  cbn [tag_at] in Htop |- *. unfold in_range in *.
  assert (Hmax : r_end r <> 2 ^ 64 - 1).
  { intros Hmax. by rewrite !(proj2 (Z.leb_le _ _)) in Htop by lia. }
  destruct (lb_of_range r) as [-> ->]; [lia..|].
  replace (a <? r_begin r + (r_end r - r_begin r + 1)) with (a <=? r_end r) by (zbool; lia).
  destruct ((r_begin r <=? a) && (a <=? r_end r)).
  - cbn. unfold range_entry_tag. rewrite u32_small; [done|]. apply Htags. by left.
  - apply (IH (r_end r + 1)); [done|lia| |intros r' Hr'; apply Htags; by right].
    by rewrite (proj2 (Z.leb_gt (2 ^ 64 - 1) (r_end r))), andb_false_r in Htop by lia.
Qed.

(** The table written for the operating system gives every address the type it has in
    the map. *)
Theorem bootmem_write_memory_table_correct bm mem_size a :
  bootmem_ok bm -> tag_at (entries bm) (2 ^ 64 - 1) = None ->
  (forall r, r ∈ entries bm -> 0 <= r_tag r < 2 ^ 32) ->
  lb_type_at (fst (bootmem_write_memory_table bm mem_size)) a = tag_at (entries bm) a.
Proof.
  intros [W C P] Htop Htags. unfold bootmem_write_memory_table.
  change (fun '(map, size) r => _) with
    (fun '(map, size) r => (map ++ [lb_of r], u32 (size + sizeof_lb_memory_range))).
  rewrite write_table_entries. cbn [app]. apply (table_type_at (entries bm) a 0); auto. lia.
Qed.

(** ** Examples *)

(** A board with 2 GiB of RAM whose top 16 MiB are reserved. *)
Definition sample_tree : dstate :=
  mk_dstate {[ 1%nat := mk_device 0 (DEVICE_PATH_DOMAIN 0) 0 0 0 true [10; 11]%nat [] ]} ∅
    {[ 10%nat := mk_resource 0 0x80000000 0 (Z.lor IORESOURCE_MEM IORESOURCE_CACHEABLE) 3 0 0;
       11%nat := mk_resource 0x7f000000 0x1000000 0 (Z.lor IORESOURCE_MEM IORESOURCE_RESERVE) 4 0 0 ]}
    [1%nat] [] 20.

(** No CBMEM; the tables at the bottom end at 4 KiB. *)
Definition sample_bootmem : memranges := bootmem_init sample_tree (fun _ => 0) (imd_handle_init 0) 0x1000.

Lemma sample_resources_fit : resources_fit sample_tree.
Proof.
  intros p. unfold get_res, sample_tree. cbn [st_res].
  destruct (decide (p = 10%nat)) as [-> |]; [by vm_compute|].
  destruct (decide (p = 11%nat)) as [-> |]; [by vm_compute|].
  rewrite lookup_insert_ne, lookup_singleton_ne by done. by vm_compute.
Qed.

Lemma sample_bootmem_entries :
  entries sample_bootmem = [mk_range 0 0xfff 16; mk_range 0x1000 0x7effffff 1; mk_range 0x7f000000 0x7fffffff 2].
Proof. by vm_compute. Qed.

Lemma bootmem_init_witness :
  entries sample_bootmem = [mk_range 0 0xfff 16; mk_range 0x1000 0x7effffff 1; mk_range 0x7f000000 0x7fffffff 2] /\
  bootmem_ok sample_bootmem.
Proof.
  split; [exact sample_bootmem_entries|].
  apply (bootmem_init_correct sample_tree (fun _ => 0) (imd_handle_init 0) 0x1000 0 0);
    [exact sample_resources_fit|reflexivity|lia..].
Defined.

Lemma sample_bootmem_ok : bootmem_ok sample_bootmem /\ tag_at (entries sample_bootmem) (2 ^ 64 - 1) = None.
Proof.
  split; [|by vm_compute].
  unfold sample_bootmem, bootmem_init. cbn [cbmem_add_bootmem].
  apply (add_range_spec _ 0 0x1000); [|lia..]. apply (add_range_spec _ 0 0); [|lia..].
  apply (add_resources_marks _ IORESOURCE_RESERVE), (add_resources_marks _ IORESOURCE_CACHEABLE);
    [exact sample_resources_fit..|by split].
Qed.

Lemma bootmem_region_targets_usable_ram_witness :
  bootmem_region_targets_usable_ram sample_bootmem 0x100000 0x200000 = true /\
  tag_at (entries sample_bootmem) 0x100000 = Some LB_MEM_RAM.
Proof.
  split; [by vm_compute|].
  apply (bootmem_region_targets_usable_ram_correct sample_bootmem 0x100000 0x200000);
    [apply sample_bootmem_ok..|lia|lia|lia|by vm_compute|lia].
Defined.

Lemma bootmem_allocate_buffer_witness :
  fst (bootmem_allocate_buffer sample_bootmem 0x12345) = 0x7efed000 /\
  bootmem_ok (snd (bootmem_allocate_buffer sample_bootmem 0x12345)).
Proof.
  split; [by vm_compute|].
  pose proof (bootmem_allocate_buffer_correct sample_bootmem 0x12345 (proj1 sample_bootmem_ok)
    (proj2 sample_bootmem_ok) ltac:(lia)) as H.
  cbv zeta in H. destruct (bootmem_allocate_buffer sample_bootmem 0x12345). apply H.
Defined.

Lemma bootmem_write_memory_table_witness :
  lb_type_at (fst (bootmem_write_memory_table sample_bootmem 8)) 0x7f000000 = Some 2.
Proof.
  rewrite (bootmem_write_memory_table_correct sample_bootmem 8 0x7f000000);
    [by vm_compute|apply sample_bootmem_ok..|].
  intros r Hr. rewrite sample_bootmem_entries in Hr. apply elem_of_cons in Hr as [-> |Hr]; [cbn; lia|].
  apply elem_of_cons in Hr as [-> |Hr]; [cbn; lia|]. apply list_elem_of_singleton in Hr as ->. cbn. lia.
Defined.
