(* ===== verification/SelfBoot.v ===== *)
(** * Loading self-contained payloads ([src/lib/selfboot.c])

    A payload is a table of segments that are copied or unpacked to their
    addresses.  Segments that would overwrite coreboot itself go to a bounce
    buffer, from which [jmp_payload] moves them; a relocatable ramstage has none. *)

From S2P Require Import Prelude Region Bytes Mapped Cbfs CbfsLoad Memory MemRange Bootmem.

(** [struct cbfs_payload_segment], big-endian and packed. *)
Definition PAYLOAD_SEGMENT_CODE : Z := 0x434F4445.
Definition PAYLOAD_SEGMENT_DATA : Z := 0x44415441.
Definition PAYLOAD_SEGMENT_BSS : Z := 0x42535320.
Definition PAYLOAD_SEGMENT_PARAMS : Z := 0x50415241.
Definition PAYLOAD_SEGMENT_ENTRY : Z := 0x454E5452.
Definition sizeof_payload_segment : Z := 28.

Record cbfs_payload_segment := mk_payload_segment
  { seg_type : Z; seg_compression : Z; seg_offset : Z; seg_load_addr : Z; seg_len : Z; seg_mem_len : Z }.

Definition cbfs_decode_payload_segment (src : list Z) : cbfs_payload_segment :=
  mk_payload_segment (read_be32 src 0) (read_be32 src 4) (read_be32 src 8) (read_be64 src 12)
    (read_be32 src 20) (read_be32 src 24).

(** [struct segment]; a list of them is the ring from [head.next] on. *)
Record segment := mk_segment
  { s_dstaddr : Z; s_srcaddr : Z; s_memsz : Z; s_filesz : Z; s_compression : Z }.

Section SelfBoot.
Context {D : Type}.
Variable drv_readat : D -> nat -> Z -> Z -> Z * list Z.
Notation state := (rstate (D := D)).
(** [_program] and [_eprogram]. *)
Variables lb_start lb_end : Z.
Variable CONFIG_RELOCATABLE_RAMSTAGE : bool.
Variables ulz4fn ulzman : (Z -> Z) -> Z -> Z -> Z -> Z -> Z * (Z -> Z).

(** Buffer, size, and the map; x86 supports bounce buffers. *)
Definition get_bounce_buffer (bm : memranges) (req_size : Z) : Z * Z * memranges :=
  if CONFIG_RELOCATABLE_RAMSTAGE then (u32 (-1), 0, bm)
  else
    let lb_size := u32 (lb_end - lb_start) in
    let lb_size := u32 (req_size + lb_size) in
    let '(buffer, bm) := bootmem_allocate_buffer bm lb_size in
    (buffer, req_size, bm).

Definition seg_end (seg : segment) : Z := u32 (s_dstaddr seg + s_memsz seg).

Definition overlaps_coreboot (seg : segment) : bool :=
  negb ((seg_end seg <=? lb_start) || (lb_end <=? s_dstaddr seg)).

(** The first [len] bytes of a segment, and the rest. *)
Definition slice_early (seg : segment) (len : Z) : segment :=
  mk_segment (s_dstaddr seg) (s_srcaddr seg) len (if len <? s_filesz seg then len else s_filesz seg)
    (s_compression seg).
Definition slice_late (seg : segment) (len : Z) : segment :=
  mk_segment (u32 (s_dstaddr seg + len)) (u32 (s_srcaddr seg + len)) (u32 (s_memsz seg - len))
    (if len <? s_filesz seg then u32 (s_filesz seg - len) else 0) (s_compression seg).
Definition with_dstaddr (dst : Z) (seg : segment) : segment :=
  mk_segment dst (s_srcaddr seg) (s_memsz seg) (s_filesz seg) (s_compression seg).

(** The segment inserted before [seg], [seg], and the one inserted after it. *)
Definition relocate_segment (buffer : Z) (seg : segment) : option segment * segment * option segment :=
  if negb (overlaps_coreboot seg) then (None, seg, None)
  else
    let start := s_dstaddr seg in
    let end_ := seg_end seg in
    let '(early, seg, late) :=
      if s_compression seg =? CBFS_COMPRESS_NONE then
        let '(early, seg) :=
          if start <? lb_start then
            let len := u32 (lb_start - start) in (Some (slice_early seg len), slice_late seg len)
          else (None, seg) in
        let start := s_dstaddr seg in
        let '(seg, late) :=
          if lb_end <? end_ then
            let len := u32 (lb_end - start) in (slice_early seg len, Some (slice_late seg len))
          else (seg, None) in
        (early, seg, late)
      else (None, seg, None) in
    (early, with_dstaddr (u32 (buffer + u32 (s_dstaddr seg - lb_start))) seg, late).

(** ** The table of segments *)

(** The segments, the entry point and what the function returns.  [fuel] bounds the
    number of entries. *)
Fixpoint build_loop (fuel : nat) (m : Z -> Z) (first current : Z) : option (Z * list segment * Z) :=
  match fuel with
  | O => None
  | S fuel' =>
      let segment := cbfs_decode_payload_segment (load m current sizeof_payload_segment) in
      let next := u32 (current + sizeof_payload_segment) in
      let insert new :=
        match build_loop fuel' m first next with
        | Some (ret, segs, entry) => Some (ret, new :: segs, entry)
        | None => None
        end in
      let type := seg_type segment in
      if type =? PAYLOAD_SEGMENT_PARAMS then build_loop fuel' m first next
      else if (type =? PAYLOAD_SEGMENT_CODE) || (type =? PAYLOAD_SEGMENT_DATA) then
        let memsz := seg_mem_len segment in
        insert (mk_segment (u32 (seg_load_addr segment)) (u32 (first + seg_offset segment)) memsz
                  (if memsz <? seg_len segment then memsz else seg_len segment) (seg_compression segment))
      else if type =? PAYLOAD_SEGMENT_BSS then
        insert (mk_segment (u32 (seg_load_addr segment)) (u32 (first + seg_offset segment)) (seg_mem_len segment)
                  0 CBFS_COMPRESS_NONE)
      else if type =? PAYLOAD_SEGMENT_ENTRY then Some (1, [], u32 (seg_load_addr segment))
      else Some (-1, [], 0)
  end.

(** [entry] is 0 before. *)
Definition build_self_segment_list (fuel : nat) (m : Z -> Z) (cbfs_payload : Z) : option (Z * list segment * Z) :=
  build_loop fuel m cbfs_payload cbfs_payload.

Definition one_meg : Z := 2 ^ 20.
Definition targets_ram (bm : memranges) (seg : segment) : bool :=
  bootmem_region_targets_usable_ram bm (s_dstaddr seg) (s_memsz seg)
  || ((s_dstaddr seg <? one_meg) && (seg_end seg <=? one_meg)).
Definition payload_targets_usable_ram (bm : memranges) (segs : list segment) : bool :=
  forallb (targets_ram bm) segs.

(** ** Loading *)

(** The loop that marks the segments and finds the end of the bounce buffer. *)
Definition mark_segments (check_regions : bool) (bm : memranges) (segs : list segment) : memranges * Z :=
  fold_left (fun '(bm, bounce_high) seg =>
    let bm := if check_regions then bootmem_add_range bm (s_dstaddr seg) (s_memsz seg) LB_MEM_UNUSABLE else bm in
    if overlaps_coreboot seg && (bounce_high <? seg_end seg) then (bm, seg_end seg) else (bm, bounce_high))
    segs (bm, lb_end).

(** The copy of a relocated segment and the zeros after it; 1 when loading goes on. *)
Definition copy_segment (m : Z -> Z) (ptr : segment) : Z * (Z -> Z) :=
  let dest := s_dstaddr ptr in
  let src := s_srcaddr ptr in
  let memsz := s_memsz ptr in
  let end_ := u32 (dest + memsz) in
  let '(ret, len, m) :=
    if s_compression ptr =? CBFS_COMPRESS_LZMA then
      let '(len, m) := ulzman m src (s_filesz ptr) dest memsz in
      if len =? 0 then (0, len, m) else (1, len, m)
    else if s_compression ptr =? CBFS_COMPRESS_LZ4 then
      let '(len, m) := ulz4fn m src (s_filesz ptr) dest memsz in
      if len =? 0 then (0, len, m) else (1, len, m)
    else if s_compression ptr =? CBFS_COMPRESS_NONE then
      (1, s_filesz ptr, memcpy m dest src (s_filesz ptr))
    else (-1, 0, m) in
  if negb (ret =? 1) then (ret, m)
  else
    let middle := u32 (dest + len) in
    (1, if middle <? end_ then memset m middle 0 (u32 (end_ - middle)) else m).

(** The parts of a segment that lie before and after the area that shadows coreboot. *)
Definition move_parts (bounce_buffer : Z) (m : Z -> Z) (dest end_ : Z) : Z -> Z :=
  if bounce_buffer <? end_ then
    let m :=
      if dest <? bounce_buffer then
        let amount := u32 (bounce_buffer - dest) in memcpy m (u32 (lb_start - amount)) dest amount
      else m in
    let from := u32 (bounce_buffer + u32 (lb_end - lb_start)) in
    if from <? end_ then memcpy m lb_end from (u32 (end_ - from)) else m
  else m.

(** The functions called when a segment was loaded do nothing on this board. *)
Definition load_segment (bounce_buffer : Z) (m : Z -> Z) (ptr : segment) : Z * (Z -> Z) :=
  let '(ret, m) := copy_segment m ptr in
  if negb (ret =? 1) then (ret, m)
  else (1, move_parts bounce_buffer m (s_dstaddr ptr) (u32 (s_dstaddr ptr + s_memsz ptr))).

(** [todo] is the list from [ptr] on; each segment is visited at most four times. *)
Fixpoint load_loop (fuel : nat) (bounce_buffer : Z) (todo : list segment) (m : Z -> Z) : option (Z * (Z -> Z)) :=
  match fuel with
  | O => None
  | S fuel' =>
      match todo with
      | [] => Some (1, m)
      | ptr :: rest =>
          let '(early, ptr, late) := relocate_segment bounce_buffer ptr in
          let rest := match late with Some new => new :: rest | None => rest end in
          match early with
          | Some new => load_loop fuel' bounce_buffer (new :: ptr :: rest) m
          | None =>
              let '(ret, m) := load_segment bounce_buffer m ptr in
              if ret =? 1 then load_loop fuel' bounce_buffer rest m else Some (ret, m)
          end
      end
  end.

(** What it returns, the bounce buffer and its size, the map and memory. *)
Definition load_self_segments (bm : memranges) (m : Z -> Z) (segs : list segment) (check_regions : bool)
    : option (Z * (Z * Z) * memranges * (Z -> Z)) :=
  if check_regions && negb (payload_targets_usable_ram bm segs) then Some (0, (0, 0), bm, m)
  else
    let '(bm, bounce_high) := mark_segments check_regions bm segs in
    let '(bounce_buffer, bounce_size, bm) := get_bounce_buffer bm (u32 (bounce_high - lb_start)) in
    if bounce_buffer =? 0 then Some (0, (bounce_buffer, bounce_size), bm, m)
    else
      match load_loop (4 * length segs + 1) bounce_buffer segs m with
      | None => None
      | Some (ret, m) => Some (ret, (bounce_buffer, bounce_size), bm, m)
      end.

(** The entry point, 0 for NULL. *)
Definition selfload (fuel : nat) (s : state) (bm : memranges) (payload : prog) (check_regions : bool)
    : option (Z * prog * memranges * state) :=
  match rdev_mmap_full drv_readat s (prog_rdev payload) with
  | (None, s) => Some (0, payload, bm, s)
  | (Some data, s) =>
      let unmap s := snd (rdev_munmap s (prog_rdev payload) (Some data)) in
      match build_self_segment_list fuel (mem s) data with
      | None => None
      | Some (ret, head, entry) =>
          if ret =? 0 then Some (0, payload, bm, unmap s)
          else
            match load_self_segments bm (mem s) head check_regions with
            | None => None
            | Some (ret, (bounce_buffer, bounce_size), bm, m) =>
                let s := unmap (set_mem m s) in
                if ret =? 0 then Some (0, payload, bm, s)
                else Some (entry, prog_set_area payload bounce_buffer bounce_size, bm, s)
            end
      end
  end.
End SelfBoot.

(** ** The stored table *)

Definition payload_bytes (r : cbfs_payload_segment) : list Z :=
  write_be32 (seg_type r) ++ write_be32 (seg_compression r) ++ write_be32 (seg_offset r) ++
  write_be64 (seg_load_addr r) ++ write_be32 (seg_len r) ++ write_be32 (seg_mem_len r).

Record fields_fit (r : cbfs_payload_segment) : Prop := {
  ff_type : 0 <= seg_type r < 2 ^ 32; ff_compression : 0 <= seg_compression r < 2 ^ 32;
  ff_offset : 0 <= seg_offset r < 2 ^ 32; ff_load : 0 <= seg_load_addr r < 2 ^ 64;
  ff_len : 0 <= seg_len r < 2 ^ 32; ff_mem_len : 0 <= seg_mem_len r < 2 ^ 32
}.

Lemma decode_payload_bytes r : fields_fit r -> cbfs_decode_payload_segment (payload_bytes r) = r.
Proof.
  intros []. unfold cbfs_decode_payload_segment, payload_bytes, read_be64, write_be64. rewrite <- !app_assoc.
  assert (R : forall v l rest i, i = length l -> 0 <= v < 2 ^ 32 -> read_be32 (l ++ write_be32 v ++ rest) i = v).
  { intros v l rest i -> Hv. rewrite <- (Nat.add_0_r (length l)), read_be32_skip, read_write_be32. by apply u32_small. }
  destruct r as [ty c o a l ml]. cbn [seg_type seg_compression seg_offset seg_load_addr seg_len seg_mem_len] in *.
  assert (Ha : 0 <= Z.shiftr a 32 < 2 ^ 32) by (rewrite Z.shiftr_div_pow2 by lia; Z.to_euclidean_division_equations; lia).
  set (A := write_be32 ty). set (B := write_be32 c). set (C := write_be32 o). set (E := write_be32 (Z.shiftr a 32)).
  set (F := write_be32 a). set (G := write_be32 l). set (K := write_be32 ml).
  f_equal.
  - apply (R ty []); done.
  - apply (R c A); done.
  - change (A ++ B ++ C ++ E ++ F ++ G ++ K) with ((A ++ B) ++ C ++ E ++ F ++ G ++ K). by apply R.
  - change (A ++ B ++ C ++ E ++ F ++ G ++ K) with ((A ++ B ++ C) ++ E ++ F ++ G ++ K) at 1.
    rewrite (R (Z.shiftr a 32) (A ++ B ++ C)) by done.
    change (A ++ B ++ C ++ E ++ F ++ G ++ K) with ((A ++ B ++ C ++ E) ++ F ++ G ++ K).
    rewrite <- (Nat.add_0_r (12 + 4)). change (12 + 4)%nat with (length (A ++ B ++ C ++ E)).
    rewrite read_be32_skip. unfold F. rewrite read_write_be32, lor_shiftl_add by (done || lia || apply u32_range).
    rewrite Z.shiftr_div_pow2 by lia. unfold u32, wrap. Z.to_euclidean_division_equations. lia.
  - change (A ++ B ++ C ++ E ++ F ++ G ++ K) with ((A ++ B ++ C ++ E ++ F) ++ G ++ K). by apply R.
  - change (A ++ B ++ C ++ E ++ F ++ G ++ K) with ((A ++ B ++ C ++ E ++ F ++ G) ++ K ++ []). by apply R.
Qed.
(** The segment of a table entry, if it has one; [first] is the address of the table. *)
Definition segment_of (first : Z) (r : cbfs_payload_segment) : option segment :=
  if seg_type r =? PAYLOAD_SEGMENT_PARAMS then None
  else if seg_type r =? PAYLOAD_SEGMENT_BSS then
    Some (mk_segment (u32 (seg_load_addr r)) (u32 (first + seg_offset r)) (seg_mem_len r) 0 CBFS_COMPRESS_NONE)
  else Some (mk_segment (u32 (seg_load_addr r)) (u32 (first + seg_offset r)) (seg_mem_len r)
               (Z.min (seg_len r) (seg_mem_len r)) (seg_compression r)).

Definition known_type (r : cbfs_payload_segment) : Prop :=
  seg_type r ∈ [PAYLOAD_SEGMENT_PARAMS; PAYLOAD_SEGMENT_CODE; PAYLOAD_SEGMENT_DATA; PAYLOAD_SEGMENT_BSS].

(** Memory holds the entries [recs] and the entry point from [current] on. *)
Fixpoint table_at (m : Z -> Z) (current : Z) (recs : list cbfs_payload_segment) (entry : Z) : Prop :=
  match recs with
  | [] =>
      exists r, load m current sizeof_payload_segment = payload_bytes r /\ fields_fit r /\
        seg_type r = PAYLOAD_SEGMENT_ENTRY /\ u32 (seg_load_addr r) = entry
  | r :: recs' =>
      load m current sizeof_payload_segment = payload_bytes r /\ fields_fit r /\ known_type r /\
      table_at m (u32 (current + sizeof_payload_segment)) recs' entry
  end.

Lemma build_loop_table m first recs entry : forall fuel current, table_at m current recs entry ->
  (length recs < fuel)%nat -> build_loop fuel m first current = Some (1, omap (segment_of first) recs, entry).
Proof.
  induction recs as [|r recs IH]; intros [|fuel] current Ht Hf; try (cbn in Hf; lia); cbn [build_loop].
  - destruct Ht as (r & -> & Hr & Hty & He). rewrite decode_payload_bytes by done. rewrite Hty. by rewrite <- He.
  - destruct Ht as (-> & Hr & Hk & Ht). rewrite decode_payload_bytes by done.
    rewrite (IH fuel) by (done || (cbn in Hf; lia)).
    assert (Ho : omap (segment_of first) (r :: recs) = match segment_of first r with
      Some seg => seg :: omap (segment_of first) recs | None => omap (segment_of first) recs end) by done.
    rewrite Ho. unfold segment_of, known_type in *. clear Ho.
    repeat (apply elem_of_cons in Hk as [-> |Hk]; [try reflexivity|]); [| |by apply not_elem_of_nil in Hk];
      cbn; do 5 f_equal; case_bool; bool_to_prop; lia.
Qed.

Section Loading.
Context {D : Type} (drv_readat : D -> nat -> Z -> Z -> Z * list Z).
Context (lb_start lb_end : Z) (relocatable : bool).
Context (ulz4fn ulzman : (Z -> Z) -> Z -> Z -> Z -> Z -> Z * (Z -> Z)).
Context (lz4_decode lzma_decode : list Z -> Z -> option (list Z)).
Context `{Hlz4 : !Decompressor ulz4fn lz4_decode} `{Hlzma : !Decompressor ulzman lzma_decode}.
(** Memory from [rom] on is the flash with the payload. *)
Context (rom : Z) (flash : Z -> Z).
Hypothesis Hrom : 0 <= rom < 2 ^ 32.
Hypothesis Hlb : 0 <= lb_start <= lb_end /\ lb_end <= rom.
Set Default Proof Using "Type".

Definition has_flash (m : Z -> Z) : Prop := forall a, rom <= a < 2 ^ 32 -> m a = flash a.

(** The bytes of a segment. *)
Definition seg_content (seg : segment) : option (list Z) :=
  let raw := load flash (s_srcaddr seg) (s_filesz seg) in
  if s_compression seg =? CBFS_COMPRESS_NONE then Some raw
  else if s_compression seg =? CBFS_COMPRESS_LZ4 then lz4_decode raw (s_memsz seg)
  else if s_compression seg =? CBFS_COMPRESS_LZMA then lzma_decode raw (s_memsz seg)
  else None.

Record seg_ok (seg : segment) (out : list Z) : Prop := {
  sk_dst : 0 <= s_dstaddr seg /\ 0 <= s_memsz seg /\ s_dstaddr seg + s_memsz seg <= rom;
  sk_src : 0 <= s_srcaddr seg < 2 ^ 32 /\ 0 <= s_filesz seg /\ s_srcaddr seg + s_filesz seg <= 2 ^ 32;
  sk_rom : 0 < s_filesz seg \/ s_compression seg <> CBFS_COMPRESS_NONE -> rom <= s_srcaddr seg;
  sk_content : seg_content seg = Some out;
  sk_plain : s_compression seg = CBFS_COMPRESS_NONE -> s_filesz seg <= s_memsz seg;
  sk_packed : s_compression seg <> CBFS_COMPRESS_NONE -> out <> []
}.

Lemma copied_zeroed m m1 dst n out a : 0 <= dst -> 0 <= n -> dst + n < 2 ^ 32 -> Z.of_nat (length out) <= n ->
  (forall i, 0 <= i < Z.of_nat (length out) -> m1 (dst + i) = nth (Z.to_nat i) out 0) ->
  (forall a, 0 <= a < 2 ^ 32 -> ~ (dst <= a < dst + n) -> m1 a = m a) -> 0 <= a < 2 ^ 32 ->
  (if u32 (dst + Z.of_nat (length out)) <? u32 (dst + n)
   then memset m1 (u32 (dst + Z.of_nat (length out))) 0 (u32 (u32 (dst + n) - u32 (dst + Z.of_nat (length out))))
   else m1) a = place dst n out m a.
Proof.
  intros Hd Hn He Hl Hout Hframe Ha. rewrite (u32_small (dst + n)), (u32_small (dst + Z.of_nat _)), u32_small by lia.
  assert (Hm1 : dst <= a < dst + Z.of_nat (length out) -> m1 a = nth (Z.to_nat (a - dst)) out 0).
  { intros H. rewrite <- Hout by lia. f_equal. lia. }
  unfold place. case_bool; bool_to_prop.
  - rewrite memset_within by lia.
    case_within; case_within; first [lia|apply Hm1; lia|apply Hframe; lia|by rewrite nth_overflow by lia].
  - case_within; first [apply Hm1; lia|apply Hframe; lia].
Qed.

Lemma copy_segment_spec m seg out : has_flash m -> seg_ok seg out ->
  exists m', copy_segment ulz4fn ulzman m seg = (1, m') /\
    forall a, 0 <= a < 2 ^ 32 -> m' a = place (s_dstaddr seg) (s_memsz seg) out m a.
Proof using Hrom Hlz4 Hlzma.
  intros Hm [(Hd1 & Hd2 & Hd3) (Hs1 & Hs2 & Hs3) Hsrc Hc Hp Hq]. unfold copy_segment, seg_content in *.
  rewrite <- (load_ext m flash) in Hc; [|lia..|intros x Hx; apply Hm; specialize (Hsrc ltac:(lia)); lia].
  set (dst := s_dstaddr seg) in *. set (src := s_srcaddr seg) in *. set (n := s_memsz seg) in *.
  set (len := s_filesz seg) in *.
  assert (Hgo : forall m1, Z.of_nat (length out) <= n ->
    (forall i, 0 <= i < Z.of_nat (length out) -> m1 (dst + i) = nth (Z.to_nat i) out 0) ->
    (forall a, 0 <= a < 2 ^ 32 -> ~ (dst <= a < dst + n) -> m1 a = m a) ->
    exists m', (1, if u32 (dst + Z.of_nat (length out)) <? u32 (dst + n)
      then memset m1 (u32 (dst + Z.of_nat (length out))) 0 (u32 (u32 (dst + n) - u32 (dst + Z.of_nat (length out))))
      else m1) = (1, m') /\ forall a, 0 <= a < 2 ^ 32 -> m' a = place dst n out m a).
  { intros m1 H1 H2 H3. eexists. split; [done|]. intros a Ha. apply copied_zeroed; auto; lia. }
  assert (Hpos : s_compression seg <> CBFS_COMPRESS_NONE -> 0 < Z.of_nat (length out)).
  { intros H. specialize (Hq H). destruct out; [done|cbn; lia]. }
  destruct (Z.eq_dec (s_compression seg) CBFS_COMPRESS_NONE) as [E|E].
  { rewrite E in *. cbn [Z.eqb] in *. specialize (Hp eq_refl). injection Hc as Hc.
    assert (Hl : Z.of_nat (length out) = len) by (rewrite <- Hc, load_length; lia).
    change (CBFS_COMPRESS_NONE =? CBFS_COMPRESS_LZMA) with false. change (CBFS_COMPRESS_NONE =? CBFS_COMPRESS_LZ4) with false.
    change (CBFS_COMPRESS_NONE =? CBFS_COMPRESS_NONE) with true. cbn iota. change (negb (1 =? 1)) with false. cbn iota.
    pose proof (Hgo (memcpy m dst src len)) as G. rewrite Hl in G. apply G; [done| |].
    - intros i Hi. specialize (Hsrc ltac:(lia)). rewrite memcpy_spec, within_in by lia. rewrite <- Hc, load_nth by lia.
      rewrite (proj2 (Z.ltb_lt _ _)) by lia. f_equal. lia.
    - intros a Ha Hout. rewrite memcpy_spec, within_out by lia. done. }
  rewrite (proj2 (Z.eqb_neq _ _) E) in Hc |- *. specialize (Hpos E). specialize (Hsrc (or_intror E)).
  destruct (Z.eq_dec (s_compression seg) CBFS_COMPRESS_LZ4) as [E4|E4].
  { rewrite E4 in *. change (CBFS_COMPRESS_LZ4 =? CBFS_COMPRESS_LZMA) with false. rewrite Z.eqb_refl in Hc |- *. cbn iota.
    pose proof (dc_size (Decompressor := Hlz4) _ _ _ Hc) as Hsz.
    destruct (dc_run (Decompressor := Hlz4) m src len dst n out) as (m1 & -> & H1 & H2); [lia..|done|lia|].
    rewrite (proj2 (Z.eqb_neq _ _)) by lia. change (negb (1 =? 1)) with false. cbn iota. by apply Hgo. }
  rewrite (proj2 (Z.eqb_neq _ _) E4) in Hc |- *.
  destruct (s_compression seg =? CBFS_COMPRESS_LZMA); [|done].
  pose proof (dc_size (Decompressor := Hlzma) _ _ _ Hc) as Hsz.
  destruct (dc_run (Decompressor := Hlzma) m src len dst n out) as (m1 & -> & H1 & H2); [lia..|done|lia|].
  rewrite (proj2 (Z.eqb_neq _ _)) by lia. change (negb (1 =? 1)) with false. cbn iota. by apply Hgo.
Qed.

(** ** One step of the loop *)

Context (bb : Z).
Hypothesis Hbb : 0 < bb < 2 ^ 32.
Notation load_loop := (load_loop lb_start lb_end ulz4fn ulzman).
Notation relocate_segment := (relocate_segment lb_start lb_end).
Notation overlaps := (overlaps_coreboot lb_start lb_end).

Lemma overlaps_spec seg out : seg_ok seg out ->
  overlaps seg = true <-> lb_start < s_dstaddr seg + s_memsz seg /\ s_dstaddr seg < lb_end.
Proof using Hrom.
  intros Hok. pose proof (sk_dst _ _ Hok) as (H1 & H2 & H3). unfold overlaps_coreboot, seg_end.
  rewrite u32_small, negb_true_iff, orb_false_iff, Z.leb_gt, Z.leb_gt by lia. done.
Qed.

(** The parts before and after the shadow of coreboot need no move. *)
Definition in_place (dst n : Z) : Prop := dst + n <= bb \/ (bb <= dst /\ dst + n <= bb + (lb_end - lb_start)).

Lemma load_segment_in_place m seg out : has_flash m -> seg_ok seg out -> in_place (s_dstaddr seg) (s_memsz seg) ->
  bb + (lb_end - lb_start) < 2 ^ 32 \/ s_dstaddr seg + s_memsz seg <= bb ->
  exists m', load_segment lb_start lb_end ulz4fn ulzman bb m seg = (1, m') /\
    forall a, 0 <= a < 2 ^ 32 -> m' a = place (s_dstaddr seg) (s_memsz seg) out m a.
Proof using Hrom Hlb Hbb Hlz4 Hlzma.
  intros Hm Hok Hin Hfit. pose proof (sk_dst _ _ Hok) as (H1 & H2 & H3).
  destruct (copy_segment_spec m seg out Hm Hok) as (m' & E & Hm'). exists m'. split; [|done].
  unfold load_segment. rewrite E. change (negb (1 =? 1)) with false. cbn iota. f_equal. unfold move_parts.
  rewrite (u32_small (s_dstaddr seg + _)) by lia. destruct Hin as [Hin|[Hin1 Hin2]]; [by rewrite (proj2 (Z.ltb_ge _ _)) by lia|].
  case_bool; [|done]. bool_to_prop.
  rewrite (u32_small (lb_end - lb_start)), (u32_small (bb + _)) by lia. by rewrite !(proj2 (Z.ltb_ge _ _)) by lia.
Qed.

(** A segment that does not overlap coreboot. *)
Lemma load_loop_direct m seg out : has_flash m -> seg_ok seg out -> overlaps seg = false ->
  in_place (s_dstaddr seg) (s_memsz seg) ->
  bb + (lb_end - lb_start) < 2 ^ 32 \/ s_dstaddr seg + s_memsz seg <= bb ->
  exists m', (forall f rest, load_loop (S f) bb (seg :: rest) m = load_loop f bb rest m') /\
    forall a, 0 <= a < 2 ^ 32 -> m' a = place (s_dstaddr seg) (s_memsz seg) out m a.
Proof using Hrom Hlb Hbb Hlz4 Hlzma.
  intros Hm Hok Hno Hin Hfit. destruct (load_segment_in_place m seg out Hm Hok Hin Hfit) as (m' & E & Hm').
  exists m'. split; [|done]. intros f rest. cbn [SelfBoot.load_loop]. unfold SelfBoot.relocate_segment. rewrite Hno.
  cbn [negb]. rewrite E. done.
Qed.

(** The bytes of a plain segment, by address. *)
Definition plain_byte (seg : segment) (a : Z) : Z :=
  if a - s_dstaddr seg <? s_filesz seg then flash (s_srcaddr seg + (a - s_dstaddr seg)) else 0.

Lemma place_plain seg out m a : seg_ok seg out -> s_compression seg = CBFS_COMPRESS_NONE -> 0 <= a ->
  place (s_dstaddr seg) (s_memsz seg) out m a =
  if within (s_dstaddr seg) (s_dstaddr seg + s_memsz seg) a then plain_byte seg a else m a.
Proof.
  intros Hok Hc Ha. pose proof (sk_dst _ _ Hok) as (H1 & H2 & H3). pose proof (sk_src _ _ Hok) as (H4 & H5 & H6).
  pose proof (sk_content _ _ Hok) as Hcont. unfold seg_content in Hcont. rewrite Hc in Hcont. cbn [Z.eqb] in Hcont.
  change (CBFS_COMPRESS_NONE =? CBFS_COMPRESS_NONE) with true in Hcont. injection Hcont as <-.
  unfold place, plain_byte. case_within; auto. rewrite load_nth by lia. done.
Qed.

(** The part of a plain segment from address [x] to [y]. *)
Definition piece (seg : segment) (x y : Z) : segment :=
  let skip := x - s_dstaddr seg in
  mk_segment x (u32 (s_srcaddr seg + skip)) (y - x) (Z.max 0 (Z.min (s_filesz seg - skip) (y - x)))
    (s_compression seg).

Lemma piece_ok seg out x y : seg_ok seg out -> s_compression seg = CBFS_COMPRESS_NONE ->
  s_dstaddr seg <= x <= y -> y <= s_dstaddr seg + s_memsz seg ->
  seg_ok (piece seg x y) (load flash (s_srcaddr (piece seg x y)) (s_filesz (piece seg x y))).
Proof using Hrom.
  intros Hok Hc Hx Hy. pose proof (sk_dst _ _ Hok) as (H1 & H2 & H3). pose proof (sk_src _ _ Hok) as (H4 & H5 & H6).
  pose proof (sk_rom _ _ Hok) as H7. unfold piece. cbn.
  pose proof (u32_range (s_srcaddr seg + (x - s_dstaddr seg))) as Hu.
  assert (Hsrc : 0 < s_filesz seg - (x - s_dstaddr seg) ->
    u32 (s_srcaddr seg + (x - s_dstaddr seg)) = s_srcaddr seg + (x - s_dstaddr seg)) by (intros; apply u32_small; lia).
  split; cbn.
  - lia.
  - destruct (Z.le_gt_cases (s_filesz seg - (x - s_dstaddr seg)) 0); [lia|]. rewrite Hsrc by lia. lia.
  - intros [Hf|Hf]; [|done]. rewrite Hsrc by lia. specialize (H7 ltac:(lia)). lia.
  - unfold seg_content. cbn. by rewrite Hc.
  - lia.
  - done.
Qed.

Lemma piece_byte seg out x y a : seg_ok seg out -> s_dstaddr seg <= x -> x <= a < y ->
  plain_byte (piece seg x y) a = plain_byte seg a.
Proof.
  intros Hok Hx Ha. pose proof (sk_src _ _ Hok) as (H4 & H5 & H6). unfold plain_byte, piece. cbn.
  destruct (a - s_dstaddr seg <? s_filesz seg) eqn:E; bool_to_prop.
  - rewrite (proj2 (Z.ltb_lt _ _)), u32_small by lia. f_equal. lia.
  - by rewrite (proj2 (Z.ltb_ge _ _)) by lia.
Qed.

Lemma piece_all seg out : seg_ok seg out -> s_compression seg = CBFS_COMPRESS_NONE ->
  piece seg (s_dstaddr seg) (s_dstaddr seg + s_memsz seg) = seg.
Proof.
  intros Hok Hc. pose proof (sk_src _ _ Hok) as (H4 & H5 & H6). pose proof (sk_plain _ _ Hok Hc) as Hp.
  unfold piece. rewrite u32_small by lia. destruct seg as [d src n f c]. cbn in *. f_equal; lia.
Qed.

Lemma piece_piece seg x y x' y' : x <= x' <= y' -> y' <= y -> piece (piece seg x y) x' y' = piece seg x' y'.
Proof.
  intros Hx Hy. unfold piece. cbn. f_equal; [|lia]. unfold u32, wrap. rewrite Zplus_mod_idemp_l. f_equal. lia.
Qed.

Lemma slice_early_piece seg len : 0 <= len -> 0 <= s_srcaddr seg < 2 ^ 32 -> 0 <= s_filesz seg ->
  slice_early seg len = piece seg (s_dstaddr seg) (s_dstaddr seg + len).
Proof.
  intros Hl Hs Hf. unfold slice_early, piece. rewrite u32_small by lia. f_equal; [lia..|].
  destruct (len <? _) eqn:E; bool_to_prop; lia.
Qed.

Lemma slice_late_piece seg len : 0 <= len <= s_memsz seg -> 0 <= s_dstaddr seg -> s_dstaddr seg + s_memsz seg < 2 ^ 32 ->
  s_filesz seg <= s_memsz seg ->
  slice_late seg len = piece seg (s_dstaddr seg + len) (s_dstaddr seg + s_memsz seg).
Proof.
  intros Hl Hd He Hf. unfold slice_late, piece. rewrite (u32_small (s_dstaddr seg + len)), (u32_small (s_memsz seg - len)) by lia.
  f_equal; [f_equal; lia|lia|]. destruct (len <? _) eqn:E; bool_to_prop; [rewrite u32_small by lia|]; lia.
Qed.

(** What a plain segment over coreboot is cut into. *)
Lemma relocate_plain seg out : seg_ok seg out -> s_compression seg = CBFS_COMPRESS_NONE -> overlaps seg = true ->
  bb + (lb_end - lb_start) < 2 ^ 32 ->
  let s := s_dstaddr seg in
  let e := s + s_memsz seg in
  let x := Z.max s lb_start in
  let y := Z.min e lb_end in
  relocate_segment bb seg =
    (if s <? lb_start then Some (piece seg s lb_start) else None,
     with_dstaddr (bb + (x - lb_start)) (piece seg x y),
     if lb_end <? e then Some (piece seg lb_end e) else None).
Proof using Hrom Hlb Hbb.
  intros Hok Hc Ho Hfit s e x y. pose proof (proj1 (overlaps_spec _ _ Hok) Ho) as [Ho1 Ho2].
  pose proof (sk_dst _ _ Hok) as (H1 & H2 & H3). pose proof (sk_src _ _ Hok) as (H4 & H5 & H6).
  pose proof (sk_plain _ _ Hok Hc) as Hp. pose proof (piece_all _ _ Hok Hc) as Hall.
  unfold SelfBoot.relocate_segment. rewrite Ho, Hc. cbn [negb]. change (CBFS_COMPRESS_NONE =? CBFS_COMPRESS_NONE) with true.
  cbn iota. unfold seg_end. fold s e in H1, H3, Ho1, Ho2, Hall |- *. rewrite (u32_small e) by lia.
  assert (Hcut : exists s1, (if s <? lb_start
      then (Some (slice_early seg (u32 (lb_start - s))), slice_late seg (u32 (lb_start - s))) else (None, seg)) =
    (if s <? lb_start then Some (piece seg s lb_start) else None, piece seg x e) /\ s1 = x).
  { exists x. split; [|done]. destruct (s <? lb_start) eqn:E1; bool_to_prop.
    - rewrite (u32_small (lb_start - s)), slice_early_piece, slice_late_piece by (fold s; lia). fold s e.
      replace (s + (lb_start - s)) with lb_start by lia. by replace x with lb_start by (subst x; lia).
    - replace x with s by (subst x; lia). by rewrite Hall. }
  destruct Hcut as (_ & -> & _). cbn [piece s_dstaddr].
  assert (Hx : x <= lb_end /\ lb_start <= x /\ s <= x <= e) by (subst x; lia).
  set (p := piece seg x e). change (s_dstaddr (piece seg x e)) with x.
  assert (Hcut : (if lb_end <? e
      then (slice_early p (u32 (lb_end - x)), Some (slice_late p (u32 (lb_end - x)))) else (p, None)) =
    (piece seg x y, if lb_end <? e then Some (piece seg lb_end e) else None)).
  { assert (Hpd : s_dstaddr p = x /\ s_memsz p = e - x /\ 0 <= s_srcaddr p < 2 ^ 32 /\ 0 <= s_filesz p <= e - x).
    { subst p. pose proof (u32_range (s_srcaddr seg + (x - s_dstaddr seg))) as Hu.
      unfold piece. cbn [s_dstaddr s_srcaddr s_memsz s_filesz]. fold s in Hu |- *. lia. }
    destruct Hpd as (Hp1 & Hp2 & Hp3 & Hp4).
    destruct (lb_end <? e) eqn:E2; bool_to_prop; [|by replace y with e by (subst y; lia)].
    replace y with lb_end by (subst y; lia).
    rewrite (u32_small (lb_end - x)) by lia.
    rewrite slice_early_piece, slice_late_piece by (rewrite ?Hp1, ?Hp2; lia). rewrite Hp1, Hp2.
    replace (x + (lb_end - x)) with lb_end by lia. replace (x + (e - x)) with e by lia.
    subst p. rewrite !piece_piece by lia. done. }
  rewrite Hcut. cbn. f_equal. f_equal. rewrite (u32_small (x - lb_start)), u32_small by lia. done.
Qed.

(** ** Memory as the payload will see it

    With a bounce buffer, [jmp_payload] puts its contents where coreboot is. *)

Context (bounced : bool) (bn : Z).
Hypothesis Hbuf : bounced = true -> lb_end <= bb /\ lb_end - lb_start <= bn /\ bb + bn <= rom.

Definition view (m : Z -> Z) (a : Z) : Z :=
  if bounced && within lb_start lb_end a then m (bb + (a - lb_start)) else m a.
Definition in_buffer (a : Z) : bool := bounced && within bb (bb + bn) a.

(** From [m] to [m'] the addresses from [x] to [y] were given the bytes [f]. *)
Record writes (m m' : Z -> Z) (x y : Z) (f : Z -> Z) : Prop := {
  wr_view : forall a, 0 <= a < 2 ^ 32 -> in_buffer a = false -> view m' a = if within x y a then f a else view m a;
  wr_coreboot : bounced = true -> forall a, lb_start <= a < lb_end -> m' a = m a;
  wr_flash : has_flash m -> has_flash m'
}.

Lemma writes_app m m1 m2 x y z f : writes m m1 x y f -> writes m1 m2 y z f -> x <= y <= z -> writes m m2 x z f.
Proof.
  intros [V1 C1 F1] [V2 C2 F2] Hxy. split.
  - intros a Ha Hb. rewrite V2, V1 by done. repeat case_within; done || lia.
  - intros H a Ha. by rewrite C2, C1.
  - auto.
Qed.

Lemma writes_ext m m' x y f g : writes m m' x y f -> (forall a, x <= a < y -> f a = g a) -> writes m m' x y g.
Proof.
  intros [V C F] H. split; auto. intros a Ha Hb. rewrite V by done. case_within; auto.
Qed.

Lemma in_buffer_out a : bounced = true -> in_buffer a = false -> ~ (bb <= a < bb + bn).
Proof. intros Hb. unfold in_buffer. rewrite Hb. cbn [andb]. intros H ?. by rewrite within_in in H. Qed.

(** Bytes placed outside coreboot and the buffer. *)
Lemma writes_outside m m' d n out : 0 <= d -> 0 <= n -> d + n <= bb -> d + n <= rom ->
  (bounced = true -> d + n <= lb_start \/ lb_end <= d) ->
  (forall a, 0 <= a < 2 ^ 32 -> m' a = place d n out m a) ->
  writes m m' d (d + n) (fun a => nth (Z.to_nat (a - d)) out 0).
Proof using Hrom Hlb Hbb Hbuf.
  intros Hd Hn He Hr Hout Hm. split.
  - intros a Ha Hb. unfold view. destruct bounced eqn:Eb; cbn [andb].
    + specialize (Hbuf eq_refl). specialize (Hout eq_refl). case_within.
      * rewrite Hm by lia. unfold place. rewrite !within_out by lia. done.
      * by rewrite Hm by lia.
      * by rewrite Hm by lia.
    + by rewrite Hm by lia.
  - intros Eb a Ha. specialize (Hout Eb). rewrite Hm by lia. unfold place. by rewrite within_out by lia.
  - intros Hf a Ha. rewrite Hm by lia. unfold place. rewrite within_out by lia. by apply Hf.
Qed.

(** Bytes placed in the buffer, where it shadows coreboot. *)
Lemma writes_shadow m m' x n out : bounced = true -> lb_start <= x -> 0 <= n -> x + n <= lb_end ->
  (forall a, 0 <= a < 2 ^ 32 -> m' a = place (bb + (x - lb_start)) n out m a) ->
  writes m m' x (x + n) (fun a => nth (Z.to_nat (a - x)) out 0).
Proof using Hrom Hlb Hbb Hbuf.
  intros Hb Hx Hn He Hm. pose proof (Hbuf Hb) as (B1 & B2 & B3). split.
  - intros a Ha Hnb. pose proof (in_buffer_out a Hb Hnb) as Hnb'. unfold view. rewrite Hb. cbn [andb]. case_within.
    + rewrite Hm by lia. unfold place. case_within; case_within; first [lia|done|f_equal; lia].
    + rewrite Hm by lia. unfold place. rewrite !within_out by lia. done.
    + rewrite Hm by lia. unfold place. rewrite !within_out by lia. done.
  - intros _ a Ha. rewrite Hm by lia. unfold place. by rewrite within_out by lia.
  - intros Hf a Ha. rewrite Hm by lia. unfold place. rewrite within_out by lia. by apply Hf.
Qed.

(** A packed segment over coreboot: it is unpacked in the buffer, the part beyond the
    shadow is copied to its place. *)
Lemma writes_packed m m1 s n out : bounced = true -> lb_start <= s < lb_end -> 0 <= n -> s + n <= bb ->
  s + n - lb_start <= bn ->
  (forall a, 0 <= a < 2 ^ 32 -> m1 a = place (bb + (s - lb_start)) n out m a) ->
  writes m (move_parts lb_start lb_end bb m1 (bb + (s - lb_start)) (bb + (s - lb_start) + n)) s (s + n)
    (fun a => nth (Z.to_nat (a - s)) out 0).
Proof using Hrom Hlb Hbb Hbuf.
  intros Hb Hs Hn He Hbn Hm. pose proof (Hbuf Hb) as (B1 & B2 & B3).
  destruct (Z.le_gt_cases (s + n) lb_end) as [Hle|Hgt].
  - replace (move_parts _ _ _ _ _ _) with m1; [by apply writes_shadow; [done|lia..|]|].
    unfold move_parts. rewrite (u32_small (lb_end - lb_start)), (u32_small (bb + _)) by lia.
    rewrite (proj2 (Z.ltb_ge (bb + (s - lb_start)) bb)), (proj2 (Z.ltb_ge (bb + (lb_end - lb_start)) _)) by lia.
    by destruct (bb <? _).
  - assert (E : move_parts lb_start lb_end bb m1 (bb + (s - lb_start)) (bb + (s - lb_start) + n) =
      memcpy m1 lb_end (bb + (lb_end - lb_start)) (s + n - lb_end)).
    { unfold move_parts. rewrite (u32_small (lb_end - lb_start)), (u32_small (bb + (lb_end - _))) by lia.
      rewrite (proj2 (Z.ltb_lt bb _)), (proj2 (Z.ltb_ge (bb + (s - lb_start)) bb)), (proj2 (Z.ltb_lt _ _)) by lia.
      f_equal. rewrite u32_small; lia. }
    rewrite E. clear E.
    set (m2 := memcpy m1 _ _ _).
    assert (Hm2 : forall a, 0 <= a < 2 ^ 32 -> m2 a = if within lb_end (s + n) a then nth (Z.to_nat (a - s)) out 0
      else place (bb + (s - lb_start)) n out m a).
    { intros a Ha. subst m2. rewrite memcpy_spec by lia. replace (lb_end + (s + n - lb_end)) with (s + n) by lia.
      case_within; [|by apply Hm..]. rewrite Hm by lia. unfold place. rewrite within_in by lia. f_equal. lia. }
    clearbody m2. split.
    + intros a Ha Hnb. pose proof (in_buffer_out a Hb Hnb) as Hnb'. unfold view. rewrite Hb. cbn [andb]. case_within.
      * rewrite Hm2 by lia. rewrite within_out by lia. unfold place. case_within; case_within; first [lia|done|f_equal; lia].
      * rewrite Hm2 by lia. unfold place. rewrite (within_out (bb + _)) by lia.
        case_within; case_within; lia || done.
      * rewrite Hm2 by lia. unfold place. by rewrite !within_out by lia.
    + intros _ a Ha. rewrite Hm2 by lia. unfold place. by rewrite !within_out by lia.
    + intros Hf a Ha. rewrite Hm2 by lia. unfold place. rewrite !within_out by lia. by apply Hf.
Qed.

(** Where segments may lie: below the buffer; over coreboot only with a buffer that is
    large enough, and packed ones then not from before coreboot on. *)
Record fits_seg (seg : segment) : Prop := {
  ft_end : s_dstaddr seg + s_memsz seg <= bb;
  ft_bounced : overlaps seg = true -> bounced = true;
  ft_buffer : overlaps seg = true -> s_dstaddr seg + s_memsz seg - lb_start <= bn;
  ft_packed : overlaps seg = true -> s_compression seg <> CBFS_COMPRESS_NONE -> lb_start <= s_dstaddr seg
}.

Lemma seg_ok_moved seg out dst : seg_ok seg out -> 0 <= dst -> dst + s_memsz seg <= rom -> seg_ok (with_dstaddr dst seg) out.
Proof. intros [[] ?????] Hd He. split; cbn; auto; lia. Qed.

Definition tail_of (late : option segment) (rest : list segment) : list segment :=
  match late with Some new => new :: rest | None => rest end.

Lemma load_loop_late f seg ptr late m m' rest : relocate_segment bb seg = (None, ptr, late) ->
  load_segment lb_start lb_end ulz4fn ulzman bb m ptr = (1, m') ->
  load_loop (S f) bb (seg :: rest) m = load_loop f bb (tail_of late rest) m'.
Proof. intros Hr Hl. cbn [SelfBoot.load_loop]. by rewrite Hr, Hl. Qed.

Lemma load_loop_early f seg new ptr late m rest : relocate_segment bb seg = (Some new, ptr, late) ->
  load_loop (S f) bb (seg :: rest) m = load_loop f bb (new :: ptr :: tail_of late rest) m.
Proof. intros Hr. cbn [SelfBoot.load_loop]. by rewrite Hr. Qed.

(** The loop runs [seg] in [k] rounds, from [m] to [m']. *)
Definition runs (k : nat) (segs : list segment) (m m' : Z -> Z) : Prop :=
  forall f rest, load_loop (k + f) bb (segs ++ rest) m = load_loop f bb rest m'.

Lemma runs_app k1 k2 l1 l2 m1 m2 m3 : runs k1 l1 m1 m2 -> runs k2 l2 m2 m3 -> runs (k1 + k2) (l1 ++ l2) m1 m3.
Proof.
  intros R1 R2 f rest. rewrite <- app_assoc, <- Nat.add_assoc. by rewrite R1, R2.
Qed.

(** Beside coreboot. *)
Lemma step_beside m seg out : has_flash m -> seg_ok seg out -> s_dstaddr seg + s_memsz seg <= bb -> overlaps seg = false ->
  exists m', runs 1 [seg] m m' /\ writes m m' (s_dstaddr seg) (s_dstaddr seg + s_memsz seg)
    (fun a => nth (Z.to_nat (a - s_dstaddr seg)) out 0).
Proof using Hrom Hlb Hbb Hlz4 Hlzma Hbuf.
  intros Hm Hok He Ho. pose proof (sk_dst _ _ Hok) as (H1 & H2 & H3).
  destruct (load_loop_direct m seg out Hm Hok Ho) as (m' & Hrun & Hm'); [by left|by right|].
  exists m'. split; [exact Hrun|]. apply (writes_outside m m'); auto; try lia. intros _.
  destruct (Z.le_gt_cases (s_dstaddr seg + s_memsz seg) lb_start); [by left|right].
  destruct (Z.le_gt_cases lb_end (s_dstaddr seg)); [done|].
  assert (overlaps seg = true) by (apply (overlaps_spec _ _ Hok); lia). congruence.
Qed.

Lemma plain_bytes m m' seg out : seg_ok seg out -> s_compression seg = CBFS_COMPRESS_NONE ->
  writes m m' (s_dstaddr seg) (s_dstaddr seg + s_memsz seg) (fun a => nth (Z.to_nat (a - s_dstaddr seg)) out 0) <->
  writes m m' (s_dstaddr seg) (s_dstaddr seg + s_memsz seg) (plain_byte seg).
Proof.
  intros Hok Hc. pose proof (sk_dst _ _ Hok) as (H1 & H2 & H3).
  assert (E : forall a, s_dstaddr seg <= a < s_dstaddr seg + s_memsz seg ->
    nth (Z.to_nat (a - s_dstaddr seg)) out 0 = plain_byte seg a).
  { intros a Ha. pose proof (place_plain seg out (fun _ => 0) a Hok Hc ltac:(lia)) as P. unfold place in P.
    by rewrite !within_in in P by lia. }
  split; intros W; (eapply writes_ext; [exact W|]); intros a Ha; [|symmetry]; by apply E.
Qed.

(** A piece of a plain segment beside coreboot. *)
Lemma step_piece m seg out x y : has_flash m -> seg_ok seg out -> s_compression seg = CBFS_COMPRESS_NONE ->
  s_dstaddr seg <= x <= y -> y <= s_dstaddr seg + s_memsz seg -> y <= bb -> y <= lb_start \/ lb_end <= x ->
  exists m', runs 1 [piece seg x y] m m' /\ writes m m' x y (plain_byte seg).
Proof using Hrom Hlb Hbb Hlz4 Hlzma Hbuf.
  intros Hm Hok Hc Hx Hy Hyb Hside. pose proof (piece_ok seg out x y Hok Hc Hx Hy) as Hpo.
  destruct (step_beside m (piece seg x y) _ Hm Hpo) as (m' & Hrun & Hw).
  - cbn. lia.
  - destruct (overlaps (piece seg x y)) eqn:E; [|done]. apply (overlaps_spec _ _ Hpo) in E. cbn in E. lia.
  - exists m'. split; [done|]. apply (plain_bytes m m' _ _ Hpo Hc) in Hw. cbn in Hw.
    replace (x + (y - x)) with y in Hw by lia. apply (writes_ext m m' x y _ _ Hw).
    intros a Ha. apply (piece_byte seg out); auto; lia.
Qed.

(** The piece over coreboot. *)
Lemma step_shadow m seg out x y : has_flash m -> seg_ok seg out -> s_compression seg = CBFS_COMPRESS_NONE ->
  bounced = true -> s_dstaddr seg <= x <= y -> y <= s_dstaddr seg + s_memsz seg -> lb_start <= x -> y <= lb_end ->
  let ptr := with_dstaddr (bb + (x - lb_start)) (piece seg x y) in
  exists m', load_segment lb_start lb_end ulz4fn ulzman bb m ptr = (1, m') /\ runs 1 [ptr] m m' /\
    writes m m' x y (plain_byte seg).
Proof using Hrom Hlb Hbb Hlz4 Hlzma Hbuf.
  intros Hm Hok Hc Hb Hx Hy Hlx Hly ptr. pose proof (Hbuf Hb) as (B1 & B2 & B3).
  pose proof (piece_ok seg out x y Hok Hc Hx Hy) as Hpo.
  pose proof (seg_ok_moved _ _ (bb + (x - lb_start)) Hpo ltac:(lia) ltac:(cbn; lia)) as Hmo. fold ptr in Hmo.
  assert (Hin : in_place (s_dstaddr ptr) (s_memsz ptr)) by (right; subst ptr; cbn; lia).
  destruct (load_segment_in_place m ptr _ Hm Hmo Hin ltac:(lia)) as (m' & E & Hm'). exists m'. split; [done|]. split.
  - intros f rest. cbn [app]. apply (load_loop_late f ptr ptr None m m' rest); [|done].
    unfold SelfBoot.relocate_segment. destruct (overlaps ptr) eqn:Eo; [|done].
    apply (overlaps_spec _ _ Hmo) in Eo. subst ptr. cbn in Eo. lia.
  - assert (Hw := writes_shadow m m' x (y - x) _ Hb Hlx ltac:(lia) ltac:(lia) Hm').
    replace (x + (y - x)) with y in Hw by lia. apply (writes_ext m m' x y _ _ Hw). intros a Ha.
    rewrite <- (piece_byte seg out x y) by (auto; lia).
    pose proof (place_plain (piece seg x y) _ (fun _ => 0) a Hpo Hc ltac:(lia)) as P. unfold place in P. cbn in P.
    replace (x + (y - x)) with y in P by lia. by rewrite !within_in in P by lia.
Qed.

Definition seg_byte (seg : segment) (out : list Z) (a : Z) : Z := nth (Z.to_nat (a - s_dstaddr seg)) out 0.

Lemma step_plain m seg out : has_flash m -> seg_ok seg out -> fits_seg seg -> overlaps seg = true ->
  s_compression seg = CBFS_COMPRESS_NONE ->
  exists k m', (k <= 4)%nat /\ runs k [seg] m m' /\
    writes m m' (s_dstaddr seg) (s_dstaddr seg + s_memsz seg) (seg_byte seg out).
Proof using Hrom Hlb Hbb Hlz4 Hlzma Hbuf.
  intros Hm Hok Hfit Ho Hc. pose proof (ft_bounced _ Hfit Ho) as Hb. pose proof (Hbuf Hb) as (B1 & B2 & B3).
  pose proof (ft_end _ Hfit) as He. pose proof (sk_dst _ _ Hok) as (H1 & H2 & H3).
  pose proof (proj1 (overlaps_spec _ _ Hok) Ho) as [Ho1 Ho2].
  pose proof (relocate_plain seg out Hok Hc Ho ltac:(lia)) as Hr. cbv zeta in Hr.
  set (s := s_dstaddr seg) in *. set (e := s + s_memsz seg) in *.
  set (x := Z.max s lb_start) in *. set (y := Z.min e lb_end) in *.
  assert (Hxy : s <= x <= y /\ y <= e) by (subst x y; lia).
  (* the piece after coreboot *)
  set (late := if lb_end <? e then Some (piece seg lb_end e) else None) in *.
  assert (Hlate : forall m, has_flash m -> exists k m', (k <= 1)%nat /\ runs k (tail_of late []) m m' /\
    writes m m' y e (plain_byte seg)).
  { intros m1 Hm1. subst late. destruct (lb_end <? e) eqn:E; bool_to_prop.
    - replace y with lb_end by (subst y; lia).
      destruct (step_piece m1 seg out lb_end e Hm1 Hok Hc) as (m' & Hrun & Hw); [fold s; lia..|by right|].
      exists 1%nat, m'. done.
    - exists 0%nat, m1. split; [lia|]. split; [by intros f rest|]. replace e with y by (subst y; lia).
      split; auto. intros a Ha Hnb. by rewrite within_out by lia. }
  (* the piece over coreboot *)
  assert (Hmid : forall m, has_flash m -> exists m', load_segment lb_start lb_end ulz4fn ulzman bb m
      (with_dstaddr (bb + (x - lb_start)) (piece seg x y)) = (1, m') /\
      runs 1 [with_dstaddr (bb + (x - lb_start)) (piece seg x y)] m m' /\ writes m m' x y (plain_byte seg)).
  { intros m1 Hm1. apply (step_shadow m1 seg out x y); auto; fold s; subst x y; lia. }
  assert (Happ : forall rest, tail_of late rest = tail_of late [] ++ rest) by (intros rest; by destruct late).
  destruct (s <? lb_start) eqn:E; bool_to_prop.
  - destruct (step_piece m seg out s lb_start Hm Hok Hc) as (m1 & R1 & W1); [fold s; lia..|by left|].
    destruct (Hmid m1 (wr_flash _ _ _ _ _ W1 Hm)) as (m2 & _ & R2 & W2).
    destruct (Hlate m2 (wr_flash _ _ _ _ _ W2 (wr_flash _ _ _ _ _ W1 Hm))) as (k & m3 & Hk & R3 & W3).
    exists (1 + (1 + (1 + k)))%nat, m3. split; [lia|]. split.
    + intros f rest. cbn [app]. rewrite <- !Nat.add_assoc. rewrite (load_loop_early _ _ _ _ _ _ _ Hr), Happ.
      apply (runs_app 1 (1 + k) [_] (_ :: tail_of late []) m m1 m3 R1 (runs_app 1 k [_] _ _ _ _ R2 R3)).
    + apply (plain_bytes m m3 seg out Hok Hc). replace x with lb_start in W2 by (subst x; lia).
      apply (writes_app _ _ _ _ _ _ _ W1); [|fold s e; lia]. apply (writes_app _ _ _ _ _ _ _ W2 W3).
      fold s e. subst x; lia.
  - destruct (Hmid m Hm) as (m1 & L1 & _ & W1).
    destruct (Hlate m1 (wr_flash _ _ _ _ _ W1 Hm)) as (k & m2 & Hk & R2 & W2).
    exists (1 + k)%nat, m2. split; [lia|]. split.
    + intros f rest. cbn [app]. rewrite <- Nat.add_assoc. rewrite (load_loop_late _ _ _ _ _ _ _ Hr L1), Happ. apply R2.
    + apply (plain_bytes m m2 seg out Hok Hc). replace x with s in W1 by (subst x; lia).
      apply (writes_app _ _ _ _ _ _ _ W1 W2). fold s e. lia.
Qed.

Lemma load_step m seg out : has_flash m -> seg_ok seg out -> fits_seg seg ->
  exists k m', (k <= 4)%nat /\ runs k [seg] m m' /\
    writes m m' (s_dstaddr seg) (s_dstaddr seg + s_memsz seg) (seg_byte seg out).
Proof using Hrom Hlb Hbb Hlz4 Hlzma Hbuf.
  intros Hm Hok Hfit. destruct (overlaps seg) eqn:Ho.
  - destruct (Z.eq_dec (s_compression seg) CBFS_COMPRESS_NONE) as [Hc|Hc]; [by apply step_plain|].
    pose proof (ft_bounced _ Hfit Ho) as Hb. pose proof (Hbuf Hb) as (B1 & B2 & B3).
    pose proof (ft_buffer _ Hfit Ho) as Hbn. pose proof (ft_packed _ Hfit Ho Hc) as Hs.
    pose proof (ft_end _ Hfit) as He. pose proof (sk_dst _ _ Hok) as (H1 & H2 & H3).
    pose proof (proj1 (overlaps_spec _ _ Hok) Ho) as [Ho1 Ho2].
    assert (Hr : relocate_segment bb seg = (None, with_dstaddr (bb + (s_dstaddr seg - lb_start)) seg, None)).
    { unfold SelfBoot.relocate_segment. rewrite Ho, (proj2 (Z.eqb_neq _ _) Hc). cbn [negb].
      rewrite (u32_small (s_dstaddr seg - lb_start)), u32_small by lia. done. }
    pose proof (seg_ok_moved _ _ (bb + (s_dstaddr seg - lb_start)) Hok ltac:(lia) ltac:(lia)) as Hmo.
    destruct (copy_segment_spec m _ out Hm Hmo) as (m1 & E1 & Hm1). cbn in Hm1.
    exists 1%nat. eexists. split; [lia|]. split.
    + intros f rest. cbn [app Nat.add]. apply (load_loop_late f seg _ None m _ rest Hr).
      unfold load_segment. rewrite E1. cbn. rewrite u32_small by lia. reflexivity.
    + apply writes_packed; auto; lia.
  - destruct (step_beside m seg out Hm Hok (ft_end _ Hfit) Ho) as (m' & Hrun & Hw). exists 1%nat, m'.
    split; [lia|done].
Qed.

(** ** All segments *)

(** One after the other: where two meet the later one stays. *)
Definition place_all (segs : list (segment * list Z)) (m : Z -> Z) : Z -> Z :=
  fold_left (fun m '(seg, out) => place (s_dstaddr seg) (s_memsz seg) out m) segs m.

Lemma place_ext d n out m m' a : m a = m' a -> place d n out m a = place d n out m' a.
Proof. intros H. unfold place. by destruct (within _ _ _). Qed.

Lemma place_all_ext l : forall m m' a, m a = m' a -> place_all l m a = place_all l m' a.
Proof.
  induction l as [|[seg out] l IH]; intros m m' a H; [done|]. cbn. apply IH. by apply place_ext.
Qed.

Lemma load_loop_all l : forall m fuel, has_flash m ->
  Forall (fun '(seg, out) => seg_ok seg out /\ fits_seg seg) l -> (4 * length l + 1 <= fuel)%nat ->
  exists m', load_loop fuel bb (map fst l) m = Some (1, m') /\
    (forall a, 0 <= a < 2 ^ 32 -> in_buffer a = false -> view m' a = place_all l (view m) a) /\
    (bounced = true -> forall a, lb_start <= a < lb_end -> m' a = m a) /\ has_flash m'.
Proof using Hrom Hlb Hbb Hlz4 Hlzma Hbuf.
  induction l as [|[seg out] l IH]; intros m fuel Hm Hl Hf.
  - exists m. destruct fuel; [cbn in Hf; lia|]. done.
  - apply Forall_cons in Hl as [[Hok Hfit] Hl].
    destruct (load_step m seg out Hm Hok Hfit) as (k & m1 & Hk & Hrun & [V C F]).
    destruct (IH m1 (fuel - k)%nat (F Hm) Hl) as (m2 & E & V2 & C2 & F2); [cbn in Hf |- *; lia|].
    exists m2. split_and!.
    + replace fuel with (k + (fuel - k))%nat by (cbn in Hf; lia). cbn [map fst]. by rewrite <- E, <- Hrun.
    + intros a Ha Hnb. rewrite V2 by done. cbn. apply place_all_ext. rewrite V by done. done.
    + intros Hb a Ha. by rewrite C2, C.
    + done.
Qed.
End Loading.

(** ** Marking the segments *)

Definition in_segments (segs : list segment) (a : Z) : bool :=
  existsb (fun seg => in_pages (s_dstaddr seg) (s_memsz seg) a) segs.

Lemma mark_segments_spec lb_start lb_end rom segs : forall bm high,
  bootmem_ok bm -> 0 <= rom < 2 ^ 32 -> high <= rom ->
  Forall (fun seg => 0 <= s_dstaddr seg /\ 0 <= s_memsz seg /\ s_dstaddr seg + s_memsz seg <= rom) segs ->
  let '(bm', high') := fold_left (fun '(bm, bounce_high) seg =>
      let bm := bootmem_add_range bm (s_dstaddr seg) (s_memsz seg) LB_MEM_UNUSABLE in
      if overlaps_coreboot lb_start lb_end seg && (bounce_high <? seg_end seg)
      then (bm, seg_end seg) else (bm, bounce_high)) segs (bm, high) in
  bootmem_ok bm' /\
  (forall a, tag_at (entries bm') a = if in_segments segs a then Some LB_MEM_UNUSABLE else tag_at (entries bm) a) /\
  high <= high' <= rom /\
  (forall seg, seg ∈ segs -> overlaps_coreboot lb_start lb_end seg = true -> s_dstaddr seg + s_memsz seg <= high').
Proof.
  induction segs as [|seg segs IH]; intros bm high Hok Hrom Hh Hs; cbn [fold_left].
  { split_and!; auto; [lia|]. by intros ? ?%not_elem_of_nil. }
  apply Forall_cons in Hs as [(H1 & H2 & H3) Hs].
  destruct (add_range_spec bm (s_dstaddr seg) (s_memsz seg) LB_MEM_UNUSABLE Hok) as [Hok1 T1]; [lia..|].
  assert (He : seg_end seg = s_dstaddr seg + s_memsz seg) by (unfold seg_end; apply u32_small; lia). rewrite He.
  set (high1 := if overlaps_coreboot lb_start lb_end seg && (high <? s_dstaddr seg + s_memsz seg)
                then s_dstaddr seg + s_memsz seg else high).
  assert (Hh1 : high <= high1 <= rom /\
    (overlaps_coreboot lb_start lb_end seg = true -> s_dstaddr seg + s_memsz seg <= high1)).
  { subst high1. destruct (overlaps_coreboot _ _ seg); cbn [andb]; [|split; [lia|done]].
    destruct (high <? _) eqn:E; bool_to_prop; split; lia. }
  replace (if _ : bool then _ else _) with (bootmem_add_range bm (s_dstaddr seg) (s_memsz seg) LB_MEM_UNUSABLE, high1)
    by (subst high1; by destruct (_ && _)).
  specialize (IH _ high1 Hok1 Hrom ltac:(lia) Hs).
  destruct (fold_left _ segs _) as [bm' high']. destruct IH as (Hok' & T & Hh' & Hov).
  split_and!; [done| |lia|lia|].
  - intros a. rewrite T, T1. cbn [in_segments existsb]. unfold in_segments.
    by destruct (in_pages _ _ a), (existsb _ segs).
  - intros sg [-> |Hsg]%elem_of_cons Ho; [|by apply Hov]. destruct Hh1 as [_ Hh1]. specialize (Hh1 Ho). lia.
Qed.

(** ** Payloads in the flash *)

Lemma combine_fst {A B} (P : A -> B -> Prop) l l' : Forall2 P l l' -> map fst (combine l l') = l.
Proof. induction 1; cbn; [done|]. by f_equal. Qed.

Lemma combine_all {A B} (P : A -> B -> Prop) (Q : A -> Prop) l l' : Forall2 P l l' -> Forall Q l ->
  Forall (fun '(x, y) => P x y /\ Q x) (combine l l').
Proof. induction 1; cbn; intros HQ; constructor; inversion HQ; subst; auto. Qed.

Lemma forall2_left {A B} (P : A -> B -> Prop) (Q : A -> Prop) l l' : (forall x y, P x y -> Q x) ->
  Forall2 P l l' -> Forall Q l.
Proof. intros HPQ. induction 1; constructor; eauto. Qed.

Section Payload.
Context {D : Type} (drv_readat : D -> nat -> Z -> Z -> Z * list Z).
Context (s : rstate (D := D)) (CONFIG_ROM_SIZE lb_start lb_end : Z).
Context (ulz4fn ulzman : (Z -> Z) -> Z -> Z -> Z -> Z -> Z * (Z -> Z)).
Context (lz4_decode lzma_decode : list Z -> Z -> option (list Z)).
Context `{Hlz4 : !Decompressor ulz4fn lz4_decode} `{Hlzma : !Decompressor ulzman lzma_decode}.
Hypothesis HROM : 64 <= CONFIG_ROM_SIZE < 2 ^ 31.
Hypothesis Hbytes : forall x, is_byte (mem s x).
Notation rom := (rom_base CONFIG_ROM_SIZE).
Hypothesis Hlb : 0 <= lb_start <= lb_end /\ lb_end <= rom.
Context (bm : memranges).
Hypothesis Hbm : bootmem_ok bm.
Hypothesis Htop : tag_at (entries bm) (2 ^ 64 - 1) = None.
Set Default Proof Using "Type".

(** The payload is the [n] bytes at offset [o] of the flash, its table has the entries
    [recs]; [outs] are the bytes of its segments. *)
Context (payload : prog) (o n : Z) (recs : list cbfs_payload_segment) (entry : Z) (outs : list (list Z)).
Definition table : Z := rom + o.
Definition segs : list segment := omap (segment_of table) recs.

Record payload_ok : Prop := {
  po_win : win_ok (boot_dev CONFIG_ROM_SIZE) o n;
  po_rdev : prog_rdev payload = win (boot_dev CONFIG_ROM_SIZE) o n;
  po_length : sizeof_payload_segment * (Z.of_nat (length recs) + 1) <= n;
  po_table : table_at (mem s) table recs entry;
  po_segs : Forall2 (seg_ok lz4_decode lzma_decode rom (mem s)) segs outs;
  po_size : Forall (fun seg => 0 < s_memsz seg) segs
}.

(** The segment is RAM, or lies below 1 MiB. *)
Definition target_ok (seg : segment) : Prop :=
  (forall a, s_dstaddr seg <= a < s_dstaddr seg + s_memsz seg -> tag_at (entries bm) a = Some LB_MEM_RAM) \/
  s_dstaddr seg + s_memsz seg <= one_meg.

Lemma rom_range : 0 <= rom < 2 ^ 32.
Proof using HROM. unfold rom_base. lia. Qed.

Lemma targets_ram_spec seg : 0 <= s_dstaddr seg -> 0 < s_memsz seg -> s_dstaddr seg + s_memsz seg <= rom ->
  targets_ram bm seg = true <-> target_ok seg.
Proof using HROM Hbm Htop.
  intros Hd Hn He. pose proof rom_range. unfold targets_ram, target_ok, seg_end.
  rewrite orb_true_iff, andb_true_iff, Z.ltb_lt, Z.leb_le, u32_small by lia.
  rewrite usable_correct by (auto; lia). unfold one_meg. split; intros [?|?]; auto; right; lia.
Qed.

Lemma segs_place : payload_ok ->
  Forall (fun seg => 0 <= s_dstaddr seg /\ 0 <= s_memsz seg /\ s_dstaddr seg + s_memsz seg <= rom) segs.
Proof.
  intros Hp. apply (forall2_left _ _ _ _ (fun seg out Hok => sk_dst _ _ _ _ seg out Hok) (po_segs Hp)).
Qed.

Lemma payload_targets : payload_ok -> payload_targets_usable_ram bm segs = true <-> Forall target_ok segs.
Proof using HROM Hbm Htop.
  intros Hp. unfold payload_targets_usable_ram. rewrite forallb_forall, List.Forall_forall.
  pose proof (segs_place Hp) as H1. pose proof (po_size Hp) as H2. rewrite List.Forall_forall in H1, H2.
  split; intros H seg Hin; specialize (H seg Hin); destruct (H1 seg Hin) as (? & ? & ?);
    apply targets_ram_spec; auto.
Qed.

Lemma payload_mapped : payload_ok -> rdev_mmap_full drv_readat s (prog_rdev payload) = (Some table, s).
Proof using HROM Hbytes.
  intros Hp. rewrite (po_rdev Hp). unfold rdev_mmap_full, rdev_mmap. cbn [win rdev_region rdev_root].
  pose proof (po_win Hp) as Hw. pose proof Hw as (W1 & W2 & W3). cbn in W3.
  pose proof (po_length Hp) as Hn. unfold sizeof_payload_segment in Hn.
  assert (Hm : MappedRoot drv_readat s (boot_dev CONFIG_ROM_SIZE) (fun x => mem s (u32 (rom + x)))).
  { apply mem_mapped; [lia|done]. }
  change (region_device_sz _) with n. rewrite (win_checked drv_readat s (boot_dev CONFIG_ROM_SIZE) _ o n) by (done || lia).
  rewrite Z.leb_refl. cbn. unfold table, rom_base. rewrite u32_small by lia. do 2 f_equal. lia.
Qed.

Lemma payload_unmapped (s' : rstate (D := D)) : payload_ok -> snd (rdev_munmap s' (prog_rdev payload) (Some table)) = s'.
Proof. intros Hp. by rewrite (po_rdev Hp). Qed.

Lemma payload_built fuel : payload_ok -> (length recs < fuel)%nat ->
  build_self_segment_list fuel (mem s) table = Some (1, segs, entry).
Proof. intros Hp Hf. apply build_loop_table; [apply (po_table Hp)|done]. Qed.

Lemma combine_segs : payload_ok -> map fst (combine segs outs) = segs.
Proof.
  intros Hp. by apply (combine_fst _ _ _ (po_segs Hp)).
Qed.

Lemma segs_all (P : segment -> Prop) : payload_ok -> Forall P segs ->
  Forall (fun '(seg, out) => seg_ok lz4_decode lzma_decode rom (mem s) seg out /\ P seg) (combine segs outs).
Proof.
  intros Hp HP. by apply (combine_all _ _ _ _ (po_segs Hp)).
Qed.

Lemma segs_length : payload_ok -> length (combine segs outs) = length segs.
Proof. intros Hp. rewrite <- (combine_segs Hp) at 2. by rewrite length_map. Qed.

Lemma place_all_frame l (m : Z -> Z) a :
  Forall (fun '(seg, out) => ~ (s_dstaddr seg <= a < s_dstaddr seg + s_memsz seg)) l -> place_all l m a = m a.
Proof.
  revert m. induction l as [|[seg out] l IH]; intros m H; [done|]. apply Forall_cons in H as [Hs H].
  cbn. rewrite IH by done. unfold place. by rewrite within_out.
Qed.

(** Coreboot lies above 1 MiB in memory that is not free RAM. *)
Definition coreboot_reserved : Prop :=
  one_meg <= lb_start /\ forall a, lb_start <= a < lb_end -> tag_at (entries bm) a <> Some LB_MEM_RAM.

Lemma target_beside : coreboot_reserved -> forall seg, 0 < s_memsz seg -> target_ok seg ->
  ~ (lb_start < s_dstaddr seg + s_memsz seg /\ s_dstaddr seg < lb_end /\ lb_start < lb_end).
Proof.
  intros [Hlow Hres] seg Hn [Hram|Hram] Ho; [|lia].
  apply (Hres (Z.max lb_start (s_dstaddr seg))); [lia|]. apply Hram. lia.
Qed.

(** C12.  Loading a payload with a relocatable ramstage, region checks on.  When every segment
    targets RAM or lies below 1 MiB, [selfload] returns the entry point; memory then
    holds each segment's bytes, followed by zeros up to its memory size, and is
    unchanged elsewhere, in coreboot itself and in the flash; the pages of the segments
    are marked unusable.  When some segment does not, it returns NULL and changes
    nothing. *)
Theorem selfload_correct fuel :
  payload_ok -> (length recs < fuel)%nat -> coreboot_reserved -> lb_start < lb_end ->
  let load := selfload drv_readat lb_start lb_end true ulz4fn ulzman fuel s bm payload true in
  (Forall target_ok segs -> exists m' bm',
     load = Some (entry, prog_set_area payload (2 ^ 32 - 1) 0, bm', set_mem m' s) /\
     (forall a, 0 <= a < 2 ^ 32 -> m' a = place_all (combine segs outs) (mem s) a) /\
     (forall a, lb_start <= a < lb_end \/ rom <= a < 2 ^ 32 -> m' a = mem s a) /\
     forall a, tag_at (entries bm') a = if in_segments segs a then Some LB_MEM_UNUSABLE else tag_at (entries bm) a) /\
  (~ Forall target_ok segs -> load = Some (0, payload, bm, s)).
Proof using All.
  intros Hp Hf Hres Hne load. pose proof rom_range as Hrr. subst load. unfold selfload.
  rewrite (payload_mapped Hp), (payload_built fuel Hp Hf). change (1 =? 0) with false. cbn iota.
  unfold load_self_segments. cbn [andb]. split.
  - intros Ht. rewrite (proj2 (payload_targets Hp) Ht). cbn [negb].
    pose proof (mark_segments_spec lb_start lb_end rom segs bm lb_end Hbm Hrr ltac:(lia) (segs_place Hp)) as Hmark.
    unfold mark_segments. cbn iota. destruct (fold_left _ segs _) as [bm' high]. destruct Hmark as (_ & T & _).
    unfold get_bounce_buffer. change (u32 (-1)) with (2 ^ 32 - 1). change (2 ^ 32 - 1 =? 0) with false. cbn iota.
    assert (Hbb : 0 < 2 ^ 32 - 1 < 2 ^ 32) by lia.
    destruct (load_loop_all lb_start lb_end ulz4fn ulzman lz4_decode lzma_decode rom (mem s) Hrr Hlb
      (2 ^ 32 - 1) Hbb false 0 ltac:(done) (combine segs outs) (mem s) (4 * length segs + 1)) as (m' & E & V & _ & F).
    + by intros a Ha.
    + apply segs_all; [done|]. pose proof (segs_place Hp) as H1. pose proof (po_size Hp) as H2.
      apply List.Forall_forall. intros seg Hin. rewrite List.Forall_forall in Ht, H1, H2.
      pose proof (H1 seg Hin) as (P1 & P2 & P3). pose proof (target_beside Hres seg (H2 seg Hin) (Ht seg Hin)) as Hb.
      assert (Ho : overlaps_coreboot lb_start lb_end seg = false).
      { unfold overlaps_coreboot, seg_end. rewrite u32_small by lia. apply negb_false_iff, orb_true_iff.
        rewrite !Z.leb_le. lia. }
      split; [lia|congruence..].
    + by rewrite (segs_length Hp).
    + rewrite (combine_segs Hp) in E. rewrite E. change (1 =? 0) with false. cbn iota.
      rewrite (payload_unmapped _ Hp). exists m', bm'. split; [done|].
      assert (V' : forall a, 0 <= a < 2 ^ 32 -> m' a = place_all (combine segs outs) (mem s) a).
      { intros a Ha. by apply V. }
      split_and!; [done| |done]. intros a Ha. rewrite V' by lia. apply place_all_frame.
      apply List.Forall_forall. intros [seg out] Hin. apply in_combine_l in Hin as Hseg.
      pose proof (segs_place Hp) as H1. pose proof (po_size Hp) as H2. rewrite List.Forall_forall in Ht, H1, H2.
      pose proof (H1 seg Hseg) as (P1 & P2 & P3).
      pose proof (target_beside Hres seg (H2 seg Hseg) (Ht seg Hseg)) as Hb. lia.
  - intros Ht. destruct (payload_targets_usable_ram bm segs) eqn:E; [by apply payload_targets in E|].
    cbn. rewrite (payload_unmapped _ Hp). by destruct s.
Qed.

(** C11.  Loading over coreboot itself, through the bounce buffer.  The buffer lies above
    coreboot and the segments, and packed segments do not begin before coreboot and
    reach into it.  Then [selfload] returns the entry point and leaves coreboot as it
    was; once [jmp_payload] has put the buffer's contents in coreboot's place, memory
    holds every segment's bytes and zeros after them, and is unchanged elsewhere but in
    the buffer.  When there is no room for a buffer, it returns NULL and loads nothing. *)
Theorem selfload_bounce_correct fuel :
  payload_ok -> (length recs < fuel)%nat -> Forall target_ok segs ->
  let '(bm1, high) := mark_segments lb_start lb_end true bm segs in
  let size := (high - lb_start) + (lb_end - lb_start) in
  let '(bb, bm') := bootmem_allocate_buffer bm1 size in
  let load := selfload drv_readat lb_start lb_end false ulz4fn ulzman fuel s bm payload true in
  size <= 2 ^ 32 - 4096 ->
  (bb = 0 -> load = Some (0, payload, bm', s)) /\
  (0 < bb -> lb_end <= bb -> bb + ALIGN_UP 32 size 4096 <= rom ->
   Forall (fun seg => s_dstaddr seg + s_memsz seg <= bb /\
     (overlaps_coreboot lb_start lb_end seg = true -> s_compression seg <> CBFS_COMPRESS_NONE ->
      lb_start <= s_dstaddr seg)) segs ->
   exists m', load = Some (entry, prog_set_area payload bb (high - lb_start), bm', set_mem m' s) /\
     (forall a, 0 <= a < 2 ^ 32 -> ~ (bb <= a < bb + ALIGN_UP 32 size 4096) ->
        view lb_start lb_end bb true m' a = place_all (combine segs outs) (view lb_start lb_end bb true (mem s)) a) /\
     forall a, lb_start <= a < lb_end -> m' a = mem s a).
Proof using All.
  intros Hp Hf Ht. pose proof rom_range as Hrr.
  pose proof (mark_segments_spec lb_start lb_end rom segs bm lb_end Hbm Hrr ltac:(lia) (segs_place Hp)) as Hmark.
  change (let '(bm', high') := mark_segments lb_start lb_end true bm segs in
    bootmem_ok bm' /\
    (forall a, tag_at (entries bm') a = if in_segments segs a then Some LB_MEM_UNUSABLE else tag_at (entries bm) a) /\
    lb_end <= high' <= rom /\
    (forall seg, seg ∈ segs -> overlaps_coreboot lb_start lb_end seg = true -> s_dstaddr seg + s_memsz seg <= high'))
    in Hmark.
  destruct (mark_segments _ _ _ _ _) as [bm1 high] eqn:Em. destruct Hmark as (_ & _ & Hhigh & Hov).
  cbv zeta. set (size := high - lb_start + (lb_end - lb_start)).
  destruct (bootmem_allocate_buffer bm1 size) as [bb bm'] eqn:Eb.
  unfold selfload. rewrite (payload_mapped Hp), (payload_built fuel Hp Hf). change (1 =? 0) with false. cbn iota.
  unfold load_self_segments. rewrite (proj2 (payload_targets Hp) Ht). cbn [andb negb].
  rewrite Em. unfold get_bounce_buffer. intros Hsize.
  rewrite (u32_small (high - lb_start)), (u32_small (lb_end - lb_start)), u32_small by lia. fold size. rewrite Eb. split.
  { intros ->. cbn iota. change (0 =? 0) with true. cbn iota. rewrite (payload_unmapped _ Hp). by destruct s. }
  intros Hpos Habove Hroom Hsegs. rewrite (proj2 (Z.eqb_neq bb 0)) by lia.
  assert (Hn : size <= ALIGN_UP 32 size 4096).
  { destruct (Z.eq_dec size 0) as [-> |]; [done|]. apply round_pages. lia. }
  set (bn := ALIGN_UP 32 size 4096) in *.
  destruct (load_loop_all lb_start lb_end ulz4fn ulzman lz4_decode lzma_decode rom (mem s) Hrr Hlb
    bb ltac:(lia) true bn ltac:(lia) (combine segs outs) (mem s) (4 * length segs + 1)) as (m' & E & V & C & _).
  - by intros a Ha.
  - apply segs_all; [done|]. rewrite List.Forall_forall in Hsegs |- *. intros seg Hin.
    destruct (Hsegs seg Hin) as [H1 H2]. split; auto. intros Ho.
    pose proof (Hov seg ltac:(by apply list_elem_of_In) Ho). lia.
  - by rewrite (segs_length Hp).
  - rewrite (combine_segs Hp) in E. rewrite E. change (1 =? 0) with false. cbn iota.
    rewrite (payload_unmapped _ Hp). exists m'. split; [done|]. split; [|by apply C].
    intros a Ha Hout. apply V; [done|]. unfold in_buffer. cbn [andb]. by apply within_out.
Qed.
End Payload.

(** ** Examples *)

Definition sample_table (recs : list cbfs_payload_segment) (body : list Z) : list Z :=
  flat_map payload_bytes recs ++ body.
Definition sample_state (recs : list cbfs_payload_segment) (body : list Z) : rstate (D := unit) :=
  rom_state (sample_table recs body).
Definition payload_prog : prog := mk_prog (win (boot_dev 512) 0 256) 0 0.

Lemma sample_bytes recs body : forallb (fun b => (0 <=? b) && (b <? 256)) (sample_table recs body) = true ->
  forall x, is_byte (mem (sample_state recs body) x).
Proof. intros H x. apply byte_at_byte. by apply bytes_check. Qed.

(** Four packed bytes at 2 MiB followed by four zeros, and 16 bytes of zeros at 3 MiB. *)
Definition sample_recs : list cbfs_payload_segment :=
  [mk_payload_segment PAYLOAD_SEGMENT_CODE CBFS_COMPRESS_LZMA 112 0x200000 4 8;
   mk_payload_segment PAYLOAD_SEGMENT_PARAMS 0 0 0 0 0;
   mk_payload_segment PAYLOAD_SEGMENT_BSS 0 0 0x300000 0 16].
Definition sample_entry : cbfs_payload_segment := mk_payload_segment PAYLOAD_SEGMENT_ENTRY 0 0 0x200004 0 0.
Definition sample_payload : rstate (D := unit) := sample_state (sample_recs ++ [sample_entry]) [5; 6; 7; 8].
Definition payload_probes : list Z := [0x1fffff; 0x200000; 0x200003; 0x200004; 0x200007; 0x300000; 0x7f000000].

Lemma sample_payload_ok : payload_ok sample_payload 512 copy_decode copy_decode payload_prog 0 256 sample_recs 0x200004
  [[5; 6; 7; 8]; []].
Proof.
  split; [by vm_compute|done|by vm_compute| | |].
  - cbn [table_at sample_recs].
    repeat (split; [by vm_compute|split; [split; split; by vm_compute|split; [unfold known_type; cbn; set_solver|]]]).
    exists sample_entry. split; [by vm_compute|]. split; [split; split; by vm_compute|done].
  - replace (segs _ _ _) with [mk_segment 0x200000 (0xfffffe00 + 112) 8 4 1; mk_segment 0x300000 0xfffffe00 16 0 0]
      by (by vm_compute).
    repeat constructor; cbn; try lia; try by vm_compute.
  - replace (segs _ _ _) with [mk_segment 0x200000 (0xfffffe00 + 112) 8 4 1; mk_segment 0x300000 0xfffffe00 16 0 0]
      by (by vm_compute).
    repeat constructor.
Qed.

Lemma sample_payload_bytes : forall x, is_byte (mem sample_payload x).
Proof. apply sample_bytes. by vm_compute. Qed.

Definition sample_segs : list segment :=
  [mk_segment 0x200000 (0xfffffe00 + 112) 8 4 1; mk_segment 0x300000 0xfffffe00 16 0 0].
Lemma sample_segs_eq : segs 512 0 sample_recs = sample_segs.
Proof. by vm_compute. Qed.

Lemma selfload_witness :
  exists m' bm', selfload no_driver 0x7f000000 0x7f001000 true copy_fn copy_fn 8 sample_payload sample_bootmem payload_prog true =
    Some (0x200004, prog_set_area payload_prog (2 ^ 32 - 1) 0, bm', set_mem m' sample_payload) /\
  map m' payload_probes = [67; 5; 8; 0; 0; 0; 67].
Proof.
  destruct sample_bootmem_ok as [Hok Htop].
  pose proof (selfload_correct no_driver sample_payload 512 0x7f000000 0x7f001000 copy_fn copy_fn copy_decode copy_decode
    ltac:(lia) sample_payload_bytes) as H.
  assert (Hlb : 0 <= 0x7f000000 <= 0x7f001000 /\ 0x7f001000 <= rom_base 512) by (unfold rom_base; lia).
  specialize (H Hlb sample_bootmem Hok Htop payload_prog 0 256 sample_recs 0x200004 [[5; 6; 7; 8]; []] 8%nat
    sample_payload_ok ltac:(cbn; lia)).
  destruct H as [H _].
  - split; [unfold one_meg; lia|]. intros a Ha.
    assert (E : tag_at (entries sample_bootmem) a = Some LB_MEM_RESERVED); [|by rewrite E].
    rewrite sample_bootmem_entries. cbn [tag_at]. unfold in_range. cbn [r_begin r_end].
    rewrite (proj2 (Z.leb_gt a 0xfff)), (proj2 (Z.leb_gt a 0x7effffff)), !(proj2 (Z.leb_le _ _)) by lia.
    by rewrite !andb_false_r.
  - lia.
  - rewrite sample_segs_eq in H. destruct H as (m' & bm' & E & Hm & _).
    { unfold sample_segs.
      repeat (apply Forall_cons; split; [left; apply usable_correct; auto; cbn; try lia; by vm_compute|]). constructor. }
    exists m', bm'. split; [exact E|].
    rewrite (map_ext_in m' (place_all (combine sample_segs [[5; 6; 7; 8]; []]) (mem sample_payload)) payload_probes).
    + by vm_compute.
    + intros a Ha. apply Hm. unfold payload_probes in Ha. simpl in Ha. lia.
Defined.

(** Ten bytes from two before coreboot at 1 MiB to beyond its end: stored ones, then zeros. *)
Definition bounce_recs : list cbfs_payload_segment :=
  [mk_payload_segment PAYLOAD_SEGMENT_DATA CBFS_COMPRESS_NONE 56 0xffffe 4 0x1004].
Definition bounce_payload : rstate (D := unit) := sample_state (bounce_recs ++ [sample_entry]) [5; 6; 7; 8].
Definition bounce_segs : list segment := [mk_segment 0xffffe (0xfffffe00 + 56) 0x1004 4 0].
Definition bounce_probes : list Z := [0xffffd; 0xffffe; 0xfffff; 0x100000; 0x100001; 0x100002; 0x101001; 0x101002].

Lemma bounce_payload_bytes : forall x, is_byte (mem bounce_payload x).
Proof. apply sample_bytes. by vm_compute. Qed.

Lemma bounce_segs_eq : segs 512 0 bounce_recs = bounce_segs.
Proof. by vm_compute. Qed.

Lemma bounce_payload_ok : payload_ok bounce_payload 512 copy_decode copy_decode payload_prog 0 256 bounce_recs 0x200004
  [[5; 6; 7; 8]].
Proof.
  split; [by vm_compute|done|by vm_compute| | |].
  - cbn [table_at bounce_recs].
    split; [by vm_compute|split; [split; split; by vm_compute|split; [unfold known_type; cbn; set_solver|]]].
    exists sample_entry. split; [by vm_compute|]. split; [split; split; by vm_compute|done].
  - rewrite bounce_segs_eq. repeat constructor; cbn; try lia; try by vm_compute.
  - rewrite bounce_segs_eq. repeat constructor.
Qed.

Lemma selfload_bounce_witness :
  exists m' bm', selfload no_driver 0x100000 0x101000 false copy_fn copy_fn 8 bounce_payload sample_bootmem payload_prog true =
    Some (0x200004, prog_set_area payload_prog 0x7effd000 0x1002, bm', set_mem m' bounce_payload) /\
  map (view 0x100000 0x101000 0x7effd000 true m') bounce_probes = [68; 5; 6; 7; 8; 0; 0; 68] /\
  m' 0x100000 = 68.
Proof.
  destruct sample_bootmem_ok as [Hok Htop].
  assert (Hlb : 0 <= 0x100000 <= 0x101000 /\ 0x101000 <= rom_base 512) by (unfold rom_base; lia).
  pose proof (selfload_bounce_correct no_driver bounce_payload 512 0x100000 0x101000 copy_fn copy_fn copy_decode copy_decode
    ltac:(lia) bounce_payload_bytes Hlb sample_bootmem Hok Htop payload_prog 0 256 bounce_recs 0x200004 [[5; 6; 7; 8]] 8%nat
    bounce_payload_ok ltac:(cbn; lia)) as H.
  rewrite bounce_segs_eq in H.
  assert (Em : exists bm1 bm2, mark_segments 0x100000 0x101000 true sample_bootmem bounce_segs = (bm1, 0x101002) /\
    bootmem_allocate_buffer bm1 (0x101002 - 0x100000 + (0x101000 - 0x100000)) = (0x7effd000, bm2)).
  { eexists _, _. split; [vm_compute; reflexivity|vm_compute; reflexivity]. }
  destruct Em as (bm1 & bm2 & Em & Ea). rewrite Em in H. cbv zeta in H. rewrite Ea in H.
  change (ALIGN_UP 32 _ 4096) with 0x3000 in H.
  destruct H as [_ H]; [|lia|].
  { apply Forall_cons. split; [|constructor]. left. apply usable_correct; auto; cbn; try lia; by vm_compute. }
  destruct H as (m' & E & Hv & Hc); [lia|lia|unfold rom_base; lia| |].
  { apply Forall_cons. split; [|constructor]. split; [cbn; lia|]. intros _ Hc. by destruct Hc. }
  exists m', bm2. split; [exact E|]. split.
  - rewrite (map_ext_in _ (place_all (combine bounce_segs [[5; 6; 7; 8]])
      (view 0x100000 0x101000 0x7effd000 true (mem bounce_payload))) bounce_probes).
    + by vm_compute.
    + intros a Ha. unfold bounce_probes in Ha. apply Hv; simpl in Ha; lia.
  - rewrite Hc by lia. by vm_compute.
Defined.

(** A segment with an unknown compression: nothing is loaded, and the entry point is
    returned all the same. *)
Theorem selfload_unknown_compression :
  match selfload no_driver 0x7f000000 0x7f001000 true copy_fn copy_fn 8
          (sample_state [mk_payload_segment PAYLOAD_SEGMENT_CODE 7 56 0x200000 4 8; sample_entry] [5; 6; 7; 8])
          sample_bootmem payload_prog true with
  | Some (entry, _, _, s) => entry = 0x200004 /\ mem s 0x200000 = 67
  | None => False
  end.
Proof. by vm_compute. Qed.

(** A table whose second entry has an unknown type: the segments before it are loaded. *)
Theorem selfload_unknown_type :
  match selfload no_driver 0x7f000000 0x7f001000 true copy_fn copy_fn 8
          (sample_state [mk_payload_segment PAYLOAD_SEGMENT_CODE 0 56 0x200000 4 8;
                         mk_payload_segment 0x12345678 0 0 0 0 0] [5; 6; 7; 8])
          sample_bootmem payload_prog true with
  | Some (entry, _, _, s) => entry = 0 /\ mem s 0x200000 = 5
  | None => False
  end.
Proof. by vm_compute. Qed.

(** With a bounce buffer, a segment above it has its bytes copied behind coreboot too:
    here the zeros of a segment at the top of RAM reach 0x102000. *)
Definition high_payload : rstate (D := unit) :=
  sample_state [mk_payload_segment PAYLOAD_SEGMENT_BSS 0 0 0x7effd000 0 0x2000; sample_entry] [].
Theorem selfload_high_segment_clobbers :
  match selfload no_driver 0x100000 0x101000 false copy_fn copy_fn 8 high_payload sample_bootmem payload_prog true with
  | Some (entry, _, _, s) => entry = 0x200004 /\ mem high_payload 0x102000 = 66 /\ mem s 0x102000 = 0
  | None => False
  end.
Proof. by vm_compute. Qed.

(** The test for payloads below 1 MiB wraps: a segment of nearly 4 GiB passes it. *)
Theorem targets_ram_wraps :
  let seg := mk_segment 0xc0000 0xfffffe00 0xffff0000 0x200 0 in
  targets_ram sample_bootmem seg = true /\ overlaps_coreboot 0x7f000000 0x7f001000 seg = false /\
  s_dstaddr seg <= 0x7f000000 < s_dstaddr seg + s_memsz seg.
Proof. by vm_compute. Qed.
