(* ===== verification/BootState.v ===== *)
(** * The boot state machine ([src/lib/hardwaremain.c], [src/include/bootstate.h])

    Ramstage walks a fixed set of states; other code hooks callbacks into the
    entry and exit of each state and may block a phase.  Callback structures
    are pointers; the chains of a phase go through their [next] fields.

    What the machine calls is outside this file: it is a program ([prog])
    over an environment [D] that may call back into the machine. *)

From S2P Require Import Prelude TimerQueue.

Inductive boot_state_t :=
  | BS_PRE_DEVICE | BS_DEV_INIT_CHIPS | BS_DEV_ENUMERATE | BS_DEV_RESOURCES
  | BS_DEV_ENABLE | BS_DEV_INIT | BS_POST_DEVICE | BS_OS_RESUME_CHECK
  | BS_OS_RESUME | BS_WRITE_TABLES | BS_PAYLOAD_LOAD | BS_PAYLOAD_BOOT.

#[global] Instance boot_state_t_eq_dec : EqDecision boot_state_t.
Proof. solve_decision. Defined.

(** The value of the enumerator. *)
Definition state_num (s : boot_state_t) : Z :=
  match s with
  | BS_PRE_DEVICE => 0 | BS_DEV_INIT_CHIPS => 1 | BS_DEV_ENUMERATE => 2
  | BS_DEV_RESOURCES => 3 | BS_DEV_ENABLE => 4 | BS_DEV_INIT => 5
  | BS_POST_DEVICE => 6 | BS_OS_RESUME_CHECK => 7 | BS_OS_RESUME => 8
  | BS_WRITE_TABLES => 9 | BS_PAYLOAD_LOAD => 10 | BS_PAYLOAD_BOOT => 11
  end.

Inductive boot_state_sequence_t := BS_ON_ENTRY | BS_ON_EXIT.

#[global] Instance boot_state_sequence_t_eq_dec : EqDecision boot_state_sequence_t.
Proof. solve_decision. Defined.

Definition seq_num (q : boot_state_sequence_t) : Z :=
  match q with BS_ON_ENTRY => 0 | BS_ON_EXIT => 1 end.

(** ** Data *)

Record boot_phase := mk_phase { callbacks : option nat; blockers : Z }.

Definition MAX_TIME_SAMPLES : nat := 4.

(** [num_samples] indexes the array [samples] of [struct boot_state_times]. *)
Record boot_state_times := mk_times { num_samples : nat; samples : list mono_time }.

Record boot_state := mk_state
  { post_code : Z; phases : boot_state_sequence_t -> boot_phase; bs_arg : Z;
    complete : bool; times : boot_state_times }.

Definition BS_INIT (s : boot_state_t) : boot_state :=
  mk_state (0x70 + state_num s) (fun _ => mk_phase None 0) 0 false
    (mk_times 0 (repeat 0 MAX_TIME_SAMPLES)).

(** What the machine calls in other files. *)
Inductive ext_call :=
  | timestamp_add_now (ts : Z)
  | dev_initialize_chips | dev_enumerate | dev_configure | dev_enable
  | dev_initialize | dev_finalize | acpi_find_wakeup_vector
  | acpi_prepare_resume_backup | arch_bootstate_coreboot_exit
  | acpi_resume (vector : Z) | write_tables | dev_finalize_chips
  | payload_load | payload_run
  | boot_callback (bscb : nat)      (* [bscb->callback(bscb->arg)] *)
  | timer_callback (tocb : nat).    (* [tocb->callback(tocb)] *)

(** What other code calls in this one and in the timer queue. *)
Inductive api_call :=
  | sched_on_entry (bscb : nat) (s : boot_state_t)
  | sched_on_exit (bscb : nat) (s : boot_state_t)
  | block (s : boot_state_t) (q : boot_state_sequence_t)
  | unblock (s : boot_state_t) (q : boot_state_sequence_t)
  | current_block
  | current_unblock
  | sched_timer (tocb : nat) (us : Z).

(** Outside code: it returns a value, gives control away for good, or calls
    back and goes on with the result (and the environment, which a clock may
    have changed). *)
Inductive prog (D : Type) :=
  | ret (v : Z) (d : D)
  | hand_off (d : D)
  | call (d : D) (c : api_call) (k : Z -> D -> prog D).
Arguments ret {D}.
Arguments hand_off {D}.
Arguments call {D}.

Inductive event :=
  | Enter (s : boot_state_t) (q : boot_state_sequence_t)  (* a phase begins *)
  | Run (s : boot_state_t)                                (* [run_state] is called *)
  | Leave (s : boot_state_t) (q : boot_state_sequence_t)  (* a phase is over *)
  | Post (code : Z)
  | Called (bscb : nat)
  | Sched (bscb : nat) (s : boot_state_t) (q : boot_state_sequence_t) (accepted : bool).

Section Machine.
Context {D : Type}.
(** The code outside, and the clock. *)
Variable ext : ext_call -> D -> prog D.
Variable timer_monotonic_get : D -> mono_time * D.
Variable CONFIG_TIMER_QUEUE : bool.
Variable CONFIG_HAVE_ACPI_RESUME : bool.

Record machine := mk_machine
  { boot_states : boot_state_t -> boot_state;
    next : nat -> option nat;                 (* [bscb->next] *)
    current_phase : boot_state_t * boot_state_sequence_t;
    tmr : timers; env : D;
    log : list event                          (* newest first *) }.

Definition set_state (s : boot_state_t) (b : boot_state) (m : machine) : machine :=
  mk_machine (fun s' => if decide (s' = s) then b else boot_states m s') (next m)
    (current_phase m) (tmr m) (env m) (log m).
Definition set_next (p : nat) (n : option nat) (m : machine) : machine :=
  mk_machine (boot_states m) (fun p' => if decide (p' = p) then n else next m p')
    (current_phase m) (tmr m) (env m) (log m).
Definition set_current (c : boot_state_t * boot_state_sequence_t) (m : machine) : machine :=
  mk_machine (boot_states m) (next m) c (tmr m) (env m) (log m).
Definition set_tmr (t : timers) (m : machine) : machine :=
  mk_machine (boot_states m) (next m) (current_phase m) t (env m) (log m).
Definition set_env (d : D) (m : machine) : machine :=
  mk_machine (boot_states m) (next m) (current_phase m) (tmr m) d (log m).
Definition emit (e : event) (m : machine) : machine :=
  mk_machine (boot_states m) (next m) (current_phase m) (tmr m) (env m) (e :: log m).

Definition set_phase (s : boot_state_t) (q : boot_state_sequence_t) (ph : boot_phase)
    (m : machine) : machine :=
  let b := boot_states m s in
  set_state s (mk_state (post_code b)
    (fun q' => if decide (q' = q) then ph else phases b q') (bs_arg b) (complete b) (times b)) m.
Definition set_complete (s : boot_state_t) (m : machine) : machine :=
  let b := boot_states m s in
  set_state s (mk_state (post_code b) (phases b) (bs_arg b) true (times b)) m.
Definition set_arg (s : boot_state_t) (a : Z) (m : machine) : machine :=
  let b := boot_states m s in
  set_state s (mk_state (post_code b) (phases b) a (complete b) (times b)) m.

Definition get_phase (m : machine) (s : boot_state_t) (q : boot_state_sequence_t) : boot_phase :=
  phases (boot_states m s) q.

(** ** Scheduling and blocking *)

Definition boot_state_sched_callback (m : machine) (s : boot_state_t) (bscb : nat)
    (q : boot_state_sequence_t) : Z * machine :=
  if complete (boot_states m s) then (-1, emit (Sched bscb s q false) m)
  else
    let ph := get_phase m s q in
    let m := set_next bscb (callbacks ph) m in
    let m := set_phase s q (mk_phase (Some bscb) (blockers ph)) m in
    (0, emit (Sched bscb s q true) m).

Definition boot_state_sched_on_entry (m : machine) (bscb : nat) (s : boot_state_t) : Z * machine :=
  boot_state_sched_callback m s bscb BS_ON_ENTRY.
Definition boot_state_sched_on_exit (m : machine) (bscb : nat) (s : boot_state_t) : Z * machine :=
  boot_state_sched_callback m s bscb BS_ON_EXIT.

(** The test that opens [boot_state_block] and [boot_state_unblock]. *)
Definition already_ran (m : machine) (s : boot_state_t) (q : boot_state_sequence_t) : bool :=
  let '(cs, cq) := current_phase m in
  (state_num s <? state_num cs) || ((state_num cs =? state_num s) && (seq_num q <? seq_num cq)).

Definition boot_state_block (m : machine) (s : boot_state_t) (q : boot_state_sequence_t)
    : Z * machine :=
  if already_ran m s q then (-1, m)
  else
    let ph := get_phase m s q in
    (0, set_phase s q (mk_phase (callbacks ph) (s32 (blockers ph + 1))) m).

Definition boot_state_unblock (m : machine) (s : boot_state_t) (q : boot_state_sequence_t)
    : Z * machine :=
  if already_ran m s q then (-1, m)
  else
    let ph := get_phase m s q in
    if blockers ph =? 0 then (-1, m)
    else (0, set_phase s q (mk_phase (callbacks ph) (s32 (blockers ph - 1))) m).

Definition boot_state_current_block (m : machine) : machine :=
  let '(s, q) := current_phase m in snd (boot_state_block m s q).
Definition boot_state_current_unblock (m : machine) : machine :=
  let '(s, q) := current_phase m in snd (boot_state_unblock m s q).

Definition api (c : api_call) (m : machine) : Z * machine :=
  match c with
  | sched_on_entry p s => boot_state_sched_on_entry m p s
  | sched_on_exit p s => boot_state_sched_on_exit m p s
  | block s q => boot_state_block m s q
  | unblock s q => boot_state_unblock m s q
  | current_block => (0, boot_state_current_block m)
  | current_unblock => (0, boot_state_current_unblock m)
  | sched_timer t us =>
      let '(now, d) := timer_monotonic_get (env m) in
      let '(r, t') := timer_sched_callback (tmr m) now t us in
      (r, set_tmr t' (set_env d m))
  end.

(** Running outside code; [None] when it gives control away. *)
Fixpoint run_prog (p : prog D) (m : machine) : option Z * machine :=
  match p with
  | ret v d => (Some v, set_env d m)
  | hand_off d => (None, set_env d m)
  | call d c k => let '(r, m) := api c (set_env d m) in run_prog (k r (env m)) m
  end.

Definition call_ext (c : ext_call) (m : machine) : option Z * machine :=
  run_prog (ext c (env m)) m.
(** ** The states *)

(** Go on with the value, unless control was given away. *)
Definition bind {A} (r : option Z * machine) (k : Z -> machine -> option A * machine)
    : option A * machine :=
  match r with (Some v, m) => k v m | (None, m) => (None, m) end.
Local Notation "'do' v <- r ; k" := (bind r (fun v m => k m))
  (at level 10, v name, r at level 100, k at level 200).

Definition bs_pre_device (m : machine) : option boot_state_t * machine :=
  (Some BS_DEV_INIT_CHIPS, m).

Definition TS_DEVICE_ENUMERATE : Z := 30.
Definition TS_DEVICE_CONFIGURE : Z := 40.
Definition TS_DEVICE_ENABLE : Z := 50.
Definition TS_DEVICE_INITIALIZE : Z := 60.
Definition TS_DEVICE_DONE : Z := 70.
Definition TS_CBMEM_POST : Z := 75.
Definition TS_WRITE_TABLES : Z := 80.
Definition TS_FINALIZE_CHIPS : Z := 85.

Definition bs_dev_init_chips (m : machine) : option boot_state_t * machine :=
  do _ <- call_ext (timestamp_add_now TS_DEVICE_ENUMERATE) m; fun m =>
  do _ <- call_ext dev_initialize_chips m; fun m =>
  (Some BS_DEV_ENUMERATE, m).

Definition bs_dev_enumerate (m : machine) : option boot_state_t * machine :=
  do _ <- call_ext dev_enumerate m; fun m => (Some BS_DEV_RESOURCES, m).

Definition bs_dev_resources (m : machine) : option boot_state_t * machine :=
  do _ <- call_ext (timestamp_add_now TS_DEVICE_CONFIGURE) m; fun m =>
  do _ <- call_ext dev_configure m; fun m =>
  (Some BS_DEV_ENABLE, m).

Definition bs_dev_enable (m : machine) : option boot_state_t * machine :=
  do _ <- call_ext (timestamp_add_now TS_DEVICE_ENABLE) m; fun m =>
  do _ <- call_ext dev_enable m; fun m =>
  (Some BS_DEV_INIT, m).

Definition bs_dev_init (m : machine) : option boot_state_t * machine :=
  do _ <- call_ext (timestamp_add_now TS_DEVICE_INITIALIZE) m; fun m =>
  do _ <- call_ext dev_initialize m; fun m =>
  (Some BS_POST_DEVICE, m).

Definition bs_post_device (m : machine) : option boot_state_t * machine :=
  do _ <- call_ext dev_finalize m; fun m =>
  do _ <- call_ext (timestamp_add_now TS_DEVICE_DONE) m; fun m =>
  (Some BS_OS_RESUME_CHECK, m).

(** The part after the wake-up check. *)
Definition no_resume (m : machine) : option boot_state_t * machine :=
  do _ <- call_ext (timestamp_add_now TS_CBMEM_POST) m; fun m => (Some BS_WRITE_TABLES, m).

Definition bs_os_resume_check (m : machine) : option boot_state_t * machine :=
  if CONFIG_HAVE_ACPI_RESUME then
    do wake_vector <- call_ext acpi_find_wakeup_vector m; fun m =>
    if negb (wake_vector =? 0) then (Some BS_OS_RESUME, set_arg BS_OS_RESUME wake_vector m)
    else do _ <- call_ext acpi_prepare_resume_backup m; fun m => no_resume m
  else no_resume m.

Definition bs_os_resume (wake_vector : Z) (m : machine) : option boot_state_t * machine :=
  if CONFIG_HAVE_ACPI_RESUME then
    do _ <- call_ext arch_bootstate_coreboot_exit m; fun m =>
    do _ <- call_ext (acpi_resume wake_vector) m; fun m =>
    (Some BS_WRITE_TABLES, m)
  else (Some BS_WRITE_TABLES, m).

Definition bs_write_tables (m : machine) : option boot_state_t * machine :=
  do _ <- call_ext (timestamp_add_now TS_WRITE_TABLES) m; fun m =>
  do _ <- call_ext write_tables m; fun m =>
  do _ <- call_ext (timestamp_add_now TS_FINALIZE_CHIPS) m; fun m =>
  do _ <- call_ext dev_finalize_chips m; fun m =>
  (Some BS_PAYLOAD_LOAD, m).

Definition bs_payload_load (m : machine) : option boot_state_t * machine :=
  do _ <- call_ext payload_load m; fun m => (Some BS_PAYLOAD_BOOT, m).

Definition bs_payload_boot (m : machine) : option boot_state_t * machine :=
  do _ <- call_ext arch_bootstate_coreboot_exit m; fun m =>
  do _ <- call_ext payload_run m; fun m =>
  (Some BS_PAYLOAD_BOOT, m).

(** [state->run_state(state->arg)] through the table [boot_states]. *)
Definition run_state (s : boot_state_t) (m : machine) : option boot_state_t * machine :=
  match s with
  | BS_PRE_DEVICE => bs_pre_device m
  | BS_DEV_INIT_CHIPS => bs_dev_init_chips m
  | BS_DEV_ENUMERATE => bs_dev_enumerate m
  | BS_DEV_RESOURCES => bs_dev_resources m
  | BS_DEV_ENABLE => bs_dev_enable m
  | BS_DEV_INIT => bs_dev_init m
  | BS_POST_DEVICE => bs_post_device m
  | BS_OS_RESUME_CHECK => bs_os_resume_check m
  | BS_OS_RESUME => bs_os_resume (bs_arg (boot_states m BS_OS_RESUME)) m
  | BS_WRITE_TABLES => bs_write_tables m
  | BS_PAYLOAD_LOAD => bs_payload_load m
  | BS_PAYLOAD_BOOT => bs_payload_boot m
  end.

(** ** Walking *)

Definition bs_sample_time (s : boot_state_t) (m : machine) : machine :=
  let '(now, d) := timer_monotonic_get (env m) in
  let b := boot_states m s in
  let t := times b in
  set_state s (mk_state (post_code b) (phases b) (bs_arg b) (complete b)
    (mk_times (S (num_samples t)) (<[num_samples t := now]> (samples t)))) (set_env d m).

(** [bs_run_timers(0)], the only call: one [timers_run], whose result is not
    used.  What the called timer does reaches the whole machine. *)
Definition bs_run_timers (m : machine) : option Z * machine :=
  if CONFIG_TIMER_QUEUE then
    let '(now, d) := timer_monotonic_get (env m) in
    let '(tocb, _, t) := timers_run (fun _ s => s) (tmr m) now in
    let m := set_tmr t (set_env d m) in
    match tocb with
    | Some p => call_ext (timer_callback p) m
    | None => (Some 0, m)
    end
  else (Some 0, m).

(** One round of [while (1)] in [bs_call_callbacks]: the result says whether
    the loop goes on. *)
Definition bs_call_callbacks (s : boot_state_t) (q : boot_state_sequence_t) (m : machine)
    : option bool * machine :=
  let ph := get_phase m s q in
  match callbacks ph with
  | Some bscb =>
      let m := set_phase s q (mk_phase (next m bscb) (blockers ph)) m in
      let m := set_next bscb None m in
      do _ <- call_ext (boot_callback bscb) (emit (Called bscb) m); fun m => (Some true, m)
  | None =>
      if blockers ph =? 0 then (Some false, m)
      else do _ <- bs_run_timers m; fun m => (Some true, m)
  end.

(** Where [bs_walk_state_machine] is. *)
Inductive pc :=
  | Top                                                    (* head of the loop *)
  | Calling_entry (s : boot_state_t) (q : boot_state_sequence_t)
  | Running (s : boot_state_t)
  | Calling_exit (s : boot_state_t) (q : boot_state_sequence_t) (next_id : boot_state_t)
  | Died                                                   (* back in [main]: [die] *)
  | Gone.                                                  (* control given away *)

Definition walk_top (m : machine) : pc * machine :=
  let s := fst (current_phase m) in
  if complete (boot_states m s) then (Died, m)
  else
    match bs_run_timers m with
    | (None, m) => (Gone, m)
    | (Some _, m) =>
        let m := bs_sample_time s m in
        let q := snd (current_phase m) in
        (Calling_entry s q, emit (Enter s q) m)
    end.

(** After the entry callbacks, up to the call of [run_state]. *)
Definition walk_entered (s : boot_state_t) (q : boot_state_sequence_t) (m : machine) : pc * machine :=
  let m := emit (Leave s q) m in
  let m := set_current (fst (current_phase m), BS_ON_EXIT) m in
  let m := bs_sample_time s m in
  (Running s, emit (Post (post_code (boot_states m s))) m).

Definition walk_running (s : boot_state_t) (m : machine) : pc * machine :=
  match run_state s (emit (Run s) m) with
  | (None, m) => (Gone, m)
  | (Some next_id, m) =>
      let m := bs_sample_time s m in
      let q := snd (current_phase m) in
      (Calling_exit s q next_id, emit (Enter s q) m)
  end.

(** After the exit callbacks. *)
Definition walk_left (s : boot_state_t) (q : boot_state_sequence_t) (next_id : boot_state_t)
    (m : machine) : pc * machine :=
  let m := emit (Leave s q) m in
  let m := set_current (next_id, BS_ON_ENTRY) m in
  let m := bs_sample_time s m in
  (Top, set_complete s m).

(** One step of [bs_walk_state_machine]. *)
Definition bs_walk_state_machine (c : pc * machine) : pc * machine :=
  let '(p, m) := c in
  match p with
  | Top => walk_top m
  | Calling_entry s q =>
      match bs_call_callbacks s q m with
      | (None, m) => (Gone, m)
      | (Some true, m) => (Calling_entry s q, m)
      | (Some false, m) => walk_entered s q m
      end
  | Running s => walk_running s m
  | Calling_exit s q next_id =>
      match bs_call_callbacks s q m with
      | (None, m) => (Gone, m)
      | (Some true, m) => (Calling_exit s q next_id, m)
      | (Some false, m) => walk_left s q next_id m
      end
  | Died | Gone => c
  end.

Definition boot_state_schedule_static_entries
    (entries : list (boot_state_t * boot_state_sequence_t * nat)) (m : machine) : machine :=
  fold_left (fun m '(s, when, bscb) =>
    match when with
    | BS_ON_ENTRY => snd (boot_state_sched_on_entry m bscb s)
    | BS_ON_EXIT => snd (boot_state_sched_on_exit m bscb s)
    end) entries m.

(** The data segment at the start of ramstage. *)
Definition init_machine (d : D) : machine :=
  mk_machine BS_INIT (fun _ => None) (BS_PRE_DEVICE, BS_ON_ENTRY)
    (mk_timers empty_queue (fun _ => 0)) d [].

(** [main] from the static entries on. *)
Definition main (entries : list (boot_state_t * boot_state_sequence_t * nat)) (d : D)
    : pc * machine :=
  (Top, boot_state_schedule_static_entries entries (init_machine d)).

Definition walk (n : nat) (c : pc * machine) : pc * machine := Nat.iter n bs_walk_state_machine c.
(** ** Specification: the documented flow *)

(** The transitions of [bootstate.h], and that from [BS_OS_RESUME] to [BS_WRITE_TABLES],
    which the diagram leaves open and [bs_os_resume] takes when the hand-off returns; the
    last state returns to itself, which stops the walk. *)
Definition succs (s : boot_state_t) : list boot_state_t :=
  match s with
  | BS_PRE_DEVICE => [BS_DEV_INIT_CHIPS]
  | BS_DEV_INIT_CHIPS => [BS_DEV_ENUMERATE]
  | BS_DEV_ENUMERATE => [BS_DEV_RESOURCES]
  | BS_DEV_RESOURCES => [BS_DEV_ENABLE]
  | BS_DEV_ENABLE => [BS_DEV_INIT]
  | BS_DEV_INIT => [BS_POST_DEVICE]
  | BS_POST_DEVICE => [BS_OS_RESUME_CHECK]
  | BS_OS_RESUME_CHECK => [BS_OS_RESUME; BS_WRITE_TABLES]
  | BS_OS_RESUME => [BS_WRITE_TABLES]
  | BS_WRITE_TABLES => [BS_PAYLOAD_LOAD]
  | BS_PAYLOAD_LOAD => [BS_PAYLOAD_BOOT]
  | BS_PAYLOAD_BOOT => [BS_PAYLOAD_BOOT]
  end.

Definition device_states : list boot_state_t :=
  [BS_PRE_DEVICE; BS_DEV_INIT_CHIPS; BS_DEV_ENUMERATE; BS_DEV_RESOURCES; BS_DEV_ENABLE;
   BS_DEV_INIT; BS_POST_DEVICE; BS_OS_RESUME_CHECK].
Definition payload_states : list boot_state_t := [BS_WRITE_TABLES; BS_PAYLOAD_LOAD; BS_PAYLOAD_BOOT].
Definition normal_path : list boot_state_t := device_states ++ payload_states.
Definition resume_path : list boot_state_t := device_states ++ BS_OS_RESUME :: payload_states.

(** The events of one state, in order. *)
Definition visit (s : boot_state_t) : list event :=
  [Enter s BS_ON_ENTRY; Leave s BS_ON_ENTRY; Run s; Enter s BS_ON_EXIT; Leave s BS_ON_EXIT].

Definition is_phase (e : event) : bool :=
  match e with Enter _ _ | Run _ | Leave _ _ => true | _ => false end.
(** The walk's own events, oldest first. *)
Definition phase_events (m : machine) : list event := rev (List.filter is_phase (log m)).

(** ** Lemmas: what outside code cannot change *)

Definition frame (m m' : machine) : Prop :=
  current_phase m' = current_phase m /\
  (forall s, complete (boot_states m' s) = complete (boot_states m s) /\
             times (boot_states m' s) = times (boot_states m s)) /\
  List.filter is_phase (log m') = List.filter is_phase (log m) /\
  (forall s q, already_ran m s q = true ->
     blockers (get_phase m' s q) = blockers (get_phase m s q)).

Lemma frame_refl m : frame m m.
Proof. done. Qed.

Lemma already_ran_ext m m' s q :
  current_phase m' = current_phase m -> already_ran m' s q = already_ran m s q.
Proof. unfold already_ran. by intros ->. Qed.

Lemma frame_trans m1 m2 m3 : frame m1 m2 -> frame m2 m3 -> frame m1 m3.
Proof.
  intros (C1 & S1 & L1 & B1) (C2 & S2 & L2 & B2). split; [congruence|]. split; [|split].
  - intros s. destruct (S1 s), (S2 s). split; congruence.
  - congruence.
  - intros s q H. rewrite B2, B1; [done|done|]. by rewrite (already_ran_ext m1).
Qed.

(** Whatever every interface call keeps, outside code keeps. *)
Lemma run_prog_inv (P : machine -> Prop) :
  (forall d m, P m -> P (set_env d m)) -> (forall c m, P m -> P (snd (api c m))) ->
  forall p m, P m -> P (snd (run_prog p m)).
Proof.
  intros He Ha. induction p as [v d|d|d c k IH]; intros m Hm; simpl; auto.
  pose proof (Ha c (set_env d m) (He _ _ Hm)). destruct (api c (set_env d m)) as [r m'].
  by apply IH.
Qed.

Lemma set_phase_frame m s q ph :
  (already_ran m s q = true -> blockers ph = blockers (get_phase m s q)) ->
  frame m (set_phase s q ph m).
Proof.
  intros H. split; [done|]. split; [|split; [done|]].
  - intros s'. simpl. by destruct (decide (s' = s)) as [->|].
  - intros s' q' Hr. unfold get_phase, set_phase. simpl.
    destruct (decide (s' = s)) as [->|]; [|done].
    simpl. destruct (decide (q' = q)) as [->|]; [exact (H Hr)|done].
Qed.

Lemma sched_frame m s p q : frame m (snd (boot_state_sched_callback m s p q)).
Proof.
  unfold boot_state_sched_callback. case_bool; simpl; [done|].
  apply (frame_trans _ (set_next p (callbacks (get_phase m s q)) m)); [done|].
  by apply (set_phase_frame (set_next p (callbacks (get_phase m s q)) m) s q).
Qed.

Lemma block_frame m s q : frame m (snd (boot_state_block m s q)).
Proof.
  unfold boot_state_block. case_bool; simpl; [done|]. apply set_phase_frame. congruence.
Qed.

Lemma unblock_frame m s q : frame m (snd (boot_state_unblock m s q)).
Proof.
  unfold boot_state_unblock. case_bool; simpl; [done|]. case_bool; simpl; [done|].
  apply set_phase_frame. congruence.
Qed.

Lemma api_frame c m : frame m (snd (api c m)).
Proof.
  destruct c; simpl; try apply sched_frame; try apply block_frame; try apply unblock_frame.
  - unfold boot_state_current_block. destruct (current_phase m). apply block_frame.
  - unfold boot_state_current_unblock. destruct (current_phase m). apply unblock_frame.
  - destruct (timer_monotonic_get (env m)) as [now d].
    by destruct (timer_sched_callback (tmr m) now tocb us) as [r t].
Qed.

Lemma call_ext_frame c m : frame m (snd (call_ext c m)).
Proof.
  unfold call_ext. apply (run_prog_inv (frame m)); [| |apply frame_refl].
  - intros d m' H. exact (frame_trans _ _ _ H ltac:(done)).
  - intros c' m' H. exact (frame_trans _ _ _ H (api_frame c' m')).
Qed.
Lemma bs_run_timers_frame m : frame m (snd (bs_run_timers m)).
Proof.
  unfold bs_run_timers. destruct CONFIG_TIMER_QUEUE; [|apply frame_refl].
  destruct (timer_monotonic_get (env m)) as [now d].
  destruct (timers_run _ (tmr m) now) as [[[p|] more] t]; [|done].
  by apply (frame_trans _ (set_tmr t (set_env d m))); [|apply call_ext_frame].
Qed.

Lemma set_arg_frame s a m : frame m (set_arg s a m).
Proof.
  split; [done|]. split; [|split; [done|]].
  - intros s'. simpl. by destruct (decide (s' = s)) as [->|].
  - intros s' q _. unfold get_phase. simpl. by destruct (decide (s' = s)) as [->|].
Qed.

(** A continuation after outside code: the frame and the result. *)
Lemma bind_frame {A} (P : option A -> Prop) m r (k : Z -> machine -> option A * machine) :
  frame m (snd r) -> P None ->
  (forall v m', frame m m' -> frame m (snd (k v m')) /\ P (fst (k v m'))) ->
  frame m (snd (bind r k)) /\ P (fst (bind r k)).
Proof. destruct r as [[v|] m']; simpl; auto. Qed.

Lemma run_state_frame s m :
  frame m (snd (run_state s m)) /\
  match fst (run_state s m) with Some n => n ∈ succs s | None => True end.
Proof.
  pose (P := fun o => match o with Some n => n ∈ succs s | None => True end).
  change (frame m (snd (run_state s m)) /\ P (fst (run_state s m))).
  assert (Hk : forall c m', frame m m' -> frame m (snd (call_ext c m')))
    by (intros c m' H; exact (frame_trans _ _ _ H (call_ext_frame c m'))).
  destruct s; cbn [run_state];
    unfold bs_pre_device, bs_dev_init_chips, bs_dev_enumerate, bs_dev_resources, bs_dev_enable,
      bs_dev_init, bs_post_device, bs_os_resume_check, bs_os_resume, no_resume, bs_write_tables,
      bs_payload_load, bs_payload_boot; try destruct CONFIG_HAVE_ACPI_RESUME;
    repeat (apply bind_frame; [eauto using frame_refl|exact I|intros ? ? ?]);
    try case_bool;
    repeat (apply bind_frame; [eauto using frame_refl|exact I|intros ? ? ?]);
    (split; [eauto using frame_refl, frame_trans, set_arg_frame|simpl; set_solver]).
Qed.

Lemma bs_call_callbacks_frame s q m : frame m (snd (bs_call_callbacks s q m)).
Proof.
  unfold bs_call_callbacks. destruct (callbacks _) as [p|] eqn:E.
  - apply (bind_frame (fun _ => True)); [|done|done].
    refine (frame_trans _ _ _ _ (call_ext_frame _ _)).
    by apply (frame_trans _ (set_phase s q (mk_phase (next m p) (blockers (get_phase m s q))) m));
      [apply set_phase_frame|].
  - case_bool; [done|]. apply (bind_frame (fun _ => True)); [apply bs_run_timers_frame|done|done].
Qed.
(** ** The invariant of the walk *)

(** How far the walk can be: the states done and the current one. *)
Definition flows : list (list boot_state_t * boot_state_t) :=
  flat_map (fun path =>
    map (fun i => (take i path, nth i path BS_PAYLOAD_BOOT)) (seq 0 (S (length path))))
    [normal_path; resume_path].

Lemma flows_step l s s' : (l, s) ∈ flows -> s ∉ l -> s' ∈ succs s -> (l ++ [s], s') ∈ flows.
Proof.
  intros Hf Hn Hs.
  assert (H : Forall (fun '(l, s) => s ∈ l \/ Forall (fun s' => (l ++ [s], s') ∈ flows) (succs s))
                flows) by (apply (bool_decide_unpack _); by vm_compute).
  rewrite Forall_forall in H. destruct (H _ Hf) as [|H']; [done|].
  rewrite Forall_forall in H'. by apply H'.
Qed.

Lemma flows_num l s s' : (l, s) ∈ flows -> s ∉ l -> s' ∈ l -> state_num s' < state_num s.
Proof.
  intros Hf Hn Hs.
  assert (H : Forall (fun '(l, s) => s ∈ l \/ Forall (fun s' => state_num s' < state_num s) l) flows)
    by (apply (bool_decide_unpack _); by vm_compute).
  rewrite Forall_forall in H. destruct (H _ Hf) as [|H']; [done|].
  rewrite Forall_forall in H'. by apply H'.
Qed.

Lemma flows_path l s : (l, s) ∈ flows ->
  exists path, path ∈ [normal_path; resume_path] /\
    (s ∉ l -> (l ++ [s]) `prefix_of` path) /\ (s ∈ l -> l = path).
Proof.
  intros Hf.
  assert (H : Forall (fun '(l, s) => Exists (fun path =>
       (s ∈ l \/ (l ++ [s]) `prefix_of` path) /\ (s ∉ l \/ l = path)) [normal_path; resume_path])
     flows) by (apply (bool_decide_unpack _); by vm_compute).
  rewrite Forall_forall in H. specialize (H _ Hf). cbn beta iota in H.
  rewrite Exists_exists in H. destruct H as (path & Hp & H1 & H2).
  exists path. split; [done|]. split; intros ?; [by destruct H1|by destruct H2].
Qed.

Definition samples_taken (finished : list boot_state_t) (cur : boot_state_t) (j : nat)
    (s : boot_state_t) : nat :=
  if decide (s ∈ finished) then 4 else if decide (s = cur) then j else 0.

(** [k] events and [j] time samples of the current state so far. *)
Definition base (finished : list boot_state_t) (cur : boot_state_t) (k j : nat) (m : machine) : Prop :=
  (finished, cur) ∈ flows /\
  phase_events m = flat_map visit finished ++ take k (visit cur) /\
  (forall s, complete (boot_states m s) = true <-> s ∈ finished) /\
  (forall s, num_samples (times (boot_states m s)) = samples_taken finished cur j s /\
             length (samples (times (boot_states m s))) = MAX_TIME_SAMPLES) /\
  (forall s q, Leave s q ∈ log m -> blockers (get_phase m s q) = 0).

Definition walk_inv (c : pc * machine) : Prop :=
  let '(p, m) := c in
  exists finished cur,
  match p with
  | Top => base finished cur 0 0 m /\ current_phase m = (cur, BS_ON_ENTRY)
  | Calling_entry s q => base finished cur 1 1 m /\ current_phase m = (cur, BS_ON_ENTRY) /\
      s = cur /\ q = BS_ON_ENTRY /\ cur ∉ finished
  | Running s => base finished cur 2 2 m /\ current_phase m = (cur, BS_ON_EXIT) /\
      s = cur /\ cur ∉ finished
  | Calling_exit s q n => base finished cur 4 3 m /\ current_phase m = (cur, BS_ON_EXIT) /\
      s = cur /\ q = BS_ON_EXIT /\ n ∈ succs cur /\ cur ∉ finished
  | Died => base finished cur 0 0 m /\ current_phase m = (cur, BS_ON_ENTRY) /\ cur ∈ finished
  | Gone => exists k j, base finished cur k j m /\ (j <= 4)%nat /\ cur ∉ finished
  end.

Lemma leave_phase_events m s q : Leave s q ∈ log m <-> Leave s q ∈ phase_events m.
Proof.
  unfold phase_events. rewrite (list_elem_of_In (rev _)), <- in_rev, <- list_elem_of_In, elem_of_filter_bool.
  simpl. tauto.
Qed.
(** A phase that is over counts as already run. *)
Lemma left_ran done cur k j m s q :
  base done cur k j m -> cur ∉ done -> fst (current_phase m) = cur ->
  ((k <= 1)%nat \/ snd (current_phase m) = BS_ON_EXIT) -> (k <= 4)%nat ->
  Leave s q ∈ log m -> already_ran m s q = true.
Proof.
  intros (Hf & Hev & _) Hn Hc Hk Hk4. rewrite leave_phase_events, Hev, elem_of_app.
  unfold already_ran. destruct (current_phase m) as [cs cq]; simpl in Hc, Hk; subst cs.
  intros [H|H].
  - rewrite list_elem_of_In, in_flat_map in H. destruct H as (s' & Hs' & H).
    rewrite <- list_elem_of_In in Hs'. simpl in H.
    assert (s' = s) as -> by (destruct H as [[=]|[[=]|[[=]|[[=]|[[=]|[]]]]]]; congruence).
    pose proof (flows_num _ _ _ Hf Hn Hs'). apply orb_true_iff. left. by apply Z.ltb_lt.
  - destruct k as [|[|[|[|[|k]]]]]; [| | | | |lia]; simpl in H;
      rewrite list_elem_of_In in H; simpl in H;
      decompose [or] H; try done; simplify_eq/=; (destruct Hk as [Hk|Hk]; [lia|]; subst cq);
      rewrite Z.eqb_refl; simpl; apply orb_true_r.
Qed.

Lemma base_frame done cur k j m m' :
  frame m m' -> base done cur k j m ->
  (forall s q, Leave s q ∈ log m -> already_ran m s q = true) -> base done cur k j m'.
Proof.
  intros (_ & Hs & Hl & Hb) (Hf & Hev & Hcm & Hns & Hbl) Hr.
  assert (Hph : phase_events m' = phase_events m) by (unfold phase_events; by rewrite Hl).
  split; [done|]. split; [congruence|]. split; [|split].
  - intros s. by rewrite (proj1 (Hs s)).
  - intros s. by rewrite (proj2 (Hs s)).
  - intros s q H. rewrite leave_phase_events, Hph, <- leave_phase_events in H.
    rewrite Hb by auto. by apply Hbl.
Qed.

Lemma base_other done cur k j m e :
  is_phase e = false -> base done cur k j m -> base done cur k j (emit e m).
Proof.
  intros He (Hf & Hev & Hcm & Hns & Hbl). split; [done|].
  split; [unfold phase_events in *; simpl; by rewrite He|]. split; [done|]. split; [done|].
  intros s q H. simpl in H. rewrite elem_of_cons in H. destruct H as [<-|H]; [done|by apply Hbl].
Qed.

Lemma base_event done cur k j m e :
  take (S k) (visit cur) = take k (visit cur) ++ [e] -> is_phase e = true ->
  (forall s q, e = Leave s q -> blockers (get_phase m s q) = 0) ->
  base done cur k j m -> base done cur (S k) j (emit e m).
Proof.
  intros Ht He Hb (Hf & Hev & Hcm & Hns & Hbl). split; [done|]. split; [|split; [done|split; [done|]]].
  - unfold phase_events in *. cbn [log emit]. simpl List.filter. rewrite He. cbn [rev].
    by rewrite Hev, Ht, app_assoc.
  - intros s q H. simpl in H. rewrite elem_of_cons in H.
    destruct H as [<-|H]; [by apply Hb|by apply Hbl].
Qed.

Lemma base_sample done cur k j m :
  cur ∉ done -> base done cur k j m -> base done cur k (S j) (bs_sample_time cur m).
Proof.
  intros Hn (Hf & Hev & Hcm & Hns & Hbl). unfold bs_sample_time.
  destruct (timer_monotonic_get (env m)) as [now d]. split; [done|]. split; [done|].
  split; [|split].
  - intros s. simpl. rewrite <- Hcm. by destruct (decide (s = cur)) as [->|].
  - intros s. simpl. destruct (Hns s) as [H1 H2]. destruct (decide (s = cur)) as [->|Hne]; simpl.
    + rewrite H1, length_insert. split; [|done]. unfold samples_taken.
      rewrite !(decide_False (P:=cur ∈ done)) by done. by rewrite !decide_True by done.
    + rewrite H1. split; [|done]. unfold samples_taken. destruct (decide (s ∈ done)); [done|].
      by rewrite !(decide_False (P:=s = cur)) by done.
  - intros s q H. rewrite <- (Hbl s q H). unfold get_phase. simpl.
    by destruct (decide (s = cur)) as [->|].
Qed.

Lemma base_complete done cur next_id m :
  cur ∉ done -> next_id ∈ succs cur -> base done cur 5 4 m ->
  base (done ++ [cur]) next_id 0 0 (set_complete cur m).
Proof.
  intros Hn Hs (Hf & Hev & Hcm & Hns & Hbl). split; [by apply flows_step|]. split; [|split; [|split]].
  - change (phase_events (set_complete cur m)) with (phase_events m).
    rewrite Hev, flat_map_app. simpl. by rewrite !app_nil_r.
  - intros s. rewrite elem_of_app, list_elem_of_singleton. simpl.
    destruct (decide (s = cur)) as [->|]; simpl; [tauto|]. rewrite Hcm. tauto.
  - intros s. destruct (Hns s) as [H1 H2]. simpl.
    assert (Ht : num_samples (times (boot_states m s)) = samples_taken (done ++ [cur]) next_id 0 s).
    { rewrite H1. unfold samples_taken. destruct (decide (s ∈ done)) as [H|H].
      - by rewrite decide_True by (apply elem_of_app; by left).
      - destruct (decide (s = cur)) as [->|Hne].
        + by rewrite decide_True by (apply elem_of_app; right; by apply list_elem_of_singleton).
        + rewrite decide_False by (rewrite elem_of_app, list_elem_of_singleton; tauto).
          by destruct (decide (s = next_id)). }
    by destruct (decide (s = cur)) as [->|].
  - intros s q H. rewrite <- (Hbl s q H). unfold get_phase. simpl.
    by destruct (decide (s = cur)) as [->|].
Qed.
(** Outside code at a place of the walk where it may run. *)
Lemma base_outside done cur k j m m' :
  frame m m' -> base done cur k j m -> cur ∉ done -> fst (current_phase m) = cur ->
  ((k <= 1)%nat \/ snd (current_phase m) = BS_ON_EXIT) -> (k <= 4)%nat -> base done cur k j m'.
Proof. intros Hfr Hb Hn Hc Hk Hk4. eauto using base_frame, left_ran. Qed.

Lemma bs_sample_time_fields s m :
  current_phase (bs_sample_time s m) = current_phase m /\ log (bs_sample_time s m) = log m /\
  next (bs_sample_time s m) = next m /\
  forall s' q, get_phase (bs_sample_time s m) s' q = get_phase m s' q.
Proof.
  unfold bs_sample_time. destruct (timer_monotonic_get (env m)). split; [done|]. split; [done|].
  split; [done|]. intros s' q. unfold get_phase. simpl. by destruct (decide (s' = s)) as [->|].
Qed.

Lemma base_top done cur m : base done cur 0 0 m -> current_phase m = (cur, BS_ON_ENTRY) ->
  walk_inv (walk_top m).
Proof.
  intros Hb Hc. unfold walk_top. rewrite Hc. cbn [fst].
  destruct (complete (boot_states m cur)) eqn:E.
  - exists done, cur. split; [done|]. split; [done|]. by apply Hb.
  - assert (Hn : cur ∉ done).
    { intros H. apply (proj1 (proj2 (proj2 Hb))) in H. congruence. }
    pose proof (bs_run_timers_frame m) as Hfr. destruct (bs_run_timers m) as [r m'].
    simpl in Hfr. assert (Hb' : base done cur 0 0 m').
    { apply (base_outside _ _ _ _ _ _ Hfr Hb Hn); [by rewrite Hc|left; lia|lia]. }
    destruct r as [v|]; [|by exists done, cur, 0%nat, 0%nat; eauto with lia].
    pose proof (bs_sample_time_fields cur m') as (Hsc & _).
    rewrite Hsc, (proj1 Hfr), Hc. exists done, cur. cbn [current_phase emit snd].
    rewrite Hsc, (proj1 Hfr), Hc. split; [|done].
    apply base_event; [done|done|done|]. by apply base_sample.
Qed.

(** A round of callbacks: it either goes on, or the phase is empty. *)
Lemma callbacks_round s q m :
  match bs_call_callbacks s q m with
  | (Some false, m') =>
      m' = m /\ callbacks (get_phase m s q) = None /\ blockers (get_phase m s q) = 0
  | (_, m') => frame m m'
  end.
Proof.
  pose proof (bs_call_callbacks_frame s q m) as Hf. unfold bs_call_callbacks in *.
  destruct (callbacks (get_phase m s q)) as [p|].
  - by destruct (call_ext _ _) as [[v|] m'].
  - destruct (blockers _ =? 0) eqn:E; [bool_to_prop; done|].
    by destruct (bs_run_timers m) as [[v|] m'].
Qed.

Lemma base_entered done cur m :
  base done cur 1 1 m -> current_phase m = (cur, BS_ON_ENTRY) -> cur ∉ done ->
  blockers (get_phase m cur BS_ON_ENTRY) = 0 ->
  walk_inv (walk_entered cur BS_ON_ENTRY m).
Proof.
  intros Hb Hc Hn Hbl. exists done, cur. unfold walk_entered.
  split; [|split; [|done]].
  - apply base_other; [done|]. apply base_sample; [done|].
    apply (base_event _ _ 1 1 m); [done|done| |done]. by intros s q [= <- <-].
  - cbn [current_phase emit]. rewrite (proj1 (bs_sample_time_fields _ _)). cbn. by rewrite Hc.
Qed.

Lemma base_running done cur m :
  base done cur 2 2 m -> current_phase m = (cur, BS_ON_EXIT) -> cur ∉ done ->
  walk_inv (walk_running cur m).
Proof.
  intros Hb Hc Hn. unfold walk_running.
  assert (Hb1 : base done cur 3 2 (emit (Run cur) m)) by by apply base_event.
  pose proof (run_state_frame cur (emit (Run cur) m)) as [Hfr Hs].
  destruct (run_state cur (emit (Run cur) m)) as [r m'] eqn:E. simpl in Hfr, Hs.
  assert (Hb' : base done cur 3 2 m').
  { apply (base_outside _ _ _ _ _ _ Hfr Hb1 Hn); [by simpl; rewrite Hc|right; simpl; by rewrite Hc|lia]. }
  destruct r as [n|]; [|by exists done, cur, 3%nat, 2%nat; eauto with lia].
  pose proof (bs_sample_time_fields cur m') as (Hsc & _).
  pose proof (proj1 Hfr) as Hcur. simpl in Hcur. rewrite Hsc, Hcur, Hc.
  exists done, cur. cbn [current_phase emit snd]. rewrite Hsc, Hcur, Hc. split; [|done].
  apply base_event; [done|done|done|]. by apply base_sample.
Qed.

Lemma base_left done cur n m :
  base done cur 4 3 m -> cur ∉ done -> n ∈ succs cur ->
  blockers (get_phase m cur BS_ON_EXIT) = 0 ->
  walk_inv (walk_left cur BS_ON_EXIT n m).
Proof.
  intros Hb Hn Hs Hbl. exists (done ++ [cur]), n. unfold walk_left. split.
  - apply base_complete; [done|done|]. apply base_sample; [done|].
    apply (base_event _ _ 4 3 m); [done|done| |done]. by intros s q [= <- <-].
  - unfold set_complete, set_state. cbn [current_phase].
    by rewrite (proj1 (bs_sample_time_fields _ _)).
Qed.

Lemma walk_inv_step c : walk_inv c -> walk_inv (bs_walk_state_machine c).
Proof.
  destruct c as [p m]. intros (done & cur & H). destruct p as [|s q|s|s q n| |]; simpl.
  - by apply (base_top done cur); apply H.
  - destruct H as (Hb & Hc & -> & -> & Hn).
    pose proof (callbacks_round cur BS_ON_ENTRY m) as Hr.
    destruct (bs_call_callbacks cur BS_ON_ENTRY m) as [[[|]|] m'].
    + exists done, cur. rewrite (proj1 Hr). split; [|done].
      apply (base_outside _ _ _ _ _ _ Hr Hb Hn); [by rewrite Hc|left; lia|lia].
    + destruct Hr as (-> & _ & Hbl). by apply (base_entered done).
    + exists done, cur, 1%nat, 1%nat. split; [|eauto with lia].
      apply (base_outside _ _ _ _ _ _ Hr Hb Hn); [by rewrite Hc|left; lia|lia].
  - destruct H as (Hb & Hc & -> & Hn). by apply (base_running done).
  - destruct H as (Hb & Hc & -> & -> & Hs & Hn).
    pose proof (callbacks_round cur BS_ON_EXIT m) as Hr.
    destruct (bs_call_callbacks cur BS_ON_EXIT m) as [[[|]|] m'].
    + exists done, cur. rewrite (proj1 Hr). split; [|done].
      apply (base_outside _ _ _ _ _ _ Hr Hb Hn); [by rewrite Hc|right; by rewrite Hc|lia].
    + destruct Hr as (-> & _ & Hbl). by apply (base_left done).
    + exists done, cur, 4%nat, 3%nat. split; [|eauto with lia].
      apply (base_outside _ _ _ _ _ _ Hr Hb Hn); [by rewrite Hc|right; by rewrite Hc|lia].
  - by exists done, cur.
  - by exists done, cur.
Qed.

Lemma static_frame entries m : frame m (boot_state_schedule_static_entries entries m).
Proof.
  unfold boot_state_schedule_static_entries. revert m.
  induction entries as [|[[s w] p] l IH]; intros m; [apply frame_refl|]. simpl.
  refine (frame_trans _ _ _ _ (IH _)). destruct w; apply sched_frame.
Qed.

(** The places of the walk together. *)
Lemma walk_place p m : walk_inv (p, m) ->
  exists finished cur k j, base finished cur k j m /\ (j <= 4)%nat /\
    (p <> Gone -> fst (current_phase m) = cur /\
       ((k <= 1)%nat \/ snd (current_phase m) = BS_ON_EXIT) /\ (k <= 4)%nat) /\
    (p = Died -> cur ∈ finished) /\ (cur ∈ finished -> k = 0%nat).
Proof.
  intros (finished & cur & H). exists finished, cur.
  assert (Hplace : forall k j, base finished cur k j m -> (j <= 4)%nat -> (k <= 4)%nat ->
    fst (current_phase m) = cur -> ((k <= 1)%nat \/ snd (current_phase m) = BS_ON_EXIT) ->
    (p = Died -> cur ∈ finished) -> (cur ∈ finished -> k = 0%nat) ->
    exists k j, base finished cur k j m /\ (j <= 4)%nat /\
      (p <> Gone -> fst (current_phase m) = cur /\
       ((k <= 1)%nat \/ snd (current_phase m) = BS_ON_EXIT) /\ (k <= 4)%nat) /\
      (p = Died -> cur ∈ finished) /\ (cur ∈ finished -> k = 0%nat)).
  { intros k j Hb Hj Hk Hc Hs Hd Hf. exists k, j. auto 10. }
  destruct p; [| | | | |destruct H as (k & j & Hb & Hj & Hn); exists k, j; naive_solver];
    destruct H as [Hb H]; first [pose proof (proj1 H) as Hc|rename H into Hc];
    (eapply Hplace; [exact Hb|lia|lia|by rewrite Hc| |naive_solver|naive_solver]);
    rewrite Hc; simpl; auto with lia.
Qed.

Lemma walk_inv_walk n entries d : walk_inv (walk n (main entries d)).
Proof.
  unfold walk. induction n as [|n IH]; simpl; [|by apply walk_inv_step].
  exists [], BS_PRE_DEVICE. pose proof (static_frame entries (init_machine d)) as Hfr.
  split; [|by rewrite (proj1 Hfr)]. apply (base_frame _ _ _ _ _ _ Hfr).
  - split; [by left|]. split; [done|]. split; [|split; [|by intros ? ? ?%not_elem_of_nil]].
    + intros s. split; [done|]. by intros ?%not_elem_of_nil.
    + intros s. split; [|done]. unfold samples_taken. simpl.
      by destruct (decide (s = BS_PRE_DEVICE)).
  - by intros ? ? ?%not_elem_of_nil.
Qed.
(** ** Callbacks *)

Definition accepted_of (e : event) : option nat :=
  match e with Sched p _ _ true => Some p | _ => None end.
Definition called_of (e : event) : option nat :=
  match e with Called p => Some p | _ => None end.

(** The structures scheduled and called so far. *)
Definition accepted (l : list event) : list nat := omap accepted_of l.
Definition called (l : list event) : list nat := omap called_of l.

(** What the log may say, event by event, against the older part [l]. *)
Definition good_event (e : event) (l : list event) : Prop :=
  match e with
  | Called p => (Called p ∉ l) /\
      exists s q, Sched p s q true ∈ l /\ Enter s q ∈ l /\ Leave s q ∉ l
  | Leave s q => forall p, Sched p s q true ∈ l -> Called p ∈ l
  | _ => True
  end.
Fixpoint good_log (l : list event) : Prop :=
  match l with [] => True | e :: l' => good_event e l' /\ good_log l' end.

(** The chain of [next] fields from [h]. *)
Fixpoint chain (nxt : nat -> option nat) (h : option nat) (l : list nat) : Prop :=
  match l with [] => h = None | p :: l' => h = Some p /\ chain nxt (nxt p) l' end.

Definition cb_inv (Q : boot_state_t -> boot_state_sequence_t -> list nat) (m : machine) : Prop :=
  (forall s q, chain (next m) (callbacks (get_phase m s q)) (Q s q)) /\
  (forall s q, NoDup (Q s q)) /\
  (forall p s q, p ∈ Q s q <-> Sched p s q true ∈ log m /\ Called p ∉ log m).

(** While no structure is scheduled twice, the chains are the callbacks
    scheduled and not yet called. *)
Definition cb_ok (m : machine) : Prop :=
  NoDup (accepted (log m)) -> good_log (log m) /\ exists Q, cb_inv Q m.

Lemma elem_accepted p l : p ∈ accepted l <-> exists s q, Sched p s q true ∈ l.
Proof.
  unfold accepted. rewrite list_elem_of_omap. split.
  - intros ([] & Hx & H); try discriminate. destruct accepted0; [|discriminate].
    simplify_eq/=. eauto.
  - intros (s & q & H). by exists (Sched p s q true).
Qed.

Lemma accepted_unique p s q s' q' l :
  NoDup (accepted l) -> Sched p s q true ∈ l -> Sched p s' q' true ∈ l -> s = s' /\ q = q'.
Proof.
  unfold accepted. induction l as [|e l IH]; [by intros _ ?%not_elem_of_nil|].
  rewrite !elem_of_cons. cbn [omap list_omap]. destruct (accepted_of e) as [p'|] eqn:E.
  - rewrite NoDup_cons. intros [Hp Hnd] [<-|H1] [E2|H2]; simplify_eq/=; auto.
    + destruct Hp. apply elem_accepted. eauto.
    + destruct Hp. apply elem_accepted. eauto.
  - intros Hnd [E1|H1] [E2|H2]; subst; try discriminate. auto.
Qed.

Lemma chain_skip nxt p v h l : p ∉ l ->
  chain nxt h l -> chain (fun p' => if decide (p' = p) then v else nxt p') h l.
Proof.
  revert h. induction l as [|p' l IH]; intros h Hn H; simpl in *; [done|].
  rewrite elem_of_cons in Hn. destruct H as [-> H]. split; [done|].
  rewrite decide_False by naive_solver. apply IH; naive_solver.
Qed.

Lemma cb_ok_quiet m m' : (forall s q, get_phase m' s q = get_phase m s q) -> next m' = next m ->
  log m' = log m -> cb_ok m -> cb_ok m'.
Proof.
  intros Hg Hn Hl H. unfold cb_ok. rewrite Hl. intros Hnd. destruct (H Hnd) as (Hgood & Q & H1 & H2 & H3).
  split; [done|]. exists Q. split; [|split; [done|by rewrite Hl]].
  intros s q. rewrite Hg, Hn. apply H1.
Qed.

Lemma cb_ok_emit m e : called_of e = None -> accepted_of e = None ->
  (forall Q, cb_inv Q m -> good_event e (log m)) -> cb_ok m -> cb_ok (emit e m).
Proof.
  intros Hc Ha He H Hnd. simpl in Hnd. unfold accepted in Hnd. cbn [omap list_omap] in Hnd.
  rewrite Ha in Hnd.
  destruct (H Hnd) as (Hgood & Q & H1 & H2 & H3). split; [split; [apply (He Q); done|done]|].
  exists Q. split; [done|]. split; [done|]. intros p s q. rewrite H3. simpl.
  rewrite !elem_of_cons. split.
  - intros [? ?]. split; [by right|]. intros [E|?]; subst; done.
  - intros [[E|?] ?]; [by subst|]. naive_solver.
Qed.
(** A called structure was scheduled before. *)
Lemma good_log_called l p : good_log l -> Called p ∈ l -> exists s q, Sched p s q true ∈ l.
Proof.
  induction l as [|e l IH]; [by intros _ ?%not_elem_of_nil|].
  intros [He Hl]. rewrite elem_of_cons. intros [E|H].
  - subst e. destruct He as (_ & s & q & H & _). exists s, q. by right.
  - destruct (IH Hl H) as (s & q & ?). exists s, q. by right.
Qed.

Lemma get_phase_set m s q ph s' q' :
  get_phase (set_phase s q ph m) s' q' =
  if decide (s' = s) then if decide (q' = q) then ph else get_phase m s' q' else get_phase m s' q'.
Proof.
  unfold get_phase. simpl. destruct (decide (s' = s)) as [->|]; simpl; [|done].
  by destruct (decide (q' = q)).
Qed.

Definition upd_queue (Q : boot_state_t -> boot_state_sequence_t -> list nat) s q l s' q' :=
  if decide (s' = s) then if decide (q' = q) then l else Q s' q' else Q s' q'.

(** A new head of one chain; the others do not go through [p]. *)
Lemma chains_upd m s q p ph v l Q :
  (forall s' q', chain (next m) (callbacks (get_phase m s' q')) (Q s' q')) ->
  chain (fun p' => if decide (p' = p) then v else next m p') (callbacks ph) l ->
  (forall s' q', p ∈ Q s' q' -> s' = s /\ q' = q) ->
  forall s' q',
    chain (next (set_next p v (set_phase s q ph m)))
      (callbacks (get_phase (set_phase s q ph m) s' q')) (upd_queue Q s q l s' q').
Proof.
  intros HQ Hl Hp s' q'. rewrite get_phase_set. unfold upd_queue. simpl.
  destruct (decide (s' = s)); [destruct (decide (q' = q)); [done|]|];
    (apply chain_skip; [intros H; destruct (Hp _ _ H); congruence|apply HQ]).
Qed.

Lemma sched_cb_ok m s p q : cb_ok m -> cb_ok (snd (boot_state_sched_callback m s p q)).
Proof.
  intros H. unfold boot_state_sched_callback. case_bool; simpl.
  { by apply cb_ok_emit. }
  intros Hnd. unfold accepted in Hnd. simpl in Hnd. rewrite NoDup_cons in Hnd. destruct Hnd as [Hp Hnd].
  destruct (H Hnd) as (Hgood & Q & H1 & H2 & H3). split; [done|].
  assert (HpQ : forall s' q', p ∉ Q s' q').
  { intros s' q' [Hs _]%H3. apply Hp. apply elem_accepted. eauto. }
  exists (upd_queue Q s q (p :: Q s q)). split; [|split].
  - apply (chains_upd m s q p (mk_phase (Some p) _) (callbacks (get_phase m s q)) (p :: Q s q) Q H1).
    + simpl. split; [done|]. rewrite decide_True by done. apply chain_skip; [done|apply H1].
    + intros s' q' Hx. by destruct (HpQ s' q').
  - intros s' q'. unfold upd_queue. do 2 (case_match; [|done]). subst. apply NoDup_cons. auto.
  - assert (Hc : Called p ∉ log m).
    { intros Hc. destruct (good_log_called (log m) p Hgood Hc) as (s' & q' & Hs).
      apply Hp. apply elem_accepted. eauto. }
    intros p' s' q'. simpl. rewrite !elem_of_cons. unfold upd_queue.
    destruct (decide (s' = s)) as [->|]; [destruct (decide (q' = q)) as [->|]|];
      rewrite ?elem_of_cons, H3; naive_solver.
Qed.
Lemma pop_cb_ok m s q p :
  callbacks (get_phase m s q) = Some p ->
  Enter s q ∈ log m -> Leave s q ∉ log m -> cb_ok m ->
  cb_ok (emit (Called p)
    (set_next p None (set_phase s q (mk_phase (next m p) (blockers (get_phase m s q))) m))).
Proof.
  intros Hh Hen Hle H Hnd. change (NoDup (accepted (log m))) in Hnd.
  destruct (H Hnd) as (Hgood & Q & H1 & H2 & H3).
  pose proof (H1 s q) as Hc. rewrite Hh in Hc.
  destruct (Q s q) as [|p' l] eqn:EQ; [done|]. destruct Hc as [[= <-] Hc].
  pose proof (H2 s q) as HndQ. rewrite EQ, NoDup_cons in HndQ. destruct HndQ as [Hpl HndQ].
  assert (Hin : p ∈ Q s q) by (rewrite EQ; by left).
  pose proof (proj1 (H3 _ _ _) Hin) as [Hs Hnc].
  split; [split; [|done]|].
  { split; [done|]. exists s, q. done. }
  exists (upd_queue Q s q l). split; [|split].
  - apply (chains_upd m s q p (mk_phase (next m p) _) None l Q H1).
    + simpl. by apply chain_skip.
    + intros s' q' [Hs' _]%H3. by destruct (accepted_unique p s q s' q' (log m)).
  - intros s' q'. unfold upd_queue. do 2 (case_match; [|done]). by subst.
  - intros p' s' q'. simpl. rewrite !elem_of_cons. unfold upd_queue.
    destruct (decide (s' = s)) as [->|Hs']; [destruct (decide (q' = q)) as [->|Hq']|].
    + transitivity (p' ∈ Q s q /\ p' <> p); [|rewrite H3; naive_solver].
      rewrite EQ, elem_of_cons. naive_solver.
    + rewrite H3. split; [|naive_solver]. intros [Hx ?]. split; [by right|]. intros [[= ->]|?]; [|done].
      by destruct (accepted_unique p s q s q' (log m)).
    + rewrite H3. split; [|naive_solver]. intros [Hx ?]. split; [by right|]. intros [[= ->]|?]; [|done].
      by destruct (accepted_unique p s q s' q' (log m)).
Qed.

Lemma block_cb_ok m s q b : cb_ok m ->
  cb_ok (set_phase s q (mk_phase (callbacks (get_phase m s q)) b) m).
Proof.
  intros H Hnd. destruct (H Hnd) as (Hgood & Q & H1 & H2 & H3). split; [done|].
  exists Q. split; [|done]. intros s' q'. rewrite get_phase_set.
  repeat case_match; subst; apply H1.
Qed.

Lemma api_cb_ok c m : cb_ok m -> cb_ok (snd (api c m)).
Proof.
  intros H.
  assert (Hb : forall s q, cb_ok (snd (boot_state_block m s q))).
  { intros s q. unfold boot_state_block. case_bool; simpl; [done|by apply block_cb_ok]. }
  assert (Hu : forall s q, cb_ok (snd (boot_state_unblock m s q))).
  { intros s q. unfold boot_state_unblock. case_bool; simpl; [done|].
    case_bool; simpl; [done|by apply block_cb_ok]. }
  destruct c; simpl; auto.
  - by apply sched_cb_ok.
  - by apply sched_cb_ok.
  - unfold boot_state_current_block. destruct (current_phase m). apply Hb.
  - unfold boot_state_current_unblock. destruct (current_phase m). apply Hu.
  - destruct (timer_monotonic_get (env m)) as [now d].
    by destruct (timer_sched_callback (tmr m) now tocb us) as [r t].
Qed.

Lemma call_ext_cb_ok c m : cb_ok m -> cb_ok (snd (call_ext c m)).
Proof. unfold call_ext. apply run_prog_inv; [by auto|]. apply api_cb_ok. Qed.

(** Any property outside code and a few updates keep is kept by a state. *)
Lemma run_state_inv (P : machine -> Prop) s m :
  (forall c m, P m -> P (snd (call_ext c m))) -> (forall s a m, P m -> P (set_arg s a m)) ->
  P m -> P (snd (run_state s m)).
Proof.
  intros Hc Ha Hm.
  assert (Hbind : forall A r (k : Z -> machine -> option A * machine), P (snd r) ->
    (forall v m', P m' -> P (snd (k v m'))) -> P (snd (bind r k))).
  { intros A [[v|] m'] k Hr Hk; simpl; auto. }
  destruct s; cbn [run_state];
    unfold bs_pre_device, bs_dev_init_chips, bs_dev_enumerate, bs_dev_resources, bs_dev_enable,
      bs_dev_init, bs_post_device, bs_os_resume_check, bs_os_resume, no_resume, bs_write_tables,
      bs_payload_load, bs_payload_boot; try destruct CONFIG_HAVE_ACPI_RESUME;
    repeat (apply Hbind; [by auto|intros ? ? ?]); try case_bool;
    repeat (apply Hbind; [by auto|intros ? ? ?]); simpl; auto.
Qed.

Lemma bs_run_timers_inv (P : machine -> Prop) m :
  (forall c m, P m -> P (snd (call_ext c m))) ->
  (forall t d m, d = env m \/ d = snd (timer_monotonic_get (env m)) -> P m ->
     P (set_tmr t (set_env d m))) ->
  P m -> P (snd (bs_run_timers m)).
Proof.
  intros Hc Ht Hm. unfold bs_run_timers. destruct CONFIG_TIMER_QUEUE; [|done].
  destruct (timer_monotonic_get (env m)) as [now d] eqn:E.
  destruct (timers_run _ (tmr m) now) as [[[p|] more] t]; simpl; [apply Hc|]; apply Ht; try done;
    right; by rewrite E.
Qed.

Lemma set_arg_cb_ok s a m : cb_ok m -> cb_ok (set_arg s a m).
Proof.
  apply cb_ok_quiet; [|done|done]. intros s' q. unfold get_phase. simpl.
  by destruct (decide (s' = s)) as [->|].
Qed.

Lemma sample_cb_ok s m : cb_ok m -> cb_ok (bs_sample_time s m).
Proof.
  destruct (bs_sample_time_fields s m) as (_ & Hl & Hn & Hg). by apply cb_ok_quiet.
Qed.
Lemma open_phase finished cur k j m q :
  base finished cur k j m -> cur ∉ finished ->
  Enter cur q ∈ take k (visit cur) -> Leave cur q ∉ take k (visit cur) ->
  Enter cur q ∈ log m /\ Leave cur q ∉ log m.
Proof.
  intros (_ & Hev & _) Hn He Hl. split.
  - assert (H : Enter cur q ∈ phase_events m) by (rewrite Hev, elem_of_app; by right).
    unfold phase_events in H. rewrite list_elem_of_In, <- in_rev, <- list_elem_of_In in H.
    by apply elem_of_filter_bool in H as [H _].
  - rewrite leave_phase_events, Hev, elem_of_app. intros [H|H]; [|done].
    rewrite list_elem_of_In, in_flat_map in H. destruct H as (s' & Hs' & H).
    rewrite <- list_elem_of_In in Hs'. simpl in H.
    decompose [or] H; try done; congruence.
Qed.

Lemma callbacks_cb_ok s q m :
  Enter s q ∈ log m -> Leave s q ∉ log m -> cb_ok m -> cb_ok (snd (bs_call_callbacks s q m)).
Proof.
  intros He Hl H. unfold bs_call_callbacks. destruct (callbacks _) as [p|] eqn:E.
  - match goal with |- cb_ok (snd (bind (call_ext ?c ?x) _)) =>
      assert (Hx : cb_ok (snd (call_ext c x))) by (by apply call_ext_cb_ok, pop_cb_ok);
      by destruct (call_ext c x) as [[v|] m'] end.
  - case_bool; [done|].
    assert (Hx : cb_ok (snd (bs_run_timers m))).
    { apply bs_run_timers_inv; [by apply call_ext_cb_ok| |done]. by intros. }
    by destruct (bs_run_timers m) as [[v|] m'].
Qed.

(** An empty chain: everything scheduled for the phase was called. *)
Lemma leave_cb_ok s q m :
  callbacks (get_phase m s q) = None -> cb_ok m -> cb_ok (emit (Leave s q) m).
Proof.
  intros Hh. apply cb_ok_emit; [done|done|]. intros Q (H1 & H2 & H3) p Hp.
  specialize (H1 s q). rewrite Hh in H1. destruct (Q s q) eqn:EQ; [|by destruct H1].
  destruct (decide (p ∈ called (log m))) as [Hc|Hc].
  - unfold called in Hc. rewrite list_elem_of_omap in Hc. destruct Hc as ([] & ? & ?); by simplify_eq/=.
  - assert (p ∈ Q s q) as Hx; [|rewrite EQ in Hx; by apply not_elem_of_nil in Hx].
    apply H3. split; [done|]. intros Hx. apply Hc. unfold called. rewrite list_elem_of_omap.
    by exists (Called p).
Qed.

Lemma walk_cb_step c : walk_inv c -> cb_ok (snd c) -> cb_ok (snd (bs_walk_state_machine c)).
Proof.
  destruct c as [p m]. intros (finished & cur & H) Hok. simpl in Hok.
  destruct p as [|s q|s|s q n| |]; simpl; try done.
  - unfold walk_top. case_bool; [done|].
    assert (Hx : cb_ok (snd (bs_run_timers m))).
    { apply bs_run_timers_inv; [by apply call_ext_cb_ok|by intros|done]. }
    destruct (bs_run_timers m) as [[v|] m']; simpl in *; [|done].
    apply cb_ok_emit; [done|done|done|]. by apply sample_cb_ok.
  - destruct H as (Hb & Hc & -> & -> & Hn).
    destruct (open_phase _ _ _ _ _ BS_ON_ENTRY Hb Hn) as [He Hl];
      [simpl; set_solver|simpl; set_solver|].
    pose proof (callbacks_cb_ok _ _ _ He Hl Hok) as Hx.
    pose proof (callbacks_round cur BS_ON_ENTRY m) as Hr.
    destruct (bs_call_callbacks cur BS_ON_ENTRY m) as [[[|]|] m']; simpl in *; try done.
    destruct Hr as (-> & Hh & _). unfold walk_entered. apply cb_ok_emit; [done|done|done|].
    apply sample_cb_ok. exact (leave_cb_ok _ _ _ Hh Hok).
  - destruct H as (Hb & Hc & -> & Hn). unfold walk_running.
    assert (Hx : cb_ok (snd (run_state cur (emit (Run cur) m)))).
    { apply run_state_inv; [by apply call_ext_cb_ok|intros; by apply set_arg_cb_ok|by apply cb_ok_emit]. }
    destruct (run_state cur _) as [[n|] m']; simpl in *; [|done].
    apply cb_ok_emit; [done|done|done|]. by apply sample_cb_ok.
  - destruct H as (Hb & Hc & -> & -> & Hs & Hn).
    destruct (open_phase _ _ _ _ _ BS_ON_EXIT Hb Hn) as [He Hl];
      [simpl; set_solver|simpl; set_solver|].
    pose proof (callbacks_cb_ok _ _ _ He Hl Hok) as Hx.
    pose proof (callbacks_round cur BS_ON_EXIT m) as Hr.
    destruct (bs_call_callbacks cur BS_ON_EXIT m) as [[[|]|] m']; simpl in *; try done.
    destruct Hr as (-> & Hh & _). unfold walk_left.
    refine (cb_ok_quiet (bs_sample_time cur (set_current (n, BS_ON_ENTRY)
              (emit (Leave cur BS_ON_EXIT) m))) _ _ _ _ _); [|done|done|].
    + intros s' q. unfold get_phase at 1, set_complete. simpl. by destruct (decide (s' = cur)) as [->|].
    + apply sample_cb_ok. exact (leave_cb_ok _ _ _ Hh Hok).
Qed.

Lemma walk_cb_ok n entries d : cb_ok (snd (walk n (main entries d))).
Proof.
  induction n as [|n IH]; [|by apply walk_cb_step; [apply walk_inv_walk|]].
  unfold walk, main, boot_state_schedule_static_entries. simpl.
  assert (H0 : cb_ok (init_machine d)).
  { intros _. split; [done|]. exists (fun _ _ => []). split; [done|]. split; [intros; apply NoDup_nil_2|].
    intros p s q. simpl. split; [by intros ?%not_elem_of_nil|]. by intros [?%not_elem_of_nil _]. }
  revert H0. generalize (init_machine d). induction entries as [|[[s w] p] l IH]; intros m Hm; [done|].
  simpl. apply IH. destruct w; by apply sched_cb_ok.
Qed.
(** ** Termination *)

Definition all_phases : list (boot_state_t * boot_state_sequence_t) :=
  flat_map (fun s => [(s, BS_ON_ENTRY); (s, BS_ON_EXIT)]) resume_path.

Definition busy (ph : boot_phase) : nat := if callbacks ph then 1 else 0.
Definition heads (m : machine) : nat :=
  sum_list_with (fun '(s, q) => busy (get_phase m s q)) all_phases.

Lemma sum_upd {A} (f g : A -> nat) x l : NoDup l -> x ∈ l -> (forall y, y <> x -> g y = f y) ->
  (sum_list_with g l + f x = sum_list_with f l + g x)%nat.
Proof.
  intros Hnd Hx Hy. induction l as [|y l IH]; [by apply not_elem_of_nil in Hx|].
  apply NoDup_cons in Hnd. destruct Hnd as [Hyl Hnd]. cbn [sum_list_with].
  apply elem_of_cons in Hx. destruct Hx as [<-|Hx].
  - assert (sum_list_with g l = sum_list_with f l) as ->; [|lia].
    clear IH Hnd. induction l as [|z l IH]; [done|]. cbn [sum_list_with].
    rewrite not_elem_of_cons in Hyl. rewrite Hy, IH by naive_solver. done.
  - rewrite (Hy y) by (intros ->; done). specialize (IH Hnd Hx). lia.
Qed.

Lemma all_phases_ok : NoDup all_phases /\ forall s q, (s, q) ∈ all_phases.
Proof.
  split; [by apply (bool_decide_unpack _); vm_compute|].
  intros [] []; by apply (bool_decide_unpack _); vm_compute.
Qed.

Lemma heads_set m s q ph :
  (heads (set_phase s q ph m) + busy (get_phase m s q) = heads m + busy ph)%nat.
Proof.
  destruct all_phases_ok as [Hnd Hin].
  pose proof (sum_upd (fun '(s, q) => busy (get_phase m s q))
    (fun '(s', q') => busy (get_phase (set_phase s q ph m) s' q')) (s, q) all_phases Hnd (Hin s q))
    as H. cbn beta iota in H. unfold heads. rewrite H.
  - rewrite get_phase_set, !decide_True by done. done.
  - intros [s' q'] Hne. rewrite get_phase_set. repeat case_match; congruence.
Qed.

(** Each scheduling adds at most one link or head, each call takes one away:
    there are never more calls than accepted schedulings, even when the same
    structure is scheduled while queued. *)
Definition links_ok (m : machine) : Prop :=
  forall L, NoDup L -> (forall p, p ∈ L -> next m p <> None) ->
    (length L + heads m + length (called (log m)) <= length (accepted (log m)))%nat.

Lemma links_ok_ext m m' : (forall s q, callbacks (get_phase m' s q) = callbacks (get_phase m s q)) ->
  next m' = next m -> called (log m') = called (log m) -> accepted (log m') = accepted (log m) ->
  links_ok m -> links_ok m'.
Proof.
  intros Hg Hn Hc Ha H L. unfold links_ok in H.
  assert (heads m' = heads m) as ->.
  { unfold heads. induction all_phases as [|[s q] l IH]; [done|]. simpl. rewrite IH.
    unfold busy. by rewrite Hg. }
  rewrite Hn, Hc, Ha. apply H.
Qed.

Lemma heads_next p v m : heads (set_next p v m) = heads m.
Proof. done. Qed.

Lemma without_length (L : list nat) p :
  NoDup L -> exists L', NoDup L' /\ (length L <= S (length L'))%nat /\ p ∉ L' /\
    forall x, x ∈ L' -> x ∈ L /\ x <> p.
Proof.
  intros Hnd. induction L as [|y L IH].
  - exists []. split; [constructor|]. split; [simpl; lia|]. split; [apply not_elem_of_nil|].
    by intros x ?%not_elem_of_nil.
  - apply NoDup_cons in Hnd. destruct Hnd as [Hy Hnd].
    destruct (decide (y = p)) as [->|Hne].
    + exists L. split; [done|]. split; [simpl; lia|]. split; [done|].
      intros x Hx. split; [by right|]. intros ->. done.
    + destruct (IH Hnd) as (L' & H1 & H2 & H3 & H4). exists (y :: L').
      split; [apply NoDup_cons; split; [|done]; intros [? _]%H4; done|].
      split; [simpl; lia|]. split; [by apply not_elem_of_cons|].
      intros x [->|Hx]%elem_of_cons; [split; [by left|done]|].
      destruct (H4 x Hx). split; [by right|done].
Qed.

Lemma sched_links m s p q : links_ok m -> links_ok (snd (boot_state_sched_callback m s p q)).
Proof.
  intros H. unfold boot_state_sched_callback. case_bool; simpl.
  { by apply (links_ok_ext m). }
  intros L Hnd HL. unfold accepted, called. cbn [log emit omap list_omap accepted_of called_of].
  match goal with |- context [heads (emit _ ?x)] => change (heads (emit _ x)) with (heads x) end.
  pose proof (heads_set (set_next p (callbacks (get_phase m s q)) m) s q
    (mk_phase (Some p) (blockers (get_phase m s q)))) as Hh.
  rewrite heads_next in Hh. cbn [busy callbacks] in Hh.
  change (get_phase (set_next p _ m) s q) with (get_phase m s q) in Hh.
  destruct (without_length L p Hnd) as (L' & Hnd' & Hlen & Hp & HL').
  assert (H' : forall x, x ∈ L' -> next m x <> None).
  { intros x [Hx Hne]%HL'. specialize (HL x Hx). simpl in HL. by rewrite decide_False in HL. }
  unfold busy in Hh. cbn [callbacks] in Hh. cbn [length].
  destruct (callbacks (get_phase m s q)) as [p0|] eqn:E1.
  - specialize (H L' Hnd' H'). unfold called, accepted in H. cbn [log set_phase set_next set_state].
    simpl log. lia.
  - assert (HpL : p ∉ L).
    { intros Hx. specialize (HL p Hx). simpl in HL. by rewrite decide_True in HL. }
    specialize (H L Hnd). unfold called, accepted in H. simpl log.
    enough (length L + heads m + length (omap called_of (log m)) <= length (omap accepted_of (log m)))%nat
      by lia.
    apply H. intros x Hx. specialize (HL x Hx). simpl in HL. rewrite decide_False in HL; [done|].
    intros ->. done.
Qed.

Lemma pop_links m s q p :
  callbacks (get_phase m s q) = Some p -> links_ok m ->
  links_ok (emit (Called p)
    (set_next p None (set_phase s q (mk_phase (next m p) (blockers (get_phase m s q))) m))).
Proof.
  intros Hh H L Hnd HL. unfold accepted, called. cbn [log emit omap list_omap accepted_of called_of].
  match goal with |- context [heads (emit _ ?x)] =>
    change (heads (emit _ x)) with (heads (set_phase s q (mk_phase (next m p)
      (blockers (get_phase m s q))) m)) end.
  pose proof (heads_set m s q (mk_phase (next m p) (blockers (get_phase m s q)))) as Hs.
  unfold busy in Hs. cbn [callbacks] in Hs. rewrite Hh in Hs.
  assert (HpL : p ∉ L).
  { intros Hx. specialize (HL p Hx). simpl in HL. by rewrite decide_True in HL. }
  assert (HL' : forall x, x ∈ L -> next m x <> None).
  { intros x Hx. specialize (HL x Hx). simpl in HL. rewrite decide_False in HL; [done|].
    intros ->. done. }
  simpl log. cbn [length]. unfold links_ok, called, accepted in H.
  destruct (next m p) eqn:E.
  - specialize (H (p :: L)). cbn [length] in H.
    enough (S (length L) + heads m + length (omap called_of (log m)) <=
            length (omap accepted_of (log m)))%nat by lia.
    apply H; [by apply NoDup_cons|]. intros x [->|Hx]%elem_of_cons; [congruence|auto].
  - specialize (H L Hnd HL'). lia.
Qed.
Section Budget.
(** How many schedulings the outside code still has in it. *)
Variable potential : D -> nat.

(** Outside code that schedules within [n], leaves the rest to the
    environment and blocks nothing. *)
Fixpoint affordable (n : nat) (p : prog D) : Prop :=
  match p with
  | ret _ d | hand_off d => (potential d <= n)%nat
  | call d c k =>
      match c with
      | sched_on_entry _ _ | sched_on_exit _ _ =>
          match n with
          | O => False
          | S n' => (potential d <= n')%nat /\
              forall r d', (potential d' <= n')%nat -> affordable n' (k r d')
          end
      | block _ _ | current_block => False
      | unblock _ _ | current_unblock | sched_timer _ _ =>
          (potential d <= n)%nat /\
          forall r d', (potential d' <= n)%nat -> affordable n (k r d')
      end
  end.

Definition clock_ok : Prop :=
  forall d, (potential (snd (timer_monotonic_get d)) <= potential d)%nat.
Definition budget_ok : Prop := forall c d, affordable (potential d) (ext c d).

Definition spent (m : machine) : nat := length (accepted (log m)) + potential (env m).

(** What holds between [m0] and a later [m] when only outside code ran. *)
Definition account (m0 m : machine) : Prop :=
  links_ok m /\ (forall s q, blockers (get_phase m s q) = 0) /\
  called (log m) = called (log m0) /\ (spent m <= spent m0)%nat.

Lemma account_refl m : links_ok m -> (forall s q, blockers (get_phase m s q) = 0) -> account m m.
Proof. done. Qed.

(** A call of the interface, in terms of the schedulings. *)
Lemma sched_account m s p q :
  links_ok m -> (forall s q, blockers (get_phase m s q) = 0) ->
  let m' := snd (boot_state_sched_callback m s p q) in
  links_ok m' /\ (forall s q, blockers (get_phase m' s q) = 0) /\
  called (log m') = called (log m) /\ env m' = env m /\
  (length (accepted (log m')) <= S (length (accepted (log m))))%nat.
Proof.
  intros Hl Hb m'. split; [by apply sched_links|]. subst m'.
  unfold boot_state_sched_callback. case_bool; simpl.
  - repeat (split; [done|]). unfold accepted. simpl. lia.
  - split; [|done]. intros s' q'. unfold get_phase. simpl.
    destruct (decide (s' = s)) as [->|]; simpl; [|apply Hb].
    destruct (decide (q' = q)) as [->|]; [apply (Hb s q)|apply (Hb s q')].
Qed.

Lemma unblock_none m s q :
  (forall s q, blockers (get_phase m s q) = 0) -> snd (boot_state_unblock m s q) = m.
Proof. intros Hb. unfold boot_state_unblock. rewrite Hb. by case_bool. Qed.

Lemma run_prog_account p : forall n m,
  clock_ok -> affordable n p -> links_ok m -> (forall s q, blockers (get_phase m s q) = 0) ->
  let m' := snd (run_prog p m) in
  links_ok m' /\ (forall s q, blockers (get_phase m' s q) = 0) /\
  called (log m') = called (log m) /\ (spent m' <= length (accepted (log m)) + n)%nat.
Proof.
  induction p as [v d|d|d c k IH]; intros n m Hck Ha Hl Hb; simpl.
  - repeat (split; [done|]). unfold spent. simpl in *. lia.
  - repeat (split; [done|]). unfold spent. simpl in *. lia.
  - assert (Hs : forall p s q, (match n with O => False | S n' => (potential d <= n')%nat /\
          forall r d', (potential d' <= n')%nat -> affordable n' (k r d') end) ->
        let m' := snd (run_prog (k (fst (boot_state_sched_callback (set_env d m) s p q))
                    (env (snd (boot_state_sched_callback (set_env d m) s p q))))
                    (snd (boot_state_sched_callback (set_env d m) s p q))) in
        links_ok m' /\ (forall s q, blockers (get_phase m' s q) = 0) /\
        called (log m') = called (log m) /\ (spent m' <= length (accepted (log m)) + n)%nat).
    { intros p s q Hn. destruct n as [|n]; [done|]. destruct Hn as [Hp Hk].
      destruct (sched_account (set_env d m) s p q Hl Hb) as (Hl' & Hb' & Hc' & He' & Hlen).
      destruct (IH (fst (boot_state_sched_callback (set_env d m) s p q))
        (env (snd (boot_state_sched_callback (set_env d m) s p q))) n _ Hck
        ltac:(apply Hk; rewrite He'; done) Hl' Hb') as (H1 & H2 & H3 & H4).
      split; [done|]. split; [done|]. split; [by rewrite H3, Hc'|].
      simpl in Hlen. lia. }
    destruct c; simpl in Ha; try done.
    + specialize (Hs bscb s BS_ON_ENTRY Ha). simpl in *.
      unfold boot_state_sched_on_entry. by destruct (boot_state_sched_callback _ _ _ _).
    + specialize (Hs bscb s BS_ON_EXIT Ha). simpl in *.
      unfold boot_state_sched_on_exit. by destruct (boot_state_sched_callback _ _ _ _).
    + destruct Ha as [Hp Hk]. simpl. pose proof (unblock_none (set_env d m) s q Hb) as Hu.
      destruct (boot_state_unblock (set_env d m) s q) as [r m']. simpl in Hu. subst m'.
      destruct (IH r d n (set_env d m) Hck (Hk r d Hp) Hl Hb) as (H1 & H2 & H3 & H4). done.
    + destruct Ha as [Hp Hk]. simpl. unfold boot_state_current_unblock.
      cbn [current_phase set_env]. destruct (current_phase m) as [s q].
      rewrite (unblock_none (set_env d m) s q Hb).
      destruct (IH 0 d n (set_env d m) Hck (Hk 0 d Hp) Hl Hb) as (H1 & H2 & H3 & H4). done.
    + destruct Ha as [Hp Hk]. simpl. pose proof (Hck d) as Hc.
      destruct (timer_monotonic_get d) as [now d']. simpl in Hc.
      destruct (timer_sched_callback (tmr m) now tocb us) as [r t].
      destruct (IH r d' n (set_tmr t (set_env d' (set_env d m))) Hck (Hk r d' ltac:(lia)) Hl Hb)
        as (H1 & H2 & H3 & H4). done.
Qed.

Lemma call_ext_account m0 c m :
  clock_ok -> budget_ok -> account m0 m -> account m0 (snd (call_ext c m)).
Proof.
  intros Hck Hbd (Hl & Hb & Hc & Hs). unfold call_ext.
  destruct (run_prog_account (ext c (env m)) (potential (env m)) m Hck (Hbd _ _) Hl Hb)
    as (H1 & H2 & H3 & H4).
  split; [done|]. split; [done|]. split; [congruence|]. unfold spent in *. lia.
Qed.
(** Updates that change no callback, no log of callbacks and spend nothing. *)
Lemma account_quiet m0 m m' :
  (forall s q, get_phase m' s q = get_phase m s q) -> next m' = next m ->
  called (log m') = called (log m) -> accepted (log m') = accepted (log m) ->
  (potential (env m') <= potential (env m))%nat ->
  account m0 m -> account m0 m'.
Proof.
  intros Hg Hn Hc Ha Hp (Hl & Hb & Hc0 & Hs). split; [|split; [|split]].
  - apply (links_ok_ext m); auto. intros s q. by rewrite Hg.
  - intros s q. by rewrite Hg.
  - congruence.
  - unfold spent in *. rewrite Ha. lia.
Qed.

Lemma sample_account m0 s m : clock_ok -> account m0 m -> account m0 (bs_sample_time s m).
Proof.
  intros Hck. destruct (bs_sample_time_fields s m) as (_ & Hl & Hn & Hg).
  apply account_quiet; [done|done|by rewrite Hl|by rewrite Hl|].
  unfold bs_sample_time. pose proof (Hck (env m)). by destruct (timer_monotonic_get (env m)).
Qed.

Lemma timers_account m0 m : clock_ok -> budget_ok -> account m0 m ->
  account m0 (snd (bs_run_timers m)).
Proof.
  intros Hck Hbd. apply bs_run_timers_inv; [intros; by apply call_ext_account|].
  intros t d m' Hd. apply account_quiet; try done. simpl. destruct Hd as [->| ->]; [lia|apply Hck].
Qed.

Lemma run_state_account m0 s m : clock_ok -> budget_ok -> account m0 m ->
  account m0 (snd (run_state s m)).
Proof.
  intros Hck Hbd. apply run_state_inv; [intros; by apply call_ext_account|].
  intros s' a m'. apply account_quiet; try done. intros s1 q. unfold get_phase. simpl.
  by destruct (decide (s1 = s')) as [->|].
Qed.

(** A round of callbacks calls one, leaves the phase or (blocked) does not happen. *)
Lemma callbacks_account s q m : clock_ok -> budget_ok ->
  links_ok m -> (forall s q, blockers (get_phase m s q) = 0) ->
  let '(r, m') := bs_call_callbacks s q m in
  links_ok m' /\ (forall s q, blockers (get_phase m' s q) = 0) /\
  match r with
  | Some false => m' = m
  | _ => length (called (log m')) = S (length (called (log m))) /\ (spent m' <= spent m)%nat
  end.
Proof.
  intros Hck Hbd Hl Hb. unfold bs_call_callbacks. destruct (callbacks _) as [p|] eqn:E.
  - set (m1 := emit (Called p) _).
    assert (Hacc : account m1 m1).
    { apply account_refl; [by apply pop_links|]. intros s' q'. subst m1.
      change (blockers (get_phase (set_phase s q (mk_phase (next m p) (blockers (get_phase m s q))) m) s' q') = 0).
      rewrite get_phase_set. repeat case_match; subst; apply Hb. }
    apply (call_ext_account m1 (boot_callback p)) in Hacc; [|done|done].
    destruct (call_ext (boot_callback p) m1) as [[v|] m']; simpl in *;
      destruct Hacc as (H1 & H2 & H3 & H4); (split; [done|]; split; [done|]; by rewrite H3).
  - by rewrite Hb.
Qed.

Definition terminal (p : pc) : bool := match p with Died | Gone => true | _ => false end.

(** Calls left, phase events left, and the last step. *)
Definition measure (c : pc * machine) : nat :=
  (spent (snd c) - length (called (log (snd c)))) + (65 - length (phase_events (snd c)))
  + (if terminal (fst c) then 0 else 1).

Definition account_inv (c : pc * machine) : Prop :=
  links_ok (snd c) /\ forall s q, blockers (get_phase (snd c) s q) = 0.

Lemma links_called m : links_ok m -> (length (called (log m)) <= spent m)%nat.
Proof.
  intros H. specialize (H [] (NoDup_nil_2)). unfold spent.
  assert (forall p, p ∈ [] -> next m p <> None) as Hn by (by intros ? ?%not_elem_of_nil).
  specialize (H Hn). simpl in H. lia.
Qed.

Lemma events_bound c : walk_inv c -> (length (phase_events (snd c)) <= 65)%nat.
Proof.
  destruct c as [p m]. intros (finished & cur & H).
  assert (Hb : exists k j, base finished cur k j m).
  { destruct p; try (do 2 eexists; apply H). destruct H as (k & j & H & _). eauto. }
  destruct Hb as (k & j & Hf & Hev & _). simpl. rewrite Hev.
  assert (Hl : Forall (fun '(l, s) => (length (flat_map visit l) <= 60)%nat) flows)
    by (apply (bool_decide_unpack _); by vm_compute).
  rewrite Forall_forall in Hl. specialize (Hl _ Hf). simpl in Hl.
  rewrite length_app, length_take. simpl. lia.
Qed.

Lemma phase_events_length m : length (phase_events m) = length (List.filter is_phase (log m)).
Proof. unfold phase_events. apply length_rev. Qed.

Lemma emit_account m0 m e : called_of e = None -> accepted_of e = None ->
  account m0 m -> account m0 (emit e m).
Proof.
  intros Hc Ha. apply account_quiet; try done; unfold called, accepted;
    cbn [log emit omap list_omap]; by rewrite ?Hc, ?Ha.
Qed.

Lemma current_account m0 m x : account m0 m -> account m0 (set_current x m).
Proof. by apply account_quiet. Qed.

Lemma complete_account m0 m s : account m0 m -> account m0 (set_complete s m).
Proof.
  apply account_quiet; try done. intros s' q. unfold get_phase. simpl.
  by destruct (decide (s' = s)) as [->|].
Qed.

(** From [m], the walk reached [c] and is nearer to its end. *)
Definition nearer (m : machine) (c : pc * machine) : Prop :=
  account_inv c /\
  (S (measure c) <= spent m - length (called (log m)) + (65 - length (phase_events m)) + 1)%nat.

Lemma nearer_event m c : account m (snd c) ->
  (length (phase_events m) < length (phase_events (snd c)) <= 65)%nat -> nearer m c.
Proof.
  intros (Hl & Hb & Hc & Hs) [H1 H2]. split; [done|]. unfold measure. rewrite Hc.
  destruct (terminal (fst c)); lia.
Qed.

Lemma nearer_end m p m' : account m m' -> terminal p = true ->
  List.filter is_phase (log m') = List.filter is_phase (log m) -> nearer m (p, m').
Proof.
  intros (Hl & Hb & Hc & Hs) Hp He. split; [done|]. unfold measure. simpl. rewrite Hp, Hc.
  rewrite !phase_events_length, He. lia.
Qed.

Lemma nearer_call m p m' : links_ok m' -> (forall s q, blockers (get_phase m' s q) = 0) ->
  length (called (log m')) = S (length (called (log m))) -> (spent m' <= spent m)%nat ->
  List.filter is_phase (log m') = List.filter is_phase (log m) -> nearer m (p, m').
Proof.
  intros Hl Hb Hc Hs He. split; [done|]. pose proof (links_called _ Hl). unfold measure. simpl.
  rewrite Hc, !phase_events_length, He. destruct (terminal p); lia.
Qed.

Lemma sample_events s m : phase_events (bs_sample_time s m) = phase_events m.
Proof. unfold phase_events. by rewrite (proj1 (proj2 (bs_sample_time_fields s m))). Qed.

Lemma event_length e m : is_phase e = true ->
  length (phase_events (emit e m)) = S (length (phase_events m)).
Proof. intros He. rewrite !phase_events_length. simpl. by rewrite He. Qed.

Lemma event_skip e m : is_phase e = false -> phase_events (emit e m) = phase_events m.
Proof. intros He. unfold phase_events. simpl. by rewrite He. Qed.

Lemma frame_events m m' : frame m m' -> length (phase_events m') = length (phase_events m).
Proof. intros (_ & _ & H & _). by rewrite !phase_events_length, H. Qed.

Lemma nearer_callbacks s q m p :
  clock_ok -> budget_ok -> links_ok m -> (forall s q, blockers (get_phase m s q) = 0) ->
  let '(r, m') := bs_call_callbacks s q m in
  match r with Some false => m' = m | _ => nearer m (p, m') end.
Proof.
  intros Hck Hbd Hl Hb. pose proof (callbacks_account s q m Hck Hbd Hl Hb) as H.
  pose proof (bs_call_callbacks_frame s q m) as Hf.
  destruct (bs_call_callbacks s q m) as [[[|]|] m']; [| |];
    destruct H as (H1 & H2 & H3); try done; destruct H3; apply nearer_call; try done; apply Hf.
Qed.

Lemma walk_nearer p m : clock_ok -> budget_ok -> walk_inv (p, m) -> account_inv (p, m) ->
  terminal p = false -> nearer m (bs_walk_state_machine (p, m)).
Proof.
  intros Hck Hbd Hinv [Hl Hb] Ht. simpl in Hl, Hb.
  pose proof (events_bound _ (walk_inv_step _ Hinv)) as Hmax.
  pose proof (account_refl m Hl Hb) as Hacc.
  destruct p as [|s q|s|s q n| |]; try done; simpl in Hmax |- *.
  - unfold walk_top in *. case_bool; [by apply nearer_end|].
    pose proof (timers_account _ _ Hck Hbd Hacc) as Ha. pose proof (bs_run_timers_frame m) as Hf.
    destruct (bs_run_timers m) as [[v|] m']; simpl in Ha, Hf; [|apply nearer_end; [done|done|apply Hf]].
    apply nearer_event; [by apply emit_account; [| |apply sample_account]|]. simpl in Hmax |- *.
    rewrite event_length, sample_events, (frame_events _ _ Hf) in * by done. lia.
  - pose proof (nearer_callbacks s q m Gone Hck Hbd Hl Hb) as Hg.
    pose proof (nearer_callbacks s q m (Calling_entry s q) Hck Hbd Hl Hb) as Hn.
    destruct (bs_call_callbacks s q m) as [[[|]|] m']; try done. subst m'.
    unfold walk_entered in *. apply nearer_event.
    + apply emit_account; [done|done|]. apply sample_account; [done|].
      by apply current_account, emit_account.
    + simpl in Hmax |- *. rewrite event_skip, sample_events in * by done.
      change (phase_events (set_current ?c (emit (Leave s q) m))) with (phase_events (emit (Leave s q) m)) in *.
      rewrite event_length in * by done. lia.
  - unfold walk_running in *. pose proof (run_state_account m s (emit (Run s) m) Hck Hbd
      ltac:(by apply emit_account)) as Ha.
    pose proof (frame_events _ _ (proj1 (run_state_frame s (emit (Run s) m)))) as Hf.
    rewrite event_length in Hf by done.
    destruct (run_state s (emit (Run s) m)) as [[n|] m']; simpl in Ha, Hf, Hmax.
    + apply nearer_event; [by apply emit_account; [| |apply sample_account]|]. simpl.
      rewrite event_length, sample_events in * by done. lia.
    + apply nearer_event; [done|]. simpl. lia.
  - pose proof (nearer_callbacks s q m Gone Hck Hbd Hl Hb) as Hg.
    pose proof (nearer_callbacks s q m (Calling_exit s q n) Hck Hbd Hl Hb) as Hn.
    destruct (bs_call_callbacks s q m) as [[[|]|] m']; try done. subst m'.
    unfold walk_left in *. apply nearer_event.
    + apply complete_account, sample_account; [done|]. by apply current_account, emit_account.
    + simpl in Hmax |- *. change (phase_events (set_complete s ?x)) with (phase_events x) in *.
      rewrite sample_events in *.
      change (phase_events (set_current ?c (emit (Leave s q) m))) with (phase_events (emit (Leave s q) m)) in *.
      rewrite event_length in * by done. lia.
Qed.

Lemma walk_ends k : forall c, clock_ok -> budget_ok -> walk_inv c -> account_inv c ->
  (measure c <= k)%nat -> exists n, (n <= k)%nat /\ terminal (fst (walk n c)) = true.
Proof.
  induction k as [|k IH]; intros [p m] Hck Hbd Hinv Hacc Hk.
  - exists 0%nat. split; [done|]. unfold measure in Hk. simpl in *. destruct (terminal p); [done|lia].
  - destruct (terminal p) eqn:E; [exists 0%nat; split; [lia|done]|].
    destruct (walk_nearer p m Hck Hbd Hinv Hacc E) as [Ha Hm].
    destruct (IH (bs_walk_state_machine (p, m)) Hck Hbd (walk_inv_step _ Hinv) Ha) as (n & Hn & Hx).
    { unfold measure in Hk at 1. simpl in Hk. rewrite E in Hk. lia. }
    exists (S n). split; [lia|]. unfold walk in *. by rewrite Nat.iter_succ_r.
Qed.
Lemma static_account entries d :
  let m := boot_state_schedule_static_entries entries (init_machine d) in
  links_ok m /\ (forall s q, blockers (get_phase m s q) = 0) /\
  called (log m) = [] /\ (spent m <= length entries + potential d)%nat.
Proof.
  assert (H : forall m, links_ok m -> (forall s q, blockers (get_phase m s q) = 0) ->
    let m' := boot_state_schedule_static_entries entries m in
    links_ok m' /\ (forall s q, blockers (get_phase m' s q) = 0) /\
    called (log m') = called (log m) /\ (spent m' <= length entries + spent m)%nat).
  { unfold boot_state_schedule_static_entries. induction entries as [|[[s w] p] l IH]; intros m Hl Hb.
    - done.
    - simpl. set (m1 := match w with BS_ON_ENTRY => _ | BS_ON_EXIT => _ end).
      assert (Hm : m1 = snd (boot_state_sched_callback m s p w)) by (by subst m1; destruct w).
      destruct (sched_account m s p w Hl Hb) as (H1 & H2 & H3 & H4 & H5). rewrite <- Hm in *.
      destruct (IH m1 H1 H2) as (G1 & G2 & G3 & G4). repeat (split; [done|]).
      split; [congruence|]. unfold spent in *. rewrite H4 in G4. lia. }
  destruct (H (init_machine d)) as (H1 & H2 & H3 & H4); [|done|].
  - intros L Hnd HL. destruct L as [|p L]; [vm_compute; lia|]. by destruct (HL p ltac:(by left)).
  - done.
Qed.

(** If the code outside has a finite budget of schedulings and blocks
    no phase, boot comes to an end: within 66 steps plus one for each callback
    there can be, control is handed over or the machine has stopped in
    [main]'s [die].  Callbacks may schedule callbacks, even ones that are
    already queued. *)
Theorem boot_terminates entries d :
  clock_ok -> budget_ok ->
  exists n, (n <= length entries + potential d + 66)%nat /\
    (fst (walk n (main entries d)) = Died \/ fst (walk n (main entries d)) = Gone).
Proof.
  intros Hck Hbd.
  destruct (static_account entries d) as (Hl & Hb & Hc & Hs).
  destruct (walk_ends (length entries + potential d + 66) (main entries d) Hck Hbd
    (walk_inv_walk 0 entries d) (conj Hl Hb)) as (n & Hn & Ht).
  - unfold measure. simpl in *. lia.
  - exists n. split; [done|]. destruct (fst (walk n (main entries d))); auto; done.
Qed.
End Budget.
(** C33.  Whatever the code outside does, the walk visits the states in the
    documented order, with or without the resume state: each state's entry
    callbacks, its function, then its exit callbacks, once.  [main] reaches
    [die] only after the whole path, when the payload returned. *)
Theorem boot_flow_correct n entries d :
  let '(p, m) := walk n (main entries d) in
  exists path, (path = normal_path \/ path = resume_path) /\
    phase_events m `prefix_of` flat_map visit path /\
    (p = Died -> phase_events m = flat_map visit path).
Proof.
  pose proof (walk_inv_walk n entries d) as H. destruct (walk n (main entries d)) as [p m].
  destruct (walk_place p m H) as (finished & cur & k & j & (Hf & Hev & _) & _ & _ & Hd & Hk).
  destruct (flows_path _ _ Hf) as (path & Hp & H1 & H2). exists path.
  split; [by rewrite !elem_of_cons, elem_of_nil in Hp; naive_solver|]. rewrite Hev.
  destruct (decide (cur ∈ finished)) as [Hc|Hc].
  - rewrite (Hk Hc), (H2 Hc). cbn [take]. rewrite app_nil_r. done.
  - split; [|intros ?; exfalso; auto]. destruct (H1 Hc) as [rest ->].
    rewrite !flat_map_app. cbn [flat_map]. rewrite app_nil_r, <- app_assoc.
    apply prefix_app, prefix_app_r, prefix_take.
Qed.

(** The time samples of a state never leave its array of four, and a
    completed state has all four; a phase that is over is not blocked, and
    attempts to block it later fail and change nothing. *)
Theorem boot_state_bounds n entries d :
  let '(p, m) := walk n (main entries d) in
  (forall s, length (samples (times (boot_states m s))) = MAX_TIME_SAMPLES /\
     (num_samples (times (boot_states m s)) <= MAX_TIME_SAMPLES)%nat /\
     (complete (boot_states m s) = true -> num_samples (times (boot_states m s)) = MAX_TIME_SAMPLES)) /\
  (forall s q, Leave s q ∈ log m -> blockers (get_phase m s q) = 0 /\
     (p <> Gone -> complete (boot_states m (fst (current_phase m))) = false ->
      boot_state_block m s q = (-1, m))).
Proof.
  pose proof (walk_inv_walk n entries d) as H. destruct (walk n (main entries d)) as [p m].
  destruct (walk_place p m H) as (finished & cur & k & j & Hb & Hj & Hcur & _ & Hk).
  pose proof Hb as (Hf & Hev & Hcm & Hns & Hbl). split.
  - intros s. destruct (Hns s) as [H1 H2]. split; [done|]. rewrite H1. unfold samples_taken, MAX_TIME_SAMPLES.
    split; [repeat case_match; lia|]. intros Hc%Hcm. by rewrite decide_True.
  - intros s q Hl. split; [by apply Hbl|]. intros Hg Hc. destruct (Hcur Hg) as (Hcu & Hk1 & Hk4).
    assert (Hn : cur ∉ finished) by (rewrite Hcu in Hc; intros ?%Hcm; congruence).
    unfold boot_state_block. by rewrite (left_ran finished cur k j m s q).
Qed.

(** While no callback structure is scheduled twice, every callback
    runs at most once, inside the phase it was scheduled for and never before;
    and when a phase is left, every callback scheduled for it by then has run. *)
Theorem boot_callbacks_once n entries d :
  NoDup (accepted (log (snd (walk n (main entries d))))) ->
  good_log (log (snd (walk n (main entries d)))).
Proof. intros Hnd. exact (proj1 (walk_cb_ok n entries d Hnd)). Qed.
(** Without the timer queue nothing runs while a phase is blocked and has no
    callbacks, so nothing can unblock it: the walk stays there. *)
Lemma blocked_without_timers_stays n s q m :
  CONFIG_TIMER_QUEUE = false ->
  callbacks (get_phase m s q) = None -> blockers (get_phase m s q) <> 0 ->
  walk n (Calling_entry s q, m) = (Calling_entry s q, m).
Proof.
  intros Ht Hc Hb. unfold walk. induction n as [|n IH]; [done|]. simpl. rewrite IH.
  simpl. unfold bs_call_callbacks. rewrite Hc. destruct (blockers _ =? 0) eqn:E; [by bool_to_prop|].
  unfold bs_run_timers. by rewrite Ht.
Qed.
End Machine.
Arguments machine : clear implicits.

(** ** Concrete boots *)

(** A platform whose callback 1 hooks callback 7 into a later state; the
    environment counts the hooks left.  The payload takes over. *)
Definition demo_ext (c : ext_call) (d : nat) : prog nat :=
  match c with
  | payload_run => hand_off d
  | boot_callback 1%nat =>
      match d with
      | O => ret 0 d
      | S d' => call d' (sched_on_exit 7 BS_WRITE_TABLES) (fun r d => ret r d)
      end
  | _ => ret 0 d
  end.
Definition demo_clock (d : nat) : mono_time * nat := (0, d).
Definition demo_entries : list (boot_state_t * boot_state_sequence_t * nat) :=
  [(BS_DEV_INIT, BS_ON_ENTRY, 1%nat); (BS_DEV_INIT, BS_ON_ENTRY, 2%nat);
   (BS_PAYLOAD_LOAD, BS_ON_EXIT, 3%nat)].
Local Notation demo_boot n :=
  (walk demo_ext demo_clock true true n%nat (main demo_entries 1%nat)) (only parsing).

Example demo_boot_log :
  fst (demo_boot 60) = Gone /\
  rev (called (log (snd (demo_boot 60)))) = [2; 1; 7; 3]%nat.
Proof. by vm_compute. Qed.

Lemma demo_boot_distinct : NoDup (accepted (log (snd (demo_boot 60)))).
Proof.
  assert (E : accepted (log (snd (demo_boot 60))) = [7; 3; 2; 1]%nat) by (by vm_compute).
  rewrite E. apply (bool_decide_unpack _). by vm_compute.
Qed.

Lemma boot_callbacks_once_witness :
  NoDup (accepted (log (snd (demo_boot 60)))) /\ good_log (log (snd (demo_boot 60))).
Proof.
  split; [exact demo_boot_distinct|].
  exact (boot_callbacks_once demo_ext demo_clock true true 60 demo_entries 1%nat demo_boot_distinct).
Defined.

Lemma boot_terminates_witness :
  exists n, (n <= 70)%nat /\ (fst (demo_boot n) = Died \/ fst (demo_boot n) = Gone).
Proof.
  apply (boot_terminates demo_ext demo_clock true true (fun d => d) demo_entries 1%nat).
  - intros d. simpl. lia.
  - intros c d. destruct c as [| | | | | | | | | | | | | | | p|]; simpl; try lia.
    destruct p as [|[|p]]; simpl; try lia. destruct d as [|d]; simpl; [lia|].
    split; [lia|]. intros r d' Hd. exact Hd.
Defined.

(** A callback scheduled for the entry of a state whose entry is over, while
    the state is not complete: the call returns 0, and the callback is never
    called. *)
Definition late_ext (c : ext_call) (d : nat) : prog nat :=
  match c with
  | payload_run => hand_off d
  | dev_initialize => call d (sched_on_entry 9 BS_DEV_INIT) (fun r d => ret r d)
  | _ => ret 0 d
  end.

Example sched_on_entry_too_late :
  fst (walk late_ext demo_clock true true 60 (main [] 0%nat)) = Gone /\
  accepted (log (snd (walk late_ext demo_clock true true 60 (main [] 0%nat)))) = [9]%nat /\
  called (log (snd (walk late_ext demo_clock true true 60 (main [] 0%nat)))) = [].
Proof. by vm_compute. Qed.
