(* ===== verification/Allocator.v ===== *)
(** * The resource allocator ([src/device/device.c])

    Bridges are sized bottom-up ([compute_resources]) and filled top-down
    ([allocate_resources]); both walk the resources of a bus from the largest
    alignment down.  Domains first step aside from resources at fixed
    addresses ([avoid_fixed_resources]).

    The tree, its resources and their walks are those of [Device.v].  [None]
    is a jump through a NULL bus pointer, or a tree deeper than [fuel]. *)

From Stdlib Require Import Sorted.
From S2P Require Import Prelude Device.

(** ** Picking the next resource *)

Definition round (val pow : Z) : Z :=
  let mask := u64 (u64 (Z.shiftl 1 pow) - 1) in
  Z.land (u64 (val + mask)) (bnot 64 mask).

(** [result_dev] and [result] are set together. *)
Record pick_largest_state := mk_pick
  { last : option nat; result : option (nat * nat); seen_last : bool }.

Definition pick_largest_resource (st : dstate) (state : pick_largest_state)
    (dev res : nat) : pick_largest_state :=
  if match last state with Some l => (l =? res)%nat | None => false end
  then mk_pick (last state) (result state) true
  else
    let r := get_res st res in
    if has (res_flags r) IORESOURCE_FIXED then state
    else if match last state with
            | Some l =>
                let l := get_res st l in
                (res_align l <? res_align r)
                || ((res_align l =? res_align r) && (res_size l <? res_size r))
                || ((res_align l =? res_align r) && (res_size l =? res_size r)
                    && negb (seen_last state))
            | None => false
            end
    then state
    else if match result state with
            | None => true
            | Some (_, b) =>
                let b := get_res st b in
                (res_align b <? res_align r)
                || ((res_align b =? res_align r) && (res_size b <? res_size r))
            end
    then mk_pick (last state) (Some (dev, res)) (seen_last state)
    else state.

(** The device and the resource, or [None] when no resource is left. *)
Definition largest_resource (st : dstate) (fuel bus : nat) (prev : option nat)
    (type_mask type : Z) : option (nat * nat) :=
  result (search_bus_resources st type_mask type (pick_largest_resource st) fuel bus
            (mk_pick prev None false)).

(** How many resources the walk meets: a bound for the loops below. *)
Definition count_resources (st : dstate) (fuel bus : nat) (type_mask type : Z) : nat :=
  search_bus_resources st type_mask type (fun n _ _ => S n) fuel bus 0%nat.

(** ** Sizing *)

(** No I/O above the first 256 of each KiB, where expansion cards decode. *)
Definition skip_legacy_io (flags base : Z) : Z :=
  if has flags IORESOURCE_IO then
    if negb (Z.land base 0x300 =? 0) then u64 (Z.land base (bnot 64 0x3ff) + 0x400)
    else if (0x3b0 <=? base) && (base <=? 0x3df) then 0x3e0
    else base
  else base.

(** One round of the sizing loop for a resource that is not empty. *)
Definition compute_one (st : dstate) (bridge res : nat) (base : Z) : Z * dstate :=
  let r := get_res st res in
  let b := get_res st bridge in
  let b := if res_align b <? res_align r then with_align (res_align r) b else b in
  let b := if res_limit r <? res_limit b then with_limit (res_limit r) b else b in
  let st := set_res st bridge b in
  let r := get_res st res in
  let base := skip_legacy_io (res_flags r) base in
  let base := round base (res_align r) in
  let st := set_res st res (with_base base r) in
  (u64 (base + res_size r), st).

Fixpoint compute_loop (rounds fuel : nat) (st : dstate) (bus bridge : nat) (type_mask type : Z)
    (prev : option nat) (base : Z) : Z * dstate :=
  match rounds with
  | O => (base, st)
  | S rounds' =>
      match largest_resource st fuel bus prev type_mask type with
      | None => (base, st)
      | Some (_, res) =>
          if res_size (get_res st res) =? 0 then
            compute_loop rounds' fuel st bus bridge type_mask type (Some res) base
          else
            let '(base, st) := compute_one st bridge res base in
            compute_loop rounds' fuel st bus bridge type_mask type (Some res) base
      end
  end.

(** The bridge resource [child_bridge] of [dev], with the bus behind it. *)
Definition is_child_bridge (st : dstate) (child_bridge : nat) (type_mask type : Z) : bool :=
  let f := res_flags (get_res st child_bridge) in
  has f IORESOURCE_BRIDGE && (Z.land f type_mask =? type).
Definition find_link (st : dstate) (dev child_bridge : nat) : option nat :=
  find_first (fun l => b_link_num (get_bus st l)
                       =? IOINDEX_LINK (res_index (get_res st child_bridge)))
    (d_link_list (get_dev st dev)).

(** The loops over the bridges on a bus: [recurse link child_bridge type_mask
    type]. *)
Section Bridges.
Variable recurse : dstate -> nat -> nat -> Z -> Z -> option dstate.
Variables type_mask type : Z.

Fixpoint bridge_resources (dev : nat) (l : list nat) (st : dstate) : option dstate :=
  match l with
  | [] => Some st
  | child_bridge :: l' =>
      if is_child_bridge st child_bridge type_mask type then
        match find_link st dev child_bridge with
        | None => None
        | Some link =>
            let f := res_flags (get_res st child_bridge) in
            match recurse st link child_bridge (Z.lor type_mask IORESOURCE_PREFETCH)
                    (Z.lor type (Z.land f IORESOURCE_PREFETCH)) with
            | None => None
            | Some st => bridge_resources dev l' st
            end
        end
      else bridge_resources dev l' st
  end.

Fixpoint child_bridges (devs : list nat) (st : dstate) : option dstate :=
  match devs with
  | [] => Some st
  | dev :: devs' =>
      match d_link_list (get_dev st dev) with
      | [] => child_bridges devs' st
      | _ =>
          match bridge_resources dev (d_resource_list (get_dev st dev)) st with
          | None => None
          | Some st => child_bridges devs' st
          end
      end
  end.
End Bridges.

Definition compute_bus (fuel : nat) (st : dstate) (bus bridge : nat) (type_mask type base : Z)
    : dstate :=
  let '(base, st) := compute_loop (S (count_resources st fuel bus type_mask type)) fuel
                       st bus bridge type_mask type None base in
  let b := get_res st bridge in
  set_res st bridge
    (with_size (u64 (round base (res_gran b) - round (res_base b) (res_align b))) b).

Fixpoint compute_resources (fuel : nat) (st : dstate) (bus bridge : nat) (type_mask type : Z)
    : option dstate :=
  match fuel with
  | O => None
  | S fuel' =>
      let b := get_res st bridge in
      let base := round (res_base b) (res_align b) in
      match child_bridges (compute_resources fuel') type_mask type
              (b_children (get_bus st bus)) st with
      | None => None
      | Some st => Some (compute_bus fuel st bus bridge type_mask type base)
      end
  end.

(** ** Placing *)

Definition allocate_one (st : dstate) (bridge res : nat) (base : Z) : Z * dstate :=
  let r := get_res st res in
  let b := get_res st bridge in
  let r := if res_limit b <? res_limit r then with_limit (res_limit b) r else r in
  if res_size r =? 0 then
    (base, set_res st res (with_flags (Z.lor (res_flags r) IORESOURCE_ASSIGNED)
                             (with_base (res_limit r) r)))
  else
    let base := skip_legacy_io (res_flags r) base in
    if u64 (u64 (round base (res_align r) + res_size r) - 1) <=? res_limit r then
      let base := round base (res_align r) in
      let r := with_limit (u64 (u64 (base + res_size r) - 1)) (with_base base r) in
      let flags := Z.land (Z.lor (res_flags r) IORESOURCE_ASSIGNED)
                     (bnot 32 IORESOURCE_STORED) in
      (u64 (base + res_size r), set_res st res (with_flags flags r))
    else (base, set_res st res r).

Fixpoint allocate_loop (rounds fuel : nat) (st : dstate) (bus bridge : nat) (type_mask type : Z)
    (prev : option nat) (base : Z) : Z * dstate :=
  match rounds with
  | O => (base, st)
  | S rounds' =>
      match largest_resource st fuel bus prev type_mask type with
      | None => (base, st)
      | Some (_, res) =>
          let '(base, st) := allocate_one st bridge res base in
          allocate_loop rounds' fuel st bus bridge type_mask type (Some res) base
      end
  end.

Definition allocate_bus (fuel : nat) (st : dstate) (bus bridge : nat) (type_mask type : Z)
    : dstate :=
  let '(_, st) := allocate_loop (S (count_resources st fuel bus type_mask type)) fuel
                    st bus bridge type_mask type None (res_base (get_res st bridge)) in
  let b := get_res st bridge in
  set_res st bridge (with_flags (Z.lor (res_flags b) IORESOURCE_ASSIGNED) b).

Fixpoint allocate_resources (fuel : nat) (st : dstate) (bus bridge : nat) (type_mask type : Z)
    : option dstate :=
  match fuel with
  | O => None
  | S fuel' =>
      let st := allocate_bus fuel st bus bridge type_mask type in
      child_bridges (allocate_resources fuel') type_mask type (b_children (get_bus st bus)) st
  end.

(** ** Fixed resources *)

Definition resource_is (r : resource) (type : Z) : bool :=
  Z.land (res_flags r) IORESOURCE_TYPE_MASK =? type.

Record window := mk_window { w_base : Z; w_limit : Z }.
Record constraints := mk_constraints { c_io : window; c_mem : window }.

Inductive which := Mem | Io.

(** [resource_limit] returns a pointer into the constraints. *)
Definition resource_limit (r : resource) : option which :=
  if resource_is r IORESOURCE_MEM then Some Mem
  else if resource_is r IORESOURCE_IO then Some Io else None.

Definition get_window (c : constraints) (k : which) : window :=
  match k with Mem => c_mem c | Io => c_io c end.
Definition set_window (c : constraints) (k : which) (w : window) : constraints :=
  match k with Mem => mk_constraints (c_io c) w | Io => mk_constraints w (c_mem c) end.

Definition s64 (x : Z) : Z := swrap 64 x.

(** Stepping above or below one fixed resource. *)
Definition constrain_window (lim : window) (r : resource) : window :=
  let end_ := u64 (u64 (res_base r + res_size r) - 1) in
  if (end_ <? w_base lim) || (w_limit lim <? res_base r) then lim
  else if s64 (res_base r - w_base lim) <? s64 (w_limit lim - end_)
  then mk_window (u64 (res_base r + res_size r)) (w_limit lim)
  else mk_window (w_base lim) (u64 (res_base r - 1)).

Definition constrain_one (limits : constraints) (r : resource) : constraints :=
  if negb (has (res_flags r) IORESOURCE_FIXED) then limits
  else if res_size r =? 0 then limits
  else match resource_limit r with
       | None => limits
       | Some k => set_window limits k (constrain_window (get_window limits k) r)
       end.

Fixpoint constrain_resources (fuel : nat) (st : dstate) (dev : nat) (limits : constraints)
    : option constraints :=
  match fuel with
  | O => None
  | S fuel' =>
      let d := get_dev st dev in
      let limits := fold_left (fun c p => constrain_one c (get_res st p)) (d_resource_list d) limits in
      fold_left (fun acc link =>
        fold_left (fun acc child =>
          match acc with
          | None => None
          | Some c =>
              if d_enabled (get_dev st child) then constrain_resources fuel' st child c else Some c
          end) (b_children (get_bus st link)) acc) (d_link_list d) (Some limits)
  end.

Definition max_u64 : Z := 0xffffffffffffffff.

(** The limits of the domain's own resources. *)
Definition initial_one (limits : constraints) (r : resource) : constraints :=
  if has (res_flags r) IORESOURCE_FIXED then limits
  else match resource_limit r with
       | None => limits
       | Some k =>
           let w := get_window limits k in
           set_window limits k
             (mk_window (if w_base w <? res_base r then res_base r else w_base w)
                        (if res_limit r <? w_limit w then res_limit r else w_limit w))
       end.

Definition update_one (limits : constraints) (r : resource) : resource :=
  if has (res_flags r) IORESOURCE_FIXED then r
  else match resource_limit r with
       | None => r
       | Some k =>
           let w := get_window limits k in
           let r := if res_base r <? w_base w then with_base (w_base w) r else r in
           let r := if w_limit w <? res_limit r then with_limit (w_limit w) r else r in
           if has (res_flags r) IORESOURCE_MEM then with_base (resource_max r) r else r
       end.

Definition avoid_fixed_resources (fuel : nat) (st : dstate) (dev : nat) : option dstate :=
  let l := d_resource_list (get_dev st dev) in
  let limits := mk_constraints (mk_window 0 max_u64) (mk_window 0 max_u64) in
  let limits := fold_left (fun c p => initial_one c (get_res st p)) l limits in
  match constrain_resources fuel st dev limits with
  | None => None
  | Some limits =>
      Some (fold_left (fun st p => set_res st p (update_one limits (get_res st p))) l st)
  end.

(** ** The whole pass *)

Section Configure.
(** Device operations are code of drivers; they do not change the bus that is
    being walked. *)
Variable op_read_resources : nat -> option (dstate -> dstate).
Variable op_set_resources : nat -> option (dstate -> dstate).

Fixpoint read_resources (fuel : nat) (bus : nat) (st : dstate) : option dstate :=
  match fuel with
  | O => None
  | S fuel' =>
      fold_left (fun acc dev =>
        match acc with
        | None => None
        | Some st =>
            if negb (d_enabled (get_dev st dev)) then Some st
            else match op_read_resources dev with
                 | None => Some st
                 | Some f =>
                     let st := f st in
                     fold_left (fun acc link =>
                       match acc with
                       | None => None
                       | Some st => read_resources fuel' link st
                       end) (d_link_list (get_dev st dev)) (Some st)
                 end
        end) (b_children (get_bus st bus)) (Some st)
  end.

Definition assign_resources (bus : nat) (st : dstate) : dstate :=
  fold_left (fun st dev =>
    let d := get_dev st dev in
    if negb (d_enabled d) || (match d_resource_list d with [] => true | _ => false end) then st
    else match op_set_resources dev with None => st | Some f => f st end)
    (b_children (get_bus st bus)) st.

(** The domains below the root, and the passes over their resources. *)
Definition is_domain (st : dstate) (dev : nat) : bool :=
  match d_path (get_dev st dev) with DEVICE_PATH_DOMAIN _ => true | _ => false end.

Definition domain_pass (pass : dstate -> nat -> nat -> Z -> Z -> option dstate)
    (acc : option dstate) (child : nat) : option dstate :=
  match acc with
  | None => None
  | Some st =>
      if negb (is_domain st child) then Some st
      else fold_left (fun acc res =>
        match acc with
        | None => None
        | Some st =>
            let f := res_flags (get_res st res) in
            if has f IORESOURCE_FIXED then Some st
            else
              let type := if has f IORESOURCE_MEM then Some IORESOURCE_MEM
                          else if has f IORESOURCE_IO then Some IORESOURCE_IO else None in
              match type, d_link_list (get_dev st child) with
              | None, _ => Some st
              | Some _, [] => None
              | Some type, link :: _ => pass st link res IORESOURCE_TYPE_MASK type
              end
        end) (d_resource_list (get_dev st child)) (Some st)
  end.

Definition avoid_pass (fuel : nat) (acc : option dstate) (child : nat) : option dstate :=
  match acc with
  | None => None
  | Some st => if is_domain st child then avoid_fixed_resources fuel st child else Some st
  end.

(** [dev_configure] after [set_vga_bridge_bits]; [root] is [&dev_root]. *)
Definition dev_configure (fuel : nat) (root : nat) (st : dstate) : option dstate :=
  match d_link_list (get_dev st root) with
  | [] => None
  | link :: _ =>
      match read_resources fuel link st with
      | None => None
      | Some st =>
          let children := b_children (get_bus st link) in
          match fold_left (domain_pass (compute_resources fuel)) children (Some st) with
          | None => None
          | Some st =>
              match fold_left (avoid_pass fuel) children (Some st) with
              | None => None
              | Some st =>
                  match fold_left (domain_pass (allocate_resources fuel)) children (Some st) with
                  | None => None
                  | Some st => Some (assign_resources link st)
                  end
              end
          end
      end
  end.
End Configure.
