(* ===== verification/AllocatorOrder.v ===== *)
(** * The order of the allocator's walk

    [largest_resource], called with the previous answer, enumerates the
    resources of a bus that are not fixed in the order of a stable sort by
    decreasing alignment, then size. *)

From Stdlib Require Import Sorted.
From S2P Require Import Prelude Device Allocator.

(** ** The reference: a stable insertion sort *)

Definition key (st : dstate) (p : nat) : Z * Z :=
  (res_align (get_res st p), res_size (get_res st p)).

Definition key_lt (a b : Z * Z) : bool :=
  (a.1 <? b.1) || ((a.1 =? b.1) && (a.2 <? b.2)).

Fixpoint insert_by (st : dstate) (p : nat) (l : list nat) : list nat :=
  match l with
  | [] => [p]
  | q :: l' => if key_lt (key st p) (key st q) then q :: insert_by st p l' else p :: l
  end.

Definition sort_by (st : dstate) (l : list nat) : list nat := foldr (insert_by st) [] l.

(** The resources a walk meets, with their devices. *)
Definition walk (st : dstate) (fuel bus : nat) (type_mask type : Z) : list (nat * nat) :=
  search_bus_resources st type_mask type (fun acc dev p => acc ++ [(dev, p)]) fuel bus [].

Definition movable (st : dstate) (p : nat) : bool :=
  negb (has (res_flags (get_res st p)) IORESOURCE_FIXED).

(** The order in which the allocator takes them. *)
Definition schedule (st : dstate) (fuel bus : nat) (type_mask type : Z) : list nat :=
  sort_by st (List.filter (movable st) (map snd (walk st fuel bus type_mask type))).

(** ** Walks as lists *)

Lemma fold_left_collect {A B} (l : list (A * B)) acc :
  fold_left (fun acc x => acc ++ [(x.1, x.2)]) l acc = acc ++ l.
Proof.
  revert acc. induction l as [|[x y] l IH]; intros acc; simpl; [by rewrite app_nil_r|].
  by rewrite IH, <- app_assoc.
Qed.

Section Walks.
Context (st : dstate) (type_mask type : Z).

Definition folds (W : list (nat * nat))
    (g : forall A, (A -> nat -> nat -> A) -> A -> A) : Prop :=
  forall A (f : A -> nat -> nat -> A) acc, g A f acc = fold_left (fun a x => f a x.1 x.2) W acc.

Lemma search_fold_exists fuel : forall bus,
  exists W, folds W (fun A f acc => search_bus_resources st type_mask type f fuel bus acc).
Proof.
  induction fuel as [|fuel IH]; intros bus; [by exists []|].
  assert (Hres : forall dev links l, exists W, folds W (fun A f acc =>
    bus_device_resources st type_mask type f
      (search_bus_resources st type_mask type f fuel) dev links l acc)).
  { intros dev links l. induction l as [|p l [W HW]]; [by exists []|]. simpl.
    destruct (wrong_kind type_mask type (get_res st p)) eqn:E1.
    - exists W. intros A f acc. cbn [bus_device_resources]. rewrite ?E1; apply HW.
    - destruct (has (res_flags (get_res st p)) IORESOURCE_SUBTRACTIVE) eqn:E2.
      + destruct (find_first (fun b => b_link_num (get_bus st b) =?
          IOINDEX_SUBTRACTIVE_LINK (res_index (get_res st p))) links) as [sub|] eqn:E3.
        * destruct (IH sub) as [W1 H1]. exists (W1 ++ W). intros A f acc.
          cbn [bus_device_resources]. rewrite ?E1, ?E2, ?E3, fold_left_app. rewrite HW. f_equal. apply H1.
        * exists []. intros A f acc. cbn [bus_device_resources]. by rewrite ?E1, ?E2, ?E3.
      + exists ((dev, p) :: W). intros A f acc. cbn [bus_device_resources]. rewrite ?E1, ?E2; apply HW. }
  cbn [search_bus_resources].
  induction (b_children (get_bus st bus)) as [|dev devs [W HW]]; [by exists []|]. simpl.
  destruct (d_enabled (get_dev st dev)) eqn:E.
  - destruct (Hres dev (d_link_list (get_dev st dev)) (d_resource_list (get_dev st dev))) as [W1 H1].
    exists (W1 ++ W). intros A f acc. rewrite fold_left_app. simpl. rewrite ?E. simpl.
    rewrite HW. f_equal. apply H1.
  - exists W. intros A f acc. simpl. rewrite ?E. apply HW.
Qed.

(** Any walk is a fold over the list of what it meets. *)
Lemma search_walk fuel bus :
  folds (walk st fuel bus type_mask type)
    (fun A f acc => search_bus_resources st type_mask type f fuel bus acc).
Proof.
  destruct (search_fold_exists fuel bus) as [W HW].
  assert (walk st fuel bus type_mask type = W) as ->; [|done].
  unfold walk. rewrite HW. apply fold_left_collect.
Qed.
End Walks.

(** ** The sort *)

Fixpoint before (l : list nat) (a b : nat) : Prop :=
  match l with [] => False | x :: l' => (x = a /\ b ∈ l') \/ before l' a b end.

(** [a] is taken before [b] when walking [W]. *)
Definition precedes (st : dstate) (W : list nat) (a b : nat) : Prop :=
  key_lt (key st b) (key st a) = true \/ (key st a = key st b /\ before W a b).

Lemma key_lt_spec a b : key_lt a b = true <-> a.1 < b.1 \/ (a.1 = b.1 /\ a.2 < b.2).
Proof.
  unfold key_lt. rewrite orb_true_iff, andb_true_iff, !Z.ltb_lt, Z.eqb_eq. done.
Qed.

Lemma key_lt_false a b : key_lt a b = false -> key_lt b a = true \/ a = b.
Proof.
  destruct a as [a1 a2], b as [b1 b2]. intros H.
  assert (Hn : ~ (a1 < b1 \/ (a1 = b1 /\ a2 < b2))).
  { intros Hx. pose proof (proj2 (key_lt_spec (a1, a2) (b1, b2)) Hx). congruence. }
  rewrite key_lt_spec. simpl. destruct (Z.eq_dec a1 b1) as [->|], (Z.eq_dec a2 b2) as [->|]; auto; lia.
Qed.

Lemma before_in l a b : before l a b -> a ∈ l /\ b ∈ l.
Proof.
  induction l as [|x l IH]; [done|]. simpl. rewrite !elem_of_cons.
  intros [[-> ?]|H]; [auto|]. destruct (IH H). auto.
Qed.

Lemma before_asym l a b : NoDup l -> before l a b -> ~ before l b a.
Proof.
  induction l as [|x l IH]; [done|]. rewrite NoDup_cons. intros [Hx Hnd]. simpl.
  intros [[E Hb]|H] [[E' Ha]|H']; [| | |by apply (IH Hnd)]; subst.
  - done.
  - apply before_in in H'. naive_solver.
  - apply before_in in H. naive_solver.
Qed.

Lemma before_total l a b : a ∈ l -> b ∈ l -> a <> b -> before l a b \/ before l b a.
Proof.
  induction l as [|x l IH]; [by intros ?%not_elem_of_nil|]. rewrite !elem_of_cons. simpl.
  intros [->|Ha] [->|Hb] Hne; try done; auto. destruct (IH Ha Hb Hne); auto.
Qed.

Lemma before_snoc l x a b : before (l ++ [x]) a b <-> before l a b \/ (a ∈ l /\ b = x).
Proof.
  induction l as [|y l IH]; simpl.
  - rewrite !elem_of_nil. naive_solver.
  - rewrite IH, elem_of_cons, elem_of_app, list_elem_of_singleton. naive_solver.
Qed.

Lemma before_app_l l1 l2 a b : before l1 a b -> before (l1 ++ l2) a b.
Proof.
  induction l1 as [|x l1 IH]; [done|]. simpl. rewrite elem_of_app. naive_solver.
Qed.

Lemma before_app_r l1 l2 a b : before l2 a b -> before (l1 ++ l2) a b.
Proof. induction l1 as [|x l1 IH]; [done|]. simpl. auto. Qed.

Lemma before_app l1 l2 a b : a ∈ l1 -> b ∈ l2 -> before (l1 ++ l2) a b.
Proof.
  induction l1 as [|x l1 IH]; [by intros ?%not_elem_of_nil|]. simpl.
  intros [->|Ha]%elem_of_cons Hb; [left; split; [done|]; apply elem_of_app; by right|auto].
Qed.

Lemma before_concat ls l a b : l ∈ ls -> before l a b -> before (concat ls) a b.
Proof.
  induction ls as [|x ls IH]; [by intros ?%not_elem_of_nil|]. simpl.
  intros [->|Hl]%elem_of_cons Hb; [by apply before_app_l|by apply before_app_r, IH].
Qed.

Lemma before_filter f l a b : before (List.filter f l) a b -> before l a b.
Proof.
  induction l as [|x l IH]; [done|]. simpl. destruct (f x); simpl; [|auto].
  intros [[-> H]|H]; [left|auto]. split; [done|]. by apply elem_of_filter_bool in H as [H _].
Qed.

Lemma precedes_asym st W a b : NoDup W -> precedes st W a b -> ~ precedes st W b a.
Proof.
  unfold precedes. rewrite !key_lt_spec. intros Hnd [H|[E H]] [H'|[E' H']].
  - lia.
  - rewrite E' in H. lia.
  - rewrite E in H'. lia.
  - by apply (before_asym W a b).
Qed.

Lemma precedes_total st W a b :
  a ∈ W -> b ∈ W -> a <> b -> precedes st W a b \/ precedes st W b a.
Proof.
  intros Ha Hb Hne. unfold precedes.
  destruct (key_lt (key st b) (key st a)) eqn:E; [auto|].
  destruct (key_lt_false _ _ E) as [E'|E']; [auto|].
  destruct (before_total W a b Ha Hb Hne); auto.
Qed.

Lemma insert_by_perm st p l : insert_by st p l ≡ₚ p :: l.
Proof.
  induction l as [|q l IH]; [done|]. simpl. destruct (key_lt _ _); [|done].
  rewrite IH. constructor.
Qed.

Lemma sort_by_perm st l : sort_by st l ≡ₚ l.
Proof. induction l as [|p l IH]; [done|]. simpl. by rewrite insert_by_perm, IH. Qed.

Lemma precedes_trans_le st W a b c :
  NoDup W -> precedes st W a b -> precedes st W b c -> precedes st W a c.
Proof.
  intros Hnd. unfold precedes. rewrite !key_lt_spec. intros [H|[E H]] [H'|[E' H']].
  - lia.
  - rewrite <- E'. auto.
  - rewrite E. auto.
  - right. split; [congruence|]. clear E E'. induction W as [|x W IH]; [done|].
    apply NoDup_cons in Hnd. destruct Hnd as [Hx Hnd]. simpl in *.
    destruct H as [[-> H]|H], H' as [[-> H']|H'].
    + done.
    + left. split; [done|]. by apply before_in in H' as [_ H'].
    + apply before_in in H. naive_solver.
    + auto.
Qed.

(** Inserting an element that comes before all others keeps the order. *)
Lemma insert_by_sorted st W p l :
  NoDup W -> (forall q, q ∈ l -> before W p q) -> StronglySorted (precedes st W) l ->
  StronglySorted (precedes st W) (insert_by st p l).
Proof.
  intros Hnd Hp Hs. induction Hs as [|q l Hs IH Hq]; simpl; [repeat constructor|].
  destruct (key_lt (key st p) (key st q)) eqn:E.
  - constructor; [apply IH; intros r Hr; apply Hp; by right|].
    rewrite Forall_forall in Hq |- *. intros r. rewrite insert_by_perm, elem_of_cons.
    intros [->|Hr]; [by left|by apply Hq].
  - assert (Hpq : precedes st W p q).
    { destruct (key_lt_false _ _ E) as [|E']; [by left|right]. split; [done|]. apply Hp. by left. }
    constructor; [by constructor|]. constructor; [done|].
    rewrite Forall_forall in Hq |- *. intros r Hr. eapply precedes_trans_le; eauto.
Qed.

Lemma sort_by_sorted st l : NoDup l -> StronglySorted (precedes st l) (sort_by st l).
Proof.
  intros Hnd.
  assert (H : forall W, NoDup W -> (forall a b, before l a b -> before W a b) ->
    StronglySorted (precedes st W) (sort_by st l)); [|by apply H].
  induction l as [|p l IH]; intros W HW Hb; simpl; [constructor|].
  apply NoDup_cons in Hnd. destruct Hnd as [Hp Hnd]. apply insert_by_sorted; [done| |].
  - intros q. rewrite sort_by_perm. intros Hq. apply Hb. simpl. by left.
  - apply IH; [done|done|]. intros a b H. apply Hb. simpl. by right.
Qed.

(** ** Picking *)

Definition eligible (st : dstate) (prev : option nat) (P : list nat) (q : nat) : Prop :=
  movable st q = true /\
  match prev with None => True | Some l => q <> l /\ precedes st P l q end.

Definition pick_inv (st : dstate) (prev : option nat) (P : list nat) (s : pick_largest_state)
    : Prop :=
  last s = prev /\
  (seen_last s = true <-> match prev with Some l => l ∈ P | None => False end) /\
  match result s with
  | None => forall q, q ∈ P -> ~ eligible st prev P q
  | Some (_, b) => b ∈ P /\ eligible st prev P b /\
      forall q, q ∈ P -> eligible st prev P q -> q = b \/ precedes st P b q
  end.

Lemma precedes_snoc st P x a b : x ∉ P -> b ∈ P ->
  precedes st (P ++ [x]) a b <-> precedes st P a b.
Proof.
  intros Hx Hb. unfold precedes. rewrite before_snoc. split.
  - intros [H|[H [H'|[Ha E]]]]; [by left|by right|by subst].
  - intros [H|[H H']]; [by left|right; auto].
Qed.

Lemma eligible_snoc st prev P x q : x ∉ P -> q ∈ P ->
  eligible st prev (P ++ [x]) q <-> eligible st prev P q.
Proof.
  intros Hx Hq. unfold eligible. destruct prev as [l|]; [|done]. by rewrite precedes_snoc.
Qed.

(** The test of the code that skips a resource. *)
Definition skipped (st : dstate) (s : pick_largest_state) (r : nat) : bool :=
  match last s with
  | Some l => key_lt (key st l) (key st r)
      || (((key st l).1 =? (key st r).1) && ((key st l).2 =? (key st r).2) && negb (seen_last s))
  | None => false
  end.

Lemma skipped_spec st prev P s x :
  pick_inv st prev P s -> x ∉ P -> movable st x = true -> prev <> Some x ->
  (skipped st s x = false <-> eligible st prev (P ++ [x]) x).
Proof.
  intros (Hl & Hseen & _) Hx Hm Hne. unfold skipped, eligible. rewrite Hl.
  destruct prev as [l|]; [|done].
  rewrite orb_false_iff. unfold precedes. rewrite before_snoc.
  assert (Hbx : ~ before P l x) by (intros H; by apply before_in in H as [_ H]).
  split.
  - intros [H1 H2]. split; [done|]. split; [naive_solver|].
    destruct (key_lt_false _ _ H1) as [H|H]; [by left|right]. split; [done|]. right. split; [|done].
    rewrite H, !Z.eqb_refl in H2. simpl in H2. apply negb_false_iff in H2. by apply Hseen.
  - intros (_ & _ & [H|[H Hb]]).
    + rewrite key_lt_spec in H. split; [|rewrite !andb_false_iff, !Z.eqb_neq; lia].
      destruct (key_lt (key st l) (key st x)) eqn:E; [|done]. apply key_lt_spec in E. lia.
    + assert (Hs : seen_last s = true) by (apply Hseen; naive_solver).
      rewrite H, Hs, !andb_false_r. split; [|done].
      destruct (key_lt (key st x) (key st x)) eqn:E; [|done]. apply key_lt_spec in E. lia.
Qed.

(** The source's conditions in terms of the order. *)
Lemma pick_unfold st s dev x :
  pick_largest_resource st s dev x =
  if match last s with Some l => (l =? x)%nat | None => false end
  then mk_pick (last s) (result s) true
  else if negb (movable st x) then s
  else if skipped st s x then s
  else if match result s with None => true | Some (_, b) => key_lt (key st b) (key st x) end
  then mk_pick (last s) (Some (dev, x)) (seen_last s) else s.
Proof.
  unfold pick_largest_resource, movable, skipped, key_lt, key. rewrite negb_involutive. done.
Qed.

Lemma pick_step st prev P s dev x :
  pick_inv st prev P s -> x ∉ P -> pick_inv st prev (P ++ [x]) (pick_largest_resource st s dev x).
Proof.
  intros Hinv Hx. pose proof Hinv as (Hl & Hseen & Hres).
  assert (HP : forall q, q ∈ P ++ [x] <-> q ∈ P \/ q = x)
    by (intros q; by rewrite elem_of_app, list_elem_of_singleton).
  rewrite pick_unfold, Hl.
  destruct (match prev with Some l => (l =? x)%nat | None => false end) eqn:Elast.
  { destruct prev as [l|]; [|done]. apply Nat.eqb_eq in Elast. subst l.
    split; [done|]. split; [simpl; naive_solver|]. cbn [result].
    assert (Hnx : ~ eligible st (Some x) (P ++ [x]) x) by (intros (_ & ? & _); done).
    destruct (result s) as [[d b]|].
    - destruct Hres as (Hb & He & Hmin). split; [naive_solver|]. split; [by apply eligible_snoc|].
      intros q [Hq| ->]%HP He'; [|done]. rewrite eligible_snoc in He' by done.
      rewrite precedes_snoc by done. auto.
    - intros q [Hq| ->]%HP; [|done]. rewrite eligible_snoc by done. auto. }
  assert (Hne : prev <> Some x).
  { intros ->. by rewrite Nat.eqb_refl in Elast. }
  assert (Hseen' : seen_last s = true <-> match prev with Some l => l ∈ P ++ [x] | None => False end).
  { rewrite Hseen. destruct prev as [l|]; [|done]. rewrite HP. naive_solver. }
  assert (Hkeep : ~ eligible st prev (P ++ [x]) x -> pick_inv st prev (P ++ [x]) s).
  { intros Hnx. split; [done|]. split; [done|]. destruct (result s) as [[d b]|].
    - destruct Hres as (Hb & He & Hmin). split; [naive_solver|]. split; [by apply eligible_snoc|].
      intros q [Hq| ->]%HP He'; [|done]. rewrite eligible_snoc in He' by done.
      rewrite precedes_snoc by done. auto.
    - intros q [Hq| ->]%HP; [|done]. rewrite eligible_snoc by done. auto. }
  destruct (movable st x) eqn:Hm; simpl; [|apply Hkeep; intros [Hm' _]; congruence].
  pose proof (skipped_spec st prev P s x Hinv Hx Hm Hne) as Hsk.
  destruct (skipped st s x) eqn:Eskip; [apply Hkeep; rewrite <- Hsk; done|].
  assert (Hex : eligible st prev (P ++ [x]) x) by (by apply Hsk).
  destruct (result s) as [[d b]|] eqn:Er.
  - destruct Hres as (Hb & He & Hmin). destruct (key_lt (key st b) (key st x)) eqn:Ek.
    + split; [done|]. split; [done|]. cbn [result]. split; [naive_solver|]. split; [done|].
      intros q [Hq| ->]%HP He'; [|by left]. right. rewrite eligible_snoc in He' by done.
      destruct (Hmin q Hq He') as [->|Hbq]; [by left|]. left.
      unfold precedes in Hbq. rewrite !key_lt_spec in *. destruct Hbq as [?|[E _]]; [lia|].
      rewrite <- E. lia.
    + split; [done|]. split; [done|]. rewrite Er. split; [naive_solver|].
      split; [by apply eligible_snoc|].
      intros q [Hq| ->]%HP He'.
      * rewrite eligible_snoc in He' by done. rewrite precedes_snoc by done. auto.
      * right. destruct (key_lt_false _ _ Ek) as [Hlt|E]; [by left|right]. split; [done|].
        rewrite before_snoc. by right.
  - split; [done|]. split; [done|]. cbn [result]. split; [naive_solver|]. split; [done|].
    intros q [Hq| ->]%HP He'; [|by left]. rewrite eligible_snoc in He' by done. by destruct (Hres q Hq).
Qed.

Lemma pick_fold st prev W : NoDup (map snd W) ->
  pick_inv st prev (map snd W)
    (fold_left (fun a x => pick_largest_resource st a x.1 x.2) W (mk_pick prev None false)).
Proof.
  induction W as [|[d x] W IH] using rev_ind.
  - intros _. split; [done|]. simpl. split; [destruct prev; [by rewrite elem_of_nil|done]|].
    by intros q ?%not_elem_of_nil.
  - rewrite map_app, NoDup_app. intros (Hnd & Hx & _). rewrite fold_left_app. simpl.
    apply pick_step; [by apply IH|]. intros H. apply (Hx x H). simpl. by left.
Qed.

(** ** The enumeration *)

Lemma strongly_sorted_impl {A} (R R' : A -> A -> Prop) l :
  (forall a b, R a b -> R' a b) -> StronglySorted R l -> StronglySorted R' l.
Proof.
  intros HR. induction 1 as [|x l Hs IH Hx]; constructor; [done|].
  rewrite Forall_forall in Hx |- *. auto.
Qed.

Lemma strongly_sorted_app {A} (R : A -> A -> Prop) l1 l2 :
  StronglySorted R (l1 ++ l2) -> forall a b, a ∈ l1 -> b ∈ l2 -> R a b.
Proof.
  induction l1 as [|x l1 IH]; simpl; intros Hs a b; [by intros ?%not_elem_of_nil|].
  inversion Hs as [|? ? Hs' Hx]; subst. rewrite Forall_forall in Hx.
  intros [->|Ha]%elem_of_cons Hb; [apply Hx, elem_of_app; by right|by apply IH].
Qed.

Lemma strongly_sorted_drop {A} (R : A -> A -> Prop) l1 l2 :
  StronglySorted R (l1 ++ l2) -> StronglySorted R l2.
Proof. induction l1; [done|]. simpl. inversion 1. auto. Qed.

Section Schedule.
Context (st : dstate) (fuel bus : nat) (type_mask type : Z).
Let W := map snd (walk st fuel bus type_mask type).
Let S := schedule st fuel bus type_mask type.
Hypothesis HW : NoDup W.

Lemma schedule_in p : p ∈ S <-> p ∈ W /\ movable st p = true.
Proof. unfold S, schedule. rewrite sort_by_perm. apply elem_of_filter_bool. Qed.

Lemma schedule_NoDup : NoDup S.
Proof.
  unfold S, schedule. rewrite sort_by_perm. apply NoDup_ListNoDup, List.NoDup_filter.
  by apply NoDup_ListNoDup.
Qed.

Lemma schedule_sorted : StronglySorted (precedes st W) S.
Proof.
  apply (strongly_sorted_impl (precedes st (List.filter (movable st) W))).
  - intros a b [H|[E H]]; [by left|right]. split; [done|]. by apply before_filter in H.
  - apply sort_by_sorted, NoDup_ListNoDup, List.NoDup_filter. by apply NoDup_ListNoDup.
Qed.

(** The pick is the first element of the schedule after [prev]. *)
Lemma pick_is_head prev S1 S2 :
  S = S1 ++ S2 -> (forall q, q ∈ W -> eligible st prev W q <-> q ∈ S2) ->
  option_map snd (largest_resource st fuel bus prev type_mask type) = hd_error S2.
Proof.
  intros HS Hel. unfold largest_resource.
  rewrite (search_walk st type_mask type fuel bus _ (pick_largest_resource st)).
  pose proof (pick_fold st prev (walk st fuel bus type_mask type) HW) as (_ & _ & Hres).
  fold W in Hres.
  assert (Hin : forall q, q ∈ S2 -> q ∈ W /\ movable st q = true).
  { intros q Hq. apply schedule_in. rewrite HS. apply elem_of_app. by right. }
  pose proof schedule_sorted as Hsorted. rewrite HS in Hsorted.
  apply strongly_sorted_drop in Hsorted.
  destruct (result _) as [[d b]|]; simpl.
  - destruct Hres as (Hb & He & Hmin). pose proof (proj1 (Hel b Hb) He) as HbS.
    destruct S2 as [|q S2]; [by apply not_elem_of_nil in HbS|]. simpl. f_equal.
    destruct (decide (b = q)) as [|Hne]; [done|].
    apply elem_of_cons in HbS. destruct HbS as [|HbS]; [done|].
    inversion Hsorted as [|? ? _ Hq]; subst. rewrite Forall_forall in Hq. specialize (Hq b HbS).
    destruct (Hin q ltac:(by left)) as [HqW Hqm].
    destruct (Hmin q HqW) as [->|Hbq]; [|done|by destruct (precedes_asym st W q b HW Hq Hbq)].
    apply Hel; [done|]. by left.
  - destruct S2 as [|q S2]; [done|]. destruct (Hin q ltac:(by left)) as [HqW Hqm].
    destruct (Hres q HqW). apply Hel; [done|]. by left.
Qed.

Lemma largest_first :
  option_map snd (largest_resource st fuel bus None type_mask type) = hd_error S.
Proof.
  apply (pick_is_head None [] S); [done|]. intros q Hq. rewrite schedule_in. unfold eligible. tauto.
Qed.

Lemma largest_next S1 l S2 : S = S1 ++ l :: S2 ->
  option_map snd (largest_resource st fuel bus (Some l) type_mask type) = hd_error S2.
Proof.
  intros HS. apply (pick_is_head (Some l) (S1 ++ [l])); [by rewrite HS, <- app_assoc|].
  pose proof schedule_sorted as Hs. pose proof schedule_NoDup as Hnd. rewrite HS in Hs, Hnd.
  intros q Hq. unfold eligible. split.
  - intros (Hm & Hne & Hp).
    assert (HqS : q ∈ S) by (by apply schedule_in).
    rewrite HS, elem_of_app, elem_of_cons in HqS. destruct HqS as [HqS|[->|HqS]]; [|done|done].
    pose proof (strongly_sorted_app _ _ _ Hs q l HqS ltac:(by left)) as Hql.
    by destruct (precedes_asym st W q l HW Hql Hp).
  - intros Hq2. apply strongly_sorted_drop in Hs. inversion Hs as [|? ? _ Hl]; subst.
    rewrite Forall_forall in Hl. split; [|split; [|by apply Hl]].
    + apply (proj1 (schedule_in q)). rewrite HS. apply elem_of_app. right. by right.
    + intros ->. apply NoDup_app in Hnd. destruct Hnd as (_ & _ & Hnd).
      apply NoDup_cons in Hnd. by destruct Hnd.
Qed.
End Schedule.

(** ** The loops as folds over the schedule *)

(** The flags the allocator does not touch. *)
Definition core_mask : Z := bnot 32 (Z.lor IORESOURCE_ASSIGNED IORESOURCE_STORED).
Definition core (f : Z) : Z := Z.land f core_mask.

Lemma land_core f m : Z.land m core_mask = m -> Z.land (core f) m = Z.land f m.
Proof. intros H. unfold core. by rewrite <- Z.land_assoc, (Z.land_comm core_mask), H. Qed.

Lemma has_core f m : Z.land m core_mask = m -> has (core f) m = has f m.
Proof. intros H. unfold has. rewrite (land_core _ _ H). reflexivity. Qed.

Lemma core_lor f x : Z.land x core_mask = 0 -> core (Z.lor f x) = core f.
Proof. intros H. unfold core. rewrite Z.land_lor_distr_l, H. apply Z.lor_0_r. Qed.

Lemma core_clear f x : Z.land x core_mask = core_mask -> core (Z.land f x) = core f.
Proof. intros H. unfold core. by rewrite <- Z.land_assoc, H. Qed.

(** The same tree with the same kinds of resources. *)
Definition same_tree (st st' : dstate) : Prop :=
  st_dev st' = st_dev st /\ st_bus st' = st_bus st /\
  forall p, core (res_flags (get_res st' p)) = core (res_flags (get_res st p)) /\
            res_index (get_res st' p) = res_index (get_res st p).

Lemma same_tree_refl st : same_tree st st.
Proof. done. Qed.

Lemma same_tree_trans st1 st2 st3 : same_tree st1 st2 -> same_tree st2 st3 -> same_tree st1 st3.
Proof.
  intros (D1 & B1 & R1) (D2 & B2 & R2). split; [congruence|]. split; [congruence|].
  intros p. destruct (R1 p), (R2 p). split; congruence.
Qed.

Lemma same_tree_flag st st' p m : same_tree st st' -> Z.land m core_mask = m ->
  has (res_flags (get_res st' p)) m = has (res_flags (get_res st p)) m.
Proof. intros (_ & _ & H) Hm. rewrite <- (has_core (res_flags (get_res st' p)) m Hm), <- (has_core (res_flags (get_res st p)) m Hm). rewrite (proj1 (H p)). reflexivity. Qed.

Lemma same_tree_mask st st' p m : same_tree st st' -> Z.land m core_mask = m ->
  Z.land (res_flags (get_res st' p)) m = Z.land (res_flags (get_res st p)) m.
Proof. intros (_ & _ & H) Hm. rewrite <- (land_core (res_flags (get_res st' p)) m Hm), <- (land_core (res_flags (get_res st p)) m Hm). rewrite (proj1 (H p)). reflexivity. Qed.

Lemma same_tree_get st st' : same_tree st st' ->
  (forall p, get_dev st' p = get_dev st p) /\ (forall p, get_bus st' p = get_bus st p).
Proof. intros (D & B & _). unfold get_dev, get_bus. by rewrite D, B. Qed.

Lemma search_same {A} st st' tm t (f : A -> nat -> nat -> A) fuel :
  same_tree st st' -> Z.land tm core_mask = tm -> forall bus acc,
  search_bus_resources st' tm t f fuel bus acc = search_bus_resources st tm t f fuel bus acc.
Proof.
  intros Hs Htm. destruct (same_tree_get _ _ Hs) as [Hd Hb].
  induction fuel as [|fuel IH]; intros bus acc; [done|]. cbn [search_bus_resources]. rewrite Hb.
  revert acc. induction (b_children (get_bus st bus)) as [|dev devs IHd]; intros acc; [done|]. simpl.
  rewrite Hd. rewrite <- IHd. f_equal. destruct (d_enabled (get_dev st dev)); [simpl|done].
  revert acc. induction (d_resource_list (get_dev st dev)) as [|p l IHl]; intros acc; [done|]. simpl.
  unfold wrong_kind. rewrite (same_tree_mask _ _ p _ Hs Htm).
  rewrite (same_tree_flag _ _ p IORESOURCE_SUBTRACTIVE Hs eq_refl), (proj2 (proj2 (proj2 Hs) p)).
  assert (Hf : forall l, find_first (fun b => b_link_num (get_bus st' b) =?
      IOINDEX_SUBTRACTIVE_LINK (res_index (get_res st p))) l =
    find_first (fun b => b_link_num (get_bus st b) =?
      IOINDEX_SUBTRACTIVE_LINK (res_index (get_res st p))) l).
  { intros l'. unfold find_first. induction l' as [|x l' IHl']; [done|]. simpl. by rewrite Hb, IHl'. }
  repeat case_bool; try apply IHl. rewrite Hf. destruct (find_first _ _) as [sub|]; [|done].
  by rewrite IH, IHl.
Qed.

Lemma walk_same st st' fuel bus tm t : same_tree st st' -> Z.land tm core_mask = tm ->
  walk st' fuel bus tm t = walk st fuel bus tm t.
Proof. intros Hs Htm. unfold walk. by apply search_same. Qed.

(** [st'] has the same walk with the same keys as [st]. *)
Definition view (W : list nat) (st st' : dstate) : Prop :=
  same_tree st st' /\ forall p, p ∈ W -> key st' p = key st p.

Lemma view_refl W st : view W st st.
Proof. done. Qed.

Lemma view_trans W st1 st2 st3 : view W st1 st2 -> view W st2 st3 -> view W st1 st3.
Proof.
  intros [T1 K1] [T2 K2]. split; [by apply (same_tree_trans _ st2)|].
  intros p Hp. rewrite K2, K1; done.
Qed.

Lemma sort_by_same W st st' l : view W st st' -> (forall p, p ∈ l -> p ∈ W) ->
  sort_by st' l = sort_by st l.
Proof.
  intros [_ HK] Hl. induction l as [|p l IH]; [done|]. simpl. rewrite IH by (intros; apply Hl; by right).
  assert (Hi : forall l', (forall q, q ∈ l' -> q ∈ W) -> insert_by st' p l' = insert_by st p l').
  { intros l' Hl'. induction l' as [|q l' IH']; [done|]. simpl.
    rewrite (HK p (Hl p ltac:(by left))), (HK q (Hl' q ltac:(by left))).
    rewrite IH' by (intros; apply Hl'; by right). done. }
  apply Hi. intros q. rewrite sort_by_perm. intros Hq. apply Hl. by right.
Qed.

Lemma schedule_same st st' fuel bus tm t :
  view (map snd (walk st fuel bus tm t)) st st' -> Z.land tm core_mask = tm ->
  schedule st' fuel bus tm t = schedule st fuel bus tm t.
Proof.
  intros Hv Htm. unfold schedule. rewrite (walk_same st st' _ _ _ _ (proj1 Hv) Htm).
  set (W := map snd _) in *.
  assert (Hf : forall l, List.filter (movable st') l = List.filter (movable st) l).
  { assert (Hm : forall p, movable st' p = movable st p).
    { intros p. unfold movable. by rewrite (same_tree_flag st st' p IORESOURCE_FIXED (proj1 Hv) eq_refl). }
    induction l as [|p l IH]; [done|]. simpl. by rewrite Hm, IH. }
  rewrite Hf. apply (sort_by_same W); [done|]. intros p Hp. by apply elem_of_filter_bool in Hp as [Hp _].
Qed.

Section Loop.
Context (fuel bus : nat) (tm t : Z).
Variable step : dstate -> nat -> Z -> Z * dstate.

(** The shape of [compute_loop] and [allocate_loop]. *)
Fixpoint pick_loop (rounds : nat) (st : dstate) (prev : option nat) (base : Z) : Z * dstate :=
  match rounds with
  | O => (base, st)
  | S rounds' =>
      match largest_resource st fuel bus prev tm t with
      | None => (base, st)
      | Some (_, res) =>
          let '(base, st) := step st res base in pick_loop rounds' st (Some res) base
      end
  end.

Definition run_steps (l : list nat) (c : Z * dstate) : Z * dstate :=
  fold_left (fun '(base, st) p => step st p base) l c.

Lemma pick_loop_fold st0 rounds :
  let W := map snd (walk st0 fuel bus tm t) in
  NoDup W -> Z.land tm core_mask = tm ->
  (forall st p base, view W st0 st -> p ∈ W -> view W st0 (snd (step st p base))) ->
  forall st S1 S2 prev base, view W st0 st ->
  schedule st0 fuel bus tm t = S1 ++ S2 ->
  match prev with None => S1 = [] | Some l => exists S0, S1 = S0 ++ [l] end ->
  (length S2 < rounds)%nat ->
  pick_loop rounds st prev base = run_steps S2 (base, st).
Proof.
  intros W HW Htm Hstep. induction rounds as [|rounds IH]; intros st S1 S2 prev base Hv HS Hp Hl; [lia|].
  assert (HWst : map snd (walk st fuel bus tm t) = W) by (by rewrite (walk_same st0 st _ _ _ _ (proj1 Hv) Htm)).
  assert (HSst : schedule st fuel bus tm t = S1 ++ S2) by (by rewrite (schedule_same st0 st)).
  assert (Hpick : option_map snd (largest_resource st fuel bus prev tm t) = hd_error S2).
  { destruct prev as [l|].
    - destruct Hp as [S0 ->]. apply (largest_next st fuel bus tm t ltac:(by rewrite HWst) S0).
      by rewrite HSst, <- app_assoc.
    - subst S1. rewrite (largest_first st fuel bus tm t ltac:(by rewrite HWst)), HSst. done. }
  cbn [pick_loop]. destruct (largest_resource st fuel bus prev tm t) as [[d p]|]; simpl in Hpick.
  - destruct S2 as [|q S2]; [done|]. injection Hpick as ->. cbn [run_steps fold_left].
    assert (Hq : q ∈ W).
    { pose proof (proj1 (schedule_in st0 fuel bus tm t q)) as Hi. apply Hi. rewrite HS.
      apply elem_of_app. right. by left. }
    pose proof (Hstep st q base Hv Hq) as Hv'. destruct (step st q base) as [base' st'] eqn:E.
    simpl in Hv'. rewrite (IH st' (S1 ++ [q]) S2 (Some q) base'); [done|done| | |simpl in Hl; lia].
    + by rewrite HS, <- app_assoc.
    + by exists S1.
  - by destruct S2.
Qed.
End Loop.

Lemma count_walk st fuel bus tm t :
  count_resources st fuel bus tm t = length (walk st fuel bus tm t).
Proof.
  unfold count_resources. rewrite (search_walk st tm t fuel bus _ (fun n _ _ => S n)).
  generalize (walk st fuel bus tm t). intros l.
  assert (H : forall n, fold_left (fun a _ => S a) l n = (length l + n)%nat).
  { induction l as [|x l IH]; intros n; simpl; [done|]. rewrite IH. lia. }
  rewrite (H 0%nat). lia.
Qed.

Lemma schedule_length st fuel bus tm t :
  (length (schedule st fuel bus tm t) <= count_resources st fuel bus tm t)%nat.
Proof.
  unfold schedule. rewrite sort_by_perm, count_walk, List.filter_length_le, length_map. done.
Qed.

(** The order of the allocator.  [largest_resource], called again with its
    own last answer until it has none, enumerates the movable resources the walk
    meets, each once, by decreasing alignment, then decreasing size, and in walk
    order where both are equal. *)
Theorem largest_resource_enumerates st fuel bus tm t :
  let W := map snd (walk st fuel bus tm t) in
  NoDup W ->
  exists l, NoDup l /\ (forall p, p ∈ l <-> p ∈ W /\ movable st p = true) /\
    StronglySorted (fun p q =>
      res_align (get_res st q) < res_align (get_res st p) \/
      (res_align (get_res st q) = res_align (get_res st p) /\
       (res_size (get_res st q) < res_size (get_res st p) \/
        (res_size (get_res st q) = res_size (get_res st p) /\ before W p q)))) l /\
    option_map snd (largest_resource st fuel bus None tm t) = hd_error l /\
    (forall l1 p l2, l = l1 ++ p :: l2 ->
       option_map snd (largest_resource st fuel bus (Some p) tm t) = hd_error l2).
Proof.
  intros W HW. exists (schedule st fuel bus tm t).
  split; [by apply schedule_NoDup|]. split; [apply schedule_in|]. split; [|split].
  - apply (strongly_sorted_impl (precedes st W)); [|by apply schedule_sorted].
    intros p q [H|[E H]]; [apply key_lt_spec in H; simpl in H; lia|].
    unfold key in E. injection E as E1 E2. auto.
  - by apply largest_first.
  - intros l1 p l2. by apply largest_next.
Qed.

(** A bus with one device: two memory windows and an I/O window that is fixed. *)
Definition sample_resource (size align : Z) : resource :=
  mk_resource 0 size 0xffffffff IORESOURCE_MEM 0x10 align align.
Definition sample_bus (base limit : Z) : dstate :=
  mk_dstate {[ 1%nat := mk_device 0 (DEVICE_PATH_PCI 8) 0 0 0 true [10; 11; 13]%nat [] ]}
    {[ 0%nat := mk_bus 0 [1%nat] 0 0 ]}
    (<[10%nat := sample_resource 0x1000 12]> (<[11%nat := sample_resource 0x100000 20]>
      (<[13%nat := mk_resource 0x60 1 0x60 (Z.lor IORESOURCE_IO IORESOURCE_FIXED) 0 0 0]>
      {[ 12%nat := mk_resource base 0 limit (Z.lor IORESOURCE_MEM IORESOURCE_BRIDGE) 0x20 20 20 ]})))
    [1%nat] [] 20.

Lemma sample_bus_walk base limit :
  map snd (walk (sample_bus base limit) 5 0 IORESOURCE_TYPE_MASK IORESOURCE_MEM) = [10; 11]%nat /\
  schedule (sample_bus base limit) 5 0 IORESOURCE_TYPE_MASK IORESOURCE_MEM = [11; 10]%nat.
Proof. done. Qed.

(** The 1 MiB window of the sample comes before the 4 KiB one. *)
Lemma largest_resource_enumerates_witness :
  let st := sample_bus 0 0xffffffff in
  option_map snd (largest_resource st 5 0 None IORESOURCE_TYPE_MASK IORESOURCE_MEM) = Some 11%nat /\
  exists l, NoDup l /\ forall p, p ∈ l <-> p ∈ [10; 11]%nat /\ movable st p = true.
Proof.
  intros st. split; [vm_compute; reflexivity|].
  destruct (largest_resource_enumerates st 5 0 IORESOURCE_TYPE_MASK IORESOURCE_MEM)
    as (l & H1 & H2 & _).
  - change (map snd _) with [10; 11]%nat. repeat constructor; set_solver.
  - exists l. split; [exact H1|]. exact H2.
Defined.
