(* ===== verification/AllocatorPlace.v ===== *)
(** * Where the allocator puts resources

    One bus: the windows [allocate_resources] hands out are aligned, inside the
    bridge's window, below every limit and disjoint; and the size
    [compute_resources] computes for the bridge is enough to place everything. *)

From Stdlib Require Import Sorted.
From S2P Require Import Prelude Device Allocator AllocatorOrder.

(** ** Rounding *)

Definition ceil (v k : Z) : Z := (v + 2 ^ k - 1) / 2 ^ k * 2 ^ k.

Lemma ceil_bounds v k : 0 <= k -> v <= ceil v k < v + 2 ^ k /\ (2 ^ k | ceil v k).
Proof.
  intros Hk. unfold ceil. pose proof (Z.pow_pos_nonneg 2 k ltac:(lia) Hk).
  pose proof (Z.div_mod (v + 2 ^ k - 1) (2 ^ k) ltac:(lia)).
  pose proof (Z.mod_pos_bound (v + 2 ^ k - 1) (2 ^ k) ltac:(lia)).
  split; [nia|]. by exists ((v + 2 ^ k - 1) / 2 ^ k).
Qed.

Lemma ceil_mono v w k : 0 <= k -> v <= w -> ceil v k <= ceil w k.
Proof.
  intros Hk Hvw. unfold ceil. pose proof (Z.pow_pos_nonneg 2 k ltac:(lia) Hk).
  apply Z.mul_le_mono_nonneg_r; [lia|]. apply Z.div_le_mono; lia.
Qed.

(** The least multiple not below [v]. *)
Lemma ceil_least v k x : 0 <= k -> v <= x -> (2 ^ k | x) -> ceil v k <= x.
Proof.
  intros Hk Hv [q ->]. pose proof (Z.pow_pos_nonneg 2 k ltac:(lia) Hk).
  destruct (ceil_bounds v k Hk) as [Hb [q' E]]. rewrite E in *.
  apply Z.mul_le_mono_nonneg_r; [lia|]. assert (q' * 2 ^ k < (q + 1) * 2 ^ k) by lia. nia.
Qed.

Lemma ceil_shift v k b : 0 <= k -> (2 ^ k | b) -> ceil (v + b) k = ceil v k + b.
Proof.
  intros Hk [q ->]. unfold ceil. pose proof (Z.pow_pos_nonneg 2 k ltac:(lia) Hk).
  replace (v + q * 2 ^ k + 2 ^ k - 1) with (v + 2 ^ k - 1 + q * 2 ^ k) by lia.
  rewrite Z.div_add by lia. lia.
Qed.

Lemma round_align_up v k : 0 <= k < 64 -> round v k = ALIGN_UP 64 v (2 ^ k).
Proof.
  intros Hk. unfold round, ALIGN_UP, u64. rewrite Z.shiftl_1_l.
  pose proof (pow2_le_pow2 k 63 ltac:(lia)). rewrite (wrap_small 64 (2 ^ k)) by lia. done.
Qed.

Lemma round_ceil v k : 0 <= k < 64 -> 0 <= v -> v + 2 ^ k - 1 < 2 ^ 64 -> round v k = ceil v k.
Proof.
  intros Hk Hv Hb. rewrite round_align_up by done.
  destruct (align_up_bounds 64 k v ltac:(lia) Hv Hb) as [H1 [q Hq]].
  destruct (ceil_bounds v k ltac:(lia)) as [H2 [q' Hq']].
  pose proof (Z.pow_pos_nonneg 2 k ltac:(lia) ltac:(lia)). rewrite Hq, Hq' in *. f_equal.
  assert (q' * 2 ^ k < (q + 1) * 2 ^ k) by lia. assert (q * 2 ^ k < (q' + 1) * 2 ^ k) by lia. nia.
Qed.

(** ** The I/O rule *)

Definition cursor_ok (c : Z) : Prop :=
  0 <= c <= 2 ^ 62 \/ (0 <= c <= 2 ^ 62 + 0x400 /\ (0x400 | c)).

Lemma low10_clear c : 0 <= c < 2 ^ 64 -> Z.land c (bnot 64 0x3ff) = c - c mod 0x400.
Proof.
  intros Hc. unfold bnot. rewrite land_wrap by lia.
  change 0x3ff with (2 ^ 10 - 1). rewrite land_lnot_pow2 by lia. done.
Qed.

Lemma land_300_zero c : (0x400 | c) -> Z.land c 0x300 = 0.
Proof.
  intros [q ->]. apply Z.bits_inj'. intros n Hn. rewrite Z.land_spec, Z.bits_0.
  change 0x400 with (2 ^ 10). rewrite <- Z.shiftl_mul_pow2 by lia.
  destruct (Z.lt_ge_cases n 10).
  - rewrite Z.shiftl_spec_low by lia. done.
  - rewrite (Z.bits_above_log2 0x300 n), andb_false_r; [done|lia|].
    change (Z.log2 0x300) with 9. lia.
Qed.

Lemma skip_legacy_io_spec f c : cursor_ok c ->
  c <= skip_legacy_io f c /\ cursor_ok (skip_legacy_io f c) /\
  (has f IORESOURCE_IO = false -> skip_legacy_io f c = c).
Proof.
  intros Hc. assert (Hr : 0 <= c <= 2 ^ 62 + 0x400) by (destruct Hc as [|[]]; lia).
  unfold skip_legacy_io. destruct (has f IORESOURCE_IO); [|auto with lia].
  destruct (Z.land c 0x300 =? 0) eqn:E; simpl.
  - destruct ((0x3b0 <=? c) && (c <=? 0x3df)) eqn:E2; [|auto with lia]. bool_to_prop.
    split; [lia|]. split; [left; lia|done].
  - destruct Hc as [Hc|[Hc Hd]]; [|apply land_300_zero in Hd; by rewrite Hd in E].
    rewrite low10_clear by lia. pose proof (Z.mod_pos_bound c 0x400 ltac:(lia)).
    pose proof (Z.div_mod c 0x400 ltac:(lia)).
    rewrite u64_small by lia. split; [lia|]. split; [|done]. right. split; [lia|].
    exists (c / 0x400 + 1). lia.
Qed.

(** ** One resource *)

(** Alignments, sizes and limits of address spaces that exist. *)
Definition sane (r : resource) : Prop :=
  0 <= res_align r <= 62 /\ 0 <= res_size r < 2 ^ 62 /\ 0 <= res_limit r /\ 0 <= res_base r.

Definition placed_flags (f : Z) : Z :=
  Z.land (Z.lor f IORESOURCE_ASSIGNED) (bnot 32 IORESOURCE_STORED).

(** [r] at [base]. *)
Definition placed_at (r : resource) (base : Z) : resource :=
  mk_resource base (res_size r) (base + res_size r - 1) (placed_flags (res_flags r))
    (res_index r) (res_align r) (res_gran r).

Definition capped (r : resource) (lim : Z) : resource := with_limit (Z.min (res_limit r) lim) r.

Lemma capped_spec r lim :
  (if lim <? res_limit r then with_limit lim r else r) = capped r lim.
Proof.
  unfold capped. destruct r as [b s l f i a g]; cbn. case_bool; bool_to_prop.
  - by rewrite Z.min_r by lia.
  - by rewrite Z.min_l by lia.
Qed.

Lemma allocate_one_spec st bridge p base :
  let r := get_res st p in
  let lim := res_limit (get_res st bridge) in
  sane r -> cursor_ok base -> 0 <= lim < 2 ^ 62 ->
  allocate_one st bridge p base =
  if res_size r =? 0 then
    (base, set_res st p (with_flags (Z.lor (res_flags r) IORESOURCE_ASSIGNED)
                           (with_base (Z.min (res_limit r) lim) (capped r lim))))
  else
    let c := skip_legacy_io (res_flags r) base in
    let b := ceil c (res_align r) in
    if b + res_size r - 1 <=? Z.min (res_limit r) lim
    then (b + res_size r, set_res st p (placed_at r b))
    else (c, set_res st p (capped r lim)).
Proof.
  intros r lim (Ha & Hs & Hl & _) Hc Hlim. unfold allocate_one. fold r lim. rewrite capped_spec.
  cbn [capped with_limit res_size res_align res_flags res_limit res_base].
  destruct (res_size r =? 0) eqn:E0; [done|]. bool_to_prop.
  destruct (skip_legacy_io_spec (res_flags r) base Hc) as (Hge & Hok & _).
  set (c := skip_legacy_io _ _) in *.
  assert (Hr : 0 <= c <= 2 ^ 62 + 0x400) by (destruct Hok as [|[]]; lia).
  pose proof (pow2_le_pow2 (res_align r) 62 ltac:(lia)).
  destruct (ceil_bounds c (res_align r) ltac:(lia)) as [Hb _].
  rewrite (round_ceil c (res_align r)) by lia. cbv zeta.
  set (b := ceil c _) in *.
  rewrite (u64_small (b + res_size r)) by lia. rewrite (u64_small (b + res_size r - 1)) by lia.
  case_bool; [|done]. cbn [capped with_limit with_base res_size res_flags].
  rewrite u64_small by lia. reflexivity.
Qed.

(** ** One bus *)

Lemma get_set_res st p q r : get_res (set_res st p r) q = if decide (q = p) then r else get_res st q.
Proof.
  unfold get_res, set_res. simpl. destruct (decide (q = p)) as [->|].
  - by rewrite lookup_insert_eq.
  - by rewrite lookup_insert_ne.
Qed.

Lemma set_res_same_tree st p r :
  core (res_flags r) = core (res_flags (get_res st p)) -> res_index r = res_index (get_res st p) ->
  same_tree st (set_res st p r).
Proof.
  intros Hf Hi. split; [done|]. split; [done|]. intros q. rewrite get_set_res.
  by destruct (decide (q = p)) as [->|].
Qed.

Lemma core_placed f : core (placed_flags f) = core f.
Proof.
  unfold placed_flags. rewrite core_clear; [apply core_lor|]; by vm_compute.
Qed.

Lemma allocate_one_frame st bridge p base :
  (forall q, q <> p -> get_res (snd (allocate_one st bridge p base)) q = get_res st q) /\
  same_tree st (snd (allocate_one st bridge p base)) /\
  key (snd (allocate_one st bridge p base)) p = key st p.
Proof.
  unfold allocate_one. rewrite capped_spec. set (r := capped _ _).
  assert (Hgen : forall b (r' : resource), core (res_flags r') = core (res_flags (get_res st p)) ->
    res_index r' = res_index (get_res st p) -> res_align r' = res_align (get_res st p) ->
    res_size r' = res_size (get_res st p) ->
    let st' := snd (b : Z, set_res st p r') in
    (forall q, q <> p -> get_res st' q = get_res st q) /\ same_tree st st' /\
    key st' p = key st p).
  { intros b r' Hf Hi Ha Hs st'. subst st'. cbn [snd]. split; [|split].
    - intros q Hq. rewrite get_set_res. by rewrite decide_False.
    - by apply set_res_same_tree.
    - unfold key. rewrite get_set_res, decide_True by done. by rewrite Ha, Hs. }
  repeat case_bool; apply Hgen; try done.
  - apply core_lor. by vm_compute.
  - apply core_placed.
Qed.

Lemma allocate_one_view W st0 st bridge p base :
  view W st0 st -> view W st0 (snd (allocate_one st bridge p base)).
Proof.
  intros Hv. apply (view_trans _ _ st); [done|].
  destruct (allocate_one_frame st bridge p base) as (Hq & Ht & Hk). split; [done|].
  intros q _. destruct (decide (q = p)) as [->|Hne]; [done|]. unfold key. by rewrite Hq.
Qed.

Definition allocate_step (bridge : nat) (st : dstate) (p : nat) (base : Z) : Z * dstate :=
  allocate_one st bridge p base.

Lemma allocate_loop_pick rounds fuel bus bridge tm t : forall st prev base,
  allocate_loop rounds fuel st bus bridge tm t prev base =
  pick_loop fuel bus tm t (allocate_step bridge) rounds st prev base.
Proof.
  induction rounds as [|rounds IH]; intros st prev base; [done|]. simpl.
  destruct (largest_resource _ _ _ _ _ _) as [[d p]|]; [|done]. unfold allocate_step at 1.
  destruct (allocate_one st bridge p base) as [b st']. apply IH.
Qed.

(** The loop visits the schedule, once. *)
Lemma allocate_loop_schedule fuel st bus bridge tm t base :
  NoDup (map snd (walk st fuel bus tm t)) -> Z.land tm core_mask = tm ->
  allocate_loop (S (count_resources st fuel bus tm t)) fuel st bus bridge tm t None base =
  run_steps (allocate_step bridge) (schedule st fuel bus tm t) (base, st).
Proof.
  intros HW Htm. rewrite allocate_loop_pick.
  apply (pick_loop_fold fuel bus tm t _ st _ HW Htm) with (S1 := []); try done.
  - intros st' p b Hv _. by apply allocate_one_view.
  - pose proof (schedule_length st fuel bus tm t). lia.
Qed.

Section Steps.
Variables (bridge : nat) (lim : Z).

(** What placing the list [l] from [base] on did. *)
Record placed_ok (st st' : dstate) (base base' : Z) (l placed : list nat) : Prop := {
  po_sub : sublist placed l;
  po_frame : forall q, q ∉ l -> get_res st' q = get_res st q;
  po_base : base <= base' /\ cursor_ok base';
  po_placed : forall p, p ∈ placed -> exists b,
    get_res st' p = placed_at (get_res st p) b /\ res_size (get_res st p) <> 0 /\
    (2 ^ res_align (get_res st p) | b) /\ base <= b /\ b + res_size (get_res st p) <= base' /\
    b + res_size (get_res st p) - 1 <= Z.min (res_limit (get_res st p)) lim;
  po_order : StronglySorted (fun p q =>
    res_base (get_res st' p) + res_size (get_res st p) <= res_base (get_res st' q)) placed;
  po_left : forall p, p ∈ l -> p ∉ placed -> res_size (get_res st p) <> 0 ->
    get_res st' p = capped (get_res st p) lim /\
    Z.min (res_limit (get_res st p)) lim <
      ceil base' (res_align (get_res st p)) + res_size (get_res st p) - 1;
  po_empty : forall p, p ∈ l -> res_size (get_res st p) = 0 ->
    get_res st' p = with_flags (Z.lor (res_flags (get_res st p)) IORESOURCE_ASSIGNED)
      (with_base (Z.min (res_limit (get_res st p)) lim) (capped (get_res st p) lim));
  po_cursor : (forall p, p ∈ l -> has (res_flags (get_res st p)) IORESOURCE_IO = false) ->
    base' = base \/ exists p, p ∈ placed /\
      base' = res_base (get_res st' p) + res_size (get_res st p)
}.

Lemma placed_ok_cons st st1 st' base base1 base' p l placed :
  p ∉ l -> (forall q, q <> p -> get_res st1 q = get_res st q) ->
  base <= base1 -> (has (res_flags (get_res st p)) IORESOURCE_IO = false -> base1 = base) ->
  placed_ok st1 st' base1 base' l placed -> sane (get_res st p) ->
  ((res_size (get_res st p) = 0 /\ get_res st1 p =
      with_flags (Z.lor (res_flags (get_res st p)) IORESOURCE_ASSIGNED)
      (with_base (Z.min (res_limit (get_res st p)) lim) (capped (get_res st p) lim)))
   \/ (res_size (get_res st p) <> 0 /\ get_res st1 p = capped (get_res st p) lim /\
       Z.min (res_limit (get_res st p)) lim <
         ceil base1 (res_align (get_res st p)) + res_size (get_res st p) - 1)) ->
  placed_ok st st' base base' (p :: l) placed.
Proof.
  intros Hp Hst1 Hb Hio [Hsub Hfr [Hbb Hc] Hpl Hord Hleft Hemp Hcur] [Ha _] Hcase.
  assert (Hne : forall q, q ∈ l -> q <> p) by (intros q Hq ->; done).
  assert (Hpp : p ∉ placed) by (intros H; by apply Hp, (elem_of_sublist placed l)).
  assert (Hplne : forall q, q ∈ placed -> q <> p) by (intros q Hq ->; done).
  split.
  - by apply sublist_cons.
  - intros q Hq. rewrite elem_of_cons in Hq. rewrite Hfr by naive_solver. apply Hst1. naive_solver.
  - split; [lia|done].
  - intros q Hq. rewrite <- (Hst1 q) by auto. destruct (Hpl q Hq) as (b & H1 & H2 & H3 & H4 & H5 & H6).
    exists b. repeat (split; [done || lia|]). lia.
  - clear -Hord Hst1 Hplne. induction Hord as [|q m Ho IH Hq]; [constructor|].
    constructor; [apply IH; intros; apply Hplne; by right|].
    rewrite Forall_forall in Hq |- *. intros r Hr. rewrite <- (Hst1 q) by (apply Hplne; by left). auto.
  - intros q [->|Hq]%elem_of_cons Hnp Hs.
    + destruct Hcase as [[? _]|(_ & H1 & H2)]; [done|]. rewrite Hfr by done. split; [done|].
      pose proof (ceil_mono base1 base' (res_align (get_res st p)) ltac:(lia) Hbb). lia.
    + rewrite <- (Hst1 q) by auto. rewrite <- (Hst1 q) in Hs by auto. auto.
  - intros q [->|Hq]%elem_of_cons Hs.
    + destruct Hcase as [[_ H]|[? _]]; [|done]. by rewrite Hfr.
    + rewrite <- (Hst1 q) by auto. rewrite <- (Hst1 q) in Hs by auto. auto.
  - intros Hall. rewrite Hio in Hcur by (apply Hall; by left). destruct Hcur as [->|(q & Hq & E)].
    + intros q Hq. rewrite (Hst1 q) by auto. apply Hall. by right.
    + by left.
    + right. exists q. split; [done|]. by rewrite <- (Hst1 q) by auto.
Qed.

Lemma placed_ok_take st st1 st' base b base' p l placed :
  p ∉ l -> (forall q, q <> p -> get_res st1 q = get_res st q) ->
  let r := get_res st p in
  placed_ok st1 st' (b + res_size r) base' l placed -> 0 <= res_size r ->
  res_size r <> 0 -> get_res st1 p = placed_at r b -> (2 ^ res_align r | b) -> base <= b ->
  b + res_size r - 1 <= Z.min (res_limit r) lim ->
  placed_ok st st' base base' (p :: l) (p :: placed).
Proof.
  intros Hp Hst1 r [Hsub Hfr [Hbb Hc] Hpl Hord Hleft Hemp Hcur] Hs0 Hs Hst1p Ha Hb Hlim.
  assert (Hne : forall q, q ∈ l -> q <> p) by (intros q Hq ->; done).
  assert (Hplne : forall q, q ∈ placed -> q <> p).
  { intros q Hq ->. by apply Hp, (elem_of_sublist placed l). }
  assert (Hpst : get_res st' p = placed_at r b) by (by rewrite Hfr).
  split.
  - by apply sublist_skip.
  - intros q Hq. rewrite elem_of_cons in Hq. rewrite Hfr by naive_solver. apply Hst1. naive_solver.
  - split; [lia|done].
  - intros q [->|Hq]%elem_of_cons.
    + exists b. fold r. repeat (split; [done || lia|]). lia.
    + rewrite <- (Hst1 q) by auto. destruct (Hpl q Hq) as (b' & H1 & H2 & H3 & H4 & H5 & H6).
      exists b'. repeat (split; [done || lia|]). lia.
  - constructor.
    + clear -Hord Hst1 Hplne. induction Hord as [|q m Ho IH Hq]; [constructor|].
      constructor; [apply IH; intros; apply Hplne; by right|].
      rewrite Forall_forall in Hq |- *. intros s Hr. rewrite <- (Hst1 q) by (apply Hplne; by left). auto.
    + rewrite Forall_forall. intros q Hq. rewrite Hpst. fold r. simpl.
      destruct (Hpl q Hq) as (b' & -> & _ & _ & H4 & _). simpl. lia.
  - intros q [->|Hq]%elem_of_cons Hnp Hs'; [destruct Hnp; by left|].
    rewrite <- (Hst1 q) by auto. rewrite <- (Hst1 q) in Hs' by auto. apply Hleft; [done| |done].
    intros H. apply Hnp. by right.
  - intros q [->|Hq]%elem_of_cons Hs'; [done|].
    rewrite <- (Hst1 q) by auto. rewrite <- (Hst1 q) in Hs' by auto. auto.
  - intros Hall. right. destruct Hcur as [->|(q & Hq & E)].
    + intros q Hq. rewrite (Hst1 q) by auto. apply Hall. by right.
    + exists p. split; [by left|]. by rewrite Hpst.
    + exists q. split; [by right|]. by rewrite <- (Hst1 q) by auto.
Qed.

Lemma run_steps_placed l : forall st base,
  NoDup l -> bridge ∉ l -> res_limit (get_res st bridge) = lim -> 0 <= lim < 2 ^ 62 ->
  (forall p, p ∈ l -> sane (get_res st p)) -> cursor_ok base ->
  exists placed, let '(base', st') := run_steps (allocate_step bridge) l (base, st) in
    placed_ok st st' base base' l placed.
Proof.
  induction l as [|p l IH]; intros st base Hnd Hbr Hl Hlim Hsane Hc.
  { exists []. simpl. split; [constructor|done|split; [lia|done]| |constructor| | |by left];
      by intros ? ?%not_elem_of_nil. }
  apply NoDup_cons in Hnd. destruct Hnd as [Hp Hnd]. rewrite not_elem_of_cons in Hbr.
  destruct Hbr as [Hbp Hbr].
  assert (Hsp : sane (get_res st p)) by (apply Hsane; by left).
  pose proof (allocate_one_spec st bridge p base Hsp Hc) as Hone. rewrite Hl in Hone.
  specialize (Hone Hlim). pose proof (allocate_one_frame st bridge p base) as (Hfr & _ & _).
  cbn [run_steps fold_left]. unfold allocate_step at 2.
  destruct (allocate_one st bridge p base) as [base1 st1] eqn:E. cbn [snd] in Hfr.
  assert (Hnext : cursor_ok base1 -> exists placed, let '(base', st') :=
      run_steps (allocate_step bridge) l (base1, st1) in placed_ok st1 st' base1 base' l placed).
  { intros Hc1. apply IH; [done|done|by rewrite Hfr|done| |done].
    intros q Hq. rewrite Hfr by (intros ->; done). apply Hsane. by right. }
  unfold run_steps in Hnext.
  destruct (skip_legacy_io_spec (res_flags (get_res st p)) base Hc) as (Hge & Hok & Hio).
  pose proof Hsp as (Ha & Hs & _).
  destruct (res_size (get_res st p) =? 0) eqn:E0.
  - injection Hone as -> ->. destruct (Hnext Hc) as [placed Hpl]. exists placed.
    destruct (fold_left _ l _) as [base' st']. bool_to_prop.
    eapply (placed_ok_cons st _ st' base base); [done|exact Hfr|lia|done|exact Hpl|done|].
    left. split; [done|]. by rewrite get_set_res, decide_True.
  - bool_to_prop. cbv zeta in Hone. revert Hone.
    match goal with |- context [if ?c then _ else _] => destruct c eqn:Ef end; intros Hone.
    + injection Hone as -> ->. bool_to_prop.
      destruct (ceil_bounds (skip_legacy_io (res_flags (get_res st p)) base)
        (res_align (get_res st p)) ltac:(lia)) as [Hcb Hd].
      assert (0 <= base) by (destruct Hc as [|[]]; lia).
      destruct (Hnext ltac:(left; lia)) as [placed Hpl]. exists (p :: placed).
      destruct (fold_left _ l _) as [base' st'].
      eapply (placed_ok_take st _ st' base); [done|exact Hfr|exact Hpl|lia|done| |done|lia|done].
      by rewrite get_set_res, decide_True.
    + injection Hone as -> ->. bool_to_prop.
      destruct (Hnext Hok) as [placed Hpl]. exists placed.
      destruct (fold_left _ l _) as [base' st'].
      eapply (placed_ok_cons st _ st' base); [done|exact Hfr|exact Hge|exact Hio|exact Hpl|done|].
      right. split; [done|]. split; [by rewrite get_set_res, decide_True|lia].
Qed.
End Steps.

(** What the allocator relies on: no resource is met twice, the bridge's own
    resource is not on its bus, and the numbers are those of real address
    spaces. *)
Record bus_ok (st : dstate) (fuel bus bridge : nat) (tm t : Z) : Prop := {
  bo_nodup : NoDup (map snd (walk st fuel bus tm t));
  bo_bridge : bridge ∉ map snd (walk st fuel bus tm t);
  bo_mask : Z.land tm core_mask = tm;
  bo_sane : forall p, p ∈ schedule st fuel bus tm t -> sane (get_res st p);
  bo_base : 0 <= res_base (get_res st bridge) <= 2 ^ 62;
  bo_limit : 0 <= res_limit (get_res st bridge) < 2 ^ 62
}.

Lemma schedule_not_bridge st fuel bus bridge tm t :
  bus_ok st fuel bus bridge tm t -> bridge ∉ schedule st fuel bus tm t.
Proof.
  intros H Hin. apply (bo_bridge _ _ _ _ _ _ H). by apply schedule_in in Hin as [Hin _].
Qed.

(** C6.  One bus is filled correctly.  The resources that get a window have it
    aligned, in the bridge's window and below their own limit, marked assigned,
    with the windows in the order of the schedule and disjoint; a resource is
    left out only if its window would not fit after everything placed; empty
    resources and resources not on the bus are never given a window. *)
Theorem allocate_bus_correct st fuel bus bridge tm t :
  bus_ok st fuel bus bridge tm t ->
  let st' := allocate_bus fuel st bus bridge tm t in
  let b := get_res st bridge in
  exists placed cursor, sublist placed (schedule st fuel bus tm t) /\
    (forall p, p ∈ placed -> let r := get_res st p in let r' := get_res st' p in
       (2 ^ res_align r | res_base r') /\ res_base b <= res_base r' /\
       res_limit r' = res_base r' + res_size r - 1 /\ res_limit r' <= res_limit r /\
       res_limit r' <= res_limit b /\ res_limit r' < cursor /\
       res_flags r' = placed_flags (res_flags r)) /\
    StronglySorted (fun p q => res_limit (get_res st' p) < res_base (get_res st' q)) placed /\
    (forall p, p ∈ schedule st fuel bus tm t -> p ∉ placed ->
       let r := get_res st p in let r' := get_res st' p in
       res_size r <> 0 -> res_base r' = res_base r /\ res_flags r' = res_flags r /\
       forall x, cursor <= x -> (2 ^ res_align r | x) ->
         Z.min (res_limit r) (res_limit b) < x + res_size r - 1) /\
    ((forall p, p ∈ schedule st fuel bus tm t ->
        has (res_flags (get_res st p)) IORESOURCE_IO = false) ->
      cursor = res_base b \/ exists p, p ∈ placed /\ cursor = res_limit (get_res st' p) + 1) /\
    (forall q, q ∉ schedule st fuel bus tm t -> q <> bridge -> get_res st' q = get_res st q).
Proof.
  intros Hok st' b. subst b. pose proof (schedule_not_bridge _ _ _ _ _ _ Hok) as Hnb.
  destruct Hok as [HW Hbr Htm Hsane Hbase Hlim]. subst st'. unfold allocate_bus.
  rewrite allocate_loop_schedule by done.
  destruct (run_steps_placed bridge (res_limit (get_res st bridge)) (schedule st fuel bus tm t) st (res_base (get_res st bridge))) as [placed H];
    [by apply schedule_NoDup|done|done|done|done|exact (or_introl Hbase)|].
  destruct (run_steps _ _ (res_base (get_res st bridge), st)) as [cursor st1].
  destruct H as [Hsub Hfr [Hbb Hc] Hpl Hord Hleft Hemp Hcur].
  assert (Hg : forall p, p <> bridge -> get_res (set_res st1 bridge (with_flags
      (Z.lor (res_flags (get_res st1 bridge)) IORESOURCE_ASSIGNED) (get_res st1 bridge))) p
      = get_res st1 p) by (intros p Hp; by rewrite get_set_res, decide_False).
  assert (Hin : forall p, p ∈ placed -> p ∈ schedule st fuel bus tm t)
    by (intros p Hp; by apply (elem_of_sublist placed)).
  assert (Hne : forall p, p ∈ schedule st fuel bus tm t -> p <> bridge) by (intros p Hp ->; done).
  exists placed, cursor. split; [done|]. split; [|split; [|split; [|split]]].
  - intros p Hp. cbv zeta. rewrite Hg by auto.
    destruct (Hpl p Hp) as (x & -> & H2 & H3 & H4 & H5 & H6). simpl.
    repeat (split; [done || lia|]). done.
  - clear -Hord Hg Hne Hin Hpl. induction Hord as [|p l Ho IH Hq]; [constructor|].
    constructor; [apply IH; intros q Hq'; (apply Hin || apply Hpl); by right|].
    rewrite Forall_forall in Hq |- *. intros q Hq'. specialize (Hq q Hq').
    rewrite !Hg by (apply Hne, Hin; by (left + right)).
    destruct (Hpl p ltac:(by left)) as (x & E & _). rewrite E in *. simpl in *. lia.
  - intros p Hp Hnp. cbv zeta. intros Hs. rewrite Hg by auto.
    destruct (Hleft p Hp Hnp Hs) as [-> Hx]. split; [done|]. split; [done|]. intros x Hxc Hd.
    pose proof (proj1 (Hsane p Hp)) as Ha.
    pose proof (ceil_least cursor (res_align (get_res st p)) x ltac:(lia) Hxc Hd). lia.
  - intros Hio. destruct (Hcur Hio) as [->|(p & Hp & ->)]; [by left|right]. exists p. split; [done|].
    rewrite Hg by auto. destruct (Hpl p Hp) as (x & -> & _). simpl. lia.
  - intros q Hq Hqb. rewrite Hg by done. by apply Hfr.
Qed.

Lemma sample_bus_ok base limit : 0 <= base <= 2 ^ 62 -> 0 <= limit < 2 ^ 62 ->
  bus_ok (sample_bus base limit) 5 0 12 IORESOURCE_TYPE_MASK IORESOURCE_MEM.
Proof.
  intros Hb Hl. destruct (sample_bus_walk base limit) as [HW HS].
  split; rewrite ?HW, ?HS; try done.
  - repeat constructor; set_solver.
  - set_solver.
  - intros p. rewrite !elem_of_cons, elem_of_nil. unfold sane.
    intros [->|[->|[]]]; vm_compute; repeat split; first [reflexivity | discriminate].
Qed.

(** The larger window comes first, both are assigned. *)
Lemma allocate_bus_correct_witness :
  let st := sample_bus 0x80000000 0x8fffffff in
  let st' := allocate_bus 5 st 0 12 IORESOURCE_TYPE_MASK IORESOURCE_MEM in
  (res_base (get_res st' 11), res_base (get_res st' 10)) = (0x80000000, 0x80100000) /\
  exists placed cursor,
    sublist placed (schedule st 5 0 IORESOURCE_TYPE_MASK IORESOURCE_MEM) /\
    (forall p, p ∈ placed -> let r := get_res st p in let r' := get_res st' p in
       (2 ^ res_align r | res_base r') /\ res_base (get_res st 12) <= res_base r' /\
       res_limit r' = res_base r' + res_size r - 1 /\ res_limit r' <= res_limit r /\
       res_limit r' <= res_limit (get_res st 12) /\ res_limit r' < cursor /\
       res_flags r' = placed_flags (res_flags r)).
Proof.
  split; [vm_compute; reflexivity|].
  destruct (allocate_bus_correct (sample_bus 0x80000000 0x8fffffff) 5 0 12
    IORESOURCE_TYPE_MASK IORESOURCE_MEM) as (placed & cursor & H1 & H2 & _).
  - apply sample_bus_ok; lia.
  - exists placed, cursor. split; [exact H1|exact H2].
Defined.
