(* ===== verification/AllocatorFit.v ===== *)
(** * The computed bridge size is enough

    [compute_resources] lays the resources of a bus out from offset 0 and
    sizes the bridge accordingly.  Wherever the bridge is later put, suitably
    aligned and below its computed limit, [allocate_resources] finds room for
    every resource, at the computed offsets. *)

From Stdlib Require Import Sorted.
From S2P Require Import Prelude Device Allocator AllocatorOrder AllocatorPlace.

(** ** The layout both passes follow *)

(** The I/O rule without machine arithmetic: leave the rest of a KiB whose
    first 256 addresses are used up. *)
Definition skip_io (f c : Z) : Z :=
  if has f IORESOURCE_IO && negb (Z.land c 0x300 =? 0) then c - c mod 0x400 + 0x400 else c.

Lemma land_300_mod c : Z.land c 0x300 = Z.land (c mod 0x400) 0x300.
Proof.
  change 0x400 with (2 ^ 10). rewrite <- Z.land_ones by lia. rewrite <- Z.land_assoc. done.
Qed.

Lemma vga_io_skipped c : 0x3b0 <= c <= 0x3df -> Z.land c 0x300 <> 0.
Proof.
  intros Hc. assert (H : forallb (fun n => negb (Z.land (0x3b0 + Z.of_nat n) 0x300 =? 0)) (seq 0 48) = true)
    by (by vm_compute).
  rewrite forallb_forall in H. specialize (H (Z.to_nat (c - 0x3b0))).
  rewrite in_seq in H. specialize (H ltac:(lia)). bool_to_prop.
  by replace (0x3b0 + Z.of_nat (Z.to_nat (c - 0x3b0))) with c in H by lia.
Qed.

Lemma skip_legacy_io_pure f c : 0 <= c < 2 ^ 63 -> skip_legacy_io f c = skip_io f c.
Proof.
  intros Hc. unfold skip_legacy_io, skip_io. destruct (has f IORESOURCE_IO); [|done].
  cbn [andb]. destruct (Z.land c 0x300 =? 0) eqn:E; cbn [negb].
  - destruct ((0x3b0 <=? c) && (c <=? 0x3df)) eqn:E2; [|done]. bool_to_prop.
    by destruct (vga_io_skipped c).
  - rewrite low10_clear by lia. pose proof (Z.mod_pos_bound c 0x400 ltac:(lia)).
    rewrite u64_small by lia. done.
Qed.

Lemma skip_io_ge f c : c <= skip_io f c <= c + 0x400.
Proof. unfold skip_io. pose proof (Z.mod_pos_bound c 0x400 ltac:(lia)). case_bool; lia. Qed.

Lemma skip_io_shift f c b : (has f IORESOURCE_IO = true -> (0x400 | b)) ->
  skip_io f (b + c) = b + skip_io f c.
Proof.
  intros Hb. unfold skip_io. destruct (has f IORESOURCE_IO); [|done].
  destruct (Hb eq_refl) as [q ->]. cbn [andb]. rewrite (land_300_mod (q * 0x400 + c)).
  replace (q * 0x400 + c) with (c + q * 0x400) by lia.
  rewrite Z.mod_add, <- land_300_mod by lia. case_bool; lia.
Qed.

(** The nonempty resources of [l] with their offsets, and where it ends. *)
Fixpoint pack (st : dstate) (l : list nat) (c : Z) : list (nat * Z) * Z :=
  match l with
  | [] => ([], c)
  | p :: l' =>
      let r := get_res st p in
      if res_size r =? 0 then pack st l' c
      else
        let b := ceil (skip_io (res_flags r) c) (res_align r) in
        ((p, b) :: (pack st l' (b + res_size r)).1, (pack st l' (b + res_size r)).2)
  end.

Lemma pack_ge st l : forall c, (forall p, p ∈ l -> sane (get_res st p)) -> c <= (pack st l c).2.
Proof.
  induction l as [|p l IH]; intros c Hs; [simpl; lia|]. simpl.
  assert (Hl : forall q, q ∈ l -> sane (get_res st q)) by (intros q Hq; apply Hs; by right).
  destruct (Hs p ltac:(by left)) as ((Ha & _) & (Hsz & _) & _).
  case_bool; [by apply IH|]. simpl. set (b := ceil _ _).
  pose proof (IH (b + res_size (get_res st p)) Hl).
  destruct (ceil_bounds (skip_io (res_flags (get_res st p)) c) (res_align (get_res st p)) Ha) as [Hb _].
  pose proof (skip_io_ge (res_flags (get_res st p)) c). lia.
Qed.

Lemma pack_shift st l b : (forall p, p ∈ l -> sane (get_res st p)) ->
  (forall p, p ∈ l -> res_size (get_res st p) <> 0 -> (2 ^ res_align (get_res st p) | b)) ->
  (forall p, p ∈ l -> has (res_flags (get_res st p)) IORESOURCE_IO = true -> (0x400 | b)) ->
  forall c, pack st l (b + c) = (map (fun x => (x.1, b + x.2)) (pack st l c).1, b + (pack st l c).2).
Proof.
  intros Hs Hal Hio. induction l as [|p l IH]; intros c; [done|]. simpl.
  assert (IH' := IH ltac:(intros; apply Hs; by right) ltac:(intros; apply Hal; [by right|done])
    ltac:(intros q Hq; apply (Hio q); by right)).
  destruct (Hs p ltac:(by left)) as ((Ha & _) & _).
  case_bool; [apply IH'|]. bool_to_prop.
  rewrite skip_io_shift by (apply (Hio p); by left).
  rewrite (Z.add_comm b (skip_io _ _)), ceil_shift by first [done | apply Hal; [by left|done]].
  replace (ceil (skip_io (res_flags (get_res st p)) c) (res_align (get_res st p)) + b +
      res_size (get_res st p)) with (b + (ceil (skip_io (res_flags (get_res st p)) c)
        (res_align (get_res st p)) + res_size (get_res st p))) by lia.
  rewrite IH'. simpl. do 3 f_equal. lia.
Qed.

Lemma pack_same st st' l : (forall p, p ∈ l -> key st' p = key st p) -> same_tree st st' ->
  forall c, pack st' l c = pack st l c.
Proof.
  intros Hk Ht. induction l as [|p l IH]; intros c; [done|]. simpl.
  pose proof (Hk p ltac:(by left)) as Hkp. unfold key in Hkp. injection Hkp as -> ->.
  unfold skip_io. rewrite (same_tree_flag st st' p IORESOURCE_IO Ht eq_refl).
  rewrite !IH by (intros; apply Hk; by right). done.
Qed.

Lemma pack_ext st st' l : (forall q, q ∈ l -> get_res st' q = get_res st q) ->
  forall c, pack st' l c = pack st l c.
Proof.
  intros H. induction l as [|q l IH]; intros c; [done|]. simpl. rewrite (H q) by (by left).
  by rewrite !IH by (intros; apply H; by right).
Qed.

Lemma pack_in st l : forall c q x, (q, x) ∈ (pack st l c).1 -> q ∈ l /\ res_size (get_res st q) <> 0.
Proof.
  induction l as [|p l IH]; intros c q x; simpl; [by intros ?%not_elem_of_nil|].
  rewrite elem_of_cons. case_bool; [intros H; destruct (IH _ _ _ H); auto|]. bool_to_prop. simpl.
  intros [[= -> ->]|H]%elem_of_cons; [auto|]. destruct (IH _ _ _ H). auto.
Qed.

Lemma pack_complete st l : forall c q, q ∈ l -> res_size (get_res st q) <> 0 ->
  exists x, (q, x) ∈ (pack st l c).1.
Proof.
  induction l as [|p l IH]; intros c q; simpl; [by intros ?%not_elem_of_nil|].
  intros [->|Hq]%elem_of_cons Hs.
  - destruct (res_size (get_res st p) =? 0) eqn:E; [by bool_to_prop|]. eexists. simpl. by left.
  - case_bool; [by apply IH|]. destruct (IH (ceil (skip_io (res_flags (get_res st p)) c)
      (res_align (get_res st p)) + res_size (get_res st p)) q Hq Hs) as [x Hx].
    exists x. simpl. by right.
Qed.

(** ** Sizing follows the layout *)

Definition compute_step (bridge : nat) (st : dstate) (p : nat) (base : Z) : Z * dstate :=
  if res_size (get_res st p) =? 0 then (base, st) else compute_one st bridge p base.

Lemma compute_loop_pick rounds fuel bus bridge tm t : forall st prev base,
  compute_loop rounds fuel st bus bridge tm t prev base =
  pick_loop fuel bus tm t (compute_step bridge) rounds st prev base.
Proof.
  induction rounds as [|rounds IH]; intros st prev base; [done|].
  cbn [compute_loop pick_loop]. destruct (largest_resource _ _ _ _ _ _) as [[d p]|]; [|done]. unfold compute_step at 1.
  case_bool; [apply IH|]. destruct (compute_one st bridge p base) as [b st']. apply IH.
Qed.

(** The bridge after one resource. *)
Definition grow (b r : resource) : resource :=
  with_limit (Z.min (res_limit b) (res_limit r)) (with_align (Z.max (res_align b) (res_align r)) b).

Lemma compute_one_spec st bridge p c : p <> bridge ->
  sane (get_res st p) -> 0 <= c -> let r := get_res st p in
  let b := ceil (skip_io (res_flags r) c) (res_align r) in b + res_size r <= 2 ^ 62 ->
  compute_one st bridge p c =
  (b + res_size r, set_res (set_res st bridge (grow (get_res st bridge) r)) p (with_base b r)).
Proof.
  intros Hp ((Ha & Ha2) & (Hs & _) & _) Hc r b Hb. unfold compute_one.
  assert (Hg : (let b := get_res st bridge in
    let b := if res_align b <? res_align (get_res st p) then with_align (res_align (get_res st p)) b else b in
    if res_limit (get_res st p) <? res_limit b then with_limit (res_limit (get_res st p)) b else b)
    = grow (get_res st bridge) r).
  { subst r. unfold grow. destruct (get_res st bridge) as [x1 x2 x3 x4 x5 x6 x7]; cbn.
    repeat case_bool; bool_to_prop; cbn in *; unfold with_limit, with_align; cbn; f_equal; lia. }
  cbv zeta in Hg. rewrite Hg. rewrite get_set_res, decide_False by done. fold r.
  destruct (ceil_bounds (skip_io (res_flags r) c) (res_align r) ltac:(done)) as [Hcb _]. fold b in Hcb.
  pose proof (skip_io_ge (res_flags r) c) as Hsk.
  rewrite skip_legacy_io_pure by (fold r in Hs; lia).
  pose proof (pow2_le_pow2 (res_align r) 62 ltac:(subst r; lia)).
  rewrite round_ceil by (subst r; lia). fold b. by rewrite u64_small by (subst r; lia).
Qed.

(** What sizing did to the resources and the bridge. *)
Record sized_ok (bridge : nat) (l : list nat) (st st' : dstate) (o : list (nat * Z)) : Prop := {
  so_tree : same_tree st st';
  so_frame : forall q, q <> bridge -> with_base 0 (get_res st' q) = with_base 0 (get_res st q);
  so_others : forall q, q <> bridge -> q ∉ l -> get_res st' q = get_res st q;
  so_empty : forall p, p ∈ l -> res_size (get_res st p) = 0 -> get_res st' p = get_res st p;
  so_base : forall p b, (p, b) ∈ o -> res_base (get_res st' p) = b;
  so_bridge : exists a lim, get_res st' bridge = with_limit lim (with_align a (get_res st bridge)) /\
    res_align (get_res st bridge) <= a <= Z.max 62 (res_align (get_res st bridge)) /\
    lim <= res_limit (get_res st bridge) /\
    (forall p, p ∈ l -> res_size (get_res st p) <> 0 ->
       res_align (get_res st p) <= a /\ lim <= res_limit (get_res st p))
}.

Lemma sized_ok_refl bridge st : sized_ok bridge [] st st [].
Proof.
  split; try done; [by intros ? ? ?%not_elem_of_nil|].
  exists (res_align (get_res st bridge)), (res_limit (get_res st bridge)).
  split; [by destruct (get_res st bridge)|]. split; [lia|]. split; [lia|].
  by intros ? ?%not_elem_of_nil.
Qed.

Lemma with_base_fields r r' : with_base 0 r = with_base 0 r' ->
  res_size r = res_size r' /\ res_limit r = res_limit r' /\ res_flags r = res_flags r' /\
  res_index r = res_index r' /\ res_align r = res_align r' /\ res_gran r = res_gran r'.
Proof. destruct r, r'. cbn. by intros [= -> -> -> -> -> ->]. Qed.

Section Sizing.
Variable bridge : nat.

(** The state after one resource, against the state before. *)
Definition after_one (st : dstate) (p : nat) (b : Z) : dstate :=
  set_res (set_res st bridge (grow (get_res st bridge) (get_res st p))) p
    (with_base b (get_res st p)).

Lemma after_one_get st p b q : p <> bridge ->
  get_res (after_one st p b) q =
  if decide (q = p) then with_base b (get_res st p)
  else if decide (q = bridge) then grow (get_res st bridge) (get_res st p) else get_res st q.
Proof. intros Hp. unfold after_one. by rewrite !get_set_res. Qed.

Lemma sized_ok_cons st st' p b l o :
  p <> bridge -> p ∉ l -> bridge ∉ l -> sane (get_res st p) -> res_size (get_res st p) <> 0 ->
  sized_ok bridge l (after_one st p b) st' o ->
  sized_ok bridge (p :: l) st st' ((p, b) :: o).
Proof.
  intros Hp Hpl Hbl (Ha & _) Hs0 [Ht Hfr Ho Hem Hb (a & lim & Hbr & Ha1 & Hl1 & Hall)].
  assert (Hget := fun q => after_one_get st p b q Hp).
  assert (Hgb : get_res (after_one st p b) bridge = grow (get_res st bridge) (get_res st p)).
  { rewrite Hget, decide_False, decide_True by done. done. }
  split.
  - apply (same_tree_trans _ (after_one st p b)); [|done].
    split; [done|]. split; [done|]. intros q. rewrite Hget.
    destruct (decide (q = p)) as [->|]; [done|]. by destruct (decide (q = bridge)) as [->|].
  - intros q Hq. rewrite Hfr by done. rewrite Hget.
    destruct (decide (q = p)) as [->|]; [done|]. by rewrite decide_False.
  - intros q Hq Hql. rewrite elem_of_cons in Hql. rewrite Ho by naive_solver. rewrite Hget.
    by rewrite !decide_False by naive_solver.
  - intros q [->|Hq]%elem_of_cons Hq0; [done|].
    assert (Hqg : get_res (after_one st p b) q = get_res st q).
    { rewrite Hget. by rewrite !decide_False by (intros ->; done). }
    rewrite <- Hqg in Hq0 |- *. auto.
  - intros q c [[= -> ->]|Hq]%elem_of_cons; [|by apply Hb].
    rewrite Ho by done. rewrite Hget. by rewrite decide_True.
  - exists a, lim. rewrite Hgb in *. cbn [grow with_limit with_align res_align res_limit] in *.
    split; [by rewrite Hbr|]. split; [lia|]. split; [lia|].
    intros q [->|Hq]%elem_of_cons Hs; [lia|].
    assert (Hqg : get_res (after_one st p b) q = get_res st q).
    { rewrite Hget. by rewrite !decide_False by (intros ->; done). }
    rewrite <- Hqg in Hs. rewrite <- Hqg. by apply Hall.
Qed.

Lemma sized_ok_skip st st' p l o : res_size (get_res st p) = 0 -> p <> bridge -> p ∉ l ->
  sized_ok bridge l st st' o -> sized_ok bridge (p :: l) st st' o.
Proof.
  intros Hs Hpb Hpl [Ht Hfr Ho Hem Hb (a & lim & Hbr & Ha1 & Hl1 & Hall)]. split; try done.
  - intros q Hq Hql. apply Ho; [done|]. rewrite elem_of_cons in Hql. naive_solver.
  - intros q [->|Hq]%elem_of_cons Hq0; auto.
  - exists a, lim. repeat (split; [done|]). intros q [->|Hq]%elem_of_cons Hq0; [done|auto].
Qed.

Lemma run_steps_sized l : forall st c,
  NoDup l -> bridge ∉ l -> (forall p, p ∈ l -> sane (get_res st p)) -> 0 <= c ->
  (pack st l c).2 <= 2 ^ 62 ->
  exists st', run_steps (compute_step bridge) l (c, st) = ((pack st l c).2, st') /\
    sized_ok bridge l st st' (pack st l c).1.
Proof.
  induction l as [|p l IH]; intros st c Hnd Hbr Hs Hc He.
  { exists st. split; [done|apply sized_ok_refl]. }
  apply NoDup_cons in Hnd. destruct Hnd as [Hp Hnd]. rewrite not_elem_of_cons in Hbr.
  destruct Hbr as [Hpb Hbr]. pose proof (Hs p ltac:(by left)) as Hsp.
  assert (Hsl : forall q, q ∈ l -> sane (get_res st q)) by (intros q Hq; apply Hs; by right).
  cbn [pack] in *. cbn [run_steps fold_left]. unfold compute_step at 2.
  destruct (res_size (get_res st p) =? 0) eqn:E0; bool_to_prop.
  - destruct (IH st c Hnd Hbr Hsl Hc He) as (st' & H1 & H2). exists st'.
    split; [done|by apply sized_ok_skip].
  - set (b := ceil (skip_io (res_flags (get_res st p)) c) (res_align (get_res st p))) in *.
    cbn [fst snd] in *. pose proof (pack_ge st l (b + res_size (get_res st p)) Hsl) as Hge.
    destruct (ceil_bounds (skip_io (res_flags (get_res st p)) c) (res_align (get_res st p))
      ltac:(destruct Hsp; lia)) as [Hcb _]. fold b in Hcb.
    pose proof (skip_io_ge (res_flags (get_res st p)) c) as Hsk.
    rewrite (compute_one_spec st bridge p c) by (done || fold b; lia).
    fold b. change (set_res (set_res st bridge _) p _) with (after_one st p b).
    assert (Hget : forall q, q ∈ l -> get_res (after_one st p b) q = get_res st q).
    { intros q Hq. rewrite after_one_get by done. by rewrite !decide_False by (intros ->; done). }
    assert (Hpack : pack (after_one st p b) l (b + res_size (get_res st p)) =
                    pack st l (b + res_size (get_res st p))).
    { by apply pack_ext. }
    destruct (IH (after_one st p b) (b + res_size (get_res st p))) as (st' & H1 & H2); try done.
    + intros q Hq. rewrite Hget by done. auto.
    + destruct Hsp as (_ & (? & _) & _). lia.
    + by rewrite Hpack.
    + rewrite Hpack in *. exists st'. split; [exact H1|]. by apply sized_ok_cons.
Qed.
End Sizing.

(** ** Placing follows it too *)

Lemma run_steps_frame bridge l : forall c q, q ∉ l ->
  get_res (snd (run_steps (allocate_step bridge) l c)) q = get_res (snd c) q.
Proof.
  induction l as [|p l IH]; intros [c st] q Hq; [done|]. rewrite not_elem_of_cons in Hq.
  destruct Hq as [Hqp Hq]. cbn [run_steps fold_left]. unfold run_steps in IH. rewrite IH by done.
  unfold allocate_step. by rewrite (proj1 (allocate_one_frame st bridge p c)).
Qed.

Lemma run_steps_fit bridge lim l : forall st c,
  NoDup l -> bridge ∉ l -> (forall p, p ∈ l -> sane (get_res st p)) -> 0 <= c ->
  res_limit (get_res st bridge) = lim -> 0 <= lim < 2 ^ 62 ->
  (forall p, p ∈ l -> res_size (get_res st p) <> 0 -> lim <= res_limit (get_res st p)) ->
  (pack st l c).2 - 1 <= lim ->
  forall p b, (p, b) ∈ (pack st l c).1 ->
    get_res (snd (run_steps (allocate_step bridge) l (c, st))) p = placed_at (get_res st p) b.
Proof.
  induction l as [|p l IH]; intros st c Hnd Hbr Hs Hc Hl Hlim Hall He q b; [by intros ?%not_elem_of_nil|].
  apply NoDup_cons in Hnd. destruct Hnd as [Hp Hnd]. rewrite not_elem_of_cons in Hbr.
  destruct Hbr as [Hpb Hbr]. pose proof (Hs p ltac:(by left)) as Hsp.
  assert (Hsl : forall q, q ∈ l -> sane (get_res st q)) by (intros r Hr; apply Hs; by right).
  pose proof (allocate_one_spec st bridge p c Hsp) as Hone. rewrite Hl in Hone.
  pose proof (allocate_one_frame st bridge p c) as (Hfr & _).
  pose proof (pack_ge st (p :: l) c Hs) as Hge0.
  specialize (Hone ltac:(left; lia) Hlim).
  assert (Hfrl : forall r, r ∈ l -> get_res (snd (allocate_one st bridge p c)) r = get_res st r)
    by (intros r Hr; apply Hfr; intros ->; done).
  assert (Hnext : forall c1, 0 <= c1 -> (pack st l c1).2 - 1 <= lim -> (q, b) ∈ (pack st l c1).1 ->
    get_res (snd (run_steps (allocate_step bridge) l (c1, snd (allocate_one st bridge p c)))) q =
    placed_at (get_res st q) b).
  { intros c1 Hc1 He1 Hq. destruct (pack_in _ _ _ _ _ Hq) as [Hql _].
    rewrite (IH (snd (allocate_one st bridge p c)) c1) with (b := b); try done.
    - by rewrite Hfrl.
    - intros r Hr. rewrite Hfrl by done. auto.
    - by rewrite Hfr.
    - intros r Hr. rewrite Hfrl by done. apply Hall. by right.
    - by rewrite (pack_ext _ _ l Hfrl).
    - by rewrite (pack_ext _ _ l Hfrl). }
  cbn [pack run_steps fold_left] in *. unfold allocate_step at 2.
  pose proof Hsp as (Ha & Hsz & _).
  destruct (res_size (get_res st p) =? 0) eqn:E0.
  - intros Hq. rewrite Hone in *. by apply Hnext.
  - bool_to_prop. cbn [fst snd] in *. rewrite skip_legacy_io_pure in Hone by lia.
    set (x := ceil _ _) in *.
    destruct (ceil_bounds (skip_io (res_flags (get_res st p)) c) (res_align (get_res st p))
      ltac:(lia)) as [Hcb _]. fold x in Hcb.
    pose proof (skip_io_ge (res_flags (get_res st p)) c) as Hsk.
    pose proof (pack_ge st l (x + res_size (get_res st p)) Hsl) as Hge.
    pose proof (Hall p ltac:(by left) E0) as Hlp. cbv zeta in Hone.
    destruct (x + res_size (get_res st p) - 1 <=? _) eqn:Ef; bool_to_prop; [|lia].
    rewrite Hone in *. cbn [fst snd] in *.
    intros [[= -> ->]|Hq]%elem_of_cons; [|by apply Hnext; [lia| |]].
    pose proof (run_steps_frame bridge l (x + res_size (get_res st p),
      set_res st p (placed_at (get_res st p) x)) p Hp) as Hf. unfold run_steps in Hf.
    rewrite Hf. cbn [snd]. by rewrite get_set_res, decide_True.
Qed.

(** ** Sizing, then placing *)

Lemma compute_one_view W st0 st bridge p base :
  bridge ∉ W -> p ∈ W -> view W st0 st -> view W st0 (snd (compute_one st bridge p base)).
Proof.
  intros Hb Hp Hv. apply (view_trans _ _ st); [done|]. unfold compute_one. cbv zeta. cbn [snd].
  set (b := if _ <? res_limit _ then _ else _).
  assert (Hbr : res_flags b = res_flags (get_res st bridge) /\
                res_index b = res_index (get_res st bridge)).
  { subst b. by repeat case_bool. }
  assert (Hne : p <> bridge) by (intros ->; done).
  split.
  - apply (same_tree_trans _ (set_res st bridge b)).
    + apply set_res_same_tree; [by rewrite (proj1 Hbr)|apply Hbr].
    + by apply set_res_same_tree.
  - intros q Hq. assert (q <> bridge) by (intros ->; done). unfold key.
    rewrite !get_set_res. rewrite !(decide_False (P := q = bridge)) by done.
    destruct (decide (q = p)) as [->|]; [|done]. by rewrite decide_False.
Qed.

(** The sizing loop goes over the schedule. *)
Lemma compute_loop_schedule fuel st bus bridge tm t base :
  NoDup (map snd (walk st fuel bus tm t)) -> bridge ∉ map snd (walk st fuel bus tm t) ->
  Z.land tm core_mask = tm ->
  compute_loop (S (count_resources st fuel bus tm t)) fuel st bus bridge tm t None base =
  run_steps (compute_step bridge) (schedule st fuel bus tm t) (base, st).
Proof.
  intros HW Hb Htm. rewrite compute_loop_pick.
  apply (pick_loop_fold fuel bus tm t _ st _ HW Htm) with (S1 := []); try done.
  - intros st' p b Hv Hp. unfold compute_step. case_bool; [done|]. by apply compute_one_view.
  - pose proof (schedule_length st fuel bus tm t). lia.
Qed.

Lemma round_0 k : 0 <= k < 64 -> round 0 k = 0.
Proof.
  intros Hk. pose proof (pow2_le_pow2 k 63 ltac:(lia)). rewrite round_ceil by lia.
  unfold ceil. pose proof (Z.pow_pos_nonneg 2 k ltac:(lia) ltac:(lia)).
  by rewrite Z.div_small by lia.
Qed.

(** Where the layout puts the resource, and what it needs. *)
Lemma compute_bus_spec st fuel bus bridge tm t :
  bus_ok st fuel bus bridge tm t ->
  let l := schedule st fuel bus tm t in
  let b := get_res st bridge in
  res_base b = 0 -> 0 <= res_align b <= 62 -> 0 <= res_gran b <= 62 ->
  (pack st l 0).2 <= 2 ^ 62 ->
  exists st', sized_ok bridge l st st' (pack st l 0).1 /\
    let st1 := compute_bus fuel st bus bridge tm t 0 in
    st1 = set_res st' bridge (with_size (ceil (pack st l 0).2 (res_gran b)) (get_res st' bridge)).
Proof.
  intros Hok l b Hb Ha Hg He. pose proof (schedule_not_bridge _ _ _ _ _ _ Hok) as Hnb.
  destruct Hok as [HW Hbr Htm Hsane _ _].
  destruct (run_steps_sized bridge l st 0) as (st' & Hrun & Hs); [by apply schedule_NoDup|done|done|done|done|].
  exists st'. split; [done|]. cbv zeta. unfold compute_bus.
  rewrite compute_loop_schedule by done. fold l. rewrite Hrun.
  destruct (so_bridge _ _ _ _ _ Hs) as (a & lim & -> & Ha1 & _). fold b in Ha1. fold b.
  cbn [with_limit with_align res_base res_align res_gran]. rewrite Hb, (round_0 a) by lia.
  pose proof (pack_ge st l 0 Hsane). pose proof (pow2_le_pow2 (res_gran b) 62 ltac:(lia)).
  pose proof (Z.pow_pos_nonneg 2 (res_gran b) ltac:(lia) ltac:(lia)).
  rewrite round_ceil by lia.
  destruct (ceil_bounds (pack st l 0).2 (res_gran b) ltac:(lia)) as [Hc _].
  by rewrite Z.sub_0_r, u64_small by lia.
Qed.

Lemma pack_bounds st l : forall c q x, (forall p, p ∈ l -> sane (get_res st p)) ->
  (q, x) ∈ (pack st l c).1 -> c <= x /\ x + res_size (get_res st q) <= (pack st l c).2.
Proof.
  induction l as [|p l IH]; intros c q x Hs; simpl; [by intros ?%not_elem_of_nil|].
  assert (Hl : forall r, r ∈ l -> sane (get_res st r)) by (intros r Hr; apply Hs; by right).
  destruct (Hs p ltac:(by left)) as ((Ha & _) & (Hsz & _) & _).
  case_bool; [by apply IH|]. simpl. set (b := ceil _ _).
  destruct (ceil_bounds (skip_io (res_flags (get_res st p)) c) (res_align (get_res st p)) Ha)
    as [Hb _]. fold b in Hb. pose proof (skip_io_ge (res_flags (get_res st p)) c).
  pose proof (pack_ge st l (b + res_size (get_res st p)) Hl).
  intros [[= -> ->]|Hq]%elem_of_cons; [lia|]. destruct (IH _ _ _ Hl Hq). lia.
Qed.

(** What sizing leaves on the bus, in the terms of filling it. *)
Lemma compute_bus_view st fuel bus bridge tm t :
  bus_ok st fuel bus bridge tm t ->
  let l := schedule st fuel bus tm t in
  let b := get_res st bridge in
  res_base b = 0 -> 0 <= res_align b <= 62 -> 0 <= res_gran b <= 62 ->
  (pack st l 0).2 <= 2 ^ 62 ->
  let st1 := compute_bus fuel st bus bridge tm t 0 in
  let b1 := get_res st1 bridge in
  same_tree st st1 /\ (pack st l 0).2 <= res_size b1 /\
  (forall q, q ∈ map snd (walk st fuel bus tm t) ->
     with_base 0 (get_res st1 q) = with_base 0 (get_res st q)) /\
  (forall q, q ∈ l -> 0 <= res_base (get_res st1 q)) /\
  (forall q x, (q, x) ∈ (pack st l 0).1 -> res_base (get_res st1 q) = x) /\
  (forall q, q ∈ l -> res_size (get_res st q) <> 0 ->
     res_align (get_res st q) <= res_align b1 /\ res_limit b1 <= res_limit (get_res st q)).
Proof.
  intros Hok l b Hb Ha Hg He st1 b1.
  pose proof (compute_bus_spec st fuel bus bridge tm t Hok Hb Ha Hg He) as (st' & Hsz & Hst1).
  fold l in Hsz, Hst1. cbv zeta in Hst1. fold st1 in Hst1.
  pose proof (bo_sane _ _ _ _ _ _ Hok) as Hsane. fold l in Hsane.
  pose proof (bo_bridge _ _ _ _ _ _ Hok) as HbW.
  pose proof (schedule_not_bridge _ _ _ _ _ _ Hok) as Hnb. fold l in Hnb.
  assert (Hq1 : forall q, q <> bridge -> get_res st1 q = get_res st' q).
  { intros q Hq. rewrite Hst1, get_set_res. by rewrite decide_False. }
  assert (Hb1 : b1 = with_size (ceil (pack st l 0).2 (res_gran b)) (get_res st' bridge)).
  { unfold b1. rewrite Hst1, get_set_res. by rewrite decide_True. }
  assert (Hbase : forall q x, (q, x) ∈ (pack st l 0).1 -> res_base (get_res st1 q) = x).
  { intros q x Hq. destruct (pack_in _ _ _ _ _ Hq) as [Hql _].
    rewrite Hq1 by (intros ->; done). by apply (so_base _ _ _ _ _ Hsz). }
  destruct (so_bridge _ _ _ _ _ Hsz) as (a & lim & Hbr' & Ha1 & Hl1 & Hall).
  split; [|split; [|split; [|split; [|split]]]].
  - rewrite Hst1. apply (same_tree_trans _ st'); [apply (so_tree _ _ _ _ _ Hsz)|].
    by apply set_res_same_tree.
  - rewrite Hb1. cbn [with_size res_size].
    destruct (ceil_bounds (pack st l 0).2 (res_gran b) ltac:(lia)) as [Hc _]. lia.
  - intros q Hq. assert (q <> bridge) by (intros ->; done).
    rewrite Hq1 by done. by apply (so_frame _ _ _ _ _ Hsz).
  - intros q Hq. destruct (Z.eq_dec (res_size (get_res st q)) 0) as [E|E].
    + rewrite Hq1 by (intros ->; done). apply (so_empty _ _ _ _ _ Hsz) in E as ->; [|done].
      apply Hsane. done.
    + destruct (pack_complete st l 0 q Hq E) as [x Hx]. rewrite (Hbase q x Hx).
      destruct (pack_bounds st l 0 q x Hsane Hx). lia.
  - done.
  - intros q Hq Hs. rewrite Hb1, Hbr'. cbn. by apply Hall.
Qed.

(** C30.  The size computed for a bridge is enough.  [st1] is the tree after
    the bridge's bus was sized, [st2] the tree when the bus is filled: the
    resources of the bus are as sizing left them, and the bridge's window
    begins at a multiple of the computed alignment, is at least as large as the
    computed size and ends below the computed limit.  Then every resource that
    is not empty is placed, at its computed offset in the window and inside the
    computed size. *)
Theorem compute_then_allocate_fits st fuel bus bridge tm t st2 :
  bus_ok st fuel bus bridge tm t ->
  let l := schedule st fuel bus tm t in
  let b := get_res st bridge in
  res_base b = 0 -> 0 <= res_align b <= 62 -> 0 <= res_gran b <= 62 ->
  (pack st l 0).2 <= 2 ^ 62 ->
  let st1 := compute_bus fuel st bus bridge tm t 0 in
  let b1 := get_res st1 bridge in
  same_tree st1 st2 ->
  (forall p, p ∈ map snd (walk st fuel bus tm t) -> get_res st2 p = get_res st1 p) ->
  let b2 := get_res st2 bridge in
  0 <= res_base b2 -> (2 ^ res_align b1 | res_base b2) ->
  ((exists p, p ∈ l /\ has (res_flags (get_res st p)) IORESOURCE_IO = true) ->
     (0x400 | res_base b2)) ->
  res_base b2 + res_size b1 - 1 <= res_limit b2 <= res_limit b1 -> 0 <= res_limit b2 < 2 ^ 62 ->
  let st3 := allocate_bus fuel st2 bus bridge tm t in
  forall p, p ∈ l -> res_size (get_res st p) <> 0 ->
    get_res st3 p = placed_at (get_res st2 p) (res_base b2 + res_base (get_res st1 p)) /\
    0 <= res_base (get_res st1 p) /\
    res_base (get_res st1 p) + res_size (get_res st p) <= res_size b1.
Proof.
  intros Hok l b Hb Ha Hg He st1 b1 Ht H2 b2 HB0 Hal Hio Hfit Hlim st3 p Hp Hs.
  pose proof (schedule_not_bridge _ _ _ _ _ _ Hok) as Hnb. fold l in Hnb.
  pose proof (compute_bus_view st fuel bus bridge tm t Hok Hb Ha Hg He)
    as (Ht1 & Hsz & Hsame & Hpos & Hbase & Hall).
  fold l st1 b1 in Ht1, Hsz, Hsame, Hpos, Hbase, Hall.
  pose proof (same_tree_trans _ _ _ Ht1 Ht) as Ht2.
  destruct Hok as [HW Hbr Htm Hsane _ _]. fold l in Hsane.
  set (W := map snd (walk st fuel bus tm t)) in *.
  assert (HlW : forall q, q ∈ l -> q ∈ W) by (intros q Hq; by apply schedule_in in Hq as [Hq _]).
  assert (Hkey : forall q, q ∈ W -> key st2 q = key st q).
  { intros q Hq. unfold key. rewrite H2 by done.
    by destruct (with_base_fields _ _ (Hsame q Hq)) as (-> & _ & _ & _ & -> & _). }
  assert (HS2 : schedule st2 fuel bus tm t = l) by (by apply schedule_same).
  assert (HW2 : walk st2 fuel bus tm t = walk st fuel bus tm t) by (by apply walk_same).
  assert (Hpk : pack st2 l (res_base b2) =
    (map (fun x => (x.1, res_base b2 + x.2)) (pack st l 0).1, res_base b2 + (pack st l 0).2)).
  { rewrite (pack_same st st2 l); [|intros q Hq; by apply Hkey, HlW|done].
    rewrite <- (Z.add_0_r (res_base b2)) at 1. apply pack_shift; [done| |].
    - intros q Hq Hq0. apply (Z.divide_trans _ (2 ^ res_align b1)); [|done].
      destruct (Hall q Hq Hq0), (Hsane q Hq). exists (2 ^ (res_align b1 - res_align (get_res st q))).
      rewrite <- Z.pow_add_r by lia. f_equal. lia.
    - intros q Hq Hf. apply Hio. by exists q. }
  destruct (pack_complete st l 0 p Hp Hs) as [x Hx].
  destruct (pack_bounds st l 0 p x Hsane Hx) as [Hx0 Hx1]. rewrite (Hbase p x Hx).
  split; [|lia]. unfold st3, allocate_bus.
  rewrite allocate_loop_schedule by (rewrite ?HW2; done). rewrite HS2.
  pose proof (run_steps_fit bridge (res_limit b2) l st2 (res_base b2)) as Hrun.
  fold b2. destruct (run_steps _ l (res_base b2, st2)) as [c st4].
  rewrite get_set_res, decide_False by (intros ->; done). apply Hrun; try done.
  - by apply schedule_NoDup.
  - intros q Hq. rewrite H2 by auto. destruct (Hsane q Hq) as (? & ? & ? & _).
    destruct (with_base_fields _ _ (Hsame q (HlW q Hq))) as (E1 & E2 & _ & _ & E3 & _).
    unfold sane. rewrite E1, E2, E3. pose proof (Hpos q Hq). auto.
  - intros q Hq. rewrite H2 by auto.
    destruct (with_base_fields _ _ (Hsame q (HlW q Hq))) as (-> & -> & _).
    intros Hq0. destruct (Hall q Hq Hq0). lia.
  - rewrite Hpk. simpl. lia.
  - rewrite Hpk. apply list_elem_of_In, in_map_iff. exists (p, x). by rewrite <- list_elem_of_In.
Qed.

(** The sample bus is sized, its window put at 2 GiB, and filled. *)
Lemma compute_then_allocate_fits_witness :
  let st := sample_bus 0 0xffffffff in
  let st1 := compute_bus 5 st 0 12 IORESOURCE_TYPE_MASK IORESOURCE_MEM 0 in
  let st2 := set_res st1 12 (with_limit 0x801fffff (with_base 0x80000000 (get_res st1 12))) in
  let st3 := allocate_bus 5 st2 0 12 IORESOURCE_TYPE_MASK IORESOURCE_MEM in
  res_size (get_res st1 12) = 0x200000 /\
  get_res st3 10 = placed_at (get_res st2 10) 0x80100000.
Proof.
  intros st st1 st2 st3. split; [vm_compute; reflexivity|].
  destruct (sample_bus_walk 0 0xffffffff) as [HW HS].
  destruct (compute_then_allocate_fits st 5 0 12 IORESOURCE_TYPE_MASK IORESOURCE_MEM st2)
    with (p := 10%nat) as [H _].
  - apply sample_bus_ok; lia.
  - reflexivity.
  - vm_compute. split; discriminate.
  - vm_compute. split; discriminate.
  - vm_compute. discriminate.
  - by apply set_res_same_tree.
  - intros p. unfold st. rewrite HW, !elem_of_cons, elem_of_nil. intros [->|[->|[]]]; reflexivity.
  - vm_compute. discriminate.
  - exists 0x800. vm_compute. reflexivity.
  - intros _. exists 0x200000. vm_compute. reflexivity.
  - vm_compute. split; discriminate.
  - vm_compute. split; [discriminate|reflexivity].
  - unfold st. rewrite HS. set_solver.
  - vm_compute. discriminate.
  - exact H.
Defined.
