(* ===== verification/AllocatorAvoid.v ===== *)
(** * Stepping aside from fixed resources

    [avoid_fixed_resources] shrinks the windows of a domain until they meet no
    fixed resource of the domain's tree.  The specification [carve] keeps, for
    one fixed resource, the larger of the two sides it leaves, in integers
    without width. *)

From Stdlib Require Import Sorted.
From S2P Require Import Prelude Device Allocator AllocatorOrder AllocatorPlace.

(** ** What the recursion visits *)

(** The resources of a device and of the enabled devices below it, in the
    order of the walk. *)
Fixpoint subtree (fuel : nat) (st : dstate) (dev : nat) : option (list nat) :=
  match fuel with
  | O => None
  | S fuel' =>
      let d := get_dev st dev in
      fold_left (fun acc link =>
        fold_left (fun acc child =>
          match acc with
          | None => None
          | Some l =>
              if d_enabled (get_dev st child)
              then option_map (app l) (subtree fuel' st child) else Some l
          end) (b_children (get_bus st link)) acc) (d_link_list d) (Some (d_resource_list d))
  end.

Definition constrain_all (st : dstate) (l : list nat) (c : constraints) : constraints :=
  fold_left (fun c p => constrain_one c (get_res st p)) l c.

Lemma constrain_subtree fuel st : forall dev c,
  constrain_resources fuel st dev c =
  option_map (fun l => constrain_all st l c) (subtree fuel st dev).
Proof.
  induction fuel as [|fuel IH]; intros dev c; [done|]. cbn [constrain_resources subtree].
  set (R := fun (a : option constraints) (b : option (list nat)) =>
    a = option_map (fun l => constrain_all st l c) b).
  apply (fold_left_rel R); [|done]. intros a b link HR. apply (fold_left_rel R); [|done].
  intros a' b' child ->. destruct b' as [l|]; [|done]. simpl. case_bool; [|done].
  rewrite IH. destruct (subtree fuel st child) as [l'|]; [|done]. simpl. unfold R. simpl. f_equal.
  unfold constrain_all. by rewrite fold_left_app.
Qed.

(** ** One kind at a time *)

Definition kind_eqb (a b : which) : bool :=
  match a, b with Mem, Mem | Io, Io => true | _, _ => false end.

Definition of_kind (k : which) (r : resource) : bool :=
  match resource_limit r with Some k' => kind_eqb k k' | None => false end.

Definition obstacle (k : which) (r : resource) : bool :=
  has (res_flags r) IORESOURCE_FIXED && negb (res_size r =? 0) && of_kind k r.

Definition candidate (k : which) (r : resource) : bool :=
  negb (has (res_flags r) IORESOURCE_FIXED) && of_kind k r.

Lemma get_set_window c k k' w :
  get_window (set_window c k w) k' = if kind_eqb k' k then w else get_window c k'.
Proof. by destruct k, k'. Qed.

Lemma constrain_all_window st k l : forall c,
  get_window (constrain_all st l c) k =
  fold_left constrain_window (List.filter (obstacle k) (map (get_res st) l)) (get_window c k).
Proof.
  unfold constrain_all. induction l as [|p l IH]; intros c; [done|]. simpl. rewrite IH.
  unfold constrain_one, obstacle at 2, of_kind.
  destruct (has (res_flags (get_res st p)) IORESOURCE_FIXED); [simpl|done].
  destruct (res_size (get_res st p) =? 0); [done|]. simpl.
  destruct (resource_limit (get_res st p)) as [k'|]; [|done].
  rewrite get_set_window. destruct (kind_eqb k k') eqn:E; [|done]. simpl. f_equal.
  by destruct k, k'.
Qed.

(** The window the domain's own resources leave. *)
Definition narrow (w : window) (r : resource) : window :=
  mk_window (Z.max (w_base w) (res_base r)) (Z.min (w_limit w) (res_limit r)).

Lemma initial_window st k l : forall c,
  get_window (fold_left (fun c p => initial_one c (get_res st p)) l c) k =
  fold_left narrow (List.filter (candidate k) (map (get_res st) l)) (get_window c k).
Proof.
  induction l as [|p l IH]; intros c; [done|]. simpl. rewrite IH. unfold initial_one.
  unfold candidate at 2, of_kind.
  destruct (has (res_flags (get_res st p)) IORESOURCE_FIXED); [done|]. simpl.
  destruct (resource_limit (get_res st p)) as [k'|]; [|done].
  rewrite get_set_window. destruct (kind_eqb k k') eqn:Ek; [|done]. simpl. f_equal.
  assert (get_window c k = get_window c k') as -> by (by destruct k, k').
  unfold narrow. f_equal; case_bool; bool_to_prop; lia.
Qed.

Lemma narrow_all l : forall w,
  let w' := fold_left narrow l w in
  w_base w <= w_base w' /\ w_limit w' <= w_limit w /\
  (forall r, r ∈ l -> res_base r <= w_base w' /\ w_limit w' <= res_limit r) /\
  (forall m, w_base w <= m -> (forall r, r ∈ l -> res_base r <= m) -> w_base w' <= m).
Proof.
  induction l as [|r l IH]; intros w w'.
  { subst w'. simpl. split; [lia|]. split; [lia|]. split; [by intros ? ?%not_elem_of_nil|auto]. }
  destruct (IH (narrow w r)) as (H1 & H2 & H3 & H4). cbn [fold_left] in w'. fold w' in H1, H2, H3, H4.
  cbn [narrow w_base w_limit] in H1, H2, H4. split; [lia|]. split; [lia|]. split.
  - intros q [->|Hq]%elem_of_cons; [lia|auto].
  - intros m Hm Hl. apply H4; [|intros; apply Hl; by right]. pose proof (Hl r ltac:(by left)). lia.
Qed.

(** ** The specification of one step *)

Definition res_last (r : resource) : Z := res_base r + res_size r - 1.

Definition carve (w : window) (r : resource) : window :=
  if (res_last r <? w_base w) || (w_limit w <? res_base r) then w
  else if res_base r - w_base w <? w_limit w - res_last r
  then mk_window (res_last r + 1) (w_limit w)
  else mk_window (w_base w) (res_base r - 1).

Definition clear_of (w : window) (r : resource) : Prop :=
  res_last r < w_base w \/ w_limit w < res_base r.

Definition inside (w' w : window) : Prop := w_base w <= w_base w' /\ w_limit w' <= w_limit w.

Lemma carve_step w r : 0 < res_size r -> inside (carve w r) w /\ clear_of (carve w r) r.
Proof.
  intros Hs. unfold carve, clear_of, inside, res_last in *.
  destruct ((_ <? w_base w) || _) eqn:E.
  - split; [lia|]. apply orb_true_iff in E. rewrite !Z.ltb_lt in E. lia.
  - bool_to_prop. case_bool; bool_to_prop; simpl; lia.
Qed.

(** The side that was given up is not larger. *)
Lemma carve_larger w r x : 0 < res_size r ->
  ((x = mk_window (w_base w) (Z.min (w_limit w) (res_base r - 1))) \/
   (x = mk_window (Z.max (w_base w) (res_last r + 1)) (w_limit w))) ->
  w_limit x - w_base x <= w_limit (carve w r) - w_base (carve w r).
Proof.
  intros Hs Hx. unfold carve, res_last in *.
  destruct ((_ <? w_base w) || _) eqn:E.
  - destruct Hx as [-> | ->]; simpl; lia.
  - bool_to_prop. case_bool; bool_to_prop; destruct Hx as [-> | ->]; simpl; lia.
Qed.

Lemma carve_all l : forall w, (forall r, r ∈ l -> 0 < res_size r) ->
  let w' := fold_left carve l w in inside w' w /\ forall r, r ∈ l -> clear_of w' r.
Proof.
  induction l as [|r l IH]; intros w Hs; simpl.
  { split; [unfold inside; lia|]. by intros ? ?%not_elem_of_nil. }
  destruct (carve_step w r (Hs r ltac:(by left))) as [H1 H2].
  destruct (IH (carve w r)) as [H3 H4]; [intros; apply Hs; by right|].
  split; [unfold inside in *; lia|].
  intros q [->|Hq]%elem_of_cons; [unfold clear_of, inside in *; lia|auto].
Qed.

(** The code computes it as long as something is left. *)
Definition sized (r : resource) : Prop :=
  0 <= res_base r /\ 0 < res_size r /\ res_base r + res_size r <= 2 ^ 63.

Lemma s64_small x : - 2 ^ 63 <= x < 2 ^ 63 -> s64 x = x.
Proof.
  intros Hx. unfold s64, swrap, wrap. change (2 ^ (64 - 1)) with (2 ^ 63).
  destruct (Z.lt_ge_cases x 0) as [Hn|Hp].
  - replace (x mod 2 ^ 64) with (x + 2 ^ 64)
      by (apply Z.mod_unique with (q := -1); lia).
    case_bool; bool_to_prop; lia.
  - rewrite Z.mod_small by lia. case_bool; bool_to_prop; lia.
Qed.

Lemma constrain_window_carve w r : sized r -> 0 <= w_base w -> w_limit w < 2 ^ 63 ->
  w_base (carve w r) <= w_limit (carve w r) ->
  constrain_window w r = carve w r.
Proof.
  intros (Hb & Hs & He) Hw Hl Hne. destruct (carve_step w r Hs) as [[Hi1 Hi2] _].
  unfold constrain_window, carve, res_last in *.
  rewrite (u64_small (res_base r + res_size r)) by lia.
  rewrite (u64_small (res_base r + res_size r - 1)) by lia.
  destruct ((_ <? w_base w) || _) eqn:E; [done|]. bool_to_prop.
  rewrite !s64_small by lia.
  destruct (res_base r - w_base w <? _) eqn:E2; bool_to_prop; simpl in *; [f_equal; lia|].
  by rewrite u64_small by lia.
Qed.

Lemma constrain_windows_carve l : forall w, (forall r, r ∈ l -> sized r) ->
  0 <= w_base w -> w_limit w < 2 ^ 63 ->
  let w' := fold_left carve l w in
  w_base w' <= w_limit w' -> fold_left constrain_window l w = w'.
Proof.
  induction l as [|r l IH]; intros w Hs Hw Hl w' Hne; [done|]. simpl in *.
  pose proof (Hs r ltac:(by left)) as Hr. pose proof Hr as (_ & Hr0 & _).
  assert (Hsl : forall q, q ∈ l -> sized q) by (intros; apply Hs; by right).
  destruct (carve_step w r Hr0) as [[Hi1 Hi2] _].
  destruct (carve_all l (carve w r)) as [[Hj1 Hj2] _]; [intros q Hq; apply (Hsl q Hq)|].
  fold w' in Hj1, Hj2. rewrite constrain_window_carve by (done || lia).
  apply IH; [done|lia|lia|done].
Qed.

(** ** The update of the domain *)

Lemma land_type f m : Z.land m IORESOURCE_TYPE_MASK = m ->
  Z.land f m = Z.land (Z.land f IORESOURCE_TYPE_MASK) m.
Proof. intros H. by rewrite <- Z.land_assoc, (Z.land_comm IORESOURCE_TYPE_MASK), H. Qed.

Lemma of_kind_mem k r : of_kind k r = true ->
  has (res_flags r) IORESOURCE_MEM = kind_eqb k Mem.
Proof.
  unfold of_kind, resource_limit, resource_is, has. rewrite (land_type _ IORESOURCE_MEM eq_refl).
  case_bool; bool_to_prop; [|case_bool; bool_to_prop; [|done]]; rewrite E || rewrite E0; by destruct k.
Qed.

Lemma align_down_spec v k : 0 <= v < 2 ^ 64 -> 0 <= k < 64 -> align_down v k = v - v mod 2 ^ k.
Proof.
  intros Hv Hk. unfold align_down. rewrite Z.shiftl_1_l.
  pose proof (pow2_le_pow2 k 63 ltac:(lia)). pose proof (Z.pow_pos_nonneg 2 k ltac:(lia) ltac:(lia)).
  rewrite (u64_small (2 ^ k)) by lia. rewrite (u64_small (2 ^ k - 1)) by lia.
  unfold bnot. rewrite land_wrap by lia. by apply land_lnot_pow2; lia.
Qed.

(** The highest aligned place for the resource. *)
Lemma resource_max_spec r : 0 <= res_size r <= res_limit r + 1 -> res_limit r < 2 ^ 63 ->
  0 <= res_align r < 64 ->
  (2 ^ res_align r | resource_max r) /\ 0 <= resource_max r /\
  resource_max r + res_size r - 1 <= res_limit r /\
  res_limit r < resource_max r + 2 ^ res_align r + res_size r - 1.
Proof.
  intros Hs Hl Ha. unfold resource_max.
  assert (u64 (u64 (res_limit r - res_size r) + 1) = res_limit r - res_size r + 1) as ->.
  { unfold u64, wrap. rewrite Zplus_mod_idemp_l. apply Z.mod_small. lia. }
  rewrite align_down_spec by lia. set (v := res_limit r - res_size r + 1).
  pose proof (Z.pow_pos_nonneg 2 (res_align r) ltac:(lia) ltac:(lia)).
  pose proof (Z.mod_pos_bound v (2 ^ res_align r) ltac:(lia)).
  pose proof (Z.div_mod v (2 ^ res_align r) ltac:(lia)).
  pose proof (Z.mod_le v (2 ^ res_align r) ltac:(unfold v; lia) ltac:(lia)).
  assert (v = res_limit r - res_size r + 1) by done. split; [|lia].
  exists (v / 2 ^ res_align r). lia.
Qed.

Lemma fold_set_res (f : resource -> resource) l : NoDup l -> forall st p,
  get_res (fold_left (fun st p => set_res st p (f (get_res st p))) l st) p =
  if decide (p ∈ l) then f (get_res st p) else get_res st p.
Proof.
  induction l as [|q l IH]; intros Hnd st p; [done|].
  apply NoDup_cons in Hnd. destruct Hnd as [Hq Hnd]. simpl. rewrite (IH Hnd), get_set_res.
  destruct (decide (p = q)) as [->|Hne].
  - rewrite (decide_False (P := q ∈ l)) by done. rewrite decide_True by (by left). done.
  - destruct (decide (p ∈ l)) as [Hp|Hp].
    + rewrite decide_True by (by right). done.
    + rewrite decide_False; [done|]. rewrite elem_of_cons. by intros [|].
Qed.

(** The highest place below the end of a window is in it when any place is. *)
Lemma highest_in_window al lo hi base size : 0 < al -> (al | base) ->
  base + size - 1 <= hi < base + al + size - 1 ->
  lo <= base <-> exists b, (al | b) /\ lo <= b /\ b + size - 1 <= hi.
Proof.
  intros Hal [x ->] H. split; [intros Hlo; exists (x * al); split; [by exists x|lia]|].
  intros (b & [y ->] & Hb & He). assert (y < x + 1) by nia. nia.
Qed.

(** A part of a window is clear of what the window is clear of. *)
Lemma clear_of_part w w' r : w_base w <= w_base w' -> w_limit w' <= w_limit w -> clear_of w r -> clear_of w' r.
Proof. unfold clear_of. lia. Qed.

(** The window left for kind [k] by the domain and the fixed resources. *)
Definition free_window (st : dstate) (k : which) (own all : list nat) : window :=
  fold_left carve (List.filter (obstacle k) (map (get_res st) all))
    (fold_left narrow (List.filter (candidate k) (map (get_res st) own))
       (mk_window 0 max_u64)).

Lemma in_kind st f l r :
  r ∈ List.filter f (map (get_res st) l) <-> exists p, p ∈ l /\ r = get_res st p /\ f r = true.
Proof.
  rewrite elem_of_filter_bool, list_elem_of_In, in_map_iff. split.
  - intros [(p & <- & Hp%list_elem_of_In) Hf]. by exists p.
  - intros (p & Hp & -> & Hf). split; [|done]. exists p. by rewrite <- list_elem_of_In.
Qed.

(** C4.  When the fixed resources leave a window at all, every movable
    resource of the domain ends at that window's end; an I/O resource gets the
    whole window; a memory resource gets the highest aligned base from which
    its size still fits below the window's end.  That base is in the window, and
    the resource then clear of every fixed one, exactly when some aligned place
    of its size is; a resource larger than its window begins below it, possibly
    over a fixed one ([avoid_fixed_overlap]).  No fixed resource of the
    domain's tree overlaps the window, and nothing but the domain's movable
    resources changes. *)
Theorem avoid_fixed_resources_correct fuel st dev all k p :
  let own := d_resource_list (get_dev st dev) in
  NoDup own -> subtree fuel st dev = Some all ->
  (forall q, q ∈ all -> obstacle k (get_res st q) = true -> sized (get_res st q)) ->
  (forall q, q ∈ own -> candidate k (get_res st q) = true ->
     0 <= res_base (get_res st q) /\ res_limit (get_res st q) < 2 ^ 63) ->
  p ∈ own -> let r := get_res st p in candidate k r = true -> 0 <= res_align r < 64 ->
  let w := free_window st k own all in
  w_base w <= w_limit w -> (k = Mem -> 0 <= res_size r <= w_limit w + 1) ->
  exists st', avoid_fixed_resources fuel st dev = Some st' /\
    let r' := get_res st' p in
    w_limit w <= res_limit r /\ res_base r <= w_base w /\
    res_limit r' = w_limit w /\ res_size r' = res_size r /\ res_flags r' = res_flags r /\
    (k = Io -> res_base r' = w_base w) /\
    (k = Mem -> (2 ^ res_align r | res_base r') /\ 0 <= res_base r' /\
       res_base r' + res_size r - 1 <= w_limit w < res_base r' + 2 ^ res_align r + res_size r - 1 /\
       (w_base w <= res_base r' <->
          exists b, (2 ^ res_align r | b) /\ w_base w <= b /\ b + res_size r - 1 <= w_limit w) /\
       (w_base w <= res_base r' -> forall q, q ∈ all -> obstacle k (get_res st q) = true ->
          clear_of (mk_window (res_base r') (res_base r' + res_size r - 1)) (get_res st q))) /\
    (forall q, q ∈ all -> obstacle k (get_res st q) = true -> clear_of w (get_res st q)) /\
    (forall q, q ∉ own -> get_res st' q = get_res st q).
Proof.
  intros own Hnd Hsub Hobs Hcand Hp r Hr Ha w Hw Hsz. unfold avoid_fixed_resources.
  fold own. rewrite constrain_subtree, Hsub. cbn [option_map]. eexists. split; [done|].
  set (limits := constrain_all _ _ _).
  set (w0 := fold_left narrow (List.filter (candidate k) (map (get_res st) own))
    (mk_window 0 max_u64)) in *.
  destruct (narrow_all (List.filter (candidate k) (map (get_res st) own)) (mk_window 0 max_u64))
    as (N1 & _ & N3 & _). fold w0 in N1, N3.
  assert (Hr_in : r ∈ List.filter (candidate k) (map (get_res st) own)).
  { apply in_kind. by exists p. }
  destruct (N3 r Hr_in) as [N4 N5]. destruct (Hcand p Hp Hr) as [Hb0 Hl63].
  assert (Hall : forall q, q ∈ List.filter (obstacle k) (map (get_res st) all) -> sized q).
  { intros q (x & Hx & -> & Hf)%in_kind. auto. }
  destruct (carve_all (List.filter (obstacle k) (map (get_res st) all)) w0) as [[C1 C2] C3].
  { intros q Hq. apply (Hall q Hq). }
  fold w0 in C1, C2, C3. change (fold_left carve _ w0) with w in C1, C2, C3.
  assert (Hlim : get_window limits k = w).
  { unfold limits. rewrite constrain_all_window, initial_window. 
    assert (get_window (mk_constraints (mk_window 0 max_u64) (mk_window 0 max_u64)) k
      = mk_window 0 max_u64) as -> by (by destruct k). fold w0.
    apply constrain_windows_carve; [done|exact N1|fold r in Hl63; lia|exact Hw]. }
  cbv zeta. fold r in Hb0, Hl63. simpl in N1.
  unfold candidate in Hr. apply andb_true_iff in Hr as [Hr1 Hr2]. bool_to_prop.
  rewrite (fold_set_res (update_one limits) own Hnd st p), decide_True by done. fold r.
  assert (Hup : update_one limits r =
    let r2 := with_limit (w_limit w) (with_base (w_base w) r) in
    if kind_eqb k Mem then with_base (resource_max r2) r2 else r2).
  { unfold update_one. rewrite Hr1. pose proof (of_kind_mem k r Hr2) as Hm. unfold of_kind in Hr2.
    destruct (resource_limit r) as [k'|]; [|done].
    assert (k' = k) as -> by (by destruct k, k'). rewrite Hlim.
    assert (E1 : (if res_base r <? w_base w then with_base (w_base w) r else r) =
      with_base (w_base w) r).
    { destruct r; unfold with_base; simpl in *. case_bool; bool_to_prop; [done|]. f_equal. lia. }
    rewrite E1.
    assert (E2 : (if w_limit w <? res_limit (with_base (w_base w) r)
      then with_limit (w_limit w) (with_base (w_base w) r) else with_base (w_base w) r) =
      with_limit (w_limit w) (with_base (w_base w) r)).
    { destruct r; unfold with_base, with_limit; simpl in *. case_bool; bool_to_prop; [done|].
      f_equal. lia. }
    rewrite E2. cbv zeta. rewrite <- Hm. done. }
  rewrite Hup. clear Hup. split; [lia|]. split; [lia|].
  split; [by destruct k|]. split; [by destruct k|]. split; [by destruct k|].
  split; [by intros ->|]. split; [|split].
  - intros ->. cbn [kind_eqb]. cbv zeta.
    pose proof (resource_max_spec (with_limit (w_limit w) (with_base (w_base w) r))) as Hmx.
    cbn in Hmx |- *. destruct (Hmx (Hsz eq_refl) ltac:(lia) Ha) as (? & ? & ? & ?).
    split; [done|]. split; [lia|]. split; [lia|]. split.
    { apply highest_in_window; [by apply Z.pow_pos_nonneg; lia|done|lia]. }
    intros Hin q Hq Hf. apply (clear_of_part w); [cbn; lia|cbn; lia|]. apply C3. apply in_kind. by exists q.
  - intros q Hq Hf. apply C3. apply in_kind. by exists q.
  - intros q Hq. by rewrite (fold_set_res (update_one limits) own Hnd st q), decide_False.
Qed.

(** ** Samples *)

(** A domain with a memory window of [size] and one device below it, with the
    given fixed memory. *)
Definition sample_domain (size : Z) (fixed : list (Z * Z)) : dstate :=
  mk_dstate
    {[ 1%nat := mk_device 0 (DEVICE_PATH_DOMAIN 0) 0 0 0 true [10%nat] [2%nat];
       3%nat := mk_device 2 (DEVICE_PATH_PCI 0) 0 0 0 true (seq 20 (length fixed)) [] ]}
    {[ 2%nat := mk_bus 1 [3%nat] 0 0 ]}
    (<[10%nat := mk_resource 0 size 0xffffffff IORESOURCE_MEM 0 20 20]>
       (list_to_map (imap (fun i x => ((20 + i)%nat, mk_resource x.1 x.2 (x.1 + x.2 - 1)
          (Z.lor IORESOURCE_MEM IORESOURCE_FIXED) 0 0 0)) fixed)))
    [] [] 40.

(** Low memory and the I/O APIC: the window is put below the latter. *)
Lemma avoid_fixed_resources_witness :
  let st := sample_domain 0x200000 [(0, 0xa0000); (0xfec00000, 0x1000)] in
  exists st', avoid_fixed_resources 3 st 1 = Some st' /\
    res_limit (get_res st' 10) = 0xfebfffff /\
    0xfebfffff < res_base (get_res st' 10) + 2 ^ 20 + 0x200000 - 1 /\
    0xa0000 <= res_base (get_res st' 10) /\
    forall q, q ∈ [20; 21]%nat -> clear_of (mk_window (res_base (get_res st' 10)) (res_base (get_res st' 10) + 0x200000 - 1)) (get_res st q).
Proof.
  intros st.
  destruct (avoid_fixed_resources_correct 3 st 1 [10; 20; 21]%nat Mem 10)
    as (st' & H1 & _ & _ & H2 & _ & _ & _ & H3 & _).
  - vm_compute. repeat constructor; set_solver.
  - vm_compute. reflexivity.
  - intros q. rewrite !elem_of_cons, elem_of_nil.
    intros [->|[->|[->|[]]]]; vm_compute; [discriminate| |];
      intros _; repeat split; first [reflexivity | discriminate].
  - intros q. change (d_resource_list (get_dev st 1)) with [10%nat].
    rewrite elem_of_cons, elem_of_nil. intros [->|[]] _.
    vm_compute. split; [discriminate|reflexivity].
  - vm_compute. left.
  - vm_compute. reflexivity.
  - vm_compute. split; [discriminate|reflexivity].
  - vm_compute. discriminate.
  - intros _. vm_compute. split; discriminate.
  - exists st'. split; [exact H1|]. split; [rewrite H2; vm_compute; reflexivity|].
    destruct (H3 eq_refl) as (_ & _ & [_ H4] & H5 & H6).
    change (d_resource_list (get_dev st 1)) with [10%nat] in *.
    assert (E : free_window st Mem [10%nat] [10; 20; 21]%nat = mk_window 0xa0000 0xfebfffff) by (vm_compute; reflexivity).
    rewrite E in *. cbn [w_base w_limit] in *. split; [exact H4|].
    assert (Hin : 0xa0000 <= res_base (get_res st' 10)).
    { apply H5. exists 0xfea00000. split; [by exists 0xfea|]. split; [lia|vm_compute; discriminate]. }
    split; [exact Hin|]. intros q Hq. apply H6; [exact Hin|right; exact Hq|].
    revert Hq. rewrite !elem_of_cons, elem_of_nil. intros [-> | [-> | []]]; reflexivity.
Defined.

(** A memory domain larger than its window is put below it: its base is taken
    from the limit and the size alone, over the fixed low memory. *)
Example avoid_fixed_overlap :
  let st := sample_domain 0x40000000 [(0, 0xe0000000); (0xfec00000, 0x1000)] in
  exists st', avoid_fixed_resources 3 st 1 = Some st' /\
    res_limit (get_res st' 10) = 0xfebfffff /\ res_base (get_res st' 10) = 0xbec00000.
Proof. eexists. split; [reflexivity|]. vm_compute. done. Qed.

(** A fixed resource from address 0 that leaves more below than above it, that
    is, nothing: the limit becomes -1, all of the address space. *)
Example constrain_window_wraps :
  constrain_window (mk_window 0 0xffff) (mk_resource 0 0x10000 0 0 0 0 0)
  = mk_window 0 max_u64.
Proof. vm_compute. done. Qed.
