(* ===== verification/DevTree.v ===== *)
(** * The passes over the device tree ([src/device/device.c])

    Enumeration, enabling, initialization and finalization call the operations
    of the drivers, device by device.  An operation is code of a driver: a
    parameter that may change the device tree, the flags and a [world] of its
    own.  What the passes promise is the order and number of the calls, which
    are kept in a log.

    The lists of children and links are read when a loop begins; the
    operations do not change the list that is being walked. *)

From stdpp Require Import gmap.
From S2P Require Import Prelude Device AllocatorOrder.

Set Default Proof Using "Type".

(** ** State *)

Inductive operation := OpScan | OpReset | OpEnable | OpInit | OpFinal.

Section Passes.
Context {world : Type}.

(** [initialized] of the devices and [reset_needed] of the buses. *)
Record tree := mk_tree
  { t_dev : dstate; t_initialized : gset nat; t_reset : gset nat; t_world : world }.

(** A tree with the calls made so far; for [OpReset] the number is the bus. *)
Definition state : Type := tree * list (operation * nat).

(** [dev->ops && dev->ops->op], with what the operation does. *)
Context (op_scan_bus op_reset_bus op_enable_resources op_init op_final :
  nat -> option (tree -> tree)).

Definition call (o : operation) (n : nat) (f : tree -> tree) (s : state) : state :=
  (f (fst s), snd s ++ [(o, n)]).

Definition set_reset (n : nat) (b : bool) (t : tree) : tree :=
  mk_tree (t_dev t) (t_initialized t)
    (if b then t_reset t ∪ {[n]} else t_reset t ∖ {[n]}) (t_world t).

Definition set_initialized (n : nat) (t : tree) : tree :=
  mk_tree (t_dev t) (t_initialized t ∪ {[n]}) (t_reset t) (t_world t).

Definition tdev (s : state) (dev : nat) : device := get_dev (t_dev (fst s)) dev.
Definition tbus (s : state) (n : nat) : bus := get_bus (t_dev (fst s)) n.

(** ** Walking a link: all its devices first, then the links behind them *)

Section Walk.
Variable visit : nat -> state -> state.

Fixpoint walk_link (fuel : nat) (link : nat) (s : state) : option state :=
  match fuel with
  | O => None
  | S fuel' =>
      let children := b_children (tbus s link) in
      let s := fold_left (fun s dev => visit dev s) children s in
      fold_left (fun acc dev =>
        match acc with
        | None => None
        | Some s =>
            fold_left (fun acc c_link =>
              match acc with None => None | Some s => walk_link fuel' c_link s end)
              (d_link_list (tdev s dev)) (Some s)
        end) children (Some s)
  end.

Definition walk_links (fuel : nat) (links : list nat) (s : state) : option state :=
  fold_left (fun acc link => match acc with None => None | Some s => walk_link fuel link s end)
    links (Some s).
End Walk.

(** ** Enabling *)

Definition enable_one (dev : nat) (s : state) : state :=
  if d_enabled (tdev s dev) then
    match op_enable_resources dev with None => s | Some f => call OpEnable dev f s end
  else s.

Definition enable_resources (fuel link : nat) (s : state) : option state :=
  walk_link enable_one fuel link s.

(** [root] is [&dev_root]. *)
Definition dev_enable (fuel root : nat) (s : state) : option state :=
  fold_left (fun acc link => match acc with None => None | Some s => enable_resources fuel link s end)
    (d_link_list (tdev s root)) (Some s).

(** ** Initialization *)

Definition init_dev (dev : nat) (s : state) : state :=
  if negb (d_enabled (tdev s dev)) then s
  else if bool_decide (dev ∈ t_initialized (fst s)) then s
  else match op_init dev with
       | None => s
       | Some f => call OpInit dev f (set_initialized dev (fst s), snd s)
       end.

Definition init_link (fuel link : nat) (s : state) : option state := walk_link init_dev fuel link s.

(** After [setup_default_ebda]. *)
Definition dev_initialize (fuel root : nat) (s : state) : option state :=
  let s := init_dev root s in
  fold_left (fun acc link => match acc with None => None | Some s => init_link fuel link s end)
    (d_link_list (tdev s root)) (Some s).

(** ** Finalization *)

Definition final_dev (dev : nat) (s : state) : state :=
  if negb (d_enabled (tdev s dev)) then s
  else match op_final dev with None => s | Some f => call OpFinal dev f s end.

Definition final_link (fuel link : nat) (s : state) : option state := walk_link final_dev fuel link s.

Definition dev_finalize (fuel root : nat) (s : state) : option state :=
  let s := final_dev root s in
  fold_left (fun acc link => match acc with None => None | Some s => final_link fuel link s end)
    (d_link_list (tdev s root)) (Some s).

(** ** Enumeration *)

(** The operations belong to the device of the bus. *)
Definition reset_bus (bus : nat) (s : state) : bool * state :=
  match op_reset_bus (b_dev (tbus s bus)) with
  | Some f =>
      let s := call OpReset bus f s in
      (true, (set_reset bus false (fst s), snd s))
  | None => (false, s)
  end.

(** One link in the loop of [scan_bus]; the flag is [do_scan_bus]. *)
Definition reset_step (busdev : nat) (c : bool * state) (link : nat) : bool * state :=
  let '(again, s) := c in
  if bool_decide (link ∈ t_reset (fst s)) then
    let '(done, s) := reset_bus link s in
    if done then (true, s)
    else (again, (set_reset (d_bus (tdev s busdev)) true (fst s), snd s))
  else (again, s).

Definition reset_links (busdev : nat) (links : list nat) (s : state) : bool * state :=
  fold_left (reset_step busdev) links (false, s).

(** One round: whether to scan again. *)
Definition scan_round (busdev : nat) (f : tree -> tree) (s : state) : bool * state :=
  let s := call OpScan busdev f s in
  reset_links busdev (d_link_list (tdev s busdev)) s.

Fixpoint scan_loop (rounds : nat) (busdev : nat) (f : tree -> tree) (s : state) : option state :=
  match rounds with
  | O => None
  | S rounds' =>
      let '(again, s) := scan_round busdev f s in
      if again then scan_loop rounds' busdev f s else Some s
  end.

(** The callers have checked that the operation exists. *)
Definition scan_bus (rounds : nat) (busdev : nat) (s : state) : option state :=
  if negb (d_enabled (tdev s busdev)) then Some s
  else match op_scan_bus busdev with None => None | Some f => scan_loop rounds busdev f s end.

Definition scan_bridges (rounds : nat) (bus : nat) (s : state) : option state :=
  fold_left (fun acc child =>
    match acc with
    | None => None
    | Some s => match op_scan_bus child with None => Some s | Some _ => scan_bus rounds child s end
    end) (b_children (tbus s bus)) (Some s).

(** After [enable_dev] of the root's chip. *)
Definition dev_enumerate (rounds root : nat) (s : state) : option state :=
  match op_scan_bus root with None => Some s | Some _ => scan_bus rounds root s end.

(** ** The order of a walk *)

Fixpoint order (fuel : nat) (st : dstate) (link : nat) : option (list nat) :=
  match fuel with
  | O => None
  | S fuel' =>
      let children := b_children (get_bus st link) in
      fold_left (fun acc dev =>
        fold_left (fun acc c_link =>
          match acc with
          | None => None
          | Some l => option_map (app l) (order fuel' st c_link)
          end) (d_link_list (get_dev st dev)) acc) children (Some children)
  end.

Definition order_links (fuel : nat) (st : dstate) (links : list nat) : option (list nat) :=
  fold_left (fun acc link =>
    match acc with None => None | Some l => option_map (app l) (order fuel st link) end)
    links (Some []).

Definition child (st : dstate) (p d : nat) : Prop :=
  exists link, link ∈ d_link_list (get_dev st p) /\ d ∈ b_children (get_bus st link).

(** A fold that collects lists, or fails. *)
Lemma fold_collect_in {A} (f : A -> option (list nat)) (l : list A) : forall acc r,
  fold_left (fun acc x => match acc with None => None | Some l => option_map (app l) (f x) end) l acc
    = Some r ->
  exists l0 ls, acc = Some l0 /\ r = l0 ++ concat ls /\ Forall2 (fun x y => f x = Some y) l ls.
Proof.
  induction l as [|x l IH]; intros acc r H; simpl in H.
  { exists r, []. rewrite H. by rewrite app_nil_r. }
  destruct (IH _ _ H) as (l0 & ls & Hacc & -> & HF). destruct acc as [a|]; [|done].
  destruct (f x) as [y|] eqn:E; [|done]. injection Hacc as <-.
  exists a, (y :: ls). split; [done|]. split; [by rewrite <- app_assoc|by constructor].
Qed.

Lemma order_unfold fuel st link l : order (S fuel) st link = Some l ->
  exists ls, l = b_children (get_bus st link) ++ concat ls /\
    Forall2 (fun c_link y => order fuel st c_link = Some y)
      (concat (map (fun dev => d_link_list (get_dev st dev)) (b_children (get_bus st link)))) ls.
Proof.
  cbn [order]. cbv zeta. intros H.
  assert (Hf : forall devs acc, fold_left (fun acc dev => fold_left (fun acc c_link =>
      match acc with None => None | Some l => option_map (app l) (order fuel st c_link) end)
      (d_link_list (get_dev st dev)) acc) devs acc =
    fold_left (fun acc c_link => match acc with None => None
      | Some l => option_map (app l) (order fuel st c_link) end)
      (concat (map (fun dev => d_link_list (get_dev st dev)) devs)) acc).
  { induction devs as [|d devs IH]; intros acc; [done|]. simpl. by rewrite fold_left_app, IH. }
  rewrite Hf in H. destruct (fold_collect_in _ _ _ _ H) as (l0 & ls & [= <-] & -> & HF).
  by exists ls.
Qed.

(** Everything behind a device that is visited is visited after it. *)
Lemma order_children fuel st : forall link l, order fuel st link = Some l ->
  (forall d, d ∈ b_children (get_bus st link) -> d ∈ l) /\
  forall p d, p ∈ l -> child st p d -> before l p d.
Proof.
  induction fuel as [|fuel IH]; intros link l H; [done|].
  destruct (order_unfold _ _ _ _ H) as (ls & -> & HF). split.
  { intros d Hd. apply elem_of_app. by left. }
  intros p d [Hp|Hp]%elem_of_app (c & Hc & Hd).
  - apply before_app; [done|].
    assert (Hin : c ∈ concat (map (fun dev => d_link_list (get_dev st dev))
      (b_children (get_bus st link)))).
    { apply list_elem_of_In, in_concat. exists (d_link_list (get_dev st p)).
      rewrite in_map_iff, <- !list_elem_of_In. split; [|done]. exists p. by rewrite <- list_elem_of_In. }
    destruct (proj1 (list_elem_of_lookup _ _) Hin) as [i Hi].
    destruct (Forall2_lookup_l _ _ _ _ _ HF Hi) as (y & Hy & Ho).
    apply list_elem_of_In, in_concat. exists y. rewrite <- !list_elem_of_In.
    split; [by apply list_elem_of_lookup; exists i|]. by apply (IH c y Ho).
  - apply before_app_r. apply list_elem_of_In, in_concat in Hp. destruct Hp as (y & Hy & Hp).
    rewrite <- list_elem_of_In in Hy. rewrite <- list_elem_of_In in Hp.
    destruct (proj1 (list_elem_of_lookup _ _) Hy) as [i Hi].
    destruct (Forall2_lookup_r _ _ _ _ _ HF Hi) as (x & Hx & Ho).
    apply (before_concat _ y); [done|]. apply (IH x y Ho); [done|]. by exists c.
Qed.

(** A visit that leaves the devices alone walks them in that order. *)
Lemma walk_link_order visit : (forall dev s, t_dev (fst (visit dev s)) = t_dev (fst s)) ->
  forall fuel link s, walk_link visit fuel link s =
    option_map (fun l => fold_left (fun s dev => visit dev s) l s) (order fuel (t_dev (fst s)) link).
Proof.
  intros Hv.
  assert (Hfold : forall l s, t_dev (fst (fold_left (fun s dev => visit dev s) l s)) = t_dev (fst s)).
  { induction l as [|d l IH]; intros s; [done|]. simpl. by rewrite IH. }
  induction fuel as [|fuel IH]; intros link s; [done|]. cbn [walk_link order]. unfold tbus, tdev.
  set (children := b_children _).
  set (R := fun (a : option state) (b : option (list nat)) =>
    a = option_map (fun l => fold_left (fun s dev => visit dev s) l s) b).
  change (R (fold_left (fun acc dev => match acc with None => None | Some s0 =>
      fold_left (fun acc0 c_link => match acc0 with None => None
        | Some s1 => walk_link visit fuel c_link s1 end)
        (d_link_list (get_dev (t_dev (fst s0)) dev)) (Some s0) end) children
      (Some (fold_left (fun s dev => visit dev s) children s)))
    (fold_left (fun acc dev => fold_left (fun acc0 c_link => match acc0 with None => None
        | Some l => option_map (app l) (order fuel (t_dev (fst s)) c_link) end)
        (d_link_list (get_dev (t_dev (fst s)) dev)) acc) children (Some children))).
  apply fold_left_rel; [|done]. intros a b dev ->. destruct b as [l|]; cbn [option_map].
  - rewrite Hfold. apply (fold_left_rel R); [|done]. intros a' b' c ->.
    destruct b' as [l'|]; cbn [option_map]; [|done]. rewrite IH, Hfold.
    destruct (order fuel (t_dev (fst s)) c) as [l2|]; [|done]. unfold R. cbn. by rewrite fold_left_app.
  - unfold R. induction (d_link_list (get_dev (t_dev (fst s)) dev)); done.
Qed.

(** ** The three passes *)

Hypothesis enable_keeps : forall d f t, op_enable_resources d = Some f -> t_dev (f t) = t_dev t.
Hypothesis init_keeps : forall d f t, op_init d = Some f ->
  t_dev (f t) = t_dev t /\ t_initialized (f t) = t_initialized t.
Hypothesis final_keeps : forall d f t, op_final d = Some f -> t_dev (f t) = t_dev t.

(** The device is enabled and its driver has the operation. *)
Definition wants (op : nat -> option (tree -> tree)) (st : dstate) (d : nat) : bool :=
  d_enabled (get_dev st d) && match op d with Some _ => true | None => false end.

Definition links_fold (visit : nat -> state -> state) (fuel : nat) (links : list nat) (s : state)
    : option state :=
  fold_left (fun acc link => match acc with None => None | Some s => walk_link visit fuel link s end)
    links (Some s).

Lemma links_fold_order visit fuel links s :
  (forall dev s, t_dev (fst (visit dev s)) = t_dev (fst s)) ->
  links_fold visit fuel links s = option_map
    (fun l => fold_left (fun s dev => visit dev s) l s) (order_links fuel (t_dev (fst s)) links).
Proof.
  intros Hv. unfold links_fold, order_links.
  set (R := fun (a : option state) (b : option (list nat)) =>
    a = option_map (fun l => fold_left (fun s dev => visit dev s) l s) b).
  apply (fold_left_rel R); [|done]. intros a b link ->. destruct b as [l|]; [|done]. cbn [option_map].
  rewrite walk_link_order by done.
  assert (t_dev (fst (fold_left (fun s dev => visit dev s) l s)) = t_dev (fst s)) as ->.
  { clear -Hv. revert s. induction l as [|d l IH]; intros s; [done|]. simpl. by rewrite IH. }
  destruct (order fuel (t_dev (fst s)) link) as [l2|]; [|done]. unfold R. simpl.
  by rewrite fold_left_app.
Qed.

(** Folding a visit that calls an operation when [want] says so. *)
Lemma visits_log visit o (want : nat -> bool) (inv : nat -> state -> Prop) l :
  (forall d s, inv d s -> snd (visit d s) = snd s ++ (if want d then [(o, d)] else [])) ->
  (forall d d' s, inv d s -> inv d' s -> d <> d' -> inv d (visit d' s)) ->
  NoDup l -> forall s, (forall d, d ∈ l -> inv d s) ->
  snd (fold_left (fun s d => visit d s) l s) = snd s ++ map (pair o) (List.filter want l).
Proof.
  intros Hlog Hinv. induction l as [|d l IH]; intros Hnd s Hs; simpl; [by rewrite app_nil_r|].
  apply NoDup_cons in Hnd as [Hd Hnd]. rewrite IH; [|done|].
  - rewrite Hlog by (apply Hs; by left). rewrite <- app_assoc. by destruct (want d).
  - intros d' Hd'. apply Hinv; [apply Hs; by right|apply Hs; by left|by intros ->].
Qed.

Lemma enable_one_dev d s : t_dev (fst (enable_one d s)) = t_dev (fst s).
Proof using enable_keeps.
  unfold enable_one. case_bool; [|done]. destruct (op_enable_resources d) as [f|] eqn:Ef; [|done].
  simpl. by apply (enable_keeps d).
Qed.

Lemma final_dev_dev d s : t_dev (fst (final_dev d s)) = t_dev (fst s).
Proof using final_keeps.
  unfold final_dev. case_bool; [done|]. destruct (op_final d) as [f|] eqn:Ef; [|done].
  simpl. by apply (final_keeps d).
Qed.

Lemma init_dev_spec d s : let w := wants op_init (t_dev (fst s)) d in
  let fresh := w && negb (bool_decide (d ∈ t_initialized (fst s))) in
  t_dev (fst (init_dev d s)) = t_dev (fst s) /\
  t_initialized (fst (init_dev d s)) = (if fresh then t_initialized (fst s) ∪ {[d]}
                                        else t_initialized (fst s)) /\
  snd (init_dev d s) = snd s ++ (if fresh then [(OpInit, d)] else []).
Proof using init_keeps.
  cbv zeta. unfold init_dev, wants, tdev.
  destruct (d_enabled _); cbn [negb andb]; [|by rewrite app_nil_r].
  destruct (bool_decide _); cbn [negb]; [by rewrite andb_false_r, app_nil_r|].
  destruct (op_init d) as [f|] eqn:Ef; cbn [andb]; [|by rewrite app_nil_r].
  destruct (init_keeps d f (set_initialized d (fst s)) Ef) as [H1 H2].
  cbn. by rewrite H1, H2.
Qed.

Lemma init_fold_set l : forall s,
  (forall d, d ∈ t_initialized (fst s) ->
     d ∈ t_initialized (fst (fold_left (fun s d => init_dev d s) l s))) /\
  (forall d, d ∈ l -> wants op_init (t_dev (fst s)) d = true ->
     d ∈ t_initialized (fst (fold_left (fun s d => init_dev d s) l s))).
Proof using init_keeps.
  induction l as [|x l IH]; intros s; simpl; [split; [done|by intros ? ?%not_elem_of_nil]|].
  destruct (init_dev_spec x s) as (Hd & Hi & _). destruct (IH (init_dev x s)) as [H1 H2].
  assert (Hs : forall d, d ∈ t_initialized (fst s) -> d ∈ t_initialized (fst (init_dev x s))).
  { intros d Hin. rewrite Hi. case_bool; [by apply elem_of_union_l|done]. }
  split; [auto|]. intros d [->|Hin]%elem_of_cons Hw; [|apply H2; [done|by rewrite Hd]].
  apply H1. rewrite Hi, Hw. cbn [andb]. case_bool; [by apply elem_of_union_r, elem_of_singleton|].
  bool_to_prop. by apply bool_decide_eq_true in E.
Qed.

Lemma order_links_in fuel st links l : order_links fuel st links = Some l ->
  exists ls, l = concat ls /\ Forall2 (fun c y => order fuel st c = Some y) links ls.
Proof.
  intros H. destruct (fold_collect_in _ _ _ _ H) as (l0 & ls & [= <-] & -> & HF). by exists ls.
Qed.

Lemma order_root_children fuel st root l :
  order_links fuel st (d_link_list (get_dev st root)) = Some l ->
  forall p d, p ∈ root :: l -> child st p d -> before (root :: l) p d.
Proof.
  intros H p d. destruct (order_links_in _ _ _ _ H) as (ls & -> & HF).
  intros [->|Hp]%elem_of_cons Hc.
  - left. split; [done|]. destruct Hc as (c & Hc & Hd).
    destruct (proj1 (list_elem_of_lookup _ _) Hc) as [i Hi].
    destruct (Forall2_lookup_l _ _ _ _ _ HF Hi) as (y & Hy & Ho).
    apply list_elem_of_In, in_concat. exists y. rewrite <- !list_elem_of_In.
    split; [by apply list_elem_of_lookup; exists i|]. by apply (order_children _ _ _ _ Ho).
  - right. apply list_elem_of_In, in_concat in Hp. destruct Hp as (y & Hy & Hp).
    rewrite <- list_elem_of_In in Hy. rewrite <- list_elem_of_In in Hp.
    destruct (proj1 (list_elem_of_lookup _ _) Hy) as [i Hi].
    destruct (Forall2_lookup_r _ _ _ _ _ HF Hi) as (x & Hx & Ho).
    apply (before_concat _ y); [done|]. by apply (order_children _ _ _ _ Ho).
Qed.

(** C35.  The passes reach the whole tree, parents first.  When the operations
    leave the tree alone and the tree below [root] is no deeper than [fuel],
    with no device in it twice, there is an order of all its devices, every
    device before everything behind it, such that each pass ends having called
    its operation once, in that order, for exactly the enabled devices that
    have one: enabling without the root, initialization only where it was not
    done before.  Afterwards every such device is marked initialized. *)
Theorem device_passes_correct fuel root s l :
  let st := t_dev (fst s) in
  order_links fuel st (d_link_list (get_dev st root)) = Some l -> NoDup (root :: l) ->
  (forall p d, p ∈ root :: l -> child st p d -> before (root :: l) p d) /\
  (exists s', dev_enable fuel root s = Some s' /\
     snd s' = snd s ++ map (pair OpEnable) (List.filter (wants op_enable_resources st) l)) /\
  (exists s', dev_initialize fuel root s = Some s' /\
     snd s' = snd s ++ map (pair OpInit) (List.filter (fun d => wants op_init st d &&
                negb (bool_decide (d ∈ t_initialized (fst s)))) (root :: l)) /\
     forall d, d ∈ root :: l -> wants op_init st d = true -> d ∈ t_initialized (fst s')) /\
  (exists s', dev_finalize fuel root s = Some s' /\
     snd s' = snd s ++ map (pair OpFinal) (List.filter (wants op_final st) (root :: l))).
Proof using enable_keeps init_keeps final_keeps.
  intros st Ho Hnd. split; [by apply (order_root_children fuel)|]. split; [|split].
  - exists (fold_left (fun s d => enable_one d s) l s). split.
    + change (dev_enable fuel root s) with (links_fold enable_one fuel (d_link_list (tdev s root)) s).
      rewrite links_fold_order by apply enable_one_dev. unfold tdev. fold st. by rewrite Ho.
    + apply (visits_log _ _ _ (fun _ s => t_dev (fst s) = st)).
      * intros d s0 E. unfold enable_one, wants, tdev. rewrite E. destruct (d_enabled _); [|by rewrite app_nil_r].
        destruct (op_enable_resources d); cbn; by rewrite ?app_nil_r.
      * intros d d' s0 _ E _. by rewrite enable_one_dev.
      * by apply NoDup_cons in Hnd as [_ Hnd].
      * done.
  - exists (fold_left (fun s d => init_dev d s) (root :: l) s). split.
    + change (dev_initialize fuel root s) with
        (links_fold init_dev fuel (d_link_list (tdev (init_dev root s) root)) (init_dev root s)).
      rewrite links_fold_order by apply init_dev_spec. unfold tdev.
      rewrite (proj1 (init_dev_spec root s)). fold st. by rewrite Ho.
    + split; [|apply init_fold_set].
      apply (visits_log _ _ _ (fun d s0 => t_dev (fst s0) = st /\
        (d ∈ t_initialized (fst s0) <-> d ∈ t_initialized (fst s)))); [| |done|done].
      * intros d s0 [E Hi]. destruct (init_dev_spec d s0) as (_ & _ & ->). rewrite E. by rewrite (bool_decide_ext _ _ Hi).
      * intros d d' s0 [E Hi] _ Hne. destruct (init_dev_spec d' s0) as (-> & -> & _).
        split; [done|]. rewrite <- Hi. case_bool; [|done].
        rewrite elem_of_union, elem_of_singleton. split; [by intros [|<-]|by left].
  - exists (fold_left (fun s d => final_dev d s) (root :: l) s). split.
    + change (dev_finalize fuel root s) with
        (links_fold final_dev fuel (d_link_list (tdev (final_dev root s) root)) (final_dev root s)).
      rewrite links_fold_order by apply final_dev_dev. unfold tdev.
      rewrite final_dev_dev. fold st. by rewrite Ho.
    + apply (visits_log _ _ _ (fun _ s => t_dev (fst s) = st)); [| |done|done].
      * intros d s0 E. unfold final_dev, wants, tdev. rewrite E.
        destruct (d_enabled _); cbn; [|by rewrite app_nil_r].
        destruct (op_final d); cbn; by rewrite ?app_nil_r.
      * intros d d' s0 _ E _. by rewrite final_dev_dev.
Qed.

(** ** Scanning until no reset is needed *)

Lemma reset_again busdev links : forall s, exists s',
  fold_left (reset_step busdev) links (true, s) = (true, s').
Proof.
  induction links as [|link links IH]; intros s; [by exists s|]. simpl.
  case_bool; [|apply IH]. unfold reset_bus. destruct (op_reset_bus _); apply IH.
Qed.

(** When no link was reset, those that still need it were passed on. *)
Lemma reset_links_false busdev links s s' :
  reset_links busdev links s = (false, s') ->
  t_dev (fst s') = t_dev (fst s) /\ snd s' = snd s /\ t_reset (fst s) ⊆ t_reset (fst s') /\
  (forall n, n ∈ t_reset (fst s') -> n ∈ t_reset (fst s) \/ n = d_bus (tdev s busdev)) /\
  (forall link, link ∈ links -> link ∈ t_reset (fst s) ->
     op_reset_bus (b_dev (tbus s link)) = None /\ d_bus (tdev s busdev) ∈ t_reset (fst s')).
Proof.
  unfold reset_links.
  revert s. induction links as [|x links IH]; intros s; simpl.
  { intros [= <-]. do 3 (split; [done|]). split; [by left|]. by intros ? ?%not_elem_of_nil. }
  case_bool.
  - apply bool_decide_eq_true in E. unfold reset_bus. destruct (op_reset_bus _) as [f|] eqn:Ef.
    { intros H. destruct (reset_again busdev links (set_reset x false (fst (call OpReset x f s)),
        snd (call OpReset x f s))) as [s2 E2]. congruence. }
    intros H. destruct (IH _ H) as (H1 & H2 & H3 & H4 & H5).
    unfold tdev, tbus in *. cbn [fst snd set_reset t_dev t_reset] in *.
    assert (Hin : forall n, n ∈ t_reset (fst s) ->
      n ∈ t_reset (fst s) ∪ {[d_bus (get_dev (t_dev (fst s)) busdev)]}).
    { intros n. apply elem_of_union_l. }
    assert (Hbus : d_bus (get_dev (t_dev (fst s)) busdev) ∈ t_reset (fst s')).
    { apply H3. by apply elem_of_union_r, elem_of_singleton. }
    split; [done|]. split; [done|]. split; [intros n Hn; by apply H3, Hin|]. split.
    + intros n [[Hn|Hn%elem_of_singleton]%elem_of_union|Hn]%H4; auto.
    + intros link [->|Hl]%elem_of_cons Hr; [by split|]. apply H5; auto.
  - apply bool_decide_eq_false in E. intros H. destruct (IH _ H) as (H1 & H2 & H3 & H4 & H5).
    do 4 (split; [done|]). intros link [->|Hl]%elem_of_cons Hr; [done|auto].
Qed.

Lemma reset_links_log busdev links s :
  exists n, snd (snd (reset_links busdev links s)) = snd s ++ n.
Proof.
  unfold reset_links. generalize false.
  revert s. induction links as [|x links IH]; intros s again; simpl.
  { exists []. by rewrite app_nil_r. }
  case_bool; [|apply IH]. unfold reset_bus. destruct (op_reset_bus _) as [g|].
  - destruct (IH (set_reset x false (fst (call OpReset x g s)), snd (call OpReset x g s)) true)
      as [n ->]. exists ((OpReset, x) :: n). simpl. by rewrite <- app_assoc.
  - apply (IH (set_reset (d_bus (tdev s busdev)) true (fst s), snd s)).
Qed.

(** A bus is scanned until it settles.  If the resets that scanning asks
    for come to an end, [measure] decreasing with every round that resets a
    link, then [scan_bus] returns, after at most [measure] more rounds; at that
    point no link of the device that needs a reset can be reset here, and the
    need has been passed to the bus the device is on.  A disabled device is not
    scanned. *)
Theorem scan_bus_settles (measure : tree -> nat) busdev f s rounds :
  op_scan_bus busdev = Some f ->
  (forall s s', scan_round busdev f s = (true, s') -> (measure (fst s') < measure (fst s))%nat) ->
  (measure (fst s) < rounds)%nat ->
  exists s', scan_bus rounds busdev s = Some s' /\
    (d_enabled (tdev s busdev) = false -> s' = s) /\
    (d_enabled (tdev s busdev) = true ->
     (exists n, snd s' = snd s ++ n ++ [(OpScan, busdev)]) /\
     forall link, link ∈ d_link_list (tdev s' busdev) -> link <> d_bus (tdev s' busdev) ->
       link ∈ t_reset (fst s') ->
       op_reset_bus (b_dev (tbus s' link)) = None /\ d_bus (tdev s' busdev) ∈ t_reset (fst s')).
Proof.
  intros Hf Hm Hr. unfold scan_bus. rewrite Hf. destruct (d_enabled _); cbn [negb].
  2:{ exists s. by split. }
  pose proof (reset_links_log busdev) as Hlog.
  assert (H : exists s', scan_loop rounds busdev f s = Some s' /\
    (exists n, snd s' = snd s ++ n ++ [(OpScan, busdev)]) /\
     forall link, link ∈ d_link_list (tdev s' busdev) -> link <> d_bus (tdev s' busdev) ->
       link ∈ t_reset (fst s') ->
       op_reset_bus (b_dev (tbus s' link)) = None /\ d_bus (tdev s' busdev) ∈ t_reset (fst s')).
  2:{ destruct H as (s' & H1 & H2). exists s'. by split. }
  revert s Hr. induction rounds as [|rounds IH]; intros s Hr; [lia|]. cbn [scan_loop].
  destruct (scan_round busdev f s) as [again s1] eqn:E. pose proof (Hm s s1) as Hlt.
  destruct again.
  - destruct (IH s1) as (s' & H1 & (n & Hn) & H2); [specialize (Hlt E); lia|].
    exists s'. split; [done|]. split; [|done].
    unfold scan_round in E. cbv zeta in E.
    destruct (Hlog (d_link_list (tdev (call OpScan busdev f s) busdev)) (call OpScan busdev f s)) as [n' Hn'].
    rewrite E in Hn'. cbn in Hn'. exists ((OpScan, busdev) :: n' ++ n). rewrite Hn, Hn'.
    cbn [app]. rewrite <- !app_assoc. cbn [app]. done.
  - exists s1. split; [done|]. unfold scan_round in E. cbv zeta in E.
    destruct (reset_links_false _ _ _ _ E) as (H1 & H2 & H3 & H4 & H5). split.
    + exists []. by rewrite H2.
    + unfold tdev, tbus in *. rewrite H1. intros link Hl Hne Hin.
      destruct (H4 link Hin) as [Hin'|]; [|done]. by apply H5.
Qed.
End Passes.

(** ** Samples *)

(** The root 0 with link 100 and two devices; device 2 is a bridge to device 3;
    device 1 is disabled. *)
Definition sample_tree : tree (world := unit) :=
  mk_tree (mk_dstate
    {[ 0%nat := mk_device 100 DEVICE_PATH_ROOT 0 0 0 true [] [100%nat];
       1%nat := mk_device 100 (DEVICE_PATH_PCI 0) 0 0 0 false [] [];
       2%nat := mk_device 100 (DEVICE_PATH_PCI 8) 0 0 0 true [] [101%nat];
       3%nat := mk_device 101 (DEVICE_PATH_PCI 0) 0 0 0 true [] [] ]}
    {[ 100%nat := mk_bus 0 [1; 2]%nat 0 0; 101%nat := mk_bus 2 [3%nat] 0 1 ]}
    ∅ [] [] 200) ∅ ∅ tt.

(** Every driver has every operation, and they do nothing. *)
Definition sample_op (d : nat) : option (tree (world := unit) -> tree (world := unit)) := Some id.

Lemma device_passes_witness :
  (exists s', dev_initialize sample_op 5 0 (sample_tree, []) = Some s' /\
     snd s' = [(OpInit, 0); (OpInit, 2); (OpInit, 3)]%nat) /\
  exists s', dev_finalize sample_op 5 0 (sample_tree, []) = Some s' /\
     snd s' = [(OpFinal, 0); (OpFinal, 2); (OpFinal, 3)]%nat.
Proof.
  assert (K : forall d f t, sample_op d = Some f ->
    t_dev (f t) = t_dev t /\ t_initialized (f t) = t_initialized t) by (intros d f t [= <-]; done).
  destruct (device_passes_correct sample_op sample_op sample_op
    (fun d f t H => proj1 (K d f t H)) K (fun d f t H => proj1 (K d f t H))
    5 0 (sample_tree, []) [1; 2; 3]%nat) as (_ & _ & (s1 & H1 & H2 & _) & (s2 & H3 & H4)).
  - vm_compute. reflexivity.
  - repeat constructor; set_solver.
  - split; [exists s1|exists s2].
    + split; [exact H1|]. rewrite H2. vm_compute. reflexivity.
    + split; [exact H3|]. rewrite H4. vm_compute. reflexivity.
Defined.

(** A bus that asks for a reset as often as its [world] says. *)
Definition asking (t : tree (world := nat)) : tree :=
  mk_tree (t_dev t) (t_initialized t)
    (match t_world t with O => ∅ | S _ => {[101%nat]} end) (pred (t_world t)).

Lemma asking_decreases (s s' : state (world := nat)) :
  scan_round (fun _ => Some id) 2 asking s = (true, s') ->
  (t_world (fst s') < t_world (fst s))%nat.
Proof.
  unfold scan_round. cbv zeta. set (s0 := call _ _ _ _). generalize (d_link_list (tdev s0 2)). intros links.
  assert (Hw : forall l s a, t_world (fst (snd (fold_left (reset_step (fun _ => Some id) 2) l (a, s)))) =
    t_world (fst (s : state (world := nat)))).
  { induction l as [|x l IH]; intros s1 a; [done|]. simpl. case_bool; [|apply IH]. simpl. by rewrite IH. }
  intros E. pose proof (Hw links s0 false) as H. unfold reset_links in E. rewrite E in H. cbn in H.
  rewrite H. destruct (t_world (fst s)) as [|n] eqn:Ew; [|simpl; lia]. exfalso.
  assert (H0 : t_reset (fst s0) = ∅) by (unfold s0, call, asking; simpl; by rewrite Ew).
  clearbody s0. clear -E H0. induction links as [|x l IH]; [done|]. simpl in E.
  rewrite H0 in E. rewrite bool_decide_eq_false_2 in E by set_solver. auto.
Qed.

Lemma scan_bus_settles_witness :
  let s : state := (mk_tree (t_dev sample_tree) ∅ ∅ 1%nat, []) in
  exists s', scan_bus (fun _ => Some asking) (fun _ => Some id) 5 2 s = Some s' /\
    exists n, snd s' = n ++ [(OpScan, 2%nat)].
Proof.
  intros s.
  destruct (scan_bus_settles (fun _ => Some asking) (fun _ => Some id) t_world 2 asking s 5)
    as (s' & H1 & _ & H2).
  - reflexivity.
  - exact asking_decreases.
  - vm_compute. lia.
  - exists s'. split; [exact H1|]. destruct (H2 eq_refl) as [[n Hn] _]. exists n. exact Hn.
Defined.
