(* ===== verification/PciResource.v ===== *)
(** * Resources of PCI devices
    ([src/device/pci_device.c]: sizing and storing; [src/device/pci_ops.c])

    The configuration space is hardware: reads and writes of registers are
    parameters, addressed by bus number, device and function, register and
    width in bits.  What the code relies on is the class [ConfigRegs]. *)

From S2P Require Import Prelude Device.

Definition PCI_COMMAND : Z := 0x04.
Definition PCI_COMMAND_IO : Z := 0x1.
Definition PCI_COMMAND_MEMORY : Z := 0x2.
Definition PCI_COMMAND_MASTER : Z := 0x4.
Definition PCI_STATUS : Z := 0x06.
Definition PCI_STATUS_CAP_LIST : Z := 0x10.
Definition PCI_CACHE_LINE_SIZE : Z := 0x0c.
Definition PCI_LATENCY_TIMER : Z := 0x0d.
Definition PCI_HEADER_TYPE_NORMAL : Z := 0.
Definition PCI_HEADER_TYPE_BRIDGE : Z := 1.
Definition PCI_HEADER_TYPE_CARDBUS : Z := 2.
Definition PCI_BASE_ADDRESS_0 : Z := 0x10.
Definition PCI_BASE_ADDRESS_SPACE : Z := 0x01.
Definition PCI_BASE_ADDRESS_SPACE_IO : Z := 0x01.
Definition PCI_BASE_ADDRESS_SPACE_MEMORY : Z := 0x00.
Definition PCI_BASE_ADDRESS_MEM_LIMIT_MASK : Z := 0x06.
Definition PCI_BASE_ADDRESS_MEM_LIMIT_32 : Z := 0x00.
Definition PCI_BASE_ADDRESS_MEM_LIMIT_1M : Z := 0x02.
Definition PCI_BASE_ADDRESS_MEM_LIMIT_64 : Z := 0x04.
Definition PCI_BASE_ADDRESS_MEM_PREFETCH : Z := 0x08.
Definition PCI_BASE_ADDRESS_MEM_ATTR_MASK : Z := 0x0f.
Definition PCI_BASE_ADDRESS_IO_ATTR_MASK : Z := 0x03.
Definition PCI_ROM_ADDRESS : Z := 0x30.
Definition PCI_ROM_ADDRESS1 : Z := 0x38.
Definition PCI_ROM_ADDRESS_ENABLE : Z := 0x01.
Definition PCI_CAPABILITY_LIST : Z := 0x34.
Definition PCI_CB_CAPABILITY_LIST : Z := 0x14.
Definition PCI_CAP_LIST_ID : Z := 0.
Definition PCI_CAP_LIST_NEXT : Z := 1.
Definition PCI_INTERRUPT_LINE : Z := 0x3c.
Definition PCI_INTERRUPT_PIN : Z := 0x3d.
Definition PCI_SEC_LATENCY_TIMER : Z := 0x1b.
Definition PCI_IO_BASE : Z := 0x1c.
Definition PCI_IO_LIMIT : Z := 0x1d.
Definition PCI_MEMORY_BASE : Z := 0x20.
Definition PCI_MEMORY_LIMIT : Z := 0x22.
Definition PCI_PREF_MEMORY_BASE : Z := 0x24.
Definition PCI_PREF_MEMORY_LIMIT : Z := 0x26.
Definition PCI_PREF_BASE_UPPER32 : Z := 0x28.
Definition PCI_PREF_LIMIT_UPPER32 : Z := 0x2c.
Definition PCI_IO_BASE_UPPER16 : Z := 0x30.
Definition PCI_IO_LIMIT_UPPER16 : Z := 0x32.

Definition IORESOURCE_PCI64 : Z := 1.
Definition IORESOURCE_PCI_BRIDGE : Z := 2.
Definition IORESOURCE_READONLY : Z := 0x2000.
Definition IOINDEX_SUBTRACTIVE (idx link : Z) : Z := 0x10000000 + Z.shiftl idx 8 + link.

Definition pci_base_address_is_memory_space (attr : Z) : bool :=
  Z.land attr PCI_BASE_ADDRESS_SPACE =? PCI_BASE_ADDRESS_SPACE_MEMORY.

Definition with_gran (g : Z) (r : resource) : resource :=
  mk_resource (res_base r) (res_size r) (res_limit r) (res_flags r) (res_index r) (res_align r) g.

(** The least power of two with a bit in [moving], and its exponent: 64
    rounds are enough for 64 bits. *)
Fixpoint size_loop (fuel : nat) (moving size n : Z) : option (Z * Z) :=
  match fuel with
  | O => None
  | S fuel' =>
      if Z.land moving size =? 0 then size_loop fuel' moving (u64 (Z.shiftl size 1)) (n + 1)
      else Some (size, n)
  end.

(** Zero bits that move are excluded by the callers; the loop then ends. *)
Definition lowest_bit (moving : Z) : Z * Z := default (0, 0) (size_loop 64 moving 1 0).

Section Pci.
Context {H : Type}.
(** Bus, device and function, register, width in bits (and value). *)
Variable config_read : H -> Z -> Z -> Z -> Z -> Z.
Variable config_write : H -> Z -> Z -> Z -> Z -> Z -> H.

(** The tree, the [command] and [hdr_type] fields of the devices, the hardware. *)
Record pci_state := mk_pci
  { tree : dstate; command : nat -> Z; hdr_type : nat -> Z; hw : H }.

Definition set_tree (t : dstate) (s : pci_state) : pci_state :=
  mk_pci t (command s) (hdr_type s) (hw s).
Definition set_hw (h : H) (s : pci_state) : pci_state :=
  mk_pci (tree s) (command s) (hdr_type s) h.
Definition set_command (dev : nat) (c : Z) (s : pci_state) : pci_state :=
  mk_pci (tree s) (fun d => if (d =? dev)%nat then c else command s d) (hdr_type s) (hw s).

Definition dev_secondary (t : dstate) (dev : nat) : Z := b_secondary (get_bus t (d_bus (get_dev t dev))).
Definition dev_devfn (t : dstate) (dev : nat) : Z :=
  match d_path (get_dev t dev) with DEVICE_PATH_PCI devfn => devfn | _ => 0 end.

(** [pci_read_config8/16/32] and [pci_write_config8/16/32]. *)
Definition pci_read_config (w : Z) (s : pci_state) (dev : nat) (reg : Z) : Z :=
  config_read (hw s) (dev_secondary (tree s) dev) (dev_devfn (tree s) dev) reg w.
Definition pci_write_config (w : Z) (s : pci_state) (dev : nat) (reg v : Z) : pci_state :=
  set_hw (config_write (hw s) (dev_secondary (tree s) dev) (dev_devfn (tree s) dev) reg w (wrap w v)) s.

(** [pci_moving_config8/16/32] *)
Definition pci_moving_config (w : Z) (s : pci_state) (dev : nat) (reg : Z) : Z * pci_state :=
  let value := pci_read_config w s dev reg in
  let s := pci_write_config w s dev reg (2 ^ w - 1) in
  let ones := pci_read_config w s dev reg in
  let s := pci_write_config w s dev reg 0 in
  let zeroes := pci_read_config w s dev reg in
  let s := pci_write_config w s dev reg value in
  (Z.lxor ones zeroes, s).

(** ** Capabilities *)

Fixpoint cap_loop (reps : nat) (s : pci_state) (dev : nat) (cap last pos : Z) : Z :=
  match reps with
  | O => 0
  | S reps' =>
      if negb (0x40 <=? pos) then 0
      else
        let pos := Z.land pos (bnot 32 3) in
        let this_cap := pci_read_config 8 s dev (pos + PCI_CAP_LIST_ID) in
        if this_cap =? 0xff then 0
        else if (last =? 0) && (this_cap =? cap) then pos
        else
          let last := if last =? pos then 0 else last in
          cap_loop reps' s dev cap last (pci_read_config 8 s dev (pos + PCI_CAP_LIST_NEXT))
  end.

Definition pci_find_next_capability (s : pci_state) (dev : nat) (cap last : Z) : Z :=
  let status := pci_read_config 16 s dev PCI_STATUS in
  if Z.land status PCI_STATUS_CAP_LIST =? 0 then 0
  else
    let type := Z.land (hdr_type s dev) 0x7f in
    let start :=
      if (type =? PCI_HEADER_TYPE_NORMAL) || (type =? PCI_HEADER_TYPE_BRIDGE) then Some PCI_CAPABILITY_LIST
      else if type =? PCI_HEADER_TYPE_CARDBUS then Some PCI_CB_CAPABILITY_LIST
      else None in
    match start with
    | None => 0
    | Some pos => cap_loop 48 s dev cap last (pci_read_config 8 s dev pos)
    end.

Definition pci_find_capability (s : pci_state) (dev : nat) (cap : Z) : Z :=
  pci_find_next_capability s dev cap 0.

(** ** Sizing *)

(** The resource of a base address register, from the bits that stay ([attr])
    and the bits that move. *)
Definition bar_resource (attr moving : Z) (r : resource) : resource :=
  let limit := if moving =? 0 then 0 else Z.lor moving (u64 ((lowest_bit moving).1 - 1)) in
  let r :=
    if moving =? 0 then r
    else
      let '(size, n) := lowest_bit moving in
      let r := with_limit limit (with_gran n (with_align n (with_size size r))) in
      if pci_base_address_is_memory_space attr && (res_align r <? 12) then with_align 12 r else r in
  let r :=
    if moving =? 0 then with_flags 0 r
    else if has attr PCI_BASE_ADDRESS_SPACE_IO then
      with_limit 0xffff (with_flags (Z.lor (res_flags r) IORESOURCE_IO) r)
    else
      let attr := Z.land attr PCI_BASE_ADDRESS_MEM_ATTR_MASK in
      let flags := Z.lor (res_flags r) IORESOURCE_MEM in
      let flags := if has attr PCI_BASE_ADDRESS_MEM_PREFETCH then Z.lor flags IORESOURCE_PREFETCH else flags in
      let attr := Z.land attr PCI_BASE_ADDRESS_MEM_LIMIT_MASK in
      if attr =? PCI_BASE_ADDRESS_MEM_LIMIT_32 then with_limit 0xffffffff (with_flags flags r)
      else if attr =? PCI_BASE_ADDRESS_MEM_LIMIT_1M then with_limit 0x000fffff (with_flags flags r)
      else if attr =? PCI_BASE_ADDRESS_MEM_LIMIT_64 then
        with_limit 0xffffffffffffffff (with_flags (Z.lor flags IORESOURCE_PCI64) r)
      else with_flags 0 r in
  if limit <? res_limit r then with_limit limit r else r.

Definition pci_get_resource (s : pci_state) (dev : nat) (index : Z) : nat * pci_state :=
  let '(p, t) := new_resource (tree s) dev index in
  let s := set_tree t s in
  let value := pci_read_config 32 s dev index in
  let '(moving, s) := pci_moving_config 32 s dev index in
  let attr := Z.land value (bnot 64 moving) in
  let '(moving, s) :=
    if (Z.land attr PCI_BASE_ADDRESS_SPACE_IO =? 0)
       && (Z.land attr PCI_BASE_ADDRESS_MEM_LIMIT_MASK =? PCI_BASE_ADDRESS_MEM_LIMIT_64) then
      let '(high, s) := pci_moving_config 32 s dev (index + 4) in
      (Z.lor moving (Z.shiftl high 32), s)
    else (moving, s) in
  (p, set_tree (set_res (tree s) p (bar_resource attr moving (get_res (tree s) p))) s).

Definition pci_get_rom_resource (s : pci_state) (dev : nat) (index : Z) : pci_state :=
  let '(p, t) := new_resource (tree s) dev index in
  let s := set_tree t s in
  let '(moving, s) := pci_moving_config 32 s dev index in
  let moving := Z.land moving (bnot 64 PCI_ROM_ADDRESS_ENABLE) in
  let r := get_res (tree s) p in
  let r :=
    if moving =? 0 then with_flags 0 r
    else
      let '(size, n) := lowest_bit moving in
      let r := with_limit (Z.lor moving (u64 (size - 1))) (with_gran n (with_align n (with_size size r))) in
      with_flags (Z.lor (res_flags r) (Z.lor IORESOURCE_MEM IORESOURCE_READONLY)) r in
  let s := set_tree (set_res (tree s) p r) s in
  set_tree (compact_resources (tree s) dev) s.

(** [fuel] is the number of registers: each round passes at least one. *)
Fixpoint bases_loop (fuel : nat) (s : pci_state) (dev : nat) (index last : Z) : pci_state :=
  match fuel with
  | O => s
  | S fuel' =>
      if index <? last then
        let '(p, s) := pci_get_resource s dev index in
        let step := if has (res_flags (get_res (tree s) p)) IORESOURCE_PCI64 then 8 else 4 in
        bases_loop fuel' s dev (index + step) last
      else s
  end.

Definition pci_read_bases (s : pci_state) (dev : nat) (howmany : nat) : pci_state :=
  let s := bases_loop howmany s dev PCI_BASE_ADDRESS_0
             (PCI_BASE_ADDRESS_0 + Z.shiftl (Z.of_nat howmany) 2) in
  set_tree (compact_resources (tree s) dev) s.

Definition bridge_resource (moving type : Z) (r : resource) : resource :=
  let '(step, gran) := lowest_bit moving in
  with_flags (Z.lor type (Z.lor IORESOURCE_PCI_BRIDGE IORESOURCE_BRIDGE))
    (with_limit (Z.lor moving (u64 (step - 1))) (with_align gran (with_gran gran (with_size 0 r)))).

Definition pci_record_bridge_resource (s : pci_state) (dev : nat) (moving index type : Z) : pci_state :=
  if moving =? 0 then s
  else
    let '(p, t) := new_resource (tree s) dev index in
    set_tree (set_res t p (bridge_resource moving type (get_res t p))) s.

Definition pci_bridge_read_bases (s : pci_state) (dev : nat) : pci_state :=
  let '(lo, s) := pci_moving_config 8 s dev PCI_IO_BASE in
  let '(hi, s) := pci_moving_config 16 s dev PCI_IO_BASE_UPPER16 in
  let moving_base := Z.lor (Z.shiftl lo 8) (Z.shiftl hi 16) in
  let '(lo, s) := pci_moving_config 8 s dev PCI_IO_LIMIT in
  let '(hi, s) := pci_moving_config 16 s dev PCI_IO_LIMIT_UPPER16 in
  let moving_limit := Z.lor (Z.shiftl lo 8) (Z.shiftl hi 16) in
  let s := pci_record_bridge_resource s dev (Z.land moving_base moving_limit) PCI_IO_BASE IORESOURCE_IO in
  let '(lo, s) := pci_moving_config 16 s dev PCI_PREF_MEMORY_BASE in
  let '(hi, s) := pci_moving_config 32 s dev PCI_PREF_BASE_UPPER32 in
  let moving_base := Z.lor (Z.shiftl lo 16) (Z.shiftl hi 32) in
  let '(lo, s) := pci_moving_config 16 s dev PCI_PREF_MEMORY_LIMIT in
  let '(hi, s) := pci_moving_config 32 s dev PCI_PREF_LIMIT_UPPER32 in
  let moving_limit := Z.lor (Z.shiftl lo 16) (Z.shiftl hi 32) in
  let s := pci_record_bridge_resource s dev (Z.land moving_base moving_limit) PCI_PREF_MEMORY_BASE
             (Z.lor IORESOURCE_MEM IORESOURCE_PREFETCH) in
  let '(lo, s) := pci_moving_config 16 s dev PCI_MEMORY_BASE in
  let moving_base := Z.shiftl lo 16 in
  let '(lo, s) := pci_moving_config 16 s dev PCI_MEMORY_LIMIT in
  let moving_limit := Z.shiftl lo 16 in
  let s := pci_record_bridge_resource s dev (Z.land moving_base moving_limit) PCI_MEMORY_BASE IORESOURCE_MEM in
  set_tree (compact_resources (tree s) dev) s.

Definition pci_dev_read_resources (s : pci_state) (dev : nat) : pci_state :=
  pci_get_rom_resource (pci_read_bases s dev 6) dev PCI_ROM_ADDRESS.

Definition pci_bus_read_resources (s : pci_state) (dev : nat) : pci_state :=
  pci_get_rom_resource (pci_read_bases (pci_bridge_read_bases s dev) dev 2) dev PCI_ROM_ADDRESS1.

Definition domain_resource (t : dstate) (dev : nat) (index limit type : Z) : dstate :=
  let '(p, t) := new_resource t dev index in
  set_res t p (with_flags (Z.lor type (Z.lor IORESOURCE_SUBTRACTIVE IORESOURCE_ASSIGNED))
                 (with_limit limit (get_res t p))).

Definition pci_domain_read_resources (s : pci_state) (dev : nat) : pci_state :=
  let t := domain_resource (tree s) dev (IOINDEX_SUBTRACTIVE 0 0) 0xffff IORESOURCE_IO in
  let t := domain_resource t dev (IOINDEX_SUBTRACTIVE 1 0) 0xffffffff IORESOURCE_MEM in
  set_tree t s.

(** ** Storing *)

Definition store_command (s : pci_state) (dev : nat) (r : resource) : pci_state :=
  if res_size r =? 0 then s
  else
    let c := command s dev in
    let c := if has (res_flags r) IORESOURCE_MEM then Z.lor c PCI_COMMAND_MEMORY else c in
    let c := if has (res_flags r) IORESOURCE_IO then Z.lor c PCI_COMMAND_IO else c in
    let c := if has (res_flags r) IORESOURCE_PCI_BRIDGE then Z.lor c PCI_COMMAND_MASTER else c in
    set_command dev (u8 c) s.

(** [1 << gran] is a 32-bit [int]: the bridges' granularities are 12 and 20. *)
Definition pci_set_resource (s : pci_state) (dev p : nat) : pci_state :=
  let r := get_res (tree s) p in
  if negb (has (res_flags r) IORESOURCE_ASSIGNED) then s
  else if has (res_flags r) IORESOURCE_FIXED then s
  else if has (res_flags r) IORESOURCE_STORED then s
  else if has (res_flags r) IORESOURCE_SUBTRACTIVE then s
  else if negb (has (res_flags r) (Z.lor IORESOURCE_MEM IORESOURCE_IO)) then s
  else
    let s := store_command s dev r in
    let base := res_base r in
    let end_ := resource_end r in
    let r := with_flags (Z.lor (res_flags r) IORESOURCE_STORED) r in
    let '(base, end_, r) :=
      if (res_size r =? 0) && has (res_flags r) IORESOURCE_PCI_BRIDGE then
        let base := res_limit r in
        (base, u64 (res_limit r - s32 (Z.shiftl 1 (res_gran r))), with_base base r)
      else (base, end_, r) in
    let put r s := set_tree (set_res (tree s) p r) s in
    if negb (has (res_flags r) IORESOURCE_PCI_BRIDGE) then
      let base_lo := Z.land base 0xffffffff in
      let base_hi := Z.land (Z.shiftr base 32) 0xffffffff in
      let base_lo := if has (res_flags r) IORESOURCE_IO then Z.lor base_lo PCI_BASE_ADDRESS_SPACE_IO else base_lo in
      let s := pci_write_config 32 (put r s) dev (res_index r) base_lo in
      if has (res_flags r) IORESOURCE_PCI64 then pci_write_config 32 s dev (res_index r + 4) base_hi else s
    else if res_index r =? PCI_IO_BASE then
      let s := pci_write_config 8 (put r s) dev PCI_IO_BASE (Z.shiftr base 8) in
      let s := pci_write_config 16 s dev PCI_IO_BASE_UPPER16 (Z.shiftr base 16) in
      let s := pci_write_config 8 s dev PCI_IO_LIMIT (Z.shiftr end_ 8) in
      pci_write_config 16 s dev PCI_IO_LIMIT_UPPER16 (Z.shiftr end_ 16)
    else if res_index r =? PCI_MEMORY_BASE then
      let s := pci_write_config 16 (put r s) dev PCI_MEMORY_BASE (Z.shiftr base 16) in
      pci_write_config 16 s dev PCI_MEMORY_LIMIT (Z.shiftr end_ 16)
    else if res_index r =? PCI_PREF_MEMORY_BASE then
      let s := pci_write_config 16 (put r s) dev PCI_PREF_MEMORY_BASE (Z.shiftr base 16) in
      let s := pci_write_config 32 s dev PCI_PREF_BASE_UPPER32 (Z.shiftr base 32) in
      let s := pci_write_config 16 s dev PCI_PREF_MEMORY_LIMIT (Z.shiftr end_ 16) in
      pci_write_config 32 s dev PCI_PREF_LIMIT_UPPER32 (Z.shiftr end_ 32)
    else put (with_flags (Z.land (res_flags r) (bnot 32 IORESOURCE_STORED)) r) s.

(** [assign_resources] of the buses below is an argument. *)
Definition pci_dev_set_resources (assign_resources : nat -> pci_state -> pci_state)
    (s : pci_state) (dev : nat) : pci_state :=
  let s := fold_left (fun s p => pci_set_resource s dev p) (d_resource_list (get_dev (tree s) dev)) s in
  let s := fold_left (fun s link =>
             match b_children (get_bus (tree s) link) with [] => s | _ => assign_resources link s end)
             (d_link_list (get_dev (tree s) dev)) s in
  let s := pci_write_config 8 s dev PCI_LATENCY_TIMER 0x40 in
  let s := if Z.land (hdr_type s dev) 0x7f =? PCI_HEADER_TYPE_BRIDGE
           then pci_write_config 8 s dev PCI_SEC_LATENCY_TIMER 0x40 else s in
  let line := pci_read_config 8 s dev PCI_INTERRUPT_PIN in
  let s := if line =? 0 then s else pci_write_config 8 s dev PCI_INTERRUPT_LINE 0 in
  pci_write_config 8 s dev PCI_CACHE_LINE_SIZE (Z.shiftr 64 2).
End Pci.

Arguments pci_state : clear implicits.

(** ** Registers

    The interface to the hardware, for one function of a device: [regs] lists
    registers by offset and width with their writable bits.  A write changes the
    writable bits of its register and no other register of the list. *)
Class ConfigRegs {H : Type} (config_read : H -> Z -> Z -> Z -> Z -> Z)
    (config_write : H -> Z -> Z -> Z -> Z -> Z -> H) (b d : Z) (regs : list (Z * Z * Z)) : Prop := {
  cr_unique : forall r w m w' m', (r, w, m) ∈ regs -> (r, w', m') ∈ regs -> w = w' /\ m = m';
  cr_range : forall h r w m, (r, w, m) ∈ regs ->
    0 <= w /\ 0 <= config_read h b d r w < 2 ^ w /\ 0 <= m < 2 ^ w;
  cr_write : forall h r w m v, (r, w, m) ∈ regs ->
    config_read (config_write h b d r w v) b d r w =
    Z.lor (Z.ldiff (config_read h b d r w) m) (Z.land v m);
  cr_frame : forall h r w m r' w' m' v, (r, w, m) ∈ regs -> (r', w', m') ∈ regs -> r <> r' ->
    config_read (config_write h b d r w v) b d r' w' = config_read h b d r' w'
}.

(** ** Bits *)

Lemma mask_bits n k i : 0 <= k <= n -> 0 <= i ->
  Z.testbit (2 ^ n - 2 ^ k) i = (k <=? i) && (i <? n).
Proof.
  intros Hk Hi. replace (2 ^ n - 2 ^ k) with (Z.shiftl (Z.ones (n - k)) k).
  - rewrite Z.shiftl_spec by lia. destruct (Z.lt_ge_cases i k).
    + rewrite Z.testbit_neg_r by lia. symmetry. apply andb_false_iff. left. by apply Z.leb_gt.
    + rewrite (proj2 (Z.leb_le k i)) by lia. cbn [andb]. rewrite Z.testbit_ones_nonneg by lia.
      apply eq_true_iff_eq. rewrite !Z.ltb_lt. lia.
  - rewrite Z.shiftl_mul_pow2, Z.ones_equiv by lia. replace (2 ^ n) with (2 ^ (n - k) * 2 ^ k); [lia|].
    rewrite <- Z.pow_add_r by lia. f_equal. lia.
Qed.

Lemma land_mask n k x : 0 <= k <= n -> 0 <= x < 2 ^ n -> (2 ^ k | x) -> Z.land x (2 ^ n - 2 ^ k) = x.
Proof.
  intros Hk Hx [q ->]. apply Z.bits_inj'. intros i Hi. rewrite Z.land_spec, mask_bits by lia.
  destruct (Z.lt_ge_cases i k) as [H|H].
  - rewrite Z.mul_pow2_bits_low by lia. done.
  - rewrite (proj2 (Z.leb_le k i)) by lia. destruct (Z.lt_ge_cases i n) as [H'|H'].
    + rewrite (proj2 (Z.ltb_lt i n)) by lia. by rewrite andb_true_r.
    + rewrite <- (Z.mod_small (q * 2 ^ k) (2 ^ n)), Z.mod_pow2_bits_high by lia. done.
Qed.

Lemma mask_low n k : 0 <= k <= n -> Z.lor (2 ^ n - 2 ^ k) (2 ^ k - 1) = 2 ^ n - 1.
Proof.
  intros Hk. pose proof (Z.pow_pos_nonneg 2 k ltac:(lia) ltac:(lia)).
  rewrite (lor_add _ _ k); [lia|lia|lia|]. exists (2 ^ (n - k) - 1).
  replace (2 ^ n) with (2 ^ (n - k) * 2 ^ k); [lia|]. rewrite <- Z.pow_add_r by lia. f_equal. lia.
Qed.

Lemma size_loop_mask fuel : forall n k i, 0 <= i <= k -> k < n <= 64 -> k - i < Z.of_nat fuel ->
  size_loop fuel (2 ^ n - 2 ^ k) (2 ^ i) i = Some (2 ^ k, k).
Proof.
  induction fuel as [|fuel IH]; intros n k i Hi Hn Hf; [lia|]. cbn [size_loop].
  assert (E : Z.land (2 ^ n - 2 ^ k) (2 ^ i) = if i =? k then 2 ^ k else 0).
  { apply Z.bits_inj'. intros j Hj. rewrite Z.land_spec, mask_bits, Z.pow2_bits_eqb by lia.
    destruct (i =? k) eqn:E; bool_to_prop.
    - subst i. rewrite Z.pow2_bits_eqb by lia. destruct (k =? j) eqn:E; bool_to_prop; [|apply andb_false_r].
      subst j. rewrite Z.leb_refl, (proj2 (Z.ltb_lt k n)) by lia. done.
    - rewrite Z.bits_0. destruct (i =? j) eqn:E2; bool_to_prop; [|apply andb_false_r].
      subst j. by rewrite (proj2 (Z.leb_gt k i)) by lia. }
  rewrite E. destruct (i =? k) eqn:Ek; bool_to_prop.
  - subst i. pose proof (Z.pow_pos_nonneg 2 k ltac:(lia) ltac:(lia)).
    by rewrite (proj2 (Z.eqb_neq _ _)) by lia.
  - rewrite Z.eqb_refl. rewrite Z.shiftl_mul_pow2, <- Z.pow_add_r by lia.
    pose proof (Z.pow_pos_nonneg 2 (i + 1) ltac:(lia) ltac:(lia)).
    pose proof (Z.pow_lt_mono_r 2 (i + 1) 64 ltac:(lia) ltac:(lia) ltac:(lia)).
    rewrite u64_small by lia. apply IH; lia.
Qed.

Lemma lowest_bit_mask n k : 0 <= k < n -> n <= 64 -> lowest_bit (2 ^ n - 2 ^ k) = (2 ^ k, k).
Proof.
  intros Hk Hn. unfold lowest_bit. change 1 with (2 ^ 0) at 1. by rewrite size_loop_mask by lia.
Qed.

(** A write and a read back of the writable bits. *)
Lemma land_written x v m : Z.land (Z.lor (Z.ldiff x m) (Z.land v m)) m = Z.land v m.
Proof.
  apply Z.bits_inj'. intros i Hi. rewrite !Z.land_spec, Z.lor_spec, Z.ldiff_spec, Z.land_spec.
  destruct (Z.testbit m i); rewrite ?andb_true_r, ?andb_false_r; [by destruct (Z.testbit x i)|done].
Qed.

Lemma written_twice x u v m :
  Z.lor (Z.ldiff (Z.lor (Z.ldiff x m) (Z.land u m)) m) (Z.land v m) = Z.lor (Z.ldiff x m) (Z.land v m).
Proof.
  apply Z.bits_inj'. intros i Hi. repeat rewrite ?Z.lor_spec, ?Z.ldiff_spec, ?Z.land_spec.
  by destruct (Z.testbit m i), (Z.testbit x i), (Z.testbit u i), (Z.testbit v i).
Qed.

Lemma written_back x m : Z.lor (Z.ldiff x m) (Z.land x m) = x.
Proof.
  apply Z.bits_inj'. intros i Hi. rewrite Z.lor_spec, Z.ldiff_spec, Z.land_spec.
  by destruct (Z.testbit m i), (Z.testbit x i).
Qed.

Lemma moved_bits x w m : 0 <= w -> 0 <= m < 2 ^ w ->
  Z.lxor (Z.lor (Z.ldiff x m) (Z.land (2 ^ w - 1) m)) (Z.lor (Z.ldiff x m) (Z.land 0 m)) = m.
Proof.
  intros Hw Hm. rewrite (Z.land_comm (2 ^ w - 1)), land_low_mask, Z.mod_small by lia.
  rewrite Z.land_0_l, Z.lor_0_r. apply Z.bits_inj'. intros i Hi.
  rewrite Z.lxor_spec, Z.lor_spec, Z.ldiff_spec. by destruct (Z.testbit m i), (Z.testbit x i).
Qed.

(** ** The tree under these operations *)

(** The address of a device in configuration space does not depend on the
    resources of the tree. *)
Definition same_address (t t' : dstate) : Prop :=
  st_bus t' = st_bus t /\
  forall dev, d_bus (get_dev t' dev) = d_bus (get_dev t dev) /\ d_path (get_dev t' dev) = d_path (get_dev t dev).

Lemma same_address_fields t t' dev : same_address t t' ->
  dev_secondary t' dev = dev_secondary t dev /\ dev_devfn t' dev = dev_devfn t dev.
Proof.
  intros [Hb Hd]. destruct (Hd dev) as [E1 E2]. unfold dev_secondary, dev_devfn, get_bus.
  by rewrite Hb, E1, E2.
Qed.

Lemma same_address_trans t1 t2 t3 : same_address t1 t2 -> same_address t2 t3 -> same_address t1 t3.
Proof.
  intros [Hb Hd] [Hb' Hd']. split; [by rewrite Hb'|]. intros dev.
  destruct (Hd dev), (Hd' dev). split; congruence.
Qed.

Lemma set_res_address t p r : same_address t (set_res t p r).
Proof. by split. Qed.

Lemma get_set_dev t p q d : get_dev (set_dev t p d) q = if decide (q = p) then d else get_dev t q.
Proof.
  unfold get_dev, set_dev. cbn [st_dev]. destruct (decide (q = p)) as [-> |Hn].
  - by rewrite lookup_insert_eq.
  - by rewrite lookup_insert_ne by done.
Qed.

Lemma with_resources_address t dev l : same_address t (set_dev t dev (with_resources l (get_dev t dev))).
Proof.
  split; [done|]. intros q. rewrite get_set_dev. by destruct (decide (q = dev)) as [-> |].
Qed.

Lemma set_res_same t p r : get_res (set_res t p r) p = r.
Proof. unfold get_res, set_res. cbn [st_res]. by rewrite lookup_insert_eq. Qed.

Lemma compact_loop_sub st l : forall fl q, q ∈ (compact_loop st l fl).1 -> q ∈ l.
Proof.
  induction l as [|p l IH]; intros fl q; cbn [compact_loop]; [done|].
  destruct (res_flags (get_res st p) =? 0).
  - intros Hq. apply list_elem_of_further. by eapply IH.
  - destruct (compact_loop st l fl) as [l1 fl1] eqn:E. cbn [fst]. intros [-> |Hq]%elem_of_cons; [left|].
    right. apply (IH fl). by rewrite E.
Qed.

Lemma compact_resources_spec t dev :
  same_address t (compact_resources t dev) /\
  (forall q, get_res (compact_resources t dev) q = get_res t q) /\
  (forall q, q ∈ d_resource_list (get_dev (compact_resources t dev) dev) -> q ∈ d_resource_list (get_dev t dev)).
Proof.
  unfold compact_resources.
  pose proof (compact_loop_sub t (d_resource_list (get_dev t dev)) (free_resources t)) as Hsub.
  destruct (compact_loop _ _ _) as [l fl]. split; [apply with_resources_address|]. split; [done|].
  intros q. change (get_dev (set_free ?a _ _)) with (get_dev a). rewrite get_set_dev, decide_True by done.
  apply Hsub.
Qed.

(** *** Resource lists

    The resources in use by a device and the free ones are distinct, and
    below the next pointer. *)
Definition res_wf (t : dstate) (dev : nat) : Prop :=
  NoDup (d_resource_list (get_dev t dev) ++ free_resources t) /\
  forall q, q ∈ d_resource_list (get_dev t dev) ++ free_resources t -> (q < heap_next t)%nat.

(** From [t] to [t'] the device got the resources [l]: those in use are listed,
    resources in use at other indices stay, and there are no others. *)
Record grown (t t' : dstate) (dev : nat) (l : list (Z * resource)) : Prop := {
  gr_address : same_address t t';
  gr_index : forall i r, (i, r) ∈ l -> res_index r = i;
  gr_listed : forall i r, (i, r) ∈ l -> res_flags r <> 0 ->
    exists q, q ∈ d_resource_list (get_dev t' dev) /\ get_res t' q = r;
  gr_kept : forall q, q ∈ d_resource_list (get_dev t dev) -> res_flags (get_res t q) <> 0 ->
    res_index (get_res t q) ∉ l.*1 ->
    q ∈ d_resource_list (get_dev t' dev) /\ get_res t' q = get_res t q;
  gr_only : forall q, q ∈ d_resource_list (get_dev t' dev) ->
    (exists i, (i, get_res t' q) ∈ l) \/ q ∈ d_resource_list (get_dev t dev) /\ get_res t' q = get_res t q
}.

Lemma grown_trans t1 t2 t3 dev l l' : (forall i, i ∈ l.*1 -> i ∉ l'.*1) ->
  grown t1 t2 dev l -> grown t2 t3 dev l' -> grown t1 t3 dev (l ++ l').
Proof.
  intros Hd [A1 I1 L1 K1 O1] [A2 I2 L2 K2 O2]. split.
  - by eapply same_address_trans.
  - intros i r [Hl|Hl]%elem_of_app; eauto.
  - intros i r [Hl|Hl]%elem_of_app Hf; [|eauto]. destruct (L1 _ _ Hl Hf) as (q & Hq & <-).
    exists q. apply K2; [done|done|]. rewrite (I1 _ _ Hl). apply Hd. by apply (list_elem_of_fmap_2 fst) in Hl.
  - intros q Hq Hf Hi. rewrite fmap_app, not_elem_of_app in Hi. destruct Hi as [Hi1 Hi2].
    destruct (K1 q Hq Hf Hi1) as [Hq2 E]. destruct (K2 q Hq2) as [Hq3 E']; rewrite ?E; try done. by rewrite E', E.
  - intros q Hq. destruct (O2 q Hq) as [[i Hi]|[Hq2 E2]]; [left; exists i; set_solver|].
    destruct (O1 q Hq2) as [[i Hi]|[Hq1 E1]]; [left; exists i; rewrite E2; set_solver|].
    right. split; [done|]. by rewrite E2, E1.
Qed.

Lemma compact_loop_spec st l : forall fl, compact_loop st l fl =
  (List.filter (fun p => negb (res_flags (get_res st p) =? 0)) l,
   rev (List.filter (fun p => res_flags (get_res st p) =? 0) l) ++ fl).
Proof.
  induction l as [|p l IH]; intros fl; [done|]. cbn. destruct (res_flags (get_res st p) =? 0); cbn.
  - rewrite IH. f_equal. by rewrite <- app_assoc.
  - by rewrite IH.
Qed.

Lemma filter_split_perm {A} (f : A -> bool) l :
  List.filter (fun x => negb (f x)) l ++ rev (List.filter f l) ≡ₚ l.
Proof.
  rewrite <- (Permutation_rev (List.filter f l)). induction l as [|x l IH]; [done|]. cbn. destruct (f x); cbn.
  - rewrite <- Permutation_middle. by constructor.
  - by constructor.
Qed.

Lemma compact_resources_wf t dev : res_wf t dev ->
  res_wf (compact_resources t dev) dev /\
  (forall q, q ∈ d_resource_list (get_dev (compact_resources t dev) dev) <->
     q ∈ d_resource_list (get_dev t dev) /\ res_flags (get_res t q) <> 0).
Proof.
  unfold compact_resources. rewrite compact_loop_spec. unfold res_wf.
  change (get_dev (set_free ?a _ _)) with (get_dev a). rewrite !get_set_dev, decide_True by done.
  cbn [d_resource_list with_resources free_resources heap_next set_free].
  pose proof (filter_split_perm (fun p => res_flags (get_res t p) =? 0) (d_resource_list (get_dev t dev))) as Hp.
  intros [Hnd Hlt]. rewrite app_assoc. split; [split|].
  - by rewrite Hp.
  - intros q. rewrite Hp. apply Hlt.
  - intros q. rewrite elem_of_filter_bool. by rewrite negb_true_iff, Z.eqb_neq.
Qed.

Lemma allocate_more_get_res t q : (q < heap_next t)%nat -> get_res (allocate_more_resources t) q = get_res t q.
Proof.
  unfold get_res, allocate_more_resources. cbn [st_res]. generalize 64%nat as n, (heap_next t) as h.
  intros n. induction n as [|n IH]; intros h Hq; [done|]. cbn. rewrite lookup_insert_ne by lia. apply IH. lia.
Qed.

Lemma allocate_more_wf t dev : res_wf t dev -> free_resources t = [] -> res_wf (allocate_more_resources t) dev.
Proof.
  intros [Hnd Hlt] Hf. unfold res_wf, allocate_more_resources. cbn [free_resources heap_next].
  change (get_dev (mk_dstate (st_dev t) _ _ _ _ _)) with (get_dev t). rewrite Hf, app_nil_r in Hnd, Hlt.
  assert (Hseq : forall q, q ∈ seq (heap_next t) 64 <-> (heap_next t <= q < heap_next t + 64)%nat)
    by (intros q; by rewrite elem_of_seq). split.
  - apply NoDup_app. split; [done|]. split; [|apply NoDup_seq].
    intros q Hq Hs. apply Hseq in Hs. apply Hlt in Hq. lia.
  - intros q [Hq|Hq]%elem_of_app; [apply Hlt in Hq; lia|]. apply Hseq in Hq. lia.
Qed.

(** The first free resource moves to the end of the list. *)
Definition take_free (t : dstate) (dev p : nat) (fl : list nat) : dstate :=
  let t := set_res (set_free t fl (heap_next t)) p res0 in
  set_dev t dev (with_resources (d_resource_list (get_dev t dev) ++ [p]) (get_dev t dev)).

Lemma take_free_wf t dev p fl : res_wf t dev -> free_resources t = p :: fl -> res_wf (take_free t dev p fl) dev.
Proof.
  intros Hwf Hf. unfold res_wf, take_free in *. rewrite get_set_dev, decide_True by done.
  cbn [d_resource_list with_resources free_resources heap_next set_res set_free set_dev].
  change (get_dev (mk_dstate (st_dev t) _ _ _ _ _)) with (get_dev t). rewrite <- app_assoc. by rewrite Hf in Hwf.
Qed.

Lemma set_res_wf t dev p r : res_wf t dev -> res_wf (set_res t p r) dev.
Proof. done. Qed.

Lemma get_set_res_ne t p q r : q <> p -> get_res (set_res t p r) q = get_res t q.
Proof. intros Hn. unfold get_res, set_res. cbn [st_res]. by rewrite lookup_insert_ne. Qed.

Lemma new_resource_kept t dev index : res_wf t dev ->
  let '(p, t') := new_resource t dev index in
  res_wf t' dev /\
  (forall q, q ∈ d_resource_list (get_dev t dev) -> res_flags (get_res t q) <> 0 ->
    res_index (get_res t q) <> index ->
    q ∈ d_resource_list (get_dev t' dev) /\ get_res t' q = get_res t q /\ q <> p) /\
  (forall q, q ∈ d_resource_list (get_dev t' dev) ->
    q = p \/ q ∈ d_resource_list (get_dev t dev) /\ get_res t' q = get_res t q).
Proof.
  intros Hwf. destruct (compact_resources_wf t dev Hwf) as [Hcwf Hlist].
  destruct (compact_resources_spec t dev) as (_ & Hres & Hsub).
  unfold new_resource, probe_resource, find_first. set (c := compact_resources t dev) in *.
  destruct (List.find _ _) as [p|] eqn:Ef.
  - apply find_some in Ef as [_ Hidx]. bool_to_prop. rewrite Hres in Hidx. split_and!; [done| |].
    + intros q Hq Hf Hi. assert (q <> p) by congruence. split_and!; [by apply Hlist| |done].
      rewrite get_set_res_ne by done. apply Hres.
    + intros q Hq. destruct (decide (q = p)); [by left|right]. split; [by apply Hsub|].
      rewrite get_set_res_ne by done. apply Hres.
  - set (c' := match free_resources c with [] => allocate_more_resources c | _ => c end).
    assert (Hc' : res_wf c' dev /\ free_resources c' <> [] /\ get_dev c' = get_dev c /\
              forall q, q ∈ d_resource_list (get_dev c dev) -> get_res c' q = get_res t q).
    { assert (Hlt : forall q, q ∈ d_resource_list (get_dev c dev) -> (q < heap_next c)%nat)
        by (intros q Hq; apply Hcwf, elem_of_app; by left).
      unfold c'. destruct (free_resources c) eqn:E; [|by rewrite E].
      split_and!; [by apply allocate_more_wf|done|done|]. intros q Hq. rewrite <- Hres.
      by apply allocate_more_get_res, Hlt. }
    destruct Hc' as (Hwf' & Hne & Hdev & Hsame). destruct (free_resources c') as [|p fl] eqn:E; [done|].
    pose proof (take_free_wf _ _ _ _ Hwf' E) as Htwf. unfold take_free in Htwf.
    assert (Hp : forall q, q ∈ d_resource_list (get_dev c dev) -> q <> p).
    { intros q Hq ->. destruct Hwf' as [[_ [Hd _]]%NoDup_app _]. rewrite Hdev, E in Hd. apply (Hd p Hq). left. }
    set (t2 := set_dev _ _ _) in *.
    assert (Ht2 : d_resource_list (get_dev t2 dev) = d_resource_list (get_dev c dev) ++ [p] /\
              forall q, q <> p -> get_res t2 q = get_res c' q).
    { unfold t2. rewrite get_set_dev, decide_True by done. split; [by rewrite <- Hdev|].
      intros q Hq. change (get_res (set_dev ?a _ _)) with (get_res a). by rewrite get_set_res_ne. }
    destruct Ht2 as [Hl2 Hr2]. split_and!; [done| |].
    + intros q Hq Hf Hi. pose proof (proj2 (Hlist q) (conj Hq Hf)) as Hqc. pose proof (Hp q Hqc).
      change (get_dev (set_res ?a _ _)) with (get_dev a). rewrite Hl2, get_set_res_ne, Hr2 by done.
      split_and!; [apply elem_of_app; by left|by apply Hsame|done].
    + intros q. change (get_dev (set_res ?a _ _)) with (get_dev a). rewrite Hl2.
      intros [Hq| ->%list_elem_of_singleton]%elem_of_app; [right|by left].
      rewrite get_set_res_ne, Hr2 by auto. split; [by apply Hsub|by apply Hsame].
Qed.


Definition not_fixed (t : dstate) (dev : nat) (index : Z) : Prop :=
  forall q, q ∈ d_resource_list (get_dev t dev) -> res_index (get_res t q) = index ->
    has (res_flags (get_res t q)) IORESOURCE_FIXED = false.

(** A register without a fixed resource gets a cleared resource. *)
Lemma new_resource_spec t dev index : not_fixed t dev index ->
  exists p t', new_resource t dev index = (p, t') /\ same_address t t' /\
    get_res t' p = mk_resource 0 0 0 0 index 0 0 /\ p ∈ d_resource_list (get_dev t' dev).
Proof.
  intros Hfixed. destruct (compact_resources_spec t dev) as (Haddr & Hres & Hsub).
  unfold new_resource, probe_resource, find_first. set (c := compact_resources t dev) in *.
  destruct (List.find _ _) as [p|] eqn:Ef.
  - apply find_some in Ef as [Hin Hidx]. apply list_elem_of_In in Hin. bool_to_prop.
    exists p. eexists. split; [done|]. split; [by eapply same_address_trans; [|apply set_res_address]|].
    rewrite set_res_same. split; [|done]. unfold init_resource.
    rewrite Hres in Hidx |- *. by rewrite Hfixed by auto.
  - set (c' := match free_resources c with [] => allocate_more_resources c | _ => c end).
    assert (Hc' : same_address c c' /\ free_resources c' <> []).
    { unfold c'. destruct (free_resources c) eqn:E; [|by rewrite E]. by split. }
    destruct Hc' as [Haddr' Hfree]. destruct (free_resources c') as [|p fl] eqn:E; [done|].
    exists p. eexists. split; [done|]. split; [|split].
    + eapply same_address_trans; [exact Haddr|]. eapply same_address_trans; [exact Haddr'|].
      eapply same_address_trans; [|apply set_res_address].
      apply (with_resources_address (set_res (set_free c' fl (heap_next c')) p res0)).
    + rewrite set_res_same. change (get_res (set_dev ?a _ _)) with (get_res a). by rewrite set_res_same.
    + change (get_dev (set_res ?a _ _)) with (get_dev a). rewrite get_set_dev, decide_True by done.
      apply list_elem_of_In, in_or_app. right. by left.
Qed.

Lemma new_resource_grown t dev index : res_wf t dev -> not_fixed t dev index ->
  exists p t', new_resource t dev index = (p, t') /\ same_address t t' /\
    get_res t' p = mk_resource 0 0 0 0 index 0 0 /\
    forall r, res_index r = index ->
      res_wf (set_res t' p r) dev /\ grown t (set_res t' p r) dev [(index, r)].
Proof.
  intros Hwf Hf. destruct (new_resource_spec t dev index Hf) as (p & t' & E & Ha & Hp & Hin).
  pose proof (new_resource_kept t dev index Hwf) as Hk. rewrite E in Hk. destruct Hk as (Hwf' & Hkept & Honly).
  exists p, t'. split_and!; [done..|]. intros r Hr. split; [done|]. split.
  - eapply same_address_trans; [exact Ha|apply set_res_address].
  - by intros i r' [= -> ->]%list_elem_of_singleton.
  - intros i r' [= -> ->]%list_elem_of_singleton _. exists p. by rewrite set_res_same.
  - intros q Hq Hqf Hi. cbn in Hi. rewrite list_elem_of_singleton in Hi.
    destruct (Hkept q Hq Hqf Hi) as (H1 & H2 & H3). by rewrite get_set_res_ne.
  - intros q Hq. destruct (Honly q Hq) as [-> |[H1 H2]].
    + left. exists index. rewrite set_res_same. apply list_elem_of_singleton. done.
    + destruct (decide (q = p)) as [-> |]; [left; exists index; rewrite set_res_same; by left|].
      right. by rewrite get_set_res_ne.
Qed.

Lemma compact_resources_grown t dev : res_wf t dev -> grown t (compact_resources t dev) dev [].
Proof.
  intros Hwf. destruct (compact_resources_wf t dev Hwf) as [_ Hlist].
  destruct (compact_resources_spec t dev) as (Ha & Hres & Hsub). split; [done|by intros ? ? ?%elem_of_nil..| |].
  - intros q Hq Hf _. split; [by apply Hlist|apply Hres].
  - intros q Hq. right. split; [by apply Hsub|apply Hres].
Qed.

Lemma grown_not_fixed t t' dev l i : grown t t' dev l -> i ∉ l.*1 -> not_fixed t dev i -> not_fixed t' dev i.
Proof.
  intros [A I L K O] Hi Hf q Hq Hqi. destruct (O q Hq) as [[j Hj]|[Hq' E]].
  - destruct Hi. rewrite <- Hqi, (I _ _ Hj). by apply (list_elem_of_fmap_2 fst) in Hj.
  - rewrite E in Hqi |- *. by apply Hf.
Qed.

Lemma resource_eq b s l f i a g b' s' l' f' i' a' g' :
  b = b' -> s = s' -> l = l' -> f = f' -> i = i' -> a = a' -> g = g' ->
  mk_resource b s l f i a g = mk_resource b' s' l' f' i' a' g'.
Proof. congruence. Qed.

(** Decide the tests on constants. *)
Ltac closed_tests :=
  repeat match goal with
  | |- context [?x =? ?y] =>
      let v := eval vm_compute in (x =? y) in
      match v with true => change (x =? y) with true | false => change (x =? y) with false end
  | |- context [has ?x ?y] =>
      let v := eval vm_compute in (has x y) in
      match v with true => change (has x y) with true | false => change (has x y) with false end
  end; cbn [negb andb orb].

(** ** Registers under these operations *)

Section Registers.
Context {H : Type} {config_read : H -> Z -> Z -> Z -> Z -> Z} {config_write : H -> Z -> Z -> Z -> Z -> Z -> H}
  {b d : Z} {regs : list (Z * Z * Z)} `{Hregs : !ConfigRegs config_read config_write b d regs}.

Local Notation read h r w := (config_read h b d r w).

(** The device [dev] of the tree is the one of [regs]. *)
Definition addressed (s : pci_state H) (dev : nat) : Prop :=
  dev_secondary (tree s) dev = b /\ dev_devfn (tree s) dev = d.

(** All registers but those of [changed] read the same. *)
Definition same_regs (changed : list Z) (h h' : H) : Prop :=
  forall r w m, (r, w, m) ∈ regs -> r ∉ changed -> read h' r w = read h r w.

Lemma same_regs_trans l l' h1 h2 h3 : same_regs l h1 h2 -> same_regs l' h2 h3 -> same_regs (l ++ l') h1 h3.
Proof.
  intros H1 H2 r w m Hr Hn. rewrite elem_of_app in Hn. rewrite (H2 r w m), (H1 r w m); naive_solver.
Qed.

Lemma addressed_tree s s' dev : addressed s dev -> same_address (tree s) (tree s') -> addressed s' dev.
Proof. intros [Hb Hd] Ha%(same_address_fields _ _ dev). unfold addressed. by destruct Ha as [-> ->]. Qed.

Lemma write_reads s dev r w m v : addressed s dev -> (r, w, m) ∈ regs ->
  let s' := pci_write_config config_write w s dev r v in
  read (hw s') r w = Z.lor (Z.ldiff (read (hw s) r w) m) (Z.land v m) /\
  same_regs [r] (hw s) (hw s') /\ tree s' = tree s /\ command s' = command s.
Proof using Hregs.
  intros [Hb Hd] Hr. unfold pci_write_config, set_hw. cbn [hw tree command]. rewrite Hb, Hd.
  pose proof (cr_range (hw s) _ _ _ Hr) as (Hw & _ & Hm). split_and!; [| |done|done].
  - rewrite (cr_write _ _ _ _ _ Hr). f_equal. rewrite Z.land_comm, land_wrap by lia. apply Z.land_comm.
  - intros r' w' m' Hr' Hn. apply (cr_frame _ _ _ _ _ _ _ _ Hr Hr'). set_solver.
Qed.

(** Sizing finds the writable bits and restores the register. *)
Lemma moving_spec s dev r w m : addressed s dev -> (r, w, m) ∈ regs ->
  exists s', pci_moving_config config_read config_write w s dev r = (m, s') /\
    tree s' = tree s /\ command s' = command s /\ same_regs [] (hw s) (hw s').
Proof using Hregs.
  intros Ha Hr. unfold pci_moving_config.
  set (s1 := pci_write_config _ _ _ _ _ (2 ^ w - 1)).
  set (s2 := pci_write_config _ _ s1 _ _ 0).
  set (value := pci_read_config _ _ s _ _).
  set (s3 := pci_write_config _ _ s2 _ _ value).
  destruct (write_reads s dev r w m (2 ^ w - 1) Ha Hr) as (R1 & F1 & T1 & C1). fold s1 in R1, F1, T1, C1.
  assert (Ha1 : addressed s1 dev) by (eapply addressed_tree; [exact Ha|by rewrite T1]).
  destruct (write_reads s1 dev r w m 0 Ha1 Hr) as (R2 & F2 & T2 & C2). fold s2 in R2, F2, T2, C2.
  assert (Ha2 : addressed s2 dev) by (eapply addressed_tree; [exact Ha1|by rewrite T2]).
  destruct (write_reads s2 dev r w m value Ha2 Hr) as (R3 & F3 & T3 & C3). fold s3 in R3, F3, T3, C3.
  pose proof (cr_range (hw s) _ _ _ Hr) as (Hw & _ & Hm).
  exists s3. split_and!; [|congruence|congruence|].
  - f_equal. unfold pci_read_config. destruct Ha1 as [-> ->], Ha2 as [-> ->].
    rewrite R2, R1, written_twice. by apply moved_bits.
  - intros r' w' m' Hr' _. destruct (decide (r' = r)) as [-> |Hn].
    + destruct (cr_unique _ _ _ _ _ Hr Hr') as [<- <-]. rewrite R3, R2, R1, !written_twice.
      unfold value, pci_read_config. destruct Ha as [-> ->]. apply written_back.
    + rewrite (F3 _ _ _ Hr'), (F2 _ _ _ Hr'), (F1 _ _ _ Hr') by set_solver. done.
Qed.

(** ** Base address registers *)

Inductive bar_kind := BarIO | BarMem (pref : bool) | BarMem1M (pref : bool) | BarMem64 (pref : bool).

Definition is_io (k : bar_kind) : bool := match k with BarIO => true | _ => false end.
Definition is_64 (k : bar_kind) : bool := match k with BarMem64 _ => true | _ => false end.

(** The read-only low bits of the register, as the PCI specification has them. *)
Definition bar_bits (k : bar_kind) : Z :=
  match k with
  | BarIO => 1
  | BarMem p => if p then 8 else 0
  | BarMem1M p => if p then 10 else 2
  | BarMem64 p => if p then 12 else 4
  end.
Definition bar_low (k : bar_kind) : Z := if is_io k then 2 else 4.
Definition bar_width (k : bar_kind) : Z := if is_64 k then 64 else 32.

Definition bar_limit (k : bar_kind) : Z :=
  match k with BarIO => 2 ^ 16 - 1 | BarMem _ => 2 ^ 32 - 1 | BarMem1M _ => 2 ^ 20 - 1 | BarMem64 _ => 2 ^ 64 - 1 end.
Definition bar_flags (k : bar_kind) : Z :=
  match k with
  | BarIO => IORESOURCE_IO
  | BarMem p | BarMem1M p => if p then Z.lor IORESOURCE_MEM IORESOURCE_PREFETCH else IORESOURCE_MEM
  | BarMem64 p =>
      Z.lor (if p then Z.lor IORESOURCE_MEM IORESOURCE_PREFETCH else IORESOURCE_MEM) IORESOURCE_PCI64
  end.
Definition bar_sized (k : bar_kind) (n e index : Z) : resource :=
  mk_resource 0 (2 ^ e) (Z.min (bar_limit k) (2 ^ n - 1)) (bar_flags k) index
    (if is_io k then e else Z.max e 12) e.

(** A register (or pair) whose bits from [e] up to below [n] can be written. *)
Definition bar_hardware (h : H) (index : Z) (k : bar_kind) (n e : Z) : Prop :=
  let moving := 2 ^ n - 2 ^ e in
  bar_low k <= e < n /\ n <= bar_width k /\
  (index, 32, moving mod 2 ^ 32) ∈ regs /\
  Z.ldiff (read h index 32) (moving mod 2 ^ 32) = bar_bits k /\
  (is_64 k = true -> (index + 4, 32, moving / 2 ^ 32) ∈ regs /\
     Z.ldiff (read h (index + 4) 32) (moving / 2 ^ 32) = 0).

(** The address the device decodes. *)
Definition bar_address (h : H) (index : Z) (k : bar_kind) : Z :=
  Z.land (read h index 32) (Z.lnot (2 ^ bar_low k - 1)) +
  (if is_64 k then Z.shiftl (read h (index + 4) 32) 32 else 0).

Lemma bar_resource_sized k n e index : bar_low k <= e < n -> n <= bar_width k ->
  bar_resource (bar_bits k) (2 ^ n - 2 ^ e) (mk_resource 0 0 0 0 index 0 0) = bar_sized k n e index.
Proof.
  intros He Hn. assert (2 <= e /\ n <= 64) by (destruct k; cbn in He, Hn; lia).
  pose proof (Z.pow_lt_mono_r 2 e n ltac:(lia) ltac:(lia) ltac:(lia)).
  pose proof (Z.pow_pos_nonneg 2 e ltac:(lia) ltac:(lia)).
  pose proof (Z.pow_le_mono_r 2 n 64 ltac:(lia) ltac:(lia)).
  unfold bar_resource. rewrite lowest_bit_mask by lia. cbn [fst].
  rewrite (proj2 (Z.eqb_neq _ 0)) by lia. rewrite (u64_small (2 ^ e - 1)) by lia.
  rewrite mask_low by lia. unfold bar_sized. generalize (2 ^ n - 1), (2 ^ e). intros top size.
  clear -size. destruct k as [|[]|[]|[]]; unfold pci_base_address_is_memory_space; closed_tests;
    cbv beta iota delta [with_align with_limit with_flags with_size with_gran
      res_base res_size res_limit res_flags res_index res_align res_gran bar_limit is_io];
    repeat case_bool; cbv beta iota in *;
    bool_to_prop; apply resource_eq; first [lia | reflexivity].
Qed.

(** The bits that move split into the two registers. *)
Lemma moving_split k n e : bar_low k <= e < n -> n <= bar_width k ->
  let moving := 2 ^ n - 2 ^ e in
  0 <= moving < 2 ^ 64 /\ Z.lor (moving mod 2 ^ 32) (Z.shiftl (moving / 2 ^ 32) 32) = moving /\
  (is_64 k = false -> moving mod 2 ^ 32 = moving).
Proof.
  intros He Hn moving. assert (2 <= e /\ n <= 64) by (destruct k; cbn in He, Hn; lia).
  pose proof (Z.pow_lt_mono_r 2 e n ltac:(lia) ltac:(lia) ltac:(lia)).
  pose proof (Z.pow_pos_nonneg 2 e ltac:(lia) ltac:(lia)).
  pose proof (Z.pow_le_mono_r 2 n 64 ltac:(lia) ltac:(lia)).
  split; [lia|]. split.
  - rewrite Z.lor_comm, Z.shiftl_mul_pow2, (lor_add _ _ 32) by
      (try lia; try (apply Z.mod_pos_bound; lia); by eexists).
    pose proof (Z.div_mod moving (2 ^ 32) ltac:(lia)). lia.
  - intros H64. apply Z.mod_small. unfold bar_width in Hn. rewrite H64 in Hn.
    pose proof (Z.pow_le_mono_r 2 n 32 ltac:(lia) ltac:(lia)). lia.
Qed.

Lemma bar_attr_bits k : (Z.land (bar_bits k) PCI_BASE_ADDRESS_SPACE_IO =? 0)
    && (Z.land (bar_bits k) PCI_BASE_ADDRESS_MEM_LIMIT_MASK =? PCI_BASE_ADDRESS_MEM_LIMIT_64) = is_64 k.
Proof. by destruct k as [|[]|[]|[]]. Qed.

(** ** Sizing a device

    The state after sizing: the hardware reads as before, the tree has grown. *)
Record sized (s s' : pci_state H) (dev : nat) (l : list (Z * resource)) : Prop := {
  sz_regs : same_regs [] (hw s) (hw s');
  sz_command : command s' = command s;
  sz_wf : res_wf (tree s') dev;
  sz_grown : grown (tree s) (tree s') dev l
}.

Lemma sized_trans s1 s2 s3 dev l l' : (forall i, i ∈ l.*1 -> i ∉ l'.*1) ->
  sized s1 s2 dev l -> sized s2 s3 dev l' -> sized s1 s3 dev (l ++ l').
Proof.
  intros Hd [R1 C1 W1 G1] [R2 C2 W2 G2]. split; [exact (same_regs_trans _ _ _ _ _ R1 R2)|congruence|done|].
  by eapply grown_trans.
Qed.

Lemma sized_addressed s s' dev l : sized s s' dev l -> addressed s dev -> addressed s' dev.
Proof. intros Hs Ha. eapply addressed_tree; [exact Ha|apply Hs]. Qed.

Lemma sized_refl s dev : res_wf (tree s) dev -> sized s s dev [].
Proof.
  intros Hwf. split; [by intros ????|done|done|]. split; [by split|by intros ? ? ?%elem_of_nil..|auto|auto].
Qed.

Lemma sized_compact s dev : res_wf (tree s) dev -> sized s (set_tree (compact_resources (tree s) dev) s) dev [].
Proof. intros Hwf. split; [by intros ????|done|by apply compact_resources_wf|by apply compact_resources_grown]. Qed.

(** A base address register position: not implemented (nothing moves), or sized. *)
Inductive slot := Unimplemented | Bar (k : bar_kind) (n e : Z).

Definition slot_hardware (h : H) (index : Z) (sl : slot) : Prop :=
  match sl with
  | Unimplemented => (index, 32, 0) ∈ regs /\
      (Z.land (read h index 32) PCI_BASE_ADDRESS_SPACE_IO =? 0) &&
      (Z.land (read h index 32) PCI_BASE_ADDRESS_MEM_LIMIT_MASK =? PCI_BASE_ADDRESS_MEM_LIMIT_64) = false
  | Bar k n e => bar_hardware h index k n e
  end.
Definition slot_resource (index : Z) (sl : slot) : resource :=
  match sl with
  | Unimplemented => mk_resource 0 0 0 0 index 0 0
  | Bar k n e => bar_sized k n e index
  end.

Lemma slot_resource_index index sl : res_index (slot_resource index sl) = index.
Proof. by destruct sl. Qed.

Lemma bar_hardware_same h h' index k n e : same_regs [] h h' ->
  bar_hardware h index k n e -> bar_hardware h' index k n e.
Proof.
  intros Hs (He & Hn & Hr & Hv & H64). do 3 (split; [done|]). split.
  - by rewrite (Hs _ _ _ Hr) by set_solver.
  - intros E. destruct (H64 E) as [Hr' Hv']. by rewrite (Hs _ _ _ Hr') by set_solver.
Qed.

Lemma slot_hardware_same h h' index sl : same_regs [] h h' -> slot_hardware h index sl -> slot_hardware h' index sl.
Proof.
  intros Hs. destruct sl; [|by apply bar_hardware_same].
  intros [Hr Hv]. split; [done|]. by rewrite (Hs _ _ _ Hr) by set_solver.
Qed.

Lemma attr_bits s dev index moving m : addressed s dev -> (index, 32, m) ∈ regs -> 0 <= moving ->
  Z.land (pci_read_config config_read 32 s dev index) (bnot 64 moving) =
  Z.ldiff (read (hw s) index 32) moving.
Proof using Hregs.
  intros [Hb Hd] Hr Hm. unfold pci_read_config. rewrite Hb, Hd.
  pose proof (cr_range (hw s) _ _ _ Hr) as (_ & Hv & _). unfold bnot.
  by rewrite land_wrap, <- Z.ldiff_land by lia.
Qed.

Lemma pci_get_resource_sized s dev index sl :
  addressed s dev -> res_wf (tree s) dev -> not_fixed (tree s) dev index -> slot_hardware (hw s) index sl ->
  exists p s', pci_get_resource config_read config_write s dev index = (p, s') /\
    sized s s' dev [(index, slot_resource index sl)] /\ get_res (tree s') p = slot_resource index sl.
Proof using Hregs.
  intros Ha Hwf Hf Hsl. unfold pci_get_resource.
  destruct (new_resource_grown _ _ _ Hwf Hf) as (p & t & -> & Haddr & Hp & Hgrown).
  destruct (Hgrown (slot_resource index sl) (slot_resource_index _ _)) as [Hwf' Hg].
  set (s1 := set_tree t s). assert (Ha1 : addressed s1 dev) by (by eapply addressed_tree).
  assert (Hdone : forall s2 moving attr, tree s2 = t -> command s2 = command s -> same_regs [] (hw s) (hw s2) ->
    bar_resource attr moving (mk_resource 0 0 0 0 index 0 0) = slot_resource index sl ->
    let s3 := set_tree (set_res (tree s2) p (bar_resource attr moving (get_res (tree s2) p))) s2 in
    sized s s3 dev [(index, slot_resource index sl)] /\ get_res (tree s3) p = slot_resource index sl).
  { intros s2 moving attr T C R E. cbv zeta. cbn [tree set_tree]. rewrite T, Hp, E.
    split; [|apply set_res_same]. by split. }
  destruct sl as [|k n e]; cbn in Hsl.
  - destruct Hsl as [Hr Hv]. destruct (moving_spec s1 dev _ _ _ Ha1 Hr) as (s2 & -> & T2 & C2 & F2).
    rewrite (attr_bits s1 dev index 0 0 Ha1 Hr) by lia. rewrite Z.ldiff_0_r. change (hw s1) with (hw s).
    rewrite Hv. eexists p, _. split; [done|]. by apply Hdone.
  - destruct Hsl as (He & Hn & Hlo & Hlov & Hhi). destruct (moving_split k n e He Hn) as (Hm & Hsplit & Hsmall).
    destruct (moving_spec s1 dev _ _ _ Ha1 Hlo) as (s2 & -> & T2 & C2 & F2).
    assert (Ha2 : addressed s2 dev) by (eapply addressed_tree; [exact Ha1|by rewrite T2]).
    rewrite (attr_bits s1 dev index _ _ Ha1 Hlo) by (apply Z.mod_pos_bound; lia).
    change (hw s1) with (hw s). rewrite Hlov, bar_attr_bits. destruct (is_64 k) eqn:H64.
    + destruct (Hhi eq_refl) as [Hhir _].
      destruct (moving_spec s2 dev _ _ _ Ha2 Hhir) as (s3 & -> & T3 & C3 & F3).
      eexists p, _. split; [done|]. rewrite Hsplit. apply Hdone.
      * by rewrite T3, T2.
      * by rewrite C3, C2.
      * exact (same_regs_trans _ _ _ _ _ F2 F3).
      * by apply bar_resource_sized.
    + eexists p, _. split; [done|]. rewrite (Hsmall eq_refl). apply Hdone; try done.
      by apply bar_resource_sized.
Qed.

(** Consecutive registers: a 64-bit one takes two. *)
Definition slot_step (sl : slot) : Z :=
  match sl with Bar k _ _ => if is_64 k then 8 else 4 | Unimplemented => 4 end.
Fixpoint slots_span (slots : list slot) : Z :=
  match slots with [] => 0 | sl :: slots' => slot_step sl + slots_span slots' end.
Fixpoint slots_hardware (h : H) (index : Z) (slots : list slot) : Prop :=
  match slots with
  | [] => True
  | sl :: slots' => slot_hardware h index sl /\ slots_hardware h (index + slot_step sl) slots'
  end.
Fixpoint slots_resources (index : Z) (slots : list slot) : list (Z * resource) :=
  match slots with
  | [] => []
  | sl :: slots' => (index, slot_resource index sl) :: slots_resources (index + slot_step sl) slots'
  end.

Lemma slot_step_flags index sl :
  (if has (res_flags (slot_resource index sl)) IORESOURCE_PCI64 then 8 else 4) = slot_step sl.
Proof. by destruct sl as [|[|[]|[]|[]] n e]. Qed.

Lemma slot_step_cases sl : slot_step sl = 4 \/ slot_step sl = 8.
Proof. destruct sl as [|k n e]; cbn; [|destruct (is_64 k)]; auto. Qed.

Lemma slots_span_length slots : 4 * Z.of_nat (length slots) <= slots_span slots.
Proof. induction slots as [|sl slots IH]; cbn [slots_span length]; [lia|]. destruct (slot_step_cases sl); lia. Qed.

Lemma slots_resources_range i slots : forall index,
  i ∈ (slots_resources index slots).*1 -> index <= i < index + slots_span slots.
Proof.
  induction slots as [|sl slots IH]; intros index Hi; [by apply elem_of_nil in Hi|]. cbn in Hi |- *.
  pose proof (slots_span_length slots). destruct (slot_step_cases sl);
    (apply elem_of_cons in Hi as [-> |Hi]; [lia|]; apply IH in Hi; lia).
Qed.

Lemma slots_hardware_same h h' slots : same_regs [] h h' ->
  forall index, slots_hardware h index slots -> slots_hardware h' index slots.
Proof.
  intros Hs. induction slots as [|sl slots IH]; intros index; [done|]. intros [H1 H2].
  split; [by eapply slot_hardware_same|by apply IH].
Qed.

Lemma bases_loop_sized dev slots : forall fuel s index,
  (length slots <= fuel)%nat -> addressed s dev -> res_wf (tree s) dev ->
  (forall i, i ∈ (slots_resources index slots).*1 -> not_fixed (tree s) dev i) ->
  slots_hardware (hw s) index slots ->
  sized s (bases_loop config_read config_write fuel s dev index (index + slots_span slots)) dev
    (slots_resources index slots).
Proof using Hregs.
  induction slots as [|sl slots IH]; intros fuel s index Hfuel Ha Hwf Hf Hh; cbn [slots_span slots_resources].
  - rewrite Z.add_0_r. destruct fuel; cbn; rewrite ?Z.ltb_irrefl;
      by apply sized_refl.
  - destruct fuel as [|fuel]; cbn in Hfuel; [lia|]. destruct Hh as [Hsl Hh]. cbn [bases_loop].
    pose proof (slots_span_length slots). pose proof (slot_step_cases sl).
    rewrite (proj2 (Z.ltb_lt _ _)) by lia.
    destruct (pci_get_resource_sized s dev index sl) as (p & s1 & -> & Hs1 & Hr1); [done..| |done|].
    { apply Hf. cbn. by left. }
    rewrite Hr1, slot_step_flags, Z.add_assoc.
    assert (Hnew : forall i, i ∈ (slots_resources (index + slot_step sl) slots).*1 -> i <> index)
      by (intros i Hi%slots_resources_range; lia).
    eapply (sized_trans _ _ _ _ [_]); [|exact Hs1|].
    { intros i Hi%list_elem_of_singleton Hi'. cbn in Hi. by apply Hnew in Hi'. }
    apply IH; [lia|by eapply sized_addressed|apply Hs1| |].
    + intros i Hi. eapply grown_not_fixed; [apply Hs1| |].
      * cbn. rewrite list_elem_of_singleton. by apply Hnew.
      * apply Hf. cbn. by right.
    + eapply slots_hardware_same; [apply Hs1|done].
Qed.

Lemma pci_read_bases_sized s dev slots howmany :
  slots_span slots = 4 * Z.of_nat howmany -> addressed s dev -> res_wf (tree s) dev ->
  (forall i, i ∈ (slots_resources PCI_BASE_ADDRESS_0 slots).*1 -> not_fixed (tree s) dev i) ->
  slots_hardware (hw s) PCI_BASE_ADDRESS_0 slots ->
  sized s (pci_read_bases config_read config_write s dev howmany) dev (slots_resources PCI_BASE_ADDRESS_0 slots).
Proof using Hregs.
  intros Hspan Ha Hwf Hf Hh. unfold pci_read_bases. rewrite Z.shiftl_mul_pow2 by lia.
  replace (Z.of_nat howmany * 2 ^ 2) with (slots_span slots) by lia.
  pose proof (slots_span_length slots).
  assert (Hs : sized s (bases_loop config_read config_write howmany s dev PCI_BASE_ADDRESS_0
                          (PCI_BASE_ADDRESS_0 + slots_span slots)) dev (slots_resources PCI_BASE_ADDRESS_0 slots))
    by (apply bases_loop_sized; done || lia).
  rewrite <- (app_nil_r (slots_resources _ _)). eapply sized_trans; [|exact Hs|apply sized_compact, Hs].
  by intros ? _ ?%elem_of_nil.
Qed.

(** The expansion ROM: bit 0 enables it. *)
Definition rom_sized (moving index : Z) (r : resource) : Prop :=
  (moving = 0 /\ r = mk_resource 0 0 0 0 index 0 0) \/
  exists n e, 1 <= e < n /\ n <= 32 /\ moving = 2 ^ n - 2 ^ e /\
    r = mk_resource 0 (2 ^ e) (2 ^ n - 1) (Z.lor IORESOURCE_MEM IORESOURCE_READONLY) index e e.

Lemma pci_get_rom_resource_sized s dev index m r :
  addressed s dev -> res_wf (tree s) dev -> not_fixed (tree s) dev index ->
  (index, 32, m) ∈ regs -> rom_sized (Z.ldiff m PCI_ROM_ADDRESS_ENABLE) index r ->
  sized s (pci_get_rom_resource config_read config_write s dev index) dev [(index, r)].
Proof using Hregs.
  intros Ha Hwf Hf Hr Hrom. unfold pci_get_rom_resource.
  destruct (new_resource_grown _ _ _ Hwf Hf) as (p & t & -> & Haddr & Hp & Hgrown).
  set (s1 := set_tree t s). assert (Ha1 : addressed s1 dev) by (by eapply addressed_tree).
  destruct (moving_spec s1 dev _ _ _ Ha1 Hr) as (s2 & -> & T2 & C2 & F2).
  pose proof (cr_range (hw s) _ _ _ Hr) as (_ & _ & Hm).
  unfold bnot. rewrite land_wrap, <- Z.ldiff_land by lia. rewrite T2. change (tree s1) with t. rewrite Hp.
  assert (Hi : res_index r = index) by (destruct Hrom as [[_ ->]|(?&?&_&_&_&->)]; done).
  destruct (Hgrown r Hi) as [Hwf' Hg].
  assert (E : forall r0, r0 = r ->
    let s3 := set_tree (set_res t p r0) s2 in
    sized s (set_tree (compact_resources (tree s3) dev) s3) dev [(index, r)]).
  { intros r0 -> s3. eapply (sized_trans _ _ _ _ [_] []); [by intros ? _ ?%elem_of_nil| |apply sized_compact].
    - split; [exact F2|done|done|done].
    - done. }
  apply E. destruct Hrom as [[-> ->]|(n & e & He & Hn & -> & ->)]; [done|].
  pose proof (Z.pow_lt_mono_r 2 e n ltac:(lia) ltac:(lia) ltac:(lia)).
  pose proof (Z.pow_le_mono_r 2 n 32 ltac:(lia) ltac:(lia)). pose proof (Z.pow_pos_nonneg 2 e ltac:(lia) ltac:(lia)).
  rewrite (proj2 (Z.eqb_neq _ 0)) by lia. rewrite lowest_bit_mask by lia.
  rewrite u64_small by lia. by rewrite mask_low by lia.
Qed.

(** *** Bridge windows *)

Inductive bridge_kind := BridgeIO | BridgeMem | BridgePref.

Definition bridge_index (k : bridge_kind) : Z :=
  match k with BridgeIO => PCI_IO_BASE | BridgeMem => PCI_MEMORY_BASE | BridgePref => PCI_PREF_MEMORY_BASE end.
Definition bridge_type (k : bridge_kind) : Z :=
  match k with
  | BridgeIO => IORESOURCE_IO | BridgeMem => IORESOURCE_MEM | BridgePref => Z.lor IORESOURCE_MEM IORESOURCE_PREFETCH
  end.

(** The registers of a window as [(base register, limit register, width, shift)]. *)
Definition bridge_fields (k : bridge_kind) : list (Z * Z * Z * Z) :=
  match k with
  | BridgeIO => [(PCI_IO_BASE, PCI_IO_LIMIT, 8, 8); (PCI_IO_BASE_UPPER16, PCI_IO_LIMIT_UPPER16, 16, 16)]
  | BridgeMem => [(PCI_MEMORY_BASE, PCI_MEMORY_LIMIT, 16, 16)]
  | BridgePref => [(PCI_PREF_MEMORY_BASE, PCI_PREF_MEMORY_LIMIT, 16, 16);
                   (PCI_PREF_BASE_UPPER32, PCI_PREF_LIMIT_UPPER32, 32, 32)]
  end.

(** A value split over fields with writable bits [masks]. *)
Fixpoint field_value (h : H) (fields : list (Z * Z * Z)) (masks : list Z) : Z :=
  match fields, masks with
  | (r, w, sh) :: fields', m :: masks' =>
      Z.lor (Z.shiftl (Z.land (read h r w) m) sh) (field_value h fields' masks')
  | _, _ => 0
  end.
Fixpoint field_mask (fields : list (Z * Z * Z)) (masks : list Z) : Z :=
  match fields, masks with
  | (r, w, sh) :: fields', m :: masks' => Z.lor (Z.shiftl m sh) (field_mask fields' masks')
  | _, _ => 0
  end.
Definition base_fields (k : bridge_kind) : list (Z * Z * Z) :=
  (fun '(b, l, w, sh) => (b, w, sh)) <$> bridge_fields k.
Definition limit_fields (k : bridge_kind) : list (Z * Z * Z) :=
  (fun '(b, l, w, sh) => (l, w, sh)) <$> bridge_fields k.

(** The addresses a bridge forwards; the low [e] bits of the limit read as ones. *)
Definition forwards (h : H) (k : bridge_kind) (masks : list Z) (e x : Z) : Prop :=
  field_value h (base_fields k) masks <= x <= field_value h (limit_fields k) masks + 2 ^ e - 1.

(** A window: not implemented, or with the address bits from [e] up to below [n]. *)
Definition window_mask (w : option (Z * Z)) : Z :=
  match w with None => 0 | Some (n, e) => 2 ^ n - 2 ^ e end.

Definition window_hardware (k : bridge_kind) (masks : list Z) (w : option (Z * Z)) : Prop :=
  (forall n e, w = Some (n, e) -> 0 <= e < n /\ n <= 64 /\ e < 31) /\
  length masks = length (bridge_fields k) /\
  field_mask (base_fields k) masks = window_mask w /\
  Forall2 (fun '(b, l, w, sh) m => (b, w, m) ∈ regs /\ (l, w, m) ∈ regs) (bridge_fields k) masks.

Definition bridge_sized (k : bridge_kind) (n e : Z) : resource :=
  mk_resource 0 0 (2 ^ n - 1) (Z.lor (bridge_type k) (Z.lor IORESOURCE_PCI_BRIDGE IORESOURCE_BRIDGE))
    (bridge_index k) e e.
Definition window_resources (k : bridge_kind) (w : option (Z * Z)) : list (Z * resource) :=
  match w with None => [] | Some (n, e) => [(bridge_index k, bridge_sized k n e)] end.

Lemma moving_sized s dev r w m : addressed s dev -> res_wf (tree s) dev -> (r, w, m) ∈ regs ->
  exists s', pci_moving_config config_read config_write w s dev r = (m, s') /\ sized s s' dev [].
Proof using Hregs.
  intros Ha Hwf Hr. destruct (moving_spec s dev r w m Ha Hr) as (s' & E & T & C & R).
  exists s'. split; [done|]. split; [done|done|by rewrite T|]. rewrite T.
  split; [by split|by intros ? ? ?%elem_of_nil..|auto|auto].
Qed.

Lemma record_sized s dev k w : addressed s dev -> res_wf (tree s) dev -> not_fixed (tree s) dev (bridge_index k) ->
  (forall n e, w = Some (n, e) -> 0 <= e < n /\ n <= 64 /\ e < 31) ->
  sized s (pci_record_bridge_resource s dev (window_mask w) (bridge_index k) (bridge_type k)) dev
    (window_resources k w).
Proof.
  intros Ha Hwf Hf Hw. unfold pci_record_bridge_resource. destruct w as [[n e]|]; cbn [window_mask window_resources].
  - destruct (Hw n e eq_refl) as (He & Hn & _).
    pose proof (Z.pow_lt_mono_r 2 e n ltac:(lia) ltac:(lia) ltac:(lia)).
    pose proof (Z.pow_le_mono_r 2 n 64 ltac:(lia) ltac:(lia)). pose proof (Z.pow_pos_nonneg 2 e ltac:(lia) ltac:(lia)).
    rewrite (proj2 (Z.eqb_neq _ 0)) by lia.
    destruct (new_resource_grown _ _ _ Hwf Hf) as (p & t & -> & Haddr & Hp & Hgrown).
    replace (bridge_resource (2 ^ n - 2 ^ e) (bridge_type k) (get_res t p)) with (bridge_sized k n e).
    { destruct (Hgrown (bridge_sized k n e) eq_refl). split; [by intros ????|done..]. }
    unfold bridge_resource. rewrite lowest_bit_mask, u64_small, mask_low, Hp by lia. done.
  - by apply sized_refl.
Qed.

Lemma window_resources_index k w i : i ∈ (window_resources k w).*1 -> i = bridge_index k.
Proof. destruct w as [[n e]|]; cbn; [by intros ?%list_elem_of_singleton|by intros ?%elem_of_nil]. Qed.

(** One more register sized, or one more resource recorded. *)
Lemma moving_next s s1 dev l r w m : addressed s dev -> sized s s1 dev l -> (r, w, m) ∈ regs ->
  exists s2, pci_moving_config config_read config_write w s1 dev r = (m, s2) /\ sized s s2 dev l.
Proof using Hregs.
  intros Ha Hs Hr. pose proof (sized_addressed _ _ _ _ Hs Ha) as Ha1.
  destruct (moving_sized s1 dev r w m Ha1 (sz_wf _ _ _ _ Hs) Hr) as (s2 & E & Hs2).
  exists s2. split; [done|]. rewrite <- (app_nil_r l). eapply sized_trans; [|exact Hs|exact Hs2].
  by intros ? _ ?%elem_of_nil.
Qed.

Lemma record_next s s1 dev l k w : addressed s dev -> sized s s1 dev l ->
  bridge_index k ∉ l.*1 -> not_fixed (tree s) dev (bridge_index k) ->
  (forall n e, w = Some (n, e) -> 0 <= e < n /\ n <= 64 /\ e < 31) ->
  sized s (pci_record_bridge_resource s1 dev (window_mask w) (bridge_index k) (bridge_type k)) dev
    (l ++ window_resources k w).
Proof.
  intros Ha Hs Hi Hf Hw. eapply sized_trans; [|exact Hs|].
  - intros i Hi' ->%window_resources_index. done.
  - apply record_sized; [by eapply sized_addressed|apply Hs| |done].
    eapply grown_not_fixed; [apply Hs|done|done].
Qed.

Lemma pci_bridge_read_bases_sized s dev io1 io2 mem pref1 pref2 wio wmem wpref :
  addressed s dev -> res_wf (tree s) dev ->
  (forall k, not_fixed (tree s) dev (bridge_index k)) ->
  window_hardware BridgeIO [io1; io2] wio -> window_hardware BridgePref [pref1; pref2] wpref ->
  window_hardware BridgeMem [mem] wmem ->
  sized s (pci_bridge_read_bases config_read config_write s dev) dev
    (window_resources BridgeIO wio ++ window_resources BridgePref wpref ++ window_resources BridgeMem wmem).
Proof using Hregs.
  intros Ha Hwf Hf (Wio & _ & Mio & Fio) (Wp & _ & Mp & Fp) (Wm & _ & Mm & Fm).
  cbn in Mio, Mp, Mm. rewrite Z.lor_0_r in Mio, Mp, Mm.
  apply Forall2_cons in Fio as [[Bio1 Lio1] Fio]. apply Forall2_cons in Fio as [[Bio2 Lio2] _].
  apply Forall2_cons in Fp as [[Bp1 Lp1] Fp]. apply Forall2_cons in Fp as [[Bp2 Lp2] _].
  apply Forall2_cons in Fm as [[Bm Lm] _].
  assert (Hpref : bridge_index BridgePref ∉ ([] ++ window_resources BridgeIO wio).*1)
    by (intros ?%window_resources_index; done).
  assert (Hmem : bridge_index BridgeMem ∉
    (([] ++ window_resources BridgeIO wio) ++ window_resources BridgePref wpref).*1)
    by (rewrite fmap_app, elem_of_app; intros [?%window_resources_index|?%window_resources_index]; done).
  unfold pci_bridge_read_bases. pose proof (sized_refl s dev Hwf) as H0.
  destruct (moving_next _ _ _ _ _ _ _ Ha H0 Bio1) as (s1 & -> & H1).
  destruct (moving_next _ _ _ _ _ _ _ Ha H1 Bio2) as (s2 & -> & H2).
  destruct (moving_next _ _ _ _ _ _ _ Ha H2 Lio1) as (s3 & -> & H3).
  destruct (moving_next _ _ _ _ _ _ _ Ha H3 Lio2) as (s4 & -> & H4).
  rewrite Mio, Z.land_diag.
  pose proof (record_next _ _ _ _ BridgeIO wio Ha H4 (not_elem_of_nil _) (Hf _) Wio) as H5.
  set (s5 := pci_record_bridge_resource s4 dev _ _ _) in *. clearbody s5.
  destruct (moving_next _ _ _ _ _ _ _ Ha H5 Bp1) as (s6 & -> & H6).
  destruct (moving_next _ _ _ _ _ _ _ Ha H6 Bp2) as (s7 & -> & H7).
  destruct (moving_next _ _ _ _ _ _ _ Ha H7 Lp1) as (s8 & -> & H8).
  destruct (moving_next _ _ _ _ _ _ _ Ha H8 Lp2) as (s9 & -> & H9).
  rewrite Mp, Z.land_diag.
  pose proof (record_next _ _ _ _ BridgePref wpref Ha H9 Hpref (Hf _) Wp) as H10.
  set (s10 := pci_record_bridge_resource s9 dev _ _ _) in *. clearbody s10.
  destruct (moving_next _ _ _ _ _ _ _ Ha H10 Bm) as (s11 & -> & H11).
  destruct (moving_next _ _ _ _ _ _ _ Ha H11 Lm) as (s12 & -> & H12).
  rewrite Mm, Z.land_diag.
  pose proof (record_next _ _ _ _ BridgeMem wmem Ha H12 Hmem (Hf _) Wm) as H13.
  set (s13 := pci_record_bridge_resource s12 dev _ _ _) in *. clearbody s13.
  rewrite app_nil_l, <- app_assoc in H13.
  rewrite <- (app_nil_r (_ ++ _ ++ _)). eapply sized_trans; [|exact H13|apply sized_compact, H13].
  by intros ? _ ?%elem_of_nil.
Qed.

(** *** Storing *)

(** What the allocator makes of a sized resource. *)
Definition placed (base : Z) (r : resource) : resource :=
  with_base base (with_flags (Z.lor (res_flags r) IORESOURCE_ASSIGNED) r).
Definition place (p : nat) (base : Z) (s : pci_state H) : pci_state H :=
  set_tree (set_res (tree s) p (placed base (get_res (tree s) p))) s.
Definition stored (r : resource) : resource := with_flags (Z.lor (res_flags r) IORESOURCE_STORED) r.
Definition space_enable (k : bar_kind) : Z := if is_io k then PCI_COMMAND_IO else PCI_COMMAND_MEMORY.

(** The steps of [pci_set_resource] for a base address register. *)
Lemma pci_set_resource_bar s dev p k base n e index :
  get_res (tree s) p = placed base (bar_sized k n e index) -> 0 <= e ->
  let r := stored (get_res (tree s) p) in
  let s1 := set_tree (set_res (tree s) p r)
              (set_command dev (u8 (Z.lor (command s dev) (space_enable k))) s) in
  let lo := Z.land base 0xffffffff in
  let s2 := pci_write_config config_write 32 s1 dev index (if is_io k then Z.lor lo 1 else lo) in
  pci_set_resource config_write s dev p =
  if is_64 k then pci_write_config config_write 32 s2 dev (index + 4) (Z.land (Z.shiftr base 32) 0xffffffff)
  else s2.
Proof.
  intros Hr He. pose proof (Z.pow_pos_nonneg 2 e ltac:(lia) ltac:(lia)).
  cbv zeta. unfold pci_set_resource, store_command. rewrite Hr.
  unfold placed, bar_sized, stored, with_base, with_flags.
  cbn [res_base res_size res_limit res_flags res_index res_align res_gran].
  rewrite (proj2 (Z.eqb_neq (2 ^ e) 0)) by lia.
  destruct k as [|[]|[]|[]]; closed_tests; reflexivity.
Qed.

Lemma land_mod32 x y : Z.land (Z.land x 0xffffffff) (y mod 2 ^ 32) = Z.land x y mod 2 ^ 32.
Proof.
  rewrite <- !land_low_mask by lia. change (2 ^ 32 - 1) with 0xffffffff. apply Z.bits_inj'. intros i Hi.
  rewrite !Z.land_spec. by destruct (Z.testbit x i), (Z.testbit y i), (Z.testbit 0xffffffff i).
Qed.

Lemma land_div32 x y : 0 <= y < 2 ^ 64 -> Z.land (Z.land (Z.shiftr x 32) 0xffffffff) (y / 2 ^ 32) = Z.land x y / 2 ^ 32.
Proof.
  intros Hy. rewrite <- !Z.shiftr_div_pow2 by lia. rewrite Z.shiftr_land, <- Z.land_assoc. f_equal.
  rewrite Z.land_comm. change 0xffffffff with (2 ^ 32 - 1). rewrite land_low_mask by lia.
  apply Z.mod_small. rewrite Z.shiftr_div_pow2 by lia. split; [apply Z.div_pos; lia|].
  apply Z.div_lt_upper_bound; lia.
Qed.

Lemma bar_low_written k base n e : bar_low k <= e < n -> n <= 64 -> 0 <= base < 2 ^ n -> (2 ^ e | base) ->
  let lo := Z.land base 0xffffffff in
  Z.land (if is_io k then Z.lor lo 1 else lo) ((2 ^ n - 2 ^ e) mod 2 ^ 32) = base mod 2 ^ 32.
Proof.
  intros He Hn Hb Hd lo. assert (2 <= e) by (destruct k; cbn in He; lia).
  assert (E : Z.land lo ((2 ^ n - 2 ^ e) mod 2 ^ 32) = base mod 2 ^ 32)
    by (unfold lo; by rewrite land_mod32, land_mask by (done || lia)).
  destruct (is_io k); [|done]. rewrite Z.land_lor_distr_l, E.
  replace (Z.land 1 _) with 0; [apply Z.lor_0_r|].
  symmetry. change 1 with (Z.land 1 0xffffffff). rewrite land_mod32.
  replace (Z.land 1 (2 ^ n - 2 ^ e)) with 0; [done|]. apply Z.bits_inj'. intros i Hi.
  rewrite Z.land_spec, mask_bits, Z.bits_0 by lia. change 1 with (2 ^ 0). rewrite Z.pow2_bits_eqb by lia.
  destruct (0 =? i) eqn:E0; [|done]. bool_to_prop. subst i. by rewrite (proj2 (Z.leb_gt e 0)) by lia.
Qed.

(** The address read back from the registers just written. *)
Lemma bar_address_written h index k base n e :
  bar_low k <= e < n -> n <= bar_width k -> 0 <= base < 2 ^ n -> (2 ^ e | base) ->
  read h index 32 = Z.lor (bar_bits k) (base mod 2 ^ 32) ->
  (is_64 k = true -> read h (index + 4) 32 = base / 2 ^ 32) ->
  bar_address h index k = base.
Proof.
  intros He Hn Hb Hd Hlo Hhi. unfold bar_address. rewrite Hlo.
  assert (Hlow : 2 <= bar_low k <= 4 /\ 0 <= bar_bits k < 2 ^ bar_low k)
    by (destruct k as [|[]|[]|[]]; cbn; lia).
  assert (n <= 64 /\ (is_64 k = false -> n <= 32)) as [Hn64 Hn32] by (unfold bar_width in Hn; destruct (is_64 k); split; lia).
  assert (Hdl : (2 ^ bar_low k | base mod 2 ^ 32)).
  { rewrite Z.mod_eq by lia. apply Z.divide_sub_r.
    - etrans; [|exact Hd]. exists (2 ^ (e - bar_low k)). rewrite <- Z.pow_add_r by lia. f_equal. lia.
    - apply Z.divide_mul_l. exists (2 ^ (32 - bar_low k)). rewrite <- Z.pow_add_r by lia. f_equal. lia. }
  rewrite Z.lor_comm, (lor_add _ _ (bar_low k)) by (done || lia). rewrite land_lnot_pow2 by lia.
  destruct Hdl as [q Hq].
  replace ((base mod 2 ^ 32 + bar_bits k) mod 2 ^ bar_low k) with (bar_bits k) by
    (rewrite Hq, Z.add_comm, Z.mod_add, Z.mod_small by lia; done).
  destruct (is_64 k) eqn:E.
  - rewrite Hhi by done. rewrite Z.shiftl_mul_pow2 by lia. pose proof (Z.div_mod base (2 ^ 32) ltac:(lia)). lia.
  - specialize (Hn32 eq_refl). pose proof (Z.pow_le_mono_r 2 n 32 ltac:(lia) ltac:(lia)).
    rewrite (Z.mod_small base) by lia. lia.
Qed.

Lemma pci_set_resource_bar_spec s dev p base n e index k :
  addressed s dev -> bar_hardware (hw s) index k n e ->
  get_res (tree s) p = placed base (bar_sized k n e index) ->
  0 <= base < 2 ^ n -> (2 ^ e | base) ->
  let s' := pci_set_resource config_write s dev p in
  bar_address (hw s') index k = base /\
  same_regs [index; index + 4] (hw s) (hw s') /\
  get_res (tree s') p = stored (get_res (tree s) p) /\
  command s' dev = u8 (Z.lor (command s dev) (space_enable k)).
Proof using Hregs.
  intros Ha (He & Hn & Hlo & Hlov & Hhi) Hr Hb Hd.
  assert (Hew : 2 <= e /\ n <= 64) by (destruct k; cbn in He, Hn; lia).
  cbv zeta. rewrite (pci_set_resource_bar _ _ _ _ _ _ _ _ Hr) by lia. cbv zeta.
  set (s1 := set_tree _ _). set (s2 := pci_write_config _ _ s1 _ _ _).
  assert (Ha1 : addressed s1 dev) by (eapply addressed_tree; [exact Ha|apply set_res_address]).
  destruct (write_reads s1 dev index 32 _ (if is_io k then Z.lor (Z.land base 0xffffffff) 1 else Z.land base 0xffffffff)
              Ha1 Hlo) as (R2 & F2 & T2 & C2). fold s2 in R2, F2, T2, C2.
  assert (Ha2 : addressed s2 dev) by (eapply addressed_tree; [exact Ha1|by rewrite T2]).
  change (hw s1) with (hw s) in R2, F2.
  rewrite bar_low_written, Hlov in R2 by (done || lia).
  assert (Hcmd : command s1 dev = u8 (Z.lor (command s dev) (space_enable k))) by (cbn; by rewrite Nat.eqb_refl).
  assert (Hres : get_res (tree s1) p = stored (get_res (tree s) p)) by (cbn; apply set_res_same).
  destruct (is_64 k) eqn:H64.
  - destruct (Hhi eq_refl) as [Hhir Hhiv].
    destruct (write_reads s2 dev (index + 4) 32 _ (Z.land (Z.shiftr base 32) 0xffffffff) Ha2 Hhir) as (R3 & F3 & T3 & C3).
    set (s3 := pci_write_config _ _ s2 _ _ _) in *.
    pose proof (moving_split k n e He Hn) as (Hm & _ & _).
    assert (index + 4 ∉ [index] /\ index ∉ [index + 4]) as [Hn1 Hn2] by (rewrite !list_elem_of_singleton; lia).
    rewrite land_div32, land_mask, (F2 _ _ _ Hhir Hn1), Hhiv in R3 by (done || lia).
    split_and!; [|exact (same_regs_trans _ _ _ _ _ F2 F3)|by rewrite T3, T2|by rewrite C3, C2].
    apply (bar_address_written _ _ _ _ n e); try done. rewrite (F3 _ _ _ Hlo Hn2). exact R2.
  - split_and!; [| |by rewrite T2|by rewrite C2].
    + apply (bar_address_written _ _ _ _ n e); try done. intros. congruence.
    + intros r w m Hr' Hnin. apply (F2 _ _ _ Hr'). set_solver.
Qed.

(** ** Bridge windows *)

Definition config_writes (s : pci_state H) (dev : nat) (l : list (Z * Z * Z)) : pci_state H :=
  fold_left (fun s '(w, r, v) => pci_write_config config_write w s dev r v) l s.

Lemma config_writes_spec dev : forall l s, addressed s dev -> NoDup l.*1.*2 ->
  (forall w r v, (w, r, v) ∈ l -> exists m, (r, w, m) ∈ regs) ->
  let s' := config_writes s dev l in
  tree s' = tree s /\ command s' = command s /\ same_regs l.*1.*2 (hw s) (hw s') /\
  forall w r v m, (w, r, v) ∈ l -> (r, w, m) ∈ regs -> Z.land (read (hw s') r w) m = Z.land v m.
Proof using Hregs.
  induction l as [|[[w r] v] l IH]; intros s Ha Hnd Hreg; cbn.
  - split_and!; [done..| |]; [by intros ? ? ? ? _|by intros ? ? ? ? ?%elem_of_nil].
  - cbn in Hnd. apply NoDup_cons in Hnd as [Hnin Hnd].
    destruct (Hreg w r v) as [m Hm]; [by left|].
    destruct (write_reads s dev r w m v Ha Hm) as (R & F & T & C).
    set (s1 := pci_write_config _ _ _ _ _ _) in *. change (fold_left _ l s1) with (config_writes s1 dev l).
    destruct (IH s1) as (T' & C' & F' & R'); [eapply addressed_tree; [exact Ha|by rewrite T]|done| |].
    { intros w' r' v' Hl. eapply Hreg. by right. }
    split_and!; [congruence|congruence|exact (same_regs_trans _ _ _ _ _ F F')|].
    intros w' r' v' m' [[= -> -> ->] |Hl]%elem_of_cons Hr'.
    + destruct (cr_unique _ _ _ _ _ Hm Hr') as [_ <-].
      rewrite (F' _ _ _ Hm Hnin), R. apply land_written.
    + by eapply R'.
Qed.

Lemma field_value_written h x fields : forall masks,
  (forall i r w sh m, fields !! i = Some (r, w, sh) -> masks !! i = Some m ->
     0 <= sh /\ Z.land (read h r w) m = Z.land (Z.shiftr x sh) m) ->
  field_value h fields masks = Z.land x (field_mask fields masks).
Proof.
  induction fields as [|[[r w] sh] fields IH]; intros [|m masks] Hr; cbn; try by rewrite Z.land_0_r.
  rewrite (IH masks) by (intros i; apply (Hr (S i))). destruct (Hr 0%nat r w sh m eq_refl eq_refl) as [Hsh ->].
  rewrite Z.land_lor_distr_r. f_equal. apply Z.bits_inj'. intros i Hi.
  destruct (Z.lt_ge_cases i sh).
  - by rewrite Z.land_spec, !Z.shiftl_spec_low, andb_false_r by lia.
  - rewrite Z.land_spec, !Z.shiftl_spec, Z.land_spec, Z.shiftr_spec by lia. do 2 f_equal. lia.
Qed.

Lemma land_mask_down n e x : 0 <= e <= n -> 0 <= x < 2 ^ n -> Z.land x (2 ^ n - 2 ^ e) = x - x mod 2 ^ e.
Proof.
  intros He Hx. rewrite <- land_lnot_pow2 by lia. apply Z.bits_inj'. intros i Hi.
  replace (2 ^ e - 1) with (Z.ones e) by (rewrite Z.ones_equiv; lia).
  rewrite !Z.land_spec, mask_bits, Z.lnot_spec, Z.testbit_ones_nonneg by lia.
  rewrite <- Z.leb_antisym. destruct (Z.lt_ge_cases i n).
  - by rewrite (proj2 (Z.ltb_lt i n)), andb_true_r by lia.
  - rewrite <- (Z.mod_small x (2 ^ n)), Z.mod_pow2_bits_high by lia. done.
Qed.

(** The window resource the allocator made. *)
Definition window_placed (base size limit : Z) (k : bridge_kind) (e : Z) : resource :=
  mk_resource base size limit
    (Z.lor (Z.lor (bridge_type k) (Z.lor IORESOURCE_PCI_BRIDGE IORESOURCE_BRIDGE)) IORESOURCE_ASSIGNED)
    (bridge_index k) e e.

Definition bridge_writes (k : bridge_kind) (base end_ : Z) : list (Z * Z * Z) :=
  ((fun '(r, w, sh) => (w, r, Z.shiftr base sh)) <$> base_fields k) ++
  ((fun '(r, w, sh) => (w, r, Z.shiftr end_ sh)) <$> limit_fields k).
Definition window_regs (k : bridge_kind) : list Z := (bridge_writes k 0 0).*1.*2.

Lemma bridge_writes_regs k base end_ : (bridge_writes k base end_).*1.*2 = window_regs k.
Proof. by destruct k. Qed.

Lemma bridge_writes_nodup k base end_ : NoDup (bridge_writes k base end_).*1.*2.
Proof. rewrite bridge_writes_regs. apply (bool_decide_unpack _). by destruct k. Qed.

(** The steps of [pci_set_resource] for a window. *)
Lemma pci_set_resource_bridge s dev p base size limit k e :
  get_res (tree s) p = window_placed base size limit k e -> e < 31 -> 0 <= e ->
  exists s1, same_address (tree s) (tree s1) /\ hw s1 = hw s /\
  pci_set_resource config_write s dev p = config_writes s1 dev
    (if size =? 0 then bridge_writes k limit (u64 (limit - 2 ^ e))
     else bridge_writes k base (resource_end (window_placed base size limit k e))).
Proof.
  intros Hr He He0. assert (Hs : s32 (Z.shiftl 1 e) = 2 ^ e).
  { rewrite Z.shiftl_mul_pow2, Z.mul_1_l by lia. apply s32_small.
    pose proof (Z.pow_pos_nonneg 2 e ltac:(lia) ltac:(lia)).
    pose proof (Z.pow_lt_mono_r 2 e 31 ltac:(lia) ltac:(lia) ltac:(lia)). lia. }
  rewrite <- Hs. unfold pci_set_resource, store_command. rewrite Hr.
  change (resource_end (window_placed base size limit k e)) with
    (u64 (u64 (base + align_up size e) - 1)).
  unfold resource_end, window_placed, with_base, with_flags.
  cbn [res_base res_size res_limit res_flags res_index res_align res_gran].
  destruct (size =? 0); destruct k; closed_tests; eexists;
    (split; [|split; [|reflexivity]]); [apply set_res_address|done|apply set_res_address|done|
      apply set_res_address|done|apply set_res_address|done|apply set_res_address|done|apply set_res_address|done].
Qed.

Lemma window_masks_lookup k masks w : window_hardware k masks w ->
  forall i b l w sh m, bridge_fields k !! i = Some (b, l, w, sh) -> masks !! i = Some m ->
  (b, w, m) ∈ regs /\ (l, w, m) ∈ regs.
Proof. intros (_ & _ & _ & Hf) i b' l w' sh m H1 H2. exact (Forall2_lookup_lr _ _ _ _ _ _ Hf H1 H2). Qed.

Lemma limit_mask k masks : field_mask (limit_fields k) masks = field_mask (base_fields k) masks.
Proof. destruct k, masks as [|m1 [|m2 masks]]; reflexivity. Qed.

Lemma window_written s dev k masks w base end_ : addressed s dev -> window_hardware k masks w ->
  let s' := config_writes s dev (bridge_writes k base end_) in
  same_regs (window_regs k) (hw s) (hw s') /\
  field_value (hw s') (base_fields k) masks = Z.land base (window_mask w) /\
  field_value (hw s') (limit_fields k) masks = Z.land end_ (window_mask w).
Proof using Hregs.
  intros Ha Hw s'. pose proof (window_masks_lookup _ _ _ Hw) as Hm.
  destruct Hw as (_ & Hlen & Hmask & _).
  assert (Hin : forall i b' l' w' sh, bridge_fields k !! i = Some (b', l', w', sh) ->
    (w', b', Z.shiftr base sh) ∈ bridge_writes k base end_ /\ (w', l', Z.shiftr end_ sh) ∈ bridge_writes k base end_ /\
    0 <= sh).
  { intros i b' l' w' sh Hi. split_and!.
    - apply elem_of_app. left. unfold base_fields. rewrite <- list_fmap_compose. apply list_elem_of_fmap.
      exists (b', l', w', sh). split; [done|]. by eapply list_elem_of_lookup_2.
    - apply elem_of_app. right. unfold limit_fields. rewrite <- list_fmap_compose. apply list_elem_of_fmap.
      exists (b', l', w', sh). split; [done|]. by eapply list_elem_of_lookup_2.
    - destruct k; do 3 (destruct i as [|i]; [by inversion Hi; subst|]); done. }
  destruct (config_writes_spec dev (bridge_writes k base end_) s) as (T & C & F & R); [done|apply bridge_writes_nodup| |].
  { intros w' r v Hv. unfold bridge_writes, base_fields, limit_fields in Hv. rewrite <- !list_fmap_compose in Hv.
    apply elem_of_app in Hv as [Hv|Hv]; apply list_elem_of_fmap in Hv as ([[[b' l'] w2] sh2] & [= -> -> ->] & [i Hi]%list_elem_of_lookup);
      (destruct (lookup_lt_is_Some_2 masks i) as [m Hmi]; [rewrite Hlen; by eapply lookup_lt_Some|]);
      exists m; by destruct (Hm _ _ _ _ _ _ Hi Hmi). }
  rewrite bridge_writes_regs in F. split; [done|]. rewrite <- Hmask. rewrite <- (limit_mask k masks) at 2.
  split; apply field_value_written; intros i r w' sh m Hi Hmi;
    apply list_lookup_fmap_Some in Hi as ([[[b' l'] w2] sh2] & [= -> -> ->] & Hi);
    destruct (Hm _ _ _ _ _ _ Hi Hmi) as [Hb Hl]; destruct (Hin _ _ _ _ _ Hi) as (Hin1 & Hin2 & Hsh);
    (split; [done|]); by eapply R.
Qed.

Lemma align_up_power v e : 0 <= e < 64 -> align_up v e = ALIGN_UP 64 v (2 ^ e).
Proof.
  intros He. pose proof (Z.pow_pos_nonneg 2 e ltac:(lia) ltac:(lia)).
  pose proof (Z.pow_lt_mono_r 2 e 64 ltac:(lia) ltac:(lia) ltac:(lia)).
  unfold align_up, ALIGN_UP. rewrite Z.shiftl_mul_pow2, Z.mul_1_l by lia. by rewrite (u64_small (2 ^ e)) by lia.
Qed.

(** ** Theorems *)

(** C8.  Sizing a normal PCI device: whatever mixture of I/O, 32-bit, below-1M and
    64-bit registers (or gaps) its six base address registers are, and with or
    without an expansion ROM, every implemented register gets one resource with the
    size, granularity, alignment, limit and kind its writable bits say, no other
    resource appears, those at other indices stay, and all registers are restored. *)
Theorem pci_dev_read_resources_correct s dev slots m rom :
  addressed s dev -> res_wf (tree s) dev -> (forall i, not_fixed (tree s) dev i) ->
  slots_span slots = 24 -> slots_hardware (hw s) PCI_BASE_ADDRESS_0 slots ->
  (PCI_ROM_ADDRESS, 32, m) ∈ regs -> rom_sized (Z.ldiff m PCI_ROM_ADDRESS_ENABLE) PCI_ROM_ADDRESS rom ->
  sized s (pci_dev_read_resources config_read config_write s dev) dev
    (slots_resources PCI_BASE_ADDRESS_0 slots ++ [(PCI_ROM_ADDRESS, rom)]).
Proof using Hregs.
  intros Ha Hwf Hf Hspan Hh Hm Hrom. unfold pci_dev_read_resources.
  assert (Hs : sized s (pci_read_bases config_read config_write s dev 6) dev (slots_resources PCI_BASE_ADDRESS_0 slots))
    by (apply pci_read_bases_sized; auto).
  assert (Hi : PCI_ROM_ADDRESS ∉ (slots_resources PCI_BASE_ADDRESS_0 slots).*1)
    by (intros Hin%slots_resources_range; rewrite Hspan in Hin; unfold PCI_ROM_ADDRESS, PCI_BASE_ADDRESS_0 in Hin; lia).
  eapply sized_trans; [|exact Hs|].
  - intros i Hin ->%list_elem_of_singleton. done.
  - eapply pci_get_rom_resource_sized; [by eapply sized_addressed|apply Hs| |exact Hm|exact Hrom].
    eapply grown_not_fixed; [apply Hs|done|apply Hf].
Qed.

(** Sizing a bridge: the windows it implements get one bridge resource each with
    the granularity and limit of their address bits, then its two base address
    registers and its ROM are sized as for a device; registers are restored. *)
Theorem pci_bus_read_resources_correct s dev io1 io2 mem pref1 pref2 wio wmem wpref slots m rom :
  addressed s dev -> res_wf (tree s) dev -> (forall i, not_fixed (tree s) dev i) ->
  window_hardware BridgeIO [io1; io2] wio -> window_hardware BridgePref [pref1; pref2] wpref ->
  window_hardware BridgeMem [mem] wmem ->
  slots_span slots = 8 -> slots_hardware (hw s) PCI_BASE_ADDRESS_0 slots ->
  (PCI_ROM_ADDRESS1, 32, m) ∈ regs -> rom_sized (Z.ldiff m PCI_ROM_ADDRESS_ENABLE) PCI_ROM_ADDRESS1 rom ->
  sized s (pci_bus_read_resources config_read config_write s dev) dev
    ((window_resources BridgeIO wio ++ window_resources BridgePref wpref ++ window_resources BridgeMem wmem) ++
     slots_resources PCI_BASE_ADDRESS_0 slots ++ [(PCI_ROM_ADDRESS1, rom)]).
Proof using Hregs.
  intros Ha Hwf Hf Hio Hpref Hmem Hspan Hh Hm Hrom. unfold pci_bus_read_resources.
  pose proof (pci_bridge_read_bases_sized s dev _ _ _ _ _ _ _ _ Ha Hwf (fun k => Hf _) Hio Hpref Hmem) as Hw.
  set (s1 := pci_bridge_read_bases _ _ _ _) in *. set (lw := window_resources _ _ ++ _) in *.
  assert (Hlw : forall i, i ∈ lw.*1 -> i = 0x1c \/ i = 0x20 \/ i = 0x24).
  { intros i. unfold lw. rewrite !fmap_app, !elem_of_app.
    intros [->%window_resources_index|[->%window_resources_index| ->%window_resources_index]]; auto. }
  assert (Hsl : forall i, i ∈ (slots_resources PCI_BASE_ADDRESS_0 slots).*1 -> 0x10 <= i < 0x18)
    by (intros i Hin%slots_resources_range; rewrite Hspan in Hin; unfold PCI_BASE_ADDRESS_0 in Hin; lia).
  assert (Hb : sized s1 (pci_read_bases config_read config_write s1 dev 2) dev (slots_resources PCI_BASE_ADDRESS_0 slots)).
  { apply pci_read_bases_sized; [done|by eapply sized_addressed|apply Hw| |by eapply slots_hardware_same; [apply Hw|]].
    intros i Hin%Hsl. eapply grown_not_fixed; [apply Hw| |apply Hf]. intros Hin'%Hlw. lia. }
  assert (Hwb : sized s (pci_read_bases config_read config_write s1 dev 2) dev (lw ++ slots_resources PCI_BASE_ADDRESS_0 slots))
    by (eapply sized_trans; [|exact Hw|exact Hb]; intros i Hin%Hlw Hin'%Hsl; lia).
  assert (Hrom_new : PCI_ROM_ADDRESS1 ∉ (lw ++ slots_resources PCI_BASE_ADDRESS_0 slots).*1).
  { rewrite fmap_app, elem_of_app. unfold PCI_ROM_ADDRESS1. intros [Hin%Hlw|Hin%Hsl]; lia. }
  rewrite app_assoc. eapply sized_trans; [|exact Hwb|].
  - intros i Hin ->%list_elem_of_singleton. done.
  - eapply pci_get_rom_resource_sized; [by eapply sized_addressed|apply Hwb| |exact Hm|exact Hrom].
    eapply grown_not_fixed; [apply Hwb|done|apply Hf].
Qed.

(** C9.  A base address register sized, placed and stored: whatever aligned address
    within the limit the allocator chose for the resource that sizing made, storing
    makes the device decode exactly that address, keeps its type bits and all other
    registers, marks the resource stored and enables the right space. *)
Theorem pci_bar_roundtrip s dev index k n e :
  addressed s dev -> res_wf (tree s) dev -> not_fixed (tree s) dev index -> bar_hardware (hw s) index k n e ->
  exists p s1, pci_get_resource config_read config_write s dev index = (p, s1) /\
    get_res (tree s1) p = bar_sized k n e index /\ same_regs [] (hw s) (hw s1) /\
    forall base, 0 <= base -> (2 ^ e | base) -> base + 2 ^ e - 1 <= res_limit (get_res (tree s1) p) ->
      let s2 := pci_set_resource config_write (place p base s1) dev p in
      bar_address (hw s2) index k = base /\
      same_regs [index; index + 4] (hw s) (hw s2) /\
      get_res (tree s2) p = stored (placed base (bar_sized k n e index)) /\
      command s2 dev = u8 (Z.lor (command s dev) (space_enable k)).
Proof using Hregs.
  intros Ha Hwf Hf Hh. destruct (pci_get_resource_sized s dev index (Bar k n e) Ha Hwf Hf Hh) as (p & s1 & E & Hs & Hr).
  cbn in Hr. exists p, s1. split_and!; [done|done|apply Hs|]. intros base Hb Hd Hlim. rewrite Hr in Hlim.
  assert (Hk : 0 <= e) by (destruct Hh as [He _]; destruct k; cbn in He; lia).
  pose proof (Z.pow_pos_nonneg 2 e ltac:(lia) ltac:(lia)).
  assert (Hbn : 0 <= base < 2 ^ n) by (cbn [bar_sized res_limit] in Hlim; lia).
  assert (Hp : get_res (tree (place p base s1)) p = placed base (bar_sized k n e index))
    by (unfold place; cbn [tree set_tree]; by rewrite set_res_same, Hr).
  assert (Hap : addressed (place p base s1) dev)
    by (eapply addressed_tree; [by eapply sized_addressed|apply set_res_address]).
  assert (Hhw : bar_hardware (hw (place p base s1)) index k n e)
    by (eapply bar_hardware_same; [apply Hs|done]).
  destruct (pci_set_resource_bar_spec _ _ _ _ _ _ _ _ Hap Hhw Hp Hbn Hd) as (H1 & H2 & H3 & H4).
  rewrite Hp in H3. split_and!; [done| |done|].
  - exact (same_regs_trans [] _ _ _ _ (sz_regs _ _ _ _ Hs) H2).
  - rewrite H4. cbn [command place set_tree]. by rewrite (sz_command _ _ _ _ Hs).
Qed.

(** C10.  Storing a bridge window: a window of size zero is closed, the bridge forwards
    nothing; any other one forwards exactly the addresses from its base to the end
    of its size rounded up to the window's granularity.  No register outside the
    window's own changes. *)
Theorem pci_bridge_window_forwards s dev p k masks n e base size limit :
  addressed s dev -> window_hardware k masks (Some (n, e)) ->
  get_res (tree s) p = window_placed base size limit k e -> 2 ^ e <= limit < 2 ^ n ->
  let top := base + ALIGN_UP 64 size (2 ^ e) - 1 in
  (size <> 0 -> 0 < size /\ size + 2 ^ e - 1 < 2 ^ 64 /\ 0 <= base /\ (2 ^ e | base) /\ top <= limit) ->
  let s' := pci_set_resource config_write s dev p in
  (forall x, forwards (hw s') k masks e x <-> size <> 0 /\ base <= x <= top) /\
  same_regs (window_regs k) (hw s) (hw s').
Proof using Hregs.
  intros Ha Hw Hr Hlim top Hplace. destruct (proj1 Hw n e eq_refl) as (He & Hn & He31).
  destruct (pci_set_resource_bridge s dev p _ _ _ _ _ Hr He31 (proj1 He)) as (s1 & Hs1 & Hh1 & E). cbv zeta. rewrite E.
  assert (Ha1 : addressed s1 dev) by (by eapply addressed_tree). rewrite <- Hh1.
  pose proof (Z.pow_pos_nonneg 2 e ltac:(lia) ltac:(lia)) as Hpos.
  pose proof (Z.pow_le_mono_r 2 n 64 ltac:(lia) ltac:(lia)) as H64.
  unfold forwards. destruct (size =? 0) eqn:E0; bool_to_prop.
  - rewrite (u64_small (limit - 2 ^ e)) by lia.
    destruct (window_written s1 dev k masks _ limit (limit - 2 ^ e) Ha1 Hw) as (Hs & -> & ->). cbn [window_mask]. rewrite !land_mask_down by lia. split; [|done].
    intros x. rewrite Zminus_mod, Z_mod_same_full, Z.sub_0_r, Z.mod_mod by lia.
    pose proof (Z.mod_pos_bound limit (2 ^ e) ltac:(lia)). lia.
  - destruct (Hplace E0) as (Hsize & Hsz & Hb & Hd & Htop).
    destruct (align_up_bounds 64 e size ltac:(lia) ltac:(lia) Hsz) as [Hup Hupd].
    assert (Hend : resource_end (window_placed base size limit k e) = top).
    { unfold resource_end, window_placed. cbn [res_base res_size res_gran]. rewrite align_up_power by lia.
      unfold u64 at 1 2, wrap. rewrite Zminus_mod_idemp_l. apply Z.mod_small. unfold top in *. lia. }
    rewrite Hend. destruct (window_written s1 dev k masks _ base top Ha1 Hw) as (Hs & -> & ->).
    cbn [window_mask]. assert (Hm : top mod 2 ^ e = 2 ^ e - 1).
    { replace top with (2 ^ e - 1 + (base + ALIGN_UP 64 size (2 ^ e) - 2 ^ e)) by (unfold top; lia).
      assert (Hdd : (2 ^ e | base + ALIGN_UP 64 size (2 ^ e) - 2 ^ e))
        by (apply Z.divide_sub_r; [by apply Z.divide_add_r|by exists 1; lia]).
      destruct Hdd as [q ->]. rewrite Z.mod_add by lia. apply Z.mod_small. lia. }
    rewrite !land_mask_down by (unfold top in *; lia). rewrite Hm.
    apply Z.mod_divide in Hd; [|lia]. rewrite Hd. split; [|done]. intros x. unfold top in *. lia.
Qed.
End Registers.

(** ** A register file as hardware *)

Section RegisterFile.
Context (layout : list (Z * Z * Z)).

Definition reg_lookup (r : Z) : option (Z * Z * Z) := List.find (fun '(r', w, m) => r' =? r) layout.
Definition reg_read (h : Z -> Z) (b d r w : Z) : Z := wrap w (h r).
Definition reg_write (h : Z -> Z) (b d r w v : Z) : Z -> Z :=
  match reg_lookup r with
  | Some (_, w, m) => fun r' => if r' =? r then Z.lor (Z.ldiff (wrap w (h r)) m) (Z.land v m) else h r'
  | None => h
  end.

(** Each register once, masks within the width. *)
Definition layout_ok : bool :=
  forallb (fun x : Z * Z * Z => let '(r, w, m) := x in
    (0 <=? w) && (0 <=? m) && (m <? 2 ^ w) && bool_decide (reg_lookup r = Some x)) layout.

Lemma layout_ok_spec r w m : layout_ok = true -> (r, w, m) ∈ layout ->
  0 <= w /\ 0 <= m < 2 ^ w /\ reg_lookup r = Some (r, w, m).
Proof.
  intros Hok Hin. unfold layout_ok in Hok. rewrite forallb_forall in Hok.
  apply list_elem_of_In, Hok in Hin. cbn in Hin. rewrite !andb_true_iff, bool_decide_eq_true in Hin.
  destruct Hin as [[[H1 H2] H3] H4]. bool_to_prop. auto.
Qed.

Lemma register_file_regs b d : layout_ok = true -> ConfigRegs reg_read reg_write b d layout.
Proof.
  intros Hok. split.
  - intros r w m w' m' H1 H2. apply (layout_ok_spec _ _ _ Hok) in H1 as (_ & _ & E1).
    apply (layout_ok_spec _ _ _ Hok) in H2 as (_ & _ & E2). rewrite E1 in E2. by injection E2 as -> ->.
  - intros h r w m Hin. destruct (layout_ok_spec _ _ _ Hok Hin) as (Hw & Hm & _).
    pose proof (wrap_range w (h r) Hw). done.
  - intros h r w m v Hin. destruct (layout_ok_spec _ _ _ Hok Hin) as (Hw & Hm & E).
    unfold reg_read, reg_write. rewrite E, Z.eqb_refl. unfold wrap. rewrite <- !Z.land_ones by lia.
    assert (E2 : Z.land m (Z.ones w) = m) by (rewrite Z.land_ones by lia; by apply Z.mod_small).
    apply Z.bits_inj'. intros i Hi. apply (f_equal (fun x => Z.testbit x i)) in E2. revert E2.
    repeat rewrite ?Z.lor_spec, ?Z.ldiff_spec, ?Z.land_spec.
    by destruct (Z.testbit m i), (Z.testbit (Z.ones w) i), (Z.testbit (h r) i), (Z.testbit v i).
  - intros h r w m r' w' m' v Hin _ Hne. destruct (layout_ok_spec _ _ _ Hok Hin) as (_ & _ & E).
    unfold reg_read, reg_write. rewrite E. by rewrite (proj2 (Z.eqb_neq _ _)) by done.
Qed.
End RegisterFile.

(** A device at 00:02.0: a 64-bit prefetchable register of 16 MiB, 32 I/O ports,
    a 4 KiB page, an expansion ROM of 64 KiB. *)
Definition sample_layout : list (Z * Z * Z) :=
  [(0x10, 32, 0xff000000); (0x14, 32, 0xffffffff); (0x18, 32, 0xffe0); (0x1c, 32, 0xfffff000);
   (0x20, 32, 0); (0x24, 32, 0); (0x30, 32, 0xffff0001)].
Definition sample_slots : list slot :=
  [Bar (BarMem64 true) 64 24; Bar BarIO 16 5; Bar (BarMem false) 32 12; Unimplemented; Unimplemented].
Definition sample_regs (r : Z) : Z := if r =? 0x10 then 12 else if r =? 0x18 then 1 else 0.

Definition sample_tree : dstate :=
  mk_dstate {[ 1%nat := mk_device 0 (DEVICE_PATH_PCI 0x10) 0x8086 0x1234 0 true [] [] ]}
    {[ 0%nat := mk_bus 0 [1%nat] 0 0 ]} ∅ [1%nat] [] 10.
Definition sample_state (h : Z -> Z) : pci_state (Z -> Z) := mk_pci sample_tree (fun _ => 0) (fun _ => 0) h.

Lemma sample_ready h : addressed (b := 0) (d := 0x10) (sample_state h) 1 /\ res_wf (tree (sample_state h)) 1 /\
  forall i, not_fixed (tree (sample_state h)) 1 i.
Proof.
  split; [by split|]. split.
  - split; [apply NoDup_nil_2|]. by intros q Hq%elem_of_nil.
  - by intros i q Hq%elem_of_nil.
Qed.

#[local] Instance sample_config : ConfigRegs reg_read (reg_write sample_layout) 0 0x10 sample_layout :=
  register_file_regs sample_layout 0 0x10 eq_refl.

Lemma sample_slots_hardware : slots_hardware (config_read := reg_read) (b := 0) (d := 0x10) (regs := sample_layout)
  sample_regs PCI_BASE_ADDRESS_0 sample_slots.
Proof.
  repeat split; try (apply (bool_decide_unpack _); vm_compute; exact I); try (cbn; lia); try done.
Qed.

Lemma pci_dev_read_resources_witness :
  let s := sample_state sample_regs in
  let s' := pci_dev_read_resources reg_read (reg_write sample_layout) s 1 in
  exists q, q ∈ d_resource_list (get_dev (tree s') 1) /\
    get_res (tree s') q = mk_resource 0 (2 ^ 24) (2 ^ 64 - 1) 0x1201 0x10 24 24.
Proof.
  cbv zeta. destruct (sample_ready sample_regs) as (Ha & Hwf & Hf).
  destruct (pci_dev_read_resources_correct (sample_state sample_regs) 1 sample_slots 0xffff0001
    (mk_resource 0 (2 ^ 16) (2 ^ 32 - 1) 0x2200 0x30 16 16) Ha Hwf Hf eq_refl sample_slots_hardware)
    as [_ _ _ [_ _ Hl _ _]].
  - apply (bool_decide_unpack _). vm_compute. exact I.
  - right. exists 32, 16. repeat split; lia.
  - apply (Hl 0x10); [left|discriminate].
Defined.

Lemma pci_bar_roundtrip_witness :
  let s := sample_state sample_regs in
  exists p s1, pci_get_resource reg_read (reg_write sample_layout) s 1 0x10 = (p, s1) /\
    let s2 := pci_set_resource (reg_write sample_layout) (place p 0x38fd000000 s1) 1 p in
    bar_address (config_read := reg_read) (b := 0) (d := 0x10) (hw s2) 0x10 (BarMem64 true) = 0x38fd000000.
Proof.
  cbv zeta. destruct (sample_ready sample_regs) as (Ha & Hwf & Hf).
  destruct (pci_bar_roundtrip (sample_state sample_regs) 1 0x10 (BarMem64 true) 64 24 Ha Hwf (Hf _)
    (proj1 sample_slots_hardware)) as (p & s1 & E & Hr & _ & Hset).
  exists p, s1. split; [exact E|]. apply (Hset 0x38fd000000); [lia|by exists 0x38fd|]. rewrite Hr. cbn. lia.
Defined.

(** A bridge at 00:02.0 with 16-bit I/O, 32-bit memory and 64-bit prefetchable windows. *)
Definition bridge_layout : list (Z * Z * Z) :=
  [(0x10, 32, 0); (0x14, 32, 0); (0x38, 32, 0);
   (PCI_IO_BASE, 8, 0xf0); (PCI_IO_LIMIT, 8, 0xf0); (PCI_IO_BASE_UPPER16, 16, 0); (PCI_IO_LIMIT_UPPER16, 16, 0);
   (PCI_MEMORY_BASE, 16, 0xfff0); (PCI_MEMORY_LIMIT, 16, 0xfff0);
   (PCI_PREF_MEMORY_BASE, 16, 0xfff0); (PCI_PREF_MEMORY_LIMIT, 16, 0xfff0);
   (PCI_PREF_BASE_UPPER32, 32, 0xffffffff); (PCI_PREF_LIMIT_UPPER32, 32, 0xffffffff)].

#[local] Instance bridge_config : ConfigRegs reg_read (reg_write bridge_layout) 0 0x10 bridge_layout :=
  register_file_regs bridge_layout 0 0x10 eq_refl.

Lemma bridge_windows :
  window_hardware (regs := bridge_layout) BridgeIO [0xf0; 0] (Some (16, 12)) /\
  window_hardware (regs := bridge_layout) BridgeMem [0xfff0] (Some (32, 20)) /\
  window_hardware (regs := bridge_layout) BridgePref [0xfff0; 0xffffffff] (Some (64, 20)).
Proof.
  unfold window_hardware. split_and!; try (by intros ? ? [= <- <-]); try done; cbn [bridge_fields];
    repeat first [apply Forall2_nil_2 | apply Forall2_cons; split; [split|]];
    apply (bool_decide_unpack _); vm_compute; exact I.
Qed.

Lemma pci_bus_read_resources_witness :
  let s := sample_state (fun _ => 0) in
  let s' := pci_bus_read_resources reg_read (reg_write bridge_layout) s 1 in
  exists q, q ∈ d_resource_list (get_dev (tree s') 1) /\
    get_res (tree s') q = mk_resource 0 0 (2 ^ 64 - 1) 0x81202 0x24 20 20.
Proof.
  cbv zeta. destruct (sample_ready (fun _ => 0)) as (Ha & Hwf & Hf). destruct bridge_windows as (Hio & Hmem & Hpref).
  destruct (pci_bus_read_resources_correct (sample_state (fun _ => 0)) 1 0xf0 0 0xfff0 0xfff0 0xffffffff _ _ _
    [Unimplemented; Unimplemented] 0 (mk_resource 0 0 0 0 0x38 0 0) Ha Hwf Hf Hio Hpref Hmem eq_refl)
    as [_ _ _ [_ _ Hl _ _]].
  - repeat split; (done || (apply (bool_decide_unpack _); vm_compute; exact I)).
  - apply (bool_decide_unpack _). vm_compute. exact I.
  - by left.
  - apply (Hl 0x24); [right; left|discriminate].
Defined.

Definition window_tree (size : Z) : dstate :=
  set_res sample_tree 5 (window_placed 0xd0000000 size 0xfebfffff BridgeMem 20).

Lemma pci_bridge_window_witness :
  let s size := mk_pci (window_tree size) (fun _ => 0) (fun _ => 0) (fun _ => 0) in
  let s' size := pci_set_resource (reg_write bridge_layout) (s size) 1 5 in
  let fwd size := forwards (config_read := reg_read) (b := 0) (d := 0x10) (hw (s' size)) BridgeMem [0xfff0] 20 in
  (forall x, fwd 0x1234567 x <-> 0xd0000000 <= x <= 0xd12fffff) /\ (forall x, ~ fwd 0 x).
Proof.
  cbv zeta.
  assert (Hw : forall size, (size <> 0 -> size = 0x1234567) ->
    let s := mk_pci (window_tree size) (fun _ => 0) (fun _ => 0) (fun _ => 0) in
    let s' := pci_set_resource (reg_write bridge_layout) s 1 5 in
    forall x, forwards (config_read := reg_read) (b := 0) (d := 0x10) (hw s') BridgeMem [0xfff0] 20 x <->
      size <> 0 /\ 0xd0000000 <= x <= 0xd0000000 + ALIGN_UP 64 size (2 ^ 20) - 1).
  { intros size Hsize. refine (proj1 (pci_bridge_window_forwards
      (mk_pci (window_tree size) (fun _ => 0) (fun _ => 0) (fun _ => 0)) 1 5 BridgeMem [0xfff0] 32 20
      0xd0000000 size 0xfebfffff _ (proj1 (proj2 bridge_windows)) (set_res_same _ _ _) _ _)).
    - by split.
    - lia.
    - intros Hne. rewrite (Hsize Hne). split_and!; [lia|lia|lia|by exists 0xd00|vm_compute; discriminate]. }
  split.
  - intros x. rewrite (Hw 0x1234567 ltac:(done)). change (ALIGN_UP 64 0x1234567 (2 ^ 20)) with 0x1300000. lia.
  - intros x Hf. apply (Hw 0 ltac:(done)) in Hf. by destruct Hf.
Defined.
