(* ===== verification/PciScan.v ===== *)
(** * Scanning PCI buses
    ([src/device/pci_device.c]: probing, scanning, bus numbers, enabling, interrupt pins)

    As the board is configured: PCI-X, PCI Express and CardBus bridges, no
    HyperTransport.  The scan methods of other files are [do_pci_scan_bridge]
    around a bus scan with their own tuning, or do not scan for PCI devices;
    tuning, the hooks of chips and drivers and the drivers' table are parameters. *)

From S2P Require Import Prelude Device PciResource.

Definition PCI_VENDOR_ID : Z := 0x00.
Definition PCI_CLASS_REVISION : Z := 0x08.
Definition PCI_HEADER_TYPE : Z := 0x0e.
Definition PCI_PRIMARY_BUS : Z := 0x18.
Definition PCI_SUBSYSTEM_VENDOR_ID : Z := 0x2c.
Definition PCI_BRIDGE_CONTROL : Z := 0x3e.
Definition PCI_BRIDGE_CTL_PARITY : Z := 0x01.
Definition PCI_BRIDGE_CTL_SERR : Z := 0x02.
Definition PCI_BRIDGE_CTL_VGA : Z := 0x08.
Definition PCI_BRIDGE_CTL_BUS_RESET : Z := 0x40.
Definition PCI_CAP_ID_PCIX : Z := 0x07.
Definition PCI_CAP_ID_PCIE : Z := 0x10.
Definition PCI_EXP_FLAGS : Z := 2.
Definition PCI_EXP_FLAGS_TYPE : Z := 0xf0.
Definition PCI_EXP_TYPE_ROOT_PORT : Z := 0x4.
Definition PCI_EXP_TYPE_UPSTREAM : Z := 0x5.
Definition PCI_EXP_TYPE_DOWNSTREAM : Z := 0x6.
Definition PCI_CLASS_BRIDGE_PCI : Z := 0x0604.
Definition PCI_BASE_CLASS_SYSTEM : Z := 0x08.
Definition PCI_SLOT (devfn : Z) : Z := Z.land (Z.shiftr devfn 3) 0x1f.
Definition PCI_FUNC (devfn : Z) : Z := Z.land devfn 0x07.

(** The operation structures a PCI device can have. *)
Inductive device_ops :=
  | default_pci_ops_dev
  | default_pci_ops_bus
  | default_pciexp_ops_bus
  | default_pcix_ops_bus
  | default_cardbus_ops_bus
  | other_ops (i : nat).

(** [drv_devices] is an array that ends with 0, or NULL. *)
Record pci_driver := mk_driver
  { drv_ops : device_ops; drv_vendor : Z; drv_device : Z; drv_devices : option (list Z) }.

Inductive route_state := PCI_ROUTE_CLOSE | PCI_ROUTE_SCAN | PCI_ROUTE_FINAL.

Definition upd {A} (f : nat -> A) (k : nat) (v : A) (k' : nat) : A := if decide (k' = k) then v else f k'.

Definition with_ids (vendor dev class : Z) (d : device) : device :=
  mk_device (d_bus d) (d_path d) vendor dev class (d_enabled d) (d_resource_list d) (d_link_list d).
Definition with_enabled (e : bool) (d : device) : device :=
  mk_device (d_bus d) (d_path d) (d_vendor d) (d_device d) (d_class d) e (d_resource_list d) (d_link_list d).
Definition with_links (l : list nat) (d : device) : device :=
  mk_device (d_bus d) (d_path d) (d_vendor d) (d_device d) (d_class d) (d_enabled d) (d_resource_list d) l.
Definition with_children (l : list nat) (b : bus) : bus := mk_bus (b_dev b) l (b_link_num b) (b_secondary b).
Definition with_secondary (n : Z) (b : bus) : bus := mk_bus (b_dev b) (b_children b) (b_link_num b) n.

Section Scan.
Context {H : Type}.
Variable config_read : H -> Z -> Z -> Z -> Z -> Z.
Variable config_write : H -> Z -> Z -> Z -> Z -> Z -> H.

(** The tree with the hardware, and the fields of buses and devices that only
    the scan uses. *)
Record scan := mk_scan
  { pst : pci_state H;
    subordinate : nat -> Z; bridge_cmd : nat -> Z; bridge_ctrl : nat -> Z; reset_needed : nat -> bool;
    dev_ops : nat -> option device_ops; subsystem : nat -> Z * Z }.

Definition set_pst (p : pci_state H) (s : scan) : scan :=
  mk_scan p (subordinate s) (bridge_cmd s) (bridge_ctrl s) (reset_needed s) (dev_ops s) (subsystem s).
Definition set_subordinate (l : nat) (n : Z) (s : scan) : scan :=
  mk_scan (pst s) (upd (subordinate s) l n) (bridge_cmd s) (bridge_ctrl s) (reset_needed s) (dev_ops s) (subsystem s).
Definition set_bridge_cmd (l : nat) (c : Z) (s : scan) : scan :=
  mk_scan (pst s) (subordinate s) (upd (bridge_cmd s) l c) (bridge_ctrl s) (reset_needed s) (dev_ops s) (subsystem s).
Definition set_reset_needed (l : nat) (b : bool) (s : scan) : scan :=
  mk_scan (pst s) (subordinate s) (bridge_cmd s) (bridge_ctrl s) (upd (reset_needed s) l b) (dev_ops s) (subsystem s).
Definition set_ops (dev : nat) (o : device_ops) (s : scan) : scan :=
  mk_scan (pst s) (subordinate s) (bridge_cmd s) (bridge_ctrl s) (reset_needed s) (upd (dev_ops s) dev (Some o)) (subsystem s).
Definition set_subsystem_ids (dev : nat) (v : Z * Z) (s : scan) : scan :=
  mk_scan (pst s) (subordinate s) (bridge_cmd s) (bridge_ctrl s) (reset_needed s) (dev_ops s) (upd (subsystem s) dev v).
Definition stree (s : scan) : dstate := tree (pst s).
Definition set_stree (t : dstate) (s : scan) : scan := set_pst (set_tree t (pst s)) s.
Definition set_hdr_type (dev : nat) (v : Z) (s : scan) : scan :=
  set_pst (mk_pci (tree (pst s)) (command (pst s)) (upd (hdr_type (pst s)) dev v) (hw (pst s))) s.
Definition read_config (w : Z) (s : scan) (dev : nat) (reg : Z) : Z := pci_read_config config_read w (pst s) dev reg.
Definition write_config (w : Z) (s : scan) (dev : nat) (reg v : Z) : scan :=
  set_pst (pci_write_config config_write w (pst s) dev reg v) s.

(** What other files provide: the chip's [enable_dev] and the driver's [enable] of a
    device, the table of drivers, the scan and reset methods of bus operations. *)
Variable enable_dev : nat -> scan -> scan.
Variable ops_enable : device_ops -> nat -> scan -> scan.
Variable pci_drivers : list pci_driver.
Inductive scan_method :=
  | NoScan
  | BridgeScan (tune_bus after : nat -> scan -> scan)
  | OtherScan (f : nat -> scan -> scan).
Variable scan_of : device_ops -> scan_method.
Variable reset_of : device_ops -> option (nat -> scan -> scan).

(** ** Operations of a device *)

Fixpoint in_id_list (l : list Z) (device_id : Z) : bool :=
  match l with
  | [] => false
  | check_id :: l' =>
      if check_id =? 0 then false else if check_id =? device_id then true else in_id_list l' device_id
  end.

Definition device_id_match (driver : pci_driver) (device_id : Z) : bool :=
  match drv_devices driver with Some l => in_id_list l device_id | None => false end
  || (drv_device driver =? device_id).

Definition get_pci_bridge_ops (s : scan) (dev : nat) : device_ops :=
  let pcixpos := pci_find_capability config_read (pst s) dev PCI_CAP_ID_PCIX in
  if negb (pcixpos =? 0) then default_pcix_ops_bus
  else
    let pciexpos := pci_find_capability config_read (pst s) dev PCI_CAP_ID_PCIE in
    if negb (pciexpos =? 0) then
      let flags := read_config 16 s dev (pciexpos + PCI_EXP_FLAGS) in
      let type := Z.shiftr (Z.land flags PCI_EXP_FLAGS_TYPE) 4 in
      if (type =? PCI_EXP_TYPE_ROOT_PORT) || (type =? PCI_EXP_TYPE_UPSTREAM) || (type =? PCI_EXP_TYPE_DOWNSTREAM)
      then default_pciexp_ops_bus
      else default_pci_ops_bus
    else default_pci_ops_bus.

Definition set_pci_ops (s : scan) (dev : nat) : scan :=
  match dev_ops s dev with
  | Some _ => s
  | None =>
      let d := get_dev (stree s) dev in
      match List.find (fun driver => (drv_vendor driver =? d_vendor d) && device_id_match driver (d_device d))
              pci_drivers with
      | Some driver => set_ops dev (drv_ops driver) s
      | None =>
          let type := Z.land (hdr_type (pst s) dev) 0x7f in
          let bridge := Z.shiftr (d_class d) 8 =? PCI_CLASS_BRIDGE_PCI in
          if type =? PCI_HEADER_TYPE_NORMAL then
            if bridge then s else set_ops dev default_pci_ops_dev s
          else if type =? PCI_HEADER_TYPE_BRIDGE then
            if bridge then set_ops dev (get_pci_bridge_ops s dev) s else s
          else if type =? PCI_HEADER_TYPE_CARDBUS then set_ops dev default_cardbus_ops_bus s
          else s
      end
  end.

(** ** Probing *)

(** The loop of [pci_scan_get_dev]: the first PCI device of the list with that
    devfn, and the list without it. *)
Fixpoint unlink (t : dstate) (l : list nat) (devfn : Z) : option nat * list nat :=
  match l with
  | [] => (None, [])
  | c :: l' =>
      let next := let '(r, l'') := unlink t l' devfn in (r, c :: l'') in
      match d_path (get_dev t c) with
      | DEVICE_PATH_PCI f => if f =? devfn then (Some c, l') else next
      | _ => next
      end
  end.

Definition pci_scan_get_dev (s : scan) (l : list nat) (devfn : Z) : option nat * list nat * scan :=
  let '(dev, l) := unlink (stree s) l devfn in
  match dev with
  | None => (None, l, s)
  | Some dev =>
      let t := stree s in
      let p := d_bus (get_dev t dev) in
      (Some dev, l, set_stree (set_bus t p (with_children (b_children (get_bus t p) ++ [dev]) (get_bus t p))) s)
  end.

Definition absent (id : Z) : bool :=
  (id =? 0xffffffff) || (id =? 0x00000000) || (id =? 0x0000ffff) || (id =? 0xffff0000).

(** [alloc_dev] with a zeroed structure. *)
Definition new_dev (s : scan) (bus : nat) (devfn : Z) : nat * scan :=
  let '(p, t) := alloc_dev (stree s) bus (DEVICE_PATH_PCI devfn) in
  (p, mk_scan (mk_pci t (upd (command (pst s)) p 0) (upd (hdr_type (pst s)) p 0) (hw (pst s)))
        (subordinate s) (bridge_cmd s) (bridge_ctrl s) (reset_needed s)
        (upd (dev_ops s) p None) (upd (subsystem s) p (0, 0))).

(** The second half of [pci_probe_dev], for a device that answered. *)
Definition setup_dev (s : scan) (dev : nat) (id : Z) : scan :=
  let hdr := read_config 8 s dev PCI_HEADER_TYPE in
  let class := Z.shiftr (read_config 32 s dev PCI_CLASS_REVISION) 8 in
  let s := set_hdr_type dev hdr s in
  let s := set_stree (set_dev (stree s) dev
             (with_ids (Z.land id 0xffff) (Z.land (Z.shiftr id 16) 0xffff) class (get_dev (stree s) dev))) s in
  let s := if Z.shiftr class 16 =? PCI_BASE_CLASS_SYSTEM
           then set_pst (set_command dev (Z.lor (command (pst s) dev) PCI_COMMAND_MASTER) (pst s)) s else s in
  let s := set_pci_ops s dev in
  match dev_ops s dev with Some o => ops_enable o dev s | None => s end.

Definition pci_probe_dev (s : scan) (dev : option nat) (bus : nat) (devfn : Z) : option nat * scan :=
  match dev with
  | None =>
      let id := config_read (hw (pst s)) (b_secondary (get_bus (stree s) bus)) devfn PCI_VENDOR_ID 32 in
      if absent id then (None, s)
      else let '(dev, s) := new_dev s bus devfn in (Some dev, setup_dev s dev id)
  | Some dev =>
      let s := enable_dev dev s in
      let id := read_config 32 s dev PCI_VENDOR_ID in
      if absent id then
        (Some dev, set_stree (set_dev (stree s) dev (with_enabled false (get_dev (stree s) dev))) s)
      else (Some dev, setup_dev s dev id)
  end.

(** ** Scanning *)

(** Function 0 of a slot that is empty, or has one function, ends the slot. *)
Definition skips (s : scan) (dev : option nat) (devfn : Z) : bool :=
  (PCI_FUNC devfn =? 0) &&
  match dev with
  | None => true
  | Some dev => d_enabled (get_dev (stree s) dev) && negb (Z.land (hdr_type (pst s) dev) 0x80 =? 0x80)
  end.

Fixpoint probe_loop (fuel : nat) (s : scan) (bus : nat) (old : list nat) (devfn max_devfn : Z) : scan :=
  match fuel with
  | O => s
  | S fuel' =>
      if devfn <=? max_devfn then
        let '(dev, old, s) := pci_scan_get_dev s old devfn in
        let '(dev, s) := pci_probe_dev s dev bus devfn in
        probe_loop fuel' s bus old ((if skips s dev devfn then devfn + 7 else devfn) + 1) max_devfn
      else s
  end.

(** [pci_scan_bus] up to [scan_bridges]: 256 rounds are enough. *)
Definition probe_bus (s : scan) (bus : nat) (min_devfn max_devfn : Z) : scan :=
  let max_devfn := if 0xff <? max_devfn then 0xff else max_devfn in
  let b := get_bus (stree s) bus in
  probe_loop 256 (set_stree (set_bus (stree s) bus (with_children [] b)) s) bus (b_children b) min_devfn max_devfn.

Definition pci_bridge_route (link : nat) (state : route_state) (s : scan) : scan :=
  let t := stree s in
  let dev := b_dev (get_bus t link) in
  let parent := d_bus (get_dev t dev) in
  let s :=
    match state with
    | PCI_ROUTE_SCAN =>
        let n := u16 (subordinate s parent + 1) in
        set_subordinate link n (set_stree (set_bus t link (with_secondary n (get_bus t link))) s)
    | _ => s
    end in
  let primary := Z.land (b_secondary (get_bus (stree s) parent)) 0xff in
  let secondary := Z.shiftl (Z.land (b_secondary (get_bus (stree s) link)) 0xff) 8 in
  let buses :=
    match state with
    | PCI_ROUTE_CLOSE => Z.shiftl 0xfeff 8
    | PCI_ROUTE_SCAN => Z.lor primary (Z.lor secondary (Z.shiftl 0xff 16))
    | PCI_ROUTE_FINAL => Z.lor primary (Z.lor secondary (Z.shiftl (Z.land (subordinate s link) 0xff) 16))
    end in
  let s :=
    match state with
    | PCI_ROUTE_SCAN =>
        let s := set_bridge_cmd link (read_config 16 s dev PCI_COMMAND) s in
        let s := write_config 16 s dev PCI_COMMAND 0 in
        write_config 16 s dev PCI_STATUS 0xffff
    | _ => s
    end in
  let reg := read_config 32 s dev PCI_PRIMARY_BUS in
  let s := write_config 32 s dev PCI_PRIMARY_BUS (Z.lor (Z.land reg 0xff000000) buses) in
  match state with
  | PCI_ROUTE_FINAL =>
      set_subordinate parent (subordinate s link) (write_config 16 s dev PCI_COMMAND (bridge_cmd s link))
  | _ => s
  end.

(** The link of a bridge, allocated and zeroed when it has none. *)
Definition bridge_link (s : scan) (dev : nat) : nat * scan :=
  let t := stree s in
  match d_link_list (get_dev t dev) with
  | link :: _ => (link, s)
  | [] =>
      let link := heap_next t in
      let t := set_free t (free_resources t) (S link) in
      let t := set_bus t link (mk_bus dev [] 0 0) in
      let t := set_dev t dev (with_links [link] (get_dev t dev)) in
      (link, mk_scan (set_tree t (pst s)) (upd (subordinate s) link 0) (upd (bridge_cmd s) link 0)
               (upd (bridge_ctrl s) link 0) (upd (reset_needed s) link false) (dev_ops s) (subsystem s))
  end.

Definition do_pci_scan_bridge (do_scan_bus : nat -> Z -> Z -> scan -> option scan) (s : scan) (dev : nat) : option scan :=
  let '(bus, s) := bridge_link s dev in
  let s := pci_bridge_route bus PCI_ROUTE_SCAN s in
  match do_scan_bus bus 0x00 0xff s with
  | None => None
  | Some s => Some (pci_bridge_route bus PCI_ROUTE_FINAL s)
  end.

Definition pci_bus_reset (bus : nat) (s : scan) : scan :=
  let dev := b_dev (get_bus (stree s) bus) in
  let ctl := Z.lor (read_config 16 s dev PCI_BRIDGE_CONTROL) PCI_BRIDGE_CTL_BUS_RESET in
  let s := write_config 16 s dev PCI_BRIDGE_CONTROL ctl in
  write_config 16 s dev PCI_BRIDGE_CONTROL (Z.land ctl (bnot 16 PCI_BRIDGE_CTL_BUS_RESET)).

(** [ops->scan_bus] and [ops->reset_bus]. *)
Definition ops_scan_bus (o : device_ops) : scan_method :=
  match o with
  | default_pci_ops_dev => NoScan
  | default_pci_ops_bus => BridgeScan (fun _ s => s) (fun _ s => s)
  | _ => scan_of o
  end.
Definition ops_reset_bus (o : device_ops) : option (nat -> scan -> scan) :=
  match o with
  | default_pci_ops_dev => None
  | default_pci_ops_bus => Some pci_bus_reset
  | _ => reset_of o
  end.

Definition reset_bus (bus : nat) (s : scan) : bool * scan :=
  match dev_ops s (b_dev (get_bus (stree s) bus)) with
  | Some o =>
      match ops_reset_bus o with
      | Some f => (true, set_reset_needed bus false (f bus s))
      | None => (false, s)
      end
  | None => (false, s)
  end.

(** The loop of [scan_bus] over the links; whether to scan again. *)
Definition reset_links (dev : nat) (s : scan) : bool * scan :=
  fold_left (fun '(again, s) link =>
    if reset_needed s link then
      let '(ok, s) := reset_bus link s in
      if ok then (true, s) else (again, set_reset_needed (d_bus (get_dev (stree s) dev)) true s)
    else (again, s)) (d_link_list (get_dev (stree s) dev)) (false, s).

Fixpoint scan_again (rounds : nat) (f : scan -> option scan) (dev : nat) (s : scan) : option scan :=
  match rounds with
  | O => None
  | S rounds' =>
      match f s with
      | None => None
      | Some s => let '(again, s) := reset_links dev s in if again then scan_again rounds' f dev s else Some s
      end
  end.

Definition scan_bus (rounds : nat) (f : scan -> option scan) (dev : nat) (s : scan) : option scan :=
  if d_enabled (get_dev (stree s) dev) then scan_again rounds f dev s else Some s.

Definition scan_bridges (scan_dev : nat -> scan -> option scan) (s : scan) (bus : nat) : option scan :=
  fold_left (fun acc child => match acc with None => None | Some s => scan_dev child s end)
    (b_children (get_bus (stree s) bus)) (Some s).

(** [scan_bus] of a child that has the method; [psb] is the scan of a bus. *)
Definition scan_child (rounds : nat) (psb : nat -> Z -> Z -> scan -> option scan) (dev : nat) (s : scan) : option scan :=
  match dev_ops s dev with
  | None => Some s
  | Some o =>
      match ops_scan_bus o with
      | NoScan => Some s
      | OtherScan f => scan_bus rounds (fun s => Some (f dev s)) dev s
      | BridgeScan tune_bus after =>
          scan_bus rounds (fun s => option_map (after dev) (do_pci_scan_bridge
            (fun bus min_devfn max_devfn s => option_map (tune_bus bus) (psb bus min_devfn max_devfn s)) s dev)) dev s
      end
  end.

(** [depth] bounds the nesting of bridges, [rounds] the scans of one bus. *)
Fixpoint pci_scan_bus (rounds depth : nat) (bus : nat) (min_devfn max_devfn : Z) (s : scan) : option scan :=
  match depth with
  | O => None
  | S depth' =>
      scan_bridges (scan_child rounds (pci_scan_bus rounds depth')) (probe_bus s bus min_devfn max_devfn) bus
  end.

Definition pci_scan_bridge (rounds depth : nat) (s : scan) (dev : nat) : option scan :=
  do_pci_scan_bridge (pci_scan_bus rounds depth) s dev.

Definition pci_domain_scan_bus (rounds depth : nat) (s : scan) (dev : nat) : option scan :=
  pci_scan_bus rounds depth (hd 0%nat (d_link_list (get_dev (stree s) dev))) 0 0xff s.

(** [sdev] is [bus << 20 | devfn << 12]. *)
Definition pci_match_simple_dev (s : scan) (dev : nat) (sdev : Z) : bool :=
  (b_secondary (get_bus (stree s) (d_bus (get_dev (stree s) dev))) =? Z.land (Z.shiftr sdev 20) 0xfff)
  && (dev_devfn (stree s) dev =? Z.land (Z.shiftr sdev 12) 0xff).

(** ** Enabling *)

Variable on_mainboard : nat -> bool.
Variable set_subsystem_of : device_ops -> option (nat -> Z -> Z -> scan -> scan).
Variable CONFIG_SUBSYSTEM_VENDOR_ID CONFIG_SUBSYSTEM_DEVICE_ID : Z.

Definition pci_dev_set_subsystem (dev : nat) (vendor device : Z) (s : scan) : scan :=
  write_config 32 s dev PCI_SUBSYSTEM_VENDOR_ID
    (Z.lor (Z.shiftl (Z.land device 0xffff) 16) (Z.land vendor 0xffff)).

(** [ops_pci(dev)->set_subsystem] *)
Definition ops_set_subsystem (o : device_ops) : option (nat -> Z -> Z -> scan -> scan) :=
  match o with
  | default_pci_ops_dev => Some pci_dev_set_subsystem
  | default_pci_ops_bus => None
  | _ => set_subsystem_of o
  end.

Definition pci_dev_enable_resources (s : scan) (dev : nat) : scan :=
  let s :=
    match dev_ops s dev with
    | Some o =>
        match ops_set_subsystem o with
        | Some f =>
            if on_mainboard dev then
              let '(v, d) := subsystem s dev in
              let v := if CONFIG_SUBSYSTEM_VENDOR_ID =? 0 then v else CONFIG_SUBSYSTEM_VENDOR_ID in
              let d := if CONFIG_SUBSYSTEM_DEVICE_ID =? 0 then d else CONFIG_SUBSYSTEM_DEVICE_ID in
              f dev v d (set_subsystem_ids dev (v, d) s)
            else s
        | None => s
        end
    | None => s
    end in
  let c := Z.lor (read_config 16 s dev PCI_COMMAND) (command (pst s) dev) in
  write_config 16 s dev PCI_COMMAND c.

(** The bridge has a link: it was scanned. *)
Definition pci_bus_enable_resources (s : scan) (dev : nat) : scan :=
  let link := hd 0%nat (d_link_list (get_dev (stree s) dev)) in
  let s := if has (bridge_ctrl s link) PCI_BRIDGE_CTL_VGA
           then set_pst (set_command dev (Z.lor (command (pst s) dev) PCI_COMMAND_IO) (pst s)) s else s in
  let ctrl := Z.lor (read_config 16 s dev PCI_BRIDGE_CONTROL) (bridge_ctrl s link) in
  let ctrl := Z.lor ctrl (PCI_BRIDGE_CTL_PARITY + PCI_BRIDGE_CTL_SERR) in
  pci_dev_enable_resources (write_config 16 s dev PCI_BRIDGE_CONTROL ctrl) dev.

(** ** Interrupt pins *)

(** [fuel] bounds the bridges up to bus 0. *)
Fixpoint swizzle_loop (fuel : nat) (t : dstate) (child : nat) (swizzled_pin : Z) : option (Z * nat) :=
  match fuel with
  | O => None
  | S fuel' =>
      let parent := b_dev (get_bus t (d_bus (get_dev t child))) in
      let pin := (PCI_SLOT (dev_devfn t child) + swizzled_pin) mod 4 in
      if 0 <? u8 (dev_secondary t parent) then swizzle_loop fuel' t parent pin else Some (pin, parent)
  end.

Definition swizzle_irq_pins (fuel : nat) (s : scan) (dev : nat) : option (Z * nat) :=
  match swizzle_loop fuel (stree s) dev (u8 (read_config 8 s dev PCI_INTERRUPT_PIN - 1)) with
  | Some (pin, parent) => Some (pin + 1, parent)
  | None => None
  end.

(** The pin and the bridge, or an error. *)
Definition get_pci_irq_pins (fuel : nat) (s : scan) (dev : nat) : option (Z + Z * nat) :=
  let d := get_dev (stree s) dev in
  let is_pci := match d_path d with DEVICE_PATH_PCI _ => true | _ => false end in
  if negb (d_enabled d && is_pci) then Some (inl (-1))
  else
    let int_pin := read_config 8 s dev PCI_INTERRUPT_PIN in
    if (int_pin <? 1) || (4 <? int_pin) then Some (inl (-1))
    else if u8 (dev_secondary (stree s) dev) =? 0 then Some (inr (int_pin, dev))
    else option_map inr (swizzle_irq_pins fuel s dev).

Variable i8259_level_triggered : Z -> H -> H.

(** [pIntAtoD] has four entries. *)
Definition pci_assign_irqs (s : scan) (bus slot : Z) (pIntAtoD : list Z) : scan :=
  fold_left (fun s funct =>
    match dev_find_slot (stree s) bus (Z.shiftl slot 3 + funct) with
    | None => s
    | Some pdev =>
        let line := read_config 8 s pdev PCI_INTERRUPT_PIN in
        if (line <? 1) || (4 <? line) then s
        else
          let irq := nth (Z.to_nat (line - 1)) pIntAtoD 0 in
          let s := write_config 8 s pdev PCI_INTERRUPT_LINE irq in
          set_pst (set_hw (i8259_level_triggered irq (hw (pst s))) (pst s)) s
    end) [0; 1; 2; 3; 4; 5; 6; 7] s.
End Scan.

Arguments scan : clear implicits.
Arguments scan_method : clear implicits.

(** ** Interrupt pins of devices behind bridges *)

Section Pins.
Context {H : Type} (config_read : H -> Z -> Z -> Z -> Z -> Z).

(** [path] goes from a device up: each entry is the bridge of the bus the one before
    is on; only the last is on bus 0. *)
Fixpoint bridge_path (t : dstate) (dev : nat) (path : list nat) : Prop :=
  match path with
  | [] => False
  | [top] => b_dev (get_bus t (d_bus (get_dev t dev))) = top /\ u8 (dev_secondary t top) = 0
  | bridge :: path' =>
      b_dev (get_bus t (d_bus (get_dev t dev))) = bridge /\ 0 < u8 (dev_secondary t bridge) /\ bridge_path t bridge path'
  end.

Definition slots (t : dstate) (path : list nat) : Z := foldr (fun dev n => PCI_SLOT (dev_devfn t dev) + n) 0 path.

Lemma swizzle_loop_spec t path : forall fuel dev pin, bridge_path t dev path -> (length path <= fuel)%nat ->
  swizzle_loop fuel t dev pin = Some ((slots t (dev :: removelast path) + pin) mod 4, List.last path 0%nat).
Proof.
  induction path as [|bridge path IH]; intros fuel dev pin Hp Hf; [done|].
  destruct fuel as [|fuel]; cbn in Hf; [lia|]. cbn [swizzle_loop]. destruct path as [|bridge' path].
  - destruct Hp as [-> ->]. cbn. by rewrite Z.add_0_r.
  - destruct Hp as (-> & Hpos & Hp). rewrite (proj2 (Z.ltb_lt _ _)) by done.
    rewrite (IH fuel bridge _ Hp) by (cbn in *; lia).
    change (removelast (bridge :: bridge' :: path)) with (bridge :: removelast (bridge' :: path)).
    change (List.last (bridge :: bridge' :: path) 0%nat) with (List.last (bridge' :: path) 0%nat).
    do 2 f_equal. unfold slots. cbn [foldr]. rewrite Zplus_mod_idemp_r. f_equal. lia.
Qed.

(** The interrupt pin of a device: an error for one that is disabled, no PCI device
    or without a pin; its own pin on bus 0; behind bridges, the pin turned by the slots
    of the device and of the bridges on the way, at the bridge on bus 0. *)
Theorem get_pci_irq_pins_correct fuel (s : scan H) dev path :
  let t := stree s in
  let pin := read_config config_read 8 s dev PCI_INTERRUPT_PIN in
  let usable := d_enabled (get_dev t dev) && match d_path (get_dev t dev) with DEVICE_PATH_PCI _ => true | _ => false end
                && (1 <=? pin) && (pin <=? 4) in
  (u8 (dev_secondary t dev) <> 0 -> bridge_path t dev path) -> (length path <= fuel)%nat ->
  get_pci_irq_pins config_read fuel s dev = Some (
    if negb usable then inl (-1)
    else if u8 (dev_secondary t dev) =? 0 then inr (pin, dev)
    else inr ((slots t (dev :: removelast path) + (pin - 1)) mod 4 + 1, List.last path 0%nat)).
Proof.
  intros t pin usable Hpath Hfuel. unfold get_pci_irq_pins, usable. fold t pin.
  destruct (d_enabled _ && _); [|done]. cbn [negb andb].
  destruct (pin <? 1) eqn:E1; bool_to_prop; [by rewrite (proj2 (Z.leb_gt 1 pin)) by lia|].
  destruct (4 <? pin) eqn:E4; bool_to_prop; [by rewrite (proj2 (Z.leb_gt pin 4)), andb_false_r by lia|].
  rewrite (proj2 (Z.leb_le 1 pin)), (proj2 (Z.leb_le pin 4)) by lia. cbn [orb andb negb].
  destruct (u8 (dev_secondary t dev) =? 0) eqn:E; bool_to_prop; [done|].
  unfold swizzle_irq_pins. fold t pin. rewrite (swizzle_loop_spec t path) by auto.
  unfold u8. by rewrite wrap_small by lia.
Qed.
End Pins.

(** A device with pin A in slot 3 behind a bridge in slot 2 behind one in slot 1. *)
Definition pins_state : scan unit :=
  let dev b slot := mk_device b (DEVICE_PATH_PCI (Z.shiftl slot 3)) 0 0 0 true [] [] in
  mk_scan (mk_pci (mk_dstate
      {[ 1%nat := dev 10%nat 1; 2%nat := dev 11%nat 2; 3%nat := dev 12%nat 3 ]}
      {[ 10%nat := mk_bus 0 [1%nat] 0 0; 11%nat := mk_bus 1 [2%nat] 0 1; 12%nat := mk_bus 2 [3%nat] 0 2 ]} ∅ [] [] 20)
      (fun _ => 0) (fun _ => 0) tt)
    (fun _ => 0) (fun _ => 0) (fun _ => 0) (fun _ => false) (fun _ => None) (fun _ => (0, 0)).

Lemma get_pci_irq_pins_witness :
  get_pci_irq_pins (fun _ _ _ _ _ => 1) 2 pins_state 3 = Some (inr (2, 1%nat)).
Proof.
  rewrite (get_pci_irq_pins_correct (fun _ _ _ _ _ => 1) 2 pins_state 3 [2%nat; 1%nat]).
  - reflexivity.
  - intros _. by vm_compute.
  - cbn. lia.
Defined.
