(* ===== verification/PciTopology.v ===== *)
(** * The buses a PCI scan finds

    A model of PCI hardware (functions, bridges with bus number registers, routing
    of configuration accesses) and the theorem that [pci_scan_bus] on it finds
    exactly the functions that are there. *)

From S2P Require Import Prelude Device PciResource PciScan.

(** ** The hardware

    A function is named by the path of devfns from the root bus to it, a bus by
    the path of its bridge.  Only the bus number and command registers change. *)
Record pci_function := mk_function
  { pf_id : Z; pf_header : Z; pf_class : Z; pf_other : Z -> Z -> Z }.

Record pci_hw := mk_hw { bus_reg : list Z -> Z; cmd_reg : list Z -> Z }.

Definition is_bridge (f : pci_function) : bool := Z.land (pf_header f) 0x7f =? PCI_HEADER_TYPE_BRIDGE.
Definition reg_secondary (v : Z) : Z := Z.land (Z.shiftr v 8) 0xff.
Definition reg_subordinate (v : Z) : Z := Z.land (Z.shiftr v 16) 0xff.

Definition reg_primary (v : Z) : Z := Z.land v 0xff.

Definition setp {A} (f : list Z -> A) (k : list Z) (v : A) (k' : list Z) : A :=
  if decide (k' = k) then v else f k'.

(** The three numbers of a bus number register come back. *)
Definition bus_numbers (reg a b e : Z) : Z :=
  Z.lor (Z.land reg 0xff000000) (Z.lor a (Z.lor (Z.shiftl b 8) (Z.shiftl e 16))).

Lemma bits_below x k i : 0 <= x < 2 ^ k -> k <= i -> Z.testbit x i = false.
Proof.
  intros Hx Hi. destruct (Z.lt_ge_cases k 0); [rewrite Z.pow_neg_r in Hx by lia; lia|].
  rewrite <- (Z.mod_small x (2 ^ k)) by lia. apply Z.mod_pow2_bits_high. lia.
Qed.

Lemma land_byte x : 0 <= x < 256 -> Z.land x 0xff = x.
Proof. intros Hx. change 0xff with (2 ^ 8 - 1). rewrite land_low_mask by lia. by apply Z.mod_small. Qed.

Lemma mask_high_bit i : 0 <= i < 24 -> Z.testbit 0xff000000 i = false.
Proof. intros Hi. change 0xff000000 with (Z.shiftl 255 24). apply Z.shiftl_spec_low. lia. Qed.

Lemma bus_numbers_field reg a b e : 0 <= a < 256 -> 0 <= b < 256 -> 0 <= e < 256 ->
  let v := wrap 32 (bus_numbers reg a b e) in
  reg_primary v = a /\ reg_secondary v = b /\ reg_subordinate v = e.
Proof.
  intros Ha Hb He v.
  assert (Hv : forall i, 0 <= i < 24 -> Z.testbit v i =
    Z.testbit a i || (Z.testbit b (i - 8) || Z.testbit e (i - 16))).
  { intros i Hi. unfold v, wrap, bus_numbers. rewrite Z.mod_pow2_bits_low, !Z.lor_spec, Z.land_spec, mask_high_bit by lia.
    by rewrite !Z.shiftl_spec, andb_false_r by lia. }
  assert (Hf : forall x y k, 0 <= k <= 16 -> 0 <= y < 256 -> (forall i, 0 <= i < 8 -> Z.testbit x (i + k) = Z.testbit y i) ->
    Z.land (Z.shiftr x k) 0xff = y).
  { intros x y k Hk Hy Hx. apply Z.bits_inj'. intros i Hi. change 0xff with (Z.ones 8).
    rewrite Z.land_spec, Z.shiftr_spec, Z.testbit_ones_nonneg by lia. destruct (Z.ltb_spec i 8).
    - rewrite andb_true_r. auto.
    - rewrite andb_false_r. symmetry. apply (bits_below y 8); lia. }
  unfold reg_primary, reg_secondary, reg_subordinate. split_and!.
  - rewrite <- (Z.shiftr_0_r v). apply Hf; [lia|done|]. intros i Hi. rewrite Z.add_0_r, Hv by lia.
    rewrite !(Z.testbit_neg_r _ (i - _)) by lia. by rewrite !orb_false_r.
  - apply Hf; [lia|done|]. intros i Hi. rewrite Hv by lia. replace (i + 8 - 8) with i by lia.
    rewrite (Z.testbit_neg_r e) by lia. rewrite (bits_below a 8) by lia. by rewrite orb_false_r.
  - apply Hf; [lia|done|]. intros i Hi. rewrite Hv by lia. replace (i + 16 - 16) with i by lia.
    rewrite (bits_below a 8), (bits_below b 8) by lia. done.
Qed.

Section Hardware.
Variable topo : list Z -> option pci_function.
Variable max_depth : nat.

(** The bridge at [q] forwards accesses to bus [n]. *)
Definition claims (h : pci_hw) (q : list Z) (n : Z) : bool :=
  match topo q with
  | Some f => is_bridge f && (reg_secondary (bus_reg h q) <=? n) && (n <=? reg_subordinate (bus_reg h q))
  | None => false
  end.

Definition devfns : list Z := seqZ 0 256.

(** From the bus [p] with number [c]: the bus an access to number [n] reaches. *)
Fixpoint route (fuel : nat) (h : pci_hw) (p : list Z) (c n : Z) : option (list Z) :=
  match fuel with
  | O => None
  | S fuel' =>
      if n =? c then Some p
      else match List.find (fun d => claims h (p ++ [d]) n) devfns with
           | Some d => route fuel' h (p ++ [d]) (reg_secondary (bus_reg h (p ++ [d]))) n
           | None => None
           end
  end.

Definition function_read (h : pci_hw) (q : list Z) (f : pci_function) (r w : Z) : Z :=
  if (r =? PCI_PRIMARY_BUS) && (w =? 32) && is_bridge f then bus_reg h q
  else if (r =? PCI_COMMAND) && (w =? 16) then cmd_reg h q
  else if (r =? PCI_VENDOR_ID) && (w =? 32) then pf_id f
  else if (r =? PCI_HEADER_TYPE) && (w =? 8) then pf_header f
  else if (r =? PCI_CLASS_REVISION) && (w =? 32) then pf_class f
  else pf_other f r w.

Definition function_write (h : pci_hw) (q : list Z) (f : pci_function) (r w v : Z) : pci_hw :=
  if (r =? PCI_PRIMARY_BUS) && (w =? 32) && is_bridge f then mk_hw (setp (bus_reg h) q v) (cmd_reg h)
  else if (r =? PCI_COMMAND) && (w =? 16) then mk_hw (bus_reg h) (setp (cmd_reg h) q v)
  else h.

(** The function that answers at bus [n], device and function [d]. *)
Definition target (h : pci_hw) (n d : Z) : option (list Z * pci_function) :=
  match route max_depth h [] 0 n with
  | Some p => match topo (p ++ [d]) with Some f => Some (p ++ [d], f) | None => None end
  | None => None
  end.

Definition cfg_read (h : pci_hw) (n d r w : Z) : Z :=
  match target h n d with Some (q, f) => function_read h q f r w | None => 2 ^ w - 1 end.
Definition cfg_write (h : pci_hw) (n d r w v : Z) : pci_hw :=
  match target h n d with Some (q, f) => function_write h q f r w v | None => h end.

(** ** Routing while a bus is scanned

    The bridges above bus [p], which has number [c], are open from their own
    number on, and no other bridge beside them claims a number from there on. *)
Inductive leads (h : pci_hw) : list Z -> Z -> Prop :=
  | leads_root : leads h [] 0
  | leads_step p c d c' :
      leads h p c -> c < c' -> 0 <= d < 256 ->
      (forall n, c' <= n <= 255 -> claims h (p ++ [d]) n = true) ->
      reg_secondary (bus_reg h (p ++ [d])) = c' ->
      (forall d' n, 0 <= d' < 256 -> d' <> d -> c' <= n <= 255 -> claims h (p ++ [d']) n = false) ->
      leads h (p ++ [d]) c'.

Lemma elem_of_devfns d : d ∈ devfns <-> 0 <= d < 256.
Proof.
  unfold devfns. rewrite elem_of_seqZ. lia.
Qed.

Lemma find_unique {A} `{EqDecision A} (f : A -> bool) (l : list A) x :
  x ∈ l -> f x = true -> (forall y, y ∈ l -> y <> x -> f y = false) -> List.find f l = Some x.
Proof.
  intros Hx Hf Hu. destruct (List.find f l) as [y|] eqn:E.
  - apply find_some in E as [Hy E]. apply list_elem_of_In in Hy. destruct (decide (y = x)) as [-> |Hn]; [done|].
    rewrite Hu in E; done.
  - apply list_elem_of_In in Hx. by rewrite (find_none _ _ E _ Hx) in Hf.
Qed.

Lemma leads_route h p c n fuel : leads h p c -> c <= n <= 255 ->
  route (length p + fuel) h [] 0 n = route fuel h p c n.
Proof.
  intros Hl. revert n fuel. induction Hl as [|p c d c' Hl IH Hc Hd Hclaim Hsec Hother]; intros n fuel Hn; [done|].
  rewrite length_app. cbn [length]. replace (length p + 1 + fuel)%nat with (length p + S fuel)%nat by lia.
  rewrite IH by lia. cbn [route]. rewrite (proj2 (Z.eqb_neq n c)) by lia.
  rewrite (find_unique _ _ d); [by rewrite Hsec|by apply elem_of_devfns|by apply Hclaim|].
  intros d' Hd'%elem_of_devfns Hne. by apply Hother.
Qed.

(** Accesses to the bus being scanned reach it. *)
Lemma leads_target h p c d : leads h p c -> c <= 255 -> (length p < max_depth)%nat ->
  target h c d = match topo (p ++ [d]) with Some f => Some (p ++ [d], f) | None => None end.
Proof.
  intros Hl Hc Hlen. unfold target.
  replace max_depth with (length p + S (max_depth - length p - 1))%nat by lia.
  rewrite (leads_route _ _ _ _ _ Hl) by lia. cbn [route]. by rewrite Z.eqb_refl.
Qed.

(** [h'] has the bus numbers of [h], but below [p]. *)
Definition same_outside (p : list Z) (h h' : pci_hw) : Prop :=
  forall q, (forall d r, q <> p ++ d :: r) -> bus_reg h' q = bus_reg h q.

Lemma same_outside_trans p h1 h2 h3 : same_outside p h1 h2 -> same_outside p h2 h3 -> same_outside p h1 h3.
Proof. intros H1 H2 q Hq. by rewrite H2, H1. Qed.

Lemma same_outside_up p d h h' : same_outside (p ++ [d]) h h' -> same_outside p h h'.
Proof. intros Hs q Hq. apply Hs. intros d' r ->. apply (Hq d (d' :: r)). by rewrite <- app_assoc. Qed.

Lemma claims_same h h' q n : bus_reg h' q = bus_reg h q -> claims h' q n = claims h q n.
Proof. intros E. unfold claims. by rewrite E. Qed.

Lemma leads_same h h' p c : leads h p c -> same_outside p h h' -> leads h' p c.
Proof.
  intros Hl Hs.
  assert (Hg : forall p0 rest, p = p0 ++ rest -> forall c0, leads h p0 c0 -> leads h' p0 c0).
  { intros p0 rest Hp c0 Hl0. revert rest Hp. induction Hl0 as [|p0 c0 d c' Hl0 IH Hc Hd Hclaim Hsec Hother]; intros rest Hp; [constructor|].
    assert (Hsame : forall x, bus_reg h' (p0 ++ [x]) = bus_reg h (p0 ++ [x])).
    { intros x. apply Hs. intros d0 r E. rewrite Hp, <- !app_assoc in E. apply app_inv_head in E.
      cbn in E. injection E as _ E. by destruct rest. }
    apply (leads_step _ p0 c0 d c'); try done.
    - apply (IH (d :: rest)). by rewrite Hp, <- app_assoc.
    - intros n Hn. rewrite (claims_same h); auto.
    - by rewrite Hsame.
    - intros d' n ???. rewrite (claims_same h); auto. }
  apply (Hg p []); [by rewrite app_nil_r|done].
Qed.

(** ** What a scan should find *)

Definition multi_function (p : list Z) (d : Z) : bool :=
  match topo (p ++ [d]) with Some f => Z.land (pf_header f) 0x80 =? 0x80 | None => false end.

(** A function is visible when its slot has only function 0, or says it has more. *)
Definition visible (p : list Z) (d : Z) : bool :=
  match topo (p ++ [d]) with Some _ => true | None => false end &&
  ((PCI_FUNC d =? 0) || multi_function p (d - PCI_FUNC d)).

(** The visible functions from [d] on, in order. *)
Definition visible_from (p : list Z) (d : Z) : list Z := List.filter (visible p) (seqZ d (256 - d)).
Definition visible_functions (p : list Z) : list Z := visible_from p 0.

Definition bridge_at (q : list Z) : bool := match topo q with Some f => is_bridge f | None => false end.

(** How many bridges can be found below bus [p]. *)
Fixpoint count_bridges (k : nat) (p : list Z) : Z :=
  match k with
  | O => 0
  | S k' =>
      foldr (fun d n => (if bridge_at (p ++ [d]) then 1 + count_bridges k' (p ++ [d]) else 0) + n) 0
        (visible_functions p)
  end.

(** ** The platform

    What the hooks, drivers and other scan methods must leave alone, and which
    functions there are: bridges are those of the bridge class, with a bridge header
    and a scan method for bridges. *)
Notation scan := (scan pci_hw).
Context (enable_dev : nat -> scan -> scan) (ops_enable : device_ops -> nat -> scan -> scan)
  (pci_drivers : list pci_driver) (scan_of : device_ops -> scan_method pci_hw)
  (reset_of : device_ops -> option (nat -> scan -> scan)).

Record same_core (s s' : scan) : Prop := {
  sc_tree : stree s' = stree s;
  sc_header : forall x, hdr_type (pst s') x = hdr_type (pst s) x;
  sc_bus_reg : forall q, bus_reg (hw (pst s')) q = bus_reg (hw (pst s)) q;
  sc_subordinate : forall x, subordinate s' x = subordinate s x;
  sc_reset : forall x, reset_needed s' x = reset_needed s x;
  sc_ops : forall x, dev_ops s' x = dev_ops s x
}.

Definition scans_bridge (o : device_ops) : bool :=
  match ops_scan_bus scan_of o with BridgeScan _ _ => true | _ => false end.

Class Platform : Prop := {
  pl_enable : forall o dev s, same_core s (ops_enable o dev s);
  pl_method : forall o,
    match ops_scan_bus scan_of o with
    | NoScan => True
    | OtherScan f => forall dev s, same_core s (f dev s)
    | BridgeScan tune_bus after => (forall b s, same_core s (tune_bus b s)) /\ (forall dev s, same_core s (after dev s))
    end;
  pl_bridges : scans_bridge default_pciexp_ops_bus = true /\ scans_bridge default_pcix_ops_bus = true;
  pl_drivers : forall drv q f, drv ∈ pci_drivers -> topo q = Some f ->
    drv_vendor drv = Z.land (pf_id f) 0xffff -> device_id_match drv (Z.land (Z.shiftr (pf_id f) 16) 0xffff) = true ->
    scans_bridge (drv_ops drv) = is_bridge f;
  pl_functions : forall q d f, topo (q ++ [d]) = Some f ->
    0 <= d < 256 /\ absent (pf_id f) = false /\
    ((Z.land (pf_header f) 0x7f = PCI_HEADER_TYPE_NORMAL /\ Z.shiftr (Z.shiftr (pf_class f) 8) 8 <> PCI_CLASS_BRIDGE_PCI) \/
     (Z.land (pf_header f) 0x7f = PCI_HEADER_TYPE_BRIDGE /\ Z.shiftr (Z.shiftr (pf_class f) 8) 8 = PCI_CLASS_BRIDGE_PCI));
  pl_depth : forall q f, topo q = Some f -> is_bridge f = true -> (length q < max_depth)%nat
}.

(** ** Probing one bus *)

(** [dev] is the device of function [d] of bus [p], on the link [l], with [links]. *)
Definition device_of (s : scan) (l : nat) (p : list Z) (d : Z) (dev : nat) (links : list nat) : Prop :=
  exists f, topo (p ++ [d]) = Some f /\
    get_dev (stree s) dev = mk_device l (DEVICE_PATH_PCI d) (Z.land (pf_id f) 0xffff)
      (Z.land (Z.shiftr (pf_id f) 16) 0xffff) (Z.shiftr (pf_class f) 8) true [] links /\
    hdr_type (pst s) dev = pf_header f /\
    match dev_ops s dev with Some o => scans_bridge o | None => false end = is_bridge f.

(** [s'] has the structures [X] of [s]. *)
Record agree (X : nat -> Prop) (s s' : scan) : Prop := {
  ag_dev : forall x, X x -> get_dev (stree s') x = get_dev (stree s) x;
  ag_bus : forall x, X x -> get_bus (stree s') x = get_bus (stree s) x;
  ag_header : forall x, X x -> hdr_type (pst s') x = hdr_type (pst s) x;
  ag_subordinate : forall x, X x -> subordinate s' x = subordinate s x;
  ag_ops : forall x, X x -> dev_ops s' x = dev_ops s x
}.

Lemma agree_trans (X Y Z : nat -> Prop) s1 s2 s3 :
  agree X s1 s2 -> agree Y s2 s3 -> (forall x, Z x -> X x /\ Y x) -> agree Z s1 s3.
Proof.
  intros [] [] Hxy. split; intros x Hx; destruct (Hxy x Hx);
    (etrans; [match goal with H : forall x, Y x -> _ |- _ => by apply H end|auto]).
Qed.

Lemma agree_weaken (X Y : nat -> Prop) s s' : agree X s s' -> (forall x, Y x -> X x) -> agree Y s s'.
Proof. intros [] Hxy. split; auto. Qed.

Lemma agree_refl X s : agree X s s.
Proof. by split. Qed.

Lemma core_agree X s s' : same_core s s' -> agree X s s'.
Proof. intros []. split; intros; auto; congruence. Qed.

Lemma device_of_agree X s s' l p d dev links : agree X s s' -> X dev ->
  device_of s l p d dev links -> device_of s' l p d dev links.
Proof.
  intros Ha Hx (f & Hf & Hd & Hh & Ho). exists f.
  rewrite (ag_dev _ _ _ Ha), (ag_header _ _ _ Ha), (ag_ops _ _ _ Ha) by done. done.
Qed.

Context `{Hplat : !Platform}.

Lemma upd_same {A} (f : nat -> A) k v : upd f k v k = v.
Proof. unfold upd. by rewrite decide_True. Qed.

Lemma upd_other {A} (f : nat -> A) k v k' : k' <> k -> upd f k v k' = f k'.
Proof. intros. unfold upd. by rewrite decide_False. Qed.

Lemma set_pci_ops_spec s dev q d f links : topo (q ++ [d]) = Some f -> dev_ops s dev = None ->
  (exists b path e r, get_dev (stree s) dev = mk_device b path (Z.land (pf_id f) 0xffff)
     (Z.land (Z.shiftr (pf_id f) 16) 0xffff) (Z.shiftr (pf_class f) 8) e r links) ->
  hdr_type (pst s) dev = pf_header f ->
  let s' := set_pci_ops cfg_read pci_drivers s dev in
  pst s' = pst s /\ subordinate s' = subordinate s /\ reset_needed s' = reset_needed s /\
  (forall x, x <> dev -> dev_ops s' x = dev_ops s x) /\
  match dev_ops s' dev with Some o => scans_bridge o | None => false end = is_bridge f.
Proof using Hplat.
  intros Hf Hnone (b & path & e & r & Hd) Hh. unfold set_pci_ops. rewrite Hnone, Hd, Hh. cbn [d_vendor d_device d_class].
  destruct (pl_functions _ _ _ Hf) as (_ & _ & Hkind).
  assert (Hset : forall o, scans_bridge o = is_bridge f ->
    let s' := set_ops dev o s in
    pst s' = pst s /\ subordinate s' = subordinate s /\ reset_needed s' = reset_needed s /\
    (forall x, x <> dev -> dev_ops s' x = dev_ops s x) /\
    match dev_ops s' dev with Some o => scans_bridge o | None => false end = is_bridge f).
  { intros o Ho. cbn. rewrite upd_same. split_and!; auto. intros x Hx. by apply upd_other. }
  destruct (List.find _ _) as [drv|] eqn:E.
  - apply find_some in E as [Hin E]. bool_to_prop. apply Hset.
    apply (pl_drivers drv (q ++ [d])); auto. by apply list_elem_of_In.
  - clear E. unfold is_bridge in Hset |- *. destruct Hkind as [[Hk Hc]|[Hk ->]]; rewrite Hk in Hset |- *.
    + rewrite (proj2 (Z.eqb_neq _ _) Hc). by apply Hset.
    + rewrite Z.eqb_refl. cbn [Z.eqb]. change (PCI_HEADER_TYPE_BRIDGE =? PCI_HEADER_TYPE_NORMAL) with false.
      cbn iota. apply Hset. unfold get_pci_bridge_ops. destruct pl_bridges as [H1 H2].
      repeat case_bool; done.
Qed.

(** The bus [l] of the tree is bus [p] of the hardware, number [c], and reachable. *)
Record ready (s : scan) (l : nat) (p : list Z) (c : Z) : Prop := {
  rd_leads : leads (hw (pst s)) p c;
  rd_number : c <= 255;
  rd_depth : (length p < max_depth)%nat;
  rd_secondary : b_secondary (get_bus (stree s) l) = c
}.

Lemma ready_same s s' l p c : ready s l p c -> same_outside p (hw (pst s)) (hw (pst s')) ->
  b_secondary (get_bus (stree s') l) = b_secondary (get_bus (stree s) l) -> ready s' l p c.
Proof. intros [] Hs Hb. split; try done; [by eapply leads_same|congruence]. Qed.

Lemma read_function s l p c d dev f w r : ready s l p c -> topo (p ++ [d]) = Some f ->
  d_bus (get_dev (stree s) dev) = l -> d_path (get_dev (stree s) dev) = DEVICE_PATH_PCI d ->
  read_config cfg_read w s dev r = function_read (hw (pst s)) (p ++ [d]) f r w.
Proof.
  intros Hr Hf Hb Hp. pose proof (rd_secondary _ _ _ _ Hr) as Hc.
  unfold read_config, pci_read_config, cfg_read, dev_secondary, dev_devfn, stree in *.
  rewrite Hb, Hp, Hc, (leads_target _ _ _ _ (rd_leads _ _ _ _ Hr)), Hf by apply Hr. done.
Qed.

(** A step that only concerns [dev]. *)
Record dev_step (dev : nat) (s s' : scan) : Prop := {
  ds_agree : agree (fun x => x <> dev) s s';
  ds_bus : forall x, get_bus (stree s') x = get_bus (stree s) x;
  ds_subordinate : forall x, subordinate s' x = subordinate s x;
  ds_reset : forall x, reset_needed s' x = reset_needed s x;
  ds_bus_reg : forall q, bus_reg (hw (pst s')) q = bus_reg (hw (pst s)) q;
  ds_heap : heap_next (stree s') = heap_next (stree s)
}.

Lemma setup_dev_spec s l p c d dev f : ready s l p c -> topo (p ++ [d]) = Some f -> dev_ops s dev = None ->
  get_dev (stree s) dev = mk_device l (DEVICE_PATH_PCI d) 0 0 0 true [] [] ->
  let s' := setup_dev cfg_read ops_enable pci_drivers s dev (pf_id f) in
  dev_step dev s s' /\ device_of s' l p d dev [].
Proof using Hplat.
  intros Hr Hf Hnone Hd. unfold setup_dev.
  rewrite !(read_function s l p c d dev f) by (by rewrite ?Hd).
  assert (Eh : function_read (hw (pst s)) (p ++ [d]) f PCI_HEADER_TYPE 8 = pf_header f) by done.
  assert (Ec : function_read (hw (pst s)) (p ++ [d]) f PCI_CLASS_REVISION 32 = pf_class f) by done.
  rewrite Eh, Ec. set (class := Z.shiftr (pf_class f) 8).
  set (s1 := set_hdr_type dev (pf_header f) s).
  set (s2 := set_stree _ s1).
  set (s3 := if Z.shiftr class 16 =? PCI_BASE_CLASS_SYSTEM then _ else s2).
  assert (H3 : stree s3 = stree s2 /\ hdr_type (pst s3) = hdr_type (pst s2) /\ hw (pst s3) = hw (pst s2) /\
    subordinate s3 = subordinate s2 /\ reset_needed s3 = reset_needed s2 /\ dev_ops s3 = dev_ops s2)
    by (unfold s3; by case_bool).
  destruct H3 as (T3 & H3 & W3 & S3 & R3 & O3). clearbody s3.
  assert (Hd3 : get_dev (stree s3) dev = mk_device l (DEVICE_PATH_PCI d) (Z.land (pf_id f) 0xffff)
      (Z.land (Z.shiftr (pf_id f) 16) 0xffff) class true [] []).
  { rewrite T3. unfold s2, stree, set_stree, set_pst, set_tree. cbn [pst tree]. rewrite get_set_dev, decide_True by done.
    change (tree (pst s1)) with (stree s). by rewrite Hd. }
  assert (Hh3 : hdr_type (pst s3) dev = pf_header f) by (rewrite H3; cbn; by rewrite upd_same).
  destruct (set_pci_ops_spec s3 dev p d f [] Hf) as (P4 & S4 & R4 & O4 & M4); [by rewrite O3|eauto 6|done|].
  set (s4 := set_pci_ops _ _ s3 dev) in *. clearbody s4.
  assert (H4 : dev_step dev s s4 /\ device_of s4 l p d dev []).
  { split.
    - assert (Hdev : forall x, x <> dev -> get_dev (stree s4) x = get_dev (stree s) x).
      { intros x Hx. unfold stree in *. rewrite P4, T3. cbn. rewrite get_set_dev, decide_False by done. done. }
      assert (Hbus : forall x, get_bus (stree s4) x = get_bus (stree s) x) by (intros x; unfold stree in *; by rewrite P4, T3).
      split; [split|..]; intros; auto.
      + rewrite P4, H3. cbn. by apply upd_other.
      + by rewrite S4, S3.
      + by rewrite O4, O3 by done.
      + by rewrite S4, S3.
      + by rewrite R4, R3.
      + by rewrite P4, W3.
      + unfold stree in *. by rewrite P4, T3.
    - exists f. unfold stree. rewrite P4. by split_and!. }
  destruct (dev_ops s4 dev) as [o|]; [|done].
  destruct H4 as [[A4 B4 U4 E4 G4 N4] D4]. pose proof (pl_enable o dev s4) as Hc.
  split; [split|].
  - eapply agree_trans; [exact A4|exact (core_agree (fun _ => True) _ _ Hc)|done].
  - intros x. by rewrite (sc_tree _ _ Hc), B4.
  - intros x. by rewrite (sc_subordinate _ _ Hc), U4.
  - intros x. by rewrite (sc_reset _ _ Hc), E4.
  - intros q. by rewrite (sc_bus_reg _ _ Hc), G4.
  - by rewrite (sc_tree _ _ Hc).
  - by apply (device_of_agree (fun _ => True) s4); [apply core_agree|..].
Qed.

(** [s'] is [s] after the devices [devs] were added to the link [l]. *)
Record grow (l : nat) (devs : list nat) (s s' : scan) : Prop := {
  gw_agree : agree (fun x => (x < heap_next (stree s))%nat /\ x <> l) s s';
  gw_link : get_bus (stree s') l = with_children (b_children (get_bus (stree s) l) ++ devs) (get_bus (stree s) l);
  gw_subordinate : forall x, subordinate s' x = subordinate s x;
  gw_reset : forall x, reset_needed s' x = reset_needed s x;
  gw_bus_reg : forall q, bus_reg (hw (pst s')) q = bus_reg (hw (pst s)) q;
  gw_heap : (heap_next (stree s) <= heap_next (stree s'))%nat;
  gw_devs : forall x, x ∈ devs -> (heap_next (stree s) <= x < heap_next (stree s'))%nat
}.

Lemma grow_refl l s : grow l [] s s.
Proof.
  split; auto using agree_refl; [|by intros x ?%elem_of_nil]. rewrite app_nil_r. by destruct (get_bus _ _).
Qed.

Lemma grow_trans l d1 d2 s1 s2 s3 : grow l d1 s1 s2 -> grow l d2 s2 s3 -> grow l (d1 ++ d2) s1 s3.
Proof.
  intros [A1 L1 S1 R1 B1 H1 D1] [A2 L2 S2 R2 B2 H2 D2]. split; try (intros; congruence).
  - eapply agree_trans; [exact A1|exact A2|]. intros x []. split; [done|]. split; [lia|done].
  - rewrite L2, L1. cbn. by rewrite app_assoc.
  - lia.
  - intros x [Hx|Hx]%elem_of_app; [apply D1 in Hx|apply D2 in Hx]; lia.
Qed.

Lemma grow_ready l devs s s' p c : grow l devs s s' -> ready s l p c -> ready s' l p c.
Proof.
  intros Hg Hr. eapply ready_same; [exact Hr|intros q _; apply Hg|]. by rewrite (gw_link _ _ _ _ Hg).
Qed.

Lemma device_of_grow s s' l devs p d dev links : grow l devs s s' ->
  (dev < heap_next (stree s))%nat -> dev <> l -> device_of s l p d dev links -> device_of s' l p d dev links.
Proof. intros Hg Hd Hl. apply (device_of_agree (fun x => (x < heap_next (stree s))%nat /\ x <> l)); [apply Hg|done]. Qed.

Lemma new_dev_spec s l d : (l < heap_next (stree s))%nat ->
  let '(dev, s') := new_dev s l d in
  dev = heap_next (stree s) /\ grow l [dev] s s' /\ dev_ops s' dev = None /\
  get_dev (stree s') dev = mk_device l (DEVICE_PATH_PCI d) 0 0 0 true [] [].
Proof.
  intros Hl. unfold new_dev, alloc_dev. cbn [stree pst tree dev_ops]. split; [done|]. split; [|split].
  - split; cbn; auto.
    + split; cbn; intros x [Hx Hn]; try (rewrite ?upd_other by lia; done);
        [unfold get_dev; cbn [st_dev]|unfold get_bus; cbn [st_bus]]; by rewrite lookup_insert_ne by lia.
    + unfold get_bus at 1. cbn [st_bus]. by rewrite lookup_insert_eq.
    + intros x ->%list_elem_of_singleton. unfold stree. lia.
  - apply upd_same.
  - unfold get_dev. cbn [st_dev]. by rewrite lookup_insert_eq.
Qed.

Lemma probe_one s l p c d : ready s l p c -> (l < heap_next (stree s))%nat -> 0 <= d < 256 ->
  let '(dev, s') := pci_probe_dev cfg_read enable_dev ops_enable pci_drivers s None l d in
  match topo (p ++ [d]) with
  | None => dev = None /\ s' = s
  | Some f => exists x, dev = Some x /\ grow l [x] s s' /\ device_of s' l p d x []
  end.
Proof using Hplat.
  intros Hr Hl Hd. unfold pci_probe_dev. rewrite (rd_secondary _ _ _ _ Hr).
  assert (Hid : cfg_read (hw (pst s)) c d PCI_VENDOR_ID 32 =
    match topo (p ++ [d]) with Some f => pf_id f | None => 2 ^ 32 - 1 end).
  { unfold cfg_read. rewrite (leads_target _ _ _ _ (rd_leads _ _ _ _ Hr)) by apply Hr. by destruct (topo _). }
  rewrite Hid. destruct (topo (p ++ [d])) as [f|] eqn:Hf; [|done].
  destruct (pl_functions _ _ _ Hf) as (_ & -> & _).
  pose proof (new_dev_spec s l d Hl) as Hnew. destruct (new_dev s l d) as [x s1]. destruct Hnew as (-> & Hg & Ho & Hx).
  assert (Hr1 : ready s1 l p c) by (by eapply grow_ready).
  destruct (setup_dev_spec s1 l p c d _ f Hr1 Hf Ho Hx) as [[A B S R G N] Hdev].
  eexists. split; [done|]. split; [|exact Hdev].
  destruct Hg as [A1 L1 S1 R1 G1 H1 D1]. split; intros; rewrite ?S, ?R, ?G, ?N, ?B; auto.
  eapply agree_trans; [exact A1|exact A|]. intros y [Hy Hyl]. split; [done|]. lia.
Qed.

Lemma skips_spec s l p d dev : match topo (p ++ [d]) with
    | None => dev = None
    | Some f => exists x, dev = Some x /\ device_of s l p d x []
    end -> skips s dev d = (PCI_FUNC d =? 0) && negb (multi_function p d).
Proof.
  intros Hdev. unfold skips, multi_function. destruct (topo (p ++ [d])) as [f|] eqn:Hf; [|by subst dev].
  destruct Hdev as (x & -> & f' & Hf' & -> & -> & _). rewrite Hf in Hf'. injection Hf' as <-. done.
Qed.

(** ** The functions of a bus in order *)

Lemma func_range d : 0 <= PCI_FUNC d < 8 /\ (0 <= d -> PCI_FUNC d = d mod 8).
Proof.
  unfold PCI_FUNC. assert (Z.land d 7 = d mod 8) by (change 7 with (2 ^ 3 - 1); by rewrite land_low_mask).
  pose proof (Z.mod_pos_bound d 8 ltac:(lia)). lia.
Qed.

Lemma visible_from_end p d : 256 <= d -> visible_from p d = [].
Proof. intros Hd. unfold visible_from. by rewrite seqZ_nil by lia. Qed.

Lemma visible_from_step p d : d < 256 ->
  visible_from p d = if visible p d then d :: visible_from p (d + 1) else visible_from p (d + 1).
Proof.
  intros Hd. unfold visible_from. rewrite seqZ_cons by lia. cbn [List.filter].
  replace (Z.succ d) with (d + 1) by lia. replace (Z.pred (256 - d)) with (256 - (d + 1)) by lia. done.
Qed.

(** Functions 1 to 7 of a slot whose function 0 does not announce them. *)
Lemma visible_from_skip p d n : 0 <= d -> PCI_FUNC d = 0 -> multi_function p d = false ->
  (n <= 7)%nat -> visible_from p (d + 1) = visible_from p (d + 1 + Z.of_nat n).
Proof.
  intros Hd Hfunc Hm Hn. induction n as [|n IH]; [by rewrite Z.add_0_r|]. rewrite IH by lia.
  destruct (Z.lt_ge_cases (d + 1 + Z.of_nat n) 256).
  - rewrite visible_from_step by lia. replace (d + 1 + Z.of_nat (S n)) with (d + 1 + Z.of_nat n + 1) by lia.
    destruct (func_range d) as [_ E1]. destruct (func_range (d + 1 + Z.of_nat n)) as [_ E2].
    assert (E : PCI_FUNC (d + 1 + Z.of_nat n) = 1 + Z.of_nat n).
    { rewrite E2 by lia. rewrite E1 in Hfunc by lia. pose proof (Z.div_mod d 8 ltac:(lia)).
      replace (d + 1 + Z.of_nat n) with (1 + Z.of_nat n + d / 8 * 8) by lia.
      rewrite Z.mod_add, Z.mod_small by lia. done. }
    unfold visible. rewrite E, (proj2 (Z.eqb_neq _ 0)) by lia.
    replace (d + 1 + Z.of_nat n - (1 + Z.of_nat n)) with d by lia. rewrite Hm, orb_false_r. by rewrite andb_false_r.
  - by rewrite !visible_from_end by lia.
Qed.

Lemma func_next d : 0 <= d -> PCI_FUNC (d + 1) = 0 \/ d + 1 - PCI_FUNC (d + 1) = d - PCI_FUNC d.
Proof.
  intros Hd. destruct (func_range d) as [H1 E1], (func_range (d + 1)) as [H2 E2]. rewrite E1, E2 by lia.
  Z.to_euclidean_division_equations. lia.
Qed.

Notation probe_loop := (probe_loop cfg_read enable_dev ops_enable pci_drivers).
Notation probe_bus := (probe_bus cfg_read enable_dev ops_enable pci_drivers).

Lemma probe_loop_spec l p c fuel : forall s d, ready s l p c -> (l < heap_next (stree s))%nat ->
  0 <= d -> 256 - d <= Z.of_nat fuel -> (PCI_FUNC d = 0 \/ multi_function p (d - PCI_FUNC d) = true) ->
  exists devs, grow l devs s (probe_loop fuel s l [] d 255) /\
    Forall2 (fun d' dev => device_of (probe_loop fuel s l [] d 255) l p d' dev []) (visible_from p d) devs.
Proof using Hplat.
  induction fuel as [|fuel IH]; intros s d Hr Hl Hd Hfuel Hinv.
  { exists []. rewrite visible_from_end by lia. split; [apply grow_refl|constructor]. }
  cbn [PciScan.probe_loop]. destruct (d <=? 255) eqn:Hmax; bool_to_prop.
  2:{ exists []. rewrite visible_from_end by lia. split; [apply grow_refl|constructor]. }
  change (pci_scan_get_dev s [] d) with (@None nat, @nil nat, s). cbn iota beta.
  pose proof (probe_one s l p c d Hr Hl ltac:(lia)) as Hone.
  destruct (pci_probe_dev _ _ _ _ _ _ _ _) as [dev s1].
  assert (Hstep : exists new, grow l new s s1 /\ Forall2 (fun d dev => device_of s1 l p d dev [])
                    (if visible p d then [d] else []) new /\
                  skips s1 dev d = (PCI_FUNC d =? 0) && negb (multi_function p d)).
  { rewrite (skips_spec s1 l p d dev) by (destruct (topo (p ++ [d])); naive_solver).
    unfold visible. rewrite (proj2 (orb_true_iff _ _)) by (rewrite Z.eqb_eq; done). rewrite andb_true_r.
    destruct (topo (p ++ [d])) as [f|].
    - destruct Hone as (x & -> & Hg & Hx). exists [x]. split_and!; [done|by constructor|done].
    - destruct Hone as [-> ->]. exists []. split_and!; [apply grow_refl|by constructor|done]. }
  destruct Hstep as (new & Hg & Hnew & ->). clear Hone.
  set (next := _ + 1). assert (Hnext : d < next /\ (PCI_FUNC next = 0 \/ multi_function p (next - PCI_FUNC next) = true) /\
      visible_from p d = (if visible p d then [d] else []) ++ visible_from p next).
  { unfold next. destruct ((PCI_FUNC d =? 0) && negb (multi_function p d)) eqn:Hskip; bool_to_prop.
    - split; [lia|]. destruct (func_range d) as [_ E1], (func_range (d + 7 + 1)) as [_ E2].
      split; [left; rewrite E2 by lia; rewrite E1 in * by lia; Z.to_euclidean_division_equations; lia|].
      rewrite visible_from_step by lia. rewrite (visible_from_skip p d 7) by (done || lia).
      replace (d + 1 + Z.of_nat 7) with (d + 7 + 1) by lia. by destruct (visible p d).
    - split; [lia|]. split; [|rewrite visible_from_step by lia; by destruct (visible p d)].
      destruct (func_next d Hd) as [E|E]; [by left|right]. rewrite E. destruct Hinv as [E0|]; [|done].
      rewrite E0, Z.sub_0_r in *. by destruct (multi_function p d). }
  destruct Hnext as (Hn & Hinv' & Hvis). clearbody next.
  destruct (IH s1 next) as (devs & Hg2 & Hdevs); [by eapply grow_ready| |lia|lia|done|].
  { pose proof (gw_heap _ _ _ _ Hg). lia. }
  exists (new ++ devs). split; [exact (grow_trans _ _ _ _ _ _ Hg Hg2)|]. rewrite Hvis. apply Forall2_app; [|exact Hdevs].
  assert (Hlt : forall x, x ∈ new -> (x < heap_next (stree s1))%nat /\ x <> l)
    by (intros x Hx; apply (gw_devs _ _ _ _ Hg) in Hx; lia).
  clear -Hnew Hg2 Hlt. induction Hnew as [|d' x ds new Hx Hnew IHn]; constructor.
  - destruct (Hlt x) as [H1 H2]; [by left|]. eapply device_of_grow; eauto.
  - apply IHn. intros y Hy. apply Hlt. by right.
Qed.

Lemma probe_bus_empty s l : b_children (get_bus (stree s) l) = [] ->
  probe_bus s l 0 255 =
  probe_loop 256 (set_stree (set_bus (stree s) l (with_children [] (get_bus (stree s) l))) s) l [] 0 255.
Proof. intros Hc. unfold PciScan.probe_bus. rewrite Hc. change (255 <? 255) with false. reflexivity. Qed.

(** Probing an empty link. *)
Lemma probe_bus_spec s l p c : ready s l p c -> (l < heap_next (stree s))%nat -> b_children (get_bus (stree s) l) = [] ->
  exists devs, grow l devs s (probe_bus s l 0 255) /\
    Forall2 (fun d dev => device_of (probe_bus s l 0 255) l p d dev []) (visible_functions p) devs.
Proof using Hplat.
  intros Hr Hl Hc. rewrite (probe_bus_empty s l Hc).
  set (s0 := set_stree (set_bus (stree s) l (with_children [] (get_bus (stree s) l))) s).
  assert (Hg0 : grow l [] s s0).
  { split; auto.
    - split; intros x [Hx Hn]; try done. unfold s0, stree, set_stree, set_tree, set_pst, get_bus, set_bus. cbn.
      by rewrite lookup_insert_ne by done.
    - rewrite Hc. unfold s0, stree, set_stree, set_tree, set_pst, get_bus, set_bus. cbn. by rewrite lookup_insert_eq.
    - by intros x ?%elem_of_nil. }
  assert (Hl0 : (l < heap_next (stree s0))%nat) by exact Hl.
  clearbody s0.
  assert (Hfuel : 256 - 0 <= Z.of_nat 256) by lia.
  destruct (probe_loop_spec l p c 256 s0 0 (grow_ready _ _ _ _ _ _ Hg0 Hr) Hl0 ltac:(lia) Hfuel (or_introl eq_refl))
    as (devs & Hg & Hdevs).
  exists devs. split; [exact (grow_trans l [] devs _ _ _ Hg0 Hg)|exact Hdevs].
Qed.

(** ** The result of a scan

    The devices of bus [p] in order.  A function that is no bridge has no link; a
    bridge has one, with the next number, and its register holds the window of
    numbers below it.  Pointers are in [[lo, hi)], those behind a bridge in a part
    of their own. *)
Inductive kids (R : nat -> nat -> nat -> list Z -> Z -> Z -> Prop) (s : scan) (lo hi l : nat) (p : list Z) :
    list Z -> list nat -> Z -> Z -> Prop :=
  | kids_nil c : kids R s lo hi l p [] [] c c
  | kids_function d ds dev devs c m :
      device_of s l p d dev [] -> bridge_at (p ++ [d]) = false -> (lo <= dev < hi)%nat ->
      kids R s lo hi l p ds devs c m -> kids R s lo hi l p (d :: ds) (dev :: devs) c m
  | kids_bridge d ds dev devs c m1 m link lo' hi' :
      device_of s l p d dev [link] -> bridge_at (p ++ [d]) = true ->
      (lo <= dev < link)%nat -> (link < lo' <= hi')%nat -> (hi' <= hi)%nat ->
      b_dev (get_bus (stree s) link) = dev ->
      reg_primary (bus_reg (hw (pst s)) (p ++ [d])) = b_secondary (get_bus (stree s) l) ->
      reg_secondary (bus_reg (hw (pst s)) (p ++ [d])) = c + 1 ->
      reg_subordinate (bus_reg (hw (pst s)) (p ++ [d])) = m1 ->
      R lo' hi' link (p ++ [d]) (c + 1) m1 ->
      kids R s lo hi l p ds devs m1 m -> kids R s lo hi l p (d :: ds) (dev :: devs) c m.

(** The link [l] is bus [p]: its number is [c], the last number below it [m], its
    devices are the visible functions; a bridge that is not visible stays closed. *)
Fixpoint scanned (k : nat) (s : scan) (lo hi l : nat) (p : list Z) (c m : Z) : Prop :=
  match k with
  | O => False
  | S k' =>
      b_secondary (get_bus (stree s) l) = c /\ subordinate s l = m /\
      kids (scanned k' s) s lo hi l p (visible_functions p) (b_children (get_bus (stree s) l)) c m /\
      forall d, d ∉ visible_functions p -> bus_reg (hw (pst s)) (p ++ [d]) = 0
  end.

Lemma kids_same R R' s s' lo hi hi' l p ds devs c m :
  kids R s lo hi l p ds devs c m ->
  (forall lo1 hi1 link q c1 m1, (lo <= link)%nat -> (link < lo1 <= hi1)%nat -> (hi1 <= hi)%nat ->
    (exists d, d ∈ ds /\ q = p ++ [d]) -> R lo1 hi1 link q c1 m1 -> R' lo1 hi1 link q c1 m1) ->
  agree (fun x => (lo <= x < hi)%nat) s s' -> (hi <= hi')%nat ->
  b_secondary (get_bus (stree s') l) = b_secondary (get_bus (stree s) l) ->
  (forall d, d ∈ ds -> bus_reg (hw (pst s')) (p ++ [d]) = bus_reg (hw (pst s)) (p ++ [d])) ->
  kids R' s' lo hi' l p ds devs c m.
Proof.
  intros Hk HR Ha Hhi Hl Hreg. induction Hk as [c|d ds dev devs c m Hd Hb Hr Hk IH|
      d ds dev devs c m1 m link lo1 hi1 Hd Hb Hr Hlink Hhi1 Hbd H1 H2 H3 HRR Hk IH]; [constructor|..].
  - apply kids_function; [by eapply device_of_agree|done|lia|]. apply IH; [|set_solver].
    intros ?????????[d' [? ?]]. apply HR; auto. set_solver.
  - apply (kids_bridge _ _ _ _ _ _ _ _ _ _ _ m1 m link lo1 hi1); try done; try lia.
    + eapply device_of_agree; [exact Ha|cbn; lia|done].
    + rewrite (ag_bus _ _ _ Ha) by lia. done.
    + rewrite Hreg, Hl by set_solver. done.
    + rewrite Hreg by set_solver. done.
    + rewrite Hreg by set_solver. done.
    + apply HR; auto; [lia|]. exists d. set_solver.
    + apply IH; [|set_solver]. intros ?????????[d' [? ?]]. apply HR; auto. set_solver.
Qed.

(** A scanned bus stays so when its pointers and the registers below it do. *)
Lemma scanned_same k : forall s s' lo hi l p c m,
  scanned k s lo hi l p c m -> agree (fun x => (lo <= x < hi)%nat \/ x = l) s s' ->
  (forall d r, bus_reg (hw (pst s')) (p ++ d :: r) = bus_reg (hw (pst s)) (p ++ d :: r)) ->
  scanned k s' lo hi l p c m.
Proof.
  induction k as [|k IH]; intros s s' lo hi l p c m Hs Ha Hreg; [done|]. destruct Hs as (Hsec & Hsub & Hk & Hinv).
  cbn. rewrite (ag_bus _ _ _ Ha), (ag_subordinate _ _ _ Ha) by auto. split_and!; [done|done| |].
  2:{ intros d Hd. rewrite Hreg. by apply Hinv. }
  eapply kids_same; [exact Hk| |eapply agree_weaken; [exact Ha|by left]|done| |].
  - intros lo1 hi1 link q c1 m1 H1 H2 H3 (d & _ & ->) Hs. eapply IH; [exact Hs| |].
    + eapply agree_weaken; [exact Ha|]. intros x Hx. cbn in *. lia.
    + intros d' r. rewrite <- app_assoc. apply Hreg.
  - by rewrite (ag_bus _ _ _ Ha) by auto.
  - intros d _. apply Hreg.
Qed.

(** ** One bridge *)

Notation pci_scan_bus := (pci_scan_bus cfg_read cfg_write enable_dev ops_enable pci_drivers scan_of reset_of).
Notation pci_bridge_route := (pci_bridge_route cfg_read cfg_write).

Lemma write_function s l p c d dev f w r v : ready s l p c -> topo (p ++ [d]) = Some f ->
  d_bus (get_dev (stree s) dev) = l -> d_path (get_dev (stree s) dev) = DEVICE_PATH_PCI d ->
  write_config cfg_write w s dev r v =
  set_pst (set_hw (function_write (hw (pst s)) (p ++ [d]) f r w (wrap w v)) (pst s)) s.
Proof.
  intros Hr Hf Hb Hp. pose proof (rd_secondary _ _ _ _ Hr) as Hc.
  unfold write_config, pci_write_config, cfg_write, dev_secondary, dev_devfn, stree in *.
  rewrite Hb, Hp, Hc, (leads_target _ _ _ _ (rd_leads _ _ _ _ Hr)), Hf by apply Hr. done.
Qed.

(** What routing does to the state: numbers, one bus number register, commands. *)
Record routed (s s' : scan) (q : list Z) (v : Z) : Prop := {
  ro_dev : forall x, get_dev (stree s') x = get_dev (stree s) x;
  ro_header : forall x, hdr_type (pst s') x = hdr_type (pst s) x;
  ro_ops : forall x, dev_ops s' x = dev_ops s x;
  ro_reset : forall x, reset_needed s' x = reset_needed s x;
  ro_heap : heap_next (stree s') = heap_next (stree s);
  ro_bus_reg : forall q', bus_reg (hw (pst s')) q' = if decide (q' = q) then v else bus_reg (hw (pst s)) q'
}.

Lemma get_set_bus t p b x : get_bus (set_bus t p b) x = if decide (x = p) then b else get_bus t x.
Proof.
  unfold get_bus, set_bus. cbn [st_bus]. destruct (decide (x = p)) as [-> |].
  - by rewrite lookup_insert_eq.
  - by rewrite lookup_insert_ne by done.
Qed.

Lemma route_write s l p n d dev f v :
  ready s l p n -> topo (p ++ [d]) = Some f -> is_bridge f = true ->
  d_bus (get_dev (stree s) dev) = l -> d_path (get_dev (stree s) dev) = DEVICE_PATH_PCI d ->
  let s' := write_config cfg_write 32 s dev PCI_PRIMARY_BUS
    (Z.lor (Z.land (read_config cfg_read 32 s dev PCI_PRIMARY_BUS) 0xff000000) v) in
  s' = set_pst (set_hw (mk_hw (setp (bus_reg (hw (pst s))) (p ++ [d])
    (wrap 32 (Z.lor (Z.land (bus_reg (hw (pst s)) (p ++ [d])) 0xff000000) v))) (cmd_reg (hw (pst s)))) (pst s)) s.
Proof.
  intros Hr Hf Hb Hd Hp. cbv zeta. rewrite (read_function _ l p n d dev f) by done.
  rewrite (write_function _ l p n d dev f) by done. unfold function_read, function_write. by rewrite Hb.
Qed.

Lemma command_write s l p n d dev f w r v : (w = 16) -> (r = PCI_COMMAND \/ r = PCI_STATUS) ->
  ready s l p n -> topo (p ++ [d]) = Some f ->
  d_bus (get_dev (stree s) dev) = l -> d_path (get_dev (stree s) dev) = DEVICE_PATH_PCI d ->
  exists cmd, write_config cfg_write w s dev r v =
    set_pst (set_hw (mk_hw (bus_reg (hw (pst s))) cmd) (pst s)) s.
Proof.
  intros -> Hr' Hr Hf Hd Hp. rewrite (write_function _ l p n d dev f) by done. unfold function_write.
  destruct Hr' as [-> | ->]; cbn; [by eexists|]. exists (cmd_reg (hw (pst s))). by destruct (hw (pst s)).
Qed.

(** [PCI_ROUTE_SCAN]: the link takes the next number and the bridge forwards all from there. *)
Lemma route_scan_spec s l p n d dev f link :
  ready s l p n -> topo (p ++ [d]) = Some f -> is_bridge f = true ->
  d_bus (get_dev (stree s) dev) = l -> d_path (get_dev (stree s) dev) = DEVICE_PATH_PCI d ->
  b_dev (get_bus (stree s) link) = dev -> link <> l -> 0 <= n <= subordinate s l -> subordinate s l < 255 ->
  let c := subordinate s l + 1 in
  let s' := pci_bridge_route link PCI_ROUTE_SCAN s in
  routed s s' (p ++ [d]) (wrap 32 (bus_numbers (bus_reg (hw (pst s)) (p ++ [d])) n c 255)) /\
  (forall x, get_bus (stree s') x = if decide (x = link) then with_secondary c (get_bus (stree s) link) else get_bus (stree s) x) /\
  (forall x, subordinate s' x = if decide (x = link) then c else subordinate s x).
Proof.
  intros Hr Hf Hb Hd Hp Hbd Hne Hn Hsub. unfold PciScan.pci_bridge_route. rewrite Hbd, Hd.
  assert (Hc : u16 (subordinate s l + 1) = subordinate s l + 1) by (apply wrap_small; lia). rewrite Hc.
  set (c := subordinate s l + 1) in *. cbv zeta.
  set (s1 := set_subordinate link c _).
  assert (Hs1 : stree s1 = set_bus (stree s) link (with_secondary c (get_bus (stree s) link))) by done.
  assert (Hl1 : get_bus (stree s1) l = get_bus (stree s) l) by (rewrite Hs1, get_set_bus, decide_False; done).
  assert (Hlink1 : get_bus (stree s1) link = with_secondary c (get_bus (stree s) link))
    by (rewrite Hs1, get_set_bus, decide_True; done).
  rewrite Hl1, Hlink1. cbn [b_secondary with_secondary].
  rewrite (rd_secondary _ _ _ _ Hr).
  rewrite !land_byte by lia. set (s2 := set_bridge_cmd _ _ s1).
  assert (H2 : ready s2 l p n) by (eapply ready_same; [exact Hr|by intros ??|by rewrite <- Hl1]).
  destruct (command_write s2 l p n d dev f 16 PCI_COMMAND 0) as [cmd3 E3]; auto.
  rewrite E3. clear E3. set (s3 := set_pst _ s2).
  assert (H3 : ready s3 l p n) by (eapply ready_same; [exact H2|by intros ??|done]).
  destruct (command_write s3 l p n d dev f 16 PCI_STATUS 0xffff) as [cmd4 E4]; auto.
  rewrite E4. clear E4. set (s4 := set_pst _ s3).
  assert (H4 : ready s4 l p n) by (eapply ready_same; [exact H3|by intros ??|done]).
  rewrite (route_write s4 l p n d dev f) by done.
  split; [|split].
  - by split.
  - intros x. change (get_bus (stree s1) x = if decide (x = link) then with_secondary c (get_bus (stree s) link) else get_bus (stree s) x).
    by rewrite Hs1, get_set_bus.
  - done.
Qed.

(** [PCI_ROUTE_FINAL]: the window is closed at the last number below the bridge. *)
Lemma route_final_spec s l p n d dev f link c m :
  ready s l p n -> topo (p ++ [d]) = Some f -> is_bridge f = true ->
  d_bus (get_dev (stree s) dev) = l -> d_path (get_dev (stree s) dev) = DEVICE_PATH_PCI d ->
  b_dev (get_bus (stree s) link) = dev -> b_secondary (get_bus (stree s) link) = c -> subordinate s link = m ->
  0 <= n < 256 -> 0 <= c < 256 -> 0 <= m < 256 ->
  let s' := pci_bridge_route link PCI_ROUTE_FINAL s in
  routed s s' (p ++ [d]) (wrap 32 (bus_numbers (bus_reg (hw (pst s)) (p ++ [d])) n c m)) /\
  (forall x, get_bus (stree s') x = get_bus (stree s) x) /\
  (forall x, subordinate s' x = if decide (x = l) then m else subordinate s x).
Proof.
  intros Hr Hf Hb Hd Hp Hbd Hc Hm Hn Hc' Hm'. unfold PciScan.pci_bridge_route. rewrite Hbd, Hd, Hc, Hm.
  rewrite (rd_secondary _ _ _ _ Hr). cbv zeta.
  rewrite !land_byte by lia. rewrite (route_write s l p n d dev f) by done.
  set (s1 := set_pst _ s).
  assert (H1 : ready s1 l p n).
  { eapply ready_same; [exact Hr| |done]. intros q Hq. cbn. unfold setp. rewrite decide_False; [done|].
    intros ->. by apply (Hq d []). }
  destruct (command_write s1 l p n d dev f 16 PCI_COMMAND (bridge_cmd s1 link)) as [cmd E]; auto.
  rewrite E. clear E. change (subordinate s1 link) with (subordinate s link). rewrite Hm. split; [by split|done].
Qed.

(** An empty link of a bus nothing below which is open yet. *)
Record scannable (s : scan) (l : nat) (p : list Z) (c : Z) : Prop := {
  sn_ready : ready s l p c;
  sn_number : 0 <= c;
  sn_subordinate : subordinate s l = c;
  sn_children : b_children (get_bus (stree s) l) = [];
  sn_heap : (l < heap_next (stree s))%nat;
  sn_closed : forall d r, bus_reg (hw (pst s)) (p ++ d :: r) = 0;
  sn_reset : forall x, reset_needed s x = false
}.

(** What scanning a bus leaves. *)
Record bus_scanned (k : nat) (s s' : scan) (l : nat) (p : list Z) (c m : Z) : Prop := {
  bs_agree : agree (fun x => (x < heap_next (stree s))%nat /\ x <> l) s s';
  bs_link : exists devs, get_bus (stree s') l = with_children devs (get_bus (stree s) l);
  bs_scanned : scanned k s' (heap_next (stree s)) (heap_next (stree s')) l p c m;
  bs_outside : same_outside p (hw (pst s)) (hw (pst s'));
  bs_claims : forall d n, m < n -> claims (hw (pst s')) (p ++ [d]) n = false;
  bs_heap : (heap_next (stree s) <= heap_next (stree s'))%nat;
  bs_reset : forall x, reset_needed s' x = false
}.

(** What scanning one bridge of a bus leaves; [l] got the number [m]. *)
Record bridge_scanned (k : nat) (s s' : scan) (l : nat) (p : list Z) (d : Z) (dev : nat) (m : Z) : Prop := {
  br_agree : agree (fun x => (x < heap_next (stree s))%nat /\ x <> l /\ x <> dev) s s';
  br_link : get_bus (stree s') l = get_bus (stree s) l;
  br_subordinate : subordinate s' l = m;
  br_device : exists link, device_of s' l p d dev [link] /\ (heap_next (stree s) = link)%nat /\
    b_dev (get_bus (stree s') link) = dev /\
    scanned k s' (S link) (heap_next (stree s')) link (p ++ [d]) (subordinate s l + 1) m;
  br_regs : reg_primary (bus_reg (hw (pst s')) (p ++ [d])) = b_secondary (get_bus (stree s) l) /\
    reg_secondary (bus_reg (hw (pst s')) (p ++ [d])) = subordinate s l + 1 /\
    reg_subordinate (bus_reg (hw (pst s')) (p ++ [d])) = m;
  br_outside : forall q, (forall r, q <> p ++ d :: r) -> bus_reg (hw (pst s')) q = bus_reg (hw (pst s)) q;
  br_heap : (heap_next (stree s) < heap_next (stree s'))%nat;
  br_reset : forall x, reset_needed s' x = false
}.

(** The link of a bridge without one. *)
Lemma bridge_link_spec s l p d dev f : topo (p ++ [d]) = Some f -> device_of s l p d dev [] ->
  (dev < heap_next (stree s))%nat -> (l < heap_next (stree s))%nat ->
  let link := heap_next (stree s) in
  exists s', bridge_link s dev = (link, s') /\
    agree (fun x => (x < link)%nat /\ x <> dev) s s' /\ device_of s' l p d dev [link] /\
    get_bus (stree s') link = mk_bus dev [] 0 0 /\ get_bus (stree s') l = get_bus (stree s) l /\
    subordinate s' l = subordinate s l /\ heap_next (stree s') = S link /\ hw (pst s') = hw (pst s) /\
    ((forall x, reset_needed s x = false) -> forall x, reset_needed s' x = false).
Proof.
  intros Hf Hdev Hlt Hl link. unfold bridge_link. destruct Hdev as (f' & Hf' & Hd & Hh & Ho).
  rewrite Hd. cbn [d_link_list]. fold link. eexists. split; [done|].
  split_and!.
  - split; intros x [Hx Hn]; unfold stree; cbn [pst tree set_tree]; rewrite ?get_set_dev, ?decide_False by lia; auto.
    + change (get_bus (set_dev ?a _ _)) with (get_bus a). rewrite get_set_bus, decide_False by lia. done.
    + cbn. by rewrite upd_other by lia.
  - exists f'. unfold stree. cbn [pst tree set_tree]. rewrite get_set_dev, decide_True by done.
    assert (E : get_dev (set_bus (set_free (tree (pst s)) (free_resources (tree (pst s))) (S link)) link (mk_bus dev [] 0 0)) dev
      = get_dev (stree s) dev) by done. rewrite E, Hd. done.
  - unfold stree. cbn [pst tree set_tree]. change (get_bus (set_dev ?a _ _)) with (get_bus a).
    by rewrite get_set_bus, decide_True.
  - unfold stree. cbn [pst tree set_tree]. change (get_bus (set_dev ?a _ _)) with (get_bus a).
    by rewrite get_set_bus, decide_False by lia.
  - cbn. by rewrite upd_other by lia.
  - done.
  - done.
  - intros Hres x. cbn. unfold upd. by destruct (decide _).
Qed.

Lemma scanned_numbers k s lo hi l p c m : scanned k s lo hi l p c m ->
  b_secondary (get_bus (stree s) l) = c /\ subordinate s l = m.
Proof. destruct k; [done|]. by intros (? & ? & _). Qed.

Lemma claims_window h q f n : topo q = Some f -> is_bridge f = true ->
  claims h q n = (reg_secondary (bus_reg h q) <=? n) && (n <=? reg_subordinate (bus_reg h q)).
Proof. intros Hf Hb. unfold claims. by rewrite Hf, Hb. Qed.

(** After [PCI_ROUTE_SCAN] the bus behind the bridge is reached by its new number. *)
Lemma leads_open h h' p n d f c v : leads h p n -> topo (p ++ [d]) = Some f -> is_bridge f = true -> n < c ->
  (forall q, bus_reg h' q = if decide (q = p ++ [d]) then v else bus_reg h q) ->
  reg_secondary v = c -> reg_subordinate v = 255 ->
  (forall d' n', d' <> d -> c <= n' -> claims h (p ++ [d']) n' = false) ->
  leads h' (p ++ [d]) c.
Proof using Hplat.
  intros Hl Hf Hb Hn Hreg Hsec Hsub Hother. destruct (pl_functions _ _ _ Hf) as (Hd & _ & _).
  apply (leads_step _ p n d c); try done.
  - eapply leads_same; [exact Hl|]. intros q Hq. rewrite Hreg, decide_False; [done|]. intros ->. by apply (Hq d []).
  - intros n' Hn'. rewrite (claims_window _ _ f), Hreg, decide_True, Hsec, Hsub by done.
    apply andb_true_iff. rewrite !Z.leb_le. lia.
  - by rewrite Hreg, decide_True.
  - intros d' n' Hd' Hne Hn'. rewrite (claims_same h); [apply Hother; done || lia|].
    rewrite Hreg, decide_False; [done|]. intros [= ?]%app_inv_head. done.
Qed.

Definition scans (rounds k : nat) : Prop := forall s l p c,
  scannable s l p c -> c + count_bridges k p <= 255 -> (max_depth <= length p + k)%nat ->
  exists s', pci_scan_bus rounds k l 0 255 s = Some s' /\ bus_scanned k s s' l p c (c + count_bridges k p).

Lemma count_bridges_nonneg k : forall p, 0 <= count_bridges k p.
Proof.
  induction k as [|k IH]; intros p; cbn; [lia|]. induction (visible_functions p) as [|d ds IHds]; cbn; [lia|].
  pose proof (IH (p ++ [d])). case_bool; lia.
Qed.

Section Bridge.
Context (rounds k : nat) (Hscans : scans rounds k).
Context (tune_bus after : nat -> scan -> scan)
  (Htune : forall b s, same_core s (tune_bus b s)) (Hafter : forall dev s, same_core s (after dev s)).
Context (s : scan) (l : nat) (p : list Z) (n d : Z) (dev : nat) (f : pci_function).
Context (Hready : ready s l p n) (Hn : 0 <= n <= subordinate s l)
  (Hf : topo (p ++ [d]) = Some f) (Hb : is_bridge f = true) (Hdev : device_of s l p d dev [])
  (Hdl : (dev < heap_next (stree s))%nat) (Hll : (l < heap_next (stree s))%nat) (Hne : dev <> l)
  (Hclosed : forall r, bus_reg (hw (pst s)) (p ++ d :: r) = 0)
  (Hclaims : forall d' n', subordinate s l < n' -> claims (hw (pst s)) (p ++ [d']) n' = false)
  (Hreset : forall x, reset_needed s x = false)
  (Hroom : subordinate s l + 1 + count_bridges k (p ++ [d]) <= 255)
  (Hdepth : (max_depth <= length p + S k)%nat).

Notation c := (subordinate s l + 1).
Notation m := (subordinate s l + 1 + count_bridges k (p ++ [d])).
Notation link := (heap_next (stree s)).

(** Up to the scan of the bus behind the bridge. *)
Lemma bridge_opened : exists s1, bridge_link s dev = (link, s1) /\
  let s2 := pci_bridge_route link PCI_ROUTE_SCAN s1 in
  scannable s2 link (p ++ [d]) c /\
  agree (fun x => (x < link)%nat /\ x <> dev) s s2 /\ get_bus (stree s2) l = get_bus (stree s) l /\
  device_of s2 l p d dev [link] /\ b_dev (get_bus (stree s2) link) = dev /\ heap_next (stree s2) = S link /\
  (forall q, q <> p ++ [d] -> bus_reg (hw (pst s2)) q = bus_reg (hw (pst s)) q).
Proof using All.
  destruct (bridge_link_spec s l p d dev f Hf Hdev Hdl Hll) as (s1 & E & A1 & D1 & B1 & L1 & S1 & N1 & W1 & R1).
  exists s1. split; [exact E|]. pose proof (count_bridges_nonneg k (p ++ [d])).
  assert (Hready1 : ready s1 l p n) by (eapply ready_same; [exact Hready|by rewrite W1|by rewrite L1]).
  destruct D1 as (f' & Hf' & Hd1 & Hh1 & Ho1).
  destruct (route_scan_spec s1 l p n d dev f link Hready1 Hf Hb) as ([Rd Rh Ro Rr Rn Rb] & Rbus & Rsub);
    [by rewrite Hd1|by rewrite Hd1|by rewrite B1|lia|by rewrite S1|rewrite S1; lia|].
  rewrite S1 in Rbus, Rsub, Rb. set (s2 := pci_bridge_route _ _ s1) in *. clearbody s2.
  destruct (bus_numbers_field (bus_reg (hw (pst s1)) (p ++ [d])) n c 255) as (_ & Fs & Fe); [lia..|].
  set (v := wrap 32 _) in *. clearbody v. rewrite B1 in Rbus.
  assert (Hlen : (length (p ++ [d]) < max_depth)%nat) by exact (pl_depth _ _ Hf Hb).
  cbv zeta. split_and!.
  - split.
    + split; [|lia|done|].
      * eapply (leads_open (hw (pst s1))); [apply Hready1|exact Hf|exact Hb|lia|exact Rb|done|done|].
        intros d' n' _ Hn'. rewrite W1. apply Hclaims. lia.
      * by rewrite Rbus, decide_True.
    + lia.
    + by rewrite Rsub, decide_True.
    + by rewrite Rbus, decide_True.
    + rewrite Rn, N1. lia.
    + intros d' r. rewrite Rb, decide_False, W1, <- app_assoc; [apply Hclosed|].
      intros E2. apply (f_equal length) in E2. rewrite !length_app in E2. cbn in E2. lia.
    + intros x. rewrite Rr. by apply R1.
  - split; intros x Hx; rewrite ?Rd, ?Rh, ?Ro, ?Rbus, ?Rsub, ?decide_False by lia; by apply A1.
  - by rewrite Rbus, decide_False by lia.
  - exists f'. rewrite Rd, Rh, Ro. done.
  - by rewrite Rbus, decide_True.
  - by rewrite Rn, N1.
  - intros q Hq. by rewrite Rb, decide_False, W1.
Qed.

Lemma bridge_scan_spec : exists s',
  option_map (after dev) (do_pci_scan_bridge cfg_read cfg_write (fun bus min_devfn max_devfn s =>
    option_map (tune_bus bus) (pci_scan_bus rounds k bus min_devfn max_devfn s)) s dev) = Some s' /\
  bridge_scanned k s s' l p d dev m.
Proof using All.
  destruct bridge_opened as (s1 & E1 & Hsn2 & A2 & L2 & D2 & B2 & N2 & W2). cbv zeta in *.
  set (s2 := pci_bridge_route link PCI_ROUTE_SCAN s1) in *.
  destruct (Hscans s2 link (p ++ [d]) c Hsn2) as (s3 & E3 & Hs3); [lia|rewrite length_app; cbn; lia|].
  unfold do_pci_scan_bridge. rewrite E1. fold s2. rewrite E3. cbn [option_map]. clearbody s2. clear E1 E3 s1.
  pose proof (Htune link s3) as Ht. set (s4 := tune_bus link s3) in *. clearbody s4.
  destruct Hs3 as [A3 [devs3 L3] S3 O3 C3 N3 R3].
  pose proof (scanned_numbers _ _ _ _ _ _ _ _ S3) as [Sec3 Sub3]. pose proof (count_bridges_nonneg k (p ++ [d])).
  assert (A4 : agree (fun x => (x < S link)%nat /\ x <> link) s2 s4).
  { eapply agree_trans; [exact A3|exact (core_agree (fun _ => True) _ _ Ht)|]. intros x. by rewrite N2. }
  assert (Hready4 : ready s4 l p n).
  { eapply ready_same; [exact Hready| |rewrite (ag_bus _ _ _ A4) by (cbn; lia); by rewrite L2].
    intros q Hq. rewrite (sc_bus_reg _ _ Ht), (O3 q).
    - apply W2. intros ->. by apply (Hq d []).
    - intros d' r ->. apply (Hq d (d' :: r)). by rewrite <- app_assoc. }
  assert (D4 : device_of s4 l p d dev [link]) by (eapply device_of_agree; [exact A4|cbn; lia|done]).
  pose proof D4 as (f' & Hf' & Hd4 & _).
  assert (B4 : b_dev (get_bus (stree s4) link) = dev) by (by rewrite (sc_tree _ _ Ht), L3).
  destruct (route_final_spec s4 l p n d dev f link c m Hready4 Hf Hb) as ([Rd Rh Ro Rr Rn Rb] & Rbus & Rsub);
    [by rewrite Hd4|by rewrite Hd4|exact B4|by rewrite (sc_tree _ _ Ht)|by rewrite (sc_subordinate _ _ Ht)|lia..|].
  set (s5 := pci_bridge_route _ _ s4) in *. clearbody s5.
  pose proof (bus_numbers_field (bus_reg (hw (pst s4)) (p ++ [d])) n c m ltac:(lia) ltac:(lia) ltac:(lia)) as Hfields.
  set (v := wrap 32 _) in *. clearbody v.
  pose proof (Hafter dev s5) as H6. set (s6 := after dev s5) in *. clearbody s6.
  exists s6. split; [done|].
  assert (A5 : agree (fun x => x <> l) s4 s6).
  { apply (agree_trans (fun x => x <> l) (fun _ => True) _ s4 s5 s6); [|by apply core_agree|done].
    split; intros x Hx; rewrite ?Rd, ?Rh, ?Ro, ?Rbus, ?Rsub, ?decide_False by done; done. }
  assert (W6 : forall q, q <> p ++ [d] -> bus_reg (hw (pst s6)) q = bus_reg (hw (pst s3)) q)
    by (intros q Hq; by rewrite (sc_bus_reg _ _ H6), Rb, decide_False, (sc_bus_reg _ _ Ht)).
  assert (Hn6 : heap_next (stree s6) = heap_next (stree s3)) by (by rewrite (sc_tree _ _ H6), Rn, (sc_tree _ _ Ht)).
  assert (A6 : agree (fun x => (x < link)%nat /\ x <> l /\ x <> dev) s s6).
  { eapply agree_trans; [exact A2|eapply agree_trans; [exact A4|exact A5|intros x Hx; exact Hx]|].
    intros x. cbn. lia. }
  split.
  - exact A6.
  - by rewrite (sc_tree _ _ H6), Rbus, (ag_bus _ _ _ A4), L2 by (cbn; lia).
  - by rewrite (sc_subordinate _ _ H6), Rsub, decide_True.
  - exists link. split_and!.
    + eapply device_of_agree; [exact A5|done|done].
    + done.
    + rewrite (sc_tree _ _ H6), Rbus. exact B4.
    + rewrite Hn6. rewrite N2 in S3. eapply scanned_same; [exact S3| |].
      * eapply agree_trans; [exact (core_agree (fun _ => True) _ _ Ht)|exact A5|]. intros x. cbn. lia.
      * intros d' r. apply W6. intros E2. apply (f_equal length) in E2. rewrite !length_app in E2. cbn in E2. lia.
  - rewrite (sc_bus_reg _ _ H6), Rb, decide_True by done. by rewrite (rd_secondary _ _ _ _ Hready).
  - intros q Hq. assert (q <> p ++ [d]) by (intros ->; by apply (Hq [])). rewrite W6 by done.
    rewrite (O3 q); [by apply W2|]. intros d' r ->. apply (Hq (d' :: r)). by rewrite <- app_assoc.
  - rewrite Hn6. lia.
  - intros x. by rewrite (sc_reset _ _ H6), Rr, (sc_reset _ _ Ht).
Qed.
End Bridge.

(** ** One child, all children, the whole scan *)

Notation scan_child := (scan_child cfg_read cfg_write scan_of reset_of).

Lemma device_of_enabled s l p d dev links : device_of s l p d dev links ->
  d_enabled (get_dev (stree s) dev) = true /\ d_link_list (get_dev (stree s) dev) = links.
Proof. intros (f & _ & -> & _). done. Qed.

Lemma scan_function rounds psb s l p d dev : (0 < rounds)%nat -> device_of s l p d dev [] ->
  bridge_at (p ++ [d]) = false -> exists s', scan_child rounds psb dev s = Some s' /\ same_core s s'.
Proof using Hplat.
  intros Hr Hdev Hb. destruct (device_of_enabled _ _ _ _ _ _ Hdev) as [He Hlinks].
  destruct Hdev as (f & Hf & _ & _ & Ho). unfold bridge_at in Hb. rewrite Hf in Hb. rewrite Hb in Ho.
  unfold PciScan.scan_child. destruct (dev_ops s dev) as [o|]; [|exists s; by split].
  unfold scans_bridge in Ho. pose proof (pl_method o) as Hm.
  destruct (ops_scan_bus scan_of o) as [| |g]; [exists s; by split|done|].
  exists (g dev s). split; [|apply Hm]. unfold scan_bus. rewrite He. destruct rounds; [lia|].
  cbn. unfold reset_links. by rewrite (sc_tree _ _ (Hm dev s)), Hlinks.
Qed.

Lemma scan_bridge rounds k s l p n d dev : (0 < rounds)%nat -> scans rounds k -> ready s l p n ->
  0 <= n <= subordinate s l -> device_of s l p d dev [] -> bridge_at (p ++ [d]) = true ->
  (dev < heap_next (stree s))%nat -> (l < heap_next (stree s))%nat -> dev <> l ->
  (forall r, bus_reg (hw (pst s)) (p ++ d :: r) = 0) ->
  (forall d' n', subordinate s l < n' -> claims (hw (pst s)) (p ++ [d']) n' = false) ->
  (forall x, reset_needed s x = false) -> subordinate s l + 1 + count_bridges k (p ++ [d]) <= 255 ->
  (max_depth <= length p + S k)%nat ->
  exists s', scan_child rounds (pci_scan_bus rounds k) dev s = Some s' /\
    bridge_scanned k s s' l p d dev (subordinate s l + 1 + count_bridges k (p ++ [d])).
Proof using Hplat.
  intros Hr Hscans Hready Hn Hdev Hb Hdl Hll Hne Hclosed Hclaims Hreset Hroom Hdepth.
  destruct (device_of_enabled _ _ _ _ _ _ Hdev) as [He _]. pose proof Hdev as (f & Hf & _ & _ & Ho).
  unfold bridge_at in Hb. rewrite Hf in Hb. rewrite Hb in Ho.
  unfold PciScan.scan_child. destruct (dev_ops s dev) as [o|]; [|done].
  unfold scans_bridge in Ho. pose proof (pl_method o) as Hm.
  destruct (ops_scan_bus scan_of o) as [|tune after|]; [done| |done]. destruct Hm as [Ht Ha].
  destruct (bridge_scan_spec rounds k Hscans tune after Ht Ha s l p n d dev f Hready Hn Hf Hb Hdev Hdl Hll Hne
    Hclosed Hclaims Hreset Hroom Hdepth) as (s' & E & Hs').
  exists s'. split; [|done]. unfold scan_bus. rewrite He. destruct rounds; [lia|]. cbn. rewrite E.
  destruct (br_device _ _ _ _ _ _ _ _ Hs') as (link & Hdev' & _).
  destruct (device_of_enabled _ _ _ _ _ _ Hdev') as [_ Hlinks].
  unfold reset_links. rewrite Hlinks. cbn. by rewrite (br_reset _ _ _ _ _ _ _ _ Hs').
Qed.

Definition count_kids (k : nat) (p : list Z) (ds : list Z) : Z :=
  foldr (fun d n => (if bridge_at (p ++ [d]) then 1 + count_bridges k (p ++ [d]) else 0) + n) 0 ds.

Lemma count_kids_nonneg k p ds : 0 <= count_kids k p ds.
Proof. induction ds as [|d ds IH]; cbn; [lia|]. fold (count_kids k p ds). pose proof (count_bridges_nonneg k (p ++ [d])). case_bool; lia. Qed.

(** Before and after the children [devs], the functions [ds], are scanned. *)
Record children_ready (k : nat) (s : scan) (lo l : nat) (p ds : list Z) (devs : list nat) (n : Z) : Prop := {
  cr_ready : ready s l p n;
  cr_number : 0 <= n <= subordinate s l;
  cr_devices : Forall2 (fun d dev => device_of s l p d dev []) ds devs;
  cr_ds : NoDup ds;
  cr_devs : NoDup devs;
  cr_pointers : forall x, x ∈ devs -> (lo <= x < heap_next (stree s))%nat /\ x <> l;
  cr_heap : (l < heap_next (stree s))%nat;
  cr_closed : forall d r, d ∈ ds -> bus_reg (hw (pst s)) (p ++ d :: r) = 0;
  cr_claims : forall d n', subordinate s l < n' -> claims (hw (pst s)) (p ++ [d]) n' = false;
  cr_reset : forall x, reset_needed s x = false;
  cr_room : subordinate s l + count_kids k p ds <= 255;
  cr_depth : (max_depth <= length p + S k)%nat
}.

Record children_scanned (k : nat) (s s' : scan) (lo l : nat) (p ds : list Z) (devs : list nat) (m : Z) : Prop := {
  cs_agree : agree (fun x => (x < heap_next (stree s))%nat /\ x <> l /\ x ∉ devs) s s';
  cs_link : get_bus (stree s') l = get_bus (stree s) l;
  cs_subordinate : subordinate s' l = m;
  cs_kids : kids (scanned k s') s' lo (heap_next (stree s')) l p ds devs (subordinate s l) m;
  cs_outside : forall q, (forall d r, d ∈ ds -> q <> p ++ d :: r) -> bus_reg (hw (pst s')) q = bus_reg (hw (pst s)) q;
  cs_claims : forall d n, m < n -> claims (hw (pst s')) (p ++ [d]) n = false;
  cs_heap : (heap_next (stree s) <= heap_next (stree s'))%nat;
  cs_reset : forall x, reset_needed s' x = false
}.

Lemma not_same_slot (p : list Z) d d' r r' : d <> d' -> p ++ d :: r <> p ++ d' :: r'.
Proof. intros Hn [= ? _]%app_inv_head. done. Qed.

(** The children left after one that changed nothing, or a bridge. *)
Lemma children_after_core k s s1 lo l p d ds dev devs n : same_core s s1 ->
  bridge_at (p ++ [d]) = false ->
  children_ready k s lo l p (d :: ds) (dev :: devs) n -> children_ready k s1 lo l p ds devs n.
Proof.
  intros Hc Hb [Hr Hn Hd Hds Hdevs Hp Hh Hcl Hcm Hre Hro Hde]. pose proof (core_agree (fun _ => True) _ _ Hc) as Ha.
  apply Forall2_cons in Hd as [_ Hd]. apply NoDup_cons in Hds as [_ Hds]. apply NoDup_cons in Hdevs as [_ Hdevs].
  assert (Hreg := sc_bus_reg _ _ Hc).
  split; rewrite ?(sc_tree _ _ Hc), ?(sc_subordinate _ _ Hc); auto.
  - eapply ready_same; [exact Hr|by intros q _|by rewrite (sc_tree _ _ Hc)].
  - eapply Forall2_impl; [exact Hd|]. intros d' x. by apply (device_of_agree (fun _ => True)).
  - intros x Hx. apply Hp. by right.
  - intros d' r Hd'. rewrite Hreg. apply Hcl. by right.
  - intros d' n' Hn'. rewrite (claims_same (hw (pst s))); auto.
  - intros x. by rewrite (sc_reset _ _ Hc).
  - cbn in Hro. by rewrite Hb in Hro.
Qed.

Lemma bridge_claims k s s' l p d dev m d' n : 0 <= subordinate s l <= m ->
  bridge_at (p ++ [d]) = true -> bridge_scanned k s s' l p d dev m ->
  (forall d' n', subordinate s l < n' -> claims (hw (pst s)) (p ++ [d']) n' = false) ->
  m < n -> claims (hw (pst s')) (p ++ [d']) n = false.
Proof.
  intros Hm Hb Hs Hcl Hn. destruct (decide (d' = d)) as [-> |Hne].
  - unfold bridge_at in Hb. destruct (topo (p ++ [d])) as [f|] eqn:Hf; [|done].
    rewrite (claims_window _ _ f) by done. destruct (br_regs _ _ _ _ _ _ _ _ Hs) as (_ & _ & ->).
    apply andb_false_iff. right. apply Z.leb_gt. lia.
  - rewrite (claims_same (hw (pst s))); [apply Hcl; lia|]. apply (br_outside _ _ _ _ _ _ _ _ Hs).
    intros r. by apply not_same_slot.
Qed.

Lemma children_after_bridge k s s1 lo l p d ds dev devs n :
  bridge_at (p ++ [d]) = true ->
  children_ready k s lo l p (d :: ds) (dev :: devs) n ->
  bridge_scanned k s s1 l p d dev (subordinate s l + 1 + count_bridges k (p ++ [d])) ->
  children_ready k s1 lo l p ds devs n.
Proof.
  intros Hb [Hr Hn Hd Hds Hdevs Hp Hh Hcl Hcm Hre Hro Hde] Hs. pose proof (br_agree _ _ _ _ _ _ _ _ Hs) as Ha.
  pose proof (br_heap _ _ _ _ _ _ _ _ Hs) as Hheap. pose proof (br_outside _ _ _ _ _ _ _ _ Hs) as Hout.
  pose proof (count_bridges_nonneg k (p ++ [d])).
  apply Forall2_cons in Hd as [_ Hd]. apply NoDup_cons in Hds as [Hnd Hds]. apply NoDup_cons in Hdevs as [Hndev Hdevs].
  cbn in Hro. fold (count_kids k p ds) in Hro. rewrite Hb in Hro.
  split; rewrite ?(br_subordinate _ _ _ _ _ _ _ _ Hs); auto; try lia.
  - eapply ready_same; [exact Hr| |by rewrite (br_link _ _ _ _ _ _ _ _ Hs)].
    intros q Hq. apply Hout. intros r. apply Hq.
  - clear -Hd Ha Hp Hndev. assert (Hp' : forall x, x ∈ devs -> (x < heap_next (stree s))%nat /\ x <> l /\ x <> dev).
    { intros x Hx. destruct (Hp x) as [? ?]; [by right|]. split_and!; [lia|done|]. by intros ->. }
    clear Hp Hndev. induction Hd as [|d' x ds devs Hx Hd IH]; constructor.
    + eapply device_of_agree; [exact Ha|apply Hp'; by left|done].
    + apply IH. intros y Hy. apply Hp'. by right.
  - intros x Hx. destruct (Hp x) as [? ?]; [by right|]. split; [lia|done].
  - intros d' r Hd'. rewrite Hout; [apply Hcl; by right|]. intros r'. apply not_same_slot. by intros ->.
  - intros d' n' Hn'. eapply (bridge_claims k s s1); eauto. lia.
  - apply (br_reset _ _ _ _ _ _ _ _ Hs).
Qed.

Lemma children_scanned_core k s s1 s' lo l p d ds dev devs n m : same_core s s1 -> bridge_at (p ++ [d]) = false ->
  children_ready k s lo l p (d :: ds) (dev :: devs) n ->
  children_scanned k s1 s' lo l p ds devs m -> children_scanned k s s' lo l p (d :: ds) (dev :: devs) m.
Proof.
  intros Hc Hb Hr [A L U K O C N R]. rewrite (sc_tree _ _ Hc) in *. rewrite (sc_subordinate _ _ Hc) in K.
  destruct (cr_pointers _ _ _ _ _ _ _ _ Hr dev) as [Hp1 Hp2]; [by left|].
  pose proof (cr_devices _ _ _ _ _ _ _ _ Hr) as [Hdev _]%Forall2_cons.
  pose proof (cr_devs _ _ _ _ _ _ _ _ Hr) as [Hndev _]%NoDup_cons.
  assert (A2 : agree (fun x => (x < heap_next (stree s))%nat /\ x <> l /\ x ∉ devs) s s').
  { eapply agree_trans; [exact (core_agree (fun _ => True) _ _ Hc)|exact A|]. intros x Hx. split; [done|exact Hx]. }
  split; auto.
  - eapply agree_weaken; [exact A2|]. set_solver.
  - apply kids_function; [|done|lia|done]. eapply device_of_agree; [exact A2|cbn; split_and!; [lia|done|done]|done].
  - intros q Hq. rewrite O, (sc_bus_reg _ _ Hc); [done|]. intros d' r Hd'. apply Hq. by right.
Qed.

Lemma children_scanned_bridge k s s1 s' lo l p d ds dev devs n m : bridge_at (p ++ [d]) = true ->
  children_ready k s lo l p (d :: ds) (dev :: devs) n ->
  bridge_scanned k s s1 l p d dev (subordinate s l + 1 + count_bridges k (p ++ [d])) ->
  children_scanned k s1 s' lo l p ds devs m -> children_scanned k s s' lo l p (d :: ds) (dev :: devs) m.
Proof.
  intros Hb Hr Hs [A L U K O C N R]. destruct Hs as [A1 L1 U1 (link & D1 & Hlink & B1 & S1) (F1 & F2 & F3) O1 N1 R1].
  destruct (cr_pointers _ _ _ _ _ _ _ _ Hr dev) as [Hp1 Hp2]; [by left|].
  pose proof (cr_devs _ _ _ _ _ _ _ _ Hr) as [Hndev _]%NoDup_cons.
  pose proof (cr_ds _ _ _ _ _ _ _ _ Hr) as [Hnd _]%NoDup_cons. pose proof (cr_heap _ _ _ _ _ _ _ _ Hr) as Hll.
  assert (Hfresh : forall x, (heap_next (stree s) <= x)%nat -> x ∉ devs /\ x <> l).
  { intros x Hx. split; [|lia]. intros Hin. destruct (cr_pointers _ _ _ _ _ _ _ _ Hr x); [by right|lia]. }
  assert (Hout : forall r, bus_reg (hw (pst s')) (p ++ d :: r) = bus_reg (hw (pst s1)) (p ++ d :: r)).
  { intros r. apply O. intros d' r' Hd'. apply not_same_slot. by intros ->. }
  rewrite U1 in K. split.
  - eapply agree_trans; [exact A1|exact A|]. intros x (H1 & H2 & H3). set_unfold. split; [naive_solver|].
    split; [lia|]. naive_solver.
  - by rewrite L, L1.
  - done.
  - apply (kids_bridge _ _ _ _ _ _ _ _ _ _ _ (subordinate s l + 1 + count_bridges k (p ++ [d])) _ link
             (S link) (heap_next (stree s1))); try done; try lia.
    + eapply device_of_agree; [exact A|cbn; split_and!; [lia|done|done]|done].
    + rewrite (ag_bus _ _ _ A); [done|]. destruct (Hfresh link); [lia|]. cbn. split_and!; [lia|done|done].
    + rewrite Hout, F1. by rewrite L, L1.
    + by rewrite Hout.
    + by rewrite Hout.
    + eapply scanned_same; [exact S1| |].
      * eapply agree_weaken; [exact A|]. intros x Hx. cbn in *. destruct (Hfresh x); [lia|]. split_and!; [lia|done|done].
      * intros d' r. rewrite <- app_assoc. apply Hout.
  - intros q Hq. rewrite O, O1; [done| |].
    + intros r. apply Hq. by left.
    + intros d' r Hd'. apply Hq. by right.
  - done.
  - lia.
  - done.
Qed.

Lemma children_spec rounds k lo l p n : (0 < rounds)%nat -> scans rounds k -> forall devs ds s,
  children_ready k s lo l p ds devs n ->
  exists s', fold_left (fun acc child =>
      match acc with None => None | Some s => scan_child rounds (pci_scan_bus rounds k) child s end) devs (Some s) = Some s' /\
    children_scanned k s s' lo l p ds devs (subordinate s l + count_kids k p ds).
Proof using Hplat.
  intros Hrounds Hscans. induction devs as [|dev devs IH]; intros ds s Hr.
  - pose proof (cr_devices _ _ _ _ _ _ _ _ Hr) as ->%Forall2_nil_inv_r. exists s. split; [done|].
    cbn. rewrite Z.add_0_r. split; try done; [constructor|apply Hr|apply Hr].
  - pose proof (cr_devices _ _ _ _ _ _ _ _ Hr) as (d & ds' & Hdev & _ & ->)%Forall2_cons_inv_r. rename ds' into ds.
    destruct (cr_pointers _ _ _ _ _ _ _ _ Hr dev) as [Hp1 Hp2]; [by left|].
    cbn [fold_left]. destruct (bridge_at (p ++ [d])) eqn:Hb.
    + pose proof (cr_room _ _ _ _ _ _ _ _ Hr) as Hroom. cbn in Hroom. fold (count_kids k p ds) in Hroom. rewrite Hb in Hroom.
      pose proof (count_kids_nonneg k p ds).
      destruct (scan_bridge rounds k s l p n d dev Hrounds Hscans (cr_ready _ _ _ _ _ _ _ _ Hr)
        (cr_number _ _ _ _ _ _ _ _ Hr) Hdev Hb (proj2 Hp1) (cr_heap _ _ _ _ _ _ _ _ Hr) Hp2
        (fun r => cr_closed _ _ _ _ _ _ _ _ Hr d r (list_elem_of_here _ _)) (cr_claims _ _ _ _ _ _ _ _ Hr)
        (cr_reset _ _ _ _ _ _ _ _ Hr) ltac:(lia) (cr_depth _ _ _ _ _ _ _ _ Hr)) as (s1 & -> & Hs1).
      destruct (IH ds s1) as (s' & -> & Hs'); [by eapply children_after_bridge|].
      exists s'. split; [done|]. cbn. fold (count_kids k p ds). rewrite Hb.
      rewrite (br_subordinate _ _ _ _ _ _ _ _ Hs1) in Hs'.
      replace (subordinate s l + (1 + count_bridges k (p ++ [d]) + count_kids k p ds))
        with (subordinate s l + 1 + count_bridges k (p ++ [d]) + count_kids k p ds) by lia.
      by eapply children_scanned_bridge.
    + destruct (scan_function rounds (pci_scan_bus rounds k) s l p d dev Hrounds Hdev Hb) as (s1 & -> & Hc).
      destruct (IH ds s1) as (s' & -> & Hs'); [by eapply children_after_core|].
      exists s'. split; [done|]. cbn. fold (count_kids k p ds). rewrite Hb.
      rewrite (sc_subordinate _ _ Hc) in Hs'. by eapply children_scanned_core.
Qed.

Lemma visible_from_nodup p d : NoDup (visible_from p d).
Proof. apply NoDup_ListNoDup, List.NoDup_filter, NoDup_ListNoDup, NoDup_seqZ. Qed.

Lemma visible_nodup p : NoDup (visible_functions p).
Proof. apply visible_from_nodup. Qed.

Lemma visible_from_range p d d0 : d ∈ visible_from p d0 -> d0 <= d < 256.
Proof. unfold visible_from. rewrite elem_of_filter_bool, elem_of_seqZ. lia. Qed.

Lemma visible_range p d : d ∈ visible_functions p -> 0 <= d < 256.
Proof. apply visible_from_range. Qed.

Lemma devices_nodup s l p ds devs : Forall2 (fun d dev => device_of s l p d dev []) ds devs -> NoDup ds -> NoDup devs.
Proof.
  intros Hd. induction Hd as [|d dev ds devs Hdev Hd IH]; intros Hds; [constructor|].
  apply NoDup_cons in Hds as [Hn Hds]. apply NoDup_cons. split; [|by apply IH].
  intros [i Hi]%list_elem_of_lookup. destruct (Forall2_lookup_r _ _ _ _ _ Hd Hi) as (d' & Hd' & Hdev').
  destruct Hdev as (f & _ & E & _), Hdev' as (f' & _ & E' & _). assert (d' = d) as -> by congruence.
  apply Hn. by eapply list_elem_of_lookup_2.
Qed.

#[local] Opaque visible_from.

Lemma count_bridges_kids k p : count_bridges (S k) p = count_kids k p (visible_functions p).
Proof. reflexivity. Qed.

Lemma scans_all rounds k : (0 < rounds)%nat -> scans rounds k.
Proof using Hplat.
  intros Hrounds. induction k as [|k IH]; intros s l p c Hs; [|rewrite (count_bridges_kids k p)]; intros Hroom Hdepth.
  { pose proof (rd_depth _ _ _ _ (sn_ready _ _ _ _ Hs)). lia. }
  cbn [PciScan.pci_scan_bus]. destruct (probe_bus_spec s l p c) as (devs & Hg & Hdevs); try apply Hs.
  set (s1 := probe_bus s l 0 255) in *. clearbody s1.
  assert (Hchildren : b_children (get_bus (stree s1) l) = devs)
    by (rewrite (gw_link _ _ _ _ Hg); cbn; by rewrite (sn_children _ _ _ _ Hs)).
  assert (Hready : children_ready k s1 (heap_next (stree s)) l p (visible_functions p) devs c).
  { assert (Hreg : forall d r, bus_reg (hw (pst s1)) (p ++ d :: r) = 0)
      by (intros d r; rewrite (gw_bus_reg _ _ _ _ Hg); apply Hs).
    pose proof (gw_heap _ _ _ _ Hg). pose proof (sn_heap _ _ _ _ Hs). pose proof (sn_number _ _ _ _ Hs).
    split; rewrite ?(gw_subordinate _ _ _ _ Hg), ?(sn_subordinate _ _ _ _ Hs); auto; try lia.
    - eapply grow_ready; [exact Hg|apply Hs].
    - apply visible_nodup.
    - eapply devices_nodup; [exact Hdevs|]. apply visible_nodup.
    - intros x Hx. apply (gw_devs _ _ _ _ Hg) in Hx. lia.
    - intros d n' Hn'. unfold claims. destruct (topo _); [|done]. rewrite Hreg.
      change (reg_subordinate 0) with 0. apply andb_false_iff. right. apply Z.leb_gt. lia.
    - intros x. rewrite (gw_reset _ _ _ _ Hg). apply Hs. }
  destruct (children_spec rounds k (heap_next (stree s)) l p c Hrounds IH devs (visible_functions p) s1 Hready)
    as (s' & E & [A L U K O C N R]).
  exists s'. split; [unfold scan_bridges; by rewrite Hchildren|].
  rewrite (gw_subordinate _ _ _ _ Hg), (sn_subordinate _ _ _ _ Hs) in U, K, C.
  split; auto.
  - eapply agree_trans; [apply Hg|exact A|]. intros x [Hx Hxl]. split; [done|].
    pose proof (gw_heap _ _ _ _ Hg). split_and!; [lia|done|].
    intros Hin%(gw_devs _ _ _ _ Hg). lia.
  - exists devs. rewrite L, (gw_link _ _ _ _ Hg). by rewrite (sn_children _ _ _ _ Hs).
  - cbn [scanned]. rewrite L, Hchildren. split_and!; [|done|done|].
    + rewrite (gw_link _ _ _ _ Hg). apply Hs.
    + intros d Hd. rewrite O; [rewrite (gw_bus_reg _ _ _ _ Hg); apply Hs|].
      intros d' r Hd'. apply not_same_slot. by intros ->.
  - intros q Hq. rewrite O; [apply Hg|]. intros d r _. apply Hq.
  - pose proof (gw_heap _ _ _ _ Hg). lia.
Qed.

(** ** Routing after the scan *)

Lemma kids_order R s lo hi l p ds devs c m : (forall lo hi link q c m, R lo hi link q c m -> c <= m) ->
  kids R s lo hi l p ds devs c m -> c <= m.
Proof. intros HR Hk. induction Hk as [|??????????? IH|??????????????????? HRR ? IH]; try lia. apply HR in HRR. lia. Qed.

Lemma scanned_order k : forall s lo hi l p c m, scanned k s lo hi l p c m -> c <= m.
Proof. induction k as [|k IH]; intros s lo hi l p c m; [done|]. intros (_ & _ & Hk & _).
  eapply kids_order; [|exact Hk]. intros. by eapply IH.
Qed.

Lemma bridge_claim s p d c m n : bridge_at (p ++ [d]) = true ->
  reg_secondary (bus_reg (hw (pst s)) (p ++ [d])) = c -> reg_subordinate (bus_reg (hw (pst s)) (p ++ [d])) = m ->
  claims (hw (pst s)) (p ++ [d]) n = (c <=? n) && (n <=? m).
Proof. unfold bridge_at. intros Hb <- <-. destruct (topo _) as [f|] eqn:Hf; [|done]. by apply (claims_window _ _ f). Qed.

Lemma function_claim s p d n : bridge_at (p ++ [d]) = false -> claims (hw (pst s)) (p ++ [d]) n = false.
Proof. unfold bridge_at, claims. intros Hb. destruct (topo _); [by rewrite Hb|done]. Qed.

(** No child claims a number outside the numbers of the children. *)
Lemma kids_no_claim R s lo hi l p ds devs c m n : (forall lo hi link q c m, R lo hi link q c m -> c <= m) ->
  kids R s lo hi l p ds devs c m -> n <= c \/ m < n -> forall d, d ∈ ds -> claims (hw (pst s)) (p ++ [d]) n = false.
Proof.
  intros HR Hk Hn. induction Hk as [|d0 ds dev devs c m Hd Hb Hr Hk IH|
    d0 ds dev devs c m1 m link lo1 hi1 Hd Hb Hr Hlink Hhi1 Hbd H1 H2 H3 HRR Hk IH]; intros d Hin;
    [by apply elem_of_nil in Hin|..]; apply elem_of_cons in Hin as [-> |Hin]; auto.
  - by apply function_claim.
  - apply HR in HRR. pose proof (kids_order _ _ _ _ _ _ _ _ _ _ HR Hk).
    rewrite (bridge_claim s p d0 (c + 1) m1) by done. apply andb_false_iff. rewrite !Z.leb_gt. lia.
  - apply HR in HRR. apply IH; [lia|done].
Qed.

(** A number of the children is claimed by exactly one of them. *)
Lemma kids_claim R s lo hi l p ds devs c m n : (forall lo hi link q c m, R lo hi link q c m -> c <= m) ->
  NoDup ds -> kids R s lo hi l p ds devs c m -> c < n <= m ->
  exists d link lo' hi' c' m', d ∈ ds /\ R lo' hi' link (p ++ [d]) c' m' /\ c' <= n <= m' /\
    claims (hw (pst s)) (p ++ [d]) n = true /\ reg_secondary (bus_reg (hw (pst s)) (p ++ [d])) = c' /\
    forall d', d' ∈ ds -> d' <> d -> claims (hw (pst s)) (p ++ [d']) n = false.
Proof.
  intros HR Hnd Hk Hn. induction Hk as [|d0 ds dev devs c m Hd Hb Hr Hk IH|
    d0 ds dev devs c m1 m link lo1 hi1 Hd Hb Hr Hlink Hhi1 Hbd H1 H2 H3 HRR Hk IH]; [lia|..];
    apply NoDup_cons in Hnd as [Hni Hnd].
  - destruct (IH Hnd Hn) as (d & link & lo' & hi' & c' & m' & Hin & HR' & Hw & Hcl & Hsec & Hu).
    exists d, link, lo', hi', c', m'. split_and!; try done; [by right|lia|lia|].
    intros d' [-> |Hin']%elem_of_cons Hne; [by apply function_claim|by apply Hu].
  - pose proof (HR _ _ _ _ _ _ HRR). destruct (Z.le_gt_cases n m1).
    + exists d0, link, lo1, hi1, (c + 1), m1. split_and!; try done; [by left|lia| |].
      * rewrite (bridge_claim s p d0 (c + 1) m1) by done. apply andb_true_iff. rewrite !Z.leb_le. lia.
      * intros d' [-> |Hin']%elem_of_cons Hne; [done|]. eapply kids_no_claim; [exact HR|exact Hk|lia|done].
    + destruct (IH Hnd ltac:(lia)) as (d & link' & lo' & hi' & c' & m' & Hin & HR' & Hw & Hcl & Hsec & Hu).
      exists d, link', lo', hi', c', m'. split_and!; try done; [by right|lia|lia|].
      intros d' [-> |Hin']%elem_of_cons Hne; [|by apply Hu].
      rewrite (bridge_claim s p d0 (c + 1) m1) by done. apply andb_false_iff. rewrite !Z.leb_gt. lia.
Qed.

Lemma scanned_route k : forall s lo hi l p c m n, scanned k s lo hi l p c m -> 0 <= c <= n -> n <= m ->
  exists q k' lo' hi' l' m', route k (hw (pst s)) p c n = Some q /\ scanned k' s lo' hi' l' q n m'.
Proof.
  induction k as [|k IH]; intros s lo hi l p c m n Hs Hc Hn; [done|]. cbn [route].
  destruct (n =? c) eqn:E; bool_to_prop; [subst n; by exists p, (S k), lo, hi, l, m|].
  destruct Hs as (_ & _ & Hk & Hinv).
  destruct (kids_claim _ _ _ _ _ _ _ _ _ _ n (fun lo hi link q c m => scanned_order k s lo hi link q c m) (visible_nodup p) Hk)
    as (d & link & lo' & hi' & c' & m' & Hd & Hs & Hw & Hcl & Hsec & Hu); [lia|].
  rewrite (find_unique _ _ d).
  - rewrite Hsec. apply (IH _ _ _ _ _ _ _ _ Hs); [|lia]. split; [|lia].
    rewrite <- Hsec. apply Z.land_nonneg. by right.
  - apply elem_of_devfns. by eapply visible_range.
  - done.
  - intros d' _ Hne. destruct (decide (d' ∈ visible_functions p)) as [Hin|Hnin]; [by apply Hu|].
    unfold claims. destruct (topo (p ++ [d'])); [|done]. rewrite (Hinv d' Hnin).
    apply andb_false_iff. right. apply Z.leb_gt. change (reg_subordinate 0) with 0. lia.
Qed.

(** Before the scan: the root bus has no devices yet and all bridges are as after reset. *)
Record fresh_domain (s : scan) (l : nat) : Prop := {
  fd_secondary : b_secondary (get_bus (stree s) l) = 0;
  fd_subordinate : subordinate s l = 0;
  fd_children : b_children (get_bus (stree s) l) = [];
  fd_heap : (l < heap_next (stree s))%nat;
  fd_closed : forall d r, bus_reg (hw (pst s)) (d :: r) = 0;
  fd_reset : forall x, reset_needed s x = false
}.

(** C7.  Scanning a PCI domain.  On hardware of any shape with at most 255 bridges to
    find, the scan ends, and the device tree it built is the hardware: on every bus
    exactly the visible functions, in order, with their identification, and behind
    every bridge the bus behind it.  Buses are numbered in depth-first order without
    gaps, and the windows in the bridges' registers route each of these numbers to
    its bus. *)
Theorem pci_domain_scan_correct s domain l links rounds :
  d_link_list (get_dev (stree s) domain) = l :: links -> fresh_domain s l ->
  (0 < rounds)%nat -> (0 < max_depth)%nat -> count_bridges max_depth [] <= 255 ->
  exists s', pci_domain_scan_bus cfg_read cfg_write enable_dev ops_enable pci_drivers scan_of reset_of
      rounds max_depth s domain = Some s' /\
    let last := count_bridges max_depth [] in
    scanned max_depth s' (heap_next (stree s)) (heap_next (stree s')) l [] 0 last /\
    forall n, 0 <= n <= last -> exists q k lo hi l' m,
      route max_depth (hw (pst s')) [] 0 n = Some q /\ scanned k s' lo hi l' q n m.
Proof using Hplat.
  intros Hl [F1 F2 F3 F4 F5 F6] Hrounds Hdepth Hcount. unfold pci_domain_scan_bus. rewrite Hl. cbn [hd].
  assert (Hs : scannable s l [] 0).
  { split; auto; [|lia]. split; [constructor|lia|done|done]. }
  destruct (scans_all rounds max_depth Hrounds s l [] 0 Hs) as (s' & E & Hs'); [lia|cbn; lia|].
  exists s'. split; [exact E|]. cbv zeta. pose proof (bs_scanned _ _ _ _ _ _ _ Hs') as Hsc.
  rewrite Z.add_0_l in Hsc. split; [exact Hsc|]. intros n Hn.
  eapply scanned_route; [exact Hsc|lia|lia].
Qed.
End Hardware.

(** ** Sample: two nested bridges, a slot with two functions, a slot whose function 0
    is missing *)
Definition sample_functions : list (list Z * pci_function) :=
  let f id hdr class := mk_function id hdr class (fun _ _ => 0) in
  [([0], f 0x01508086 0 0x06000000);
   ([8], f 0x01518086 1 0x06040000);
   ([17], f 0x1c208086 0 0x04030000);
   ([8; 0], f 0x15218086 0x80 0x02000000);
   ([8; 1], f 0x15218086 0x80 0x02000000);
   ([8; 8], f 0x244e8086 1 0x06040100);
   ([8; 8; 24], f 0x0532102b 0 0x03000000)].

Definition sample_topo (q : list Z) : option pci_function :=
  option_map snd (List.find (fun x => bool_decide (x.1 = q)) sample_functions).

Definition sample_scan_of (o : device_ops) : scan_method pci_hw :=
  match o with
  | default_pciexp_ops_bus | default_pcix_ops_bus => BridgeScan (fun _ s => s) (fun _ s => s)
  | _ => NoScan
  end.

Lemma sample_lookup q f : sample_topo q = Some f -> (q, f) ∈ sample_functions.
Proof.
  unfold sample_topo. destruct (List.find _ _) as [[q' f']|] eqn:E; [|done]. intros [= <-].
  apply find_some in E as [Hin Hq]. apply bool_decide_eq_true in Hq. cbn in Hq. subst q'. by apply list_elem_of_In.
Qed.

Definition function_ok (x : list Z * pci_function) : bool :=
  let '(q, f) := x in
  let d := List.last q 0 in
  let type := Z.land (pf_header f) 0x7f in
  let bridge := Z.shiftr (Z.shiftr (pf_class f) 8) 8 =? PCI_CLASS_BRIDGE_PCI in
  (0 <=? d) && (d <? 256) && negb (absent (pf_id f)) &&
  (if bridge then type =? PCI_HEADER_TYPE_BRIDGE else type =? PCI_HEADER_TYPE_NORMAL) &&
  (negb (is_bridge f) || (length q <? 3)%nat).

#[local] Instance sample_platform :
  Platform sample_topo 3 (fun _ _ s => s) [] sample_scan_of.
Proof.
  assert (Hok : forall q f, sample_topo q = Some f -> function_ok (q, f) = true).
  { intros q f Hf%sample_lookup. apply list_elem_of_In in Hf. revert Hf. apply forallb_forall. by vm_compute. }
  split.
  - by intros.
  - intros o. destruct o; cbn; try done.
  - done.
  - by intros drv q f ?%elem_of_nil.
  - intros q d f Hf. specialize (Hok _ _ Hf). unfold function_ok in Hok. rewrite last_last in Hok.
    rewrite !andb_true_iff, negb_true_iff in Hok. destruct Hok as [[[[H1 H2] H3] H4] _]. bool_to_prop.
    split; [lia|]. split; [done|]. destruct (_ =? PCI_CLASS_BRIDGE_PCI) eqn:E; bool_to_prop; auto.
  - intros q f Hf Hb. specialize (Hok _ _ Hf). unfold function_ok in Hok.
    apply andb_true_iff in Hok as [_ Hok]. rewrite Hb in Hok. cbn [negb orb] in Hok. by apply Nat.ltb_lt in Hok.
Qed.

Definition sample_domain : scan pci_hw :=
  mk_scan (mk_pci (mk_dstate {[ 0%nat := mk_device 0 (DEVICE_PATH_DOMAIN 0) 0 0 0 true [] [1%nat] ]}
                     {[ 1%nat := mk_bus 0 [] 0 0 ]} ∅ [0%nat] [] 2)
             (fun _ => 0) (fun _ => 0) (mk_hw (fun _ => 0) (fun _ => 7)))
    (fun _ => 0) (fun _ => 0) (fun _ => 0) (fun _ => false) (fun _ => None) (fun _ => (0, 0)).

Lemma pci_domain_scan_witness :
  count_bridges sample_topo 3 [] = 2 /\
  exists s', pci_domain_scan_bus (cfg_read sample_topo 3) (cfg_write sample_topo 3) (fun _ s => s) (fun _ _ s => s) []
      sample_scan_of (fun _ => None) 1 3 sample_domain 0 = Some s' /\
    exists q k lo hi l' m, route sample_topo 3 (hw (pst s')) [] 0 2 = Some q /\
      scanned sample_topo sample_scan_of k s' lo hi l' q 2 m.
Proof.
  assert (Hcount : count_bridges sample_topo 3 [] = 2) by (vm_compute; reflexivity).
  split; [exact Hcount|].
  destruct (pci_domain_scan_correct sample_topo 3 (fun _ s => s) (fun _ _ s => s) [] sample_scan_of (fun _ => None)
    sample_domain 0 1 [] 1) as (s' & E & _ & Hroute).
  - reflexivity.
  - split; [reflexivity|reflexivity|reflexivity|cbn; lia|reflexivity|reflexivity].
  - lia.
  - lia.
  - rewrite Hcount. lia.
  - exists s'. split; [exact E|]. apply Hroute. rewrite Hcount. lia.
Defined.
