(* ===== verification/Ddr3.v ===== *)
(** * DDR3 module data and mode registers ([src/device/dram/ddr3.c])

    Decoding the serial presence detect (SPD) bytes of a memory module, with
    their CRC, and composing mode register commands.  [None] is a divide error:
    the processor traps and the boot ends.  Enumerations are their C values;
    the text printed on the way is not modelled. *)

From S2P Require Import Prelude.

(** ** CRC *)

Definition crc_bit (crc : Z) : Z :=
  if negb (Z.land crc 0x8000 =? 0) then u16 (Z.lxor (Z.shiftl crc 1) 0x1021)
  else u16 (Z.shiftl crc 1).

Definition crc_byte (crc byte : Z) : Z :=
  Nat.iter 8 crc_bit (u16 (Z.lxor crc (Z.shiftl byte 8))).

Definition crc16 (bytes : list Z) : Z := fold_left crc_byte bytes 0.

(** [spd[i]]; the arrays of the callers have 256 bytes. *)
Definition spd_at (spd : list Z) (i : nat) : Z := nth i spd 0.

Definition spd_ddr3_calc_crc (spd : list Z) (len : Z) : Z :=
  let n_crc := if negb (Z.land (spd_at spd 0) 0x80 =? 0) then 117 else 126 in
  if len <? n_crc then 0 else crc16 (firstn (Z.to_nat n_crc) spd).

Definition spd_ddr3_calc_unique_crc (spd : list Z) (len : Z) : Z :=
  if len <? 117 + 11 then 0 else crc16 (firstn 11 (skipn 117 spd)).

(** ** Data *)

Definition SPD_MEMORY_TYPE_UNDEFINED : Z := 0x00.
Definition SPD_MEMORY_TYPE_SDRAM_DDR3 : Z := 0x0b.
Definition SPD_DIMM_TYPE_RDIMM : Z := 0x01.
Definition SPD_DIMM_TYPE_MINI_RDIMM : Z := 0x05.
Definition SPD_DIMM_TYPE_72B_SO_RDIMM : Z := 0x09.

Inductive spd_status :=
  SPD_STATUS_OK | SPD_STATUS_INVALID | SPD_STATUS_CRC_ERROR | SPD_STATUS_INVALID_FIELD.

Record dimm_flags := mk_flags
  { pins_mirrored : bool; operable_1_50V : bool; operable_1_35V : bool; operable_1_25V : bool;
    is_ecc : bool; dll_off_mode : bool; rzq6_supported : bool; rzq7_supported : bool;
    pasr : bool; odts : bool; asr : bool; ext_temp_range : bool; ext_temp_refresh : bool;
    therm_sensor : bool }.

Definition no_flags : dimm_flags :=
  mk_flags false false false false false false false false false false false false false false.

Record dimm_attr := mk_dimm
  { dram_type : Z; dimm_type : Z; cas_supported : Z; dflags : dimm_flags;
    width : Z; ranks : Z; row_bits : Z; col_bits : Z; size_mb : Z;
    tCK : Z; tAA : Z; tWR : Z; tRCD : Z; tRRD : Z; tRP : Z; tRAS : Z; tRC : Z; tRFC : Z;
    tWTR : Z; tRTP : Z; tFAW : Z;
    reference_card : Z; voltage : Z; dimms_per_channel : Z; manufacturer_id : Z;
    part_number : list Z }.

Definition dimm_is_registered (type : Z) : bool :=
  (type =? SPD_DIMM_TYPE_RDIMM) || (type =? SPD_DIMM_TYPE_MINI_RDIMM)
  || (type =? SPD_DIMM_TYPE_72B_SO_RDIMM).

(** The fields written before the memory type is accepted. *)
Definition with_header (type : Z) (d : dimm_attr) : dimm_attr :=
  mk_dimm type (dimm_type d) (cas_supported d) no_flags (width d) (ranks d) (row_bits d)
    (col_bits d) (size_mb d) (tCK d) (tAA d) (tWR d) (tRCD d) (tRRD d) (tRP d) (tRAS d) (tRC d)
    (tRFC d) (tWTR d) (tRTP d) (tFAW d) (reference_card d) (voltage d) 3
    (manufacturer_id d) (part_number d).

Definition with_dram_type (type : Z) (d : dimm_attr) : dimm_attr :=
  mk_dimm type (dimm_type d) (cas_supported d) (dflags d) (width d) (ranks d) (row_bits d)
    (col_bits d) (size_mb d) (tCK d) (tAA d) (tWR d) (tRCD d) (tRRD d) (tRP d) (tRAS d) (tRC d)
    (tRFC d) (tWTR d) (tRTP d) (tFAW d) (reference_card d) (voltage d) (dimms_per_channel d)
    (manufacturer_id d) (part_number d).

(** ** Decoding *)

Definition bit (x n : Z) : bool := negb (Z.land x (Z.shiftl 1 n) =? 0).

(** [(s32)((s8) spd * ftb - 500) / 1000], added to a [u32]. *)
Definition ftb_correct (t ftb byte : Z) : Z :=
  u32 (t + Z.quot (s32 (u32 (u32 (s8 byte * ftb) - 500))) 1000).

Definition spd_decode_ddr3 (dimm : dimm_attr) (spd : list Z) : option (spd_status * dimm_attr) :=
  let b := spd_at spd in
  let invalid (bad : bool) ret := if bad then SPD_STATUS_INVALID_FIELD else ret in
  if negb (b 2%nat =? SPD_MEMORY_TYPE_SDRAM_DDR3) then
    Some (SPD_STATUS_INVALID, with_header SPD_MEMORY_TYPE_UNDEFINED dimm)
  else
    let crc := spd_ddr3_calc_crc spd 256 in
    let spd_crc := u16 (Z.shiftl (b 127%nat) 8 + b 126%nat) in
    let ret := if negb (crc =? spd_crc) then SPD_STATUS_CRC_ERROR else SPD_STATUS_OK in
    (* banks and capacity *)
    let val := Z.land (Z.shiftr (b 4%nat) 4) 0x07 in
    let ret := invalid (0x03 <? val) ret in
    let capacity_shift := Z.land (b 4%nat) 0x0f in
    let ret := invalid (0x06 <? capacity_shift) ret in
    (* addressing *)
    let val := Z.land (Z.shiftr (b 5%nat) 3) 0x07 in
    let ret := invalid (0x04 <? val) ret in
    let row_bits := u8 (val + 12) in
    let val := Z.land (b 5%nat) 0x07 in
    let ret := invalid (0x03 <? val) ret in
    let col_bits := u8 (val + 9) in
    (* nominal voltage *)
    let op_1_25V := bit (b 6%nat) 2 in
    let voltage := if op_1_25V then 1250 else voltage dimm in
    let op_1_35V := bit (b 6%nat) 1 in
    let voltage := if op_1_35V then 1300 else voltage in
    let op_1_50V := negb (bit (b 6%nat) 0) in
    let voltage := if op_1_50V then 1500 else voltage in
    (* organization *)
    let val := Z.land (Z.shiftr (b 7%nat) 3) 0x07 in
    let ret := invalid (3 <? val) ret in
    let ranks := u8 (val + 1) in
    let val := Z.land (b 7%nat) 0x07 in
    let ret := invalid (3 <? val) ret in
    let width := u8 (Z.shiftl 4 val) in
    (* bus *)
    let val := Z.land (Z.shiftr (b 8%nat) 3) 0x03 in
    let ret := invalid (1 <? val) ret in
    let is_ecc := negb (val =? 0) in
    let val := Z.land (b 8%nat) 0x07 in
    let ret := invalid (3 <? val) ret in
    let bus_width := u8 (Z.shiftl 8 val) in
    if width =? 0 then None else
    let size_mb := u32 (Z.shiftl 1 (capacity_shift + (25 - 20)) * bus_width * ranks / width) in
    if b 11%nat =? 0 then None else
    let mtb := u32 (Z.shiftl (b 10%nat) 8) / b 11%nat in
    let time x := u32 (x * mtb) in
    let tCK := time (b 12%nat) in
    let cas_supported := u16 (Z.shiftl (b 15%nat) 8 + b 14%nat) in
    let tAA := time (b 16%nat) in
    let tWR := time (b 17%nat) in
    let tRCD := time (b 18%nat) in
    let tRRD := time (b 19%nat) in
    let tRP := time (b 20%nat) in
    let tRAS := time (Z.shiftl (Z.land (b 21%nat) 0x0f) 8 + b 22%nat) in
    let tRC := time (Z.shiftl (Z.land (b 21%nat) 0xf0) 4 + b 23%nat) in
    let tRFC := time (Z.shiftl (b 25%nat) 8 + b 24%nat) in
    let tWTR := time (b 26%nat) in
    let tRTP := time (b 27%nat) in
    let tFAW := time (Z.shiftl (Z.land (b 28%nat) 0x0f) 8 + b 29%nat) in
    (* the fine time base, from revision 1.1 on *)
    let fine := (0x11 <=? b 1%nat) && negb (Z.land (b 9%nat) 0x0f =? 0) in
    let ftb := Z.shiftl (Z.land (b 9%nat) 0xf0) 4 / Z.land (b 9%nat) 0x0f in
    let correct t i := if fine then ftb_correct t ftb (b i) else t in
    let tCK := correct tCK 34%nat in
    let tAA := correct tAA 35%nat in
    let tRCD := correct tRCD 36%nat in
    let tRP := correct tRP 37%nat in
    let tRC := correct tRC 38%nat in
    let flags := mk_flags (bit (b 63%nat) 0) op_1_50V op_1_35V op_1_25V is_ecc
      (bit (b 30%nat) 7) (bit (b 30%nat) 0) (bit (b 30%nat) 1)
      (bit (b 31%nat) 7) (bit (b 31%nat) 3) (bit (b 31%nat) 2) (bit (b 31%nat) 1)
      (bit (b 31%nat) 0) (bit (b 32%nat) 7) in
    Some (ret, mk_dimm SPD_MEMORY_TYPE_SDRAM_DDR3 (Z.land (b 3%nat) 0xf) cas_supported flags
      width ranks row_bits col_bits size_mb tCK tAA tWR tRCD tRRD tRP tRAS tRC tRFC tWTR tRTP tFAW
      (Z.land (b 62%nat) 0x1f) voltage 3
      (u16 (Z.lor (Z.shiftl (b 118%nat) 8) (b 117%nat)))
      (firstn 16 (skipn 128 spd) ++ [0])).

Inductive ddr3_xmp_profile := DDR3_XMP_PROFILE_1 | DDR3_XMP_PROFILE_2.

(** The profile's enable bit, its first byte, where its time base is, and where
    its number of modules per channel begins. *)
Definition xmp_place (profile : ddr3_xmp_profile) : Z * nat * nat * Z :=
  match profile with
  | DDR3_XMP_PROFILE_1 => (0, 185%nat, 180%nat, 2)
  | DDR3_XMP_PROFILE_2 => (1, 220%nat, 182%nat, 4)
  end.

Definition spd_xmp_decode_ddr3 (dimm : dimm_attr) (spd : list Z) (profile : ddr3_xmp_profile)
    : option (spd_status * dimm_attr) :=
  let b := spd_at spd in
  match spd_decode_ddr3 dimm spd with
  | None => None
  | Some (SPD_STATUS_OK, dimm) =>
      let refuse := Some (SPD_STATUS_INVALID, with_dram_type SPD_MEMORY_TYPE_UNDEFINED dimm) in
      if negb (b 176%nat =? 0x0c) || negb (b 177%nat =? 0x4a) then refuse
      else
        let '(enable, first, base, per_channel) := xmp_place profile in
        if negb (bit (b 178%nat) enable) then refuse
        else if b (base + 1)%nat =? 0 then None
        else
          let xmp i := b (first + i)%nat in
          let mtb := u32 (Z.shiftl (b base) 8) / b (base + 1)%nat in
          let time x := u32 (x * mtb) in
          let voltage := u16 (Z.land (xmp 0%nat) 1 * 50) in
          let voltage := u16 (voltage + Z.land (Z.shiftr (xmp 0%nat) 1) 0xf * 100) in
          let voltage := u16 (voltage + Z.land (Z.shiftr (xmp 0%nat) 5) 0x3 * 1000) in
          Some (SPD_STATUS_OK, mk_dimm (dram_type dimm) (dimm_type dimm)
            (u16 (Z.shiftl (xmp 9%nat) 8 + xmp 8%nat)) (dflags dimm) (width dimm) (ranks dimm)
            (row_bits dimm) (col_bits dimm) (size_mb dimm)
            (time (xmp 1%nat)) (time (xmp 2%nat)) (time (xmp 8%nat)) (time (xmp 7%nat))
            (time (xmp 17%nat)) (time (xmp 6%nat))
            (time (Z.shiftl (Z.land (xmp 9%nat) 0x0f) 8 + xmp 10%nat))
            (time (Z.shiftl (Z.land (xmp 9%nat) 0xf0) 4 + xmp 11%nat))
            (time (Z.shiftl (xmp 15%nat) 8 + xmp 14%nat))
            (time (xmp 20%nat)) (time (xmp 16%nat))
            (time (Z.shiftl (Z.land (xmp 18%nat) 0x0f) 8 + xmp 19%nat))
            (reference_card dimm) voltage
            (Z.land (Z.shiftr (b 178%nat) per_channel) 0x3 + 1)
            (manufacturer_id dimm) (part_number dimm))
  | Some r => Some r
  end.

(** ** Mode registers *)

Definition ddr3_twr_to_mr0_map (twr : Z) : Z :=
  if (5 <=? twr) && (twr <=? 8) then u16 (Z.shiftl (twr - 4) 9)
  else if (9 <=? twr) && (twr <=? 14) then u16 (Z.shiftl (Z.shiftr (twr + 1) 1) 9)
  else 0.

Definition ddr3_cas_to_mr0_map (cas : Z) : Z :=
  let mask := Z.shiftl (Z.land (cas - 4) 0x07) 4 in
  if bit (cas - 4) 3 then Z.lor mask (Z.shiftl 1 2) else mask.

Definition DDR3_MR0_PRECHARGE_FAST : Z := 1.
Definition DDR3_MR0_DLL_RESET_YES : Z := 1.
Definition DDR3_MR0_MODE_TEST : Z := 1.
Definition DDR3_MR0_BURST_TYPE_INTERLEAVED : Z := 1.

(** [cmd |= mask] under a condition. *)
Definition or_if (c : bool) (mask cmd : Z) : Z := if c then Z.lor cmd mask else cmd.

Definition ddr3_get_mr0 (precharge_pd write_recovery dll_reset mode cas burst_type burst_length : Z)
    : Z :=
  let cmd := 0 in
  let cmd := or_if (precharge_pd =? DDR3_MR0_PRECHARGE_FAST) (Z.shiftl 1 12) cmd in
  let cmd := Z.lor cmd (ddr3_twr_to_mr0_map write_recovery) in
  let cmd := or_if (dll_reset =? DDR3_MR0_DLL_RESET_YES) (Z.shiftl 1 8) cmd in
  let cmd := or_if (mode =? DDR3_MR0_MODE_TEST) (Z.shiftl 1 7) cmd in
  let cmd := Z.lor cmd (ddr3_cas_to_mr0_map cas) in
  let cmd := or_if (burst_type =? DDR3_MR0_BURST_TYPE_INTERLEAVED) (Z.shiftl 1 3) cmd in
  Z.lor cmd (Z.land burst_length 0x03).

Definition ddr3_rtt_nom_to_mr1_map (rtt_nom : Z) : Z :=
  or_if (bit rtt_nom 0) (Z.shiftl 1 2)
    (or_if (bit rtt_nom 1) (Z.shiftl 1 6) (or_if (bit rtt_nom 2) (Z.shiftl 1 9) 0)).

Definition ddr3_ods_to_mr1_map (ods : Z) : Z :=
  or_if (bit ods 0) (Z.shiftl 1 1) (or_if (bit ods 1) (Z.shiftl 1 5) 0).

Definition DDR3_MR1_QOFF_DISABLE : Z := 1.
Definition DDR3_MR1_TQDS_ENABLE : Z := 1.
Definition DDR3_MR1_WRLVL_ENABLE : Z := 1.
Definition DDR3_MR1_DLL_DISABLE : Z := 1.

Definition ddr3_get_mr1 (qoff tqds rtt_nom write_leveling ods additive_latency dll_disable : Z)
    : Z :=
  let cmd := Z.shiftl 1 16 in
  let cmd := or_if (qoff =? DDR3_MR1_QOFF_DISABLE) (Z.shiftl 1 12) cmd in
  let cmd := or_if (tqds =? DDR3_MR1_TQDS_ENABLE) (Z.shiftl 1 11) cmd in
  let cmd := Z.lor cmd (ddr3_rtt_nom_to_mr1_map rtt_nom) in
  let cmd := or_if (write_leveling =? DDR3_MR1_WRLVL_ENABLE) (Z.shiftl 1 7) cmd in
  let cmd := Z.lor cmd (ddr3_ods_to_mr1_map ods) in
  let cmd := Z.lor cmd (Z.shiftl (Z.land additive_latency 0x03) 3) in
  or_if (dll_disable =? DDR3_MR1_DLL_DISABLE) (Z.shiftl 1 0) cmd.

Definition DDR3_MR2_SRT_EXTENDED : Z := 1.
Definition DDR3_MR2_ASR_AUTO : Z := 1.

Definition ddr3_get_mr2 (rtt_wr extended_temp self_refresh cas_cwl : Z) : Z :=
  let cmd := Z.shiftl 2 16 in
  let cmd := Z.lor cmd (Z.shiftl (Z.land rtt_wr 0x03) 9) in
  let cmd := or_if (extended_temp =? DDR3_MR2_SRT_EXTENDED) (Z.shiftl 1 7) cmd in
  let cmd := or_if (self_refresh =? DDR3_MR2_ASR_AUTO) (Z.shiftl 1 6) cmd in
  Z.lor cmd (Z.shiftl (Z.land (cas_cwl - 5) 0x07) 3).

Definition ddr3_get_mr3 (dataflow_from_mpr : Z) : Z :=
  or_if (negb (dataflow_from_mpr =? 0)) (Z.shiftl 1 2) (Z.shiftl 3 16).

(** MA3, MA5, MA7 and BA0. *)
Definition lowbits : Z :=
  Z.lor (Z.lor (Z.shiftl 1 3) (Z.shiftl 1 5)) (Z.lor (Z.shiftl 1 7) (Z.shiftl 1 16)).

Definition ddr3_mrs_mirror_pins (cmd : Z) : Z :=
  let downshift := Z.land cmd (Z.shiftl lowbits 1) in
  let upshift := Z.land cmd lowbits in
  let cmd := Z.land cmd (bnot 32 (Z.lor lowbits (Z.shiftl lowbits 1))) in
  Z.lor cmd (Z.lor (Z.shiftr downshift 1) (u32 (Z.shiftl upshift 1))).

(** ** The CRC is a polynomial remainder *)

(** [q] times x^16 + x^12 + x^5 + 1 over GF(2). *)
Definition times_poly (q : Z) : Z :=
  Z.lxor (Z.shiftl q 16) (Z.lxor (Z.shiftl q 12) (Z.lxor (Z.shiftl q 5) q)).

Definition congr (a b : Z) : Prop := exists q, 0 <= q /\ Z.lxor a b = times_poly q.

Ltac bitwise n Hn := apply Z.bits_inj'; intros n Hn;
  repeat first [rewrite Z.lxor_spec | rewrite Z.shiftl_spec by lia].

Lemma times_poly_lxor a b : times_poly (Z.lxor a b) = Z.lxor (times_poly a) (times_poly b).
Proof.
  unfold times_poly. bitwise n Hn.
  repeat match goal with |- context [Z.testbit ?x ?i] =>
    generalize (Z.testbit x i); intros [] end; reflexivity.
Qed.

Lemma times_poly_shiftl a k : 0 <= k -> times_poly (Z.shiftl a k) = Z.shiftl (times_poly a) k.
Proof.
  intros Hk. unfold times_poly. rewrite !Z.shiftl_lxor, !Z.shiftl_shiftl by lia.
  by rewrite !(Z.add_comm _ k).
Qed.

Lemma congr_refl a : congr a a.
Proof. exists 0. by rewrite Z.lxor_nilpotent. Qed.

Lemma congr_trans a b c : congr a b -> congr b c -> congr a c.
Proof.
  intros (q & Hq & E) (r & Hr & F). exists (Z.lxor q r). split; [by apply Z.lxor_nonneg|].
  rewrite times_poly_lxor, <- E, <- F, <- (Z.lxor_0_r a) at 1.
  by rewrite <- (Z.lxor_nilpotent b), !Z.lxor_assoc.
Qed.

Lemma congr_sym a b : congr a b -> congr b a.
Proof. intros (q & Hq & E). exists q. by rewrite Z.lxor_comm. Qed.

Lemma congr_lxor a b c : congr a b -> congr (Z.lxor a c) (Z.lxor b c).
Proof.
  intros (q & Hq & E). exists q. split; [done|]. rewrite <- E.
  rewrite (Z.lxor_comm b c), Z.lxor_assoc, <- (Z.lxor_assoc c c), Z.lxor_nilpotent.
  by rewrite Z.lxor_0_l.
Qed.

Lemma congr_shiftl a b k : 0 <= k -> congr a b -> congr (Z.shiftl a k) (Z.shiftl b k).
Proof.
  intros Hk (q & Hq & E). exists (Z.shiftl q k). split; [by apply Z.shiftl_nonneg|].
  by rewrite <- Z.shiftl_lxor, E, times_poly_shiftl.
Qed.

(** The degree of a multiple. *)
Lemma times_poly_big q : 0 < q -> 2 ^ 16 <= times_poly q.
Proof.
  intros Hq. pose proof (Z.log2_nonneg q) as Hl.
  assert (Hb : Z.testbit (times_poly q) (Z.log2 q + 16) = true).
  { unfold times_poly. rewrite !Z.lxor_spec, !Z.shiftl_spec by lia.
    rewrite (Z.bits_above_log2 q (Z.log2 q + 16)) by lia.
    rewrite (Z.bits_above_log2 q (Z.log2 q + 16 - 12)) by lia.
    rewrite (Z.bits_above_log2 q (Z.log2 q + 16 - 5)) by lia.
    replace (Z.log2 q + 16 - 16) with (Z.log2 q) by lia. by rewrite Z.bit_log2. }
  destruct (Z.lt_ge_cases (times_poly q) (2 ^ 16)) as [Hs|]; [|done].
  assert (H0 : 0 <= times_poly q).
  { unfold times_poly. repeat (apply Z.lxor_nonneg; split; intros _);
      rewrite ?Z.shiftl_nonneg; try lia; repeat apply Z.lxor_nonneg; rewrite ?Z.shiftl_nonneg; lia. }
  destruct (Z.eq_dec (times_poly q) 0) as [E|E]; [by rewrite E, Z.bits_0 in Hb|].
  rewrite Z.bits_above_log2 in Hb; [done|lia|].
  apply Z.le_lt_trans with 15; [|lia]. apply Z.lt_succ_r. apply Z.log2_lt_pow2; lia.
Qed.

Lemma lxor_small a b k : 0 <= k -> 0 <= a < 2 ^ k -> 0 <= b < 2 ^ k -> 0 <= Z.lxor a b < 2 ^ k.
Proof.
  intros Hk Ha Hb. assert (H0 : 0 <= Z.lxor a b) by (apply Z.lxor_nonneg; lia). split; [done|].
  destruct (Z.eq_dec (Z.lxor a b) 0) as [->|E]; [lia|].
  destruct (Z.eq_dec a 0) as [->|Ea]; [rewrite Z.lxor_0_l; lia|].
  destruct (Z.eq_dec b 0) as [->|Eb]; [rewrite Z.lxor_0_r; lia|].
  apply Z.log2_lt_pow2; [lia|]. pose proof (Z.log2_lxor a b ltac:(lia) ltac:(lia)).
  assert (Z.log2 a < k) by (apply Z.log2_lt_pow2; lia).
  assert (Z.log2 b < k) by (apply Z.log2_lt_pow2; lia). lia.
Qed.

(** Remainders are unique. *)
Lemma congr_small a b : 0 <= a < 2 ^ 16 -> 0 <= b < 2 ^ 16 -> congr a b -> a = b.
Proof.
  intros Ha Hb (q & Hq & E). pose proof (lxor_small a b 16 ltac:(lia) Ha Hb).
  destruct (Z.eq_dec q 0) as [->|].
  - by apply Z.lxor_eq.
  - pose proof (times_poly_big q ltac:(lia)). lia.
Qed.

(** x is invertible. *)
Lemma congr_half a : congr (Z.shiftl a 1) 0 -> congr a 0.
Proof.
  intros (q & Hq & E). rewrite Z.lxor_0_r in E. exists (Z.shiftr q 1).
  split; [by apply Z.shiftr_nonneg|]. rewrite Z.lxor_0_r.
  assert (Hq0 : q = Z.shiftl (Z.shiftr q 1) 1).
  { assert (H0 : Z.testbit q 0 = false).
    { apply (f_equal (fun x => Z.testbit x 0)) in E. unfold times_poly in E.
      rewrite !Z.lxor_spec, !(Z.shiftl_spec_low _ _ 0) in E by lia. by destruct (Z.testbit q 0). }
    rewrite <- Z.ldiff_ones_r by lia. change (Z.ones 1) with 1.
    bitwise n Hn. rewrite Z.ldiff_spec. destruct (Z.eq_dec n 0) as [->|].
    - by rewrite H0.
    - assert (Z.testbit 1 n = false) as ->; [|by rewrite andb_true_r].
      apply Z.bits_above_log2; [lia|]. change (Z.log2 1) with 0. lia. }
  rewrite Hq0, times_poly_shiftl in E by lia.
  apply (f_equal (fun x => Z.shiftr x 1)) in E. by rewrite !Z.shiftr_shiftl_l, !Z.shiftl_0_r in E by lia.
Qed.

Lemma congr_unshift a k : 0 <= k -> congr (Z.shiftl a k) 0 -> congr a 0.
Proof.
  intros Hk. revert a. pattern k. apply natlike_ind; [|clear k Hk|done].
  - intros a. by rewrite Z.shiftl_0_r.
  - intros k Hk IH a Ha. apply IH, congr_half. rewrite Z.shiftl_shiftl by lia.
    by rewrite Z.add_1_r.
Qed.

(** The mask tests of the source. *)
Lemma bit_testbit x n : 0 <= n -> bit x n = Z.testbit x n.
Proof.
  intros Hn. unfold bit. rewrite Z.shiftl_1_l. destruct (Z.testbit x n) eqn:E.
  - apply negb_true_iff, Z.eqb_neq. intros H0. apply (f_equal (fun y => Z.testbit y n)) in H0.
    by rewrite Z.land_spec, Z.pow2_bits_true, E, Z.bits_0 in H0.
  - apply negb_false_iff, Z.eqb_eq. apply Z.bits_inj'. intros m Hm.
    rewrite Z.land_spec, Z.pow2_bits_eqb, Z.bits_0 by lia.
    destruct (n =? m) eqn:En; bool_to_prop; [subst; by rewrite E|by rewrite andb_false_r].
Qed.

(** One bit of the loop multiplies by x. *)
Lemma crc_bit_spec c : 0 <= c < 2 ^ 16 ->
  0 <= crc_bit c < 2 ^ 16 /\ congr (crc_bit c) (Z.shiftl c 1).
Proof.
  intros Hc. split; [unfold crc_bit; case_bool; apply wrap_range; lia|].
  assert (Hhigh : forall n, 16 <= n -> Z.testbit c n = false).
  { intros n Hn. destruct (Z.eq_dec c 0) as [->|]; [apply Z.bits_0|]. apply Z.bits_above_log2; [lia|].
    assert (Z.log2 c < 16) by (apply Z.log2_lt_pow2; lia). lia. }
  assert (Hu : forall x n, 0 <= n -> Z.testbit (u16 x) n = (n <? 16) && Z.testbit x n).
  { intros x n Hn. unfold u16, wrap. by rewrite Z.testbit_mod_pow2 by lia. }
  unfold crc_bit. change (negb (Z.land c 0x8000 =? 0)) with (bit c 15). rewrite bit_testbit by lia.
  exists (if Z.testbit c 15 then 1 else 0). split; [by case_bool|].
  destruct (Z.testbit c 15) eqn:E.
  - change (times_poly 1) with (Z.lxor 0x1021 (2 ^ 16)). bitwise n Hn.
    rewrite Hu, Z.lxor_spec, !Z.shiftl_spec, Z.pow2_bits_eqb by lia.
    destruct (n <? 16) eqn:En; bool_to_prop.
    + replace (16 =? n) with false by (symmetry; apply Z.eqb_neq; lia). cbn [andb].
      by destruct (Z.testbit c (n - 1)), (Z.testbit 0x1021 n).
    + assert (Z.testbit 0x1021 n = false) as ->.
      { apply Z.bits_above_log2; [lia|]. change (Z.log2 0x1021) with 12. lia. }
      destruct (16 =? n) eqn:E16; bool_to_prop; [subst n; change (16 - 1) with 15; by rewrite E|].
      by rewrite Hhigh by lia.
  - change (times_poly 0) with 0. apply Z.lxor_eq_0_iff. bitwise n Hn.
    rewrite Hu by lia. rewrite ?Z.shiftl_spec by lia.
    destruct (n <? 16) eqn:En; bool_to_prop; [done|]. cbn [andb].
    destruct (Z.eq_dec n 16) as [->|]; [change (16 - 1) with 15; by rewrite E|]. by rewrite Hhigh by lia.
Qed.

Lemma crc_bits_spec k : forall c, 0 <= c < 2 ^ 16 ->
  0 <= Nat.iter k crc_bit c < 2 ^ 16 /\ congr (Nat.iter k crc_bit c) (Z.shiftl c (Z.of_nat k)).
Proof.
  induction k as [|k IH]; intros c Hc; [split; [done|apply congr_refl]|].
  destruct (IH c Hc) as [Hr Hk]. destruct (crc_bit_spec _ Hr) as [Hr' Hb]. split; [done|].
  simpl. apply (congr_trans _ _ _ Hb). replace (Z.shiftl c (Z.of_nat (S k)))
    with (Z.shiftl (Z.shiftl c (Z.of_nat k)) 1).
  - by apply congr_shiftl.
  - rewrite Z.shiftl_shiftl by lia. f_equal. lia.
Qed.

(** The bytes as one number, the first byte highest. *)
Definition message (bytes : list Z) : Z :=
  fold_left (fun m b => Z.lxor (Z.shiftl m 8) b) bytes 0.

Lemma crc_byte_spec c m b : 0 <= c < 2 ^ 16 -> is_byte b -> congr c (Z.shiftl m 16) ->
  0 <= crc_byte c b < 2 ^ 16 /\
  congr (crc_byte c b) (Z.shiftl (Z.lxor (Z.shiftl m 8) b) 16).
Proof.
  intros Hc Hb Hm. unfold crc_byte.
  assert (Hx : 0 <= Z.lxor c (Z.shiftl b 8) < 2 ^ 16).
  { apply lxor_small; [lia|done|]. unfold is_byte in Hb. rewrite Z.shiftl_mul_pow2 by lia. lia. }
  unfold u16. rewrite wrap_small by done. destruct (crc_bits_spec 8 _ Hx) as [H1 H2].
  split; [done|]. apply (congr_trans _ _ _ H2).
  replace (Z.shiftl (Z.lxor (Z.shiftl m 8) b) 16)
    with (Z.shiftl (Z.lxor (Z.shiftl m 16) (Z.shiftl b 8)) 8).
  - apply congr_shiftl; [lia|]. by apply congr_lxor.
  - rewrite !Z.shiftl_lxor, !Z.shiftl_shiftl by lia. done.
Qed.

Lemma crc16_spec bytes : Forall is_byte bytes ->
  0 <= crc16 bytes < 2 ^ 16 /\ congr (crc16 bytes) (Z.shiftl (message bytes) 16).
Proof.
  intros HF. unfold crc16, message.
  assert (H : forall c m, 0 <= c < 2 ^ 16 -> congr c (Z.shiftl m 16) ->
    0 <= fold_left crc_byte bytes c < 2 ^ 16 /\
    congr (fold_left crc_byte bytes c)
      (Z.shiftl (fold_left (fun m b => Z.lxor (Z.shiftl m 8) b) bytes m) 16)).
  { induction HF as [|b l Hb HF IH]; intros c m Hc Hm; [done|]. simpl.
    destruct (crc_byte_spec c m b Hc Hb Hm). by apply IH. }
  apply H; [lia|apply congr_refl].
Qed.

(** C38.  The CRC of the SPD is the remainder of the bytes, followed by 16 zero
    bits and read as a polynomial over GF(2), by x^16 + x^12 + x^5 + 1: it has
    16 bits, differs from that polynomial by a multiple, and no other 16-bit
    number does.  A change confined to 16 consecutive bits always changes it. *)
Theorem crc16_remainder bytes : Forall is_byte bytes ->
  0 <= crc16 bytes < 2 ^ 16 /\
  (exists q, 0 <= q /\ Z.lxor (Z.shiftl (message bytes) 16) (crc16 bytes) = times_poly q) /\
  (forall r q, 0 <= r < 2 ^ 16 -> 0 <= q ->
     Z.lxor (Z.shiftl (message bytes) 16) r = times_poly q -> r = crc16 bytes) /\
  (forall bytes' e k, Forall is_byte bytes' -> 0 < e < 2 ^ 16 -> 0 <= k ->
     Z.lxor (message bytes) (message bytes') = Z.shiftl e k -> crc16 bytes' <> crc16 bytes).
Proof.
  intros HF. destruct (crc16_spec bytes HF) as [Hr Hc]. split; [done|].
  split; [by apply congr_sym in Hc|]. split.
  - intros r q H0 Hq E. apply congr_small; [done|done|]. apply (congr_trans _ (Z.shiftl (message bytes) 16)).
    + apply congr_sym. by exists q.
    + by apply congr_sym.
  - intros bytes' e k HF' He Hk E Heq. destruct (crc16_spec bytes' HF') as [_ Hc'].
    rewrite Heq in Hc'. apply congr_sym in Hc. pose proof (congr_trans _ _ _ Hc Hc') as (q & Hq & Hx).
    rewrite <- Z.shiftl_lxor, E in Hx.
    assert (H0 : congr (Z.shiftl (Z.shiftl e k) 16) 0) by (exists q; by rewrite Z.lxor_0_r).
    apply congr_unshift in H0; [|lia]. apply congr_unshift in H0; [|lia].
    apply congr_small in H0; lia.
Qed.

(** "123456789" has the check value of CRC-16/XMODEM. *)
Lemma crc16_remainder_witness :
  crc16 [0x31; 0x32; 0x33; 0x34; 0x35; 0x36; 0x37; 0x38; 0x39] = 0x31c3 /\
  exists q, 0 <= q /\ Z.lxor (Z.shiftl (message [0x31; 0x32]) 16) (crc16 [0x31; 0x32]) = times_poly q.
Proof.
  split; [vm_compute; reflexivity|].
  destruct (crc16_remainder [0x31; 0x32]) as (_ & H & _); [|exact H].
  repeat constructor; discriminate.
Defined.

(** ** What decoding accepts and reports *)

(** The fields of the standard, by byte and bits. *)
Definition spd_field (spd : list Z) (byte low len : Z) : Z :=
  Z.land (Z.shiftr (spd_at spd (Z.to_nat byte)) low) (2 ^ len - 1).

Definition fields_valid (spd : list Z) : bool :=
  (spd_field spd 4 4 3 <=? 3) && (spd_field spd 4 0 4 <=? 6)
  && (spd_field spd 5 3 3 <=? 4) && (spd_field spd 5 0 3 <=? 3)
  && (spd_field spd 7 3 3 <=? 3) && (spd_field spd 7 0 3 <=? 3)
  && (spd_field spd 8 3 2 <=? 1) && (spd_field spd 8 0 3 <=? 3).

Definition crc_valid (spd : list Z) : bool :=
  spd_ddr3_calc_crc spd 256 =? u16 (Z.shiftl (spd_at spd 127) 8 + spd_at spd 126).

Lemma spd_field_range spd byte low len : 0 <= len -> 0 <= spd_field spd byte low len < 2 ^ len.
Proof.
  intros Hl. unfold spd_field. rewrite land_low_mask by done.
  apply Z.mod_pos_bound, Z.pow_pos_nonneg; lia.
Qed.

Lemma spd_status_spec spd (r : spd_status) :
  (if 3 <? spd_field spd 8 0 3 then SPD_STATUS_INVALID_FIELD else
   if 1 <? spd_field spd 8 3 2 then SPD_STATUS_INVALID_FIELD else
   if 3 <? spd_field spd 7 0 3 then SPD_STATUS_INVALID_FIELD else
   if 3 <? spd_field spd 7 3 3 then SPD_STATUS_INVALID_FIELD else
   if 3 <? spd_field spd 5 0 3 then SPD_STATUS_INVALID_FIELD else
   if 4 <? spd_field spd 5 3 3 then SPD_STATUS_INVALID_FIELD else
   if 6 <? spd_field spd 4 0 4 then SPD_STATUS_INVALID_FIELD else
   if 3 <? spd_field spd 4 4 3 then SPD_STATUS_INVALID_FIELD else r)
  = if fields_valid spd then r else SPD_STATUS_INVALID_FIELD.
Proof.
  unfold fields_valid. rewrite !Z.leb_antisym.
  repeat (case_bool; cbn [negb andb]; rewrite ?andb_false_r; try done).
Qed.

(** The time base of the module, and a time in its units. *)
Definition spd_mtb (spd : list Z) : Z := 256 * spd_at spd 10 / spd_at spd 11.

Lemma spd_at_byte spd i : Forall is_byte spd -> is_byte (spd_at spd i).
Proof.
  intros H. unfold spd_at. destruct (Nat.lt_ge_cases i (length spd)) as [Hi|Hi].
  - rewrite Forall_forall in H. apply H, list_elem_of_In, nth_In. done.
  - rewrite nth_overflow by lia. by vm_compute.
Qed.

Lemma mtb_range spd : Forall is_byte spd -> spd_at spd 11 <> 0 ->
  u32 (Z.shiftl (spd_at spd 10) 8) / spd_at spd 11 = spd_mtb spd /\ 0 <= spd_mtb spd <= 65280.
Proof.
  intros H H0. pose proof (spd_at_byte spd 10 H) as H1. pose proof (spd_at_byte spd 11 H) as H2.
  unfold is_byte in *. rewrite Z.shiftl_mul_pow2 by lia. change (2 ^ 8) with 256 in *.
  rewrite u32_small by lia. unfold spd_mtb. rewrite (Z.mul_comm 256). split; [done|].
  split; [apply Z.div_pos; lia|]. apply Z.div_le_upper_bound; [lia|]. nia.
Qed.

(** Two bytes times the time base fit 32 bits. *)
Lemma spd_time_small spd x : Forall is_byte spd -> spd_at spd 11 <> 0 -> 0 <= x < 2 ^ 16 ->
  u32 (x * (u32 (Z.shiftl (spd_at spd 10) 8) / spd_at spd 11)) = x * spd_mtb spd.
Proof.
  intros H H0 Hx. destruct (mtb_range spd H H0) as [-> Hm]. apply u32_small. nia.
Qed.

Lemma high_nibble x : is_byte x -> Z.land x 0xf0 = 16 * Z.land (Z.shiftr x 4) (2 ^ 4 - 1).
Proof.
  intros Hx. apply Z.eqb_eq.
  by apply (all_below_spec 256 (fun x => Z.land x 0xf0 =? 16 * Z.land (Z.shiftr x 4) (2 ^ 4 - 1))).
Qed.

(** The signed correction, in thousandths of a time unit. *)
Definition fine_units (spd : list Z) (i : nat) : Z :=
  s8 (spd_at spd i) * (256 * spd_field spd 9 4 4 / spd_field spd 9 0 4).

Lemma ftb_correct_spec spd t i : Forall is_byte spd -> spd_field spd 9 0 4 <> 0 ->
  ftb_correct t (Z.shiftl (Z.land (spd_at spd 9) 0xf0) 4 / Z.land (spd_at spd 9) 0x0f) (spd_at spd i)
  = u32 (t + Z.quot (fine_units spd i - 500) 1000).
Proof.
  intros H H0. unfold ftb_correct, fine_units. rewrite high_nibble by (by apply spd_at_byte).
  change (Z.land (Z.shiftr (spd_at spd 9) 4) (2 ^ 4 - 1)) with (spd_field spd 9 4 4).
  change (Z.land (spd_at spd 9) 0x0f) with (spd_field spd 9 0 4).
  rewrite Z.shiftl_mul_pow2 by lia.
  replace (16 * spd_field spd 9 4 4 * 2 ^ 4) with (256 * spd_field spd 9 4 4) by lia.
  pose proof (spd_field_range spd 9 4 4 ltac:(lia)). pose proof (spd_field_range spd 9 0 4 ltac:(lia)).
  set (f := 256 * spd_field spd 9 4 4 / spd_field spd 9 0 4).
  assert (Hf : 0 <= f <= 3840).
  { split; [apply Z.div_pos; lia|]. apply Z.div_le_upper_bound; [lia|]. nia. }
  assert (Hs : -128 <= s8 (spd_at spd i) < 128).
  { unfold s8, swrap. pose proof (wrap_range 8 (spd_at spd i) ltac:(lia)). case_bool; bool_to_prop; lia. }
  unfold u32 at 2 3, wrap. rewrite Zminus_mod_idemp_l.
  assert (Hin : - 2 ^ 31 <= s8 (spd_at spd i) * f - 500 < 2 ^ 31) by nia.
  revert Hin. generalize (s8 (spd_at spd i) * f - 500). intros x Hx.
  assert (s32 (x mod 2 ^ 32) = x) as ->; [|done].
  rewrite <- (s32_small x Hx) at 2. unfold s32, swrap. change (x mod 2 ^ 32) with (wrap 32 x).
  by rewrite wrap_wrap by lia.
Qed.

(** What the fields of an accepted module say. *)
Record dimm_ok (spd : list Z) (d : dimm_attr) : Prop := {
  dk_type : dram_type d = SPD_MEMORY_TYPE_SDRAM_DDR3;
  dk_rows : 12 <= row_bits d <= 16;
  dk_cols : 9 <= col_bits d <= 12;
  dk_ranks : ranks d = spd_field spd 7 3 3 + 1 /\ 1 <= ranks d <= 4;
  dk_width : width d = 4 * 2 ^ spd_field spd 7 0 3 /\ 4 <= width d <= 32;
  (** Capacity in megabits, over the width of one chip, times the bus, in bytes. *)
  dk_size : 8 * size_mb d * width d =
    256 * 2 ^ spd_field spd 4 0 4 * (8 * 2 ^ spd_field spd 8 0 3) * ranks d /\
    8 <= size_mb d <= 2 ^ 17
}.

(** The times, in the module's time base; none of the products wraps. *)
Record times_ok (spd : list Z) (d : dimm_attr) : Prop := {
  to_tWR : tWR d = spd_at spd 17 * spd_mtb spd;
  to_tRRD : tRRD d = spd_at spd 19 * spd_mtb spd;
  to_tRAS : tRAS d = (256 * spd_field spd 21 0 4 + spd_at spd 22) * spd_mtb spd;
  to_tRFC : tRFC d = (256 * spd_at spd 25 + spd_at spd 24) * spd_mtb spd;
  to_tWTR : tWTR d = spd_at spd 26 * spd_mtb spd;
  to_tRTP : tRTP d = spd_at spd 27 * spd_mtb spd;
  to_tFAW : tFAW d = (256 * spd_field spd 28 0 4 + spd_at spd 29) * spd_mtb spd;
  to_fine : let fine t n i := t = if (0x11 <=? spd_at spd 1) && negb (spd_field spd 9 0 4 =? 0)
                then u32 (n * spd_mtb spd + Z.quot (fine_units spd i - 500) 1000)
                else n * spd_mtb spd in
    fine (tCK d) (spd_at spd 12) 34%nat /\ fine (tAA d) (spd_at spd 16) 35%nat /\
    fine (tRCD d) (spd_at spd 18) 36%nat /\ fine (tRP d) (spd_at spd 20) 37%nat /\
    fine (tRC d) (256 * spd_field spd 21 4 4 + spd_at spd 23) 38%nat
}.

Lemma width_zero_iff spd :
  (u8 (Z.shiftl 4 (Z.land (spd_at spd 7) 0x07)) =? 0) = (5 <? spd_field spd 7 0 3).
Proof.
  change (Z.land (spd_at spd 7) 0x07) with (spd_field spd 7 0 3).
  apply eqb_prop.
  apply (all_below_spec 8 (fun x => Bool.eqb (u8 (Z.shiftl 4 x) =? 0) (5 <? x))); [by vm_compute|].
  by apply spd_field_range.
Qed.

Lemma is_byte_2 a b : is_byte a -> is_byte b -> 0 <= Z.shiftl a 8 + b < 2 ^ 16.
Proof. unfold is_byte. intros Ha Hb. rewrite Z.shiftl_mul_pow2 by lia. lia. Qed.

Lemma is_byte_small x k : is_byte x -> 8 <= k -> 0 <= x < 2 ^ k.
Proof.
  unfold is_byte. intros Hx Hk. pose proof (Z.pow_le_mono_r 2 8 k ltac:(lia) Hk). lia.
Qed.

Lemma mul_256_shiftl x : Z.shiftl x 8 = 256 * x.
Proof. rewrite Z.shiftl_mul_pow2 by lia. lia. Qed.

(** Chip capacity, bus width, chip width and ranks of an accepted module. *)
Definition dimm_size_check (cap bus w r : Z) : bool :=
  let width := u8 (Z.shiftl 4 w) in
  let size := u32 (Z.shiftl 1 (cap + (25 - 20)) * u8 (Z.shiftl 8 bus) * u8 (r + 1) / width) in
  (width =? 4 * 2 ^ w) && (4 <=? width) && (width <=? 32) && (8 <=? size) && (size <=? 2 ^ 17)
  && (8 * size * width =? 256 * 2 ^ cap * (8 * 2 ^ bus) * u8 (r + 1)).

Lemma dimm_size_spec cap bus w r : 0 <= cap <= 6 -> 0 <= bus <= 3 -> 0 <= w <= 3 -> 0 <= r <= 3 ->
  let width := u8 (Z.shiftl 4 w) in
  let size := u32 (Z.shiftl 1 (cap + (25 - 20)) * u8 (Z.shiftl 8 bus) * u8 (r + 1) / width) in
  width = 4 * 2 ^ w /\ 4 <= width <= 32 /\ 8 <= size <= 2 ^ 17 /\
  8 * size * width = 256 * 2 ^ cap * (8 * 2 ^ bus) * u8 (r + 1).
Proof.
  intros Hc Hb Hw Hr width size.
  pose proof (all_below_spec 7 (fun c => all_below 4 (fun b => all_below 4 (fun w => all_below 4
    (fun r => dimm_size_check c b w r)))) cap ltac:(vm_compute; reflexivity) ltac:(lia)) as H.
  apply (all_below_spec 4 _ bus) in H; [|lia]. apply (all_below_spec 4 _ w) in H; [|lia].
  apply (all_below_spec 4 _ r) in H; [|lia]. rename H into H3.
  unfold dimm_size_check in H3. fold width in H3. fold size in H3. bool_to_prop. auto.
Qed.

(** Decoding the SPD of a memory module, for any 256 bytes.  It divides by
    zero exactly when a DDR3 module has time base divisor 0 or chip width code
    6 or 7.  A module that is not DDR3 is refused and changes only the header.
    Otherwise an invalid field is reported before a wrong CRC, and all times
    are the module's, without overflow; when the module is accepted, its
    geometry is in the ranges of the standard and its size is chip capacity
    times chips per rank times ranks. *)
Theorem spd_decode_ddr3_correct dimm spd : Forall is_byte spd ->
  match spd_decode_ddr3 dimm spd with
  | None => spd_at spd 2 = SPD_MEMORY_TYPE_SDRAM_DDR3 /\
            (spd_at spd 11 = 0 \/ 6 <= spd_field spd 7 0 3)
  | Some (st, d) =>
      (spd_at spd 2 <> SPD_MEMORY_TYPE_SDRAM_DDR3 ->
         st = SPD_STATUS_INVALID /\ d = with_header SPD_MEMORY_TYPE_UNDEFINED dimm) /\
      (spd_at spd 2 = SPD_MEMORY_TYPE_SDRAM_DDR3 ->
         spd_at spd 11 <> 0 /\ spd_field spd 7 0 3 < 6 /\
         st = (if fields_valid spd then if crc_valid spd then SPD_STATUS_OK
               else SPD_STATUS_CRC_ERROR else SPD_STATUS_INVALID_FIELD) /\
         times_ok spd d /\ (fields_valid spd = true -> dimm_ok spd d))
  end.
Proof.
  intros HF. unfold spd_decode_ddr3. cbv beta zeta.
  destruct (negb (spd_at spd 2 =? _)) eqn:E2; bool_to_prop; [by split|].
  rewrite width_zero_iff. destruct (5 <? spd_field spd 7 0 3) eqn:Ew; bool_to_prop; [lia|].
  destruct (spd_at spd 11 =? 0) eqn:E11; bool_to_prop; [auto|].
  split; [done|]. intros _. split; [done|]. split; [lia|]. split; [|split].
  - rewrite <- spd_status_spec. unfold crc_valid.
    destruct (spd_ddr3_calc_crc spd 256 =? _); reflexivity.
  - assert (Hby : forall i, is_byte (spd_at spd i)) by (intros; by apply spd_at_byte).
    assert (Hti : forall x, 0 <= x < 2 ^ 16 -> u32 (x * (u32 (Z.shiftl (spd_at spd 10) 8) /
      spd_at spd 11)) = x * spd_mtb spd) by (intros; by apply spd_time_small).
    assert (H1 : forall i, 0 <= spd_at spd i < 2 ^ 16) by (intros; by apply is_byte_small).
    assert (H2 : forall byte low i, 0 <= 256 * spd_field spd byte low 4 + spd_at spd i < 2 ^ 16).
    { intros byte low i. pose proof (spd_field_range spd byte low 4 ltac:(lia)).
      pose proof (Hby i). unfold is_byte in *. lia. }
    assert (H3 : 0 <= 256 * spd_at spd 25 + spd_at spd 24 < 2 ^ 16).
    { pose proof (Hby 25%nat). pose proof (Hby 24%nat). unfold is_byte in *. lia. }
    assert (Hrc : Z.shiftl (Z.land (spd_at spd 21) 0xf0) 4 = 256 * spd_field spd 21 4 4).
    { rewrite high_nibble, Z.shiftl_mul_pow2 by (done || lia).
      change (Z.land (Z.shiftr (spd_at spd 21) 4) (2 ^ 4 - 1)) with (spd_field spd 21 4 4). lia. }
    assert (Hfine : forall n i, 0 <= n < 2 ^ 16 ->
      (if (17 <=? spd_at spd 1) && negb (Z.land (spd_at spd 9) 15 =? 0)
       then ftb_correct (n * spd_mtb spd) (Z.shiftl (Z.land (spd_at spd 9) 240) 4 /
              Z.land (spd_at spd 9) 15) (spd_at spd i)
       else n * spd_mtb spd) =
      if (17 <=? spd_at spd 1) && negb (spd_field spd 9 0 4 =? 0)
      then u32 (n * spd_mtb spd + Z.quot (fine_units spd i - 500) 1000) else n * spd_mtb spd).
    { intros n i Hn. change (Z.land (spd_at spd 9) 15) with (spd_field spd 9 0 4).
      destruct ((17 <=? _) && _) eqn:E; [|done]. bool_to_prop. by apply ftb_correct_spec. }
    change (Z.land (spd_at spd 21) 0x0f) with (spd_field spd 21 0 4).
    change (Z.land (spd_at spd 28) 0x0f) with (spd_field spd 28 0 4).
    rewrite Hrc, !mul_256_shiftl. rewrite mul_256_shiftl in Hti. rewrite !Hti by auto.
    split; try reflexivity. cbv zeta. cbn [tCK tAA tRCD tRP tRC]. auto 10.
  - intros Hv. unfold fields_valid in Hv. repeat (apply andb_true_iff in Hv as [Hv ?]). bool_to_prop.
    pose proof (spd_field_range spd 4 0 4 ltac:(lia)). pose proof (spd_field_range spd 8 0 3 ltac:(lia)).
    pose proof (spd_field_range spd 7 0 3 ltac:(lia)). pose proof (spd_field_range spd 7 3 3 ltac:(lia)).
    pose proof (spd_field_range spd 5 3 3 ltac:(lia)). pose proof (spd_field_range spd 5 0 3 ltac:(lia)).
    destruct (dimm_size_spec (spd_field spd 4 0 4) (spd_field spd 8 0 3) (spd_field spd 7 0 3)
      (spd_field spd 7 3 3)) as (S1 & S2 & S3 & S4); [lia..|].
    assert (Hu : forall x, 0 <= x < 2 ^ 8 -> u8 x = x) by (intros; by apply wrap_small).
    split; cbn [dram_type row_bits col_bits ranks width size_mb].
    + done.
    + change (Z.land (Z.shiftr (spd_at spd 5) 3) 7) with (spd_field spd 5 3 3). rewrite Hu; lia.
    + change (Z.land (spd_at spd 5) 7) with (spd_field spd 5 0 3). rewrite Hu; lia.
    + change (Z.land (Z.shiftr (spd_at spd 7) 3) 7) with (spd_field spd 7 3 3). rewrite Hu; lia.
    + by split.
    + split; [exact S4|exact S3].
Qed.

(** ** Mode register commands *)

(** [cmd[low+len-1:low]]. *)
Definition field (cmd low len : Z) : Z := Z.land (Z.shiftr cmd low) (2 ^ len - 1).

(** The standard's reading of MR0: the write recovery code, and the CAS latency
    with its high bit in A2. *)
Definition mr0_write_recovery (cmd : Z) : Z :=
  nth (Z.to_nat (field cmd 9 3)) [16; 5; 6; 7; 8; 10; 12; 14] 0.
Definition mr0_cas (cmd : Z) : Z := field cmd 4 3 + 8 * field cmd 2 1 + 4.

(** Odd write recoveries above 8 are rounded up. *)
Definition round_wr (twr : Z) : Z := if twr <=? 8 then twr else 2 * ((twr + 1) / 2).

Definition mr0_check (pd wr dll mode cas bt bl : Z) : bool :=
  let cmd := ddr3_get_mr0 pd wr dll mode cas bt bl in
  (field cmd 16 3 =? 0) && (field cmd 12 1 =? pd) && (mr0_write_recovery cmd =? round_wr wr)
  && (field cmd 8 1 =? dll) && (field cmd 7 1 =? mode) && (mr0_cas cmd =? cas)
  && (field cmd 3 1 =? bt) && (field cmd 0 2 =? bl).

Definition mr1_check (qoff tqds rtt wl ods al dll : Z) : bool :=
  let cmd := ddr3_get_mr1 qoff tqds rtt wl ods al dll in
  (field cmd 16 3 =? 1) && (field cmd 12 1 =? qoff) && (field cmd 11 1 =? tqds)
  && (4 * field cmd 9 1 + 2 * field cmd 6 1 + field cmd 2 1 =? rtt) && (field cmd 7 1 =? wl)
  && (2 * field cmd 5 1 + field cmd 1 1 =? ods) && (field cmd 3 2 =? al) && (field cmd 0 1 =? dll).

Definition mr2_check (rtt srt asr cwl : Z) : bool :=
  let cmd := ddr3_get_mr2 rtt srt asr cwl in
  (field cmd 16 3 =? 2) && (field cmd 9 2 =? rtt) && (field cmd 7 1 =? srt)
  && (field cmd 6 1 =? asr) && (field cmd 3 3 + 5 =? cwl).

(** Mode register commands say what was asked for: read back by the
    layout of the standard, each field has its argument, for CAS latencies 5 to
    19, write recoveries 5 to 16 (odd ones above 8 rounded up) and CAS write
    latencies 5 to 12. *)
Theorem ddr3_mrs_fields pd wr dll mode cas bt bl qoff tqds rtt wl ods al dll1 rtt_wr srt asr cwl :
  0 <= pd < 2 -> 5 <= wr <= 16 -> 0 <= dll < 2 -> 0 <= mode < 2 -> 5 <= cas <= 19 ->
  0 <= bt < 2 -> 0 <= bl < 3 ->
  0 <= qoff < 2 -> 0 <= tqds < 2 -> 0 <= rtt < 8 -> 0 <= wl < 2 -> 0 <= ods < 4 ->
  0 <= al < 3 -> 0 <= dll1 < 2 ->
  0 <= rtt_wr < 3 -> 0 <= srt < 2 -> 0 <= asr < 2 -> 5 <= cwl <= 12 ->
  (let cmd := ddr3_get_mr0 pd wr dll mode cas bt bl in
   field cmd 16 3 = 0 /\ field cmd 12 1 = pd /\ mr0_write_recovery cmd = round_wr wr /\
   field cmd 8 1 = dll /\ field cmd 7 1 = mode /\ mr0_cas cmd = cas /\
   field cmd 3 1 = bt /\ field cmd 0 2 = bl) /\
  (let cmd := ddr3_get_mr1 qoff tqds rtt wl ods al dll1 in
   field cmd 16 3 = 1 /\ field cmd 12 1 = qoff /\ field cmd 11 1 = tqds /\
   4 * field cmd 9 1 + 2 * field cmd 6 1 + field cmd 2 1 = rtt /\ field cmd 7 1 = wl /\
   2 * field cmd 5 1 + field cmd 1 1 = ods /\ field cmd 3 2 = al /\ field cmd 0 1 = dll1) /\
  (let cmd := ddr3_get_mr2 rtt_wr srt asr cwl in
   field cmd 16 3 = 2 /\ field cmd 9 2 = rtt_wr /\ field cmd 7 1 = srt /\ field cmd 6 1 = asr /\
   field cmd 3 3 + 5 = cwl).
Proof.
  intros. split; [|split].
  - pose proof (all_below_spec 2 (fun pd => all_below 12 (fun wr => all_below 2 (fun dll =>
      all_below 2 (fun mode => all_below 15 (fun cas => all_below 2 (fun bt => all_below 3 (fun bl =>
      mr0_check pd (wr + 5) dll mode (cas + 5) bt bl))))))) pd ltac:(vm_compute; reflexivity)
      ltac:(lia)) as E.
    apply (all_below_spec 12 _ (wr - 5)) in E; [|lia]. apply (all_below_spec 2 _ dll) in E; [|lia].
    apply (all_below_spec 2 _ mode) in E; [|lia]. apply (all_below_spec 15 _ (cas - 5)) in E; [|lia].
    apply (all_below_spec 2 _ bt) in E; [|lia]. apply (all_below_spec 3 _ bl) in E; [|lia].
    rewrite !Z.sub_add in E. unfold mr0_check in E. bool_to_prop. auto 10.
  - pose proof (all_below_spec 2 (fun qoff => all_below 2 (fun tqds => all_below 8 (fun rtt =>
      all_below 2 (fun wl => all_below 4 (fun ods => all_below 3 (fun al => all_below 2 (fun dll =>
      mr1_check qoff tqds rtt wl ods al dll))))))) qoff ltac:(vm_compute; reflexivity)
      ltac:(lia)) as E.
    apply (all_below_spec 2 _ tqds) in E; [|lia]. apply (all_below_spec 8 _ rtt) in E; [|lia].
    apply (all_below_spec 2 _ wl) in E; [|lia]. apply (all_below_spec 4 _ ods) in E; [|lia].
    apply (all_below_spec 3 _ al) in E; [|lia]. apply (all_below_spec 2 _ dll1) in E; [|lia].
    unfold mr1_check in E. bool_to_prop. auto 10.
  - pose proof (all_below_spec 3 (fun rtt => all_below 2 (fun srt => all_below 2 (fun asr =>
      all_below 8 (fun cwl => mr2_check rtt srt asr (cwl + 5))))) rtt_wr
      ltac:(vm_compute; reflexivity) ltac:(lia)) as E.
    apply (all_below_spec 2 _ srt) in E; [|lia]. apply (all_below_spec 2 _ asr) in E; [|lia].
    apply (all_below_spec 8 _ (cwl - 5)) in E; [|lia].
    cbv beta in E. rewrite Z.sub_add in E. unfold mr2_check in E. bool_to_prop. auto 10.
Qed.

(** CL 11, CWL 8, tWR 15: 16 clocks are programmed. *)
Lemma ddr3_mrs_fields_witness :
  ddr3_get_mr0 1 15 1 0 11 0 0 = 0x1170 /\
  mr0_write_recovery (ddr3_get_mr0 1 15 1 0 11 0 0) = 16 /\
  mr0_cas (ddr3_get_mr0 1 15 1 0 11 0 0) = 11.
Proof.
  destruct (ddr3_mrs_fields 1 15 1 0 11 0 0 0 0 3 0 1 0 0 1 0 0 8) as [H _]; [lia..|].
  split; [reflexivity|]. split; [exact (proj1 (proj2 (proj2 H)))|].
  exact (proj1 (proj2 (proj2 (proj2 (proj2 (proj2 H)))))).
Defined.

(** Where a pin's value comes from on a mirrored rank. *)
Definition mirror_of (n : Z) : Z :=
  if (n =? 3) || (n =? 5) || (n =? 7) || (n =? 16) then n + 1
  else if (n =? 4) || (n =? 6) || (n =? 8) || (n =? 17) then n - 1 else n.

Lemma lowbits_testbit n : 0 <= n ->
  Z.testbit lowbits n = (n =? 3) || (n =? 5) || (n =? 7) || (n =? 16).
Proof.
  intros Hn. unfold lowbits. rewrite !Z.lor_spec, !Z.shiftl_1_l, !Z.pow2_bits_eqb by lia.
  rewrite !(Z.eqb_sym _ n). by rewrite !orb_assoc.
Qed.

Lemma mirror_testbit cmd n : 0 <= cmd < 2 ^ 32 -> 0 <= n ->
  Z.testbit (ddr3_mrs_mirror_pins cmd) n = Z.testbit cmd (mirror_of n).
Proof.
  intros Hc Hn. unfold ddr3_mrs_mirror_pins, bnot, u32, wrap.
  assert (Hhigh : forall m, 32 <= m -> Z.testbit cmd m = false).
  { intros m Hm. destruct (Z.eq_dec cmd 0) as [->|]; [apply Z.bits_0|].
    apply Z.bits_above_log2; [lia|]. assert (Z.log2 cmd < 32) by (apply Z.log2_lt_pow2; lia). lia. }
  rewrite !Z.lor_spec, Z.land_spec, Z.shiftr_spec, !Z.testbit_mod_pow2, Z.lnot_spec by lia.
  rewrite Z.land_spec, Z.lor_spec, !Z.shiftl_spec by lia.
  rewrite (Z.add_simpl_r n 1), (lowbits_testbit n) by lia.
  destruct (Z.eq_dec n 0) as [->|].
  { change (mirror_of 0) with 0. rewrite (Z.testbit_neg_r lowbits (0 - 1)) by lia.
    rewrite (Z.testbit_neg_r (Z.land cmd lowbits) (0 - 1)) by lia.
    cbn -[Z.testbit]. by rewrite andb_true_r, andb_false_r, !orb_false_r. }
  rewrite Z.land_spec, (lowbits_testbit (n - 1)) by lia.
  unfold mirror_of.
  assert (Hm : forall k, (n - 1 =? k) = (n =? k + 1)) by (intros k; apply eq_true_iff_eq; rewrite !Z.eqb_eq; lia).
  rewrite !Hm. cbn [Z.add Pos.add Pos.succ].
  change (3 + 1) with 4. change (5 + 1) with 6. change (7 + 1) with 8. change (16 + 1) with 17.
  assert (HL : (n =? 3) || (n =? 5) || (n =? 7) || (n =? 16) = true -> n < 17 /\
    (n =? 4) || (n =? 6) || (n =? 8) || (n =? 17) = false).
  { rewrite !orb_true_iff, !Z.eqb_eq. intros [[[-> | ->] | ->] | ->]; done. }
  assert (HU : (n =? 4) || (n =? 6) || (n =? 8) || (n =? 17) = true -> n < 18).
  { rewrite !orb_true_iff, !Z.eqb_eq. lia. }
  set (L := (n =? 3) || (n =? 5) || (n =? 7) || (n =? 16)) in *.
  set (U := (n =? 4) || (n =? 6) || (n =? 8) || (n =? 17)) in *.
  clearbody L U. destruct (n <? 32) eqn:E32; bool_to_prop.
  - destruct L; [destruct (HL eq_refl) as [_ ->]|destruct U]; cbn;
      by destruct (Z.testbit cmd n), (Z.testbit cmd (n + 1)), (Z.testbit cmd (n - 1)).
  - destruct L; [destruct (HL eq_refl); lia|]. destruct U; [specialize (HU eq_refl); lia|].
    rewrite Hhigh by lia. cbn. by destruct (Z.testbit cmd (n + 1)).
Qed.

(** On a rank with mirrored address pins, [ddr3_mrs_mirror_pins] exchanges
    MA3/MA4, MA5/MA6, MA7/MA8 and BA0/BA1 and nothing else; applied twice it
    does nothing. *)
Theorem ddr3_mrs_mirror_correct cmd : 0 <= cmd < 2 ^ 32 ->
  (forall n, 0 <= n -> Z.testbit (ddr3_mrs_mirror_pins cmd) n = Z.testbit cmd (mirror_of n)) /\
  0 <= ddr3_mrs_mirror_pins cmd < 2 ^ 32 /\
  ddr3_mrs_mirror_pins (ddr3_mrs_mirror_pins cmd) = cmd.
Proof.
  intros Hc. assert (H := mirror_testbit cmd). split; [auto|].
  assert (Hm : forall n, 0 <= n -> 0 <= mirror_of n /\ mirror_of (mirror_of n) = n).
  { intros n Hn. destruct (Z.eq_dec (mirror_of n) n) as [E|E]; [by rewrite !E|].
    assert (In n [3; 4; 5; 6; 7; 8; 16; 17]) as Hin.
    { unfold mirror_of in E. repeat match goal with H : context [n =? ?k] |- _ =>
        destruct (Z.eqb_spec n k); [subst n; simpl; auto 10|] end. done. }
    simpl in Hin. repeat (destruct Hin as [<-|Hin]; [done|]). done. }
  assert (Hr : 0 <= ddr3_mrs_mirror_pins cmd < 2 ^ 32).
  { assert (H0 : 0 <= ddr3_mrs_mirror_pins cmd).
    { unfold ddr3_mrs_mirror_pins. repeat (apply Z.lor_nonneg; split);
        rewrite ?Z.shiftr_nonneg, ?Z.land_nonneg; try lia. apply wrap_range. lia. }
    split; [done|]. destruct (Z.eq_dec (ddr3_mrs_mirror_pins cmd) 0) as [->|Hne]; [lia|].
    apply Z.log2_lt_pow2; [lia|]. apply Z.nle_gt. intros Hl.
    pose proof (Z.bit_log2 (ddr3_mrs_mirror_pins cmd) ltac:(lia)) as Hb.
    rewrite H in Hb by (done || lia). set (n := Z.log2 _) in *.
    assert (mirror_of n = n) as E.
    { unfold mirror_of. repeat match goal with |- context [n =? ?k] =>
        replace (n =? k) with false by (symmetry; apply Z.eqb_neq; lia) end. done. }
    rewrite E in Hb. destruct (Z.eq_dec cmd 0) as [->|]; [by rewrite Z.bits_0 in Hb|].
    rewrite Z.bits_above_log2 in Hb; [done|lia|].
    assert (Z.log2 cmd < 32) by (apply Z.log2_lt_pow2; lia). lia. }
  split; [done|]. apply Z.bits_inj'. intros n Hn. destruct (Hm n Hn) as [H0 H1].
  rewrite mirror_testbit, H by done. by rewrite H1.
Qed.

Lemma ddr3_mrs_mirror_witness :
  ddr3_mrs_mirror_pins 0x10008 = 0x20010 /\
  ddr3_mrs_mirror_pins (ddr3_mrs_mirror_pins 0x10008) = 0x10008.
Proof.
  split; [reflexivity|]. apply (ddr3_mrs_mirror_correct 0x10008). lia.
Defined.

(** The SPD of a module with two ranks of 2 Gb chips, 8 bits wide. *)
Definition sample_spd : list Z :=
  [0x92; 0x11; 0xb; 0x2; 0x3; 0x19; 0x0; 0x9; 0x3; 0x52; 0x1; 0x8; 0xa; 0x0; 0xfe; 0x0; 0x69;
   0x78; 0x69; 0x30; 0x69; 0x11; 0x18; 0x81; 0x0; 0x5; 0x3c; 0x3c; 0x0; 0xf0; 0x83; 0x1] ++
  repeat 0 30 ++
  [0x1; 0x1] ++
  repeat 0 53 ++
  [0x2c; 0x80] ++
  repeat 0 7 ++
  [0xa6; 0xf0; 0x31; 0x38; 0x4a; 0x53; 0x46; 0x35; 0x31; 0x32; 0x37; 0x32; 0x41; 0x5a; 0x2d;
   0x31; 0x47; 0x36] ++
  repeat 0 112.

Definition no_dimm : dimm_attr :=
  mk_dimm 0 0 0 no_flags 0 0 0 0 0 0 0 0 0 0 0 0 0 0 0 0 0 0 0 0 0 [].

Lemma sample_spd_bytes : Forall is_byte sample_spd.
Proof.
  apply Forall_forall. intros x Hx%list_elem_of_In.
  assert (H : forallb (fun x => (0 <=? x) && (x <? 256)) sample_spd = true) by (by vm_compute).
  rewrite forallb_forall in H. specialize (H x Hx). bool_to_prop. done.
Qed.

(** 4 GiB, accepted. *)
Lemma spd_decode_ddr3_witness :
  match spd_decode_ddr3 no_dimm sample_spd with
  | Some (SPD_STATUS_OK, d) => size_mb d = 4096 /\ tRFC d = 0x500 * 32 /\ dimm_ok sample_spd d
  | _ => False
  end.
Proof.
  pose proof (spd_decode_ddr3_correct no_dimm sample_spd sample_spd_bytes) as H.
  destruct (spd_decode_ddr3 no_dimm sample_spd) as [[st d]|] eqn:E.
  - destruct H as [_ H]. specialize (H eq_refl). destruct H as (_ & _ & Hst & _ & Hd).
    specialize (Hd eq_refl).
    assert (Hs : st = SPD_STATUS_OK) by (rewrite Hst; vm_compute; reflexivity).
    rewrite Hs in *. vm_compute in E. injection E as <-.
    split; [reflexivity|]. split; [reflexivity|exact Hd].
  - vm_compute in E. discriminate E.
Defined.

(** A module whose SPD has no time base divisor, or an undefined chip width,
    stops the boot with a divide error, although the CRC or the width could
    have been reported. *)
Example spd_decode_divides_by_zero :
  spd_decode_ddr3 no_dimm (<[11%nat := 0]> sample_spd) = None /\
  spd_decode_ddr3 no_dimm (<[7%nat := 0x0e]> sample_spd) = None.
Proof. by vm_compute. Qed.

(** The XMP latencies supported are read from the bytes that hold tWR and the
    high bits of tRAS and tRC. *)
Definition sample_xmp : list Z :=
  <[176%nat := 0x0c]> (<[177%nat := 0x4a]> (<[178%nat := 1]> (<[180%nat := 1]> (<[181%nat := 8]>
    (<[193%nat := 120]> (<[194%nat := 0x11]> sample_spd)))))).

Example xmp_cas_is_tWR :
  match spd_xmp_decode_ddr3 no_dimm sample_xmp DDR3_XMP_PROFILE_1 with
  | Some (SPD_STATUS_OK, d) => cas_supported d = 0x1178 /\ tWR d = 0x78 * 32
  | _ => False
  end.
Proof. by vm_compute. Qed.
