(* ===== verification/RegionFile.v ===== *)
(** * Region files ([src/lib/region_file.c])

    A region file appends updates to a region device.  Its first 16-byte blocks
    are metadata: 16-bit block offsets, the first the number of metadata
    blocks, the others the ends of the updates.  Reading back takes the last
    two offsets.

    The device is one of [Region.v]: the driver behind it is a parameter, and
    the theorems are proved against the interface [NorFlash], whose writes can
    only clear bits. *)

From S2P Require Import Prelude Region.

(** ** Constants and data *)

Definition REGF_BLOCK_SHIFT : Z := 4.
Definition REGF_BLOCK_GRANULARITY : Z := Z.shiftl 1 REGF_BLOCK_SHIFT.
Definition REGF_METADATA_BLOCK_SIZE : Z := REGF_BLOCK_GRANULARITY.
Definition REGF_UNALLOCATED_BLOCK : Z := 0xffff.
Definition REGF_UPDATES_PER_METADATA_BLOCK : Z := REGF_METADATA_BLOCK_SIZE / 2.

Definition RF_ONLY_METADATA : Z := 0.
Definition RF_EMPTY : Z := -1.
Definition RF_NEED_TO_EMPTY : Z := -2.
Definition RF_FATAL : Z := -3.

Record region_file := mk_file
  { f_rdev : region_device; f_metadata : region_device;
    data_begin : Z; data_end : Z;  (* [data_blocks] *)
    slot : Z }.

Definition block_to_bytes (off : Z) : Z := u32 (Z.shiftl (u16 off) REGF_BLOCK_SHIFT).
Definition bytes_to_block (bytes : Z) : Z := Z.shiftr bytes REGF_BLOCK_SHIFT.
Definition block_offset_unallocated (off : Z) : bool := off =? REGF_UNALLOCATED_BLOCK.

(** A [uint16_t] in memory. *)
Definition le16 (b : list Z) (i : nat) : Z := nth (2 * i) b 0 + 256 * nth (2 * i + 1) b 0.
Definition bytes16 (x : Z) : list Z := [Z.land x 0xff; Z.shiftr x 8].
Definition metadata_block (b : list Z) : list Z := map (le16 b) (seq 0 8).

Definition all_block_offsets_unallocated (mb : list Z) : bool :=
  forallb block_offset_unallocated mb.

(** A zeroed [struct region_device]: no root, never accessed. *)
Definition null_rdev : region_device :=
  mk_rdev (driver_device 0 (mk_region 0 0)) (mk_region 0 0).

Definition with_slot (n : Z) (f : region_file) : region_file :=
  mk_file (f_rdev f) (f_metadata f) (data_begin f) (data_end f) n.
Definition with_metadata (m : region_device) (f : region_file) : region_file :=
  mk_file (f_rdev f) m (data_begin f) (data_end f) (slot f).
Definition with_data (b e : Z) (f : region_file) : region_file :=
  mk_file (f_rdev f) (f_metadata f) b e (slot f).

Section File.
Context {D : Type}.
Variable drv_readat : D -> nat -> Z -> Z -> Z * list Z.
Variable drv_writeat : option (D -> nat -> Z -> list Z -> Z * D).
Variable drv_eraseat : option (D -> nat -> Z -> Z -> Z * D).

Local Notation rstate := (@rstate D).
Local Notation readat := (rdev_readat drv_readat).
Local Notation writeat := (rdev_writeat drv_writeat).
Local Notation eraseat := (rdev_eraseat drv_eraseat).

(** ** Opening *)

Definition read_mb (s : rstate) (i : Z) (f : region_file) : option (list Z) :=
  let '(ret, b) := readat s (f_metadata f) (block_to_bytes i) 16 in
  if ret <? 0 then None else Some (metadata_block b).

Fixpoint latest_mb_loop (fuel : nat) (s : rstate) (f : region_file) (l r : Z) : option Z :=
  if l + 1 <? r then
    match fuel with
    | O => None
    | S fuel' =>
        let mid := u32 (l + r) / 2 in
        match read_mb s mid f with
        | None => None
        | Some mb =>
            if all_block_offsets_unallocated mb then latest_mb_loop fuel' s f l mid
            else latest_mb_loop fuel' s f mid r
        end
    end
  else Some l.

(** [num_mb_blocks] rounds are enough. *)
Definition find_latest_mb (s : rstate) (num_mb_blocks : Z) (f : region_file)
    : option (list Z * region_file) :=
  match latest_mb_loop (Z.to_nat num_mb_blocks) s f 0 num_mb_blocks with
  | None => None
  | Some l =>
      let f := with_slot (s32 (l * REGF_UPDATES_PER_METADATA_BLOCK)) f in
      match read_mb s l f with None => None | Some mb => Some (mb, f) end
  end.

Fixpoint latest_slot_loop (mb : list Z) (i : nat) : nat :=
  match i with
  | O => O
  | S i' => if negb (block_offset_unallocated (nth i mb 0)) then i else latest_slot_loop mb i'
  end.

Definition find_latest_slot (mb : list Z) (f : region_file) : region_file :=
  with_slot (slot f + Z.of_nat (latest_slot_loop mb 7)) f.

(** [None] is the return value -1. *)
Definition fill_data_boundaries (s : rstate) (f : region_file) : option region_file :=
  if slot f =? RF_ONLY_METADATA then
    let start := u16 (bytes_to_block (region_device_sz (f_metadata f))) in
    Some (with_data start start f)
  else
    let off := u32 ((slot f - 1) * 2) in
    match rdev_chain (f_metadata f) off 4 with
    | None => Some (with_slot RF_NEED_TO_EMPTY f)
    | Some slots =>
        let '(ret, b) := readat s slots 0 4 in
        if ret <? 0 then None
        else
          let f := with_data (le16 b 0) (le16 b 1) f in
          if data_end f <=? data_begin f then Some (with_slot RF_NEED_TO_EMPTY f)
          else if bytes_to_block (region_device_sz (f_rdev f)) <? data_end f
          then Some (with_slot RF_NEED_TO_EMPTY f)
          else Some f
    end.

Definition region_file_init (s : rstate) (p : region_device) : Z * region_file :=
  let f := mk_file null_rdev null_rdev 0 0 RF_FATAL in
  match rdev_chain p 0 (region_device_sz p) with
  | None => (-1, f)
  | Some rdev =>
      let f := mk_file rdev null_rdev 0 0 RF_FATAL in
      let '(ret, b) := readat s p 0 16 in
      if ret <? 0 then (-1, f)
      else
        let mb := metadata_block b in
        let first := nth 0 mb 0 in
        if block_offset_unallocated first then (0, with_slot RF_EMPTY f)
        else if first =? 0 then (0, with_slot RF_NEED_TO_EMPTY f)
        else match rdev_chain p 0 (block_to_bytes first) with
             | None => (0, with_slot RF_NEED_TO_EMPTY f)
             | Some metadata =>
                 let f := with_metadata metadata f in
                 match find_latest_mb s first f with
                 | None => (-1, with_slot RF_FATAL f)
                 | Some (mb, f) =>
                     let f := find_latest_slot mb f in
                     match fill_data_boundaries s f with
                     | None => (-1, with_slot RF_FATAL f)
                     | Some f => (0, f)
                     end
                 end
             end
  end.

Definition region_file_data (f : region_file) : option region_device :=
  if slot f <=? RF_ONLY_METADATA then None
  else
    let off := block_to_bytes (data_begin f) in
    let size := u32 (block_to_bytes (data_end f) - off) in
    rdev_chain (f_rdev f) off size.

(** ** Updating *)

(** How many metadata blocks, from the sizes in blocks. *)
Definition metadata_blocks (t d : Z) : Z :=
  let m := bytes_to_block (ALIGN_UP 32 REGF_METADATA_BLOCK_SIZE REGF_BLOCK_GRANULARITY) in
  let a := REGF_UPDATES_PER_METADATA_BLOCK in
  let x := ALIGN_UP 32 (u32 (t * a) / u32 (u32 (d * a) + m)) a in
  let x := if x =? 0 then 1 else x in
  let y := ALIGN_UP 32 x a / a in
  u16 (m * y).

Definition allocate_metadata (s : rstate) (f : region_file) (data_blks : Z)
    : Z * rstate * region_file :=
  let t := bytes_to_block (ALIGN_DOWN 32 (region_device_sz (f_rdev f)) REGF_BLOCK_GRANULARITY) in
  let m := bytes_to_block (ALIGN_UP 32 REGF_METADATA_BLOCK_SIZE REGF_BLOCK_GRANULARITY) in
  if u32 (t - m) <? data_blks then (-1, s, f)
  else
    let tot_metadata := metadata_blocks t data_blks in
    let '(ret, s) := writeat s (f_rdev f) (bytes16 tot_metadata) 0 in
    if ret <? 0 then (-1, s, f)
    else match rdev_chain (f_rdev f) 0 (block_to_bytes tot_metadata) with
         | None => (-1, s, f)
         | Some metadata =>
             (0, s, with_data tot_metadata tot_metadata (with_metadata metadata f))
         end.

Definition update_can_fit (f : region_file) (data_blks : Z) : bool :=
  let metadata_slots := region_device_sz (f_metadata f) / 2 in
  if metadata_slots <=? u32 (u32 (slot f) + 1) then false
  else
    let end_blk := u32 (data_blks + data_end f) in
    if REGF_UNALLOCATED_BLOCK <=? end_blk then false
    else if bytes_to_block (region_device_sz (f_rdev f)) <? end_blk then false
    else true.

Definition commit_data_allocation (s : rstate) (f : region_file) (data_blks : Z)
    : Z * rstate * region_file :=
  let f := with_slot (slot f + 1) f in
  let off := u32 (slot f * 2) in
  let f := with_data (data_end f) (u16 (data_end f + data_blks)) f in
  let '(ret, s) := writeat s (f_metadata f) (bytes16 (data_end f)) off in
  if ret <? 0 then (-1, s, f) else (0, s, f).

Definition commit_data (s : rstate) (f : region_file) (buf : list Z) : Z * rstate :=
  let off := block_to_bytes (data_begin f) in
  let '(ret, s) := writeat s (f_rdev f) buf off in
  if ret <? 0 then (-1, s) else (0, s).

Definition handle_empty (s : rstate) (f : region_file) (data_blks : Z) : Z * rstate * region_file :=
  let '(ret, s, f) := allocate_metadata s f data_blks in
  if negb (ret =? 0) then (-1, s, f) else (0, s, with_slot RF_ONLY_METADATA f).

Definition handle_need_to_empty (s : rstate) (f : region_file) : Z * rstate * region_file :=
  let '(ret, s) := eraseat s (f_rdev f) 0 (region_device_sz (f_rdev f)) in
  if ret <? 0 then (-1, s, f) else (0, s, with_slot RF_EMPTY f).

Definition handle_update (s : rstate) (f : region_file) (blocks : Z) (buf : list Z)
    : Z * rstate * region_file :=
  if negb (update_can_fit f blocks) then (0, s, with_slot RF_NEED_TO_EMPTY f)
  else
    let '(ret, s, f) := commit_data_allocation s f blocks in
    if negb (ret =? 0) then (-1, s, f)
    else
      let '(ret, s) := commit_data s f buf in
      if negb (ret =? 0) then (-1, s, f) else (0, s, f).

(** One turn of the state machine. *)
Definition update_step (s : rstate) (f : region_file) (blocks : Z) (buf : list Z)
    : Z * rstate * region_file :=
  if slot f =? RF_EMPTY then handle_empty s f blocks
  else if slot f =? RF_NEED_TO_EMPTY then handle_need_to_empty s f
  else if slot f =? RF_FATAL then (-1, s, f)
  else handle_update s f blocks buf.

(** [None]: still going after [fuel] turns. *)
Fixpoint update_loop (fuel : nat) (s : rstate) (f : region_file) (blocks : Z) (buf : list Z)
    : option (Z * rstate * region_file) :=
  match fuel with
  | O => None
  | S fuel' =>
      let prev_slot := slot f in
      let '(ret, s, f) := update_step s f blocks buf in
      if negb (ret =? 0) then Some (ret, s, with_slot RF_FATAL f)
      else if (RF_ONLY_METADATA <? slot f) && negb (prev_slot =? slot f) then Some (ret, s, f)
      else update_loop fuel' s f blocks buf
  end.

Definition update_blocks (buf : list Z) : Z :=
  bytes_to_block (ALIGN_UP 32 (Z.of_nat (length buf)) REGF_BLOCK_GRANULARITY).

Definition region_file_update_data (fuel : nat) (s : rstate) (f : region_file) (buf : list Z)
    : option (Z * rstate * region_file) :=
  update_loop fuel s f (update_blocks buf) buf.
End File.

(** ** Blocks *)

Lemma bytes_to_block_div x : bytes_to_block x = x / 16.
Proof. unfold bytes_to_block, REGF_BLOCK_SHIFT. by rewrite Z.shiftr_div_pow2 by lia. Qed.

Lemma update_blocks_spec buf : (1 <= length buf)%nat -> Z.of_nat (length buf) < 2 ^ 31 ->
  let d := update_blocks buf in d = (Z.of_nat (length buf) + 15) / 16 /\ 1 <= d /\
  16 * (d - 1) < Z.of_nat (length buf) <= 16 * d.
Proof.
  intros H1 H2 d. assert (E : d = (Z.of_nat (length buf) + 15) / 16).
  { unfold d, update_blocks. rewrite bytes_to_block_div. change REGF_BLOCK_GRANULARITY with (2 ^ 4).
    rewrite align_up_pow2 by lia. change (2 ^ 4) with 16.
    replace (Z.of_nat (length buf) + 16 - 1) with (Z.of_nat (length buf) + 15) by lia.
    set (x := Z.of_nat (length buf) + 15). pose proof (Z.div_mod x 16 ltac:(lia)).
    replace (x - x mod 16) with (x / 16 * 16) by lia. by rewrite Z.div_mul by lia. }
  split; [done|]. rewrite E. pose proof (Z.div_mod (Z.of_nat (length buf) + 15) 16 ltac:(lia)).
  pose proof (Z.mod_pos_bound (Z.of_nat (length buf) + 15) 16 ltac:(lia)). lia.
Qed.

(** ** The interface: NOR flash *)

(** The driver of device [id] keeps bytes [img]; a write clears bits, an erase
    sets all of them. *)
Class NorFlash {D : Type} (drv_readat : D -> nat -> Z -> Z -> Z * list Z)
    (drv_writeat : option (D -> nat -> Z -> list Z -> Z * D))
    (drv_eraseat : option (D -> nat -> Z -> Z -> Z * D)) (id : nat) (img : D -> Z -> Z) : Prop := {
  nf_byte : forall d x, 0 <= img d x < 2 ^ 8;
  nf_read : forall d off n, 0 <= off -> 0 <= n < 2 ^ 31 ->
    drv_readat d id off n = (n, map (fun i => img d (off + Z.of_nat i)) (seq 0 (Z.to_nat n)));
  nf_write : forall d off b, 0 <= off -> Z.of_nat (length b) < 2 ^ 31 ->
    exists w d', drv_writeat = Some w /\ w d id off b = (Z.of_nat (length b), d') /\
      forall x, img d' x = if (off <=? x) && (x <? off + Z.of_nat (length b))
                           then Z.land (img d x) (nth (Z.to_nat (x - off)) b 0) else img d x;
  nf_erase : forall d off n, 0 <= off -> 0 <= n < 2 ^ 31 ->
    exists e d', drv_eraseat = Some e /\ e d id off n = (n, d') /\
      forall x, img d' x = if (off <=? x) && (x <? off + n) then 0xff else img d x
}.

Section Flash.
Context {D : Type} {drv_readat : D -> nat -> Z -> Z -> Z * list Z}
  {drv_writeat : option (D -> nat -> Z -> list Z -> Z * D)}
  {drv_eraseat : option (D -> nat -> Z -> Z -> Z * D)} {id : nat} {img : D -> Z -> Z}
  `{Hflash : !NorFlash drv_readat drv_writeat drv_eraseat id img}.
Context (dreg : region) (off0 sz : Z).
Hypothesis Hoff0 : 0 <= off0.
Hypothesis Hsz : 16 <= sz <= 2 ^ 20.
Hypothesis Hend : off0 + sz < 2 ^ 32.

Local Notation rstate := (@rstate D).

(** A window of the device the file is on; the device itself is [window 0 sz]. *)
Definition window (a n : Z) : region_device :=
  mk_rdev (driver_device id dreg) (mk_region (off0 + a) n).

Definition byte (s : rstate) (x : Z) : Z := img (drv s) (off0 + x).

Lemma normalize_window a n o k : 0 <= a -> a + n <= sz -> 0 <= o -> 0 <= k -> o + k <= n ->
  normalize_and_ok (mk_region (off0 + a) n) (mk_region o k) = (mk_region (off0 + a + o) k, true).
Proof.
  intros. rewrite normalize_spec; cbn [offset size]; [|unfold region_ok; cbn; lia|lia..].
  f_equal. by apply Z.leb_le.
Qed.

Lemma checked_window {A} a n o k (err : A) op : 0 <= a -> a + n <= sz -> 0 <= o -> 0 <= k ->
  o + k <= n -> checked (mk_region (off0 + a) n) o k err op = op (off0 + a + o) k.
Proof. intros. unfold checked. by rewrite normalize_window. Qed.

Lemma chain_window a n o k : 0 <= a -> a + n <= sz -> 0 <= o -> 0 <= k -> o + k <= n ->
  rdev_chain (window a n) o k = Some (window (a + o) k).
Proof.
  intros. unfold rdev_chain, window. cbn [rdev_region rdev_root].
  rewrite normalize_window by done. by rewrite Z.add_assoc.
Qed.

Definition bytes (s : rstate) (a n : Z) : list Z :=
  map (fun i => byte s (a + Z.of_nat i)) (seq 0 (Z.to_nat n)).

Lemma read_window s a n o k : 0 <= a -> a + n <= sz -> 0 <= o -> 0 <= k -> o + k <= n ->
  rdev_readat drv_readat s (window a n) o k = (k, bytes s (a + o) k).
Proof using Hflash Hoff0 Hsz Hend.
  intros. unfold rdev_readat, window. cbn [rdev_region rdev_root root_readat].
  rewrite checked_window by lia. rewrite (nf_read (drv s)) by lia. f_equal.
  apply map_ext. intros i. unfold byte. f_equal. lia.
Qed.

(** Where bits are cleared. *)
Lemma write_window s a n o b : 0 <= a -> a + n <= sz -> 0 <= o ->
  o + Z.of_nat (length b) <= n ->
  exists s', rdev_writeat drv_writeat s (window a n) b o = (Z.of_nat (length b), s') /\
    forall x, byte s' x = if (a + o <=? x) && (x <? a + o + Z.of_nat (length b))
                          then Z.land (byte s x) (nth (Z.to_nat (x - (a + o))) b 0) else byte s x.
Proof using Hflash Hoff0 Hsz Hend.
  intros. unfold rdev_writeat, window. cbn [rdev_region rdev_root root_writeat]. cbv zeta.
  rewrite checked_window by lia.
  destruct (nf_write (drv s) (off0 + a + o) b) as (w & d' & Hw & E & Hx); [lia|lia|].
  rewrite Hw, E. exists (set_drv d' s). split; [done|]. intros x. unfold byte. cbn [drv set_drv].
  rewrite Hx. replace (off0 + x - (off0 + a + o)) with (x - (a + o)) by lia.
  assert ((off0 + a + o <=? off0 + x) && (off0 + x <? off0 + a + o + Z.of_nat (length b)) =
    (a + o <=? x) && (x <? a + o + Z.of_nat (length b))) as ->; [|done].
  apply eq_true_iff_eq. rewrite !andb_true_iff, !Z.leb_le, !Z.ltb_lt. lia.
Qed.

Lemma erase_window s : exists s',
  rdev_eraseat drv_eraseat s (window 0 sz) 0 sz = (sz, s') /\
  forall x, byte s' x = if (0 <=? x) && (x <? sz) then 0xff else byte s x.
Proof using Hflash Hoff0 Hsz Hend.
  unfold rdev_eraseat, window. cbn [rdev_region rdev_root root_eraseat].
  rewrite checked_window by lia.
  destruct (nf_erase (drv s) (off0 + 0 + 0) sz) as (e & d' & He & E & Hx); [lia|lia|].
  rewrite He, E. exists (set_drv d' s). split; [done|]. intros x. unfold byte. cbn [drv set_drv].
  rewrite Hx. assert ((off0 + 0 + 0 <=? off0 + x) && (off0 + x <? off0 + 0 + 0 + sz) =
    (0 <=? x) && (x <? sz)) as ->; [|done].
  apply eq_true_iff_eq. rewrite !andb_true_iff, !Z.leb_le, !Z.ltb_lt. lia.
Qed.

(** ** What a file looks like on the device *)

(** The [i]-th block offset. *)
Definition word (s : rstate) (i : Z) : Z := byte s (2 * i) + 256 * byte s (2 * i + 1).

Lemma byte_range s x : 0 <= byte s x < 256.
Proof using Hflash. apply (nf_byte (drv s)). Qed.

Lemma nth_bytes s a n i : (i < Z.to_nat n)%nat -> nth i (bytes s a n) 0 = byte s (a + Z.of_nat i).
Proof.
  intros Hi. unfold bytes. rewrite nth_indep with (d' := byte s (a + Z.of_nat 0))
    by (rewrite length_map, length_seq; lia).
  rewrite (map_nth (fun i => byte s (a + Z.of_nat i))). by rewrite seq_nth by lia.
Qed.

Lemma le16_bytes s a n i : 0 <= a -> (2 * i + 1 < Z.to_nat n)%nat ->
  le16 (bytes s (2 * a) n) i = word s (a + Z.of_nat i).
Proof.
  intros Ha Hi. unfold le16, word. rewrite !nth_bytes by lia.
  replace (2 * a + Z.of_nat (2 * i)) with (2 * (a + Z.of_nat i)) by lia.
  by replace (2 * a + Z.of_nat (2 * i + 1)) with (2 * (a + Z.of_nat i) + 1) by lia.
Qed.

Lemma metadata_block_words s a : 0 <= a ->
  metadata_block (bytes s (2 * a) 16) = map (fun i => word s (a + Z.of_nat i)) (seq 0 8).
Proof.
  intros Ha. unfold metadata_block. apply map_ext_in. intros i Hi%in_seq.
  by apply le16_bytes; lia.
Qed.

Lemma word_erased s i : word s i = 0xffff -> byte s (2 * i) = 0xff /\ byte s (2 * i + 1) = 0xff.
Proof using Hflash.
  unfold word. pose proof (byte_range s (2 * i)). pose proof (byte_range s (2 * i + 1)). lia.
Qed.

(** Blocks of the device. *)
Let t : Z := sz / 16.

(** [m] metadata blocks, [k] updates. *)
Record file_ok (s : rstate) (f : region_file) (k m : Z) : Prop := {
  fo_rdev : f_rdev f = window 0 sz;
  fo_metadata : f_metadata f = window 0 (16 * m);
  fo_m : 1 <= m <= t;
  fo_k : 0 <= k < 8 * m;
  fo_slot : slot f = k;
  fo_first : word s 0 = m;
  fo_incr : forall i, 0 <= i < k -> word s i < word s (i + 1);
  fo_last : word s k <= t /\ word s k < 0xffff;
  fo_free : forall i, k < i < 8 * m -> word s i = 0xffff;
  fo_end : data_end f = word s k;
  fo_begin : data_begin f = if k =? 0 then m else word s (k - 1);
  fo_erased : forall x, 16 * word s k <= x < sz -> byte s x = 0xff
}.

Lemma words_le s f k m i j : file_ok s f k m -> 0 <= i <= j -> j <= k -> word s i <= word s j.
Proof.
  intros H [Hi Hij] Hj. revert Hj. pattern j. apply Zlt_lower_bound_ind with (z := i); [|done].
  intros x IH Hx Hxk. destruct (Z.eq_dec x i) as [->|]; [lia|].
  pose proof (fo_incr _ _ _ _ H (x - 1) ltac:(lia)) as Hs. rewrite Z.sub_add in Hs.
  pose proof (IH (x - 1)). lia.
Qed.

Lemma word_used s f k m i : file_ok s f k m -> 0 <= i <= k -> m <= word s i < 0xffff.
Proof.
  intros H Hi. pose proof (words_le s f k m i k H ltac:(lia) ltac:(lia)).
  pose proof (words_le s f k m 0 i H ltac:(lia) ltac:(lia)).
  rewrite (fo_first _ _ _ _ H) in *. destruct (fo_last _ _ _ _ H). lia.
Qed.

(** ** Opening finds the last update *)

Lemma block_to_bytes_small i : 0 <= i < 2 ^ 16 -> block_to_bytes i = 16 * i.
Proof.
  intros Hi. unfold block_to_bytes, REGF_BLOCK_SHIFT. unfold u16. rewrite wrap_small by lia.
  rewrite Z.shiftl_mul_pow2 by lia. rewrite u32_small by lia. lia.
Qed.

Lemma t_spec : 1 <= t <= 2 ^ 16 /\ 16 * t <= sz < 16 * t + 16.
Proof using Hsz.
  unfold t. pose proof (Z.div_mod sz 16 ltac:(lia)). pose proof (Z.mod_pos_bound sz 16 ltac:(lia)).
  lia.
Qed.

Lemma read_mb_words s f m i : f_metadata f = window 0 (16 * m) -> m <= t -> 0 <= i < m ->
  read_mb drv_readat s i f = Some (map (fun j => word s (8 * i + Z.of_nat j)) (seq 0 8)).
Proof using Hflash Hoff0 Hsz Hend.
  intros Hf Hm Hi. pose proof t_spec. unfold read_mb. rewrite Hf, block_to_bytes_small by lia.
  rewrite read_window by lia. cbn [Z.ltb Z.compare].
  replace (0 + 16 * i) with (2 * (8 * i)) by lia. by rewrite metadata_block_words by lia.
Qed.

Lemma block_unallocated s f k m i : file_ok s f k m -> 0 <= i < m ->
  all_block_offsets_unallocated (map (fun j => word s (8 * i + Z.of_nat j)) (seq 0 8)) = (k <? 8 * i).
Proof.
  intros H Hi. unfold all_block_offsets_unallocated. apply eq_true_iff_eq.
  rewrite forallb_forall, Z.ltb_lt. split.
  - intros Hall. destruct (Z.lt_ge_cases k (8 * i)) as [|Hk]; [done|].
    pose proof (word_used s f k m (8 * i) H ltac:(lia)) as Hw.
    specialize (Hall (word s (8 * i))). unfold block_offset_unallocated in Hall.
    rewrite Z.eqb_eq in Hall. unfold REGF_UNALLOCATED_BLOCK in Hall.
    assert (word s (8 * i) = 0xffff); [|lia]. apply Hall. apply in_map_iff. exists 0%nat.
    split; [f_equal; lia|by left].
  - intros Hk x (j & <- & Hj%in_seq)%in_map_iff. apply Z.eqb_eq. apply (fo_free _ _ _ _ H). lia.
Qed.

Lemma latest_mb_loop_spec s f f' k m fuel : file_ok s f k m ->
  f_metadata f' = window 0 (16 * m) -> forall l r,
  0 <= l < r -> r <= m -> 8 * l <= k < 8 * r -> r - l - 1 <= Z.of_nat fuel ->
  latest_mb_loop drv_readat fuel s f' l r = Some (k / 8).
Proof using Hflash Hoff0 Hsz Hend.
  intros H Hf'. destruct (fo_m _ _ _ _ H) as [_ Hmt]. pose proof t_spec as Ht.
  induction fuel as [|fuel IH]; intros l r Hl Hr Hk Hfuel.
  - cbn [latest_mb_loop]. destruct (l + 1 <? r) eqn:E; bool_to_prop; [lia|]. f_equal.
    apply Z.div_unique with (r := k - 8 * l); lia.
  - cbn [latest_mb_loop]. destruct (l + 1 <? r) eqn:E; bool_to_prop.
    2:{ f_equal. apply Z.div_unique with (r := k - 8 * l); lia. }
    rewrite u32_small by lia. set (mid := (l + r) / 2).
    assert (Hmid : l < mid < r) by (unfold mid; pose proof (Z.div_mod (l + r) 2 ltac:(lia));
      pose proof (Z.mod_pos_bound (l + r) 2 ltac:(lia)); lia).
    rewrite (read_mb_words s f' m) by (done || lia). rewrite (block_unallocated s f k m) by (done || lia).
    destruct (k <? 8 * mid) eqn:E2; bool_to_prop; apply IH; lia.
Qed.

Lemma latest_slot_loop_spec s f k m n : file_ok s f k m -> (n <= 7)%nat ->
  let q := k / 8 in k - 8 * q <= Z.of_nat n ->
  Z.of_nat (latest_slot_loop (map (fun j => word s (8 * q + Z.of_nat j)) (seq 0 8)) n) = k - 8 * q.
Proof.
  intros H. cbv zeta. set (q := k / 8). pose proof (Z.div_mod k 8 ltac:(lia)) as Hdm.
  pose proof (Z.mod_pos_bound k 8 ltac:(lia)). destruct (fo_k _ _ _ _ H) as [Hk0 Hkm].
  fold q in Hdm. set (mb := map (fun j => word s (8 * q + Z.of_nat j)) (seq 0 8)).
  assert (Hnth : forall j, (j < 8)%nat -> nth j mb 0 = word s (8 * q + Z.of_nat j)).
  { intros j Hj. unfold mb. rewrite nth_indep with (d' := word s (8 * q + Z.of_nat 0))
      by (rewrite length_map, length_seq; lia).
    rewrite (map_nth (fun j => word s (8 * q + Z.of_nat j))). by rewrite seq_nth by lia. }
  induction n as [|n IH]; intros Hn Hkn; cbn [latest_slot_loop]; [lia|].
  rewrite Hnth by lia. unfold block_offset_unallocated, REGF_UNALLOCATED_BLOCK.
  destruct (Z.eq_dec (k - 8 * q) (Z.of_nat (S n))) as [E|E].
  - pose proof (word_used s f k m k H ltac:(lia)).
    replace (8 * q + Z.of_nat (S n)) with k by lia.
    replace (word s k =? 0xffff) with false by (symmetry; apply Z.eqb_neq; lia). simpl. lia.
  - rewrite (fo_free _ _ _ _ H) by lia. rewrite Z.eqb_refl. cbn [negb]. apply IH; lia.
Qed.

Lemma first_block_words s : region_device_sz (window 0 sz) = sz ->
  rdev_readat drv_readat s (window 0 sz) 0 16 = (16, bytes s 0 16) /\
  nth 0 (metadata_block (bytes s 0 16)) 0 = word s 0.
Proof using Hflash Hoff0 Hsz Hend.
  intros _. rewrite read_window by lia. split; [done|].
  pose proof (metadata_block_words s 0 ltac:(lia)) as H. change (2 * 0) with 0 in H. by rewrite H.
Qed.

Lemma region_file_init_ok s f k m : file_ok s f k m ->
  region_file_init drv_readat s (window 0 sz) = (0, f).
Proof using Hflash Hoff0 Hsz Hend.
  intros H. pose proof t_spec as Ht. pose proof H as [Hr Hmd Hm Hk Hslot Hfirst Hincr Hlast Hfree He Hb _].
  unfold region_file_init. change (region_device_sz (window 0 sz)) with sz.
  rewrite (chain_window 0 sz 0 sz) by lia.
  destruct (first_block_words s eq_refl) as [-> ->]. cbn [Z.ltb Z.compare].
  rewrite Hfirst. pose proof (word_used s f k m 0 H ltac:(lia)) as Hw0. rewrite Hfirst in Hw0.
  unfold block_offset_unallocated, REGF_UNALLOCATED_BLOCK.
  replace (m =? 0xffff) with false by (symmetry; apply Z.eqb_neq; lia).
  replace (m =? 0) with false by (symmetry; apply Z.eqb_neq; lia).
  rewrite block_to_bytes_small by lia. rewrite (chain_window 0 sz 0 (16 * m)) by lia.
  change (0 + 0) with 0. unfold find_latest_mb.
  rewrite (latest_mb_loop_spec s f _ k m) by (done || cbn [f_metadata with_metadata]; done || lia).
  pose proof (Z.div_mod k 8 ltac:(lia)) as Hdm. pose proof (Z.mod_pos_bound k 8 ltac:(lia)).
  rewrite (read_mb_words s _ m) by (done || lia).
  change REGF_UPDATES_PER_METADATA_BLOCK with 8.
  unfold find_latest_slot. cbn [with_slot with_metadata slot f_rdev f_metadata data_begin data_end].
  rewrite (latest_slot_loop_spec s f k m 7 H) by lia.
  rewrite s32_small by lia. replace (k / 8 * 8 + (k - 8 * (k / 8))) with k by lia.
  unfold fill_data_boundaries.
  cbn [with_slot with_metadata with_data slot f_rdev f_metadata data_begin data_end].
  destruct f as [fr fm fb fe fs]. cbn [f_rdev f_metadata data_begin data_end slot] in *. subst fr fm fs.
  unfold RF_ONLY_METADATA. destruct (k =? 0) eqn:Ek; bool_to_prop.
  - subst k fb. change (region_device_sz (window 0 (16 * m))) with (16 * m).
    rewrite bytes_to_block_div. rewrite (Z.mul_comm 16), Z.div_mul by lia.
    unfold u16. rewrite wrap_small by lia. by rewrite He, Hfirst.
  - rewrite u32_small by lia. rewrite chain_window by lia.
    rewrite read_window by lia. cbn [Z.ltb Z.compare].
    replace (0 + (k - 1) * 2 + 0) with (2 * (k - 1)) by lia.
    rewrite !le16_bytes by (lia || (vm_compute; lia)). cbn [data_begin data_end with_data f_rdev].
    replace (k - 1 + Z.of_nat 0) with (k - 1) by lia. replace (k - 1 + Z.of_nat 1) with k by lia.
    pose proof (Hincr (k - 1) ltac:(lia)) as Hlt. rewrite Z.sub_add in Hlt.
    destruct (word s k <=? word s (k - 1)) eqn:E1; bool_to_prop; [lia|].
    change (region_device_sz (window 0 sz)) with sz. rewrite bytes_to_block_div. fold t.
    destruct (t <? word s k) eqn:E2; bool_to_prop; [lia|]. by rewrite Hb, He.
Qed.

(** ** One update *)

Lemma align_up_8 x : 0 <= x < 2 ^ 31 -> ALIGN_UP 32 x 8 = 8 * ((x + 7) / 8).
Proof.
  intros Hx. change 8 with (2 ^ 3) at 1. rewrite align_up_pow2 by lia. change (2 ^ 3) with 8.
  replace (x + 8 - 1) with (x + 7) by lia. pose proof (Z.div_mod (x + 7) 8 ltac:(lia)). lia.
Qed.

(** The planned metadata leaves room for an update. *)
Lemma metadata_blocks_fit d : 1 <= d -> d + 1 <= t ->
  1 <= metadata_blocks t d < 0xffff /\ metadata_blocks t d + d <= t.
Proof using Hsz.
  intros Hd Hdt. pose proof t_spec as [Ht _]. clear -Hd Hdt Ht. clearbody t. unfold metadata_blocks.
  change (bytes_to_block _) with 1. change REGF_UPDATES_PER_METADATA_BLOCK with 8.
  rewrite (u32_small (t * 8)) by lia. rewrite (u32_small (d * 8)) by lia.
  rewrite (u32_small (d * 8 + 1)) by lia. set (n := t * 8 / (d * 8 + 1)).
  pose proof (Z.div_mod (t * 8) (d * 8 + 1) ltac:(lia)) as Hdm. fold n in Hdm.
  pose proof (Z.mod_pos_bound (t * 8) (d * 8 + 1) ltac:(lia)).
  assert (Hn : 0 <= n <= t).
  { split; [apply Z.div_pos; lia|]. apply Z.div_le_upper_bound; [lia|]. nia. }
  rewrite (align_up_8 n) by lia. pose proof (Z.div_mod (n + 7) 8 ltac:(lia)).
  pose proof (Z.mod_pos_bound (n + 7) 8 ltac:(lia)). set (c := (n + 7) / 8) in *.
  assert (Hy : (if 8 * c =? 0 then 1 else 8 * c) = 8 * c \/
               c = 0 /\ (if 8 * c =? 0 then 1 else 8 * c) = 1).
  { case_bool; bool_to_prop; [right|by left]. split; [lia|done]. }
  assert (Hgoal : forall y, 1 <= y -> 8 * y <= n + 7 \/ y = 1 ->
    1 <= u16 (1 * y) < 0xffff /\ u16 (1 * y) + d <= t).
  { intros y Hy1 Hy2. rewrite Z.mul_1_l. assert (y + d <= t) by nia.
    assert (9 * n <= 8 * t) by nia.
    unfold u16. rewrite wrap_small by lia. lia. }
  destruct Hy as [-> | [Hc0 ->]].
  - destruct (Z.eq_dec c 0) as [->|Hc0].
    + exfalso. lia.
    + rewrite align_up_8 by lia.
      replace ((8 * c + 7) / 8) with c by (apply Z.div_unique with (r := 7); lia).
      rewrite (Z.mul_comm 8), Z.div_mul by lia. apply Hgoal; lia.
  - change (ALIGN_UP 32 1 8 / 8) with 1. apply Hgoal; lia.
Qed.

Lemma bytes16_spec x : 0 <= x < 2 ^ 16 ->
  is_byte (nth 0 (bytes16 x) 0) /\ is_byte (nth 1 (bytes16 x) 0) /\
  nth 0 (bytes16 x) 0 + 256 * nth 1 (bytes16 x) 0 = x.
Proof.
  intros Hx. unfold bytes16, is_byte. cbn [nth]. change 0xff with (2 ^ 8 - 1).
  rewrite land_low_mask, Z.shiftr_div_pow2 by lia. pose proof (Z.div_mod x (2 ^ 8) ltac:(lia)).
  pose proof (Z.mod_pos_bound x (2 ^ 8) ltac:(lia)). lia.
Qed.

Lemma land_ff b : is_byte b -> Z.land 0xff b = b.
Proof.
  intros Hb. rewrite Z.land_comm. change 0xff with (2 ^ 8 - 1). rewrite land_low_mask by lia.
  by apply Z.mod_small.
Qed.

(** A write over erased bytes stores them. *)
Lemma write_erased s a n o b : 0 <= a -> a + n <= sz -> 0 <= o -> o + Z.of_nat (length b) <= n ->
  Forall is_byte b ->
  (forall x, a + o <= x < a + o + Z.of_nat (length b) -> byte s x = 0xff) ->
  exists s', rdev_writeat drv_writeat s (window a n) b o = (Z.of_nat (length b), s') /\
    (forall i, (i < length b)%nat -> byte s' (a + o + Z.of_nat i) = nth i b 0) /\
    (forall x, ~ a + o <= x < a + o + Z.of_nat (length b) -> byte s' x = byte s x).
Proof using Hflash Hoff0 Hsz Hend.
  intros Ha Hn Ho Hl Hb He. destruct (write_window s a n o b Ha Hn Ho Hl) as (s' & Hw & Hx).
  exists s'. split; [done|]. split.
  - intros i Hi. rewrite Hx, He by lia.
    destruct ((_ <=? _) && _) eqn:E.
    + replace (Z.to_nat (a + o + Z.of_nat i - (a + o))) with i by lia. apply land_ff.
      rewrite Forall_forall in Hb. apply Hb, list_elem_of_In, nth_In. done.
    + apply andb_false_iff in E. rewrite Z.leb_gt, Z.ltb_ge in E. lia.
  - intros x Hn'. rewrite Hx. destruct ((_ <=? _) && _) eqn:E; [bool_to_prop; lia|done].
Qed.

(** Writing a block offset into a free slot. *)
Lemma write_word s n i x : 0 <= n <= sz -> 0 <= i -> 2 * i + 2 <= n -> 0 <= x < 2 ^ 16 ->
  word s i = 0xffff ->
  exists s', rdev_writeat drv_writeat s (window 0 n) (bytes16 x) (2 * i) = (2, s') /\
    word s' i = x /\
    (forall y, ~ 2 * i <= y < 2 * i + 2 -> byte s' y = byte s y).
Proof using Hflash Hoff0 Hsz Hend.
  intros Hn Hi Hin Hx Hw. destruct (word_erased s i Hw) as [H0 H1].
  destruct (bytes16_spec x Hx) as (B0 & B1 & Bx).
  destruct (write_erased s 0 n (2 * i) (bytes16 x)) as (s' & Hs & Hb & Hf); try (simpl; lia).
  - constructor; [exact B0|]. constructor; [exact B1|constructor].
  - intros y Hy. cbn [length bytes16] in Hy.
    assert (y = 2 * i \/ y = 2 * i + 1) as [-> | ->] by lia; done.
  - exists s'. split; [done|]. split; [|exact Hf].
    unfold word. rewrite <- Bx, <- (Hb 0%nat), <- (Hb 1%nat) by (simpl; lia).
    replace (0 + 2 * i + Z.of_nat 0) with (2 * i) by lia.
    by replace (0 + 2 * i + Z.of_nat 1) with (2 * i + 1) by lia.
Qed.

Lemma word_frame s s' i : byte s' (2 * i) = byte s (2 * i) -> byte s' (2 * i + 1) = byte s (2 * i + 1) ->
  word s' i = word s i.
Proof. unfold word. by intros -> ->. Qed.

(** ** The states of the machine *)

Definition erased (s : rstate) : Prop := forall x, 0 <= x < sz -> byte s x = 0xff.

(** Only the file's window of the device changes. *)
Definition confined (s s' : rstate) : Prop := forall x, ~ 0 <= x < sz -> byte s' x = byte s x.

Lemma confined_trans s1 s2 s3 : confined s1 s2 -> confined s2 s3 -> confined s1 s3.
Proof. intros H1 H2 x Hx. by rewrite H2, H1. Qed.

(** A file that can be updated. *)
Definition usable (s : rstate) (f : region_file) : Prop :=
  f_rdev f = window 0 sz /\
  (slot f = RF_NEED_TO_EMPTY \/ (slot f = RF_EMPTY /\ erased s) \/ exists k m, file_ok s f k m).

Lemma handle_need_to_empty_ok s f : f_rdev f = window 0 sz ->
  exists s', handle_need_to_empty drv_eraseat s f = (0, s', with_slot RF_EMPTY f) /\
    erased s' /\ confined s s'.
Proof using Hflash Hoff0 Hsz Hend.
  intros Hf. unfold handle_need_to_empty. rewrite Hf.
  change (region_device_sz (window 0 sz)) with sz.
  destruct (erase_window s) as (s' & -> & Hx). exists s'.
  destruct (sz <? 0) eqn:E; bool_to_prop; [lia|]. split; [done|]. split.
  - intros x Hr. rewrite Hx. destruct ((0 <=? x) && _) eqn:E2; [done|].
    apply andb_false_iff in E2. rewrite Z.leb_gt, Z.ltb_ge in E2. lia.
  - intros x Hr. rewrite Hx. destruct ((0 <=? x) && _) eqn:E2; [bool_to_prop; lia|done].
Qed.

Lemma device_blocks : bytes_to_block (ALIGN_DOWN 32 sz REGF_BLOCK_GRANULARITY) = t.
Proof using Hsz.
  rewrite bytes_to_block_div. change REGF_BLOCK_GRANULARITY with (2 ^ 4).
  rewrite align_down_pow2 by lia. change (2 ^ 4) with 16. symmetry.
  apply Z.div_unique with (r := 0); [lia|]. unfold t. pose proof (Z.div_mod sz 16 ltac:(lia)). lia.
Qed.

Lemma handle_empty_ok s f d : f_rdev f = window 0 sz -> erased s -> 1 <= d -> d + 1 <= t ->
  exists s' f', handle_empty drv_writeat s f d = (0, s', f') /\
    file_ok s' f' 0 (metadata_blocks t d) /\ confined s s'.
Proof using Hflash Hoff0 Hsz Hend.
  intros Hf He Hd Hdt. pose proof t_spec as [Ht Hts]. destruct (metadata_blocks_fit d Hd Hdt) as [Hm1 Hm2].
  unfold handle_empty, allocate_metadata. rewrite Hf.
  change (region_device_sz (window 0 sz)) with sz. rewrite device_blocks.
  change (bytes_to_block (ALIGN_UP 32 REGF_METADATA_BLOCK_SIZE REGF_BLOCK_GRANULARITY)) with 1.
  rewrite u32_small by lia. destruct (t - 1 <? d) eqn:E; bool_to_prop; [lia|]. cbv zeta.
  set (m := metadata_blocks t d) in *.
  assert (Hw0 : word s 0 = 0xffff) by (unfold word; rewrite !He by lia; done).
  destruct (write_word s sz 0 m) as (s' & Hs & Hword & Hfr); [lia..|done|].
  change (2 * 0) with 0 in Hs, Hfr. rewrite Hs. cbn [Z.ltb Z.compare].
  rewrite block_to_bytes_small by lia. rewrite (chain_window 0 sz 0 (16 * m)) by lia.
  eexists s', _. split; [done|].
  assert (Hfree : forall x, 2 <= x < sz -> byte s' x = 0xff).
  { intros x Hx. rewrite Hfr by lia. apply He. lia. }
  split.
  - cbn [with_slot with_data with_metadata]. split; cbn [f_rdev f_metadata data_begin data_end slot]; try done; try lia.
    + intros i Hi. unfold word. rewrite !Hfree by lia. done.
    + intros x Hx. apply Hfree. lia.
  - intros x Hx. apply Hfr. lia.
Qed.

Lemma update_can_fit_spec s f k m d : file_ok s f k m -> 0 <= d < 2 ^ 16 ->
  update_can_fit f d = (k + 1 <? 8 * m) && (d + word s k <? 0xffff) && (d + word s k <=? t).
Proof using Hsz.
  intros H Hd. pose proof t_spec as [Ht _]. pose proof (fo_k _ _ _ _ H) as Hk'.
  pose proof (word_used s f k m k H ltac:(lia)) as Hw.
  pose proof H as [Hr Hmd Hm Hk Hslot _ _ _ _ He _ _]. unfold update_can_fit.
  rewrite Hmd, Hr, Hslot, He. change (region_device_sz (window 0 (16 * m))) with (16 * m).
  change (region_device_sz (window 0 sz)) with sz. rewrite bytes_to_block_div. fold t.
  replace (16 * m / 2) with (8 * m) by (apply Z.div_unique with (r := 0); lia).
  unfold REGF_UNALLOCATED_BLOCK. rewrite (u32_small k), (u32_small (k + 1)) by lia.
  rewrite u32_small by lia.
  rewrite (Z.ltb_antisym (8 * m)), (Z.ltb_antisym 0xffff), (Z.leb_antisym t).
  repeat case_bool; bool_to_prop; cbn [negb andb]; rewrite ?andb_false_r; done.
Qed.

(** The allocation of an update; the file is complete again before the data is
    written. *)
Lemma commit_data_allocation_ok s f k m d : file_ok s f k m -> 1 <= d ->
  k + 1 < 8 * m -> d + word s k < 0xffff -> d + word s k <= t ->
  exists s' f', commit_data_allocation drv_writeat s f d = (0, s', f') /\
    file_ok s' f' (k + 1) m /\ data_begin f' = word s k /\ data_end f' = word s k + d /\
    (forall x, ~ 2 * (k + 1) <= x < 2 * (k + 1) + 2 -> byte s' x = byte s x).
Proof using Hflash Hoff0 Hsz Hend.
  intros H Hd Hk1 Hff Hdt. pose proof t_spec as [Ht Hts]. pose proof (fo_k _ _ _ _ H) as Hk'.
  pose proof (word_used s f k m k H ltac:(lia)) as Hw.
  pose proof H as [Hr Hmd Hm Hk Hslot Hfirst Hincr Hlast Hfree He Hb Herr].
  unfold commit_data_allocation. cbn [with_slot slot data_end data_begin f_metadata with_data].
  rewrite Hslot, He, Hmd. unfold u16. rewrite wrap_small by lia. rewrite u32_small by lia.
  destruct (write_word s (16 * m) (k + 1) (word s k + d)) as (s' & Hs & Hword & Hfr);
    [lia..|by apply Hfree; lia|].
  rewrite (Z.mul_comm (k + 1)), Hs. cbn [Z.ltb Z.compare]. eexists s', _. split; [done|].
  assert (Hsame : forall i, i <> k + 1 -> word s' i = word s i).
  { intros i Hi. apply word_frame; apply Hfr; lia. }
  split; [|done].
  split; cbn [f_rdev f_metadata data_begin data_end slot]; try done; try lia.
  - rewrite Hsame by lia. done.
  - intros i Hi. destruct (Z.eq_dec i k) as [->|]; [rewrite Hword, Hsame; lia|].
    rewrite !Hsame by lia. apply Hincr. lia.
  - intros i Hi. rewrite Hsame by lia. apply Hfree. lia.
  - destruct (k + 1 =? 0) eqn:E; bool_to_prop; [lia|]. rewrite Z.add_simpl_r. by rewrite Hsame by lia.
  - intros x Hx. rewrite Hfr by lia. apply Herr. lia.
Qed.

Lemma handle_update_ok s f k m d buf : file_ok s f k m -> 1 <= d ->
  k + 1 < 8 * m -> d + word s k < 0xffff -> d + word s k <= t ->
  Forall is_byte buf -> Z.of_nat (length buf) <= 16 * d ->
  exists s' f', handle_update drv_writeat s f d buf = (0, s', f') /\
    file_ok s' f' (k + 1) m /\ data_begin f' = word s k /\ data_end f' = word s k + d /\
    (forall i, (i < length buf)%nat -> byte s' (16 * word s k + Z.of_nat i) = nth i buf 0) /\
    (forall x, 2 * (k + 2) <= x < 16 * word s k \/ ~ 0 <= x < sz -> byte s' x = byte s x).
Proof using Hflash Hoff0 Hsz Hend.
  intros H Hd Hk1 Hff Hdt Hbuf Hlen. pose proof t_spec as [Ht Hts].
  pose proof (fo_k _ _ _ _ H) as Hk'.
  pose proof (word_used s f k m k H ltac:(lia)) as Hw. pose proof (fo_m _ _ _ _ H) as Hm.
  unfold handle_update. rewrite (update_can_fit_spec s f k m) by (done || lia).
  replace (k + 1 <? 8 * m) with true by (symmetry; apply Z.ltb_lt; lia).
  replace (d + word s k <? 0xffff) with true by (symmetry; apply Z.ltb_lt; lia).
  replace (d + word s k <=? t) with true by (symmetry; apply Z.leb_le; lia). cbn [andb negb].
  destruct (commit_data_allocation_ok s f k m d H Hd Hk1 Hff Hdt) as (s1 & f1 & -> & H1 & Hb1 & He1 & Hfr1).
  cbn [Z.eqb negb]. unfold commit_data. rewrite Hb1, block_to_bytes_small by lia.
  rewrite (fo_rdev _ _ _ _ H1).
  destruct (write_erased s1 0 sz (16 * word s k) buf) as (s2 & Hs2 & Hdata & Hfr2); [lia..|done| |].
  { intros x Hx. rewrite Hfr1 by lia. apply (fo_erased _ _ _ _ H). lia. }
  rewrite Hs2. destruct (Z.of_nat (length buf) <? 0) eqn:E; bool_to_prop; [lia|]. cbn [Z.eqb negb].
  exists s2, f1. split; [done|].
  assert (Hsame : forall i, 0 <= i < 8 * m -> word s2 i = word s1 i).
  { intros i Hi. apply word_frame; apply Hfr2; lia. }
  assert (Hend1 : word s1 (k + 1) = word s k + d).
  { by rewrite <- He1, (fo_end _ _ _ _ H1). }
  split; [|split; [done|split; [done|split]]].
  - destruct H1 as [A1 A2 A3 A4 A5 A6 A7 A8 A9 A10 A11 A12]. split; try done.
    + by rewrite Hsame by lia.
    + intros i Hi. rewrite !Hsame by lia. by apply A7.
    + by rewrite Hsame by lia.
    + intros i Hi. rewrite Hsame by lia. by apply A9.
    + by rewrite Hsame by lia.
    + rewrite A11. destruct (k + 1 =? 0) eqn:E0; [done|]. by rewrite Hsame by lia.
    + intros x Hx. rewrite Hsame in Hx by lia. rewrite Hfr2 by lia. apply A12. lia.
  - intros i Hi. by rewrite <- Hdata.
  - intros x Hx. rewrite Hfr2 by lia. apply Hfr1. lia.
Qed.

(** A fresh file takes the update when its last block can be addressed. *)
Lemma fresh_fits s f d : 1 <= d -> d + 1 <= t -> file_ok s f 0 (metadata_blocks t d) ->
  update_can_fit f d = (d + metadata_blocks t d <? 0xffff).
Proof using Hsz.
  intros Hd Hdt H. pose proof t_spec as [Ht _]. destruct (metadata_blocks_fit d Hd Hdt) as [Hm1 Hm2].
  rewrite (update_can_fit_spec s f 0 _ d H) by lia. rewrite (fo_first _ _ _ _ H).
  replace (0 + 1 <? 8 * metadata_blocks t d) with true by (symmetry; apply Z.ltb_lt; lia).
  replace (d + metadata_blocks t d <=? t) with true by (symmetry; apply Z.leb_le; lia).
  by rewrite andb_true_r.
Qed.

(** ** The loop *)

(** What a successful update of [d] blocks leaves. *)
Definition updated (s : rstate) (buf : list Z) (d : Z) (s' : rstate) (f' : region_file) : Prop :=
  exists k m, file_ok s' f' k m /\ 1 <= k /\ data_end f' = data_begin f' + d /\
    (forall i, (i < length buf)%nat -> byte s' (16 * data_begin f' + Z.of_nat i) = nth i buf 0) /\
    confined s s'.

Section Update.
Variables (buf : list Z) (d : Z).
Hypothesis Hbuf : Forall is_byte buf.
Hypothesis Hlen : Z.of_nat (length buf) <= 16 * d.
Hypothesis Hd : 1 <= d.
Hypothesis Hdt : d + 1 <= t.

Local Notation loop := (update_loop drv_writeat drv_eraseat).

Lemma loop_fits n s f k m : file_ok s f k m -> update_can_fit f d = true ->
  exists s' f', loop (S n) s f d buf = Some (0, s', f') /\ updated s buf d s' f' /\
    slot f' = k + 1 /\ forall x, 2 * (k + 2) <= x < 16 * word s k -> byte s' x = byte s x.
Proof using Hflash Hoff0 Hsz Hend Hbuf Hlen Hd Hdt.
  intros H Hfit. pose proof t_spec as [Ht Hts]. pose proof (fo_k _ _ _ _ H) as Hk.
  rewrite (update_can_fit_spec s f k m) in Hfit by (done || lia). bool_to_prop.
  destruct (handle_update_ok s f k m d buf) as (s' & f' & Hu & Hf & Hb & He & Hdata & Hfr); try done.
  exists s', f'. cbn [update_loop]. unfold update_step, RF_EMPTY, RF_NEED_TO_EMPTY, RF_FATAL.
  rewrite (fo_slot _ _ _ _ H).
  replace (k =? -1) with false by (symmetry; apply Z.eqb_neq; lia).
  replace (k =? -2) with false by (symmetry; apply Z.eqb_neq; lia).
  replace (k =? -3) with false by (symmetry; apply Z.eqb_neq; lia).
  rewrite Hu. cbn [Z.eqb negb]. rewrite (fo_slot _ _ _ _ Hf). unfold RF_ONLY_METADATA.
  replace (0 <? k + 1) with true by (symmetry; apply Z.ltb_lt; lia).
  replace (k =? k + 1) with false by (symmetry; apply Z.eqb_neq; lia). cbn [andb negb].
  split; [done|]. split; [|split; [done|intros x Hx; apply Hfr; by left]].
  exists (k + 1), m. split; [done|]. split; [lia|]. split; [lia|]. split; [by rewrite Hb|].
  intros x Hx. apply Hfr. by right.
Qed.

(** Turns that do not end the loop. *)
Lemma loop_turn n s f s1 f1 : update_step drv_writeat drv_eraseat s f d buf = (0, s1, f1) ->
  slot f1 <= 0 -> loop (S n) s f d buf = loop n s1 f1 d buf.
Proof.
  intros E Hs. cbn [update_loop]. rewrite E. cbn [Z.eqb negb]. unfold RF_ONLY_METADATA.
  by replace (0 <? slot f1) with false by (symmetry; apply Z.ltb_ge; lia).
Qed.

Lemma loop_no_fit n s f k m : file_ok s f k m -> update_can_fit f d = false ->
  loop (S n) s f d buf = loop n s (with_slot RF_NEED_TO_EMPTY f) d buf.
Proof.
  intros H Hfit. pose proof (fo_k _ _ _ _ H) as Hk. apply loop_turn; [|done].
  unfold update_step, RF_EMPTY, RF_FATAL. rewrite (fo_slot _ _ _ _ H).
  replace (k =? -1) with false by (symmetry; apply Z.eqb_neq; lia).
  replace (k =? RF_NEED_TO_EMPTY) with false by (symmetry; apply Z.eqb_neq; unfold RF_NEED_TO_EMPTY; lia).
  replace (k =? -3) with false by (symmetry; apply Z.eqb_neq; lia).
  unfold handle_update. by rewrite Hfit.
Qed.

Lemma loop_need n s f : f_rdev f = window 0 sz -> slot f = RF_NEED_TO_EMPTY ->
  exists s1, loop (S n) s f d buf = loop n s1 (with_slot RF_EMPTY f) d buf /\
    erased s1 /\ confined s s1.
Proof using Hflash Hoff0 Hsz Hend.
  intros Hf Hs. destruct (handle_need_to_empty_ok s f Hf) as (s1 & H1 & H2 & H3).
  exists s1. split; [|done]. apply loop_turn; [|done]. unfold update_step. by rewrite Hs.
Qed.

Lemma loop_empty n s f : f_rdev f = window 0 sz -> slot f = RF_EMPTY -> erased s ->
  exists s1 f1, loop (S n) s f d buf = loop n s1 f1 d buf /\
    file_ok s1 f1 0 (metadata_blocks t d) /\ confined s s1.
Proof using Hflash Hoff0 Hsz Hend Hd Hdt.
  intros Hf Hs He. destruct (handle_empty_ok s f d Hf He Hd Hdt) as (s1 & f1 & H1 & H2 & H3).
  exists s1, f1. split; [|done]. apply loop_turn; [|rewrite (fo_slot _ _ _ _ H2); done].
  unfold update_step. by rewrite Hs.
Qed.

Lemma updated_confined s s1 s' f' : confined s s1 -> updated s1 buf d s' f' -> updated s buf d s' f'.
Proof.
  intros Hc (k & m & H1 & H2 & H3 & H4 & H5). exists k, m.
  do 4 (split; [done|]). by apply (confined_trans s s1).
Qed.

Lemma loop_from_empty n s f : f_rdev f = window 0 sz -> slot f = RF_EMPTY -> erased s ->
  d + metadata_blocks t d < 0xffff ->
  exists s' f', loop (S (S n)) s f d buf = Some (0, s', f') /\ updated s buf d s' f'.
Proof using Hflash Hoff0 Hsz Hend Hbuf Hlen Hd Hdt.
  intros Hf Hs He Hfit. destruct (loop_empty (S n) s f Hf Hs He) as (s1 & f1 & -> & H1 & Hc1).
  destruct (loop_fits n s1 f1 0 _ H1) as (s' & f' & -> & Hu & _).
  - rewrite (fresh_fits s1 f1 d Hd Hdt H1). by apply Z.ltb_lt.
  - exists s', f'. split; [done|]. by apply (updated_confined s s1).
Qed.

Lemma loop_from_need n s f : f_rdev f = window 0 sz -> slot f = RF_NEED_TO_EMPTY ->
  d + metadata_blocks t d < 0xffff ->
  exists s' f', loop (S (S (S n))) s f d buf = Some (0, s', f') /\ updated s buf d s' f'.
Proof using Hflash Hoff0 Hsz Hend Hbuf Hlen Hd Hdt.
  intros Hf Hs Hfit. destruct (loop_need (S (S n)) s f Hf Hs) as (s1 & -> & He & Hc1).
  destruct (loop_from_empty n s1 (with_slot RF_EMPTY f)) as (s' & f' & -> & Hu); try done.
  exists s', f'. split; [done|]. by apply (updated_confined s s1).
Qed.

Lemma loop_usable n s f : usable s f -> d + metadata_blocks t d < 0xffff ->
  exists s' f', loop (4 + n) s f d buf = Some (0, s', f') /\ updated s buf d s' f'.
Proof using Hflash Hoff0 Hsz Hend Hbuf Hlen Hd Hdt.
  intros [Hf [Hs|[[Hs He]|(k & m & H)]]] Hfit.
  - by apply (loop_from_need (S n)).
  - by apply (loop_from_empty (S (S n))).
  - destruct (update_can_fit f d) eqn:E.
    + destruct (loop_fits (3 + n) s f k m H E) as (s' & f' & Hl & Hu & _). by exists s', f'.
    + cbn [Nat.add]. rewrite (loop_no_fit (S (S (S n))) s f k m H E).
      by apply (loop_from_need n).
Qed.

(** Without room for the end of the update below [REGF_UNALLOCATED_BLOCK] the
    loop empties the file again and again. *)
Lemma loop_diverges : 0xffff <= d + metadata_blocks t d -> forall n s f,
  f_rdev f = window 0 sz ->
  slot f = RF_NEED_TO_EMPTY \/ (slot f = RF_EMPTY /\ erased s) \/
    file_ok s f 0 (metadata_blocks t d) -> loop n s f d buf = None.
Proof using Hflash Hoff0 Hsz Hend Hd Hdt.
  intros Hbig. induction n as [|n IH]; intros s f Hf Hcase; [done|].
  destruct Hcase as [Hs|[[Hs He]|H]].
  - destruct (loop_need n s f Hf Hs) as (s1 & -> & He & _). apply IH; auto.
  - destruct (loop_empty n s f Hf Hs He) as (s1 & f1 & -> & H1 & _).
    apply IH; [apply (fo_rdev _ _ _ _ H1)|auto].
  - rewrite (loop_no_fit n s f _ _ H); [apply IH; auto|].
    rewrite (fresh_fits s f d Hd Hdt H). by apply Z.ltb_ge.
Qed.
End Update.

Lemma bytes_at s a buf n : n = Z.of_nat (length buf) ->
  (forall i, (i < length buf)%nat -> byte s (a + Z.of_nat i) = nth i buf 0) -> bytes s a n = buf.
Proof.
  intros -> H. unfold bytes. rewrite Nat2Z.id.
  apply (nth_ext _ _ (byte s (a + Z.of_nat 0)) 0).
  - by rewrite length_map, length_seq.
  - intros i Hi. rewrite length_map, length_seq in Hi.
    rewrite (map_nth (fun i => byte s (a + Z.of_nat i))), seq_nth by done. by apply H.
Qed.

(** C32.  Every update arrives.  From any state of a file on NOR flash that the
    code itself produced, also one that has to be emptied, an update of [d]
    blocks for which the region has room next to one metadata block, and whose
    end is below block 0xffff, succeeds within four turns of the state machine,
    changes nothing outside the region, and after the next boot opening the
    region gives the same handle back and its latest data is what was written.
    When the open file has room, earlier updates stay where they are. *)
Theorem region_file_update_correct s f buf n :
  usable s f -> Forall is_byte buf -> (1 <= length buf)%nat -> Z.of_nat (length buf) < 2 ^ 31 ->
  let d := update_blocks buf in
  d + 1 <= t -> d + metadata_blocks t d < 0xffff ->
  exists s' f' rd,
    region_file_update_data drv_writeat drv_eraseat (4 + n) s f buf = Some (0, s', f') /\
    confined s s' /\ usable s' f' /\
    region_file_init drv_readat s' (window 0 sz) = (0, f') /\
    region_file_data f' = Some rd /\ region_device_sz rd = 16 * d /\
    rdev_readat drv_readat s' rd 0 (Z.of_nat (length buf)) = (Z.of_nat (length buf), buf) /\
    (forall k m, file_ok s f k m -> update_can_fit f d = true ->
       slot f' = k + 1 /\ forall x, 2 * (k + 2) <= x < 16 * word s k -> byte s' x = byte s x).
Proof using Hflash Hoff0 Hsz Hend.
  intros Hu Hbuf H1 H2 d Hdt Hfit. destruct (update_blocks_spec buf H1 H2) as (_ & Hd & Hlen).
  fold d in Hd, Hlen. pose proof t_spec as [Ht Hts].
  destruct (loop_usable buf d Hbuf ltac:(lia) Hd Hdt n s f Hu Hfit) as (s' & f' & Hl & Hup).
  pose proof Hup as (k & m & Hf & Hk & Hde & Hdata & Hc).
  pose proof (fo_begin _ _ _ _ Hf) as Hb. pose proof (fo_end _ _ _ _ Hf) as He.
  destruct (k =? 0) eqn:Ek; bool_to_prop; [lia|]. pose proof (fo_k _ _ _ _ Hf) as Hk'.
  pose proof (word_used s' f' k m (k - 1) Hf ltac:(lia)) as Hw1.
  pose proof (fo_last _ _ _ _ Hf) as [Hlast Hlast2]. pose proof (fo_m _ _ _ _ Hf) as Hm.
  exists s', f', (window (16 * data_begin f') (16 * d)). split; [done|]. split; [done|].
  split; [split; [apply (fo_rdev _ _ _ _ Hf)|right; right; by exists k, m]|].
  split; [by apply (region_file_init_ok s' f' k m)|]. split; [|split; [done|split]].
  - unfold region_file_data. rewrite (fo_slot _ _ _ _ Hf). unfold RF_ONLY_METADATA.
    replace (k <=? 0) with false by (symmetry; apply Z.leb_gt; lia).
    rewrite (fo_rdev _ _ _ _ Hf), !block_to_bytes_small by lia.
    rewrite u32_small by lia. rewrite chain_window by lia. do 2 f_equal; lia.
  - rewrite read_window by lia. rewrite (bytes_at s' _ buf); [done|done|].
    intros i Hi. rewrite Z.add_0_r. by apply Hdata.
  - intros k0 m0 H0 Hfit0.
    destruct (loop_fits buf d Hbuf ltac:(lia) Hd Hdt (3 + n) s f k0 m0 H0 Hfit0)
      as (s2 & f2 & Hl2 & _ & Hs2 & Hx2).
    unfold region_file_update_data in Hl. change (4 + n)%nat with (S (3 + n)) in Hl.
    fold d in Hl. rewrite Hl2 in Hl. by injection Hl as <- <-.
Qed.

(** An update whose last block cannot be addressed never returns: when it
    and the metadata planned for it end at block 0xffff or beyond, which needs a
    region of 1 MiB or 16 bytes less, every number of turns is too small.  The
    device is emptied and set up again without end. *)
Theorem region_file_update_diverges s f buf n :
  f_rdev f = window 0 sz -> slot f = RF_NEED_TO_EMPTY \/ (slot f = RF_EMPTY /\ erased s) ->
  (1 <= length buf)%nat -> Z.of_nat (length buf) < 2 ^ 31 ->
  let d := update_blocks buf in
  d + 1 <= t -> 0xffff <= d + metadata_blocks t d ->
  region_file_update_data drv_writeat drv_eraseat n s f buf = None.
Proof using Hflash Hoff0 Hsz Hend.
  intros Hf Hs H1 H2 d Hdt Hbig. destruct (update_blocks_spec buf H1 H2) as (_ & Hd & _).
  apply (loop_diverges buf d Hd Hdt Hbig); [done|tauto].
Qed.
End Flash.

(** ** A flash in memory *)

Definition flash := Z -> Z.
Definition flash_readat (d : flash) (id : nat) (off n : Z) : Z * list Z :=
  (n, map (fun i => u8 (d (off + Z.of_nat i))) (seq 0 (Z.to_nat n))).
Definition flash_writeat (d : flash) (id : nat) (off : Z) (b : list Z) : Z * flash :=
  (Z.of_nat (length b), fun x => if (off <=? x) && (x <? off + Z.of_nat (length b))
     then Z.land (u8 (d x)) (nth (Z.to_nat (x - off)) b 0) else d x).
Definition flash_eraseat (d : flash) (id : nat) (off n : Z) : Z * flash :=
  (n, fun x => if (off <=? x) && (x <? off + n) then 0xff else d x).

#[export] Instance flash_nor id :
  NorFlash flash_readat (Some flash_writeat) (Some flash_eraseat) id (fun d x => u8 (d x)).
Proof.
  split.
  - intros d x. apply wrap_range. lia.
  - done.
  - intros d off b Ho Hb. eexists _, _. split; [done|]. split; [done|]. intros x. cbn.
    case_bool; [|done]. unfold u8, wrap. rewrite <- !Z.land_ones by lia.
    apply Z.bits_inj'. intros n Hn. rewrite !Z.land_spec.
    by destruct (Z.testbit (d x) n), (Z.testbit (Z.ones 8) n), (Z.testbit _ n).
  - intros d off n Ho Hn. eexists _, _. split; [done|]. split; [done|]. intros x. cbn. by case_bool.
Qed.

Definition sample_dev (sz : Z) : region_device := window (id := 7) (mk_region 0 sz) 0 0 sz.
Definition sample_flash : rstate (D := flash) := mk_rstate (fun _ => 0) ∅ (fun _ => 0).
Definition sample_file (sz : Z) : region_file := mk_file (sample_dev sz) null_rdev 0 0 RF_NEED_TO_EMPTY.

(** A region of zeros is emptied, and 20 bytes written and read back. *)
Lemma region_file_update_witness :
  let buf := [1; 2; 3; 4; 5; 6; 7; 8; 9; 10; 11; 12; 13; 14; 15; 16; 17; 18; 19; 20] in
  region_file_init flash_readat sample_flash (sample_dev 256) = (0, sample_file 256) /\
  exists s' f' rd,
    region_file_update_data (Some flash_writeat) (Some flash_eraseat) 4 sample_flash
      (sample_file 256) buf = Some (0, s', f') /\
    region_file_init flash_readat s' (sample_dev 256) = (0, f') /\
    region_file_data f' = Some rd /\ rdev_readat flash_readat s' rd 0 20 = (20, buf).
Proof.
  intros buf. split; [vm_compute; reflexivity|].
  destruct (region_file_update_correct (Hflash := flash_nor 7) (mk_region 0 256) 0 256
    ltac:(lia) ltac:(lia) ltac:(lia) sample_flash (sample_file 256) buf 0)
    as (s' & f' & rd & H1 & _ & _ & H2 & H3 & _ & H4 & _).
  - split; [reflexivity|]. left. reflexivity.
  - repeat constructor; discriminate.
  - cbn. lia.
  - cbn. lia.
  - vm_compute. discriminate.
  - vm_compute. reflexivity.
  - exists s', f', rd. split; [exact H1|]. split; [exact H2|]. split; [exact H3|exact H4].
Defined.

(** 1 MiB - 32 bytes, in 1 MiB. *)
Lemma region_file_update_diverges_witness :
  let buf := repeat 1 (Z.to_nat (2 ^ 20 - 32)) in
  region_file_update_data (Some flash_writeat) (Some flash_eraseat) 1000 sample_flash
    (sample_file (2 ^ 20)) buf = None.
Proof.
  intros buf.
  assert (Hl : Z.of_nat (length buf) = 2 ^ 20 - 32).
  { unfold buf. rewrite repeat_length. lia. }
  destruct (update_blocks_spec buf) as (Hd & _); [lia|lia|].
  assert (E : update_blocks buf = 65534) by (rewrite Hd, Hl; reflexivity).
  apply (region_file_update_diverges (Hflash := flash_nor 7) (mk_region 0 (2 ^ 20)) 0 (2 ^ 20)
    ltac:(lia) ltac:(lia) ltac:(lia)).
  - reflexivity.
  - left. reflexivity.
  - lia.
  - lia.
  - rewrite E. vm_compute. discriminate.
  - rewrite E. vm_compute. discriminate.
Defined.
