(* ===== verification/Rtc.v ===== *)
(** * Dates ([src/lib/rtc.c])

    Conversion between seconds since 1970 and calendar dates.  [int] and [long]
    have 32 bits; divisions of the source are by positive constants and round
    towards 0. *)

From S2P Require Import Prelude.

Record rtc_time := mk_time
  { sec : Z; min : Z; hour : Z; mday : Z; mon : Z; year : Z; wday : Z }.

Definition SECDAY : Z := 86400.
Definition LEAP_YEAR (year : Z) : bool := Z.rem year 4 =? 0.
Definition DAYS_IN_YEAR (a : Z) : Z := if LEAP_YEAR a then 366 else 365.

Definition month_offset : list Z := [0; 31; 59; 90; 120; 151; 181; 212; 243; 273; 304; 334].

Definition leaps_to_year (year : Z) : Z := Z.quot year 4 - Z.quot year 100 + Z.quot year 400.

Definition with_wday (w : Z) (tm : rtc_time) : rtc_time :=
  mk_time (sec tm) (min tm) (hour tm) (mday tm) (mon tm) (year tm) w.

(** The return value, and the time with its weekday. *)
Definition rtc_calc_weekday (tm : rtc_time) : Z * rtc_time :=
  if year tm <? 1971 then (-1, tm)
  else
    let day := 4 in
    let leaps_to_date := leaps_to_year (year tm - 1) - leaps_to_year 1970 in
    let day := if negb (Z.rem (year tm) 4 =? 0)
                  && (negb (Z.rem (year tm) 100 =? 0) || (Z.rem (year tm) 400 =? 0))
                  && (2 <? mon tm) then day + 1 else day in
    let day := day + ((year tm - 1970) * 365 + leaps_to_date
                      + nth (Z.to_nat (mon tm - 1)) month_offset 0 + mday tm) in
    (0, with_wday (Z.rem day 7) tm).

(** [month_days], with February as long as the year makes it. *)
Definition month_days (leap : bool) : list Z :=
  [31; if leap then 29 else 28; 31; 30; 31; 30; 31; 31; 30; 31; 30; 31].
Definition DAYS_IN_MONTH (leap : bool) (a : Z) : Z := nth (Z.to_nat (a - 1)) (month_days leap) 0.

Fixpoint year_loop (fuel : nat) (i day : Z) : option (Z * Z) :=
  match fuel with
  | O => None
  | S fuel' => if DAYS_IN_YEAR i <=? day then year_loop fuel' (i + 1) (day - DAYS_IN_YEAR i)
               else Some (i, day)
  end.

(** The table has twelve entries. *)
Fixpoint month_loop (fuel : nat) (leap : bool) (i day : Z) : option (Z * Z) :=
  match fuel with
  | O => None
  | S fuel' => if DAYS_IN_MONTH leap i <=? day
               then month_loop fuel' leap (i + 1) (day - DAYS_IN_MONTH leap i)
               else Some (i, day)
  end.

(** [None]: a loop ran further than a 32-bit count of seconds reaches. *)
Definition rtc_to_tm (tim : Z) (tm : rtc_time) : option (Z * rtc_time) :=
  let day := Z.quot tim SECDAY in
  let hms := Z.rem tim SECDAY in
  match year_loop 100 1970 day with
  | None => None
  | Some (year, day) =>
      match month_loop 12 (LEAP_YEAR year) 1 day with
      | None => None
      | Some (mon, day) =>
          Some (rtc_calc_weekday
            (mk_time (Z.rem (Z.rem hms 3600) 60) (Z.quot (Z.rem hms 3600) 60) (Z.quot hms 3600)
               (day + 1) mon year (wday tm)))
      end
  end.

Definition rtc_mktime (tm : rtc_time) : Z :=
  let mon' := mon tm - 2 in
  let '(mon', year') := if mon' <=? 0 then (mon' + 12, year tm - 1) else (mon', year tm) in
  let days := s32 (u32 (Z.quot year' 4 - Z.quot year' 100 + Z.quot year' 400 +
                        Z.quot (367 * mon') 12 + mday tm + year' * 365 - 719499)) in
  let hours := s32 (days * 24 + hour tm) in
  u32 (s32 ((hours * 60 + min tm) * 60 + sec tm)).

(** ** The calendar *)

(** A day in the calendar: the day number since 1970 and its date. *)
Definition date_ok (tm : rtc_time) : Prop :=
  1970 <= year tm <= 2038 /\ 1 <= mon tm <= 12 /\
  1 <= mday tm <= DAYS_IN_MONTH (LEAP_YEAR (year tm)) (mon tm).

(** What [rtc_mktime] computes from a date, in days. *)
Definition mktime_days (y m d : Z) : Z :=
  let '(m, y) := if m - 2 <=? 0 then (m - 2 + 12, y - 1) else (m - 2, y) in
  Z.quot y 4 - Z.quot y 100 + Z.quot y 400 + Z.quot (367 * m) 12 + d + y * 365 - 719499.

(** The first day of a year and, in the year, of a month. *)
Definition year_start (y : Z) : Z := mktime_days y 1 1.
Definition month_start (leap : bool) (m : Z) : Z :=
  fold_right Z.add 0 (firstn (Z.to_nat (m - 1)) (month_days leap)).

(** By how much the weekday is off: right only after February of a leap year. *)
Definition wday_error (y m : Z) : Z := if m <=? 2 then 1 else if LEAP_YEAR y then 0 else 2.

(** The sum [rtc_calc_weekday] takes modulo 7. *)
Definition weekday_sum (y m d : Z) : Z :=
  (if negb (Z.rem y 4 =? 0) && (negb (Z.rem y 100 =? 0) || (Z.rem y 400 =? 0)) && (2 <? m)
   then 4 + 1 else 4) + ((y - 1970) * 365 + (leaps_to_year (y - 1) - leaps_to_year 1970)
     + nth (Z.to_nat (m - 1)) month_offset 0 + d).

Definition year_check (y : Z) : bool :=
  (year_start (y + 1) =? year_start y + DAYS_IN_YEAR y) && (0 <=? year_start y) &&
  (month_start (LEAP_YEAR y) 13 =? DAYS_IN_YEAR y) &&
  all_from 12 1 (fun m =>
    (mktime_days y m 0 + 1 =? year_start y + month_start (LEAP_YEAR y) m) &&
    (weekday_sum y m 0 =? mktime_days y m 0 + 4 + wday_error y m)).

Lemma year_checked y : 1970 <= y <= 2038 -> year_check y = true.
Proof. intros Hy. apply (all_from_spec 69 year_check 1970); [by vm_compute|lia]. Qed.

Lemma year_facts y : 1970 <= y <= 2038 ->
  year_start (y + 1) = year_start y + DAYS_IN_YEAR y /\ 0 <= year_start y /\
  month_start (LEAP_YEAR y) 13 = DAYS_IN_YEAR y.
Proof.
  intros Hy. pose proof (year_checked y Hy) as H. unfold year_check in H. bool_to_prop. auto.
Qed.

Lemma month_facts y m : 1970 <= y <= 2038 -> 1 <= m <= 12 ->
  mktime_days y m 0 + 1 = year_start y + month_start (LEAP_YEAR y) m /\
  weekday_sum y m 0 = mktime_days y m 0 + 4 + wday_error y m.
Proof.
  intros Hy Hm. pose proof (year_checked y Hy) as H. unfold year_check in H.
  apply andb_true_iff in H as [_ H]. apply (all_from_spec 12 _ 1 m) in H; [|lia].
  cbv beta in H. bool_to_prop. auto.
Qed.

Lemma mktime_days_linear y m d : mktime_days y m d = mktime_days y m 0 + d.
Proof. unfold mktime_days. case_bool; lia. Qed.

Lemma year_loop_spec fuel : forall i day, 1970 <= i <= 2038 -> 0 <= day ->
  year_start i + day < 24856 -> 2039 - i <= Z.of_nat fuel ->
  exists y d, year_loop fuel i day = Some (y, d) /\ i <= y <= 2038 /\
    year_start y + d = year_start i + day /\ 0 <= d < DAYS_IN_YEAR y.
Proof.
  induction fuel as [|fuel IH]; intros i day Hi Hd Hs Hf; [lia|]. cbn [year_loop].
  destruct (year_facts i Hi) as (Hn & H0 & _).
  destruct (DAYS_IN_YEAR i <=? day) eqn:E; bool_to_prop; [|exists i, day; auto with lia].
  assert (Hi' : i <> 2038).
  { intros ->. change (year_start 2038) with 24837 in *. change (DAYS_IN_YEAR 2038) with 365 in *. lia. }
  destruct (IH (i + 1) (day - DAYS_IN_YEAR i)) as (y & d & E1 & E2 & E3 & E4); [lia..|].
  exists y, d. split; [done|]. lia.
Qed.

Lemma month_start_next leap i : 1 <= i <= 12 ->
  month_start leap (i + 1) = month_start leap i + DAYS_IN_MONTH leap i.
Proof.
  intros Hi. apply Z.eqb_eq.
  by apply (all_from_spec 12 (fun i => month_start leap (i + 1) =?
    month_start leap i + DAYS_IN_MONTH leap i) 1); [destruct leap; vm_compute|lia].
Qed.

Lemma month_loop_spec fuel leap : forall i day, 1 <= i <= 12 -> 0 <= day ->
  month_start leap i + day < month_start leap 13 -> 13 - i <= Z.of_nat fuel ->
  exists m d, month_loop fuel leap i day = Some (m, d) /\ i <= m <= 12 /\
    month_start leap m + d = month_start leap i + day /\ 0 <= d < DAYS_IN_MONTH leap m.
Proof.
  induction fuel as [|fuel IH]; intros i day Hi Hd Hs Hf; [lia|]. cbn [month_loop].
  pose proof (month_start_next leap i Hi) as Hn.
  destruct (DAYS_IN_MONTH leap i <=? day) eqn:E; bool_to_prop; [|exists i, day; auto with lia].
  assert (i <> 12) by (intros ->; change (12 + 1) with 13 in *; lia).
  destruct (IH (i + 1) (day - DAYS_IN_MONTH leap i)) as (m & d & E1 & E2 & E3 & E4); [lia..|].
  exists m, d. split; [done|]. lia.
Qed.

(** Dates round trip.  For every non-negative 32-bit time, [rtc_to_tm]
    ends with a date of the calendar and a time of day from which [rtc_mktime]
    computes the same number of seconds; from 1971 on it reports success. *)
Theorem rtc_roundtrip tim tm0 : 0 <= tim < 2 ^ 31 ->
  exists ret tm, rtc_to_tm tim tm0 = Some (ret, tm) /\ date_ok tm /\
    0 <= hour tm < 24 /\ 0 <= min tm < 60 /\ 0 <= sec tm < 60 /\
    rtc_mktime tm = tim /\ (1971 <= year tm -> ret = 0).
Proof.
  intros Ht. unfold rtc_to_tm, SECDAY. cbv zeta.
  rewrite (Z.quot_div_nonneg tim), (Z.rem_mod_nonneg tim) by lia.
  pose proof (Z.div_mod tim 86400 ltac:(done)) as Hdm.
  pose proof (Z.mod_pos_bound tim 86400 ltac:(done)) as Hm.
  set (n := tim / 86400) in *. set (h := tim mod 86400) in *.
  assert (Hn : 0 <= n < 24856) by lia.
  destruct (year_loop_spec 100 1970 n) as (y & d & -> & Hy & Hs & Hd);
    [lia|lia|change (year_start 1970) with 0; lia|simpl; lia|].
  change (year_start 1970) with 0 in Hs. destruct (year_facts y ltac:(lia)) as (Hy1 & Hy2 & Hy3).
  destruct (month_loop_spec 12 (LEAP_YEAR y) 1 d) as (m & d' & -> & Hm' & Hs' & Hd');
    [lia|lia|change (month_start (LEAP_YEAR y) 1) with 0; lia|simpl; lia|].
  change (month_start (LEAP_YEAR y) 1) with 0 in Hs'.
  destruct (month_facts y m ltac:(lia) Hm') as [Hmf _].
  pose proof (Z.div_mod h 3600 ltac:(lia)). pose proof (Z.mod_pos_bound h 3600 ltac:(lia)).
  rewrite (Z.quot_div_nonneg h), (Z.rem_mod_nonneg h) by lia.
  rewrite Z.quot_div_nonneg, Z.rem_mod_nonneg by lia.
  set (hm := h mod 3600) in *. pose proof (Z.div_mod hm 60 ltac:(lia)).
  pose proof (Z.mod_pos_bound hm 60 ltac:(lia)).
  set (tm := mk_time (hm mod 60) (hm / 60) (h / 3600) (d' + 1) m y (wday tm0)).
  assert (Hmk : rtc_mktime tm = tim).
  { unfold rtc_mktime. cbn [mon year mday hour min sec tm].
    assert (Hdays : mktime_days y m (d' + 1) = n) by (rewrite mktime_days_linear; lia).
    unfold mktime_days in Hdays. revert Hdays.
    destruct (m - 2 <=? 0); intros Hdays; cbv zeta;
      (replace (_ + (d' + 1) + _ * 365 - 719499) with n by lia);
      rewrite (u32_small n), (s32_small n), (s32_small (n * 24 + _)), s32_small, u32_small; lia. }
  assert (Hfin : forall w, date_ok (with_wday w tm) /\ 0 <= hour tm < 24 /\ 0 <= min tm < 60 /\
    0 <= sec tm < 60).
  { intros w. unfold date_ok, tm. cbn [with_wday year mon mday hour min sec]. lia. }
  unfold rtc_calc_weekday. change (year tm) with y.
  destruct (y <? 1971) eqn:E; bool_to_prop.
  - exists (-1), tm. split; [done|]. destruct (Hfin (wday tm0)) as (H3 & H4 & H5 & H6).
    change (with_wday (wday tm0) tm) with tm in H3.
    do 5 (split; [done|]). change (year tm) with y. lia.
  - eexists _, _. split; [done|]. destruct (Hfin 0) as (H3 & H4 & H5 & H6).
    split; [exact H3|]. do 3 (split; [done|]). split; [exact Hmk|done].
Qed.

(** The weekday is wrong except after February of a leap year.  For a day
    from 1971 on, the computed weekday (0 is Sunday) is that of the date, day
    [n] since Thursday 1970-01-01, moved by one day in January and February
    and by two days after February of other years. *)
Theorem rtc_weekday_error tim tm0 : 365 * 86400 <= tim < 2 ^ 31 ->
  exists ret tm, rtc_to_tm tim tm0 = Some (ret, tm) /\
    wday tm = (tim / 86400 + 4 + wday_error (year tm) (mon tm)) mod 7 /\
    (wday tm = (tim / 86400 + 4) mod 7 <-> 2 < mon tm /\ LEAP_YEAR (year tm) = true).
Proof.
  intros Ht. unfold rtc_to_tm, SECDAY. cbv zeta.
  rewrite (Z.quot_div_nonneg tim), (Z.rem_mod_nonneg tim) by lia.
  pose proof (Z.div_mod tim 86400 ltac:(done)) as Hdm.
  pose proof (Z.mod_pos_bound tim 86400 ltac:(done)) as Hm.
  set (n := tim / 86400) in *. assert (Hn : 365 <= n < 24856) by lia.
  destruct (year_loop_spec 100 1970 n) as (y & d & -> & Hy & Hs & Hd);
    [lia|lia|change (year_start 1970) with 0; lia|simpl; lia|].
  change (year_start 1970) with 0 in Hs. destruct (year_facts y ltac:(lia)) as (Hy1 & Hy2 & Hy3).
  destruct (month_loop_spec 12 (LEAP_YEAR y) 1 d) as (m & d' & -> & Hm' & Hs' & Hd');
    [lia|lia|change (month_start (LEAP_YEAR y) 1) with 0; lia|simpl; lia|].
  change (month_start (LEAP_YEAR y) 1) with 0 in Hs'.
  destruct (month_facts y m ltac:(lia) Hm') as [Hmf Hwf].
  assert (y <> 1970).
  { intros ->. change (year_start 1970) with 0 in *. change (DAYS_IN_YEAR 1970) with 365 in *. lia. }
  unfold rtc_calc_weekday. cbn [year mon mday].
  destruct (y <? 1971) eqn:E; bool_to_prop; [lia|]. eexists _, _. split; [done|].
  cbn [with_wday wday year mon].
  assert (Hsum : weekday_sum y m (d' + 1) = n + 4 + wday_error y m).
  { assert (weekday_sum y m (d' + 1) = weekday_sum y m 0 + (d' + 1)) as -> by (unfold weekday_sum; lia). lia. }
  unfold weekday_sum in Hsum. rewrite Hsum, Z.rem_mod_nonneg
    by (unfold wday_error; repeat case_bool; lia).
  split; [done|]. unfold wday_error. destruct (m <=? 2) eqn:Em; bool_to_prop.
  - split; [intros Hc; exfalso|lia]. pose proof (Z.div_mod (n + 4) 7). pose proof (Z.div_mod (n + 4 + 1) 7).
    pose proof (Z.mod_pos_bound (n + 4) 7). lia.
  - destruct (LEAP_YEAR y) eqn:El; [rewrite Z.add_0_r; split; [lia|done]|].
    split; [intros Hc; exfalso|by intros [_ ?]]. pose proof (Z.div_mod (n + 4) 7).
    pose proof (Z.div_mod (n + 4 + 2) 7). pose proof (Z.mod_pos_bound (n + 4) 7). lia.
Qed.

(** 2016-02-29 12:34:56 UTC; the day was a Monday. *)
Definition time0 : rtc_time := mk_time 0 0 0 0 0 0 0.

Lemma rtc_roundtrip_witness :
  rtc_to_tm 1456749296 time0 = Some (0, mk_time 56 34 12 29 2 2016 2) /\
  exists ret tm, rtc_to_tm 1456749296 time0 = Some (ret, tm) /\ rtc_mktime tm = 1456749296.
Proof.
  split; [vm_compute; reflexivity|].
  destruct (rtc_roundtrip 1456749296 time0) as (ret & tm & H1 & _ & _ & _ & _ & H2 & _); [lia|].
  exists ret, tm. split; [exact H1|exact H2].
Defined.

Lemma rtc_weekday_error_witness :
  exists ret tm, rtc_to_tm 1456749296 time0 = Some (ret, tm) /\ wday tm <> (16860 + 4) mod 7.
Proof.
  destruct (rtc_weekday_error 1456749296 time0) as (ret & tm & H1 & _ & H3); [lia|].
  exists ret, tm. split; [exact H1|]. intros H. apply H3 in H.
  vm_compute in H1. injection H1 as _ <-. destruct H as [H _]. vm_compute in H. discriminate H.
Defined.
