(* ===== verification/Cmos.v ===== *)
(** * CMOS memory: options, clock and boot count

    [src/drivers/pc80/rtc/mc146818rtc.c], [mc146818rtc_early.c] and
    [src/include/pc80/mc146818rtc.h].  The hardware is reached by its ports only: [inb] and
    [outb] are arguments of the definitions.  The option table is a file of the flash; its
    records are read where [cbfs_boot_map_with_leak] of [CbfsLoad] maps it. *)

From S2P Require Import Prelude Region Bytes Mapped Cbfs CbfsLoad Rtc.

Notation memory := (Z -> Z).

(** [src/include/pc80/mc146818rtc.h] *)
Definition RTC_BASE_PORT : Z := 0x70.
Definition RTC_PORT (x : Z) : Z := RTC_BASE_PORT + x.
Definition RTC_FREQ_SELECT : Z := 10.
Definition RTC_CONTROL : Z := 11.
Definition RTC_INTR_FLAGS : Z := 12.
Definition RTC_VALID : Z := 13.
Definition RTC_BOOT_NORMAL : Z := 1.
Definition RTC_UIP : Z := 0x80.
Definition RTC_REF_CLCK_32KHZ : Z := 0x20.
Definition RTC_RATE_1024HZ : Z := 6.
Definition RTC_SET : Z := 0x80.
Definition RTC_24H : Z := 2.
Definition RTC_VRT : Z := 0x80.
Definition RTC_CLK_SECOND : Z := 0.
Definition RTC_CLK_MINUTE : Z := 2.
Definition RTC_CLK_HOUR : Z := 4.
Definition RTC_CLK_DAYOFWEEK : Z := 6.
Definition RTC_CLK_DAYOFMONTH : Z := 7.
Definition RTC_CLK_MONTH : Z := 8.
Definition RTC_CLK_YEAR : Z := 9.
Definition RTC_CLK_ALTCENTURY : Z := 0x32.
Definition PC_CKS_RANGE_START : Z := 16.
Definition PC_CKS_RANGE_END : Z := 45.
Definition PC_CKS_LOC : Z := 46.
Definition RTC_CONTROL_DEFAULT : Z := RTC_24H.
Definition RTC_FREQ_SELECT_DEFAULT : Z := Z.lor RTC_REF_CLCK_32KHZ RTC_RATE_1024HZ.
Definition RTC_BOOT_BYTE : Z := 48.

(** [src/include/bcd.h] *)
Definition bcd2bin (val : Z) : Z := u8 (Z.land (Z.shiftr val 4) 0xf * 10 + Z.land val 0xf).
Definition bin2bcd (val : Z) : Z := u8 (Z.lor (Z.shiftl (Z.quot val 10) 4) (Z.rem val 10)).

(** [enum cb_err] *)
Inductive cb_err := CB_SUCCESS | CB_ERR | CB_ERR_ARG | CB_CMOS_OTABLE_DISABLED
  | CB_CMOS_LAYOUT_NOT_FOUND | CB_CMOS_OPTION_NOT_FOUND | CB_CMOS_ACCESS_ERROR
  | CB_CMOS_CHECKSUM_INVALID | CB_KBD_CONTROLLER_FAILURE | CB_KBD_INTERFACE_FAILURE.

(** [src/commonlib/include/commonlib/coreboot_tables.h] and [cbfs_serialized.h]: the table
    of the options and its records. *)
Definition CBFS_COMPONENT_CMOS_LAYOUT : Z := 0x01aa.
Definition LB_TAG_OPTION : Z := 201.
Definition CMOS_MAX_NAME_LENGTH : Z := 32.
(** "cmos_layout.bin" *)
Definition layout_name : list Z := [99; 109; 111; 115; 95; 108; 97; 121; 111; 117; 116; 46; 98; 105; 110].

(** A 32-bit field of a structure, at the offset [k]. *)
Definition field (m : memory) (p k : Z) : Z := le32 (load m (u32 (p + k)) 4) 0.
Definition ct_header_length (m : memory) (ct : Z) : Z := field m ct 8.
Definition ce_tag (m : memory) (ce : Z) : Z := field m ce 0.
Definition ce_size (m : memory) (ce : Z) : Z := field m ce 4.
Definition ce_bit (m : memory) (ce : Z) : Z := field m ce 8.
Definition ce_length (m : memory) (ce : Z) : Z := field m ce 12.
Definition ce_config (m : memory) (ce : Z) : Z := field m ce 16.
Definition ce_name (ce : Z) : Z := u32 (ce + 24).

(** [memcmp] of the bytes at [p] with [l], equal to 0. *)
Definition memcmp_equal (m : memory) (p : Z) (l : list Z) : bool :=
  bool_decide (load m p (Z.of_nat (length l)) = l).

(** The first [strnlen (name, CMOS_MAX_NAME_LENGTH)] bytes of the string [name]. *)
Definition name_bytes (name : list Z) : list Z := take (Z.to_nat CMOS_MAX_NAME_LENGTH) name.

(** The walk over the records from [ce] on; [None]: it did not end within the rounds given. *)
Fixpoint find_entry (fuel : nat) (m : memory) (ce : Z) (name : list Z) : option (option Z) :=
  match fuel with
  | O => None
  | S n =>
      if negb (ce_tag m ce =? LB_TAG_OPTION) then Some None
      else if memcmp_equal m (ce_name ce) (name_bytes name) then Some (Some ce)
      else find_entry n m (u32 (ce + ce_size m ce)) name
  end.

(** [strlen] *)
Fixpoint strlen (fuel : nat) (m : memory) (p : Z) : option Z :=
  match fuel with
  | O => None
  | S n =>
      if m (u32 p) =? 0 then Some 0
      else match strlen n m (p + 1) with Some k => Some (k + 1) | None => None end
  end.

(** The build date, in BCD, of the generated [build.h]. *)
Record build_date := mk_date { bd_century : Z; bd_year : Z; bd_month : Z; bd_day : Z; bd_weekday : Z }.

Section Cmos.
Context {S : Type}.
Variable inb : S -> Z -> Z * S.
Variable outb : S -> Z -> Z -> S. (* the value, the port *)

(** ** Cells *)

Definition cmos_read (s : S) (addr : Z) : Z * S :=
  let addr := u8 addr in
  let offs := if 128 <=? addr then 2 else 0 in
  let addr := if 128 <=? addr then addr - 128 else addr in
  inb (outb s addr (RTC_BASE_PORT + offs)) (RTC_BASE_PORT + offs + 1).

Definition cmos_write_inner (s : S) (val addr : Z) : S :=
  let addr := u8 addr in
  let offs := if 128 <=? addr then 2 else 0 in
  let addr := if 128 <=? addr then addr - 128 else addr in
  outb (outb s addr (RTC_BASE_PORT + offs)) (u8 val) (RTC_BASE_PORT + offs + 1).

Definition cmos_write (s : S) (val addr : Z) : S :=
  let addr := u8 addr in
  let '(control_state, s) := cmos_read s RTC_CONTROL in
  let guard := negb (addr =? RTC_CONTROL) && (Z.land control_state RTC_SET =? 0) in
  let s := if guard then cmos_write_inner s (Z.lor control_state RTC_SET) RTC_CONTROL else s in
  let s := cmos_write_inner s val addr in
  if guard then cmos_write_inner s control_state RTC_CONTROL else s.

Definition cmos_disable_rtc (s : S) : S :=
  let '(control_state, s) := cmos_read s RTC_CONTROL in cmos_write s (Z.lor control_state RTC_SET) RTC_CONTROL.
Definition cmos_enable_rtc (s : S) : S :=
  let '(control_state, s) := cmos_read s RTC_CONTROL in cmos_write s (Z.land control_state (bnot 8 RTC_SET)) RTC_CONTROL.

(** [None]: the update of the clock did not end within the rounds given. *)
Fixpoint wait_uip (fuel : nat) (s : S) : option S :=
  match fuel with
  | O => None
  | Datatypes.S n =>
      let '(a, s) := cmos_read s RTC_FREQ_SELECT in
      if negb (Z.land a RTC_UIP =? 0) then wait_uip n s else Some s
  end.

Fixpoint read32_loop (n : nat) (s : S) (offset i value : Z) : Z * S :=
  match n with
  | O => (value, s)
  | Datatypes.S n =>
      let '(b, s) := cmos_read s (offset + i) in
      read32_loop n s offset (i + 1) (Z.lor value (u32 (Z.shiftl b (Z.shiftl i 3))))
  end.
Definition cmos_read32 (s : S) (offset : Z) : Z * S := read32_loop 4 s offset 0 0.

Fixpoint write32_loop (n : nat) (s : S) (offset value i : Z) : S :=
  match n with
  | O => s
  | Datatypes.S n =>
      write32_loop n (cmos_write s (Z.land (Z.shiftr value (Z.shiftl i 3)) 0xff) (offset + i)) offset value (i + 1)
  end.
Definition cmos_write32 (s : S) (offset value : Z) : S := write32_loop 4 s offset value 0.

(** ** Checksums *)

(** The sum of [n] cells from [i] on. *)
Fixpoint sum_loop (n : nat) (s : S) (i sum : Z) : Z * S :=
  match n with
  | O => (sum, s)
  | Datatypes.S n => let '(b, s) := cmos_read s i in sum_loop n s (i + 1) (u16 (sum + b))
  end.

Variable CONFIG_STATIC_OPTION_TABLE : bool.

Definition cmos_checksum_valid (s : S) (range_start range_end cks_loc : Z) : bool * S :=
  if CONFIG_STATIC_OPTION_TABLE then (true, s)
  else
    let '(sum, s) := sum_loop (Z.to_nat (range_end - range_start + 1)) s range_start 0 in
    let '(hi, s) := cmos_read s cks_loc in
    let '(lo, s) := cmos_read s (cks_loc + 1) in
    let old_sum := Z.land (Z.lor (Z.shiftl hi 8) lo) 0xffff in
    (sum =? old_sum, s).

Definition cmos_set_checksum (s : S) (range_start range_end cks_loc : Z) : S :=
  let '(sum, s) := sum_loop (Z.to_nat (range_end - range_start + 1)) s range_start 0 in
  let s := cmos_write s (Z.land (Z.shiftr sum 8) 0xff) cks_loc in
  cmos_write s (Z.land (Z.shiftr sum 0) 0xff) (cks_loc + 1).

(** ** The clock *)

Definition rtc_set (s : S) (time : rtc_time) : S :=
  let s := cmos_write s (bin2bcd (u8 (sec time))) RTC_CLK_SECOND in
  let s := cmos_write s (bin2bcd (u8 (min time))) RTC_CLK_MINUTE in
  let s := cmos_write s (bin2bcd (u8 (hour time))) RTC_CLK_HOUR in
  let s := cmos_write s (bin2bcd (u8 (mday time))) RTC_CLK_DAYOFMONTH in
  let s := cmos_write s (bin2bcd (u8 (mon time))) RTC_CLK_MONTH in
  let s := cmos_write s (bin2bcd (u8 (Z.rem (year time) 100))) RTC_CLK_YEAR in
  let s := cmos_write s (bin2bcd (u8 (Z.quot (year time) 100))) RTC_CLK_ALTCENTURY in
  cmos_write s (bin2bcd (u8 (wday time + 1))) RTC_CLK_DAYOFWEEK.

Definition rtc_get (fuel : nat) (s : S) : option (rtc_time * S) :=
  match wait_uip fuel s with
  | None => None
  | Some s =>
      let '(v_sec, s) := cmos_read s RTC_CLK_SECOND in
      let '(v_min, s) := cmos_read s RTC_CLK_MINUTE in
      let '(v_hour, s) := cmos_read s RTC_CLK_HOUR in
      let '(v_mday, s) := cmos_read s RTC_CLK_DAYOFMONTH in
      let '(v_mon, s) := cmos_read s RTC_CLK_MONTH in
      let '(v_year, s) := cmos_read s RTC_CLK_YEAR in
      let '(v_century, s) := cmos_read s RTC_CLK_ALTCENTURY in
      let '(v_wday, s) := cmos_read s RTC_CLK_DAYOFWEEK in
      Some (mk_time (bcd2bin v_sec) (bcd2bin v_min) (bcd2bin v_hour) (bcd2bin v_mday) (bcd2bin v_mon)
              (bcd2bin v_year + bcd2bin v_century * 100) (bcd2bin v_wday - 1), s)
  end.

Variable coreboot_build_date : build_date.

Definition cmos_reset_date (s : S) : S :=
  let d := coreboot_build_date in
  rtc_set s (mk_time 0 0 1 (bcd2bin (bd_day d)) (bcd2bin (bd_month d))
    (bcd2bin (bd_century d) * 100 + bcd2bin (bd_year d)) (bcd2bin (bd_weekday d))).

Definition cmos_check_update_date (fuel : nat) (s : S) : option S :=
  match wait_uip fuel s with
  | None => None
  | Some s =>
      let '(century, s) := cmos_read s RTC_CLK_ALTCENTURY in
      let '(year, s) := cmos_read s RTC_CLK_YEAR in
      Some (if (0x99 <? century) || (0x99 <? year) then cmos_reset_date s else s)
  end.

(** ** Initialisation *)

Variable CONFIG_USE_OPTION_TABLE : bool.
(** Of the generated [option_table.h]. *)
Variables LB_CKS_RANGE_START LB_CKS_RANGE_END LB_CKS_LOC : Z.

Fixpoint clear_cells (n : nat) (s : S) (i : Z) : S :=
  match n with
  | O => s
  | Datatypes.S n => clear_cells n (cmos_write s 0 i) (i + 1)
  end.

(** [wakeup]: ramstage resumes from sleep. *)
Definition cmos_init (s : S) (wakeup invalid : bool) : S :=
  if wakeup then s
  else
    let '(x, s) := cmos_read s RTC_VALID in
    let cmos_invalid := Z.land x RTC_VRT =? 0 in
    let '(checksum_invalid, clear_cmos, s) :=
      if CONFIG_USE_OPTION_TABLE then
        let '(valid, s) := cmos_checksum_valid s PC_CKS_RANGE_START PC_CKS_RANGE_END PC_CKS_LOC in (negb valid, false, s)
      else (false, true, s) in
    let s := if cmos_invalid || invalid then
        let '(c, s) := cmos_read s RTC_CONTROL in cmos_write s (Z.lor c RTC_SET) RTC_CONTROL
      else s in
    let s := if invalid || cmos_invalid || checksum_invalid then
        let s := if clear_cmos then
            clear_cells 118 (cmos_write (cmos_write (cmos_write s 0 1) 0 3) 0 5) 10
          else s in
        if cmos_invalid then cmos_reset_date s else s
      else s in
    let s := cmos_write s RTC_CONTROL_DEFAULT RTC_CONTROL in
    let s := cmos_write s RTC_FREQ_SELECT_DEFAULT RTC_FREQ_SELECT in
    let s := cmos_write s RTC_VRT RTC_VALID in
    let s := if CONFIG_USE_OPTION_TABLE then
        let '(_, s) := cmos_checksum_valid s LB_CKS_RANGE_START LB_CKS_RANGE_END LB_CKS_LOC in
        cmos_set_checksum s PC_CKS_RANGE_START PC_CKS_RANGE_END PC_CKS_LOC
      else s in
    snd (cmos_read s RTC_INTR_FLAGS).

(** ** Values *)

Fixpoint read_bytes (n : nat) (s : S) (byte : Z) : list Z * S :=
  match n with
  | O => ([], s)
  | Datatypes.S n =>
      let '(b, s) := cmos_read s byte in
      let '(l, s) := read_bytes n s (byte + 1) in
      (b :: l, s)
  end.

(** The bytes put at [vret].  A length above eight bits that is no multiple of eight never
    reaches 0 in the code; it is [None]. *)
Definition get_cmos_value (s : S) (bit length : Z) : option (list Z * S) :=
  let byte := bit / 8 in
  let byte_bit := bit mod 8 in
  if length <? 9 then
    let '(uchar, s) := cmos_read s byte in
    let uchar := Z.shiftr uchar byte_bit in
    Some ([Z.land uchar (Z.shiftl 1 length - 1)], s)
  else if negb (length mod 8 =? 0) then None
  else Some (read_bytes (Z.to_nat (length / 8)) s byte).

Fixpoint write_bytes (s : S) (byte : Z) (l : list Z) : S :=
  match l with
  | [] => s
  | b :: l => write_bytes (cmos_write s b byte) (byte + 1) l
  end.

Definition in_checksum (byte : Z) : bool := (LB_CKS_RANGE_START <=? byte) && (byte <=? LB_CKS_RANGE_END).

(** [value i] is the byte at [vret + i]. *)
Definition set_cmos_value (s : S) (bit length : Z) (value : Z -> Z) : cb_err * S :=
  let byte := bit / 8 in
  let byte_bit := bit mod 8 in
  let finish (needed : bool) s :=
    (CB_SUCCESS, if needed then cmos_set_checksum s LB_CKS_RANGE_START LB_CKS_RANGE_END LB_CKS_LOC else s) in
  if length <=? 8 then
    let mask := u8 (Z.shiftl 1 length - 1) in
    let mask := u8 (Z.shiftl mask byte_bit) in
    let '(uchar, s) := cmos_read s byte in
    let uchar := Z.land uchar (bnot 8 mask) in
    let uchar := u8 (Z.lor uchar (Z.shiftl (value 0) byte_bit)) in
    finish (in_checksum byte) (cmos_write s uchar byte)
  else if negb (byte_bit =? 0) || negb (length mod 8 =? 0) then (CB_ERR_ARG, s)
  else
    let n := Z.to_nat (length / 8) in
    let s := write_bytes s byte (map (fun i => value (Z.of_nat i)) (seq 0 n)) in
    finish (existsb (fun i => in_checksum (byte + Z.of_nat i)) (seq 0 n)) s.

(** ** The boot byte *)

Variable CONFIG_MAX_REBOOT_CNT : Z.

Definition cmos_error (s : S) : bool * S :=
  let '(reg_d, s) := cmos_read s RTC_VALID in (Z.land reg_d RTC_VRT =? 0, s).

(** The loop over an [unsigned char]; [None]: it did not end. *)
Fixpoint early_sum (fuel : nat) (s : S) (addr sum : Z) : option (Z * S) :=
  match fuel with
  | O => None
  | Datatypes.S n =>
      if LB_CKS_RANGE_END <? addr then Some (sum, s)
      else let '(b, s) := cmos_read s addr in early_sum n s (u8 (addr + 1)) (u16 (sum + b))
  end.

Definition cmos_chksum_valid (s : S) : option (bool * S) :=
  if CONFIG_USE_OPTION_TABLE then
    match early_sum 257 s (u8 LB_CKS_RANGE_START) 0 with
    | None => None
    | Some (sum, s) =>
        let '(hi, s) := cmos_read s LB_CKS_LOC in
        let '(lo, s) := cmos_read s (LB_CKS_LOC + 1) in
        Some (sum =? Z.lor (u16 (Z.shiftl hi 8)) lo, s)
    end
  else Some (false, s).

Definition boot_count (rtc_byte : Z) : Z := Z.shiftr rtc_byte 4.
Definition increment_boot_count (rtc_byte : Z) : Z := u8 (rtc_byte + Z.shiftl 1 4).
Definition boot_set_fallback (rtc_byte : Z) : Z := Z.land rtc_byte (bnot 8 RTC_BOOT_NORMAL).
Definition boot_use_normal (rtc_byte : Z) : Z := Z.land rtc_byte RTC_BOOT_NORMAL.

(** The byte of this attempt. *)
Definition next_boot_byte (byte : Z) : Z :=
  if negb (boot_use_normal byte =? 0) then
    if boot_count byte <? CONFIG_MAX_REBOOT_CNT then increment_boot_count byte
    else boot_set_fallback byte
  else byte.

Definition do_normal_boot (s : S) : option (Z * S) :=
  let '(err, s) := cmos_error s in
  match (if err then Some (true, s)
         else match cmos_chksum_valid s with Some (v, s) => Some (negb v, s) | None => None end) with
  | None => None
  | Some (invalid, s) =>
      let s := if invalid then
          let '(byte, s) := cmos_read s RTC_BOOT_BYTE in
          let byte := Z.land byte (Z.land (boot_set_fallback byte) 0x0f) in
          let byte := Z.lor byte (Z.shiftl 0xf 4) in
          cmos_write s byte RTC_BOOT_BYTE
        else s in
      let '(byte, s) := cmos_read s RTC_BOOT_BYTE in
      let byte := next_boot_byte byte in
      let s := cmos_write s byte RTC_BOOT_BYTE in
      Some (boot_use_normal byte, s)
  end.

Definition read_option_lowlevel (s : S) (start size def : Z) : Z * S :=
  if CONFIG_USE_OPTION_TABLE then
    let '(byte, s) := cmos_read s (start / 8) in
    (Z.land (Z.shiftr byte (Z.land start 7)) (u32 (u32 (Z.shiftl 1 size) - 1)), s)
  else (def, s).

Variable CONFIG_SKIP_MAX_REBOOT_CNT_CLEAR : bool.

Definition set_boot_successful (s : S) : S :=
  let '(index, s) := inb s (RTC_PORT 0) in
  let index := Z.land index 0x80 in
  let index := Z.lor index RTC_BOOT_BYTE in
  let s := outb s index (RTC_PORT 0) in
  let '(byte, s) := inb s (RTC_PORT 1) in
  let byte :=
    if CONFIG_SKIP_MAX_REBOOT_CNT_CLEAR then Z.land byte (bnot 8 RTC_BOOT_NORMAL)
    else if negb (Z.land byte RTC_BOOT_NORMAL =? 0) then Z.land byte 0x0f
    else byte in
  outb s byte (RTC_PORT 1).

(** ** Codes of the boot progress: [src/console/post.c] *)

Variable CMOS_POST_OFFSET : Z.
Variable CONFIG_CMOS_POST_EXTRA : bool.
Definition CMOS_POST_BANK_OFFSET : Z := CMOS_POST_OFFSET.
Definition CMOS_POST_BANK_0_MAGIC : Z := 0x80.
Definition CMOS_POST_BANK_0_OFFSET : Z := CMOS_POST_OFFSET + 1.
Definition CMOS_POST_BANK_0_EXTRA : Z := CMOS_POST_OFFSET + 3.
Definition CMOS_POST_BANK_1_MAGIC : Z := 0x81.
Definition CMOS_POST_BANK_1_OFFSET : Z := CMOS_POST_OFFSET + 2.
Definition CMOS_POST_BANK_1_EXTRA : Z := CMOS_POST_OFFSET + 7.
Definition CMOS_POST_EXTRA_DEV_PATH : Z := 1.

Definition cmos_post_init (s : S) : S :=
  let magic := CMOS_POST_BANK_0_MAGIC in
  let '(bank, s) := cmos_read s CMOS_POST_BANK_OFFSET in
  let '(magic, s) :=
    if bank =? CMOS_POST_BANK_1_MAGIC then (magic, s)
    else if bank =? CMOS_POST_BANK_0_MAGIC then (CMOS_POST_BANK_1_MAGIC, s)
    else
      let s := cmos_write s 0 CMOS_POST_BANK_0_OFFSET in
      let s := cmos_write s 0 CMOS_POST_BANK_1_OFFSET in
      if CONFIG_CMOS_POST_EXTRA then
        let s := cmos_write32 s CMOS_POST_BANK_0_EXTRA 0 in
        (magic, cmos_write32 s CMOS_POST_BANK_1_EXTRA 0)
      else (magic, s) in
  cmos_write s magic CMOS_POST_BANK_OFFSET.

(** The code of the boot before and its additional word. *)
Definition previous_post_code (s : S) : Z * Z * S :=
  let '(bank, s) := cmos_read s CMOS_POST_BANK_OFFSET in
  let read code_at extra_at :=
    let '(code, s) := cmos_read s code_at in
    let '(extra, s) := if CONFIG_CMOS_POST_EXTRA then cmos_read32 s extra_at else (0, s) in
    (code, extra, s) in
  if bank =? CMOS_POST_BANK_0_MAGIC then read CMOS_POST_BANK_1_OFFSET CMOS_POST_BANK_1_EXTRA
  else if bank =? CMOS_POST_BANK_1_MAGIC then read CMOS_POST_BANK_0_OFFSET CMOS_POST_BANK_0_EXTRA
  else (0, 0, s).

(** The codes a boot normally ends with: [src/include/console/post_codes.h]. *)
Definition POST_OS_RESUME : Z := 0xfd.
Definition POST_ENTER_ELF_BOOT : Z := 0xf8.
Definition POST_OS_BOOT : Z := 0xfe.

(** The events for the log: the code, then the additional word.  A warning on the console is
    not modelled. *)
Variable CONFIG_ELOG : bool.
Inductive elog_event := ELOG_TYPE_LAST_POST_CODE (code : Z) | ELOG_TYPE_POST_EXTRA (extra : Z).

Definition cmos_post_log (s : S) : list elog_event * S :=
  let '(code, extra, s) := previous_post_code s in
  if (code =? POST_OS_BOOT) || (code =? POST_OS_RESUME) || (code =? POST_ENTER_ELF_BOOT) || (code =? 0)
  then ([], s)
  else if negb CONFIG_ELOG then ([], s)
  else (ELOG_TYPE_LAST_POST_CODE code
        :: (if CONFIG_CMOS_POST_EXTRA && negb (extra =? 0) then [ELOG_TYPE_POST_EXTRA extra] else []), s).

Definition post_log_extra (s : S) (value : Z) : S :=
  let '(bank, s) := cmos_read s CMOS_POST_BANK_OFFSET in
  if bank =? CMOS_POST_BANK_0_MAGIC then cmos_write32 s CMOS_POST_BANK_0_EXTRA value
  else if bank =? CMOS_POST_BANK_1_MAGIC then cmos_write32 s CMOS_POST_BANK_1_EXTRA value
  else s.

(** [path]: what [dev_path_encode] gives of the device, [None] for a null pointer. *)
Definition post_log_path (s : S) (path : option Z) : S :=
  match path with
  | None => s
  | Some path => post_log_extra s (u32 (Z.lor path (Z.shiftl CMOS_POST_EXTRA_DEV_PATH 24)))
  end.
Definition post_log_clear (s : S) : S := post_log_extra s 0.

Definition cmos_post_code (s : S) (value : Z) : S :=
  let '(bank, s) := cmos_read s CMOS_POST_BANK_OFFSET in
  if bank =? CMOS_POST_BANK_0_MAGIC then cmos_write s value CMOS_POST_BANK_0_OFFSET
  else if bank =? CMOS_POST_BANK_1_MAGIC then cmos_write s value CMOS_POST_BANK_1_OFFSET
  else s.

(** ** Options: the table is in the flash, the values are in the CMOS *)

Variable drv_readat : S -> nat -> Z -> Z -> Z * list Z.
Variable CONFIG_ROM_SIZE : Z.
Variables stack_word stack_header : list Z.
Notation state := (rstate (D := S)).

(** The table, where the flash maps it. *)
Definition map_layout (fuel : nat) (s : state) (fh : cbfsf) : option (option Z * state) :=
  match cbfs_boot_map_with_leak drv_readat CONFIG_ROM_SIZE stack_word stack_header fuel s fh
          layout_name CBFS_COMPONENT_CMOS_LAYOUT with
  | None => None
  | Some (ct, _, s) => Some (ct, s)
  end.

(** The value is put at [dest] before the checksum is looked at. *)
Definition get_option (fuel : nat) (s : state) (fh : cbfsf) (dest : Z) (name : list Z)
    : option (cb_err * state) :=
  if negb CONFIG_USE_OPTION_TABLE then Some (CB_CMOS_OTABLE_DISABLED, s)
  else
    match map_layout fuel s fh with
    | None => None
    | Some (None, s) => Some (CB_CMOS_LAYOUT_NOT_FOUND, s)
    | Some (Some ct, s) =>
        match find_entry fuel (mem s) (u32 (ct + ct_header_length (mem s) ct)) name with
        | None => None
        | Some None => Some (CB_CMOS_OPTION_NOT_FOUND, s)
        | Some (Some ce) =>
            match get_cmos_value (drv s) (ce_bit (mem s) ce) (ce_length (mem s) ce) with
            | None => None
            | Some (bytes, d) =>
                let s := set_mem (store (mem s) dest bytes) (set_drv d s) in
                let '(valid, d) := cmos_checksum_valid (drv s) LB_CKS_RANGE_START LB_CKS_RANGE_END LB_CKS_LOC in
                Some (if valid then CB_SUCCESS else CB_CMOS_CHECKSUM_INVALID, set_drv d s)
            end
        end
    end.

Definition access_error (ret : cb_err) : bool := match ret with CB_SUCCESS => false | _ => true end.

(** [value]: the address of the value. *)
Definition set_option (fuel : nat) (s : state) (fh : cbfsf) (name : list Z) (value : Z)
    : option (cb_err * state) :=
  if negb CONFIG_USE_OPTION_TABLE then Some (CB_CMOS_OTABLE_DISABLED, s)
  else
    match map_layout fuel s fh with
    | None => None
    | Some (None, s) => Some (CB_CMOS_LAYOUT_NOT_FOUND, s)
    | Some (Some ct, s) =>
        match find_entry fuel (mem s) (u32 (ct + ct_header_length (mem s) ct)) name with
        | None => None
        | Some None => Some (CB_CMOS_OPTION_NOT_FOUND, s)
        | Some (Some ce) =>
            let bit := ce_bit (mem s) ce in
            let length := ce_length (mem s) ce in
            let put s length :=
              let '(ret, d) := set_cmos_value (drv s) bit length (fun i => mem s (u32 (value + i))) in
              Some (if access_error ret then CB_CMOS_ACCESS_ERROR else CB_SUCCESS, set_drv d s) in
            if ce_config (mem s) ce =? 115 then
              match strlen fuel (mem s) value with
              | None => None
              | Some n =>
                  let length' := Z.max (u32 (n * 8)) (u32 (length - 8)) in
                  let '(ret, d) := set_cmos_value (drv s) (u32 (bit + length - 8)) 8 (fun _ => 0) in
                  if access_error ret then Some (CB_CMOS_ACCESS_ERROR, set_drv d s)
                  else put (set_drv d s) length'
              end
            else put s length
        end
    end.
End Cmos.
