(* ===== verification/CmosCorrect.v ===== *)
(** * CMOS memory: what the operations of [Cmos] promise

    [CmosHardware] states how the two index and data ports behave.  Against it every
    operation is an operation on the cells alone ([holds]): reading and writing a cell,
    checksums, the clock, options, the boot byte and the codes of the boot progress.
    [ram_hardware] is the part as plain memory, used by the witnesses. *)

From S2P Require Import Prelude Region Bytes Mapped Cbfs CbfsLoad Rtc Cmos.

(** ** The hardware

    [cells s a] is what cell [a] holds, [sel s b] the cell the index port of the bank [b]
    points to, [keeps a] that a cell only changes when it is written: not the clock, which
    ticks, nor the interrupt flags, which a read clears. *)
Class CmosHardware {S : Type} (inb : S -> Z -> Z * S) (outb : S -> Z -> Z -> S) (wf : S -> Prop)
    (cells sel : S -> Z -> Z) (keeps : Z -> Prop) : Prop := {
  hw_byte s a : wf s -> is_byte (cells s a);
  hw_range a : keeps a -> 0 <= a < 256;
  hw_control : keeps RTC_CONTROL;
  hw_select s b i : wf s -> 0 <= i < 256 -> b = 0 \/ b = 1 /\ i < 128 ->
    let s' := outb s i (RTC_BASE_PORT + 2 * b) in
    wf s' /\ sel s' b = i mod 128 /\ (forall a, keeps a -> cells s' a = cells s a);
  hw_index s : wf s ->
    let '(v, s') := inb s RTC_BASE_PORT in
    is_byte v /\ wf s' /\ (forall a, keeps a -> cells s' a = cells s a);
  hw_load s b : wf s -> b = 0 \/ b = 1 ->
    let '(v, s') := inb s (RTC_BASE_PORT + 2 * b + 1) in
    v = cells s (128 * b + sel s b) /\ wf s' /\ sel s' b = sel s b /\
    (forall a, keeps a -> cells s' a = cells s a);
  hw_store s b v : wf s -> b = 0 \/ b = 1 -> is_byte v ->
    let s' := outb s v (RTC_BASE_PORT + 2 * b + 1) in
    wf s' /\ forall a, keeps a -> cells s' a = if a =? 128 * b + sel s b then v else cells s a }.

(** One cell set to a value. *)
Definition set_cell (c : Z -> Z) (a v : Z) : Z -> Z := fun x => if x =? a then v else c x.

Lemma set_cell_same c a v : set_cell c a v a = v.
Proof. unfold set_cell. by rewrite Z.eqb_refl. Qed.
Lemma set_cell_other c a v x : x <> a -> set_cell c a v x = c x.
Proof. intros H. unfold set_cell. by rewrite (proj2 (Z.eqb_neq _ _)). Qed.

Lemma u8_byte x : is_byte (u8 x).
Proof. by apply wrap_range. Qed.
Lemma u8_small x : is_byte x -> u8 x = x.
Proof. apply wrap_small. Qed.

(** ** Bits of the cells *)

Definition bit_of (c : Z -> Z) (k : Z) : bool := Z.testbit (c (k / 8)) (k mod 8).
Definition bits_at (l : list Z) (j : Z) : bool := Z.testbit (nth (Z.to_nat (j / 8)) l 0) (j mod 8).

(** What [struct cmos_entries] says of a field: within one byte, or of whole bytes. *)
Definition option_ok (bit len : Z) : Prop :=
  0 <= bit /\ 0 < len /\ (len <= 8 /\ bit mod 8 + len <= 8 \/ 8 < len /\ bit mod 8 = 0 /\ len mod 8 = 0).

(** The bytes of a value of [len] bits. *)
Definition value_fits (len : Z) (l : list Z) : Prop :=
  Z.of_nat (length l) = (len + 7) / 8 /\ Forall is_byte l /\ (len <= 8 -> nth 0 l 0 < 2 ^ len).

(** The value of a field, as [get_cmos_value] finds it. *)
Definition entry_value (c : Z -> Z) (bit len : Z) : list Z :=
  if len <? 9 then [Z.land (Z.shiftr (c (bit / 8)) (bit mod 8)) (Z.shiftl 1 len - 1)]
  else slice c (bit / 8) (len / 8).

(** The cells with a value put into a field, as [set_cmos_value] leaves them. *)
Definition put_value (c : Z -> Z) (bit len : Z) (value : Z -> Z) : Z -> Z :=
  if len <=? 8 then
    let mask := u8 (Z.shiftl (u8 (Z.shiftl 1 len - 1)) (bit mod 8)) in
    set_cell c (bit / 8) (u8 (Z.lor (Z.land (c (bit / 8)) (bnot 8 mask)) (Z.shiftl (value 0) (bit mod 8))))
  else fun x => if (bit / 8 <=? x) && (x <? bit / 8 + len / 8) then u8 (value (x - bit / 8)) else c x.

Lemma testbit_u8 x j : 0 <= j -> Z.testbit (u8 x) j = (j <? 8) && Z.testbit x j.
Proof.
  intros Hj. unfold u8, wrap. destruct (Z.ltb_spec j 8).
  - by rewrite Z.mod_pow2_bits_low.
  - by rewrite Z.mod_pow2_bits_high.
Qed.

Lemma byte_high x j : is_byte x -> 8 <= j -> Z.testbit x j = false.
Proof. intros Hx Hj. rewrite <- (u8_small x Hx), testbit_u8 by lia. by rewrite (proj2 (Z.ltb_ge j 8)). Qed.

Lemma testbit_ones_shift len j : 0 <= len -> 0 <= j -> Z.testbit (Z.shiftl 1 len - 1) j = (j <? len).
Proof.
  intros Hl Hj. rewrite Z.shiftl_1_l. replace (2 ^ len - 1) with (Z.ones len) by (rewrite Z.ones_equiv; lia).
  destruct (Z.ltb_spec j len); [by apply Z.ones_spec_low|by apply Z.ones_spec_high].
Qed.

Lemma testbit_small x n j : 0 <= x < 2 ^ n -> 0 <= n <= j -> Z.testbit x j = false.
Proof.
  intros Hx Hn. rewrite <- (Z.mod_small x (2 ^ n)) by done. by apply Z.mod_pow2_bits_high.
Qed.

(** A field within a byte. *)
Lemma put_byte_bits x bb len v j : 0 <= bb -> bb + len <= 8 -> 0 <= len -> 0 <= v < 2 ^ len -> 0 <= j < 8 ->
  Z.testbit (u8 (Z.lor (Z.land x (bnot 8 (u8 (Z.shiftl (u8 (Z.shiftl 1 len - 1)) bb)))) (Z.shiftl v bb))) j =
  if (bb <=? j) && (j <? bb + len) then Z.testbit v (j - bb) else Z.testbit x j.
Proof.
  intros Hb Hs Hl Hv Hj. rewrite testbit_u8, Z.lor_spec, Z.land_spec, Z.shiftl_spec by lia. unfold bnot.
  change (wrap 8 ?z) with (u8 z). rewrite testbit_u8, Z.lnot_spec, testbit_u8, Z.shiftl_spec by lia.
  rewrite (proj2 (Z.ltb_lt j 8)) by lia. cbn [andb]. destruct (Z.leb_spec bb j) as [Ho|Ho]; cbn [andb].
  - rewrite testbit_u8, testbit_ones_shift, (proj2 (Z.ltb_lt (j - bb) 8)) by lia. cbn [andb].
    destruct (Z.ltb_spec j (bb + len)).
    + rewrite (proj2 (Z.ltb_lt (j - bb) len)) by lia. cbn [negb]. by rewrite andb_false_r, orb_false_l.
    + rewrite (proj2 (Z.ltb_ge (j - bb) len)) by lia. cbn [negb].
      by rewrite andb_true_r, (testbit_small v len), orb_false_r by lia.
  - rewrite !(Z.testbit_neg_r _ (j - bb)) by lia. cbn [negb]. by rewrite andb_true_r, orb_false_r.
Qed.

Lemma put_value_bits c bit len value k :
  option_ok bit len -> (len <= 8 -> 0 <= value 0 < 2 ^ len) -> 0 <= k ->
  bit_of (put_value c bit len value) k =
    if (bit <=? k) && (k <? bit + len) then Z.testbit (value ((k - bit) / 8)) ((k - bit) mod 8) else bit_of c k.
Proof.
  intros (Hb & Hl & Hs) Hv Hk. unfold put_value, bit_of.
  pose proof (Z.mod_pos_bound k 8 ltac:(lia)) as M. pose proof (Z.mod_pos_bound bit 8 ltac:(lia)) as B.
  destruct (Z.leb_spec len 8) as [Hle|Hle].
  - destruct Hs as [[_ Hs]|Hs]; [|lia]. unfold set_cell. destruct (Z.eqb_spec (k / 8) (bit / 8)) as [E|E].
    + rewrite E, put_byte_bits by (auto || lia).
      assert (R : (bit mod 8 <=? k mod 8) && (k mod 8 <? bit mod 8 + len) = (bit <=? k) && (k <? bit + len)).
      { apply Bool.eq_iff_eq_true. rewrite !andb_true_iff, !Z.leb_le, !Z.ltb_lt.
        Z.to_euclidean_division_equations. lia. }
      rewrite R. destruct ((bit <=? k) && (k <? bit + len)) eqn:I; [|done]. apply andb_prop in I as [I1 I2]. bool_to_prop.
      replace ((k - bit) / 8) with 0 by (Z.to_euclidean_division_equations; lia).
      f_equal. Z.to_euclidean_division_equations. lia.
    + destruct ((bit <=? k) && (k <? bit + len)) eqn:R; [|done]. apply andb_prop in R as [R1 R2]. bool_to_prop.
      exfalso. apply E. Z.to_euclidean_division_equations. lia.
  - destruct Hs as [Hs|(_ & H8 & L8)]; [lia|].
    assert (E : (bit / 8 <=? k / 8) && (k / 8 <? bit / 8 + len / 8) = (bit <=? k) && (k <? bit + len)).
    { apply Bool.eq_iff_eq_true. rewrite !andb_true_iff, !Z.leb_le, !Z.ltb_lt.
      Z.to_euclidean_division_equations. lia. }
    cbv beta. rewrite E. destruct ((bit <=? k) && (k <? bit + len)) eqn:R; [|done]. apply andb_prop in R as [R1 R2]. bool_to_prop.
    rewrite testbit_u8, (proj2 (Z.ltb_lt _ 8)) by lia. cbn [andb].
    f_equal; [f_equal|]; Z.to_euclidean_division_equations; lia.
Qed.

Lemma entry_value_bits c bit len j :
  option_ok bit len -> 0 <= j < len -> bits_at (entry_value c bit len) j = bit_of c (bit + j).
Proof.
  intros (Hb & Hl & Hs) Hj. unfold entry_value, bits_at, bit_of.
  destruct (Z.ltb_spec len 9) as [Hle|Hle].
  - replace (j / 8) with 0 by (Z.to_euclidean_division_equations; lia). change (Z.to_nat 0) with O. cbn [nth].
    rewrite (Z.mod_small j) by lia. rewrite Z.land_spec, Z.shiftr_spec, testbit_ones_shift by lia.
    rewrite (proj2 (Z.ltb_lt j len)), andb_true_r by lia. destruct Hs as [[_ Hs]|Hs]; [|lia].
    f_equal; [f_equal|]; Z.to_euclidean_division_equations; lia.
  - destruct Hs as [Hs|(_ & H8 & L8)]; [lia|]. pose proof (Z.div_pos j 8 ltac:(lia) ltac:(lia)).
    rewrite slice_nth by (Z.to_euclidean_division_equations; lia). rewrite Z2Nat.id by lia.
    f_equal; [f_equal|]; Z.to_euclidean_division_equations; lia.
Qed.

Lemma entry_value_fits c bit len :
  option_ok bit len -> (forall a, bit / 8 <= a -> 8 * a < bit + len -> is_byte (c a)) ->
  value_fits len (entry_value c bit len).
Proof.
  intros (Hb & Hl & Hs) Hc. unfold entry_value, value_fits. destruct (Z.ltb_spec len 9) as [Hle|Hle].
  - assert (E : Z.shiftl 1 len - 1 = Z.ones len) by (rewrite Z.shiftl_1_l, Z.ones_equiv; lia).
    rewrite E, Z.land_ones by lia.
    pose proof (Z.mod_pos_bound (Z.shiftr (c (bit / 8)) (bit mod 8)) (2 ^ len) ltac:(lia)) as M.
    pose proof (Z.pow_le_mono_r 2 len 8 ltac:(lia) ltac:(lia)). split; [|split].
    + cbn [length]. Z.to_euclidean_division_equations. lia.
    + repeat constructor; unfold is_byte; lia.
    + intros _. cbn [nth]. lia.
  - split; [|split].
    + rewrite slice_length. Z.to_euclidean_division_equations. lia.
    + unfold slice. apply List.Forall_map, List.Forall_forall. intros x Hx%in_seq. apply Hc;
        Z.to_euclidean_division_equations; lia.
    + lia.
Qed.

(** The bits determine the value. *)
Lemma value_ext len l l' : 0 < len -> len <= 8 \/ len mod 8 = 0 -> value_fits len l -> value_fits len l' ->
  (forall j, 0 <= j < len -> bits_at l j = bits_at l' j) -> l = l'.
Proof.
  intros Hl Hm (L & B & V) (L' & B' & V') Hj. apply (nth_ext _ _ 0 0); [lia|]. intros n Hn.
  pose proof (byte_at_byte l n B) as X. pose proof (byte_at_byte l' n B') as X'. unfold byte_at in *.
  apply Z.bits_inj'. intros i Hi. destruct (Z.lt_ge_cases i 8) as [H8|H8].
  - destruct (Z.lt_ge_cases (8 * Z.of_nat n + i) len) as [Hlt|Hge].
    + specialize (Hj (8 * Z.of_nat n + i) ltac:(lia)). unfold bits_at in Hj.
      replace ((8 * Z.of_nat n + i) / 8) with (Z.of_nat n) in Hj by (Z.to_euclidean_division_equations; lia).
      replace ((8 * Z.of_nat n + i) mod 8) with i in Hj by (Z.to_euclidean_division_equations; lia).
      by rewrite Nat2Z.id in Hj.
    + assert (n = 0%nat /\ len <= 8) as [-> Hle] by (Z.to_euclidean_division_equations; lia).
      unfold is_byte in *. rewrite !(testbit_small _ len) by (lia || (specialize (V Hle); specialize (V' Hle); lia)). done.
  - by rewrite !byte_high.
Qed.

Lemma option_ok_mod bit len : option_ok bit len -> len <= 8 \/ len mod 8 = 0.
Proof. intros (_ & _ & [[? _]|(_ & _ & ?)]); auto. Qed.

(** Fields read alike when their bits are alike. *)
Lemma entry_value_ext c c' bit len : option_ok bit len ->
  (forall a, bit / 8 <= a -> 8 * a < bit + len -> is_byte (c a) /\ is_byte (c' a)) ->
  (forall k, bit <= k < bit + len -> bit_of c k = bit_of c' k) -> entry_value c bit len = entry_value c' bit len.
Proof.
  intros Ho Hb Hk. apply (value_ext len).
  - by destruct Ho as (_ & ? & _).
  - by apply (option_ok_mod bit).
  - apply entry_value_fits; [done|]. intros a H1 H2. by apply Hb.
  - apply entry_value_fits; [done|]. intros a H1 H2. by apply Hb.
  - intros j Hj. rewrite !entry_value_bits by done. apply Hk. lia.
Qed.

(** ** Sums of cells *)

Fixpoint cells_sum (n : nat) (c : Z -> Z) (i : Z) : Z :=
  match n with O => 0 | S n => c i + cells_sum n c (i + 1) end.
Definition checksum (c : Z -> Z) (st en : Z) : Z := u16 (cells_sum (Z.to_nat (en - st + 1)) c st).
Definition checksum_ok (c : Z -> Z) (st en loc : Z) : Prop :=
  checksum c st en = Z.lor (Z.shiftl (c loc) 8) (c (loc + 1)).
#[export] Instance checksum_ok_dec c st en loc : Decision (checksum_ok c st en loc).
Proof. unfold checksum_ok. apply _. Defined.
Definition put_checksum (c : Z -> Z) (st en loc : Z) : Z -> Z :=
  set_cell (set_cell c loc (Z.shiftr (checksum c st en) 8)) (loc + 1) (checksum c st en mod 2 ^ 8).

Lemma cells_sum_ext n : forall c c' i, (forall a, i <= a < i + Z.of_nat n -> c a = c' a) ->
  cells_sum n c i = cells_sum n c' i.
Proof.
  induction n as [|n IH]; intros c c' i Hc; [done|]. cbn [cells_sum].
  rewrite (Hc i) by lia. f_equal. apply IH. intros a Ha. apply Hc. lia.
Qed.

Section Hardware.
Context {S : Type} {inb : S -> Z -> Z * S} {outb : S -> Z -> Z -> S} {wf : S -> Prop}.
Context {cells sel : S -> Z -> Z} {keeps : Z -> Prop}.
Context `{H : !CmosHardware inb outb wf cells sel keeps}.
Set Default Proof Using "Type".

Notation cmos_read := (cmos_read inb outb).
Notation cmos_write_inner := (cmos_write_inner outb).
Notation cmos_write := (cmos_write inb outb).

(** The part is in order and its cells that keep their values hold those of [c]. *)
Definition holds (s : S) (c : Z -> Z) : Prop := wf s /\ forall a, keeps a -> cells s a = c a.

Lemma holds_self s : wf s -> holds s (cells s).
Proof. by split. Qed.

Lemma holds_ext s c c' : holds s c -> (forall a, keeps a -> c a = c' a) -> holds s c'.
Proof. intros [Hw Hc] He. split; [done|]. intros a Ha. by rewrite Hc, He. Qed.

Lemma holds_byte s c a : holds s c -> keeps a -> is_byte (c a).
Proof using H. intros [Hw Hc] Ha. rewrite <- Hc by done. by apply hw_byte. Qed.

(** The bank of a cell and its index there, as the code finds them. *)
Lemma cell_bank a : 0 <= a < 256 ->
  exists b i, (b = 0 \/ b = 1) /\ 0 <= i < 128 /\ a = 128 * b + i /\
    (if 128 <=? u8 a then 2 else 0) = 2 * b /\ (if 128 <=? u8 a then u8 a - 128 else u8 a) = i.
Proof.
  intros Ha. rewrite u8_small by done. destruct (Z.leb_spec 128 a).
  - exists 1, (a - 128). lia.
  - exists 0, a. lia.
Qed.

(** A read of any cell gives a byte and keeps the others; of a cell that keeps its value,
    the value. *)
Lemma cmos_read_any s c a : holds s c -> 0 <= a < 256 ->
  exists v s', cmos_read s a = (v, s') /\ is_byte v /\ holds s' c /\ (keeps a -> v = c a).
Proof using H.
  intros [Hw Hc] Ha. destruct (cell_bank a Ha) as (b & i & Hb & Hi & -> & Eo & Ei).
  unfold Cmos.cmos_read. rewrite Eo, Ei.
  destruct (hw_select s b i Hw ltac:(lia) ltac:(lia)) as (W1 & E1 & K1).
  pose proof (hw_load (outb s i (RTC_BASE_PORT + 2 * b)) b W1 Hb) as L.
  destruct (inb _ _) as [v s']. destruct L as (-> & W2 & _ & K2). eexists _, s'. split; [done|].
  rewrite E1, Z.mod_small by lia. split; [by apply hw_byte|]. split.
  - split; [done|]. intros x Hx. by rewrite K2, K1, Hc.
  - intros Hk. by rewrite K1, Hc.
Qed.

Lemma cmos_read_spec s c a : holds s c -> keeps a -> exists s', cmos_read s a = (c a, s') /\ holds s' c.
Proof using H.
  intros Hh Ha. destruct (cmos_read_any s c a Hh (hw_range a Ha)) as (v & s' & -> & _ & Hs & Hv).
  exists s'. by rewrite Hv.
Qed.

Lemma write_inner_spec s c v a : holds s c -> 0 <= a < 256 ->
  holds (cmos_write_inner s v a) (set_cell c a (u8 v)).
Proof using H.
  intros [Hw Hc] Ha. destruct (cell_bank a Ha) as (b & i & Hb & Hi & -> & Eo & Ei).
  unfold Cmos.cmos_write_inner. rewrite Eo, Ei.
  destruct (hw_select s b i Hw ltac:(lia) ltac:(lia)) as (W1 & E1 & K1).
  destruct (hw_store (outb s i (RTC_BASE_PORT + 2 * b)) b (u8 v) W1 Hb (u8_byte v)) as (W2 & K2).
  split; [done|]. intros x Hx. rewrite K2, E1, Z.mod_small by (done || lia). unfold set_cell.
  destruct (x =? _); [done|]. by rewrite K1, Hc.
Qed.

(** A write leaves the control register as it was: it only stops the clock in between. *)
Lemma cmos_write_spec s c v a : holds s c -> 0 <= a < 256 -> holds (cmos_write s v a) (set_cell c a (u8 v)).
Proof using H.
  intros Hs Ha. unfold Cmos.cmos_write.
  destruct (cmos_read_spec s c RTC_CONTROL Hs hw_control) as (s1 & -> & H1).
  rewrite (u8_small a) by done.
  destruct (negb (a =? RTC_CONTROL) && _) eqn:E; [|by apply write_inner_spec].
  apply andb_prop in E as [E _]. bool_to_prop.
  pose proof (write_inner_spec s1 c (Z.lor (c RTC_CONTROL) RTC_SET) RTC_CONTROL H1 ltac:(done)) as H2.
  pose proof (write_inner_spec _ _ v a H2 Ha) as H3.
  pose proof (write_inner_spec _ _ (c RTC_CONTROL) RTC_CONTROL H3 ltac:(done)) as H4.
  apply (holds_ext _ _ _ H4). intros x Hx. unfold set_cell.
  destruct (Z.eqb_spec x RTC_CONTROL) as [-> | Hn].
  - rewrite (proj2 (Z.eqb_neq _ _)) by done. apply u8_small. apply (holds_byte s c RTC_CONTROL Hs hw_control).
  - done.
Qed.
(** ** Checksums *)

Lemma sum_loop_spec n : forall s c i acc, holds s c ->
  (forall a, i <= a < i + Z.of_nat n -> keeps a) -> 0 <= acc < 2 ^ 16 ->
  exists s', sum_loop inb outb n s i acc = (u16 (acc + cells_sum n c i), s') /\ holds s' c.
Proof using H.
  induction n as [|n IH]; intros s c i acc Hs Hk Ha.
  - exists s. cbn [sum_loop cells_sum]. rewrite Z.add_0_r. unfold u16. by rewrite wrap_small.
  - cbn [sum_loop cells_sum]. destruct (cmos_read_spec s c i Hs ltac:(apply Hk; lia)) as (s1 & -> & H1).
    destruct (IH s1 c (i + 1) (u16 (acc + c i)) H1) as (s2 & -> & H2).
    + intros a Hr. apply Hk. lia.
    + apply wrap_range. lia.
    + exists s2. split; [|done]. f_equal. unfold u16, wrap. rewrite Zplus_mod_idemp_l. f_equal. lia.
Qed.

(** The cells of a checksum and the two that hold it. *)
Record checksum_area (st en loc : Z) : Prop := mk_area
  { area_cells : forall a, st <= a <= en -> keeps a;
    area_high : keeps loc; area_low : keeps (loc + 1); area_apart : ~ (st <= loc <= en) /\ ~ (st <= loc + 1 <= en) }.

Lemma checksum_sum st en loc s c : checksum_area st en loc -> holds s c ->
  exists s', sum_loop inb outb (Z.to_nat (en - st + 1)) s st 0 = (checksum c st en, s') /\ holds s' c.
Proof using H.
  intros Ha Hs. destruct (sum_loop_spec (Z.to_nat (en - st + 1)) s c st 0 Hs) as (s' & E & H').
  - intros a Hr. apply (area_cells _ _ _ Ha). lia.
  - lia.
  - exists s'. by rewrite E.
Qed.

Lemma checksum_valid_spec st en loc s c : checksum_area st en loc -> holds s c ->
  exists s', cmos_checksum_valid inb outb false s st en loc = (bool_decide (checksum_ok c st en loc), s') /\ holds s' c.
Proof using H.
  intros Ha Hs. unfold cmos_checksum_valid. destruct (checksum_sum st en loc s c Ha Hs) as (s1 & -> & H1).
  destruct (cmos_read_spec s1 c loc H1 (area_high _ _ _ Ha)) as (s2 & -> & H2).
  destruct (cmos_read_spec s2 c (loc + 1) H2 (area_low _ _ _ Ha)) as (s3 & -> & H3).
  exists s3. split; [|done]. f_equal. apply Bool.eq_iff_eq_true. rewrite Z.eqb_eq, bool_decide_eq_true. unfold checksum_ok.
  pose proof (holds_byte s c loc Hs (area_high _ _ _ Ha)) as B1.
  pose proof (holds_byte s c (loc + 1) Hs (area_low _ _ _ Ha)) as B2. unfold is_byte in *.
  rewrite (lor_shiftl_add (c loc) (c (loc + 1)) 8) by lia. change 0xffff with (2 ^ 16 - 1).
  by rewrite land_low_mask, Z.mod_small by lia.
Qed.

Lemma set_checksum_spec st en loc s c : checksum_area st en loc -> holds s c ->
  holds (cmos_set_checksum inb outb s st en loc) (put_checksum c st en loc).
Proof using H.
  intros Ha Hs. unfold cmos_set_checksum. destruct (checksum_sum st en loc s c Ha Hs) as (s1 & -> & H1).
  pose proof (hw_range _ (area_high _ _ _ Ha)) as L1. pose proof (hw_range _ (area_low _ _ _ Ha)) as L2.
  pose proof (cmos_write_spec s1 c (Z.land (Z.shiftr (checksum c st en) 8) 0xff) loc H1 ltac:(done)) as H2.
  pose proof (cmos_write_spec _ _ (Z.land (Z.shiftr (checksum c st en) 0) 0xff) (loc + 1) H2 ltac:(done)) as H3.
  apply (holds_ext _ _ _ H3). intros x _. unfold put_checksum, set_cell.
  pose proof (wrap_range 16 (cells_sum (Z.to_nat (en - st + 1)) c st) ltac:(lia)) as W.
  change (wrap 16 _) with (checksum c st en) in W.
  change 0xff with (2 ^ 8 - 1). rewrite !land_low_mask, Z.shiftr_0_r by lia.
  unfold u8, wrap. rewrite !Z.mod_mod by lia. rewrite Z.shiftr_div_pow2 by lia.
  by rewrite (Z.mod_small (_ / 2 ^ 8)) by (Z.to_euclidean_division_equations; lia).
Qed.

(** Only kept cells count. *)
Lemma checksum_ok_ext st en loc c c' : checksum_area st en loc -> (forall a, keeps a -> c a = c' a) ->
  checksum_ok c' st en loc -> checksum_ok c st en loc.
Proof.
  intros Ha Hc. unfold checksum_ok, checksum. rewrite (cells_sum_ext _ c c').
  - by rewrite (Hc _ (area_high _ _ _ Ha)), (Hc _ (area_low _ _ _ Ha)).
  - intros a Hr. apply Hc, (area_cells _ _ _ Ha). lia.
Qed.

(** A checksum just written is valid. *)
Lemma put_checksum_ok st en loc c : checksum_area st en loc -> checksum_ok (put_checksum c st en loc) st en loc.
Proof.
  intros Ha. destruct (area_apart _ _ _ Ha) as [A1 A2]. unfold checksum_ok.
  assert (E : checksum (put_checksum c st en loc) st en = checksum c st en).
  { unfold checksum. f_equal. apply cells_sum_ext. intros a Hr. unfold put_checksum. rewrite !set_cell_other by lia. done. }
  rewrite E. unfold put_checksum. rewrite set_cell_same, (set_cell_other _ (loc + 1)), set_cell_same by lia.
  pose proof (wrap_range 16 (cells_sum (Z.to_nat (en - st + 1)) c st) ltac:(lia)) as W.
  change (wrap 16 _) with (checksum c st en) in W. rewrite Z.shiftr_div_pow2 by lia.
  rewrite (lor_shiftl_add _ _ 8) by (Z.to_euclidean_division_equations; lia).
  pose proof (Z.div_mod (checksum c st en) (2 ^ 8) ltac:(lia)). lia.
Qed.
(** ** Fields *)

(** Every cell of a field keeps its value. *)
Definition field_kept (bit len : Z) : Prop := forall a, bit / 8 <= a -> 8 * a < bit + len -> keeps a.

Lemma read_bytes_spec n : forall s c byte, holds s c ->
  (forall a, byte <= a < byte + Z.of_nat n -> keeps a) ->
  exists s', read_bytes inb outb n s byte = (slice c byte (Z.of_nat n), s') /\ holds s' c.
Proof using H.
  induction n as [|n IH]; intros s c byte Hs Hk.
  - by exists s.
  - cbn [read_bytes]. destruct (cmos_read_spec s c byte Hs ltac:(apply Hk; lia)) as (s1 & -> & H1).
    destruct (IH s1 c (byte + 1) H1) as (s2 & -> & H2); [intros a Hr; apply Hk; lia|].
    exists s2. split; [|done]. f_equal.
    replace (Z.of_nat (Datatypes.S n)) with (1 + Z.of_nat n) by lia. rewrite slice_app by lia.
    change (slice c byte 1) with [c (byte + 0)]. by rewrite Z.add_0_r.
Qed.

Lemma get_cmos_value_spec s c bit len : holds s c -> option_ok bit len -> field_kept bit len ->
  exists s', get_cmos_value inb outb s bit len = Some (entry_value c bit len, s') /\ holds s' c.
Proof using H.
  intros Hs (Hb & Hl & Ho) Hk. unfold get_cmos_value, entry_value.
  destruct (Z.ltb_spec len 9) as [Hle|Hle].
  - destruct (cmos_read_spec s c (bit / 8) Hs) as (s1 & -> & H1); [|by exists s1].
    apply Hk; Z.to_euclidean_division_equations; lia.
  - destruct Ho as [Ho|(_ & H8 & L8)]; [lia|]. rewrite L8. change (negb (0 =? 0)) with false. cbv iota.
    destruct (read_bytes_spec (Z.to_nat (len / 8)) s c (bit / 8) Hs) as (s1 & -> & H1).
    + intros a Ha. apply Hk; Z.to_euclidean_division_equations; lia.
    + exists s1. split; [|done]. rewrite Z2Nat.id by (Z.to_euclidean_division_equations; lia). done.
Qed.

Lemma write_bytes_spec l : forall s c byte, holds s c -> 0 <= byte -> byte + Z.of_nat (length l) <= 256 ->
  holds (write_bytes inb outb s byte l)
    (fun x => if (byte <=? x) && (x <? byte + Z.of_nat (length l)) then u8 (nth (Z.to_nat (x - byte)) l 0) else c x).
Proof using H.
  induction l as [|v l IH]; intros s c byte Hs Hb Hl.
  - apply (holds_ext _ _ _ Hs). intros a _. destruct (_ && _) eqn:E; [|done].
    apply andb_prop in E as [E1 E2]. cbn in E2. bool_to_prop. lia.
  - cbn [write_bytes]. cbn [length] in Hl.
    pose proof (cmos_write_spec s c v byte Hs ltac:(lia)) as H1.
    pose proof (IH _ _ (byte + 1) H1 ltac:(lia) ltac:(lia)) as H2.
    apply (holds_ext _ _ _ H2). intros a _. unfold set_cell. cbn [length].
    destruct (Z.lt_trichotomy a byte) as [L|[-> |L]].
    + rewrite (proj2 (Z.leb_gt (byte + 1) a)), (proj2 (Z.leb_gt byte a)), (proj2 (Z.eqb_neq a byte)) by lia. done.
    + rewrite (proj2 (Z.leb_gt (byte + 1) byte)), Z.leb_refl, Z.eqb_refl by lia.
      cbn [andb]. rewrite (proj2 (Z.ltb_lt byte _)) by lia. by rewrite Z.sub_diag.
    + rewrite (proj2 (Z.leb_le (byte + 1) a)), (proj2 (Z.leb_le byte a)) by lia. cbn [andb].
      replace (byte + 1 + Z.of_nat (length l)) with (byte + Z.of_nat (Datatypes.S (length l))) by lia.
      destruct (a <? _); [|by rewrite (proj2 (Z.eqb_neq a byte)) by lia].
      by replace (Z.to_nat (a - byte)) with (Datatypes.S (Z.to_nat (a - (byte + 1)))) by lia.
Qed.

(** Whether writing a field makes the code renew the checksum. *)
Definition touched (st en bit len : Z) : bool :=
  if len <=? 8 then in_checksum st en (bit / 8)
  else existsb (fun i => in_checksum st en (bit / 8 + Z.of_nat i)) (seq 0 (Z.to_nat (len / 8))).

Lemma set_cmos_value_spec st en loc s c bit len value : checksum_area st en loc -> holds s c ->
  option_ok bit len -> field_kept bit len ->
  exists s', set_cmos_value inb outb st en loc s bit len value = (CB_SUCCESS, s') /\
    let c1 := put_value c bit len value in
    holds s' (if touched st en bit len then put_checksum c1 st en loc else c1).
Proof using H.
  intros Ha Hs (Hb & Hl & Ho) Hk. unfold set_cmos_value, touched, put_value.
  destruct (Z.leb_spec len 8) as [Hle|Hle].
  - assert (Kb : keeps (bit / 8)) by (apply Hk; Z.to_euclidean_division_equations; lia).
    destruct (cmos_read_spec s c (bit / 8) Hs Kb) as (s1 & -> & H1).
    eexists. split; [reflexivity|]. cbv zeta.
    set (v := u8 (Z.lor _ _)). pose proof (cmos_write_spec s1 c v (bit / 8) H1 (hw_range _ Kb)) as H2.
    assert (E : u8 v = v) by (apply u8_small, u8_byte). rewrite E in H2.
    destruct (in_checksum st en (bit / 8)); [by apply set_checksum_spec|done].
  - destruct Ho as [Ho|(_ & H8 & L8)]; [lia|]. rewrite H8, L8. change (negb (0 =? 0) || negb (0 =? 0)) with false.
    cbv iota. eexists. split; [reflexivity|]. cbv zeta.
    set (l := map _ (seq 0 _)).
    assert (Ll : Z.of_nat (length l) = len / 8).
    { unfold l. rewrite length_map, length_seq. apply Z2Nat.id. Z.to_euclidean_division_equations. lia. }
    assert (Kl : keeps (bit / 8 + len / 8 - 1)) by (apply Hk; Z.to_euclidean_division_equations; lia).
    pose proof (hw_range _ Kl) as Rl.
    pose proof (write_bytes_spec l s c (bit / 8) Hs ltac:(Z.to_euclidean_division_equations; lia) ltac:(lia)) as H1.
    assert (H2 : holds (write_bytes inb outb s (bit / 8) l) (fun x =>
      if (bit / 8 <=? x) && (x <? bit / 8 + len / 8) then u8 (value (x - bit / 8)) else c x)).
    { apply (holds_ext _ _ _ H1). intros a _. rewrite Ll. destruct (_ && _) eqn:E; [|done].
      apply andb_prop in E as [E1 E2]. bool_to_prop. f_equal. unfold l.
      rewrite (nth_indep _ 0 (value (Z.of_nat 0))) by (fold l; lia).
      rewrite (map_nth (fun i => value (Z.of_nat i))), seq_nth by lia. f_equal. lia. }
    destruct (existsb _ _); [by apply set_checksum_spec|done].
Qed.
End Hardware.

(** ** Plain memory behind the ports *)

Record ram := mk_ram { ram_cells : list Z; ram_low : Z; ram_high : Z }.

Definition ram_cell (r : ram) (a : Z) : Z := if 0 <=? a then nth (Z.to_nat a) (ram_cells r) 0 else 0.
Definition ram_sel (r : ram) (b : Z) : Z := if b =? 0 then ram_low r else ram_high r.
Definition ram_store (r : ram) (a v : Z) : ram :=
  mk_ram (<[Z.to_nat a := v]> (ram_cells r)) (ram_low r) (ram_high r).

Definition ram_inb (r : ram) (port : Z) : Z * ram :=
  (if port =? 0x70 then ram_low r else if port =? 0x71 then ram_cell r (ram_low r)
   else if port =? 0x73 then ram_cell r (128 + ram_high r) else 0xff, r).
Definition ram_outb (r : ram) (v port : Z) : ram :=
  if port =? 0x70 then mk_ram (ram_cells r) (v mod 128) (ram_high r)
  else if port =? 0x72 then mk_ram (ram_cells r) (ram_low r) (v mod 128)
  else if port =? 0x71 then ram_store r (ram_low r) v
  else if port =? 0x73 then ram_store r (128 + ram_high r) v
  else r.

Definition ram_ok (r : ram) : Prop :=
  length (ram_cells r) = 256%nat /\ Forall is_byte (ram_cells r) /\ 0 <= ram_low r < 128 /\ 0 <= ram_high r < 128.
Definition ram_keeps (a : Z) : Prop := 0 <= a < 256.

Lemma ram_cell_byte r a : ram_ok r -> is_byte (ram_cell r a).
Proof.
  intros (_ & H & _). unfold ram_cell. destruct (0 <=? a); [by apply byte_at_byte|unfold is_byte; lia].
Qed.

Lemma ram_store_ok r a v : ram_ok r -> 0 <= a < 256 -> is_byte v ->
  ram_ok (ram_store r a v) /\ forall x, ram_keeps x -> ram_cell (ram_store r a v) x = if x =? a then v else ram_cell r x.
Proof.
  intros (L & F & L1 & L2) Ha Hv. split.
  - split; [cbn; by rewrite length_insert|]. split; [|done]. by apply Forall_insert.
  - intros x Hx. unfold ram_keeps in Hx. unfold ram_cell. rewrite (proj2 (Z.leb_le 0 x)) by lia. cbn [ram_store ram_cells].
    destruct (Z.eqb_spec x a) as [-> | Hn].
    + rewrite nth_lookup, list_lookup_insert_eq by lia. done.
    + by rewrite !nth_lookup, list_lookup_insert_ne by lia.
Qed.

#[export] Instance ram_hardware : CmosHardware ram_inb ram_outb ram_ok ram_cell ram_sel ram_keeps.
Proof.
  split.
  - apply ram_cell_byte.
  - done.
  - by unfold ram_keeps, RTC_CONTROL.
  - intros r b i (L & F & L1 & L2) Hi Hb. pose proof (Z.mod_pos_bound i 128 ltac:(lia)) as [M1 M2].
    destruct L1, L2. destruct Hb as [-> | [-> _]]; cbn -[Z.modulo]; (split; [by repeat split|by split]).
  - intros r Hr. pose proof Hr as (_ & _ & L1 & _). cbn. split; [unfold is_byte; lia|by split].
  - intros r b Hr [-> | ->]; (split; [done|split; [done|by split]]).
  - intros r b v Hr Hb Hv. pose proof Hr as (_ & _ & L1 & L2).
    destruct Hb as [-> | ->]; cbn [ram_sel]; apply ram_store_ok; auto; cbn; lia.
Qed.

(** A part whose cells are [f]. *)
Definition ram_of (f : Z -> Z) : ram := mk_ram (map (fun i => f (Z.of_nat i)) (seq 0 256)) 0 0.
