(* ===== verification/CmosOptions.v ===== *)
(** * CMOS options: reading and setting them

    [get_option] and [set_option] against a flash whose file system holds the table of the
    options ([layout] of [Cbfs]) and CMOS hardware of [CmosCorrect]: what they return on
    every branch, that an option set is read back, and that the other options stay. *)

From S2P Require Import Prelude Region Bytes Mapped Cbfs CbfsLoad Cmos CmosCorrect.

(** ** The table *)

(** The records from [ce] on, up to the first that is no option. *)
Inductive entries (m : Z -> Z) : Z -> list Z -> Prop :=
  | entries_end ce : ce_tag m ce <> LB_TAG_OPTION -> entries m ce []
  | entries_cons ce l : ce_tag m ce = LB_TAG_OPTION -> entries m (u32 (ce + ce_size m ce)) l ->
      entries m ce (ce :: l).

(** The record an option's name selects: the first whose name begins with it. *)
Definition named (m : Z -> Z) (name : list Z) (ce : Z) : bool := memcmp_equal m (ce_name ce) (name_bytes name).
Definition option_entry (m : Z -> Z) (name : list Z) (ces : list Z) : option Z := List.find (named m name) ces.

Lemma find_entry_spec m ce l name : entries m ce l -> forall fuel, (length l < fuel)%nat ->
  find_entry fuel m ce name = Some (option_entry m name l).
Proof.
  induction 1 as [ce Ht|ce l Ht _ IH]; intros [|fuel] Hf; try (cbn in Hf; lia); cbn [find_entry].
  - by rewrite (proj2 (Z.eqb_neq _ _)).
  - rewrite Ht, Z.eqb_refl. cbn [negb]. unfold option_entry. cbn [List.find]. unfold named at 1.
    destruct (memcmp_equal _ _ _); [done|]. apply IH. cbn in Hf. lia.
Qed.

(** Fields of the table cannot share bits. *)
Definition apart (bit len bit' len' : Z) : Prop := bit + len <= bit' \/ bit' + len' <= bit.

Lemma set_drv_self {D} (t : rstate (D := D)) : set_drv (drv t) t = t.
Proof. by destruct t. Qed.

(** The value at an address fills a field of [n] bits. *)
Definition value_at (m : Z -> Z) (value n : Z) : list Z := load m value ((n + 7) / 8).

Lemma value_at_nth m value n i : 0 <= i < (n + 7) / 8 -> nth (Z.to_nat i) (value_at m value n) 0 = m (u32 (value + i)).
Proof.
  intros Hi. unfold value_at, load. set (k := Z.to_nat ((n + 7) / 8)).
  rewrite (nth_indep _ 0 (m (u32 (value + Z.of_nat 0)))) by (rewrite length_map, length_seq; unfold k; lia).
  rewrite (map_nth (fun i => m (u32 (value + Z.of_nat i)))), seq_nth by (unfold k; lia).
  by rewrite Nat.add_0_l, Z2Nat.id by lia.
Qed.

(** The bits of the cells after a field was set to the value at an address. *)
Lemma set_bits m c b l value k : (forall x, is_byte (m x)) ->
  option_ok b l -> value_fits l (value_at m value l) -> 0 <= k ->
  bit_of (put_value c b l (fun i => m (u32 (value + i)))) k =
    if (b <=? k) && (k <? b + l) then bits_at (value_at m value l) (k - b) else bit_of c k.
Proof.
  intros Hbytes Ho (Lv & Bv & Vv) Hk. pose proof Ho as (Hb & Hl & _).
  assert (E : forall j, 0 <= j < l -> bits_at (value_at m value l) j = Z.testbit (m (u32 (value + j / 8))) (j mod 8)).
  { intros j Hj. unfold bits_at. rewrite value_at_nth by (Z.to_euclidean_division_equations; lia). done. }
  rewrite put_value_bits; [|done| |done].
  - destruct ((b <=? k) && (k <? b + l)) eqn:R; [|done]. apply andb_prop in R as [R1 R2]. bool_to_prop.
    rewrite E by lia. done.
  - intros Hle. specialize (Vv Hle). change 0%nat with (Z.to_nat 0) in Vv.
    rewrite value_at_nth in Vv by (Z.to_euclidean_division_equations; lia).
    pose proof (Hbytes (u32 (value + 0))) as B. unfold is_byte in B. lia.
Qed.

(** A field away from the checksum's cells reads as before the checksum was put. *)
Lemma checksum_apart c st en loc b l : option_ok b l -> apart b l (8 * loc) 16 ->
  forall k, b <= k < b + l -> bit_of (put_checksum c st en loc) k = bit_of c k.
Proof.
  intros (Hb & Hl & _) Ha k Hk. unfold bit_of, put_checksum. unfold apart in Ha.
  rewrite !set_cell_other by (Z.to_euclidean_division_equations; lia). done.
Qed.

(** A field put away from a cell leaves it. *)
Lemma put_value_off c b l value a : option_ok b l -> 8 * a + 8 <= b \/ b + l <= 8 * a -> put_value c b l value a = c a.
Proof.
  intros (Hb & Hl & Hs) Ha. unfold put_value. destruct (Z.leb_spec l 8).
  - apply set_cell_other. Z.to_euclidean_division_equations. lia.
  - destruct (_ && _) eqn:E; [|done]. apply andb_prop in E as [E1 E2]. bool_to_prop.
    Z.to_euclidean_division_equations. lia.
Qed.

Lemma put_value_untouched st en c b l value a : option_ok b l -> touched st en b l = false -> st <= a <= en ->
  put_value c b l value a = c a.
Proof.
  intros (Hb & Hl & Hs) Ht Ha. unfold touched, put_value in *. destruct (Z.leb_spec l 8).
  - apply set_cell_other. intros ->. unfold in_checksum in Ht. apply andb_false_iff in Ht as [?|?]; bool_to_prop; lia.
  - destruct (_ && _) eqn:E; [|done]. apply andb_prop in E as [E1 E2]. bool_to_prop. exfalso.
    apply not_true_iff_false in Ht. apply Ht. apply existsb_exists. exists (Z.to_nat (a - b / 8)).
    rewrite in_seq, Z2Nat.id by lia. split; [Z.to_euclidean_division_equations; lia|].
    unfold in_checksum. apply andb_true_intro. rewrite Z.leb_le, Z.leb_le. lia.
Qed.

Section Options.
Context {S : Type} {inb : S -> Z -> Z * S} {outb : S -> Z -> Z -> S} {wf : S -> Prop}.
Context {cells sel : S -> Z -> Z} {keeps : Z -> Prop}.
Context `{Hhw : !CmosHardware inb outb wf cells sel keeps}.
Context (drv_readat : S -> nat -> Z -> Z -> Z * list Z).
Context (s : rstate (D := S)) (CONFIG_ROM_SIZE : Z) (stack_word stack_header : list Z).
Context (LB_CKS_RANGE_START LB_CKS_RANGE_END LB_CKS_LOC : Z).
Hypothesis Hrom : 64 <= CONFIG_ROM_SIZE < 2 ^ 31.
Hypothesis Hbytes : forall x, is_byte (mem s x).
Hypothesis Hwf : wf (drv s).
Hypothesis Harea : checksum_area (keeps := keeps) LB_CKS_RANGE_START LB_CKS_RANGE_END LB_CKS_LOC.
(** The flash: its file system, and the offset of the table among its files. *)
Variable xs : list Z.
Hypothesis Hheader : header_valid s CONFIG_ROM_SIZE.
Hypothesis Hlayout : layout (flash s CONFIG_ROM_SIZE) (cbfs_base s CONFIG_ROM_SIZE) (cbfs_size s CONFIG_ROM_SIZE) 0 xs.
Variable fuel : nat.
Hypothesis Hfuel : cbfs_size s CONFIG_ROM_SIZE + 64 <= 64 * Z.of_nat fuel.
Set Default Proof Using "Type".

Notation m := (mem s).
Notation c := (cells (drv s)).
Notation ROM := CONFIG_ROM_SIZE.
Notation cks_ok c := (checksum_ok c LB_CKS_RANGE_START LB_CKS_RANGE_END LB_CKS_LOC).
Notation holds := (holds (wf := wf) (cells := cells) (keeps := keeps)).
Notation field_kept := (field_kept (keeps := keeps)).
Notation get_option := (get_option inb outb false true LB_CKS_RANGE_START LB_CKS_RANGE_END LB_CKS_LOC drv_readat
  ROM stack_word stack_header fuel).
Notation set_option := (set_option inb outb true LB_CKS_RANGE_START LB_CKS_RANGE_END LB_CKS_LOC drv_readat
  ROM stack_word stack_header fuel).

(** The offset of the table's file, the address of the table and of its first record. *)
Definition table_file : option Z :=
  List.find (fun x => bool_decide (string_at (flash s ROM) (cbfs_base s ROM + x + sizeof_cbfs_file) layout_name)
                      && type_matches (flash s ROM) (cbfs_base s ROM) (Some CBFS_COMPONENT_CMOS_LAYOUT) x) xs.
Definition table_at (x : Z) : Z := u32 (rom_base ROM + data_at s ROM x).
Definition first_entry (x : Z) : Z := u32 (table_at x + ct_header_length m (table_at x)).

(** What the flash holds does not depend on the CMOS. *)
Lemma flash_drv d : flash (set_drv d s) ROM = flash s ROM.
Proof. reflexivity. Qed.
Lemma header_drv d : boot_header (set_drv d s) ROM = boot_header s ROM.
Proof. unfold boot_header, header_at. by rewrite flash_drv. Qed.
Lemma base_drv d : cbfs_base (set_drv d s) ROM = cbfs_base s ROM.
Proof. unfold cbfs_base. by rewrite header_drv. Qed.
Lemma size_drv d : cbfs_size (set_drv d s) ROM = cbfs_size s ROM.
Proof. unfold cbfs_size. by rewrite base_drv, header_drv. Qed.
Lemma valid_drv d : header_valid (set_drv d s) ROM = header_valid s ROM.
Proof. unfold header_valid. rewrite base_drv, header_drv. unfold header_at. by rewrite flash_drv. Qed.
Lemma data_at_drv d x : data_at (set_drv d s) ROM x = data_at s ROM x.
Proof. unfold data_at. by rewrite base_drv, flash_drv. Qed.

(** The mapping does not look at the CMOS. *)
Lemma map_layout_spec d fh :
  map_layout drv_readat ROM stack_word stack_header fuel (set_drv d s) fh =
    Some (option_map table_at table_file, set_drv d s).
Proof using Hrom Hbytes Hheader Hlayout Hfuel.
  pose proof (boot_located drv_readat (set_drv d s) ROM stack_word stack_header Hrom Hbytes xs fuel fh layout_name
    (Some CBFS_COMPONENT_CMOS_LAYOUT)) as B. rewrite valid_drv, flash_drv, base_drv, size_drv in B.
  specialize (B Hheader Hlayout ltac:(by repeat constructor) Hfuel).
  unfold map_layout, cbfs_boot_map_with_leak. change (List.find _ xs) with table_file in B.
  destruct table_file as [x|]; [|by destruct B as (fh' & ->)]. rewrite data_at_drv in B.
  destruct B as (Hw & fh' & -> & Hd & _). change (negb (0 =? 0)) with false. cbv iota. rewrite Hd.
  set (n := data_size _ _ x) in *. set (o := data_at _ _ x) in *. pose proof Hw as (W1 & W2 & W3). cbn in W3.
  assert (Hm : MappedRoot drv_readat (set_drv d s) (boot_dev ROM) (fun x => mem (set_drv d s) (u32 (rom_base ROM + x)))).
  { apply mem_mapped; [lia|done]. }
  unfold rdev_mmap. cbn [win rdev_region rdev_root]. change (region_device_sz _) with n.
  rewrite (win_checked drv_readat (set_drv d s) (boot_dev ROM) _ o n) by (done || lia).
  rewrite Z.add_0_l, Z.leb_refl, Z.add_0_r. reflexivity.
Qed.
Notation bit ce := (ce_bit m ce).
Notation len ce := (ce_length m ce).

(** Reading, whatever the CMOS holds. *)
Lemma get_option_spec d c' fh dest name x ces : holds d c' ->
  table_file = Some x -> entries m (first_entry x) ces -> (length ces < fuel)%nat ->
  match option_entry m name ces with
  | None => get_option (set_drv d s) fh dest name = Some (CB_CMOS_OPTION_NOT_FOUND, set_drv d s)
  | Some ce => option_ok (bit ce) (len ce) -> field_kept (bit ce) (len ce) ->
      exists d', get_option (set_drv d s) fh dest name =
        Some (if bool_decide (cks_ok c') then CB_SUCCESS else CB_CMOS_CHECKSUM_INVALID,
              set_mem (store m dest (entry_value c' (bit ce) (len ce))) (set_drv d' s)) /\ holds d' c'
  end.
Proof using Hhw Hrom Hbytes Hheader Hlayout Hfuel Harea.
  intros Hd Hx He Hn. unfold Cmos.get_option. rewrite map_layout_spec, Hx. cbn [negb option_map].
  change (mem (set_drv d s)) with m. fold (first_entry x). rewrite (find_entry_spec m _ ces name He fuel Hn).
  destruct (option_entry m name ces) as [ce|]; [|done]. intros Ho Hk.
  change (drv (set_drv d s)) with d. destruct (get_cmos_value_spec d c' _ _ Hd Ho Hk) as (d1 & -> & H1).
  destruct (checksum_valid_spec _ _ _ d1 c' Harea H1) as (d2 & E & H2).
  exists d2. split; [|done]. cbn [set_mem set_drv drv mem pools]. by rewrite E.
Qed.

(** Setting an option that is no string. *)
Lemma set_option_spec fh name value x ces ce :
  table_file = Some x -> entries m (first_entry x) ces -> (length ces < fuel)%nat ->
  option_entry m name ces = Some ce -> ce_config m ce <> 115 ->
  option_ok (bit ce) (len ce) -> field_kept (bit ce) (len ce) ->
  exists d, set_option s fh name value = Some (CB_SUCCESS, set_drv d s) /\
    let c1 := put_value c (bit ce) (len ce) (fun i => m (u32 (value + i))) in
    holds d (if touched LB_CKS_RANGE_START LB_CKS_RANGE_END (bit ce) (len ce)
             then put_checksum c1 LB_CKS_RANGE_START LB_CKS_RANGE_END LB_CKS_LOC else c1).
Proof using Hhw Hrom Hbytes Hheader Hlayout Hfuel Harea Hwf.
  intros Hx He Hn Hce Hcfg Ho Hk. unfold Cmos.set_option.
  pose proof (map_layout_spec (drv s) fh) as Em. rewrite set_drv_self, Hx in Em. rewrite Em. cbn [negb option_map].
  fold (first_entry x). rewrite (find_entry_spec m _ ces name He fuel Hn), Hce. cbv zeta.
  rewrite (proj2 (Z.eqb_neq _ _) Hcfg).
  destruct (set_cmos_value_spec _ _ _ (drv s) c _ _ (fun i => m (u32 (value + i))) Harea
    (holds_self (drv s) Hwf) Ho Hk) as (d & -> & Hd).
  exists d. by split.
Qed.

Notation touched ce := (touched LB_CKS_RANGE_START LB_CKS_RANGE_END (bit ce) (len ce)).
Notation put_sum c := (put_checksum c LB_CKS_RANGE_START LB_CKS_RANGE_END LB_CKS_LOC).
Notation off_checksum b l := (apart b l (8 * LB_CKS_LOC) 16).

(** The cells after [set_option]. *)
Definition cells_after (ce value : Z) : Z -> Z :=
  let c1 := put_value c (bit ce) (len ce) (fun i => m (u32 (value + i))) in
  if touched ce then put_sum c1 else c1.

Lemma cells_after_bits ce value b l k : option_ok (bit ce) (len ce) ->
  value_fits (len ce) (value_at m value (len ce)) -> option_ok b l -> off_checksum b l -> b <= k < b + l ->
  bit_of (cells_after ce value) k =
    if (bit ce <=? k) && (k <? bit ce + len ce) then bits_at (value_at m value (len ce)) (k - bit ce) else bit_of c k.
Proof using Hbytes.
  clear Hfuel Hrom. intros Ho Hv Hol Hc Hk. unfold cells_after. pose proof Hol as (Hb & Hl & Hs).
  assert (K : 0 <= k) by lia. destruct (CmosCorrect.touched _ _ _ _).
  - rewrite (checksum_apart _ _ _ _ b l Hol Hc k Hk). by apply set_bits.
  - by apply set_bits.
Qed.

(** The checksum after [set_option]. *)
Lemma cells_after_checksum ce value : option_ok (bit ce) (len ce) -> off_checksum (bit ce) (len ce) ->
  bool_decide (cks_ok (cells_after ce value)) = touched ce || bool_decide (cks_ok c).
Proof using Harea.
  clear Hfuel Hrom. intros Ho Hc. unfold cells_after. destruct (CmosCorrect.touched _ _ _ _) eqn:T.
  - cbn [orb]. apply bool_decide_eq_true. by apply (put_checksum_ok (keeps := keeps)).
  - cbn [orb]. apply bool_decide_ext. unfold checksum_ok, checksum.
    rewrite (cells_sum_ext _ _ c).
    + unfold apart in Hc. rewrite !put_value_off by (done || lia). done.
    + intros a Ha. apply (put_value_untouched LB_CKS_RANGE_START LB_CKS_RANGE_END); [done..|lia].
Qed.

(** C23.  An option that is set is read back.  The flash holds the table of the options and
    [name] selects in it an entry that is no string, whose field is one the format allows;
    the value fits into the field.  Then [set_option] succeeds, and [get_option] after it
    puts exactly that value at its destination; it reports success when the field is one
    the checksum covers or the checksum was valid before, and an invalid checksum
    otherwise.  Every other field of the CMOS that shares no bit with this one and none with
    the stored checksum reads as before. *)
Theorem set_get_option fh name value dest x ces ce :
  table_file = Some x -> entries m (first_entry x) ces -> (length ces < fuel)%nat ->
  option_entry m name ces = Some ce -> ce_config m ce <> 115 ->
  option_ok (bit ce) (len ce) -> field_kept (bit ce) (len ce) -> off_checksum (bit ce) (len ce) ->
  value_fits (len ce) (value_at m value (len ce)) ->
  exists d d', set_option s fh name value = Some (CB_SUCCESS, set_drv d s) /\ wf d /\
    get_option (set_drv d s) fh dest name =
      Some (if touched ce || bool_decide (cks_ok c) then CB_SUCCESS else CB_CMOS_CHECKSUM_INVALID,
            set_mem (store m dest (value_at m value (len ce))) (set_drv d' s)) /\
    forall b l, option_ok b l -> field_kept b l -> off_checksum b l -> apart b l (bit ce) (len ce) ->
      entry_value (cells d) b l = entry_value c b l.
Proof using Hhw Hrom Hbytes Hheader Hlayout Hfuel Harea Hwf.
  intros Hx He Hn Hce Hcfg Ho Hk Hoff Hv.
  destruct (set_option_spec fh name value x ces ce Hx He Hn Hce Hcfg Ho Hk) as (d & Es & Hd).
  change (holds d (cells_after ce value)) in Hd.
  pose proof (get_option_spec d _ fh dest name x ces Hd Hx He Hn) as G. rewrite Hce in G.
  destruct (G Ho Hk) as (d' & Eg & _). exists d, d'. split; [done|]. split; [apply Hd|]. split.
  - rewrite Eg, cells_after_checksum by done. do 4 f_equal. pose proof Ho as (Hb & Hl & _).
    apply (value_ext (len ce)); [done|by apply (option_ok_mod (bit ce))| |done|].
    + apply entry_value_fits; [done|]. intros a Ha1 Ha2. apply (holds_byte d _ a Hd). by apply Hk.
    + intros j Hj. rewrite entry_value_bits, (cells_after_bits ce value (bit ce) (len ce)) by (done || lia).
      rewrite (proj2 (Z.leb_le _ _)), (proj2 (Z.ltb_lt _ _)) by lia. cbn [andb]. f_equal. lia.
  - intros b l Hol Hkl Hcl Ha. destruct Hd as [Hwd Hcells].
    apply entry_value_ext; [done| |].
    + intros a Ha1 Ha2. split; by apply (hw_byte (CmosHardware := Hhw)).
    + intros k Hkb. pose proof Hol as (Hb & Hl & _). unfold bit_of at 1.
      rewrite Hcells by (apply Hkl; Z.to_euclidean_division_equations; lia).
      change (Z.testbit (cells_after ce value (k / 8)) (k mod 8)) with (bit_of (cells_after ce value) k).
      rewrite (cells_after_bits ce value b l) by done. unfold apart in Ha.
      destruct ((bit ce <=? k) && (k <? bit ce + len ce)) eqn:E; [|done].
      apply andb_prop in E as [E1 E2]. bool_to_prop. lia.
Qed.
(** [get_option] on every branch, for a CMOS in any state: without the table in the flash
    it returns [CB_CMOS_LAYOUT_NOT_FOUND], without an entry for the name
    [CB_CMOS_OPTION_NOT_FOUND], and changes nothing.  With an entry whose field the format
    allows it writes the field's value, and no other byte, to memory; it returns success
    when the checksum over the options is valid and [CB_CMOS_CHECKSUM_INVALID] otherwise,
    the value being written in both cases.  The CMOS keeps its contents. *)
Theorem get_option_correct fh dest name :
  match table_file with
  | None => get_option s fh dest name = Some (CB_CMOS_LAYOUT_NOT_FOUND, s)
  | Some x => forall ces, entries m (first_entry x) ces -> (length ces < fuel)%nat ->
      match option_entry m name ces with
      | None => get_option s fh dest name = Some (CB_CMOS_OPTION_NOT_FOUND, s)
      | Some ce => option_ok (bit ce) (len ce) -> field_kept (bit ce) (len ce) ->
          exists d, get_option s fh dest name =
            Some (if bool_decide (cks_ok c) then CB_SUCCESS else CB_CMOS_CHECKSUM_INVALID,
                  set_mem (store m dest (entry_value c (bit ce) (len ce))) (set_drv d s)) /\
            wf d /\ (forall a, keeps a -> cells d a = c a)
      end
  end.
Proof using Hhw Hrom Hbytes Hheader Hlayout Hfuel Harea Hwf.
  destruct table_file as [x|] eqn:Hx.
  - intros ces He Hn. pose proof (get_option_spec (drv s) c fh dest name x ces (holds_self (drv s) Hwf) Hx He Hn) as G.
    rewrite set_drv_self in G. destruct (option_entry m name ces) as [ce|]; [|done].
    intros Ho Hk. destruct (G Ho Hk) as (d & E & Hw & Hc). exists d. by repeat split.
  - unfold Cmos.get_option. pose proof (map_layout_spec (drv s) fh) as Em. rewrite set_drv_self, Hx in Em.
    by rewrite Em.
Qed.
End Options.

(** ** A small table

    A ROM of 512 bytes with "cmos_layout.bin": five options, of which "boot" and "level"
    lie among others, "who" is a string. *)

Definition cmos_record (bit len config : Z) (name : list Z) : list Z :=
  le_bytes 4 LB_TAG_OPTION ++ le_bytes 4 (24 + Z.of_nat (length name)) ++ le_bytes 4 bit ++ le_bytes 4 len
  ++ le_bytes 4 config ++ le_bytes 4 0 ++ name.
Definition name_boot_option : list Z := [98; 111; 111; 116; 95; 111; 112; 116; 105; 111; 110].
Definition name_boot : list Z := [98; 111; 111; 116].
Definition name_level : list Z := [108; 101; 118; 101; 108].
Definition name_who : list Z := [119; 104; 111].
Definition name_next : list Z := [110; 101; 120; 116].
Definition sample_table : list Z :=
  let records := cmos_record 384 1 101 (name_boot_option ++ [0]) ++ cmos_record 400 16 104 (name_boot ++ [0; 0; 0; 0])
    ++ cmos_record 395 4 101 (name_level ++ [0; 0; 0]) ++ cmos_record 416 24 115 (name_who ++ [0])
    ++ cmos_record 440 8 104 (name_next ++ [0; 0; 0; 0]) in
  le_bytes 4 200 ++ le_bytes 4 (12 + Z.of_nat (length records)) ++ le_bytes 4 12 ++ records.
Definition options_rom : list Z :=
  write_be32 CBFS_HEADER_MAGIC ++ write_be32 0x31313132 ++ write_be32 512 ++ write_be32 64 ++ write_be32 64
  ++ write_be32 64 ++ write_be32 1 ++ write_be32 0 ++ repeat 0xff 32
  ++ sample_file (layout_name ++ [0]) [] CBFS_COMPONENT_CMOS_LAYOUT 0 40 sample_table 384
  ++ repeat 0xff 60 ++ le_bytes 4 0xfffffe00.

(** Memory: 9 at 0x1000, the string "abcd" at 0x2000, the ROM on top. *)
Definition options_memory (x : Z) : Z :=
  if x =? 0x1000 then 9
  else if (0x2000 <=? x) && (x <? 0x2004) then x - 0x2000 + 97
  else if 0xfffffe00 <=? x then nth (Z.to_nat (x - 0xfffffe00)) options_rom 0
  else 0.
Definition options_state (f : Z -> Z) : rstate (D := ram) := mk_rstate options_memory ∅ (ram_of f).
Definition no_ram_driver (d : ram) (id : nat) (off n : Z) : Z * list Z := (-1, []).
(** The checksum covers cells 48 to 60 and is kept in cells 62 and 63. *)
Definition sample_get := get_option ram_inb ram_outb false true 48 60 62 no_ram_driver 512 [] [] 8.
Definition sample_set := set_option ram_inb ram_outb true 48 60 62 no_ram_driver 512 [] [] 8.

Lemma options_bytes x : is_byte (options_memory x).
Proof.
  unfold options_memory. destruct (x =? 0x1000); [unfold is_byte; lia|].
  destruct ((0x2000 <=? x) && (x <? 0x2004)) eqn:E.
  - apply andb_prop in E as [E1 E2]. apply Z.leb_le in E1. apply Z.ltb_lt in E2. unfold is_byte. lia.
  - destruct (0xfffffe00 <=? x); [|unfold is_byte; lia].
    apply (byte_at_byte options_rom). apply bytes_check. by vm_compute.
Qed.

Lemma options_layout f : layout (flash (options_state f) 512) (cbfs_base (options_state f) 512) (cbfs_size (options_state f) 512) 0 [0].
Proof.
  change (layout (flash (options_state f) 512) 64 384 0 [0]). apply layout_file.
  - split; [lia|]. split; [by vm_compute|]. split; [by exists 0|]. split; [by vm_compute|].
    apply (no_file_checked _ _ _ 6); [lia|lia|by vm_compute].
  - unfold fits. by vm_compute.
  - exists 39. split; by vm_compute.
  - apply layout_end. apply (no_file_checked _ _ _ 6); by vm_compute.
Qed.

Lemma ram_of_ok f : Forall is_byte (map (fun i => f (Z.of_nat i)) (seq 0 256)) -> ram_ok (ram_of f).
Proof. intros H. split; [done|]. split; [done|]. cbn. lia. Qed.

Definition zero_cells (x : Z) : Z := 0.
Definition sample_entries : list Z := [0xfffffe74; 0xfffffe98; 0xfffffeb8; 0xfffffed8; 0xfffffef4].

Lemma options_entries : entries options_memory 0xfffffe74 sample_entries.
Proof.
  unfold sample_entries.
  repeat (apply entries_cons; [by vm_compute|]; match goal with |- entries _ ?a _ => let b := eval vm_compute in a in
    replace a with b by (by vm_compute) end).
  apply entries_end. by vm_compute.
Qed.

Lemma options_area : checksum_area (keeps := ram_keeps) 48 60 62.
Proof. split; unfold ram_keeps; lia. Qed.

Lemma options_header f : header_valid (options_state f) 512.
Proof.
  split; [by vm_compute; congruence|]. split; by vm_compute.
Qed.

(** "level" is set to the value at 0x1000 in a CMOS of zeros. *)
Lemma set_get_option_witness :
  exists d d', sample_set (options_state zero_cells) no_fh name_level 0x1000 =
      Some (CB_SUCCESS, set_drv d (options_state zero_cells)) /\ ram_ok d /\
    sample_get (set_drv d (options_state zero_cells)) no_fh 0x3000 name_level =
      Some (CB_SUCCESS, set_mem (store options_memory 0x3000 [9]) (set_drv d' (options_state zero_cells))) /\
    forall b l, option_ok b l -> CmosCorrect.field_kept (keeps := ram_keeps) b l -> apart b l (8 * 62) 16 ->
      apart b l 395 4 -> entry_value (ram_cell d) b l = entry_value (ram_cell (ram_of zero_cells)) b l.
Proof.
  pose proof (set_get_option no_ram_driver (options_state zero_cells) 512 [] [] 48 60 62 ltac:(lia) options_bytes
    (ram_of_ok zero_cells ltac:(by apply bytes_check; vm_compute)) options_area [0] (options_header _)
    (options_layout _) 8 ltac:(by vm_compute; congruence) no_fh name_level 0x1000 0x3000 0 sample_entries 0xfffffeb8) as W.
  replace (value_at (mem (options_state zero_cells)) 0x1000 _) with [9] in W by (by vm_compute).
  change (ce_bit (mem (options_state zero_cells)) 0xfffffeb8) with 395 in W.
  change (ce_length (mem (options_state zero_cells)) 0xfffffeb8) with 4 in W.
  apply W.
  - by vm_compute.
  - replace (first_entry _ _ _) with 0xfffffe74 by (by vm_compute). apply options_entries.
  - cbn. lia.
  - by vm_compute.
  - by vm_compute; congruence.
  - unfold option_ok. Z.to_euclidean_division_equations. lia.
  - intros a H1 H2. unfold ram_keeps. Z.to_euclidean_division_equations. lia.
  - unfold apart. lia.
  - split; [done|]. split; [by apply bytes_check; vm_compute|]. intros _. cbn. lia.
Defined.

(** "level" in a CMOS of which every cell is 0x5a, so that the checksum is wrong. *)
Lemma get_option_correct_witness :
  let s := options_state (fun _ => 0x5a) in
  exists d, sample_get s no_fh 0x3000 name_level =
    Some (CB_CMOS_CHECKSUM_INVALID, set_mem (store options_memory 0x3000 [11]) (set_drv d s)) /\ ram_ok d.
Proof.
  cbv zeta. set (f := fun _ : Z => 0x5a).
  pose proof (get_option_correct no_ram_driver (options_state f) 512 [] [] 48 60 62 ltac:(lia) options_bytes
    (ram_of_ok f ltac:(by apply bytes_check; vm_compute)) options_area [0] (options_header _)
    (options_layout _) 8 ltac:(by vm_compute; congruence) no_fh 0x3000 name_level) as W.
  replace (table_file _ _ _) with (Some 0) in W by (vm_compute; reflexivity).
  specialize (W sample_entries).
  replace (first_entry _ _ _) with 0xfffffe74 in W by (vm_compute; reflexivity).
  specialize (W options_entries ltac:(cbn; lia)).
  replace (option_entry _ _ _) with (Some 0xfffffeb8) in W by (vm_compute; reflexivity).
  replace (entry_value _ _ _) with [11] in W by (vm_compute; reflexivity).
  change (ce_bit (mem (options_state f)) 0xfffffeb8) with 395 in W.
  change (ce_length (mem (options_state f)) 0xfffffeb8) with 4 in W.
  replace (bool_decide _) with false in W by (vm_compute; reflexivity).
  destruct W as (d & E & W & _).
  - unfold option_ok. Z.to_euclidean_division_equations. lia.
  - intros a H1 H2. unfold ram_keeps. Z.to_euclidean_division_equations. lia.
  - exists d. by split.
Defined.

(** ** What the code does where its comments promise more *)

(** The names are compared without their end: "boot" finds "boot_option", although there is
    an option of exactly that name. *)
Example option_name_prefix :
  option_entry options_memory name_boot sample_entries = Some 0xfffffe74 /\
  ce_bit options_memory 0xfffffe74 = 384 /\
  load options_memory (ce_name 0xfffffe98) 5 = name_boot ++ [0] /\ ce_bit options_memory 0xfffffe98 = 400.
Proof. by vm_compute. Qed.

(** What a call of [set_option] reports and the cells it leaves. *)
Definition after_set (name : list Z) (value b n : Z) : option (cb_err * list Z) :=
  match sample_set (options_state zero_cells) no_fh name value with
  | Some (ret, s) => Some (ret, slice (ram_cell (drv s)) b n)
  | None => None
  end.

(** A string of four characters in a field of three bytes runs over the next option,
    and is not terminated. *)
Example string_option_overruns :
  after_set name_who 0x2000 52 4 = Some (CB_SUCCESS, [97; 98; 99; 100]) /\
  ce_length options_memory 0xfffffed8 = 24 /\ ce_bit options_memory 0xfffffef4 = 8 * 55.
Proof. by vm_compute. Qed.

(** A value too large for its field changes the bit above the field. *)
Example wide_value_overruns :
  after_set name_level 0xfffffe20 49 1 = Some (CB_SUCCESS, [0xf8]) /\
  entry_value zero_cells 399 1 = [0] /\ entry_value (fun _ => 0xf8) 399 1 = [1].
Proof. by vm_compute. Qed.
