(* ===== verification/CmosBoot.v ===== *)
(** * CMOS memory across boots: the clock, the boot byte and the boot progress

    The clock read back after it is set, the choice between the normal and the fallback
    image over any sequence of boot attempts, the codes one boot leaves for the next, and
    what [cmos_init] leaves. *)

From S2P Require Import Prelude Region Bytes Mapped Rtc Cmos CmosCorrect.

(** The specification: an image and how often it was started since it last finished. *)
Record attempts := mk_attempts { image_normal : bool; tries : Z }.

Definition choose (MAX : Z) (a : attempts) : attempts :=
  if image_normal a then
    if tries a <? MAX then mk_attempts true (tries a + 1) else mk_attempts false (tries a)
  else a.
(** What the boot byte stands for. *)
Definition attempts_of (b : Z) : attempts := mk_attempts (negb (Z.land b RTC_BOOT_NORMAL =? 0)) (Z.shiftr b 4).
Definition attempts_eqb (a b : attempts) : bool := Bool.eqb (image_normal a) (image_normal b) && (tries a =? tries b).
Lemma attempts_eqb_eq a b : attempts_eqb a b = true -> a = b.
Proof.
  destruct a, b. unfold attempts_eqb. cbn. intros H. apply andb_prop in H as [H1 H2].
  apply Bool.eqb_prop in H1. apply Z.eqb_eq in H2. by subst.
Qed.

Section Boot.
Context {S : Type} {inb : S -> Z -> Z * S} {outb : S -> Z -> Z -> S} {wf : S -> Prop}.
Context {cells sel : S -> Z -> Z} {keeps : Z -> Prop}.
Context `{Hhw : !CmosHardware inb outb wf cells sel keeps}.
Set Default Proof Using "Type".

Notation holds := (holds (wf := wf) (cells := cells) (keeps := keeps)).
Notation cmos_read := (cmos_read inb outb).
Notation cmos_write := (cmos_write inb outb).

(** Symbolic execution: the read, or the write, that comes next. *)
Ltac read_cell kept :=
  match goal with Hs : CmosCorrect.holds ?s ?c |- context [Cmos.cmos_read inb outb ?s ?a] =>
    let s' := fresh "s" in let E := fresh "E" in let H' := fresh "Hs" in
    destruct (cmos_read_spec s c a Hs ltac:(kept)) as (s' & E & H'); rewrite E; clear E end.

(** ** The clock *)

(** The clock's cells, when it does not tick between two accesses. *)
Definition clock_cells : list Z :=
  [RTC_CLK_SECOND; RTC_CLK_MINUTE; RTC_CLK_HOUR; RTC_CLK_DAYOFWEEK; RTC_CLK_DAYOFMONTH; RTC_CLK_MONTH; RTC_CLK_YEAR;
   RTC_CLK_ALTCENTURY].
Definition clock_kept : Prop := Forall keeps clock_cells.

(** Times that two decimal digits per field hold. *)
Definition time_fits (t : rtc_time) : Prop :=
  0 <= sec t < 100 /\ 0 <= min t < 100 /\ 0 <= hour t < 100 /\ 0 <= mday t < 100 /\ 0 <= mon t < 100 /\
  0 <= year t < 10000 /\ 0 <= wday t < 99.

Lemma bcd_roundtrip x : 0 <= x < 100 -> bcd2bin (u8 (bin2bcd (u8 x))) = x.
Proof.
  intros H. apply Z.eqb_eq. apply (all_below_spec 100 (fun x => bcd2bin (u8 (bin2bcd (u8 x))) =? x)); [by vm_compute|lia].
Qed.

(** The cells after the clock is set. *)
Definition clock_set (c : Z -> Z) (t : rtc_time) : Z -> Z :=
  let bcd x := u8 (bin2bcd (u8 x)) in
  let c := set_cell c RTC_CLK_SECOND (bcd (sec t)) in
  let c := set_cell c RTC_CLK_MINUTE (bcd (min t)) in
  let c := set_cell c RTC_CLK_HOUR (bcd (hour t)) in
  let c := set_cell c RTC_CLK_DAYOFMONTH (bcd (mday t)) in
  let c := set_cell c RTC_CLK_MONTH (bcd (mon t)) in
  let c := set_cell c RTC_CLK_YEAR (bcd (Z.rem (year t) 100)) in
  let c := set_cell c RTC_CLK_ALTCENTURY (bcd (Z.quot (year t) 100)) in
  set_cell c RTC_CLK_DAYOFWEEK (bcd (wday t + 1)).

Lemma rtc_set_spec s c t : holds s c -> holds (rtc_set inb outb s t) (clock_set c t).
Proof using Hhw. intros Hs. unfold rtc_set, clock_set. do 8 (apply cmos_write_spec; [|done]). done. Qed.

(** The clock gives back the time it was set to: for a time whose fields two decimal
    digits hold (years up to 9999), with the clock not ticking in between and no update in
    progress, [rtc_get] after [rtc_set] returns exactly that time. *)
Theorem rtc_set_get s c t fuel : holds s c -> clock_kept -> keeps RTC_FREQ_SELECT ->
  Z.land (c RTC_FREQ_SELECT) RTC_UIP = 0 -> time_fits t ->
  exists s', rtc_get inb outb (Datatypes.S fuel) (rtc_set inb outb s t) = Some (t, s') /\ holds s' (clock_set c t).
Proof using Hhw.
  intros Hs Hk Hf Hu (F1 & F2 & F3 & F4 & F5 & F6 & F7). pose proof (rtc_set_spec s c t Hs) as H0.
  unfold clock_kept, clock_cells in Hk. rewrite !List.Forall_cons_iff in Hk. destruct Hk as (K1 & K2 & K3 & K4 & K5 & K6 & K7 & K8 & _).
  unfold rtc_get. cbn [wait_uip]. read_cell ltac:(done).
  change (clock_set c t RTC_FREQ_SELECT) with (c RTC_FREQ_SELECT). rewrite Hu. cbn [Z.eqb negb].
  do 8 (read_cell ltac:(assumption)). eexists. split; [|eassumption]. do 2 f_equal.
  change (clock_set c t RTC_CLK_SECOND) with (u8 (bin2bcd (u8 (sec t)))).
  change (clock_set c t RTC_CLK_MINUTE) with (u8 (bin2bcd (u8 (min t)))).
  change (clock_set c t RTC_CLK_HOUR) with (u8 (bin2bcd (u8 (hour t)))).
  change (clock_set c t RTC_CLK_DAYOFMONTH) with (u8 (bin2bcd (u8 (mday t)))).
  change (clock_set c t RTC_CLK_MONTH) with (u8 (bin2bcd (u8 (mon t)))).
  change (clock_set c t RTC_CLK_YEAR) with (u8 (bin2bcd (u8 (Z.rem (year t) 100)))).
  change (clock_set c t RTC_CLK_ALTCENTURY) with (u8 (bin2bcd (u8 (Z.quot (year t) 100)))).
  change (clock_set c t RTC_CLK_DAYOFWEEK) with (u8 (bin2bcd (u8 (wday t + 1)))).
  rewrite !bcd_roundtrip by (Z.to_euclidean_division_equations; lia).
  destruct t as [sec min hour mday mon year wday]. cbn in *. f_equal; Z.to_euclidean_division_equations; lia.
Qed.
(** ** The boot byte *)

Context (LB_CKS_RANGE_START LB_CKS_RANGE_END LB_CKS_LOC CONFIG_MAX_REBOOT_CNT : Z).
Notation st := LB_CKS_RANGE_START.
Notation en := LB_CKS_RANGE_END.
Notation loc := LB_CKS_LOC.
Notation MAX := CONFIG_MAX_REBOOT_CNT.
Notation do_normal_boot := (do_normal_boot inb outb true st en loc MAX).

(** The boot byte is a cell of its own, outside the checksum. *)
Record boot_layout : Prop := mk_boot_layout
  { bl_area : checksum_area (keeps := keeps) st en loc; bl_start : 0 <= st <= en; bl_end : en < 255;
    bl_valid : keeps RTC_VALID; bl_byte : keeps RTC_BOOT_BYTE;
    bl_apart : ~ (st <= RTC_BOOT_BYTE <= en) /\ RTC_BOOT_BYTE <> loc /\ RTC_BOOT_BYTE <> loc + 1;
    bl_max : 0 <= MAX <= 15 }.

Lemma early_sum_spec fuel : forall s c i acc, boot_layout -> holds s c -> st <= i <= en + 1 -> 0 <= acc < 2 ^ 16 ->
  en + 1 - i < Z.of_nat fuel ->
  exists s', early_sum inb outb en fuel s i acc = Some (u16 (acc + cells_sum (Z.to_nat (en + 1 - i)) c i), s') /\ holds s' c.
Proof using Hhw.
  induction fuel as [|fuel IH]; intros s c i acc Hb Hs Hi Ha Hf; [lia|]. cbn [early_sum].
  pose proof (bl_end Hb) as He. pose proof (bl_start Hb) as H0. destruct (Z.ltb_spec en i).
  - exists s. replace (Z.to_nat (en + 1 - i)) with O by lia. cbn [cells_sum]. rewrite Z.add_0_r. unfold u16.
    by rewrite wrap_small.
  - destruct (cmos_read_spec s c i Hs) as (s1 & -> & H1); [apply (area_cells _ _ _ (bl_area Hb)); lia|].
    rewrite (u8_small (i + 1)) by (unfold is_byte; lia).
    destruct (IH s1 c (i + 1) (u16 (acc + c i)) Hb H1) as (s2 & -> & H2); [lia|apply wrap_range; lia|lia|].
    exists s2. split; [|done]. replace (Z.to_nat (en + 1 - i)) with (Datatypes.S (Z.to_nat (en + 1 - (i + 1)))) by lia.
    cbn [cells_sum]. do 2 f_equal. unfold u16, wrap. rewrite Zplus_mod_idemp_l. f_equal. lia.
Qed.

Lemma chksum_valid_spec s c : boot_layout -> holds s c ->
  exists s', cmos_chksum_valid inb outb true st en loc s = Some (bool_decide (checksum_ok c st en loc), s') /\ holds s' c.
Proof using Hhw.
  intros Hb Hs. unfold cmos_chksum_valid. pose proof (bl_end Hb) as He. pose proof (bl_start Hb) as H0.
  rewrite u8_small by (unfold is_byte; lia).
  destruct (early_sum_spec 257 s c st 0 Hb Hs) as (s1 & -> & H1); [lia|lia|lia|].
  pose proof (area_high _ _ _ (bl_area Hb)) as Kh. pose proof (area_low _ _ _ (bl_area Hb)) as Kl.
  read_cell ltac:(done). read_cell ltac:(done). eexists. split; [|eassumption]. do 2 f_equal.
  replace (Z.to_nat (en + 1 - st)) with (Z.to_nat (en - st + 1)) by lia. rewrite Z.add_0_l.
  pose proof (holds_byte s c loc Hs Kh) as B. unfold is_byte in B.
  unfold u16 at 2. rewrite wrap_small by (rewrite Z.shiftl_mul_pow2 by lia; lia).
  apply Bool.eq_iff_eq_true. by rewrite Z.eqb_eq, bool_decide_eq_true.
Qed.

(** Whether the CMOS is usable: power was not lost and the checksum is valid. *)
Definition cmos_usable (c : Z -> Z) : bool := negb (Z.land (c RTC_VALID) RTC_VRT =? 0) && bool_decide (checksum_ok c st en loc).
(** The boot byte an attempt starts from. *)
Definition start_byte (c : Z -> Z) : Z :=
  if cmos_usable c then c RTC_BOOT_BYTE
  else Z.lor (Z.land (c RTC_BOOT_BYTE) (Z.land (boot_set_fallback (c RTC_BOOT_BYTE)) 0x0f)) (Z.shiftl 0xf 4).

(** A byte without its normal bit, or with a new count, is a byte. *)
Lemma start_byte_byte c : is_byte (c RTC_BOOT_BYTE) -> is_byte (start_byte c).
Proof.
  intros H. unfold start_byte. destruct (cmos_usable c); [done|].
  set (f b := Z.lor (Z.land b (Z.land (boot_set_fallback b) 0x0f)) (Z.shiftl 0xf 4)). change (is_byte (f (c RTC_BOOT_BYTE))).
  assert (E : (u8 (f (c RTC_BOOT_BYTE)) =? f (c RTC_BOOT_BYTE)) = true).
  { apply (all_below_spec 256 (fun b => u8 (f b) =? f b)); [by vm_compute|exact H]. }
  apply Z.eqb_eq in E. rewrite <- E. apply u8_byte.
Qed.

(** One attempt: the byte it starts from, then the choice. *)
Lemma do_normal_boot_spec s c : boot_layout -> holds s c ->
  let byte := next_boot_byte MAX (start_byte c) in
  exists s', do_normal_boot s = Some (boot_use_normal byte, s') /\ holds s' (set_cell c RTC_BOOT_BYTE (u8 byte)).
Proof using Hhw.
  intros Hb Hs byte. unfold Cmos.do_normal_boot, cmos_error.
  pose proof (bl_valid Hb) as Kv. pose proof (bl_byte Hb) as Kb. pose proof (holds_byte s c _ Hs Kb) as Bb.
  read_cell ltac:(done).
  assert (Hr : forall s3, holds s3 (set_cell c RTC_BOOT_BYTE (start_byte c)) ->
    exists s', (let '(b, s4) := cmos_read s3 RTC_BOOT_BYTE in
      let b := next_boot_byte MAX b in Some (boot_use_normal b, cmos_write s4 b RTC_BOOT_BYTE)) =
      Some (boot_use_normal byte, s') /\ holds s' (set_cell c RTC_BOOT_BYTE (u8 byte))).
  { intros s3 H3. read_cell ltac:(done). rewrite set_cell_same. eexists. split; [reflexivity|].
    apply (holds_ext _ (set_cell (set_cell c RTC_BOOT_BYTE (start_byte c)) RTC_BOOT_BYTE (u8 byte))).
    - by apply cmos_write_spec.
    - intros a _. unfold set_cell. by destruct (a =? _). }
  assert (Hi : forall s3 b, cmos_usable c = negb b -> holds s3 c ->
    holds (if b then let '(b, s4) := cmos_read s3 RTC_BOOT_BYTE in
             cmos_write s4 (Z.lor (Z.land b (Z.land (boot_set_fallback b) 0x0f)) (Z.shiftl 0xf 4)) RTC_BOOT_BYTE
           else s3) (set_cell c RTC_BOOT_BYTE (start_byte c))).
  { intros s3 b Hu H3. destruct b.
    - read_cell ltac:(done). rewrite <- (u8_small (start_byte c)) by (by apply start_byte_byte).
      unfold start_byte. rewrite Hu. by apply cmos_write_spec.
    - apply (holds_ext _ c); [done|]. intros a _. unfold set_cell, start_byte. rewrite Hu. by destruct (Z.eqb_spec a RTC_BOOT_BYTE) as [-> |]. }
  unfold cmos_usable in Hi. destruct (Z.land (c RTC_VALID) RTC_VRT =? 0) eqn:Ev.
  - cbv zeta iota beta. apply Hr. by apply (Hi s0 true).
  - destruct (chksum_valid_spec s0 c Hb Hs0) as (s1 & -> & H1). cbv zeta iota beta. apply Hr.
    apply (Hi s1); [|done]. cbn [negb andb]. by rewrite negb_involutive.
Qed.
(** ** Sequences of boots *)

Context (CONFIG_SKIP_MAX_REBOOT_CNT_CLEAR : bool).
Notation SKIP := CONFIG_SKIP_MAX_REBOOT_CNT_CLEAR.

(** The byte a finished boot leaves. *)
Definition finished_byte (b : Z) : Z :=
  if SKIP then Z.land b (bnot 8 RTC_BOOT_NORMAL)
  else if negb (Z.land b RTC_BOOT_NORMAL =? 0) then Z.land b 0x0f else b.

Lemma finished_byte_byte b : is_byte b -> is_byte (finished_byte b).
Proof.
  intros H. assert (E : (u8 (finished_byte b) =? finished_byte b) = true).
  { apply (all_below_spec 256 (fun b => u8 (finished_byte b) =? finished_byte b)); [|exact H].
    unfold finished_byte. by destruct SKIP; vm_compute. }
  apply Z.eqb_eq in E. rewrite <- E. apply u8_byte.
Qed.

Lemma set_boot_successful_spec s c : keeps RTC_BOOT_BYTE -> holds s c ->
  holds (set_boot_successful inb outb SKIP s) (set_cell c RTC_BOOT_BYTE (finished_byte (c RTC_BOOT_BYTE))).
Proof using Hhw.
  intros Kb [Hw Hc]. unfold set_boot_successful. change (RTC_PORT 0) with RTC_BASE_PORT.
  pose proof (hw_index s Hw) as I. destruct (inb s RTC_BASE_PORT) as [v s1]. destruct I as (Bv & W1 & K1).
  set (i := Z.lor (Z.land v 0x80) RTC_BOOT_BYTE).
  assert (Hi : 0 <= i < 256 /\ i mod 128 = RTC_BOOT_BYTE).
  { assert (E : (0 <=? i) && (i <? 256) && (i mod 128 =? RTC_BOOT_BYTE) = true).
    { apply (all_below_spec 256 (fun v => let i := Z.lor (Z.land v 0x80) RTC_BOOT_BYTE in
        (0 <=? i) && (i <? 256) && (i mod 128 =? RTC_BOOT_BYTE))); [by vm_compute|exact Bv]. }
    apply andb_prop in E as [E E3]. apply andb_prop in E as [E1 E2]. bool_to_prop. lia. }
  destruct Hi as [Hi Hm]. destruct (hw_select s1 0 i W1 Hi ltac:(by left)) as (W2 & E2 & K2).
  change (RTC_BASE_PORT + 2 * 0) with RTC_BASE_PORT in *.
  pose proof (hw_load (outb s1 i RTC_BASE_PORT) 0 W2 ltac:(by left)) as L.
  change (RTC_BASE_PORT + 2 * 0 + 1) with (RTC_PORT 1) in L.
  destruct (inb _ (RTC_PORT 1)) as [b s2]. destruct L as (Eb & W3 & E3 & K3).
  rewrite E2, Hm in Eb, E3. change (128 * 0 + RTC_BOOT_BYTE) with RTC_BOOT_BYTE in Eb.
  rewrite K2, K1, Hc in Eb by done. subst b.
  assert (Bb : is_byte (c RTC_BOOT_BYTE)) by (apply (holds_byte s c); [by split|done]).
  pose proof (hw_store s2 0 (finished_byte (c RTC_BOOT_BYTE)) W3 ltac:(by left) (finished_byte_byte _ Bb)) as (W4 & K4).
  change (RTC_BASE_PORT + 2 * 0 + 1) with (RTC_PORT 1) in *. unfold finished_byte in *.
  split; [done|]. intros a Ha. rewrite K4, E3 by done. change (128 * 0 + RTC_BOOT_BYTE) with RTC_BOOT_BYTE.
  unfold set_cell. destruct (a =? RTC_BOOT_BYTE); [done|]. by rewrite K3, K2, K1, Hc.
Qed.

(** What happens to the machine: it starts, or a boot finishes. *)
Inductive boot_event := Attempt | Finished.

(** What the events do to the machine, and for each attempt whether it takes the normal image. *)
Fixpoint run_boots (evs : list boot_event) (s : S) : option (list bool * S) :=
  match evs with
  | [] => Some ([], s)
  | Attempt :: evs =>
      match do_normal_boot s with
      | None => None
      | Some (normal, s) =>
          match run_boots evs s with
          | None => None
          | Some (l, s) => Some (negb (normal =? 0) :: l, s)
          end
      end
  | Finished :: evs => run_boots evs (set_boot_successful inb outb SKIP s)
  end.

Definition attempt (usable : bool) (a : attempts) : attempts := if negb usable then mk_attempts false 15 else choose MAX a.
Definition finished (a : attempts) : attempts :=
  if SKIP then mk_attempts false (tries a)
  else if image_normal a then mk_attempts true 0 else a.

Fixpoint run_spec (usable : bool) (evs : list boot_event) (a : attempts) : list bool * attempts :=
  match evs with
  | [] => ([], a)
  | Attempt :: evs =>
      let a := attempt usable a in
      let '(l, a') := run_spec usable evs a in (image_normal a :: l, a')
  | Finished :: evs => run_spec usable evs (finished a)
  end.

Lemma finished_attempts b : is_byte b -> attempts_of (finished_byte b) = finished (attempts_of b).
Proof.
  intros H. apply attempts_eqb_eq.
  apply (all_below_spec 256 (fun b => attempts_eqb (attempts_of (finished_byte b)) (finished (attempts_of b)))); [|exact H].
  unfold finished_byte, finished. by destruct SKIP; vm_compute.
Qed.

(** The choice, for every byte and every limit the configuration allows. *)
Lemma next_attempts b : boot_layout -> is_byte b ->
  is_byte (next_boot_byte MAX b) /\ attempts_of (next_boot_byte MAX b) = attempt true (attempts_of b).
Proof.
  intros Hb H. pose proof (bl_max Hb) as Hm.
  assert (E : (u8 (next_boot_byte MAX b) =? next_boot_byte MAX b)
              && attempts_eqb (attempts_of (next_boot_byte MAX b)) (attempt true (attempts_of b)) = true).
  { unfold attempt. apply (all_below_spec 256 (fun b => (u8 (next_boot_byte MAX b) =? next_boot_byte MAX b)
      && attempts_eqb (attempts_of (next_boot_byte MAX b)) (choose MAX (attempts_of b)))); [|exact H].
    apply (all_below_spec 16 (fun max => all_below 256 (fun b => (u8 (next_boot_byte max b) =? next_boot_byte max b)
      && attempts_eqb (attempts_of (next_boot_byte max b)) (choose max (attempts_of b))))); [by vm_compute|lia]. }
  apply andb_prop in E as [E1 E2]. apply Z.eqb_eq in E1. rewrite <- E1 at 1. split; [apply u8_byte|by apply attempts_eqb_eq].
Qed.

Lemma attempt_byte c : boot_layout -> is_byte (c RTC_BOOT_BYTE) ->
  is_byte (next_boot_byte MAX (start_byte c)) /\
  attempts_of (next_boot_byte MAX (start_byte c)) = attempt (cmos_usable c) (attempts_of (c RTC_BOOT_BYTE)).
Proof.
  intros Hb Hc. destruct (next_attempts (start_byte c) Hb (start_byte_byte c Hc)) as [B E].
  split; [done|]. rewrite E. unfold start_byte. destruct (cmos_usable c); [done|]. unfold attempt. cbn [negb].
  apply attempts_eqb_eq. set (f b := Z.lor (Z.land b (Z.land (boot_set_fallback b) 0x0f)) (Z.shiftl 0xf 4)).
  apply (all_below_spec 256 (fun b => attempts_eqb (choose MAX (attempts_of (f b))) (mk_attempts false 15))); [|exact Hc].
  by vm_compute.
Qed.

(** The boot byte is neither checked nor part of what is. *)
Lemma usable_byte c b : boot_layout -> cmos_usable (set_cell c RTC_BOOT_BYTE b) = cmos_usable c.
Proof.
  intros Hb. destruct (bl_apart Hb) as (A1 & A2 & A3). unfold cmos_usable. f_equal.
  apply bool_decide_ext. unfold checksum_ok, checksum.
  rewrite (cells_sum_ext _ (set_cell c RTC_BOOT_BYTE b) c) by (intros a Ha; apply set_cell_other; lia).
  by rewrite !set_cell_other by lia.
Qed.

(** The code follows the specification, event by event. *)
Lemma run_boots_spec evs : forall s c, boot_layout -> holds s c ->
  let '(l, a) := run_spec (cmos_usable c) evs (attempts_of (c RTC_BOOT_BYTE)) in
  exists s' b, run_boots evs s = Some (l, s') /\ holds s' (set_cell c RTC_BOOT_BYTE b) /\ attempts_of b = a.
Proof using Hhw.
  induction evs as [|[|] evs IH]; intros s c Hb Hs; pose proof (holds_byte s c _ Hs (bl_byte Hb)) as Bb.
  - exists s, (c RTC_BOOT_BYTE). split; [done|]. split; [|done]. apply (holds_ext _ _ _ Hs).
    intros a _. unfold set_cell. by destruct (Z.eqb_spec a RTC_BOOT_BYTE) as [-> |].
  - cbn [run_boots run_spec]. destruct (do_normal_boot_spec s c Hb Hs) as (s1 & -> & H1).
    destruct (attempt_byte c Hb Bb) as [Bn En]. rewrite (u8_small _ Bn) in H1.
    pose proof (IH s1 _ Hb H1) as R. rewrite usable_byte, set_cell_same, En in R by done.
    destruct (run_spec _ _ _) as [l a]. destruct R as (s' & b & -> & H' & Ea). exists s', b. split; [|split; [|done]].
    + by rewrite <- En.
    + apply (holds_ext _ _ _ H'). intros x _. unfold set_cell. by destruct (x =? _).
  - cbn [run_boots run_spec]. pose proof (set_boot_successful_spec s c (bl_byte Hb) Hs) as H1.
    pose proof (IH _ _ Hb H1) as R. rewrite usable_byte, set_cell_same, finished_attempts in R by done.
    destruct (run_spec _ _ _) as [l a]. destruct R as (s' & b & -> & H' & Ea). exists s', b. split; [done|split; [|done]].
    apply (holds_ext _ _ _ H'). intros x _. unfold set_cell. by destruct (x =? _).
Qed.

(** C24.  The choice of the image refines its specification: over any sequence of boot attempts
    and finished boots, [do_normal_boot] and [set_boot_successful] choose as the machine does
    that only knows the image and the number of its starts since it last finished; they leave
    that machine's state in the boot byte and no other cell changed.  A CMOS that lost power
    or has a wrong checksum always gives the fallback image. *)
Theorem boot_choice_refines evs s : boot_layout -> wf s ->
  let '(l, a) := run_spec (cmos_usable (cells s)) evs (attempts_of (cells s RTC_BOOT_BYTE)) in
  exists s', run_boots evs s = Some (l, s') /\ wf s' /\ attempts_of (cells s' RTC_BOOT_BYTE) = a /\
    forall x, keeps x -> x <> RTC_BOOT_BYTE -> cells s' x = cells s x.
Proof using Hhw.
  intros Hb Hw. pose proof (run_boots_spec evs s _ Hb (holds_self s Hw)) as R.
  destruct (run_spec _ _ _) as [l a]. destruct R as (s' & b & E & [W H'] & Ea). exists s'.
  split; [done|]. split; [done|]. split.
  - by rewrite (H' _ (bl_byte Hb)), set_cell_same.
  - intros x Hx Hn. by rewrite H', set_cell_other.
Qed.

(** Attempts in a row, of the specification. *)
Lemma attempts_row u n : forall a,
  fst (run_spec u (repeat Attempt n) a) =
    map (fun i => u && image_normal a && (tries a + Z.of_nat i <? MAX)) (seq 0 n).
Proof.
  induction n as [|n IH]; intros a; [done|]. cbn [repeat run_spec seq map].
  pose proof (IH (attempt u a)) as E. destruct (run_spec _ _ _) as [l a']. cbn [fst] in *. rewrite E.
  rewrite <- seq_shift, map_map, Z.add_0_r. unfold attempt, choose.
  destruct u; cbn [negb andb image_normal tries]; [|done].
  destruct (image_normal a) eqn:N; cbn [andb]; [|by rewrite N].
  destruct (Z.ltb_spec (tries a) MAX); cbn [image_normal tries andb]; f_equal; apply map_ext; intros i.
  - f_equal. lia.
  - symmetry. apply Z.ltb_ge. lia.
Qed.

(** C25.  A machine that does not come up is not stuck with the broken image: of any number of
    boot attempts in a row of which none finishes, with the CMOS usable and the normal image
    selected, the first [CONFIG_MAX_REBOOT_CNT] less the attempts already counted take the
    normal image and all later ones the fallback; otherwise all take the fallback.  After a
    boot that finished the full number is granted again, unless the configuration leaves
    that to the payload. *)
Theorem failing_boots_fall_back n s : boot_layout -> wf s ->
  let granted used := map (fun i => used + Z.of_nat i <? MAX) (seq 0 n) in
  let byte := cells s RTC_BOOT_BYTE in
  let u := cmos_usable (cells s) && negb (Z.land byte RTC_BOOT_NORMAL =? 0) in
  (exists s', run_boots (repeat Attempt n) s =
     Some (if u then granted (boot_count byte) else repeat false n, s')) /\
  (exists s', run_boots (Finished :: repeat Attempt n) s =
     Some (if u && negb SKIP then granted 0 else repeat false n, s')).
Proof using Hhw.
  intros Hb Hw. cbv zeta.
  pose proof (run_boots_spec (repeat Attempt n) s _ Hb (holds_self s Hw)) as R1.
  pose proof (run_boots_spec (Finished :: repeat Attempt n) s _ Hb (holds_self s Hw)) as R2.
  assert (Hz : repeat false n = map (fun i : nat => false) (seq 0 n)).
  { clear. generalize 0%nat. induction n as [|n IH]; intros k; [done|]. cbn. f_equal. apply IH. }
  cbn [run_spec] in R2. split.
  - clear R2. pose proof (attempts_row (cmos_usable (cells s)) n (attempts_of (cells s RTC_BOOT_BYTE))) as E.
    destruct (run_spec _ _ _) as [l a]. destruct R1 as (s' & b & -> & _). cbn [fst] in E. exists s'. rewrite E, Hz.
    cbn [attempts_of image_normal tries]. by destruct (cmos_usable _ && negb _).
  - clear R1. pose proof (attempts_row (cmos_usable (cells s)) n (finished (attempts_of (cells s RTC_BOOT_BYTE)))) as E.
    destruct (run_spec _ _ _) as [l a]. destruct R2 as (s' & b & -> & _). cbn [fst] in E. exists s'. rewrite E, Hz.
    unfold finished. destruct SKIP; cbn [image_normal tries attempts_of negb]; [by rewrite !andb_false_r|].
    rewrite andb_true_r. destruct (negb (Z.land _ _ =? 0)) eqn:N; cbn [image_normal tries attempts_of]; rewrite ?N.
    + by destruct (cmos_usable _).
    + by rewrite !andb_false_r.
Qed.
(** ** Words of four cells *)

Lemma piece_bits v k n : 0 <= k <= 24 -> 0 <= n ->
  Z.testbit (u32 (Z.shiftl (u8 (Z.land (Z.shiftr v k) 0xff)) k)) n = (k <=? n) && (n <? k + 8) && Z.testbit v n.
Proof.
  intros Hk Hn. unfold u32, wrap. destruct (Z.lt_ge_cases n 32) as [Hs|Hs].
  - rewrite Z.mod_pow2_bits_low, Z.shiftl_spec by lia. destruct (Z.leb_spec k n); cbn [andb].
    + rewrite testbit_u8, Z.land_spec, Z.shiftr_spec by lia. change 0xff with (Z.ones 8).
      replace (n - k + k) with n by lia. destruct (Z.ltb_spec n (k + 8)).
      * rewrite (proj2 (Z.ltb_lt (n - k) 8)), Z.ones_spec_low by lia. cbn [andb]. by rewrite andb_true_r.
      * by rewrite (proj2 (Z.ltb_ge (n - k) 8)) by lia.
    + apply Z.testbit_neg_r. lia.
  - rewrite Z.mod_pow2_bits_high by lia. by rewrite (proj2 (Z.ltb_ge n (k + 8))), andb_false_r by lia.
Qed.

(** The cells with a word put at [o], and the word at [o]. *)
Definition put32 (c : Z -> Z) (o v : Z) : Z -> Z :=
  let b i := u8 (Z.land (Z.shiftr v (8 * i)) 0xff) in
  set_cell (set_cell (set_cell (set_cell c o (b 0)) (o + 1) (b 1)) (o + 2) (b 2)) (o + 3) (b 3).
Definition get32 (c : Z -> Z) (o : Z) : Z :=
  let p i := u32 (Z.shiftl (c (o + i)) (8 * i)) in Z.lor (Z.lor (Z.lor (p 0) (p 1)) (p 2)) (p 3).

Lemma get_put32 c o v : 0 <= v < 2 ^ 32 -> get32 (put32 c o v) o = v.
Proof.
  intros Hv. unfold get32, put32. rewrite !Z.add_0_r.
  rewrite (set_cell_same _ (o + 3)), (set_cell_other _ (o + 3) _ (o + 2)), (set_cell_same _ (o + 2)) by lia.
  rewrite (set_cell_other _ (o + 3) _ (o + 1)), (set_cell_other _ (o + 2) _ (o + 1)), (set_cell_same _ (o + 1)) by lia.
  rewrite (set_cell_other _ (o + 3) _ o), (set_cell_other _ (o + 2) _ o), (set_cell_other _ (o + 1) _ o), (set_cell_same _ o) by lia.
  change (8 * 0) with 0. change (8 * 1) with 8. change (8 * 2) with 16. change (8 * 3) with 24.
  apply Z.bits_inj'. intros n Hn. rewrite !Z.lor_spec, !piece_bits by lia.
  destruct (Z.lt_ge_cases n 32) as [Hs|Hs].
  - destruct (Z.testbit v n); [|by rewrite !andb_false_r].
    rewrite !andb_true_r. apply Bool.eq_true_iff_eq. rewrite !orb_true_iff, !andb_true_iff, !Z.leb_le, !Z.ltb_lt. lia.
  - by rewrite (testbit_small v 32 n), !andb_false_r by lia.
Qed.

Lemma write32_spec s c o v : holds s c -> 0 <= o -> o + 4 <= 256 -> holds (cmos_write32 inb outb s o v) (put32 c o v).
Proof using Hhw.
  intros Hs Ho He. unfold cmos_write32, put32. cbn [write32_loop].
  pose proof (cmos_write_spec _ _ (Z.land (Z.shiftr v 0) 0xff) (o + 0) Hs ltac:(lia)) as H0.
  pose proof (cmos_write_spec _ _ (Z.land (Z.shiftr v 8) 0xff) (o + 1) H0 ltac:(lia)) as H1.
  pose proof (cmos_write_spec _ _ (Z.land (Z.shiftr v 16) 0xff) (o + 2) H1 ltac:(lia)) as H2.
  pose proof (cmos_write_spec _ _ (Z.land (Z.shiftr v 24) 0xff) (o + 3) H2 ltac:(lia)) as H3.
  rewrite (Z.add_0_r o) in *. exact H3.
Qed.

Lemma read32_spec s c o : holds s c -> (forall i, 0 <= i < 4 -> keeps (o + i)) ->
  exists s', cmos_read32 inb outb s o = (get32 c o, s') /\ holds s' c.
Proof using Hhw.
  intros Hs Hk. unfold cmos_read32, get32. cbn [read32_loop].
  change (0 + 1 + 1 + 1) with 3. change (0 + 1 + 1) with 2. change (0 + 1) with 1.
  do 4 (read_cell ltac:(apply Hk; lia)). eexists. split; [|eassumption]. rewrite Z.lor_0_l. reflexivity.
Qed.

(** ** The codes of the boot progress *)

Context (CMOS_POST_OFFSET : Z) (CONFIG_CMOS_POST_EXTRA CONFIG_ELOG : bool).
Notation OFF := CMOS_POST_OFFSET.
Notation EXTRA := CONFIG_CMOS_POST_EXTRA.
Notation cmos_post_init := (cmos_post_init inb outb OFF EXTRA).
Notation cmos_post_code := (cmos_post_code inb outb OFF).
Notation post_log_extra := (post_log_extra inb outb OFF).
Notation cmos_post_log := (cmos_post_log inb outb OFF EXTRA CONFIG_ELOG).

(** The eleven cells of the codes. *)
Definition post_kept : Prop := forall i, 0 <= i < 11 -> keeps (OFF + i).

(** A boot writes into one of two banks, the next one into the other. *)
Definition magic (b : bool) : Z := if b then CMOS_POST_BANK_1_MAGIC else CMOS_POST_BANK_0_MAGIC.
Definition code_cell (b : bool) : Z := OFF + if b then 2 else 1.
Definition extra_cell (b : bool) : Z := OFF + if b then 7 else 3.

Lemma post_range : post_kept -> 0 <= OFF /\ OFF + 11 <= 256.
Proof using Hhw.
  intros Hk. pose proof (hw_range _ (Hk 0 ltac:(lia))). pose proof (hw_range _ (Hk 10 ltac:(lia))). lia.
Qed.

Lemma post_init_spec s c : post_kept -> holds s c ->
  exists c' b, holds (cmos_post_init s) c' /\ c' OFF = magic b /\
    forall b0, c OFF = magic b0 -> b = negb b0 /\ forall a, a <> OFF -> c' a = c a.
Proof using Hhw.
  intros Hk Hs. destruct (post_range Hk) as [R1 R2].
  assert (K0 : keeps OFF) by (rewrite <- (Z.add_0_r OFF); apply Hk; lia).
  unfold Cmos.cmos_post_init, CMOS_POST_BANK_OFFSET. read_cell ltac:(done).
  destruct (Z.eqb_spec (c OFF) CMOS_POST_BANK_1_MAGIC) as [E1|E1].
  - exists (set_cell c OFF (u8 (magic false))), false. split; [by apply cmos_write_spec; [|lia]|]. rewrite set_cell_same. split; [done|].
    intros [|] E; [|by rewrite E in E1]. split; [done|]. intros a Ha. by apply set_cell_other.
  - destruct (Z.eqb_spec (c OFF) CMOS_POST_BANK_0_MAGIC) as [E0|E0].
    + exists (set_cell c OFF (u8 (magic true))), true. split; [by apply cmos_write_spec; [|lia]|]. rewrite set_cell_same. split; [done|].
      intros [|] E; [by rewrite E in E0|]. split; [done|]. intros a Ha. by apply set_cell_other.
    + pose proof (cmos_write_spec s0 c 0 (OFF + 1) Hs0 ltac:(lia)) as H1.
      pose proof (cmos_write_spec _ _ 0 (OFF + 2) H1 ltac:(lia)) as H2.
      assert (Hn : forall b0, c OFF = magic b0 -> False) by (intros [|] E; auto).
      destruct EXTRA.
      * pose proof (write32_spec _ _ (OFF + 3) 0 H2 ltac:(lia) ltac:(lia)) as H3.
        pose proof (write32_spec _ _ (OFF + 7) 0 H3 ltac:(lia) ltac:(lia)) as H4.
        eexists _, false. split; [apply cmos_write_spec; [exact H4|lia]|]. rewrite set_cell_same. split; [done|].
        intros b0 E. by destruct (Hn b0 E).
      * eexists _, false. split; [apply cmos_write_spec; [exact H2|lia]|]. rewrite set_cell_same. split; [done|].
        intros b0 E. by destruct (Hn b0 E).
Qed.

(** What the code does in a known bank. *)
Lemma post_code_spec s c v b : post_kept -> holds s c -> c OFF = magic b ->
  holds (cmos_post_code s v) (set_cell c (code_cell b) (u8 v)).
Proof using Hhw.
  intros Hk Hs Hb. destruct (post_range Hk) as [R1 R2].
  assert (K0 : keeps OFF) by (rewrite <- (Z.add_0_r OFF); apply Hk; lia).
  unfold Cmos.cmos_post_code, CMOS_POST_BANK_OFFSET. read_cell ltac:(done). rewrite Hb.
  unfold code_cell. unfold magic, CMOS_POST_BANK_0_MAGIC, CMOS_POST_BANK_1_MAGIC. destruct b; cbn [Z.eqb Pos.eqb]; apply cmos_write_spec; (done || lia).
Qed.

Lemma post_extra_spec s c e b : post_kept -> holds s c -> c OFF = magic b ->
  holds (post_log_extra s e) (put32 c (extra_cell b) e).
Proof using Hhw.
  intros Hk Hs Hb. destruct (post_range Hk) as [R1 R2].
  assert (K0 : keeps OFF) by (rewrite <- (Z.add_0_r OFF); apply Hk; lia).
  unfold Cmos.post_log_extra, CMOS_POST_BANK_OFFSET. read_cell ltac:(done). rewrite Hb.
  unfold extra_cell. unfold magic, CMOS_POST_BANK_0_MAGIC, CMOS_POST_BANK_1_MAGIC. destruct b; cbn [Z.eqb Pos.eqb]; apply write32_spec; (done || lia).
Qed.

Lemma last_default {A} (l : list A) a b : l <> [] -> List.last l a = List.last l b.
Proof.
  induction l as [|x l IH]; intros H; [done|]. destruct l as [|y l]; [done|]. by apply IH.
Qed.

Lemma post_codes_spec l : forall s c b, post_kept -> holds s c -> c OFF = magic b ->
  exists c', holds (fold_left cmos_post_code l s) c' /\ c' OFF = magic b /\
    c' (code_cell b) = List.last (map u8 l) (c (code_cell b)).
Proof using Hhw.
  induction l as [|v l IH]; intros s c b Hk Hs Hb; [by exists c|]. cbn [fold_left].
  pose proof (post_code_spec s c v b Hk Hs Hb) as H1.
  destruct (IH _ _ b Hk H1) as (c' & H2 & E & L).
  - rewrite set_cell_other; [done|]. unfold code_cell. destruct b; lia.
  - exists c'. split; [done|]. split; [done|]. rewrite L, set_cell_same. cbn [map]. destruct l as [|x l]; [done|].
    by apply (last_default (map u8 (x :: l))).
Qed.
(** The events for a boot that ended with [code] and logged [extra]. *)
Definition post_events (code extra : Z) : list elog_event :=
  if (code =? POST_OS_BOOT) || (code =? POST_OS_RESUME) || (code =? POST_ENTER_ELF_BOOT) || (code =? 0)
     || negb CONFIG_ELOG then []
  else ELOG_TYPE_LAST_POST_CODE code
       :: (if EXTRA && negb (extra =? 0) then [ELOG_TYPE_POST_EXTRA extra] else []).

Lemma put32_off c o v a : a < o \/ o + 4 <= a -> put32 c o v a = c a.
Proof. intros H. unfold put32. by rewrite !set_cell_other by lia. Qed.

(** The log of the next boot, from what a boot left. *)
Lemma post_log_spec s c b : post_kept -> holds s c -> c OFF = magic b ->
  exists s', cmos_post_log s =
    (post_events (c (code_cell (negb b))) (if EXTRA then get32 c (extra_cell (negb b)) else 0), s') /\ holds s' c.
Proof using Hhw.
  intros Hk Hs Hb. assert (K0 : keeps OFF) by (rewrite <- (Z.add_0_r OFF); apply Hk; lia).
  assert (Hp : exists s', previous_post_code inb outb OFF EXTRA s =
    (c (code_cell (negb b)), (if EXTRA then get32 c (extra_cell (negb b)) else 0), s') /\ holds s' c).
  { unfold previous_post_code, CMOS_POST_BANK_OFFSET. read_cell ltac:(done). rewrite Hb.
    unfold magic, CMOS_POST_BANK_0_MAGIC, CMOS_POST_BANK_1_MAGIC, code_cell, extra_cell.
    unfold CMOS_POST_BANK_0_OFFSET, CMOS_POST_BANK_1_OFFSET, CMOS_POST_BANK_0_EXTRA, CMOS_POST_BANK_1_EXTRA.
    destruct b; cbn [Z.eqb Pos.eqb negb].
    - read_cell ltac:(apply Hk; lia). destruct EXTRA; [|by exists s1].
      destruct (read32_spec s1 c (OFF + 3) Hs1) as (s2 & -> & H2); [|by exists s2].
      intros i Hi. rewrite <- Z.add_assoc. apply Hk. lia.
    - read_cell ltac:(apply Hk; lia). destruct EXTRA; [|by exists s1].
      destruct (read32_spec s1 c (OFF + 7) Hs1) as (s2 & -> & H2); [|by exists s2].
      intros i Hi. rewrite <- Z.add_assoc. apply Hk. lia. }
  destruct Hp as (s' & E & H'). exists s'. split; [|done]. unfold Cmos.cmos_post_log. rewrite E. unfold post_events.
  set (code := c _). set (extra := if EXTRA then _ else _).
  destruct ((code =? POST_OS_BOOT) || (code =? POST_OS_RESUME) || (code =? POST_ENTER_ELF_BOOT) || (code =? 0)); [done|].
  cbn [orb]. by destruct (negb CONFIG_ELOG).
Qed.

(** C26.  The progress of a boot is known to the next: whatever the cells held before, when a
    boot has announced the codes [l], and the additional word [e] where that is configured,
    then the next boot's [cmos_post_log] reports the last of the codes and the word, unless
    the code is one a boot normally ends with. *)
Theorem post_log_reports l e s : post_kept -> wf s -> l <> [] -> Forall is_byte l -> 0 <= e < 2 ^ 32 ->
  let s1 := fold_left cmos_post_code l (cmos_post_init s) in
  let s2 := if EXTRA then post_log_extra s1 e else s1 in
  exists s', cmos_post_log (cmos_post_init s2) = (post_events (List.last l 0) e, s') /\ wf s'.
Proof using Hhw.
  intros Hk Hw Hl Hb He s1 s2.
  destruct (post_init_spec s _ Hk (holds_self s Hw)) as (c1 & b & H1 & E1 & _).
  destruct (post_codes_spec l _ c1 b Hk H1 E1) as (c2 & H2 & E2 & L2). change (holds s1 c2) in H2.
  assert (Hm : map u8 l = l).
  { clear -Hb. induction Hb as [|x l Hx _ IH]; [done|]. cbn [map]. by rewrite IH, u8_small. }
  rewrite Hm, (last_default l _ 0 Hl) in L2.
  set (c3 := if EXTRA then put32 c2 (extra_cell b) e else c2).
  assert (H3 : holds s2 c3 /\ c3 OFF = magic b /\ c3 (code_cell b) = List.last l 0 /\
    (EXTRA = true -> get32 c3 (extra_cell b) = e)).
  { unfold s2, c3. destruct EXTRA; [|done]. split; [by apply post_extra_spec|].
    rewrite !put32_off by (unfold code_cell, extra_cell; destruct b; lia). split; [done|]. split; [done|].
    intros _. by apply get_put32. }
  destruct H3 as (H3 & E3 & L3 & X3). clearbody c3.
  destruct (post_init_spec s2 c3 Hk H3) as (c4 & b' & H4 & E4 & O4). destruct (O4 b E3) as [-> O4'].
  destruct (post_log_spec _ c4 (negb b) Hk H4 E4) as (s' & -> & Hs'). rewrite negb_involutive.
  exists s'. split; [|apply Hs']. f_equal.
  rewrite O4' by (unfold code_cell; destruct b; lia). rewrite L3. unfold post_events. destruct EXTRA; [|done].
  assert (G : get32 c4 (extra_cell b) = get32 c3 (extra_cell b)).
  { unfold get32. by rewrite !O4' by (unfold extra_cell; destruct b; lia). }
  by rewrite G, X3.
Qed.
(** ** Initialisation *)

Context (CONFIG_USE_OPTION_TABLE : bool) (built : build_date).
Notation USE := CONFIG_USE_OPTION_TABLE.
Notation cmos_init := (cmos_init inb outb false built USE st en loc).

Definition pc_checksum_ok (c : Z -> Z) : Prop := checksum_ok c PC_CKS_RANGE_START PC_CKS_RANGE_END PC_CKS_LOC.
(** Power was lost. *)
Definition power_lost (c : Z -> Z) : bool := Z.land (c RTC_VALID) RTC_VRT =? 0.
(** The date the clock is set to then: one in the morning of the day of the build. *)
Definition build_time : rtc_time :=
  mk_time 0 0 1 (bcd2bin (bd_day built)) (bcd2bin (bd_month built))
    (bcd2bin (bd_century built) * 100 + bcd2bin (bd_year built)) (bcd2bin (bd_weekday built)).

Lemma clear_cells_spec n : forall s c i, holds s c -> 0 <= i -> i + Z.of_nat n <= 256 ->
  holds (clear_cells inb outb n s i) (fun a => if (i <=? a) && (a <? i + Z.of_nat n) then 0 else c a).
Proof using Hhw.
  induction n as [|n IH]; intros s c i Hs Hi Hn.
  - apply (holds_ext _ _ _ Hs). intros a _. destruct (_ && _) eqn:E; [|done].
    apply andb_prop in E as [E1 E2]. cbn in E2. bool_to_prop. lia.
  - cbn [clear_cells]. pose proof (cmos_write_spec s c 0 i Hs ltac:(lia)) as H1.
    pose proof (IH _ _ (i + 1) H1 ltac:(lia) ltac:(lia)) as H2. apply (holds_ext _ _ _ H2). intros a _.
    unfold set_cell. destruct (Z.eqb_spec a i) as [-> | Hne].
    + rewrite (proj2 (Z.leb_gt (i + 1) i)), Z.leb_refl by lia. cbn [andb]. by rewrite (proj2 (Z.ltb_lt i _)) by lia.
    + replace (i + 1 + Z.of_nat n) with (i + Z.of_nat (Datatypes.S n)) by lia.
      replace (i + 1 <=? a) with (i <=? a); [done|]. apply Bool.eq_iff_eq_true. rewrite !Z.leb_le. lia.
Qed.

Definition cleared (c : Z -> Z) (a : Z) : Z :=
  if (10 <=? a) && (a <? 128) then 0 else set_cell (set_cell (set_cell c 1 0) 3 0) 5 0 a.

(** The cells when the registers are set up. *)
Definition init_cells (invalid : bool) (c : Z -> Z) : Z -> Z :=
  let lost := power_lost c in
  let c := if lost || invalid then set_cell c RTC_CONTROL (u8 (Z.lor (c RTC_CONTROL) RTC_SET)) else c in
  let c := if (lost || invalid) && negb USE then cleared c else c in
  let c := if lost then clock_set c build_time else c in
  set_cell (set_cell (set_cell c RTC_CONTROL RTC_CONTROL_DEFAULT) RTC_FREQ_SELECT RTC_FREQ_SELECT_DEFAULT) RTC_VALID RTC_VRT.

Record init_layout : Prop := mk_init_layout
  { il_pc : checksum_area (keeps := keeps) PC_CKS_RANGE_START PC_CKS_RANGE_END PC_CKS_LOC;
    il_lb : checksum_area (keeps := keeps) st en loc; il_valid : keeps RTC_VALID }.

Lemma cmos_init_spec s c invalid : init_layout -> holds s c ->
  holds (cmos_init s false invalid)
    (if USE then put_checksum (init_cells invalid c) PC_CKS_RANGE_START PC_CKS_RANGE_END PC_CKS_LOC
     else init_cells invalid c).
Proof using Hhw.
  intros Hl Hs. pose proof (il_valid Hl) as Kv. pose proof (il_pc Hl) as Hpc. pose proof (il_lb Hl) as Hlb.
  unfold Cmos.cmos_init. read_cell ltac:(done). fold (power_lost c). cbv zeta.
  (* the end: the registers, the checksum, the interrupts *)
  assert (Hend : forall s3 c3, holds s3 c3 ->
    let c4 := set_cell (set_cell (set_cell c3 RTC_CONTROL RTC_CONTROL_DEFAULT) RTC_FREQ_SELECT RTC_FREQ_SELECT_DEFAULT) RTC_VALID RTC_VRT in
    let s4 := cmos_write (cmos_write (cmos_write s3 RTC_CONTROL_DEFAULT RTC_CONTROL) RTC_FREQ_SELECT_DEFAULT RTC_FREQ_SELECT)
                RTC_VRT RTC_VALID in
    holds (snd (cmos_read (if USE then let '(_, s) := cmos_checksum_valid inb outb false s4 st en loc in
             cmos_set_checksum inb outb s PC_CKS_RANGE_START PC_CKS_RANGE_END PC_CKS_LOC else s4) RTC_INTR_FLAGS))
      (if USE then put_checksum c4 PC_CKS_RANGE_START PC_CKS_RANGE_END PC_CKS_LOC else c4)).
  { intros s3 c3 H3 c4 s4.
    assert (H4 : holds s4 c4) by (do 3 (apply cmos_write_spec; [|done]); done).
    assert (Hr : forall t d, holds t d -> holds (snd (cmos_read t RTC_INTR_FLAGS)) d).
    { intros t d Ht. by destruct (cmos_read_any t d RTC_INTR_FLAGS Ht ltac:(done)) as (v & t' & -> & _ & Ht' & _). }
    apply Hr. destruct USE; [|done]. destruct (checksum_valid_spec st en loc s4 c4 Hlb H4) as (s5 & -> & H5).
    by apply set_checksum_spec. }
  (* the update that comes before *)
  set (c1 := if power_lost c || invalid then set_cell c RTC_CONTROL (u8 (Z.lor (c RTC_CONTROL) RTC_SET)) else c).
  assert (H1 : forall s2, holds s2 c -> holds (if power_lost c || invalid then
      let '(x, s) := cmos_read s2 RTC_CONTROL in cmos_write s (Z.lor x RTC_SET) RTC_CONTROL else s2) c1).
  { intros s2 H2. unfold c1. destruct (power_lost c || invalid); [|done]. pose proof (hw_control (CmosHardware := Hhw)).
    read_cell ltac:(done). by apply cmos_write_spec. }
  unfold init_cells. fold c1. clearbody c1. destruct USE.
  - destruct (checksum_valid_spec _ _ _ s0 c Hpc Hs0) as (s1 & -> & Hs1). cbv zeta iota beta. specialize (H1 s1 Hs1).
    rewrite andb_false_r. match type of H1 with CmosCorrect.holds ?x _ => set (s2 := x) in * end. apply Hend.
    destruct (power_lost c) eqn:E; [rewrite orb_true_r|rewrite orb_false_r].
    + by apply rtc_set_spec.
    + by destruct (invalid || _).
  - cbv zeta iota beta. specialize (H1 s0 Hs0). rewrite andb_true_r.
    match type of H1 with CmosCorrect.holds ?x _ => set (s2 := x) in * end. apply Hend.
    assert (Hc : holds (clear_cells inb outb 118 (cmos_write (cmos_write (cmos_write s2 0 1) 0 3) 0 5) 10) (cleared c1)).
    { pose proof (cmos_write_spec _ _ 0 1 H1 ltac:(done)) as W1. pose proof (cmos_write_spec _ _ 0 3 W1 ltac:(done)) as W3.
      pose proof (cmos_write_spec _ _ 0 5 W3 ltac:(done)) as W5.
      apply (holds_ext _ _ _ (clear_cells_spec 118 _ _ 10 W5 ltac:(lia) ltac:(lia))). done. }
    rewrite orb_false_r, (orb_comm invalid). destruct (power_lost c); cbn [orb].
    + by apply rtc_set_spec.
    + by destruct invalid.
Qed.
(** The cells that initialisation clears: the alarm and all from register A of the first bank on. *)
Definition clears (a : Z) : bool := (a =? 1) || (a =? 3) || (a =? 5) || ((10 <=? a) && (a <? 128)).

Lemma cleared_at c a : cleared c a = if clears a then 0 else c a.
Proof.
  unfold cleared, clears, set_cell. destruct ((10 <=? a) && (a <? 128)); [by rewrite orb_true_r|].
  destruct (a =? 5); [by rewrite !orb_true_r|]. destruct (a =? 3); [by rewrite !orb_true_r|]. by destruct (a =? 1).
Qed.

Lemma clock_set_off c t a : ~ In a clock_cells -> clock_set c t a = c a.
Proof.
  intros H. unfold clock_cells in H. cbn [In] in H. unfold clock_set.
  rewrite !set_cell_other by (intros ->; apply H; auto 12). done.
Qed.

Lemma clock_set_same c c' t a : In a clock_cells -> clock_set c t a = clock_set c' t a.
Proof. unfold clock_cells. cbn [In]. intros H. repeat destruct H as [<-|H]; done. Qed.

Lemma init_cells_at invalid c a : a <> RTC_CONTROL -> a <> RTC_FREQ_SELECT -> a <> RTC_VALID ->
  (power_lost c = true -> ~ In a clock_cells) ->
  init_cells invalid c a = if negb USE && (power_lost c || invalid) && clears a then 0 else c a.
Proof.
  intros H1 H2 H3 Hk. unfold init_cells. rewrite !set_cell_other by done.
  assert (E : forall c0, (if power_lost c then clock_set c0 build_time else c0) a = c0 a).
  { intros c0. destruct (power_lost c); [|done]. apply clock_set_off. by apply Hk. }
  rewrite E. rewrite (andb_comm (negb USE)). destruct (power_lost c || invalid); cbn [andb].
  - destruct (negb USE); cbn [andb]; [|by apply set_cell_other]. rewrite cleared_at. destruct (clears a); [done|].
    by apply set_cell_other.
  - done.
Qed.

(** C27.  [cmos_init] outside a resume, from any contents.  The clock runs in 24-hour mode at its
    normal rate, the cells are marked as valid, and with an option table the checksum over
    the first cells is right.  Every other cell that only changes when it is written keeps its
    value - also where its checksum was wrong -, except that without an option table all cells are
    cleared when power was lost or the caller asks for it, and that after a loss of power the
    clock is set to the date of the build. *)
Theorem cmos_init_correct s invalid : init_layout -> wf s ->
  let c := cells s in let s' := cmos_init s false invalid in let c' := cells s' in
  wf s' /\ c' RTC_CONTROL = RTC_24H /\ (keeps RTC_FREQ_SELECT -> c' RTC_FREQ_SELECT = 0x26) /\ c' RTC_VALID = RTC_VRT /\
  (USE = true -> pc_checksum_ok c') /\
  (forall a, keeps a -> ~ In a [RTC_CONTROL; RTC_FREQ_SELECT; RTC_VALID] ->
     (USE = true -> ~ In a [PC_CKS_LOC; PC_CKS_LOC + 1]) -> (power_lost c = true -> ~ In a clock_cells) ->
     c' a = if negb USE && (power_lost c || invalid) && clears a then 0 else c a) /\
  (power_lost c = true -> forall a, keeps a -> In a clock_cells -> c' a = clock_set c build_time a).
Proof using Hhw.
  intros Hl Hw. pose proof (cmos_init_spec s _ invalid Hl (holds_self s Hw)) as [W C]. cbv zeta.
  set (s' := cmos_init s false invalid) in *. set (i := init_cells invalid (cells s)) in *.
  assert (Hi : forall a, keeps a -> (USE = true -> ~ In a [PC_CKS_LOC; PC_CKS_LOC + 1]) -> cells s' a = i a).
  { intros a Ha Hn. rewrite C by done. destruct USE; [|done]. specialize (Hn eq_refl). cbn [In] in Hn.
    unfold put_checksum. rewrite !set_cell_other by (intros ->; apply Hn; auto). done. }
  split; [done|]. split; [rewrite Hi; [done|apply hw_control|by intros _ [|[|]]]|].
  split; [intros Kf; rewrite Hi; [done|done|by intros _ [|[|]]]|].
  split; [rewrite Hi; [done|apply (il_valid Hl)|by intros _ [|[|]]]|]. split; [|split].
  - intros HU. rewrite HU in C. apply (checksum_ok_ext _ _ _ _ _ (il_pc Hl) C).
    by apply (put_checksum_ok (keeps := keeps)); apply il_pc.
  - intros a Ha Hn Hp Hk. cbn [In] in Hn. rewrite Hi by done. apply init_cells_at; try done; intros ->; apply Hn; auto.
  - intros HL a Ha Hc. assert (Hr : Forall (fun a => a <> RTC_CONTROL /\ a <> RTC_FREQ_SELECT /\ a <> RTC_VALID /\
      a <> PC_CKS_LOC /\ a <> PC_CKS_LOC + 1) clock_cells) by (by repeat constructor).
    rewrite List.Forall_forall in Hr. destruct (Hr a Hc) as (N1 & N2 & N3 & N4 & N5).
    rewrite Hi by (done || (intros _ [E|[E|[]]]; congruence)). unfold i, init_cells.
    rewrite HL, !set_cell_other by done. apply clock_set_same. done.
Qed.
End Boot.

(** ** Concrete parts *)

(** Power is good; the boot byte says normal image, not tried yet; the rest is zero, which
    makes the checksum of cells 49 to 60 in cells 62 and 63 right. *)
Definition good_cells (a : Z) : Z := if a =? RTC_VALID then 0x80 else if a =? RTC_BOOT_BYTE then 1 else 0.
(** Power was lost. *)
Definition lost_cells (a : Z) : Z := if a =? RTC_VALID then 0 else 0x5a.

Lemma good_ram : ram_ok (ram_of good_cells).
Proof. split; [done|]. split; [by apply bytes_check; vm_compute|]. cbn. lia. Qed.
Lemma lost_ram : ram_ok (ram_of lost_cells).
Proof. split; [done|]. split; [by apply bytes_check; vm_compute|]. cbn. lia. Qed.

Definition ram_boots (max : Z) := run_boots (inb := ram_inb) (outb := ram_outb) 49 60 62 max false.

Lemma ram_boot_layout : boot_layout (keeps := ram_keeps) 49 60 62 3.
Proof.
  split; [split; unfold ram_keeps; lia|lia|lia|by unfold ram_keeps, RTC_VALID|by unfold ram_keeps, RTC_BOOT_BYTE| |lia].
  unfold RTC_BOOT_BYTE. lia.
Qed.

Lemma rtc_set_get_witness :
  exists s', rtc_get ram_inb ram_outb 1 (rtc_set ram_inb ram_outb (ram_of good_cells) (mk_time 56 34 12 31 12 2015 4)) =
    Some (mk_time 56 34 12 31 12 2015 4, s').
Proof.
  destruct (rtc_set_get (ram_of good_cells) (ram_cell (ram_of good_cells)) (mk_time 56 34 12 31 12 2015 4) 0) as (s' & E & _).
  - apply holds_self, good_ram.
  - unfold clock_kept, clock_cells. repeat (apply List.Forall_cons; [by split|]). constructor.
  - by unfold ram_keeps, RTC_FREQ_SELECT.
  - by vm_compute.
  - unfold time_fits. cbn. lia.
  - by exists s'.
Defined.

Lemma boot_choice_refines_witness :
  exists s', ram_boots 3 [Attempt; Attempt; Finished; Attempt] (ram_of good_cells) = Some ([true; true; true], s') /\
    ram_ok s' /\ attempts_of (ram_cell s' RTC_BOOT_BYTE) = mk_attempts true 1 /\
    forall x, ram_keeps x -> x <> RTC_BOOT_BYTE -> ram_cell s' x = ram_cell (ram_of good_cells) x.
Proof.
  pose proof (boot_choice_refines 49 60 62 3 false [Attempt; Attempt; Finished; Attempt] (ram_of good_cells)
    ram_boot_layout good_ram) as W.
  replace (run_spec _ _ _ _ _) with ([true; true; true], mk_attempts true 1) in W by (by vm_compute). exact W.
Defined.

Lemma failing_boots_fall_back_witness :
  (exists s', ram_boots 3 (repeat Attempt 5) (ram_of good_cells) = Some ([true; true; true; false; false], s')) /\
  (exists s', ram_boots 3 (repeat Attempt 5) (ram_of lost_cells) = Some ([false; false; false; false; false], s')).
Proof.
  pose proof (failing_boots_fall_back 49 60 62 3 false 5 (ram_of good_cells) ram_boot_layout good_ram) as [W1 _].
  pose proof (failing_boots_fall_back 49 60 62 3 false 5 (ram_of lost_cells) ram_boot_layout lost_ram) as [W2 _].
  cbv zeta in W1, W2.
  replace (cmos_usable _ _ _ _ && _) with true in W1 by (by vm_compute).
  replace (cmos_usable _ _ _ _ && _) with false in W2 by (by vm_compute). split; [exact W1|exact W2].
Defined.

Lemma post_log_reports_witness :
  let init := cmos_post_init ram_inb ram_outb 0x70 true in
  let code := cmos_post_code ram_inb ram_outb 0x70 in
  exists s', cmos_post_log ram_inb ram_outb 0x70 true true
      (init (post_log_extra ram_inb ram_outb 0x70 (fold_left code [0x10; 0x88; 0x39] (init (ram_of lost_cells))) 0x01020304)) =
    ([ELOG_TYPE_LAST_POST_CODE 0x39; ELOG_TYPE_POST_EXTRA 0x01020304], s') /\ ram_ok s'.
Proof.
  cbv zeta. apply (post_log_reports 0x70 true true [0x10; 0x88; 0x39] 0x01020304 (ram_of lost_cells)).
  - intros i Hi. unfold ram_keeps. lia.
  - apply lost_ram.
  - done.
  - by apply bytes_check; vm_compute.
  - lia.
Defined.

Lemma cmos_init_correct_witness :
  let s' := cmos_init ram_inb ram_outb false (mk_date 0x20 0x15 0x12 0x31 4) true 49 60 62 (ram_of lost_cells) false false in
  ram_cell s' RTC_CONTROL = RTC_24H /\ pc_checksum_ok (ram_cell s') /\ ram_cell s' 20 = 0x5a /\
  ram_cell s' RTC_CLK_MONTH = 0x12.
Proof.
  assert (Hl : init_layout (keeps := ram_keeps) 49 60 62).
  { split; [split|split|]; unfold ram_keeps, PC_CKS_RANGE_START, PC_CKS_RANGE_END, PC_CKS_LOC, RTC_VALID; lia. }
  destruct (cmos_init_correct 49 60 62 true (mk_date 0x20 0x15 0x12 0x31 4) (ram_of lost_cells) false Hl lost_ram)
    as (_ & E1 & _ & _ & E2 & E3 & E4). cbv zeta. split; [exact E1|]. split; [by apply E2|]. split.
  - rewrite E3; [by vm_compute|unfold ram_keeps; lia|by intros [|[|[|[]]]]|by intros _ [|[|[]]]|].
    intros _. by intros [|[|[|[|[|[|[|[|[]]]]]]]]].
  - transitivity (clock_set (ram_cell (ram_of lost_cells)) (build_time (mk_date 0x20 0x15 0x12 0x31 4)) RTC_CLK_MONTH).
    + apply E4; [vm_compute; reflexivity|by split|]. do 5 right. by left.
    + vm_compute. reflexivity.
Defined.
