(* ===== verification/IpChecksum.v ===== *)
(** * IP checksums ([src/lib/compute_ip_checksum.c])

    [unsigned long] has 32 bits and the machine is little endian, as the
    [union] in the source is read. *)

From S2P Require Import Prelude.

(** The loop: [i] is the index of the next byte. *)
Definition add_byte (sum i b : Z) : Z :=
  let v := if negb (Z.land i 1 =? 0) then u32 (Z.shiftl b 8) else b in
  let sum := u32 (sum + v) in
  if 0xffff <? sum then Z.land (u32 (sum + Z.shiftr sum 16)) 0xffff else sum.

Fixpoint sum_bytes (sum i : Z) (l : list Z) : Z :=
  match l with
  | [] => sum
  | b :: l' => sum_bytes (add_byte sum i b) (i + 1) l'
  end.

(** [bytes] are the [length] bytes at [addr]. *)
Definition compute_ip_checksum (bytes : list Z) : Z :=
  let sum := sum_bytes 0 0 bytes in
  let word := Z.lor (Z.land sum 0xff) (Z.shiftl (Z.land (Z.shiftr sum 8) 0xff) 8) in
  Z.land (Z.lnot word) 0xffff.

Definition add_ip_checksums (offset sum new : Z) : Z :=
  let sum := Z.land (bnot 32 sum) 0xffff in
  let new := Z.land (bnot 32 new) 0xffff in
  let new := if negb (Z.land offset 1 =? 0)
             then Z.lor (Z.land (Z.shiftr new 8) 0xff) (Z.land (u32 (Z.shiftl new 8)) 0xff00)
             else new in
  let checksum := u32 (sum + new) in
  let checksum := if 0xffff <? checksum then u32 (checksum - 0xffff) else checksum in
  Z.land (bnot 32 checksum) 0xffff.

(** ** One's complement sums *)

(** The 16-bit one's complement value of a sum: 0 only for 0. *)
Definition canon (n : Z) : Z := if n =? 0 then 0 else (n - 1) mod 65535 + 1.

Lemma canon_range n : 0 <= canon n <= 65535.
Proof. unfold canon. case_bool; [lia|]. pose proof (Z.mod_pos_bound (n - 1) 65535). lia. Qed.

Lemma canon_small n : 0 <= n <= 65535 -> canon n = n.
Proof. intros Hn. unfold canon. case_bool; bool_to_prop; [done|]. rewrite Z.mod_small; lia. Qed.

Lemma canon_shift n k : 0 < n -> 0 <= k -> canon (n + 65535 * k) = canon n.
Proof.
  intros Hn Hk. unfold canon. destruct (n =? 0) eqn:E1, (n + 65535 * k =? 0) eqn:E2; bool_to_prop; try lia.
  f_equal. replace (n + 65535 * k - 1) with (n - 1 + k * 65535) by lia. apply Z.mod_add. lia.
Qed.

Lemma canon_decomp n : 0 <= n -> exists k, 0 <= k /\ n = canon n + 65535 * k /\ (canon n = 0 -> n = 0).
Proof.
  intros Hn. unfold canon. destruct (n =? 0) eqn:E; bool_to_prop; [exists 0; lia|].
  exists ((n - 1) / 65535). pose proof (Z.div_mod (n - 1) 65535).
  pose proof (Z.mod_pos_bound (n - 1) 65535). pose proof (Z.div_pos (n - 1) 65535). lia.
Qed.

Lemma canon_add a b : 0 <= a -> 0 <= b -> canon (canon a + b) = canon (a + b).
Proof.
  intros Ha Hb. destruct (canon_decomp a Ha) as (k & Hk & E & H0).
  rewrite E at 2. destruct (Z.eq_dec (canon a + b) 0) as [H|H].
  - pose proof (canon_range a). assert (canon a = 0) by lia. rewrite H. replace k with 0 by lia.
    f_equal. lia.
  - pose proof (canon_range a). replace (canon a + 65535 * k + b) with (canon a + b + 65535 * k) by lia.
    by rewrite canon_shift by lia.
Qed.

Lemma canon_mul a c : 0 <= a -> 0 < c -> canon (canon a * c) = canon (a * c).
Proof.
  intros Ha Hc. destruct (canon_decomp a Ha) as (k & Hk & E & H0).
  rewrite E at 2. pose proof (canon_range a). destruct (Z.eq_dec (canon a) 0) as [H1|H1].
  - rewrite H1. by replace k with 0 by lia.
  - replace ((canon a + 65535 * k) * c) with (canon a * c + 65535 * (k * c)) by lia.
    by rewrite canon_shift by nia.
Qed.

(** The sum of the little-endian words, from index [i] on. *)
Fixpoint word_sum (i : Z) (l : list Z) : Z :=
  match l with
  | [] => 0
  | b :: l' => (if Z.odd i then 256 * b else b) + word_sum (i + 1) l'
  end.

Lemma word_sum_nonneg l : Forall is_byte l -> forall i, 0 <= word_sum i l.
Proof.
  induction 1 as [|b l Hb _ IH]; intros i; simpl; [lia|]. specialize (IH (i + 1)).
  unfold is_byte in Hb. case_bool; lia.
Qed.

Lemma land_1_odd i : negb (Z.land i 1 =? 0) = Z.odd i.
Proof.
  change 1 with (2 ^ 1 - 1) at 1. rewrite land_low_mask by lia. change (2 ^ 1) with 2.
  rewrite Zmod_odd. by destruct (Z.odd i).
Qed.

Lemma add_byte_spec s i b : 0 <= s <= 65535 -> is_byte b ->
  add_byte s i b = canon (s + if Z.odd i then 256 * b else b).
Proof.
  intros Hs Hb. unfold is_byte in Hb. unfold add_byte. rewrite land_1_odd.
  assert (Hv : (if Z.odd i then u32 (Z.shiftl b 8) else b) = if Z.odd i then 256 * b else b).
  { case_bool; [|done]. rewrite Z.shiftl_mul_pow2 by lia. rewrite u32_small; lia. }
  rewrite Hv. set (v := if Z.odd i then 256 * b else b).
  assert (0 <= v <= 65280) by (unfold v; case_bool; lia).
  rewrite u32_small by lia. case_bool; bool_to_prop; [|by rewrite canon_small by lia].
  rewrite Z.shiftr_div_pow2 by lia. assert ((s + v) / 2 ^ 16 = 1) as -> by
    (symmetry; apply Z.div_unique with (r := s + v - 65536); lia).
  rewrite u32_small by lia. change 0xffff with (2 ^ 16 - 1) at 1. rewrite land_low_mask by lia.
  replace (s + v) with ((s + v - 65535) + 65535 * 1) by lia.
  rewrite canon_shift, canon_small by lia.
  replace (s + v - 65535 + 65535 * 1 + 1) with (s + v - 65535 + 1 * 2 ^ 16) by lia.
  rewrite Z.mod_add by lia. apply Z.mod_small. lia.
Qed.

Lemma sum_bytes_spec l : Forall is_byte l -> forall s i, 0 <= s <= 65535 ->
  sum_bytes s i l = canon (s + word_sum i l).
Proof.
  induction 1 as [|b l Hb Hl IH]; intros s i Hs; simpl; [by rewrite Z.add_0_r, canon_small|].
  rewrite add_byte_spec by done. set (v := if Z.odd i then 256 * b else b).
  assert (0 <= v) by (unfold v, is_byte in *; case_bool; lia).
  pose proof (word_sum_nonneg l Hl (i + 1)).
  rewrite IH by apply canon_range. rewrite canon_add by lia. f_equal. lia.
Qed.

Lemma low16 x : 0 <= x <= 65535 ->
  Z.land (bnot 32 x) 0xffff = 65535 - x /\ Z.land (Z.lnot x) 0xffff = 65535 - x.
Proof.
  intros Hx. unfold bnot, wrap. change 0xffff with (2 ^ 16 - 1). rewrite !land_low_mask by lia.
  unfold Z.lnot. rewrite <- Z.sub_1_r.
  assert (E : (- x - 1) mod 2 ^ 16 = 2 ^ 16 - 1 - x).
  { symmetry. apply Z.mod_unique with (q := -1); lia. }
  split; [|done]. rewrite <- E. symmetry. apply Znumtheory.Zmod_div_mod; [lia|lia|]. by exists (2 ^ 16).
Qed.

(** A 16-bit value from its bytes. *)
Lemma bytes_of_word x : 0 <= x <= 65535 ->
  Z.lor (Z.land x 0xff) (Z.shiftl (Z.land (Z.shiftr x 8) 0xff) 8) = x.
Proof.
  intros Hx. rewrite Z.lor_comm, lor_add with (k := 8).
  - change 0xff with (2 ^ 8 - 1). rewrite !land_low_mask, Z.shiftr_div_pow2, Z.shiftl_mul_pow2 by lia.
    pose proof (Z.div_mod x (2 ^ 8) ltac:(lia)). pose proof (Z.mod_pos_bound x (2 ^ 8) ltac:(lia)).
    rewrite (Z.mod_small (x / 2 ^ 8)) by lia. lia.
  - lia.
  - change 0xff with (2 ^ 8 - 1). rewrite land_low_mask by lia. apply Z.mod_pos_bound. lia.
  - rewrite Z.shiftl_mul_pow2 by lia. by eexists.
Qed.

Lemma compute_spec l : Forall is_byte l -> compute_ip_checksum l = 65535 - canon (word_sum 0 l).
Proof.
  intros Hl. unfold compute_ip_checksum. rewrite sum_bytes_spec by (done || lia). rewrite Z.add_0_l.
  cbv zeta. rewrite bytes_of_word by apply canon_range. apply low16, canon_range.
Qed.

(** Swapping the bytes multiplies by 256. *)
Lemma swap_spec x : 0 <= x <= 65535 ->
  Z.lor (Z.land (Z.shiftr x 8) 0xff) (Z.land (u32 (Z.shiftl x 8)) 0xff00) = canon (256 * x).
Proof.
  intros Hx. rewrite Z.shiftl_mul_pow2 by lia. rewrite u32_small by lia.
  pose proof (Z.div_mod x 256 ltac:(lia)). pose proof (Z.mod_pos_bound x 256 ltac:(lia)).
  assert (Hhi : Z.land (x * 2 ^ 8) 0xff00 = x mod 256 * 256).
  { change 0xff00 with (Z.shiftl (2 ^ 8 - 1) 8). rewrite <- Z.shiftl_mul_pow2, <- Z.shiftl_land by lia.
    rewrite land_low_mask, Z.shiftl_mul_pow2 by lia. done. }
  assert (Hlo : Z.land (Z.shiftr x 8) 0xff = x / 256).
  { change 0xff with (2 ^ 8 - 1). rewrite land_low_mask, Z.shiftr_div_pow2 by lia.
    change (2 ^ 8) with 256. rewrite Z.mod_small; lia. }
  rewrite Hlo, Hhi, Z.lor_comm, (lor_add _ _ 8); [|lia|lia|by exists (x mod 256)].
  destruct (Z.eq_dec x 0) as [->|Hne]; [done|].
  rewrite <- (canon_small (x mod 256 * 256 + x / 256)) by lia.
  rewrite <- (canon_shift _ (x / 256)) by lia. f_equal. lia.
Qed.

Lemma word_sum_app a : forall b i,
  word_sum i (a ++ b) = word_sum i a + word_sum (i + Z.of_nat (length a)) b.
Proof.
  induction a as [|x a IH]; intros b i; cbn [word_sum app length]; [by rewrite Z.add_0_r|].
  rewrite IH. replace (i + Z.of_nat (S (length a))) with (i + 1 + Z.of_nat (length a)) by lia. lia.
Qed.

Lemma word_sum_parity l : forall i j, Z.odd i = Z.odd j -> word_sum i l = word_sum j l.
Proof.
  induction l as [|b l IH]; intros i j E; [done|]. simpl. rewrite E.
  rewrite (IH (i + 1) (j + 1)); [done|]. by rewrite !Z.odd_add, E.
Qed.

Lemma word_sum_swap l : Forall is_byte l -> canon (256 * word_sum 0 l) = canon (word_sum 1 l).
Proof.
  intros Hl.
  assert (H : forall i, canon (256 * word_sum i l) = canon (word_sum (i + 1) l)); [|apply (H 0)].
  induction Hl as [|b l Hb Hl IH]; intros i; [done|]. simpl. specialize (IH (i + 1)).
  pose proof (word_sum_nonneg l Hl (i + 1)). pose proof (word_sum_nonneg l Hl (i + 1 + 1)).
  unfold is_byte in Hb. rewrite Z.odd_add. change (Z.odd 1) with true. rewrite xorb_true_r.
  assert (Ht : forall u v w, 0 <= u -> 0 <= v -> 0 <= w -> canon v = canon w ->
    canon (u + v) = canon (u + w)).
  { intros u v w Hu Hv Hw E. rewrite (Z.add_comm u v), (Z.add_comm u w), <- (canon_add v), E by done.
    by apply canon_add. }
  destruct (Z.odd i); cbn [negb].
  - replace (256 * (256 * b + word_sum (i + 1) l)) with (b + 65535 * b + 256 * word_sum (i + 1) l) by lia.
    destruct (Z.eq_dec b 0) as [->|Hb0]; [by rewrite Z.mul_0_r, !Z.add_0_l, IH|].
    replace (b + 65535 * b + 256 * word_sum (i + 1) l)
      with (b + 256 * word_sum (i + 1) l + 65535 * b) by lia.
    rewrite canon_shift by lia. apply Ht; lia || done.
  - rewrite Z.mul_add_distr_l. apply Ht; lia || done.
Qed.

(** The checksum is the complement of the one's complement sum of the
    bytes as little-endian words, and sums of parts add up: combining the
    checksums of two pieces with [add_ip_checksums], at the offset where the
    second begins, gives the checksum of the whole. *)
Theorem ip_checksum_correct a b : Forall is_byte a -> Forall is_byte b ->
  compute_ip_checksum a = 65535 - canon (word_sum 0 a) /\
  (compute_ip_checksum a = 65535 <-> Forall (fun x => x = 0) a) /\
  add_ip_checksums (Z.of_nat (length a)) (compute_ip_checksum a) (compute_ip_checksum b) =
    compute_ip_checksum (a ++ b).
Proof.
  intros Ha Hb. assert (Hab : Forall is_byte (a ++ b)) by (by apply Forall_app).
  rewrite !compute_spec by done. split; [done|].
  pose proof (canon_range (word_sum 0 a)) as Ra. pose proof (canon_range (word_sum 0 b)) as Rb.
  pose proof (word_sum_nonneg a Ha 0) as Na. pose proof (word_sum_nonneg b Hb 0) as Nb. split.
  - transitivity (word_sum 0 a = 0).
    + destruct (canon_decomp (word_sum 0 a) Na) as (k & Hk & E & H0). split; [intros; apply H0; lia|].
      intros ->. done.
    + generalize 0 at 1 as i. clear -Ha. induction Ha as [|x l Hx Hl IH]; intros i; simpl; [done|].
      pose proof (word_sum_nonneg l Hl (i + 1)). unfold is_byte in Hx. rewrite Forall_cons, <- (IH (i + 1)).
      case_bool; lia.
  - unfold add_ip_checksums. 
    rewrite (proj1 (low16 (65535 - canon (word_sum 0 a)) ltac:(lia))).
    rewrite (proj1 (low16 (65535 - canon (word_sum 0 b)) ltac:(lia))).
    replace (65535 - (65535 - canon (word_sum 0 a))) with (canon (word_sum 0 a)) by lia.
    replace (65535 - (65535 - canon (word_sum 0 b))) with (canon (word_sum 0 b)) by lia.
    rewrite land_1_odd. cbv zeta.
    assert (Hnew : (if Z.odd (Z.of_nat (length a))
      then Z.lor (Z.land (Z.shiftr (canon (word_sum 0 b)) 8) 0xff)
             (Z.land (u32 (Z.shiftl (canon (word_sum 0 b)) 8)) 0xff00)
      else canon (word_sum 0 b)) = canon (word_sum (Z.of_nat (length a)) b)).
    { destruct (Z.odd (Z.of_nat (length a))) eqn:E.
      - rewrite swap_spec by done. rewrite Z.mul_comm, canon_mul, Z.mul_comm by lia.
        rewrite word_sum_swap by done. f_equal. by apply word_sum_parity.
      - f_equal. by apply word_sum_parity. }
    rewrite Hnew. cbv zeta. set (n := word_sum (Z.of_nat (length a)) b).
    pose proof (word_sum_nonneg b Hb (Z.of_nat (length a))) as Nn. fold n in Nn.
    pose proof (canon_range n) as Rn.
    rewrite (u32_small (canon (word_sum 0 a) + canon n)) by lia.
    assert (Hsum : (if 0xffff <? canon (word_sum 0 a) + canon n
      then u32 (canon (word_sum 0 a) + canon n - 0xffff) else canon (word_sum 0 a) + canon n)
      = canon (word_sum 0 (a ++ b))).
    { rewrite word_sum_app, Z.add_0_l. fold n.
      assert (E : canon (canon (word_sum 0 a) + canon n) = canon (word_sum 0 a + n)).
      { rewrite Z.add_comm, canon_add, Z.add_comm by lia. by apply canon_add. }
      rewrite <- E. revert Ra Rn. generalize (canon (word_sum 0 a)), (canon n). intros x y Rx Ry.
      case_bool; bool_to_prop; [|by rewrite canon_small by lia].
      rewrite u32_small by lia. replace (x + y) with (x + y - 65535 + 65535 * 1) at 2 by lia.
      by rewrite canon_shift, canon_small by lia. }
    rewrite Hsum. apply low16, canon_range.
Qed.

(** RFC 1071's example, and its two halves around an odd offset. *)
Lemma ip_checksum_witness :
  compute_ip_checksum [0x00; 0x01; 0xf2; 0x03; 0xf4; 0xf5; 0xf6; 0xf7] = 0x0d22 /\
  add_ip_checksums 3 (compute_ip_checksum [0x00; 0x01; 0xf2])
    (compute_ip_checksum [0x03; 0xf4; 0xf5; 0xf6; 0xf7]) = 0x0d22.
Proof.
  split; [vm_compute; reflexivity|].
  destruct (ip_checksum_correct [0x00; 0x01; 0xf2] [0x03; 0xf4; 0xf5; 0xf6; 0xf7])
    as (_ & _ & H).
  - repeat constructor; discriminate.
  - repeat constructor; discriminate.
  - cbn [length] in H. change (Z.of_nat 3) with 3 in H. rewrite H. vm_compute. reflexivity.
Defined.
