(* ===== verification/Base64.v ===== *)
(** * Base64 ([src/lib/b64_decode.c])

    The input is the list of its bytes; the output buffer is the list of the
    bytes written to it. *)

From S2P Require Import Prelude.

(** The translation table, as character codes. *)
Definition cd64 : list Z :=
  [124; 36; 36; 36; 125; 114; 115; 116; 117; 118; 119; 120; 121; 122; 123; 36; 36; 36; 36;
   36; 36; 36; 62; 63; 64; 65; 66; 67; 68; 69; 70; 71; 72; 73; 74; 75; 76; 77; 78; 79; 80;
   81; 82; 83; 84; 85; 86; 87; 36; 36; 36; 36; 36; 36; 88; 89; 90; 91; 92; 93; 94; 95; 96;
   97; 98; 99; 100; 101; 102; 103; 104; 105; 106; 107; 108; 109; 110; 111; 112; 113].

Definition isalnum (c : Z) : bool :=
  ((97 <=? c) && (c <=? 122)) || ((65 <=? c) && (c <=? 90)) || ((48 <=? c) && (c <=? 57)).

(** The next character and the rest of the input: 0 at the end, -1 for a
    character that does not belong there. *)
Fixpoint get_next_char (input : list Z) : Z * list Z :=
  match input with
  | [] => (0, [])
  | c :: rest =>
      if (c =? 61) || (c =? 0x0a) || (c =? 0x0d) then get_next_char rest
      else if negb (isalnum c) && negb (c =? 43) && negb (c =? 47) then (-1, rest)
      else (c, rest)
  end.

(** One six-bit value: the new [interim] and [bit_count], and the bytes output. *)
Definition add_sextet (interim bit_count v : Z) : Z * Z * list Z :=
  if 2 <=? bit_count then
    let remaining_bits := 8 - bit_count in
    let interim := u32 (Z.shiftl interim remaining_bits) in
    let interim := Z.lor interim (Z.shiftr v (6 - remaining_bits)) in
    (v, bit_count - 2, [Z.land interim 0xff])
  else (Z.lor (u32 (Z.shiftl interim 6)) v, bit_count + 6, []).

(** Each round but the last takes a character; [fuel] is the length plus one. *)
Fixpoint decode_loop (fuel : nat) (input : list Z) (interim bit_count : Z) (output : list Z)
    : option (Z * list Z) :=
  match fuel with
  | O => None
  | S fuel' =>
      let '(v, rest) := get_next_char input in
      if v <? 0 then Some (0, output)
      else if v =? 0 then Some (Z.of_nat (length output), output)
      else
        let v := nth (Z.to_nat (v - 43)) cd64 0 - 62 in
        let '(interim, bit_count, out) := add_sextet interim bit_count v in
        decode_loop fuel' rest interim bit_count (output ++ out)
  end.

(** The size returned and the bytes written. *)
Definition b64_decode (input : list Z) : option (Z * list Z) :=
  decode_loop (S (length input)) input 0 0 [].

(** ** The encoding *)

Definition alphabet : list Z := map Z.of_nat (seq 65 26 ++ seq 97 26 ++ seq 48 10 ++ [43; 47])%nat.
Definition letter (v : Z) : Z := nth (Z.to_nat v) alphabet 0.

(** Three bytes are four values; the last one or two bytes are two or three. *)
Fixpoint sextets (l : list Z) : list Z :=
  match l with
  | a :: b :: c :: l' =>
      a / 4 :: a mod 4 * 16 + b / 16 :: b mod 16 * 4 + c / 64 :: c mod 64 :: sextets l'
  | [a; b] => [a / 4; a mod 4 * 16 + b / 16; b mod 16 * 4]
  | [a] => [a / 4; a mod 4 * 16]
  | [] => []
  end.

(** Padding and line breaks. *)
Definition ignored (c : Z) : bool := (c =? 61) || (c =? 0x0a) || (c =? 0x0d).
Definition valid (c : Z) : bool := isalnum c || (c =? 43) || (c =? 47).

Lemma letter_facts v : 0 <= v < 64 ->
  valid (letter v) = true /\ ignored (letter v) = false /\
  nth (Z.to_nat (letter v - 43)) cd64 0 - 62 = v.
Proof.
  intros Hv. assert (H : all_below 64 (fun v => valid (letter v) && negb (ignored (letter v)) &&
    (nth (Z.to_nat (letter v - 43)) cd64 0 - 62 =? v)) = true) by (by vm_compute).
  apply (all_below_spec 64 _ v) in H; [|done]. cbv beta in H. bool_to_prop. auto.
Qed.

(** Every character accepted has a value of six bits, inside the table. *)
Lemma valid_value c : is_byte c -> valid c = true ->
  (Z.to_nat (c - 43) < length cd64)%nat /\ 43 <= c /\
  0 <= nth (Z.to_nat (c - 43)) cd64 0 - 62 < 64.
Proof.
  intros Hc Hv. assert (H : all_below 256 (fun c => negb (valid c) ||
    ((c - 43 <? 80) && (43 <=? c) && (0 <=? nth (Z.to_nat (c - 43)) cd64 0 - 62) &&
     (nth (Z.to_nat (c - 43)) cd64 0 - 62 <? 64))) = true) by (by vm_compute).
  apply (all_below_spec 256 _ c) in H; [|exact Hc]. cbv beta in H. rewrite Hv in H. cbn [negb orb] in H.
  bool_to_prop. change (length cd64) with 80%nat. lia.
Qed.

(** ** Decoding as a walk over values *)

Fixpoint run (vs : list Z) (interim bit_count : Z) : list Z :=
  match vs with
  | [] => []
  | v :: vs' => let '(i, b, out) := add_sextet interim bit_count v in out ++ run vs' i b
  end.

Definition value (c : Z) : Z := nth (Z.to_nat (c - 43)) cd64 0 - 62.
Definition significant (l : list Z) : list Z := List.filter (fun c => negb (ignored c)) l.

Lemma decode_loop_ok fuel : forall input interim bit_count output,
  (length input < fuel)%nat -> Forall is_byte input -> forallb valid (significant input) = true ->
  decode_loop fuel input interim bit_count output =
  let out := output ++ run (map value (significant input)) interim bit_count in
  Some (Z.of_nat (length out), out).
Proof.
  induction fuel as [|fuel IH]; intros input interim bit_count output Hf Hb Hv; [lia|].
  cbn [decode_loop]. revert Hf Hb Hv.
  induction input as [|c input IHin]; intros Hf Hb Hv; [simpl; by rewrite app_nil_r|].
  inversion Hb as [|? ? Hc Hb']; subst. cbn [get_next_char significant List.filter] in *.
  destruct (ignored c) eqn:Ei; unfold ignored in Ei; rewrite Ei; cbn [negb] in *.
  - apply IHin; [simpl in Hf; lia|done|done].
  - cbn [forallb] in Hv. apply andb_true_iff in Hv as [Hvc Hv].
    destruct (valid_value c Hc Hvc) as (_ & H43 & Hval).
    unfold valid in Hvc.
    assert (negb (isalnum c) && negb (c =? 43) && negb (c =? 47) = false) as ->.
    { destruct (isalnum c), (c =? 43), (c =? 47); done. }
    destruct (c <? 0) eqn:E1; bool_to_prop; [lia|]. destruct (c =? 0) eqn:E2; bool_to_prop; [lia|].
    cbn [map run]. fold (value c).
    destruct (add_sextet interim bit_count (value c)) as [[i b] out].
    rewrite IH; [|simpl in Hf; lia|done|done]. cbv zeta. by rewrite app_assoc.
Qed.

(** Where nothing may be: the size is 0. *)
Lemma decode_loop_bad fuel : forall input interim bit_count output,
  (length input < fuel)%nat -> Forall is_byte input -> forallb valid (significant input) = false ->
  exists out, decode_loop fuel input interim bit_count output = Some (0, out).
Proof.
  induction fuel as [|fuel IH]; intros input interim bit_count output Hf Hb Hv; [lia|].
  cbn [decode_loop]. revert Hf Hb Hv.
  induction input as [|c input IHin]; intros Hf Hb Hv; [done|].
  inversion Hb as [|? ? Hc Hb']; subst. cbn [get_next_char significant List.filter] in *.
  destruct (ignored c) eqn:Ei; unfold ignored in Ei; rewrite Ei; cbn [negb] in *.
  - apply IHin; [simpl in Hf; lia|done|done].
  - cbn [forallb] in Hv. unfold is_byte in Hc.
    destruct (negb (isalnum c) && negb (c =? 43) && negb (c =? 47)) eqn:E0; [by eexists|].
    assert (Hvc : valid c = true).
    { unfold valid. destruct (isalnum c), (c =? 43), (c =? 47); done. }
    rewrite Hvc in Hv. destruct (valid_value c Hc Hvc) as (_ & H43 & _).
    destruct (c <? 0) eqn:E1; bool_to_prop; [lia|]. destruct (c =? 0) eqn:E2; bool_to_prop; [lia|].
    destruct (add_sextet _ _ _) as [[i b] out]. apply IH; [simpl in Hf; lia|done|done].
Qed.

(** The state machine on values. *)
Lemma add_0 h v : 0 <= h < 64 -> 0 <= v < 64 -> add_sextet h 0 v = (h * 64 + v, 6, []).
Proof.
  intros Hh Hv. unfold add_sextet. cbn [Z.leb Z.compare Z.add]. rewrite Z.shiftl_mul_pow2 by lia.
  rewrite u32_small by lia. rewrite (lor_add _ _ 6) by (lia || by eexists). done.
Qed.

Lemma add_k i k v : 0 <= i < 4096 -> 2 <= k <= 6 -> 0 <= v < 64 ->
  add_sextet i k v = (v, k - 2, [(i * 2 ^ (8 - k) + v / 2 ^ (k - 2)) mod 256]).
Proof.
  intros Hi Hk Hv. unfold add_sextet. destruct (2 <=? k) eqn:E; bool_to_prop; [|lia].
  rewrite Z.shiftl_mul_pow2 by lia. pose proof (pow2_le_pow2 (8 - k) 6 ltac:(lia)).
  rewrite u32_small by nia. rewrite Z.shiftr_div_pow2 by lia.
  replace (6 - (8 - k)) with (k - 2) by lia.
  pose proof (Z.pow_pos_nonneg 2 (k - 2) ltac:(lia) ltac:(lia)).
  rewrite (lor_add _ _ (8 - k)).
  - change 0xff with (2 ^ 8 - 1). by rewrite land_low_mask by lia.
  - lia.
  - split; [apply Z.div_pos; lia|]. apply Z.div_lt_upper_bound; [lia|].
    rewrite <- Z.pow_add_r by lia. replace (k - 2 + (8 - k)) with 6 by lia. lia.
  - by exists i.
Qed.

Local Ltac Zify.zify_post_hook ::= Z.to_euclidean_division_equations.

Lemma run_0 h v vs : 0 <= h < 64 -> 0 <= v < 64 -> run (v :: vs) h 0 = run vs (h * 64 + v) 6.
Proof. intros. cbn [run]. by rewrite add_0. Qed.

Lemma run_k i k v vs : 0 <= i < 4096 -> 2 <= k <= 6 -> 0 <= v < 64 ->
  run (v :: vs) i k = (i * 2 ^ (8 - k) + v / 2 ^ (k - 2)) mod 256 :: run vs v (k - 2).
Proof. intros. cbn [run]. by rewrite add_k. Qed.

Lemma first_byte h a s : is_byte a -> 0 <= s < 16 ->
  ((h * 64 + a / 4) * 2 ^ (8 - 6) + (a mod 4 * 16 + s) / 2 ^ (6 - 2)) mod 256 = a.
Proof.
  unfold is_byte. intros Ha Hs. change (2 ^ (8 - 6)) with 4. change (2 ^ (6 - 2)) with 16.
  rewrite Z.div_add_l by lia. rewrite (Z.div_small s) by lia.
  replace ((h * 64 + a / 4) * 4 + (a mod 4 + 0)) with (a + h * 256) by lia.
  rewrite Z.mod_add by lia. by apply Z.mod_small.
Qed.

Lemma second_byte a b s : is_byte b -> 0 <= s < 4 ->
  ((a * 16 + b / 16) * 2 ^ (8 - 4) + (b mod 16 * 4 + s) / 2 ^ (4 - 2)) mod 256 = b.
Proof.
  unfold is_byte. intros Hb Hs. change (2 ^ (8 - 4)) with 16. change (2 ^ (4 - 2)) with 4.
  rewrite Z.div_add_l by lia. rewrite (Z.div_small s) by lia.
  replace ((a * 16 + b / 16) * 16 + (b mod 16 + 0)) with (b + a * 256) by lia.
  rewrite Z.mod_add by lia. by apply Z.mod_small.
Qed.

Lemma third_byte b c : is_byte c ->
  ((b * 4 + c / 64) * 2 ^ (8 - 2) + c mod 64 / 2 ^ (2 - 2)) mod 256 = c.
Proof.
  unfold is_byte. intros Hc. change (2 ^ (8 - 2)) with 64. change (2 ^ (2 - 2)) with 1.
  rewrite Z.div_1_r. replace ((b * 4 + c / 64) * 64 + c mod 64) with (c + b * 256) by lia.
  rewrite Z.mod_add by lia. by apply Z.mod_small.
Qed.

Lemma sextets_step a b h s vs : is_byte a -> 0 <= h < 64 -> 0 <= s < 16 -> b = a mod 4 * 16 + s ->
  run (a / 4 :: b :: vs) h 0 = a :: run vs b 4.
Proof.
  intros Ha Hh Hs ->. pose proof Ha as Ha'. unfold is_byte in Ha'.
  rewrite run_0, run_k by lia.
  by rewrite first_byte.
Qed.

(** Decoding the values of an encoding gives the bytes back. *)
Lemma run_sextets n : forall l h, (length l <= n)%nat -> Forall is_byte l -> 0 <= h < 64 ->
  run (sextets l) h 0 = l.
Proof.
  induction n as [|n IH]; intros l h Hn Hl Hh; [by destruct l; [|simpl in Hn; lia]|].
  destruct l as [|a [|b [|c l]]]; [done|..]; repeat (apply Forall_cons in Hl as [? Hl]); cbn [sextets].
  - by rewrite (sextets_step a (a mod 4 * 16) h 0) by (done || lia).
  - pose proof (conj H H0) as Hab. unfold is_byte in Hab.
    rewrite (sextets_step a _ h (b / 16)) by (done || lia). f_equal.
    rewrite run_k by lia.
    rewrite <- (Z.add_0_r (b mod 16 * 4)). by rewrite second_byte.
  - pose proof (conj H (conj H0 H1)) as Habc. unfold is_byte in Habc.
    rewrite (sextets_step a _ h (b / 16)) by (done || lia). f_equal.
    rewrite run_k by lia.
    rewrite second_byte by (done || lia). f_equal.
    change (4 - 2) with 2. rewrite run_k by lia.
    rewrite third_byte by done. change (2 - 2) with 0. f_equal.
    apply IH; [simpl in Hn; lia|done|lia].
Qed.

Lemma sextets_range n : forall l, (length l <= n)%nat -> Forall is_byte l ->
  Forall (fun v => 0 <= v < 64) (sextets l).
Proof.
  unfold is_byte. induction n as [|n IH]; intros l Hn Hl; [by destruct l; [|simpl in Hn; lia]|].
  destruct l as [|a [|b [|c l]]]; [done|..]; repeat (apply Forall_cons in Hl as [? Hl]); cbn [sextets];
    repeat (apply Forall_cons; split; [lia|]); try constructor.
  apply IH; [simpl in Hn; lia|done].
Qed.

Lemma letters_valid vs : Forall (fun v => 0 <= v < 64) vs ->
  forallb valid (map letter vs) = true /\ map value (map letter vs) = vs.
Proof.
  induction 1 as [|v vs Hv _ [IH1 IH2]]; [done|]. destruct (letter_facts v Hv) as (H1 & _ & H3).
  cbn [map forallb]. rewrite H1, IH1, IH2. split; [done|]. f_equal. exact H3.
Qed.

(** The bytes output are six bits per value, rounded down to bytes. *)
Lemma run_length vs : forall i k, Forall (fun v => 0 <= v < 64) vs -> k ∈ [0; 2; 4; 6] ->
  Z.of_nat (length (run vs i k)) = (6 * Z.of_nat (length vs) + k) / 8.
Proof.
  induction vs as [|v vs IH]; intros i k Hvs Hk.
  { apply list_elem_of_In in Hk. simpl in Hk. cbn [run length]. lia. }
  apply Forall_cons in Hvs as [Hv Hvs]. cbn [run]. unfold add_sextet.
  apply list_elem_of_In in Hk. simpl in Hk.
  destruct (2 <=? k) eqn:E; bool_to_prop; rewrite length_app, Nat2Z.inj_add, IH; try done;
    try (apply list_elem_of_In; simpl; lia); cbn [length]; lia.
Qed.

(** Base64 decoding inverts the encoding: a stream whose characters other
    than [=] and line breaks spell the encoding of a byte list, with padding
    and line breaks anywhere, decodes to that list and its length.  Any
    stream of base64 characters decodes to six bits per character, rounded down
    to whole bytes; a stream with any other character has size 0. *)
Theorem b64_decode_correct (input : list Z) (Hin : Forall is_byte input) :
  (forall l, Forall is_byte l -> significant input = map letter (sextets l) ->
     b64_decode input = Some (Z.of_nat (length l), l)) /\
  (forallb valid (significant input) = true ->
     exists out, b64_decode input = Some (6 * Z.of_nat (length (significant input)) / 8, out) /\
       Z.of_nat (length out) = 6 * Z.of_nat (length (significant input)) / 8) /\
  (forallb valid (significant input) = false -> exists out, b64_decode input = Some (0, out)).
Proof.
  unfold b64_decode. split; [|split].
  - intros l Hl E. pose proof (sextets_range _ l (le_n _) Hl) as Hr.
    destruct (letters_valid _ Hr) as [Hv Hm].
    rewrite decode_loop_ok by (lia || done || by rewrite E). cbv zeta.
    by rewrite E, Hm, (run_sextets _ l 0 (le_n _) Hl) by lia.
  - intros Hv. rewrite decode_loop_ok by (lia || done). cbv zeta. cbn [app].
    assert (E : Z.of_nat (length (run (map value (significant input)) 0 0)) =
                6 * Z.of_nat (length (significant input)) / 8).
    { rewrite run_length, length_map, Z.add_0_r; [done| |apply list_elem_of_here].
      apply List.Forall_forall. intros v Hi. apply in_map_iff in Hi as (c & <- & Hi).
      rewrite forallb_forall in Hv. pose proof (Hv _ Hi). apply List.filter_In in Hi as [Hi _].
      rewrite List.Forall_forall in Hin. by apply valid_value; [apply Hin|]. }
    eexists. by rewrite E.
  - apply decode_loop_bad; [lia|done].
Qed.

(** ["TWFu=\nTQ=="] is ["ManM"]. *)
Definition man_text : list Z := [84; 87; 70; 117; 61; 10; 84; 81; 61; 61].

Lemma b64_decode_witness :
  b64_decode man_text = Some (4, [77; 97; 110; 77]) /\
  exists out, b64_decode [84; 36] = Some (0, out).
Proof.
  assert (H1 : Forall is_byte man_text) by (repeat constructor; lia).
  assert (H2 : Forall is_byte [84; 36]) by (repeat constructor; lia).
  split.
  - destruct (b64_decode_correct man_text H1) as [H _].
    apply (H [77; 97; 110; 77]); [repeat constructor; lia|reflexivity].
  - apply (b64_decode_correct [84; 36] H2). reflexivity.
Defined.
