(* ===== verification/Elog.v ===== *)
(** * The event log: [src/drivers/elog/elog.c]

    A log of events in a region of the flash, mirrored in memory.  Events are added to the
    mirror and then brought to the flash; when the log is nearly full its oldest events are
    removed and the region is erased and written anew.  The static variables are the record
    [elog]; what the functions change is a [world]: memory with the drivers' state, and the
    static variables. *)

From S2P Require Import Prelude Region Bytes Mapped Fmap Rtc Cmos CbfsLoad Memory.

(** [src/include/elog.h], [elog_internal.h] *)
Definition MAX_EVENT_SIZE : Z := 0x7f.
Definition ELOG_TYPE_EOL : Z := 0xff.
Definition ELOG_TYPE_LOG_CLEAR : Z := 0x16.
Definition ELOG_TYPE_BOOT : Z := 0x17.
Definition ELOG_TYPE_WAKE_SOURCE : Z := 0x9f.
(** The events of [cmos_post_log]. *)
Definition ELOG_LAST_POST_CODE : Z := 0xa3.
Definition ELOG_POST_EXTRA : Z := 0xa6.
Definition ELOG_SIGNATURE : Z := 0x474f4c45.
Definition ELOG_VERSION : Z := 1.
Definition ELOG_MIN_AVAILABLE_ENTRIES : Z := 2.
Definition ELOG_SHRINK_PERCENTAGE : Z := 25.
(** [struct elog_header]: magic, version, header_size, reserved; [struct event_header]:
    type, length, year, month, day, hour, minute, second. *)
Definition sizeof_elog_header : Z := 8.
Definition sizeof_event_header : Z := 8.
Definition length_offset : Z := 1.
Definition NV_NEEDS_ERASE : Z := 0xffffffff.
(** "RW_ELOG" *)
Definition elog_area : list Z := [82; 87; 95; 69; 76; 79; 71].

Inductive elog_status := ELOG_UNINITIALIZED | ELOG_INITIALIZED | ELOG_BROKEN.

(** The static variables. *)
Record elog := mk_elog
  { full_threshold : Z; shrink_size : Z; mirror_last_write : Z; nv_last_write : Z;
    nv_dev : region_device; mirror_dev : region_device; elog_initialized : elog_status }.

Definition with_threshold (f sh : Z) (e : elog) : elog :=
  mk_elog f sh (mirror_last_write e) (nv_last_write e) (nv_dev e) (mirror_dev e) (elog_initialized e).
Definition with_mirror_write (x : Z) (e : elog) : elog :=
  mk_elog (full_threshold e) (shrink_size e) x (nv_last_write e) (nv_dev e) (mirror_dev e) (elog_initialized e).
Definition with_nv_write (x : Z) (e : elog) : elog :=
  mk_elog (full_threshold e) (shrink_size e) (mirror_last_write e) x (nv_dev e) (mirror_dev e) (elog_initialized e).
Definition with_nv_dev (d : region_device) (e : elog) : elog :=
  mk_elog (full_threshold e) (shrink_size e) (mirror_last_write e) (nv_last_write e) d (mirror_dev e) (elog_initialized e).
Definition with_mirror_dev (d : region_device) (e : elog) : elog :=
  mk_elog (full_threshold e) (shrink_size e) (mirror_last_write e) (nv_last_write e) (nv_dev e) d (elog_initialized e).
Definition with_status (x : elog_status) (e : elog) : elog :=
  mk_elog (full_threshold e) (shrink_size e) (mirror_last_write e) (nv_last_write e) (nv_dev e) (mirror_dev e) x.

Definition elog_events_start : Z := sizeof_elog_header.
Definition elog_events_total_space (e : elog) : Z := u32 (region_device_sz (nv_dev e) - elog_events_start).

(** The counters of what was written. *)
Definition elog_mirror_increment_last_write (n : Z) (e : elog) : elog :=
  with_mirror_write (u32 (mirror_last_write e + n)) e.
Definition elog_nv_increment_last_write (n : Z) (e : elog) : elog := with_nv_write (u32 (nv_last_write e + n)) e.
Definition elog_nv_reset_last_write (e : elog) : elog := with_nv_write 0 e.
Definition elog_mirror_reset_last_write (e : elog) : Z * elog := (mirror_last_write e, with_mirror_write 0 e).
Definition elog_nv_needs_possible_erase (e : elog) : elog :=
  if negb (nv_last_write e =? 0) then with_nv_write NV_NEEDS_ERASE e else e.
Definition elog_should_shrink (e : elog) : bool := full_threshold e <=? mirror_last_write e.
Definition elog_nv_needs_erase (e : elog) : bool := nv_last_write e =? NV_NEEDS_ERASE.
Definition elog_nv_needs_update (e : elog) : bool := negb (nv_last_write e =? mirror_last_write e).
(** The offset and the size. *)
Definition elog_nv_region_to_update (e : elog) : Z * Z :=
  (nv_last_write e, u32 (mirror_last_write e - nv_last_write e)).
Definition elog_tandem_reset_last_write (e : elog) : elog :=
  elog_nv_reset_last_write (snd (elog_mirror_reset_last_write e)).
Definition elog_tandem_increment_last_write (n : Z) (e : elog) : elog :=
  elog_nv_increment_last_write n (elog_mirror_increment_last_write n e).

(** ** Bytes of an event in memory *)

Definition elog_update_checksum (m : Z -> Z) (event checksum : Z) : Z -> Z :=
  store m (u32 (event + m (u32 (event + length_offset)) - 1)) [checksum].
Definition elog_checksum_event (m : Z -> Z) (event : Z) : Z :=
  fold_left (fun sum b => u8 (sum + b)) (load m event (m (u32 (event + length_offset)))) 0.

Section Elog.
Context {D : Type}.
Variable drv_readat : D -> nat -> Z -> Z -> Z * list Z.
Variable drv_writeat : option (D -> nat -> Z -> list Z -> Z * D).
Variable drv_eraseat : option (D -> nat -> Z -> Z -> Z * D).
Variable FMAP_OFFSET : Z.
Variables boot_device_ro boot_device_rw : option region_device.
(** What [malloc] gives for the mirror. *)
Variable mirror_buffer : option Z.
(** The clock, the count of boots and the codes of the boot before ([Cmos]). *)
Variables CONFIG_RTC CONFIG_ELOG_BOOT_COUNT CONFIG_CMOS_POST : bool.
Variable rtc_get : D -> rtc_time * D.
Variable boot_count_read : D -> Z * D.
Variable cmos_post_log : D -> list elog_event * D.
Variable acpi_is_wakeup_s3 : bool.
Notation state := (rstate (D := D)).

Record world := mk_world { st : state; el : elog }.
Definition with_el (f : elog -> elog) (w : world) : world := mk_world (st w) (f (el w)).
Definition with_st (s : state) (w : world) : world := mk_world s (el w).
Definition map_mem (f : (Z -> Z) -> Z -> Z) (w : world) : world := with_st (set_mem (f (mem (st w))) (st w)) w.

(** [rdev_mmap] and [rdev_readat] of a byte on the mirror. *)
Definition elog_get_event_buffer (w : world) (off n : Z) : option Z * world :=
  let '(p, s) := rdev_mmap drv_readat (st w) (mirror_dev (el w)) off n in (p, with_st s w).
Definition elog_put_event_buffer (w : world) (p : option Z) : world :=
  with_st (snd (rdev_munmap (st w) (mirror_dev (el w)) p)) w.
(** [None]: an error. *)
Definition mirror_byte (w : world) (off : Z) : option Z :=
  let '(ret, b) := rdev_readat drv_readat (st w) (mirror_dev (el w)) off 1 in
  if ret <? 0 then None else Some (nth 0 b 0).

(** ** Checking the mirror *)

Definition elog_is_buffer_clear (w : world) (off : Z) : bool * world :=
  let n := u32 (region_device_sz (mirror_dev (el w)) - off) in
  match elog_get_event_buffer w off n with
  | (None, w) => (false, w)
  | (Some buffer, w) =>
      let clear := forallb (fun b => b =? ELOG_TYPE_EOL) (load (mem (st w)) buffer n) in
      (clear, elog_put_event_buffer w (Some buffer))
  end.

(** The mapping of the header is not given back. *)
Definition elog_is_header_valid (w : world) : bool * world :=
  match elog_get_event_buffer w 0 sizeof_elog_header with
  | (None, w) => (false, w)
  | (Some header, w) =>
      let h := load (mem (st w)) header sizeof_elog_header in
      ((le32 h 0 =? ELOG_SIGNATURE) && (byte_at h 4 =? ELOG_VERSION) && (byte_at h 5 =? sizeof_elog_header), w)
  end.

(** The length of a valid event, 0 for an invalid one. *)
Definition elog_is_event_valid (w : world) (off : Z) : Z * world :=
  match mirror_byte w (u32 (off + length_offset)) with
  | None => (0, w)
  | Some len =>
      if len <? sizeof_event_header + 1 then (0, w)
      else if MAX_EVENT_SIZE <? len then (0, w)
      else
        match elog_get_event_buffer w off len with
        | (None, w) => (0, w)
        | (Some event, w) =>
            let checksum := elog_checksum_event (mem (st w)) event in
            let w := elog_put_event_buffer w (Some event) in
            (if negb (checksum =? 0) then 0 else len, w)
        end
  end.

(** The walk over the events; [None]: it did not end within the rounds given. *)
Fixpoint event_loop (fuel : nat) (w : world) (off : Z) : option (Z * Z * world) :=
  match fuel with
  | O => None
  | S n =>
      match mirror_byte w off with
      | None => Some (-1, off, w)
      | Some type =>
          if type =? ELOG_TYPE_EOL then Some (0, off, w)
          else
            let '(len, w) := elog_is_event_valid w off in
            if len =? 0 then Some (-1, off, w)
            else event_loop n (with_el (elog_tandem_increment_last_write len) w) (u32 (off + len))
      end
  end.

Definition elog_update_event_buffer_state (fuel : nat) (w : world) : option (Z * world) :=
  match event_loop fuel w elog_events_start with
  | None => None
  | Some (ret, off, w) =>
      if ret <? 0 then Some (-1, w)
      else
        let '(clear, w) := elog_is_buffer_clear w off in
        Some (if clear then 0 else -1, w)
  end.

Definition elog_scan_flash (fuel : nat) (w : world) : option (Z * world) :=
  let n := region_device_sz (nv_dev (el w)) in
  let '(mirror, s) := rdev_mmap_full drv_readat (st w) (mirror_dev (el w)) in
  let mirror := default 0 mirror in
  let w := with_st s w in
  let '(ret, b) := rdev_readat drv_readat (st w) (nv_dev (el w)) 0 n in
  if negb (u32 ret =? n) then Some (-1, elog_put_event_buffer w (Some mirror))
  else
    let w := map_mem (fun m => store m mirror b) w in
    let w := elog_put_event_buffer w (Some mirror) in
    let w := with_el elog_tandem_reset_last_write w in
    let '(clear, w) := elog_is_buffer_clear w 0 in
    if clear then Some (-1, w)
    else
      let w := with_el (elog_tandem_increment_last_write elog_events_start) w in
      let '(valid, w) := elog_is_header_valid w in
      if negb valid then Some (-1, w) else elog_update_event_buffer_state fuel w.

(** ** Writing *)

Definition elog_nv_write (w : world) (off n : Z) : world :=
  if n =? 0 then w
  else
    match elog_get_event_buffer w off n with
    | (None, w) => w
    | (Some address, w) =>
        let '(_, s) := rdev_writeat drv_writeat (st w) (nv_dev (el w)) (load (mem (st w)) address n) off in
        elog_put_event_buffer (with_st s w) (Some address)
    end.

Definition elog_nv_erase (w : world) : world :=
  let '(_, s) := rdev_eraseat drv_eraseat (st w) (nv_dev (el w)) 0 (region_device_sz (nv_dev (el w))) in
  with_st s w.

Definition elog_sync_to_nv (fuel : nat) (w : world) : option (Z * world) :=
  if negb (elog_nv_needs_update (el w)) then Some (0, w)
  else
    let erase_needed := elog_nv_needs_erase (el w) in
    let w := if erase_needed then with_el elog_nv_reset_last_write (elog_nv_erase w) else w in
    let '(off, n) := elog_nv_region_to_update (el w) in
    let w := elog_nv_write w off n in
    let w := with_el (elog_nv_increment_last_write n) w in
    if negb erase_needed then Some (0, w)
    else
      match elog_scan_flash fuel w with
      | None => None
      | Some (ret, w) =>
          if ret <? 0 then Some (-1, with_el (with_status ELOG_BROKEN) w) else Some (0, w)
      end.

Definition elog_header_bytes : list Z :=
  [Z.land ELOG_SIGNATURE 0xff; Z.land (Z.shiftr ELOG_SIGNATURE 8) 0xff; Z.land (Z.shiftr ELOG_SIGNATURE 16) 0xff;
   Z.shiftr ELOG_SIGNATURE 24; ELOG_VERSION; sizeof_elog_header; ELOG_TYPE_EOL; ELOG_TYPE_EOL].

Definition elog_write_header_in_mirror (w : world) : world :=
  let '(_, s) := rdev_writeat drv_writeat (st w) (mirror_dev (el w)) elog_header_bytes 0 in
  with_el (elog_mirror_increment_last_write elog_events_start) (with_st s w).

(** ** Removing the oldest events *)

Definition elog_move_events_to_front (w : world) (off n : Z) : world :=
  let start := elog_events_start in
  let '(src, w) := elog_get_event_buffer w off n in
  let '(dest, w) := elog_get_event_buffer w start n in
  match src, dest with
  | Some src, Some dest =>
      let w := map_mem (fun m => memcpy m dest src n) w in (* memmove *)
      let w := elog_put_event_buffer (elog_put_event_buffer w (Some dest)) (Some src) in
      let off := u32 (start + n) in
      let n := u32 (region_device_sz (mirror_dev (el w)) - off) in
      match elog_get_event_buffer w off n with
      | (None, w) => w
      | (Some dest, w) =>
          elog_put_event_buffer (map_mem (fun m => memset m dest ELOG_TYPE_EOL n) w) (Some dest)
      end
  | _, _ => elog_put_event_buffer (elog_put_event_buffer w dest) src
  end.

(** Where the events to keep begin; [None]: an event of length 0. *)
Fixpoint shrink_loop (fuel : nat) (w : world) (requested_size off : Z) : option Z :=
  match fuel with
  | O => None
  | S n =>
      if requested_size <? off then Some off
      else
        match mirror_byte w off with
        | None => Some off
        | Some type =>
            if type =? ELOG_TYPE_EOL then Some off
            else
              match mirror_byte w (u32 (off + length_offset)) with
              | None => Some off
              | Some len => shrink_loop n w requested_size (u32 (off + len))
              end
        end
  end.

(** The bytes removed. *)
Definition elog_do_shrink (fuel : nat) (w : world) (requested_size last_write : Z) : option (Z * world) :=
  match shrink_loop fuel w requested_size elog_events_start with
  | None => None
  | Some off =>
      let remaining_size := u32 (last_write - off) in
      let w := elog_move_events_to_front w off remaining_size in
      let w := with_el (elog_mirror_increment_last_write remaining_size) w in
      Some (u32 (off - elog_events_start), w)
  end.

(** Adding an event, which the functions below and [elog_init] call. *)
Definition adder : Type := Z -> list Z -> world -> option (Z * world).

Definition le_data (n : nat) (x : Z) : list Z := map (fun i => u8 (Z.shiftr x (8 * Z.of_nat i))) (seq 0 n).
Definition elog_add_event_word (add : adder) (type data : Z) : world -> option (Z * world) :=
  add type (le_data 2 (u16 data)).
Definition elog_add_event_dword (add : adder) (type data : Z) : world -> option (Z * world) :=
  add type (le_data 4 (u32 data)).

Definition elog_shrink_by_size (fuel : nat) (add : adder) (w : world) (requested_size : Z) : option (Z * world) :=
  let total_event_space := elog_events_total_space (el w) in
  let w := with_el elog_nv_needs_possible_erase w in
  let '(captured_last_write, e) := elog_mirror_reset_last_write (el w) in
  let w := elog_write_header_in_mirror (mk_world (st w) e) in
  match (if total_event_space <=? requested_size then Some (total_event_space, w)
         else elog_do_shrink fuel w requested_size captured_last_write) with
  | None => None
  | Some (shrunk_size, w) => elog_add_event_word add ELOG_TYPE_LOG_CLEAR shrunk_size w
  end.

Definition elog_prepare_empty (fuel : nat) (add : adder) (w : world) : option (Z * world) :=
  elog_shrink_by_size fuel add w (elog_events_total_space (el w)).

Definition elog_shrink (fuel : nat) (add : adder) (w : world) : option (Z * world) :=
  if elog_should_shrink (el w) then elog_shrink_by_size fuel add w (shrink_size (el w)) else Some (0, w).

(** ** Adding events *)

Definition elog_find_flash (fuel : nat) (w : world) : option (Z * world) :=
  let reserved_space := ELOG_MIN_AVAILABLE_ENTRIES * MAX_EVENT_SIZE in
  match fmap_locate_area_as_rdev_rw drv_readat FMAP_OFFSET boot_device_ro boot_device_rw fuel (st w) elog_area with
  | None => None
  | Some (None, s) => Some (-1, with_st s w)
  | Some (Some rdev, s) =>
      let w := mk_world s (with_nv_dev rdev (el w)) in
      if region_device_sz rdev <? 4096 then Some (-1, w)
      else
        let total_size := Z.min 4096 (region_device_sz rdev) in
        let w := match rdev_chain rdev 0 total_size with
                 | Some rdev => with_el (with_nv_dev rdev) w
                 | None => w
                 end in
        let threshold := u16 (total_size - reserved_space) in
        let shrink := u16 (total_size * ELOG_SHRINK_PERCENTAGE / 100) in
        let w := with_el (with_threshold threshold shrink) w in
        Some (if shrink <? reserved_space then -1 else 0, w)
  end.

(** The six bytes year, month, day, hour, minute, second. *)
Definition elog_fill_timestamp (d : D) : list Z * D :=
  if negb CONFIG_RTC then (repeat 0 6, d)
  else
    let '(time, d) := rtc_get d in
    let second := bin2bcd (u8 (sec time)) in
    let minute := bin2bcd (u8 (min time)) in
    let hour := bin2bcd (u8 (hour time)) in
    let day := bin2bcd (u8 (mday time)) in
    let month := bin2bcd (u8 (mon time)) in
    let year := bin2bcd (u8 (Z.rem (year time) 100)) in
    if (0x12 <? month) || (0x31 <? day) || (0x23 <? hour) || (0x59 <? minute) || (0x59 <? second)
    then (repeat 0 6, d) else ([year; month; day; hour; minute; second], d).

(** The event is built in the mirror, field by field. *)
Definition elog_build_event (w : world) (event event_size event_type : Z) (data : list Z) : world :=
  let w := map_mem (fun m => store m event [event_type; event_size]) w in
  let '(stamp, d) := elog_fill_timestamp (drv (st w)) in
  let w := with_st (set_drv d (st w)) w in
  let w := map_mem (fun m => store m (u32 (event + 2)) stamp) w in
  let w := map_mem (fun m => store m (u32 (event + sizeof_event_header)) data) w in
  let w := map_mem (fun m => elog_update_checksum m event 0) w in
  map_mem (fun m => elog_update_checksum m event (u8 (- elog_checksum_event m event))) w.

(** [elog_add_event_raw] without its first call, of [elog_init]; [data] has fewer than 256
    bytes.  [add] is what [elog_shrink] calls. *)
Definition add_event_body (fuel : nat) (add : adder) (event_type : Z) (data : list Z) (w : world)
    : option (Z * world) :=
  let event_size := u8 (sizeof_event_header + Z.of_nat (length data) + 1) in
  if MAX_EVENT_SIZE <? event_size then Some (-1, w)
  else
    match elog_get_event_buffer w (mirror_last_write (el w)) event_size with
    | (None, w) => Some (-1, w)
    | (Some event, w) =>
        let w := elog_build_event w event event_size event_type data in
        let w := elog_put_event_buffer w (Some event) in
        let w := with_el (elog_mirror_increment_last_write event_size) w in
        match elog_shrink fuel add w with
        | None => None
        | Some (ret, w) => if ret <? 0 then Some (-1, w) else elog_sync_to_nv fuel w
        end
    end.

(** The events [cmos_post_log] adds. *)
Fixpoint post_events (add : adder) (l : list elog_event) (w : world) : option world :=
  match l with
  | [] => Some w
  | ev :: l =>
      match (match ev with
             | ELOG_TYPE_LAST_POST_CODE code => elog_add_event_word add ELOG_LAST_POST_CODE code w
             | ELOG_TYPE_POST_EXTRA extra => elog_add_event_dword add ELOG_POST_EXTRA extra w
             end) with
      | None => None
      | Some (_, w) => post_events add l w
      end
  end.

(** The events of a boot. *)
Definition boot_events (add : adder) (w : world) : option world :=
  match (if CONFIG_ELOG_BOOT_COUNT then
           if acpi_is_wakeup_s3 then Some (0, w)
           else
             let '(count, d) := boot_count_read (drv (st w)) in
             elog_add_event_dword add ELOG_TYPE_BOOT count (with_st (set_drv d (st w)) w)
         else elog_add_event_dword add ELOG_TYPE_BOOT 0 w) with
  | None => None
  | Some (_, w) =>
      if CONFIG_CMOS_POST then
        let '(l, d) := cmos_post_log (drv (st w)) in post_events add l (with_st (set_drv d (st w)) w)
      else Some w
  end.

Definition init_body (fuel : nat) (add : adder) (w : world) : option (Z * world) :=
  match elog_initialized (el w) with
  | ELOG_INITIALIZED => Some (0, w)
  | ELOG_BROKEN => Some (-1, w)
  | ELOG_UNINITIALIZED =>
      let w := with_el (with_status ELOG_BROKEN) w in
      match elog_find_flash fuel w with
      | None => None
      | Some (ret, w) =>
          if ret <? 0 then Some (-1, w)
          else
            match mirror_buffer with
            | None => Some (-1, w)
            | Some buffer =>
                let n := region_device_sz (nv_dev (el w)) in
                let w := with_el (with_mirror_dev (rdev_of (mem_region_device_rw_init 2 buffer n))) w in
                let w := with_el (with_status ELOG_INITIALIZED) w in
                match elog_scan_flash fuel w with
                | None => None
                | Some (ret, w) =>
                    match (if ret <? 0 then elog_prepare_empty fuel add w else Some (0, w)) with
                    | None => None
                    | Some (ret, w) =>
                        if ret <? 0 then Some (-1, w)
                        else match boot_events add w with None => None | Some w => Some (0, w) end
                    end
                end
            end
      end
  end.

(** [depth]: calls within calls; [fuel]: rounds of a loop. *)
Fixpoint elog_add_event_raw (depth fuel : nat) : adder := fun event_type data w =>
  match depth with
  | O => None
  | S n =>
      match init_body fuel (elog_add_event_raw n fuel) w with
      | None => None
      | Some (ret, w) =>
          if ret <? 0 then Some (-1, w) else add_event_body fuel (elog_add_event_raw n fuel) event_type data w
      end
  end.

Definition elog_init (depth fuel : nat) (w : world) : option (Z * world) :=
  init_body fuel (elog_add_event_raw depth fuel) w.

Definition elog_clear (depth fuel : nat) (w : world) : option (Z * world) :=
  match elog_init depth fuel w with
  | None => None
  | Some (ret, w) =>
      if ret <? 0 then Some (-1, w) else elog_prepare_empty fuel (elog_add_event_raw depth fuel) w
  end.

Definition elog_add_event (depth fuel : nat) (event_type : Z) := elog_add_event_raw depth fuel event_type [].
Definition elog_add_event_byte (depth fuel : nat) (event_type data : Z) :=
  elog_add_event_raw depth fuel event_type [u8 data].
(** [struct elog_event_data_wake] *)
Definition elog_add_event_wake (depth fuel : nat) (source instance : Z) :=
  elog_add_event_raw depth fuel ELOG_TYPE_WAKE_SOURCE (u8 source :: le_data 4 (u32 instance)).
Definition elog_bs_init (depth fuel : nat) (w : world) : option world :=
  match elog_init depth fuel w with None => None | Some (_, w) => Some w end.
End Elog.
