(* ===== verification/ElogMirror.v ===== *)
(** * The event log: its region as a list of bytes

    The mirror in memory and the region in the flash as lists, and what the accesses of
    [Elog] are on them.  The flash is any that has the laws of [NorFlash]. *)

From S2P Require Import Prelude Region Bytes Mapped CbfsLoad Memory RegionFile Rtc Cmos Elog.

(** ** Lists *)

(** [b] put over a list from [o] on. *)
Definition splice {A} (l : list A) (o : nat) (b : list A) : list A := take o l ++ b ++ drop (o + length b) l.

Lemma splice_length {A} (l : list A) o b : (o + length b <= length l)%nat -> length (splice l o b) = length l.
Proof. intros H. unfold splice. rewrite !length_app, length_take, length_drop. lia. Qed.

Lemma splice_nth l o b i : (o + length b <= length l)%nat ->
  nth i (splice l o b) 0 = if decide (o <= i < o + length b)%nat then nth (i - o) b 0 else nth i l 0.
Proof.
  intros H. unfold splice. assert (Ht : length (take o l) = o) by (rewrite length_take; lia).
  destruct (Nat.lt_ge_cases i o) as [Hi|Hi].
  - rewrite app_nth1 by lia. rewrite decide_False by lia. rewrite !nth_lookup. by rewrite lookup_take_lt.
  - rewrite app_nth2, Ht by lia. destruct (decide _) as [[_ Hd]|Hd].
    + by rewrite app_nth1 by lia.
    + rewrite app_nth2 by lia. rewrite !nth_lookup, lookup_drop. f_equal. f_equal. lia.
Qed.

(** Over the middle of three parts. *)
Lemma splice_parts {A} (a r b : list A) : (length b <= length r)%nat ->
  splice (a ++ r) (length a) b = a ++ b ++ drop (length b) r.
Proof.
  intros H. unfold splice. rewrite take_app_length. do 2 f_equal.
  rewrite drop_app. rewrite drop_ge by lia. cbn [app]. f_equal. lia.
Qed.

(** A piece put behind another. *)
Lemma splice_app (l : list Z) o b b' : (o + length b + length b' <= length l)%nat ->
  splice (splice l o b) (o + length b) b' = splice l o (b ++ b').
Proof.
  intros H. apply (nth_ext _ _ 0 0).
  { rewrite !splice_length; rewrite ?splice_length, ?length_app; lia. }
  intros n _. rewrite !splice_nth by (rewrite ?splice_length, ?length_app; lia). rewrite length_app.
  destruct (decide (o + length b <= n < o + length b + length b')%nat).
  - rewrite decide_True by lia. rewrite app_nth2 by lia. f_equal. lia.
  - destruct (decide (o <= n < o + length b)%nat).
    + rewrite decide_True by lia. by rewrite app_nth1 by lia.
    + by rewrite decide_False by lia.
Qed.

(** A piece whose end is put anew. *)
Lemma splice_end (l : list Z) o b c c' : (o + length b + length c <= length l)%nat -> length c' = length c ->
  splice (splice l o (b ++ c)) (o + length b) c' = splice l o (b ++ c').
Proof.
  intros H Hc. assert (L : length (splice l o (b ++ c)) = length l) by (apply splice_length; rewrite length_app; lia).
  apply (nth_ext _ _ 0 0).
  { rewrite !splice_length by (rewrite ?L, ?length_app; lia). lia. }
  intros n _. rewrite !splice_nth by (rewrite ?L, ?length_app; lia). rewrite !length_app, Hc.
  destruct (decide (o + length b <= n < o + length b + length c)%nat).
  - rewrite !decide_True by lia. rewrite app_nth2 by lia. f_equal. lia.
  - destruct (decide (o <= n < o + length b + length c)%nat).
    + rewrite !decide_True by lia. by rewrite !app_nth1 by lia.
    + by rewrite !decide_False by lia.
Qed.

Lemma repeat_replicate {A} (x : A) n : repeat x n = replicate n x.
Proof. induction n as [|n IH]; [done|]. cbn. by rewrite IH. Qed.

Lemma drop_repeat {A} (x : A) n k : drop k (repeat x n) = repeat x (n - k).
Proof. by rewrite !repeat_replicate, drop_replicate. Qed.

Lemma slice_drop f o n k : 0 <= k <= n -> drop (Z.to_nat k) (slice f o n) = slice f (o + k) (n - k).
Proof.
  intros H. replace n with (k + (n - k)) at 1 by lia. rewrite slice_app by lia.
  by rewrite drop_app_length' by (by rewrite slice_length).
Qed.

(** A piece of a slice. *)
Lemma slice_piece f o n a k : 0 <= a -> 0 <= k -> a + k <= n ->
  take (Z.to_nat k) (drop (Z.to_nat a) (slice f o n)) = slice f (o + a) k.
Proof. intros. rewrite slice_drop by lia. by rewrite take_slice by lia. Qed.

(** ** The mirror *)

Section Mirror.
Context {D : Type}.
Variable drv_readat : D -> nat -> Z -> Z -> Z * list Z.
Variable drv_writeat : option (D -> nat -> Z -> list Z -> Z * D).
(** Where the mirror is, and its size. *)
Variables (B sz : Z).
Hypothesis HB : 0 <= B.
Hypothesis Hsz : 16 <= sz <= 2 ^ 20.
Hypothesis HBend : B + sz <= 2 ^ 32.
Set Default Proof Using "Type".

Notation state := (rstate (D := D)).
Notation mirror := (rdev_of (mem_region_device_rw_init 2 B sz)).

(** What it holds. *)
Definition M (s : state) : list Z := slice (mem s) B sz.

Lemma M_length s : Z.of_nat (length (M s)) = sz.
Proof using Hsz. unfold M. rewrite slice_length. lia. Qed.

Lemma M_nth s i : 0 <= i < sz -> nth (Z.to_nat i) (M s) 0 = mem s (B + i).
Proof using Hsz. intros Hi. unfold M. rewrite slice_nth by lia. f_equal. lia. Qed.

Lemma M_at s n : Z.of_nat n < sz -> nth n (M s) 0 = mem s (B + Z.of_nat n).
Proof using Hsz. intros Hn. rewrite <- (M_nth s (Z.of_nat n)) by lia. by rewrite Nat2Z.id. Qed.

Lemma mirror_checked {A} o k (err : A) op : 0 <= o -> 0 <= k -> o + k < 2 ^ 32 ->
  checked (rdev_region mirror) o k err op = if o + k <=? sz then op o k else err.
Proof using Hsz.
  intros Ho Hk Hb. unfold checked. cbn [rdev_region rdev_of root_region mem_region_device_rw_init mem_region_device_init].
  rewrite normalize_spec; cbn [offset size]; [|unfold region_ok; cbn; lia|lia..].
  rewrite Z.add_0_l. by destruct (o + k <=? sz).
Qed.

Lemma mirror_mmap s o k : 0 <= o -> 0 <= k -> o + k < 2 ^ 32 ->
  rdev_mmap drv_readat s mirror o k = if o + k <=? sz then (Some (u32 (B + o)), s) else (None, s).
Proof using Hsz. intros Ho Hk Hb. unfold rdev_mmap. by rewrite mirror_checked. Qed.

Lemma mirror_munmap (s : state) p : rdev_munmap s mirror p = (0, s).
Proof. reflexivity. Qed.

Lemma mirror_read s o k : 0 <= o -> 0 <= k -> o + k < 2 ^ 32 ->
  rdev_readat drv_readat s mirror o k =
    if o + k <=? sz then (s32 k, load (mem s) (u32 (B + o)) k) else (-1, []).
Proof using Hsz. intros Ho Hk Hb. unfold rdev_readat. by rewrite mirror_checked. Qed.

Lemma mirror_write s o b : 0 <= o -> o + Z.of_nat (length b) <= sz ->
  rdev_writeat drv_writeat s mirror b o = (s32 (Z.of_nat (length b)), set_mem (store (mem s) (u32 (B + o)) b) s).
Proof using Hsz.
  intros Ho Hb. unfold rdev_writeat. cbv zeta. rewrite mirror_checked by lia. by rewrite (proj2 (Z.leb_le _ _)) by lia.
Qed.

(** Reading a piece of it. *)
Lemma load_mirror s o k : 0 <= o -> 0 <= k -> o + k <= sz ->
  load (mem s) (u32 (B + o)) k = take (Z.to_nat k) (drop (Z.to_nat o) (M s)).
Proof using HB Hsz HBend.
  intros Ho Hk Hle. unfold M. rewrite slice_piece by lia. destruct (Z.eq_dec k 0) as [-> |Hn]; [done|].
  rewrite u32_small by lia. by rewrite load_slice by lia.
Qed.

(** Storing into it. *)
Lemma store_mirror s o b : 0 <= o -> o + Z.of_nat (length b) <= sz ->
  M (set_mem (store (mem s) (u32 (B + o)) b) s) = splice (M s) (Z.to_nat o) b.
Proof using HB Hsz HBend.
  intros Ho Hle. pose proof (M_length s) as HL. apply (nth_ext _ _ 0 0).
  { rewrite splice_length by lia. pose proof (M_length (set_mem (store (mem s) (u32 (B + o)) b) s)). lia. }
  intros n Hn. unfold M in Hn. rewrite slice_length in Hn. rewrite splice_nth by lia.
  rewrite !M_at by lia. cbn [set_mem mem].
  destruct (Z.eq_dec (Z.of_nat (length b)) 0) as [H0|H0].
  { destruct b; [|cbn in H0; lia]. rewrite decide_False by (cbn; lia). unfold store. cbn.
    pose proof (u32_range (B + Z.of_nat n - u32 (B + o))). by rewrite (proj2 (Z.ltb_ge _ _)) by lia. }
  rewrite u32_small by lia. rewrite store_spec by lia. destruct (decide _) as [Hd|Hd].
  - rewrite (proj2 (Z.leb_le _ _)), (proj2 (Z.ltb_lt _ _)) by lia. cbn [andb]. f_equal. lia.
  - destruct ((_ <=? _) && _) eqn:E; [|done]. apply andb_prop in E as [E1 E2]. bool_to_prop. lia.
Qed.

Lemma memset_mirror s o v k : 0 <= o -> 0 <= k -> o + k <= sz ->
  M (set_mem (memset (mem s) (u32 (B + o)) v k) s) = splice (M s) (Z.to_nat o) (repeat v (Z.to_nat k)).
Proof using HB Hsz HBend.
  intros Ho Hk Hle. pose proof (M_length s) as HL. apply (nth_ext _ _ 0 0).
  { rewrite splice_length by (rewrite repeat_length; lia).
    pose proof (M_length (set_mem (memset (mem s) (u32 (B + o)) v k) s)). lia. }
  intros n Hn. unfold M in Hn. rewrite slice_length in Hn. rewrite splice_nth by (rewrite repeat_length; lia).
  rewrite !M_at by lia. cbn [set_mem mem]. rewrite repeat_length.
  destruct (Z.eq_dec k 0) as [-> |H0].
  { rewrite decide_False by lia. unfold memset. pose proof (u32_range (B + Z.of_nat n - u32 (B + o))).
    by rewrite (proj2 (Z.ltb_ge _ _)) by lia. }
  rewrite u32_small by lia. rewrite memset_spec by lia. destruct (decide _) as [Hd|Hd].
  - rewrite (proj2 (Z.leb_le _ _)), (proj2 (Z.ltb_lt _ _)) by lia. cbn [andb].
    rewrite nth_repeat_lt by lia. done.
  - destruct ((_ <=? _) && _) eqn:E; [|done]. apply andb_prop in E as [E1 E2]. bool_to_prop. lia.
Qed.
End Mirror.

(** ** The flash *)

Section Nv.
Context {D : Type} {drv_readat : D -> nat -> Z -> Z -> Z * list Z}
  {drv_writeat : option (D -> nat -> Z -> list Z -> Z * D)}
  {drv_eraseat : option (D -> nat -> Z -> Z -> Z * D)} {id : nat} {img : D -> Z -> Z}
  `{Hflash : !NorFlash drv_readat drv_writeat drv_eraseat id img}.
Context (dreg : region) (off0 sz : Z).
Hypothesis Hoff0 : 0 <= off0.
Hypothesis Hsz : 16 <= sz <= 2 ^ 20.
Hypothesis Hend : off0 + sz < 2 ^ 32.
Set Default Proof Using "Type".

Notation state := (rstate (D := D)).
Notation nv := (window (id := id) dreg off0 0 sz).

(** What the region holds. *)
Definition F (d : D) : list Z := slice (img d) off0 sz.

Lemma F_length d : Z.of_nat (length (F d)) = sz.
Proof using Hsz. unfold F. rewrite slice_length. lia. Qed.

Lemma F_at d n : Z.of_nat n < sz -> nth n (F d) 0 = img d (off0 + Z.of_nat n).
Proof using Hsz. intros Hn. unfold F. by rewrite slice_nth by lia. Qed.

Lemma F_bytes d : Forall is_byte (F d).
Proof using Hflash. unfold F. apply slice_bytes. intros x. apply (nf_byte d x). Qed.

Lemma nv_read s : rdev_readat drv_readat s nv 0 sz = (sz, F (drv s)).
Proof using Hflash Hoff0 Hsz Hend.
  rewrite (read_window dreg off0 sz Hoff0 Hsz Hend s 0 sz 0 sz) by lia. f_equal.
Qed.

(** Writing where the flash is erased. *)
Lemma nv_write s o b : 0 <= o -> o + Z.of_nat (length b) <= sz -> Forall is_byte b ->
  (forall i, (Z.to_nat o <= i < Z.to_nat o + length b)%nat -> nth i (F (drv s)) 0 = 0xff) ->
  exists d', rdev_writeat drv_writeat s nv b o = (Z.of_nat (length b), set_drv d' s) /\
    F d' = splice (F (drv s)) (Z.to_nat o) b.
Proof using Hflash Hoff0 Hsz Hend.
  intros Ho Hle Hb Hff. unfold rdev_writeat, window. cbn [rdev_region rdev_root root_writeat]. cbv zeta.
  rewrite (checked_window off0 sz Hoff0 Hend 0 sz) by lia.
  destruct (nf_write (drv s) (off0 + 0 + o) b) as (w & d' & Hw & E & Hx); [lia|lia|].
  rewrite Hw, E. exists d'. split; [done|]. pose proof (F_length (drv s)) as HL. apply (nth_ext _ _ 0 0).
  { rewrite splice_length by lia. pose proof (F_length d'). lia. }
  intros n Hn. unfold F in Hn. rewrite slice_length in Hn. rewrite splice_nth by lia. rewrite !F_at, Hx by lia.
  destruct (decide _) as [Hd|Hd].
  - rewrite (proj2 (Z.leb_le _ _)), (proj2 (Z.ltb_lt _ _)) by lia. cbn [andb].
    specialize (Hff n Hd). rewrite F_at in Hff by lia. rewrite Hff.
    replace (off0 + Z.of_nat n - (off0 + 0 + o)) with (Z.of_nat (n - Z.to_nat o)) by lia. rewrite Nat2Z.id.
    assert (Hy : is_byte (nth (n - Z.to_nat o) b 0)) by (by apply byte_at_byte).
    rewrite Z.land_comm. change 0xff with (2 ^ 8 - 1). rewrite land_low_mask by lia. by apply Z.mod_small.
  - destruct ((_ <=? _) && _) eqn:E2; [|done]. apply andb_prop in E2 as [E1 E2]. bool_to_prop. lia.
Qed.

Lemma nv_erase s : exists d', rdev_eraseat drv_eraseat s nv 0 sz = (sz, set_drv d' s) /\ F d' = repeat 0xff (Z.to_nat sz).
Proof using Hflash Hoff0 Hsz Hend.
  unfold rdev_eraseat, window. cbn [rdev_region rdev_root root_eraseat].
  rewrite (checked_window off0 sz Hoff0 Hend 0 sz) by lia.
  destruct (nf_erase (drv s) (off0 + 0 + 0) sz) as (e & d' & He & E & Hx); [lia|lia|].
  rewrite He, E. exists d'. split; [done|]. apply (nth_ext _ _ 0 0).
  { pose proof (F_length d'). rewrite repeat_length. lia. }
  intros n Hn. unfold F in Hn. rewrite slice_length in Hn. rewrite F_at, Hx, nth_repeat_lt by lia.
  rewrite (proj2 (Z.leb_le _ _)), (proj2 (Z.ltb_lt _ _)) by lia. done.
Qed.
End Nv.
