(* ===== verification/ElogLog.v ===== *)
(** * The event log: its specification

    What a region of bytes means as a log ([decode]), and the log as a list of types and
    data with what adding an event does to it ([log_add]): nothing of this refers to the
    code's state. *)

From S2P Require Import Prelude Bytes Elog.

(** ** Events and regions *)

(** The sum of the bytes, on eight bits. *)
Definition esum (l : list Z) : Z := fold_left (fun s b => u8 (s + b)) l 0.

Definition event_ok (ev : list Z) : bool :=
  (9 <=? Z.of_nat (length ev)) && (Z.of_nat (length ev) <=? MAX_EVENT_SIZE) &&
  (nth 1 ev 0 =? Z.of_nat (length ev)) && negb (nth 0 ev 0 =? ELOG_TYPE_EOL) && (esum ev =? 0).

Definition clear (l : list Z) : bool := forallb (fun b => b =? ELOG_TYPE_EOL) l.

Definition total (L : list (list Z)) : Z := Z.of_nat (length (concat L)).

(** The events at the start of a list, and the rest, from the first end marker on. *)
Fixpoint split_events (fuel : nat) (l : list Z) : option (list (list Z) * list Z) :=
  match fuel, l with
  | S n, type :: _ =>
      if type =? ELOG_TYPE_EOL then Some ([], l)
      else
        let len := nth 1 l 0 in
        if (9 <=? len) && (len <=? MAX_EVENT_SIZE) && (len <=? Z.of_nat (length l)) && (esum (take (Z.to_nat len) l) =? 0)
        then
          match split_events n (drop (Z.to_nat len) l) with
          | Some (L, rest) => Some (take (Z.to_nat len) l :: L, rest)
          | None => None
          end
        else None
  | _, _ => None
  end.

Definition header_ok (h : list Z) : bool :=
  (le32 h 0 =? ELOG_SIGNATURE) && (byte_at h 4 =? ELOG_VERSION) && (byte_at h 5 =? sizeof_elog_header).

(** The events a region holds, if it is a log. *)
Definition decode (l : list Z) : option (list (list Z)) :=
  if header_ok (take 8 l) then
    match split_events (S (length l)) (drop 8 l) with
    | Some (L, rest) => if clear rest then Some L else None
    | None => None
    end
  else None.

Lemma total_nonneg L : 0 <= total L.
Proof. unfold total. lia. Qed.

Lemma total_cons ev L : total (ev :: L) = Z.of_nat (length ev) + total L.
Proof. unfold total. cbn [concat]. rewrite length_app. lia. Qed.

Lemma total_app L L' : total (L ++ L') = total L + total L'.
Proof. unfold total. rewrite concat_app, length_app. lia. Qed.

Lemma event_ok_length ev : event_ok ev = true -> 9 <= Z.of_nat (length ev) <= 127.
Proof.
  unfold event_ok, MAX_EVENT_SIZE. intros H. repeat (apply andb_prop in H as [H ?]). bool_to_prop. lia.
Qed.

Lemma split_events_concat L : forall fuel rest, Forall (fun ev => event_ok ev = true) L ->
  nth 0 rest 0 = ELOG_TYPE_EOL -> (length L < fuel)%nat -> split_events fuel (concat L ++ rest) = Some (L, rest).
Proof.
  induction L as [|ev L IH]; intros fuel rest HL Hr Hf; (destruct fuel as [|n]; [lia|]).
  - destruct rest as [|b rest]; [done|]. cbn in Hr. subst b. cbn [concat app split_events]. done.
  - apply Forall_cons in HL as [Hev HL]. pose proof (event_ok_length ev Hev) as Hlen.
    unfold event_ok in Hev. repeat (apply andb_prop in Hev as [Hev ?]). cbn [concat]. rewrite <- app_assoc.
    destruct ev as [|t [|b ev]]; [cbn in Hlen; lia|cbn in Hlen; lia|]. set (e := t :: b :: ev) in *.
    assert (Eb : nth 1 (e ++ concat L ++ rest) 0 = Z.of_nat (length e)) by (bool_to_prop; done).
    assert (Et : t =? ELOG_TYPE_EOL = false) by (bool_to_prop; by apply Z.eqb_neq).
    change (e ++ concat L ++ rest) with (t :: (b :: ev) ++ concat L ++ rest) at 1. cbn [split_events].
    change (t :: (b :: ev) ++ concat L ++ rest) with (e ++ concat L ++ rest). rewrite Et, Eb, Nat2Z.id.
    rewrite take_app_length, drop_app_length, length_app.
    assert (Es : esum e =? 0 = true) by done. rewrite Es.
    rewrite (proj2 (Z.leb_le 9 _)), (proj2 (Z.leb_le _ MAX_EVENT_SIZE)), (proj2 (Z.leb_le _ (Z.of_nat (_ + _))))
      by (unfold MAX_EVENT_SIZE; lia). cbn [andb].
    rewrite (IH n rest) by (done || (cbn in Hf; lia)). done.
Qed.

Lemma split_events_sound fuel : forall l L rest, split_events fuel l = Some (L, rest) ->
  l = concat L ++ rest /\ Forall (fun ev => event_ok ev = true) L /\ nth 0 rest 0 = ELOG_TYPE_EOL.
Proof.
  induction fuel as [|n IH]; intros l L rest H; [done|]. destruct l as [|t l]; [done|]. cbn [split_events] in H.
  destruct (t =? ELOG_TYPE_EOL) eqn:Et.
  - injection H as <- <-. bool_to_prop. done.
  - set (l0 := t :: l) in *. set (len := nth 1 l0 0) in *.
    destruct ((9 <=? len) && _ && _ && _) eqn:E; [|done]. repeat (apply andb_prop in E as [E ?]). bool_to_prop.
    destruct (split_events n _) as [[L' r]|] eqn:Es; [|done]. injection H as <- <-.
    destruct (IH _ _ _ Es) as (E1 & E2 & E3). split; [|split; [|done]].
    + cbn [concat]. rewrite <- app_assoc, <- E1. symmetry. apply take_drop.
    + apply Forall_cons. split; [|done]. unfold event_ok.
      assert (Hl : Z.of_nat (length (take (Z.to_nat len) l0)) = len) by (rewrite length_take; lia).
      assert (N0 : nth 0 (take (Z.to_nat len) l0) 0 = t).
      { rewrite nth_lookup, lookup_take_lt by lia. done. }
      assert (N1 : nth 1 (take (Z.to_nat len) l0) 0 = len).
      { rewrite nth_lookup, lookup_take_lt by lia. by rewrite <- nth_lookup. }
      rewrite Hl, N0, N1. rewrite (proj2 (Z.leb_le 9 len)), (proj2 (Z.leb_le len _)), Z.eqb_refl by lia.
      rewrite (proj2 (Z.eqb_neq t _)), (proj2 (Z.eqb_eq (esum _) 0)) by done. done.
Qed.

Lemma concat_length_ge L : Forall (fun ev => event_ok ev = true) L -> (length L <= length (concat L))%nat.
Proof.
  induction 1 as [|ev L Hev _ IH]; [done|]. cbn [concat length]. rewrite length_app.
  pose proof (event_ok_length ev Hev). lia.
Qed.

(** A log that is stored is read. *)
Lemma decode_image h L n : length h = 8%nat -> header_ok h = true -> Forall (fun ev => event_ok ev = true) L -> (0 < n)%nat ->
  decode (h ++ concat L ++ repeat ELOG_TYPE_EOL n) = Some L.
Proof.
  intros Hh Hok HL Hn. unfold decode. rewrite <- Hh, take_app_length, drop_app_length, Hok.
  rewrite split_events_concat; [|done|by destruct n; [lia|]|].
  - unfold clear. by rewrite (proj2 (forallb_forall _ _)) by (intros x Hx%repeat_spec; subst; done).
  - rewrite !length_app. pose proof (concat_length_ge L HL). lia.
Qed.

(** ** The log as its users see it

    A list of types with their data, oldest first.  The header of the region takes 8 bytes,
    an event nine more than its data. *)

Definition entry : Type := Z * list Z.
Definition entry_of (ev : list Z) : entry := (nth 0 ev 0, take (length ev - 9) (drop 8 ev)).
Definition entry_size (e : entry) : Z := 9 + Z.of_nat (length (snd e)).
Fixpoint log_size (A : list entry) : Z := match A with [] => 0 | e :: A => entry_size e + log_size A end.

(** What is left when the oldest entries are removed until more than [limit] bytes are free;
    [off] is where the first entry begins. *)
Fixpoint newest (limit off : Z) (A : list entry) : list entry :=
  match A with
  | [] => []
  | e :: A' => if limit <? off then A else newest limit (off + entry_size e) A'
  end.

(** Adding to a log in 4096 bytes: from 3842 bytes on, room is made by a quarter of the
    region, and an entry says how much was removed. *)
Definition log_add (A : list entry) (e : entry) : list entry :=
  let A := A ++ [e] in
  if 8 + log_size A <? 3842 then A
  else
    let K := newest 1024 8 A in
    K ++ [(ELOG_TYPE_LOG_CLEAR, le_data 2 (u16 (log_size A - log_size K)))].

(** An event for which the region has no room is left out. *)
Definition log_try (A : list entry) (e : entry) : list entry :=
  if 8 + log_size A + entry_size e <=? 4096 then log_add A e else A.
Definition log_tries (A l : list entry) : list entry := fold_left log_try l A.

(** A region that was no log. *)
Definition new_log : list entry := [(ELOG_TYPE_LOG_CLEAR, le_data 2 (u16 4088))].
Definition log_of (region : list Z) : list entry :=
  match decode region with Some L => map entry_of L | None => new_log end.

Lemma log_size_app A A' : log_size (A ++ A') = log_size A + log_size A'.
Proof. induction A as [|e A IH]; [done|]. cbn [app log_size]. lia. Qed.

Lemma log_size_nonneg A : 0 <= log_size A.
Proof. induction A as [|e A IH]; [done|]. cbn [log_size]. unfold entry_size. lia. Qed.

Lemma entry_of_size ev : event_ok ev = true -> entry_size (entry_of ev) = Z.of_nat (length ev).
Proof.
  intros H. pose proof (event_ok_length ev H). unfold entry_size, entry_of. cbn [snd].
  rewrite length_take, length_drop. lia.
Qed.

Lemma log_size_total L : Forall (fun ev => event_ok ev = true) L -> log_size (map entry_of L) = total L.
Proof.
  induction 1 as [|ev L Hev _ IH]; [done|]. cbn [map log_size]. rewrite total_cons, entry_of_size by done. lia.
Qed.

(** The same on the events as bytes. *)
Fixpoint newest_events (limit off : Z) (L : list (list Z)) : list (list Z) :=
  match L with
  | [] => []
  | ev :: L' => if limit <? off then L else newest_events limit (off + Z.of_nat (length ev)) L'
  end.

Lemma newest_map limit L : Forall (fun ev => event_ok ev = true) L ->
  forall off, map entry_of (newest_events limit off L) = newest limit off (map entry_of L).
Proof.
  induction 1 as [|ev L Hev _ IH]; intros off; [done|]. cbn [map newest newest_events].
  destruct (limit <? off); [done|]. rewrite IH. by rewrite entry_of_size.
Qed.

(** What is kept is a suffix; it ends as the log does and is at least what does not fit
    below the limit and one event. *)
Lemma newest_events_suffix limit L : Forall (fun ev => event_ok ev = true) L -> forall off,
  exists P, L = P ++ newest_events limit off L /\ off + total P <= Z.max off (limit + 127) /\
    (limit < off + total L -> limit < off + total P).
Proof.
  induction 1 as [|ev L Hev HL IH]; intros off.
  - exists []. cbn. unfold total. cbn. split; [done|]. lia.
  - cbn [newest_events]. destruct (Z.ltb_spec limit off).
    + exists []. unfold total at 1 3. cbn. split; [done|]. lia.
    + destruct (IH (off + Z.of_nat (length ev))) as (P & E & H1 & H2). exists (ev :: P).
      pose proof (event_ok_length ev Hev). rewrite !total_cons. split; [by rewrite <- app_comm_cons, <- E|]. lia.
Qed.

Lemma split_events_fuel n : forall n' l, (length l < n)%nat -> (length l < n')%nat -> split_events n l = split_events n' l.
Proof.
  induction n as [|n IH]; intros n' l Hn Hn'; [lia|]. destruct n' as [|n']; [lia|].
  destruct l as [|t l]; [done|]. cbn [split_events]. destruct (t =? ELOG_TYPE_EOL); [done|].
  set (l0 := t :: l) in *. set (len := nth 1 l0 0). destruct ((9 <=? len) && _ && _ && _) eqn:E; [|done].
  repeat (apply andb_prop in E as [E ?]). bool_to_prop.
  rewrite (IH n') by (rewrite length_drop; lia). done.
Qed.

Lemma clear_repeat l : clear l = true -> l = repeat ELOG_TYPE_EOL (length l).
Proof.
  unfold clear. induction l as [|b l IH]; intros H; [done|]. cbn in H. apply andb_prop in H as [H1 H2].
  bool_to_prop. cbn [length repeat]. by rewrite <- IH, H1 by done.
Qed.

Lemma erased_bytes n : Forall is_byte (repeat ELOG_TYPE_EOL n).
Proof. induction n; cbn [repeat]; constructor; [by unfold ELOG_TYPE_EOL, is_byte|done]. Qed.

(** An erased region is no log. *)
Lemma decode_clear l : (8 <= length l)%nat -> clear l = true -> decode l = None.
Proof.
  intros Hl Hc. apply clear_repeat in Hc. rewrite Hc. unfold decode.
  assert (E : take 8 (repeat ELOG_TYPE_EOL (length l)) = repeat ELOG_TYPE_EOL 8).
  { do 8 (destruct l as [|? l]; [cbn in Hl; lia|]). done. }
  rewrite E. done.
Qed.

(** What is read is what is stored. *)
Lemma decode_sound l L : decode l = Some L ->
  header_ok (take 8 l) = true /\ Forall (fun ev => event_ok ev = true) L /\
  exists n, (0 < n)%nat /\ l = take 8 l ++ concat L ++ repeat ELOG_TYPE_EOL n.
Proof.
  unfold decode. destruct (header_ok (take 8 l)); [|done].
  destruct (split_events _ _) as [[L' rest]|] eqn:E; [|done]. destruct (clear rest) eqn:Ec; [|done]. intros [= <-].
  destruct (split_events_sound _ _ _ _ E) as (E1 & HL & E0). split; [done|]. split; [done|]. exists (length rest). split.
  - destruct rest; [done|]. cbn. lia.
  - rewrite <- (clear_repeat rest Ec), <- E1. symmetry. apply take_drop.
Qed.

(** The entry that is added is in the log. *)
Lemma newest_keeps limit e A : forall off, limit < off + log_size A -> e ∈ newest limit off (A ++ [e]).
Proof.
  induction A as [|a A IH]; intros off H; cbn [app newest log_size] in *.
  - rewrite (proj2 (Z.ltb_lt _ _)) by lia. by apply list_elem_of_singleton.
  - destruct (limit <? off); [|apply IH; lia]. apply elem_of_cons. right. apply elem_of_app. right. by apply list_elem_of_singleton.
Qed.

Lemma log_add_keeps A e : entry_size e <= MAX_EVENT_SIZE -> e ∈ log_add A e.
Proof.
  intros He. unfold MAX_EVENT_SIZE in He. unfold log_add. cbv zeta. destruct (Z.ltb_spec (8 + log_size (A ++ [e])) 3842) as [H|H].
  - apply elem_of_app. right. by apply list_elem_of_singleton.
  - apply elem_of_app. left. apply newest_keeps. rewrite log_size_app in H. cbn [log_size] in H. lia.
Qed.

Lemma newest_size limit A : forall off, limit < off + log_size A -> limit < off + log_size A - log_size (newest limit off A).
Proof.
  induction A as [|e A IH]; intros off H; cbn [newest log_size] in *; [lia|].
  destruct (Z.ltb_spec limit off); [cbn [log_size]; lia|]. specialize (IH (off + entry_size e)). lia.
Qed.

(** A log that has room for any event keeps it. *)
Lemma log_add_size A e : 8 + log_size A <= 3968 -> entry_size e <= MAX_EVENT_SIZE -> 8 + log_size (log_add A e) <= 3968.
Proof.
  intros HA He. unfold MAX_EVENT_SIZE in He. unfold log_add. cbv zeta. set (A1 := A ++ [e]).
  assert (H1 : log_size A1 = log_size A + entry_size e) by (unfold A1; rewrite log_size_app; cbn [log_size]; lia).
  destruct (Z.ltb_spec (8 + log_size A1) 3842) as [H|H]; [lia|]. pose proof (newest_size 1024 A1 8 ltac:(lia)).
  rewrite log_size_app. set (K := newest 1024 8 A1) in *. change (log_size [(ELOG_TYPE_LOG_CLEAR, _)]) with 11. lia.
Qed.

Lemma log_tries_adds A l : 8 + log_size A <= 3968 -> Forall (fun e => entry_size e <= MAX_EVENT_SIZE) l ->
  log_tries A l = fold_left log_add l A /\ 8 + log_size (log_tries A l) <= 3968.
Proof.
  intros HA Hl. revert A HA. induction Hl as [|e l He Hl IH]; intros A HA; [by split|]. unfold log_tries. cbn [fold_left].
  unfold log_try at 2 4. unfold MAX_EVENT_SIZE in *. rewrite (proj2 (Z.leb_le _ 4096)) by lia. apply IH, log_add_size; done.
Qed.

Lemma made_size type n x : (n <= 4)%nat -> entry_size (type, le_data n x) <= MAX_EVENT_SIZE.
Proof. intros Hn. unfold entry_size, le_data, MAX_EVENT_SIZE. cbn [snd]. rewrite length_map, length_seq. lia. Qed.
