(* ===== verification/ElogCorrect.v ===== *)
(** * The event log: the code against its specification

    The functions of [Elog] on a mirror and a flash given as lists ([ElogMirror]), and the
    log they keep, in the terms of [ElogLog]. *)

From S2P Require Import Prelude Region Bytes Mapped CbfsLoad Memory RegionFile Fmap Rtc Cmos Elog ElogMirror ElogLog.

Section Correct.
Context {D : Type} {drv_readat : D -> nat -> Z -> Z -> Z * list Z}
  {drv_writeat : option (D -> nat -> Z -> list Z -> Z * D)}
  {drv_eraseat : option (D -> nat -> Z -> Z -> Z * D)} {id : nat} {img : D -> Z -> Z}
  `{Hflash : !NorFlash drv_readat drv_writeat drv_eraseat id img}.
Context (dreg : region) (off0 B : Z).
Hypothesis Hoff0 : 0 <= off0.
Hypothesis Hend : off0 + 4096 < 2 ^ 32.
Hypothesis HB : 0 <= B.
Hypothesis HBend : B + 4096 <= 2 ^ 32.
Set Default Proof Using "Type".

Notation state := (rstate (D := D)).
Notation world := (world (D := D)).
Notation nv := (window (id := id) dreg off0 0 4096).
Notation mirror := (rdev_of (mem_region_device_rw_init 2 B 4096)).
Notation M := (M B 4096).
Notation F := (F (img := img) off0 4096).

Lemma size_range : 16 <= 4096 <= 2 ^ 20.
Proof. lia. Qed.

(** The log is set up: the devices and the limits. *)
Record ready (e : elog) : Prop := mk_ready
  { rd_nv : nv_dev e = nv; rd_mirror : mirror_dev e = mirror; rd_init : elog_initialized e = ELOG_INITIALIZED;
    rd_full : full_threshold e = 3842; rd_shrink : shrink_size e = 1024 }.

Definition set_writes (x : Z) (e : elog) : elog := with_mirror_write x (with_nv_write x e).

Lemma ready_writes x e : ready e -> ready (set_writes x e).
Proof. intros [? ? ? ? ?]. by split. Qed.
Lemma ready_mirror_write x e : ready e -> ready (with_mirror_write x e).
Proof. intros [? ? ? ? ?]. by split. Qed.
Lemma ready_nv_write x e : ready e -> ready (with_nv_write x e).
Proof. intros [? ? ? ? ?]. by split. Qed.

(** ** The mirror *)

Lemma event_buffer (w : world) o n : ready (el w) -> 0 <= o -> 0 <= n -> o + n < 2 ^ 32 ->
  elog_get_event_buffer drv_readat w o n = (if o + n <=? 4096 then Some (u32 (B + o)) else None, w).
Proof.
  intros Hr Ho Hn Hb. unfold elog_get_event_buffer. rewrite (rd_mirror _ Hr).
  rewrite (mirror_mmap drv_readat B 4096 size_range) by done. destruct w as [s e]. by destruct (o + n <=? 4096).
Qed.

Lemma put_buffer (w : world) p : ready (el w) -> elog_put_event_buffer w p = w.
Proof. intros Hr. unfold elog_put_event_buffer. rewrite (rd_mirror _ Hr), mirror_munmap. by destruct w. Qed.

Lemma mirror_byte_spec (w : world) o : ready (el w) -> 0 <= o < 2 ^ 31 ->
  mirror_byte drv_readat w o = if o <? 4096 then Some (nth (Z.to_nat o) (M (st w)) 0) else None.
Proof using HB HBend.
  intros Hr Ho. unfold mirror_byte. rewrite (rd_mirror _ Hr).
  rewrite (mirror_read drv_readat B 4096 size_range) by lia. destruct (Z.ltb_spec o 4096).
  - rewrite (proj2 (Z.leb_le (o + 1) 4096)) by lia. change (s32 1 <? 0) with false. cbv iota. f_equal.
    rewrite (load_mirror B 4096 HB size_range HBend) by lia. change (Z.to_nat 1) with 1%nat.
    rewrite !nth_lookup, lookup_take_lt, lookup_drop by lia. by rewrite Nat.add_0_r.
  - by rewrite (proj2 (Z.leb_gt (o + 1) 4096)) by lia.
Qed.

(** A piece of the mirror at [o]. *)
Notation from w o := (drop (Z.to_nat o) (M (st w))).

Lemma from_length (w : world) o : 0 <= o <= 4096 -> Z.of_nat (length (from w o)) = 4096 - o.
Proof. intros Ho. rewrite length_drop. pose proof (M_length B 4096 size_range (st w)). lia. Qed.

Lemma buffer_clear_spec (w : world) o : ready (el w) -> 0 <= o <= 4096 ->
  elog_is_buffer_clear drv_readat w o = (clear (from w o), w).
Proof using HB HBend.
  intros Hr Ho. unfold elog_is_buffer_clear. rewrite (rd_mirror _ Hr). change (region_device_sz mirror) with 4096.
  rewrite u32_small by lia. rewrite event_buffer by (done || lia).
  rewrite (proj2 (Z.leb_le (o + (4096 - o)) 4096)) by lia. rewrite put_buffer by done. f_equal.
  rewrite (load_mirror B 4096 HB size_range HBend) by lia. rewrite take_ge; [done|].
  pose proof (from_length w o Ho). lia.
Qed.

Lemma header_valid_spec (w : world) : ready (el w) -> elog_is_header_valid drv_readat w = (header_ok (take 8 (M (st w))), w).
Proof using HB HBend.
  intros Hr. unfold elog_is_header_valid. rewrite event_buffer by (done || lia).
  change (0 + sizeof_elog_header <=? 4096) with true. cbv iota.
  rewrite (load_mirror B 4096 HB size_range HBend) by (done || lia). done.
Qed.

(** Whether an event is valid, and how long. *)
Definition event_length (l : list Z) : Z :=
  let len := nth 1 l 0 in
  if (9 <=? len) && (len <=? MAX_EVENT_SIZE) && (len <=? Z.of_nat (length l)) && (esum (take (Z.to_nat len) l) =? 0)
  then len else 0.

Lemma event_valid_spec (w : world) o : ready (el w) -> 0 <= o < 4096 ->
  elog_is_event_valid drv_readat w o = (event_length (from w o), w).
Proof using HB HBend.
  intros Hr Ho. unfold elog_is_event_valid, length_offset. rewrite u32_small by lia.
  rewrite mirror_byte_spec by (done || lia). pose proof (from_length w o ltac:(lia)) as HL.
  unfold event_length. set (l := from w o) in *. destruct (Z.ltb_spec (o + 1) 4096).
  - assert (E : nth (Z.to_nat (o + 1)) (M (st w)) 0 = nth 1 l 0).
    { unfold l. rewrite !nth_lookup, lookup_drop. do 2 f_equal. lia. }
    rewrite E. set (len := nth 1 l 0) in *. unfold sizeof_event_header. change (8 + 1) with 9.
    destruct (Z.ltb_spec len 9); [by rewrite (proj2 (Z.leb_gt 9 len)) by lia|].
    rewrite (proj2 (Z.leb_le 9 len)) by lia. cbn [andb].
    destruct (Z.ltb_spec MAX_EVENT_SIZE len); [by rewrite (proj2 (Z.leb_gt len MAX_EVENT_SIZE)) by lia|].
    rewrite (proj2 (Z.leb_le len MAX_EVENT_SIZE)) by lia. cbn [andb].
    unfold MAX_EVENT_SIZE in *. rewrite event_buffer by (done || lia). rewrite HL.
    destruct (Z.leb_spec (o + len) 4096); [|by rewrite (proj2 (Z.leb_gt len (4096 - o))) by lia].
    rewrite (proj2 (Z.leb_le len (4096 - o))) by lia. cbn [andb]. rewrite put_buffer by done. f_equal.
    assert (Em : mem (st w) (u32 (u32 (B + o) + length_offset)) = len).
    { unfold len, l. rewrite nth_lookup, lookup_drop, <- nth_lookup.
      rewrite (M_at B 4096 size_range) by lia. f_equal. unfold length_offset.
      rewrite (u32_small (B + o)), u32_small by lia. lia. }
    unfold elog_checksum_event. rewrite Em, (load_mirror B 4096 HB size_range HBend) by lia.
    fold l. fold (esum (take (Z.to_nat len) l)). by destruct (esum _ =? 0).
  - assert (E : nth 1 l 0 = 0) by (apply nth_overflow; lia). by rewrite E.
Qed.
(** ** Scanning *)

Notation events_ok L := (Forall (fun ev => event_ok ev = true) L).

Lemma tandem_writes x n e : mirror_last_write e = x -> nv_last_write e = x -> 0 <= x + n < 2 ^ 32 ->
  elog_tandem_increment_last_write n e = set_writes (x + n) e.
Proof.
  intros E1 E2 Hn. unfold elog_tandem_increment_last_write, elog_nv_increment_last_write, elog_mirror_increment_last_write.
  destruct e as [f sh mw nw nd md i]. cbn in *. subst. unfold set_writes, with_mirror_write, with_nv_write. cbn.
  by rewrite u32_small.
Qed.

Lemma set_writes_twice x y e : set_writes x (set_writes y e) = set_writes x e.
Proof. done. Qed.

(** The walk is [split_events], and counts what it passes. *)
Lemma event_loop_spec n : forall (w : world) o, ready (el w) -> 0 <= o <= 4096 ->
  mirror_last_write (el w) = o -> nv_last_write (el w) = o -> (length (from w o) < n)%nat ->
  match split_events n (from w o) with
  | Some (L, rest) => event_loop drv_readat n w o = Some (0, o + total L, with_el (set_writes (o + total L)) w) /\
      rest = from w (o + total L) /\ o + total L <= 4096
  | None => exists o', event_loop drv_readat n w o = Some (-1, o', with_el (set_writes o') w) /\ o <= o' <= 4096
  end.
Proof using HB HBend.
  induction n as [|n IH]; intros w o Hr Ho Hm Hn Hf; [lia|]. cbn [event_loop]. rewrite mirror_byte_spec by (done || lia).
  assert (Hself : with_el (set_writes o) w = w).
  { destruct w as [s [f sh mw nw nd md i]]. cbn in *. by subst. }
  pose proof (from_length w o Ho) as HL. destruct (Z.ltb_spec o 4096) as [Hlt|Hge].
  - assert (E0 : nth (Z.to_nat o) (M (st w)) 0 = nth 0 (from w o) 0).
    { rewrite !nth_lookup, lookup_drop. do 2 f_equal. lia. }
    rewrite E0. destruct (from w o) as [|t l] eqn:El; [cbn in HL; lia|]. cbn [split_events]. change (nth 0 (t :: l) 0) with t. rewrite <- El in *.
    destruct (t =? ELOG_TYPE_EOL).
    + unfold total. cbn [concat length]. rewrite Z.add_0_r, Hself. split; [done|]. split; [done|lia].
    + rewrite event_valid_spec by (done || lia). unfold event_length. set (len := nth 1 (from w o) 0).
      destruct ((9 <=? len) && _ && _ && _) eqn:E.
      * repeat (apply andb_prop in E as [E ?]). bool_to_prop. rewrite (proj2 (Z.eqb_neq len 0)) by lia.
        set (w1 := with_el (elog_tandem_increment_last_write len) w).
        assert (E1 : w1 = with_el (set_writes (o + len)) w).
        { unfold w1, with_el. by rewrite (tandem_writes o) by (done || lia). }
        assert (Ef : from w1 (o + len) = drop (Z.to_nat len) (from w o)).
        { rewrite drop_drop. change (M (st w1)) with (M (st w)). f_equal. lia. }
        rewrite u32_small by lia.
        pose proof (IH w1 (o + len)) as R. rewrite Ef in R.
        destruct (split_events n (drop (Z.to_nat len) (from w o))) as [[L rest]|].
        -- destruct R as (Er & Ee & Hle);
             [rewrite E1; by apply ready_writes|lia|by rewrite E1|by rewrite E1|rewrite length_drop; lia|].
           assert (Et : total (take (Z.to_nat len) (from w o) :: L) = len + total L).
           { rewrite total_cons, length_take. lia. }
           rewrite Et, Z.add_assoc. split; [|split; [done|done]]. rewrite Er, E1. done.
        -- destruct R as (o' & Er & Hle);
             [rewrite E1; by apply ready_writes|lia|by rewrite E1|by rewrite E1|rewrite length_drop; lia|].
           exists o'. split; [|lia]. rewrite Er, E1. done.
      * exists o. cbn [Z.eqb]. rewrite Hself. split; [done|lia].
  - assert (E : from w o = []) by (apply nil_length_inv; lia). rewrite E. cbn [split_events].
    exists o. rewrite Hself. split; [done|lia].
Qed.

Lemma update_state_spec n (w : world) : ready (el w) -> mirror_last_write (el w) = 8 -> nv_last_write (el w) = 8 ->
  (4096 < n)%nat ->
  match split_events n (from w 8) with
  | Some (L, rest) =>
      elog_update_event_buffer_state drv_readat n w =
        Some (if clear rest then 0 else -1, with_el (set_writes (8 + total L)) w) /\ 8 + total L <= 4096
  | None => exists o', elog_update_event_buffer_state drv_readat n w = Some (-1, with_el (set_writes o') w) /\ 8 <= o' <= 4096
  end.
Proof using HB HBend.
  intros Hr Hm Hn Hf. pose proof (from_length w 8 ltac:(lia)) as HL.
  pose proof (event_loop_spec n w 8 Hr ltac:(lia) Hm Hn ltac:(lia)) as R.
  unfold elog_update_event_buffer_state. change elog_events_start with 8.
  destruct (split_events n (from w 8)) as [[L rest]|].
  - destruct R as (-> & -> & Hle). cbn [Z.ltb Z.compare]. split; [|done].
    rewrite buffer_clear_spec by (by apply ready_writes || (unfold total in *; lia)). done.
  - destruct R as (o' & -> & Hle). exists o'. done.
Qed.

(** Reading the flash into the mirror: a log is taken over, anything else is refused, and
    the counter of the flash says whether an erase is due. *)
Lemma scan_spec n (w : world) : ready (el w) -> (4096 < n)%nat ->
  exists s1, M s1 = F (drv (st w)) /\ drv s1 = drv (st w) /\
  match decode (F (drv (st w))) with
  | Some L => elog_scan_flash drv_readat n w = Some (0, mk_world s1 (set_writes (8 + total L) (el w)))
  | None => exists x, elog_scan_flash drv_readat n w = Some (-1, mk_world s1 (set_writes x (el w))) /\ 0 <= x <= 4096 /\
      (x = 0 <-> clear (F (drv (st w))) = true)
  end.
Proof using Hflash Hoff0 Hend HB HBend.
  intros Hr Hn. set (f := F (drv (st w))).
  pose proof (F_length (img := img) off0 4096 size_range (drv (st w))) as HF. change (Elog.st w) with (st w) in HF. fold f in HF.
  set (s1 := set_mem (store (mem (st w)) (u32 (B + 0)) f) (st w)).
  assert (HM : M s1 = f).
  { unfold s1. rewrite (store_mirror B 4096 HB size_range HBend) by lia. unfold splice.
    change (Z.to_nat 0) with O. cbn [take app]. rewrite drop_ge; [by rewrite app_nil_r|].
    pose proof (M_length B 4096 size_range (st w)). lia. }
  exists s1. split; [done|]. split; [done|]. unfold elog_scan_flash. rewrite (rd_nv _ Hr), (rd_mirror _ Hr).
  unfold rdev_mmap_full. change (region_device_sz mirror) with 4096. change (region_device_sz nv) with 4096.
  rewrite (mirror_mmap drv_readat B 4096 size_range) by lia.
  change (0 + 4096 <=? 4096) with true. cbn [default from_option].
  destruct w as [s e]. cbn [with_st st el] in *. rewrite (rd_nv _ Hr).
  rewrite (nv_read (Hflash := Hflash) dreg off0 4096 Hoff0 size_range Hend). fold f.
  rewrite u32_small by lia. change (negb (4096 =? 4096)) with false. cbv iota.
  unfold map_mem, with_st. cbn [st el]. fold s1. rewrite put_buffer by done.
  change (with_el elog_tandem_reset_last_write _) with (mk_world s1 (set_writes 0 e)).
  rewrite buffer_clear_spec by (by apply ready_writes || lia).
  change (from (mk_world s1 (set_writes 0 e)) 0) with (M s1). rewrite HM.
  destruct (clear f) eqn:Ec.
  - rewrite (decode_clear f ltac:(lia) Ec). exists 0. split; [done|]. split; [lia|]. split; intros _; reflexivity.
  - change (with_el (elog_tandem_increment_last_write _) _) with (mk_world s1 (set_writes 8 e)).
    rewrite header_valid_spec by (by apply ready_writes). cbn [st]. rewrite HM. unfold decode.
    destruct (header_ok (take 8 f)); cbn [negb].
    + pose proof (update_state_spec n (mk_world s1 (set_writes 8 e)) ltac:(by apply ready_writes) eq_refl eq_refl Hn) as R.
      change (Z.to_nat 8) with 8%nat in R. cbn [st] in R. rewrite HM in R.
      rewrite (split_events_fuel _ n) by (rewrite length_drop; lia).
      destruct (split_events n (drop 8 f)) as [[L rest]|].
      * destruct R as (-> & Hle). unfold with_el. cbn [st el]. rewrite set_writes_twice. destruct (clear rest).
        -- done.
        -- exists (8 + total L). unfold total in *. split; [done|]. split; [lia|]. split; [lia|done].
      * destruct R as (o' & -> & Hle). exists o'. split; [done|]. split; [lia|]. split; [lia|done].
    + exists 8. split; [done|]. split; [lia|]. by split.
Qed.
(** ** Building an event *)

Context (CONFIG_RTC : bool) (rtc_get : D -> rtc_time * D).
(** Reading the clock leaves the flash. *)
Hypothesis Hrtc : forall d x, img (snd (rtc_get d)) x = img d x.

Lemma F_ext d d' : (forall x, img d' x = img d x) -> F d' = F d.
Proof. intros H. unfold ElogMirror.F. apply slice_ext. auto. Qed.

Lemma bin2bcd_byte x : is_byte (bin2bcd x).
Proof. unfold bin2bcd. apply (wrap_range 8). lia. Qed.

Lemma timestamp_spec d : exists stamp d', elog_fill_timestamp CONFIG_RTC rtc_get d = (stamp, d') /\
  length stamp = 6%nat /\ Forall is_byte stamp /\ forall x, img d' x = img d x.
Proof using Hrtc.
  unfold elog_fill_timestamp. destruct (negb CONFIG_RTC).
  - exists (repeat 0 6), d. split; [done|]. split; [done|]. split; [|done]. by repeat constructor.
  - specialize (Hrtc d). destruct (rtc_get d) as [t d']. cbn [snd] in Hrtc. destruct (_ || _).
    + exists (repeat 0 6), d'. split; [done|]. split; [done|]. split; [|done]. by repeat constructor.
    + eexists _, d'. split; [done|]. split; [done|]. split; [|done]. repeat (constructor; [apply bin2bcd_byte|]). constructor.
Qed.

Lemma mirror_mem (w : world) o : 0 <= o < 4096 -> mem (st w) (u32 (u32 (B + o))) = nth (Z.to_nat o) (M (st w)) 0.
Proof using HB HBend. intros Ho. rewrite (u32_small (u32 _)) by apply u32_range. rewrite u32_small by lia. by rewrite (M_nth B 4096 size_range). Qed.

Lemma esum_app l b : esum (l ++ [b]) = u8 (esum l + b).
Proof. unfold esum. by rewrite fold_left_app. Qed.

Lemma esum_range l : is_byte (esum l).
Proof.
  destruct l as [|b l] using rev_ind; [unfold esum, is_byte; cbn; lia|]. rewrite esum_app. apply (wrap_range 8). lia.
Qed.

(** Storing at an offset of the mirror, through an address of the event. *)
Lemma store_event (w : world) x k b : 0 <= x -> 0 <= k -> x + k + Z.of_nat (length b) <= 4096 -> x + k < 4096 ->
  M (st (map_mem (fun m => store m (u32 (u32 (B + x) + k)) b) w)) = splice (M (st w)) (Z.to_nat (x + k)) b.
Proof using HB HBend.
  intros Hx Hk Hle Hlt. unfold map_mem, with_st. cbn [st]. rewrite (u32_small (B + x)) by lia.
  rewrite <- Z.add_assoc. apply (store_mirror B 4096 HB size_range HBend); lia.
Qed.

(** The checksum byte of an event of [n] bytes that begins at [x]. *)
Lemma checksum_store (w : world) x n c : 0 <= x -> 9 <= n -> x + n <= 4096 ->
  nth (Z.to_nat (x + 1)) (M (st w)) 0 = n ->
  M (st (map_mem (fun m => elog_update_checksum m (u32 (B + x)) c) w)) = splice (M (st w)) (Z.to_nat (x + (n - 1))) [c].
Proof using HB HBend.
  intros Hx Hn Hle Hl.
  assert (E : mem (st w) (u32 (u32 (B + x) + length_offset)) = n).
  { rewrite <- Hl. unfold length_offset. rewrite (u32_small (B + x)) by lia. rewrite <- Z.add_assoc.
    rewrite <- mirror_mem by lia. by rewrite (u32_small (u32 _)) by apply u32_range. }
  rewrite <- (store_event w x (n - 1) [c]) by (cbn; lia). unfold map_mem, elog_update_checksum. rewrite E.
  by rewrite Z.add_sub_assoc.
Qed.

(** The bytes of an event. *)
Definition made (type : Z) (stamp data : list Z) : list Z :=
  let b := [type; 9 + Z.of_nat (length data)] ++ stamp ++ data in b ++ [u8 (- esum (b ++ [0]))].

Lemma made_length type stamp data : length stamp = 6%nat ->
  Z.of_nat (length (made type stamp data)) = 9 + Z.of_nat (length data).
Proof. intros Ls. unfold made. rewrite !length_app, Ls. cbn [length]. lia. Qed.

Lemma made_sum type stamp data : esum (made type stamp data) = 0.
Proof.
  unfold made. set (b := [type; _] ++ stamp ++ data). rewrite !esum_app, Z.add_0_r.
  pose proof (esum_range b) as Hb. unfold is_byte in Hb.
  unfold u8, wrap. rewrite (Z.mod_small (esum b)) by (change (2 ^ 8) with 256; lia).
  by rewrite Zplus_mod_idemp_r, Z.add_opp_diag_r.
Qed.

Lemma made_ok type stamp data : length stamp = 6%nat -> Forall is_byte stamp -> Forall is_byte data -> is_byte type ->
  type <> ELOG_TYPE_EOL -> 9 + Z.of_nat (length data) <= MAX_EVENT_SIZE ->
  event_ok (made type stamp data) = true /\ Forall is_byte (made type stamp data) /\
  entry_of (made type stamp data) = (type, data).
Proof.
  intros Ls Bs Hd Ht Hne Hmax. pose proof (made_length type stamp data Ls) as Hlen. unfold MAX_EVENT_SIZE in Hmax.
  split; [|split].
  - unfold event_ok. rewrite Hlen, made_sum. unfold MAX_EVENT_SIZE. rewrite (proj2 (Z.leb_le 9 _)), (proj2 (Z.leb_le _ 0x7f)) by lia.
    unfold made. cbn [app nth]. by rewrite Z.eqb_refl, (proj2 (Z.eqb_neq type _)) by done.
  - unfold made. repeat (apply Forall_app; split); [|done|done|].
    + repeat constructor; unfold is_byte in *; lia.
    + constructor; [apply (wrap_range 8); lia|constructor].
  - unfold entry_of. replace (length (made type stamp data)) with (9 + length data)%nat by lia. unfold made. f_equal.
    destruct stamp as [|s1 [|s2 [|s3 [|s4 [|s5 [|s6 [|]]]]]]]; try (cbn in Ls; lia).
    cbn [app drop]. replace (9 + length data - 9)%nat with (length data) by lia. apply take_app_length.
Qed.

(** The fields are stored one behind the other. *)
Lemma fields_stored (w : world) x l1 l2 : 0 <= x -> x + Z.of_nat (length (l1 ++ l2)) <= 4096 -> x + Z.of_nat (length l1) < 4096 ->
  forall w1 : world, M (st w1) = splice (M (st w)) (Z.to_nat x) l1 ->
  M (st (map_mem (fun m => store m (u32 (u32 (B + x) + Z.of_nat (length l1))) l2) w1)) =
    splice (M (st w)) (Z.to_nat x) (l1 ++ l2).
Proof using HB HBend.
  intros Hx Hle Hlt w1 E. pose proof (M_length B 4096 size_range (st w)) as HL. rewrite length_app in Hle.
  rewrite store_event, E by lia. rewrite <- splice_app by lia. f_equal. lia.
Qed.

(** The length byte of an event that is stored. *)
Lemma stored_length (w w1 : world) x l : 0 <= x -> (2 <= length l)%nat -> x + Z.of_nat (length l) <= 4096 ->
  M (st w1) = splice (M (st w)) (Z.to_nat x) l -> nth (Z.to_nat (x + 1)) (M (st w1)) 0 = nth 1 l 0.
Proof.
  intros Hx Hl Hle ->. pose proof (M_length B 4096 size_range (st w)) as HL. rewrite splice_nth by lia.
  rewrite decide_True by lia. by replace (Z.to_nat (x + 1) - Z.to_nat x)%nat with 1%nat by lia.
Qed.

Lemma checksum_spec (w w1 : world) x l : 0 <= x -> (2 <= length l)%nat -> x + Z.of_nat (length l) <= 4096 ->
  nth 1 l 0 = Z.of_nat (length l) -> M (st w1) = splice (M (st w)) (Z.to_nat x) l ->
  elog_checksum_event (mem (st w1)) (u32 (B + x)) = esum l.
Proof using HB HBend.
  intros Hx Hl Hle Hn EM. pose proof (M_length B 4096 size_range (st w)) as HL.
  unfold elog_checksum_event.
  assert (E : mem (st w1) (u32 (u32 (B + x) + length_offset)) = Z.of_nat (length l)).
  { unfold length_offset. rewrite (u32_small (B + x)) by lia. rewrite <- Z.add_assoc.
    pose proof (mirror_mem w1 (x + 1) ltac:(lia)) as Em. rewrite (u32_small (u32 _)) in Em by apply u32_range.
    rewrite Em, <- Hn. by apply (stored_length w). }
  rewrite E, (load_mirror B 4096 HB size_range HBend) by lia. rewrite EM. unfold esum. f_equal.
  unfold splice. rewrite drop_app_length' by (rewrite length_take; lia). apply take_app_length'. lia.
Qed.

Lemma build_stores (w : world) x type data : 0 <= x -> 9 + Z.of_nat (length data) <= MAX_EVENT_SIZE ->
  x + (9 + Z.of_nat (length data)) <= 4096 ->
  exists s' stamp, elog_build_event CONFIG_RTC rtc_get w (u32 (B + x)) (9 + Z.of_nat (length data)) type data = with_st s' w /\
    M s' = splice (M (st w)) (Z.to_nat x) (made type stamp data) /\ length stamp = 6%nat /\ Forall is_byte stamp /\
    forall y, img (drv s') y = img (drv (st w)) y.
Proof using HB HBend Hrtc.
  intros Hx Hmax Hle. unfold MAX_EVENT_SIZE in Hmax. set (n := 9 + Z.of_nat (length data)) in *.
  pose proof (M_length B 4096 size_range (st w)) as HL. unfold elog_build_event.
  set (w1 := map_mem _ w). destruct (timestamp_spec (drv (st w1))) as (stamp & d' & -> & Ls & Bs & Hi).
  set (w2 := with_st (set_drv d' (st w1)) w1). set (w3 := map_mem _ w2). set (w4 := map_mem _ w3).
  set (b := [type; n] ++ stamp ++ data).
  assert (Lb : Z.of_nat (length b) = n - 1) by (unfold b; rewrite !length_app, Ls; cbn [length]; lia).
  assert (E1 : M (st w2) = splice (M (st w)) (Z.to_nat x) [type; n]).
  { change (M (st w2)) with (M (st w1)).
    assert (Ew : w1 = map_mem (fun m => store m (u32 (u32 (B + x) + 0)) [type; n]) w).
    { unfold w1. rewrite Z.add_0_r, (u32_small (u32 _)) by apply u32_range. done. }
    rewrite Ew, store_event by (cbn [length]; lia). by rewrite Z.add_0_r. }
  assert (E2 : M (st w3) = splice (M (st w)) (Z.to_nat x) ([type; n] ++ stamp)).
  { apply (fields_stored w x [type; n] stamp); [done|rewrite length_app, Ls; cbn [length]; lia|cbn [length]; lia|exact E1]. }
  assert (E3 : M (st w4) = splice (M (st w)) (Z.to_nat x) b).
  { unfold b. rewrite app_assoc. assert (Es : Z.of_nat (length ([type; n] ++ stamp)) = sizeof_event_header) by (rewrite length_app, Ls; done).
    unfold w4. rewrite <- Es.
    apply (fields_stored w x ([type; n] ++ stamp) data); [done|rewrite !length_app, Ls; cbn [length]; lia|rewrite length_app, Ls; cbn [length]; lia|exact E2]. }
  set (w5 := map_mem (fun m => elog_update_checksum m (u32 (B + x)) 0) w4).
  assert (Hb1 : nth 1 b 0 = n) by done. assert (Hb1' : forall c, nth 1 (b ++ [c]) 0 = n) by done.
  assert (E4 : M (st w5) = splice (M (st w)) (Z.to_nat x) (b ++ [0])).
  { unfold w5. rewrite (checksum_store w4 x n 0 ltac:(lia) ltac:(lia) ltac:(lia)) by (rewrite (stored_length w w4 x b); done || lia).
    rewrite E3, <- splice_app by (cbn [length]; lia). f_equal. lia. }
  assert (L5 : Z.of_nat (length (b ++ [0])) = n) by (rewrite length_app; cbn [length]; lia).
  assert (Hck : elog_checksum_event (mem (st w5)) (u32 (B + x)) = esum (b ++ [0])).
  { apply (checksum_spec w); [done|lia|lia|by rewrite L5|exact E4]. }
  exists (st (map_mem (fun m => elog_update_checksum m (u32 (B + x)) (u8 (- esum (b ++ [0])))) w5)), stamp.
  split; [|split; [|split; [exact Ls|split; [exact Bs|intros y; exact (Hi y)]]]].
  - rewrite <- Hck. reflexivity.
  - rewrite (checksum_store w5 x n _ ltac:(lia) ltac:(lia) ltac:(lia)) by (rewrite (stored_length w w5 x (b ++ [0])); done || lia).
    rewrite E4. replace (Z.to_nat (x + (n - 1))) with (Z.to_nat x + length b)%nat by lia.
    apply splice_end; [cbn [length]; lia|done].
Qed.

Lemma build_spec (w : world) x type data R A : x = Z.of_nat (length A) -> M (st w) = A ++ R ->
  let n := 9 + Z.of_nat (length data) in
  is_byte type -> type <> ELOG_TYPE_EOL -> Forall is_byte data -> n <= MAX_EVENT_SIZE -> n <= Z.of_nat (length R) ->
  exists s' ev, elog_build_event CONFIG_RTC rtc_get w (u32 (B + x)) n type data = with_st s' w /\
    M s' = A ++ ev ++ drop (length ev) R /\ event_ok ev = true /\ Forall is_byte ev /\ entry_of ev = (type, data) /\
    Z.of_nat (length ev) = n /\ forall y, img (drv s') y = img (drv (st w)) y.
Proof using HB HBend Hrtc.
  intros -> HM n Ht Hne Hd Hmax HR. pose proof (M_length B 4096 size_range (st w)) as HL. rewrite HM, length_app in HL.
  destruct (build_stores w (Z.of_nat (length A)) type data) as (s' & stamp & E & EM & Ls & Bs & Hi); [lia|exact Hmax|lia|].
  destruct (made_ok type stamp data Ls Bs Hd Ht Hne Hmax) as (O1 & O2 & O3). pose proof (made_length type stamp data Ls) as Hl.
  exists s', (made type stamp data). split; [exact E|]. split; [|done].
  rewrite EM, HM, Nat2Z.id. apply splice_parts. lia.
Qed.

(** ** The flash follows the mirror *)

Lemma M_piece (w : world) j n : 0 <= j -> 0 <= n ->
  take (Z.to_nat (j + n)) (M (st w)) = take (Z.to_nat j) (M (st w)) ++ take (Z.to_nat n) (from w j).
Proof. intros Hj Hn. rewrite Z2Nat.inj_add by lia. by rewrite <- take_take_drop. Qed.

Lemma nv_write_spec (w : world) j n : ready (el w) -> 0 <= j -> 0 <= n -> j + n <= 4096 -> Forall is_byte (M (st w)) ->
  F (drv (st w)) = take (Z.to_nat j) (M (st w)) ++ repeat ELOG_TYPE_EOL (Z.to_nat (4096 - j)) ->
  exists s', elog_nv_write drv_readat drv_writeat w j n = with_st s' w /\ M s' = M (st w) /\
    F (drv s') = take (Z.to_nat (j + n)) (M (st w)) ++ repeat ELOG_TYPE_EOL (Z.to_nat (4096 - (j + n))).
Proof using Hflash Hoff0 Hend HB HBend.
  intros Hr Hj Hn Hle Hb HF. pose proof (M_length B 4096 size_range (st w)) as HL. unfold elog_nv_write.
  destruct (Z.eqb_spec n 0) as [-> |Hn0].
  { exists (st w). rewrite Z.add_0_r. split; [by destruct w|]. done. }
  rewrite event_buffer by (done || lia). rewrite (proj2 (Z.leb_le _ _)) by lia. rewrite (rd_nv _ Hr).
  rewrite (load_mirror B 4096 HB size_range HBend) by lia. set (b := take (Z.to_nat n) (from w j)).
  assert (Lb : Z.of_nat (length b) = n) by (unfold b; rewrite length_take, length_drop; lia).
  assert (Lj : length (take (Z.to_nat j) (M (st w))) = Z.to_nat j) by (rewrite length_take; lia).
  destruct (nv_write (Hflash := Hflash) dreg off0 4096 Hoff0 size_range Hend (st w) j b) as (d' & -> & E);
    [lia|lia|by apply Forall_take, Forall_drop| |].
  { intros i Hi. rewrite HF, app_nth2, nth_repeat_lt by lia. done. }
  rewrite put_buffer by done. exists (set_drv d' (st w)). split; [done|]. split; [done|].
  change (drv (set_drv d' (st w))) with d'. rewrite E, HF.
  pose proof (splice_parts (take (Z.to_nat j) (M (st w))) (repeat ELOG_TYPE_EOL (Z.to_nat (4096 - j))) b
    ltac:(rewrite repeat_length; lia)) as S. rewrite Lj in S. rewrite S.
  rewrite M_piece, drop_repeat, <- app_assoc by lia. fold b. do 3 f_equal. lia.
Qed.

(** A log as the region holds it. *)
Definition image (h : list Z) (L : list (list Z)) : list Z :=
  h ++ concat L ++ repeat ELOG_TYPE_EOL (Z.to_nat (4096 - 8 - total L)).

(** What the counters say of the mirror and the flash. *)
Record pending (w : world) (h : list Z) (L : list (list Z)) : Prop := mk_pending
  { pd_ready : ready (el w); pd_header : header_ok h = true; pd_length : length h = 8%nat; pd_events : events_ok L;
    pd_size : 8 + total L <= 4096; pd_bytes : Forall is_byte (M (st w));
    pd_written : mirror_last_write (el w) = 8 + total L;
    pd_mirror : exists R, M (st w) = (h ++ concat L) ++ R;
    pd_flash : nv_last_write (el w) = NV_NEEDS_ERASE \/
      M (st w) = image h L /\ 0 <= nv_last_write (el w) <= 8 + total L /\
      F (drv (st w)) = take (Z.to_nat (nv_last_write (el w))) (M (st w)) ++
                       repeat ELOG_TYPE_EOL (Z.to_nat (4096 - nv_last_write (el w))) }.

Lemma image_decode h L : header_ok h = true -> length h = 8%nat -> events_ok L -> 8 + total L < 4096 ->
  decode (image h L) = Some L.
Proof. intros. unfold image. apply decode_image; try done. lia. Qed.

Lemma image_take h L l : length h = 8%nat -> take (Z.to_nat (8 + total L)) ((h ++ concat L) ++ l) = h ++ concat L.
Proof. intros Hh. apply take_app_length'. rewrite length_app. unfold total. lia. Qed.

(** The whole log written: mirror and flash hold it. *)
Definition in_step (w : world) (h : list Z) (L : list (list Z)) : Prop :=
  pending w h L /\ M (st w) = image h L /\ F (drv (st w)) = image h L /\ nv_last_write (el w) = 8 + total L /\
  8 + total L < 4096.

Lemma in_step_intro (s : state) e h L : ready e -> header_ok h = true -> length h = 8%nat -> events_ok L -> 8 + total L < 4096 ->
  Forall is_byte (image h L) -> M s = image h L -> F (drv s) = image h L ->
  in_step (mk_world s (set_writes (8 + total L) e)) h L.
Proof.
  intros Hr Hh Hl HL Hs Hb HM HF. pose proof (total_nonneg L). unfold in_step.
  split; [|split; [done|split; [done|split; [done|done]]]].
  split; cbn [st el]; try done.
  - by apply ready_writes.
  - lia.
  - by rewrite HM.
  - exists (repeat ELOG_TYPE_EOL (Z.to_nat (4096 - 8 - total L))). rewrite HM. unfold image. by rewrite app_assoc.
  - right. split; [done|]. change (nv_last_write (set_writes (8 + total L) e)) with (8 + total L). split; [lia|].
    rewrite HM, HF. unfold image. rewrite app_assoc, image_take by done. do 2 f_equal. lia.
Qed.

Lemma pending_length w h L : pending w h L -> Z.of_nat (length (h ++ concat L)) = 8 + total L.
Proof. intros P. rewrite length_app, (pd_length _ _ _ P). unfold total. lia. Qed.

Lemma pending_bytes w h L : pending w h L -> Forall is_byte (image h L).
Proof.
  intros P. destruct (pd_mirror _ _ _ P) as (R & HM). pose proof (pd_bytes _ _ _ P) as Hb.
  rewrite HM in Hb. apply Forall_app in Hb as [Hb _]. unfold image. rewrite app_assoc.
  apply Forall_app. split; [done|apply erased_bytes].
Qed.

(** What is written, with what is erased behind it. *)
Lemma image_written w h L : pending w h L ->
  take (Z.to_nat (8 + total L)) (M (st w)) ++ repeat ELOG_TYPE_EOL (Z.to_nat (4096 - (8 + total L))) = image h L.
Proof.
  intros P. destruct (pd_mirror _ _ _ P) as (R & ->). rewrite image_take by exact (pd_length _ _ _ P).
  unfold image. rewrite app_assoc. do 2 f_equal. lia.
Qed.

Lemma pending_in_step (w : world) s h L e : pending w h L -> 8 + total L < 4096 -> ready e -> M s = image h L -> F (drv s) = image h L ->
  in_step (mk_world s (set_writes (8 + total L) e)) h L.
Proof.
  intros P Hs Hr HM HF.
  exact (in_step_intro s e h L Hr (pd_header _ _ _ P) (pd_length _ _ _ P) (pd_events _ _ _ P) Hs
    (pending_bytes _ _ _ P) HM HF).
Qed.

(** The flash is erased, written, and read back. *)
Lemma sync_erase n (w : world) h L : pending w h L -> 8 + total L < 4096 -> nv_last_write (el w) = NV_NEEDS_ERASE -> (4096 < n)%nat ->
  exists w', elog_sync_to_nv drv_readat drv_writeat drv_eraseat n w = Some (0, w') /\ in_step w' h L.
Proof using Hflash Hoff0 Hend HB HBend.
  intros P Hs E Hn. pose proof (pd_ready _ _ _ P) as Hr. pose proof (total_nonneg L) as H0.
  unfold elog_sync_to_nv, elog_nv_needs_update, elog_nv_needs_erase. rewrite (pd_written _ _ _ P), E.
  rewrite (proj2 (Z.eqb_neq NV_NEEDS_ERASE _)) by (unfold NV_NEEDS_ERASE; lia). cbn [negb]. rewrite Z.eqb_refl.
  unfold elog_nv_erase. rewrite (rd_nv _ Hr). change (region_device_sz nv) with 4096.
  destruct (nv_erase (Hflash := Hflash) dreg off0 4096 Hoff0 size_range Hend (st w)) as (d' & -> & Ed).
  set (w1 := with_el elog_nv_reset_last_write (with_st (set_drv d' (st w)) w)).
  assert (Hr1 : ready (el w1)) by (by apply ready_nv_write).
  unfold elog_nv_region_to_update. change (nv_last_write (el w1)) with 0.
  change (mirror_last_write (el w1)) with (mirror_last_write (el w)). rewrite (pd_written _ _ _ P), u32_small by lia.
  destruct (nv_write_spec w1 0 (8 + total L - 0)) as (s2 & -> & EM2 & EF2);
    [done|lia|lia|lia|exact (pd_bytes _ _ _ P)|exact Ed|].
  change (M (st w1)) with (M (st w)) in *. cbn [negb].
  set (w3 := with_el _ (with_st s2 w1)).
  assert (Ef : F (drv (st w3)) = image h L).
  { change (st w3) with s2. rewrite EF2, <- (image_written w h L P). by rewrite Z.sub_0_r, Z.add_0_l. }
  destruct (scan_spec n w3) as (s4 & EM4 & ED4 & R4); [by apply ready_nv_write|done|].
  rewrite Ef in *. rewrite (image_decode h L) in R4; [|apply P..|exact Hs].
  rewrite R4. change (0 <? 0) with false. cbv iota beta. eexists. split; [reflexivity|].
  apply (pending_in_step w); [done|exact Hs|by apply ready_nv_write|done|]. by rewrite ED4, Ef.
Qed.

Lemma writes_eq x e : mirror_last_write e = x -> nv_last_write e = x -> e = set_writes x e.
Proof. destruct e. unfold set_writes, with_mirror_write, with_nv_write. cbn. by intros -> ->. Qed.

(** What was added is written behind the rest. *)
Lemma sync_append n (w : world) h L : pending w h L -> 8 + total L < 4096 -> M (st w) = image h L -> 0 <= nv_last_write (el w) <= 8 + total L ->
  F (drv (st w)) = take (Z.to_nat (nv_last_write (el w))) (M (st w)) ++
                   repeat ELOG_TYPE_EOL (Z.to_nat (4096 - nv_last_write (el w))) ->
  exists w', elog_sync_to_nv drv_readat drv_writeat drv_eraseat n w = Some (0, w') /\ in_step w' h L.
Proof using Hflash Hoff0 Hend HB HBend.
  intros P Hs EM Hj EF. pose proof (pd_ready _ _ _ P) as Hr.
  unfold elog_sync_to_nv, elog_nv_needs_update, elog_nv_needs_erase. rewrite (pd_written _ _ _ P).
  rewrite (proj2 (Z.eqb_neq (nv_last_write _) NV_NEEDS_ERASE)) by (unfold NV_NEEDS_ERASE; lia). cbn [negb].
  set (j := nv_last_write (el w)) in *. destruct (Z.eqb_spec j (8 + total L)) as [E|Hne]; cbn [negb].
  - exists w. split; [done|]. pose proof (pending_in_step w (st w) h L (el w) P Hs Hr EM) as I.
    rewrite <- (writes_eq (8 + total L) (el w) (pd_written _ _ _ P) E) in I. destruct w as [s e].
    apply I. rewrite EF, E. exact (image_written _ h L P).
  - unfold elog_nv_region_to_update. fold j. rewrite (pd_written _ _ _ P), u32_small by lia.
    destruct (nv_write_spec w j (8 + total L - j)) as (s2 & -> & EM2 & EF2);
      [done|lia|lia|lia|exact (pd_bytes _ _ _ P)|exact EF|].
    rewrite Zplus_minus in EF2. rewrite (image_written w h L P) in EF2.
    eexists. split; [reflexivity|].
    assert (Ew : with_el (elog_nv_increment_last_write (8 + total L - j)) (with_st s2 w) =
                 mk_world s2 (set_writes (8 + total L) (el w))).
    { pose proof (pd_written _ _ _ P) as E. unfold with_el, with_st, elog_nv_increment_last_write. cbn [st el].
      fold j. rewrite Zplus_minus, u32_small by lia. f_equal.
      rewrite (writes_eq (8 + total L) (with_nv_write _ (el w))) by done. done. }
    rewrite Ew. apply (pending_in_step w); [done..| |exact EF2]. by rewrite EM2.
Qed.

Lemma sync_pending n (w : world) h L : pending w h L -> 8 + total L < 4096 -> (4096 < n)%nat ->
  exists w', elog_sync_to_nv drv_readat drv_writeat drv_eraseat n w = Some (0, w') /\ in_step w' h L.
Proof using Hflash Hoff0 Hend HB HBend.
  intros P Hs Hn. destruct (pd_flash _ _ _ P) as [E|(EM & Hj & EF)]; [by apply sync_erase|by apply sync_append].
Qed.
(** ** Adding an event where there is room *)

(** An event of [n] bytes built behind the log. *)
Definition appended (w : world) (n type : Z) (data : list Z) : world :=
  with_el (elog_mirror_increment_last_write n)
    (elog_put_event_buffer (elog_build_event CONFIG_RTC rtc_get w (u32 (B + mirror_last_write (el w))) n type data)
       (Some (u32 (B + mirror_last_write (el w))))).

Lemma appended_spec (w : world) h L type data : pending w h L ->
  let n := 9 + Z.of_nat (length data) in
  is_byte type -> type <> ELOG_TYPE_EOL -> Forall is_byte data -> n <= MAX_EVENT_SIZE -> 8 + total L + n <= 4096 ->
  exists ev, pending (appended w n type data) h (L ++ [ev]) /\ entry_of ev = (type, data) /\ total (L ++ [ev]) = total L + n /\
    nv_last_write (el (appended w n type data)) = nv_last_write (el w).
Proof using HB HBend Hrtc.
  intros P n Ht Hne Hd Hmax Hfit. pose proof (pd_ready _ _ _ P) as Hr. pose proof (total_nonneg L) as H0.
  destruct (pd_mirror _ _ _ P) as (R & HM). pose proof (pending_length w h L P) as Hk.
  pose proof (M_length B 4096 size_range (st w)) as HL. rewrite HM, length_app in HL.
  destruct (build_spec w (8 + total L) type data R (h ++ concat L) ltac:(lia) HM Ht Hne Hd Hmax ltac:(lia))
    as (s' & ev & E & EM & Hev & Bev & Een & Len & Hi). fold n in E, Len.
  assert (Et : total (L ++ [ev]) = total L + n) by (rewrite total_app, total_cons, Len; change (total []) with 0; lia).
  unfold appended. rewrite (pd_written _ _ _ P), E, put_buffer by done.
  exists ev. split; [|done]. rewrite app_assoc in EM.
  assert (Ec : (h ++ concat L) ++ ev = h ++ concat (L ++ [ev])).
  { rewrite concat_app. cbn [concat]. by rewrite app_nil_r, app_assoc. }
  rewrite Ec in EM. split; cbn [st el with_el with_st]; try apply P.
  - by apply ready_mirror_write.
  - apply Forall_app. split; [apply P|by constructor].
  - lia.
  - change (Forall is_byte (M s')). rewrite EM, <- Ec. pose proof (pd_bytes _ _ _ P) as Hb. rewrite HM in Hb.
    apply Forall_app in Hb as [Hb1 Hb2]. apply Forall_app. split; [by apply Forall_app|by apply Forall_drop].
  - change (u32 (mirror_last_write (el w) + n) = 8 + total (L ++ [ev])). rewrite (pd_written _ _ _ P), Et, u32_small by lia. lia.
  - by eexists.
  - change (nv_last_write (elog_mirror_increment_last_write n (el w))) with (nv_last_write (el w)).
    destruct (pd_flash _ _ _ P) as [EN|(EI & Hj & EF)]; [by left|right].
    assert (EI' : M s' = image h (L ++ [ev])).
    { rewrite EM. unfold image. rewrite app_assoc. f_equal. rewrite HM in EI. unfold image in EI. rewrite app_assoc in EI.
      apply app_inv_head in EI. rewrite EI, drop_repeat. f_equal. rewrite Et. lia. }
    split; [done|]. split; [lia|]. rewrite (F_ext _ _ Hi), EF. f_equal. rewrite EM, HM, <- Ec.
    rewrite <- (app_assoc (h ++ concat L) ev), !(take_app_le (h ++ concat L)) by lia. done.
Qed.

Lemma event_size_small (data : list Z) : 9 + Z.of_nat (length data) <= MAX_EVENT_SIZE ->
  u8 (sizeof_event_header + Z.of_nat (length data) + 1) = 9 + Z.of_nat (length data).
Proof. unfold MAX_EVENT_SIZE, sizeof_event_header, u8. intros H. rewrite wrap_small; [lia|]. change (2 ^ 8) with 256. lia. Qed.

(** The body of the function, up to the event in the mirror. *)
Lemma body_appended fuel add type data (w : world) h L : pending w h L ->
  let n := 9 + Z.of_nat (length data) in n <= MAX_EVENT_SIZE -> 8 + total L + n <= 4096 ->
  add_event_body drv_readat drv_writeat drv_eraseat CONFIG_RTC rtc_get fuel add type data w =
  match elog_shrink drv_readat drv_writeat fuel add (appended w n type data) with
  | None => None
  | Some (ret, w) => if ret <? 0 then Some (-1, w) else elog_sync_to_nv drv_readat drv_writeat drv_eraseat fuel w
  end.
Proof.
  intros P n Hmax Hfit. pose proof (total_nonneg L) as H0. unfold add_event_body. rewrite event_size_small by done. fold n.
  rewrite (proj2 (Z.ltb_ge MAX_EVENT_SIZE n)) by lia.
  rewrite event_buffer by (done || (rewrite (pd_written _ _ _ P); lia) || apply P || lia).
  rewrite (proj2 (Z.leb_le _ _)) by (rewrite (pd_written _ _ _ P); lia). done.
Qed.

(** There is room: the log is what it was, and the event. *)
Lemma body_fits fuel add type data (w : world) h L : pending w h L -> (4096 < fuel)%nat ->
  let n := 9 + Z.of_nat (length data) in
  is_byte type -> type <> ELOG_TYPE_EOL -> Forall is_byte data -> n <= MAX_EVENT_SIZE -> 8 + total L + n < 3842 ->
  exists w' ev, add_event_body drv_readat drv_writeat drv_eraseat CONFIG_RTC rtc_get fuel add type data w = Some (0, w') /\
    in_step w' h (L ++ [ev]) /\ entry_of ev = (type, data).
Proof using Hflash Hoff0 Hend HB HBend Hrtc.
  intros P Hf n Ht Hne Hd Hmax Hfit.
  destruct (appended_spec w h L type data P Ht Hne Hd Hmax ltac:(lia)) as (ev & P' & Een & Et & _). fold n in P', Et.
  rewrite (body_appended fuel add type data w h L P Hmax) by lia. fold n. unfold elog_shrink, elog_should_shrink.
  rewrite (pd_written _ _ _ P'), (rd_full _ (pd_ready _ _ _ P')), (proj2 (Z.leb_gt _ _)) by lia.
  change (0 <? 0) with false. cbv iota beta.
  destruct (sync_pending fuel _ h _ P' ltac:(lia) Hf) as (w' & E & I). exists w', ev. done.
Qed.
(** ** Making room *)

Lemma header_bytes_ok : header_ok elog_header_bytes = true /\ length elog_header_bytes = 8%nat /\ Forall is_byte elog_header_bytes.
Proof. repeat split. repeat (constructor; [unfold is_byte; vm_compute; by split|]). constructor. Qed.

Lemma splice_front (l b : list Z) : (length b <= length l)%nat -> splice l (Z.to_nat 0) b = b ++ drop (length b) l.
Proof. done. Qed.

(** The start of the function: what is written is forgotten, and the header is put. *)
Lemma needs_erase_eq e :
  elog_nv_needs_possible_erase e = with_nv_write (if nv_last_write e =? 0 then 0 else NV_NEEDS_ERASE) e.
Proof.
  unfold elog_nv_needs_possible_erase. destruct (Z.eqb_spec (nv_last_write e) 0) as [E|]; [|done].
  destruct e. cbn in *. by subst.
Qed.

Lemma header_put (w : world) : ready (el w) -> exists w1,
  elog_write_header_in_mirror drv_writeat
    (mk_world (st w) (snd (elog_mirror_reset_last_write (elog_nv_needs_possible_erase (el w))))) = w1 /\
  ready (el w1) /\ M (st w1) = elog_header_bytes ++ drop 8 (M (st w)) /\ drv (st w1) = drv (st w) /\
  mirror_last_write (el w1) = 8 /\
  nv_last_write (el w1) = if nv_last_write (el w) =? 0 then 0 else NV_NEEDS_ERASE.
Proof using HB HBend.
  intros Hr. destruct header_bytes_ok as (_ & Lh & _). unfold elog_write_header_in_mirror. rewrite needs_erase_eq.
  unfold elog_mirror_reset_last_write. cbn [snd st el].
  set (e1 := with_mirror_write 0 _). assert (Hr1 : ready e1) by (by apply ready_mirror_write, ready_nv_write).
  rewrite (rd_mirror _ Hr1), (mirror_write drv_writeat B 4096 size_range) by (rewrite ?Lh; lia).
  eexists. split; [reflexivity|]. cbn [with_el with_st st el]. pose proof (M_length B 4096 size_range (st w)).
  split; [by apply ready_mirror_write|]. split; [|split; [reflexivity|split; reflexivity]].
  rewrite (store_mirror B 4096 HB size_range HBend) by (rewrite ?Lh; lia). rewrite splice_front by lia. by rewrite Lh.
Qed.

(** Where the entries to keep begin. *)
Lemma shrink_loop_spec limit L : forall fuel (w : world) A rest, ready (el w) -> M (st w) = A ++ concat L ++ rest ->
  events_ok L -> nth 0 rest 0 = ELOG_TYPE_EOL \/ limit < Z.of_nat (length A) + total L -> (length L < fuel)%nat ->
  let off := Z.of_nat (length A) in
  shrink_loop drv_readat fuel w limit off = Some (off + total L - total (newest_events limit off L)).
Proof using HB HBend.
  induction L as [|ev L IH]; intros fuel w A rest Hr HM HL He Hf off; (destruct fuel as [|n]; [cbn in Hf; lia|]);
    pose proof (M_length B 4096 size_range (st w)) as HLn; rewrite HM, !length_app in HLn; cbn [shrink_loop newest_events].
  - change (total []) with 0. rewrite Z.add_0_r, Z.sub_0_r. destruct (Z.ltb_spec limit off); [done|].
    destruct He as [He|He]; [|change (total []) with 0 in He; lia].
    assert (Hlt : off < 4096) by (destruct rest; [done|]; cbn [concat length] in HLn; lia).
    rewrite mirror_byte_spec by (done || lia). rewrite (proj2 (Z.ltb_lt _ _)) by lia.
    rewrite HM. cbn [concat app]. rewrite app_nth2 by lia. replace (Z.to_nat off - length A)%nat with O by lia. by rewrite He.
  - pose proof HL as HL'. apply Forall_cons in HL as [Hev HL]. pose proof (event_ok_length ev Hev) as Hlen.
    rewrite concat_cons, length_app in HLn.
    destruct (limit <? off); [f_equal; lia|].
    assert (N : forall i, (i < length ev)%nat -> nth (Z.to_nat (off + Z.of_nat i)) (M (st w)) 0 = nth i ev 0).
    { intros i Hi. rewrite HM, app_nth2 by lia. rewrite concat_cons, <- app_assoc, app_nth1 by lia. f_equal. lia. }
    unfold event_ok in Hev. repeat (apply andb_prop in Hev as [Hev ?]). bool_to_prop.
    rewrite mirror_byte_spec by (done || lia). rewrite (proj2 (Z.ltb_lt _ _)) by lia.
    pose proof (N O ltac:(lia)) as N0. rewrite Z.add_0_r in N0. rewrite N0. rewrite (proj2 (Z.eqb_neq _ ELOG_TYPE_EOL)) by done.
    unfold length_offset. rewrite u32_small, mirror_byte_spec by (done || lia). rewrite (proj2 (Z.ltb_lt _ _)) by lia.
    pose proof (N 1%nat ltac:(lia)) as N1. change (Z.of_nat 1) with 1 in N1. rewrite N1. match goal with H : nth 1 ev 0 = _ |- _ => rewrite H end. rewrite u32_small by lia.
    pose proof (IH n w (A ++ ev) rest Hr) as R. rewrite length_app, Nat2Z.inj_add in R. fold off in R. rewrite R; [|..|done| |cbn in Hf; lia].
    + rewrite total_cons. f_equal. lia.
    + by rewrite HM, concat_cons, <- !app_assoc.
    + rewrite total_cons in He. destruct He; [by left|right; lia].
Qed.

(** The entries are moved to the front. *)
Lemma move_spec (w : world) off n : ready (el w) -> 8 <= off -> 0 <= n -> off + n <= 4096 ->
  exists s', elog_move_events_to_front drv_readat w off n = with_st s' w /\ drv s' = drv (st w) /\
    M s' = take 8 (M (st w)) ++ take (Z.to_nat n) (from w off) ++ repeat ELOG_TYPE_EOL (Z.to_nat (4096 - 8 - n)).
Proof using HB HBend.
  intros Hr Ho Hn Hle. pose proof (M_length B 4096 size_range (st w)) as HL. unfold elog_move_events_to_front.
  change elog_events_start with 8. rewrite !event_buffer by first [exact Hr|lia].
  rewrite (proj2 (Z.leb_le (off + n) 4096)), (proj2 (Z.leb_le (8 + n) 4096)) by lia.
  rewrite !put_buffer by done. set (w1 := map_mem _ w). assert (Hr1 : ready (el w1)) by done.
  rewrite (rd_mirror _ Hr1). change (region_device_sz mirror) with 4096. rewrite !u32_small by lia.
  rewrite event_buffer by first [exact Hr1|lia]. rewrite (proj2 (Z.leb_le _ 4096)) by lia. rewrite put_buffer by exact Hr1.
  set (b := take (Z.to_nat n) (from w off)).
  assert (Lb : length b = Z.to_nat n) by (unfold b; rewrite length_take, length_drop; lia).
  assert (E1 : M (st w1) = splice (M (st w)) (Z.to_nat 8) b).
  { unfold w1, map_mem, memcpy, with_st. cbn [st]. rewrite (load_mirror B 4096 HB size_range HBend) by lia.
    fold b. apply (store_mirror B 4096 HB size_range HBend); lia. }
  eexists (set_mem _ (st w1)). split; [done|]. split; [done|].
  rewrite (memset_mirror B 4096 HB size_range HBend), E1 by lia.
  replace (Z.to_nat (8 + n)) with (Z.to_nat 8 + length b)%nat by lia.
  rewrite splice_app by (rewrite repeat_length; lia). unfold splice. rewrite length_app, repeat_length.
  change (Z.to_nat 8) with 8%nat. rewrite (drop_ge (M (st w)) (8 + _)) by lia. rewrite app_nil_r. do 3 f_equal. lia.
Qed.
(** The oldest entries go: what is left waits to be written, the flash to be erased. *)
Lemma shrink_start fuel add (w : world) h L : pending w h L -> M (st w) = image h L -> nv_last_write (el w) <> 0 ->
  (4096 < fuel)%nat -> 1024 < 8 + total L ->
  let K := newest_events 1024 8 L in
  exists w1, elog_shrink_by_size drv_readat drv_writeat fuel add w 1024 =
      add ELOG_TYPE_LOG_CLEAR (le_data 2 (u16 (total L - total K))) w1 /\
    pending w1 elog_header_bytes K /\ nv_last_write (el w1) = NV_NEEDS_ERASE /\ total K + 1016 < total L.
Proof using HB HBend.
  intros P HM Hnv Hf Hbig K. pose proof (pd_ready _ _ _ P) as Hr. pose proof (pd_size _ _ _ P) as Hs.
  destruct header_bytes_ok as (Hh & Lh & Bh).
  destruct (newest_events_suffix 1024 L (pd_events _ _ _ P) 8) as (X & EL & HX1 & HX2). fold K in EL.
  specialize (HX2 Hbig). assert (Et : total L = total X + total K) by (rewrite EL at 1; apply total_app).
  pose proof (total_nonneg X). pose proof (total_nonneg K).
  destruct (header_put w Hr) as (w1 & E1 & Hr1 & M1 & _ & Hm1 & Hn1).
  rewrite (proj2 (Z.eqb_neq _ 0)) in Hn1 by done.
  assert (M1' : M (st w1) = elog_header_bytes ++ concat L ++ repeat ELOG_TYPE_EOL (Z.to_nat (4096 - 8 - total L))).
  { rewrite M1, HM. unfold image. by rewrite drop_app_length' by (by rewrite (pd_length _ _ _ P)). }
  unfold elog_shrink_by_size. cbv zeta. change (elog_mirror_reset_last_write (el (with_el elog_nv_needs_possible_erase w)))
    with (mirror_last_write (elog_nv_needs_possible_erase (el w)), snd (elog_mirror_reset_last_write (elog_nv_needs_possible_erase (el w)))).
  cbv iota beta. change (st (with_el elog_nv_needs_possible_erase w)) with (st w). rewrite E1.
  assert (Esp : elog_events_total_space (el w) = 4088).
  { unfold elog_events_total_space. rewrite (rd_nv _ Hr). done. }
  rewrite Esp. change (4088 <=? 1024) with false. cbv iota.
  assert (Ecap : mirror_last_write (elog_nv_needs_possible_erase (el w)) = 8 + total L).
  { rewrite needs_erase_eq. exact (pd_written _ _ _ P). }
  rewrite Ecap. unfold elog_do_shrink.
  pose proof (shrink_loop_spec 1024 L fuel w1 elog_header_bytes _ Hr1 M1' (pd_events _ _ _ P)) as R. rewrite Lh in R.
  change (Z.of_nat 8) with 8 in R. change elog_events_start with 8. fold K in R. rewrite R; clear R.
  2: { right. lia. }
  2: { assert (length L <= length (concat L))%nat by (apply concat_length_ge, P).
       unfold total in Hs. lia. }
  fold K. replace (8 + total L - total K) with (8 + total X) by lia.
  assert (Er : u32 (8 + total L - (8 + total X)) = total K) by (rewrite u32_small; lia). rewrite Er; clear Er.
  destruct (move_spec w1 (8 + total X) (total K) Hr1) as (s2 & -> & D2 & M2); [lia..|].
  replace (8 + total X - 8) with (total L - total K) by lia. rewrite u32_small by lia.
  eexists. split; [reflexivity|].
  assert (M2' : M s2 = image elog_header_bytes K).
  { rewrite M2, M1'. rewrite (take_app_length' _ _ 8) by (by rewrite Lh). unfold image. do 2 f_equal.
    rewrite EL at 1. rewrite concat_app, <- app_assoc, app_assoc. rewrite drop_app_length' by (rewrite length_app, Lh; unfold total; lia).
    apply take_app_length'. unfold total. lia. }
  split; [|split; [exact Hn1|lia]]. split.
  - by apply ready_mirror_write.
  - exact Hh.
  - exact Lh.
  - pose proof (pd_events _ _ _ P) as HL. rewrite EL in HL. by apply Forall_app in HL as [_ HL].
  - lia.
  - change (Forall is_byte (M s2)). rewrite M2. pose proof (pd_bytes _ _ _ P) as Hb.
    assert (Hb1 : Forall is_byte (M (st w1))) by (rewrite M1; apply Forall_app; split; [done|by apply Forall_drop]).
    apply Forall_app. split; [by apply Forall_take|]. apply Forall_app. split; [by apply Forall_take, Forall_drop|].
    apply erased_bytes.
  - change (u32 (mirror_last_write (el w1) + total K) = 8 + total K). rewrite Hm1. apply u32_small. lia.
  - exists (repeat ELOG_TYPE_EOL (Z.to_nat (4096 - 8 - total K))). change (M s2 = (elog_header_bytes ++ concat K) ++ repeat ELOG_TYPE_EOL (Z.to_nat (4096 - 8 - total K))).
    rewrite M2'. unfold image. by rewrite app_assoc.
  - by left.
Qed.

(** The log is begun anew. *)
Lemma prepare_start fuel add (w : world) : ready (el w) -> Forall is_byte (M (st w)) ->
  (nv_last_write (el w) = 0 -> clear (M (st w)) = true /\ clear (F (drv (st w))) = true) ->
  exists w1, elog_prepare_empty drv_readat drv_writeat fuel add w =
      add ELOG_TYPE_LOG_CLEAR (le_data 2 (u16 4088)) w1 /\ pending w1 elog_header_bytes [].
Proof using HB HBend.
  intros Hr Hb H0. destruct header_bytes_ok as (Hh & Lh & Bh).
  destruct (header_put w Hr) as (w1 & E1 & Hr1 & M1 & D1 & Hm1 & Hn1).
  assert (Esp : forall e, ready e -> elog_events_total_space e = 4088).
  { intros e He. unfold elog_events_total_space. rewrite (rd_nv _ He). done. }
  unfold elog_prepare_empty, elog_shrink_by_size. cbv zeta. change (elog_mirror_reset_last_write (el (with_el elog_nv_needs_possible_erase w)))
    with (mirror_last_write (elog_nv_needs_possible_erase (el w)), snd (elog_mirror_reset_last_write (elog_nv_needs_possible_erase (el w)))).
  cbv iota beta. change (st (with_el elog_nv_needs_possible_erase w)) with (st w). rewrite E1.
  rewrite (Esp _ Hr). change (4088 <=? 4088) with true. cbv iota.
  exists w1. split; [done|]. split.
  - exact Hr1.
  - exact Hh.
  - exact Lh.
  - constructor.
  - change (total []) with 0. lia.
  - rewrite M1. apply Forall_app. split; [done|by apply Forall_drop].
  - exact Hm1.
  - exists (drop 8 (M (st w))). cbn [concat]. by rewrite app_nil_r.
  - destruct (Z.eqb_spec (nv_last_write (el w)) 0) as [E|]; [right|by left]. destruct (H0 E) as [C1 C2].
    pose proof (M_length B 4096 size_range (st w)) as LM. pose proof (F_length (img := img) off0 4096 size_range (drv (st w))) as LF.
    apply clear_repeat in C1. apply clear_repeat in C2. rewrite Hn1. change (total []) with 0. split; [|split; [lia|]].
    + rewrite M1, C1, drop_repeat. unfold image. cbn [concat app]. do 2 f_equal; change (total []) with 0; lia.
    + change (take (Z.to_nat 0) (M (st w1))) with (@nil Z). rewrite D1, C2. cbn [app]. f_equal; lia.
Qed.
(** ** The functions of the log *)

Context (FMAP_OFFSET : Z) (boot_device_ro boot_device_rw : option region_device) (mirror_buffer : option Z)
  (CONFIG_ELOG_BOOT_COUNT CONFIG_CMOS_POST : bool) (boot_count_read : D -> Z * D)
  (cmos_post_log : D -> list elog_event * D) (acpi_is_wakeup_s3 : bool).
(** Neither do reading the count and the codes change the flash. *)
Hypothesis Hcount : forall d x, img (snd (boot_count_read d)) x = img d x.
Hypothesis Hpost : forall d x, img (snd (cmos_post_log d)) x = img d x.

Notation add_raw := (elog_add_event_raw drv_readat drv_writeat drv_eraseat FMAP_OFFSET boot_device_ro boot_device_rw
  mirror_buffer CONFIG_RTC CONFIG_ELOG_BOOT_COUNT CONFIG_CMOS_POST rtc_get boot_count_read cmos_post_log acpi_is_wakeup_s3).
Notation body := (add_event_body drv_readat drv_writeat drv_eraseat CONFIG_RTC rtc_get).

(** The log is [A]: it is set up, and the region and the mirror hold it. *)
Definition holds (w : world) (A : list entry) : Prop :=
  exists h L, in_step w h L /\ 8 + total L <= 3968 /\ map entry_of L = A.

(** The same, however full the log is. *)
Definition held (w : world) (A : list entry) : Prop := exists h L, in_step w h L /\ map entry_of L = A.

Lemma in_step_size w h L : in_step w h L -> 8 + log_size (map entry_of L) = 8 + total L /\ 8 + total L < 4096.
Proof. intros (P & _ & _ & _ & Hs). by rewrite (log_size_total _ (pd_events _ _ _ P)). Qed.

Lemma held_flash w A : held w A -> log_of (F (drv (st w))) = A.
Proof.
  intros (h & L & (P & _ & -> & _ & Hs) & E). unfold log_of.
  rewrite (image_decode h L (pd_header _ _ _ P) (pd_length _ _ _ P) (pd_events _ _ _ P) Hs). done.
Qed.

Lemma holds_held w A : holds w A -> held w A.
Proof. intros (h & L & I & _ & E). by exists h, L. Qed.

Lemma holds_size w A : holds w A -> 8 + log_size A <= 3968.
Proof. intros (h & L & I & Hs & <-). destruct (in_step_size w h L I). lia. Qed.

Lemma held_holds w A : held w A -> 8 + log_size A <= 3968 -> holds w A.
Proof. intros (h & L & I & <-) Hs. destruct (in_step_size w h L I). exists h, L. split; [done|]. split; [lia|done]. Qed.

Lemma holds_flash w A : holds w A -> log_of (F (drv (st w))) = A.
Proof. intros H. by apply held_flash, holds_held. Qed.

Lemma in_step_drv w h L d' : in_step w h L -> (forall x, img d' x = img (drv (st w)) x) ->
  in_step (with_st (set_drv d' (st w)) w) h L.
Proof.
  intros (P & HM & HF & Hn & Hs) Hi. set (w1 := with_st _ w).
  assert (EM : M (st w1) = M (st w)) by reflexivity.
  assert (EF : F (drv (st w1)) = F (drv (st w))) by exact (F_ext (drv (st w)) d' Hi).
  assert (Ee : el w1 = el w) by reflexivity. clearbody w1.
  unfold in_step. rewrite EM, EF, Ee. split; [|split; [exact HM|split; [exact HF|split; [exact Hn|exact Hs]]]].
  destruct P. split; rewrite ?EM, ?EF, ?Ee; assumption.
Qed.

Lemma held_drv w A d' : held w A -> (forall x, img d' x = img (drv (st w)) x) -> held (with_st (set_drv d' (st w)) w) A.
Proof. intros (h & L & I & E) Hi. exists h, L. split; [by apply in_step_drv|done]. Qed.

(** Once the log is set up, adding is the body. *)
Lemma add_initialized d fuel type data w : ready (el w) ->
  add_raw (S d) fuel type data w = body fuel (add_raw d fuel) type data w.
Proof. intros Hr. cbn [elog_add_event_raw]. unfold init_body. by rewrite (rd_init _ Hr). Qed.

Lemma le_data_bytes n x : Forall is_byte (le_data n x).
Proof. unfold le_data. apply Forall_map, Forall_forall. intros i _. cbn. apply (wrap_range 8). lia. Qed.

Lemma clear_args : is_byte ELOG_TYPE_LOG_CLEAR /\ ELOG_TYPE_LOG_CLEAR <> ELOG_TYPE_EOL.
Proof. split; [unfold is_byte|]; unfold ELOG_TYPE_LOG_CLEAR, ELOG_TYPE_EOL; lia. Qed.

(** The entry that says the log was cut. *)
Lemma clear_added d fuel removed (w : world) h K : pending w h K -> (4096 < fuel)%nat -> 8 + total K + 11 < 3842 ->
  exists w' ev, add_raw (S d) fuel ELOG_TYPE_LOG_CLEAR (le_data 2 removed) w = Some (0, w') /\ in_step w' h (K ++ [ev]) /\
    entry_of ev = (ELOG_TYPE_LOG_CLEAR, le_data 2 removed).
Proof using Hflash Hoff0 Hend HB HBend Hrtc.
  intros P Hf Hs. rewrite add_initialized by apply P. destruct clear_args as [C1 C2].
  apply (body_fits fuel _ _ _ w h K P Hf C1 C2); [apply le_data_bytes|vm_compute; by intros [=]|exact Hs].
Qed.

Lemma map_entry_snoc L ev e : entry_of ev = e -> map entry_of (L ++ [ev]) = map entry_of L ++ [e].
Proof. intros <-. apply map_app. Qed.

(** Where the event fits behind the log, it is added. *)
Lemma add_held d fuel type data (w : world) A : held w A -> (4096 < fuel)%nat ->
  is_byte type -> type <> ELOG_TYPE_EOL -> Forall is_byte data -> 9 + Z.of_nat (length data) <= MAX_EVENT_SIZE ->
  8 + log_size A + (9 + Z.of_nat (length data)) <= 4096 ->
  exists w', add_raw (S (S d)) fuel type data w = Some (0, w') /\ holds w' (log_add A (type, data)).
Proof using Hflash Hoff0 Hend HB HBend Hrtc.
  intros (h & L & (P & HM & HF & Hn & Hs) & EA) Hf Ht Hne Hd Hmax Hroom. pose proof (pd_ready _ _ _ P) as Hr.
  rewrite <- EA, (log_size_total _ (pd_events _ _ _ P)) in Hroom.
  set (n := 9 + Z.of_nat (length data)) in *. pose proof (total_nonneg L) as H0. unfold MAX_EVENT_SIZE in Hmax.
  rewrite add_initialized by done. set (e := (type, data) : entry). unfold log_add. cbv zeta.
  assert (EsA : log_size (A ++ [e]) = total L + n).
  { rewrite log_size_app, <- EA, (log_size_total _ (pd_events _ _ _ P)). change (log_size [e]) with (n + 0). lia. }
  rewrite EsA. destruct (Z.ltb_spec (8 + (total L + n)) 3842) as [Hfit|Hfull].
  - destruct (body_fits fuel (add_raw (S d) fuel) type data w h L P Hf Ht Hne Hd Hmax ltac:(lia)) as (w' & ev & E & I & Ee).
    change (entry_of ev = e) in Ee. exists w'. split; [done|]. exists h, (L ++ [ev]). split; [done|].
    rewrite (map_entry_snoc L ev _ Ee), EA. split; [|done].
    rewrite <- (log_size_total _ (pd_events _ _ _ (proj1 I))), (map_entry_snoc L ev _ Ee), EA. lia.
  - destruct (appended_spec w h L type data P Ht Hne Hd Hmax ltac:(lia)) as (ev & P' & Ee & Et & En). fold n in P', Et, En.
    rewrite (body_appended fuel _ type data w h L P Hmax) by lia. fold n. set (w1 := appended w n type data) in *.
    change (entry_of ev = e) in Ee. pose proof (map_entry_snoc L ev _ Ee) as Em. rewrite EA in Em. rewrite <- Em.
    set (L1 := L ++ [ev]) in *. rewrite Hn in En.
    assert (HM1 : M (st w1) = image h L1).
    { destruct (pd_flash _ _ _ P') as [E|(E & _)]; [|done]. rewrite En in E. unfold NV_NEEDS_ERASE in E. lia. }
    unfold elog_shrink, elog_should_shrink. rewrite (pd_written _ _ _ P'), (rd_full _ (pd_ready _ _ _ P')), (proj2 (Z.leb_le _ _)) by lia.
    rewrite (rd_shrink _ (pd_ready _ _ _ P')).
    destruct (shrink_start fuel (add_raw (S d) fuel) w1 h L1 P' HM1 ltac:(lia) Hf ltac:(lia)) as (w2 & E2 & P2 & _ & Hsm).
    rewrite E2. set (K := newest_events 1024 8 L1) in *. pose proof (pd_size _ _ _ P') as Hs1.
    destruct (clear_added d fuel (u16 (total L1 - total K)) w2 _ K P2 Hf ltac:(lia)) as (w3 & ec & E3 & I3 & Eec). rewrite E3.
    change (0 <? 0) with false. cbv iota. destruct (sync_pending fuel w3 _ _ (proj1 I3) (proj2 (in_step_size _ _ _ I3)) Hf) as (w4 & E4 & I4).
    exists w4. split; [done|]. exists elog_header_bytes, (K ++ [ec]). split; [done|].
    pose proof (log_size_total _ (pd_events _ _ _ P2)) as EsK.
    rewrite <- (log_size_total _ (pd_events _ _ _ (proj1 I4))), (map_entry_snoc K ec _ Eec), log_size_app, EsK. split.
    + change (log_size [(ELOG_TYPE_LOG_CLEAR, _)]) with 11. lia.
    + rewrite <- (newest_map 1024 L1 (pd_events _ _ _ P')). fold K.
      by rewrite EsK, Et.
Qed.

Lemma add_holds d fuel type data (w : world) A : holds w A -> (4096 < fuel)%nat ->
  is_byte type -> type <> ELOG_TYPE_EOL -> Forall is_byte data -> 9 + Z.of_nat (length data) <= MAX_EVENT_SIZE ->
  exists w', add_raw (S (S d)) fuel type data w = Some (0, w') /\ holds w' (log_add A (type, data)).
Proof using Hflash Hoff0 Hend HB HBend Hrtc.
  intros H Hf Ht Hne Hd Hmax. pose proof (holds_size w A H). apply add_held; try assumption; [by apply holds_held|].
  unfold MAX_EVENT_SIZE in Hmax. lia.
Qed.

(** Where it does not, the function fails and nothing changes. *)
Lemma add_full d fuel type data (w : world) A : held w A -> 9 + Z.of_nat (length data) <= MAX_EVENT_SIZE ->
  4096 < 8 + log_size A + (9 + Z.of_nat (length data)) -> add_raw (S d) fuel type data w = Some (-1, w).
Proof.
  intros (h & L & (P & HM & HF & Hn & Hs) & <-) Hmax Hno. rewrite (log_size_total _ (pd_events _ _ _ P)) in Hno.
  rewrite add_initialized by apply P. pose proof (total_nonneg L) as H0. unfold add_event_body.
  rewrite event_size_small by exact Hmax. unfold MAX_EVENT_SIZE in *.
  rewrite (proj2 (Z.ltb_ge 127 _)) by lia. rewrite (pd_written _ _ _ P), event_buffer by (apply P || lia).
  by rewrite (proj2 (Z.leb_gt _ 4096)) by lia.
Qed.
(** ** Setting the log up *)

Notation init := (elog_init drv_readat drv_writeat drv_eraseat FMAP_OFFSET boot_device_ro boot_device_rw
  mirror_buffer CONFIG_RTC CONFIG_ELOG_BOOT_COUNT CONFIG_CMOS_POST rtc_get boot_count_read cmos_post_log acpi_is_wakeup_s3).
Notation boot := (boot_events CONFIG_ELOG_BOOT_COUNT CONFIG_CMOS_POST boot_count_read cmos_post_log acpi_is_wakeup_s3).

Definition post_entry (ev : elog_event) : entry :=
  match ev with
  | ELOG_TYPE_LAST_POST_CODE code => (ELOG_LAST_POST_CODE, le_data 2 (u16 code))
  | ELOG_TYPE_POST_EXTRA extra => (ELOG_POST_EXTRA, le_data 4 (u32 extra))
  end.

(** The entries of a boot, with the drivers at the time. *)
Definition boot_entry (d : D) : list entry :=
  if CONFIG_ELOG_BOOT_COUNT then
    if acpi_is_wakeup_s3 then [] else [(ELOG_TYPE_BOOT, le_data 4 (u32 (fst (boot_count_read d))))]
  else [(ELOG_TYPE_BOOT, le_data 4 (u32 0))].
Definition post_entries (d : D) : list entry := if CONFIG_CMOS_POST then map post_entry (fst (cmos_post_log d)) else [].
Definition log_adds (A : list entry) (l : list entry) : list entry := fold_left log_add l A.

(** The entries the code makes. *)
Lemma add_made d fuel type n x (w : world) A : held w A -> (4096 < fuel)%nat -> is_byte type -> type <> ELOG_TYPE_EOL ->
  (n <= 4)%nat ->
  exists ret w', add_raw (S (S d)) fuel type (le_data n x) w = Some (ret, w') /\ held w' (log_try A (type, le_data n x)).
Proof using Hflash Hoff0 Hend HB HBend Hrtc.
  intros Hh Hf Ht Hne Hn. set (e := (type, le_data n x) : entry).
  assert (Hmax : entry_size e <= MAX_EVENT_SIZE) by (apply made_size; lia). unfold log_try.
  destruct (Z.leb_spec (8 + log_size A + entry_size e) 4096) as [Hroom|Hno].
  - destruct (add_held d fuel type _ w A Hh Hf Ht Hne (le_data_bytes n x) Hmax Hroom) as (w' & E & H').
    exists 0, w'. split; [exact E|by apply holds_held].
  - exists (-1), w. split; [exact (add_full (S d) fuel type _ w A Hh Hmax Hno)|exact Hh].
Qed.

Lemma post_held d fuel l : forall (w : world) A, held w A -> (4096 < fuel)%nat ->
  exists w', post_events (add_raw (S (S d)) fuel) l w = Some w' /\ held w' (log_tries A (map post_entry l)).
Proof using Hflash Hoff0 Hend HB HBend Hrtc.
  induction l as [|ev l IH]; intros w A Hh Hf; [by exists w|]. cbn [post_events map log_tries fold_left].
  destruct ev as [c|c]; cbn [post_entry]; unfold elog_add_event_word, elog_add_event_dword.
  - destruct (add_made d fuel ELOG_LAST_POST_CODE 2 (u16 c) w A Hh Hf) as (ret & w1 & -> & H1);
      [unfold is_byte, ELOG_LAST_POST_CODE; lia|done|lia|by apply IH].
  - destruct (add_made d fuel ELOG_POST_EXTRA 4 (u32 c) w A Hh Hf) as (ret & w1 & -> & H1);
      [unfold is_byte, ELOG_POST_EXTRA; lia|done|lia|by apply IH].
Qed.

Lemma boot_type : is_byte ELOG_TYPE_BOOT /\ ELOG_TYPE_BOOT <> ELOG_TYPE_EOL.
Proof. split; [unfold is_byte|]; unfold ELOG_TYPE_BOOT, ELOG_TYPE_EOL; lia. Qed.

Lemma boot_held d fuel (w : world) A : held w A -> (4096 < fuel)%nat ->
  exists w1 w', boot (add_raw (S (S d)) fuel) w = Some w' /\ held w1 (log_tries A (boot_entry (drv (st w)))) /\
    held w' (log_tries A (boot_entry (drv (st w)) ++ post_entries (drv (st w1)))).
Proof using Hflash Hoff0 Hend HB HBend Hrtc Hcount Hpost.
  intros Hh Hf. destruct boot_type as [T1 T2]. unfold boot_events, post_entries, log_tries.
  pose proof (fun x w A Hw => add_made d fuel ELOG_TYPE_BOOT 4 (u32 x) w A Hw Hf T1 T2 ltac:(lia)) as Hadd.
  pose proof (fun l w A Hw => post_held d fuel l w A Hw Hf) as Hp. unfold log_tries in Hp.
  set (add := add_raw (S (S d)) fuel) in *. clearbody add.
  set (step := if CONFIG_ELOG_BOOT_COUNT then _ else _).
  assert (R : exists ret w1, step = Some (ret, w1) /\ held w1 (fold_left log_try (boot_entry (drv (st w))) A)).
  { subst step. unfold boot_entry. destruct CONFIG_ELOG_BOOT_COUNT; [destruct acpi_is_wakeup_s3; [by exists 0, w|]|by apply (Hadd 0)].
    pose proof (Hcount (drv (st w))) as Hi. destruct (boot_count_read (drv (st w))) as [c d0]. cbn [fst snd] in *.
    by apply (Hadd c), held_drv. }
  destruct R as (ret & w1 & -> & H1). exists w1. destruct CONFIG_CMOS_POST.
  - pose proof (Hpost (drv (st w1))) as Hi. destruct (cmos_post_log (drv (st w1))) as [l d0]. cbn [fst snd] in *.
    destruct (Hp l (with_st (set_drv d0 (st w1)) w1) _ (held_drv w1 _ d0 H1 Hi)) as (w' & E & H').
    exists w'. rewrite fold_left_app. done.
  - exists w1. by rewrite app_nil_r.
Qed.

Lemma boot_small d d' : Forall (fun e => entry_size e <= MAX_EVENT_SIZE) (boot_entry d ++ post_entries d').
Proof.
  apply Forall_app. split.
  - unfold boot_entry. destruct CONFIG_ELOG_BOOT_COUNT; [destruct acpi_is_wakeup_s3|]; repeat constructor; apply made_size; lia.
  - unfold post_entries. destruct CONFIG_CMOS_POST; [|constructor]. apply Forall_map, Forall_forall.
    intros [c|c] _; apply made_size; lia.
Qed.

(** A log that has room takes them all. *)
Lemma boot_holds d fuel (w : world) A : holds w A -> (4096 < fuel)%nat ->
  exists w1 w', boot (add_raw (S (S d)) fuel) w = Some w' /\
    holds w' (log_adds A (boot_entry (drv (st w)) ++ post_entries (drv (st w1)))).
Proof using Hflash Hoff0 Hend HB HBend Hrtc Hcount Hpost.
  intros H Hf. destruct (boot_held d fuel w A (holds_held w A H) Hf) as (w1 & w' & E & _ & H'). exists w1, w'. split; [exact E|].
  destruct (log_tries_adds A _ (holds_size w A H) (boot_small (drv (st w)) (drv (st w1)))) as [Et Hs].
  rewrite Et in H', Hs. exact (held_holds w' _ H' Hs).
Qed.

(** Finding the region. *)
Definition located (fuel : nat) (w : world) (s0 : state) : Prop :=
  exists sz, 4096 <= sz /\ off0 + sz < 2 ^ 32 /\
    fmap_locate_area_as_rdev_rw drv_readat FMAP_OFFSET boot_device_ro boot_device_rw fuel (st w) elog_area =
      Some (Some (window (id := id) dreg off0 0 sz), s0).

Lemma find_flash_spec fuel (w : world) s0 : located fuel w s0 ->
  elog_find_flash drv_readat FMAP_OFFSET boot_device_ro boot_device_rw fuel w =
    Some (0, mk_world s0 (with_threshold 3842 1024 (with_nv_dev nv (el w)))).
Proof using Hoff0.
  intros (sz & Hsz & He & E). unfold elog_find_flash. rewrite E.
  change (region_device_sz (window (id := id) dreg off0 0 sz)) with sz. rewrite (proj2 (Z.ltb_ge sz 4096)) by lia.
  rewrite Z.min_l by lia. rewrite (chain_window dreg off0 sz Hoff0 He 0 sz 0 4096) by lia. done.
Qed.

(** Recovering a log from the flash, or beginning one. *)
Lemma init_log d fuel (w : world) s0 : elog_initialized (el w) = ELOG_UNINITIALIZED -> mirror_buffer = Some B ->
  located fuel w s0 -> (4096 < fuel)%nat ->
  exists w0, held w0 (log_of (F (drv s0))) /\ (decode (F (drv s0)) <> None -> drv (st w0) = drv s0) /\
    init (S d) fuel w = match boot (add_raw (S d) fuel) w0 with None => None | Some w => Some (0, w) end.
Proof using Hflash Hoff0 Hend HB HBend Hrtc.
  intros Hu Hm Hloc Hf. unfold elog_init, init_body. rewrite Hu. set (add := add_raw (S d) fuel).
  rewrite (find_flash_spec fuel (with_el (with_status ELOG_BROKEN) w) s0) by done. rewrite Hm.
  change (0 <? 0) with false. cbv iota.
  set (w1 := with_el (with_status ELOG_INITIALIZED) _). assert (Hr : ready (el w1)) by done.
  destruct (scan_spec fuel w1 Hr Hf) as (s1 & M1 & D1 & R). change (drv (st w1)) with (drv s0) in *. unfold log_of.
  pose proof (F_length (img := img) off0 4096 size_range (drv s0)) as HF.
  assert (HFb : Forall is_byte (F (drv s0))) by apply F_bytes.
  destruct (decode (F (drv s0))) as [L|] eqn:Ed.
  - rewrite R. change (0 <? 0) with false. cbv iota.
    destruct (decode_sound _ _ Ed) as (Hh & HL & k & Hk & EF).
    assert (Lh : length (take 8 (F (drv s0))) = 8%nat) by (rewrite length_take; lia).
    assert (Hsz : 8 + total L < 4096).
    { pose proof HF as HF'. rewrite EF, !length_app, Lh, repeat_length in HF'. unfold total. lia. }
    assert (EI : F (drv s0) = image (take 8 (F (drv s0))) L).
    { unfold image. rewrite EF at 1. do 3 f_equal. rewrite EF in HF. rewrite !length_app, repeat_length in HF. unfold total. lia. }
    eexists. split; [|split; [|reflexivity]]; [|intros _; exact D1]. exists (take 8 (F (drv s0))), L. split; [|reflexivity].
    apply in_step_intro; [done|done|done|done|exact Hsz|by rewrite <- EI| |]; [by rewrite M1|by rewrite D1].
  - destruct R as (x & -> & Hx & H0). change (-1 <? 0) with true. cbv iota.
    destruct (prepare_start fuel add (mk_world s1 (set_writes x (el w1)))) as (w2 & -> & P2).
    + by apply ready_writes.
    + cbn [st]. by rewrite M1.
    + intros E. change (x = 0) in E. cbn [st]. rewrite M1, D1. split; exact (proj1 H0 E).
    + destruct (clear_added d fuel (u16 4088) w2 _ [] P2 Hf) as (w3 & ev & Ea & I & Ee); [change (total []) with 0; lia|].
      fold add in Ea. rewrite Ea. change (0 <? 0) with false. cbv iota. exists w3. split; [|by split]. exists elog_header_bytes, ([] ++ [ev]). split; [exact I|exact (map_entry_snoc [] ev _ Ee)].
Qed.
(** ** What the functions do to the log *)

Definition entry_ok (e : entry) : Prop :=
  is_byte (fst e) /\ fst e <> ELOG_TYPE_EOL /\ Forall is_byte (snd e) /\ entry_size e <= MAX_EVENT_SIZE.

(** C18.  Adding an event to a log: [elog_add_event_raw] succeeds, and the flash then holds what
    [log_add] makes of the log, the event in it: the event is put last, and where the log would
    take 3842 bytes or more the oldest entries are removed, the region is erased and written
    anew and an entry tells how much was removed. *)
Theorem elog_add_event_correct d fuel type data (w : world) A : holds w A -> (4096 < fuel)%nat -> entry_ok (type, data) ->
  exists w', add_raw (S (S d)) fuel type data w = Some (0, w') /\ holds w' (log_add A (type, data)) /\
    log_of (F (drv (st w'))) = log_add A (type, data) /\ (type, data) ∈ log_of (F (drv (st w'))).
Proof using Hflash Hoff0 Hend HB HBend Hrtc.
  intros Hh Hf (Ht & Hne & Hd & Hmax). destruct (add_holds d fuel type data w A Hh Hf Ht Hne Hd Hmax) as (w' & E & H').
  exists w'. rewrite (holds_flash w' _ H'). split; [done|]. split; [done|]. split; [done|]. by apply log_add_keeps.
Qed.

(** C20.  Setting the log up, whatever the region holds: a log is taken over as it is, however full,
    with the flash left alone, and anything else is replaced by a new log that says so; the
    events of the boot are then added one by one with the count and the codes read when the
    log is ready, each as [elog_add_event_raw] does where it fits behind the log, and left out
    where the region has no room for it.  The flash then holds the result. *)
Theorem elog_init_correct d fuel (w : world) s0 : elog_initialized (el w) = ELOG_UNINITIALIZED -> mirror_buffer = Some B ->
  located fuel w s0 -> (4096 < fuel)%nat ->
  let A := log_of (F (drv s0)) in
  exists w0 w1 w', init (S (S d)) fuel w = Some (0, w') /\
    held w0 A /\ (decode (F (drv s0)) <> None -> drv (st w0) = drv s0) /\
    held w1 (log_tries A (boot_entry (drv (st w0)))) /\
    let A' := log_tries A (boot_entry (drv (st w0)) ++ post_entries (drv (st w1))) in
    held w' A' /\ log_of (F (drv (st w'))) = A'.
Proof using Hflash Hoff0 Hend HB HBend Hrtc Hcount Hpost.
  intros Hu Hm Hloc Hf A. destruct (init_log (S d) fuel w s0 Hu Hm Hloc Hf) as (w0 & H0 & D0 & ->).
  destruct (boot_held d fuel w0 _ H0 Hf) as (w1 & w' & -> & H1 & H'). exists w0, w1, w'.
  do 4 (split; [done|]). split; [done|exact (held_flash w' _ H')].
Qed.

(** A log that is found with no room for an event stays as it is: the space is only made after
    an event was added. *)
Theorem elog_full_log_stuck d fuel type data (w : world) A : held w A -> entry_ok (type, data) ->
  4096 < 8 + log_size A + entry_size (type, data) -> add_raw (S d) fuel type data w = Some (-1, w).
Proof. intros H (_ & _ & _ & Hmax) Hno. exact (add_full d fuel type data w A H Hmax Hno). Qed.

(** The events of a list, one after the other. *)
Fixpoint add_all (fuel : nat) (l : list entry) (w : world) : option world :=
  match l with
  | [] => Some w
  | (type, data) :: l =>
      match add_raw 2 fuel type data w with Some (0, w) => add_all fuel l w | _ => None end
  end.

Lemma add_all_one fuel type data (w w' : world) :
  add_all fuel [(type, data)] w = Some w' -> add_raw 2 fuel type data w = Some (0, w').
Proof. cbn [add_all]. destruct (add_raw 2 fuel type data w) as [[[] x]|]; congruence. Qed.

Lemma add_all_holds fuel l : Forall entry_ok l -> forall (w : world) A, holds w A -> (4096 < fuel)%nat ->
  exists w', add_all fuel l w = Some w' /\ holds w' (log_adds A l).
Proof using Hflash Hoff0 Hend HB HBend Hrtc.
  induction 1 as [|[type data] l (Ht & Hne & Hd & Hmax) _ IH]; intros w A Hh Hf; [by exists w|]. cbn [add_all].
  destruct (add_holds 0 fuel type data w A Hh Hf Ht Hne Hd Hmax) as (w1 & -> & H1). by apply IH.
Qed.

(** C19.  Events outlive a reset: after any number of events, and with nothing left but the
    flash, the log is found again by [elog_init] with all that was added to it. *)
Theorem elog_survives_reset d fuel l (w : world) A : holds w A -> (4096 < fuel)%nat -> Forall entry_ok l ->
  exists w1, add_all fuel l w = Some w1 /\
    forall (w2 : world) s0, elog_initialized (el w2) = ELOG_UNINITIALIZED -> mirror_buffer = Some B -> located fuel w2 s0 ->
      (forall x, img (drv s0) x = img (drv (st w1)) x) ->
      exists w3 w4 w', init (S (S d)) fuel w2 = Some (0, w') /\
        holds w' (log_adds (log_adds A l) (boot_entry (drv (st w3)) ++ post_entries (drv (st w4)))).
Proof using Hflash Hoff0 Hend HB HBend Hrtc Hcount Hpost.
  intros Hh Hf Hl. destruct (add_all_holds fuel l Hl w A Hh Hf) as (w1 & E & H1). exists w1. split; [done|].
  intros w2 s0 Hu Hm Hloc Hi. pose proof (F_ext (drv (st w1)) (drv s0) Hi) as EF.
  destruct (init_log (S d) fuel w2 s0 Hu Hm Hloc Hf) as (w3 & H3 & _ & ->).
  rewrite EF, (holds_flash w1 _ H1) in H3. apply held_holds in H3; [|by apply (holds_size w1)].
  destruct (boot_holds d fuel w3 _ H3 Hf) as (w4 & w' & -> & H'). exists w3, w4, w'. split; [reflexivity|exact H'].
Qed.

(** [elog_clear] on a log that is set up leaves a new log. *)
Theorem elog_clear_correct d fuel (w : world) A : holds w A -> (4096 < fuel)%nat ->
  exists w', elog_clear drv_readat drv_writeat drv_eraseat FMAP_OFFSET boot_device_ro boot_device_rw
      mirror_buffer CONFIG_RTC CONFIG_ELOG_BOOT_COUNT CONFIG_CMOS_POST rtc_get boot_count_read cmos_post_log acpi_is_wakeup_s3
      (S d) fuel w = Some (0, w') /\ holds w' new_log.
Proof using Hflash Hoff0 Hend HB HBend Hrtc.
  intros (h & L & (P & HM & HF & Hn & _) & Hs & EA) Hf. pose proof (pd_ready _ _ _ P) as Hr. pose proof (total_nonneg L).
  unfold elog_clear, elog_init, init_body. rewrite (rd_init _ Hr). change (0 <? 0) with false. cbv iota.
  destruct (prepare_start fuel (add_raw (S d) fuel) w Hr (pd_bytes _ _ _ P)) as (w2 & -> & P2); [rewrite Hn; lia|].
  destruct (clear_added d fuel (u16 4088) w2 _ [] P2 Hf) as (w3 & ev & -> & I & Ee); [change (total []) with 0; lia|].
  exists w3. split; [done|]. exists elog_header_bytes, ([] ++ [ev]). split; [done|].
  rewrite <- (log_size_total _ (pd_events _ _ _ (proj1 I))), (map_entry_snoc [] ev _ Ee). split; [|done].
  vm_compute. by intros [=].
Qed.
End Correct.
