(* ===== verification/ElogSample.v ===== *)
(** * The event log: examples

    A map in the memory of the boot device with the area "RW_ELOG" of 8192 bytes at 4096; the
    clock, the count and the codes are not configured. *)

From S2P Require Import Prelude Region Bytes Mapped CbfsLoad Memory RegionFile Fmap Rtc Cmos Elog ElogMirror ElogLog ElogCorrect.

Definition elog_map : list Z :=
  FMAP_SIGNATURE ++ [1; 1] ++ repeat 0 8 ++ bytes32 0x10000 ++ pad 32 [70] ++ [1; 0] ++ sample_area 0x1000 0x2000 elog_area.
Definition map_device : region_device := rdev_of (image_root 512).
Definition flash_device : region_device := window (id := 7) (mk_region 0 0x10000) 0 0 0x10000.
Definition reset_elog : elog := mk_elog 0 0 0 0 null_rdev null_rdev ELOG_UNINITIALIZED.
Definition reset_world (f : flash) : world (D := flash) := mk_world (mk_rstate (image_memory elog_map) ∅ f) reset_elog.
Definition no_clock (f : flash) : rtc_time * flash := (mk_time 0 0 0 0 0 0 0, f).
Definition no_count (f : flash) : Z * flash := (0, f).
Definition no_codes (f : flash) : list elog_event * flash := ([], f).
Definition sample_add : nat -> nat -> adder (D := flash) :=
  elog_add_event_raw flash_readat (Some flash_writeat) (Some flash_eraseat) 0 (Some map_device) (Some flash_device)
    (Some 0x100000) false false false no_clock no_count no_codes false.
Definition sample_init : nat -> nat -> world (D := flash) -> option (Z * world) :=
  elog_init flash_readat (Some flash_writeat) (Some flash_eraseat) 0 (Some map_device) (Some flash_device)
    (Some 0x100000) false false false no_clock no_count no_codes false.
Notation sample_holds := (holds (id := 7) (img := fun (d : flash) x => u8 (d x)) (mk_region 0 0x10000) 0x1000 0x100000).
Notation sample_region f := (F (img := fun (d : flash) x => u8 (d x)) 0x1000 4096 f).

Lemma sample_located f : located (drv_readat := flash_readat) (id := 7) (mk_region 0 0x10000) 0x1000 0 (Some map_device)
  (Some flash_device) 5000 (reset_world f) (st (reset_world f)).
Proof. exists 0x2000. split; [lia|]. split; [lia|]. vm_compute. reflexivity. Qed.

Lemma blank_decode : decode (sample_region (fun _ => 0xff)) = None.
Proof.
  apply decode_clear.
  - unfold F. rewrite slice_length. lia.
  - apply forallb_forall. intros x Hx. unfold F, slice in Hx. apply in_map_iff in Hx as (y & <- & _). reflexivity.
Qed.

Lemma blank_log : log_of (sample_region (fun _ => 0xff)) = new_log.
Proof. unfold log_of. by rewrite blank_decode. Qed.

Notation boot_log := (log_adds new_log [(ELOG_TYPE_BOOT, [0; 0; 0; 0])]).

(** The log of a blank flash after a boot. *)
Lemma sample_boot : exists w, sample_init 2 5000 (reset_world (fun _ => 0xff)) = Some (0, w) /\ sample_holds w boot_log.
Proof.
  destruct (init_log (Hflash := flash_nor 7) (mk_region 0 0x10000) 0x1000 0x100000 ltac:(lia) ltac:(lia) ltac:(lia) ltac:(lia)
    false no_clock ltac:(done) 0 (Some map_device) (Some flash_device) (Some 0x100000) false false no_count no_codes false
    1 5000 (reset_world (fun _ => 0xff)) (st (reset_world (fun _ => 0xff)))
    eq_refl eq_refl (sample_located (fun _ => 0xff)) ltac:(lia)) as (w0 & H0 & _ & E).
  apply held_holds in H0; [|change (drv (st (reset_world _))) with (fun _ : Z => 0xff); rewrite blank_log; vm_compute; by intros [=]].
  destruct (boot_holds (Hflash := flash_nor 7) (mk_region 0 0x10000) 0x1000 0x100000 ltac:(lia) ltac:(lia) ltac:(lia) ltac:(lia)
    false no_clock ltac:(done) 0 (Some map_device) (Some flash_device) (Some 0x100000) false false no_count no_codes false
    ltac:(done) ltac:(done) 0 5000 w0 _ H0 ltac:(lia)) as (w1 & w' & Eb & H').
  exists w'. split; [unfold sample_init; rewrite E, Eb; reflexivity|].
  change (st (reset_world (fun _ => 0xff))) with (mk_rstate (image_memory elog_map) ∅ (fun _ : Z => 0xff)) in H'. cbn [drv] in H'.
  rewrite blank_log in H'. exact H'.
Qed.

(** A log of 4090 bytes: six are free. *)
Definition full_events : list (list Z) :=
  repeat (made 0x81 (repeat 0 6) (repeat 0 118)) 32 ++ [made 0x82 (repeat 0 6) (repeat 0 9)].
Definition full_log : list entry := repeat (0x81, repeat 0 118) 32 ++ [(0x82, repeat 0 9)].
Definition full_flash : flash := image_memory (image elog_header_bytes full_events).

Lemma image_region l : length l = 4096%nat -> Forall is_byte l -> sample_region (image_memory l) = l.
Proof.
  intros Hl Hb. assert (Ls : length (sample_region (image_memory l)) = 4096%nat) by (unfold F; apply slice_length).
  apply (nth_ext _ _ 0 0); [by rewrite Ls|]. intros i Hi. rewrite Ls in Hi. unfold F. rewrite slice_nth by exact Hi.
  unfold image_memory. rewrite Z.add_simpl_l, Nat2Z.id. apply wrap_small. change (2 ^ 8) with 256.
  apply (proj1 (Forall_nth is_byte 0 l) Hb). lia.
Qed.

Lemma full_made : Forall (fun ev => event_ok ev = true /\ Forall is_byte ev) full_events.
Proof.
  assert (Z0 : forall n, Forall is_byte (repeat 0 n)) by (intros n; induction n; constructor; [by unfold is_byte|done]).
  apply Forall_forall. intros ev Hev%list_elem_of_In. unfold full_events in Hev.
  apply in_app_or in Hev as [->%repeat_spec | [<- | []]].
  - destruct (made_ok 0x81 (repeat 0 6) (repeat 0 118)) as (H1 & H2 & _); [done|apply Z0|apply Z0|done|done|done|by split].
  - destruct (made_ok 0x82 (repeat 0 6) (repeat 0 9)) as (H1 & H2 & _); [done|apply Z0|apply Z0|done|done|done|by split].
Qed.

Lemma full_ok : Forall (fun ev => event_ok ev = true) full_events /\ Forall is_byte (concat full_events) /\ total full_events = 4082.
Proof.
  split; [|split; [|vm_compute; reflexivity]].
  - apply (Forall_impl _ _ _ full_made). by intros ev [H _].
  - apply Forall_concat, (Forall_impl _ _ _ full_made). by intros ev [_ H].
Qed.

Lemma full_region : log_of (sample_region full_flash) = full_log.
Proof.
  destruct full_ok as (H1 & H2 & H3). assert (Hh : length elog_header_bytes = 8%nat) by reflexivity.
  unfold full_flash. rewrite image_region.
  - unfold log_of. rewrite image_decode; [vm_compute; reflexivity|reflexivity|exact Hh|exact H1|lia].
  - unfold image. rewrite !length_app, repeat_length, Hh. unfold total in *. lia.
  - unfold image. apply Forall_app. split; [|apply Forall_app; split; [exact H2|apply erased_bytes]].
    repeat (constructor; [unfold is_byte; vm_compute; by split|]). constructor.
Qed.

(** A blank flash gets a new log, and the boot is in it; in the full log it has no room. *)
Lemma elog_init_witness :
  (exists w, sample_init 2 5000 (reset_world (fun _ => 0xff)) = Some (0, w) /\
    log_of (sample_region (drv (st w))) = [(ELOG_TYPE_LOG_CLEAR, [0xf8; 0x0f]); (ELOG_TYPE_BOOT, [0; 0; 0; 0])]) /\
  exists w, sample_init 2 5000 (reset_world full_flash) = Some (0, w) /\ log_of (sample_region (drv (st w))) = full_log.
Proof.
  assert (R : forall f, exists w, sample_init 2 5000 (reset_world f) = Some (0, w) /\
    log_of (sample_region (drv (st w))) = log_tries (log_of (sample_region f)) [(ELOG_TYPE_BOOT, [0; 0; 0; 0])]).
  { intros f. destruct (elog_init_correct (Hflash := flash_nor 7) (mk_region 0 0x10000) 0x1000 0x100000 ltac:(lia) ltac:(lia)
      ltac:(lia) ltac:(lia) false no_clock ltac:(done) 0 (Some map_device) (Some flash_device) (Some 0x100000) false false
      no_count no_codes false ltac:(done) ltac:(done) 0 5000 (reset_world f) (st (reset_world f))
      eq_refl eq_refl (sample_located f) ltac:(lia)) as (w0 & w1 & w' & E & _ & _ & _ & _ & H').
    exists w'. split; [exact E|exact H']. }
  split.
  - destruct (R (fun _ => 0xff)) as (w & E & H). exists w. split; [exact E|]. rewrite H, blank_log. vm_compute. reflexivity.
  - destruct (R full_flash) as (w & E & H). exists w. split; [exact E|]. rewrite H, full_region. vm_compute. reflexivity.
Defined.

Lemma sample_entry : entry_ok (0x81, [1; 2; 3; 4]).
Proof.
  split; [unfold is_byte; cbn; lia|]. split; [done|]. split; [|done].
  repeat (constructor; [unfold is_byte; lia|]). constructor.
Qed.

Lemma elog_add_event_witness :
  exists w w', sample_init 2 5000 (reset_world (fun _ => 0xff)) = Some (0, w) /\
    sample_add 2 5000 0x81 [1; 2; 3; 4] w = Some (0, w') /\
    log_of (sample_region (drv (st w'))) =
      [(ELOG_TYPE_LOG_CLEAR, [0xf8; 0x0f]); (ELOG_TYPE_BOOT, [0; 0; 0; 0]); (0x81, [1; 2; 3; 4])].
Proof.
  destruct sample_boot as (w & E & H).
  destruct (elog_add_event_correct (Hflash := flash_nor 7) (mk_region 0 0x10000) 0x1000 0x100000 ltac:(lia) ltac:(lia) ltac:(lia)
    ltac:(lia) false no_clock ltac:(done) 0 (Some map_device) (Some flash_device) (Some 0x100000) false false no_count no_codes
    false 0 5000 0x81 [1; 2; 3; 4] w _ H ltac:(lia) sample_entry) as (w' & E' & _ & Hl & _).
  exists w, w'. split; [exact E|]. split; [exact E'|]. rewrite Hl. vm_compute. reflexivity.
Defined.

(** An event, a reset, and the log of the next boot. *)
Lemma elog_survives_witness :
  exists w w1 w', sample_init 2 5000 (reset_world (fun _ => 0xff)) = Some (0, w) /\
    sample_add 2 5000 0x81 [1; 2; 3; 4] w = Some (0, w1) /\
    sample_init 2 5000 (reset_world (drv (st w1))) = Some (0, w') /\
    sample_holds w' [(ELOG_TYPE_LOG_CLEAR, [0xf8; 0x0f]); (ELOG_TYPE_BOOT, [0; 0; 0; 0]); (0x81, [1; 2; 3; 4]);
      (ELOG_TYPE_BOOT, [0; 0; 0; 0])].
Proof.
  destruct sample_boot as (w & E & H).
  destruct (elog_survives_reset (Hflash := flash_nor 7) (mk_region 0 0x10000) 0x1000 0x100000 ltac:(lia) ltac:(lia) ltac:(lia)
    ltac:(lia) false no_clock ltac:(done) 0 (Some map_device) (Some flash_device) (Some 0x100000) false false no_count no_codes
    false ltac:(done) ltac:(done) 0 5000 [(0x81, [1; 2; 3; 4])] w _ H ltac:(lia)) as (w1 & E1 & R).
  { constructor; [exact sample_entry|constructor]. }
  destruct (R (reset_world (drv (st w1))) (st (reset_world (drv (st w1)))) eq_refl eq_refl (sample_located _) ltac:(done)) as (w3 & w4 & w' & E' & H').
  exists w, w1, w'. split; [exact E|]. split; [exact (add_all_one _ _ _ _ _ _ _ _ _ _ _ _ _ _ _ _ E1)|]. split; [exact E'|exact H'].
Defined.
