(* ===== verification/ElogUsers.v ===== *)
(** * The users of the event log: [src/drivers/elog/gsmi.c] and the SMBIOS table

    The calls the operating system makes by a software interrupt, and the table that tells it
    where the log is.  The calls know the log by the interface [EventLog] only, which the
    functions of [Elog] implement. *)

From S2P Require Import Prelude Region Bytes Mapped CbfsLoad Memory RegionFile Fmap Rtc Cmos Imd Cbmem Elog ElogMirror ElogLog ElogCorrect ElogSample.

(** ** Calls of the operating system *)

Definition GSMI_RET_SUCCESS : Z := 0x00.
Definition GSMI_RET_UNSUPPORTED : Z := 0x83.
Definition GSMI_CMD_SET_EVENT_LOG : Z := 0x08.
Definition GSMI_CMD_CLEAR_EVENT_LOG : Z := 0x09.
Definition GSMI_CMD_HANDSHAKE_TYPE : Z := 0xc1.
Definition GSMI_HANDSHAKE_NONE : Z := 0x7f.
Definition GSMI_LOG_ENTRY_TYPE_KERNEL : Z := 0xDEAD.
Definition ELOG_TYPE_OS_EVENT : Z := 0x81.
(** [struct gsmi_set_eventlog_param]: data_ptr, data_len, type; [struct gsmi_set_eventlog_type1]:
    type in two bytes, instance in four. *)
Definition sizeof_gsmi_set_eventlog_param : Z := 12.
Definition sizeof_gsmi_set_eventlog_type1 : Z := 6.

Section Gsmi.
Context {D : Type}.
(** [elog_add_event_raw] and [elog_clear]. *)
Variable add : adder (D := D).
Variable clear_log : world (D := D) -> option (Z * world (D := D)).
Notation world := (world (D := D)).

(** [param] is what [*param] holds; [None]: the log did not return. *)
Definition gsmi_exec (w : world) (command param : Z) : option (Z * world) :=
  let m := mem (st w) in
  if command =? GSMI_CMD_HANDSHAKE_TYPE then Some (GSMI_HANDSHAKE_NONE, w)
  else if command =? GSMI_CMD_SET_EVENT_LOG then
    let sel := param in
    if sel =? 0 then Some (GSMI_RET_UNSUPPORTED, w)
    else
      let h := load m sel sizeof_gsmi_set_eventlog_param in
      let '(data_ptr, data_len, type) := (le32 h 0, le32 h 4, le32 h 8) in
      if negb (type =? 1) && negb (data_ptr =? 0) && negb (data_len =? sizeof_gsmi_set_eventlog_type1)
      then Some (GSMI_RET_UNSUPPORTED, w)
      else
        let type1 := data_ptr in
        if type1 =? 0 then Some (GSMI_RET_UNSUPPORTED, w)
        else
          let t := load m type1 sizeof_gsmi_set_eventlog_type1 in
          match (if le16 t 0 =? GSMI_LOG_ENTRY_TYPE_KERNEL then elog_add_event_dword add ELOG_TYPE_OS_EVENT (le32 t 2) w
                 else elog_add_event_dword add (u8 (le16 t 0)) (le32 t 2) w) with
          | None => None
          | Some (_, w) => Some (GSMI_RET_SUCCESS, w)
          end
  else if command =? GSMI_CMD_CLEAR_EVENT_LOG then
    let cel := param in
    if cel =? 0 then Some (GSMI_RET_UNSUPPORTED, w)
    else
      match clear_log w with
      | None => None
      | Some (ret, w) => Some (if ret =? 0 then GSMI_RET_SUCCESS else GSMI_RET_UNSUPPORTED, w)
      end
  else Some (GSMI_RET_UNSUPPORTED, w).
End Gsmi.

(** ** The SMBIOS table *)

Definition CBMEM_ID_ELOG : Z := 0x454c4f47.
Definition SMBIOS_EVENT_LOG : Z := 15.
Definition SMBIOS_EVENTLOG_ACCESS_METHOD_MMIO32 : Z := 3.
Definition SMBIOS_EVENTLOG_STATUS_VALID : Z := 1.
Definition ELOG_HEADER_TYPE_OEM : Z := 0x88.
Definition sizeof_smbios_type15 : Z := 25.

Section Smbios.
Context {D : Type}.
Variable drv_readat : D -> nat -> Z -> Z -> Z * list Z.
Variables CONFIG_ELOG_CBMEM CONFIG_BOOT_DEVICE_MEMORY_MAPPED CAN_USE_GLOBALS : bool.
Variable boot_device_ro : region_device.
Variable cbmem_top : Z.
Notation world := (world (D := D)).

(** 0 for NULL. *)
Definition elog_flash_offset_to_address (w : world) : Z * world :=
  if negb CONFIG_BOOT_DEVICE_MEMORY_MAPPED then (0, w)
  else if region_device_sz (nv_dev (el w)) =? 0 then (0, w)
  else
    let '(p, s) := rdev_mmap drv_readat (st w) boot_device_ro (region_device_offset (nv_dev (el w)))
                     (region_device_sz (nv_dev (el w))) in
    (default 0 p, with_st s w).

(** The table as it is stored. *)
Definition type15_bytes (handle elog_size log_address : Z) : list Z :=
  [SMBIOS_EVENT_LOG; sizeof_smbios_type15 - 2] ++ le_data 2 handle ++ le_data 2 (elog_size - 1) ++ le_data 2 0
  ++ le_data 2 sizeof_elog_header ++ [SMBIOS_EVENTLOG_ACCESS_METHOD_MMIO32; SMBIOS_EVENTLOG_STATUS_VALID]
  ++ le_data 4 0 ++ le_data 4 log_address ++ [ELOG_HEADER_TYPE_OEM; 0; 2] ++ [0; 0].

(** The length, [*current], and what changed; CBMEM is in the same memory. *)
Definition elog_smbios_write_type15 (w : world) (cb : cbmem) (current handle : Z) : Z * Z * world * cbmem :=
  let len := sizeof_smbios_type15 in
  let elog_size := region_device_sz (nv_dev (el w)) in
  let '(log_address, w, cb) :=
    if CONFIG_ELOG_CBMEM then
      let '(p, cb) := cbmem_add CAN_USE_GLOBALS cbmem_top CBMEM_ID_ELOG elog_size (set_cb_mem (mem (st w)) cb) in
      let w := map_mem (fun _ => cb_mem cb) w in
      if p =? 0 then (p, w, cb)
      else
        let '(_, b) := rdev_readat drv_readat (st w) (mirror_dev (el w)) 0 elog_size in
        (p, map_mem (fun m => store m p b) w, cb)
    else let '(p, w) := elog_flash_offset_to_address w in (p, w, cb) in
  if log_address =? 0 then (0, current, w, cb)
  else (len, u32 (current + len), map_mem (fun m => store m current (type15_bytes handle elog_size log_address)) w, cb).
End Smbios.

(** ** The log as the calls know it *)

Class EventLog {D : Type} (add : adder (D := D)) (clear_log : world (D := D) -> option (Z * world (D := D)))
    (log : world (D := D) -> list entry -> Prop) : Prop := {
  el_add w A type data : log w A -> entry_ok (type, data) ->
    exists w', add type data w = Some (0, w') /\ log w' (log_add A (type, data));
  el_clear w A : log w A -> exists w', clear_log w = Some (0, w') /\ log w' new_log }.

(** The event a request asks for, if the code takes it. *)
Definition gsmi_event (m : Z -> Z) (param : Z) : option entry :=
  let h := load m param 12 in
  let t := load m (le32 h 0) 6 in
  if (param =? 0) || (le32 h 0 =? 0) || negb (le32 h 8 =? 1) && negb (le32 h 4 =? 6) then None
  else Some (if le16 t 0 =? GSMI_LOG_ENTRY_TYPE_KERNEL then ELOG_TYPE_OS_EVENT else u8 (le16 t 0), le_data 4 (u32 (le32 t 2))).

(** What a call gives back, and what it makes of the log. *)
Definition gsmi_effect (m : Z -> Z) (command param : Z) (A : list entry) : Z * list entry :=
  if command =? GSMI_CMD_HANDSHAKE_TYPE then (GSMI_HANDSHAKE_NONE, A)
  else if command =? GSMI_CMD_SET_EVENT_LOG then
    match gsmi_event m param with Some e => (GSMI_RET_SUCCESS, log_add A e) | None => (GSMI_RET_UNSUPPORTED, A) end
  else if command =? GSMI_CMD_CLEAR_EVENT_LOG then
    if param =? 0 then (GSMI_RET_UNSUPPORTED, A) else (GSMI_RET_SUCCESS, new_log)
  else (GSMI_RET_UNSUPPORTED, A).

Section Calls.
Context {D : Type} {add : adder (D := D)} {clear_log : world (D := D) -> option (Z * world (D := D))}
  {log : world (D := D) -> list entry -> Prop} `{Hlog : !EventLog add clear_log log}.

Lemma dword_ok type x : is_byte type -> type <> ELOG_TYPE_EOL -> entry_ok (type, le_data 4 x).
Proof. intros Ht Hne. split; [done|]. split; [done|]. split; [apply le_data_bytes|done]. Qed.

(** C21.  A call by software interrupt: the handshake is answered, an event asked for is added to
    the log, the log is cleared, and everything else is refused and leaves the log alone; no
    request for an event of type 0xff, the mark of the log's end, is assumed. *)
Theorem gsmi_exec_correct (w : world (D := D)) A command param : log w A ->
  (command = GSMI_CMD_SET_EVENT_LOG -> forall data, gsmi_event (mem (st w)) param <> Some (ELOG_TYPE_EOL, data)) ->
  exists w', gsmi_exec add clear_log w command param = Some (fst (gsmi_effect (mem (st w)) command param A), w') /\
    log w' (snd (gsmi_effect (mem (st w)) command param A)).
Proof using Hlog.
  intros Hw Hne. unfold gsmi_exec, gsmi_effect. destruct (command =? GSMI_CMD_HANDSHAKE_TYPE); [by exists w|].
  destruct (Z.eqb_spec command GSMI_CMD_SET_EVENT_LOG) as [Ec|_].
  - specialize (Hne Ec). unfold gsmi_event in *. unfold sizeof_gsmi_set_eventlog_param, sizeof_gsmi_set_eventlog_type1 in *.
    destruct (param =? 0); [by exists w|]. set (h := load _ param 12) in *. cbn [orb] in *.
    set (t := load _ (le32 h 0) 6) in *. destruct (le32 h 0 =? 0); cbn [orb negb andb] in *.
    + rewrite andb_false_r. cbn [andb]. by exists w.
    + rewrite andb_true_r. destruct (negb (le32 h 8 =? 1) && negb (le32 h 4 =? 6)); [by exists w|].
      unfold elog_add_event_dword. set (type := if le16 t 0 =? GSMI_LOG_ENTRY_TYPE_KERNEL then _ else _) in *.
      assert (Ht : is_byte type) by (unfold type; destruct (_ =? _); [unfold is_byte, ELOG_TYPE_OS_EVENT; lia|by apply (wrap_range 8)]).
      destruct (el_add w A type (le_data 4 (u32 (le32 t 2))) Hw) as (w' & E & H').
      { apply dword_ok; [done|]. intros E. by apply (Hne (le_data 4 (u32 (le32 t 2)))); rewrite E. }
      exists w'. split; [|exact H']. subst type. by destruct (_ =? _); rewrite E.
  - destruct (command =? GSMI_CMD_CLEAR_EVENT_LOG); [|by exists w]. destruct (param =? 0); [by exists w|].
    destruct (el_clear w A Hw) as (w' & -> & H'). by exists w'.
Qed.

(** A length is only looked at when the type is wrong: with type 1 any length is taken. *)
Lemma gsmi_length_unchecked m param : let h := load m param 12 in
  param <> 0 -> le32 h 0 <> 0 -> le32 h 8 = 1 -> is_Some (gsmi_event m param).
Proof.
  intros h H1 H2 H3. unfold gsmi_event. fold h. rewrite (proj2 (Z.eqb_neq _ _) H1), (proj2 (Z.eqb_neq _ _) H2), H3.
  cbn. by eexists.
Qed.
End Calls.

(** The log of [Elog] is one. *)
Section Log.
Context {D : Type} {drv_readat : D -> nat -> Z -> Z -> Z * list Z}
  {drv_writeat : option (D -> nat -> Z -> list Z -> Z * D)}
  {drv_eraseat : option (D -> nat -> Z -> Z -> Z * D)} {id : nat} {img : D -> Z -> Z}
  `{Hflash : !NorFlash drv_readat drv_writeat drv_eraseat id img}.
Context (dreg : region) (off0 B : Z).
Hypothesis Hoff0 : 0 <= off0.
Hypothesis Hend : off0 + 4096 < 2 ^ 32.
Hypothesis HB : 0 <= B.
Hypothesis HBend : B + 4096 <= 2 ^ 32.
Context (CONFIG_RTC : bool) (rtc_get : D -> rtc_time * D).
Hypothesis Hrtc : forall d x, img (snd (rtc_get d)) x = img d x.
Context (FMAP_OFFSET : Z) (boot_device_ro boot_device_rw : option region_device) (mirror_buffer : option Z)
  (CONFIG_ELOG_BOOT_COUNT CONFIG_CMOS_POST : bool) (boot_count_read : D -> Z * D)
  (cmos_post_log : D -> list elog_event * D) (acpi_is_wakeup_s3 : bool) (depth fuel : nat).
Hypothesis Hfuel : (4096 < fuel)%nat.

#[export] Instance elog_event_log : EventLog
  (elog_add_event_raw drv_readat drv_writeat drv_eraseat FMAP_OFFSET boot_device_ro boot_device_rw mirror_buffer CONFIG_RTC
     CONFIG_ELOG_BOOT_COUNT CONFIG_CMOS_POST rtc_get boot_count_read cmos_post_log acpi_is_wakeup_s3 (S (S depth)) fuel)
  (elog_clear drv_readat drv_writeat drv_eraseat FMAP_OFFSET boot_device_ro boot_device_rw mirror_buffer CONFIG_RTC
     CONFIG_ELOG_BOOT_COUNT CONFIG_CMOS_POST rtc_get boot_count_read cmos_post_log acpi_is_wakeup_s3 (S depth) fuel)
  (holds (id := id) (img := img) dreg off0 B).
Proof using Hflash Hoff0 Hend HB HBend Hrtc Hfuel.
  split.
  - intros w A type data Hw (H1 & H2 & H3 & H4). by apply add_holds.
  - intros w A Hw. by apply (elog_clear_correct dreg off0 B Hoff0 Hend HB HBend CONFIG_RTC rtc_get Hrtc) with (A := A).
Qed.
End Log.

(** The log of a machine that booted once is cleared. *)
Lemma gsmi_exec_witness :
  let clear_log := elog_clear flash_readat (Some flash_writeat) (Some flash_eraseat) 0 (Some map_device) (Some flash_device)
    (Some 0x100000) false false false no_clock no_count no_codes false 1 5000 in
  exists w w', sample_init 2 5000 (reset_world (fun _ => 0xff)) = Some (0, w) /\
    gsmi_exec (sample_add 2 5000) clear_log w GSMI_CMD_CLEAR_EVENT_LOG 16 = Some (GSMI_RET_SUCCESS, w') /\
    sample_holds w' new_log.
Proof.
  intros clear_log. destruct sample_boot as (w & E & H).
  pose proof (elog_event_log (Hflash := flash_nor 7) (mk_region 0 0x10000) 0x1000 0x100000 ltac:(lia) ltac:(lia) ltac:(lia)
    ltac:(lia) false no_clock ltac:(done) 0 (Some map_device) (Some flash_device) (Some 0x100000) false false no_count no_codes
    false 0 5000 ltac:(lia)) as I.
  destruct (gsmi_exec_correct (Hlog := I) w _ GSMI_CMD_CLEAR_EVENT_LOG 16 H) as (w' & E' & H'); [done|].
  exists w, w'. split; [exact E|]. split; [exact E'|exact H'].
Defined.
