(* ===== verification/BootCount.v ===== *)
(** * The count of boots: [src/drivers/elog/boot_count.c]

    A signature, a counter and their checksum in eight cells of the CMOS memory, for the
    event of a boot in the log.  Theorems: the counter is one more at each boot, it starts
    over where the cells are not valid, and no other cell is changed. *)

From S2P Require Import Prelude Bytes Mapped IpChecksum Cmos CmosCorrect Elog.

Definition BOOT_COUNT_SIGNATURE : Z := 0x4342.
(** [struct boot_count] *)
Record boot_counter := mk_counter { signature : Z; count : Z; bc_checksum : Z }.
Definition sizeof_boot_count : nat := 8.
Definition bc_checksum_offset : nat := 6.

Section BootCount.
Context {S : Type}.
Variable inb : S -> Z -> Z * S.
Variable outb : S -> Z -> Z -> S.
Variable BOOT_COUNT_CMOS_OFFSET : Z.

(** The structure is given back also where it is not valid. *)
Definition boot_count_cmos_read (s : S) : Z * boot_counter * S :=
  let '(b, s) := read_bytes inb outb sizeof_boot_count s BOOT_COUNT_CMOS_OFFSET in
  let bc := mk_counter (le16 b 0) (le32 b 2) (le16 b 6) in
  if negb (signature bc =? BOOT_COUNT_SIGNATURE) then (-1, bc, s)
  else
    let csum := compute_ip_checksum (take bc_checksum_offset b) in
    if negb (csum =? bc_checksum bc) then (-1, bc, s) else (0, bc, s).

Definition boot_count_cmos_write (s : S) (bc : boot_counter) : S :=
  let b := le_data 2 (signature bc) ++ le_data 4 (count bc) in
  write_bytes inb outb s BOOT_COUNT_CMOS_OFFSET (b ++ le_data 2 (compute_ip_checksum b)).

Definition boot_count_increment (s : S) : Z * S :=
  let '(ret, bc, s) := boot_count_cmos_read s in
  let bc := if ret <? 0 then mk_counter BOOT_COUNT_SIGNATURE 0 (bc_checksum bc) else bc in
  let bc := mk_counter (signature bc) (u32 (count bc + 1)) (bc_checksum bc) in
  (count bc, boot_count_cmos_write s bc).

Definition boot_count_read (s : S) : Z * S :=
  let '(ret, bc, s) := boot_count_cmos_read s in
  if ret <? 0 then (0, s) else (count bc, s).
End BootCount.

(** ** Words in bytes *)

Lemma le16_data x : le16 (le_data 2 x) 0 = u16 x.
Proof.
  rewrite le16_spec by (repeat (constructor; [apply u8_byte|]); constructor).
  unfold byte_at, le_data. cbn [map seq nth Nat.add]. rewrite !Z.shiftr_div_pow2 by lia. unfold u8, u16, wrap.
  change (2 ^ (8 * Z.of_nat 0)) with 1. change (2 ^ (8 * Z.of_nat 1)) with 256. change (2 ^ 8) with 256. change (2 ^ 16) with 65536.
  Z.to_euclidean_division_equations. lia.
Qed.

Lemma le32_data x : le32 (le_data 4 x) 0 = u32 x.
Proof.
  assert (Hb : Forall is_byte (le_data 4 x)) by (repeat (constructor; [apply u8_byte|]); constructor).
  unfold le32. change (0 + 2)%nat with 2%nat. rewrite Z.lor_comm. pose proof (le16_range _ 0 Hb). pose proof (le16_range _ 2 Hb).
  rewrite lor_shiftl_add by lia. rewrite !le16_spec by done.
  unfold byte_at, le_data. cbn [map seq nth Nat.add]. rewrite !Z.shiftr_div_pow2 by lia. unfold u8, u32, wrap.
  change (2 ^ (8 * Z.of_nat 0)) with 1. change (2 ^ (8 * Z.of_nat 1)) with 256. change (2 ^ (8 * Z.of_nat 2)) with 65536.
  change (2 ^ (8 * Z.of_nat 3)) with 16777216. change (2 ^ 8) with 256. change (2 ^ 16) with 65536. change (2 ^ 32) with 4294967296.
  Z.to_euclidean_division_equations. lia.
Qed.

(** ** The counter *)

(** The eight bytes of a counter. *)
Definition counter_bytes (n : Z) : list Z :=
  let b := le_data 2 BOOT_COUNT_SIGNATURE ++ le_data 4 n in b ++ le_data 2 (compute_ip_checksum b).

(** What eight bytes count: nothing if they are no counter. *)
Definition counter_valid (b : list Z) : bool :=
  (le16 b 0 =? BOOT_COUNT_SIGNATURE) && (compute_ip_checksum (take 6 b) =? le16 b 6).
Definition counter_value (b : list Z) : Z := if counter_valid b then le32 b 2 else 0.

Lemma compute_range l : Forall is_byte l -> 0 <= compute_ip_checksum l < 2 ^ 16.
Proof. intros Hl. rewrite compute_spec by done. pose proof (canon_range (word_sum 0 l)). lia. Qed.

Lemma data_bytes n x : Forall is_byte (le_data n x).
Proof. unfold le_data. apply Forall_map, Forall_forall. intros i _. apply u8_byte. Qed.

(** The fields of eight bytes. *)
Lemma fields_of_bytes a n k : let l := (le_data 2 a ++ le_data 4 n) ++ le_data 2 k in
  le16 l 0 = u16 a /\ take 6 l = le_data 2 a ++ le_data 4 n /\ le16 l 6 = u16 k /\ le32 l 2 = u32 n.
Proof. rewrite <- (le16_data a), <- (le16_data k), <- (le32_data n). done. Qed.

Lemma counter_bytes_value n : 0 <= n < 2 ^ 32 -> counter_value (counter_bytes n) = n.
Proof.
  intros Hn. unfold counter_value, counter_valid, counter_bytes. cbv zeta. set (b := le_data 2 _ ++ le_data 4 n).
  assert (Hb : Forall is_byte b) by (apply Forall_app; split; apply data_bytes).
  destruct (fields_of_bytes BOOT_COUNT_SIGNATURE n (compute_ip_checksum b)) as (E1 & E2 & E3 & E4). fold b in E1, E2, E3, E4.
  rewrite E1, E2, E3, E4. change (u16 BOOT_COUNT_SIGNATURE) with BOOT_COUNT_SIGNATURE.
  unfold u16. rewrite (wrap_small 16) by (by apply compute_range). rewrite !Z.eqb_refl. cbn [andb]. by apply u32_small.
Qed.

Section Hardware.
Context {S : Type} {inb : S -> Z -> Z * S} {outb : S -> Z -> Z -> S} {wf : S -> Prop}.
Context {cells sel : S -> Z -> Z} {keeps : Z -> Prop}.
Context `{H : !CmosHardware inb outb wf cells sel keeps}.
Variable off : Z.
(** The eight cells keep their values. *)
Hypothesis Hkeeps : forall a, off <= a < off + 8 -> keeps a.
Set Default Proof Using "Type".

Notation holds := (holds (wf := wf) (cells := cells) (keeps := keeps)).
Notation value c := (counter_value (slice c off 8)).

Lemma off_range : 0 <= off /\ off + 8 <= 256.
Proof using H Hkeeps.
  pose proof (hw_range off (Hkeeps off ltac:(lia))). pose proof (hw_range (off + 7) (Hkeeps (off + 7) ltac:(lia))). lia.
Qed.

Lemma cmos_read_counter s c : holds s c -> exists ret bc s',
  boot_count_cmos_read inb outb off s = (ret, bc, s') /\ holds s' c /\
  (if counter_valid (slice c off 8) then ret = 0 /\ signature bc = BOOT_COUNT_SIGNATURE else ret = -1) /\ count bc = le32 (slice c off 8) 2.
Proof using H Hkeeps.
  intros Hs. unfold boot_count_cmos_read, sizeof_boot_count.
  destruct (read_bytes_spec 8 s c off Hs Hkeeps) as (s1 & -> & H1). change (Z.of_nat 8) with 8.
  unfold counter_valid. set (b := slice c off 8). cbn [signature bc_checksum]. unfold bc_checksum_offset.
  destruct (Z.eqb_spec (le16 b 0) BOOT_COUNT_SIGNATURE) as [E|E]; cbn [negb andb].
  - destruct (Z.eqb_spec (compute_ip_checksum (take 6 b)) (le16 b 6)); cbn [negb]; eexists _, _, s1;
      (split; [reflexivity|]); done.
  - eexists _, _, s1. split; [reflexivity|]. done.
Qed.

(** The cells after the counter is written. *)
Lemma cmos_write_counter s c n x : holds s c ->
  exists c', holds (boot_count_cmos_write inb outb off s (mk_counter BOOT_COUNT_SIGNATURE n x)) c' /\
    slice c' off 8 = counter_bytes n /\ forall a, ~ off <= a < off + 8 -> c' a = c a.
Proof using H Hkeeps.
  intros Hs. pose proof off_range as Ho. unfold boot_count_cmos_write. cbn [signature count]. fold (counter_bytes n).
  eexists. split; [apply (write_bytes_spec (counter_bytes n) s c off Hs); [lia|]; change (Z.of_nat _) with 8; lia|].
  change (Z.of_nat (length (counter_bytes n))) with 8. split.
  - apply (nth_ext _ _ 0 0); [done|]. intros i Hi. rewrite slice_length in Hi. rewrite slice_nth by lia.
    rewrite (proj2 (Z.leb_le _ _)), (proj2 (Z.ltb_lt _ _)) by lia. cbn [andb].
    replace (Z.to_nat (off + Z.of_nat i - off)) with i by lia. apply u8_small, byte_at_byte.
    unfold counter_bytes. repeat (apply Forall_app; split); apply data_bytes.
  - intros a Ha. destruct (_ && _) eqn:E; [|done]. apply andb_prop in E as [E1 E2]. bool_to_prop. lia.
Qed.

Lemma value_range s c : holds s c -> 0 <= value c < 2 ^ 32.
Proof using H Hkeeps.
  intros Hs. unfold counter_value. destruct (counter_valid _); [|lia]. apply le32_range.
  apply Forall_forall. intros x Hx. unfold slice in Hx. apply list_elem_of_fmap in Hx as (i & -> & Hi%elem_of_seq).
  apply (holds_byte s c _ Hs), Hkeeps. lia.
Qed.

Lemma increment_spec s c : holds s c -> exists s' c', boot_count_increment inb outb off s = (u32 (value c + 1), s') /\
  holds s' c' /\ value c' = u32 (value c + 1) /\ (forall a, ~ off <= a < off + 8 -> c' a = c a).
Proof using H Hkeeps.
  intros Hs. unfold boot_count_increment. destruct (cmos_read_counter s c Hs) as (ret & bc & s1 & -> & H1 & Hv & Hc).
  set (bc1 := if ret <? 0 then _ else _).
  assert (E : signature bc1 = BOOT_COUNT_SIGNATURE /\ count bc1 = value c).
  { unfold bc1, counter_value. destruct (counter_valid _); [destruct Hv as [-> Hv]|subst ret]; done. }
  destruct E as [-> ->]. cbn [count].
  destruct (cmos_write_counter s1 c (u32 (value c + 1)) (bc_checksum bc1) H1) as (c' & H' & E' & F').
  eexists _, c'. split; [reflexivity|]. split; [exact H'|]. split; [|exact F'].
  rewrite E'. apply counter_bytes_value, u32_range.
Qed.

(** The boots of a machine, one after the other. *)
Fixpoint boots (n : nat) (s : S) : S :=
  match n with O => s | Datatypes.S n => boots n (snd (boot_count_increment inb outb off s)) end.

(** C22.  After any number of boots [boot_count_read] gives what the cells counted before, 0
    where they were no counter, and the number of boots, in 32 bits; it changes no cell, and
    the boots change none but the eight of the counter. *)
Theorem boot_count_correct n s c : holds s c -> exists s' c',
  boot_count_read inb outb off (boots n s) = (u32 (value c + Z.of_nat n), s') /\ holds s' c' /\
  (forall a, ~ off <= a < off + 8 -> c' a = c a).
Proof using H Hkeeps.
  revert s c. induction n as [|n IH]; intros s c Hs; cbn [boots].
  - unfold boot_count_read. destruct (cmos_read_counter s c Hs) as (ret & bc & s1 & -> & H1 & Hv & Hc).
    pose proof (value_range s c Hs) as R. rewrite Z.add_0_r, u32_small by done.
    exists s1, c. split; [|done]. unfold counter_value. destruct (counter_valid _); [destruct Hv as [-> _]|subst ret]; cbn; by rewrite ?Hc.
  - destruct (increment_spec s c Hs) as (s1 & c1 & -> & H1 & E1 & F1). cbn [snd].
    destruct (IH s1 c1 H1) as (s2 & c2 & E2 & H2 & F2). exists s2, c2. split; [|split; [done|]].
    + rewrite E2, E1. f_equal. unfold u32, wrap. rewrite Zplus_mod_idemp_l. f_equal. lia.
    + intros a Ha. by rewrite F2, F1.
Qed.
End Hardware.

(** Three boots from cells that were never written. *)
Lemma boot_count_witness :
  fst (boot_count_read ram_inb ram_outb 0x50 (boots (inb := ram_inb) (outb := ram_outb) 0x50 3 (ram_of (fun _ => 0xff)))) = 3.
Proof.
  assert (Hr : ram_ok (ram_of (fun _ => 0xff))) by (split; [done|split; [by apply bytes_check; vm_compute|cbn; lia]]).
  destruct (boot_count_correct (H := ram_hardware) 0x50 ltac:(unfold ram_keeps; lia) 3 (ram_of (fun _ => 0xff)) _
    (holds_self _ Hr)) as (s' & c' & E & _).
  rewrite E. reflexivity.
Defined.
